(* ===== verification/_CoqProject ===== *)
-Q . S2P
Prelude.v
Steps.v
Text.v
PatchPath.v
Skeleton.v
PatchOps.v
PatchTree.v
PatchEdits.v
PatchDoc.v
PatchFrame.v
PatchMeaning.v
PatchRefine.v
MsgpackSample.v
Crc32.v
Types.v
Metadata.v
Compressor.v
Block.v
FileSys.v
Writer.v
Reader.v
Contents.v
Log.v
Session.v
Loops.v
Compactor.v
Crash.v
Compaction.v
Chronicler.v
Durability.v
Lock.v
Guard.v
Vigil.v
Treasure.v
Beacon.v
Views.v
Windows.v
Canon.v
Bucket.v
Slots.v
Indexing.v
Meta.v
Folder.v
ChroniclerV1.v
Swamp.v
Gateway.v
Filters.v
Planner.v
GatewaySearch.v
Plans.v
Alike.v
SwampInv.v
Fields.v
Searches.v
FieldSteps.v
SwampSteps.v
Saving.v
Increments.v
SwampPatch.v
GatewayPatch.v
SwampPatchExpired.v
SwampRun.v
SwampStore.v
Names.v
Settings.v
Hydra.v
HydraInv.v
Sdk.v
FormatProps.v
StorageProps.v
Migrator.v
ChroniclerProps.v
ConcurrencyProps.v
BeaconProps.v
IndexProps.v
SwampProps.v
PatchProps.v
FilterProps.v
RegistryProps.v
ModelProps.v
