(* ===== verification/Prelude.v ===== *)
(** HydrAIDE: a verification development.

    HydrAIDE is a Go database that keeps named data sets ("swamps") of keyed records
    ("treasures").  The program's parts are, from the disk up:

    - the append-only [.hyd] storage engine, [src/app/core/hydra/swamp/chronicler/v2/]
      (types, block, writer, reader, compactor), over the compressor dispatch of
      [src/app/core/compressor/compressor.go], and the chronicler that a swamp saves through,
      [src/app/core/hydra/swamp/chronicler/chronicler_v2.go];
    - the treasures with their guards, the in-memory indexes (beacons by key, time and value,
      buckets by a field of the body), the metadata, the counter of running operations, and the
      swamp that ties them together, [src/app/core/hydra/swamp/];
    - the hydra that owns the swamps, the business lock, the shutdown counter, and the
      gRPC gateway, [src/app/core/hydra/], [src/app/core/safeops/], [src/app/server/].

    A client's request reaches a handler of the gateway, which takes a vigil on the swamp, takes
    the guard of a treasure, changes it with its setters and saves it; the save puts it into
    the indexes and the write buffer; the write listener (or the save itself, when the swamp
    has no write interval) hands the buffer to the chronicler, which appends to the file and
    reports the file's name back into the treasure.

    ** Files

    Foundations:
    - [Prelude.v]: bytes, machine integers, little-endian codecs, buffers, errors, the
      state-and-error monad [M], map iteration order, shared tactics and hint databases.
    - [Text.v]: the string functions of Go that the paths use ([strings.Split], [strconv.Atoi]).
    - [Steps.v]: step functions with an outcome ([Next], [Disabled], [Panic]) and their runs;
      [Disabled] is a wait that cannot end yet.

    The storage engine ([chronicler/v2/], [compressor.go]):
    - [Crc32.v]: [hash/crc32] with the IEEE polynomial, and that it detects every damage
      inside four consecutive bytes.
    - [Types.v], [Metadata.v]: [types.go], the headers, entries and swamp metadata, their
      serialised layouts and the lemmas that decoding inverts encoding and back.
    - [Compressor.v]: [compressor.go].  The codecs are packages the repository only calls:
      the class [Codecs] has one function per codec and direction, [CodecsOk] the three
      documented facts about snappy the block format relies on, and [Stored] an instance
      of both.
    - [Block.v]: [block.go], the write buffer and the block parser.
    - [FileSys.v]: the operating system: a map from paths to contents, open descriptors,
      and a schedule of injected failures.  A failing write transfers an arbitrary prefix
      of its data; a crash is a schedule in which every later call fails.
    - [Writer.v], [Reader.v], [Compactor.v]: [writer.go], [reader.go], [compactor.go], one
      definition per method, in the monad, every system call in the order of the code.
    - [Contents.v]: the abstract content of a file, [holds c h name blocks tail], and the
      execution of the reader on it; [Log.v]: what a log of entries means (last writer
      wins); [Session.v]: the invariant of an open writer and the refinement of a writing
      session to appending to a log; [Crash.v]: a flush under arbitrary failures;
      [Loops.v]: the header scan and termination of the reader's loops; [Compaction.v]:
      compaction with and without failures.
    - [Chronicler.v]: [chronicler_v2.go], load with its self-heal, write, the inline
      compaction, close, sync and destroy; [Durability.v]: its invariant [keeps_index].

    The engine of one file per chunk, and the way from it ([core/filesystem/], [chronicler.go],
    [chronicler/v2/migrator/]):
    - [Folder.v]: [filesystem.go], files of segments in a folder; [ChroniclerV1.v]: loading and
      writing with it, new treasures across files that become full, and its property;
    - [Migrator.v]: [migrator.go] and [helpers.go], one folder after the other, under failures, and
      its properties.

    Concurrency, each an event type and a step function over interleavings:
    - [Lock.v]: [lock.go]; [Guard.v]: [guard.go]; [Vigil.v]: [vigil.go].

    Data in memory:
    - [Treasure.v]: [treasure.go], contents, setters that ask the guard, getters, copies and
      slices of numbers.
    - [Beacon.v]: [beacon.go] over pointers to treasures; [Views.v]: the map and the ordered
      slice hold the same treasures, and a sort for the examples; [Windows.v]: binary searches and pages.
    - [Canon.v]: [valuecanon.go] and the path selectors; [Bucket.v]: [bucket.go];
      [Slots.v]: the bucket's invariant; [Indexing.v]: [swamp_bucket.go], the builds of a
      field index among the saves, deletions and reports of other goroutines;
      [Alike.v]: treasures that no getter tells apart; [Fields.v]: the indexes of a swamp against
      its live treasures, and what the planner collects from them.
    - [Meta.v]: [metadata.go] and [noop.go].

    Patches of msgpack bodies ([treasure/msgpackpatch/]):
    - [PatchPath.v]: [codes.go], [path.go], trees; [Skeleton.v]: [skeleton.go] and
      [serialize.go], with the msgpack library as the class [MsgpackCodec] and its laws;
      [PatchOps.v]: the operations, [Apply] and the conditions.
    - [PatchTree.v], [PatchEdits.v]: every operation is one edit along its path;
      [PatchDoc.v]: the documents, the grammar of the blobs that stand for them, and that
      [Parse] accepts this grammar; [PatchFrame.v]: what an edit leaves alone;
      [PatchMeaning.v], [PatchRefine.v]: an operation on a blob is the operation on its document.
    - [MsgpackSample.v]: an executable codec with the laws, for the examples.

    The swamp and its clients:
    - [Swamp.v]: [swamp.go].  [heap] is the store its beacons, write buffer and field indexes
      point into; what it knows of its chronicler is the class [Store], and the encoding of a
      treasure the class [GobModel].
    - [Gateway.v]: the handlers of [gateway.go] on a swamp that is summoned.
    - [SwampInv.v]: the class [StoreOk], what a storage promises a swamp, and the invariant
      [durable] between the objects, the write buffer and the stored data;
      [SwampSteps.v]: every operation against the abstract state, a map from keys to contents;
      [Saving.v], [Increments.v]: an edit that is saved, and the typed increments;
      [SwampPatch.v], [GatewayPatch.v]: [swamp_patch.go] and [gateway_patch.go], a patch of one
      key and a batch with a cap; [SwampPatchExpired.v]: [swamp_patch_expired.go] with its requests,
      and what a filter of a cap may hold;
      [SwampRun.v]: whole sessions of requests; [SwampStore.v]: the chronicler is a [Store],
      and [Durability.v] makes it a [StoreOk]; its Module [Sample]: an executable encoding and
      storage for the examples.

    Searches:
    - [Filters.v]: the legs of a filter group on a treasure, a profile and a decoded body, with the
      labels and scores of what matched; [Planner.v]: the plan of a group, the lookups in field
      indexes, bounds, order and page; [GatewaySearch.v]: the requests that search one swamp.
    - [Plans.v]: a plan and its rest are the filter; [Searches.v]: what the steps of a stream
      keep; [FieldSteps.v]: every operation of a swamp keeps its field indexes.

    Names, settings and the registry of open swamps:
    - [Names.v]: [name.go]; [Settings.v]: [settings.go] and its requests;
    - [Hydra.v]: [hydra.go], summoning, closing, destroying and subscribing as steps of many callers;
      its Module [Opening]: [safeops.go], what a summon makes of the settings, the checks of a
      request and the lock requests; [HydraInv.v]: the invariants of the waiters.

    The models of the Go SDK ([sdk/go/hydraidego/]):
    - [Sdk.v]: the conversions of catalog and profile models to key-value pairs and of treasures back into
      models ([conversions.go], [conversions_mapbody.go], [hydraidego.go]).

    The properties, with a witness for each that has hypotheses: [FormatProps.v],
    [StorageProps.v], [ChroniclerV1.v], [Migrator.v], [ChroniclerProps.v], [ConcurrencyProps.v],
    [BeaconProps.v] (treasures too), [IndexProps.v], [SwampProps.v], [PatchProps.v] (Module [Cap]:
    caps and expired treasures), [FilterProps.v], [RegistryProps.v], [ModelProps.v].

    ** What the theorems show

    - Format: encoding and decoding of headers, entries, blocks and metadata are inverse to
      each other on exactly the values the format can represent; damage to a block within
      four bytes is detected; a block loses entries exactly when its 16-bit entry counter
      wraps.
    - Writing and reading: any sequence of writes, flushes and syncs, followed by a close,
      refines appending to a log, and loading the file gives the last value of every key.
    - Crashes: a flush that fails anywhere leaves the log before it, the log after it, or
      (cut inside a payload) a file that does not load; what the reader does with every
      torn tail; what a later append to a torn file does.
    - Compaction: where no temporary file was left over it keeps the live data and the name, leaves one
      entry per live key, and is atomic under every schedule of failures; what a leftover one does.
    - Termination: the reader's loops end on every input.
    - Chronicler: it keeps the last data of every key through saves, syncs and compactions; when
      the inline compaction runs; what [ForceCompaction] does below the threshold.
    - Concurrency: the business lock and the guard are exclusive, in the order of the calls,
      without lost wake-ups (the guard as long as its identifiers are released once), and the queue of a
      lock drains; what a second release of an identifier does to the guard; when the wait for running operations can miss its wake-up.
    - Treasures and beacons: a setter reads back; slices of numbers are sets; the views of a
      beacon agree; pages of a sorted beacon are the filtered list; quotas and patches.
    - Field indexes: equality of canonical values is an equivalence; in the interleavings
      with one builder where a key changes only after the last report on it was delivered, a field
      index answers as a scan; how others break it.
    - Swamps: a session of requests is answered as an abstract map would, and a swamp opened
      on the file again has the map's last state ([swamp_keeps_data], through [StoreOk] down
      to the bytes of the file; what the session may do is [may_all]); which values do not survive the
      encoding; the increments, with their wrap-around, and what a refused one does; three defects, a deleted key that comes back, a request that
      waits for itself, and what a refused increment leaves behind.
    - Patches: parsing ends and accepts exactly a grammar; an operation on a blob is the
      operation on its document, errors included; what a batch does not name it keeps; what a
      path reads after SET and INC; where a batch differs from the sequence of its operations.
      A batch on a swamp is its patches in order on the abstract state, and a cap bounds what
      matches afterwards, unless another batch counted at the same time.  [PatchExpired]
      takes the first expired treasures in the order of their times, and is their patches; what it counts
      for its cap.
    - Searches: the labels of a match; a phrase is found at consecutive positions; a plan keeps the
      filter; on bodies the filter can search ([searchable]) a planned stream without bounds on its
      length sends exactly the matches, in order, once; the selections of the requests that shift and patch; field indexes stay true and in order through every operation;
      where a plan changes an answer.
    - Names and settings: names and paths determine each other; which patterns match; where the folder of a
      swamp lies; the settings file after any run of requests.
    - Registry: summoning excludes in every interleaving, without panics and lost wake-ups; while
      nothing closes every name has one swamp and every caller returns; four schedules that break it.
    - The old engine: what a write that agrees with its folder leaves for the next load; a migration
      deletes nothing that it has not written, under every schedule of failures, and what one without
      failures wrote, beside no earlier file, reads as before.
    - SDK models: a model that names one role for each of its fields reads back, but for times at or before
      1970; tags that the checks misread.

    ** Bounds, fuel and assumptions

    Fixed-width integers are the [Z] they denote, with [u16], [u32], [u64] and [i64]
    written where Go converts or adds; [int] sums of lengths are not bounded.  The block
    loops of the reader run with one unit of fuel more than the file has bytes, and
    [reader_terminates] proves that they never use it up.  The theorems about sessions
    assume a block size of at most 8 * 65535 bytes, under which the 16-bit entry counter of
    a block cannot wrap ([safe_block_size]; the default of 16 KiB is well below), entries
    with less than a gigabyte of data and a name of less than 64 KiB.  Fragmentation is
    computed in binary64 with [SpecFloat].  A mutex makes each method one atomic step.
    The drain of a field index's pending reports runs twice at most where nobody else adds to
    them, which is [DrainPending]'s fuel; [Indexing.v] has every round as a step of its own.

    [Swamp.v] and [Gateway.v] run one request after the other: a guard or vigil that is not
    free makes the request [Disabled].  Their theorems are about a world without I/O failures.
    The interleavings of requests are the subject of [Guard.v], [Vigil.v] and [Indexing.v].
    Code outside the repository is a class with the laws used of it: [Codecs] (compression),
    [GobModel] and [GobMeta] ([encoding/gob]), [Msgpack], [FloatToInt] (the platform's
    conversion of a float outside the integers), and Go's unspecified orders, [MapRange],
    [SlotRange], [KeyRange], [PatternRange], [StringRange] (ranging over a map) and [SortSlice]
    ([sort.Slice]).  The msgpack library is [MsgpackCodec], with the laws [MsgpackCodecOk] and
    [MsgpackNumbersOk]: an element is read from its own bytes, and what is written is read back; for whole
    Go values it is [SdkCodec], together with [encoding/gob].  The remaining ones are [LowerCase]
    ([strings.ToLower]), [Trigonometry] ([math.Sin] and the like), [XXHash], [SettingsJSON]
    ([encoding/json]), [V1Gob] (a stored treasure of the old engine) and [UUIDs].

    ** What is not modelled

    - Of the storage: directory listing and walking, creating and removing folders, the worker pool and
      the reports of the migration, the content of fsync beyond its success or failure, and
      concurrent writers of one path (the program opens a file once).
    - Of the swamp and the gateway: what only reports on a swamp; the streams of events and of
      telemetry; the requests to many swamps, which call the modelled operations one after the other;
      the loop of [GracefulStop], which waits, logs and forces the closing.
    - Of the SDK: the methods of its client, which send requests to servers; the reflection under the
      conversions, of which [Sdk.v] has what it finds, and the registration of types with [gob].
    - Process wiring, panic handling, telemetry, the explorer, the command line tool, generated code
      and the other SDKs: input and output around the core. *)
From Stdlib Require Export ZArith Lia List Strings.Byte.
From stdpp Require Export base countable gmap list fin_maps strings.

Open Scope Z_scope.

(** ** Bytes and byte strings

    A Go [[]byte] and a Go [string] are both finite byte sequences, so both are
    [list byte]; [bs] turns an ASCII literal into one. *)

Abbreviation byte := Corelib.Init.Byte.byte.
Abbreviation bytes := (list byte).
Abbreviation bs := String.list_byte_of_string.

#[export] Instance byte_eq_dec : EqDecision byte := Byte.byte_eq_dec.

Definition Z_of_byte (b : byte) : Z := Z.of_N (Byte.to_N b).

Definition byte_of_Z (z : Z) : byte :=
  match Byte.of_N (Z.to_N (z mod 256)) with
  | Some b => b
  | None => x00
  end.

Lemma byte_of_to_N (b : byte) :
  match Byte.of_N (Byte.to_N b) with Some b' => b' | None => x00 end = b.
Proof. by rewrite Byte.of_to_N. Qed.

#[export] Instance byte_countable : Countable byte :=
  inj_countable' Byte.to_N
    (fun n => match Byte.of_N n with Some b => b | None => x00 end) byte_of_to_N.

Lemma Z_of_byte_bound (b : byte) : 0 <= Z_of_byte b < 256.
Proof. pose proof (Byte.to_N_bounded b). unfold Z_of_byte. lia. Qed.

Lemma Z_of_byte_of_Z (z : Z) : Z_of_byte (byte_of_Z z) = z mod 256.
Proof.
  unfold Z_of_byte, byte_of_Z.
  pose proof (Z.mod_pos_bound z 256 ltac:(lia)) as Hb.
  destruct (Byte.of_N (Z.to_N (z mod 256))) as [b|] eqn:E.
  - apply Byte.to_of_N in E. rewrite E. lia.
  - apply Byte.of_N_None_iff in E. lia.
Qed.

Lemma byte_of_Z_of_byte (b : byte) : byte_of_Z (Z_of_byte b) = b.
Proof.
  unfold byte_of_Z. rewrite Z.mod_small by apply Z_of_byte_bound.
  unfold Z_of_byte. by rewrite N2Z.id, Byte.of_to_N.
Qed.

Lemma Z_of_byte_inj (a b : byte) : Z_of_byte a = Z_of_byte b -> a = b.
Proof. intros H. by rewrite <-(byte_of_Z_of_byte a), H, byte_of_Z_of_byte. Qed.

(** ** Machine integers

    A fixed-width Go integer is the [Z] it denotes; a conversion or an
    arithmetic result wraps explicitly. *)

Definition u8 (z : Z) : Z := z mod 2 ^ 8.
Definition u16 (z : Z) : Z := z mod 2 ^ 16.
Definition u32 (z : Z) : Z := z mod 2 ^ 32.
Definition u64 (z : Z) : Z := z mod 2 ^ 64.
Definition i64 (z : Z) : Z := (z + 2 ^ 63) mod 2 ^ 64 - 2 ^ 63.

Definition in_u8 (z : Z) : Prop := 0 <= z < 2 ^ 8.
Definition in_u16 (z : Z) : Prop := 0 <= z < 2 ^ 16.
Definition in_u32 (z : Z) : Prop := 0 <= z < 2 ^ 32.
Definition in_u64 (z : Z) : Prop := 0 <= z < 2 ^ 64.
Definition in_i64 (z : Z) : Prop := - 2 ^ 63 <= z < 2 ^ 63.

Lemma u16_small z : in_u16 z -> u16 z = z.
Proof. intros. by apply Z.mod_small. Qed.
Lemma u32_small z : in_u32 z -> u32 z = z.
Proof. intros. by apply Z.mod_small. Qed.
Lemma u64_small z : in_u64 z -> u64 z = z.
Proof. intros. by apply Z.mod_small. Qed.
Lemma u16_bound z : in_u16 (u16 z).
Proof. apply Z.mod_pos_bound. lia. Qed.
Lemma u32_bound z : in_u32 (u32 z).
Proof. apply Z.mod_pos_bound. lia. Qed.
Lemma u64_bound z : in_u64 (u64 z).
Proof. apply Z.mod_pos_bound. lia. Qed.

(** The two's complement view: [int64(uint64(z)) = z]. *)
Lemma i64_u64 z : in_i64 z -> i64 (u64 z) = z.
Proof.
  intros Hz. unfold i64, u64, in_i64 in *.
  rewrite Zplus_mod_idemp_l, Z.mod_small; lia.
Qed.

(** ** Little-endian integers ([binary.LittleEndian]) *)

Fixpoint le_put (n : nat) (z : Z) : bytes :=
  match n with
  | O => []
  | S n => byte_of_Z z :: le_put n (z / 256)
  end.

Fixpoint le_get (l : bytes) : Z :=
  match l with
  | [] => 0
  | b :: l => Z_of_byte b + 256 * le_get l
  end.

Lemma length_le_put n z : length (le_put n z) = n.
Proof. revert z. induction n; intros; simpl; auto. Qed.

Lemma le_get_bound l : 0 <= le_get l < 256 ^ Z.of_nat (length l).
Proof.
  induction l as [|b l IH]; simpl length; [simpl; lia|].
  rewrite Nat2Z.inj_succ, Z.pow_succ_r by lia. simpl.
  pose proof (Z_of_byte_bound b). lia.
Qed.

Lemma le_get_put n z : le_get (le_put n z) = z mod 256 ^ Z.of_nat n.
Proof.
  revert z. induction n as [|n IH]; intros z; [by rewrite Z.mod_1_r|].
  rewrite Nat2Z.inj_succ, Z.pow_succ_r by lia. cbn [le_put le_get].
  rewrite IH, Z_of_byte_of_Z, Z.rem_mul_r; lia.
Qed.

Lemma le_put_get l : le_put (length l) (le_get l) = l.
Proof.
  induction l as [|b l IH]; [done|]. cbn [length le_put le_get].
  pose proof (Z_of_byte_bound b) as Hb. f_equal.
  - apply Z_of_byte_inj.
    rewrite Z_of_byte_of_Z, Z.mul_comm, Z.mod_add, Z.mod_small; lia.
  - rewrite Z.mul_comm, Z.div_add, Z.div_small, Z.add_0_l by lia. apply IH.
Qed.

Lemma le_get_inj l k : length l = length k -> le_get l = le_get k -> l = k.
Proof. intros Hl H. by rewrite <-(le_put_get l), Hl, H, le_put_get. Qed.

Lemma le_get_put_small n z : 0 <= z < 256 ^ Z.of_nat n -> le_get (le_put n z) = z.
Proof. intros Hz. by rewrite le_get_put, Z.mod_small. Qed.

Lemma le_u16 z : in_u16 z -> le_get (le_put 2 z) = z.
Proof. apply (le_get_put_small 2). Qed.
Lemma le_u32 z : in_u32 z -> le_get (le_put 4 z) = z.
Proof. apply (le_get_put_small 4). Qed.
Lemma le_u64 z : in_u64 z -> le_get (le_put 8 z) = z.
Proof. apply (le_get_put_small 8). Qed.

Lemma le_get_u16 l : length l = 2%nat -> in_u16 (le_get l).
Proof. intros H. pose proof (le_get_bound l) as Hb. by rewrite H in Hb. Qed.
Lemma le_get_u32 l : length l = 4%nat -> in_u32 (le_get l).
Proof. intros H. pose proof (le_get_bound l) as Hb. by rewrite H in Hb. Qed.
Lemma le_get_u64 l : length l = 8%nat -> in_u64 (le_get l).
Proof. intros H. pose proof (le_get_bound l) as Hb. by rewrite H in Hb. Qed.

Lemma le_get_cons b l : le_get (b :: l) = Z_of_byte b + 256 * le_get l.
Proof. done. Qed.

#[global] Arguments le_put : simpl never.
#[global] Arguments le_get : simpl never.

Create HintDb codec discriminated.
#[export] Hint Resolve u16_bound u32_bound u64_bound le_get_u16 le_get_u32 le_get_u64 : codec.

(** ** Byte buffers

    [copy_at off src buf] is [copy(buf[off:], src)] on a buffer that is long
    enough; [slice lo hi buf] is the slice expression [buf[lo:hi]]. *)

Definition copy_at (off : nat) (src buf : bytes) : bytes :=
  take off buf ++ src ++ drop (off + length src) buf.

Definition slice (lo hi : nat) (buf : bytes) : bytes := take (hi - lo) (drop lo buf).

Definition make_bytes (n : nat) : bytes := replicate n x00.

#[global] Arguments copy_at : simpl never.
#[global] Arguments slice : simpl never.
#[global] Arguments make_bytes : simpl never.

Lemma length_copy_at off src buf :
  (off + length src <= length buf)%nat -> length (copy_at off src buf) = length buf.
Proof. intros. unfold copy_at. rewrite !length_app, length_take, length_drop. lia. Qed.

(** Filling a zeroed buffer from left to right: [copy_at] at the end of what has
    been written extends the written part. *)
Lemma copy_at_fill done_ src n :
  (length src <= n)%nat ->
  copy_at (length done_) src (done_ ++ make_bytes n)
  = (done_ ++ src) ++ make_bytes (n - length src).
Proof.
  intros Hn. unfold copy_at. rewrite take_app_length, drop_app_ge by lia.
  replace (length done_ + length src - length done_)%nat with (length src) by lia.
  unfold make_bytes. by rewrite drop_replicate, app_assoc.
Qed.

Lemma copy_at_start src n :
  (length src <= n)%nat -> copy_at 0 src (make_bytes n) = src ++ make_bytes (n - length src).
Proof. apply (copy_at_fill []). Qed.

Lemma copy_at_next off done_ src n :
  off = length done_ -> (length src <= n)%nat ->
  copy_at off src (done_ ++ make_bytes n) = (done_ ++ src) ++ make_bytes (n - length src).
Proof. intros ->. apply copy_at_fill. Qed.

(** Reading a field of a concatenation: drop the fields before it, then take it. *)
Lemma slice_skip lo hi a b :
  (length a <= lo)%nat -> slice lo hi (a ++ b) = slice (lo - length a) (hi - length a) b.
Proof.
  intros. unfold slice. rewrite drop_app_ge by done.
  replace (hi - length a - (lo - length a))%nat with (hi - lo)%nat by lia. done.
Qed.

Lemma slice_here lo hi a b : lo = O -> hi = length a -> slice lo hi (a ++ b) = a.
Proof. intros -> ->. unfold slice. rewrite drop_0, Nat.sub_0_r. apply take_app_length. Qed.

Lemma slice_all lo hi a : lo = O -> hi = length a -> slice lo hi a = a.
Proof. intros -> ->. unfold slice. rewrite drop_0, Nat.sub_0_r. by apply firstn_all. Qed.

Lemma length_slice lo hi a :
  (lo <= hi)%nat -> (hi <= length a)%nat -> length (slice lo hi a) = (hi - lo)%nat.
Proof. intros. unfold slice. rewrite length_take, length_drop. lia. Qed.

Lemma slice_split lo mid hi a :
  (lo <= mid <= hi)%nat -> slice lo hi a = slice lo mid a ++ slice mid hi a.
Proof.
  intros. unfold slice. replace (hi - lo)%nat with ((mid - lo) + (hi - mid))%nat by lia.
  rewrite <-take_take_drop, drop_drop. do 2 f_equal. f_equal. lia.
Qed.

Lemma take_slice n a : take n a = slice 0 n a.
Proof. unfold slice. by rewrite drop_0, Nat.sub_0_r. Qed.

Lemma le_put_slice lo hi n a :
  (hi - lo)%nat = n -> (lo <= hi <= length a)%nat -> le_put n (le_get (slice lo hi a)) = slice lo hi a.
Proof. intros <- H. rewrite <-(length_slice lo hi a) by lia. apply le_put_get. Qed.

(** ** Errors and results

    The sentinel errors of the storage package, the errors of [io] and [os] it
    inspects, and one constructor per anonymous [errors.New] it returns. *)

Inductive err : Type :=
| ErrInvalidMagic
| ErrUnsupportedVer
| ErrCorruptedBlock
| ErrCorruptedEntry
| ErrEmptyKey
| ErrFileClosed
| ErrCompactionRunning
| ErrBufferTooSmall
| ErrEmptyPath
| ErrUnknownCompressor
| ErrCompress
| ErrDecompress
| EOF
| ErrUnexpectedEOF
| ErrNotExist
| ErrIO
| ErrClosedFd
| ErrNotEmpty
| ErrDecode
| ErrMissingKey
| ErrFuel.

#[export] Instance err_eq_dec : EqDecision err.
Proof. solve_decision. Defined.

Inductive result (A : Type) : Type :=
| Ok (a : A)
| Err (e : err).
Arguments Ok {A} a.
Arguments Err {A} e.

Lemma Ok_inj {A} (a b : A) : Ok a = Ok b -> a = b.
Proof. by intros [= ->]. Qed.

Definition rbind {A B} (r : result A) (f : A -> result B) : result B :=
  match r with Ok a => f a | Err e => Err e end.

(** ** The state and error monad

    A Go method with receiver state [S] that may fail is a [M S A].  The state
    survives an error: what a method did before it failed stays done. *)

Definition M (S A : Type) : Type := S -> S * result A.

Definition ret {S A} (a : A) : M S A := fun s => (s, Ok a).
Definition fail {S A} (e : err) : M S A := fun s => (s, Err e).
Definition bind {S A B} (m : M S A) (k : A -> M S B) : M S B :=
  fun s => match m s with
           | (s', Ok a) => k a s'
           | (s', Err e) => (s', Err e)
           end.
Definition gets {S A} (f : S -> A) : M S A := fun s => (s, Ok (f s)).
Definition modify {S} (f : S -> S) : M S unit := fun s => (f s, Ok tt).
Definition liftr {S A} (r : result A) : M S A := fun s => (s, r).

(** [try m] makes the error of [m] a value; [ignore m] drops it ([_ = m]). *)
Definition try {S A} (m : M S A) : M S (result A) :=
  fun s => let (s', r) := m s in (s', Ok r).
Definition ignore {S A} (m : M S A) : M S unit :=
  fun s => let (s', _) := m s in (s', Ok tt).

(** [m `on_err` h] is [if err := m; err != nil { h; return err }]. *)
Definition on_err {S A B} (m : M S A) (h : M S B) : M S A :=
  fun s => match m s with
           | (s', Err e) => ((h s').1, Err e)
           | ok => ok
           end.

Lemma bind_run {S A B} (m : M S A) (k : A -> M S B) s s' a :
  m s = (s', Ok a) -> bind m k s = k a s'.
Proof. unfold bind. by intros ->. Qed.

Lemma bind_err {S A B} (m : M S A) (k : A -> M S B) s s' e :
  m s = (s', Err e) -> bind m k s = (s', Err e).
Proof. unfold bind. by intros ->. Qed.

Lemma bind_Ok {S A B} (m : M S A) (k : A -> M S B) s s' b :
  bind m k s = (s', Ok b) -> exists s1 a, m s = (s1, Ok a) /\ k a s1 = (s', Ok b).
Proof. unfold bind. destruct (m s) as [s1 [a|e]]; [eauto|done]. Qed.

Lemma try_run {S A} (m : M S A) s s' r : m s = (s', r) -> try m s = (s', Ok r).
Proof. unfold try. by intros ->. Qed.

Lemma on_err_run {S A B} (m : M S A) (h : M S B) s s' a :
  m s = (s', Ok a) -> on_err m h s = (s', Ok a).
Proof. unfold on_err. by intros ->. Qed.

Declare Scope go_scope.
Delimit Scope go_scope with go.
Notation "x <-- m ;; k" := (bind m (fun x => k))
  (at level 100, m at next level, right associativity) : go_scope.
Notation "m ;;; k" := (bind m (fun _ => k))
  (at level 100, right associativity) : go_scope.
Open Scope go_scope.

(** A binary relation on states is respected by [m] when it relates the state
    before to the state after, on every outcome. *)
Definition respects {S A} (R : relation S) (m : M S A) : Prop :=
  forall s, R s (m s).1.

Create HintDb frame discriminated.

Section Respects.
Context {S : Type} (R : relation S) `{!PreOrder R}.

Lemma respects_ret {A} (a : A) : respects R (ret a).
Proof. intros s. simpl. reflexivity. Qed.
Lemma respects_fail {A} e : respects R (fail (A := A) e).
Proof. intros s. simpl. reflexivity. Qed.
Lemma respects_gets {A} (f : S -> A) : respects R (gets f).
Proof. intros s. simpl. reflexivity. Qed.
Lemma respects_liftr {A} (r : result A) : respects R (liftr r).
Proof. intros s. simpl. reflexivity. Qed.
Lemma respects_modify f : (forall s, R s (f s)) -> respects R (modify f).
Proof. intros H s. apply H. Qed.
Lemma respects_bind {A B} (m : M S A) (k : A -> M S B) :
  respects R m -> (forall a, respects R (k a)) -> respects R (bind m k).
Proof.
  intros Hm Hk s. unfold bind. specialize (Hm s). destruct (m s) as [s' [a|e]]; [|done].
  etransitivity; [exact Hm|apply Hk].
Qed.
Lemma respects_try {A} (m : M S A) : respects R m -> respects R (try m).
Proof. intros Hm s. unfold try. specialize (Hm s). by destruct (m s). Qed.
Lemma respects_ignore {A} (m : M S A) : respects R m -> respects R (ignore m).
Proof. intros Hm s. unfold ignore. specialize (Hm s). by destruct (m s). Qed.
Lemma respects_on_err {A B} (m : M S A) (h : M S B) :
  respects R m -> respects R h -> respects R (on_err m h).
Proof.
  intros Hm Hh s. unfold on_err. specialize (Hm s). destruct (m s) as [s' [a|e]]; [done|].
  simpl in *. etransitivity; [exact Hm|apply Hh].
Qed.
End Respects.

#[export] Hint Resolve respects_ret respects_fail respects_gets respects_liftr
  respects_bind respects_try respects_ignore respects_on_err : frame.

(** ** Map iteration

    [for k, v := range m] visits a Go map in an unspecified order.  The order is a
    parameter, of which only [MapRangeOk] is used. *)

Class MapRange := map_range : gmap bytes bytes -> list (bytes * bytes).
Class MapRangeOk `{MapRange} : Prop :=
  map_range_perm m : map_range m ≡ₚ map_to_list m.

Lemma map_range_list_to_map `{MapRange} `{!MapRangeOk} m : list_to_map (map_range m) = m.
Proof.
  rewrite (list_to_map_proper _ (map_to_list m)); [apply list_to_map_to_list| |apply map_range_perm].
  rewrite (map_range_perm m). apply NoDup_fst_map_to_list.
Qed.

Lemma map_range_NoDup `{MapRange} `{!MapRangeOk} m : NoDup (map_range m).*1.
Proof. rewrite (map_range_perm m). apply NoDup_fst_map_to_list. Qed.

Lemma map_range_size `{MapRange} `{!MapRangeOk} m : length (map_range m) = size m.
Proof. rewrite (map_range_perm m). apply length_map_to_list. Qed.

(** [range] over a map from strings to values of any type. *)
Class StringRange := string_range : forall {A}, gmap bytes A -> list (bytes * A).
Class StringRangeOk `{SRG : StringRange} : Prop :=
  string_range_perm : forall A (m : gmap bytes A), string_range m ≡ₚ map_to_list m.

(** ** Tactics *)

(** Case analysis on the first [match] of the goal or of a hypothesis. *)
Ltac split_match :=
  match goal with
  | |- context [match ?x with _ => _ end] => destruct x eqn:?; simplify_eq/=
  | H : context [match ?x with _ => _ end] |- _ => destruct x eqn:?; simplify_eq/=
  end.

(** Byte-list lengths, in the goal. *)
Ltac len :=
  unfold make_bytes;
  rewrite ?length_app, ?length_cons, ?length_nil, ?length_take, ?length_drop,
    ?length_le_put, ?length_replicate; simpl length; try lia.

(** Serialised records: rewrite a chain of [copy_at]s into a concatenation, and
    read the fields back out of one. *)
Ltac copy_chain :=
  rewrite copy_at_start by len;
  repeat (rewrite copy_at_next by len).
Ltac read_fields :=
  repeat first
    [ rewrite slice_here by len | rewrite slice_all by len | rewrite slice_skip by len ].
