(* ===== verification/Steps.v ===== *)
(** Step functions with an outcome, and their runs: shared by the models of the concurrent
    parts of the server ([Lock.v], [Guard.v], [Vigil.v], [Hydra.v]) and by the requests, which may
    block or panic.  An event is one atomic section of
    one goroutine; a list of events is an interleaving. *)
From S2P Require Import Prelude.

(** A step is impossible now, is a Go panic, or gives the next state. *)
Inductive outcome (S : Type) : Type :=
| Disabled
| Panic
| Next (s : S).
#[global] Arguments Disabled {S}.
#[global] Arguments Panic {S}.
#[global] Arguments Next {S} s.

(** The rest of a request, after a step of it. *)
Definition obind {A B} (o : outcome A) (f : A -> outcome B) : outcome B :=
  match o with Next a => f a | Disabled => Disabled | Panic => Panic end.
Notation "'let!' x := o 'in' k" := (obind o (fun x => k))
  (at level 10, x strict pattern, o at level 100, k at level 200) : go_scope.

Definition outcome_ok {S} (I : S -> Prop) (o : outcome S) : Prop :=
  match o with Disabled => True | Panic => False | Next s => I s end.

Section Runs.
Context {E S : Type} (step : E -> S -> outcome S).

Fixpoint run (es : list E) (s : S) : outcome S :=
  match es with
  | [] => Next s
  | e :: es => match step e s with Next s => run es s | o => o end
  end.

Inductive reachable (init : S) : S -> Prop :=
| reach_init : reachable init init
| reach_step e s s' : reachable init s -> step e s = Next s' -> reachable init s'.

Lemma run_app es1 es2 s s' : run es1 s = Next s' -> run (es1 ++ es2) s = run es2 s'.
Proof.
  revert s. induction es1 as [|e es IH]; intros s; cbn; [by intros [= ->]|].
  destruct (step e s); try done. apply IH.
Qed.

Lemma run_snoc es e s s' : run es s = Next s' -> run (es ++ [e]) s = step e s'.
Proof. intros Hr. rewrite (run_app _ _ _ _ Hr). cbn. by destruct (step e s'). Qed.

(** An invariant of the steps taken by the events [P] is an invariant of their runs. *)
Lemma run_inv (P : E -> Prop) (I : S -> Prop) :
  (forall e s s', P e -> I s -> step e s = Next s' -> I s') ->
  forall es s s', Forall P es -> I s -> run es s = Next s' -> I s'.
Proof.
  intros Hstep es. induction es as [|e es IH]; intros s s' HP Hs; cbn; [by intros [= ->]|].
  apply Forall_cons in HP as [He HP]. destruct (step e s) as [| |s1] eqn:Hst; try done.
  apply IH; [done|]. by eapply Hstep.
Qed.

Lemma reachable_inv (I : S -> Prop) init s :
  (forall e s, I s -> outcome_ok I (step e s)) -> I init -> reachable init s -> I s.
Proof.
  intros Hstep Hi. induction 1 as [|e s s' _ IH Hst]; [done|].
  pose proof (Hstep e s IH) as Hok. by rewrite Hst in Hok.
Qed.

Lemma run_reachable init es s s' : reachable init s -> run es s = Next s' -> reachable init s'.
Proof.
  revert s. induction es as [|e es IH]; intros s Hs; cbn; [by intros [= ->]|].
  destruct (step e s) eqn:Hst; try done. apply IH. by eapply reach_step.
Qed.
End Runs.
