(* ===== verification/Text.v ===== *)
(** Go strings: the functions of [strings] and [strconv] the program uses on paths and names.

    A Go string is its bytes. *)
From S2P Require Import Prelude.

(** ** [strings] *)

(** [strings.Split(s, sep)] for a separator of one byte: never empty. *)
Fixpoint split (sep : byte) (s : bytes) : list bytes :=
  match s with
  | [] => [[]]
  | c :: s =>
      if decide (c = sep) then [] :: split sep s
      else match split sep s with
           | p :: ps => (c :: p) :: ps
           | [] => [[c]]
           end
  end.

(** [strings.Join(ps, sep)] *)
Fixpoint join (sep : byte) (ps : list bytes) : bytes :=
  match ps with
  | [] => []
  | [p] => p
  | p :: ps => p ++ sep :: join sep ps
  end.

(** [strings.IndexByte(s, c)]; [None] is -1. *)
Fixpoint index_byte (c : byte) (s : bytes) : option nat :=
  match s with
  | [] => None
  | b :: s => if decide (b = c) then Some O else S <$> index_byte c s
  end.

Fixpoint has_prefix (p s : bytes) : bool :=
  match p, s with
  | [], _ => true
  | a :: p, b :: s => bool_decide (a = b) && has_prefix p s
  | _ :: _, [] => false
  end.
Definition has_suffix (p s : bytes) : bool := has_prefix (rev p) (rev s).
(** [strings.TrimSuffix] *)
Definition trim_suffix (p s : bytes) : bytes := if has_suffix p s then take (length s - length p) s else s.

(** [strings.Contains(s, p)] *)
Fixpoint contains (s p : bytes) : bool :=
  has_prefix p s || match s with [] => false | _ :: s => contains s p end.

(** Go compares strings byte by byte. *)
Fixpoint bytes_lt (a b : bytes) : bool :=
  match a, b with
  | _, [] => false
  | [], _ :: _ => true
  | x :: a, y :: b =>
      if Z_of_byte x <? Z_of_byte y then true
      else if Z_of_byte y <? Z_of_byte x then false else bytes_lt a b
  end.

Lemma bytes_lt_asym a : forall b, bytes_lt a b = true -> bytes_lt b a = false.
Proof.
  induction a as [|x a IH]; intros [|y b]; cbn; try done.
  destruct (Z.ltb_spec (Z_of_byte x) (Z_of_byte y)), (Z.ltb_spec (Z_of_byte y) (Z_of_byte x)); try done; [lia|].
  intros. by apply IH.
Qed.
Lemma bytes_lt_cotrans a : forall b c, bytes_lt b a = false -> bytes_lt c b = false -> bytes_lt c a = false.
Proof.
  induction a as [|x a IH]; intros [|y b] [|z c]; cbn; try done.
  destruct (Z.ltb_spec (Z_of_byte x) (Z_of_byte y)), (Z.ltb_spec (Z_of_byte y) (Z_of_byte x)),
    (Z.ltb_spec (Z_of_byte z) (Z_of_byte y)), (Z.ltb_spec (Z_of_byte y) (Z_of_byte z)),
    (Z.ltb_spec (Z_of_byte z) (Z_of_byte x)), (Z.ltb_spec (Z_of_byte x) (Z_of_byte z)); try done; try lia.
  apply IH.
Qed.

(** ** [strconv.Atoi], where an [int] has 64 bits *)

Definition digit (c : byte) : option Z :=
  let z := Z_of_byte c - 48 in if decide (0 <= z < 10) then Some z else None.

Fixpoint digits (acc : Z) (s : bytes) : option Z :=
  match s with
  | [] => Some acc
  | c :: s => d ← digit c; digits (10 * acc + d) s
  end.

Definition Atoi (s : bytes) : option Z :=
  let number s := if decide (s = []) then None else digits 0 s in
  n ← match s with
      | c :: s' => if decide (c = x2d) then Z.opp <$> number s'
                   else if decide (c = x2b) then number s' else number s
      | [] => None
      end;
  if decide (in_i64 n) then Some n else None.

Example Atoi_examples :
  map (fun s => Atoi (bs s)) ["0"; "-12"; "+7"; ""; "-"; "1x"; "9223372036854775808"]%string
  = [Some 0; Some (-12); Some 7; None; None; None; None].
Proof. by vm_compute. Qed.

(** ** Numbers as text *)

Definition hex_digit (z : Z) : byte := byte_of_Z (if decide (z < 10) then 48 + z else 87 + z).

(** [fmt.Sprintf("%x", n)] and [fmt.Sprintf("%d", n)] of a number that is not negative. *)
Fixpoint in_base (fuel : nat) (b n : Z) : bytes :=
  match fuel with
  | O => []
  | S fuel => (if decide (n / b = 0) then [] else in_base fuel b (n / b)) ++ [hex_digit (n mod b)]
  end.
Definition hex (n : Z) : bytes := in_base 64 16 n.
Definition decimal (n : Z) : bytes := in_base 64 10 n.

Example hex_example : hex 0 = bs "0" /\ hex 255 = bs "ff" /\ decimal 1000 = bs "1000".
Proof. by vm_compute. Qed.

(** ** Laws *)

Lemma split_nonempty sep s : split sep s <> [].
Proof. destruct s as [|c s]; cbn; [done|]. case_decide; [done|]. by destruct (split sep s). Qed.

Lemma split_free sep s p : p ∈ split sep s -> sep ∉ p.
Proof.
  revert p. induction s as [|c s IH]; intros p; cbn.
  - rewrite list_elem_of_singleton. intros ->. apply not_elem_of_nil.
  - case_decide as Hc.
    + rewrite elem_of_cons. intros [->|Hp]; [apply not_elem_of_nil|auto].
    + destruct (split sep s) as [|q qs] eqn:E; [by destruct (split_nonempty sep s)|].
      rewrite elem_of_cons. intros [->|Hp]; [|apply IH; by right].
      apply not_elem_of_cons. split; [congruence|]. apply IH. by left.
Qed.

Lemma join_split sep s : join sep (split sep s) = s.
Proof.
  induction s as [|c s IH]; [done|]. cbn. case_decide as Hc.
  - subst c. destruct (split sep s) eqn:E; [by destruct (split_nonempty sep s)|]. cbn in *. by rewrite IH.
  - destruct (split sep s) as [|q [|q' qs]] eqn:E; [by destruct (split_nonempty sep s)| |]; cbn in *; by rewrite IH.
Qed.

Lemma split_app sep s t : split sep (s ++ sep :: t) = split sep s ++ split sep t.
Proof.
  induction s as [|c s IH]; cbn [app split]; [by rewrite decide_True|].
  case_decide; [by rewrite IH|]. rewrite IH. pose proof (split_nonempty sep s). by destruct (split sep s).
Qed.

Lemma split_part sep p s : sep ∉ p -> split sep (p ++ sep :: s) = p :: split sep s.
Proof.
  induction p as [|c p IH]; cbn; intros Hp; [by rewrite decide_True|].
  apply not_elem_of_cons in Hp as [Hc Hp]. rewrite decide_False by congruence. by rewrite IH.
Qed.
Lemma split_last sep p : sep ∉ p -> split sep p = [p].
Proof.
  induction p as [|c p IH]; cbn; intros Hp; [done|].
  apply not_elem_of_cons in Hp as [Hc Hp]. rewrite decide_False by congruence. by rewrite IH.
Qed.

Lemma split_join sep ps : ps <> [] -> (forall p, p ∈ ps -> sep ∉ p) -> split sep (join sep ps) = ps.
Proof.
  induction ps as [|p ps IH]; [done|]. intros _ Hps.
  assert (sep ∉ p) as Hp by (apply Hps; by left).
  destruct ps as [|p' ps]; [by apply split_last|]. change (join sep (p :: p' :: ps)) with (p ++ sep :: join sep (p' :: ps)).
  rewrite split_part by done. rewrite IH; [done|done|]. intros q Hq. apply Hps. by right.
Qed.

Lemma has_prefix_spec p s : has_prefix p s = true <-> exists r, s = p ++ r.
Proof.
  revert s. induction p as [|a p IH]; intros s; cbn; [split; [by exists s|done]|].
  destruct s as [|b s]; [split; [done|by intros []]|].
  rewrite andb_true_iff, bool_decide_eq_true, IH. split.
  - intros [-> [r ->]]. by exists r.
  - intros [r [= -> ->]]. split; [done|by exists r].
Qed.

Lemma contains_spec s p : contains s p = true <-> exists a b, s = a ++ p ++ b.
Proof.
  induction s as [|c s IH]; cbn; rewrite orb_true_iff, has_prefix_spec.
  - split; [intros [[r ->]|]; [by exists [], r|done]|].
    intros (a & b & E). left. symmetry in E. apply app_eq_nil in E as [-> E]. by exists b.
  - rewrite IH. split.
    + intros [[r ->]|(a & b & ->)]; [by exists [], r|by exists (c :: a), b].
    + intros ([|x a] & b & E); [left; by exists b|right]. injection E as -> ->. by exists a, b.
Qed.

Lemma index_byte_spec c s i :
  index_byte c s = Some i <-> s !! i = Some c /\ forall j, (j < i)%nat -> s !! j <> Some c.
Proof.
  revert i. induction s as [|b s IH]; intros i; cbn; [split; [done|by intros []]|].
  case_decide as Hb.
  - subst b. split; [intros [= <-]; split; [done|lia]|]. intros [_ Hj]. destruct i; [done|].
    by destruct (Hj O); [lia|].
  - rewrite fmap_Some. setoid_rewrite IH. split.
    + intros (i' & (Hi & Hj) & ->). split; [done|]. intros [|j] ?; cbn; [congruence|apply Hj; lia].
    + intros [Hi Hj]. destruct i as [|i]; cbn in Hi; [congruence|]. exists i. split; [|done].
      split; [done|]. intros j ?. apply (Hj (S j)). lia.
Qed.
