(* ===== verification/PatchPath.v ===== *)
(** Paths of a patch: [core/hydra/swamp/treasure/msgpackpatch/path.go], [codes.go] and the
    data of [skeleton.go].

    A skeleton is a tree that one call of [Apply] owns, so it is a value here; the [*Skeleton]
    a [Cursor] holds into it is the address of the node, the positions of the children on the
    way from the root. *)
From S2P Require Import Prelude Text.
#[local] Set Warnings "-register-all,-clear-no-such-hyp".

(** ** Results *)

Inductive patch_err : Type :=
| ErrNonStringKey
| ErrInvalidMsgpack
| ErrPathInvalid
| ErrTypeMismatch
| ErrInvalidOp
| ErrConditionNotMet
| OutOfFuel.

#[export] Instance patch_err_eq_dec : EqDecision patch_err.
Proof. solve_decision. Defined.

Inductive patched (A : Type) : Type :=
| Fine (a : A)
| Fails (e : patch_err).
#[global] Arguments Fine {A} a.
#[global] Arguments Fails {A} e.

#[export] Instance patched_ret : MRet patched := @Fine.
#[export] Instance patched_bind : MBind patched := fun A B f m =>
  match m with Fine a => f a | Fails e => Fails e end.
Definition patched_map {A B} (f : A -> B) (m : patched A) : patched B :=
  match m with Fine a => Fine (f a) | Fails e => Fails e end.
#[export] Instance patched_fmap : FMap patched := @patched_map.

Lemma patched_bind_Fine {A B} (m : patched A) (f : A -> patched B) b :
  (m ≫= f) = Fine b <-> exists a, m = Fine a /\ f a = Fine b.
Proof. destruct m as [a|e]; cbn; [naive_solver|]. split; [done|by intros (a & ? & ?)]. Qed.

Lemma patched_bind_assoc {A B C} (m : patched A) (f : A -> patched B) (g : B -> patched C) :
  ((m ≫= f) ≫= g) = (m ≫= fun a => f a ≫= g).
Proof. by destruct m. Qed.

(** ** Type codes: [codes.go] *)

Definition isFixMap (c : byte) : bool := (0x80 <=? Z_of_byte c) && (Z_of_byte c <=? 0x8f).
Definition isFixArray (c : byte) : bool := (0x90 <=? Z_of_byte c) && (Z_of_byte c <=? 0x9f).
Definition isFixStr (c : byte) : bool := (0xa0 <=? Z_of_byte c) && (Z_of_byte c <=? 0xbf).
Definition isPositiveFix (c : byte) : bool := Z_of_byte c <=? 0x7f.
Definition isNegativeFix (c : byte) : bool := 0xe0 <=? Z_of_byte c.

Definition codeFloat32 : byte := xca.
Definition codeFloat64 : byte := xcb.
Definition codeUint8 : byte := xcc.
Definition codeUint16 : byte := xcd.
Definition codeUint32 : byte := xce.
Definition codeUint64 : byte := xcf.
Definition codeInt8 : byte := xd0.
Definition codeInt16 : byte := xd1.
Definition codeInt32 : byte := xd2.
Definition codeInt64 : byte := xd3.
Definition codeStr8 : byte := xd9.
Definition codeStr16 : byte := xda.
Definition codeStr32 : byte := xdb.
Definition codeArray16 : byte := xdc.
Definition codeArray32 : byte := xdd.
Definition codeMap16 : byte := xde.
Definition codeMap32 : byte := xdf.

Definition is_code (c d : byte) : bool := bool_decide (c = d).

Definition isMapCode (c : byte) : bool := isFixMap c || is_code c codeMap16 || is_code c codeMap32.
Definition isArrayCode (c : byte) : bool := isFixArray c || is_code c codeArray16 || is_code c codeArray32.
Definition isStringCode (c : byte) : bool :=
  isFixStr c || is_code c codeStr8 || is_code c codeStr16 || is_code c codeStr32.
Definition isFloatCode (c : byte) : bool := is_code c codeFloat32 || is_code c codeFloat64.

(** ** Skeletons *)

(** A tree with data at its leaves; the maps keep the order of their fields. *)
Inductive tree (A : Type) : Type :=
| Leaf (a : A)
| MapNode (MapFields : list (bytes * tree A))
| ArrayNode (ArrayItems : list (tree A)).
#[global] Arguments Leaf {A} a.
#[global] Arguments MapNode {A} MapFields.
#[global] Arguments ArrayNode {A} ArrayItems.

(** What a [Skeleton] has at a leaf; [RawBytes] is [None] for nil. *)
Record leaf := { LeafStart : nat; LeafEnd : nat; LeafCode : byte; RawBytes : option bytes }.

Abbreviation Skeleton := (tree leaf).

(** Where a node is: the positions of the children that lead to it. *)
Definition address := list nat.

Fixpoint node_at {A} (a : address) (s : tree A) : option (tree A) :=
  match a with
  | [] => Some s
  | i :: a =>
      match s with
      | Leaf _ => None
      | MapNode fs => f ← fs !! i; node_at a f.2
      | ArrayNode xs => x ← xs !! i; node_at a x
      end
  end.

(** An assignment through the pointer to the node. *)
Fixpoint update_at {A} (a : address) (f : tree A -> tree A) (s : tree A) : tree A :=
  match a with
  | [] => f s
  | i :: a =>
      match s with
      | Leaf _ => s
      | MapNode fs => MapNode (alter (prod_map id (update_at a f)) i fs)
      | ArrayNode xs => ArrayNode (alter (update_at a f) i xs)
      end
  end.

(** ** Path expressions *)

Inductive Segment : Type :=
| SegField (Field : bytes)
| SegIndex (Index : Z)
| SegAppend.

#[export] Instance Segment_eq_dec : EqDecision Segment.
Proof. solve_decision. Defined.

Definition open_bracket : byte := x5b.
Definition close_bracket : byte := x5d.

(** [strings.ContainsAny(s, "[]")] *)
Definition has_bracket (s : bytes) : bool :=
  existsb (fun c => is_code c open_bracket || is_code c close_bracket) s.

(** The loop over ["[N]"] and ["[]"]; each round shortens [rest], whose length is the fuel. *)
Fixpoint parse_brackets (fuel : nat) (rest : bytes) (out : list Segment) : patched (list Segment) :=
  match rest with
  | [] => Fine out
  | c :: tail =>
      match fuel with
      | O => Fails OutOfFuel
      | S fuel =>
          if negb (is_code c open_bracket) then Fails ErrPathInvalid else
          match index_byte close_bracket tail with
          | None => Fails ErrPathInvalid
          | Some i =>
              let inner := take i tail in
              let rest := drop (S i) tail in
              if decide (inner = []) then parse_brackets fuel rest (out ++ [SegAppend])
              else if decide (inner = bs "*") then Fails ErrPathInvalid
              else match Atoi inner with
                   | None => Fails ErrPathInvalid
                   | Some n => parse_brackets fuel rest (out ++ [SegIndex n])
                   end
          end
      end
  end.

Definition parseSegmentInto (part : bytes) (out : list Segment) : patched (list Segment) :=
  match index_byte open_bracket part with
  | None => if has_bracket part then Fails ErrPathInvalid else Fine (out ++ [SegField part])
  | Some br =>
      let name := take br part in
      if decide (name = []) then Fails ErrPathInvalid
      else if has_bracket name then Fails ErrPathInvalid
      else parse_brackets (length part) (drop br part) (out ++ [SegField name])
  end.

Fixpoint parse_parts (parts : list bytes) (segs : list Segment) : patched (list Segment) :=
  match parts with
  | [] => Fine segs
  | part :: parts =>
      if decide (part = []) then Fails ErrPathInvalid
      else if has_prefix (bs "#") part then Fails ErrPathInvalid
      else segs ← parseSegmentInto part segs; parse_parts parts segs
  end.

Definition ParsePath (s : bytes) : patched (list Segment) :=
  if decide (s = []) then Fails ErrPathInvalid else parse_parts (split x2e s) [].

Example ParsePath_examples :
  ParsePath (bs "Foo.Bar[3].Baz[]") = Fine [SegField (bs "Foo"); SegField (bs "Bar"); SegIndex 3; SegField (bs "Baz"); SegAppend]
  /\ map (fun s => ParsePath (bs s)) ["a[*]"; "a.#len"; "a..b"; "[1]"; "a]"; "a[1"; "a[1]b"]%string
     = repeat (Fails ErrPathInvalid) 7.
Proof. by vm_compute. Qed.

(** ** Resolving *)

(** [Cursor]; [Parent] is an address, and [TargetIdx], [MissingAt] are [None] for -1. *)
Record Cursor {A : Type} := {
  Parent : address;
  Final : Segment;
  Target : option (tree A);
  TargetIdx : option nat;
  MissingAt : option nat;
  ResolvedFinalIndex : nat
}.
#[global] Arguments Cursor : clear implicits.

Fixpoint findField {A} (fs : list (bytes * tree A)) (name : bytes) : option nat :=
  match fs with
  | [] => None
  | f :: fs => if decide (f.1 = name) then Some O else S <$> findField fs name
  end.

Definition resolveIndex (want : Z) (len : nat) : patched nat :=
  let want := if want <? 0 then Z.of_nat len + want else want in
  if (want <? 0) || (Z.of_nat len <=? want) then Fails ErrPathInvalid else Fine (Z.to_nat want).

(** The loop of [Resolve] at segment [i], on the node [current] at the address [at_]. *)
Fixpoint resolve_from {A} (segs : list Segment) (i : nat) (at_ : address) (current : tree A) : patched (Cursor A) :=
  match segs with
  | [] => Fails ErrPathInvalid
  | seg :: rest =>
      let isFinal := bool_decide (rest = []) in
      let found idx child resolved :=
        if isFinal then
          Fine {| Parent := at_; Final := seg; Target := Some child; TargetIdx := Some idx;
                  MissingAt := None; ResolvedFinalIndex := resolved |}
        else resolve_from rest (S i) (at_ ++ [idx]) child in
      let missing m :=
        Fine {| Parent := at_; Final := seg; Target := None; TargetIdx := None;
                MissingAt := m; ResolvedFinalIndex := O |} in
      match seg with
      | SegField name =>
          match current with
          | MapNode fs =>
              match findField fs name with
              | None => missing (Some i)
              | Some idx => match fs !! idx with Some f => found idx f.2 O | None => Fails ErrPathInvalid end
              end
          | _ => Fails ErrTypeMismatch
          end
      | SegIndex want =>
          match current with
          | ArrayNode xs =>
              idx ← resolveIndex want (length xs);
              match xs !! idx with Some x => found idx x idx | None => Fails ErrPathInvalid end
          | _ => Fails ErrTypeMismatch
          end
      | SegAppend =>
          if negb isFinal then Fails ErrPathInvalid else
          match current with
          | ArrayNode _ => missing None
          | _ => Fails ErrTypeMismatch
          end
      end
  end.

Definition Resolve {A} (segs : list Segment) (root : tree A) : patched (Cursor A) := resolve_from segs O [] root.
