(* ===== verification/Skeleton.v ===== *)
(** Parsing and writing skeletons: [skeleton.go] and [serialize.go] of [msgpackpatch].

    The decoder and encoder of the msgpack package are the class [MsgpackCodec].  A decoder is
    the bytes it has not read; [pos] is what the code computes from their number.  The class
    [MsgpackCodecOk] has the facts about the format that the theorems use: an element is read
    from its own bytes, whatever follows, and what is written is read back. *)
From Stdlib Require Import Floats.SpecFloat.
From S2P Require Import Prelude PatchPath.
#[local] Set Warnings "-register-all,-clear-no-such-hyp".

(** A decoded value, of which comparisons tell strings, byte slices and booleans apart. *)
Inductive decoded : Type :=
| VString (s : bytes)
| VBytes (s : bytes)
| VBool (b : bool)
| VOther.

Class MsgpackCodec := {
  PeekCode : bytes -> option byte;
  Skip : bytes -> option (unit * bytes);
  DecodeMapLen : bytes -> option (Z * bytes);
  DecodeArrayLen : bytes -> option (Z * bytes);
  DecodeString : bytes -> option (bytes * bytes);
  DecodeInt64 : bytes -> option (Z * bytes);
  DecodeUint64 : bytes -> option (Z * bytes);
  DecodeFloat64 : bytes -> option (spec_float * bytes);
  UnmarshalAny : bytes -> option decoded;
  EncodeMapLen : Z -> bytes;
  EncodeArrayLen : Z -> bytes;
  EncodeString : bytes -> bytes;
  EncodeInt8 : Z -> bytes;
  EncodeInt16 : Z -> bytes;
  EncodeInt32 : Z -> bytes;
  EncodeInt64 : Z -> bytes;
  EncodeUint8 : Z -> bytes;
  EncodeUint16 : Z -> bytes;
  EncodeUint32 : Z -> bytes;
  EncodeUint64 : Z -> bytes;
  EncodeFloat32 : spec_float -> bytes;
  EncodeFloat64 : spec_float -> bytes
}.

(** [if err != nil { return nil, wrapInvalid(err) }] *)
Definition wrapInvalid {A} (o : option A) : patched A :=
  match o with Some a => Fine a | None => Fails ErrInvalidMsgpack end.

Section Skeletons.
Context `{MC : MsgpackCodec}.

(** ** [skeleton.go] *)

Definition pos (r : bytes) (total : nat) : nat := total - length r.

Section Loops.
Variable parseNode : bytes -> patched (Skeleton * bytes).

Fixpoint parse_fields (n : nat) (acc : list (bytes * Skeleton)) (r : bytes)
  : patched (list (bytes * Skeleton) * bytes) :=
  match n with
  | O => Fine (acc, r)
  | S n =>
      code ← wrapInvalid (PeekCode r);
      if negb (isStringCode code) then Fails ErrNonStringKey else
      '(key, r) ← wrapInvalid (DecodeString r);
      '(val, r) ← parseNode r;
      parse_fields n (acc ++ [(key, val)]) r
  end.

Fixpoint parse_items (n : nat) (acc : list Skeleton) (r : bytes) : patched (list Skeleton * bytes) :=
  match n with
  | O => Fine (acc, r)
  | S n => '(val, r) ← parseNode r; parse_items n (acc ++ [val]) r
  end.

Definition parseMap (r : bytes) : patched (Skeleton * bytes) :=
  '(n, r) ← wrapInvalid (DecodeMapLen r);
  '(fs, r) ← parse_fields (Z.to_nat n) [] r;
  Fine (MapNode fs, r).

Definition parseArray (r : bytes) : patched (Skeleton * bytes) :=
  '(n, r) ← wrapInvalid (DecodeArrayLen r);
  '(xs, r) ← parse_items (Z.to_nat n) [] r;
  Fine (ArrayNode xs, r).
End Loops.

(** The recursion is over the nesting of the blob, which its length bounds. *)
Fixpoint parseNode (fuel total : nat) (r : bytes) : patched (Skeleton * bytes) :=
  match fuel with
  | O => Fails OutOfFuel
  | S fuel =>
      let startPos := pos r total in
      code ← wrapInvalid (PeekCode r);
      if isMapCode code then parseMap (parseNode fuel total) r
      else if isArrayCode code then parseArray (parseNode fuel total) r
      else
        '(_, r) ← wrapInvalid (Skip r);
        Fine (Leaf {| LeafStart := startPos; LeafEnd := pos r total; LeafCode := code; RawBytes := None |}, r)
  end.

Definition Parse (blob : bytes) : patched Skeleton :=
  if decide (blob = []) then Fails ErrInvalidMsgpack else
  '(skel, r) ← parseNode (S (length blob)) (length blob) blob;
  if decide (r <> []) then Fails ErrInvalidMsgpack else Fine skel.

(** The bytes of a leaf. *)
Definition leaf_bytes (orig : bytes) (l : leaf) : bytes :=
  match RawBytes l with Some raw => raw | None => slice (LeafStart l) (LeafEnd l) orig end.

Definition leafBytes (s : Skeleton) (orig : bytes) : bytes :=
  match s with
  | Leaf l => leaf_bytes orig l
  | _ => []
  end.

(** ** [serialize.go] *)

Fixpoint writeNode (orig : bytes) (s : Skeleton) : bytes :=
  match s with
  | Leaf l => leaf_bytes orig l
  | MapNode fs =>
      EncodeMapLen (Z.of_nat (length fs))
      ++ concat (map (fun f => EncodeString f.1 ++ writeNode orig f.2) fs)
  | ArrayNode xs => EncodeArrayLen (Z.of_nat (length xs)) ++ concat (map (writeNode orig) xs)
  end.

Definition Serialize (s : Skeleton) (orig : bytes) : bytes := writeNode orig s.

End Skeletons.

(** ** Facts about the format *)

(** An element is read from its own bytes: they are not none, and what follows is not looked at. *)
Definition reads_own {A} (f : bytes -> option (A * bytes)) : Prop :=
  forall r x r', f r = Some (x, r') -> exists u, u <> [] /\ r = u ++ r' /\ forall r'', f (u ++ r'') = Some (x, r'').

Definition starts (p : byte -> bool) (b : bytes) : Prop := exists c t, b = c :: t /\ p c = true.

Definition is_leaf_code (c : byte) : bool := negb (isMapCode c) && negb (isArrayCode c).

Section Skips.
Context `{MC : MsgpackCodec}.

(** What [Skip] does to [n] values in a row. *)
Fixpoint skips (n : nat) (r : bytes) : option (unit * bytes) :=
  match n with O => Some (tt, r) | S n => p ← Skip r; skips n p.2 end.

(** One value that is not a container. *)
Definition scalar (b : bytes) : Prop := starts is_leaf_code b /\ Skip b = Some (tt, []).
End Skips.

Definition in_int (bits z : Z) : Prop := - 2 ^ (bits - 1) <= z < 2 ^ (bits - 1).

Class MsgpackCodecOk `{MsgpackCodec} : Prop := {
  PeekCode_head r : PeekCode r = head r;
  Skip_own : reads_own Skip;
  DecodeMapLen_own : reads_own DecodeMapLen;
  DecodeArrayLen_own : reads_own DecodeArrayLen;
  DecodeString_own : reads_own DecodeString;
  MapLen_read n r : in_u32 n -> DecodeMapLen (EncodeMapLen n ++ r) = Some (n, r);
  MapLen_range r n r' : starts isMapCode r -> DecodeMapLen r = Some (n, r') -> in_u32 n;
  MapLen_code n : 0 <= n -> starts isMapCode (EncodeMapLen n);
  ArrayLen_read n r : in_u32 n -> DecodeArrayLen (EncodeArrayLen n ++ r) = Some (n, r);
  ArrayLen_range r n r' : starts isArrayCode r -> DecodeArrayLen r = Some (n, r') -> in_u32 n;
  ArrayLen_code n : 0 <= n -> starts isArrayCode (EncodeArrayLen n);
  String_read s r : in_u32 (Z.of_nat (length s)) -> DecodeString (EncodeString s ++ r) = Some (s, r);
  String_code s : starts isStringCode (EncodeString s);
  String_size r s r' : DecodeString r = Some (s, r') -> (length s + length r' < length r)%nat;
  Skip_string r : starts isStringCode r -> Skip r = prod_map (fun _ => tt) id <$> DecodeString r;
  Skip_map r n r' : starts isMapCode r -> DecodeMapLen r = Some (n, r') -> Skip r = skips (2 * Z.to_nat n) r';
  Skip_array r n r' : starts isArrayCode r -> DecodeArrayLen r = Some (n, r') -> Skip r = skips (Z.to_nat n) r'
}.

(** The numbers: each is written under its own code, and read back. *)
Class MsgpackNumbersOk `{MsgpackCodec} : Prop := {
  Int8_code n : scalar (EncodeInt8 n) /\ head (EncodeInt8 n) = Some codeInt8;
  Int16_code n : scalar (EncodeInt16 n) /\ head (EncodeInt16 n) = Some codeInt16;
  Int32_code n : scalar (EncodeInt32 n) /\ head (EncodeInt32 n) = Some codeInt32;
  Int64_code n : scalar (EncodeInt64 n) /\ head (EncodeInt64 n) = Some codeInt64;
  Uint8_code n : scalar (EncodeUint8 n) /\ head (EncodeUint8 n) = Some codeUint8;
  Uint16_code n : scalar (EncodeUint16 n) /\ head (EncodeUint16 n) = Some codeUint16;
  Uint32_code n : scalar (EncodeUint32 n) /\ head (EncodeUint32 n) = Some codeUint32;
  Uint64_code n : scalar (EncodeUint64 n) /\ head (EncodeUint64 n) = Some codeUint64;
  Float32_code f : scalar (EncodeFloat32 f) /\ head (EncodeFloat32 f) = Some codeFloat32;
  Float64_code f : scalar (EncodeFloat64 f) /\ head (EncodeFloat64 f) = Some codeFloat64;
  Int8_read n : in_int 8 n -> DecodeInt64 (EncodeInt8 n) = Some (n, []);
  Int16_read n : in_int 16 n -> DecodeInt64 (EncodeInt16 n) = Some (n, []);
  Int32_read n : in_int 32 n -> DecodeInt64 (EncodeInt32 n) = Some (n, []);
  Int64_read n : in_i64 n -> DecodeInt64 (EncodeInt64 n) = Some (n, []);
  Uint8_read n : in_u8 n -> DecodeUint64 (EncodeUint8 n) = Some (n, []);
  Uint16_read n : in_u16 n -> DecodeUint64 (EncodeUint16 n) = Some (n, []);
  Uint32_read n : in_u32 n -> DecodeUint64 (EncodeUint32 n) = Some (n, []);
  Uint64_read n : in_u64 n -> DecodeUint64 (EncodeUint64 n) = Some (n, []);
  Int64_range r n r' : DecodeInt64 r = Some (n, r') -> in_i64 n;
  Uint64_range r n r' : DecodeUint64 r = Some (n, r') -> in_u64 n
}.
