(* ===== verification/PatchOps.v ===== *)
(** The operations of a patch: [apply.go], [append.go], [remove.go], [inc.go], [merge.go],
    [numeric.go] and [condition.go] of [msgpackpatch].

    An operation that fails after it changed the skeleton leaves no trace: [Apply] drops the
    skeleton with the error.  So an operation is a function to the new root or an error. *)
From Stdlib Require Import Floats.SpecFloat.
From S2P Require Import Prelude PatchPath Skeleton.
#[local] Set Warnings "-register-all,-clear-no-such-hyp".

Inductive OpKind : Type :=
| OpSet | OpDelete | OpInc | OpAppend | OpPrepend | OpRemoveAt | OpRemoveVal | OpMerge
| OpOther (k : Z).

Record Op := { op_Kind : OpKind; op_Path : bytes; op_Value : bytes }.

(** ** Numbers *)

Inductive number : Type :=
| classNone
| classInt (i : Z)
| classUint (u : Z)
| classFloat (f : spec_float).

Inductive numericClass : Type := ClassNone | ClassInt | ClassUint | ClassFloat.

#[export] Instance numericClass_eq_dec : EqDecision numericClass.
Proof. solve_decision. Defined.

Definition class_of (n : number) : numericClass :=
  match n with
  | classNone => ClassNone | classInt _ => ClassInt | classUint _ => ClassUint | classFloat _ => ClassFloat
  end.

Definition classifyNumericCode (c : byte) : numericClass :=
  if isFloatCode c then ClassFloat
  else if is_code c codeInt8 || is_code c codeInt16 || is_code c codeInt32 || is_code c codeInt64 then ClassInt
  else if is_code c codeUint8 || is_code c codeUint16 || is_code c codeUint32 || is_code c codeUint64 then ClassUint
  else if isPositiveFix c then ClassUint
  else if isNegativeFix c then ClassInt
  else ClassNone.

(** A conversion to a signed integer of the width, [int8(n)] and the like. *)
Definition signed (bits z : Z) : Z := (z + 2 ^ (bits - 1)) mod 2 ^ bits - 2 ^ (bits - 1).

(** [float32(f)] of a [float64]. *)
Definition float32_of_float64 (f : spec_float) : spec_float :=
  match f with
  | S754_finite s m e => binary_normalize 24 128 (cond_Zopp s (Zpos m)) e s
  | f => f
  end.

(** ** Writing into the tree *)

Definition newLeaf (raw : bytes) : Skeleton :=
  Leaf {| LeafStart := 0; LeafEnd := 0; LeafCode := hd x00 raw; RawBytes := Some raw |}.

Definition replaceWithLeaf (raw : bytes) (target : Skeleton) : Skeleton :=
  match target with
  | Leaf l => Leaf {| LeafStart := LeafStart l; LeafEnd := LeafEnd l; LeafCode := hd x00 raw; RawBytes := Some raw |}
  | _ => newLeaf raw
  end.

(** [parent.MapFields = append(parent.MapFields, MapField{key, v})] *)
Definition add_field {A} (key : bytes) (v parent : tree A) : tree A :=
  match parent with
  | MapNode fs => MapNode (fs ++ [(key, v)])
  | s => s
  end.

(** [x = append(x[:idx], x[idx+1:]...)] on the children. *)
Definition remove_child {A} (idx : nat) (parent : tree A) : tree A :=
  match parent with
  | MapNode fs => MapNode (take idx fs ++ drop (S idx) fs)
  | ArrayNode xs => ArrayNode (take idx xs ++ drop (S idx) xs)
  | s => s
  end.

Definition insertIntoArray (raw : bytes) (prepend : bool) (arr : Skeleton) : Skeleton :=
  match arr with
  | ArrayNode xs => ArrayNode (if prepend then newLeaf raw :: xs else xs ++ [newLeaf raw])
  | s => s
  end.

Definition is_map {A} (s : tree A) : bool := match s with MapNode _ => true | _ => false end.
Definition is_array {A} (s : tree A) : bool := match s with ArrayNode _ => true | _ => false end.
Definition is_leaf {A} (s : tree A) : bool := match s with Leaf _ => true | _ => false end.

Definition parent_is {A} (p : tree A -> bool) (a : address) (root : tree A) : bool :=
  match node_at a root with Some s => p s | None => false end.

(** The place of a field appended to the node at [a]. *)
Definition next_child (a : address) (root : Skeleton) : address :=
  match node_at a root with
  | Some (MapNode fs) => a ++ [length fs]
  | _ => a
  end.

(** The loops that create empty maps for the missing segments [segs] below [parent]. *)
Fixpoint autocreate (segs : list Segment) (root : Skeleton) (parent : address) : patched (Skeleton * address) :=
  match segs with
  | [] => Fine (root, parent)
  | SegField key :: segs =>
      autocreate segs (update_at parent (add_field key (MapNode [])) root) (next_child parent root)
  | _ :: _ => Fails ErrPathInvalid
  end.

(** [path.Segments[len(path.Segments)-1]] *)
Definition final_segment (path : list Segment) : Segment := List.last path SegAppend.

(** [path.Segments[i]] to [path.Segments[j-1]]. *)
Definition segments (i j : nat) (path : list Segment) : list Segment := take (j - i) (drop i path).

Section Ops.
Context `{MC : MsgpackCodec}.

(** ** [numeric.go] *)

Definition readNumericLeaf (raw : bytes) : patched number :=
  match raw with
  | [] => Fails ErrInvalidMsgpack
  | c :: _ =>
      match classifyNumericCode c with
      | ClassNone => Fine classNone
      | ClassInt => p ← wrapInvalid (DecodeInt64 raw); Fine (classInt p.1)
      | ClassUint => p ← wrapInvalid (DecodeUint64 raw); Fine (classUint p.1)
      | ClassFloat => p ← wrapInvalid (DecodeFloat64 raw); Fine (classFloat p.1)
      end
  end.

Definition encodeIntWithCode (code : byte) (n : Z) : bytes :=
  if is_code code codeInt8 then EncodeInt8 (signed 8 n)
  else if is_code code codeInt16 then EncodeInt16 (signed 16 n)
  else if is_code code codeInt32 then EncodeInt32 (signed 32 n)
  else EncodeInt64 n.

Definition encodeUintWithCode (code : byte) (n : Z) : bytes :=
  if is_code code codeUint8 then EncodeUint8 (u8 n)
  else if is_code code codeUint16 then EncodeUint16 (u16 n)
  else if is_code code codeUint32 then EncodeUint32 (u32 n)
  else EncodeUint64 n.

Definition encodeFloatWithCode (code : byte) (f : spec_float) : bytes :=
  if is_code code codeFloat32 then EncodeFloat32 (float32_of_float64 f) else EncodeFloat64 f.

(** ** [inc.go] *)

(** [computeIncBytes], for a target and a delta of one class. *)
Definition computeIncBytes (code : byte) (target delta : number) : patched bytes :=
  match target, delta with
  | classInt ti, classInt di => Fine (encodeIntWithCode code (i64 (ti + di)))
  | classUint tu, classUint du => Fine (encodeUintWithCode code (u64 (tu + du)))
  | classFloat tf, classFloat df => Fine (encodeFloatWithCode code (SFadd 53 1024 tf df))
  | _, _ => Fails ErrTypeMismatch
  end.

Definition applyInc (skel : Skeleton) (orig value : bytes) (path : list Segment) : patched Skeleton :=
  if decide (value = []) then Fails ErrInvalidOp else
  delta ← readNumericLeaf value;
  if decide (class_of delta = ClassNone) then Fails ErrTypeMismatch else
  cur ← Resolve path skel;
  match Target cur, TargetIdx cur with
  | Some target, Some idx =>
      match target with
      | Leaf l =>
          tn ← readNumericLeaf (leafBytes target orig);
          if decide (class_of tn <> class_of delta) then Fails ErrTypeMismatch else
          newRaw ← computeIncBytes (LeafCode l) tn delta;
          Fine (update_at (Parent cur ++ [idx]) (replaceWithLeaf newRaw) skel)
      | _ => Fails ErrTypeMismatch
      end
  | _, _ =>
      match final_segment path, MissingAt cur with
      | SegField key, Some m =>
          '(skel, parent) ←
            (if decide (m < length path - 1)%nat then autocreate (segments m (length path - 1) path) skel (Parent cur)
             else if parent_is is_map (Parent cur) skel then Fine (skel, Parent cur) else Fails ErrTypeMismatch);
          Fine (update_at parent (add_field key (newLeaf value)) skel)
      | _, _ => Fails ErrPathInvalid
      end
  end.

(** ** [apply.go] *)

Definition applySet (skel : Skeleton) (value : bytes) (path : list Segment) : patched Skeleton :=
  if decide (value = []) then Fails ErrInvalidOp else
  cur ← Resolve path skel;
  match Target cur, TargetIdx cur with
  | Some _, Some idx => Fine (update_at (Parent cur ++ [idx]) (replaceWithLeaf value) skel)
  | _, _ =>
      match final_segment path, MissingAt cur with
      | SegField key, Some m =>
          if decide (m = length path - 1)%nat then
            if parent_is is_map (Parent cur) skel
            then Fine (update_at (Parent cur) (add_field key (newLeaf value)) skel)
            else Fails ErrTypeMismatch
          else
            '(skel, parent) ← autocreate (segments m (length path - 1) path) skel (Parent cur);
            Fine (update_at parent (add_field key (newLeaf value)) skel)
      | _, _ => Fails ErrPathInvalid
      end
  end.

Definition applyDelete (skel : Skeleton) (path : list Segment) : patched Skeleton :=
  cur ← Resolve path skel;
  match Target cur, TargetIdx cur with
  | Some _, Some idx =>
      match Final cur with
      | SegField _ | SegIndex _ => Fine (update_at (Parent cur) (remove_child idx) skel)
      | SegAppend => Fails ErrPathInvalid
      end
  | _, _ => Fine skel
  end.

(** ** [append.go] *)

Definition applyAppend (skel : Skeleton) (value : bytes) (path : list Segment) (prepend : bool) : patched Skeleton :=
  if decide (value = []) then Fails ErrInvalidOp else
  cur ← Resolve path skel;
  match final_segment path with
  | SegAppend =>
      if parent_is is_array (Parent cur) skel
      then Fine (update_at (Parent cur) (insertIntoArray value prepend) skel)
      else
        match MissingAt cur with
        | None => Fails ErrTypeMismatch
        | Some m =>
            if decide (length path < 2)%nat then Fails ErrPathInvalid else
            let arrFieldIdx := (length path - 2)%nat in
            '(skel, parent) ← autocreate (segments m arrFieldIdx path) skel (Parent cur);
            match path !! arrFieldIdx with
            | Some (SegField key) =>
                match node_at parent skel with
                | Some (MapNode fs) =>
                    match findField fs key with
                    | Some idx =>
                        match fs !! idx with
                        | Some (_, ArrayNode _) =>
                            Fine (update_at (parent ++ [idx]) (insertIntoArray value prepend) skel)
                        | _ => Fails ErrTypeMismatch
                        end
                    | None => Fine (update_at parent (add_field key (ArrayNode [newLeaf value])) skel)
                    end
                | _ => Fails ErrTypeMismatch
                end
            | _ => Fails ErrPathInvalid
            end
        end
  | _ => Fails ErrPathInvalid
  end.

(** ** [remove.go] *)

Definition applyRemoveAt (skel : Skeleton) (path : list Segment) : patched Skeleton :=
  match final_segment path with
  | SegIndex _ =>
      cur ← Resolve path skel;
      match Target cur, TargetIdx cur with
      | Some _, Some idx => Fine (update_at (Parent cur) (remove_child idx) skel)
      | _, _ => Fails ErrPathInvalid
      end
  | _ => Fails ErrPathInvalid
  end.

(** The position of the first leaf whose bytes are [value]. *)
Fixpoint find_leaf (orig value : bytes) (xs : list Skeleton) : option nat :=
  match xs with
  | [] => None
  | x :: xs =>
      if is_leaf x && bool_decide (leafBytes x orig = value) then Some O else S <$> find_leaf orig value xs
  end.

Definition applyRemoveVal (skel : Skeleton) (orig value : bytes) (path : list Segment) : patched Skeleton :=
  if decide (value = []) then Fails ErrInvalidOp else
  cur ← Resolve path skel;
  match Target cur, TargetIdx cur with
  | Some target, Some idx =>
      match target with
      | ArrayNode xs =>
          match find_leaf orig value xs with
          | Some i => Fine (update_at (Parent cur ++ [idx]) (remove_child i) skel)
          | None => Fine skel
          end
      | _ => Fails ErrTypeMismatch
      end
  | _, _ => Fine skel
  end.

(** ** [merge.go] *)

(** The bytes [Skip] passes over: [blob[startPos:endPos]]. *)
Definition skipped (r r' : bytes) : bytes := take (length r - length r') r.

Fixpoint extract_fields (n : nat) (out : list (bytes * bytes)) (r : bytes) : patched (list (bytes * bytes)) :=
  match n with
  | O => Fine out
  | S n =>
      code ← wrapInvalid (PeekCode r);
      if negb (isStringCode code) then Fails ErrNonStringKey else
      '(key, r) ← wrapInvalid (DecodeString r);
      '(_, r') ← wrapInvalid (Skip r);
      extract_fields n (out ++ [(key, skipped r r')]) r'
  end.

Definition extractTopLevelFields (blob : bytes) : patched (list (bytes * bytes)) :=
  match blob with
  | [] => Fails ErrInvalidMsgpack
  | c :: _ =>
      if negb (isMapCode c) then Fails ErrTypeMismatch else
      '(n, r) ← wrapInvalid (DecodeMapLen blob);
      extract_fields (Z.to_nat n) [] r
  end.

Definition merge_field (fs : list (bytes * Skeleton)) (pf : bytes * bytes) : list (bytes * Skeleton) :=
  match findField fs pf.1 with
  | Some idx => alter (fun f => (f.1, newLeaf pf.2)) idx fs
  | None => fs ++ [(pf.1, newLeaf pf.2)]
  end.

Definition mergeFieldsInto (patchFields : list (bytes * bytes)) (target : Skeleton) : Skeleton :=
  match target with
  | MapNode fs => MapNode (foldl merge_field fs patchFields)
  | s => s
  end.

Definition applyMerge (skel : Skeleton) (value : bytes) (path : list Segment) : patched Skeleton :=
  if decide (value = []) then Fails ErrInvalidOp else
  patchFields ← extractTopLevelFields value;
  cur ← Resolve path skel;
  match Target cur, TargetIdx cur with
  | Some target, Some idx =>
      if is_map target then Fine (update_at (Parent cur ++ [idx]) (mergeFieldsInto patchFields) skel)
      else Fails ErrTypeMismatch
  | _, _ =>
      match final_segment path, MissingAt cur with
      | SegField key, Some m =>
          '(skel, parent) ← autocreate (segments m (length path - 1) path) skel (Parent cur);
          if parent_is is_map parent skel
          then Fine (update_at parent (add_field key (mergeFieldsInto patchFields (MapNode []))) skel)
          else Fails ErrTypeMismatch
      | _, _ => Fails ErrPathInvalid
      end
  end.

(** ** [Apply] *)

Definition applyOp (skel : Skeleton) (orig : bytes) (op : Op) (path : list Segment) : patched Skeleton :=
  match op_Kind op with
  | OpSet => applySet skel (op_Value op) path
  | OpDelete => applyDelete skel path
  | OpInc => applyInc skel orig (op_Value op) path
  | OpAppend => applyAppend skel (op_Value op) path false
  | OpPrepend => applyAppend skel (op_Value op) path true
  | OpRemoveAt => applyRemoveAt skel path
  | OpRemoveVal => applyRemoveVal skel orig (op_Value op) path
  | OpMerge => applyMerge skel (op_Value op) path
  | OpOther _ => Fails ErrInvalidOp
  end.

Fixpoint apply_ops (orig : bytes) (ops : list Op) (skel : Skeleton) : patched Skeleton :=
  match ops with
  | [] => Fine skel
  | op :: ops =>
      path ← ParsePath (op_Path op);
      skel ← applyOp skel orig op path;
      apply_ops orig ops skel
  end.

Definition Apply (blob : bytes) (ops : list Op) : patched bytes :=
  skel ← Parse blob;
  skel ← apply_ops blob ops skel;
  Fine (Serialize skel blob).

(** ** [condition.go] *)

Inductive CondOp : Type :=
| CondEqual | CondNotEqual | CondGreaterThan | CondGreaterThanOrEqual
| CondLessThan | CondLessThanOrEqual | CondExists | CondNotExists
| CondOther (k : Z).

Record Condition := { c_Path : bytes; c_Op : CondOp; c_Threshold : bytes }.

(** [cmpInt64], [cmpUint64] *)
Definition cmp_int (a b : Z) : comparison := if a <? b then Lt else if b <? a then Gt else Eq.
Definition cmpFloat64 (a b : spec_float) : comparison :=
  if SFltb a b then Lt else if SFltb b a then Gt else Eq.
Definition cmpBool (a b : bool) : comparison :=
  if Bool.eqb a b then Eq else if negb a && b then Lt else Gt.

(** [bytes.Compare] *)
Fixpoint bytes_compare (a b : bytes) : comparison :=
  match a, b with
  | [], [] => Eq
  | [], _ :: _ => Lt
  | _ :: _, [] => Gt
  | x :: a, y :: b =>
      match cmp_int (Z_of_byte x) (Z_of_byte y) with Eq => bytes_compare a b | c => c end
  end.

Definition compareLeafBytes (a b : bytes) : patched comparison :=
  if decide (a = [] \/ b = []) then Fails ErrInvalidMsgpack else
  na ← readNumericLeaf a;
  nb ← readNumericLeaf b;
  if decide (class_of na <> class_of nb) then Fails ErrTypeMismatch else
  match na, nb with
  | classInt ai, classInt bi => Fine (cmp_int ai bi)
  | classUint au, classUint bu => Fine (cmp_int au bu)
  | classFloat af, classFloat bf => Fine (cmpFloat64 af bf)
  | _, _ =>
      av ← wrapInvalid (UnmarshalAny a);
      bv ← wrapInvalid (UnmarshalAny b);
      match av, bv with
      | VString x, VString y => Fine (bytes_compare x y)
      | VString _, _ => Fails ErrTypeMismatch
      | VBytes x, VBytes y => Fine (bytes_compare x y)
      | VBytes _, _ => Fails ErrTypeMismatch
      | VBool x, VBool y => Fine (cmpBool x y)
      | VBool _, _ => Fails ErrTypeMismatch
      | VOther, _ => if decide (a = b) then Fine Eq else Fails ErrTypeMismatch
      end
  end.

Definition cond_met (op : CondOp) (c : comparison) : bool :=
  match op, c with
  | CondEqual, Eq => true
  | CondNotEqual, (Lt | Gt) => true
  | CondGreaterThan, Gt => true
  | CondGreaterThanOrEqual, (Gt | Eq) => true
  | CondLessThan, Lt => true
  | CondLessThanOrEqual, (Lt | Eq) => true
  | _, _ => false
  end.

Definition guard_met (b : bool) : patched unit := if b then Fine tt else Fails ErrConditionNotMet.

Definition evaluateCondition (skel : Skeleton) (orig : bytes) (cond : Condition) : patched unit :=
  path ← ParsePath (c_Path cond);
  match Resolve path skel with
  | Fails e =>
      if decide (e <> ErrTypeMismatch) then Fails e else
      match c_Op cond with
      | CondExists => guard_met false
      | CondNotExists => guard_met true
      | _ => Fails e
      end
  | Fine cur =>
      let leaf := match Target cur with Some t => if is_leaf t then Some t else None | None => None end in
      match c_Op cond, leaf with
      | CondExists, _ => guard_met (bool_decide (is_Some leaf))
      | CondNotExists, _ => guard_met (negb (bool_decide (is_Some leaf)))
      | _, None => Fails ErrConditionNotMet
      | op, Some t =>
          c ← compareLeafBytes (leafBytes t orig) (c_Threshold cond);
          match op with CondOther _ => Fails ErrInvalidOp | _ => guard_met (cond_met op c) end
      end
  end.

Definition ApplyWithCondition (blob : bytes) (ops : list Op) (cond : option Condition) : patched bytes :=
  skel ← Parse blob;
  _ ← match cond with Some cond => evaluateCondition skel blob cond | None => Fine tt end;
  skel ← apply_ops blob ops skel;
  Fine (Serialize skel blob).

End Ops.
