(* ===== verification/PatchTree.v ===== *)
(** Every operation of a patch as one recursive edit along its path.

    [edit E path s] walks [path] down [s] and does what [E] says where the path ends: at an
    existing target, below a missing field, or behind the elements of an array.  [Resolve] and
    the assignments through its cursor amount to such an edit ([resolve_edits]), and what an
    edit leaves alone is proved once ([edit_frame]). *)
From S2P Require Import Prelude PatchPath Skeleton PatchOps.
#[local] Set Warnings "-register-all,-clear-no-such-hyp".

(** ** Addresses *)

Section Trees.
Context {A : Type}.
Implicit Types (s t v : tree A) (f g : tree A -> tree A) (a b : address).

Lemma update_at_app a b f s : update_at (a ++ b) f s = update_at a (update_at b f) s.
Proof.
  revert s. induction a as [|i a IH]; intros [l|fs|xs]; cbn; try done; f_equal.
  - apply list_alter_ext; [|done]. intros x _. destruct x. cbn. by rewrite IH.
  - apply list_alter_ext; [|done]. intros x _. apply IH.
Qed.

Lemma update_at_ext a f g s : (forall t, node_at a s = Some t -> f t = g t) -> update_at a f s = update_at a g s.
Proof.
  revert s. induction a as [|i a IH]; intros [l|fs|xs]; cbn; intros Hfg; try done; try (by apply Hfg); f_equal.
  - apply list_alter_ext; [|done]. intros [k x] E. cbn. f_equal. apply IH. intros t Ht. apply Hfg.
    cbn. by rewrite E.
  - apply list_alter_ext; [|done]. intros x E. apply IH. intros t Ht. apply Hfg. cbn. by rewrite E.
Qed.

Lemma update_at_twice a f g s : update_at a f (update_at a g s) = update_at a (fun t => f (g t)) s.
Proof.
  revert s. induction a as [|i a IH]; intros [l|fs|xs]; cbn; try done; f_equal.
  - rewrite list_alter_alter_eq. apply list_alter_ext; [|done]. intros [k x] _. cbn. by rewrite IH.
  - rewrite list_alter_alter_eq. apply list_alter_ext; [|done]. intros x _. cbn. apply IH.
Qed.

Lemma update_at_same a s : update_at a (fun t => t) s = s.
Proof.
  revert s. induction a as [|i a IH]; intros [l|fs|xs]; cbn; try done; f_equal; apply list_alter_id.
  - intros [k x]. cbn. by rewrite IH.
  - apply IH.
Qed.

Lemma update_at_const a t s : node_at a s = Some t -> update_at a (fun _ => t) s = s.
Proof.
  intros Ht. rewrite <-(update_at_same a s) at 2. apply update_at_ext. intros t'. rewrite Ht. congruence.
Qed.

Lemma node_at_app a b s : node_at (a ++ b) s = (t ← node_at a s; node_at b t).
Proof.
  revert s. induction a as [|i a IH]; intros [l|fs|xs]; cbn; try done.
  - destruct (fs !! i); cbn; [apply IH|done].
  - destruct (xs !! i); cbn; [apply IH|done].
Qed.

Lemma node_at_update a f s t : node_at a s = Some t -> node_at a (update_at a f s) = Some (f t).
Proof.
  revert s. induction a as [|i a IH]; intros [l|fs|xs]; cbn; try congruence.
  - rewrite list_lookup_alter_eq. destruct (fs !! i) as [[k x]|]; cbn; [apply IH|done].
  - rewrite list_lookup_alter_eq. destruct (xs !! i); cbn; [apply IH|done].
Qed.

(** ** Fields of a map *)

Lemma findField_spec (fs : list (bytes * tree A)) k i :
  findField fs k = Some i -> exists v, fs !! i = Some (k, v) /\ forall j, (j < i)%nat -> (fs.*1) !! j <> Some k.
Proof.
  revert i. induction fs as [|[k' v] fs IH]; intros i; cbn; [done|]. case_decide as Hk.
  - intros [= <-]. cbn in Hk. subst. exists v. split; [done|lia].
  - rewrite fmap_Some. intros (i' & Hi & ->). destruct (IH _ Hi) as (w & Hw & Hlt). exists w.
    split; [done|]. intros [|j] ?; cbn; [cbn in Hk; congruence|apply Hlt; lia].
Qed.

Lemma findField_app (fs gs : list (bytes * tree A)) k :
  findField (fs ++ gs) k = match findField fs k with Some i => Some i | None => (Nat.add (length fs)) <$> findField gs k end.
Proof.
  induction fs as [|[k' v] fs IH]; cbn; [by destruct (findField gs k)|]. case_decide; [done|].
  rewrite IH. destruct (findField fs k); [done|]. by destruct (findField gs k).
Qed.

(** The value of the first field of a name. *)
Definition get_field (k : bytes) (fs : list (bytes * tree A)) : option (tree A) :=
  i ← findField fs k; snd <$> fs !! i.
#[local] Arguments get_field : simpl never.

Lemma get_field_cons k k' v fs : get_field k ((k', v) :: fs) = if decide (k' = k) then Some v else get_field k fs.
Proof. unfold get_field. cbn. case_decide; [done|]. by destruct (findField fs k). Qed.

Lemma get_field_app k fs gs : get_field k (fs ++ gs) = match get_field k fs with Some v => Some v | None => get_field k gs end.
Proof.
  induction fs as [|[k' v] fs IH]; [done|]. cbn [app]. rewrite !get_field_cons. by case_decide.
Qed.

Lemma get_field_find k fs i (v : bytes * tree A) : findField fs k = Some i -> fs !! i = Some v -> get_field k fs = Some v.2.
Proof. unfold get_field. intros -> ?. cbn. by simplify_option_eq. Qed.

Lemma get_field_none k fs : findField fs k = None -> get_field k fs = None.
Proof. unfold get_field. by intros ->. Qed.

(** Changing or removing a field leaves the others. *)
Lemma get_field_insert_ne k k' i v w fs :
  fs !! i = Some (k', w) -> k <> k' -> get_field k (<[i := (k', v)]> fs) = get_field k fs.
Proof.
  revert i. induction fs as [|[k0 v0] fs IH]; intros [|i]; cbn; try done.
  - intros [= -> ->] Hk. rewrite !get_field_cons. case_decide; [congruence|done].
  - intros Hi Hk. rewrite !get_field_cons. case_decide; [done|]. by apply IH.
Qed.
Lemma get_field_remove_ne k k' i w fs :
  fs !! i = Some (k', w) -> k <> k' -> get_field k (take i fs ++ drop (S i) fs) = get_field k fs.
Proof.
  revert i. induction fs as [|[k0 v0] fs IH]; intros [|i]; cbn; try done.
  - intros [= -> ->] Hk. rewrite !get_field_cons, drop_0. case_decide; [congruence|done].
  - intros Hi Hk. rewrite !get_field_cons. case_decide; [done|]. by apply IH.
Qed.
Lemma get_field_insert_eq k i v (w : bytes * tree A) fs :
  findField fs k = Some i -> fs !! i = Some w -> get_field k (<[i := (k, v)]> fs) = Some v.
Proof.
  revert i. induction fs as [|[k0 v0] fs IH]; intros i; cbn; [done|]. case_decide as Hk; cbn in Hk.
  - intros [= <-] _. cbn. rewrite get_field_cons. by rewrite decide_True.
  - rewrite fmap_Some. intros (i' & Hi & ->) Hw. cbn in *. rewrite get_field_cons, decide_False by done. by eapply IH.
Qed.

(** ** What a path leads to *)

Fixpoint lookup_path (path : list Segment) (s : tree A) : patched (option (tree A)) :=
  match path with
  | [] => Fails ErrPathInvalid
  | seg :: rest =>
      let go child := if decide (rest = []) then Fine (Some child) else lookup_path rest child in
      match seg, s with
      | SegField k, MapNode fs => match get_field k fs with Some v => go v | None => Fine None end
      | SegIndex want, ArrayNode xs =>
          idx ← resolveIndex want (length xs);
          match xs !! idx with Some x => go x | None => Fails ErrPathInvalid end
      | SegAppend, ArrayNode xs => if decide (rest = []) then Fine None else Fails ErrPathInvalid
      | SegAppend, _ => if decide (rest = []) then Fails ErrTypeMismatch else Fails ErrPathInvalid
      | _, _ => Fails ErrTypeMismatch
      end
  end.

Lemma resolveIndex_bound want n i : resolveIndex want n = Fine i -> (i < n)%nat.
Proof. unfold resolveIndex. repeat case_match; intros E; simplify_eq; lia. Qed.

(** ** Edits *)

Record edits := {
  on_target : tree A -> patched (option (tree A));            (* [None] removes it *)
  on_missing : list Segment -> patched (option (tree A));     (* the new field, [None] for none *)
  on_append : list (tree A) -> patched (list (tree A))
}.

Section Edit.
Variable E : edits.

Definition put_field (i : nat) (k : bytes) (fs : list (bytes * tree A)) (v : option (tree A)) :=
  match v with Some v => <[i := (k, v)]> fs | None => take i fs ++ drop (S i) fs end.
Definition put_item (i : nat) (xs : list (tree A)) (v : option (tree A)) :=
  match v with Some v => <[i := v]> xs | None => take i xs ++ drop (S i) xs end.

Fixpoint edit (path : list Segment) (s : tree A) : patched (tree A) :=
  match path with
  | [] => Fails ErrPathInvalid
  | seg :: rest =>
      let child c := if decide (rest = []) then on_target E c else Some <$> edit rest c in
      match seg, s with
      | SegField k, MapNode fs =>
          match findField fs k with
          | None => v ← on_missing E rest; Fine (match v with Some v => add_field k v s | None => s end)
          | Some i =>
              match fs !! i with
              | Some f => v ← child f.2; Fine (MapNode (put_field i k fs v))
              | None => Fails ErrPathInvalid
              end
          end
      | SegIndex want, ArrayNode xs =>
          i ← resolveIndex want (length xs);
          match xs !! i with
          | Some x => v ← child x; Fine (ArrayNode (put_item i xs v))
          | None => Fails ErrPathInvalid
          end
      | SegAppend, ArrayNode xs =>
          if decide (rest = []) then ArrayNode <$> on_append E xs else Fails ErrPathInvalid
      | SegAppend, _ => if decide (rest = []) then Fails ErrTypeMismatch else Fails ErrPathInvalid
      | _, _ => Fails ErrTypeMismatch
      end
  end.

(** What [Resolve] finds and what the edit then comes to. *)
Inductive resolves (segs : list Segment) (i : nat) (at_ : address) (cur : tree A) :
  patched (Cursor A) -> patched (tree A) -> Prop :=
| res_fails e : resolves segs i at_ cur (Fails e) (Fails e)
| res_target a idx t n :
    node_at (a ++ [idx]) cur = Some t -> final_segment segs <> SegAppend ->
    resolves segs i at_ cur
      (Fine {| Parent := at_ ++ a; Final := final_segment segs; Target := Some t; TargetIdx := Some idx;
               MissingAt := None; ResolvedFinalIndex := n |})
      (v ← on_target E t;
       Fine (match v with Some v => update_at (a ++ [idx]) (fun _ => v) cur
                        | None => update_at a (remove_child idx) cur end))
| res_missing a j k fs :
    node_at a cur = Some (MapNode fs) -> segs !! j = Some (SegField k) -> findField fs k = None ->
    resolves segs i at_ cur
      (Fine {| Parent := at_ ++ a; Final := SegField k; Target := None; TargetIdx := None;
               MissingAt := Some (i + j)%nat; ResolvedFinalIndex := 0 |})
      (v ← on_missing E (drop (S j) segs);
       Fine (match v with Some v => update_at a (add_field k v) cur | None => cur end))
| res_append a xs :
    node_at a cur = Some (ArrayNode xs) -> final_segment segs = SegAppend ->
    resolves segs i at_ cur
      (Fine {| Parent := at_ ++ a; Final := SegAppend; Target := None; TargetIdx := None;
               MissingAt := None; ResolvedFinalIndex := 0 |})
      (ys ← on_append E xs; Fine (update_at a (fun _ => ArrayNode ys) cur)).

Lemma final_segment_cons seg rest : rest <> [] -> final_segment (seg :: rest) = final_segment rest.
Proof. by destruct rest. Qed.

(** A step down to the child [idx]. *)
Lemma resolves_child seg rest i at_ cur idx child up co ed :
  rest <> [] -> node_at [idx] cur = Some child ->
  (forall a f, update_at (idx :: a) f cur = up (update_at a f child)) -> up child = cur ->
  resolves rest (S i) (at_ ++ [idx]) child co ed -> resolves (seg :: rest) i at_ cur co (up <$> ed).
Proof.
  intros Hr Hn Hup Hsame. destruct 1 as [e|a j t n Ht Hf|a j k fs Ht Hs Hf|a xs Ht Hf].
  - apply res_fails.
  - rewrite <-app_assoc, <-(final_segment_cons seg) in * by done.
    enough ((up <$> (v ← on_target E t; Fine match v with Some v => update_at (a ++ [j]) (fun _ => v) child
              | None => update_at a (remove_child j) child end))
            = (v ← on_target E t; Fine match v with Some v => update_at ((idx :: a) ++ [j]) (fun _ => v) cur
              | None => update_at (idx :: a) (remove_child j) cur end)) as ->.
    + apply (res_target _ _ _ _ (idx :: a)); [|done]. change ((idx :: a) ++ [j]) with ([idx] ++ (a ++ [j])).
      by rewrite node_at_app, Hn.
    + destruct (on_target E t) as [[v|]|e]; cbn [fmap patched_fmap patched_map mbind patched_bind]; try done;
        f_equal; symmetry; apply Hup.
  - rewrite <-app_assoc. replace (S i + j)%nat with (i + S j)%nat by lia.
    enough ((up <$> (v ← on_missing E (drop (S j) rest); Fine match v with Some v => update_at a (add_field k v) child
              | None => child end))
            = (v ← on_missing E (drop (S (S j)) (seg :: rest));
               Fine match v with Some v => update_at (idx :: a) (add_field k v) cur | None => cur end)) as ->.
    + apply (res_missing _ _ _ _ (idx :: a) (S j) k fs); [|done|done].
      change (idx :: a) with ([idx] ++ a). by rewrite node_at_app, Hn.
    + cbn [drop]. destruct (on_missing E (drop (S j) rest)) as [[v|]|e]; cbn [fmap patched_fmap patched_map mbind patched_bind];
        try done; f_equal; [|done]. symmetry. apply Hup.
  - rewrite <-app_assoc.
    enough ((up <$> (ys ← on_append E xs; Fine (update_at a (fun _ => ArrayNode ys) child)))
            = (ys ← on_append E xs; Fine (update_at (idx :: a) (fun _ => ArrayNode ys) cur))) as ->.
    + apply (res_append _ _ _ _ (idx :: a)); [|by rewrite final_segment_cons].
      change (idx :: a) with ([idx] ++ a). by rewrite node_at_app, Hn.
    + destruct (on_append E xs) as [ys|e]; cbn [fmap patched_fmap patched_map mbind patched_bind]; [|done]. f_equal. symmetry. apply Hup.
Qed.

Lemma alter_field (idx : nat) (k : bytes) (v : tree A) f (fs : list (bytes * tree A)) :
  fs !! idx = Some (k, v) -> alter (prod_map id f) idx fs = <[idx := (k, f v)]> fs.
Proof.
  intros Hi. apply list_eq. intros j. rewrite list_lookup_alter, list_lookup_insert.
  pose proof (lookup_lt_Some _ _ _ Hi). destruct (decide (idx = j)) as [->|Hj].
  - rewrite decide_True by done. by rewrite Hi.
  - by rewrite decide_False by (by intros []).
Qed.
Lemma alter_item (idx : nat) (x : tree A) f (xs : list (tree A)) : xs !! idx = Some x -> alter f idx xs = <[idx := f x]> xs.
Proof.
  intros Hi. apply list_eq. intros j. rewrite list_lookup_alter, list_lookup_insert.
  pose proof (lookup_lt_Some _ _ _ Hi). destruct (decide (idx = j)) as [->|Hj].
  - rewrite decide_True by done. by rewrite Hi.
  - by rewrite decide_False by (by intros []).
Qed.

(** The path ends at the child [idx]. *)
Lemma resolves_here seg i at_ cur idx child n up :
  node_at [idx] cur = Some child -> seg <> SegAppend ->
  (forall v, up (Some v) = update_at [idx] (fun _ => v) cur) -> up None = remove_child idx cur ->
  resolves [seg] i at_ cur
    (Fine {| Parent := at_; Final := seg; Target := Some child; TargetIdx := Some idx;
             MissingAt := None; ResolvedFinalIndex := n |})
    (v ← on_target E child; Fine (up v)).
Proof.
  intros Hn Hs Hsome Hnone.
  assert ((v ← on_target E child; Fine (up v))
          = (v ← on_target E child; Fine (match v with Some v => update_at ([] ++ [idx]) (fun _ => v) cur
                                     | None => update_at [] (remove_child idx) cur end))) as ->.
  { destruct (on_target E child) as [[w|]|e]; try done; cbn [mbind patched_bind]; f_equal; [apply Hsome|apply Hnone]. }
  rewrite <-(app_nil_r at_) at 2. by apply (res_target [seg] i at_ cur []).
Qed.

Theorem resolve_edits segs i at_ cur : resolves segs i at_ cur (resolve_from segs i at_ cur) (edit segs cur).
Proof.
  revert i at_ cur. induction segs as [|seg rest IH]; intros i at_ cur; cbn [resolve_from edit]; [apply res_fails|].
  destruct seg as [k|want|].
  - destruct cur as [l|fs|xs]; try apply res_fails. destruct (findField fs k) as [idx|] eqn:Hf.
    + destruct (findField_spec _ _ _ Hf) as (v & Hv & _). rewrite Hv. cbn [snd].
      case_bool_decide as Hr; [rewrite decide_True by done|rewrite decide_False by done].
      * subst rest. apply resolves_here; [cbn; by rewrite Hv|done| |done].
        intros w. cbn. by rewrite (alter_field _ _ _ _ _ Hv).
      * assert ((v0 ← Some <$> edit rest v; Fine (MapNode (put_field idx k fs v0)))
                = ((fun x => MapNode (<[idx := (k, x)]> fs)) <$> edit rest v)) as -> by by destruct (edit rest v).
        apply (resolves_child _ _ _ _ _ idx v); [done|cbn; by rewrite Hv| | |apply IH].
        -- intros a f. cbn. by rewrite (alter_field _ _ _ _ _ Hv).
        -- by rewrite list_insert_id.
    + rewrite <-(app_nil_r at_). replace i with (i + O)%nat at 2 by lia.
      assert ((v ← on_missing E rest; Fine match v with Some v => add_field k v (MapNode fs) | None => MapNode fs end)
              = (v ← on_missing E (drop 1 (SegField k :: rest));
                 Fine match v with Some v => update_at [] (add_field k v) (MapNode fs) | None => MapNode fs end)) as -> by done.
      rewrite app_nil_r at 1. by apply (res_missing _ _ _ _ [] O k fs).
  - destruct cur as [l|fs|xs]; try apply res_fails. destruct (resolveIndex want (length xs)) as [idx|e] eqn:Hw;
      cbn [mbind patched_bind]; [|apply res_fails]. destruct (xs !! idx) as [x|] eqn:Hx; [|apply res_fails].
    case_bool_decide as Hr; [rewrite decide_True by done|rewrite decide_False by done].
    + subst rest. apply resolves_here; [cbn; by rewrite Hx|done| |done].
      intros w. cbn. by rewrite (alter_item _ _ _ _ Hx).
    + assert ((v0 ← Some <$> edit rest x; Fine (ArrayNode (put_item idx xs v0)))
              = ((fun x => ArrayNode (<[idx := x]> xs)) <$> edit rest x)) as -> by by destruct (edit rest x).
      apply (resolves_child _ _ _ _ _ idx x); [done|cbn; by rewrite Hx| | |apply IH].
      * intros a f. cbn. by rewrite (alter_item _ _ _ _ Hx).
      * by rewrite list_insert_id.
  - case_bool_decide as Hr; cbn [negb]; [rewrite decide_True by done|rewrite decide_False by done].
    + subst rest. destruct cur as [l|fs|xs]; try apply res_fails.
      assert (ArrayNode <$> on_append E xs
              = (ys ← on_append E xs; Fine (update_at [] (fun _ => ArrayNode ys) (ArrayNode xs)))) as ->
        by by destruct (on_append E xs).
      rewrite <-(app_nil_r at_) at 2. by apply (res_append [SegAppend] i at_ (ArrayNode xs) []).
    + destruct cur; rewrite ?decide_False by done; apply res_fails.
Qed.
End Edit.
End Trees.
#[global] Arguments edits : clear implicits.
