(* ===== verification/PatchEdits.v ===== *)
(** The operations of [PatchOps.v] are edits: what each does at an existing target, below a
    missing field and behind an array. *)
From S2P Require Import Prelude PatchPath Skeleton PatchOps PatchTree.
#[local] Set Warnings "-register-all,-clear-no-such-hyp".

(** A value below the empty maps created for the missing fields [rest]. *)
Fixpoint nest {A} (rest : list Segment) (v : tree A) : patched (tree A) :=
  match rest with
  | [] => Fine v
  | SegField k :: rest => v ← nest rest v; Fine (MapNode [(k, v)])
  | _ :: _ => Fails ErrPathInvalid
  end.

(** [final_segment] of a path that goes on with [rest] behind a field. *)
Definition ends_with_append (rest : list Segment) : bool :=
  bool_decide (rest <> [] /\ final_segment rest = SegAppend).

(** ** The shapes of edits *)

Section Shapes.
Context {A : Type}.

(** Change the target, or create the missing field with [v]. *)
Definition put_edits (change : tree A -> patched (tree A)) (v : tree A) : edits A :=
  {| on_target t := Some <$> change t;
     on_missing rest := Some <$> nest rest v;
     on_append _ := Fails ErrPathInvalid |}.

Definition delete_edits : edits A :=
  {| on_target _ := Fine None; on_missing _ := Fine None; on_append xs := Fine xs |}.

Definition remove_at_edits : edits A :=
  {| on_target _ := Fine None; on_missing _ := Fails ErrPathInvalid; on_append _ := Fails ErrPathInvalid |}.

Definition append_edits (v : tree A) (prepend : bool) : edits A :=
  {| on_target _ := Fails ErrPathInvalid;
     on_missing rest :=
       if ends_with_append rest then Some <$> nest (removelast rest) (ArrayNode [v]) else Fails ErrPathInvalid;
     on_append xs := Fine (if prepend then v :: xs else xs ++ [v]) |}.

(** Change the target if there is one. *)
Definition change_edits (change : tree A -> patched (tree A)) : edits A :=
  {| on_target t := Some <$> change t; on_missing _ := Fine None; on_append xs := Fine xs |}.
End Shapes.

Section Edits.
Context `{MC : MsgpackCodec}.

(** [applyInc] on its target. *)
Definition inc_leaf (orig : bytes) (delta : number) (t : Skeleton) : patched Skeleton :=
  match t with
  | Leaf l =>
      tn ← readNumericLeaf (leafBytes t orig);
      if decide (class_of tn <> class_of delta) then Fails ErrTypeMismatch else
      newRaw ← computeIncBytes (LeafCode l) tn delta;
      Fine (replaceWithLeaf newRaw t)
  | _ => Fails ErrTypeMismatch
  end.

(** [applyRemoveVal] on its target. *)
Definition remove_value (orig value : bytes) (t : Skeleton) : patched Skeleton :=
  match t with
  | ArrayNode xs =>
      match find_leaf orig value xs with Some i => Fine (remove_child i t) | None => Fine t end
  | _ => Fails ErrTypeMismatch
  end.

Definition merge_into (fields : list (bytes * bytes)) (t : Skeleton) : patched Skeleton :=
  if is_map t then Fine (mergeFieldsInto fields t) else Fails ErrTypeMismatch.

(** What is checked before the path is resolved, and the edit. *)
Definition op_edits (orig : bytes) (op : Op) (path : list Segment) : patched (edits leaf) :=
  let value := op_Value op in
  let needs_value {B} (k : patched B) := if decide (value = []) then Fails ErrInvalidOp else k in
  match op_Kind op with
  | OpSet => needs_value (Fine (put_edits (fun t => Fine (replaceWithLeaf value t)) (newLeaf value)))
  | OpDelete => Fine delete_edits
  | OpInc =>
      needs_value (
        delta ← readNumericLeaf value;
        if decide (class_of delta = ClassNone) then Fails ErrTypeMismatch else
        Fine (put_edits (inc_leaf orig delta) (newLeaf value)))
  | OpAppend => needs_value (Fine (append_edits (newLeaf value) false))
  | OpPrepend => needs_value (Fine (append_edits (newLeaf value) true))
  | OpRemoveAt =>
      match final_segment path with SegIndex _ => Fine remove_at_edits | _ => Fails ErrPathInvalid end
  | OpRemoveVal => needs_value (Fine (change_edits (remove_value orig value)))
  | OpMerge =>
      needs_value (
        fields ← extractTopLevelFields value;
        Fine (put_edits (merge_into fields) (mergeFieldsInto fields (MapNode []))))
  | OpOther _ => Fails ErrInvalidOp
  end.

(** ** Creating missing maps *)

Lemma removelast_cons {B} (x : B) rest : rest <> [] -> removelast (x :: rest) = x :: removelast rest.
Proof. by destruct rest. Qed.

Lemma update_at_added {A} a (k : bytes) (v w : tree A) fs root :
  node_at a root = Some (MapNode fs) ->
  update_at (a ++ [length fs]) (fun _ => w) (update_at a (add_field k v) root) = update_at a (add_field k w) root.
Proof.
  intros Ha. rewrite update_at_app, update_at_twice. apply update_at_ext. intros t. rewrite Ha. intros [= <-].
  cbn. f_equal. rewrite (alter_field _ k v) by by apply list_lookup_middle.
  by rewrite insert_app_r_alt, Nat.sub_diag by lia.
Qed.

(** The loop over the missing segments, then what appends the last field to the last map. *)
Lemma autocreate_nest (f : Skeleton -> address -> patched Skeleton) name rest root parent fs key v :
  node_at parent root = Some (MapNode fs) -> findField fs name = None ->
  final_segment (SegField name :: rest) = SegField key ->
  (forall skel p fs, node_at p skel = Some (MapNode fs) -> findField fs key = None ->
     f skel p = Fine (update_at p (add_field key v) skel)) ->
  ('(skel, p) ← autocreate (removelast (SegField name :: rest)) root parent; f skel p)
  = (w ← nest rest v; Fine (update_at parent (add_field name w) root)).
Proof.
  intros Hp Hnew Hf Happ. revert name root parent fs Hp Hnew Hf.
  induction rest as [|seg rest IH]; intros name root parent fs Hp Hnew Hf.
  { cbn in Hf. injection Hf as ->. by apply (Happ root parent fs). }
  rewrite removelast_cons by done. rewrite final_segment_cons in Hf by done. cbn [autocreate].
  destruct seg as [k|i|]; [|by destruct rest..].
  assert (node_at (next_child parent root) (update_at parent (add_field name (MapNode [])) root) = Some (MapNode [])) as Hn.
  { unfold next_child. rewrite Hp, node_at_app, (node_at_update _ _ _ _ Hp). cbn. by rewrite list_lookup_middle. }
  rewrite (IH _ _ _ _ Hn eq_refl Hf). cbn [nest]. rewrite patched_bind_assoc. destruct (nest rest v) as [w|e]; [|done].
  cbn [mbind patched_bind]. f_equal. unfold next_child in *. rewrite Hp in *.
  rewrite <-(update_at_added _ name (MapNode []) (MapNode [(k, w)]) fs) by done.
  apply update_at_ext. intros t. rewrite Hn. by intros [= <-].
Qed.

Lemma segments_from m j path :
  path !! m = Some j -> segments m (length path - 1) path = removelast (j :: drop (S m) path).
Proof.
  intros Hm. unfold segments. rewrite removelast_firstn_len, <-(drop_S _ _ _ Hm), length_drop.
  f_equal. pose proof (lookup_lt_Some _ _ _ Hm). lia.
Qed.

Lemma final_segment_drop m j path :
  path !! m = Some j -> final_segment path = final_segment (j :: drop (S m) path).
Proof.
  intros Hm. rewrite <-(drop_S _ _ _ Hm).
  revert m Hm. induction path as [|x path IH]; intros [|m] Hm; try done.
  rewrite final_segment_cons by by destruct path. by apply IH.
Qed.

Lemma nest_not_field {A} rest (v : tree A) :
  rest <> [] -> (forall k, final_segment rest <> SegField k) -> nest rest v = Fails ErrPathInvalid.
Proof.
  induction rest as [|seg rest IH]; [done|]. intros _ Hf. destruct seg as [k| |]; [|done..].
  destruct rest as [|seg' rest]; [by destruct (Hf k)|]. rewrite final_segment_cons in Hf by done.
  change (nest (SegField k :: seg' :: rest) v) with (w ← nest (seg' :: rest) v; Fine (MapNode [(k, w)])).
  by rewrite IH.
Qed.

(** The missing case of SET, INC and MERGE. *)
Lemma put_missing (f : bytes -> Skeleton -> address -> patched Skeleton) path j k a fs (root v : Skeleton) :
  path !! j = Some (SegField k) -> node_at a root = Some (MapNode fs) -> findField fs k = None ->
  (forall key skel p fs, node_at p skel = Some (MapNode fs) -> f key skel p = Fine (update_at p (add_field key v) skel)) ->
  match final_segment path with
  | SegField key => '(skel, p) ← autocreate (segments j (length path - 1) path) root a; f key skel p
  | _ => Fails ErrPathInvalid
  end = (w ← nest (drop (S j) path) v; Fine (update_at a (add_field k w) root)).
Proof.
  intros Hj Ha Hnew Happ. rewrite (segments_from _ _ _ Hj).
  pose proof (final_segment_drop _ _ _ Hj) as Hfd.
  destruct (final_segment path) as [key| |] eqn:Hf; [eapply autocreate_nest; eauto|..].
  all: assert (drop (S j) path <> []) as Hd by (intros E; by rewrite E in Hfd).
  all: rewrite final_segment_cons in Hfd by done.
  all: rewrite nest_not_field; [done|done|congruence].
Qed.

Lemma autocreate_none j path (root : Skeleton) a :
  j = (length path - 1)%nat -> autocreate (segments j (length path - 1) path) root a = Fine (root, a).
Proof. intros ->. unfold segments. by rewrite Nat.sub_diag. Qed.

Lemma parent_is_at {A} p a (root s : tree A) : node_at a root = Some s -> parent_is p a root = p s.
Proof. unfold parent_is. by intros ->. Qed.

(** What APPEND does in the map that is to hold the array. *)
Definition append_slot (value : bytes) (prepend : bool) (seg : option Segment) (skel : Skeleton) (parent : address)
  : patched Skeleton :=
  match seg with
  | Some (SegField key) =>
      match node_at parent skel with
      | Some (MapNode fs) =>
          match findField fs key with
          | Some idx =>
              match fs !! idx with
              | Some (_, ArrayNode _) => Fine (update_at (parent ++ [idx]) (insertIntoArray value prepend) skel)
              | _ => Fails ErrTypeMismatch
              end
          | None => Fine (update_at parent (add_field key (ArrayNode [newLeaf value])) skel)
          end
      | _ => Fails ErrTypeMismatch
      end
  | _ => Fails ErrPathInvalid
  end.

Lemma last_before (seg last : Segment) rest :
  (seg :: rest ++ [last]) !! length rest = Some (final_segment (seg :: rest)).
Proof.
  revert seg. induction rest as [|s1 rest IH]; intros seg; [done|].
  rewrite final_segment_cons by done. apply (IH s1).
Qed.

Lemma path_before_append path j (seg : Segment) :
  path !! j = Some seg -> seg <> SegAppend -> final_segment path = SegAppend ->
  exists rest, drop (S j) path = rest ++ [SegAppend]
    /\ segments j (length path - 2) path = removelast (seg :: rest)
    /\ path !! (length path - 2)%nat = Some (final_segment (seg :: rest)).
Proof.
  intros Hj Hseg Hf. rewrite (final_segment_drop _ _ _ Hj) in Hf.
  destruct (drop (S j) path) as [|s0 rest0 _] eqn:Hd using rev_ind; [cbn in Hf; congruence|].
  exists rest0. unfold final_segment in Hf. rewrite app_comm_cons, last_last in Hf. subst s0. split; [done|].
  assert (length path = j + 2 + length rest0)%nat as Hlen.
  { pose proof (lookup_lt_Some _ _ _ Hj). pose proof (f_equal length Hd) as Hl.
    rewrite length_drop, length_app in Hl. cbn in Hl. lia. }
  pose proof (drop_S _ _ _ Hj) as Hdj. rewrite Hd in Hdj. split.
  - unfold segments. rewrite Hdj, removelast_firstn_len. cbn [length].
    replace (length path - 2 - j)%nat with (length rest0) by lia.
    replace (Init.Nat.pred (S (length rest0))) with (length rest0) by lia.
    rewrite app_comm_cons, take_app_le by (cbn; lia). done.
  - replace (length path - 2)%nat with (j + length rest0)%nat by lia. rewrite <-lookup_drop, Hdj.
    apply last_before.
Qed.

Lemma autocreate_err segs (root : Skeleton) a :
  (exists p, autocreate segs root a = Fine p) \/ autocreate segs root a = Fails ErrPathInvalid.
Proof.
  revert root a. induction segs as [|seg segs IH]; intros root a; cbn; [left; by eexists|].
  destruct seg; [apply IH|by right..].
Qed.

(** The missing case of APPEND and PREPEND. *)
Lemma append_missing path j k a fs (root : Skeleton) value prepend :
  path !! j = Some (SegField k) -> node_at a root = Some (MapNode fs) -> findField fs k = None ->
  final_segment path = SegAppend ->
  ('(skel, parent) ← autocreate (segments j (length path - 2) path) root a;
   append_slot value prepend (path !! (length path - 2)%nat) skel parent)
  = (w ← nest (removelast (drop (S j) path)) (ArrayNode [newLeaf value]); Fine (update_at a (add_field k w) root)).
Proof.
  intros Hj Ha Hnew Hf.
  destruct (path_before_append _ _ _ Hj ltac:(done) Hf) as (rest & Hd & -> & ->).
  rewrite Hd, removelast_last. destruct (final_segment (SegField k :: rest)) as [key| |] eqn:Hk.
  { eapply autocreate_nest; [done..|]. intros skel p gs Hp Hg. unfold append_slot. by rewrite Hp, Hg. }
  all: assert (rest <> []) as Hr by (intros ->; discriminate Hk).
  all: rewrite final_segment_cons in Hk by done; rewrite nest_not_field by (done || congruence).
  all: by destruct (autocreate_err (removelast (SegField k :: rest)) root a) as [[[skel p] ->] | ->].
Qed.

(** ** The operations are edits *)

Lemma bind_Some_fmap {B C} (m : patched B) (f : option B -> patched C) :
  ((Some <$> m) ≫= f) = (m ≫= fun x => f (Some x)).
Proof. by destruct m. Qed.

(** The four results of [Resolve], with the edit [E] evaluated on each. *)
Ltac resolve_cases E path skel :=
  unfold Resolve;
  destruct (resolve_edits E path O [] skel)
    as [e|a idx t n Ht Hf|a j k fs Ha Hj Hnew|a xs Ha Hf]; [done|..];
  cbn [Target TargetIdx MissingAt Parent Final put_edits delete_edits remove_at_edits append_edits change_edits
       on_target on_missing on_append mbind patched_bind app];
  rewrite ?bind_Some_fmap.

Lemma update_at_target {A} a f (v : tree A) s t :
  node_at a s = Some t -> f t = v -> update_at a f s = update_at a (fun _ => v) s.
Proof. intros Ht <-. apply update_at_ext. intros t'. rewrite Ht. congruence. Qed.

Lemma applySet_edit skel value path :
  value <> [] ->
  applySet skel value path = edit (put_edits (fun t => Fine (replaceWithLeaf value t)) (newLeaf value)) path skel.
Proof.
  intros Hv. unfold applySet. rewrite decide_False by done.
  resolve_cases (put_edits (fun t => Fine (replaceWithLeaf value t)) (newLeaf value)) path skel; [| |by rewrite Hf].
  - cbn. f_equal. by eapply update_at_target.
  - rewrite <-(put_missing (fun key skel p => Fine (update_at p (add_field key (newLeaf value)) skel)) path j k a fs) by done.
    destruct (final_segment path); [|done..]. case_decide as Hm; [|done].
    rewrite (parent_is_at _ _ _ _ Ha), autocreate_none by done. done.
Qed.

Lemma applyDelete_edit skel path : applyDelete skel path = edit delete_edits path skel.
Proof.
  unfold applyDelete. resolve_cases (@delete_edits leaf) path skel.
  - by destruct (final_segment path).
  - done.
  - f_equal. symmetry. by apply update_at_const.
Qed.

Lemma applyRemoveAt_edit skel path i :
  final_segment path = SegIndex i -> applyRemoveAt skel path = edit remove_at_edits path skel.
Proof.
  intros Hi. unfold applyRemoveAt. rewrite Hi. resolve_cases (@remove_at_edits leaf) path skel; done.
Qed.

Lemma applyRemoveVal_edit skel orig value path :
  value <> [] -> applyRemoveVal skel orig value path = edit (change_edits (remove_value orig value)) path skel.
Proof.
  intros Hv. unfold applyRemoveVal. rewrite decide_False by done.
  resolve_cases (change_edits (remove_value orig value)) path skel.
  - destruct t as [l|fs|xs]; try done. cbn [remove_value]. destruct (find_leaf orig value xs) as [i|]; cbn.
    + f_equal. by eapply update_at_target.
    + f_equal. symmetry. by apply update_at_const.
  - done.
  - f_equal. symmetry. by apply update_at_const.
Qed.

Lemma applyAppend_edit skel value path prepend :
  value <> [] -> applyAppend skel value path prepend = edit (append_edits (newLeaf value) prepend) path skel.
Proof.
  intros Hv. unfold applyAppend. rewrite decide_False by done.
  resolve_cases (append_edits (newLeaf value) prepend) path skel.
  - by destruct (final_segment path).
  - destruct (final_segment path) as [| |] eqn:Hf; cycle 2.
    + rewrite (parent_is_at _ _ _ _ Ha). cbn [is_array].
      destruct (path_before_append _ _ _ Hj ltac:(done) Hf) as (rest & Hd & _ & Hl).
      assert (2 <= length path)%nat as Hlen.
      { pose proof (f_equal length Hd) as Hl'. rewrite length_drop, length_app in Hl'. cbn in Hl'. lia. }
      rewrite decide_False by lia. unfold ends_with_append. rewrite bool_decide_eq_true_2.
      2: { rewrite Hd. split; [by destruct rest|]. apply last_last. }
      rewrite bind_Some_fmap. exact (append_missing path j k a fs skel value prepend Hj Ha Hnew Hf).
    + unfold ends_with_append. rewrite bool_decide_eq_false_2; [done|].
      intros [Hd Hl]. rewrite (final_segment_drop _ _ _ Hj), final_segment_cons in Hf by done. congruence.
    + unfold ends_with_append. rewrite bool_decide_eq_false_2; [done|].
      intros [Hd Hl]. rewrite (final_segment_drop _ _ _ Hj), final_segment_cons in Hf by done. congruence.
  - rewrite Hf, (parent_is_at _ _ _ _ Ha). cbn. f_equal. by eapply update_at_target.
Qed.

Lemma applyMerge_edit skel value path fields :
  value <> [] -> extractTopLevelFields value = Fine fields ->
  applyMerge skel value path = edit (put_edits (merge_into fields) (mergeFieldsInto fields (MapNode []))) path skel.
Proof.
  intros Hv Hx. unfold applyMerge. rewrite decide_False by done. rewrite Hx. cbn [mbind patched_bind].
  resolve_cases (put_edits (merge_into fields) (mergeFieldsInto fields (MapNode []))) path skel; [| |by rewrite Hf].
  - unfold merge_into. destruct (is_map t); [|done]. cbn. f_equal. by eapply update_at_target.
  - refine (put_missing (fun key skel p => if parent_is is_map p skel
        then Fine (update_at p (add_field key (mergeFieldsInto fields (MapNode []))) skel) else Fails ErrTypeMismatch)
      path j k a fs skel _ Hj Ha Hnew _).
    intros key s p gs Hp. by rewrite (parent_is_at _ _ _ _ Hp).
Qed.

Lemma applyInc_edit skel orig value path delta :
  value <> [] -> readNumericLeaf value = Fine delta -> class_of delta <> ClassNone ->
  applyInc skel orig value path = edit (put_edits (inc_leaf orig delta) (newLeaf value)) path skel.
Proof.
  intros Hv Hd Hc. unfold applyInc. rewrite decide_False by done. rewrite Hd. cbn [mbind patched_bind].
  rewrite decide_False by done.
  resolve_cases (put_edits (inc_leaf orig delta) (newLeaf value)) path skel; [| |by rewrite Hf].
  - destruct t as [l|fs|xs]; try done. cbn [inc_leaf]. destruct (readNumericLeaf (leafBytes (Leaf l) orig)) as [tn|e]; [|done].
    cbn [mbind patched_bind]. case_decide; [done|]. destruct (computeIncBytes _ _ _); [|done]. cbn.
    f_equal. by eapply update_at_target.
  - rewrite <-(put_missing (fun key skel p => Fine (update_at p (add_field key (newLeaf value)) skel)) path j k a fs) by done.
    destruct (final_segment path); [|done..]. case_decide as Hm; [done|].
    rewrite (parent_is_at _ _ _ _ Ha), autocreate_none; [done|].
    apply lookup_lt_Some in Hj. lia.
Qed.

(** Each operation is the edit of [op_edits]. *)
Theorem applyOp_edit skel orig op path :
  applyOp skel orig op path = (E ← op_edits orig op path; edit E path skel).
Proof.
  destruct op as [kind p value]. unfold applyOp, op_edits. cbn [op_Kind op_Value].
  destruct kind; try (destruct (decide (value = [])) as [->|Hv]; [done|]); cbn [mbind patched_bind].
  - by apply applySet_edit.
  - apply applyDelete_edit.
  - destruct (readNumericLeaf value) as [delta|e] eqn:Hd; cbn [mbind patched_bind].
    + case_decide as Hc; [|by apply applyInc_edit].
      unfold applyInc. rewrite decide_False by done. rewrite Hd. cbn. by rewrite decide_True.
    + unfold applyInc. rewrite decide_False by done. by rewrite Hd.
  - by apply applyAppend_edit.
  - by apply applyAppend_edit.
  - destruct (final_segment path) as [| |] eqn:Hf; cbn; [|by eapply applyRemoveAt_edit|];
      unfold applyRemoveAt; by rewrite Hf.
  - by apply applyRemoveVal_edit.
  - destruct (extractTopLevelFields value) as [fields|e] eqn:Hx; cbn [mbind patched_bind];
      [by apply applyMerge_edit|]. unfold applyMerge. rewrite decide_False by done. by rewrite Hx.
  - done.
Qed.
End Edits.
