(* ===== verification/PatchDoc.v ===== *)
(** Documents: what a blob stands for.

    A document is a tree with the exact bytes of the scalars at its leaves; [encodes d b] is
    the grammar of the blobs that stand for [d], in which the headers of containers and the
    keys may be written in several ways.  [Parse] accepts exactly this grammar, and [Serialize]
    writes it. *)
From S2P Require Import Prelude PatchPath Skeleton PatchOps.
#[local] Set Warnings "-register-all,-clear-no-such-hyp".

Abbreviation doc := (tree bytes).

(** ** Trees: induction, maps, size *)

Section Induction.
Context {A : Type} (P : tree A -> Prop).
Hypothesis HLeaf : forall a, P (Leaf a).
Hypothesis HMap : forall fs, Forall (fun f => P f.2) fs -> P (MapNode fs).
Hypothesis HArray : forall xs, Forall P xs -> P (ArrayNode xs).

Fixpoint tree_nested (t : tree A) : P t :=
  match t with
  | Leaf a => HLeaf a
  | MapNode fs =>
      HMap fs ((fix go fs : Forall (fun f => P f.2) fs :=
                  match fs with [] => Forall_nil_2 _ | f :: fs => Forall_cons_2 _ f fs (tree_nested f.2) (go fs) end) fs)
  | ArrayNode xs =>
      HArray xs ((fix go xs : Forall P xs :=
                    match xs with [] => Forall_nil_2 _ | x :: xs => Forall_cons_2 _ x xs (tree_nested x) (go xs) end) xs)
  end.
End Induction.

(** Replacing every leaf by a tree. *)
Fixpoint graft {A B} (g : A -> tree B) (t : tree A) : tree B :=
  match t with
  | Leaf a => g a
  | MapNode fs => MapNode (map (prod_map id (graft g)) fs)
  | ArrayNode xs => ArrayNode (map (graft g) xs)
  end.

Lemma graft_ext {A B} (g g' : A -> tree B) t : (forall a, g a = g' a) -> graft g t = graft g' t.
Proof.
  intros Hg. induction t as [a|fs IH|xs IH] using tree_nested; cbn; [apply Hg|..]; f_equal.
  - induction IH as [|[k x] fs Hx _ IHfs]; cbn; [done|]. cbn in Hx. by rewrite Hx, IHfs.
  - induction IH as [|x xs Hx _ IHxs]; cbn; [done|]. by rewrite Hx, IHxs.
Qed.

(** The nodes and the bytes of the keys. *)
Fixpoint weight {A} (t : tree A) : nat :=
  match t with
  | Leaf _ => 1
  | MapNode fs => 1 + list_sum (map (fun f => 1 + length f.1 + weight f.2)%nat fs)
  | ArrayNode xs => 1 + list_sum (map weight xs)
  end.

Definition field_weight {A} (f : bytes * tree A) : nat := 1 + length f.1 + weight f.2.
#[global] Arguments field_weight : simpl never.
Lemma weight_map {A} (fs : list (bytes * tree A)) : weight (MapNode fs) = (1 + list_sum (map field_weight fs))%nat.
Proof. done. Qed.
Lemma weight_array {A} (xs : list (tree A)) : weight (ArrayNode xs) = (1 + list_sum (map weight xs))%nat.
Proof. done. Qed.

Lemma weight_pos {A} (t : tree A) : (1 <= weight t)%nat.
Proof. destruct t; cbn; lia. Qed.

(** Every leaf satisfies [P]. *)
Fixpoint leaves {A} (P : A -> Prop) (t : tree A) : Prop :=
  match t with
  | Leaf a => P a
  | MapNode fs => foldr and True (map (fun f => leaves P f.2) fs)
  | ArrayNode xs => foldr and True (map (leaves P) xs)
  end.

Lemma foldr_and {B} (P : B -> Prop) l : foldr and True (map P l) <-> Forall P l.
Proof. induction l as [|x l IH]; cbn; [by rewrite Forall_nil|]. by rewrite Forall_cons, IH. Qed.
Lemma leaves_map {A} (P : A -> Prop) fs : leaves P (MapNode fs) <-> Forall (fun f => leaves P f.2) fs.
Proof. apply foldr_and. Qed.
Lemma leaves_array {A} (P : A -> Prop) xs : leaves P (ArrayNode xs) <-> Forall (leaves P) xs.
Proof. apply foldr_and. Qed.

Lemma leaves_impl {A} (P Q : A -> Prop) t : (forall a, P a -> Q a) -> leaves P t -> leaves Q t.
Proof.
  intros HPQ. induction t as [a|fs IH|xs IH] using tree_nested; [apply HPQ|..].
  - rewrite !leaves_map, !Forall_forall. rewrite Forall_forall in IH. eauto.
  - rewrite !leaves_array, !Forall_forall. rewrite Forall_forall in IH. eauto.
Qed.

Lemma graft_leaves_ext {A B} (g g' : A -> tree B) t : leaves (fun a => g a = g' a) t -> graft g t = graft g' t.
Proof.
  induction t as [a|fs IH|xs IH] using tree_nested; [done|..].
  - rewrite leaves_map. intros Hl. cbn. f_equal. apply map_ext_in. intros [k x] Hin%list_elem_of_In.
    rewrite Forall_forall in IH, Hl. cbn. f_equal. by apply (IH (k, x)), (Hl (k, x)).
  - rewrite leaves_array. intros Hl. cbn. f_equal. apply map_ext_in. intros x Hin%list_elem_of_In.
    rewrite Forall_forall in IH, Hl. by apply IH, Hl.
Qed.

Lemma weight_graft {A B} (g : A -> tree B) t : (forall a, weight (g a) = 1%nat) -> weight (graft g t) = weight t.
Proof.
  intros Hg. induction t as [a|fs IH|xs IH] using tree_nested; cbn; [apply Hg|..]; do 2 f_equal; rewrite map_map;
    apply map_ext_in; rewrite Forall_forall in IH.
  - intros [k x] Hin%list_elem_of_In. specialize (IH (k, x) Hin). cbn in *. by rewrite IH.
  - intros x Hin%list_elem_of_In. by apply IH.
Qed.

(** ** The grammar *)

Section Grammar.
Context `{MC : MsgpackCodec}.

Inductive encodes : doc -> bytes -> Prop :=
| enc_leaf w : scalar w -> encodes (Leaf w) w
| enc_map fs n h b :
    starts isMapCode h -> DecodeMapLen h = Some (n, []) -> Z.to_nat n = length fs ->
    encodes_fields fs b -> encodes (MapNode fs) (h ++ b)
| enc_array xs n h b :
    starts isArrayCode h -> DecodeArrayLen h = Some (n, []) -> Z.to_nat n = length xs ->
    encodes_items xs b -> encodes (ArrayNode xs) (h ++ b)
with encodes_fields : list (bytes * doc) -> bytes -> Prop :=
| enc_fields_nil : encodes_fields [] []
| enc_fields_cons k d fs kb vb b :
    starts isStringCode kb -> DecodeString kb = Some (k, []) -> encodes d vb -> encodes_fields fs b ->
    encodes_fields ((k, d) :: fs) (kb ++ vb ++ b)
with encodes_items : list doc -> bytes -> Prop :=
| enc_items_nil : encodes_items [] []
| enc_items_cons d xs vb b : encodes d vb -> encodes_items xs b -> encodes_items (d :: xs) (vb ++ b).

Scheme encodes_mut := Induction for encodes Sort Prop
  with encodes_fields_mut := Induction for encodes_fields Sort Prop
  with encodes_items_mut := Induction for encodes_items Sort Prop.
Combined Scheme encodes_mutind from encodes_mut, encodes_fields_mut, encodes_items_mut.

(** A leaf as it was parsed. *)
Definition span (orig : bytes) (l : leaf) : doc := Leaf (leaf_bytes orig l).

Definition content (blob : bytes) : patched doc := graft (span blob) <$> Parse blob.

(** What a skeleton stands for when its spliced leaves are parsed, too. *)
Definition spliced (orig : bytes) (l : leaf) : doc :=
  match content (leaf_bytes orig l) with Fine d => d | Fails _ => Leaf (leaf_bytes orig l) end.
Definition meaning (orig : bytes) (s : Skeleton) : doc := graft (spliced orig) s.

Context `{!MsgpackCodecOk}.

(** ** Reading *)

Lemma own_app {A} (f : bytes -> option (A * bytes)) u x r :
  reads_own f -> f u = Some (x, []) -> f (u ++ r) = Some (x, r).
Proof.
  intros Hf Hu. destruct (Hf _ _ _ Hu) as (u' & _ & E & Hr). rewrite app_nil_r in E. subst u'. apply Hr.
Qed.

Lemma own_split {A} (f : bytes -> option (A * bytes)) r x r' :
  reads_own f -> f r = Some (x, r') -> exists u, u <> [] /\ r = u ++ r' /\ f u = Some (x, []).
Proof.
  intros Hf Hr. destruct (Hf _ _ _ Hr) as (u & Hu & -> & Hall). exists u. split; [done|]. split; [done|].
  specialize (Hall []). by rewrite app_nil_r in Hall.
Qed.

Lemma starts_app p u r : starts p u -> starts p (u ++ r).
Proof. intros (c & t & -> & Hp). by exists c, (t ++ r). Qed.

Lemma starts_own p u r : u <> [] -> starts p (u ++ r) -> starts p u.
Proof. destruct u as [|c u]; [done|]. intros _ (c' & t & [= -> _] & Hp). by exists c', u. Qed.

Lemma starts_peek p r : starts p r <-> exists c, PeekCode r = Some c /\ p c = true.
Proof.
  rewrite PeekCode_head. destruct r as [|c r]; cbn; split.
  - by intros (? & ? & ? & ?).
  - by intros (? & ? & ?).
  - intros (c' & t & [= <- <-] & Hp). by exists c.
  - intros (c' & [= ->] & Hp). by exists c', r.
Qed.

Lemma encodes_starts d u : encodes d u -> starts (fun _ => true) u.
Proof.
  destruct 1 as [w [(c & t & -> & _) _]|fs n h b (c & t & -> & _)|xs n h b (c & t & -> & _)];
    eexists _, _; (split; [|done]); done.
Qed.
Lemma encodes_nonempty d u : encodes d u -> u <> [].
Proof. intros Hd. by destruct (encodes_starts _ _ Hd) as (c & t & -> & _). Qed.

(** The code at the head of an encoding says what it is. *)
Definition kind_code (d : doc) (c : byte) : bool :=
  match d with Leaf _ => is_leaf_code c | MapNode _ => isMapCode c | ArrayNode _ => isArrayCode c end.
Lemma encodes_code d u : encodes d u -> starts (kind_code d) u.
Proof. destruct 1 as [w [Hw _]|fs n h b Hh|xs n h b Hh]; [done|by apply starts_app..]. Qed.

Lemma map_not_array c : isMapCode c = true -> isArrayCode c = false.
Proof. by destruct c. Qed.

(** *** What [Parse] accepts is in the grammar *)

Section Sound.
Variable blob : bytes.
Abbreviation docs := (graft (span blob)).

(** The code a leaf keeps is the first of its bytes. *)
Definition coded (l : leaf) : Prop := LeafCode l = hd x00 (leaf_bytes blob l).

Definition sound (parse : bytes -> patched (Skeleton * bytes)) : Prop :=
  forall pre r t r', blob = pre ++ r -> parse r = Fine (t, r') ->
    leaves coded t /\ exists u, r = u ++ r' /\ encodes (docs t) u.

Lemma wrapInvalid_Fine {A} (o : option A) a : wrapInvalid o = Fine a <-> o = Some a.
Proof. destruct o; cbn; naive_solver. Qed.

Lemma parse_fields_sound parse n acc pre r fs r' :
  sound parse -> blob = pre ++ r -> parse_fields parse n acc r = Fine (fs, r') ->
  exists gs u, fs = acc ++ gs /\ length gs = n /\ Forall (fun f => leaves coded f.2) gs
    /\ r = u ++ r' /\ encodes_fields (map (prod_map id docs) gs) u.
Proof.
  intros Hp. revert acc pre r. induction n as [|n IH]; intros acc pre r Hblob; cbn [parse_fields].
  { intros [= -> ->]. exists [], []. rewrite app_nil_r. by repeat split; try constructor. }
  intros E. apply patched_bind_Fine in E as (code & Hc & E). apply wrapInvalid_Fine in Hc.
  destruct (isStringCode code) eqn:Hs; [cbn in E|done].
  apply patched_bind_Fine in E as ([key r1] & Hk & E). apply wrapInvalid_Fine in Hk.
  apply patched_bind_Fine in E as ([val r2] & Hv & E).
  destruct (own_split _ _ _ _ DecodeString_own Hk) as (kb & Hne & -> & Hkb).
  destruct (Hp (pre ++ kb) _ _ _ ltac:(by rewrite <-app_assoc) Hv) as (Hcode & vb & -> & Henc).
  destruct (IH _ ((pre ++ kb) ++ vb) _ ltac:(by rewrite <-!app_assoc) E) as (gs & u & -> & <- & Hcodes & -> & Hgs).
  exists ((key, val) :: gs), (kb ++ vb ++ u). rewrite <-!app_assoc. repeat split; [by constructor|].
  cbn. constructor; [|done..]. eapply starts_own; [done|]. apply starts_peek. by exists code.
Qed.

Lemma parse_items_sound parse n acc pre r xs r' :
  sound parse -> blob = pre ++ r -> parse_items parse n acc r = Fine (xs, r') ->
  exists ys u, xs = acc ++ ys /\ length ys = n /\ Forall (leaves coded) ys
    /\ r = u ++ r' /\ encodes_items (map docs ys) u.
Proof.
  intros Hp. revert acc pre r. induction n as [|n IH]; intros acc pre r Hblob; cbn [parse_items].
  { intros [= -> ->]. exists [], []. rewrite app_nil_r. by repeat split; try constructor. }
  intros E. apply patched_bind_Fine in E as ([val r2] & Hv & E).
  destruct (Hp pre _ _ _ Hblob Hv) as (Hcode & vb & -> & Henc).
  destruct (IH _ (pre ++ vb) _ ltac:(by rewrite <-!app_assoc) E) as (gs & u & -> & <- & Hcodes & -> & Hgs).
  exists (val :: gs), (vb ++ u). rewrite <-!app_assoc. by repeat split; constructor.
Qed.

Lemma pos_slice pre u r' : blob = pre ++ u ++ r' ->
  slice (pos (u ++ r') (length blob)) (pos r' (length blob)) blob = u.
Proof.
  intros ->. unfold pos. rewrite !length_app.
  replace (length pre + (length u + length r') - (length u + length r'))%nat with (length pre) by lia.
  rewrite slice_skip by lia. rewrite Nat.sub_diag.
  apply slice_here; lia.
Qed.

Lemma parseNode_sound fuel : sound (parseNode fuel (length blob)).
Proof.
  induction fuel as [|fuel IH]; intros pre r t r' Hblob; cbn [parseNode]; [done|].
  intros E. apply patched_bind_Fine in E as (code & Hc & E). apply wrapInvalid_Fine in Hc.
  destruct (isMapCode code) eqn:Hm; [|destruct (isArrayCode code) eqn:Ha].
  - apply patched_bind_Fine in E as ([n r1] & Hn & E). apply wrapInvalid_Fine in Hn.
    apply patched_bind_Fine in E as ([fs r2] & Hf & E). injection E as <- <-.
    destruct (own_split _ _ _ _ DecodeMapLen_own Hn) as (h & Hne & -> & Hh).
    destruct (parse_fields_sound _ _ _ (pre ++ h) _ _ _ IH ltac:(by rewrite <-app_assoc) Hf)
      as (gs & u & -> & Hl & Hcodes & -> & Hgs). split; [by rewrite leaves_map|].
    exists (h ++ u). rewrite <-app_assoc. split; [done|]. cbn. eapply enc_map; [|done|by rewrite length_map|done]. eapply starts_own; [done|]. apply starts_peek. by exists code.
  - apply patched_bind_Fine in E as ([n r1] & Hn & E). apply wrapInvalid_Fine in Hn.
    apply patched_bind_Fine in E as ([xs r2] & Hf & E). injection E as <- <-.
    destruct (own_split _ _ _ _ DecodeArrayLen_own Hn) as (h & Hne & -> & Hh).
    destruct (parse_items_sound _ _ _ (pre ++ h) _ _ _ IH ltac:(by rewrite <-app_assoc) Hf)
      as (gs & u & -> & Hl & Hcodes & -> & Hgs). split; [by rewrite leaves_array|].
    exists (h ++ u). rewrite <-app_assoc. split; [done|]. cbn. eapply enc_array; [|done|by rewrite length_map|done]. eapply starts_own; [done|]. apply starts_peek. by exists code.
  - apply patched_bind_Fine in E as ([[] r1] & Hs & E). apply wrapInvalid_Fine in Hs. injection E as <- <-.
    destruct (own_split _ _ _ _ Skip_own Hs) as (u & Hne & -> & Hu). split.
    { cbn. unfold coded, leaf_bytes. cbn. rewrite (pos_slice pre) by done. rewrite PeekCode_head in Hc.
      destruct u; [done|]. cbn in *. congruence. }
    exists u. split; [done|].
    cbn. unfold span, leaf_bytes. cbn. rewrite (pos_slice pre) by done. constructor. split; [|done].
    eapply starts_own; [done|]. apply starts_peek. exists code. split; [done|]. unfold is_leaf_code. by rewrite Hm, Ha.
Qed.

Theorem Parse_sound s : Parse blob = Fine s -> encodes (docs s) blob /\ leaves coded s.
Proof.
  unfold Parse. case_decide; [done|]. intros E. apply patched_bind_Fine in E as ([t r] & Hn & E).
  case_decide as Hr; [done|]. injection E as <-. subst r.
  destruct (parseNode_sound _ [] _ _ _ eq_refl Hn) as (Hcode & u & Hu & Henc). rewrite app_nil_r in Hu. by subst u.
Qed.
(** *** The recursion of [Parse] ends within its fuel *)

Definition ends (m : nat) (parse : bytes -> patched (Skeleton * bytes)) : Prop :=
  forall pre r, blob = pre ++ r -> (length r <= m)%nat -> parse r <> Fails OutOfFuel.

Lemma parse_fields_ends parse m n acc pre r :
  sound parse -> ends m parse -> blob = pre ++ r -> (length r <= m)%nat -> parse_fields parse n acc r <> Fails OutOfFuel.
Proof.
  intros Hs He. revert acc pre r. induction n as [|n IH]; intros acc pre r Hblob Hm; cbn [parse_fields]; [done|].
  destruct (PeekCode r) as [code|]; [|done]. cbn. destruct (isStringCode code); [|done]. cbn.
  destruct (DecodeString r) as [[key r1]|] eqn:Hk; [|done]. cbn.
  destruct (own_split _ _ _ _ DecodeString_own Hk) as (kb & Hne & -> & Hkb).
  rewrite length_app in Hm. rewrite app_assoc in Hblob.
  destruct (parse r1) as [[val r2]|e] eqn:Hv; cbn; [|intros [= ->]; eapply (He _ r1); [done|lia|done]].
  destruct (Hs _ _ _ _ Hblob Hv) as (_ & vb & -> & _). rewrite length_app in Hm. rewrite app_assoc in Hblob.
  eapply IH; [done|lia].
Qed.

Lemma parse_items_ends parse m n acc pre r :
  sound parse -> ends m parse -> blob = pre ++ r -> (length r <= m)%nat -> parse_items parse n acc r <> Fails OutOfFuel.
Proof.
  intros Hs He. revert acc pre r. induction n as [|n IH]; intros acc pre r Hblob Hm; cbn [parse_items]; [done|].
  destruct (parse r) as [[val r2]|e] eqn:Hv; cbn; [|intros [= ->]; by eapply (He _ r)].
  destruct (Hs _ _ _ _ Hblob Hv) as (_ & vb & -> & _). rewrite length_app in Hm. rewrite app_assoc in Hblob.
  eapply IH; [done|lia].
Qed.

Lemma parseNode_ends fuel m : (m < fuel)%nat -> ends m (parseNode fuel (length blob)).
Proof.
  revert m. induction fuel as [|fuel IH]; intros m Hm pre r Hblob Hr; [lia|]. cbn [parseNode].
  destruct (PeekCode r) as [code|]; [|done]. cbn [wrapInvalid mbind patched_bind].
  destruct (isMapCode code); [|destruct (isArrayCode code)].
  - unfold parseMap. destruct (DecodeMapLen r) as [[n r1]|] eqn:Hn; [|done]. cbn [wrapInvalid mbind patched_bind].
    destruct (own_split _ _ _ _ DecodeMapLen_own Hn) as (h & Hne & -> & _). rewrite app_assoc in Hblob.
    rewrite length_app in Hr. destruct h; [done|]. cbn in Hr.
    pose proof (parse_fields_ends _ (length r1) (Z.to_nat n) [] _ _ (parseNode_sound fuel) (IH (length r1) ltac:(lia)) Hblob (le_n _)).
    destruct (parse_fields _ _ _ _) as [[]|]; cbn; naive_solver.
  - unfold parseArray. destruct (DecodeArrayLen r) as [[n r1]|] eqn:Hn; [|done]. cbn [wrapInvalid mbind patched_bind].
    destruct (own_split _ _ _ _ DecodeArrayLen_own Hn) as (h & Hne & -> & _). rewrite app_assoc in Hblob.
    rewrite length_app in Hr. destruct h; [done|]. cbn in Hr.
    pose proof (parse_items_ends _ (length r1) (Z.to_nat n) [] _ _ (parseNode_sound fuel) (IH (length r1) ltac:(lia)) Hblob (le_n _)).
    destruct (parse_items _ _ _ _) as [[]|]; cbn; naive_solver.
  - by destruct (Skip r) as [[[] r1]|].
Qed.

Theorem Parse_ends : Parse blob <> Fails OutOfFuel.
Proof.
  unfold Parse. case_decide; [done|].
  pose proof (parseNode_ends (S (length blob)) (length blob) ltac:(lia) [] blob eq_refl (le_n _)).
  destruct (parseNode _ _ _) as [[t r]|e]; cbn; [|congruence]. by case_decide.
Qed.
End Sound.

(** *** What is in the grammar is parsed *)

Lemma parse_complete :
  (forall d u, encodes d u -> forall fuel total r, (length u <= fuel)%nat ->
     exists t, parseNode fuel total (u ++ r) = Fine (t, r)
       /\ forall blob pre, blob = pre ++ u ++ r -> total = length blob -> graft (span blob) t = d)
  /\ (forall fs u, encodes_fields fs u -> forall fuel total acc r, (length u <= fuel)%nat ->
     exists gs, parse_fields (parseNode fuel total) (length fs) acc (u ++ r) = Fine (acc ++ gs, r)
       /\ forall blob pre, blob = pre ++ u ++ r -> total = length blob -> map (prod_map id (graft (span blob))) gs = fs)
  /\ (forall xs u, encodes_items xs u -> forall fuel total acc r, (length u <= fuel)%nat ->
     exists ys, parse_items (parseNode fuel total) (length xs) acc (u ++ r) = Fine (acc ++ ys, r)
       /\ forall blob pre, blob = pre ++ u ++ r -> total = length blob -> map (graft (span blob)) ys = xs).
Proof.
  apply encodes_mutind.
  - intros w Hw fuel total r Hf. destruct Hw as [Hc Hs]. pose proof (starts_app _ _ r Hc) as Hc'.
    apply starts_peek in Hc' as (c & Hp & Hl). destruct fuel as [|fuel].
    { destruct Hc as (? & ? & -> & _). cbn in Hf. lia. }
    cbn [parseNode]. rewrite Hp. cbn [wrapInvalid mbind patched_bind]. unfold is_leaf_code in Hl.
    apply andb_true_iff in Hl as [Hm Ha]. apply negb_true_iff in Hm as ->, Ha as ->.
    rewrite (own_app _ _ _ r Skip_own Hs). cbn [wrapInvalid mbind patched_bind]. eexists. split; [done|].
    intros blob pre Hb ->. cbn. unfold span, leaf_bytes. cbn. by rewrite (pos_slice _ pre).
  - intros fs n h b Hh Hn Hl _ IH fuel total r Hf. rewrite length_app in Hf.
    pose proof (starts_app _ _ (b ++ r) Hh) as Hc. apply starts_peek in Hc as (c & Hp & Hm).
    destruct fuel as [|fuel]; [destruct Hh as (? & ? & -> & _); cbn in Hf; lia|].
    rewrite <-app_assoc. cbn [parseNode]. rewrite Hp. cbn [wrapInvalid mbind patched_bind]. rewrite Hm. unfold parseMap.
    rewrite (own_app _ _ _ (b ++ r) DecodeMapLen_own Hn). cbn [wrapInvalid mbind patched_bind].
    destruct (IH fuel total [] r) as (gs & Hg & Hd); [destruct Hh as (? & ? & -> & _); cbn in Hf; lia|].
    rewrite Hl, Hg. cbn. eexists. split; [done|]. intros blob pre Hb Ht. cbn. f_equal. apply (Hd _ (pre ++ h)); [|done].
    by rewrite <-app_assoc.
  - intros fs n h b Hh Hn Hl _ IH fuel total r Hf. rewrite length_app in Hf.
    pose proof (starts_app _ _ (b ++ r) Hh) as Hc. apply starts_peek in Hc as (c & Hp & Hm).
    destruct fuel as [|fuel]; [destruct Hh as (? & ? & -> & _); cbn in Hf; lia|].
    rewrite <-app_assoc. cbn [parseNode]. rewrite Hp. cbn [wrapInvalid mbind patched_bind]. rewrite Hm.
    destruct (isMapCode c) eqn:Hmc; [by rewrite map_not_array in Hm|]. unfold parseArray.
    rewrite (own_app _ _ _ (b ++ r) DecodeArrayLen_own Hn). cbn [wrapInvalid mbind patched_bind].
    destruct (IH fuel total [] r) as (gs & Hg & Hd); [destruct Hh as (? & ? & -> & _); cbn in Hf; lia|].
    rewrite Hl, Hg. cbn. eexists. split; [done|]. intros blob pre Hb Ht. cbn. f_equal. apply (Hd _ (pre ++ h)); [|done].
    by rewrite <-app_assoc.
  - intros fuel total acc r _. exists []. cbn. by rewrite app_nil_r.
  - intros k d fs kb vb b Hkc Hk Hd IHd Hfs IHfs fuel total acc r Hf. rewrite !length_app in Hf. rewrite <-!app_assoc.
    pose proof (starts_app _ _ (vb ++ b ++ r) Hkc) as Hc. apply starts_peek in Hc as (c & Hp & Hs).
    cbn [length parse_fields]. rewrite Hp. cbn [wrapInvalid mbind patched_bind]. rewrite Hs. cbn [negb].
    rewrite (own_app _ _ _ (vb ++ b ++ r) DecodeString_own Hk). cbn [wrapInvalid mbind patched_bind].
    destruct (IHd fuel total (b ++ r)) as (t & Ht & Htd); [lia|]. rewrite Ht. cbn [mbind patched_bind].
    destruct (IHfs fuel total (acc ++ [(k, t)]) r) as (gs & Hg & Hgd); [lia|]. rewrite Hg, <-app_assoc.
    eexists. split; [done|]. intros blob pre Hb Htot. cbn. f_equal.
    + f_equal. apply (Htd _ (pre ++ kb)); [|done]. by rewrite <-!app_assoc.
    + apply (Hgd _ (pre ++ kb ++ vb)); [|done]. by rewrite <-!app_assoc.
  - intros fuel total acc r _. exists []. cbn. by rewrite app_nil_r.
  - intros d xs vb b Hd IHd Hxs IHxs fuel total acc r Hf. rewrite !length_app in Hf. rewrite <-!app_assoc.
    cbn [length parse_items].
    destruct (IHd fuel total (b ++ r)) as (t & Ht & Htd); [lia|]. rewrite Ht. cbn [mbind patched_bind].
    destruct (IHxs fuel total (acc ++ [t]) r) as (ys & Hy & Hyd); [lia|]. rewrite Hy, <-app_assoc.
    eexists. split; [done|]. intros blob pre Hb Htot. cbn. f_equal.
    + by apply (Htd _ pre).
    + apply (Hyd _ (pre ++ vb)); [|done]. by rewrite <-!app_assoc.
Qed.

Theorem content_encodes d b : content b = Fine d <-> encodes d b.
Proof.
  split.
  - unfold content. destruct (Parse b) as [s|e] eqn:Hs; [|done]. intros [= <-]. by apply Parse_sound in Hs as [Hs _].
  - intros Hd. destruct (proj1 parse_complete _ _ Hd (S (length b)) (length b) []) as (t & Ht & Htd); [lia|].
    rewrite app_nil_r in *. unfold content, Parse. rewrite decide_False by by apply encodes_nonempty with d.
    rewrite Ht. cbn [mbind patched_bind]. rewrite decide_False by by intros []. cbn. f_equal. by apply (Htd b []).
Qed.
(** ** Writing *)

Definition parsed (orig : bytes) (l : leaf) : Prop := exists d, encodes d (leaf_bytes orig l).

Lemma spliced_encodes orig l : parsed orig l -> encodes (spliced orig l) (leaf_bytes orig l).
Proof. intros [d Hd]. unfold spliced. by rewrite (proj2 (content_encodes _ _) Hd). Qed.

Lemma length_weight {B} (f : B -> nat) l : (forall x, 1 <= f x)%nat -> (length l <= list_sum (map f l))%nat.
Proof. intros Hf. unfold list_sum. induction l as [|x l IH]; cbn; [lia|]. specialize (Hf x). lia. Qed.

Lemma weight_in {B} (f : B -> nat) l x : x ∈ l -> (f x <= list_sum (map f l))%nat.
Proof. unfold list_sum. induction 1 as [x l|x y l _ IH]; cbn; lia. Qed.

(** What is written stands for what the skeleton means. *)
Theorem writeNode_encodes orig s :
  leaves (parsed orig) s -> Z.of_nat (weight s) < 2 ^ 32 -> encodes (meaning orig s) (writeNode orig s).
Proof.
  induction s as [l|fs IH|xs IH] using tree_nested.
  - intros Hl _. by apply spliced_encodes.
  - rewrite leaves_map, weight_map. intros Hl Hw. cbn [meaning graft writeNode].
    pose proof (length_weight (@field_weight leaf) fs ltac:(intros; unfold field_weight; lia)) as Hlen.
    assert (in_u32 (Z.of_nat (length fs))) as Hu by (unfold in_u32; lia).
    apply enc_map with (Z.of_nat (length fs)).
    + apply MapLen_code. lia.
    + pose proof (MapLen_read _ [] Hu) as E. by rewrite app_nil_r in E.
    + by rewrite Nat2Z.id, length_map.
    + rewrite Forall_forall in IH, Hl. clear Hlen Hu.
      assert (forall f, f ∈ fs -> Z.of_nat (field_weight f) < 2 ^ 32) as Hf.
      { intros f Hin. pose proof (weight_in (@field_weight leaf) fs f Hin). lia. }
      clear Hw. induction fs as [|[k x] fs IHfs]; cbn; [constructor|]. rewrite <-app_assoc.
      pose proof (Hf (k, x) ltac:(left)) as Hkx. unfold field_weight in Hkx. cbn in Hkx.
      constructor.
      * apply String_code.
      * pose proof (String_read k []) as E. rewrite app_nil_r in E. apply E. unfold in_u32. lia.
      * apply (IH (k, x)); [left|by apply (Hl (k, x)); left|cbn; lia].
      * apply IHfs; intros f Hin; [apply IH|apply Hl|apply Hf]; by right.
  - rewrite leaves_array, weight_array. intros Hl Hw. cbn [meaning graft writeNode].
    pose proof (length_weight (@weight leaf) xs weight_pos) as Hlen.
    assert (in_u32 (Z.of_nat (length xs))) as Hu by (unfold in_u32; lia).
    apply enc_array with (Z.of_nat (length xs)).
    + apply ArrayLen_code. lia.
    + pose proof (ArrayLen_read _ [] Hu) as E. by rewrite app_nil_r in E.
    + by rewrite Nat2Z.id, length_map.
    + rewrite Forall_forall in IH, Hl. clear Hlen Hu.
      assert (forall x, x ∈ xs -> Z.of_nat (weight x) < 2 ^ 32) as Hf.
      { intros x Hin. pose proof (weight_in (@weight leaf) xs x Hin). lia. }
      clear Hw. induction xs as [|x xs IHxs]; cbn; [constructor|]. constructor.
      * apply IH; [left|apply Hl; left|apply Hf; left].
      * apply IHxs; intros f Hin; [apply IH|apply Hl|apply Hf]; by right.
Qed.

(** ** Fresh skeletons *)

(** In a parsed blob every leaf is one scalar. *)
Definition fresh_leaf (orig : bytes) (l : leaf) : Prop := scalar (leaf_bytes orig l).

Lemma encodes_scalars :
  (forall d u, encodes d u -> leaves scalar d)
  /\ (forall fs u, encodes_fields fs u -> Forall (fun f => leaves scalar f.2) fs)
  /\ (forall xs u, encodes_items xs u -> Forall (leaves scalar) xs).
Proof.
  apply encodes_mutind; try by constructor.
  - done.
  - intros. by rewrite leaves_map.
  - intros. by rewrite leaves_array.
Qed.

Lemma leaves_graft {A B} (P : A -> Prop) (Q : B -> Prop) g t :
  (forall a, leaves Q (g a) -> P a) -> leaves Q (graft g t) -> leaves P t.
Proof.
  intros HPQ. induction t as [a|fs IH|xs IH] using tree_nested; [apply HPQ|..]; cbn [graft].
  - rewrite !leaves_map, Forall_map, !Forall_forall. rewrite Forall_forall in IH.
    intros Hl [k x] Hin. by apply (IH (k, x)), (Hl (k, x)).
  - rewrite !leaves_array, Forall_map, !Forall_forall. rewrite Forall_forall in IH. eauto.
Qed.

Lemma Parse_fresh blob s : Parse blob = Fine s -> leaves (fresh_leaf blob) s.
Proof.
  intros Hs. apply Parse_sound in Hs as [Hs _]. apply (leaves_graft _ scalar (span blob)); [done|].
  by eapply (proj1 encodes_scalars).
Qed.

Lemma fresh_parsed orig l : fresh_leaf orig l -> parsed orig l.
Proof. intros Hl. eexists. by apply enc_leaf. Qed.

Lemma fresh_spliced orig l : fresh_leaf orig l -> spliced orig l = span orig l.
Proof. intros Hl. unfold spliced. by rewrite (proj2 (content_encodes _ _) (enc_leaf _ Hl)). Qed.

Lemma fresh_meaning blob s : Parse blob = Fine s -> content blob = Fine (meaning blob s).
Proof.
  intros Hs. unfold content. rewrite Hs. cbn. f_equal. apply graft_leaves_ext.
  eapply leaves_impl; [|by apply Parse_fresh]. intros l Hl. by rewrite fresh_spliced.
Qed.

Lemma encodes_weight :
  (forall d u, encodes d u -> (weight d <= length u)%nat)
  /\ (forall fs u, encodes_fields fs u -> (list_sum (map field_weight fs) <= length u)%nat)
  /\ (forall xs u, encodes_items xs u -> (list_sum (map weight xs) <= length u)%nat).
Proof.
  apply encodes_mutind.
  - intros w [(c & t & -> & _) _]. cbn. lia.
  - intros fs n h b (c & t & -> & _) _ _ _ IH. rewrite weight_map, length_app. cbn [length]. lia.
  - intros fs n h b (c & t & -> & _) _ _ _ IH. rewrite weight_array, length_app. cbn [length]. lia.
  - done.
  - intros k d fs kb vb b _ Hk _ IHd _ IHfs. rewrite !length_app. apply String_size in Hk. unfold list_sum in *.
    cbn in *. unfold field_weight at 1. cbn [fst snd]. lia.
  - done.
  - intros d xs vb b _ IHd _ IHxs. rewrite !length_app. unfold list_sum in *. cbn. lia.
Qed.

Lemma Parse_weight blob s : Parse blob = Fine s -> (weight s <= length blob)%nat.
Proof.
  intros Hs. apply Parse_sound in Hs as [Hs _]. rewrite <-(weight_graft (span blob)) by done. by apply encodes_weight.
Qed.
End Grammar.
