(* ===== verification/PatchFrame.v ===== *)
(** What an edit keeps: the leaves' invariant, the size, every path that leads elsewhere; and
    that it commutes with reading the tree as a document. *)
From S2P Require Import Prelude PatchPath Skeleton PatchOps PatchTree PatchEdits PatchDoc.
#[local] Set Warnings "-register-all,-clear-no-such-hyp".

(** ** Successful edits as a relation *)

Section Edited.
Context {A : Type} (E : edits A).
Implicit Types (s v w : tree A) (fs : list (bytes * tree A)) (xs : list (tree A)).

Inductive edited : list Segment -> tree A -> tree A -> Prop :=
| ed_missing k rest fs v :
    findField fs k = None -> on_missing E rest = Fine (Some v) ->
    edited (SegField k :: rest) (MapNode fs) (MapNode (fs ++ [(k, v)]))
| ed_absent k rest fs :
    findField fs k = None -> on_missing E rest = Fine None -> edited (SegField k :: rest) (MapNode fs) (MapNode fs)
| ed_field_target k fs i w o :
    findField fs k = Some i -> fs !! i = Some (k, w) -> on_target E w = Fine o ->
    edited [SegField k] (MapNode fs) (MapNode (put_field i k fs o))
| ed_field k rest fs i w v :
    rest <> [] -> findField fs k = Some i -> fs !! i = Some (k, w) -> edited rest w v ->
    edited (SegField k :: rest) (MapNode fs) (MapNode (<[i := (k, v)]> fs))
| ed_item_target z xs i w o :
    resolveIndex z (length xs) = Fine i -> xs !! i = Some w -> on_target E w = Fine o ->
    edited [SegIndex z] (ArrayNode xs) (ArrayNode (put_item i xs o))
| ed_item z rest xs i w v :
    rest <> [] -> resolveIndex z (length xs) = Fine i -> xs !! i = Some w -> edited rest w v ->
    edited (SegIndex z :: rest) (ArrayNode xs) (ArrayNode (<[i := v]> xs))
| ed_append xs ys : on_append E xs = Fine ys -> edited [SegAppend] (ArrayNode xs) (ArrayNode ys).

Lemma edit_edited path s s' : edit E path s = Fine s' -> edited path s s'.
Proof.
  revert s s'. induction path as [|seg rest IH]; intros s s'; cbn [edit]; [done|].
  destruct seg as [k|z|].
  - destruct s as [l|fs|xs]; try done. destruct (findField fs k) as [i|] eqn:Hf.
    + destruct (findField_spec _ _ _ Hf) as (w & Hw & _). rewrite Hw. cbn [snd]. case_decide as Hr.
      * subst rest. intros Hv. apply patched_bind_Fine in Hv as (v & Hv & [= <-]). by eapply ed_field_target.
      * intros Hv. apply patched_bind_Fine in Hv as (v & Hv & [= <-]).
        destruct (edit E rest w) as [w'|] eqn:Hw'; [|done]. injection Hv as <-. eapply ed_field; eauto.
    + intros Hv. apply patched_bind_Fine in Hv as ([v|] & Hv & [= <-]); [by apply ed_missing|by apply ed_absent].
  - destruct s as [l|fs|xs]; try done. intros Hv. apply patched_bind_Fine in Hv as (i & Hi & Hv).
    destruct (xs !! i) as [w|] eqn:Hw; [|done]. apply patched_bind_Fine in Hv as (v & Hv & [= <-]).
    case_decide as Hr.
    + subst rest. by eapply ed_item_target.
    + destruct (edit E rest w) as [w'|] eqn:Hw'; [|done]. injection Hv as <-. eapply ed_item; eauto.
  - destruct s as [l|fs|xs]; case_decide as Hr; try done. subst rest.
    destruct (on_append E xs) as [ys|] eqn:Hy; [|done]. intros [= <-]. by apply ed_append.
Qed.

(** ** Leaves *)

Section Leaves.
Variable P : A -> Prop.

Record keeps_leaves : Prop := {
  kl_target t v : leaves P t -> on_target E t = Fine (Some v) -> leaves P v;
  kl_missing rest v : on_missing E rest = Fine (Some v) -> leaves P v;
  kl_append xs ys : Forall (leaves P) xs -> on_append E xs = Fine ys -> Forall (leaves P) ys
}.

Lemma Forall_remove {B} (Q : B -> Prop) (l : list B) i : Forall Q l -> Forall Q (take i l ++ drop (S i) l).
Proof. intros Hl. apply Forall_app. split; [by apply Forall_take|by apply Forall_drop]. Qed.

Lemma edited_leaves path s s' : keeps_leaves -> edited path s s' -> leaves P s -> leaves P s'.
Proof.
  intros [Ht Hm Ha]. induction 1 as [k rest fs v _ Hv|k rest fs _ _|k fs i w v _ Hw Hv|k rest fs i w v _ _ Hw _ IH
    |z xs i w v _ Hw Hv|z rest xs i w v _ _ Hw _ IH|xs ys Hy]; rewrite ?leaves_map, ?leaves_array; intros Hs; try done.
  - apply Forall_app. split; [done|]. constructor; [by eapply Hm|done].
  - pose proof (Forall_lookup_1 _ _ _ _ Hs Hw) as Hpw. destruct v as [v|]; cbn; [|by apply Forall_remove].
    apply Forall_insert; [done|]. exact (Ht _ _ Hpw Hv).
  - pose proof (Forall_lookup_1 _ _ _ _ Hs Hw) as Hpw. apply Forall_insert; [done|]. exact (IH Hpw).
  - pose proof (Forall_lookup_1 _ _ _ _ Hs Hw) as Hpw. destruct v as [v|]; cbn; [|by apply Forall_remove].
    apply Forall_insert; [done|]. exact (Ht _ _ Hpw Hv).
  - pose proof (Forall_lookup_1 _ _ _ _ Hs Hw) as Hpw. apply Forall_insert; [done|]. exact (IH Hpw).
  - by eapply Ha.
Qed.
End Leaves.

(** ** Size *)

(** What the missing segments of a path add. *)
Definition segment_weight (seg : Segment) : nat := match seg with SegField k => 2 + length k | _ => 2 end.
Definition path_weight (path : list Segment) : nat := list_sum (map segment_weight path).

Section Size.
Variable c : nat.

Record grows_by : Prop := {
  gb_target t v : on_target E t = Fine (Some v) -> (weight v <= weight t + c)%nat;
  gb_missing rest v : on_missing E rest = Fine (Some v) -> (weight v <= path_weight rest + 1 + c)%nat;
  gb_append xs ys : on_append E xs = Fine ys -> (list_sum (map weight ys) <= list_sum (map weight xs) + c)%nat
}.

Lemma list_sum_cons x l : list_sum (x :: l) = (x + list_sum l)%nat.
Proof. done. Qed.
Lemma list_sum_split {B} (f : B -> nat) l i x :
  l !! i = Some x -> list_sum (map f l) = (list_sum (map f (take i l)) + f x + list_sum (map f (drop (S i) l)))%nat.
Proof.
  intros Hi. rewrite <-(take_drop_middle _ _ _ Hi) at 1. rewrite map_app, list_sum_app, map_cons, list_sum_cons. lia.
Qed.
Lemma list_sum_insert {B} (f : B -> nat) l i x y :
  l !! i = Some x -> (list_sum (map f (<[i := y]> l)) + f x = list_sum (map f l) + f y)%nat.
Proof.
  intros Hi. rewrite (list_sum_split f _ _ _ Hi), insert_take_drop by by eapply lookup_lt_Some.
  rewrite map_app, list_sum_app, map_cons, list_sum_cons. lia.
Qed.
Lemma list_sum_remove {B} (f : B -> nat) l i :
  (list_sum (map f (take i l ++ drop (S i) l)) <= list_sum (map f l))%nat.
Proof.
  rewrite map_app, list_sum_app. destruct (l !! i) as [x|] eqn:Hi.
  - rewrite (list_sum_split f _ _ _ Hi). lia.
  - apply lookup_ge_None in Hi. rewrite take_ge, drop_ge by lia. cbn. lia.
Qed.
Lemma list_sum_map_app {B} (f : B -> nat) l k :
  list_sum (map f (l ++ k)) = (list_sum (map f l) + list_sum (map f k))%nat.
Proof. by rewrite map_app, list_sum_app. Qed.

Lemma edited_weight path s s' : grows_by -> edited path s s' -> (weight s' <= weight s + path_weight path + c)%nat.
Proof.
  intros [Ht Hm Ha]. unfold path_weight in *.
  induction 1 as [k rest fs v _ Hv|k rest fs _ _|k fs i w v _ Hw Hv|k rest fs i w v _ _ Hw _ IH
    |z xs i w v _ Hw Hv|z rest xs i w v _ _ Hw _ IH|xs ys Hy]; rewrite ?weight_map, ?weight_array; try lia.
  - rewrite list_sum_map_app. specialize (Hm _ _ Hv). unfold list_sum in *. cbn. unfold field_weight at 2. cbn [fst snd]. lia.
  - destruct v as [v|]; cbn [put_field].
    + pose proof (list_sum_insert field_weight _ _ _ (k, v) Hw) as Hi. specialize (Ht _ _ Hv).
      unfold field_weight in Hi at 2 4. cbn [fst snd] in Hi. lia.
    + pose proof (list_sum_remove field_weight fs i). lia.
  - pose proof (list_sum_insert field_weight _ _ _ (k, v) Hw) as Hi.
    unfold field_weight in Hi at 2 4. cbn [fst snd] in Hi. unfold list_sum in *. cbn. lia.
  - destruct v as [v|]; cbn [put_item].
    + pose proof (list_sum_insert weight _ _ _ v Hw) as Hi. specialize (Ht _ _ Hv). lia.
    + pose proof (list_sum_remove weight xs i). lia.
  - pose proof (list_sum_insert weight _ _ _ v Hw) as Hi. unfold list_sum in *. cbn. lia.
  - specialize (Ha _ _ Hy). lia.
Qed.
End Size.

(** ** Paths that lead elsewhere *)

(** Two paths part at two different field names. *)
Fixpoint diverges (p q : list Segment) : bool :=
  match p, q with
  | SegField a :: p, SegField b :: q => if decide (a = b) then diverges p q else true
  | SegIndex i :: p, SegIndex j :: q => bool_decide (i = j) && diverges p q
  | _, _ => false
  end.

(** Beside the path, what is created for a missing field is empty. *)
Definition creates_only_path : Prop :=
  forall rest v q, on_missing E rest = Fine (Some v) -> diverges rest q = true -> lookup_path q v = Fine None.

Lemma diverges_nonempty p q : diverges p q = true -> q <> [].
Proof. by destruct p as [|[] ?], q. Qed.

Lemma edited_frame path s s' q : creates_only_path -> edited path s s' -> diverges path q = true -> lookup_path q s' = lookup_path q s.
Proof.
  intros Hnew Hed. revert q. induction Hed as [k rest fs v Hf Hv|k rest fs _ _|k fs i w v Hf Hw Hv|k rest fs i w v Hr Hf Hw _ IH
    |z xs i w v _ Hw Hv|z rest xs i w v Hr Hi Hw _ IH|xs ys Hy]; intros [|[b|j|] q] Hd; try done; cbn in Hd.
  - case_decide as Hk.
    + subst b. pose proof (diverges_nonempty _ _ Hd). cbn [lookup_path].
      rewrite get_field_app, (get_field_none _ _ Hf), get_field_cons, decide_True, decide_False by done. by eapply Hnew.
    + cbn [lookup_path]. rewrite get_field_app, get_field_cons, decide_False by done.
      destruct (get_field b fs); done.
  - case_decide as Hk; [done|]. cbn [lookup_path].
    assert (get_field b (put_field i k fs v) = get_field b fs) as ->; [|done].
    destruct v as [v|]; cbn [put_field]; [by eapply get_field_insert_ne|by eapply get_field_remove_ne].
  - cbn [lookup_path]. case_decide as Hk.
    + subst b. rewrite (get_field_insert_eq _ _ _ _ _ Hf Hw), (get_field_find _ _ _ _ Hf Hw).
      pose proof (diverges_nonempty _ _ Hd). rewrite !decide_False by done. cbn. by apply IH.
    + by rewrite (get_field_insert_ne _ _ _ _ _ _ Hw) by done.
  - by rewrite andb_false_r in Hd.
  - apply andb_true_iff in Hd as [Hj%bool_decide_eq_true Hd]. subst j. cbn [lookup_path].
    rewrite length_insert, Hi. cbn [mbind patched_bind].
    rewrite list_lookup_insert_eq by (by eapply lookup_lt_Some). rewrite Hw.
    pose proof (diverges_nonempty _ _ Hd). rewrite !decide_False by done. by apply IH.
Qed.
End Edited.
