(* ===== verification/PatchMeaning.v ===== *)
(** A patch on documents: the abstract operations, and that the operations of [PatchOps.v] on
    a parsed skeleton are these. *)
From Stdlib Require Import Floats.SpecFloat.
From S2P Require Import Prelude Text PatchPath Skeleton PatchOps PatchTree PatchEdits PatchDoc PatchFrame.
#[local] Set Warnings "-register-all,-clear-no-such-hyp".

(** ** Created maps *)

Section Nest.
Context {A : Type}.

Lemma nest_leaves (P : A -> Prop) rest v w : nest rest v = Fine w -> leaves P v -> leaves P w.
Proof.
  revert w. induction rest as [|[k| |] rest IH]; cbn; intros w; try done; [by intros [= <-]|].
  intros Hw Hv. apply patched_bind_Fine in Hw as (u & Hu & [= <-]). cbn. split; [|done]. by apply IH.
Qed.

Lemma path_weight_cons seg rest : path_weight (seg :: rest) = (segment_weight seg + path_weight rest)%nat.
Proof. done. Qed.

Lemma nest_weight rest (v w : tree A) : nest rest v = Fine w -> (weight w <= path_weight rest + weight v)%nat.
Proof.
  revert w. induction rest as [|[k| |] rest IH]; cbn [nest]; intros w; try done; [intros [= <-]; cbn; lia|].
  intros Hw. apply patched_bind_Fine in Hw as (u & Hu & [= <-]). specialize (IH _ Hu).
  rewrite path_weight_cons, weight_map. cbn. unfold field_weight. cbn. lia.
Qed.

Lemma path_weight_removelast rest : (path_weight (removelast rest) <= path_weight rest)%nat.
Proof.
  induction rest as [|seg rest IH]; [done|]. destruct rest as [|seg' rest]; [cbn; lia|].
  rewrite removelast_cons by done. rewrite !(path_weight_cons seg). lia.
Qed.

Lemma nest_diverges rest q (v w : tree A) :
  nest rest v = Fine w -> diverges rest q = true -> lookup_path q w = Fine None.
Proof.
  revert q w. induction rest as [|[k| |] rest IH]; intros q w; try done. cbn [nest]. intros Hw Hd.
  apply patched_bind_Fine in Hw as (u & Hu & [= <-]). destruct q as [|[b| |] q]; try done. cbn [diverges] in Hd.
  cbn [lookup_path]. rewrite get_field_cons. destruct (decide (k = b)) as [->|Hk]; [|done].
  pose proof (diverges_nonempty _ _ Hd). rewrite decide_False by done. by apply IH.
Qed.

Lemma diverges_removelast rest q :
  final_segment rest = SegAppend -> diverges rest q = true -> diverges (removelast rest) q = true.
Proof.
  revert q. induction rest as [|seg rest IH]; intros q; [done|]. intros Hf Hd.
  destruct rest as [|seg' rest]; [cbn in Hf; subst seg; by destruct q as [|[] q]|]. rewrite final_segment_cons in Hf by done.
  rewrite removelast_cons by done. destruct seg as [a|i|], q as [|[b|j|] q]; try done; cbn [diverges] in *.
  - case_decide; [by apply IH|done].
  - apply andb_true_iff in Hd as [-> Hd]. by apply IH.
Qed.

Lemma nest_graft {B} (g : A -> tree B) rest v : graft g <$> nest rest v = nest rest (graft g v).
Proof.
  induction rest as [|[k| |] rest IH]; cbn [nest]; try done. rewrite <-IH. by destruct (nest rest v).
Qed.
End Nest.

(** ** Fields of a merge *)

Section Merge.
Context `{MC : MsgpackCodec} `{!MsgpackCodecOk}.

Lemma skips_add n m u r r' r'' :
  skips n u = Some (tt, r') -> skips m r' = Some (tt, r'') -> r = r'' -> skips (n + m) u = Some (tt, r).
Proof.
  intros Hn Hm ->. revert u Hn. induction n as [|n IH]; intros u; cbn; [by intros [= ->]|].
  destruct (Skip u) as [[[] r1]|]; cbn; [apply IH|done].
Qed.

Lemma skip_encodes :
  (forall d u, encodes d u -> forall r, Skip (u ++ r) = Some (tt, r))
  /\ (forall fs u, encodes_fields fs u -> forall r, skips (2 * length fs) (u ++ r) = Some (tt, r))
  /\ (forall xs u, encodes_items xs u -> forall r, skips (length xs) (u ++ r) = Some (tt, r)).
Proof.
  apply encodes_mutind.
  - intros w [_ Hw] r. by apply own_app; [apply Skip_own|].
  - intros fs n h b Hh Hn Hl _ IH r. rewrite <-app_assoc.
    rewrite (Skip_map _ n (b ++ r)); [by rewrite Hl|by apply starts_app|].
    by apply own_app; [apply DecodeMapLen_own|].
  - intros fs n h b Hh Hn Hl _ IH r. rewrite <-app_assoc.
    rewrite (Skip_array _ n (b ++ r)); [by rewrite Hl|by apply starts_app|].
    by apply own_app; [apply DecodeArrayLen_own|].
  - done.
  - intros k d fs kb vb b Hc Hk _ IHd _ IHfs r. rewrite <-!app_assoc.
    replace (2 * length ((k, d) :: fs))%nat with (S (S (2 * length fs))) by (cbn; lia). cbn [skips].
    rewrite Skip_string by by apply starts_app. rewrite (own_app _ _ _ (vb ++ b ++ r) DecodeString_own Hk). cbn.
    rewrite IHd. cbn. apply IHfs.
  - done.
  - intros d xs vb b _ IHd _ IHxs r. rewrite <-!app_assoc. cbn. rewrite IHd. cbn. apply IHxs.
Qed.

Lemma skipped_app (u r : bytes) : skipped (u ++ r) r = u.
Proof. unfold skipped. rewrite length_app, Nat.add_sub. apply take_app_length. Qed.

(** The raw fields are the fields of the document, each with bytes that stand for it. *)
Definition raw_field (p : bytes * bytes) (f : bytes * doc) : Prop := p.1 = f.1 /\ encodes f.2 p.2.

Lemma extract_fields_encodes fs u : encodes_fields fs u ->
  forall out, exists ps, extract_fields (length fs) out u = Fine (out ++ ps) /\ Forall2 raw_field ps fs.
Proof.
  induction 1 as [|k d fs kb vb b Hc Hk Hd Hfs IH]; intros out.
  { exists []. by rewrite app_nil_r. }
  pose proof (starts_app _ _ (vb ++ b) Hc) as Hp. apply starts_peek in Hp as (c & Hp & Hs).
  cbn [length extract_fields]. rewrite Hp. cbn [wrapInvalid mbind patched_bind]. rewrite Hs. cbn [negb].
  rewrite (own_app _ _ _ (vb ++ b) DecodeString_own Hk). cbn [wrapInvalid mbind patched_bind].
  rewrite (proj1 skip_encodes _ _ Hd). cbn [wrapInvalid mbind patched_bind]. rewrite skipped_app.
  destruct (IH (out ++ [(k, vb)])) as (ps & -> & Hps). exists ((k, vb) :: ps). rewrite <-app_assoc. split; [done|].
  by constructor.
Qed.

Lemma extract_encodes d value : encodes d value ->
  match d with
  | MapNode fs => exists ps, extractTopLevelFields value = Fine ps /\ Forall2 raw_field ps fs
  | _ => extractTopLevelFields value = Fails ErrTypeMismatch
  end.
Proof.
  intros Hd. pose proof (encodes_code _ _ Hd) as (c & t & E & Hc). unfold extractTopLevelFields. rewrite E.
  destruct Hd as [w Hw|fs n h b Hh Hn Hl Hfs|xs n h b Hh Hn Hl Hxs]; cbn in Hc.
  - unfold is_leaf_code in Hc. apply andb_true_iff in Hc as [Hm _]. by rewrite Hm.
  - rewrite Hc, <-E. cbn [negb]. rewrite (own_app _ _ _ b DecodeMapLen_own Hn). cbn [wrapInvalid mbind patched_bind].
    rewrite Hl. destruct (extract_fields_encodes _ _ Hfs []) as (ps & -> & Hps). by exists ps.
  - destruct (isMapCode c) eqn:Hm; [by rewrite map_not_array in Hc|done].
Qed.
End Merge.

(** ** What the operations keep *)

Section Keeps.
Context `{MC : MsgpackCodec} `{!MsgpackCodecOk} `{!MsgpackNumbersOk}.

(** The value is one document, where the operation stores it. *)
Definition value_ok (op : Op) : Prop :=
  match op_Kind op with
  | OpSet | OpInc | OpAppend | OpPrepend | OpMerge => exists d, encodes d (op_Value op)
  | _ => True
  end.

Lemma encode_scalar code f n m :
  scalar (encodeIntWithCode code n) /\ scalar (encodeUintWithCode code m) /\ scalar (encodeFloatWithCode code f).
Proof.
  unfold encodeIntWithCode, encodeUintWithCode, encodeFloatWithCode. split_and!; repeat case_match;
    first [apply Int8_code|apply Int16_code|apply Int32_code|apply Int64_code|apply Uint8_code|apply Uint16_code
          |apply Uint32_code|apply Uint64_code|apply Float32_code|apply Float64_code].
Qed.

Lemma computeIncBytes_scalar code t d w : computeIncBytes code t d = Fine w -> scalar w.
Proof.
  destruct t, d; cbn; try done; intros [= <-];
    [apply (encode_scalar code S754_nan _ 0)|apply (encode_scalar code S754_nan 0)|by apply (encode_scalar code _ 0 0)].
Qed.

Lemma parsed_raw orig raw b e c :
  (exists d, encodes d raw) -> parsed orig {| LeafStart := b; LeafEnd := e; LeafCode := c; RawBytes := Some raw |}.
Proof. done. Qed.

Lemma newLeaf_parsed orig raw : (exists d, encodes d raw) -> leaves (parsed orig) (newLeaf raw).
Proof. done. Qed.

Lemma replaceWithLeaf_parsed orig raw t : (exists d, encodes d raw) -> leaves (parsed orig) (replaceWithLeaf raw t).
Proof. by destruct t. Qed.

Lemma put_field_alter k raw fs i : findField fs k = Some i ->
  alter (fun f : bytes * Skeleton => (f.1, newLeaf raw)) i fs = <[i := (k, newLeaf raw)]> fs.
Proof.
  intros Hi. destruct (findField_spec _ _ _ Hi) as (v & Hv & _).
  apply list_eq. intros j. rewrite list_lookup_alter, list_lookup_insert.
  pose proof (lookup_lt_Some _ _ _ Hv). destruct (decide (i = j)) as [->|Hj].
  - rewrite decide_True by done. by rewrite Hv.
  - by rewrite decide_False by (by intros []).
Qed.

Lemma merge_fields_inv (I : list (bytes * Skeleton) -> Prop) ps fs :
  (forall fs p, I fs -> p ∈ ps -> I (merge_field fs p)) -> I fs -> I (foldl merge_field fs ps).
Proof.
  revert fs. induction ps as [|p ps IH]; intros fs Hstep Hi; cbn; [done|].
  apply IH; [|apply Hstep; [done|left]]. intros gs q Hg Hq. apply Hstep; [done|by right].
Qed.

Lemma mergeFieldsInto_parsed orig ps fs t :
  Forall2 raw_field ps fs -> leaves (parsed orig) t -> leaves (parsed orig) (mergeFieldsInto ps t).
Proof.
  intros Hps. destruct t as [l|gs|xs]; cbn [mergeFieldsInto]; try done. rewrite !leaves_map.
  apply merge_fields_inv. intros hs [k raw] Hhs Hp.
  assert (exists d, encodes d raw) as Hraw.
  { apply list_elem_of_lookup in Hp as [i Hi]. destruct (Forall2_lookup_l _ _ _ _ _ Hps Hi) as (f & _ & _ & Hf). eauto. }
  unfold merge_field. cbn [fst snd]. destruct (findField hs k) as [i|] eqn:Hi.
  - rewrite (put_field_alter _ _ _ _ Hi). by apply Forall_insert.
  - apply Forall_app. split; [done|]. by constructor.
Qed.

Lemma remove_value_sub orig value t v : remove_value orig value t = Fine v ->
  exists xs ys, t = ArrayNode xs /\ v = ArrayNode ys /\ (ys = xs \/ exists i, ys = take i xs ++ drop (S i) xs).
Proof.
  destruct t as [l|fs|xs]; cbn; try done. destruct (find_leaf orig value xs) as [i|]; intros [= <-]; eauto 10.
Qed.

Lemma needs_value {B} (value : bytes) (k : patched B) b :
  (if decide (value = []) then Fails ErrInvalidOp else k) = Fine b -> value <> [] /\ k = Fine b.
Proof. by case_decide. Qed.

(** The shape of an operation's edit. *)
Inductive op_shape (orig : bytes) (op : Op) : edits leaf -> Prop :=
| shape_set : value_ok op = (exists d, encodes d (op_Value op)) ->
    op_shape orig op (put_edits (fun t => Fine (replaceWithLeaf (op_Value op) t)) (newLeaf (op_Value op)))
| shape_delete : op_shape orig op delete_edits
| shape_inc delta : value_ok op = (exists d, encodes d (op_Value op)) ->
    op_shape orig op (put_edits (inc_leaf orig delta) (newLeaf (op_Value op)))
| shape_append prepend : value_ok op = (exists d, encodes d (op_Value op)) -> op_Value op <> [] ->
    op_shape orig op (append_edits (newLeaf (op_Value op)) prepend)
| shape_remove_at : op_shape orig op remove_at_edits
| shape_remove_val : op_shape orig op (change_edits (remove_value orig (op_Value op)))
| shape_merge ps : value_ok op = (exists d, encodes d (op_Value op)) -> extractTopLevelFields (op_Value op) = Fine ps ->
    op_shape orig op (put_edits (merge_into ps) (mergeFieldsInto ps (MapNode []))).

Lemma op_edits_shape orig op path E : op_edits orig op path = Fine E -> op_shape orig op E.
Proof.
  unfold op_edits. destruct (op_Kind op) eqn:Hk; intros HE; try (apply needs_value in HE as [Hv HE]); try done.
  - injection HE as <-. apply shape_set. unfold value_ok. by rewrite Hk.
  - injection HE as <-. apply shape_delete.
  - apply patched_bind_Fine in HE as (delta & _ & HE). case_decide; [done|]. injection HE as <-.
    apply shape_inc. unfold value_ok. by rewrite Hk.
  - injection HE as <-. apply shape_append; [|done]. unfold value_ok. by rewrite Hk.
  - injection HE as <-. apply shape_append; [|done]. unfold value_ok. by rewrite Hk.
  - destruct (final_segment path); try done. injection HE as <-. apply shape_remove_at.
  - injection HE as <-. apply shape_remove_val.
  - apply patched_bind_Fine in HE as (ps & Hps & HE). injection HE as <-. apply shape_merge; [|done].
    unfold value_ok. by rewrite Hk.
Qed.

Lemma extract_raw op ps : value_ok op = (exists d, encodes d (op_Value op)) -> value_ok op ->
  extractTopLevelFields (op_Value op) = Fine ps ->
  exists fs, encodes (MapNode fs) (op_Value op) /\ Forall2 raw_field ps fs.
Proof.
  intros -> [d Hd] Hx. pose proof (extract_encodes _ _ Hd) as Hex. destruct d as [w|fs|xs]; [congruence| |congruence].
  destruct Hex as (ps' & Hx' & Hps). exists fs. split; [done|]. congruence.
Qed.

Lemma op_keeps_leaves orig op path E :
  value_ok op -> op_edits orig op path = Fine E -> keeps_leaves E (parsed orig).
Proof.
  intros Hok HE. destruct (op_edits_shape _ _ _ _ HE) as [Heq| |delta Heq|prepend Heq Hne| | |ps Heq Hx].
  - rewrite Heq in Hok. split; cbn.
    + intros t v _ [= <-]. by apply replaceWithLeaf_parsed.
    + intros rest v Hv. destruct (nest rest _) as [w|] eqn:Hn; [|done]. injection Hv as <-. by eapply nest_leaves.
    + done.
  - by split; cbn; try done; intros xs ys Hxs [= <-].
  - rewrite Heq in Hok. split; cbn.
    + intros t v _ Hv. destruct t as [l|fs|xs]; try done. cbn [inc_leaf] in Hv.
      destruct (inc_leaf orig delta (Leaf l)) as [v'|] eqn:Hi; cbn [inc_leaf] in Hi; rewrite Hi in Hv; [|done].
      injection Hv as <-. apply patched_bind_Fine in Hi as (tn & _ & Hi). case_decide; [done|].
      apply patched_bind_Fine in Hi as (raw & Hraw & [= <-]). cbn. exists (Leaf raw).
      by eapply enc_leaf, computeIncBytes_scalar.
    + intros rest v Hv. destruct (nest rest _) as [w|] eqn:Hn; [|done]. injection Hv as <-. by eapply nest_leaves.
    + done.
  - rewrite Heq in Hok. split; cbn; [done| |].
    + intros rest v. case_match; [|done]. destruct (nest _ _) as [w|] eqn:Hn; [|done]. intros [= <-].
      eapply nest_leaves; [done|]. apply leaves_array. by constructor.
    + intros xs ys Hxs [= <-]. destruct prepend; [by constructor|]. apply Forall_app. split; [done|]. by constructor.
  - by split; cbn.
  - split; cbn; [|done|by intros xs ys Hxs [= <-]].
    intros t v Ht Hv. destruct (remove_value _ _ t) as [v'|] eqn:Hr; [|done]. injection Hv as <-.
    apply remove_value_sub in Hr as (xs & ys & -> & -> & Hys). rewrite leaves_array in *.
    destruct Hys as [->|[i ->]]; [done|by apply Forall_remove].
  - destruct (extract_raw _ _ Heq Hok Hx) as (fs & Hfs & Hps). split; cbn.
    + intros t v Ht Hv. unfold merge_into in Hv. destruct (is_map t); [|done]. injection Hv as <-.
      by eapply mergeFieldsInto_parsed.
    + intros rest v Hv. destruct (nest rest _) as [w|] eqn:Hn; [|done]. injection Hv as <-. eapply nest_leaves; [done|].
      by eapply (mergeFieldsInto_parsed _ _ _ (MapNode [])).
    + done.
Qed.

Lemma op_creates_only_path orig op path E : op_edits orig op path = Fine E -> creates_only_path E.
Proof.
  intros HE rest v q. destruct (op_edits_shape _ _ _ _ HE) as [Heq| |delta Heq|prepend Heq Hne| | |ps Heq Hx]; cbn; try done.
  1,2,4: destruct (nest rest _) as [w|] eqn:Hn; [|done]; intros [= <-]; by apply (nest_diverges _ _ _ _ Hn).
  case_match eqn:Hl; [|done]. apply bool_decide_eq_true in Hl as [_ Hl].
  destruct (nest _ _) as [w|] eqn:Hn; [|done]. intros [= <-] Hd. by apply (nest_diverges _ _ _ _ Hn), diverges_removelast.
Qed.
(** ** Growth *)

Lemma merge_field_weight fs p :
  (list_sum (map field_weight (merge_field fs p)) <= list_sum (map field_weight fs) + (2 + length p.1))%nat.
Proof.
  destruct p as [k raw]. unfold merge_field. cbn [fst snd]. destruct (findField fs k) as [i|] eqn:Hi.
  - rewrite (put_field_alter _ _ _ _ Hi). destruct (findField_spec _ _ _ Hi) as (v & Hv & _).
    pose proof (list_sum_insert field_weight _ _ _ (k, newLeaf raw) Hv) as Hs. pose proof (weight_pos v).
    unfold field_weight in Hs at 2 4. cbn [fst snd newLeaf weight] in Hs. lia.
  - rewrite list_sum_map_app, map_cons, list_sum_cons. unfold field_weight at 2. cbn. lia.
Qed.

Lemma merge_weight ps fs :
  (list_sum (map field_weight (foldl merge_field fs ps))
   <= list_sum (map field_weight fs) + list_sum (map (fun p => 2 + length p.1) ps))%nat.
Proof.
  revert fs. induction ps as [|p ps IH]; intros fs; cbn [foldl map]; [lia|].
  specialize (IH (merge_field fs p)). pose proof (merge_field_weight fs p). rewrite list_sum_cons. lia.
Qed.

Lemma raw_fields_weight ps fs value :
  Forall2 raw_field ps fs -> encodes (MapNode fs) value ->
  (list_sum (map (fun p : bytes * bytes => 2 + length p.1) ps) <= length value)%nat.
Proof.
  intros Hps Hv. apply encodes_weight in Hv. rewrite weight_map in Hv.
  enough (list_sum (map (fun p : bytes * bytes => 2 + length p.1) ps) <= list_sum (map field_weight fs))%nat by lia.
  clear Hv. induction Hps as [|[k raw] [k' d] ps fs [Hk _] _ IH]; [done|]. cbn in Hk. subst k'.
  cbn [map]. rewrite !list_sum_cons. unfold field_weight at 1. cbn [fst snd]. pose proof (weight_pos d). lia.
Qed.

Lemma mergeFieldsInto_weight ps t :
  (weight (mergeFieldsInto ps t) <= weight t + list_sum (map (fun p => 2 + length p.1) ps))%nat.
Proof.
  destruct t as [l|fs|xs]; cbn [mergeFieldsInto]; try lia. rewrite !weight_map. pose proof (merge_weight ps fs). lia.
Qed.

Lemma put_grows c (change : Skeleton -> patched Skeleton) v :
  (forall t t', change t = Fine t' -> weight t' <= weight t + c)%nat -> (weight v <= 1 + c)%nat ->
  grows_by (put_edits change v) c.
Proof.
  intros Hc Hv. split; cbn; [| |done].
  - intros t t' Ht. destruct (change t) eqn:E; [|done]. injection Ht as <-. by apply Hc.
  - intros rest w Hw. destruct (nest rest v) eqn:E; [|done]. injection Hw as <-. apply nest_weight in E. lia.
Qed.

Lemma op_grows orig op path E :
  value_ok op -> op_edits orig op path = Fine E -> grows_by E (length (op_Value op)).
Proof.
  intros Hok HE. destruct (op_edits_shape _ _ _ _ HE) as [Heq| |delta Heq|prepend Heq Hne| | |ps Heq Hx].
  - apply put_grows; [|cbn; lia]. intros t t' [= <-]. pose proof (weight_pos t). destruct t; cbn in *; lia.
  - by split; cbn; try done; intros xs ys [= <-]; lia.
  - apply put_grows; [|cbn; lia]. intros t t' Ht. destruct t as [l|fs|xs]; try done. cbn [inc_leaf] in Ht.
    apply patched_bind_Fine in Ht as (tn & _ & Ht). case_decide; [done|].
    apply patched_bind_Fine in Ht as (raw & _ & [= <-]). cbn. lia.
  - assert (1 <= length (op_Value op))%nat by (destruct (op_Value op); [done|cbn; lia]). split; cbn; [done| |].
    + intros rest v. case_match; [|done]. destruct (nest _ _) as [w|] eqn:Hn; [|done]. intros [= <-].
      apply nest_weight in Hn. pose proof (path_weight_removelast rest). rewrite weight_array in Hn. cbn in Hn. lia.
    + intros xs ys [= <-]. destruct prepend; [cbn [map]; rewrite list_sum_cons; cbn; lia|].
      rewrite list_sum_map_app. cbn. lia.
  - by split.
  - split; cbn; [|done|by intros xs ys [= <-]; lia].
    intros t v Hv. destruct (remove_value _ _ t) as [v'|] eqn:Hr; [|done]. injection Hv as <-.
    apply remove_value_sub in Hr as (xs & ys & -> & -> & Hys). rewrite !weight_array.
    destruct Hys as [->|[i ->]]; [lia|]. pose proof (list_sum_remove weight xs i). lia.
  - destruct (extract_raw _ _ Heq Hok Hx) as (fs & Hfs & Hps). pose proof (raw_fields_weight _ _ _ Hps Hfs).
    apply put_grows.
    + intros t t'. unfold merge_into. destruct (is_map t); [|done]. intros [= <-]. pose proof (mergeFieldsInto_weight ps t). lia.
    + pose proof (mergeFieldsInto_weight ps (MapNode [])) as Hw.
      change (weight (MapNode (@nil (bytes * Skeleton)))) with 1%nat in Hw. lia.
Qed.

(** *** The weight of a parsed path *)

Lemma path_weight_app p q : path_weight (p ++ q) = (path_weight p + path_weight q)%nat.
Proof. unfold path_weight. by rewrite map_app, list_sum_app. Qed.

Lemma parse_brackets_weight fuel rest out segs :
  parse_brackets fuel rest out = Fine segs -> (path_weight segs <= path_weight out + length rest)%nat.
Proof.
  revert rest out. induction fuel as [|fuel IH]; intros [|c tail] out; cbn [parse_brackets]; try done;
    [by intros [= <-]; cbn; lia|by intros [= <-]; cbn; lia|].
  destruct (negb (is_code c open_bracket)); [done|]. destruct (index_byte close_bracket tail) as [i|] eqn:Hi; [|done].
  apply index_byte_spec in Hi as [Hi _]. apply lookup_lt_Some in Hi.
  case_decide; [|case_decide; [done|destruct (Atoi _) as [n|]; [|done]]]; intros Hs; apply IH in Hs;
    rewrite path_weight_app, length_drop in Hs; cbn in *; lia.
Qed.

Lemma parseSegmentInto_weight part out segs :
  parseSegmentInto part out = Fine segs -> (path_weight segs <= path_weight out + length part + 2)%nat.
Proof.
  unfold parseSegmentInto. destruct (index_byte open_bracket part) as [br|] eqn:Hb.
  - apply index_byte_spec in Hb as [Hb _]. apply lookup_lt_Some in Hb. case_decide; [done|].
    destruct (has_bracket _); [done|]. intros Hs%parse_brackets_weight.
    rewrite path_weight_app, length_drop in Hs. unfold path_weight, list_sum in *. cbn in Hs. rewrite length_take in Hs. lia.
  - destruct (has_bracket _); [done|]. intros [= <-]. rewrite path_weight_app. cbn. lia.
Qed.

Lemma parse_parts_weight parts out segs :
  parse_parts parts out = Fine segs ->
  (path_weight segs <= path_weight out + list_sum (map (fun p => length p + 2) parts))%nat.
Proof.
  revert out. induction parts as [|part parts IH]; intros out; cbn [parse_parts]; [intros [= <-]; cbn; lia|].
  case_decide; [done|]. destruct (has_prefix _ _); [done|]. intros Hs.
  apply patched_bind_Fine in Hs as (segs' & Hp & Hs). apply IH in Hs. apply parseSegmentInto_weight in Hp.
  cbn [map]. rewrite list_sum_cons. lia.
Qed.

Lemma split_weight sep s : (list_sum (map (fun p : bytes => length p + 2) (split sep s)) <= 2 * length s + 2)%nat.
Proof.
  induction s as [|c s IH]; cbn [split]; [cbn; lia|]. case_decide.
  - cbn [map]. rewrite list_sum_cons. cbn [length]. lia.
  - destruct (split sep s) as [|p ps] eqn:E; [by destruct (split_nonempty sep s)|].
    cbn [map] in *. rewrite list_sum_cons in *. cbn [length]. lia.
Qed.

Lemma ParsePath_weight s segs : ParsePath s = Fine segs -> (path_weight segs <= 2 * length s + 2)%nat.
Proof.
  unfold ParsePath. case_decide; [done|]. intros Hs%parse_parts_weight. cbn [path_weight] in Hs.
  pose proof (split_weight x2e s). unfold path_weight at 2 in Hs. cbn [map] in Hs. change (list_sum []) with O in Hs. lia.
Qed.
End Keeps.
