(* ===== verification/PatchRefine.v ===== *)
(** The abstract patch, and the refinement: one operation of [Apply] on a blob is [update] on
    the document the blob stands for, with the same errors. *)
From S2P Require Import Prelude Text PatchPath Skeleton PatchOps PatchTree PatchEdits PatchDoc PatchFrame PatchMeaning.
#[local] Set Warnings "-register-all,-clear-no-such-hyp".

(** ** The operations on documents *)

Section Documents.
Context `{MC : MsgpackCodec}.

Definition inc_doc (delta : number) (t : doc) : patched doc :=
  match t with
  | Leaf w =>
      tn ← readNumericLeaf w;
      if decide (class_of tn <> class_of delta) then Fails ErrTypeMismatch else
      Leaf <$> computeIncBytes (hd x00 w) tn delta
  | _ => Fails ErrTypeMismatch
  end.

Fixpoint remove_first (w : bytes) (xs : list doc) : list doc :=
  match xs with
  | [] => []
  | Leaf v :: xs => if decide (v = w) then xs else Leaf v :: remove_first w xs
  | x :: xs => x :: remove_first w xs
  end.
Definition remove_doc (w : bytes) (t : doc) : patched doc :=
  match t with ArrayNode xs => Fine (ArrayNode (remove_first w xs)) | _ => Fails ErrTypeMismatch end.

(** The fields [gs] over the fields [fs]. *)
Definition set_doc_field (fs : list (bytes * doc)) (g : bytes * doc) : list (bytes * doc) :=
  match findField fs g.1 with Some i => <[i := g]> fs | None => fs ++ [g] end.
Definition merge_doc (gs : list (bytes * doc)) (t : doc) : patched doc :=
  match t with MapNode fs => Fine (MapNode (foldl set_doc_field fs gs)) | _ => Fails ErrTypeMismatch end.

(** The operation with its value read as the document [v]. *)
Definition doc_edits (op : Op) (v : doc) (path : list Segment) : patched (edits bytes) :=
  let value := op_Value op in
  let needs_value {B} (k : patched B) := if decide (value = []) then Fails ErrInvalidOp else k in
  match op_Kind op with
  | OpSet => needs_value (Fine (put_edits (fun _ => Fine v) v))
  | OpDelete => Fine delete_edits
  | OpInc =>
      needs_value (
        delta ← readNumericLeaf value;
        if decide (class_of delta = ClassNone) then Fails ErrTypeMismatch else
        Fine (put_edits (inc_doc delta) v))
  | OpAppend => needs_value (Fine (append_edits v false))
  | OpPrepend => needs_value (Fine (append_edits v true))
  | OpRemoveAt =>
      match final_segment path with SegIndex _ => Fine remove_at_edits | _ => Fails ErrPathInvalid end
  | OpRemoveVal => needs_value (Fine (change_edits (remove_doc value)))
  | OpMerge =>
      needs_value (
        match v with
        | MapNode gs => Fine (put_edits (merge_doc gs) (MapNode (foldl set_doc_field [] gs)))
        | _ => Fails ErrTypeMismatch
        end)
  | OpOther _ => Fails ErrInvalidOp
  end.

Definition value_doc (op : Op) : doc :=
  match content (op_Value op) with Fine d => d | Fails _ => Leaf (op_Value op) end.

Definition update (op : Op) (d : doc) : patched doc :=
  path ← ParsePath (op_Path op);
  E ← doc_edits op (value_doc op) path;
  edit E path d.
End Documents.

(** ** Edits of skeletons and of documents *)

Section Simulation.
Context `{MC : MsgpackCodec} `{!MsgpackCodecOk} `{!MsgpackNumbersOk}.
Variable orig : bytes.
Abbreviation h := (meaning orig).

Definition fresh (t : Skeleton) : Prop := leaves (fun l => fresh_leaf orig l /\ coded orig l) t.

Record simulates (E : edits leaf) (E' : edits bytes) : Prop := {
  sim_target t : fresh t -> patched_map (option_map h) (on_target E t) = on_target E' (h t);
  sim_missing rest : patched_map (option_map h) (on_missing E rest) = on_missing E' rest;
  sim_append xs : Forall fresh xs -> patched_map (map h) (on_append E xs) = on_append E' (map h xs)
}.

Lemma findField_map {A B} (g : tree A -> tree B) fs k : findField (map (prod_map id g) fs) k = findField fs k.
Proof. induction fs as [|[k' v] fs IH]; cbn; [done|]. by rewrite IH. Qed.

Lemma meaning_map fs : h (MapNode fs) = MapNode (map (prod_map id h) fs).
Proof. done. Qed.
Lemma meaning_array xs : h (ArrayNode xs) = ArrayNode (map h xs).
Proof. done. Qed.

Lemma map_remove {A B} (g : A -> B) i l : map g (take i l ++ drop (S i) l) = take i (map g l) ++ drop (S i) (map g l).
Proof. by rewrite map_app, firstn_map, skipn_map. Qed.
Lemma map_insert {A B} (g : A -> B) (i : nat) x l : map g (<[i := x]> l) = <[i := g x]> (map g l).
Proof. apply (list_fmap_insert g). Qed.
Lemma lookup_map {A B} (g : A -> B) l (i : nat) : map g l !! i = g <$> l !! i.
Proof. apply list_lookup_fmap. Qed.

Lemma meaning_leaf l : fresh (Leaf l) -> h (Leaf l) = Leaf (leaf_bytes orig l).
Proof. intros [Hl _]. unfold meaning. cbn. by rewrite fresh_spliced. Qed.

Theorem edit_simulates E E' path s :
  simulates E E' -> fresh s -> patched_map h (edit E path s) = edit E' path (h s).
Proof.
  intros [Ht Hm Ha]. revert s. induction path as [|seg rest IH]; intros s Hs; [done|].
  destruct s as [l|fs|xs].
  - rewrite (meaning_leaf _ Hs). destruct seg; cbn [edit]; try done. by case_decide.
  - rewrite meaning_map. unfold fresh in Hs. rewrite leaves_map in Hs. destruct seg as [k|z|]; cbn [edit]; try done.
    + rewrite findField_map. destruct (findField fs k) as [i|].
      * rewrite lookup_map. destruct (fs !! i) as [[k' w]|] eqn:Hw; cbn [fmap option_fmap option_map prod_map fst snd id]; [|done].
        pose proof (Forall_lookup_1 _ _ _ _ Hs Hw) as Hfw. cbn in Hfw. case_decide as Hr.
        -- rewrite <-(Ht _ Hfw). destruct (on_target E w) as [[v|]|e]; cbn; try done; by rewrite ?map_insert, ?map_remove.
        -- rewrite <-(IH _ Hfw). destruct (edit E rest w) as [v|e]; cbn; [|done]. by rewrite map_insert.
      * rewrite <-Hm. destruct (on_missing E rest) as [[v|]|e]; cbn; try done. by rewrite map_app.
    + by case_decide.
  - rewrite meaning_array. unfold fresh in Hs. rewrite leaves_array in Hs. destruct seg as [k|z|]; cbn [edit]; try done.
    + rewrite length_map. destruct (resolveIndex z (length xs)) as [i|e]; cbn [mbind patched_bind]; [|done].
      rewrite lookup_map. destruct (xs !! i) as [w|] eqn:Hw; cbn [fmap option_fmap option_map]; [|done].
      pose proof (Forall_lookup_1 _ _ _ _ Hs Hw) as Hfw. case_decide as Hr.
      * rewrite <-(Ht _ Hfw). destruct (on_target E w) as [[v|]|e]; cbn; try done; by rewrite ?map_insert, ?map_remove.
      * rewrite <-(IH _ Hfw). destruct (edit E rest w) as [v|e]; cbn; [|done]. by rewrite map_insert.
    + case_decide; [|done]. rewrite <-(Ha _ Hs). by destruct (on_append E xs).
Qed.

(** *** Each operation *)

Lemma meaning_raw raw b e c : h (Leaf {| LeafStart := b; LeafEnd := e; LeafCode := c; RawBytes := Some raw |})
  = match content raw with Fine d => d | Fails _ => Leaf raw end.
Proof. done. Qed.

Lemma meaning_newLeaf d raw : encodes d raw -> h (newLeaf raw) = d.
Proof. intros Hd. unfold newLeaf. by rewrite meaning_raw, (proj2 (content_encodes _ _) Hd). Qed.
Lemma meaning_replace d raw t : encodes d raw -> h (replaceWithLeaf raw t) = d.
Proof. intros Hd. destruct t; cbn [replaceWithLeaf]; unfold newLeaf; by rewrite meaning_raw, (proj2 (content_encodes _ _) Hd). Qed.

Lemma put_simulates change change' v v' :
  (forall t, fresh t -> patched_map h (change t) = change' (h t)) -> h v = v' ->
  simulates (put_edits change v) (put_edits change' v').
Proof.
  intros Hc <-. split; cbn; [| |done].
  - intros t Ht. rewrite <-Hc by done. by destruct (change t).
  - intros rest. unfold meaning. rewrite <-nest_graft. by destruct (nest rest v).
Qed.

Lemma append_simulates v v' prepend : h v = v' -> simulates (append_edits v prepend) (append_edits v' prepend).
Proof.
  intros <-. split; cbn; [done| |].
  - intros rest. destruct (ends_with_append rest); [|done].
    change (ArrayNode [h v]) with (graft (spliced orig) (ArrayNode [v])). rewrite <-nest_graft.
    by destruct (nest _ _).
  - intros xs _. destruct prepend; cbn; [done|]. by rewrite map_app.
Qed.

Lemma change_simulates change change' :
  (forall t, fresh t -> patched_map h (change t) = change' (h t)) ->
  simulates (change_edits change) (change_edits change').
Proof.
  intros Hc. split; cbn; [|done|done]. intros t Ht. rewrite <-Hc by done. by destruct (change t).
Qed.

Lemma inc_commutes delta t : fresh t -> patched_map h (inc_leaf orig delta t) = inc_doc delta (h t).
Proof.
  destruct t as [l|fs|xs]; [|done..]. intros Hl. rewrite (meaning_leaf _ Hl). destruct Hl as [_ Hc]. unfold coded in Hc.
  cbn [inc_leaf inc_doc leafBytes]. destruct (readNumericLeaf (leaf_bytes orig l)) as [tn|e]; [|done].
  cbn [mbind patched_bind]. destruct (decide _); [done|]. rewrite Hc.
  destruct (computeIncBytes _ tn delta) as [raw|e] eqn:Hraw; [|done].
  cbn [mbind patched_bind patched_map fmap patched_fmap]. f_equal.
  apply meaning_replace, enc_leaf. by eapply computeIncBytes_scalar.
Qed.

Lemma remove_commutes value t : fresh t -> patched_map h (remove_value orig value t) = remove_doc value (h t).
Proof.
  destruct t as [l|fs|xs]; [intros Hl; by rewrite (meaning_leaf _ Hl)|done|]. rewrite meaning_array. unfold fresh.
  rewrite leaves_array. intros Hxs. cbn [remove_value remove_doc].
  enough (map h (match find_leaf orig value xs with Some i => take i xs ++ drop (S i) xs | None => xs end)
          = remove_first value (map h xs)) as E.
  { destruct (find_leaf orig value xs); cbn [patched_map remove_child]; f_equal; exact (f_equal ArrayNode E). }
  induction Hxs as [|x xs Hx Hxs IH]; [done|]. cbn [find_leaf map remove_first].
  destruct x as [l|fs|ys]; [rewrite (meaning_leaf _ Hx); cbn [is_leaf andb leafBytes]|..].
  - case_bool_decide as Hv; [by rewrite decide_True|]. rewrite decide_False by done.
    rewrite <-IH. destruct (find_leaf orig value xs); cbn [fmap option_fmap option_map take drop app map]; by rewrite (meaning_leaf _ Hx).
  - cbn [is_leaf andb]. rewrite meaning_map, <-IH. by destruct (find_leaf orig value xs).
  - cbn [is_leaf andb]. rewrite meaning_array, <-IH. by destruct (find_leaf orig value xs).
Qed.

Lemma merge_fields_commute ps gs fs :
  Forall2 raw_field ps gs -> map (prod_map id h) (foldl merge_field fs ps) = foldl set_doc_field (map (prod_map id h) fs) gs.
Proof.
  intros Hps. revert fs. induction Hps as [|[k raw] [k' d] ps gs [Hk Hd] _ IH]; intros fs; [done|].
  cbn [fst snd] in Hk, Hd. subst k'. cbn [foldl]. rewrite IH. f_equal. unfold merge_field, set_doc_field. cbn [fst snd].
  assert (prod_map id h (k, newLeaf raw) = (k, d)) as Ek.
  { change (prod_map id h (k, newLeaf raw)) with (k, h (newLeaf raw)). by rewrite (meaning_newLeaf d). }
  rewrite findField_map. destruct (findField fs k) as [i|] eqn:Hi.
  - by rewrite (put_field_alter _ _ _ _ Hi), map_insert, Ek.
  - rewrite map_app. cbn [map]. by rewrite Ek.
Qed.

Lemma merge_commutes ps gs t :
  Forall2 raw_field ps gs -> fresh t -> patched_map h (merge_into ps t) = merge_doc gs (h t).
Proof.
  intros Hps. destruct t as [l|fs|xs]; [intros Hl; by rewrite (meaning_leaf _ Hl)| |done]. intros _.
  cbn [merge_into is_map mergeFieldsInto patched_map]. unfold merge_into. cbn [is_map mergeFieldsInto patched_map].
  by rewrite !meaning_map, (merge_fields_commute _ _ _ Hps).
Qed.

(** Two fallible edits that agree. *)
Definition agree (E : patched (edits leaf)) (E' : patched (edits bytes)) : Prop :=
  match E, E' with
  | Fine E, Fine E' => simulates E E'
  | Fails e, Fails e' => e = e'
  | _, _ => False
  end.

Lemma op_simulates op path : value_ok op -> agree (op_edits orig op path) (doc_edits op (value_doc op) path).
Proof.
  intros Hok. unfold op_edits, doc_edits, value_doc. unfold value_ok in Hok.
  destruct (op_Kind op) eqn:Hk; try (destruct (decide (op_Value op = [])) as [|Hv]; [done|]);
    lazymatch type of Hok with ex _ => destruct Hok as [d Hd]; rewrite (proj2 (content_encodes _ _) Hd) | _ => idtac end.
  - apply put_simulates; [|by apply meaning_newLeaf]. intros t _. cbn. f_equal. by apply meaning_replace.
  - by split.
  - destruct (readNumericLeaf (op_Value op)) as [delta|e]; cbn [mbind patched_bind]; [|done].
    destruct (decide _); [done|]. apply put_simulates; [|by apply meaning_newLeaf]. apply inc_commutes.
  - by apply append_simulates, meaning_newLeaf.
  - by apply append_simulates, meaning_newLeaf.
  - destruct (final_segment path); done.
  - apply change_simulates, remove_commutes.
  - pose proof (extract_encodes _ _ Hd) as Hx. destruct d as [w|gs|xs]; [by rewrite Hx| |by rewrite Hx].
    destruct Hx as (ps & -> & Hps). cbn [mbind patched_bind]. apply put_simulates.
    + intros t. by apply merge_commutes.
    + cbn [mergeFieldsInto]. by rewrite meaning_map, (merge_fields_commute _ _ _ Hps).
  - done.
Qed.
End Simulation.

(** ** Blobs *)

Section Blobs.
Context `{MC : MsgpackCodec} `{!MsgpackCodecOk} `{!MsgpackNumbersOk}.

(** An upper bound on what the operations add. *)
Definition op_size (op : Op) : nat := 2 * length (op_Path op) + 2 + length (op_Value op).
Definition patch_size (blob : bytes) (ops : list Op) : nat := length blob + list_sum (map op_size ops).

Definition batch_ok (blob : bytes) (ops : list Op) : Prop :=
  Forall value_ok ops /\ Z.of_nat (patch_size blob ops) < 2 ^ 32.

Lemma applyOp_inv orig op path s s' :
  applyOp s orig op path = Fine s' -> exists E, op_edits orig op path = Fine E /\ edit E path s = Fine s'.
Proof. rewrite applyOp_edit. intros HE. by apply patched_bind_Fine in HE. Qed.

(** What holds of the skeleton through a batch. *)
Lemma apply_ops_inv orig ops s s' :
  Forall value_ok ops -> apply_ops orig ops s = Fine s' -> leaves (parsed orig) s ->
  leaves (parsed orig) s' /\ (weight s' <= weight s + list_sum (map op_size ops))%nat.
Proof.
  intros Hok. revert s. induction Hok as [|op ops Hop _ IH]; intros s; cbn [apply_ops].
  { intros [= <-]. cbn. split; [done|lia]. }
  intros Ha Hs. apply patched_bind_Fine in Ha as (path & Hp & Ha). apply patched_bind_Fine in Ha as (s1 & Ha & Hrest).
  destruct (applyOp_inv _ _ _ _ _ Ha) as (E & HE & Hed). apply edit_edited in Hed.
  pose proof (edited_leaves _ _ _ _ _ (op_keeps_leaves _ _ _ _ Hop HE) Hed Hs) as Hs1.
  pose proof (edited_weight _ _ _ _ _ (op_grows _ _ _ _ Hop HE) Hed) as Hw. apply ParsePath_weight in Hp.
  destruct (IH _ Hrest Hs1) as [Hs' Hw']. split; [done|]. cbn [map]. rewrite list_sum_cons. unfold op_size at 1. lia.
Qed.

Lemma Parse_parsed blob s : Parse blob = Fine s -> leaves (parsed blob) s.
Proof. intros Hs. eapply leaves_impl; [|by apply Parse_fresh]. apply fresh_parsed. Qed.

(** The blob a batch gives stands for what the skeleton means at its end. *)
Lemma batch_content blob ops s s' :
  batch_ok blob ops -> Parse blob = Fine s -> apply_ops blob ops s = Fine s' ->
  content (Serialize s' blob) = Fine (meaning blob s').
Proof.
  intros [Hok Hsize] Hs Ha. destruct (apply_ops_inv _ _ _ _ Hok Ha (Parse_parsed _ _ Hs)) as [Hl Hw].
  apply content_encodes, writeNode_encodes; [done|]. pose proof (Parse_weight _ _ Hs). unfold patch_size in Hsize. lia.
Qed.

Lemma Parse_is_fresh blob s : Parse blob = Fine s -> fresh blob s.
Proof.
  intros Hs. pose proof (Parse_fresh _ _ Hs) as Hf. apply Parse_sound in Hs as [_ Hc].
  induction s as [l|fs IH|xs IH] using tree_nested; [done|..]; unfold fresh.
  - rewrite leaves_map in *. rewrite Forall_forall in *. intros f Hin. apply IH; auto.
  - rewrite leaves_array in *. rewrite Forall_forall in *. intros f Hin. apply IH; auto.
Qed.

(** One operation refines its abstraction, errors included. *)
Theorem Apply_refines blob op :
  batch_ok blob [op] -> (Apply blob [op] ≫= content) = (content blob ≫= update op).
Proof.
  intros Hb. unfold Apply, update. destruct (Parse blob) as [s|e] eqn:Hs; [|unfold content; by rewrite Hs].
  rewrite (fresh_meaning _ _ Hs). cbn [mbind patched_bind apply_ops].
  destruct (ParsePath (op_Path op)) as [path|e] eqn:Hp; cbn [mbind patched_bind]; [|done].
  pose proof (batch_content blob [op] s) as Hc. cbn [apply_ops] in Hc. rewrite Hp in Hc. cbn [mbind patched_bind] in Hc.
  rewrite applyOp_edit in *. pose proof (op_simulates blob op path) as Hsim.
  specialize (Hsim (proj1 (Forall_singleton _ _) (proj1 Hb))). unfold agree in Hsim.
  destruct (op_edits blob op path) as [E|e], (doc_edits op (value_doc op) path) as [E'|e'];
    cbn [mbind patched_bind] in *; try done; [|congruence].
  rewrite <-(edit_simulates blob E E' path s Hsim (Parse_is_fresh _ _ Hs)).
  destruct (edit E path s) as [s'|e]; cbn [mbind patched_bind patched_map] in *; [|done]. by apply Hc.
Qed.

(** ** What a path reads *)

Definition read (blob : bytes) (path : list Segment) : patched (option doc) := d ← content blob; lookup_path path d.

Lemma lookup_meaning orig path s o :
  lookup_path path s = Fine o -> lookup_path path (meaning orig s) = Fine (meaning orig <$> o).
Proof.
  revert s. induction path as [|seg rest IH]; intros s; [done|]. cbn [lookup_path].
  destruct seg as [k|z|], s as [l|fs|xs]; try done; rewrite ?meaning_map, ?meaning_array; try (by case_decide).
  - unfold get_field. rewrite findField_map. destruct (findField fs k) as [i|]; cbn; [|by intros [= <-]].
    rewrite lookup_map. destruct (fs !! i) as [[k' v]|]; cbn; [|by intros [= <-]].
    case_decide; [by intros [= <-]|apply IH].
  - rewrite length_map. destruct (resolveIndex z (length xs)) as [i|]; cbn [mbind patched_bind]; [|done].
    rewrite lookup_map. destruct (xs !! i) as [v|]; cbn [fmap option_fmap option_map]; [|done].
    case_decide; [by intros [= <-]|apply IH].
  - case_decide; [|done]. by intros [= <-].
Qed.

(** On a parsed skeleton a path finds what it finds on the document, errors included. *)
Lemma lookup_fresh orig path s : fresh orig s ->
  lookup_path path (meaning orig s) = patched_map (fmap (meaning orig)) (lookup_path path s).
Proof.
  revert s. induction path as [|seg rest IH]; intros s Hs; [done|]. cbn [lookup_path].
  destruct s as [l|fs|xs]; [rewrite (meaning_leaf _ _ Hs); by destruct seg; try case_decide|..];
    rewrite ?meaning_map, ?meaning_array; unfold fresh in Hs; rewrite ?leaves_map, ?leaves_array in Hs;
    destruct seg as [k|z|]; try done; try (by case_decide).
  - unfold get_field. rewrite findField_map. destruct (findField fs k) as [i|]; cbn; [|done].
    rewrite lookup_map. destruct (fs !! i) as [[k' v]|] eqn:Hi; cbn; [|done].
    case_decide; [done|]. apply IH. exact (Forall_lookup_1 _ _ _ _ Hs Hi).
  - rewrite length_map. destruct (resolveIndex z (length xs)) as [i|]; cbn [mbind patched_bind]; [|done].
    rewrite lookup_map. destruct (xs !! i) as [v|] eqn:Hi; cbn [fmap option_fmap option_map]; [|done].
    case_decide; [done|]. apply IH. exact (Forall_lookup_1 _ _ _ _ Hs Hi).
Qed.

Definition away_from (q : list Segment) (op : Op) : Prop :=
  forall path, ParsePath (op_Path op) = Fine path -> diverges path q = true.

Lemma apply_ops_frame orig ops s s' q :
  Forall (away_from q) ops -> apply_ops orig ops s = Fine s' -> lookup_path q s' = lookup_path q s.
Proof.
  intros Hq. revert s. induction Hq as [|op ops Hop _ IH]; intros s; cbn [apply_ops]; [by intros [= <-]|].
  intros Ha. apply patched_bind_Fine in Ha as (path & Hp & Ha). apply patched_bind_Fine in Ha as (s1 & Ha & Hrest).
  destruct (applyOp_inv _ _ _ _ _ Ha) as (E & HE & Hed). apply edit_edited in Hed.
  rewrite (IH _ Hrest). eapply edited_frame; [by eapply op_creates_only_path|done|]. by apply Hop.
Qed.

(** A path that parts from those of all operations reads the same bytes after the batch. *)
Theorem Apply_frame blob ops blob' q o :
  batch_ok blob ops -> Apply blob ops = Fine blob' -> Forall (away_from q) ops ->
  read blob q = Fine o -> read blob' q = Fine o.
Proof.
  intros Hb Ha Hq. unfold Apply in Ha. apply patched_bind_Fine in Ha as (s & Hs & Ha).
  apply patched_bind_Fine in Ha as (s' & Hs' & [= <-]). unfold read.
  rewrite (batch_content _ _ _ _ Hb Hs Hs'), (fresh_meaning _ _ Hs). cbn [mbind patched_bind].
  rewrite (lookup_fresh _ _ _ (Parse_is_fresh _ _ Hs)). rewrite <-(apply_ops_frame _ _ _ _ _ Hq Hs').
  destruct (lookup_path q s') as [t|e] eqn:Hl; [|done]. intros [= <-]. by apply lookup_meaning.
Qed.
End Blobs.

(** ** What a path reads once it is written *)

Section Written.
Context {A : Type}.
Implicit Types (s v w : tree A).

Lemma nest_lookup rest v w : nest rest v = Fine w -> rest <> [] -> lookup_path rest w = Fine (Some v).
Proof.
  revert w. induction rest as [|[k| |] rest IH]; intros w; try done. cbn [nest]. intros Hn _.
  apply patched_bind_Fine in Hn as (w' & Hn & [= <-]). cbn [lookup_path]. rewrite get_field_cons, decide_True by done.
  destruct (decide (rest = [])) as [->|Hr]; [by injection Hn as ->|]. rewrite ?decide_False by done. by apply IH.
Qed.

Lemma put_lookup change v path s s' :
  edited (put_edits change v) path s s' ->
  exists t, lookup_path path s' = Fine (Some t) /\
    match lookup_path path s with Fine (Some t0) => change t0 = Fine t | Fine None => t = v | Fails _ => False end.
Proof.
  induction 1 as [k rest fs w Hf Hw|k rest fs _ Hw|k fs i w o Hf Hi Hw|k rest fs i w u Hr Hf Hi _ IH
    |z xs i w o Hz Hi Hw|z rest xs i w u Hr Hz Hi _ IH|xs ys Hy]; cbn [lookup_path].
  - apply patched_bind_Fine in Hw as (w' & Hn & [= <-]). exists v. rewrite (get_field_none _ _ Hf). split; [|done].
    rewrite get_field_app, (get_field_none _ _ Hf), get_field_cons, decide_True by done.
    destruct (decide (rest = [])) as [->|Hr]; [by injection Hn as ->|]. by eapply nest_lookup.
  - cbn in Hw. by destruct (nest rest v).
  - cbn in Hw. destruct (change w) as [t|] eqn:Hc; [|done]. injection Hw as <-. exists t. cbn [put_field].
    rewrite (get_field_insert_eq _ _ _ _ _ Hf Hi), (get_field_find _ _ _ _ Hf Hi), !decide_True by done. done.
  - destruct IH as (t & Ht & Hl). exists t.
    rewrite (get_field_insert_eq _ _ _ _ _ Hf Hi), (get_field_find _ _ _ _ Hf Hi), !decide_False by done. done.
  - cbn in Hw. destruct (change w) as [t|] eqn:Hc; [|done]. injection Hw as <-. exists t. cbn [put_item].
    rewrite length_insert, Hz. cbn [mbind patched_bind]. rewrite list_lookup_insert_eq by (by eapply lookup_lt_Some).
    by rewrite Hi, !decide_True.
  - destruct IH as (t & Ht & Hl). exists t.
    rewrite length_insert, Hz. cbn [mbind patched_bind]. rewrite list_lookup_insert_eq by (by eapply lookup_lt_Some).
    by rewrite Hi, !decide_False.
  - done.
Qed.
End Written.

Section Put.
Context `{MC : MsgpackCodec} `{!MsgpackCodecOk} `{!MsgpackNumbersOk}.

Lemma Apply_readable blob ops blob' :
  batch_ok blob ops -> Apply blob ops = Fine blob' -> exists d, content blob' = Fine d.
Proof.
  intros Hb Ha. unfold Apply in Ha. apply patched_bind_Fine in Ha as (s & Hs & Ha).
  apply patched_bind_Fine in Ha as (s' & Hs' & [= <-]). rewrite (batch_content _ _ _ _ Hb Hs Hs'). eauto.
Qed.

(** After an operation that puts a value, its path reads that value, or what became of the old. *)
Lemma Apply_put blob op change v path blob' :
  batch_ok blob [op] -> ParsePath (op_Path op) = Fine path ->
  doc_edits op (value_doc op) path = Fine (put_edits change v) -> Apply blob [op] = Fine blob' ->
  exists t, read blob' path = Fine (Some t) /\
    match read blob path with Fine (Some t0) => change t0 = Fine t | Fine None => t = v | Fails _ => False end.
Proof.
  intros Hb Hp He Ha. destruct (Apply_readable _ _ _ Hb Ha) as [d' Hd']. pose proof (Apply_refines _ _ Hb) as Hr.
  rewrite Ha in Hr. unfold read. cbn [mbind patched_bind] in Hr. rewrite Hd' in *. destruct (content blob) as [d|]; [|done].
  unfold update in Hr. rewrite Hp in Hr. cbn [mbind patched_bind] in Hr. rewrite He in Hr. cbn [mbind patched_bind] in *.
  by apply eq_sym, edit_edited, put_lookup in Hr.
Qed.
End Put.
