(* ===== verification/MsgpackSample.v ===== *)
(** An executable msgpack codec with the laws of [Skeleton.v], for the examples: the layouts of
    the msgpack specification. *)
From Stdlib Require Import Floats.SpecFloat.
From S2P Require Import Prelude PatchPath Skeleton PatchOps.
#[local] Set Warnings "-register-all,-clear-no-such-hyp".

(** ** Readers *)

Definition reader (A : Type) : Type := bytes -> option (A * bytes).
Definition rret {A} (a : A) : reader A := fun r => Some (a, r).
Definition rfail {A} : reader A := fun _ => None.
Definition rseq {A B} (p : reader A) (k : A -> reader B) : reader B :=
  fun r => match p r with Some (a, r) => k a r | None => None end.
Definition next : reader byte := fun r => match r with [] => None | c :: r => Some (c, r) end.
Definition take_n (n : nat) : reader bytes := fun r =>
  if decide (n <= length r)%nat then Some (take n r, drop n r) else None.

Definition be_put (n : nat) (z : Z) : bytes := rev (le_put n z).
Definition be (n : nat) : reader Z := rseq (take_n n) (fun b => rret (le_get (rev b))).

(** What is read depends on the bytes that are read. *)
Definition local_reader {A} (p : reader A) : Prop :=
  forall r x r', p r = Some (x, r') -> exists u, r = u ++ r' /\ forall r'', p (u ++ r'') = Some (x, r'').

Lemma local_ret {A} (a : A) : local_reader (rret a).
Proof. intros r x r' [= <- <-]. by exists []. Qed.
Lemma local_fail {A} : local_reader (@rfail A).
Proof. by intros r x r'. Qed.
Lemma local_next : local_reader next.
Proof. intros [|c r] x r'; [done|]. intros [= <- <-]. by exists [c]. Qed.
Lemma local_take_n n : local_reader (take_n n).
Proof.
  intros r x r'. unfold take_n. case_decide as Hn; [|done]. intros [= <- <-]. exists (take n r).
  split; [by rewrite take_drop|]. intros r''. rewrite decide_True by (rewrite length_app, length_take; lia).
  by rewrite take_app_le, take_take, Nat.min_id, drop_app_ge, length_take, Nat.min_l, Nat.sub_diag by (rewrite ?length_take; lia).
Qed.
Lemma local_seq {A B} (p : reader A) (k : A -> reader B) :
  local_reader p -> (forall a, local_reader (k a)) -> local_reader (rseq p k).
Proof.
  intros Hp Hk r x r'. unfold rseq. destruct (p r) as [[a r1]|] eqn:E; [|done]. intros E'.
  destruct (Hp _ _ _ E) as (u & -> & Hu). destruct (Hk _ _ _ _ E') as (v & -> & Hv).
  exists (u ++ v). split; [by rewrite app_assoc|]. intros r''. rewrite <-app_assoc, Hu. apply Hv.
Qed.
Lemma local_be n : local_reader (be n).
Proof. apply local_seq; [apply local_take_n|]. intros b. apply local_ret. Qed.

Create HintDb readers discriminated.
#[export] Hint Resolve local_ret local_fail local_next local_take_n local_seq local_be : readers.

(** A reader that starts with [next] reads at least one byte. *)
Lemma own_next {A} (k : byte -> reader A) : (forall c, local_reader (k c)) -> reads_own (rseq next k).
Proof.
  intros Hk [|c r] x r'; [done|]. cbn. intros E. destruct (Hk _ _ _ _ E) as (u & -> & Hu).
  exists (c :: u). split; [done|]. split; [done|]. intros r''. apply Hu.
Qed.

Lemma take_n_app (u r : bytes) n : length u = n -> take_n n (u ++ r) = Some (u, r).
Proof.
  intros <-. unfold take_n. rewrite decide_True by (rewrite length_app; lia). by rewrite take_app_length, drop_app_length.
Qed.

Lemma be_read n z r : 0 <= z < 256 ^ Z.of_nat n -> be n (be_put n z ++ r) = Some (z, r).
Proof.
  intros Hz. unfold be, rseq, be_put. rewrite take_n_app by (by rewrite length_rev, length_le_put).
  unfold rret. by rewrite rev_involutive, le_get_put_small.
Qed.

Lemma be_range n r z r' : be n r = Some (z, r') -> 0 <= z < 256 ^ Z.of_nat n.
Proof.
  unfold be, rseq, take_n. case_decide; [|done]. intros [= <- _].
  pose proof (le_get_bound (rev (take n r))) as Hb. by rewrite length_rev, length_take, Nat.min_l in Hb.
Qed.

(** ** Layouts *)

Inductive layout : Type :=
| Flat (n : nat)                      (** that many bytes *)
| Sized (header extra : nat)          (** a length, then as many bytes and [extra] *)
| Text (n : Z)
| Arr (n : Z) | ArrLen (header : nat)
| Dict (n : Z) | DictLen (header : nat)
| Reserved.

Definition layout_of (c : byte) : layout :=
  let z := Z_of_byte c in
  if z <=? 0x7f then Flat 0 else if z <=? 0x8f then Dict (z - 0x80) else if z <=? 0x9f then Arr (z - 0x90)
  else if z <=? 0xbf then Text (z - 0xa0) else
  match z with
  | 0xc0 | 0xc2 | 0xc3 => Flat 0
  | 0xc4 | 0xd9 => Sized 1 0 | 0xc5 | 0xda => Sized 2 0 | 0xc6 | 0xdb => Sized 4 0
  | 0xc7 => Sized 1 1 | 0xc8 => Sized 2 1 | 0xc9 => Sized 4 1
  | 0xca | 0xce | 0xd2 => Flat 4 | 0xcb | 0xcf | 0xd3 => Flat 8
  | 0xcc | 0xd0 => Flat 1 | 0xcd | 0xd1 => Flat 2
  | 0xd4 => Flat 2 | 0xd5 => Flat 3 | 0xd6 => Flat 5 | 0xd7 => Flat 9 | 0xd8 => Flat 17
  | 0xdc => ArrLen 2 | 0xdd => ArrLen 4 | 0xde => DictLen 2 | 0xdf => DictLen 4
  | 0xc1 => Reserved
  | _ => Flat 0
  end.

(** One header with the bytes that belong to it: how many values follow. *)
Definition header : reader nat :=
  rseq next (fun c =>
    match layout_of c with
    | Flat n => rseq (take_n n) (fun _ => rret O)
    | Sized h extra => rseq (be h) (fun n => rseq (take_n (Z.to_nat n + extra)) (fun _ => rret O))
    | Text n => rseq (take_n (Z.to_nat n)) (fun _ => rret O)
    | Arr n => rret (Z.to_nat n)
    | ArrLen h => rseq (be h) (fun n => rret (Z.to_nat n))
    | Dict n => rret (2 * Z.to_nat n)%nat
    | DictLen h => rseq (be h) (fun n => rret (2 * Z.to_nat n)%nat)
    | Reserved => rfail
    end).

Lemma own_header : reads_own header.
Proof. apply own_next. intros c. destruct (layout_of c); eauto 10 with readers. Qed.

(** Passing over [pending] values. *)
Fixpoint skip_values (fuel pending : nat) (r : bytes) : option (unit * bytes) :=
  match pending with
  | O => Some (tt, r)
  | S pending =>
      match fuel with
      | O => None
      | S fuel => match header r with Some (n, r) => skip_values fuel (n + pending) r | None => None end
      end
  end.

Lemma header_shrinks r n r' : header r = Some (n, r') -> (length r' < length r)%nat.
Proof.
  intros E. destruct (own_header _ _ _ E) as (u & Hu & -> & _). rewrite length_app. destruct u; [done|]. cbn. lia.
Qed.

Lemma skip_values_local fuel pending r x r' :
  (length r <= fuel)%nat -> skip_values fuel pending r = Some (x, r') ->
  exists u, r = u ++ r' /\ forall r'' fuel', (length (u ++ r'') <= fuel')%nat ->
    skip_values fuel' pending (u ++ r'') = Some (x, r'').
Proof.
  revert pending r. induction fuel as [|fuel IH]; intros [|pending] r; cbn [skip_values]; try done.
  - intros _ [= <- <-]. exists []. split; [done|]. by intros r'' [|].
  - intros _ [= <- <-]. exists []. split; [done|]. by intros r'' [|].
  - intros Hl. destruct (header r) as [[n r1]|] eqn:Hh; [|done]. intros E. pose proof (header_shrinks _ _ _ Hh).
    destruct (own_header _ _ _ Hh) as (u & Hu & -> & Hown). destruct (IH (n + pending)%nat r1 ltac:(lia) E) as (v & -> & Hv).
    exists (u ++ v). split; [by rewrite app_assoc|]. intros r'' fuel' Hf. rewrite <-app_assoc in *.
    destruct fuel' as [|fuel']; [destruct u; [done|]; cbn in Hf; lia|]. cbn [skip_values]. rewrite Hown.
    apply Hv. rewrite length_app in Hf. destruct u; [done|]. cbn in Hf. lia.
Qed.

Lemma skip_values_fuel f1 f2 pending r :
  (length r <= f1)%nat -> (length r <= f2)%nat -> skip_values f1 pending r = skip_values f2 pending r.
Proof.
  assert (forall f1 f2 x r', (length r <= f1)%nat -> (length r <= f2)%nat ->
            skip_values f1 pending r = Some (x, r') -> skip_values f2 pending r = Some (x, r')) as Hone.
  { intros g1 g2 x r' H1 H2 E. destruct (skip_values_local g1 pending r x r' H1 E) as (u & -> & Hu). by apply Hu. }
  intros H1 H2. destruct (skip_values f1 pending r) as [[x r']|] eqn:E1; [symmetry; by apply (Hone f1)|].
  destruct (skip_values f2 pending r) as [[x r']|] eqn:E2; [|done]. by rewrite (Hone f2 f1 x r') in E1.
Qed.

Lemma skip_values_add fuel a b r :
  (length r <= fuel)%nat ->
  skip_values fuel (a + b) r = (p ← skip_values fuel a r; skip_values fuel b p.2).
Proof.
  revert a r. induction fuel as [|fuel IH]; intros [|a] r Hl; cbn [skip_values Nat.add mbind option_bind]; try done.
  destruct (header r) as [[n r1]|] eqn:Hh; [|done]. pose proof (header_shrinks _ _ _ Hh).
  rewrite Nat.add_assoc, IH by lia. destruct (skip_values fuel (n + a) r1) as [[[] r2]|] eqn:E; cbn; [|done].
  destruct (skip_values_local fuel (n + a)%nat r1 tt r2 ltac:(lia) E) as (u & -> & _).
  rewrite length_app in *. apply (skip_values_fuel fuel (S fuel)); lia.
Qed.

(** ** The codec *)

Definition sample_Skip (r : bytes) : option (unit * bytes) := skip_values (length r) 1 r.

Definition sample_MapLen : reader Z :=
  rseq next (fun c => match layout_of c with Dict n => rret n | DictLen h => be h | _ => rfail end).
Definition sample_ArrayLen : reader Z :=
  rseq next (fun c => match layout_of c with Arr n => rret n | ArrLen h => be h | _ => rfail end).
Definition sample_String : reader bytes :=
  rseq next (fun c =>
    if negb (isStringCode c) then rfail else
    match layout_of c with
    | Text n => take_n (Z.to_nat n)
    | Sized h extra => rseq (be h) (fun n => take_n (Z.to_nat n + extra))
    | _ => rfail
    end).

Definition short_len (fix_code : Z) (limit : Z) (codes : list (nat * byte)) (n : Z) : bytes :=
  if n <? limit then [byte_of_Z (fix_code + n)]
  else match List.find (fun p => n <? 256 ^ Z.of_nat p.1) codes with
       | Some (w, c) => c :: be_put w n
       | None => match List.last codes (4%nat, xc1) with (w, c) => c :: be_put w n end
       end.

Definition sample_EncodeMapLen : Z -> bytes := short_len 0x80 16 [(2%nat, codeMap16); (4%nat, codeMap32)].
Definition sample_EncodeArrayLen : Z -> bytes := short_len 0x90 16 [(2%nat, codeArray16); (4%nat, codeArray32)].
Definition sample_EncodeString (s : bytes) : bytes :=
  short_len 0xa0 32 [(1%nat, codeStr8); (2%nat, codeStr16); (4%nat, codeStr32)] (Z.of_nat (length s)) ++ s.

Definition sample_integer (wrap : Z -> Z) : reader Z :=
  rseq next (fun c =>
    if isPositiveFix c then rret (wrap (Z_of_byte c)) else if isNegativeFix c then rret (wrap (Z_of_byte c - 256)) else
    let signed_be n := rseq (be n) (fun z => rret (wrap (signed (8 * Z.of_nat n) z))) in
    let unsigned_be n := rseq (be n) (fun z => rret (wrap z)) in
    if is_code c codeUint8 then unsigned_be 1%nat else if is_code c codeUint16 then unsigned_be 2%nat
    else if is_code c codeUint32 then unsigned_be 4%nat else if is_code c codeUint64 then unsigned_be 8%nat
    else if is_code c codeInt8 then signed_be 1%nat else if is_code c codeInt16 then signed_be 2%nat
    else if is_code c codeInt32 then signed_be 4%nat else if is_code c codeInt64 then signed_be 8%nat
    else rfail).

(** IEEE formats with [m] bits of mantissa and [e] of exponent. *)
Definition float_bits (m e : Z) (f : spec_float) : Z :=
  let top := 2 ^ e - 1 in
  let bias := 2 ^ (e - 1) - 1 + m in
  let sign (s : bool) := if s then 2 ^ (m + e) else 0 in
  match f with
  | S754_zero s => sign s
  | S754_infinity s => sign s + top * 2 ^ m
  | S754_nan => top * 2 ^ m + 2 ^ (m - 1)
  | S754_finite s mant ex =>
      sign s + (if Zpos mant <? 2 ^ m then Zpos mant else (ex + bias) * 2 ^ m + (Zpos mant - 2 ^ m))
  end.
Definition bits_float (m e z : Z) : spec_float :=
  let top := 2 ^ e - 1 in
  let bias := 2 ^ (e - 1) - 1 + m in
  let s := bool_decide (2 ^ (m + e) <= z) in
  let ex := (z / 2 ^ m) mod 2 ^ e in
  let mant := z mod 2 ^ m in
  if ex =? top then (if mant =? 0 then S754_infinity s else S754_nan)
  else if ex =? 0 then match mant with Zpos p => S754_finite s p (1 - bias) | _ => S754_zero s end
  else match mant + 2 ^ m with Zpos p => S754_finite s p (ex - bias) | _ => S754_nan end.

Definition sample_float : reader spec_float :=
  rseq next (fun c =>
    if is_code c codeFloat32 then rseq (be 4) (fun z => rret (match bits_float 23 8 z with
        S754_finite s m e => binary_normalize 53 1024 (cond_Zopp s (Zpos m)) e s | f => f end))
    else if is_code c codeFloat64 then rseq (be 8) (fun z => rret (bits_float 52 11 z)) else rfail).

Definition sample_any (r : bytes) : option decoded :=
  match r with
  | [] => None
  | c :: t =>
      if isStringCode c then p ← sample_String r; Some (VString p.1)
      else if is_code c xc2 then Some (VBool false) else if is_code c xc3 then Some (VBool true)
      else match layout_of c with
           | Sized h O => if is_code c xc4 || is_code c xc5 || is_code c xc6
                          then p ← rseq (be h) (fun n => take_n (Z.to_nat n)) t; Some (VBytes p.1) else Some VOther
           | Reserved => None
           | _ => p ← sample_Skip r; Some VOther
           end
  end.

#[export] Instance sample_codec : MsgpackCodec := {
  PeekCode := head;
  Skip := sample_Skip;
  DecodeMapLen := sample_MapLen;
  DecodeArrayLen := sample_ArrayLen;
  DecodeString := sample_String;
  DecodeInt64 := sample_integer i64;
  DecodeUint64 := sample_integer u64;
  DecodeFloat64 := sample_float;
  UnmarshalAny := sample_any;
  EncodeMapLen := sample_EncodeMapLen;
  EncodeArrayLen := sample_EncodeArrayLen;
  EncodeString := sample_EncodeString;
  EncodeInt8 n := codeInt8 :: be_put 1 (u8 n);
  EncodeInt16 n := codeInt16 :: be_put 2 (u16 n);
  EncodeInt32 n := codeInt32 :: be_put 4 (u32 n);
  EncodeInt64 n := codeInt64 :: be_put 8 (u64 n);
  EncodeUint8 n := codeUint8 :: be_put 1 n;
  EncodeUint16 n := codeUint16 :: be_put 2 n;
  EncodeUint32 n := codeUint32 :: be_put 4 n;
  EncodeUint64 n := codeUint64 :: be_put 8 n;
  EncodeFloat32 f := codeFloat32 :: be_put 4 (float_bits 23 8 f);
  EncodeFloat64 f := codeFloat64 :: be_put 8 (float_bits 52 11 f)
}.

(** ** The laws *)

Lemma byte_cases (P : byte -> Prop) : (forall z, 0 <= z < 256 -> P (byte_of_Z z)) -> forall c, P c.
Proof. intros HP c. rewrite <-(byte_of_Z_of_byte c). apply HP, Z_of_byte_bound. Qed.

Lemma short_len_read (p : reader Z) (limit : Z) fix_code codes n r :
  0 <= n < 2 ^ 32 ->
  (n < limit -> p (byte_of_Z (fix_code + n) :: r) = Some (n, r)) ->
  (limit <= n -> Forall (fun q : nat * byte => forall b, n < 256 ^ Z.of_nat q.1 -> b = q.2 :: be_put q.1 n -> p (b ++ r) = Some (n, r)) codes) ->
  (exists q, q ∈ codes /\ 2 ^ 32 <= 256 ^ Z.of_nat q.1) ->
  p (short_len fix_code limit codes n ++ r) = Some (n, r).
Proof.
  intros Hn Hfix Hcodes (q & Hq & Hlast). unfold short_len. destruct (n <? limit) eqn:Hl; [apply Hfix; lia|].
  specialize (Hcodes ltac:(lia)). rewrite Forall_forall in Hcodes.
  destruct (List.find _ codes) as [[w c]|] eqn:Hf.
  - apply List.find_some in Hf as [Hin Hw]. apply list_elem_of_In in Hin. apply (Hcodes (w, c) Hin); [cbn in *; lia|done].
  - apply list_elem_of_In in Hq. pose proof (List.find_none _ _ Hf _ Hq). cbn in *. lia.
Qed.

Lemma layout_dict n : 0 <= n < 16 -> layout_of (byte_of_Z (0x80 + n)) = Dict n.
Proof.
  intros Hn. unfold layout_of. rewrite Z_of_byte_of_Z, Z.mod_small by lia.
  destruct (0x80 + n <=? 0x7f) eqn:?; [lia|]. destruct (0x80 + n <=? 0x8f) eqn:?; [|lia]. f_equal. lia.
Qed.
Lemma layout_arr n : 0 <= n < 16 -> layout_of (byte_of_Z (0x90 + n)) = Arr n.
Proof.
  intros Hn. unfold layout_of. rewrite Z_of_byte_of_Z, Z.mod_small by lia.
  destruct (0x90 + n <=? 0x7f) eqn:?; [lia|]. destruct (0x90 + n <=? 0x8f) eqn:?; [lia|].
  destruct (0x90 + n <=? 0x9f) eqn:?; [|lia]. f_equal. lia.
Qed.
Lemma layout_text n : 0 <= n < 32 -> layout_of (byte_of_Z (0xa0 + n)) = Text n.
Proof.
  intros Hn. unfold layout_of. rewrite Z_of_byte_of_Z, Z.mod_small by lia.
  destruct (0xa0 + n <=? 0x7f) eqn:?; [lia|]. destruct (0xa0 + n <=? 0x8f) eqn:?; [lia|].
  destruct (0xa0 + n <=? 0x9f) eqn:?; [lia|]. destruct (0xa0 + n <=? 0xbf) eqn:?; [|lia]. f_equal. lia.
Qed.

Lemma isMapCode_fix n : 0 <= n < 16 -> isMapCode (byte_of_Z (0x80 + n)) = true.
Proof. intros Hn. unfold isMapCode, isFixMap. rewrite Z_of_byte_of_Z, Z.mod_small by lia. rewrite !orb_true_iff. left. lia. Qed.
Lemma isArrayCode_fix n : 0 <= n < 16 -> isArrayCode (byte_of_Z (0x90 + n)) = true.
Proof. intros Hn. unfold isArrayCode, isFixArray. rewrite Z_of_byte_of_Z, Z.mod_small by lia. rewrite !orb_true_iff. left. lia. Qed.
Lemma isStringCode_fix n : 0 <= n < 32 -> isStringCode (byte_of_Z (0xa0 + n)) = true.
Proof. intros Hn. unfold isStringCode, isFixStr. rewrite Z_of_byte_of_Z, Z.mod_small by lia. rewrite !orb_true_iff. left. lia. Qed.

(** What the layouts of the codes of a kind are. *)
Lemma string_layout c : isStringCode c = true ->
  match layout_of c with Text _ | Sized _ O => True | _ => False end.
Proof. by destruct c. Qed.
Lemma map_layout c : isMapCode c = true ->
  match layout_of c with Dict n => 0 <= n < 16 | DictLen h => (h <= 4)%nat | _ => False end.
Proof. destruct c; intros; try done; vm_compute; lia. Qed.
Lemma array_layout c : isArrayCode c = true ->
  match layout_of c with Arr n => 0 <= n < 16 | ArrLen h => (h <= 4)%nat | _ => False end.
Proof. destruct c; intros; try done; vm_compute; lia. Qed.

Lemma skips_values n r : skips n r = skip_values (length r) n r.
Proof.
  revert r. induction n as [|n IH]; intros r; cbn [skips]; [by destruct r|].
  change (S n) with (1 + n)%nat. rewrite skip_values_add by lia. unfold Skip. cbn [sample_codec].
  change (sample_Skip r) with (skip_values (length r) 1 r).
  destruct (skip_values (length r) 1 r) as [[[] r1]|] eqn:E; cbn; [|done]. rewrite IH.
  destruct (skip_values_local _ _ _ _ _ (le_n _) E) as (u & -> & _). apply skip_values_fuel; rewrite ?length_app; lia.
Qed.

Lemma Skip_header r n r' : header r = Some (n, r') -> sample_Skip r = skips n r'.
Proof.
  intros Hh. rewrite skips_values. unfold sample_Skip. pose proof (header_shrinks _ _ _ Hh).
  destruct (length r) as [|m] eqn:Hm; [lia|]. cbn [skip_values]. rewrite Hh, Nat.add_0_r. apply skip_values_fuel; lia.
Qed.

Lemma starts_cons p r : starts p r -> exists c t, r = c :: t /\ p c = true.
Proof. done. Qed.

Lemma sample_map_header r n r' :
  starts isMapCode r -> sample_MapLen r = Some (n, r') -> header r = Some ((2 * Z.to_nat n)%nat, r').
Proof.
  intros (c & t & -> & Hc). apply map_layout in Hc. unfold sample_MapLen, header, rseq, next.
  destruct (layout_of c); try done; [by intros [= <- <-]|]. by destruct (be header0 t) as [[m t']|]; [intros [= <- <-]|].
Qed.
Lemma sample_array_header r n r' :
  starts isArrayCode r -> sample_ArrayLen r = Some (n, r') -> header r = Some (Z.to_nat n, r').
Proof.
  intros (c & t & -> & Hc). apply array_layout in Hc. unfold sample_ArrayLen, header, rseq, next.
  destruct (layout_of c); try done; [by intros [= <- <-]|]. by destruct (be header0 t) as [[m t']|]; [intros [= <- <-]|].
Qed.

Lemma sample_string_skip r : starts isStringCode r ->
  sample_Skip r = prod_map (fun _ => tt) id <$> sample_String r.
Proof.
  intros (c & t & -> & Hc). pose proof (string_layout _ Hc) as Hl.
  assert (header (c :: t) = prod_map (fun _ => O) id <$> sample_String (c :: t)) as Hh.
  { unfold header, sample_String, rseq, next. rewrite Hc. cbn [negb].
    destruct (layout_of c) as [|h [|extra]|n| | | | |]; try done.
    - destruct (be h t) as [[n t']|]; [|done]. by destruct (take_n _ t') as [[s t'']|].
    - by destruct (take_n _ t) as [[s t'']|]. }
  destruct (sample_String (c :: t)) as [[s r']|] eqn:E; cbn [fmap option_fmap option_map] in Hh.
  - by rewrite (Skip_header _ O r' Hh).
  - unfold sample_Skip. cbn [length skip_values]. by rewrite Hh.
Qed.

Lemma take_n_size n r s r' : take_n n r = Some (s, r') -> (length s + length r' = length r)%nat.
Proof. unfold take_n. case_decide; [|done]. intros [= <- <-]. rewrite length_take, length_drop. lia. Qed.

Lemma sample_string_size r s r' : sample_String r = Some (s, r') -> (length s + length r' < length r)%nat.
Proof.
  destruct r as [|c t]; [done|]. unfold sample_String, rseq, next. destruct (negb (isStringCode c)); [done|].
  destruct (layout_of c) as [|h extra|n| | | | |]; try done.
  - destruct (be h t) as [[n t']|] eqn:Hb; [|done]. intros E%take_n_size. unfold be, rseq in Hb.
    destruct (take_n h t) as [[b t2]|] eqn:Ht; [|done]. apply take_n_size in Ht. injection Hb as _ <-. cbn. lia.
  - intros E%take_n_size. cbn. lia.
Qed.

(** *** The laws of the class *)

Lemma be_u32 h r n r' : (h <= 4)%nat -> be h r = Some (n, r') -> in_u32 n.
Proof.
  intros Hh E%be_range. assert (256 ^ Z.of_nat h <= 256 ^ 4) by (apply Z.pow_le_mono_r; lia). unfold in_u32. lia.
Qed.

Lemma sample_Skip_own : reads_own sample_Skip.
Proof.
  intros r [] r' E. destruct (skip_values_local _ _ _ _ _ (le_n _) E) as (u & Hr & Hu). exists u.
  split; [|split; [done|]; intros r''; by apply Hu]. intros ->. cbn in Hr. subst r'.
  unfold sample_Skip in E. destruct (length r) as [|m] eqn:Hm; [done|]. cbn [skip_values] in E.
  destruct (header r) as [[n r1]|] eqn:Hh; [|done]. pose proof (header_shrinks _ _ _ Hh). rewrite Nat.add_0_r in E.
  destruct (skip_values_local m n r1 tt r ltac:(lia) E) as (v & Hv & _). rewrite Hv, length_app in *. lia.
Qed.

Ltac read_lengths Hn :=
  unfold in_u32 in Hn;
  repeat (apply Forall_cons; split;
    [intros b Hb ->; cbn [fst] in Hb;
     first [refine (be_read 1 _ _ _); lia | refine (be_read 2 _ _ _); lia | refine (be_read 4 _ _ _); lia]|]);
  constructor.

Lemma sample_map_read n r : in_u32 n -> sample_MapLen (sample_EncodeMapLen n ++ r) = Some (n, r).
Proof.
  intros Hn. apply short_len_read; [done| | |exists (4%nat, codeMap32); split; [by right; left|done]].
  - intros Hl. unfold sample_MapLen, rseq, next. cbv beta iota. by rewrite layout_dict by (unfold in_u32 in Hn; lia).
  - intros _. read_lengths Hn.
Qed.
Lemma sample_array_read n r : in_u32 n -> sample_ArrayLen (sample_EncodeArrayLen n ++ r) = Some (n, r).
Proof.
  intros Hn. apply short_len_read; [done| | |exists (4%nat, codeArray32); split; [by right; left|done]].
  - intros Hl. unfold sample_ArrayLen, rseq, next. cbv beta iota. by rewrite layout_arr by (unfold in_u32 in Hn; lia).
  - intros _. read_lengths Hn.
Qed.

(** The length of a string, as [sample_String] reads it. *)
Definition string_len : reader Z :=
  rseq next (fun c => if negb (isStringCode c) then rfail else
    match layout_of c with Text n => rret n | Sized h O => be h | _ => rfail end).

Lemma sample_string_len s r r' :
  string_len r = Some (Z.of_nat (length s), s ++ r') -> sample_String r = Some (s, r').
Proof.
  destruct r as [|c t]; [done|]. unfold string_len, sample_String, rseq, next. destruct (negb (isStringCode c)); [done|].
  destruct (layout_of c) as [|h [|extra]|n| | | | |]; try done.
  - intros ->. rewrite Nat2Z.id, Nat.add_0_r. by apply take_n_app.
  - intros [= -> ->]. rewrite Nat2Z.id. by apply take_n_app.
Qed.

Lemma sample_string_read s r :
  in_u32 (Z.of_nat (length s)) -> sample_String (sample_EncodeString s ++ r) = Some (s, r).
Proof.
  intros Hn. apply sample_string_len. unfold sample_EncodeString. rewrite <-app_assoc.
  apply short_len_read; [done| | |exists (4%nat, codeStr32); split; [by right; right; left|done]].
  - intros Hl. unfold string_len, rseq, next. cbv beta iota. rewrite isStringCode_fix by lia.
    by rewrite layout_text by lia.
  - intros _. read_lengths Hn.
Qed.

Lemma short_len_starts p fix_code limit codes n :
  (n < limit -> p (byte_of_Z (fix_code + n)) = true) -> Forall (fun q : nat * byte => p q.2 = true) codes -> codes <> [] ->
  starts p (short_len fix_code limit codes n).
Proof.
  intros Hfix Hcodes Hne. unfold short_len. destruct (n <? limit) eqn:Hl.
  { exists (byte_of_Z (fix_code + n)), []. split; [done|]. apply Hfix. lia. }
  rewrite Forall_forall in Hcodes. destruct (List.find _ codes) as [[w c]|] eqn:Hf.
  - apply List.find_some in Hf as [Hin _]. apply list_elem_of_In in Hin. eexists c, _. split; [done|].
    apply (Hcodes _ Hin).
  - destruct (List.last codes (4%nat, xc1)) as [w c] eqn:Hlast. eexists c, _. split; [done|].
    apply (Hcodes (w, c)). apply list_elem_of_In. rewrite <-Hlast. destruct codes as [|q codes]; [done|].
    clear. revert q. induction codes as [|q' codes IH]; intros q; [by left|]. right. apply IH.
Qed.

Lemma sample_map_range r n r' : starts isMapCode r -> sample_MapLen r = Some (n, r') -> in_u32 n.
Proof.
  intros (c & t & -> & Hc%map_layout). unfold sample_MapLen, rseq, next.
  destruct (layout_of c) as [| | | | |m|h|]; try done; [intros [= <- _]; unfold in_u32; lia|by apply be_u32].
Qed.
Lemma sample_array_range r n r' : starts isArrayCode r -> sample_ArrayLen r = Some (n, r') -> in_u32 n.
Proof.
  intros (c & t & -> & Hc%array_layout). unfold sample_ArrayLen, rseq, next.
  destruct (layout_of c) as [| | |m|h| | |]; try done; [intros [= <- _]; unfold in_u32; lia|by apply be_u32].
Qed.

#[export] Instance sample_codec_ok : MsgpackCodecOk.
Proof.
  constructor.
  - done.
  - apply sample_Skip_own.
  - apply own_next. intros c. destruct (layout_of c); eauto with readers.
  - apply own_next. intros c. destruct (layout_of c); eauto with readers.
  - apply own_next. intros c. destruct (negb (isStringCode c)); [eauto with readers|].
    destruct (layout_of c); eauto with readers.
  - apply sample_map_read.
  - apply sample_map_range.
  - intros n Hn. apply short_len_starts; [|by repeat constructor|done]. intros. by apply isMapCode_fix.
  - apply sample_array_read.
  - apply sample_array_range.
  - intros n Hn. apply short_len_starts; [|by repeat constructor|done]. intros. by apply isArrayCode_fix.
  - apply sample_string_read.
  - intros s. destruct (short_len_starts isStringCode 0xa0 32 [(1%nat, codeStr8); (2%nat, codeStr16); (4%nat, codeStr32)]
      (Z.of_nat (length s))) as (c & t & E & Hc); [|by repeat constructor|done|].
    + intros. apply isStringCode_fix. lia.
    + exists c, (t ++ s). unfold EncodeString. cbn [sample_codec]. unfold sample_EncodeString. by rewrite E.
  - apply sample_string_size.
  - apply sample_string_skip.
  - intros r n r' Hc E. by rewrite <-(Skip_header _ _ _ (sample_map_header _ _ _ Hc E)).
  - intros r n r' Hc E. by rewrite <-(Skip_header _ _ _ (sample_array_header _ _ _ Hc E)).
Qed.

(** *** Numbers *)

Lemma scalar_flat c w z : is_leaf_code c = true -> layout_of c = Flat w -> scalar (c :: be_put w z).
Proof.
  intros Hc Hw. split; [by exists c, (be_put w z)|]. unfold Skip. cbn [sample_codec].
  rewrite (Skip_header _ O []); [done|]. unfold header, rseq, next. rewrite Hw.
  rewrite <-(app_nil_r (be_put w z)). by rewrite take_n_app by (unfold be_put; by rewrite length_rev, length_le_put).
Qed.

Lemma signed_small bits z : 0 < bits -> in_int bits z -> signed bits (z mod 2 ^ bits) = z.
Proof.
  intros Hb Hz. unfold signed, in_int in *. rewrite Zplus_mod_idemp_l, Z.mod_small; [lia|].
  replace (2 ^ bits) with (2 * 2 ^ (bits - 1)); [lia|]. rewrite <-Z.pow_succ_r by lia. f_equal. lia.
Qed.

Lemma i64_small z : in_i64 z -> i64 z = z.
Proof. intros Hz. unfold i64, in_i64 in *. rewrite Z.mod_small; lia. Qed.
Lemma i64_range z : in_i64 (i64 z).
Proof. unfold i64, in_i64. pose proof (Z.mod_pos_bound (z + 2 ^ 63) (2 ^ 64) ltac:(lia)). lia. Qed.

Lemma sample_integer_range wrap (P : Z -> Prop) r n r' :
  (forall z, P (wrap z)) -> sample_integer wrap r = Some (n, r') -> P n.
Proof.
  intros HP. destruct r as [|c r]; [done|]. unfold sample_integer, rseq, next, rret, rfail.
  repeat case_match; intros E; simplify_eq; apply HP.
Qed.

Lemma be_read_all n z : 0 <= z < 256 ^ Z.of_nat n -> be n (be_put n z) = Some (z, []).
Proof. intros Hz. pose proof (be_read n z [] Hz) as E. by rewrite app_nil_r in E. Qed.

Lemma signed_read (w : nat) n :
  (0 < w <= 8)%nat -> in_int (8 * Z.of_nat w) n ->
  rseq (be w) (fun z => rret (i64 (signed (8 * Z.of_nat w) z))) (be_put w (n mod 2 ^ (8 * Z.of_nat w))) = Some (n, []).
Proof.
  intros Hw Hn. assert (256 ^ Z.of_nat w = 2 ^ (8 * Z.of_nat w)) as Hp by (rewrite Z.pow_mul_r by lia; done).
  unfold rseq. rewrite be_read_all by (rewrite Hp; apply Z.mod_pos_bound; lia).
  unfold rret. rewrite signed_small by (done || lia). rewrite i64_small; [done|].
  unfold in_int, in_i64 in *. assert (2 ^ (8 * Z.of_nat w - 1) <= 2 ^ 63) by (apply Z.pow_le_mono_r; lia). lia.
Qed.
Lemma unsigned_read (w : nat) n :
  (0 < w <= 8)%nat -> 0 <= n < 256 ^ Z.of_nat w ->
  rseq (be w) (fun z => rret (u64 z)) (be_put w n) = Some (n, []).
Proof.
  intros Hw Hn. unfold rseq. rewrite be_read_all by done. unfold rret. rewrite u64_small; [done|].
  assert (256 ^ Z.of_nat w <= 256 ^ 8) by (apply Z.pow_le_mono_r; lia). unfold in_u64. lia.
Qed.

#[export] Instance sample_numbers_ok : MsgpackNumbersOk.
Proof.
  constructor; try (intros; split; [by apply scalar_flat|done]).
  - intros n Hn. exact (signed_read 1 n ltac:(lia) Hn).
  - intros n Hn. exact (signed_read 2 n ltac:(lia) Hn).
  - intros n Hn. exact (signed_read 4 n ltac:(lia) Hn).
  - intros n Hn. exact (signed_read 8 n ltac:(lia) Hn).
  - intros n Hn. exact (unsigned_read 1 n ltac:(lia) Hn).
  - intros n Hn. exact (unsigned_read 2 n ltac:(lia) Hn).
  - intros n Hn. exact (unsigned_read 4 n ltac:(lia) Hn).
  - intros n Hn. exact (unsigned_read 8 n ltac:(lia) Hn).
  - intros r n r'. apply (sample_integer_range _ in_i64), i64_range.
  - intros r n r'. apply (sample_integer_range _ in_u64), u64_bound.
Qed.

Example sample_parse :
  Parse (bs "" ++ [x82; xa1; x61; x05; xa1; x62; x92; xd0; xff; xc3])
  = Fine (MapNode
      [([x61], Leaf {| LeafStart := 3; LeafEnd := 4; LeafCode := x05; RawBytes := None |});
       ([x62], ArrayNode [Leaf {| LeafStart := 7; LeafEnd := 9; LeafCode := xd0; RawBytes := None |};
                          Leaf {| LeafStart := 9; LeafEnd := 10; LeafCode := xc3; RawBytes := None |}])]).
Proof. by vm_compute. Qed.
