(* ===== verification/Crc32.v ===== *)
(** CRC-32 (IEEE), the checksum of a stored block.

    [types.go] calls [crc32.ChecksumIEEE] of Go's standard library; [checksumIEEE]
    is that function, bit by bit: the register starts at all ones, each byte is
    xored into its low end and shifted out through the reflected polynomial, and
    the final register is complemented.  The point of the file is
    [checksum_burst]: the checksum of a byte string changes whenever the string
    changes inside one window of at most four bytes. *)
From S2P Require Import Prelude.

Open Scope Z_scope.

(** The reversed representation of the IEEE polynomial. *)
Definition IEEE : Z := 0xEDB88320.

Definition crc_step (c : Z) : Z :=
  if Z.odd c then Z.lxor (Z.shiftr c 1) IEEE else Z.shiftr c 1.

Fixpoint crc_steps (n : nat) (c : Z) : Z :=
  match n with
  | O => c
  | S n => crc_steps n (crc_step c)
  end.

Definition crc_byte (c : Z) (b : byte) : Z := crc_steps 8 (Z.lxor c (Z_of_byte b)).

Definition crc_update (c : Z) (data : bytes) : Z := foldl crc_byte c data.

Definition checksumIEEE (data : bytes) : Z :=
  Z.lxor (crc_update 0xFFFFFFFF data) 0xFFFFFFFF.

Example checksumIEEE_check : checksumIEEE (bs "123456789") = 0xCBF43926.
Proof. vm_compute. reflexivity. Qed.

(** ** Linearity and bounds of a step *)

Lemma lxor_bound n a b :
  0 <= n -> 0 <= a < 2 ^ n -> 0 <= b < 2 ^ n -> 0 <= Z.lxor a b < 2 ^ n.
Proof.
  intros Hn Ha Hb.
  assert (forall x, 0 <= x < 2 ^ n -> Z.land x (Z.ones n) = x) as Hones
    by (intros; rewrite Z.land_ones, Z.mod_small; lia).
  replace (Z.lxor a b) with (Z.land (Z.lxor a b) (Z.ones n)).
  - rewrite Z.land_ones by lia. apply Z.mod_pos_bound. lia.
  - rewrite <-(Hones a Ha), <-(Hones b Hb). apply Z.bits_inj'. intros i _.
    rewrite ?Z.land_spec, ?Z.lxor_spec, ?Z.land_spec.
    by destruct (Z.testbit a i), (Z.testbit b i), (Z.testbit (Z.ones n) i).
Qed.

Lemma odd_lxor a b : Z.odd (Z.lxor a b) = xorb (Z.odd a) (Z.odd b).
Proof. by rewrite <-!Z.bit0_odd, Z.lxor_spec. Qed.

Lemma crc_step_lxor a b : crc_step (Z.lxor a b) = Z.lxor (crc_step a) (crc_step b).
Proof.
  unfold crc_step. rewrite odd_lxor, Z.shiftr_lxor.
  destruct (Z.odd a), (Z.odd b); simpl xorb; cbn iota; try done.
  - rewrite Z.lxor_assoc, <-(Z.lxor_assoc IEEE), (Z.lxor_comm IEEE), Z.lxor_assoc,
      Z.lxor_nilpotent, Z.lxor_0_r. done.
  - rewrite !Z.lxor_assoc. f_equal. apply Z.lxor_comm.
  - by rewrite Z.lxor_assoc.
Qed.

Lemma crc_step_bound c : in_u32 c -> in_u32 (crc_step c).
Proof.
  unfold in_u32. intros Hc.
  assert (0 <= Z.shiftr c 1 < 2 ^ 31) as Hs.
  { rewrite Z.shiftr_div_pow2 by lia. change (2 ^ 1) with 2.
    split; [apply Z.div_pos; lia|apply Z.div_lt_upper_bound; lia]. }
  unfold crc_step. destruct (Z.odd c); [apply lxor_bound; [lia|lia|]|lia].
  unfold IEEE. lia.
Qed.

(** A step loses nothing: the polynomial has its top bit set, a shifted register
    has not. *)
Lemma crc_step_zero c : in_u32 c -> crc_step c = 0 -> c = 0.
Proof.
  unfold in_u32, crc_step. intros Hc H.
  rewrite Z.shiftr_div_pow2 in H by lia. change (2 ^ 1) with 2 in H.
  pose proof (Z.div_mod c 2 ltac:(lia)) as Hd.
  destruct (Z.odd c) eqn:E.
  - apply Z.lxor_eq in H. unfold IEEE in H.
    assert (c / 2 < 2 ^ 31) by (apply Z.div_lt_upper_bound; lia). lia.
  - rewrite Zmod_odd, E in Hd. lia.
Qed.

Lemma crc_steps_lxor n a b :
  crc_steps n (Z.lxor a b) = Z.lxor (crc_steps n a) (crc_steps n b).
Proof. revert a b. induction n; intros; simpl; [done|]. by rewrite crc_step_lxor. Qed.

Lemma crc_steps_bound n c : in_u32 c -> in_u32 (crc_steps n c).
Proof. revert c. induction n; intros; simpl; auto using crc_step_bound. Qed.

Lemma crc_steps_add n m c : crc_steps (n + m) c = crc_steps m (crc_steps n c).
Proof. revert c. induction n; intros; simpl; auto. Qed.

Lemma crc_steps_inj n a b :
  in_u32 a -> in_u32 b -> crc_steps n a = crc_steps n b -> a = b.
Proof.
  intros Ha Hb H. apply Z.lxor_eq.
  assert (crc_steps n (Z.lxor a b) = 0) as H0
    by by rewrite crc_steps_lxor, H, Z.lxor_nilpotent.
  assert (in_u32 (Z.lxor a b)) as Hx by (apply lxor_bound; [lia|done|done]).
  revert H0 Hx. generalize (Z.lxor a b). clear.
  induction n as [|n IH]; simpl; [done|].
  intros c H0 Hc. apply crc_step_zero; [done|]. apply IH; [done|].
  by apply crc_step_bound.
Qed.

(** The steps of one byte shift the high part down unchanged. *)
Lemma crc_steps_shifted (n : nat) y :
  crc_steps n (Z.shiftl y (Z.of_nat n)) = y.
Proof.
  revert y. induction n as [|n IH]; intros y; [by rewrite Z.shiftl_0_r|].
  cbn [crc_steps]. rewrite Nat2Z.inj_succ, <-Z.add_1_r, <-Z.shiftl_shiftl by lia.
  unfold crc_step. rewrite (Z.shiftl_mul_pow2 _ 1) by lia. change (2 ^ 1) with 2.
  rewrite Z.odd_mul, andb_false_r, <-(Z.shiftl_mul_pow2 _ 1) by lia.
  rewrite Z.shiftr_shiftl_l, Z.shiftl_0_r by lia. apply IH.
Qed.

Lemma byte_plus_lxor b y :
  Z_of_byte b + 256 * y = Z.lxor (Z_of_byte b) (Z.shiftl y 8).
Proof.
  rewrite Z.shiftl_mul_pow2 by lia. change (2 ^ 8) with 256.
  rewrite Z.add_nocarry_lxor; [by rewrite (Z.mul_comm y)|].
  apply Z.bits_inj'. intros i Hi. rewrite Z.land_spec, Z.bits_0.
  change 256 with (2 ^ 8). rewrite (Z.mul_comm _ y).
  destruct (decide (i < 8)).
  - by rewrite Z.mul_pow2_bits_low, andb_false_r.
  - rewrite (Z.bits_above_log2 (Z_of_byte b)); [done|apply Z_of_byte_bound|].
    pose proof (Z_of_byte_bound b).
    destruct (decide (Z_of_byte b = 0)) as [->|]; [simpl; lia|].
    apply Z.lt_le_trans with 8; [apply Z.log2_lt_pow2|]; lia.
Qed.

(** ** The closed form of a run, and detection of bursts *)

(** Feeding [w] is stepping the register xored with [w] read as an integer. *)
Lemma crc_update_closed w c :
  crc_update c w = crc_steps (8 * length w) (Z.lxor c (le_get w)).
Proof.
  unfold crc_update. revert c. induction w as [|b w IH]; intros c; cbn [foldl]; [|rewrite le_get_cons].
  - by rewrite Z.lxor_0_r.
  - rewrite IH. replace (8 * length (b :: w))%nat with (8 + 8 * length w)%nat by (simpl; lia).
    rewrite crc_steps_add. f_equal. unfold crc_byte.
    rewrite byte_plus_lxor, <-Z.lxor_assoc,
      (crc_steps_lxor 8 (Z.lxor c _) (Z.shiftl _ _)). f_equal.
    symmetry. apply (crc_steps_shifted 8).
Qed.

Lemma crc_update_app c a b : crc_update c (a ++ b) = crc_update (crc_update c a) b.
Proof. apply foldl_app. Qed.

Lemma crc_byte_bound c b : in_u32 c -> in_u32 (crc_byte c b).
Proof.
  intros Hc. apply crc_steps_bound, lxor_bound; [lia|done|].
  pose proof (Z_of_byte_bound b). lia.
Qed.

Lemma crc_update_bound c w : in_u32 c -> in_u32 (crc_update c w).
Proof.
  unfold crc_update. revert c. induction w; simpl; intros; [done|].
  auto using crc_byte_bound.
Qed.

Lemma checksumIEEE_bound data : in_u32 (checksumIEEE data).
Proof. apply lxor_bound; [lia|apply crc_update_bound|]; unfold in_u32; lia. Qed.

(** The run over a common suffix is injective in the register. *)
Lemma crc_update_inj a b w :
  in_u32 a -> in_u32 b -> crc_update a w = crc_update b w -> a = b.
Proof.
  unfold crc_update. revert a b. induction w as [|x w IH]; simpl; intros a b Ha Hb H; [done|].
  apply IH in H; auto using crc_byte_bound.
  pose proof (Z_of_byte_bound x). unfold in_u32 in *.
  apply crc_steps_inj in H; try (apply lxor_bound; lia).
  apply (f_equal (fun y => Z.lxor y (Z_of_byte x))) in H.
  by rewrite !Z.lxor_assoc, !Z.lxor_nilpotent, !Z.lxor_0_r in H.
Qed.

Lemma le_get_window w : (length w <= 4)%nat -> in_u32 (le_get w).
Proof.
  intros Hw. pose proof (le_get_bound w). unfold in_u32.
  assert (256 ^ Z.of_nat (length w) <= 256 ^ 4) by (apply Z.pow_le_mono_r; lia). lia.
Qed.

(** Two strings of equal length that differ only inside one window of at most
    four bytes have different checksums. *)
Lemma checksum_burst p w w' s :
  length w = length w' -> (length w <= 4)%nat -> w <> w' ->
  checksumIEEE (p ++ w ++ s) <> checksumIEEE (p ++ w' ++ s).
Proof.
  intros Hl H4 Hne H. apply Hne. unfold checksumIEEE in H.
  apply (f_equal (fun y => Z.lxor y 0xFFFFFFFF)) in H.
  rewrite !Z.lxor_assoc, !Z.lxor_nilpotent, !Z.lxor_0_r, !crc_update_app in H.
  set (c := crc_update 0xFFFFFFFF p) in *.
  assert (in_u32 c) as Hc by (apply crc_update_bound; unfold in_u32; lia).
  apply crc_update_inj in H; try (by apply crc_update_bound).
  rewrite !crc_update_closed, <-Hl in H.
  pose proof (le_get_window w H4). pose proof (le_get_window w' ltac:(lia)).
  unfold in_u32 in *.
  apply crc_steps_inj in H; try (apply lxor_bound; lia).
  apply (f_equal (Z.lxor c)) in H.
  rewrite <-!Z.lxor_assoc, Z.lxor_nilpotent, !Z.lxor_0_l in H.
  by apply le_get_inj.
Qed.
