(* ===== verification/Types.v ===== *)
(** The binary layout of a [.hyd] file: [chronicler/v2/types.go].

    Headers, entries and swamp metadata as records of the integers and byte
    strings the Go structs hold, with their [Serialize], [Deserialize] and size
    functions.  A struct method that fills its receiver is a function to the
    filled struct: every caller in the package starts from a zero value and drops
    the struct on an error. *)
From S2P Require Import Prelude Crc32.

(** ** Constants *)

Definition MagicBytes : bytes := bs "HYDR".
Definition Version2 : Z := 2.
Definition Version3 : Z := 3.
Definition CurrentVersion : Z := Version3.
Definition DefaultMaxBlockSize : Z := 16 * 1024.
Definition FileHeaderSize : nat := 64.
Definition BlockHeaderSize : nat := 16.

Definition OpInsert : Z := 1.
Definition OpUpdate : Z := 2.
Definition OpDelete : Z := 3.
Definition OpMetadata : Z := 4.

Definition byte_at (i : nat) (buf : bytes) : byte := default x00 (buf !! i).

(** ** File header *)

Record FileHeader := {
  Magic : bytes;
  Version : Z;
  Flags : Z;
  CreatedAt : Z;
  ModifiedAt : Z;
  BlockSize : Z;
  EntryCount : Z;
  BlockCount : Z;
  NameLength : Z;
  Reserved : bytes
}.

Definition FileHeader_Serialize (h : FileHeader) : bytes :=
  let buf := make_bytes FileHeaderSize in
  let buf := copy_at 0 (Magic h) buf in
  let buf := copy_at 4 (le_put 2 (Version h)) buf in
  let buf := copy_at 6 (le_put 2 (Flags h)) buf in
  let buf := copy_at 8 (le_put 8 (u64 (CreatedAt h))) buf in
  let buf := copy_at 16 (le_put 8 (u64 (ModifiedAt h))) buf in
  let buf := copy_at 24 (le_put 4 (BlockSize h)) buf in
  let buf := copy_at 28 (le_put 8 (EntryCount h)) buf in
  let buf := copy_at 36 (le_put 8 (BlockCount h)) buf in
  let buf := copy_at 44 (le_put 2 (NameLength h)) buf in
  copy_at 46 (Reserved h) buf.

Definition FileHeader_Deserialize (buf : bytes) : result FileHeader :=
  if decide (length buf < FileHeaderSize)%nat then Err ErrBufferTooSmall else
  let magic := slice 0 4 buf in
  if decide (magic <> MagicBytes) then Err ErrInvalidMagic else
  let version := le_get (slice 4 6 buf) in
  if decide (version <> Version2 /\ version <> Version3) then Err ErrUnsupportedVer else
  Ok {| Magic := magic;
        Version := version;
        Flags := le_get (slice 6 8 buf);
        CreatedAt := i64 (le_get (slice 8 16 buf));
        ModifiedAt := i64 (le_get (slice 16 24 buf));
        BlockSize := le_get (slice 24 28 buf);
        EntryCount := le_get (slice 28 36 buf);
        BlockCount := le_get (slice 36 44 buf);
        NameLength := if decide (version = Version3)
                      then le_get (slice 44 46 buf) else 0;
        Reserved := slice 46 60 buf |}.

(** [NewFileHeader] at the instant [now] of [time.Now().UnixNano()]. *)
Definition NewFileHeader (now : Z) : FileHeader :=
  {| Magic := MagicBytes; Version := CurrentVersion; Flags := 0;
     CreatedAt := now; ModifiedAt := now; BlockSize := DefaultMaxBlockSize;
     EntryCount := 0; BlockCount := 0; NameLength := 0;
     Reserved := make_bytes 14 |}.

Definition IsV3 (h : FileHeader) : bool := bool_decide (Version h = Version3).

Definition DataStartOffset (h : FileHeader) : Z :=
  if IsV3 h then Z.of_nat FileHeaderSize + NameLength h else Z.of_nat FileHeaderSize.

(** Field updates the writer makes in place. *)
Definition set_counts (entries blocks : Z) (h : FileHeader) : FileHeader :=
  {| Magic := Magic h; Version := Version h; Flags := Flags h;
     CreatedAt := CreatedAt h; ModifiedAt := ModifiedAt h; BlockSize := BlockSize h;
     EntryCount := entries; BlockCount := blocks; NameLength := NameLength h;
     Reserved := Reserved h |}.

Definition set_NameLength (n : Z) (h : FileHeader) : FileHeader :=
  {| Magic := Magic h; Version := Version h; Flags := Flags h;
     CreatedAt := CreatedAt h; ModifiedAt := ModifiedAt h; BlockSize := BlockSize h;
     EntryCount := EntryCount h; BlockCount := BlockCount h; NameLength := n;
     Reserved := Reserved h |}.

(** The values a Go [FileHeader] of a supported version can hold. *)
Record header_wf (h : FileHeader) : Prop := {
  hw_magic : Magic h = MagicBytes;
  hw_version : Version h = Version2 /\ NameLength h = 0 \/ Version h = Version3;
  hw_flags : in_u16 (Flags h);
  hw_created : in_i64 (CreatedAt h);
  hw_modified : in_i64 (ModifiedAt h);
  hw_blocksize : in_u32 (BlockSize h);
  hw_entries : in_u64 (EntryCount h);
  hw_blocks : in_u64 (BlockCount h);
  hw_name : in_u16 (NameLength h);
  hw_reserved : length (Reserved h) = 14%nat
}.

(** ** Block header *)

Record BlockHeader := {
  CompressedSize : Z;
  UncompressedSize : Z;
  BEntryCount : Z;
  Checksum : Z;
  BFlags : Z
}.

Definition BlockHeader_Serialize (b : BlockHeader) : bytes :=
  let buf := make_bytes BlockHeaderSize in
  let buf := copy_at 0 (le_put 4 (CompressedSize b)) buf in
  let buf := copy_at 4 (le_put 4 (UncompressedSize b)) buf in
  let buf := copy_at 8 (le_put 2 (BEntryCount b)) buf in
  let buf := copy_at 10 (le_put 4 (Checksum b)) buf in
  copy_at 14 (le_put 2 (BFlags b)) buf.

Definition BlockHeader_Deserialize (buf : bytes) : result BlockHeader :=
  if decide (length buf < BlockHeaderSize)%nat then Err ErrBufferTooSmall else
  Ok {| CompressedSize := le_get (slice 0 4 buf);
        UncompressedSize := le_get (slice 4 8 buf);
        BEntryCount := le_get (slice 8 10 buf);
        Checksum := le_get (slice 10 14 buf);
        BFlags := le_get (slice 14 16 buf) |}.

Record block_header_wf (b : BlockHeader) : Prop := {
  bw_csize : in_u32 (CompressedSize b);
  bw_usize : in_u32 (UncompressedSize b);
  bw_count : in_u16 (BEntryCount b);
  bw_sum : in_u32 (Checksum b);
  bw_flags : in_u16 (BFlags b)
}.

(** ** Entries *)

Record Entry := {
  Operation : Z;
  Key : bytes;
  Data : bytes
}.

Definition Entry_Size (e : Entry) : nat := (1 + 2 + length (Key e) + 4 + length (Data e))%nat.

Definition Entry_Serialize (e : Entry) : bytes :=
  let keyLen := length (Key e) in
  let dataLen := length (Data e) in
  let buf := make_bytes (1 + 2 + keyLen + 4 + dataLen) in
  let offset := O in
  let buf := copy_at offset [byte_of_Z (Operation e)] buf in
  let offset := S offset in
  let buf := copy_at offset (le_put 2 (u16 (Z.of_nat keyLen))) buf in
  let offset := (offset + 2)%nat in
  let buf := copy_at offset (Key e) buf in
  let offset := (offset + keyLen)%nat in
  let buf := copy_at offset (le_put 4 (u32 (Z.of_nat dataLen))) buf in
  let offset := (offset + 4)%nat in
  if decide (0 < dataLen)%nat then copy_at offset (Data e) buf else buf.

(** Returns the number of bytes consumed and the entry. *)
Definition Entry_Deserialize (buf : bytes) : result (nat * Entry) :=
  if decide (length buf < 7)%nat then Err ErrCorruptedEntry else
  let offset := O in
  let op := Z_of_byte (byte_at offset buf) in
  let offset := S offset in
  let keyLen := Z.to_nat (le_get (slice offset (offset + 2) buf)) in
  let offset := (offset + 2)%nat in
  if decide (length buf < offset + keyLen + 4)%nat then Err ErrCorruptedEntry else
  let key := slice offset (offset + keyLen) buf in
  let offset := (offset + keyLen)%nat in
  if decide (key = []) then Err ErrEmptyKey else
  let dataLen := Z.to_nat (le_get (slice offset (offset + 4) buf)) in
  let offset := (offset + 4)%nat in
  if decide (length buf < offset + dataLen)%nat then Err ErrCorruptedEntry else
  let data := if decide (0 < dataLen)%nat then slice offset (offset + dataLen) buf else [] in
  let offset := (offset + dataLen)%nat in
  Ok (offset, {| Operation := op; Key := key; Data := data |}).

(** The entries the format can represent. *)
Definition entry_wf (e : Entry) : Prop :=
  in_u8 (Operation e) /\ Key e <> [] /\
  Z.of_nat (length (Key e)) < 2 ^ 16 /\ Z.of_nat (length (Data e)) < 2 ^ 32.

#[export] Instance entry_wf_dec e : Decision (entry_wf e).
Proof. unfold entry_wf, in_u8. apply _. Defined.

(** ** Checksums *)

Definition CalculateChecksum (data : bytes) : Z := checksumIEEE data.
Definition ValidateChecksum (data : bytes) (expected : Z) : bool :=
  bool_decide (CalculateChecksum data = expected).

(** ** Layout of the serialised forms *)

Lemma FileHeader_layout h :
  length (Magic h) = 4%nat -> length (Reserved h) = 14%nat ->
  FileHeader_Serialize h =
    Magic h ++ le_put 2 (Version h) ++ le_put 2 (Flags h) ++
    le_put 8 (u64 (CreatedAt h)) ++ le_put 8 (u64 (ModifiedAt h)) ++
    le_put 4 (BlockSize h) ++ le_put 8 (EntryCount h) ++ le_put 8 (BlockCount h) ++
    le_put 2 (NameLength h) ++ Reserved h ++ make_bytes 4.
Proof.
  intros Hm Hr. unfold FileHeader_Serialize, FileHeaderSize. cbn zeta.
  copy_chain. rewrite ?length_le_put, Hm, Hr. by rewrite <-!app_assoc.
Qed.

Lemma BlockHeader_layout b :
  BlockHeader_Serialize b =
    le_put 4 (CompressedSize b) ++ le_put 4 (UncompressedSize b) ++
    le_put 2 (BEntryCount b) ++ le_put 4 (Checksum b) ++ le_put 2 (BFlags b).
Proof.
  unfold BlockHeader_Serialize, BlockHeaderSize. cbn zeta.
  copy_chain. rewrite !length_le_put, <-!app_assoc. done.
Qed.

Lemma Entry_layout e :
  Entry_Serialize e =
    [byte_of_Z (Operation e)] ++ le_put 2 (u16 (Z.of_nat (length (Key e)))) ++ Key e ++
    le_put 4 (u32 (Z.of_nat (length (Data e)))) ++ Data e.
Proof.
  unfold Entry_Serialize. cbn zeta. copy_chain.
  assert (forall m, m = O -> make_bytes m = []) as Hz by by intros ? ->.
  case_decide as Hd.
  - rewrite Hz, app_nil_r, <-!app_assoc by len. done.
  - rewrite Hz, app_nil_r, <-!app_assoc by len.
    destruct (Data e); [by rewrite app_nil_r|simpl in Hd; lia].
Qed.

Lemma length_FileHeader h :
  length (Magic h) = 4%nat -> length (Reserved h) = 14%nat ->
  length (FileHeader_Serialize h) = FileHeaderSize.
Proof. intros. rewrite FileHeader_layout by done. unfold FileHeaderSize. len. Qed.

Lemma length_BlockHeader b : length (BlockHeader_Serialize b) = BlockHeaderSize.
Proof. rewrite BlockHeader_layout. unfold BlockHeaderSize. len. Qed.

Lemma length_Entry e : length (Entry_Serialize e) = Entry_Size e.
Proof. rewrite Entry_layout. unfold Entry_Size. len. Qed.

(** ** Decoding inverts encoding *)

(** Project the fields of the format's records, and nothing else. *)
Ltac fields :=
  cbn [Magic Version Flags CreatedAt ModifiedAt BlockSize EntryCount BlockCount
       NameLength Reserved CompressedSize UncompressedSize BEntryCount Checksum BFlags
       Operation Key Data].

Lemma header_fixed h : header_wf h -> length (Magic h) = 4%nat /\ length (Reserved h) = 14%nat.
Proof. intros []. by rewrite hw_magic0. Qed.

Lemma FileHeader_roundtrip h rest :
  header_wf h -> FileHeader_Deserialize (FileHeader_Serialize h ++ rest) = Ok h.
Proof.
  intros Hwf. destruct (header_fixed h Hwf) as [Hm Hr]. destruct Hwf.
  unfold FileHeader_Deserialize.
  rewrite decide_False by (rewrite length_app, length_FileHeader; [lia|done|done]).
  rewrite FileHeader_layout, <-!app_assoc by done. cbn zeta. read_fields.
  assert (in_u16 (Version h)) by (unfold Version2, Version3, in_u16 in *; lia).
  rewrite !le_u16, !le_u32, !le_u64 by eauto with codec.
  rewrite decide_False by (intros Hn; by apply Hn).
  rewrite decide_False by (unfold Version2, Version3 in *; lia).
  rewrite !i64_u64 by done. destruct h; simpl in *.
  case_decide; [done|]. destruct hw_version0 as [[? ->]|]; done.
Qed.

Lemma i64_bound z : in_i64 (i64 z).
Proof.
  unfold i64, in_i64. pose proof (Z.mod_pos_bound (z + 2 ^ 63) (2 ^ 64)). lia.
Qed.

Lemma u64_i64 z : in_u64 z -> u64 (i64 z) = z.
Proof.
  unfold u64, i64, in_u64. intros Hz.
  rewrite Zminus_mod_idemp_l. rewrite Z.add_simpl_r. by apply Z.mod_small.
Qed.

(** A slice of the right width holds an integer of that width. *)
Ltac slice_bound :=
  first [apply le_get_u16 | apply le_get_u32 | apply le_get_u64];
  rewrite length_slice by lia; lia.

Lemma FileHeader_Deserialize_wf buf h :
  FileHeader_Deserialize buf = Ok h ->
  header_wf h /\ (Version h = Version3 -> take 60 (FileHeader_Serialize h) = take 60 buf).
Proof.
  unfold FileHeader_Deserialize, FileHeaderSize. cbn zeta. intros H.
  case_decide as Hl; [done|]. case_decide as Hm; [done|].
  case_decide as Hv; [done|]. simplify_eq.
  assert (64 <= length buf)%nat by lia.
  assert (length (slice 46 60 buf) = 14%nat) as Hr by (rewrite length_slice; lia).
  split.
  - constructor; simpl; try done; try apply i64_bound; try slice_bound.
    + case_decide; [tauto|]. unfold Version2, Version3 in *. lia.
    + case_decide; [slice_bound|]. unfold in_u16. lia.
  - fields. intros Hv3. rewrite FileHeader_layout; fields; [|by rewrite Hm|done].
    rewrite decide_True by done.
    rewrite !u64_i64 by slice_bound. rewrite !le_put_slice by lia.
    rewrite take_slice, (take_slice 60).
    rewrite (slice_split 0 4 60 buf), (slice_split 4 6 60 buf), (slice_split 6 8 60 buf),
      (slice_split 8 16 60 buf), (slice_split 16 24 60 buf), (slice_split 24 28 60 buf),
      (slice_split 28 36 60 buf), (slice_split 36 44 60 buf), (slice_split 44 46 60 buf) by lia.
    rewrite !app_assoc. apply slice_here; [done|].
    rewrite !length_app, !length_slice by lia. done.
Qed.

Lemma BlockHeader_roundtrip b rest :
  block_header_wf b -> BlockHeader_Deserialize (BlockHeader_Serialize b ++ rest) = Ok b.
Proof.
  intros []. unfold BlockHeader_Deserialize.
  rewrite decide_False by (rewrite length_app, length_BlockHeader; lia).
  rewrite BlockHeader_layout, <-!app_assoc. read_fields.
  rewrite !le_u16, !le_u32 by done. by destruct b.
Qed.

Lemma BlockHeader_Deserialize_wf buf b :
  BlockHeader_Deserialize buf = Ok b ->
  block_header_wf b /\ take BlockHeaderSize buf = BlockHeader_Serialize b.
Proof.
  unfold BlockHeader_Deserialize, BlockHeaderSize. intros H.
  case_decide; [done|]. simplify_eq. split; [constructor; simpl; slice_bound|].
  rewrite BlockHeader_layout; fields. rewrite !le_put_slice by lia.
  by rewrite take_slice, (slice_split 0 4 16), (slice_split 4 8 16), (slice_split 8 10 16),
    (slice_split 10 14 16) by lia.
Qed.

Lemma Entry_roundtrip e rest :
  entry_wf e -> Entry_Deserialize (Entry_Serialize e ++ rest) = Ok (Entry_Size e, e).
Proof.
  destruct e as [op key data]. unfold entry_wf; simpl. intros (Hop & Hk & Hkl & Hdl).
  unfold Entry_Deserialize. cbn zeta.
  rewrite length_app, length_Entry. unfold Entry_Size; simpl Key; simpl Data.
  rewrite decide_False by lia.
  rewrite Entry_layout, <-!app_assoc; fields.
  rewrite (slice_skip 1 3), slice_here by len.
  rewrite u16_small, le_u16, Nat2Z.id by (unfold in_u16; lia).
  rewrite decide_False by lia.
  read_fields. rewrite decide_False by done.
  rewrite u32_small, le_u32, Nat2Z.id by (unfold in_u32; lia).
  rewrite decide_False by lia. do 2 f_equal; try lia.
  f_equal; [|case_decide; [by read_fields|by destruct data; [|simpl in *; lia]]].
  unfold byte_at. simpl. rewrite Z_of_byte_of_Z. by apply Z.mod_small.
Qed.

Lemma Entry_Deserialize_sound buf n e :
  Entry_Deserialize buf = Ok (n, e) ->
  entry_wf e /\ n = Entry_Size e /\ take n buf = Entry_Serialize e.
Proof.
  unfold Entry_Deserialize. cbn zeta. intros H. change (1 + 2)%nat with 3%nat in H.
  case_decide; [done|].
  assert (length (slice 1 3 buf) = 2%nat) as Hl16 by (rewrite length_slice; lia).
  apply le_get_u16 in Hl16. unfold in_u16 in Hl16.
  set (k := Z.to_nat (le_get (slice 1 3 buf))) in *.
  case_decide; [done|]. case_decide as Hne; [done|].
  assert (length (slice (3 + k) (3 + k + 4) buf) = 4%nat) as Hl32 by (rewrite length_slice; lia).
  apply le_get_u32 in Hl32. unfold in_u32 in Hl32.
  assert (length (slice 3 (3 + k) buf) = k) as Hlk by (rewrite length_slice; lia).
  set (d := Z.to_nat (le_get (slice (3 + k) (3 + k + 4) buf))) in *.
  case_decide; [done|].
  assert ((if decide (0 < d)%nat then slice (3 + k + 4) (3 + k + 4 + d) buf else [])
    = slice (3 + k + 4) (3 + k + 4 + d) buf) as Hdata.
  { case_decide; [done|]. replace d with O by lia. unfold slice.
    by replace (_ - _)%nat with O by lia. }
  rewrite Hdata in H. apply Ok_inj, pair_eq in H as [<- <-].
  assert (length (slice (3 + k + 4) (3 + k + 4 + d) buf) = d) as Hld
    by (rewrite length_slice; lia).
  unfold entry_wf, Entry_Size. rewrite Entry_layout. fields. rewrite Hlk, Hld.
  split_and!; try done; try lia.
  - pose proof (Z_of_byte_bound (byte_at 0 buf)). unfold in_u8. lia.
  - rewrite u16_small, u32_small by (unfold in_u16, in_u32; lia).
    subst k d. rewrite !Z2Nat.id in * by lia. rewrite !le_put_slice by lia.
    rewrite byte_of_Z_of_byte.
    set (k := Z.to_nat (le_get (slice 1 3 buf))) in *.
    rewrite take_slice, (slice_split 0 1), (slice_split 1 3), (slice_split 3 (3 + k)),
      (slice_split (3 + k) (3 + k + 4)) by lia.
    f_equal. unfold byte_at. destruct buf; [simpl in *; lia|]. done.
Qed.
