(* ===== verification/Metadata.v ===== *)
(** Swamp metadata: the [SwampMetadata] part of [chronicler/v2/types.go].

    The serialiser fills a buffer of the computed size field by field; a state of
    the loop is the offset and the buffer. *)
From S2P Require Import Prelude Types.

Definition MetadataKey : bytes := bs "__swamp_metadata__".

Record SwampMetadata := {
  SwampName : bytes;
  MCreatedAt : Z;
  KeyValuePairs : gmap bytes bytes
}.

(** Write [src] at the offset and advance. *)
Definition emit (src : bytes) (st : nat * bytes) : nat * bytes :=
  ((st.1 + length src)%nat, copy_at st.1 src st.2).

Definition emit_string (s : bytes) (st : nat * bytes) : nat * bytes :=
  emit s (emit (le_put 2 (u16 (Z.of_nat (length s)))) st).

Definition pair_size (kv : bytes * bytes) : nat := (2 + length kv.1 + 2 + length kv.2)%nat.

Definition SwampMetadata_Serialize `{MapRange} (m : SwampMetadata) : bytes :=
  let nameLen := length (SwampName m) in
  let totalSize := (2 + nameLen + 8 + 2 +
    sum_list_with pair_size (map_range (KeyValuePairs m)))%nat in
  let st := (O, make_bytes totalSize) in
  let st := emit_string (SwampName m) st in
  let st := emit (le_put 8 (u64 (MCreatedAt m))) st in
  let st := emit (le_put 2 (u16 (Z.of_nat (size (KeyValuePairs m))))) st in
  (foldl (fun st kv => emit_string kv.2 (emit_string kv.1 st)) st
     (map_range (KeyValuePairs m))).2.

(** [need n off buf] is the guard [len(buf) < offset+n]; the errors of the Go code differ
    in their message only. *)
Definition need {A} (n off : nat) (buf : bytes) (k : result A) : result A :=
  if decide (length buf < off + n)%nat then Err ErrBufferTooSmall else k.

Fixpoint read_pairs (n off : nat) (buf : bytes) (m : gmap bytes bytes)
  : result (gmap bytes bytes) :=
  match n with
  | O => Ok m
  | S n =>
      need 2 off buf (
      let keyLen := Z.to_nat (le_get (slice off (off + 2) buf)) in
      let off := (off + 2)%nat in
      need keyLen off buf (
      let key := slice off (off + keyLen) buf in
      let off := (off + keyLen)%nat in
      need 2 off buf (
      let valLen := Z.to_nat (le_get (slice off (off + 2) buf)) in
      let off := (off + 2)%nat in
      need valLen off buf (
      let val := slice off (off + valLen) buf in
      let off := (off + valLen)%nat in
      read_pairs n off buf (<[key := val]> m)))))
  end.

Definition SwampMetadata_Deserialize (buf : bytes) : result SwampMetadata :=
  if decide (length buf < 12)%nat then Err ErrBufferTooSmall else
  let offset := O in
  let nameLen := Z.to_nat (le_get (slice offset (offset + 2) buf)) in
  let offset := (offset + 2)%nat in
  need nameLen offset buf (
  let name := slice offset (offset + nameLen) buf in
  let offset := (offset + nameLen)%nat in
  need 8 offset buf (
  let created := i64 (le_get (slice offset (offset + 8) buf)) in
  let offset := (offset + 8)%nat in
  need 2 offset buf (
  let kvCount := Z.to_nat (le_get (slice offset (offset + 2) buf)) in
  let offset := (offset + 2)%nat in
  rbind (read_pairs kvCount offset buf ∅) (fun pairs =>
  Ok {| SwampName := name; MCreatedAt := created; KeyValuePairs := pairs |})))).

(** What the format can represent. *)
Definition short (s : bytes) : Prop := Z.of_nat (length s) < 2 ^ 16.
Record metadata_wf (m : SwampMetadata) : Prop := {
  mw_name : short (SwampName m);
  mw_created : in_i64 (MCreatedAt m);
  mw_count : Z.of_nat (size (KeyValuePairs m)) < 2 ^ 16;
  mw_pairs : map_Forall (fun k v => short k /\ short v) (KeyValuePairs m)
}.

(** ** The layout *)

Definition string_bytes (s : bytes) : bytes := le_put 2 (Z.of_nat (length s)) ++ s.
Definition pair_bytes (kv : bytes * bytes) : bytes := string_bytes kv.1 ++ string_bytes kv.2.

Lemma length_string_bytes s : length (string_bytes s) = (2 + length s)%nat.
Proof. unfold string_bytes. by rewrite length_app, length_le_put. Qed.

Lemma length_pair_bytes kv : length (pair_bytes kv) = pair_size kv.
Proof. unfold pair_bytes, pair_size. rewrite length_app, !length_string_bytes. lia. Qed.

Lemma emit_fill src acc n :
  (length src <= n)%nat ->
  emit src (length acc, acc ++ make_bytes n) =
    (length (acc ++ src), (acc ++ src) ++ make_bytes (n - length src)).
Proof.
  intros. unfold emit. cbn [fst snd]. rewrite copy_at_fill by done. by rewrite length_app.
Qed.

Lemma emit_string_fill s acc n :
  short s -> (2 + length s <= n)%nat ->
  emit_string s (length acc, acc ++ make_bytes n) =
    (length (acc ++ string_bytes s),
     (acc ++ string_bytes s) ++ make_bytes (n - (2 + length s))).
Proof.
  intros Hs Hn. unfold emit_string, short in *.
  rewrite u16_small by (unfold in_u16; lia).
  rewrite !emit_fill by (rewrite ?length_le_put; lia).
  rewrite length_le_put. unfold string_bytes. rewrite !app_assoc.
  by replace (n - 2 - length s)%nat with (n - (2 + length s))%nat by lia.
Qed.

Lemma emit_pairs l acc n :
  Forall (fun kv => short kv.1 /\ short kv.2) l -> n = sum_list_with pair_size l ->
  foldl (fun st kv => emit_string kv.2 (emit_string kv.1 st)) (length acc, acc ++ make_bytes n) l
  = (length (acc ++ concat (map pair_bytes l)), acc ++ concat (map pair_bytes l)).
Proof.
  intros Hl. revert acc n. induction Hl as [|[k v] l [Hk Hv] _ IH]; intros acc n ->.
  - simpl. unfold make_bytes. simpl. by rewrite !app_nil_r.
  - cbn [foldl sum_list_with map concat fst snd] in *.
    change (pair_size (k, v)) with (2 + length k + 2 + length v)%nat.
    rewrite !emit_string_fill by (done || lia). rewrite IH.
    + change (pair_bytes (k, v)) with (string_bytes k ++ string_bytes v). by rewrite !app_assoc.
    + lia.
Qed.

Section Metadata.
Context `{MR : MapRange} `{MROk : !MapRangeOk}.

Lemma pairs_short m :
  metadata_wf m -> Forall (fun kv => short kv.1 /\ short kv.2) (map_range (KeyValuePairs m)).
Proof.
  intros [_ _ _ Hp]. apply Forall_forall. intros [k v] Hin.
  rewrite (map_range_perm (KeyValuePairs m)) in Hin. apply elem_of_map_to_list in Hin.
  exact (Hp k v Hin).
Qed.

Lemma SwampMetadata_layout m :
  metadata_wf m ->
  SwampMetadata_Serialize m =
    string_bytes (SwampName m) ++ le_put 8 (u64 (MCreatedAt m)) ++
    le_put 2 (Z.of_nat (size (KeyValuePairs m))) ++
    concat (map pair_bytes (map_range (KeyValuePairs m))).
Proof.
  intros Hwf. pose proof (pairs_short m Hwf) as Hp. destruct Hwf as [Hn Hc Hs _].
  unfold SwampMetadata_Serialize. set (l := map_range _) in *.
  set (total := (_ + sum_list_with _ _)%nat).
  pose proof (emit_string_fill (SwampName m) [] total Hn ltac:(unfold total; lia)) as E1.
  cbn [length app] in E1. rewrite E1.
  rewrite u16_small by (unfold in_u16; lia).
  rewrite !emit_fill by (rewrite ?length_le_put; unfold total; lia).
  rewrite !length_le_put, emit_pairs by (done || unfold total; lia).
  cbn [snd]. by rewrite <-!app_assoc.
Qed.

(** Reading a length-prefixed string in the middle of a buffer. *)
Lemma string_read s pre rest :
  short s ->
  let buf := pre ++ string_bytes s ++ rest in
  let off := length pre in
  Z.to_nat (le_get (slice off (off + 2) buf)) = length s /\
  slice (off + 2) (off + 2 + length s) buf = s /\
  (off + 2 + length s + length rest)%nat = length buf.
Proof.
  intros Hs buf off. unfold buf, string_bytes, off.
  split_and!.
  - rewrite slice_skip, <-app_assoc, slice_here by (rewrite ?length_le_put; lia).
    rewrite le_u16 by (unfold in_u16, short in *; lia). apply Nat2Z.id.
  - rewrite slice_skip, <-app_assoc, slice_skip, slice_here by (rewrite ?length_le_put; lia). done.
  - rewrite !length_app, length_le_put. lia.
Qed.

Lemma read_pairs_layout l pre rest m :
  Forall (fun kv => short kv.1 /\ short kv.2) l ->
  read_pairs (length l) (length pre) (pre ++ concat (map pair_bytes l) ++ rest) m
  = Ok (foldl (fun m kv => <[kv.1 := kv.2]> m) m l).
Proof.
  intros Hl. revert pre m. induction Hl as [|[k v] l [Hk Hv] _ IH]; intros pre m; [done|].
  cbn [length read_pairs map concat foldl fst snd] in *.
  change (pair_bytes (k, v)) with (string_bytes k ++ string_bytes v).
  set (tail := concat (map pair_bytes l) ++ rest).
  replace (pre ++ ((string_bytes k ++ string_bytes v) ++ concat (map pair_bytes l)) ++ rest)
    with (pre ++ string_bytes k ++ string_bytes v ++ tail) by (unfold tail; by rewrite <-!app_assoc).
  destruct (string_read k pre (string_bytes v ++ tail) Hk) as (H1 & H2 & H3).
  destruct (string_read v (pre ++ string_bytes k) tail Hv) as (H4 & H5 & H6).
  specialize (IH ((pre ++ string_bytes k) ++ string_bytes v) (<[k := v]> m)). fold tail in IH.
  repeat rewrite <-app_assoc in IH. rewrite <-app_assoc in H4, H5, H6.
  set (buf := pre ++ string_bytes k ++ string_bytes v ++ tail) in *.
  rewrite !length_app, !length_string_bytes in *.
  unfold need. rewrite decide_False by lia. rewrite H1, decide_False by lia. rewrite H2.
  replace (length pre + 2 + length k)%nat with (length pre + (2 + length k))%nat by lia.
  rewrite decide_False by lia. rewrite H4, decide_False by lia. rewrite H5.
  replace (length pre + (2 + length k) + 2 + length v)%nat
    with (length pre + (2 + length k + (2 + length v)))%nat by lia. exact IH.
Qed.

Lemma foldl_insert_list_to_map (l : list (bytes * bytes)) (m : gmap bytes bytes) :
  NoDup l.*1 -> foldl (fun m kv => <[kv.1 := kv.2]> m) m l = list_to_map l ∪ m.
Proof.
  revert m. induction l as [|[k v] l IH]; intros m Hnd; cbn [foldl fst snd].
  - simpl. by rewrite (left_id_L ∅ (∪)).
  - inversion Hnd as [|? ? Hk Hl]; subst. rewrite IH by done. simpl.
    rewrite <-insert_union_r by (by apply not_elem_of_list_to_map). by rewrite insert_union_l.
Qed.

Lemma SwampMetadata_roundtrip m rest :
  metadata_wf m -> SwampMetadata_Deserialize (SwampMetadata_Serialize m ++ rest) = Ok m.
Proof.
  intros Hwf. rewrite SwampMetadata_layout by done.
  pose proof (pairs_short m Hwf) as Hp. destruct Hwf as [Hn Hc Hs _].
  set (l := map_range _) in *.
  set (cr := le_put 8 _). set (ct := le_put 2 _).
  assert (length cr = 8%nat) as Hcr by apply length_le_put.
  assert (length ct = 2%nat) as Hct by apply length_le_put.
  set (buf := (string_bytes (SwampName m) ++ cr ++ ct ++ concat (map pair_bytes l)) ++ rest).
  set (pairs := concat (map pair_bytes l) ++ rest).
  assert (buf = string_bytes (SwampName m) ++ cr ++ ct ++ pairs) as Hbuf
    by (unfold buf, pairs; by rewrite <-!app_assoc).
  assert (length buf = 2 + length (SwampName m) + 8 + 2 + length pairs)%nat as Hlen.
  { rewrite Hbuf, !length_app, length_string_bytes, Hcr, Hct. lia. }
  unfold SwampMetadata_Deserialize. rewrite decide_False by lia. cbn zeta. unfold need.
  destruct (string_read (SwampName m) [] (cr ++ ct ++ pairs) Hn) as (H1 & H2 & H3).
  cbn [length app] in H1, H2, H3. rewrite <-Hbuf in H1, H2, H3.
  change (0 + 2)%nat with 2%nat in *. rewrite H1, decide_False by lia. rewrite H2.
  rewrite decide_False by lia.
  assert (slice (2 + length (SwampName m)) (2 + length (SwampName m) + 8) buf = cr) as ->.
  { rewrite Hbuf, slice_skip by (rewrite length_string_bytes; lia).
    apply slice_here; rewrite length_string_bytes; lia. }
  rewrite decide_False by lia.
  assert (slice (2 + length (SwampName m) + 8) (2 + length (SwampName m) + 8 + 2) buf = ct) as ->.
  { rewrite Hbuf, app_assoc, slice_skip by (rewrite length_app, length_string_bytes; lia).
    apply slice_here; rewrite length_app, length_string_bytes; lia. }
  unfold ct, cr. rewrite le_u16, le_u64 by (unfold in_u16; lia || auto with codec).
  rewrite Nat2Z.id, i64_u64, <-(map_range_size (KeyValuePairs m)) by done. fold l.
  pose proof (read_pairs_layout l (string_bytes (SwampName m) ++ cr ++ ct) rest ∅ Hp) as Hr.
  fold pairs in Hr. rewrite <-!app_assoc, <-Hbuf, !length_app, length_string_bytes, Hcr, Hct in Hr.
  replace (2 + length (SwampName m) + 8 + 2)%nat
    with (2 + length (SwampName m) + (8 + 2))%nat by lia.
  rewrite Hr, foldl_insert_list_to_map by apply map_range_NoDup.
  unfold l. rewrite map_range_list_to_map, (right_id_L ∅ (∪)). by destruct m.
Qed.
End Metadata.
