(* ===== verification/Compressor.v ===== *)
(** The compressor dispatch: [app/core/compressor/compressor.go].

    The four codecs are packages the repository only calls; they are the fields
    of the class [Codecs].  [CodecsOk] states what the block format relies on of
    snappy's documented behaviour: decoding inverts encoding for inputs a snappy
    block can describe, an encoded block is never empty (it starts with the varint
    length of the input), and it obeys [snappy.MaxEncodedLen]. *)
From S2P Require Import Prelude.

Class Codecs := {
  gzip_write : bytes -> option bytes;   (** gzip.NewWriter, Write, Close *)
  gzip_read : bytes -> option bytes;    (** gzip.NewReader, io.ReadAll *)
  lz4_write : bytes -> option bytes;
  lz4_read : bytes -> option bytes;
  snappy_encode : bytes -> bytes;
  snappy_decode : bytes -> option bytes;
  zstd_encode : bytes -> option bytes;  (** zstd.NewWriter, EncodeAll *)
  zstd_decode : bytes -> option bytes   (** zstd.NewReader, DecodeAll *)
}.

Class CodecsOk `{Codecs} : Prop := {
  snappy_roundtrip x :
    Z.of_nat (length x) < 2 ^ 32 -> snappy_decode (snappy_encode x) = Some x;
  snappy_nonempty x : snappy_encode x <> [];
  snappy_max x : (length (snappy_encode x) <= 32 + length x + length x / 6)%nat
}.

Definition Gzip : Z := 1.
Definition LZ4 : Z := 2.
Definition Snappy : Z := 3.
Definition Zstd : Z := 4.

Section Compressor.
Context `{HC : Codecs}.

Definition or_error (e : err) (r : option bytes) : result bytes :=
  match r with Some x => Ok x | None => Err e end.

Definition compressGzip (uncompressed : bytes) : result bytes :=
  or_error ErrCompress (gzip_write uncompressed).

(** The error of [gzip.NewReader] and of [io.ReadAll] is bound to [e1] and [e2],
    but the function returns the outer [err], which is nil. *)
Definition decompressGzip (compressed : bytes) : result bytes :=
  match gzip_read compressed with
  | Some output => Ok output
  | None => Ok []
  end.

Definition compressLZ4 (uncompressed : bytes) : result bytes :=
  or_error ErrCompress (lz4_write uncompressed).
Definition decompressLZ4 (compressed : bytes) : result bytes :=
  or_error ErrDecompress (lz4_read compressed).

Definition compressSnappy (uncompressed : bytes) : result bytes :=
  Ok (snappy_encode uncompressed).
Definition decompressSnappy (compressed : bytes) : result bytes :=
  or_error ErrDecompress (snappy_decode compressed).

Definition compressZstd (uncompressed : bytes) : result bytes :=
  or_error ErrCompress (zstd_encode uncompressed).
Definition decompressZstd (compressed : bytes) : result bytes :=
  or_error ErrDecompress (zstd_decode compressed).

Definition Compress (compressorType : Z) (uncompressed : bytes) : result bytes :=
  if decide (compressorType = Gzip) then compressGzip uncompressed else
  if decide (compressorType = LZ4) then compressLZ4 uncompressed else
  if decide (compressorType = Snappy) then compressSnappy uncompressed else
  if decide (compressorType = Zstd) then compressZstd uncompressed else
  Err ErrUnknownCompressor.

Definition Decompress (compressorType : Z) (compressed : bytes) : result bytes :=
  if decide (compressorType = Gzip) then decompressGzip compressed else
  if decide (compressorType = LZ4) then decompressLZ4 compressed else
  if decide (compressorType = Snappy) then decompressSnappy compressed else
  if decide (compressorType = Zstd) then decompressZstd compressed else
  Err ErrUnknownCompressor.

Lemma Compress_Snappy u : Compress Snappy u = Ok (snappy_encode u).
Proof. done. Qed.
Lemma Decompress_Snappy c : Decompress Snappy c = or_error ErrDecompress (snappy_decode c).
Proof. done. Qed.

End Compressor.

(** A concrete codec that satisfies the laws: a one-byte tag before the data. *)
Definition stored_encode (x : bytes) : bytes := x00 :: x.
Definition stored_decode (c : bytes) : option bytes :=
  match c with [] => None | _ :: x => Some x end.

Module Stored.
#[local] Instance stored_codecs : Codecs := {|
  gzip_write x := Some (stored_encode x);
  gzip_read := stored_decode;
  lz4_write x := Some (stored_encode x);
  lz4_read := stored_decode;
  snappy_encode := stored_encode;
  snappy_decode := stored_decode;
  zstd_encode x := Some (stored_encode x);
  zstd_decode := stored_decode
|}.

Lemma stored_codecs_ok : CodecsOk.
Proof.
  constructor; [done|done|]. intros x. simpl. lia.
Qed.
End Stored.
