(* ===== verification/Block.v ===== *)
(** Blocks and the write buffer: [chronicler/v2/block.go].

    The mutex of [WriteBuffer] makes each of its methods one atomic step; a method
    is therefore a function of the buffer.  Compression goes through the package's
    shared [snappyCompressor]. *)
From S2P Require Import Prelude Crc32 Types Compressor.

Section Block.
Context `{HC : Codecs}.

Definition snappyCompress : bytes -> result bytes := Compress Snappy.
Definition snappyDecompress : bytes -> result bytes := Decompress Snappy.

(** ** Write buffer *)

Record WriteBuffer := {
  entries : list Entry;
  currentSize : Z;
  maxSize : Z
}.

Definition NewWriteBuffer (max : Z) : WriteBuffer :=
  let max := if decide (max <= 0) then DefaultMaxBlockSize else max in
  {| entries := []; currentSize := 0; maxSize := max |}.

Definition ShouldFlush (wb : WriteBuffer) : bool := bool_decide (maxSize wb <= currentSize wb).

Definition Add (entry : Entry) (wb : WriteBuffer) : WriteBuffer * bool :=
  let wb := {| entries := entries wb ++ [entry];
               currentSize := currentSize wb + Z.of_nat (Entry_Size entry);
               maxSize := maxSize wb |} in
  (wb, bool_decide (maxSize wb <= currentSize wb)).

Definition IsEmpty (wb : WriteBuffer) : bool := bool_decide (entries wb = []).
Definition Size (wb : WriteBuffer) : Z := currentSize wb.
Definition Count (wb : WriteBuffer) : nat := length (entries wb).

Definition serializeEntries (es : list Entry) : bytes :=
  foldl (fun buf e => buf ++ Entry_Serialize e) [] es.

Definition cleared (wb : WriteBuffer) : WriteBuffer :=
  {| entries := []; currentSize := 0; maxSize := maxSize wb |}.

Definition block_header (count : nat) (uncompressed compressed : bytes) : BlockHeader :=
  {| CompressedSize := u32 (Z.of_nat (length compressed));
     UncompressedSize := u32 (Z.of_nat (length uncompressed));
     BEntryCount := u16 (Z.of_nat count);
     Checksum := CalculateChecksum compressed;
     BFlags := 0 |}.

(** [None] is the nil header of an empty buffer. *)
Definition Flush : M WriteBuffer (option (BlockHeader * bytes)) := fun wb =>
  if decide (length (entries wb) = O) then (wb, Ok None) else
  let uncompressed := serializeEntries (entries wb) in
  match snappyCompress uncompressed with
  | Err e => (wb, Err e)
  | Ok compressed =>
      let header := block_header (length (entries wb)) uncompressed compressed in
      (cleared wb, Ok (Some (header, compressed)))
  end.

Definition GetEntriesAndClear (wb : WriteBuffer) : WriteBuffer * list Entry :=
  (cleared wb, entries wb).

(** ** Parsing *)

Record Block_ := {
  BHeader : BlockHeader;
  BEntries : list Entry;
  BOffset : Z
}.

(** The loop of [ParseBlock]: [n] more entries from [offset] on. *)
Fixpoint parse_entries (n offset : nat) (uncompressed : bytes) : result (list Entry) :=
  match n with
  | O => Ok []
  | S n =>
      rbind (Entry_Deserialize (drop offset uncompressed)) (fun '(consumed, entry) =>
      rbind (parse_entries n (offset + consumed) uncompressed) (fun es =>
      Ok (entry :: es)))
  end.

Definition ParseBlock (header : BlockHeader) (compressedData : bytes) : result Block_ :=
  if negb (ValidateChecksum compressedData (Checksum header)) then Err ErrCorruptedBlock else
  rbind (snappyDecompress compressedData) (fun uncompressed =>
  if decide (u32 (Z.of_nat (length uncompressed)) <> UncompressedSize header)
  then Err ErrCorruptedBlock else
  rbind (parse_entries (Z.to_nat (BEntryCount header)) 0 uncompressed) (fun es =>
  Ok {| BHeader := header; BEntries := es; BOffset := 0 |})).

Definition CompressEntries (es : list Entry) : result (option (BlockHeader * bytes)) :=
  if decide (length es = O) then Ok None else
  let uncompressed := serializeEntries es in
  rbind (snappyCompress uncompressed) (fun compressed =>
  Ok (Some (block_header (length es) uncompressed compressed, compressed))).

Definition DecompressBlock (compressedData : bytes) : result bytes :=
  snappyDecompress compressedData.

Definition CompressBlock (data : bytes) : bytes :=
  match snappyCompress data with Ok c => c | Err _ => [] end.

(** ** Sizes *)

Definition total_size (es : list Entry) : nat := sum_list_with Entry_Size es.

Lemma serializeEntries_foldl es buf :
  foldl (fun buf e => buf ++ Entry_Serialize e) buf es = buf ++ serializeEntries es.
Proof.
  unfold serializeEntries. revert buf. induction es as [|e es IH]; intros buf; simpl.
  - by rewrite app_nil_r.
  - by rewrite IH, (IH (Entry_Serialize e)), app_assoc.
Qed.

Lemma serializeEntries_cons e es :
  serializeEntries (e :: es) = Entry_Serialize e ++ serializeEntries es.
Proof. unfold serializeEntries at 1. simpl. by rewrite serializeEntries_foldl. Qed.

Lemma serializeEntries_app es es' :
  serializeEntries (es ++ es') = serializeEntries es ++ serializeEntries es'.
Proof. unfold serializeEntries at 1. by rewrite foldl_app, serializeEntries_foldl. Qed.

Lemma length_serializeEntries es : length (serializeEntries es) = total_size es.
Proof.
  induction es as [|e es IH]; [done|].
  rewrite serializeEntries_cons, length_app, length_Entry, IH. done.
Qed.

Lemma total_size_app es es' : total_size (es ++ es') = (total_size es + total_size es')%nat.
Proof. apply sum_list_with_app. Qed.

(** A well-formed entry takes at least eight bytes. *)
Lemma total_size_count es : Forall entry_wf es -> (8 * length es <= total_size es)%nat.
Proof.
  induction 1 as [|e es (_ & Hk & _) _ IH]; [done|].
  assert (8 <= Entry_Size e)%nat by (unfold Entry_Size; destruct (Key e); simpl; [done|lia]).
  change (total_size (e :: es)) with (Entry_Size e + total_size es)%nat. simpl length. lia.
Qed.

(** ** Parsing inverts serialising *)

Lemma parse_entries_serialized es pre rest :
  Forall entry_wf es ->
  parse_entries (length es) (length pre) (pre ++ serializeEntries es ++ rest) = Ok es.
Proof.
  intros Hes. revert pre. induction Hes as [|e es He _ IH]; intros pre; [done|].
  cbn [length parse_entries].
  rewrite drop_app_length, serializeEntries_cons, <-app_assoc.
  rewrite Entry_roundtrip by done. cbn [rbind].
  rewrite (app_assoc pre), <-length_Entry, <-length_app, IH. done.
Qed.

Lemma parse_entries_take n es :
  Forall entry_wf es -> (n <= length es)%nat ->
  parse_entries n 0 (serializeEntries es) = Ok (take n es).
Proof.
  intros Hes Hn. rewrite <-(take_drop n es) at 1. rewrite serializeEntries_app.
  pose proof (parse_entries_serialized (take n es) [] (serializeEntries (drop n es))) as H0.
  rewrite length_take_le in H0 by done. apply H0. by apply Forall_take.
Qed.

(** A parsed block holds as many entries as the header's 16-bit count says. *)
Lemma ParseBlock_compressed `{!CodecsOk} es :
  Forall entry_wf es -> Z.of_nat (total_size es) < 2 ^ 32 ->
  let c := snappy_encode (serializeEntries es) in
  let h := block_header (length es) (serializeEntries es) c in
  ParseBlock h c =
    Ok {| BHeader := h;
          BEntries := take (Z.to_nat (u16 (Z.of_nat (length es)))) es;
          BOffset := 0 |}.
Proof.
  intros Hes Hsz c h. unfold ParseBlock, ValidateChecksum. subst c h. cbn [Checksum block_header].
  rewrite bool_decide_true by done. cbn [negb].
  unfold snappyDecompress. rewrite Decompress_Snappy, snappy_roundtrip by (by rewrite length_serializeEntries). cbn [or_error rbind].
  cbn [UncompressedSize BEntryCount block_header].
  rewrite decide_False by (intros Hn; by apply Hn).
  rewrite parse_entries_take; [done|done|].
  unfold u16. pose proof (Z.mod_le (Z.of_nat (length es)) (2 ^ 16)). lia.
Qed.

Lemma take_all_iff {A} (n : nat) (l : list A) : take n l = l <-> (length l <= n)%nat.
Proof.
  split; [|by apply take_ge]. intros H. apply (f_equal length) in H.
  rewrite length_take in H. lia.
Qed.

(** Any damage within four consecutive payload bytes is rejected. *)
Lemma ParseBlock_burst h p w w' s :
  ValidateChecksum (p ++ w ++ s) (Checksum h) = true ->
  length w = length w' -> (length w <= 4)%nat -> w <> w' ->
  ParseBlock h (p ++ w' ++ s) = Err ErrCorruptedBlock.
Proof.
  intros Hok Hl H4 Hne. apply bool_decide_eq_true in Hok.
  unfold ParseBlock, ValidateChecksum. rewrite bool_decide_false; [done|].
  rewrite <-Hok. unfold CalculateChecksum. intros Heq. symmetry in Heq.
  by apply checksum_burst in Heq.
Qed.

(** ** The buffer under the writer's discipline *)

(** Between two calls of the writer the buffer is below its limit, and its size
    counter is the size of what it holds. *)
Record buffer_ok (wb : WriteBuffer) : Prop := {
  bo_size : currentSize wb = Z.of_nat (total_size (entries wb));
  bo_below : currentSize wb < maxSize wb;
  bo_wf : Forall entry_wf (entries wb)
}.

(** The largest block size for which the 16-bit entry count cannot overflow. *)
Definition safe_block_size (m : Z) : Prop := 0 < m <= 8 * 65535.

Lemma buffer_count_bound wb :
  buffer_ok wb -> safe_block_size (maxSize wb) -> Z.of_nat (length (entries wb)) < 65535.
Proof.
  intros [Hs Hb Hw] [_ Hm]. apply total_size_count in Hw. lia.
Qed.

Lemma cleared_ok wb : 0 < maxSize wb -> buffer_ok (cleared wb).
Proof. intros. constructor; simpl; [done|lia|done]. Qed.

Lemma NewWriteBuffer_ok m : buffer_ok (NewWriteBuffer m).
Proof.
  constructor; simpl; [done| |done]. unfold DefaultMaxBlockSize. case_decide; lia.
Qed.
End Block.
