(* ===== verification/FileSys.v ===== *)
(** The operating system as the storage package sees it.

    A [world] maps paths to file contents, and carries the schedule of failures
    the environment will inject: every system call consumes the next item of
    [faults], and an item [Some k] makes it fail, a write after having transferred
    its first [k] bytes.  An exhausted schedule means no further failure, so a
    statement about every schedule covers every crash point: a crash is a schedule
    whose remaining calls all fail.

    A [File] is an open descriptor: the name it was opened under, its offset, and
    whether it is still open.  Writing through the descriptor of a file that has
    been unlinked succeeds and changes no path.  A path is not opened again for
    writing while a descriptor of a removed or replaced file of the same name is
    still in use anywhere in the modelled code. *)
From S2P Require Import Prelude.

Record world := {
  files : gmap bytes bytes;
  faults : list (option nat);
  clock : Z
}.

Definition set_files (m : gmap bytes bytes) (w : world) : world :=
  {| files := m; faults := faults w; clock := clock w |}.
Definition set_faults (l : list (option nat)) (w : world) : world :=
  {| files := files w; faults := l; clock := clock w |}.

Record File := {
  f_name : bytes;
  f_pos : nat;
  f_open : bool
}.
Definition set_pos (n : nat) (f : File) : File :=
  {| f_name := f_name f; f_pos := n; f_open := f_open f |}.
Definition set_closed (f : File) : File :=
  {| f_name := f_name f; f_pos := f_pos f; f_open := false |}.

(** An object that owns a descriptor, as [FileWriter] and [FileReader] do. *)
Class HasFile (X : Type) := {
  get_file : X -> File;
  set_file : File -> X -> X;
  get_set_file f x : get_file (set_file f x) = f;
  set_set_file f g x : set_file f (set_file g x) = set_file f x;
  set_get_file x : set_file (get_file x) x = x
}.

#[export] Program Instance file_has_file : HasFile File :=
  {| get_file f := f; set_file f _ := f |}.
Solve All Obligations with done.

(** Run [ok], or [bad k] when the schedule says so. *)
Definition syscall {S A} (fs : S -> list (option nat)) (upd : list (option nat) -> S -> S)
    (ok : M S A) (bad : nat -> M S A) : M S A :=
  fun s => match fs s with
           | [] => ok s
           | None :: l => ok (upd l s)
           | Some k :: l => bad k (upd l s)
           end.

Definition os_call {A} (ok : M world A) : M world A :=
  syscall faults set_faults ok (fun _ => fail ErrIO).

Definition os_Stat (p : bytes) : M world Z :=
  os_call (fun w => match files w !! p with
                    | Some c => (w, Ok (Z.of_nat (length c)))
                    | None => (w, Err ErrNotExist)
                    end).

Definition os_Create (p : bytes) : M world File :=
  os_call (fun w => (set_files (<[p := []]> (files w)) w,
                     Ok {| f_name := p; f_pos := 0; f_open := true |})).

(** [os.Open] and [os.OpenFile] without [O_CREATE]. *)
Definition os_Open (p : bytes) : M world File :=
  os_call (fun w => match files w !! p with
                    | Some _ => (w, Ok {| f_name := p; f_pos := 0; f_open := true |})
                    | None => (w, Err ErrNotExist)
                    end).

Definition os_Remove (p : bytes) : M world unit :=
  os_call (fun w => match files w !! p with
                    | Some _ => (set_files (delete p (files w)) w, Ok tt)
                    | None => (w, Err ErrNotExist)
                    end).

Definition os_Rename (a b : bytes) : M world unit :=
  os_call (fun w => match files w !! a with
                    | Some c => (set_files (<[b := c]> (delete a (files w))) w, Ok tt)
                    | None => (w, Err ErrNotExist)
                    end).

(** Overwrite [c] from offset [pos], zero-filling a gap after its end. *)
Definition write_at (pos : nat) (data c : bytes) : bytes :=
  take pos (c ++ make_bytes (pos - length c)) ++ data ++ drop (pos + length data) c.

Section FileOps.
Context {X : Type} `{!HasFile X}.

Definition on_file (f : File -> File) (s : world * X) : world * X :=
  (s.1, set_file (f (get_file s.2)) s.2).

Definition file_call {A} (ok : M (world * X) A) (bad : nat -> M (world * X) A)
  : M (world * X) A :=
  fun s => if f_open (get_file s.2)
           then syscall (fun s => faults s.1) (fun l s => (set_faults l s.1, s.2)) ok bad s
           else (s, Err ErrClosedFd).

Definition write_bytes (data : bytes) (s : world * X) : world * X :=
  let f := get_file s.2 in
  let w' := match files s.1 !! f_name f with
            | Some c => set_files (<[f_name f := write_at (f_pos f) data c]> (files s.1)) s.1
            | None => s.1
            end in
  (w', set_file (set_pos (f_pos f + length data) f) s.2).

Definition file_Write (data : bytes) : M (world * X) unit :=
  file_call (modify (write_bytes data))
            (fun k => modify (write_bytes (take k data)) ;;; fail ErrIO).

Definition rest_of (s : world * X) : bytes :=
  drop (f_pos (get_file s.2)) (default [] (files s.1 !! f_name (get_file s.2))).

Definition advance (n : nat) : world * X -> world * X :=
  on_file (fun f => set_pos (f_pos f + n) f).

(** One [Read] into a buffer of [n] bytes of a regular file: as much as there is,
    [io.EOF] at the end. *)
Definition file_Read (n : nat) : M (world * X) bytes :=
  file_call
    (fun s => let got := take n (rest_of s) in
              if decide (got = [] /\ n <> O) then (s, Err EOF)
              else (advance (length got) s, Ok got))
    (fun _ => fail ErrIO).

Definition io_ReadFull (n : nat) : M (world * X) bytes :=
  file_call
    (fun s => let got := take n (rest_of s) in
              if decide (length got = n) then (advance n s, Ok got)
              else if decide (got = []) then (s, Err EOF)
              else (advance (length got) s, Err ErrUnexpectedEOF))
    (fun _ => fail ErrIO).

Definition file_SeekStart (off : nat) : M (world * X) unit :=
  file_call (modify (on_file (set_pos off))) (fun _ => fail ErrIO).

(** [Seek(d, io.SeekCurrent)]: the new offset. *)
Definition file_SeekCurrent (d : nat) : M (world * X) nat :=
  file_call (modify (on_file (fun f => set_pos (f_pos f + d) f)) ;;;
             gets (fun s => f_pos (get_file s.2)))
            (fun _ => fail ErrIO).

Definition file_SeekEnd : M (world * X) unit :=
  file_call
    (modify (fun s => on_file
      (set_pos (length (default [] (files s.1 !! f_name (get_file s.2))))) s))
    (fun _ => fail ErrIO).

Definition file_Sync : M (world * X) unit :=
  file_call (ret tt) (fun _ => fail ErrIO).

Definition file_Close : M (world * X) unit :=
  file_call (modify (on_file set_closed)) (fun _ => modify (on_file set_closed) ;;; fail ErrIO).
End FileOps.

(** Run a method of an object on its own state; on an error the object is gone. *)
Definition with_local {X A} (x : X) (m : M (world * X) A) : M world (X * A) :=
  fun w => match m (w, x) with
           | ((w', x'), Ok a) => (w', Ok (x', a))
           | ((w', _), Err e) => (w', Err e)
           end.

Lemma with_local_run {X A} (x x' : X) (m : M (world * X) A) w w' a :
  m (w, x) = ((w', x'), Ok a) -> with_local x m w = (w', Ok (x', a)).
Proof. unfold with_local. by intros ->. Qed.

(** A call to the operating system from a method. *)
Definition on_world {X A} (m : M world A) : M (world * X) A :=
  fun s => let (w', r) := m s.1 in ((w', s.2), r).

(** ** Replacing one file *)

Definition put (p c : bytes) (w : world) : world := set_files (<[p := c]> (files w)) w.

Lemma put_put p c c' w : put p c (put p c' w) = put p c w.
Proof. unfold put, set_files; simpl. by rewrite insert_insert_eq. Qed.
Lemma files_put p c w : files (put p c w) !! p = Some c.
Proof. apply lookup_insert_eq. Qed.
Lemma files_put_ne p q c w : p <> q -> files (put p c w) !! q = files w !! q.
Proof. apply lookup_insert_ne. Qed.
Lemma faults_put p c w : faults (put p c w) = faults w.
Proof. done. Qed.
Lemma clock_put p c w : clock (put p c w) = clock w.
Proof. done. Qed.
Lemma put_same p c w : files w !! p = Some c -> put p c w = w.
Proof. intros H. unfold put, set_files. rewrite insert_id by done. by destruct w. Qed.

Lemma write_at_end c data : write_at (length c) data c = c ++ data.
Proof.
  unfold write_at. replace (length c - length c)%nat with O by lia.
  unfold make_bytes; simpl. rewrite app_nil_r, firstn_all, drop_ge by lia.
  by rewrite app_nil_r.
Qed.

Lemma write_at_start c data :
  write_at 0 data c = data ++ drop (length data) c.
Proof. done. Qed.

(** ** Behaviour without failures *)

Section NoFault.
Context {X : Type} `{!HasFile X}.

Lemma on_world_ok {A} (m : M world A) w w' (x : X) a :
  m w = (w', Ok a) -> on_world m (w, x) = ((w', x), Ok a).
Proof. unfold on_world. simpl. by intros ->. Qed.

Lemma file_call_ok {A} (ok : M (world * X) A) bad w x :
  faults w = [] -> f_open (get_file x) = true -> file_call ok bad (w, x) = ok (w, x).
Proof. intros Hf Ho. unfold file_call, syscall. simpl. by rewrite Ho, Hf. Qed.

Lemma file_Write_ok data w x c :
  faults w = [] -> f_open (get_file x) = true ->
  files w !! f_name (get_file x) = Some c ->
  file_Write data (w, x) =
    ((put (f_name (get_file x)) (write_at (f_pos (get_file x)) data c) w,
      set_file (set_pos (f_pos (get_file x) + length data) (get_file x)) x), Ok tt).
Proof.
  intros Hf Ho Hc. unfold file_Write. rewrite file_call_ok by done.
  unfold modify, write_bytes. simpl. by rewrite Hc.
Qed.

Lemma file_SeekStart_ok off w x :
  faults w = [] -> f_open (get_file x) = true ->
  file_SeekStart off (w, x) = ((w, set_file (set_pos off (get_file x)) x), Ok tt).
Proof. intros. unfold file_SeekStart. by rewrite file_call_ok. Qed.

Lemma file_SeekCurrent_ok d w x :
  faults w = [] -> f_open (get_file x) = true ->
  file_SeekCurrent d (w, x) =
    ((w, set_file (set_pos (f_pos (get_file x) + d) (get_file x)) x),
     Ok (f_pos (get_file x) + d)%nat).
Proof.
  intros. unfold file_SeekCurrent. rewrite file_call_ok by done.
  unfold bind, modify, gets, on_file. simpl. by rewrite get_set_file.
Qed.

Lemma file_SeekEnd_ok w x c :
  faults w = [] -> f_open (get_file x) = true ->
  files w !! f_name (get_file x) = Some c ->
  file_SeekEnd (w, x) = ((w, set_file (set_pos (length c) (get_file x)) x), Ok tt).
Proof.
  intros Hf Ho Hc. unfold file_SeekEnd. rewrite file_call_ok by done.
  unfold modify, on_file. simpl. by rewrite Hc.
Qed.

Lemma file_Sync_ok w x :
  faults w = [] -> f_open (get_file x) = true -> file_Sync (w, x) = ((w, x), Ok tt).
Proof. intros. unfold file_Sync. by rewrite file_call_ok. Qed.

Lemma file_Close_ok w x :
  faults w = [] -> f_open (get_file x) = true ->
  file_Close (w, x) = ((w, set_file (set_closed (get_file x)) x), Ok tt).
Proof. intros. unfold file_Close. by rewrite file_call_ok. Qed.

Lemma rest_of_eq w x c :
  files w !! f_name (get_file x) = Some c ->
  rest_of (w, x) = drop (f_pos (get_file x)) c.
Proof. intros H. unfold rest_of. simpl. by rewrite H. Qed.

Lemma io_ReadFull_ok n w x c :
  faults w = [] -> f_open (get_file x) = true ->
  files w !! f_name (get_file x) = Some c ->
  (f_pos (get_file x) + n <= length c)%nat ->
  io_ReadFull n (w, x) =
    ((w, set_file (set_pos (f_pos (get_file x) + n) (get_file x)) x),
     Ok (take n (drop (f_pos (get_file x)) c))).
Proof.
  intros Hf Ho Hc Hn. unfold io_ReadFull. rewrite file_call_ok by done.
  rewrite (rest_of_eq _ _ _ Hc). cbn zeta.
  rewrite decide_True by (rewrite length_take, length_drop; lia). done.
Qed.

(** What [io.ReadFull] answers near the end of the file. *)
Lemma io_ReadFull_eof n w x c :
  faults w = [] -> f_open (get_file x) = true ->
  files w !! f_name (get_file x) = Some c ->
  drop (f_pos (get_file x)) c = [] -> n <> O ->
  io_ReadFull n (w, x) = ((w, x), Err EOF).
Proof.
  intros Hf Ho Hc Hd Hn. unfold io_ReadFull. rewrite file_call_ok by done.
  rewrite (rest_of_eq _ _ _ Hc), Hd. cbn zeta. rewrite take_nil.
  rewrite decide_False by (simpl; lia). by rewrite decide_True.
Qed.

Lemma io_ReadFull_short n w x c :
  faults w = [] -> f_open (get_file x) = true ->
  files w !! f_name (get_file x) = Some c ->
  drop (f_pos (get_file x)) c <> [] ->
  (length c < f_pos (get_file x) + n)%nat ->
  exists x', io_ReadFull n (w, x) = ((w, x'), Err ErrUnexpectedEOF).
Proof.
  intros Hf Ho Hc Hd Hn. unfold io_ReadFull. rewrite file_call_ok by done.
  rewrite (rest_of_eq _ _ _ Hc). cbn zeta.
  assert (0 < length (drop (f_pos (get_file x)) c))%nat as Hpos
    by (destruct (drop _ _); [done|simpl; lia]).
  rewrite length_drop in Hpos.
  rewrite take_ge by (rewrite length_drop; lia).
  rewrite decide_False by (rewrite length_drop; lia).
  rewrite decide_False by done. eexists. unfold advance, on_file. done.
Qed.

Lemma file_Read_ok n w x c :
  faults w = [] -> f_open (get_file x) = true ->
  files w !! f_name (get_file x) = Some c -> n <> O ->
  drop (f_pos (get_file x)) c <> [] ->
  let got := take n (drop (f_pos (get_file x)) c) in
  file_Read n (w, x) =
    ((w, set_file (set_pos (f_pos (get_file x) + length got) (get_file x)) x), Ok got).
Proof.
  intros Hf Ho Hc Hn Hd got. unfold file_Read. rewrite file_call_ok by done.
  rewrite (rest_of_eq _ _ _ Hc). cbn zeta. fold got.
  rewrite decide_False; [done|]. intros [Hg _]. unfold got in Hg.
  destruct (drop _ _), n; simpl in *; done.
Qed.

Lemma file_Read_eof n w x c :
  faults w = [] -> f_open (get_file x) = true ->
  files w !! f_name (get_file x) = Some c -> n <> O ->
  drop (f_pos (get_file x)) c = [] ->
  file_Read n (w, x) = ((w, x), Err EOF).
Proof.
  intros Hf Ho Hc Hn Hd. unfold file_Read. rewrite file_call_ok by done.
  rewrite (rest_of_eq _ _ _ Hc), Hd. cbn zeta. rewrite take_nil.
  by rewrite decide_True.
Qed.
End NoFault.

Lemma os_call_ok {A} (m : M world A) w : faults w = [] -> os_call m w = m w.
Proof. intros Hf. unfold os_call, syscall. by rewrite Hf. Qed.

Lemma os_Create_name p w w' f : os_Create p w = (w', Ok f) -> f_name f = p.
Proof. unfold os_Create, os_call, syscall. destruct (faults w) as [|[]]; by intros [= _ <-]. Qed.
Lemma os_Open_name p w w' f : os_Open p w = (w', Ok f) -> f_name f = p.
Proof.
  unfold os_Open, os_call, syscall. destruct (faults w) as [|[]]; simpl; try done;
    destruct (files w !! p); by intros [= _ <-].
Qed.

(** ** Frames: what a method leaves alone, whatever fails *)

(** Path [q] keeps its content. *)
Definition same_at (q : bytes) : relation world := fun w w' => files w' !! q = files w !! q.

(** A method of an object whose descriptor is not [q]'s leaves [q] alone, and stays
    on the same descriptor name. *)
Definition keeps {X} `{!HasFile X} (q : bytes) : relation (world * X) := fun s s' =>
  f_name (get_file s'.2) = f_name (get_file s.2) /\
  (f_name (get_file s.2) <> q -> same_at q s.1 s'.1).

#[export] Instance same_at_preorder q : PreOrder (same_at q).
Proof. split; unfold same_at; [done|]. intros w1 w2 w3 H1 H2. congruence. Qed.

#[export] Instance keeps_preorder {X} `{!HasFile X} q : PreOrder (keeps (X := X) q).
Proof.
  split; [by intros []|]. intros s1 s2 s3 [Hn1 H1] [Hn2 H2]. split; [congruence|].
  intros Hne. etransitivity; [by apply H1|apply H2; congruence].
Qed.

Lemma syscall_respects {S A} (R : relation S) `{!PreOrder R} fs upd (ok : M S A) bad :
  (forall l s, R s (upd l s)) -> respects R ok -> (forall k, respects R (bad k)) ->
  respects R (syscall fs upd ok bad).
Proof.
  intros Hu Hok Hbad s. unfold syscall.
  destruct (fs s) as [|[k|] l]; [apply Hok| |]; etransitivity; try apply Hu.
  - apply Hbad.
  - apply Hok.
Qed.

Lemma os_call_respects {A} q (m : M world A) :
  respects (same_at q) m -> respects (same_at q) (os_call m).
Proof. intros Hm. apply syscall_respects; [apply _|done|done|]. intros k s. done. Qed.

Section Keeps.
Context {X : Type} `{!HasFile X} (q : bytes).

Lemma file_call_keeps {A} (ok : M (world * X) A) bad :
  respects (keeps q) ok -> (forall k, respects (keeps q) (bad k)) ->
  respects (keeps q) (file_call ok bad).
Proof.
  intros Hok Hbad s. unfold file_call. destruct (f_open _); [|done].
  apply syscall_respects; [apply _| |done|done]. intros l s'. by split.
Qed.

Lemma on_file_keeps f :
  (forall x, f_name (f x) = f_name x) -> forall s : world * X, keeps q s (on_file f s).
Proof. intros Hf s. split; simpl; [by rewrite get_set_file, Hf|done]. Qed.

Lemma write_bytes_keeps data (s : world * X) : keeps q s (write_bytes data s).
Proof.
  split; simpl; [by rewrite get_set_file|]. intros Hne. unfold same_at.
  destruct (files s.1 !! _); [|done]. by apply files_put_ne.
Qed.

Lemma file_Write_keeps data : respects (keeps (X := X) q) (file_Write data).
Proof.
  apply file_call_keeps; [|intros k; apply respects_bind; [apply _| |]].
  all: try (apply respects_modify; intros; apply write_bytes_keeps).
  intros _. apply respects_fail, _.
Qed.

Lemma file_Seek_keeps off : respects (keeps (X := X) q) (file_SeekStart off).
Proof.
  apply file_call_keeps; [|intros; apply respects_fail, _].
  apply respects_modify. by apply on_file_keeps.
Qed.

Lemma file_SeekCurrent_keeps d : respects (keeps (X := X) q) (file_SeekCurrent d).
Proof.
  apply file_call_keeps; [|intros; apply respects_fail, _].
  apply respects_bind; [apply _| |intros; apply respects_gets, _].
  apply respects_modify. by apply on_file_keeps.
Qed.

Lemma file_SeekEnd_keeps : respects (keeps (X := X) q) file_SeekEnd.
Proof.
  apply file_call_keeps; [|intros; apply respects_fail, _].
  apply respects_modify. intros s. by apply on_file_keeps.
Qed.

Lemma file_Sync_keeps : respects (keeps (X := X) q) file_Sync.
Proof. apply file_call_keeps; intros; [apply respects_ret|apply respects_fail]; apply _. Qed.

Lemma file_Close_keeps : respects (keeps (X := X) q) file_Close.
Proof.
  apply file_call_keeps; [|intros; apply respects_bind; [apply _| |]].
  all: try (apply respects_modify; by apply on_file_keeps).
  intros. apply respects_fail, _.
Qed.

Lemma io_ReadFull_keeps n : respects (keeps (X := X) q) (io_ReadFull n).
Proof.
  apply file_call_keeps; [|intros; apply respects_fail, _].
  intros s. cbn zeta. repeat case_decide; simpl; try done; by apply on_file_keeps.
Qed.
End Keeps.

#[export] Hint Resolve file_Write_keeps file_Seek_keeps file_SeekCurrent_keeps
  file_SeekEnd_keeps file_Sync_keeps file_Close_keeps io_ReadFull_keeps : frame.

(** ** Read-only methods *)

Definition readonly {X} : relation (world * X) := fun s s' =>
  files s.1 = files s'.1 /\ clock s.1 = clock s'.1.
Definition readonly_w : relation world := fun w w' => files w = files w' /\ clock w = clock w'.

#[export] Instance readonly_preorder {X} : PreOrder (@readonly X).
Proof. split; [done|]. intros s1 s2 s3 [] []. split; congruence. Qed.
#[export] Instance readonly_w_preorder : PreOrder readonly_w.
Proof. split; [done|]. intros s1 s2 s3 [] []. split; congruence. Qed.

Section Readonly.
Context {X : Type} `{!HasFile X}.

Lemma file_call_readonly {A} (ok : M (world * X) A) bad :
  respects readonly ok -> (forall k, respects readonly (bad k)) ->
  respects readonly (file_call ok bad).
Proof.
  intros Hok Hbad s. unfold file_call. destruct (f_open _); [|done].
  by apply syscall_respects; [apply _| | |].
Qed.

Lemma io_ReadFull_readonly n : respects (readonly (X := X)) (io_ReadFull n).
Proof.
  apply file_call_readonly; [|intros; apply respects_fail, _].
  intros s. cbn zeta. by repeat case_decide.
Qed.
Lemma file_Read_readonly n : respects (readonly (X := X)) (file_Read n).
Proof.
  apply file_call_readonly; [|intros; apply respects_fail, _].
  intros s. cbn zeta. by repeat case_decide.
Qed.
Lemma file_SeekStart_readonly n : respects (readonly (X := X)) (file_SeekStart n).
Proof. by apply file_call_readonly. Qed.
Lemma file_SeekCurrent_readonly n : respects (readonly (X := X)) (file_SeekCurrent n).
Proof. by apply file_call_readonly. Qed.
Lemma file_Close_readonly : respects (readonly (X := X)) file_Close.
Proof. by apply file_call_readonly. Qed.
End Readonly.

Lemma os_Stat_readonly p : respects readonly_w (os_Stat p).
Proof. apply syscall_respects; try done; [apply _|]. intros w. by destruct (files w !! p). Qed.
Lemma os_Open_readonly p : respects readonly_w (os_Open p).
Proof. apply syscall_respects; try done; [apply _|]. intros w. by destruct (files w !! p). Qed.

#[export] Hint Resolve io_ReadFull_readonly file_Read_readonly file_SeekStart_readonly
  file_SeekCurrent_readonly file_Close_readonly os_Stat_readonly os_Open_readonly : frame.

(** A reading method only moves the descriptor. *)
Definition moved {X} `{!HasFile X} : relation (world * X) := fun s s' =>
  files s.1 = files s'.1 /\
  exists n, s'.2 = set_file (set_pos n (get_file s.2)) s.2.

#[export] Instance moved_preorder {X} `{!HasFile X} : PreOrder (moved (X := X)).
Proof.
  split.
  - intros [w x]. split; [done|]. exists (f_pos (get_file x)). simpl.
    rewrite <-(set_get_file x) at 1. f_equal. by destruct (get_file x).
  - intros s1 s2 s3 [H1 [n1 E1]] [H2 [n2 E2]]. split; [congruence|].
    exists n2. by rewrite E2, E1, get_set_file, set_set_file.
Qed.

Section Moved.
Context {X : Type} `{!HasFile X}.

Lemma file_call_moved {A} (ok : M (world * X) A) bad :
  respects moved ok -> (forall k, respects moved (bad k)) ->
  respects moved (file_call ok bad).
Proof.
  intros Hok Hbad s. unfold file_call. destruct (f_open _); [|done].
  apply syscall_respects; [apply _| |done|done].
  intros l [w x]. pose proof (reflexivity (R := moved (X := X)) (w, x)) as [_ [n Hn]].
  split; [done|by exists n].
Qed.
Lemma on_file_pos_moved f (s : world * X) :
  (forall x, exists n, f x = set_pos n x) -> moved s (on_file f s).
Proof.
  intros Hf. split; [done|]. destruct (Hf (get_file s.2)) as [n Hn].
  exists n. simpl. by rewrite Hn.
Qed.
Lemma advance_moved n (s : world * X) : moved s (advance n s).
Proof. apply on_file_pos_moved. eauto. Qed.

Lemma io_ReadFull_moved n : respects (moved (X := X)) (io_ReadFull n).
Proof.
  apply file_call_moved; [|intros; apply respects_fail, _].
  intros s. cbn zeta. repeat case_decide; simpl; done || apply advance_moved.
Qed.
Lemma file_Read_moved n : respects (moved (X := X)) (file_Read n).
Proof.
  apply file_call_moved; [|intros; apply respects_fail, _].
  intros s. cbn zeta. repeat case_decide; simpl; done || apply advance_moved.
Qed.
Lemma file_SeekStart_moved n : respects (moved (X := X)) (file_SeekStart n).
Proof.
  apply file_call_moved; [|intros; apply respects_fail, _].
  apply respects_modify. intros. apply on_file_pos_moved. eauto.
Qed.
Lemma file_SeekCurrent_moved n : respects (moved (X := X)) (file_SeekCurrent n).
Proof.
  apply file_call_moved; [|intros; apply respects_fail, _].
  apply respects_bind; [apply _| |intros; apply respects_gets, _].
  apply respects_modify. intros. apply on_file_pos_moved. eauto.
Qed.
End Moved.

#[export] Hint Resolve io_ReadFull_moved file_Read_moved file_SeekStart_moved
  file_SeekCurrent_moved : frame.

(** ** From methods to the world and back *)

Lemma with_local_respects {X A} (R : relation (world * X)) (Rw : relation world) (x : X)
    (m : M (world * X) A) :
  respects R m -> (forall w s', R (w, x) s' -> Rw w s'.1) -> respects Rw (with_local x m).
Proof.
  intros Hm HR w. unfold with_local. specialize (Hm (w, x)).
  destruct (m (w, x)) as [[w' x'] [a|e]]; exact (HR _ _ Hm).
Qed.

Lemma on_world_respects {X A} (R : relation (world * X)) (Rw : relation world)
    (m : M world A) :
  respects Rw m -> (forall w w' x, Rw w w' -> R (w, x) (w', x)) -> respects R (on_world m).
Proof.
  intros Hm HR [w x]. unfold on_world. simpl. specialize (Hm w).
  destruct (m w). simpl in *. auto.
Qed.

Lemma os_Stat_same q p : respects (same_at q) (os_Stat p).
Proof. apply os_call_respects. intros w. by destruct (files w !! p). Qed.
Lemma os_Open_same q p : respects (same_at q) (os_Open p).
Proof. apply os_call_respects. intros w. by destruct (files w !! p). Qed.
Lemma os_Create_same q p : p <> q -> respects (same_at q) (os_Create p).
Proof. intros. apply os_call_respects. intros w. by apply lookup_insert_ne. Qed.
Lemma os_Remove_same q p : p <> q -> respects (same_at q) (os_Remove p).
Proof.
  intros. apply os_call_respects. intros w. destruct (files w !! p); [|done].
  by apply lookup_delete_ne.
Qed.

#[export] Hint Resolve os_Stat_same os_Open_same os_Create_same os_Remove_same : frame.

(** ** Runs that succeed are runs without failures

    A method that propagates every injected failure behaves, when it succeeds, as
    it does in the same world with an empty schedule. *)

Definition clean (w : world) : world := set_faults [] w.
Definition clean2 {X} (s : world * X) : world * X := (clean s.1, s.2).

Definition clean_ok {S A} (cl : S -> S) (m : M S A) : Prop :=
  forall s s' a, m s = (s', Ok a) -> m (cl s) = (cl s', Ok a).

(** The stronger form for methods whose errors the caller inspects: any outcome
    but an injected failure is the outcome without failures. *)
Definition clean_run {S A} (cl : S -> S) (m : M S A) : Prop :=
  forall s s' r, m s = (s', r) -> r <> Err ErrIO -> m (cl s) = (cl s', r).

Create HintDb clean discriminated.

Section Clean.
Context {S : Type} (cl : S -> S).

Lemma clean_run_ok {A} (m : M S A) : clean_run cl m -> clean_ok cl m.
Proof. intros Hm s s' a H. by apply (Hm s s' (Ok a)). Qed.

Lemma clean_ret {A} (a : A) : clean_run cl (ret a).
Proof. by intros s s' r [= <- <-] _. Qed.
Lemma clean_fail {A} e : clean_run cl (fail (A := A) e).
Proof. by intros s s' r [= <- <-] _. Qed.
Lemma clean_liftr {A} (r : result A) : clean_run cl (liftr r).
Proof. by intros s s' r' [= <- <-] _. Qed.
Lemma clean_gets {A} (f : S -> A) : (forall s, f (cl s) = f s) -> clean_run cl (gets f).
Proof. intros Hf s s' r [= <- <-] _. unfold gets. by rewrite Hf. Qed.
Lemma clean_modify f : (forall s, f (cl s) = cl (f s)) -> clean_run cl (modify f).
Proof. intros Hf s s' r [= <- <-] _. unfold modify. by rewrite Hf. Qed.
Lemma clean_bind {A B} (m : M S A) (k : A -> M S B) :
  clean_run cl m -> (forall a, clean_run cl (k a)) -> clean_run cl (bind m k).
Proof.
  intros Hm Hk s s' r. unfold bind. destruct (m s) as [s1 [a|e]] eqn:E; intros H Hr.
  - rewrite (Hm _ _ _ E) by done. by apply Hk.
  - simplify_eq. by rewrite (Hm _ _ _ E) by congruence.
Qed.
Lemma clean_ok_ret {A} (a : A) : clean_ok cl (ret a).
Proof. apply clean_run_ok, clean_ret. Qed.
Lemma clean_ok_fail {A} e : clean_ok cl (fail (A := A) e).
Proof. apply clean_run_ok, clean_fail. Qed.
Lemma clean_ok_bind {A B} (m : M S A) (k : A -> M S B) :
  clean_ok cl m -> (forall a, clean_ok cl (k a)) -> clean_ok cl (bind m k).
Proof.
  intros Hm Hk s s' b. unfold bind. destruct (m s) as [s1 [a|e]] eqn:E; intros H; [|done].
  rewrite (Hm _ _ _ E). by apply Hk.
Qed.
Lemma clean_ok_on_err {A B} (m : M S A) (h : M S B) :
  clean_ok cl m -> clean_ok cl (on_err m h).
Proof.
  intros Hm s s' a. unfold on_err. destruct (m s) as [s1 [b|e]] eqn:E; intros H; [|done].
  simplify_eq. by rewrite (Hm _ _ _ E).
Qed.
End Clean.

Lemma clean_clean w : clean (clean w) = clean w.
Proof. done. Qed.

Lemma os_call_clean {A} (m : M world A) :
  (forall w l, m (set_faults l w) = let (w', r) := m w in (set_faults l w', r)) ->
  clean_run clean (os_call m).
Proof.
  intros Hm w w' r. unfold os_call, syscall. cbn [faults clean set_faults].
  destruct (faults w) as [|[k|] l] eqn:Hf; intros H Hr.
  - unfold clean. by rewrite Hm, H.
  - unfold fail in H. by simplify_eq.
  - unfold clean. rewrite Hm in *. destruct (m w). by simplify_eq.
Qed.

Lemma os_Stat_clean p : clean_run clean (os_Stat p).
Proof. apply os_call_clean. intros w l. cbn. by destruct (files w !! p). Qed.
Lemma os_Create_clean p : clean_run clean (os_Create p).
Proof. apply os_call_clean. done. Qed.
Lemma os_Open_clean p : clean_run clean (os_Open p).
Proof. apply os_call_clean. intros w l. cbn. by destruct (files w !! p). Qed.

Section CleanFile.
Context {X : Type} `{!HasFile X}.

Lemma file_call_clean {A} (ok : M (world * X) A) bad :
  (forall w x l, ok (set_faults l w, x) =
     let '((w', x'), r) := ok (w, x) in ((set_faults l w', x'), r)) ->
  (forall k s, (bad k s).2 = Err ErrIO) ->
  clean_run clean2 (file_call ok bad).
Proof.
  intros Hok Hbad [w x] [w' x'] r. unfold file_call, syscall, clean2. simpl.
  destruct (f_open (get_file x)); [|by intros [= <- <- <-] _].
  destruct (faults w) as [|[k|] l] eqn:Hf; intros H Hr.
  - unfold clean. by rewrite Hok, H.
  - pose proof (Hbad k (set_faults l w, x)) as Hb. rewrite H in Hb. by simpl in Hb.
  - unfold clean. rewrite Hok in *. destruct (ok (w, x)) as [[w1 x1] r1]. by simplify_eq.
Qed.

Lemma file_Write_clean data : clean_run clean2 (file_Write (X := X) data).
Proof.
  apply file_call_clean; [|done]. intros w x l. unfold modify, write_bytes. cbn.
  by destruct (files w !! _).
Qed.
Lemma file_SeekStart_clean n : clean_run clean2 (file_SeekStart (X := X) n).
Proof. by apply file_call_clean. Qed.
Lemma file_SeekCurrent_clean n : clean_run clean2 (file_SeekCurrent (X := X) n).
Proof. by apply file_call_clean. Qed.
Lemma file_SeekEnd_clean : clean_run clean2 (file_SeekEnd (X := X)).
Proof. by apply file_call_clean. Qed.
Lemma file_Sync_clean : clean_run clean2 (file_Sync (X := X)).
Proof. by apply file_call_clean. Qed.
Lemma file_Close_clean : clean_run clean2 (file_Close (X := X)).
Proof. by apply file_call_clean. Qed.
Lemma io_ReadFull_clean n : clean_run clean2 (io_ReadFull (X := X) n).
Proof.
  apply file_call_clean; [|done]. intros w x l. cbn zeta.
  change (rest_of (set_faults l w, x)) with (rest_of (w, x)). by repeat case_decide.
Qed.
Lemma file_Read_clean n : clean_run clean2 (file_Read (X := X) n).
Proof.
  apply file_call_clean; [|done]. intros w x l. cbn zeta.
  change (rest_of (set_faults l w, x)) with (rest_of (w, x)). by repeat case_decide.
Qed.
End CleanFile.

Lemma with_local_clean {X A} (x : X) (m : M (world * X) A) :
  clean_ok clean2 m -> clean_ok clean (with_local x m).
Proof.
  intros Hm w w' [x' a]. unfold with_local.
  destruct (m (w, x)) as [[w1 x1] [b|e]] eqn:E; intros H; simplify_eq.
  apply Hm in E. unfold clean2 in E. simpl in E. by rewrite E.
Qed.

Lemma on_world_clean {X A} (m : M world A) :
  clean_ok clean m -> clean_ok (clean2 (X := X)) (on_world m).
Proof.
  intros Hm [w x] [w' x'] a. unfold on_world, clean2. simpl.
  destruct (m w) as [w1 r] eqn:E. intros H. simplify_eq.
  by rewrite (Hm _ _ _ E).
Qed.

#[export] Hint Resolve clean_run_ok clean_ret clean_fail clean_liftr clean_bind clean_ok_ret
  clean_ok_fail clean_ok_bind clean_ok_on_err os_Stat_clean os_Create_clean os_Open_clean
  file_Write_clean file_SeekStart_clean file_SeekCurrent_clean file_SeekEnd_clean
  file_Sync_clean file_Close_clean io_ReadFull_clean file_Read_clean with_local_clean
  on_world_clean : clean.
