(* ===== verification/Writer.v ===== *)
(** The append-only writer: [chronicler/v2/writer.go].

    A method of [FileWriter] is a computation over the operating system and the
    writer; the writer's mutex makes it one atomic step. *)
From S2P Require Import Prelude Types Compressor Block FileSys.

Record FileWriter := {
  file : File;
  filePath : bytes;
  header : FileHeader;
  buffer : WriteBuffer;
  blockCount : Z;
  entryCount : Z;
  closed : bool;
  swampName : bytes
}.

Definition set_file_ (f : File) (fw : FileWriter) : FileWriter :=
  {| file := f; filePath := filePath fw; header := header fw; buffer := buffer fw;
     blockCount := blockCount fw; entryCount := entryCount fw; closed := closed fw;
     swampName := swampName fw |}.
Definition set_header (h : FileHeader) (fw : FileWriter) : FileWriter :=
  {| file := file fw; filePath := filePath fw; header := h; buffer := buffer fw;
     blockCount := blockCount fw; entryCount := entryCount fw; closed := closed fw;
     swampName := swampName fw |}.
Definition set_buffer (b : WriteBuffer) (fw : FileWriter) : FileWriter :=
  {| file := file fw; filePath := filePath fw; header := header fw; buffer := b;
     blockCount := blockCount fw; entryCount := entryCount fw; closed := closed fw;
     swampName := swampName fw |}.
Definition set_fw_counts (blocks entries : Z) (fw : FileWriter) : FileWriter :=
  {| file := file fw; filePath := filePath fw; header := header fw; buffer := buffer fw;
     blockCount := blocks; entryCount := entries; closed := closed fw;
     swampName := swampName fw |}.
Definition set_fw_closed (fw : FileWriter) : FileWriter :=
  {| file := file fw; filePath := filePath fw; header := header fw; buffer := buffer fw;
     blockCount := blockCount fw; entryCount := entryCount fw; closed := true;
     swampName := swampName fw |}.

#[export] Program Instance writer_has_file : HasFile FileWriter :=
  {| get_file := file; set_file := set_file_ |}.
Solve All Obligations with (intros; try match goal with x : FileWriter |- _ => destruct x end; done).

Section Writer.
Context `{HC : Codecs}.

Abbreviation MW := (M (world * FileWriter)).

(** The receiver, and updates of it. *)
Definition self {A} (f : FileWriter -> A) : MW A := gets (fun s => f s.2).
Definition update (f : FileWriter -> FileWriter) : MW unit := modify (fun s => (s.1, f s.2)).

(** ** Opening *)

Definition createNewFile (path : bytes) (maxBlockSize : Z) (name : bytes) : M world FileWriter :=
  f <-- os_Create path ;;
  now <-- gets clock ;;
  let h := set_NameLength (u16 (Z.of_nat (length name))) (NewFileHeader now) in
  r <-- with_local f
    (on_err (file_Write (FileHeader_Serialize h)) file_Close ;;;
     if decide (0 < length name)%nat
     then on_err (file_Write name) file_Close
     else ret tt) ;;
  ret {| file := r.1; filePath := path; header := h; buffer := NewWriteBuffer maxBlockSize;
         blockCount := 0; entryCount := 0; closed := false; swampName := name |}.

Definition openExistingFile (path : bytes) (maxBlockSize : Z) (name : bytes)
  : M world FileWriter :=
  f <-- os_Open path ;;
  r <-- with_local f
    (headerBuf <-- on_err (io_ReadFull FileHeaderSize) file_Close ;;
     h <-- on_err (liftr (FileHeader_Deserialize headerBuf)) file_Close ;;
     on_err file_SeekEnd file_Close ;;;
     ret h) ;;
  ret {| file := r.1; filePath := path; header := r.2; buffer := NewWriteBuffer maxBlockSize;
         blockCount := BlockCount r.2; entryCount := EntryCount r.2; closed := false;
         swampName := name |}.

Definition NewFileWriterWithName (path : bytes) (maxBlockSize : Z) (name : bytes)
  : M world FileWriter :=
  if decide (path = []) then fail ErrEmptyPath else
  st <-- try (os_Stat path) ;;
  match st with
  | Err ErrNotExist => createNewFile path maxBlockSize name
  | _ => openExistingFile path maxBlockSize name
  end.

Definition NewFileWriter (path : bytes) (maxBlockSize : Z) : M world FileWriter :=
  if decide (path = []) then fail ErrEmptyPath else
  st <-- try (os_Stat path) ;;
  match st with
  | Err ErrNotExist => createNewFile path maxBlockSize []
  | _ => openExistingFile path maxBlockSize []
  end.

(** ** Writing *)

(** A method of the buffer, run on the writer's buffer. *)
Definition on_buffer {A} (m : M WriteBuffer A) : MW A := fun s =>
  let (b, r) := m (buffer s.2) in ((s.1, set_buffer b s.2), r).

Definition write_header : MW unit :=
  h <-- self header ;; file_Write (FileHeader_Serialize h).

Definition header_counts (fw : FileWriter) : FileWriter :=
  set_header (set_counts (entryCount fw) (blockCount fw) (header fw)) fw.

Definition flushLocked : MW unit :=
  r <-- on_buffer Flush ;;
  match r with
  | None => ret tt
  | Some (h, compressed) =>
      file_Write (BlockHeader_Serialize h) ;;;
      file_Write compressed ;;;
      update (fun fw => set_fw_counts (u64 (blockCount fw + 1))
                          (u64 (entryCount fw + BEntryCount h)) fw) ;;;
      update header_counts ;;;
      currentPos <-- file_SeekCurrent 0 ;;
      file_SeekStart 0 ;;;
      write_header ;;;
      file_SeekStart currentPos
  end.

Definition if_open (m : MW unit) : MW unit :=
  c <-- self closed ;; if (c : bool) then fail ErrFileClosed else m.

Definition buffer_Add (entry : Entry) : MW bool :=
  on_buffer (fun b => let (b', flush) := Add entry b in (b', Ok flush)).

Definition WriteEntry (entry : Entry) : MW unit :=
  if_open (
    shouldFlush <-- buffer_Add entry ;;
    if (shouldFlush : bool) then flushLocked else ret tt).

Fixpoint write_entries_loop (es : list Entry) : MW unit :=
  match es with
  | [] => ret tt
  | entry :: es =>
      shouldFlush <-- buffer_Add entry ;;
      (if (shouldFlush : bool) then flushLocked else ret tt) ;;;
      write_entries_loop es
  end.

Definition WriteEntries (es : list Entry) : MW unit := if_open (write_entries_loop es).

Definition Flush_ : MW unit := if_open flushLocked.

Definition Sync : MW unit :=
  if_open (
    flushLocked ;;;
    update header_counts ;;;
    file_SeekStart 0 ;;;
    write_header ;;;
    file_SeekEnd ;;;
    file_Sync).

Definition Close : MW unit :=
  c <-- self closed ;;
  if (c : bool) then ret tt else
  on_err flushLocked file_Close ;;;
  update header_counts ;;;
  on_err (file_SeekStart 0) file_Close ;;;
  on_err write_header file_Close ;;;
  on_err file_Sync file_Close ;;;
  update set_fw_closed ;;;
  file_Close.

Definition GetStats (fw : FileWriter) : Z * Z := (blockCount fw, entryCount fw).
Definition BufferCount (fw : FileWriter) : nat := Count (buffer fw).

(** ** Frames: a writer touches its own path only *)

Section Keeps.
Context (q : bytes).

Lemma update_keeps f : (forall fw, file (f fw) = file fw) -> respects (keeps q) (update f).
Proof. intros Hf. apply respects_modify. intros [w fw]. split; simpl; [by rewrite Hf|done]. Qed.
Lemma on_buffer_keeps {A} (m : M WriteBuffer A) : respects (keeps q) (on_buffer m).
Proof. intros [w fw]. unfold on_buffer. simpl. by destruct (m (buffer fw)). Qed.
Lemma self_keeps {A} (f : FileWriter -> A) : respects (keeps q) (self f).
Proof. apply respects_gets, _. Qed.

Hint Resolve update_keeps on_buffer_keeps self_keeps : frame.

Lemma write_header_keeps : respects (keeps q) write_header.
Proof. apply respects_bind; auto with frame; apply _. Qed.

Lemma flushLocked_keeps : respects (keeps q) flushLocked.
Proof.
  apply respects_bind; [apply _|auto with frame|]. intros [[h z]|]; [|apply respects_ret, _].
  repeat (apply respects_bind; [apply _| |intros]); auto with frame.
  all: try by apply update_keeps.
Qed.

Lemma if_open_keeps m : respects (keeps q) m -> respects (keeps q) (if_open m).
Proof.
  intros Hm. apply respects_bind; [apply _|auto with frame|].
  intros []; [apply respects_fail, _|done].
Qed.

Lemma WriteEntry_keeps e : respects (keeps q) (WriteEntry e).
Proof.
  apply if_open_keeps, respects_bind; [apply _|apply on_buffer_keeps|].
  intros []; [apply flushLocked_keeps|apply respects_ret, _].
Qed.

Lemma Close_keeps : respects (keeps q) Close.
Proof.
  apply respects_bind; [apply _|auto with frame|]. intros []; [apply respects_ret, _|].
  repeat (apply respects_bind; [apply _| |intros]); auto with frame;
    try (by apply update_keeps);
    apply respects_on_err; auto using flushLocked_keeps, write_header_keeps with frame; apply _.
Qed.
End Keeps.

(** From a descriptor of [p] to the world: paths other than [p] keep their content. *)
Lemma with_local_same {X} `{!HasFile X} {A} q (x : X) (m : M (world * X) A) :
  f_name (get_file x) <> q -> respects (keeps q) m -> respects (same_at q) (with_local x m).
Proof.
  intros Hne Hm w. unfold with_local. specialize (Hm (w, x)) as [_ Hs].
  destruct (m (w, x)) as [[w' x'] [a|e]]; by apply Hs.
Qed.

Lemma createNewFile_same q p m name :
  p <> q -> respects (same_at q) (createNewFile p m name).
Proof.
  intros Hne w. unfold createNewFile, bind at 1. pose proof (os_Create_same q p Hne w) as Hs.
  destruct (os_Create p w) as [w1 [f|]] eqn:E; [|done].
  assert (f_name f = p) as Hf.
  { unfold os_Create, os_call, syscall in E. destruct (faults w) as [|[] ?]; by simplify_eq. }
  etransitivity; [exact Hs|]. clear -Hne Hf.
  revert w1. apply respects_bind; [apply _|apply respects_gets, _|intros now].
  apply respects_bind; [apply _| |intros; apply respects_ret, _].
  apply with_local_same; [by subst|].
  apply respects_bind; [apply _|apply respects_on_err; auto with frame; apply _|intros].
  case_decide; [apply respects_on_err; auto with frame; apply _|apply respects_ret, _].
Qed.

Lemma openExistingFile_readonly p m name : respects readonly_w (openExistingFile p m name).
Proof.
  apply respects_bind; [apply _|auto with frame|intros f].
  apply respects_bind; [apply _| |intros; apply respects_ret, _].
  apply (with_local_respects readonly); [|by intros w s' []].
  repeat (apply respects_bind; [apply _| |intros]); try apply respects_ret, _;
    apply respects_on_err; auto with frame; try apply _.
  - apply respects_liftr, _.
  - by apply file_call_readonly.
Qed.

Lemma readonly_same q w w' : readonly_w w w' -> same_at q w w'.
Proof. intros [H _]. unfold same_at. by rewrite H. Qed.

Lemma NewFileWriterWithName_same q p m name :
  p <> q -> respects (same_at q) (NewFileWriterWithName p m name).
Proof.
  intros Hne. unfold NewFileWriterWithName. case_decide; [apply respects_fail, _|].
  apply respects_bind; [apply _|apply respects_try, os_Stat_same|].
  intros [z|[]]; solve [by apply createNewFile_same
    | intros w; apply readonly_same, openExistingFile_readonly].
Qed.

(** The descriptor of a new writer is on its path. *)
Lemma with_local_name {X} `{!HasFile X} {A} (x x' : X) (m : M (world * X) A) w w' a :
  respects (keeps []) m -> with_local x m w = (w', Ok (x', a)) ->
  f_name (get_file x') = f_name (get_file x).
Proof.
  intros Hm. unfold with_local. specialize (Hm (w, x)) as [Hn _].
  destruct (m (w, x)) as [[w1 x1] [b|e]]; intros [= -> -> ->]; done.
Qed.

Lemma createNewFile_name p m name w w' fw :
  createNewFile p m name w = (w', Ok fw) -> f_name (file fw) = p.
Proof.
  intros (w1 & f & Hf & Hk)%bind_Ok. apply os_Create_name in Hf as <-.
  apply bind_Ok in Hk as (w2 & now & _ & Hk). apply bind_Ok in Hk as (w3 & [f' []] & Hl & [= <- <-]).
  apply (with_local_name f f') in Hl; [done|].
  apply respects_bind; [apply _|apply respects_on_err; auto with frame; apply _|intros].
  case_decide; [apply respects_on_err; auto with frame; apply _|apply respects_ret, _].
Qed.

Lemma openExistingFile_name p m name w w' fw :
  openExistingFile p m name w = (w', Ok fw) -> f_name (file fw) = p.
Proof.
  intros (w1 & f & Hf & Hk)%bind_Ok. apply os_Open_name in Hf as <-.
  apply bind_Ok in Hk as (w3 & [f' h] & Hl & [= <- <-]).
  apply (with_local_name f f') in Hl; [done|].
  repeat (apply respects_bind; [apply _| |intros]); try apply respects_ret, _;
    apply respects_on_err; auto with frame; try apply _.
  apply respects_liftr, _.
Qed.

Lemma NewFileWriterWithName_name p m name w w' fw :
  NewFileWriterWithName p m name w = (w', Ok fw) -> f_name (file fw) = p.
Proof.
  unfold NewFileWriterWithName. case_decide; [done|].
  intros (w1 & r & _ & Hk)%bind_Ok.
  destruct r as [z|[]]; eauto using createNewFile_name, openExistingFile_name.
Qed.

(** ** A method that succeeds met no failure *)

Lemma update_clean f : clean_run clean2 (update f).
Proof. by apply clean_modify. Qed.
Lemma self_clean {A} (f : FileWriter -> A) : clean_run clean2 (self f).
Proof. by apply clean_gets. Qed.
Lemma on_buffer_clean {A} (m : M WriteBuffer A) : clean_run clean2 (on_buffer m).
Proof.
  intros [w fw] [w' fw'] r. unfold on_buffer, clean2. simpl.
  destruct (m (buffer fw)). by intros [= <- <- <-] _.
Qed.

Hint Resolve update_clean self_clean on_buffer_clean : clean.

Lemma write_header_clean : clean_run clean2 write_header.
Proof. apply clean_bind; auto with clean. Qed.
Hint Resolve write_header_clean : clean.

Lemma flushLocked_clean : clean_run clean2 flushLocked.
Proof.
  apply clean_bind; [auto with clean|]. intros [[h z]|]; [|auto with clean].
  repeat (apply clean_bind; [auto with clean|intros]). auto with clean.
Qed.
Hint Resolve flushLocked_clean : clean.

Lemma WriteEntry_clean e : clean_run clean2 (WriteEntry e).
Proof.
  apply clean_bind; [auto with clean|]. intros []; [auto with clean|].
  apply clean_bind; [apply on_buffer_clean|]. intros []; auto with clean.
Qed.

Lemma Close_clean : clean_ok clean2 Close.
Proof.
  apply clean_ok_bind; [auto with clean|]. intros []; [auto with clean|].
  repeat (apply clean_ok_bind; [auto with clean|intros]). auto with clean.
Qed.

Lemma createNewFile_clean p m name : clean_ok clean (createNewFile p m name).
Proof.
  apply clean_ok_bind; [auto with clean|intros f].
  apply clean_ok_bind; [apply clean_run_ok; by apply clean_gets|intros now].
  apply clean_ok_bind; [|auto with clean]. apply with_local_clean.
  apply clean_ok_bind; [auto with clean|intros]. case_decide; auto with clean.
Qed.

Lemma openExistingFile_clean p m name : clean_ok clean (openExistingFile p m name).
Proof.
  apply clean_ok_bind; [auto with clean|intros f].
  apply clean_ok_bind; [|auto with clean]. apply with_local_clean.
  repeat (apply clean_ok_bind; [auto with clean|intros]). auto with clean.
Qed.

Lemma NewFileWriterWithName_clean p m name : clean_ok clean (NewFileWriterWithName p m name).
Proof.
  unfold NewFileWriterWithName. case_decide; [auto with clean|].
  intros w w' fw (w1 & r & Hst & Hk)%bind_Ok. unfold try in Hst.
  destruct (os_Stat p w) as [w2 r2] eqn:E. injection Hst as -> ->.
  assert (r = Err ErrIO \/ r <> Err ErrIO) as [->|Hr] by (destruct r as [|[]]; auto).
  - apply openExistingFile_clean in Hk.
    assert (clean w1 = clean w) as Hw.
    { unfold os_Stat, os_call, syscall in E. destruct (faults w) as [|[k|] l].
      - destruct (files w !! p); by simplify_eq.
      - unfold fail in E. by simplify_eq.
      - simpl in E. destruct (files w !! p); by simplify_eq. }
    rewrite Hw in Hk. unfold bind, try, os_Stat. rewrite os_call_ok by done. simpl.
    pose proof Hk as (w3 & f & Ho & _)%bind_Ok. unfold os_Open in Ho.
    rewrite os_call_ok in Ho by done. simpl in Ho. by destruct (files w !! p).
  - pose proof (os_Stat_clean _ _ _ _ E Hr) as E'. unfold bind, try. rewrite E'.
    destruct r as [z|[]]; (by apply createNewFile_clean) || (by apply openExistingFile_clean).
Qed.
End Writer.

#[export] Hint Resolve flushLocked_keeps WriteEntry_keeps Close_keeps
  NewFileWriterWithName_same : frame.
#[export] Hint Resolve flushLocked_clean WriteEntry_clean Close_clean createNewFile_clean
  openExistingFile_clean NewFileWriterWithName_clean : clean.
