(* ===== verification/Reader.v ===== *)
(** The reader: [chronicler/v2/reader.go].

    The block loops run with fuel; a block takes at least its sixteen header bytes,
    so the length of the file is always enough.  A callback that closes over
    variables of its caller is a function of those variables, returning their new
    values and whether to go on. *)
From S2P Require Import Prelude Types Compressor Block FileSys.
From Stdlib Require Import SpecFloat.

(** ** Binary64 arithmetic *)

Definition float64 := spec_float.
Definition float64_of_Z (z : Z) : float64 := binary_normalize 53 1024 z 0 false.
Definition fdiv : float64 -> float64 -> float64 := SFdiv 53 1024.
Definition flt : float64 -> float64 -> bool := SFltb.
Definition fle : float64 -> float64 -> bool := SFleb.
Definition f0 : float64 := S754_zero false.
(** The float literal [n / 10]. *)
Definition tenth (n : Z) : float64 := fdiv (float64_of_Z n) (float64_of_Z 10).

Record FileReader := {
  r_file : File;
  r_filePath : bytes;
  r_header : FileHeader;
  r_swampName : bytes
}.

Definition set_r_file (f : File) (fr : FileReader) : FileReader :=
  {| r_file := f; r_filePath := r_filePath fr; r_header := r_header fr;
     r_swampName := r_swampName fr |}.

#[export] Program Instance reader_has_file : HasFile FileReader :=
  {| get_file := r_file; set_file := set_r_file |}.
Solve All Obligations with (intros; try match goal with x : FileReader |- _ => destruct x end; done).

Definition MetadataEntryKey : bytes := bs "__swamp_meta__".

Section Reader.
Context `{HC : Codecs}.

Abbreviation MR := (M (world * FileReader)).

Definition NewFileReader (path : bytes) : M world FileReader :=
  if decide (path = []) then fail ErrEmptyPath else
  f <-- os_Open path ;;
  r <-- with_local f
    (headerBuf <-- on_err (io_ReadFull FileHeaderSize) file_Close ;;
     h <-- on_err (liftr (FileHeader_Deserialize headerBuf)) file_Close ;;
     name <-- (if decide (IsV3 h = true /\ 0 < NameLength h)
               then on_err (io_ReadFull (Z.to_nat (NameLength h))) file_Close
               else ret []) ;;
     ret (h, name)) ;;
  ret {| r_file := r.1; r_filePath := path; r_header := r.2.1; r_swampName := r.2.2 |}.

Definition GetSwampName (fr : FileReader) : bytes := r_swampName fr.
Definition GetHeader (fr : FileReader) : FileHeader := r_header fr.

Definition readNextBlock : MR Block_ :=
  offset <-- file_SeekCurrent 0 ;;
  headerBuf <-- file_Read BlockHeaderSize ;;
  if decide (length headerBuf < BlockHeaderSize)%nat then fail EOF else
  blockHeader <-- liftr (BlockHeader_Deserialize headerBuf) ;;
  compressedData <-- io_ReadFull (Z.to_nat (CompressedSize blockHeader)) ;;
  block <-- liftr (ParseBlock blockHeader compressedData) ;;
  ret {| BHeader := BHeader block; BEntries := BEntries block;
         BOffset := Z.of_nat offset |}.

(** The loop over the entries of a block: [Err] carries the state when the callback
    says stop. *)
Fixpoint feed {St} (callback : St -> Entry -> St * bool) (st : St) (total : nat)
    (es : list Entry) : St * nat * bool :=
  match es with
  | [] => (st, total, true)
  | e :: es =>
      let (st', go) := callback st e in
      if (go : bool) then feed callback st' (S total) es else (st', S total, false)
  end.

Fixpoint read_entries_loop {St} (callback : St -> Entry -> St * bool)
    (fuel : nat) (st : St) (total : nat) : MR (St * nat) :=
  match fuel with
  | O => fail ErrFuel
  | S fuel =>
      r <-- try readNextBlock ;;
      match r with
      | Err EOF => ret (st, total)
      | Err e => fail e
      | Ok block =>
          let '(st', total', go) := feed callback st total (BEntries block) in
          if (go : bool) then read_entries_loop callback fuel st' total'
          else ret (st', total')
      end
  end.

(** The size of the file bounds the number of blocks. *)
Definition loop_fuel : MR nat :=
  gets (fun s => S (length (default [] (files s.1 !! f_name (r_file s.2))))).

Definition seek_data : MR unit :=
  h <-- gets (fun s => r_header s.2) ;;
  file_SeekStart (Z.to_nat (DataStartOffset h)).

(** The callback's final state and the number of entries read; on an error the Go
    function also returns the count so far, which its callers drop. *)
Definition ReadAllEntries {St} (callback : St -> Entry -> St * bool) (st : St)
  : MR (St * nat) :=
  seek_data ;;;
  fuel <-- loop_fuel ;;
  read_entries_loop callback fuel st 0.

Fixpoint read_blocks_loop (fuel : nat) (blocks : list Block_) : MR (list Block_) :=
  match fuel with
  | O => fail ErrFuel
  | S fuel =>
      r <-- try readNextBlock ;;
      match r with
      | Err EOF => ret blocks
      | Err e => fail e
      | Ok block => read_blocks_loop fuel (blocks ++ [block])
      end
  end.

Definition ReadAllBlocks : MR (list Block_) :=
  seek_data ;;;
  fuel <-- loop_fuel ;;
  read_blocks_loop fuel [].

(** ** Scanning headers only *)

Record BlockScanResult := {
  ScanBlockCount : Z;
  TotalEntryCount : Z;
  TotalUncompressedSize : Z
}.

Definition scan_add (bh : BlockHeader) (r : BlockScanResult) : BlockScanResult :=
  {| ScanBlockCount := u64 (ScanBlockCount r + 1);
     TotalEntryCount := u64 (TotalEntryCount r + BEntryCount bh);
     TotalUncompressedSize := u64 (TotalUncompressedSize r + UncompressedSize bh) |}.

Fixpoint scan_loop (fuel : nat) (result : BlockScanResult) : MR BlockScanResult :=
  match fuel with
  | O => fail ErrFuel
  | S fuel =>
      r <-- try (file_Read BlockHeaderSize) ;;
      match r with
      | Err EOF => ret result
      | Err e => fail e
      | Ok headerBuf =>
          if decide (length headerBuf < BlockHeaderSize)%nat then ret result else
          bh <-- liftr (BlockHeader_Deserialize headerBuf) ;;
          let result := scan_add bh result in
          file_SeekCurrent (Z.to_nat (CompressedSize bh)) ;;;
          scan_loop fuel result
      end
  end.

Definition ScanBlockHeaders : MR BlockScanResult :=
  seek_data ;;;
  fuel <-- loop_fuel ;;
  scan_loop fuel {| ScanBlockCount := 0; TotalEntryCount := 0; TotalUncompressedSize := 0 |}.

Definition reader_Close : MR unit := file_Close.

(** ** The index *)

Definition index_entry (st : gmap bytes bytes * bytes) (entry : Entry)
  : gmap bytes bytes * bytes :=
  let (index, name) := st in
  if decide (Operation entry = OpDelete) then (delete (Key entry) index, name) else
  if decide (Operation entry = OpInsert \/ Operation entry = OpUpdate) then
    (<[Key entry := Data entry]> index, name) else
  if decide (Operation entry = OpMetadata) then
    if decide (name = [] /\ Key entry = MetadataEntryKey /\ (0 < length (Data entry))%nat)
    then (index, Data entry) else (index, name)
  else (index, name).

Definition LoadIndex : MR (gmap bytes bytes * bytes) :=
  name <-- gets (fun s => r_swampName s.2) ;;
  r <-- ReadAllEntries (fun st e => (index_entry st e, true)) (∅, name) ;;
  ret r.1.

Definition ReadSwampName (path : bytes) : M world bytes :=
  fr <-- NewFileReader path ;;
  r <-- with_local fr
    (if IsV3 (r_header fr)
     then ignore reader_Close ;;; ret (r_swampName fr)
     else r <-- on_err LoadIndex reader_Close ;;
          ignore reader_Close ;;;
          ret r.2) ;;
  ret r.2.

(** ** Fragmentation *)

Record frag_state := {
  liveKeys : gmap bytes nat;
  totalEntries : nat;
  totalBytes : nat
}.

Definition frag_entry (st : frag_state) (entry : Entry) : frag_state :=
  {| liveKeys :=
       if decide (Operation entry = OpDelete) then delete (Key entry) (liveKeys st) else
       if decide (Operation entry = OpInsert \/ Operation entry = OpUpdate)
       then <[Key entry := length (Data entry)]> (liveKeys st) else liveKeys st;
     totalEntries := S (totalEntries st);
     totalBytes := totalBytes st + length (Data entry) |}.

Definition live_bytes (m : gmap bytes nat) : nat := map_fold (fun _ n acc => n + acc)%nat O m.

(** The ratio, from the final counters. *)
Definition fragmentation_of (st : frag_state) : float64 * nat * nat :=
  let liveCount := size (liveKeys st) in
  if decide (totalEntries st = O) then (f0, O, O) else
  let ratio part whole :=
    fdiv (float64_of_Z (Z.of_nat whole - Z.of_nat part)) (float64_of_Z (Z.of_nat whole)) in
  let entryFrag := ratio liveCount (totalEntries st) in
  let liveBytes := live_bytes (liveKeys st) in
  let byteFrag := if decide (0 < totalBytes st)%nat
                  then ratio liveBytes (totalBytes st) else f0 in
  let fragmentation := if flt entryFrag byteFrag then byteFrag else entryFrag in
  (fragmentation, liveCount, totalEntries st).

Definition CalculateFragmentation : MR (float64 * nat * nat) :=
  r <-- ReadAllEntries (fun st e => (frag_entry st e, true))
          {| liveKeys := ∅; totalEntries := 0; totalBytes := 0 |} ;;
  ret (fragmentation_of r.1).

(** ** Reading moves the descriptor and nothing else *)

Lemma readNextBlock_respects R `{!PreOrder R} :
  respects R (file_SeekCurrent 0) -> respects R (file_Read BlockHeaderSize) ->
  (forall n, respects R (io_ReadFull n)) -> respects R readNextBlock.
Proof.
  intros H1 H2 H3. unfold readNextBlock.
  apply respects_bind; [done|done|intros offset].
  apply respects_bind; [done|done|intros hb]. case_decide; [apply respects_fail, _|].
  apply respects_bind; [done|apply respects_liftr, _|intros bh].
  apply respects_bind; [done|done|intros cd].
  apply respects_bind; [done|apply respects_liftr, _|intros b]. apply respects_ret, _.
Qed.

Section ReadRespects.
Context (R : relation (world * FileReader)) `{!PreOrder R}.
Hypothesis HR : forall n, respects R (file_SeekCurrent n).
Hypothesis HRead : forall n, respects R (file_Read n).
Hypothesis HFull : forall n, respects R (io_ReadFull n).
Hypothesis HStart : forall n, respects R (file_SeekStart n).

Lemma read_entries_loop_respects {St} (cb : St -> Entry -> St * bool) fuel st total :
  respects R (read_entries_loop cb fuel st total).
Proof.
  revert st total. induction fuel as [|fuel IH]; intros st total; [apply respects_fail, _|].
  cbn [read_entries_loop].
  apply respects_bind; [done|by apply respects_try, readNextBlock_respects|].
  intros [b|e].
  - destruct (feed cb st total (BEntries b)) as [[st' total'] []]; [done|apply respects_ret, _].
  - destruct e; (apply respects_fail || apply respects_ret); apply _.
Qed.

Lemma ReadAllEntries_respects {St} (cb : St -> Entry -> St * bool) st :
  respects R (ReadAllEntries cb st).
Proof.
  unfold ReadAllEntries, seek_data, loop_fuel.
  repeat (apply respects_bind; [done| |intros]); try apply respects_gets, _; try done.
  apply read_entries_loop_respects.
Qed.
End ReadRespects.

Lemma ReadAllEntries_moved {St} (cb : St -> Entry -> St * bool) st :
  respects moved (ReadAllEntries cb st).
Proof. apply ReadAllEntries_respects; [apply _| | | |]; intros; auto with frame. Qed.

Lemma ReadAllEntries_readonly {St} (cb : St -> Entry -> St * bool) st :
  respects readonly (ReadAllEntries cb st).
Proof. apply ReadAllEntries_respects; [apply _| | | |]; intros; auto with frame. Qed.

Lemma LoadIndex_readonly : respects readonly LoadIndex.
Proof.
  unfold LoadIndex. apply respects_bind; [apply _|apply respects_gets, _|intros name].
  apply respects_bind; [apply _|apply ReadAllEntries_readonly|intros]. apply respects_ret, _.
Qed.

Lemma CalculateFragmentation_readonly : respects readonly CalculateFragmentation.
Proof.
  apply respects_bind; [apply _|apply ReadAllEntries_readonly|intros]. apply respects_ret, _.
Qed.

Lemma NewFileReader_readonly p : respects readonly_w (NewFileReader p).
Proof.
  unfold NewFileReader. case_decide; [apply respects_fail, _|].
  apply respects_bind; [apply _|auto with frame|intros f].
  apply respects_bind; [apply _| |intros; apply respects_ret, _].
  apply (with_local_respects readonly); [|by intros w s' []].
  repeat (apply respects_bind; [apply _| |intros]); try apply respects_ret, _.
  - apply respects_on_err; auto with frame; apply _.
  - apply respects_on_err; auto with frame; [apply _|apply respects_liftr, _].
  - case_decide; [|apply respects_ret, _].
    apply respects_on_err; auto with frame; apply _.
Qed.

(** ** A successful read is a read without failures *)

Lemma clean_try {S A B} (cl : S -> S) (m : M S A) (k : result A -> M S B) :
  clean_run cl m -> (forall s, (k (Err ErrIO) s).2 = Err ErrIO) ->
  (forall r, r <> Err ErrIO -> clean_run cl (k r)) ->
  clean_run cl (bind (try m) k).
Proof.
  intros Hm Hio Hk s s' r. unfold bind, try.
  destruct (m s) as [s1 r1] eqn:E. intros H Hr.
  assert (r1 <> Err ErrIO) as Hr1.
  { intros ->. specialize (Hio s1). rewrite H in Hio. by simpl in Hio. }
  rewrite (Hm _ _ _ E Hr1). by apply Hk.
Qed.

Lemma readNextBlock_clean : clean_run clean2 readNextBlock.
Proof.
  unfold readNextBlock. apply clean_bind; [auto with clean|intros offset].
  apply clean_bind; [auto with clean|intros hb]. case_decide; [auto with clean|].
  repeat (apply clean_bind; [auto with clean|intros]). auto with clean.
Qed.

Lemma read_entries_loop_clean {St} (cb : St -> Entry -> St * bool) fuel st total :
  clean_run clean2 (read_entries_loop cb fuel st total).
Proof.
  revert st total. induction fuel as [|fuel IH]; intros st total; [apply clean_fail|].
  cbn [read_entries_loop]. apply clean_try; [apply readNextBlock_clean|done|].
  intros [b|e] _.
  - destruct (feed cb st total (BEntries b)) as [[st' total'] []]; auto with clean.
  - destruct e; auto with clean.
Qed.

Lemma ReadAllEntries_clean {St} (cb : St -> Entry -> St * bool) st :
  clean_run clean2 (ReadAllEntries cb st).
Proof.
  unfold ReadAllEntries, seek_data, loop_fuel.
  repeat (apply clean_bind; [|intros]); try by apply clean_gets.
  - auto with clean.
  - apply read_entries_loop_clean.
Qed.

Lemma LoadIndex_clean : clean_run clean2 LoadIndex.
Proof.
  unfold LoadIndex. apply clean_bind; [by apply clean_gets|intros].
  apply clean_bind; [apply ReadAllEntries_clean|auto with clean].
Qed.

Lemma CalculateFragmentation_clean : clean_run clean2 CalculateFragmentation.
Proof. apply clean_bind; [apply ReadAllEntries_clean|auto with clean]. Qed.

Lemma NewFileReader_clean p : clean_ok clean (NewFileReader p).
Proof.
  unfold NewFileReader. case_decide; [auto with clean|].
  apply clean_ok_bind; [auto with clean|intros f].
  apply clean_ok_bind; [apply with_local_clean|auto with clean].
  apply clean_ok_bind; [auto with clean|intros hb].
  apply clean_ok_bind; [auto with clean|intros h].
  apply clean_ok_bind; [|auto with clean]. case_decide; auto with clean.
Qed.
End Reader.
