(* ===== verification/Contents.v ===== *)
(** What a [.hyd] file holds, and that the reader reads it.

    [holds c h name bss tail] says that the byte string [c] is a file with header
    [h], swamp name [name], the blocks [bss], each the list of its entries, and then
    the bytes [tail] (none, in a file no crash has touched).  The
    lemmas execute the reader of [Reader.v] on such contents, on contents with a
    torn tail, and with arbitrary failures. *)
From S2P Require Import Prelude Crc32 Types Compressor Block FileSys Reader.

Section Contents.
Context `{HC : Codecs} `{!CodecsOk}.

Record good_block (es : list Entry) : Prop := {
  gb_nonempty : es <> [];
  gb_count : Z.of_nat (length es) < 2 ^ 16;
  gb_wf : Forall entry_wf es;
  gb_size : Z.of_nat (total_size es) < 2 ^ 31
}.

Definition payload (es : list Entry) : bytes := snappy_encode (serializeEntries es).
Definition header_of (es : list Entry) : BlockHeader :=
  block_header (length es) (serializeEntries es) (payload es).
Definition encode_block (es : list Entry) : bytes :=
  BlockHeader_Serialize (header_of es) ++ payload es.
Definition encode_blocks (bss : list (list Entry)) : bytes := concat (map encode_block bss).

Record holds (c : bytes) (h : FileHeader) (name : bytes) (bss : list (list Entry))
    (tail : bytes) : Prop := {
  ho_content : c = FileHeader_Serialize h ++ name ++ encode_blocks bss ++ tail;
  ho_header : header_wf h;
  ho_name : DataStartOffset h = Z.of_nat (FileHeaderSize + length name);
  ho_blocks : Forall good_block bss
}.

(** ** Sizes *)

Lemma payload_size es : good_block es -> 0 < Z.of_nat (length (payload es)) < 2 ^ 32.
Proof.
  intros []. unfold payload. pose proof (snappy_max (serializeEntries es)) as Hm.
  rewrite length_serializeEntries in Hm.
  assert (length (snappy_encode (serializeEntries es)) <> O) as Hn.
  { intros Hz. apply length_zero_iff_nil in Hz. by apply snappy_nonempty in Hz. }
  pose proof (Nat.Div0.mul_div_le (total_size es) 6). lia.
Qed.

Lemma header_of_wf es : good_block es -> block_header_wf (header_of es).
Proof.
  intros. constructor; simpl; auto with codec.
  - apply checksumIEEE_bound.
  - unfold in_u16. lia.
Qed.

Lemma header_of_csize es :
  good_block es -> Z.to_nat (CompressedSize (header_of es)) = length (payload es).
Proof.
  intros He. pose proof (payload_size es He). simpl.
  rewrite u32_small by (unfold in_u32; lia). apply Nat2Z.id.
Qed.

Lemma length_encode_block es :
  length (encode_block es) = (16 + length (payload es))%nat.
Proof. unfold encode_block. by rewrite length_app, length_BlockHeader. Qed.

Lemma encode_blocks_cons es bss : encode_blocks (es :: bss) = encode_block es ++ encode_blocks bss.
Proof. done. Qed.

Lemma encode_blocks_app bss bss' :
  encode_blocks (bss ++ bss') = encode_blocks bss ++ encode_blocks bss'.
Proof. unfold encode_blocks. by rewrite map_app, concat_app. Qed.

Lemma length_encode_blocks bss : (length bss <= length (encode_blocks bss))%nat.
Proof.
  induction bss as [|es bss IH]; [done|].
  rewrite encode_blocks_cons, length_app, length_encode_block. simpl. lia.
Qed.

Lemma ParseBlock_header_of es :
  good_block es ->
  ParseBlock (header_of es) (payload es) =
    Ok {| BHeader := header_of es; BEntries := es; BOffset := 0 |}.
Proof.
  intros []. unfold header_of, payload. rewrite ParseBlock_compressed by (done || lia).
  rewrite u16_small by (unfold in_u16; lia). by rewrite Nat2Z.id, firstn_all.
Qed.

(** ** A reader in the middle of a file *)

(** The descriptor of [fr] is open on content [c], with [rest] still to read. *)
Record at_rest (w : world) (fr : FileReader) (c rest : bytes) : Prop := {
  ar_faults : faults w = [];
  ar_open : f_open (r_file fr) = true;
  ar_file : files w !! f_name (r_file fr) = Some c;
  ar_rest : drop (f_pos (r_file fr)) c = rest
}.

Definition skip (n : nat) (fr : FileReader) : FileReader :=
  set_r_file (set_pos (f_pos (r_file fr) + n) (r_file fr)) fr.

Lemma at_rest_skip w fr c a rest :
  at_rest w fr c (a ++ rest) -> at_rest w (skip (length a) fr) c rest.
Proof.
  intros []. constructor; simpl; try done.
  by rewrite <-drop_drop, ar_rest0, drop_app_length.
Qed.

Lemma skip_skip a b fr : skip a (skip b fr) = skip (b + a) fr.
Proof. unfold skip, set_r_file, set_pos. simpl. by rewrite Nat.add_assoc. Qed.

Lemma at_rest_length w fr c rest :
  at_rest w fr c rest -> rest <> [] -> length c = (f_pos (r_file fr) + length rest)%nat.
Proof.
  intros [] Hr. subst. rewrite length_drop. destruct (decide (f_pos (r_file fr) <= length c)%nat).
  - lia.
  - rewrite drop_ge in Hr by lia. done.
Qed.

Lemma at_rest_skip0 w fr c rest : at_rest w fr c rest -> at_rest w (skip 0 fr) c rest.
Proof. apply (at_rest_skip w fr c []). Qed.

Lemma read_at_rest w fr c a rest :
  at_rest w fr c (a ++ rest) -> a <> [] ->
  file_Read (length a) (w, fr) = ((w, skip (length a) fr), Ok a).
Proof.
  intros [] Hne. pose proof (file_Read_ok (length a) w fr c) as Hr.
  cbn [get_file reader_has_file] in Hr. rewrite ar_rest0, take_app_length in Hr.
  apply Hr; try done; by destruct a.
Qed.

Lemma readfull_at_rest w fr c a rest :
  at_rest w fr c (a ++ rest) -> a <> [] ->
  io_ReadFull (length a) (w, fr) = ((w, skip (length a) fr), Ok a).
Proof.
  intros Ha Hne. pose proof (at_rest_length _ _ _ _ Ha) as Hlen. destruct Ha.
  rewrite length_app in Hlen. pose proof (io_ReadFull_ok (length a) w fr c) as Hr.
  cbn [get_file reader_has_file] in Hr. rewrite ar_rest0, take_app_length in Hr.
  apply Hr; try done. rewrite Hlen by (by destruct a). lia.
Qed.

Lemma seek0_at_rest w fr c rest :
  at_rest w fr c rest ->
  file_SeekCurrent 0 (w, fr) = ((w, skip 0 fr), Ok (f_pos (r_file fr))).
Proof.
  intros []. rewrite file_SeekCurrent_ok by done.
  apply (f_equal2 pair); [done|]. simpl. by rewrite Nat.add_0_r.
Qed.

(** ** Blocks *)

Lemma encode_block_header es rest :
  BlockHeader_Serialize (header_of es) ++ payload es ++ rest = encode_block es ++ rest.
Proof. unfold encode_block. by rewrite app_assoc. Qed.

(** Once the block header has been read, the payload remains. *)
Lemma readNextBlock_header w fr c es rest :
  at_rest w fr c (BlockHeader_Serialize (header_of es) ++ rest) -> good_block es ->
  at_rest w (skip BlockHeaderSize fr) c rest /\
  readNextBlock (w, fr) =
    (compressedData <-- io_ReadFull (length (payload es)) ;;
     block <-- liftr (ParseBlock (header_of es) compressedData) ;;
     ret {| BHeader := BHeader block; BEntries := BEntries block;
            BOffset := Z.of_nat (f_pos (r_file fr)) |}) (w, skip BlockHeaderSize fr).
Proof.
  intros Ha He. pose proof (seek0_at_rest _ _ _ _ Ha) as Hs.
  apply at_rest_skip0 in Ha. pose proof (length_BlockHeader (header_of es)) as Hl.
  assert (BlockHeader_Serialize (header_of es) <> []) as Hne by by intros Hn; rewrite Hn in Hl.
  pose proof (read_at_rest _ _ _ _ _ Ha Hne) as Hr. apply at_rest_skip in Ha.
  rewrite skip_skip, Hl in *. split; [done|].
  unfold readNextBlock at 1, bind at 1. rewrite Hs. unfold bind at 1. rewrite Hr.
  rewrite decide_False by lia. unfold bind at 1, liftr at 1.
  rewrite <-(app_nil_r (BlockHeader_Serialize _)), BlockHeader_roundtrip by by apply header_of_wf.
  by rewrite header_of_csize.
Qed.

Lemma readNextBlock_block w fr c es rest :
  at_rest w fr c (encode_block es ++ rest) -> good_block es ->
  exists n, readNextBlock (w, fr) =
    ((w, skip (length (encode_block es)) fr),
     Ok {| BHeader := header_of es; BEntries := es; BOffset := n |}).
Proof.
  intros Ha He. rewrite <-encode_block_header in Ha.
  destruct (readNextBlock_header _ _ _ _ _ Ha He) as [Ha' ->].
  assert (payload es <> []) as Hp by apply snappy_nonempty.
  unfold bind. rewrite (readfull_at_rest _ _ _ _ _ Ha' Hp).
  unfold liftr. rewrite ParseBlock_header_of by done.
  rewrite skip_skip, length_encode_block. eexists. done.
Qed.

Lemma readNextBlock_end w fr c :
  at_rest w fr c [] -> exists fr', readNextBlock (w, fr) = ((w, fr'), Err EOF).
Proof.
  intros Ha. unfold readNextBlock, bind. rewrite (seek0_at_rest _ _ _ _ Ha).
  apply at_rest_skip0 in Ha. destruct Ha. rewrite (file_Read_eof _ _ _ c) by done. eauto.
Qed.

(** The end of the file inside a block header is a silent end of the log. *)
Lemma readNextBlock_torn_header w fr c torn :
  at_rest w fr c torn -> torn <> [] -> (length torn < BlockHeaderSize)%nat ->
  exists fr', readNextBlock (w, fr) = ((w, fr'), Err EOF).
Proof.
  intros Ha Hne Hl. unfold readNextBlock, bind. rewrite (seek0_at_rest _ _ _ _ Ha).
  apply at_rest_skip0 in Ha. destruct Ha.
  pose proof (file_Read_ok BlockHeaderSize w (skip 0 fr) c) as Hr.
  cbn [get_file reader_has_file] in Hr. rewrite ar_rest0, take_ge in Hr by lia.
  rewrite Hr by done. rewrite decide_True by done. eauto.
Qed.

(** The end of the file right after a block header is one too ... *)
Lemma readNextBlock_bare_header w fr c es :
  at_rest w fr c (BlockHeader_Serialize (header_of es)) -> good_block es ->
  exists fr', readNextBlock (w, fr) = ((w, fr'), Err EOF).
Proof.
  intros Ha He. rewrite <-(app_nil_r (BlockHeader_Serialize _)) in Ha.
  destruct (readNextBlock_header _ _ _ _ _ Ha He) as [[] ->].
  pose proof (payload_size es He).
  unfold bind. rewrite (io_ReadFull_eof _ _ _ c) by (done || lia). eauto.
Qed.

(** ... but inside the payload it is an error. *)
Lemma readNextBlock_torn_payload w fr c es torn :
  at_rest w fr c (BlockHeader_Serialize (header_of es) ++ torn) -> good_block es ->
  torn <> [] -> (length torn < length (payload es))%nat ->
  exists fr', readNextBlock (w, fr) = ((w, fr'), Err ErrUnexpectedEOF).
Proof.
  intros Ha He Hne Hl. destruct (readNextBlock_header _ _ _ _ _ Ha He) as [Ha' ->].
  pose proof (at_rest_length _ _ _ _ Ha' Hne) as Hlen. destruct Ha'.
  destruct (io_ReadFull_short (length (payload es)) w (skip BlockHeaderSize fr) c)
    as [fr' Hr]; try done; cbn [get_file reader_has_file].
  - by rewrite ar_rest0.
  - lia.
  - unfold bind. rewrite Hr. eauto.
Qed.

(** ** The loops *)

(** A callback that never stops. *)
Definition always {St} (f : St -> Entry -> St) : St -> Entry -> St * bool :=
  fun st e => (f st e, true).

Lemma feed_always {St} (f : St -> Entry -> St) st total es :
  feed (always f) st total es = (foldl f st es, (total + length es)%nat, true).
Proof.
  revert st total. induction es as [|e es IH]; intros; simpl; [by rewrite Nat.add_0_r|].
  by rewrite IH, <-plus_n_Sm.
Qed.

Lemma loop_blocks {St} (f : St -> Entry -> St) bss fuel st total w fr c tail :
  at_rest w fr c (encode_blocks bss ++ tail) -> Forall good_block bss ->
  exists fr',
    at_rest w fr' c tail /\
    read_entries_loop (always f) (length bss + fuel) st total (w, fr) =
    read_entries_loop (always f) fuel (foldl f st (concat bss))
      (total + length (concat bss)) (w, fr').
Proof.
  intros Ha Hb. revert fr st total Ha. induction Hb as [|es bss He _ IH]; intros fr st total Ha.
  - exists fr. simpl. by rewrite Nat.add_0_r.
  - rewrite encode_blocks_cons, <-app_assoc in Ha.
    destruct (readNextBlock_block _ _ _ _ _ Ha He) as [n Hr].
    apply at_rest_skip in Ha.
    destruct (IH _ (foldl f st es) (total + length es)%nat Ha) as (fr' & Ha' & Hl).
    exists fr'. split; [done|].
    cbn [length Nat.add read_entries_loop concat]. unfold bind, try. rewrite Hr.
    cbn [BEntries]. rewrite feed_always, Hl, foldl_app, length_app, Nat.add_assoc. done.
Qed.

(** How a log ends: cleanly, or inside the record of one more block. *)
Inductive tail_end : bytes -> result unit -> Prop :=
| tail_clean : tail_end [] (Ok tt)
| tail_header torn :
    torn <> [] -> (length torn < BlockHeaderSize)%nat -> tail_end torn (Ok tt)
| tail_bare es : good_block es -> tail_end (BlockHeader_Serialize (header_of es)) (Ok tt)
| tail_payload es torn :
    good_block es -> torn <> [] -> (length torn < length (payload es))%nat ->
    tail_end (BlockHeader_Serialize (header_of es) ++ torn) (Err ErrUnexpectedEOF).

Lemma readNextBlock_tail w fr c tail r :
  at_rest w fr c tail -> tail_end tail r ->
  exists fr', readNextBlock (w, fr) =
    ((w, fr'), Err match r with Ok _ => EOF | Err e => e end).
Proof.
  intros Ha Ht. destruct Ht.
  - by eapply readNextBlock_end.
  - by eapply readNextBlock_torn_header.
  - by eapply readNextBlock_bare_header.
  - by eapply readNextBlock_torn_payload.
Qed.

Lemma tail_errors tail r : tail_end tail r -> r = Ok tt \/ r = Err ErrUnexpectedEOF.
Proof. destruct 1; auto. Qed.

Lemma loop_end {St} (f : St -> Entry -> St) fuel bss st w fr c tail r :
  at_rest w fr c (encode_blocks bss ++ tail) -> Forall good_block bss -> tail_end tail r ->
  (length bss < fuel)%nat ->
  exists fr', read_entries_loop (always f) fuel st 0 (w, fr) =
    ((w, fr'), rbind r (fun _ => Ok (foldl f st (concat bss), length (concat bss)))).
Proof.
  intros Ha Hb Ht Hf. replace fuel with (length bss + S (fuel - length bss - 1))%nat by lia.
  edestruct (loop_blocks f bss) as (fr' & Ha' & ->); [done|done|].
  destruct (readNextBlock_tail _ _ _ _ _ Ha' Ht) as [fr'' Hr].
  cbn [read_entries_loop]. unfold bind, try. rewrite Hr.
  destruct (tail_errors _ _ Ht) as [-> | ->]; eexists; done.
Qed.
(** Every cut of a block is one of these ends: an error from its second payload
    byte on, silence before. *)
Lemma tail_prefix es k :
  good_block es -> (k < length (encode_block es))%nat ->
  tail_end (take k (encode_block es))
    (if decide (k <= BlockHeaderSize)%nat then Ok tt else Err ErrUnexpectedEOF).
Proof.
  intros He Hk. rewrite length_encode_block in Hk. unfold encode_block.
  pose proof (length_BlockHeader (header_of es)) as Hl. unfold BlockHeaderSize in *.
  destruct (decide (k = 0)%nat) as [->|]; [rewrite decide_True by lia; constructor|].
  destruct (decide (k < 16)%nat).
  - rewrite decide_True by lia. rewrite take_app_le by lia.
    assert (length (take k (BlockHeader_Serialize (header_of es))) = k) as Ht
      by (rewrite length_take; lia).
    apply tail_header; [intros Hn; rewrite Hn in Ht; simpl in Ht; lia|].
    rewrite Ht. unfold BlockHeaderSize. lia.
  - rewrite take_app_ge, Hl by lia. destruct (decide (k = 16)%nat) as [->|].
    + rewrite decide_True by lia. rewrite Nat.sub_diag. simpl take at 1.
      rewrite take_0, app_nil_r. by constructor.
    + rewrite decide_False by lia.
      assert (length (take (k - 16) (payload es)) = k - 16)%nat as Ht
        by (rewrite length_take; lia).
      constructor; [done| |lia]. intros Hn; rewrite Hn in Ht; simpl in Ht; lia.
Qed.

(** ** Opening *)

Definition opened (p : bytes) (h : FileHeader) (name : bytes) : FileReader :=
  {| r_file := {| f_name := p; f_pos := FileHeaderSize + length name; f_open := true |};
     r_filePath := p; r_header := h; r_swampName := name |}.

Lemma header_length h : header_wf h -> length (FileHeader_Serialize h) = FileHeaderSize.
Proof. intros Hw. destruct (header_fixed h Hw). by apply length_FileHeader. Qed.

Lemma holds_name_length c h name bss tail :
  holds c h name bss tail ->
  if decide (IsV3 h = true /\ 0 < NameLength h)
  then Z.to_nat (NameLength h) = length name /\ name <> [] else name = [].
Proof.
  intros [_ [] Hn _]. revert Hn. unfold DataStartOffset.
  destruct (IsV3 h); case_decide as Hd; try (destruct Hd; done).
  - intros Hn. split; [lia|]. intros ->. change (length []) with O in Hn. lia.
  - intros Hn. apply length_zero_iff_nil. unfold in_u16 in *.
    assert (~ 0 < NameLength h) by tauto. lia.
  - intros Hn. apply length_zero_iff_nil. lia.
Qed.

Lemma NewFileReader_ok w p c h name bss tail :
  faults w = [] -> p <> [] -> files w !! p = Some c -> holds c h name bss tail ->
  NewFileReader p w = (w, Ok (opened p h name)).
Proof.
  intros Hf Hp Hc Hh. pose proof (holds_name_length _ _ _ _ _ Hh) as Hname.
  destruct Hh as [Hcont Hwf _ _]. pose proof (header_length h Hwf) as Hl.
  unfold NewFileReader. rewrite decide_False by done.
  unfold bind, os_Open. rewrite os_call_ok, Hc by done. unfold with_local.
  set (f := {| f_name := p; f_pos := 0; f_open := true |}).
  unfold on_err. rewrite (io_ReadFull_ok FileHeaderSize w f c); try done.
  2:{ simpl. rewrite Hcont, !length_app. lia. }
  cbn [f_pos f get_file file_has_file]. rewrite drop_0, Hcont, take_app_length' by done.
  unfold liftr. rewrite <-(app_nil_r (FileHeader_Serialize h)) at 1.
  rewrite FileHeader_roundtrip by done.
  case_decide as Hd.
  - destruct Hname as [Hname Hne].
    rewrite (io_ReadFull_ok _ w (set_pos FileHeaderSize f) c); try done.
    + assert (drop FileHeaderSize c = name ++ encode_blocks bss ++ tail) as Hd'
        by (rewrite Hcont; by apply drop_app_length').
      rewrite Hname. cbn [f_pos f get_file file_has_file set_pos set_file].
      by rewrite Hd', take_app_length.
    + simpl. rewrite Hcont, Hname, !length_app, Hl. unfold FileHeaderSize. lia.
  - subst name. unfold opened. by rewrite Nat.add_0_r.
Qed.

(** ** Reading a whole file *)

(** [fr] is an open reader of the file [c] at some offset. *)
Record reading (w : world) (fr : FileReader) (c : bytes) (h : FileHeader) : Prop := {
  re_faults : faults w = [];
  re_open : f_open (r_file fr) = true;
  re_file : files w !! f_name (r_file fr) = Some c;
  re_header : r_header fr = h
}.

Lemma opened_reading w p c h name :
  faults w = [] -> files w !! p = Some c -> reading w (opened p h name) c h.
Proof. by constructor. Qed.

Lemma reading_moved w fr c h n :
  reading w fr c h -> reading w (set_r_file (set_pos n (r_file fr)) fr) c h.
Proof. intros []. by constructor. Qed.

Lemma seek_data_ok w fr c h name bss tail :
  reading w fr c h -> holds c h name bss tail ->
  exists fr', seek_data (w, fr) = ((w, fr'), Ok tt) /\
    r_file fr' = set_pos (FileHeaderSize + length name) (r_file fr) /\
    at_rest w fr' c (encode_blocks bss ++ tail).
Proof.
  intros [] []. unfold seek_data, bind, gets. simpl.
  rewrite file_SeekStart_ok by done. rewrite re_header0, ho_name0, Nat2Z.id.
  eexists. split; [done|]. split; [done|]. constructor; try done.
  cbn [r_file set_r_file set_pos f_pos set_file get_file reader_has_file].
  rewrite ho_content0, <-(header_length h), <-length_app, app_assoc by done.
  apply drop_app_length.
Qed.

Lemma fuel_enough c h name bss tail :
  holds c h name bss tail -> (length bss < S (length c))%nat.
Proof.
  intros []. rewrite ho_content0, !length_app. pose proof (length_encode_blocks bss). lia.
Qed.

Lemma ReadAllEntries_ok {St} (f : St -> Entry -> St) st w fr c h name bss tail r :
  reading w fr c h -> holds c h name bss tail -> tail_end tail r ->
  exists n, ReadAllEntries (always f) st (w, fr) =
    ((w, set_r_file (set_pos n (r_file fr)) fr),
     rbind r (fun _ => Ok (foldl f st (concat bss), length (concat bss)))).
Proof.
  intros Hr Hh Ht.
  destruct (seek_data_ok _ _ _ _ _ _ _ Hr Hh) as (fr1 & Hs & Hf1 & Ha).
  destruct (ReadAllEntries_moved (always f) st (w, fr)) as [_ [n Hn]].
  assert (exists fr', ReadAllEntries (always f) st (w, fr) =
    ((w, fr'), rbind r (fun _ => Ok (foldl f st (concat bss), length (concat bss)))))
    as [fr' He].
  { unfold ReadAllEntries, bind at 1. rewrite Hs. unfold loop_fuel, bind, gets.
    cbn [fst snd]. rewrite Hf1. cbn [f_name set_pos]. rewrite (re_file _ _ _ _ Hr).
    eapply loop_end; [done|apply ho_blocks in Hh; done|done|]. simpl.
    by eapply fuel_enough. }
  exists n. rewrite He in *. simpl in Hn. by rewrite Hn.
Qed.

(** ** The index a log replays to *)

Definition replay (name : bytes) (es : list Entry) : gmap bytes bytes * bytes :=
  foldl index_entry (∅, name) es.

Lemma LoadIndex_ok w fr c h name bss tail r :
  reading w fr c h -> r_swampName fr = name -> holds c h name bss tail -> tail_end tail r ->
  exists n, LoadIndex (w, fr) =
    ((w, set_r_file (set_pos n (r_file fr)) fr),
     rbind r (fun _ => Ok (replay name (concat bss)))).
Proof.
  intros Hr Hn Hh Ht. unfold LoadIndex, bind at 1, gets. simpl. rewrite Hn.
  destruct (ReadAllEntries_ok index_entry (∅, name) _ _ _ _ _ _ _ _ Hr Hh Ht) as [n He].
  unfold bind. unfold always in He. rewrite He. exists n. by destruct r.
Qed.

Definition frag_fold (es : list Entry) : frag_state :=
  foldl frag_entry {| liveKeys := ∅; totalEntries := 0; totalBytes := 0 |} es.

Lemma CalculateFragmentation_ok w fr c h name bss tail r :
  reading w fr c h -> holds c h name bss tail -> tail_end tail r ->
  exists n, CalculateFragmentation (w, fr) =
    ((w, set_r_file (set_pos n (r_file fr)) fr),
     rbind r (fun _ => Ok (fragmentation_of (frag_fold (concat bss))))).
Proof.
  intros Hr Hh Ht. unfold CalculateFragmentation.
  destruct (ReadAllEntries_ok frag_entry
    {| liveKeys := ∅; totalEntries := 0; totalBytes := 0 |} _ _ _ _ _ _ _ _ Hr Hh Ht) as [n He].
  unfold bind. unfold always in He. rewrite He. exists n. by destruct r.
Qed.
End Contents.
