(* ===== verification/Log.v ===== *)
(** What a log means: last writer wins.

    The specification of [LoadIndex] and [CalculateFragmentation]
    ([chronicler/v2/reader.go]): the value of a key is decided by the last entry
    that writes or deletes it, the swamp name by the header or else by the first
    metadata entry. *)
From S2P Require Import Prelude Types Compressor Block FileSys Reader Contents.

(** ** The specification *)

Definition touches (k : bytes) (e : Entry) : Prop :=
  Key e = k /\ (Operation e = OpInsert \/ Operation e = OpUpdate \/ Operation e = OpDelete).
#[export] Instance touches_dec k e : Decision (touches k e).
Proof. unfold touches. apply _. Defined.

Definition live_value (k : bytes) (log : list Entry) : option bytes :=
  match last (filter (touches k) log) with
  | Some e => if decide (Operation e = OpDelete) then None else Some (Data e)
  | None => None
  end.

Definition names_swamp (e : Entry) : Prop :=
  Operation e = OpMetadata /\ Key e = MetadataEntryKey /\ Data e <> [].
#[export] Instance names_swamp_dec e : Decision (names_swamp e).
Proof. unfold names_swamp. apply _. Defined.

Definition log_name (name : bytes) (log : list Entry) : bytes :=
  match name, head (filter names_swamp log) with
  | [], Some e => Data e
  | _, _ => name
  end.

(** The live data of a log. *)
Definition index_of (log : list Entry) : gmap bytes bytes := (replay [] log).1.

Section Log.
Context `{HC : Codecs}.

Lemma index_entry_fst st st' e : st.1 = st'.1 -> (index_entry st e).1 = (index_entry st' e).1.
Proof.
  destruct st as [i n], st' as [i' n']. simpl. intros ->. repeat case_decide; done.
Qed.

Lemma replay_fst name log : (replay name log).1 = index_of log.
Proof.
  unfold index_of, replay. assert ((∅ : gmap bytes bytes, name).1 = (∅ : gmap bytes bytes, [] : bytes).1) as H0 by done.
  revert H0. generalize (∅ : gmap bytes bytes, name) (∅ : gmap bytes bytes, @nil byte).
  induction log as [|e log IH]; intros st st' Hst; simpl; [done|].
  by apply IH, index_entry_fst.
Qed.

Lemma index_of_app log log' :
  index_of (log ++ log') = (foldl index_entry (index_of log, []) log').1.
Proof.
  unfold index_of, replay. rewrite foldl_app.
  set (st := foldl index_entry _ log).
  assert (st.1 = (st.1, [] : bytes).1) as H0 by done. revert H0.
  generalize (st.1, [] : bytes). generalize st. clear st.
  induction log' as [|e log' IH]; intros st st' Hst; simpl; [done|].
  by apply IH, index_entry_fst.
Qed.

Lemma index_of_snoc log e :
  index_of (log ++ [e]) =
    if decide (Operation e = OpDelete) then delete (Key e) (index_of log) else
    if decide (Operation e = OpInsert \/ Operation e = OpUpdate)
    then <[Key e := Data e]> (index_of log) else index_of log.
Proof. rewrite index_of_app. simpl. by repeat case_decide. Qed.

Lemma index_of_lookup log k : index_of log !! k = live_value k log.
Proof.
  induction log as [|e log IH] using rev_ind; [apply lookup_empty|].
  rewrite index_of_snoc. unfold live_value. rewrite filter_app.
  fold (live_value k log) in IH.
  unfold live_value in IH. destruct (decide (touches k e)) as [Ht|Ht].
  - rewrite filter_cons_True, filter_nil, last_snoc by done.
    destruct Ht as [<- Hop]. case_decide; [apply lookup_delete_eq|].
    rewrite decide_True by tauto. apply lookup_insert_eq.
  - rewrite filter_cons_False, filter_nil, app_nil_r, <-IH by done. unfold touches in Ht.
    destruct (decide (Key e = k)); [|repeat case_decide; simplify_map_eq; done].
    rewrite !decide_False by tauto. done.
Qed.

Lemma index_entry_name i n e :
  (index_entry (i, n) e).2 = if decide (n = [] /\ names_swamp e) then Data e else n.
Proof.
  assert ((0 < length (Data e))%nat <-> Data e <> []) as Hd
    by (destruct (Data e); simpl; split; (done || lia)).
  unfold index_entry. destruct (decide (n = [] /\ names_swamp e)) as [[-> (Ho & Hk & Hne)]|Hno].
  - by rewrite decide_False, decide_False, decide_True, decide_True by (rewrite ?Ho; intuition done).
  - repeat case_decide; try done. exfalso. apply Hno. unfold names_swamp. tauto.
Qed.

Lemma replay_name name log : (replay name log).2 = log_name name log.
Proof.
  unfold replay. generalize (∅ : gmap bytes bytes) as i. revert name.
  induction log as [|e log IH]; intros name i; cbn [foldl]; [by destruct name|].
  rewrite (surjective_pairing (index_entry (i, name) e)), IH, index_entry_name.
  unfold log_name. destruct (decide (names_swamp e)) as [Hn|Hn].
  - rewrite (filter_cons_True _ _ _ Hn). cbn [head]. destruct name as [|b name].
    + rewrite decide_True by done. destruct (Data e) eqn:E; [by destruct Hn as (_ & _ & ?)|done].
    + by rewrite decide_False by (intros []; done).
  - rewrite (filter_cons_False _ _ _ Hn), decide_False by tauto. done.
Qed.

Lemma replay_spec name log : replay name log = (index_of log, log_name name log).
Proof.
  rewrite <-(replay_fst name), <-replay_name. apply surjective_pairing.
Qed.

(** ** Rewriting a log *)

Definition insert_entry (kd : bytes * bytes) : Entry :=
  {| Operation := OpInsert; Key := kd.1; Data := kd.2 |}.

Lemma index_of_inserts l :
  NoDup l.*1 -> index_of (map insert_entry l) = list_to_map l.
Proof.
  intros Hnd. induction l as [|[k d] l IH] using rev_ind; [done|].
  rewrite fmap_app in Hnd. apply NoDup_app in Hnd as (Hl & Hk & _).
  rewrite map_app. cbn [map]. rewrite index_of_snoc, IH by done.
  rewrite decide_False, decide_True by (done || by left). simpl.
  rewrite list_to_map_snoc; [done|]. intros Hin. by apply (Hk k Hin), list_elem_of_singleton.
Qed.

Lemma index_of_elem log k d :
  index_of log !! k = Some d ->
  exists e, e ∈ log /\ Key e = k /\ Data e = d.
Proof.
  rewrite index_of_lookup. unfold live_value.
  destruct (last _) as [e|] eqn:Hl; [|done].
  apply last_Some_elem_of, list_elem_of_filter in Hl as [[Hk _] He].
  case_decide; [done|]. intros [= <-]. eauto.
Qed.

(** ** Fragmentation *)

Lemma frag_fold_snoc log e : frag_fold (log ++ [e]) = frag_entry (frag_fold log) e.
Proof. unfold frag_fold. by rewrite foldl_app. Qed.

Lemma frag_liveKeys log : liveKeys (frag_fold log) = length <$> index_of log.
Proof.
  induction log as [|e log IH] using rev_ind; [done|].
  rewrite frag_fold_snoc, index_of_snoc. simpl. rewrite IH.
  repeat case_decide; [by rewrite fmap_delete|by rewrite fmap_insert|done].
Qed.

Lemma frag_totalEntries log : totalEntries (frag_fold log) = length log.
Proof.
  induction log as [|e log IH] using rev_ind; [done|].
  rewrite frag_fold_snoc, length_app. simpl. rewrite IH. lia.
Qed.

Definition data_size (log : list Entry) : nat := sum_list_with (fun e => length (Data e)) log.

Lemma frag_totalBytes log : totalBytes (frag_fold log) = data_size log.
Proof.
  induction log as [|e log IH] using rev_ind; [done|].
  rewrite frag_fold_snoc. unfold data_size. rewrite sum_list_with_app. simpl.
  rewrite IH. unfold data_size. lia.
Qed.

Lemma live_count log : size (liveKeys (frag_fold log)) = size (index_of log).
Proof. rewrite frag_liveKeys. apply map_size_fmap. Qed.

(** A live key has an entry of its own. *)
Lemma index_of_size log : (size (index_of log) <= length log)%nat.
Proof.
  induction log as [|e log IH] using rev_ind; [done|].
  rewrite index_of_snoc, length_app. simpl length.
  repeat case_decide.
  - pose proof (map_size_delete (Key e) (index_of log)). 
    destruct (index_of log !! Key e); simpl in *; lia.
  - rewrite map_size_insert. destruct (index_of log !! Key e); simpl; lia.
  - lia.
Qed.
End Log.
