(* ===== verification/Session.v ===== *)
(** What the writer writes.

    [writing w fw name bss c] is the writer's invariant between two calls, in a world
    without failures: the file holds exactly the blocks flushed so far under the
    header the writer keeps, and the descriptor is at its end.  The abstract state
    of a writer is the log: the entries of the flushed blocks followed by the
    entries of the buffer. *)
From S2P Require Import Prelude Crc32 Types Compressor Block FileSys Reader Contents Writer.

Section Session.
Context `{HC : Codecs} `{HOk : !CodecsOk}.

(** The entries the writer is given: well formed, with less than a gigabyte of data. *)
Definition entry_ok (e : Entry) : Prop := entry_wf e /\ Z.of_nat (length (Data e)) < 2 ^ 30.

Record writing (w : world) (fw : FileWriter) (name : bytes) (bss : list (list Entry))
    (c : bytes) : Prop := {
  wr_faults : faults w = [];
  wr_open : f_open (file fw) = true;
  wr_closed : closed fw = false;
  wr_name : f_name (file fw) = filePath fw;
  wr_file : files w !! filePath fw = Some c;
  wr_pos : f_pos (file fw) = length c;
  wr_holds : holds c (header fw) name bss [];
  wr_blocks : blockCount fw = BlockCount (header fw);
  wr_entries : entryCount fw = EntryCount (header fw)
}.

(** What flushing does to the header and the writer. *)
Definition counted (es : list Entry) (h : FileHeader) : FileHeader :=
  set_counts (u64 (EntryCount h + BEntryCount (header_of es))) (u64 (BlockCount h + 1)) h.

Definition flushed (es : list Entry) (name : bytes) (bss : list (list Entry)) (h : FileHeader)
  : bytes :=
  FileHeader_Serialize (counted es h) ++ name ++ encode_blocks (bss ++ [es]).

Definition after_flush (es : list Entry) (c : bytes) (fw : FileWriter) : FileWriter :=
  {| file := set_pos (length c) (file fw); filePath := filePath fw;
     header := counted es (header fw); buffer := cleared (buffer fw);
     blockCount := u64 (blockCount fw + 1);
     entryCount := u64 (entryCount fw + BEntryCount (header_of es));
     closed := closed fw; swampName := swampName fw |}.

Lemma counted_wf es h : header_wf h -> header_wf (counted es h).
Proof. intros []. constructor; simpl; auto with codec. Qed.

Lemma holds_counted c h name bss es :
  holds c h name bss [] -> good_block es ->
  holds (flushed es name bss h) (counted es h) name (bss ++ [es]) [].
Proof.
  intros [] He. constructor.
  - unfold flushed. by rewrite app_nil_r.
  - by apply counted_wf.
  - done.
  - apply Forall_app; auto.
Qed.

Lemma Flush_some wb :
  entries wb <> [] ->
  Flush wb = (cleared wb, Ok (Some (header_of (entries wb), payload (entries wb)))).
Proof.
  intros Hne. unfold Flush. rewrite decide_False by by intros ?%length_zero_iff_nil.
  unfold snappyCompress. by rewrite Compress_Snappy.
Qed.

Lemma Flush_none wb : entries wb = [] -> Flush wb = (wb, Ok None).
Proof. intros Hn. unfold Flush. by rewrite Hn, decide_True. Qed.

(** Overwriting the header in place of a file one block longer. *)
Lemma rewrite_header c h name bss es :
  holds c h name bss [] ->
  write_at 0 (FileHeader_Serialize (counted es h)) (c ++ encode_block es)
  = flushed es name bss h.
Proof.
  intros [Hc Hwf _ _]. rewrite write_at_start, (header_length _ (counted_wf es _ Hwf)).
  rewrite Hc, <-!app_assoc, drop_app_length' by by rewrite header_length.
  unfold flushed. rewrite encode_blocks_app. cbn [app]. unfold encode_blocks at 3.
  cbn [map concat]. by rewrite app_nil_r.
Qed.

Lemma length_flushed c h name bss es :
  holds c h name bss [] -> length (flushed es name bss h) = length (c ++ encode_block es).
Proof.
  intros [Hc Hwf _ _]. unfold flushed. rewrite Hc, encode_blocks_app, !length_app.
  rewrite !header_length by (done || by apply counted_wf).
  unfold encode_blocks at 2. cbn [map concat]. rewrite length_app. simpl length. lia.
Qed.

Lemma flushLocked_some w fw name bss c :
  writing w fw name bss c -> entries (buffer fw) <> [] -> good_block (entries (buffer fw)) ->
  let es := entries (buffer fw) in
  let c' := flushed es name bss (header fw) in
  flushLocked (w, fw) = ((put (filePath fw) c' w, after_flush es c' fw), Ok tt).
Proof.
  intros [] Hne Hes es c'.
  pose proof (rewrite_header _ _ _ _ es wr_holds0) as Hrw.
  pose proof (length_flushed _ _ _ _ es wr_holds0) as Hlen.
  unfold flushLocked, bind at 1, on_buffer. cbn [snd fst].
  rewrite Flush_some by done. fold es. unfold bind at 1.
  erewrite file_Write_ok; [|done|done|by cbn; rewrite wr_name0].
  cbn [file get_file set_file writer_has_file set_file_ set_buffer].
  rewrite wr_name0, wr_pos0, write_at_end. unfold bind at 1.
  erewrite file_Write_ok; [|done|done|cbn; rewrite wr_name0; apply files_put].
  cbn [file get_file set_file writer_has_file set_file_ set_buffer f_name f_pos set_pos].
  rewrite wr_name0, put_put, <-length_app, write_at_end, <-app_assoc, <-length_app.
  fold (encode_block es). unfold bind at 1, update at 1, modify at 1.
  unfold bind at 1, update at 1, modify at 1. unfold bind at 1.
  rewrite file_SeekCurrent_ok by done. unfold bind at 1.
  rewrite file_SeekStart_ok by done.
  unfold bind at 1, write_header, bind at 1, self, gets.
  erewrite file_Write_ok; [|done|done|cbn; rewrite wr_name0; apply files_put].
  rewrite file_SeekStart_ok by done.
  cbn -[write_at FileHeader_Serialize u64 u16].
  change (u16 (Z.of_nat (length es))) with (BEntryCount (header_of es)).
  rewrite wr_name0, wr_blocks0, wr_entries0. fold (counted es (header fw)).
  rewrite Hrw, put_put. fold c'. f_equal. f_equal.
  unfold set_file_, after_flush, set_pos. cbn. f_equal.
  - f_equal. unfold c'. rewrite Hlen. unfold encode_block.
    rewrite Nat.add_0_r, app_assoc. done.
  - by rewrite wr_blocks0.
  - by rewrite wr_entries0.
Qed.

Lemma writing_after_flush w fw name bss c :
  writing w fw name bss c -> good_block (entries (buffer fw)) ->
  let es := entries (buffer fw) in
  let c' := flushed es name bss (header fw) in
  writing (put (filePath fw) c' w) (after_flush es c' fw) name (bss ++ [es]) c'.
Proof.
  intros [] Hes es c'. constructor; simpl; try done.
  - apply files_put.
  - by eapply holds_counted.
  - by rewrite wr_blocks0.
  - by rewrite wr_entries0.
Qed.

(** ** The header's counters *)

Definition counts_ok (h : FileHeader) (bss : list (list Entry)) : Prop :=
  EntryCount h = u64 (Z.of_nat (length (concat bss))) /\
  BlockCount h = u64 (Z.of_nat (length bss)).

Lemma u64_add a b : u64 (u64 a + b) = u64 (a + b).
Proof. unfold u64. by rewrite Zplus_mod_idemp_l. Qed.

Lemma counts_ok_counted h bss es :
  counts_ok h bss -> good_block es -> counts_ok (counted es h) (bss ++ [es]).
Proof.
  intros [He Hb] []. unfold counts_ok, counted. cbn [EntryCount BlockCount set_counts].
  cbn [header_of block_header BEntryCount].
  rewrite He, Hb, !u64_add, concat_app. cbn [concat]. rewrite app_nil_r, !length_app.
  rewrite u16_small by (unfold in_u16; lia). simpl length.
  split; f_equal; lia.
Qed.

(** ** The invariant of a session *)

Record session (w : world) (fw : FileWriter) (name : bytes) (log : list Entry)
    (bss : list (list Entry)) (c : bytes) : Prop := {
  se_writing : writing w fw name bss c;
  se_counts : counts_ok (header fw) bss;
  se_buffer : buffer_ok (buffer fw);
  se_entries : Forall entry_ok (entries (buffer fw));
  se_safe : safe_block_size (maxSize (buffer fw));
  se_log : log = concat bss ++ entries (buffer fw)
}.

(** One step of a session changes only the writer's file. *)
Definition only (p : bytes) (w w' : world) : Prop :=
  faults w' = faults w /\ clock w' = clock w /\ forall q, q <> p -> files w' !! q = files w !! q.

#[export] Instance only_preorder p : PreOrder (only p).
Proof.
  split; [done|]. intros w1 w2 w3 (H1 & H2 & H3) (H4 & H5 & H6).
  split; [congruence|]. split; [congruence|]. intros q Hq. by rewrite H6, H3.
Qed.

Lemma only_put p c w : only p w (put p c w).
Proof. split_and!; [done|done|]. intros q Hq. by apply files_put_ne. Qed.

Lemma good_of_buffer wb e :
  buffer_ok wb -> safe_block_size (maxSize wb) -> Forall entry_ok (entries wb) -> entry_ok e ->
  good_block (entries wb ++ [e]).
Proof.
  intros Hb Hsafe Hes [Hw Hd]. pose proof (buffer_count_bound _ Hb Hsafe).
  destruct Hb as [Hs Hlt Hwf], Hsafe as [_ Hmax]. constructor.
  - by destruct (entries wb).
  - rewrite length_app. simpl. lia.
  - apply Forall_app; auto.
  - rewrite total_size_app. destruct Hw as (_ & _ & Hk & _).
    unfold total_size at 2, Entry_Size. simpl. lia.
Qed.

Lemma good_buffer wb :
  buffer_ok wb -> safe_block_size (maxSize wb) -> entries wb <> [] -> good_block (entries wb).
Proof.
  intros Hb Hsafe Hne. pose proof (buffer_count_bound _ Hb Hsafe).
  destruct Hb as [Hs Hlt Hwf], Hsafe as [_ Hmax]. constructor; try done; lia.
Qed.

(** What a flush leaves behind. *)
Definition flushed_state (w : world) (fw : FileWriter) (name : bytes) (log : list Entry)
    (w' : world) (fw' : FileWriter) : Prop :=
  filePath fw' = filePath fw /\ only (filePath fw) w w' /\ entries (buffer fw') = [] /\
  exists bss c, session w' fw' name log bss c.

Lemma set_buffer_same fw : set_buffer (buffer fw) fw = fw.
Proof. by destruct fw. Qed.

Lemma flushLocked_empty w fw :
  entries (buffer fw) = [] -> flushLocked (w, fw) = ((w, fw), Ok tt).
Proof.
  intros He. unfold flushLocked, bind, on_buffer. simpl.
  by rewrite Flush_none, set_buffer_same.
Qed.

Lemma flushLocked_session w fw name bss c :
  writing w fw name bss c -> counts_ok (header fw) bss ->
  0 < maxSize (buffer fw) -> safe_block_size (maxSize (buffer fw)) ->
  good_block (entries (buffer fw)) ->
  exists w' fw', flushLocked (w, fw) = ((w', fw'), Ok tt) /\
    flushed_state w fw name (concat bss ++ entries (buffer fw)) w' fw'.
Proof.
  intros Hw Hcnt Hpos Hsafe Hg.
  pose proof (flushLocked_some _ _ _ _ _ Hw (gb_nonempty _ Hg) Hg) as Hf. cbn zeta in Hf.
  pose proof (writing_after_flush _ _ _ _ _ Hw Hg) as Hw'. cbn zeta in Hw'.
  eexists _, _. split; [exact Hf|].
  split_and!; [done|apply only_put|done|].
  eexists _, _. constructor; [exact Hw'|by apply counts_ok_counted|by apply cleared_ok|done|done|].
  simpl. rewrite concat_app. simpl. by rewrite !app_nil_r.
Qed.

Lemma flush_session w fw name log bss c :
  session w fw name log bss c ->
  exists w' fw', flushLocked (w, fw) = ((w', fw'), Ok tt) /\
    flushed_state w fw name log w' fw'.
Proof.
  intros Hs. pose proof Hs as [Hw Hcnt Hb Hes Hsafe ->].
  destruct (decide (entries (buffer fw) = [])) as [He|Hne].
  - eexists _, _. split; [by apply flushLocked_empty|]. split_and!; [done|done|done|eauto].
  - pose proof Hsafe as [? _]. apply flushLocked_session with c; auto using good_buffer.
Qed.

(** ** Methods extend the log *)

Definition extends (m : M (world * FileWriter) unit) (es : list Entry) : Prop :=
  forall w fw name log bss c, session w fw name log bss c ->
  exists w' fw' bss' c', m (w, fw) = ((w', fw'), Ok tt) /\
    filePath fw' = filePath fw /\ only (filePath fw) w w' /\
    session w' fw' name (log ++ es) bss' c'.

Lemma extends_bind m m' es es' :
  extends m es -> extends m' es' -> extends (m ;;; m') (es ++ es').
Proof.
  intros Hm Hm' w fw name log bss c Hs.
  destruct (Hm _ _ _ _ _ _ Hs) as (w1 & fw1 & bss1 & c1 & E1 & Hp1 & Ho1 & Hs1).
  destruct (Hm' _ _ _ _ _ _ Hs1) as (w2 & fw2 & bss2 & c2 & E2 & Hp2 & Ho2 & Hs2).
  exists w2, fw2, bss2, c2. unfold bind. rewrite E1, E2, app_assoc.
  split_and!; [done|congruence| |done]. etransitivity; [done|]. by rewrite <-Hp1.
Qed.

Lemma extends_ret : extends (ret tt) [].
Proof.
  intros w fw name log bss c Hs. exists w, fw, bss, c. by rewrite app_nil_r.
Qed.

Lemma extends_if_open m es : extends m es -> extends (if_open m) es.
Proof.
  intros Hm w fw name log bss c Hs. unfold if_open, bind at 1, self, gets. simpl.
  rewrite (wr_closed _ _ _ _ _ (se_writing _ _ _ _ _ _ Hs)). by eapply Hm.
Qed.

Lemma extends_flush : extends flushLocked [].
Proof.
  intros w fw name log bss c Hs.
  destruct (flush_session _ _ _ _ _ _ Hs) as (w' & fw' & E & Hp & Ho & _ & bss' & c' & Hs').
  exists w', fw', bss', c'. by rewrite app_nil_r.
Qed.

Lemma extends_add e :
  entry_ok e ->
  extends (shouldFlush <-- buffer_Add e ;;
           if (shouldFlush : bool) then flushLocked else ret tt) [e].
Proof.
  intros He w fw name log bss c [Hw Hcnt Hb Hes Hsafe ->].
  pose proof (good_of_buffer _ _ Hb Hsafe Hes He) as Hg.
  set (b' := (Add e (buffer fw)).1).
  assert (buffer_Add e (w, fw) = ((w, set_buffer b' fw), Ok (Add e (buffer fw)).2)) as Ha by done.
  assert (writing w (set_buffer b' fw) name bss c) as Hw' by (destruct Hw; by constructor).
  unfold bind. rewrite Ha. cbn [Add snd]. case_bool_decide as Hfull.
  - destruct (flushLocked_session w (set_buffer b' fw) name bss c) as (w' & fw' & E & Hp & Ho & _ & bss' & c' & Hs');
      try done; [destruct Hb; simpl in *; by apply Hsafe|].
    exists w', fw', bss', c'. rewrite E. split_and!; try done. by rewrite <-app_assoc.
  - exists w, (set_buffer b' fw), bss, c. split_and!; try done.
    constructor; try done.
    + destruct Hb as [Hsz Hlt Hwf]. constructor; simpl in *.
      * rewrite total_size_app, Hsz. change (total_size [e]) with (Entry_Size e + 0)%nat. lia.
      * lia.
      * apply Forall_app. split; [done|]. repeat constructor; apply He.
    + apply Forall_app; auto.
    + by rewrite <-app_assoc.
Qed.

Lemma extends_write_entries es :
  Forall entry_ok es -> extends (write_entries_loop es) es.
Proof.
  induction 1 as [|e es He _ IH]; [apply extends_ret|].
  intros w fw name log bss c Hs.
  pose proof (extends_bind _ _ _ _ (extends_add e He) IH) as Hx.
  destruct (Hx _ _ _ _ _ _ Hs) as (w' & fw' & bss' & c' & E & Hrest).
  exists w', fw', bss', c'. split; [|exact Hrest]. rewrite <-E.
  cbn [write_entries_loop]. unfold bind. by destruct (buffer_Add e (w, fw)) as [s' [[]|]].
Qed.

(** ** Commands *)

Inductive command : Type :=
| CWriteEntry (e : Entry)
| CWriteEntries (es : list Entry)
| CFlush
| CSync.

Definition run_command (cmd : command) : M (world * FileWriter) unit :=
  match cmd with
  | CWriteEntry e => WriteEntry e
  | CWriteEntries es => WriteEntries es
  | CFlush => Flush_
  | CSync => Sync
  end.

Definition appended (cmd : command) : list Entry :=
  match cmd with
  | CWriteEntry e => [e]
  | CWriteEntries es => es
  | _ => []
  end.

Fixpoint run_commands (cmds : list command) : M (world * FileWriter) unit :=
  match cmds with
  | [] => ret tt
  | cmd :: cmds => run_command cmd ;;; run_commands cmds
  end.

(** Writing the header the file already has. *)
Lemma header_counts_same w fw name bss c :
  writing w fw name bss c -> header_counts fw = fw.
Proof.
  intros Hw. pose proof (wr_blocks _ _ _ _ _ Hw) as Hb. pose proof (wr_entries _ _ _ _ _ Hw) as He.
  clear Hw. destruct fw as [? ? [] ? ? ? ? ?]. simpl in *. by subst.
Qed.

Lemma write_header_again w fw name bss c :
  writing w fw name bss c ->
  exists n, write_header (w, set_file_ (set_pos 0 (file fw)) fw)
    = ((w, set_file_ (set_pos n (file fw)) fw), Ok tt).
Proof.
  intros []. pose proof (ho_header _ _ _ _ _ wr_holds0) as Hwf.
  unfold write_header, bind, self, gets. cbn [snd header set_file_].
  erewrite file_Write_ok; [|done|done|by cbn; rewrite wr_name0].
  cbn [file get_file set_file writer_has_file set_file_ f_name f_pos set_pos].
  rewrite write_at_start, (header_length _ Hwf), wr_name0.
  replace (FileHeader_Serialize (header fw) ++ drop FileHeaderSize c) with c.
  - rewrite put_same by done. eexists. done.
  - rewrite (ho_content _ _ _ _ _ wr_holds0) at 1.
    rewrite (ho_content _ _ _ _ _ wr_holds0), drop_app_length'; [done|].
    symmetry. by apply header_length.
Qed.

Lemma extends_Sync : extends Sync [].
Proof.
  apply extends_if_open. intros w fw name log bss c Hs.
  destruct (flush_session _ _ _ _ _ _ Hs) as (w' & fw' & E & Hp & Ho & _ & bss' & c' & Hs').
  pose proof (se_writing _ _ _ _ _ _ Hs') as Hw.
  destruct (write_header_again _ _ _ _ _ Hw) as [n Hn].
  exists w', fw', bss', c'. rewrite app_nil_r. split_and!; try done.
  unfold bind at 1. rewrite E. unfold bind at 1, update, modify. cbn [fst snd].
  rewrite (header_counts_same _ _ _ _ _ Hw). destruct Hw.
  unfold bind at 1. rewrite file_SeekStart_ok by done.
  cbn [get_file set_file writer_has_file]. unfold bind at 1. rewrite Hn.
  unfold bind. erewrite file_SeekEnd_ok; [|done|done|by cbn; rewrite wr_name0].
  rewrite file_Sync_ok by done.
  cbn. rewrite <-wr_pos0. do 2 f_equal. by destruct fw' as [[] ? ? ? ? ? ? ?].
Qed.

Lemma extends_command cmd :
  Forall entry_ok (appended cmd) -> extends (run_command cmd) (appended cmd).
Proof.
  intros Hok. destruct cmd as [e|es| |]; simpl.
  - apply extends_if_open, extends_add. by inversion Hok.
  - by apply extends_if_open, extends_write_entries.
  - apply extends_if_open, extends_flush.
  - apply extends_Sync.
Qed.

Lemma extends_commands cmds :
  Forall entry_ok (concat (map appended cmds)) ->
  extends (run_commands cmds) (concat (map appended cmds)).
Proof.
  induction cmds as [|cmd cmds IH]; intros Hok; [apply extends_ret|].
  simpl in *. apply Forall_app in Hok as [? ?].
  apply extends_bind; [by apply extends_command|by apply IH].
Qed.

(** ** Files between sessions *)

(** [stored w p name bss] : the file [p] is complete and holds the blocks [bss] of the
    swamp [name], with the right counts in its header. *)
Definition stored (w : world) (p name : bytes) (bss : list (list Entry)) : Prop :=
  exists c h, files w !! p = Some c /\ holds c h name bss [] /\ counts_ok h bss.

Definition stored_log (w : world) (p name : bytes) (log : list Entry) : Prop :=
  exists bss, stored w p name bss /\ concat bss = log.

(** The swamp name fits the 16-bit field of the header. *)
Definition name_ok (name : bytes) : Prop := Z.of_nat (length name) < 2 ^ 16.

Lemma Close_session w fw name log bss c :
  session w fw name log bss c ->
  exists w' fw', Close (w, fw) = ((w', fw'), Ok tt) /\
    filePath fw' = filePath fw /\ closed fw' = true /\ f_open (file fw') = false /\
    only (filePath fw) w w' /\ faults w' = [] /\ stored_log w' (filePath fw) name log.
Proof.
  intros Hs.
  destruct (flush_session _ _ _ _ _ _ Hs) as (w' & fw' & E & Hp & Ho & Hb & bss' & c' & Hs').
  pose proof (se_writing _ _ _ _ _ _ Hs') as Hw.
  destruct (write_header_again _ _ _ _ _ Hw) as [n Hn].
  assert (Close (w, fw) = ((w', set_fw_closed (set_file_ (set_closed (set_pos n (file fw'))) fw')), Ok tt))
    as HClose.
  { unfold Close, bind at 1, self, gets. cbn [snd].
    rewrite (wr_closed _ _ _ _ _ (se_writing _ _ _ _ _ _ Hs)).
    unfold bind at 1, on_err at 1. rewrite E. unfold bind at 1, update, modify. cbn [fst snd].
    rewrite (header_counts_same _ _ _ _ _ Hw). destruct Hw.
    unfold bind at 1, on_err at 1. rewrite file_SeekStart_ok by done.
    cbn [get_file set_file writer_has_file]. unfold bind at 1, on_err at 1. rewrite Hn.
    unfold bind at 1, on_err at 1. rewrite file_Sync_ok by done.
    unfold bind. cbn [fst snd]. by rewrite file_Close_ok. }
  eexists _, _. split; [exact HClose|]. split_and!; try done.
  - by destruct Hw.
  - exists bss'. destruct Hs' as [[] Hc' _ _ _ ->]. split.
    + exists c', (header fw'). rewrite <-Hp. done.
    + by rewrite Hb, app_nil_r.
Qed.

(** ** Opening a writer *)

Definition opens (m : M world FileWriter) (w : world) (p name : bytes) (log : list Entry)
    (maxBlockSize : Z) : Prop :=
  exists w' fw bss c, m w = (w', Ok fw) /\ filePath fw = p /\ only p w w' /\
    maxSize (buffer fw) = maxSize (NewWriteBuffer maxBlockSize) /\
    session w' fw name log bss c.

Definition new_header (now : Z) (name : bytes) : FileHeader :=
  set_NameLength (u16 (Z.of_nat (length name))) (NewFileHeader now).

Lemma new_header_wf now name : in_i64 now -> header_wf (new_header now name).
Proof.
  intros Hn. constructor; cbn; auto with codec; try (unfold in_u16, in_u32, in_u64; lia).
  all: first [done | by right].
Qed.

Lemma new_file_holds now name :
  name_ok name -> in_i64 now ->
  holds (FileHeader_Serialize (new_header now name) ++ name) (new_header now name) name [] [].
Proof.
  intros Hn Hi. constructor; [|by apply new_header_wf| |done].
  - cbn. by rewrite app_nil_r.
  - unfold DataStartOffset. cbn. unfold name_ok in Hn.
    rewrite u16_small by (unfold in_u16; lia). change (IsV3 _) with true. cbv iota. unfold FileHeaderSize. lia.
Qed.

Lemma session_opened w p h name bss c n m sn :
  faults w = [] -> files w !! p = Some c -> n = length c -> holds c h name bss [] ->
  counts_ok h bss -> safe_block_size (maxSize (NewWriteBuffer m)) ->
  session w {| file := {| f_name := p; f_pos := n; f_open := true |}; filePath := p;
               header := h; buffer := NewWriteBuffer m; blockCount := BlockCount h;
               entryCount := EntryCount h; closed := false; swampName := sn |}
    name (concat bss) bss c.
Proof.
  intros. constructor; [by constructor|done|apply NewWriteBuffer_ok|done|done|].
  by rewrite app_nil_r.
Qed.

Lemma createNewFile_ok w p m name :
  faults w = [] -> in_i64 (clock w) -> name_ok name ->
  safe_block_size (maxSize (NewWriteBuffer m)) ->
  opens (createNewFile p m name) w p name [] m.
Proof.
  intros Hf Hi Hn Hm.
  set (h := new_header (clock w) name).
  pose proof (new_file_holds _ _ Hn Hi) as Hh. fold h in Hh.
  set (c := FileHeader_Serialize h ++ name) in *.
  exists (put p c w).
  unfold createNewFile, bind at 1, os_Create. rewrite os_call_ok by done.
  unfold bind at 1, gets. cbn [clock set_files].
  change (set_NameLength _ (NewFileHeader (clock w))) with h.
  set (f := {| f_name := p; f_pos := 0; f_open := true |}).
  fold (put p [] w). unfold bind at 1, with_local, bind at 1, on_err at 1.
  erewrite file_Write_ok; [|done|done|apply files_put].
  cbn [f f_name f_pos get_file set_file file_has_file].
  rewrite write_at_start, drop_nil, app_nil_r, put_put, Nat.add_0_l.
  assert (opens (fun w' => (w', Ok {| file := set_pos (length c) f; filePath := p; header := h;
    buffer := NewWriteBuffer m; blockCount := 0; entryCount := 0; closed := false;
    swampName := name |})) (put p c w) p name [] m) as (w' & fw & bss & c' & E & Hp & Ho & Hs).
  { eexists _, _, [], c. split; [done|]. split_and!; [done|done|done|].
    apply (session_opened _ _ h _ []); try done. apply files_put. }
  injection E as <- <-. eexists _, _, _. split; [|split_and!; [exact Hp|apply only_put|apply Hs..]].
  case_decide as Hl.
  - unfold on_err. erewrite file_Write_ok; [|done|done|apply files_put].
    cbn [f_name set_pos f get_file file_has_file f_pos set_file].
    by rewrite put_put, write_at_end, <-length_app.
  - assert (name = []) as -> by (by destruct name; simpl in Hl; [|lia]).
    unfold c. by rewrite app_nil_r.
Qed.

Lemma openExistingFile_ok w p m sn name bss :
  faults w = [] -> stored w p name bss -> safe_block_size (maxSize (NewWriteBuffer m)) ->
  opens (openExistingFile p m sn) w p name (concat bss) m.
Proof.
  intros Hf (c & h & Hc & Hh & Hcnt) Hm. pose proof (ho_header _ _ _ _ _ Hh) as Hwf.
  eexists w, _, bss, c. split; [|split_and!; [..|by apply session_opened]]; try done.
  unfold openExistingFile, bind at 1, os_Open. rewrite os_call_ok, Hc by done.
  set (f := {| f_name := p; f_pos := 0; f_open := true |}).
  unfold bind at 1, with_local, bind at 1, on_err at 1.
  erewrite io_ReadFull_ok; [|done|done|done|].
  2:{ cbn [f f_pos get_file file_has_file]. rewrite (ho_content _ _ _ _ _ Hh), !length_app.
      rewrite header_length by done. lia. }
  cbn [f_pos f get_file file_has_file]. rewrite drop_0, (ho_content _ _ _ _ _ Hh) at 1.
  rewrite take_app_length' by (by rewrite header_length).
  unfold bind at 1, on_err at 1, liftr. rewrite <-(app_nil_r (FileHeader_Serialize h)).
  rewrite FileHeader_roundtrip by done. unfold bind at 1, on_err at 1.
  erewrite file_SeekEnd_ok; [|done|done|done]. done.
Qed.

(** Opening for append, whether the file is there or not. *)
Lemma NewFileWriterWithName_ok w p m name log :
  faults w = [] -> in_i64 (clock w) -> p <> [] -> name_ok name ->
  safe_block_size (maxSize (NewWriteBuffer m)) ->
  (files w !! p = None /\ log = [] \/ stored_log w p name log) ->
  opens (NewFileWriterWithName p m name) w p name log m.
Proof.
  intros Hf Hi Hp Hn Hm Hw. unfold opens, NewFileWriterWithName. rewrite decide_False by done.
  unfold bind, try, os_Stat. rewrite os_call_ok by done.
  destruct Hw as [[Hw ->]|(bss & Hst & <-)].
  - rewrite Hw. by apply createNewFile_ok.
  - pose proof Hst as (c & h & -> & _). by apply openExistingFile_ok.
Qed.

(** ** Whole sessions *)

Definition write_session (p : bytes) (maxBlockSize : Z) (name : bytes) (cmds : list command)
  : M world unit :=
  fw <-- NewFileWriterWithName p maxBlockSize name ;;
  with_local fw (run_commands cmds ;;; Close) ;;;
  ret tt.

Lemma write_session_ok w p m name log cmds :
  faults w = [] -> in_i64 (clock w) -> p <> [] -> name_ok name ->
  safe_block_size (maxSize (NewWriteBuffer m)) ->
  (files w !! p = None /\ log = [] \/ stored_log w p name log) ->
  Forall entry_ok (concat (map appended cmds)) ->
  exists w', write_session p m name cmds w = (w', Ok tt) /\ only p w w' /\
    stored_log w' p name (log ++ concat (map appended cmds)).
Proof.
  intros Hf Hi Hp Hn Hm Hw Hcmds.
  destruct (NewFileWriterWithName_ok w p m name log) as (w1 & fw1 & bss1 & c1 & E1 & Hp1 & Ho1 & _ & Hs1);
    try done.
  destruct (extends_commands cmds Hcmds _ _ _ _ _ _ Hs1) as (w2 & fw2 & bss2 & c2 & E2 & Hp2 & Ho2 & Hs2).
  destruct (Close_session _ _ _ _ _ _ Hs2) as (w3 & fw3 & E3 & Hp3 & _ & _ & Ho3 & _ & Hl).
  exists w3. rewrite Hp2, Hp1 in *. split_and!; [|by do 2 (etransitivity; [done|])|done].
  unfold write_session, bind at 1. rewrite E1. unfold with_local, bind. by rewrite E2, E3.
Qed.
End Session.
