(* ===== verification/Loops.v ===== *)
(** The reader's loops: header scan, and termination on arbitrary contents.

    The scan of [ScanBlockHeaders] visits the same blocks as the reading loop
    without their payloads.  Both loops end on every file and under every schedule
    of failures: a block that is read moves the descriptor forward by at least the
    sixteen bytes of its header, within the file. *)
From S2P Require Import Prelude Types Compressor Block FileSys Reader Contents.

Section Loops.
Context `{HC : Codecs}.

(** ** The header scan *)

Definition scanned (bss : list (list Entry)) (r : BlockScanResult) : BlockScanResult :=
  foldl (fun r es => scan_add (header_of es) r) r bss.

Lemma scan_add_fields es r :
  good_block es ->
  scan_add (header_of es) r =
    {| ScanBlockCount := u64 (ScanBlockCount r + 1);
       TotalEntryCount := u64 (TotalEntryCount r + Z.of_nat (length es));
       TotalUncompressedSize := u64 (TotalUncompressedSize r + Z.of_nat (total_size es)) |}.
Proof.
  intros []. unfold scan_add. cbn [header_of block_header BEntryCount UncompressedSize].
  rewrite length_serializeEntries, u16_small, u32_small by (unfold in_u16, in_u32; lia). done.
Qed.

Lemma u64_add_l a b : u64 (u64 a + b) = u64 (a + b).
Proof. unfold u64. by rewrite Zplus_mod_idemp_l. Qed.

Lemma scanned_fields bss n e s :
  Forall good_block bss ->
  scanned bss {| ScanBlockCount := u64 n; TotalEntryCount := u64 e; TotalUncompressedSize := u64 s |} =
    {| ScanBlockCount := u64 (n + Z.of_nat (length bss));
       TotalEntryCount := u64 (e + Z.of_nat (length (concat bss)));
       TotalUncompressedSize := u64 (s + Z.of_nat (total_size (concat bss))) |}.
Proof.
  intros Hb. revert n e s. induction Hb as [|es bss He _ IH]; intros n e s.
  - simpl. by rewrite !Z.add_0_r.
  - unfold scanned in *. cbn [foldl]. rewrite scan_add_fields by done.
    cbn [ScanBlockCount TotalEntryCount TotalUncompressedSize].
    rewrite !u64_add_l, IH. cbn [concat length].
    rewrite total_size_app, length_app. f_equal; f_equal; lia.
Qed.

Context `{HOk : !CodecsOk}.

Lemma scan_block fuel r w fr c es rest :
  at_rest w fr c (encode_block es ++ rest) -> good_block es ->
  at_rest w (skip (length (encode_block es)) fr) c rest /\
  scan_loop (S fuel) r (w, fr) =
    scan_loop fuel (scan_add (header_of es) r) (w, skip (length (encode_block es)) fr).
Proof.
  intros Ha He. split; [by eapply at_rest_skip|].
  rewrite <-encode_block_header in Ha. pose proof (length_BlockHeader (header_of es)) as Hl.
  assert (BlockHeader_Serialize (header_of es) <> []) as Hne by by intros Hn; rewrite Hn in Hl.
  pose proof (read_at_rest _ _ _ _ _ Ha Hne) as Hr. apply at_rest_skip in Ha. rewrite Hl in *.
  cbn [scan_loop]. rewrite (bind_run _ _ _ _ _ (try_run _ _ _ _ Hr)).
  rewrite decide_False by lia. unfold bind at 1, liftr at 1.
  rewrite <-(app_nil_r (BlockHeader_Serialize _)), BlockHeader_roundtrip by by apply header_of_wf.
  destruct Ha. unfold bind. rewrite file_SeekCurrent_ok by done. cbn zeta.
  by rewrite header_of_csize, length_encode_block, <-skip_skip.
Qed.

Lemma scan_loop_blocks bss fuel r w fr c :
  at_rest w fr c (encode_blocks bss) -> Forall good_block bss -> (length bss < fuel)%nat ->
  exists fr', scan_loop fuel r (w, fr) = ((w, fr'), Ok (scanned bss r)).
Proof.
  intros Ha Hb. revert fuel r fr Ha. induction Hb as [|es bss He _ IH]; intros fuel r fr Ha Hf.
  - destruct fuel as [|fuel]; [simpl in Hf; lia|]. destruct Ha as [Hfl Ho Hfile Hrest].
    pose proof (file_Read_eof BlockHeaderSize w fr c Hfl Ho Hfile ltac:(done) Hrest) as Hr.
    cbn [scan_loop]. rewrite (bind_run _ _ _ _ _ (try_run _ _ _ _ Hr)).
    by exists fr.
  - destruct fuel as [|fuel]; [simpl in Hf; lia|]. rewrite encode_blocks_cons in Ha.
    destruct (scan_block fuel r _ _ _ _ _ Ha He) as [Ha' ->].
    destruct (IH fuel (scan_add (header_of es) r) _ Ha') as [fr' ->]; [simpl in Hf; lia|].
    by exists fr'.
Qed.

Lemma ScanBlockHeaders_ok w fr c h name bss :
  reading w fr c h -> holds c h name bss [] ->
  exists fr', ScanBlockHeaders (w, fr) =
    ((w, fr'), Ok {| ScanBlockCount := u64 (Z.of_nat (length bss));
                     TotalEntryCount := u64 (Z.of_nat (length (concat bss)));
                     TotalUncompressedSize := u64 (Z.of_nat (total_size (concat bss))) |}).
Proof.
  intros Hr Hh. pose proof (ho_blocks _ _ _ _ _ Hh) as Hb.
  destruct (seek_data_ok _ _ _ _ _ _ _ Hr Hh) as (fr1 & Hs & Hf1 & Ha). rewrite app_nil_r in Ha.
  unfold ScanBlockHeaders. rewrite (bind_run _ _ _ _ _ Hs).
  unfold loop_fuel, bind, gets. cbn [fst snd]. rewrite Hf1. cbn [f_name set_pos].
  rewrite (re_file _ _ _ _ Hr). simpl default.
  destruct (scan_loop_blocks bss (S (length c))
    {| ScanBlockCount := 0; TotalEntryCount := 0; TotalUncompressedSize := 0 |} w fr1 c)
    as [fr' ->]; [done|done|by eapply fuel_enough|].
  exists fr'. pose proof (scanned_fields bss 0 0 0 Hb) as Hsc.
  change (u64 0) with 0 in Hsc. by rewrite Hsc.
Qed.
End Loops.

(** ** Termination *)

(** [m] never runs out of fuel. *)
Definition terminates {S A} (m : M S A) : Prop := forall s, (m s).2 <> Err ErrFuel.

Create HintDb terminates discriminated.

Section Terminates.
Context {S : Type}.
Lemma terminates_ret {A} (a : A) : terminates (S := S) (ret a).
Proof. done. Qed.
Lemma terminates_gets {A} (f : S -> A) : terminates (gets f).
Proof. done. Qed.
Lemma terminates_liftr {A} (r : result A) : r <> Err ErrFuel -> terminates (S := S) (liftr r).
Proof. by intros Hr s. Qed.
Lemma terminates_bind {A B} (m : M S A) (k : A -> M S B) :
  terminates m -> (forall a, terminates (k a)) -> terminates (bind m k).
Proof.
  intros Hm Hk s. unfold bind. specialize (Hm s). destruct (m s) as [s' [a|e]]; [apply Hk|].
  simpl in *. congruence.
Qed.
Lemma terminates_on_err {A B} (m : M S A) (h : M S B) : terminates m -> terminates (on_err m h).
Proof. intros Hm s. unfold on_err. specialize (Hm s). by destruct (m s) as [s' [a|e]]. Qed.
End Terminates.

Section FileTerminates.
Context {X : Type} `{!HasFile X}.
Lemma file_call_terminates {A} (ok : M (world * X) A) bad :
  terminates ok -> (forall k, terminates (bad k)) -> terminates (file_call ok bad).
Proof.
  intros Hok Hbad s. unfold file_call, syscall. destruct (f_open _); [|done].
  destruct (faults s.1) as [|[k|] l]; [apply Hok|apply Hbad|apply Hok].
Qed.
Lemma file_Read_terminates n : terminates (file_Read (X := X) n).
Proof. apply file_call_terminates; [|done]. intros s. cbn zeta. by case_decide. Qed.
Lemma io_ReadFull_terminates n : terminates (io_ReadFull (X := X) n).
Proof. apply file_call_terminates; [|done]. intros s. cbn zeta. by repeat case_decide. Qed.
Lemma file_SeekStart_terminates n : terminates (file_SeekStart (X := X) n).
Proof. by apply file_call_terminates. Qed.
Lemma file_SeekCurrent_terminates n : terminates (file_SeekCurrent (X := X) n).
Proof. by apply file_call_terminates. Qed.
End FileTerminates.

#[export] Hint Resolve terminates_ret terminates_gets terminates_bind terminates_on_err
  file_Read_terminates io_ReadFull_terminates file_SeekStart_terminates
  file_SeekCurrent_terminates : terminates.

(** The descriptor moves forward only. *)
Definition forward : relation (world * FileReader) := fun s s' =>
  files s'.1 = files s.1 /\ f_name (r_file s'.2) = f_name (r_file s.2) /\
  (f_pos (r_file s.2) <= f_pos (r_file s'.2))%nat.

#[export] Instance forward_preorder : PreOrder forward.
Proof.
  split; [done|]. intros s1 s2 s3 (H1 & H2 & H3) (H4 & H5 & H6).
  split_and!; [congruence|congruence|lia].
Qed.

Lemma file_call_forward {A} (ok : M (world * FileReader) A) bad :
  respects forward ok -> (forall k, respects forward (bad k)) ->
  respects forward (file_call ok bad).
Proof.
  intros Hok Hbad s. unfold file_call. destruct (f_open _); [|done].
  by apply syscall_respects; [apply _| | |].
Qed.

Lemma advance_forward n s : forward s (advance n s).
Proof. split_and!; simpl; [done|done|lia]. Qed.

Lemma io_ReadFull_forward n : respects forward (io_ReadFull n).
Proof.
  apply file_call_forward; [|intros; apply respects_fail, _].
  intros s. cbn zeta. repeat case_decide; simpl; done || apply advance_forward.
Qed.
Lemma file_Read_forward n : respects forward (file_Read n).
Proof.
  apply file_call_forward; [|intros; apply respects_fail, _].
  intros s. cbn zeta. repeat case_decide; simpl; done || apply advance_forward.
Qed.
Lemma file_SeekCurrent_forward n : respects forward (file_SeekCurrent n).
Proof.
  apply file_call_forward; [|intros; apply respects_fail, _].
  apply respects_bind; [apply _| |intros; apply respects_gets, _].
  apply respects_modify. intros. apply advance_forward.
Qed.

(** The bytes between the descriptor and the end of its file. *)
Definition remaining (s : world * FileReader) : nat :=
  (length (default [] (files s.1 !! f_name (r_file s.2))) - f_pos (r_file s.2))%nat.

Lemma forward_remaining s s' : forward s s' -> (remaining s' <= remaining s)%nat.
Proof. intros (Hf & Hn & Hp). unfold remaining. rewrite Hf, Hn. lia. Qed.

(** A full read takes its bytes from the rest of the file. *)
Lemma file_Read_progress n s s' got :
  file_Read n s = (s', Ok got) -> (n <= length got)%nat -> n <> O ->
  (remaining s' < remaining s)%nat.
Proof.
  unfold file_Read, file_call, syscall. destruct (f_open _); [|done].
  assert (forall s, (let got := take n (rest_of s) in
    if decide (got = [] /\ n <> O) then (s, Err EOF) else (advance (length got) s, Ok got))
    = (s', Ok got) -> (n <= length got)%nat -> n <> O -> (remaining s' < remaining s)%nat) as Hok.
  { clear. intros s Heq Hl Hn. cbn zeta in Heq. case_decide; [done|].
    injection Heq as <- <-. rewrite length_take in Hl.
    unfold rest_of, remaining in *. simpl in *. rewrite length_take.
    rewrite length_drop in *. lia. }
  destruct (faults s.1) as [|[k|] l]; [apply Hok|done|].
  intros Heq Hl Hn. by apply (Hok _ Heq).
Qed.

Section LoopsTerminate.
Context `{HC : Codecs}.

Lemma readNextBlock_progress s s' b :
  readNextBlock s = (s', Ok b) -> (remaining s' < remaining s)%nat.
Proof.
  intros (s1 & off & E1 & H1)%bind_Ok. apply bind_Ok in H1 as (s2 & hb & E2 & H2).
  case_decide as Hl; [done|]. apply bind_Ok in H2 as (s3 & bh & E3 & H3).
  apply bind_Ok in H3 as (s4 & cd & E4 & H4). apply bind_Ok in H4 as (s5 & blk & E5 & H5).
  pose proof (file_SeekCurrent_forward 0 s) as F1. rewrite E1 in F1.
  pose proof (io_ReadFull_forward (Z.to_nat (CompressedSize bh)) s3) as F4. rewrite E4 in F4.
  apply forward_remaining in F1, F4. simpl in F1, F4.
  apply file_Read_progress in E2; [|unfold BlockHeaderSize in *; lia|done].
  unfold liftr in E3, E5. unfold ret in H5. simplify_eq. lia.
Qed.

Lemma Entry_Deserialize_no_fuel buf : Entry_Deserialize buf <> Err ErrFuel.
Proof. unfold Entry_Deserialize. cbn zeta. by repeat (case_decide; try done). Qed.

Lemma parse_entries_no_fuel n off buf : parse_entries n off buf <> Err ErrFuel.
Proof.
  revert off. induction n as [|n IH]; intros off; simpl; [done|].
  pose proof (Entry_Deserialize_no_fuel (drop off buf)).
  destruct (Entry_Deserialize _) as [[c e]|e]; simpl; [|congruence].
  specialize (IH (off + c)%nat). destruct (parse_entries n _ _); simpl; congruence.
Qed.

Lemma ParseBlock_no_fuel h data : ParseBlock h data <> Err ErrFuel.
Proof.
  unfold ParseBlock. destruct (negb _); [done|].
  unfold snappyDecompress, Decompress, decompressSnappy, or_error. simpl.
  destruct (snappy_decode data) as [u|]; simpl; [|done]. case_decide; [done|].
  pose proof (parse_entries_no_fuel (Z.to_nat (BEntryCount h)) 0 u).
  destruct (parse_entries _ _ _); simpl; congruence.
Qed.

Lemma readNextBlock_terminates : terminates readNextBlock.
Proof.
  apply terminates_bind; [auto with terminates|intros off].
  apply terminates_bind; [auto with terminates|intros hb]. case_decide; [done|].
  apply terminates_bind; [|intros bh].
  { apply terminates_liftr. unfold BlockHeader_Deserialize. by case_decide. }
  apply terminates_bind; [auto with terminates|intros cd].
  apply terminates_bind; [apply terminates_liftr, ParseBlock_no_fuel|auto with terminates].
Qed.

Lemma read_entries_loop_terminates {St} (cb : St -> Entry -> St * bool) fuel st total s :
  (remaining s < fuel)%nat -> (read_entries_loop cb fuel st total s).2 <> Err ErrFuel.
Proof.
  revert st total s. induction fuel as [|fuel IH]; intros st total s Hf; [lia|].
  cbn [read_entries_loop]. unfold bind, try.
  pose proof (readNextBlock_terminates s) as Ht.
  destruct (readNextBlock s) as [s' [b|e]] eqn:E.
  - apply readNextBlock_progress in E.
    destruct (feed cb st total (BEntries b)) as [[st' total'] []]; [|done]. apply IH. lia.
  - simpl in Ht. destruct e; simpl; congruence.
Qed.

Lemma read_blocks_loop_terminates fuel blocks s :
  (remaining s < fuel)%nat -> (read_blocks_loop fuel blocks s).2 <> Err ErrFuel.
Proof.
  revert blocks s. induction fuel as [|fuel IH]; intros blocks s Hf; [lia|].
  cbn [read_blocks_loop]. unfold bind, try.
  pose proof (readNextBlock_terminates s) as Ht.
  destruct (readNextBlock s) as [s' [b|e]] eqn:E.
  - apply readNextBlock_progress in E. apply IH. lia.
  - simpl in Ht. destruct e; simpl; congruence.
Qed.

Lemma scan_loop_terminates fuel r s :
  (remaining s < fuel)%nat -> (scan_loop fuel r s).2 <> Err ErrFuel.
Proof.
  revert r s. induction fuel as [|fuel IH]; intros r s Hf; [lia|].
  cbn [scan_loop]. unfold bind at 1, try.
  pose proof (file_Read_terminates BlockHeaderSize s) as Ht.
  destruct (file_Read BlockHeaderSize s) as [s1 [hb|e]] eqn:E;
    [|simpl in Ht; destruct e; simpl; congruence].
  case_decide as Hl; [done|]. apply file_Read_progress in E; [|unfold BlockHeaderSize in *; lia|done].
  unfold BlockHeader_Deserialize. rewrite decide_False by done. unfold bind, liftr.
  match goal with |- context [file_SeekCurrent ?n s1] => set (d := n) end.
  pose proof (file_SeekCurrent_forward d s1) as F.
  pose proof (file_SeekCurrent_terminates d s1) as Ht'.
  destruct (file_SeekCurrent d s1) as [s2 [p|e]]; [|simpl in *; congruence].
  apply IH. apply forward_remaining in F. simpl in F. lia.
Qed.

(** After the initial seek the fuel the methods take is enough. *)
Lemma from_data_terminates {A} (k : nat -> M (world * FileReader) A) :
  (forall fuel s, (remaining s < fuel)%nat -> (k fuel s).2 <> Err ErrFuel) ->
  terminates (seek_data ;;; fuel <-- loop_fuel ;; k fuel).
Proof.
  intros Hk. apply terminates_bind.
  - unfold seek_data. auto with terminates.
  - intros _ s. unfold loop_fuel, bind, gets. apply Hk. unfold remaining. lia.
Qed.

Lemma ReadAllEntries_terminates {St} (cb : St -> Entry -> St * bool) st :
  terminates (ReadAllEntries cb st).
Proof. apply from_data_terminates. intros. by apply read_entries_loop_terminates. Qed.
Lemma ReadAllBlocks_terminates : terminates ReadAllBlocks.
Proof. apply from_data_terminates. intros. by apply read_blocks_loop_terminates. Qed.
Lemma ScanBlockHeaders_terminates : terminates ScanBlockHeaders.
Proof. apply from_data_terminates. intros. by apply scan_loop_terminates. Qed.
End LoopsTerminate.
