(* ===== verification/Compactor.v ===== *)
(** The compactor: [chronicler/v2/compactor.go].

    A [Compactor] method runs under the flag [isRunning], which the mutex protects;
    the body touches the file system only.  The Go methods return the partly filled result beside
    an error, with the error stored in it again; the model drops it, as the callers do. *)
From S2P Require Import Prelude Types Compressor Block FileSys Writer Reader.

(** The path suffix of the file a compaction writes. *)
Definition GetCompactionTempPath (filePath : bytes) : bytes := filePath ++ bs ".compact".

Record Compactor := {
  c_filePath : bytes;
  c_maxBlockSize : Z;
  isRunning : bool;
  c_threshold : float64
}.

Definition set_running (b : bool) (c : Compactor) : Compactor :=
  {| c_filePath := c_filePath c; c_maxBlockSize := c_maxBlockSize c; isRunning := b;
     c_threshold := c_threshold c |}.
Definition set_threshold (t : float64) (c : Compactor) : Compactor :=
  {| c_filePath := c_filePath c; c_maxBlockSize := c_maxBlockSize c;
     isRunning := isRunning c; c_threshold := t |}.

Record CompactionResult := {
  OldFileSize : Z;
  NewFileSize : Z;
  TotalEntries : Z;
  LiveEntries : Z;
  RemovedEntries : Z;
  Fragmentation : float64;
  Compacted : bool;
  FileDeleted : bool
}.

Definition no_result : CompactionResult :=
  {| OldFileSize := 0; NewFileSize := 0; TotalEntries := 0; LiveEntries := 0;
     RemovedEntries := 0; Fragmentation := f0; Compacted := false; FileDeleted := false |}.

Definition f1 : float64 := float64_of_Z 1.

Definition NewCompactor (path : bytes) (maxBlock : Z) (threshold : float64) : Compactor :=
  let threshold := if fle threshold f0 || flt f1 threshold then tenth 3 else threshold in
  let maxBlock := if decide (maxBlock <= 0) then DefaultMaxBlockSize else maxBlock in
  {| c_filePath := path; c_maxBlockSize := maxBlock; isRunning := false;
     c_threshold := threshold |}.

Definition IsCompacting (c : Compactor) : bool := isRunning c.
Definition GetThreshold (c : Compactor) : float64 := c_threshold c.
Definition SetThreshold (threshold : float64) (c : Compactor) : Compactor :=
  if flt f0 threshold && fle threshold f1 then set_threshold threshold c else c.

(** [defer h]: run [h] after [m] on every path, keeping the outcome of [m]. *)
Definition defer {S A} (h : S -> S) (m : M S A) : M S A :=
  fun s => let (s', r) := m s in (h s', r).

Section Compactor.
Context `{HC : Codecs} `{MR : MapRange}.

Definition ShouldCompact (c : Compactor) : M world (bool * float64) :=
  r <-- try (NewFileReader (c_filePath c)) ;;
  match r with
  | Err ErrNotExist => ret (false, f0)
  | Err e => fail e
  | Ok reader =>
      r <-- with_local reader
        (r <-- on_err CalculateFragmentation reader_Close ;;
         ignore reader_Close ;;;
         ret (fle (c_threshold c) r.1.1, r.1.1)) ;;
      ret r.2
  end.

(** The loop over the index: [writer.WriteEntry] for every live entry. *)
Fixpoint write_live (live : list (bytes * bytes)) : M (world * FileWriter) unit :=
  match live with
  | [] => ret tt
  | (key, data) :: live =>
      WriteEntry {| Operation := OpInsert; Key := key; Data := data |} ;;;
      write_live live
  end.

(** Write the live entries to the temporary file and close it. *)
Definition write_temp (tempPath : bytes) (maxBlock : Z) (name : bytes)
    (index : gmap bytes bytes) : M world unit :=
  writer <-- NewFileWriterWithName tempPath maxBlock name ;;
  on_err (with_local writer (on_err (write_live (map_range index)) Close ;;; Close))
    (os_Remove tempPath) ;;;
  ret tt.

(** The part of [Compact] after the two guards: read, and decide. *)
Definition read_for_compaction (c : Compactor)
  : M (world * FileReader) (float64 * nat * nat * option (gmap bytes bytes * bytes)) :=
  r <-- on_err CalculateFragmentation reader_Close ;;
  if flt r.1.1 (c_threshold c) then
    ignore reader_Close ;;; ret (r, None)
  else
    idx <-- on_err LoadIndex reader_Close ;;
    ignore reader_Close ;;; ret (r, Some idx).

Definition compaction_result (oldSize newSize : Z) (r : float64 * nat * nat) (done_ : bool)
  : CompactionResult :=
  {| OldFileSize := oldSize; NewFileSize := newSize; TotalEntries := Z.of_nat r.2;
     LiveEntries := Z.of_nat r.1.2; RemovedEntries := Z.of_nat r.2 - Z.of_nat r.1.2;
     Fragmentation := r.1.1; Compacted := done_; FileDeleted := false |}.

Definition compact_body (c : Compactor) : M world CompactionResult :=
  st <-- try (os_Stat (c_filePath c)) ;;
  match st with
  | Err ErrNotExist => ret no_result
  | Err e => fail e
  | Ok oldSize =>
      reader <-- NewFileReader (c_filePath c) ;;
      r <-- with_local reader (read_for_compaction c) ;;
      match r.2.2 with
      | None => ret (compaction_result oldSize 0 r.2.1 false)
      | Some (index, name) =>
          let tempPath := GetCompactionTempPath (c_filePath c) in
          write_temp tempPath (c_maxBlockSize c) name index ;;;
          on_err (os_Rename tempPath (c_filePath c)) (os_Remove tempPath) ;;;
          newSize <-- os_Stat (c_filePath c) ;;
          ret (compaction_result oldSize newSize r.2.1 true)
      end
  end.

Abbreviation MC := (M (world * Compactor)).

Definition Compact : MC CompactionResult :=
  c <-- gets snd ;;
  if isRunning c then fail ErrCompactionRunning else
  modify (fun s => (s.1, set_running true s.2)) ;;;
  defer (fun s => (s.1, set_running false s.2))
    (c <-- gets snd ;; on_world (compact_body c)).

Definition CompactIfNeeded : MC CompactionResult :=
  c <-- gets snd ;;
  r <-- on_world (ShouldCompact c) ;;
  if (r.1 : bool) then Compact else
  ret {| OldFileSize := 0; NewFileSize := 0; TotalEntries := 0; LiveEntries := 0;
         RemovedEntries := 0; Fragmentation := r.2; Compacted := false;
         FileDeleted := false |}.

Definition ForceCompact : MC CompactionResult :=
  originalThreshold <-- gets (fun s => c_threshold s.2) ;;
  modify (fun s => (s.1, set_threshold f0 s.2)) ;;;
  defer (fun s => (s.1, set_threshold originalThreshold s.2)) Compact.

Definition CompactFromIndex (path : bytes) (maxBlock : Z) (name : bytes)
    (index : gmap bytes bytes) (totalEntries : Z) : M world CompactionResult :=
  if decide (path = []) then fail ErrEmptyPath else
  let maxBlock := if decide (maxBlock <= 0) then DefaultMaxBlockSize else maxBlock in
  let live := Z.of_nat (size index) in
  let result frag old new done_ :=
    {| OldFileSize := old; NewFileSize := new; TotalEntries := totalEntries;
       LiveEntries := live; RemovedEntries := totalEntries - live; Fragmentation := frag;
       Compacted := done_; FileDeleted := false |} in
  st <-- try (os_Stat path) ;;
  match st with
  | Err ErrNotExist => ret (result f0 0 0 false)
  | Err e => fail e
  | Ok oldSize =>
      let frag := if decide (0 < totalEntries)
                  then fdiv (float64_of_Z (totalEntries - live)) (float64_of_Z totalEntries)
                  else f0 in
      let tempPath := path ++ bs ".compact" in
      ignore (os_Remove tempPath) ;;;
      write_temp tempPath maxBlock name index ;;;
      on_err (os_Rename tempPath path) (os_Remove tempPath) ;;;
      newSize <-- try (os_Stat path) ;;
      ret (result frag oldSize match newSize with Ok n => n | Err _ => 0 end true)
  end.

Definition CleanupCompactionTemp (path : bytes) : M world unit :=
  let tempPath := GetCompactionTempPath path in
  st <-- try (os_Stat tempPath) ;;
  match st with
  | Ok _ => os_Remove tempPath
  | Err _ => ret tt
  end.
End Compactor.
