(* ===== verification/Crash.v ===== *)
(** Crashes while a block is appended.

    A crash is a schedule of failures ([FileSys.v]): from some system call on
    everything fails, the interrupted write after a part of its bytes.  The lemmas
    follow [flushLocked] ([chronicler/v2/writer.go]) under an arbitrary schedule. *)
From S2P Require Import Prelude Types Compressor Block FileSys Writer Reader Contents Session.

Section Crash.
Context `{HC : Codecs} `{HOk : !CodecsOk}.

(** What a crash during the append of [es] to a file of blocks [bss] can leave. *)
Definition crash_content (name : bytes) (bss : list (list Entry)) (es : list Entry) (c : bytes)
  : Prop :=
  exists h bss' tail r, holds c h name bss' tail /\ tail_end tail r /\
    (bss' = bss \/ bss' = bss ++ [es] /\ tail = []).

(** ** System calls under failures *)

Lemma file_Write_cases {X} `{!HasFile X} data w (x : X) c w' x' r :
  f_open (get_file x) = true -> files w !! f_name (get_file x) = Some c ->
  file_Write data (w, x) = ((w', x'), r) ->
  exists k, (r = Ok tt /\ k = length data \/ r = Err ErrIO) /\
    files w' = <[f_name (get_file x) := write_at (f_pos (get_file x)) (take k data) c]> (files w) /\
    x' = set_file (set_pos (f_pos (get_file x) + length (take k data)) (get_file x)) x.
Proof.
  intros Ho Hc. unfold file_Write, file_call, syscall. cbn [fst snd]. rewrite Ho.
  unfold modify, bind, fail, write_bytes. cbn [fst snd].
  destruct (faults w) as [|[k|] l]; cbn [files set_faults]; rewrite Hc; intros [= <- <- <-].
  - exists (length data). rewrite firstn_all. auto.
  - exists k. auto.
  - exists (length data). rewrite firstn_all. auto.
Qed.

Lemma file_SeekStart_cases {X} `{!HasFile X} off w (x : X) w' x' r :
  file_SeekStart off (w, x) = ((w', x'), r) ->
  files w' = files w /\ (r = Ok tt /\ x' = set_file (set_pos off (get_file x)) x \/ exists e, r = Err e).
Proof.
  unfold file_SeekStart, file_call, syscall. cbn [fst snd].
  destruct (f_open _); [|intros [= <- <- <-]; eauto].
  unfold modify, on_file, fail. destruct (faults w) as [|[k|] l]; intros [= <- <- <-]; eauto.
Qed.

(** ** A partly rewritten header *)

(** Mixing two concatenations that agree outside a middle field mixes the field. *)
Lemma mix_app j (a b1 b2 d : bytes) :
  length b1 = length b2 ->
  exists i, (i <= length b1)%nat /\
    take j (a ++ b1 ++ d) ++ drop j (a ++ b2 ++ d) = a ++ (take i b1 ++ drop i b2) ++ d.
Proof.
  intros Hb. destruct (decide (j <= length a)%nat).
  - exists O. split; [lia|]. rewrite take_app_le, drop_app_le by done.
    by rewrite app_assoc, take_drop, take_0, drop_0.
  - rewrite take_app_ge, drop_app_ge by lia. set (j' := (j - length a)%nat).
    destruct (decide (j' <= length b1)%nat).
    + exists j'. split; [done|]. rewrite take_app_le, drop_app_le by lia. by rewrite <-!app_assoc.
    + exists (length b1). split; [done|]. rewrite take_app_ge, drop_app_ge by lia.
      rewrite firstn_all, Hb, drop_all, app_nil_r, <-!app_assoc, take_drop. done.
Qed.

Definition counts_bytes (e b : Z) : bytes := le_put 8 e ++ le_put 8 b.

Lemma header_split h :
  header_wf h -> exists a d, forall e b,
    FileHeader_Serialize (set_counts e b h) = a ++ counts_bytes e b ++ d.
Proof.
  intros Hwf. destruct (header_fixed h Hwf) as [Hm Hr].
  exists (Magic h ++ le_put 2 (Version h) ++ le_put 2 (Flags h) ++
    le_put 8 (u64 (CreatedAt h)) ++ le_put 8 (u64 (ModifiedAt h)) ++ le_put 4 (BlockSize h)),
    (le_put 2 (NameLength h) ++ Reserved h ++ make_bytes 4).
  intros e b. unfold counts_bytes. rewrite FileHeader_layout by done.
  cbn [Magic Version Flags CreatedAt ModifiedAt BlockSize EntryCount BlockCount NameLength
    Reserved set_counts]. by rewrite <-!app_assoc.
Qed.

(** Any sixteen bytes are a pair of counters. *)
Lemma counts_any l :
  length l = 16%nat -> exists e b, l = counts_bytes e b /\ in_u64 e /\ in_u64 b.
Proof.
  intros Hl. assert (length (take 8 l) = 8%nat) as Ht by (rewrite length_take; lia).
  assert (length (drop 8 l) = 8%nat) as Hd by (rewrite length_drop; lia).
  exists (le_get (take 8 l)), (le_get (drop 8 l)). unfold counts_bytes. split.
  - rewrite <-Ht at 1. rewrite le_put_get. rewrite <-Hd at 2. by rewrite le_put_get, take_drop.
  - auto with codec.
Qed.

Lemma header_mix h e b j :
  header_wf h -> exists e' b', in_u64 e' /\ in_u64 b' /\
    take j (FileHeader_Serialize (set_counts e b h)) ++ drop j (FileHeader_Serialize h)
    = FileHeader_Serialize (set_counts e' b' h).
Proof.
  intros Hwf. destruct (header_split h Hwf) as (a & d & Hs).
  assert (FileHeader_Serialize h = FileHeader_Serialize (set_counts (EntryCount h) (BlockCount h) h))
    as -> by by destruct h.
  rewrite !Hs. assert (forall e b, length (counts_bytes e b) = 16%nat) as Hl
    by (intros; unfold counts_bytes; by rewrite length_app, !length_le_put).
  destruct (mix_app j a (counts_bytes e b) (counts_bytes (EntryCount h) (BlockCount h)) d)
    as (i & Hi & ->); [by rewrite !Hl|].
  edestruct (counts_any (take i (counts_bytes e b) ++
    drop i (counts_bytes (EntryCount h) (BlockCount h)))) as (e' & b' & -> & He & Hb).
  { rewrite length_app, length_take, length_drop, !Hl in *. lia. }
  exists e', b'. by rewrite Hs.
Qed.

Lemma set_counts_wf h e b : header_wf h -> in_u64 e -> in_u64 b -> header_wf (set_counts e b h).
Proof. intros [] He Hb. by constructor. Qed.

(** ** The crash points of a flush *)

Lemma torn_content c h name bss es k :
  holds c h name bss [] -> good_block es ->
  crash_content name bss es (c ++ take k (encode_block es)).
Proof.
  intros [Hc Hwf Hn Hb] He. unfold crash_content.
  destruct (decide (k < length (encode_block es))%nat) as [Hk|Hk].
  - exists h, bss. eexists _, _. split; [|split; [by apply tail_prefix|by left]].
    constructor; try done. by rewrite Hc, app_nil_r, <-!app_assoc.
  - exists h, (bss ++ [es]), [], (Ok tt). split; [|split; [constructor|by right]].
    constructor; try done; [|by apply Forall_app; auto].
    rewrite take_ge by lia. rewrite Hc, encode_blocks_app, <-!app_assoc, !app_nil_r.
    unfold encode_blocks at 3. simpl. by rewrite app_nil_r.
Qed.

Lemma header_content c h name bss es e b j :
  holds c h name bss [] -> good_block es ->
  crash_content name bss es
    (write_at 0 (take j (FileHeader_Serialize (set_counts e b h))) (c ++ encode_block es)).
Proof.
  intros [Hc Hwf Hn Hb] He. destruct (header_mix h e b j Hwf) as (e' & b' & He' & Hb' & Hm).
  exists (set_counts e' b' h), (bss ++ [es]), [], (Ok tt).
  split; [|split; [constructor|by right]].
  constructor; [|by apply set_counts_wf|done|by apply Forall_app; auto].
  rewrite encode_blocks_app, app_nil_r. unfold encode_blocks at 2. cbn [map concat].
  rewrite write_at_start, Hc, !app_nil_r, <-!app_assoc, <-Hm, <-!app_assoc.
  set (s := FileHeader_Serialize (set_counts e b h)).
  assert (length s = length (FileHeader_Serialize h)) as Hl.
  { destruct (header_split h Hwf) as (a & d & Hs).
    assert (FileHeader_Serialize h = FileHeader_Serialize (set_counts (EntryCount h) (BlockCount h) h))
      as -> by by destruct h.
    unfold s. rewrite !Hs. unfold counts_bytes. by rewrite !length_app, !length_le_put. }
  f_equal. rewrite drop_app_le by (rewrite length_take; lia). f_equal.
  rewrite length_take. destruct (decide (j <= length s)%nat).
  - by rewrite Nat.min_l by done.
  - rewrite !drop_ge by lia. done.
Qed.

(** ** A flush under failures *)

Lemma take_first {A} k (a b : list A) : take k a = take (k `min` length a) (a ++ b).
Proof.
  destruct (decide (k <= length a)%nat).
  - rewrite Nat.min_l, take_app_le by lia. done.
  - rewrite Nat.min_r, take_app_length by lia. by apply take_ge; lia.
Qed.

(** The content of [p] is a crash content, whatever else has happened. *)
Definition crashed (p name : bytes) (bss : list (list Entry)) (es : list Entry) (w : world)
  : Prop :=
  exists c, files w !! p = Some c /\ crash_content name bss es c.

Lemma crashed_insert p name bss es w w' c :
  files w' = <[p := c]> (files w) -> crash_content name bss es c -> crashed p name bss es w'.
Proof. intros Hf Hc. exists c. rewrite Hf. split; [apply lookup_insert_eq|done]. Qed.

Lemma crashed_files p name bss es w w' :
  files w' = files w -> crashed p name bss es w -> crashed p name bss es w'.
Proof. intros Hf Hc. unfold crashed. by rewrite Hf. Qed.

(** Rewriting the header after the block has been appended. *)
Lemma rewrite_crash w fw p h name bss c es pos :
  f_open (file fw) = true -> f_name (file fw) = p ->
  holds c h name bss [] -> good_block es ->
  files w !! p = Some (c ++ encode_block es) ->
  (exists e b, header fw = set_counts e b h) ->
  crashed p name bss es
    ((file_SeekStart 0 ;;; write_header ;;; file_SeekStart pos) (w, fw)).1.1.
Proof.
  intros Ho Hn Hh Hg Hc (e & b & Hhd).
  assert (crashed p name bss es w) as Hw.
  { eexists. split; [exact Hc|].
    pose proof (torn_content c h name bss es (length (encode_block es)) Hh Hg) as Ht.
    by rewrite firstn_all in Ht. }
  unfold bind at 1. destruct (file_SeekStart 0 (w, fw)) as [[w1 fw1] r1] eqn:E1.
  apply file_SeekStart_cases in E1 as [Hf1 [[-> ->]|[e' ->]]]; [|by eapply crashed_files].
  unfold write_header. unfold bind at 1. unfold bind at 1, self, gets.
  cbn [snd set_file writer_has_file set_file_ get_file header]. rewrite Hhd.
  match goal with |- context [file_Write ?d ?s] => destruct (file_Write d s) as [[w2 fw2] r2] eqn:E2 end.
  apply (file_Write_cases _ _ _ (c ++ encode_block es)) in E2 as (k & Hr2 & Hf2 & ->);
    [|done|by cbn; rewrite Hf1, Hn].
  cbn [get_file writer_has_file file set_file_ f_name f_pos set_pos] in Hf2. rewrite Hn in Hf2.
  assert (crashed p name bss es w2) as Hw2 by (eapply crashed_insert; [done|by apply header_content]).
  destruct Hr2 as [[-> _]| ->]; [|done].
  match goal with |- context [file_SeekStart pos ?s] =>
    destruct (file_SeekStart pos s) as [[w3 fw3] r3] eqn:E3 end.
  apply file_SeekStart_cases in E3 as [Hf3 _]. by eapply crashed_files.
Qed.

Lemma payload_crash w fw p name bss c es :
  f_open (file fw) = true -> f_name (file fw) = p ->
  f_pos (file fw) = length (c ++ BlockHeader_Serialize (header_of es)) ->
  holds c (header fw) name bss [] -> good_block es ->
  files w !! p = Some (c ++ BlockHeader_Serialize (header_of es)) ->
  crashed p name bss es
    ((file_Write (payload es) ;;;
      update (fun fw => set_fw_counts (u64 (blockCount fw + 1))
                          (u64 (entryCount fw + BEntryCount (header_of es))) fw) ;;;
      update header_counts ;;;
      currentPos <-- file_SeekCurrent 0 ;;
      file_SeekStart 0 ;;;
      write_header ;;;
      file_SeekStart currentPos) (w, fw)).1.1.
Proof.
  intros Ho Hn Hp Hh Hg Hc. unfold bind at 1.
  destruct (file_Write (payload es) (w, fw)) as [[w3 fw3] r3] eqn:E3.
  apply (file_Write_cases _ _ _ (c ++ BlockHeader_Serialize (header_of es)))
    in E3 as (k & Hr & Hf & ->); [|done|by cbn; rewrite Hn].
  cbn [get_file writer_has_file] in Hf. rewrite Hn, Hp, write_at_end, <-app_assoc in Hf.
  assert (BlockHeader_Serialize (header_of es) ++ take k (payload es) =
    take (16 + k) (encode_block es)) as Heq.
  { unfold encode_block. rewrite take_app_ge, length_BlockHeader by (rewrite length_BlockHeader; unfold BlockHeaderSize; lia).
    unfold BlockHeaderSize. by replace (16 + k - 16)%nat with k by lia. }
  rewrite Heq in Hf.
  pose proof (crashed_insert _ _ _ _ _ _ _ Hf (torn_content c _ name bss es _ Hh Hg)) as Hw3.
  destruct Hr as [[-> ->]| ->]; [|done].
  rewrite take_ge in Hf by (rewrite length_encode_block; lia).
  set (fw3 := set_file _ _). unfold bind at 1, update at 1, modify at 1. cbn [fst snd].
  unfold bind at 1, update at 1, modify at 1. cbn [fst snd]. unfold bind at 1.
  set (fw4 := header_counts _).
  destruct (file_SeekCurrent 0 (w3, fw4)) as [[w5 fw5] r5] eqn:E5.
  assert (files w5 = files w3 /\ (forall n, r5 = Ok n -> exists pos, fw5 = set_file_ (set_pos pos (file fw4)) fw4))
    as [Hf5 Hfw5].
  { unfold file_SeekCurrent, file_call, syscall in E5. cbn [fst snd] in E5.
    change (f_open (get_file fw4)) with (f_open (file fw)) in E5. rewrite Ho in E5.
    unfold bind, modify, on_file, gets, fail in E5.
    destruct (faults w3) as [|[k|] l]; injection E5 as <- <- <-; (split; [done|]);
      intros n Hn'; (done || eexists; done). }
  assert (crashed p name bss es w5) as Hw5 by by eapply crashed_files.
  destruct r5 as [pos5|e5]; [|done]. destruct (Hfw5 pos5 eq_refl) as [pos ->].
  eapply rewrite_crash; [exact Ho|exact Hn|exact Hh|done| |].
  - rewrite Hf5, Hf. apply lookup_insert_eq.
  - eexists _, _. done.
Qed.

Lemma flushLocked_crash w fw name bss c :
  writing (clean w) fw name bss c -> good_block (entries (buffer fw)) ->
  crashed (filePath fw) name bss (entries (buffer fw)) (flushLocked (w, fw)).1.1.
Proof.
  intros [_ Ho _ Hn Hc Hp Hh _ _] Hg. cbn [files clean set_faults] in Hc.
  set (es := entries (buffer fw)) in *. pose proof (gb_nonempty _ Hg) as Hne.
  unfold flushLocked, bind at 1, on_buffer. cbn [snd fst]. rewrite Flush_some by done. fold es.
  set (fw1 := set_buffer _ fw). unfold bind at 1.
  destruct (file_Write _ (w, fw1)) as [[w2 fw2] r2] eqn:E2.
  apply (file_Write_cases _ _ _ c) in E2 as (k2 & Hr2 & Hf2 & ->); [|done|by cbn; rewrite Hn].
  cbn [get_file writer_has_file file fw1 set_buffer] in Hf2.
  rewrite Hn, Hp, write_at_end, (take_first _ _ (payload es)) in Hf2. fold (encode_block es) in Hf2.
  pose proof (crashed_insert _ _ _ _ _ _ _ Hf2 (torn_content c _ name bss es _ Hh Hg)) as Hw2.
  destruct Hr2 as [[-> ->]| ->]; [|done].
  rewrite Nat.min_id in Hf2. unfold encode_block in Hf2. rewrite take_app_length in Hf2.
  apply payload_crash with c; try done.
  - cbn. by rewrite Hp, firstn_all, length_app.
  - rewrite Hf2. apply lookup_insert_eq.
Qed.
End Crash.
