(* ===== verification/Compaction.v ===== *)
(** What a compaction does.

    In a world without failures the compacted file holds one insert per live key and
    nothing else, so the index and the swamp name a reader loads are unchanged.
    Under an arbitrary schedule of failures the file is either untouched or already
    replaced by its complete compacted form. *)
From S2P Require Import Prelude Types Compressor Block FileSys Writer Reader Contents.
From S2P Require Import Log Session Compactor.
From Stdlib Require Import SpecFloat.

Section Compaction.
Context `{HC : Codecs} `{HOk : !CodecsOk} `{MR : MapRange} `{MROk : !MapRangeOk}.

(** The log a compaction writes. *)
Definition live_log (index : gmap bytes bytes) : list Entry :=
  map insert_entry (map_range index).

Lemma live_log_index index : index_of (live_log index) = index.
Proof.
  unfold live_log. by rewrite index_of_inserts, map_range_list_to_map by apply map_range_NoDup.
Qed.

Lemma length_live_log index : length (live_log index) = size index.
Proof.
  unfold live_log. by rewrite length_map, map_range_size.
Qed.

Lemma live_log_inserts index : Forall (fun e => Operation e = OpInsert) (live_log index).
Proof. unfold live_log. apply Forall_map, Forall_true. done. Qed.

Lemma live_log_entry_ok log : Forall entry_ok log -> Forall entry_ok (live_log (index_of log)).
Proof.
  intros Hlog. apply Forall_map, Forall_forall. intros [k d] Hin. simpl.
  rewrite (map_range_perm (index_of log)) in Hin. apply elem_of_map_to_list in Hin.
  destruct (index_of_elem _ _ _ Hin) as (e & He & <- & <-).
  rewrite Forall_forall in Hlog. destruct (Hlog e He) as [(_ & Hk & Hl & Hd) Hs].
  split; [|done]. split_and!; simpl; done.
Qed.

Lemma live_log_name name index : log_name name (live_log index) = name.
Proof.
  destruct name as [|b name]; [|done].
  unfold log_name.
  assert (filter names_swamp (live_log index) = []) as ->; [|done].
  induction (live_log_inserts index) as [|e es He _ IH]; [done|].
  rewrite filter_cons_False; [done|]. intros (Hm & _). by rewrite He in Hm.
Qed.

(** ** Writing the temporary file *)

Lemma write_live_commands live s :
  write_live live s = run_commands (map (fun kd => CWriteEntry (insert_entry kd)) live) s.
Proof.
  revert s. induction live as [|[k d] live IH]; intros s; [done|].
  cbn [write_live map run_commands run_command]. unfold bind.
  unfold insert_entry at 1. cbn [fst snd]. by destruct (WriteEntry _ s) as [s' [[]|]].
Qed.

Lemma appended_inserts live :
  concat (map appended (map (fun kd => CWriteEntry (insert_entry kd)) live))
  = map insert_entry live.
Proof. induction live as [|kd live IH]; [done|]. simpl. by rewrite IH. Qed.

Lemma write_temp_ok w p m name index log :
  faults w = [] -> in_i64 (clock w) -> p <> [] -> name_ok name ->
  safe_block_size (maxSize (NewWriteBuffer m)) -> Forall entry_ok (live_log index) ->
  (files w !! p = None /\ log = [] \/ stored_log w p name log) ->
  exists w', write_temp p m name index w = (w', Ok tt) /\ only p w w' /\
    stored_log w' p name (log ++ live_log index).
Proof.
  intros Hf Hi Hp Hn Hm He Hw.
  destruct (write_session_ok w p m name log
    (map (fun kd => CWriteEntry (insert_entry kd)) (map_range index)))
    as (w' & Hs & Ho & Hl); try done; [by rewrite appended_inserts|].
  rewrite appended_inserts in Hl. exists w'. split_and!; [|done|done].
  revert Hs. unfold write_session, write_temp, bind, on_err, with_local.
  destruct (NewFileWriterWithName p m name w) as [w1 [fw|]]; [|done].
  rewrite write_live_commands.
  destruct (run_commands _ (w1, fw)) as [s2 [[]|e]]; [|by destruct s2].
  by destruct (Close s2) as [[w3 fw3] [[]|e]].
Qed.

Lemma write_live_keeps q live : respects (keeps q) (write_live live).
Proof.
  induction live as [|[k d] live IH]; [apply respects_ret, _|].
  apply respects_bind; [apply _|apply WriteEntry_keeps|done].
Qed.

Lemma write_temp_same q p m name index :
  p <> q -> respects (same_at q) (write_temp p m name index).
Proof.
  intros Hne w. unfold write_temp, bind at 1.
  pose proof (NewFileWriterWithName_same q p m name Hne w) as Hs.
  destruct (NewFileWriterWithName p m name w) as [w1 [fw|e]] eqn:E; [|done].
  apply NewFileWriterWithName_name in E. etransitivity; [exact Hs|]. clear Hs. revert w1.
  apply respects_bind; [apply _| |intros; apply respects_ret, _].
  apply respects_on_err; [apply _| |by apply os_Remove_same].
  apply with_local_same; [by cbn; rewrite E|].
  apply respects_bind; [apply _| |intros; apply Close_keeps].
  apply respects_on_err; [apply _|apply write_live_keeps|apply Close_keeps].
Qed.

Lemma write_live_clean live : clean_ok clean2 (write_live live).
Proof.
  induction live as [|[k d] live IH]; cbn [write_live]; [auto with clean|].
  apply clean_ok_bind; [apply clean_run_ok, WriteEntry_clean|done].
Qed.

Lemma write_temp_clean p m name index : clean_ok clean (write_temp p m name index).
Proof.
  apply clean_ok_bind; [apply NewFileWriterWithName_clean|intros fw].
  apply clean_ok_bind; [apply clean_ok_on_err, with_local_clean|auto with clean].
  apply clean_ok_bind; [apply clean_ok_on_err, write_live_clean|intros; apply Close_clean].
Qed.

(** ** Reading for a compaction *)

Definition log_frag (log : list Entry) : float64 * nat * nat := fragmentation_of (frag_fold log).

Lemma log_frag_counts log : (log_frag log).1.2 = size (index_of log) /\ (log_frag log).2 = length log.
Proof.
  unfold log_frag, fragmentation_of. rewrite frag_totalEntries.
  case_decide as Hl; simpl; [|by rewrite live_count].
  apply length_zero_iff_nil in Hl as ->. done.
Qed.

Definition compaction_plan (threshold : float64) (name : bytes) (log : list Entry)
  : option (gmap bytes bytes * bytes) :=
  if flt (log_frag log).1.1 threshold then None else Some (index_of log, log_name name log).

Lemma read_for_compaction_ok w p c h name bss cpt :
  faults w = [] -> files w !! p = Some c -> holds c h name bss [] ->
  exists fr', read_for_compaction cpt (w, opened p h name) =
    ((w, fr'), Ok (log_frag (concat bss), compaction_plan (c_threshold cpt) name (concat bss))).
Proof.
  intros Hf Hc Hh. pose proof (opened_reading w p c h name Hf Hc) as Hr.
  destruct (CalculateFragmentation_ok _ _ _ _ _ _ _ _ Hr Hh tail_clean) as [n Hn].
  apply (reading_moved _ _ _ _ n) in Hr.
  unfold read_for_compaction, bind at 1, on_err at 1. rewrite Hn. cbn [rbind].
  unfold compaction_plan. fold (log_frag (concat bss)).
  destruct (flt _ _).
  - unfold bind, ignore, reader_Close. rewrite file_Close_ok by apply Hr. eexists. done.
  - destruct (LoadIndex_ok _ _ _ _ name _ _ _ Hr eq_refl Hh tail_clean) as [n' Hn'].
    apply (reading_moved _ _ _ _ n') in Hr.
    unfold bind at 1, on_err. rewrite Hn'. cbn [rbind]. rewrite replay_spec.
    unfold bind, ignore, reader_Close. rewrite file_Close_ok by apply Hr. eexists. done.
Qed.

(** ** A compaction without failures *)

Lemma temp_ne p : GetCompactionTempPath p <> p.
Proof.
  intros Ht. apply (f_equal length) in Ht. unfold GetCompactionTempPath in Ht.
  rewrite length_app in Ht. simpl in Ht. lia.
Qed.

Lemma temp_nonempty p : GetCompactionTempPath p <> [].
Proof. unfold GetCompactionTempPath. by destruct p. Qed.

(** The size [os.Stat] reports. *)
Definition file_size (w : world) (p : bytes) : Z :=
  Z.of_nat (length (default [] (files w !! p))).

(** [w'] is [w] with [p] replaced by a file of that name and log, the temporary file gone. *)
Definition replaced (w w' : world) (p name : bytes) (log : list Entry) : Prop :=
  stored_log w' p name log /\ files w' !! GetCompactionTempPath p = None /\
  forall q, q <> p -> q <> GetCompactionTempPath p -> files w' !! q = files w !! q.

Lemma rename_temp w w1 p name log :
  faults w1 = [] -> only (GetCompactionTempPath p) w w1 ->
  stored_log w1 (GetCompactionTempPath p) name log ->
  exists w', os_Rename (GetCompactionTempPath p) p w1 = (w', Ok tt) /\
    (faults w' = [] /\ clock w' = clock w) /\
    replaced w w' p name log /\ exists c, files w' !! p = Some c.
Proof.
  intros Hf (_ & Hck & Ho) (bss & (c & h & Hc & Hh & Hn) & Hl).
  unfold os_Rename. rewrite os_call_ok, Hc by done. eexists. split; [done|].
  pose proof (temp_ne p) as Hne. split; [done|]. cbn [files set_files].
  split; [|exists c; apply lookup_insert_eq]. split_and!.
  - exists bss. split; [|done]. exists c, h. cbn. by rewrite lookup_insert_eq.
  - cbn. rewrite lookup_insert_ne by done. apply lookup_delete_eq.
  - intros q Hq Hq'. cbn. rewrite lookup_insert_ne, lookup_delete_ne by done. by apply Ho.
Qed.

Lemma os_Stat_size w p c :
  faults w = [] -> files w !! p = Some c -> os_Stat p w = (w, Ok (file_size w p)).
Proof. intros Hf Hc. unfold os_Stat, file_size. by rewrite os_call_ok, Hc. Qed.

Record compactable (w : world) (c : Compactor) (name : bytes) (log stale : list Entry)
  : Prop := {
  cb_faults : faults w = [];
  cb_clock : in_i64 (clock w);
  cb_path : c_filePath c <> [];
  cb_stored : stored_log w (c_filePath c) name log;
  cb_entries : Forall entry_ok log;
  cb_name : name_ok (log_name name log);
  cb_block : safe_block_size (maxSize (NewWriteBuffer (c_maxBlockSize c)));
  cb_stale : files w !! GetCompactionTempPath (c_filePath c) = None /\ stale = [] \/
             stored_log w (GetCompactionTempPath (c_filePath c)) (log_name name log) stale
}.

Lemma compact_body_ok w c name log stale :
  compactable w c name log stale ->
  let p := c_filePath c in
  if flt (log_frag log).1.1 (c_threshold c)
  then compact_body c w = (w, Ok (compaction_result (file_size w p) 0 (log_frag log) false))
  else exists w',
    compact_body c w =
      (w', Ok (compaction_result (file_size w p) (file_size w' p) (log_frag log) true)) /\
    replaced w w' p (log_name name log) (stale ++ live_log (index_of log)) /\ faults w' = [] /\
    clock w' = clock w.
Proof.
  intros [Hf Hi Hp Hst He Hn Hb Hs] p. pose proof Hst as (bss & (ct & h & Hc & Hh & _) & Hl).
  destruct (read_for_compaction_ok w p ct h name bss c Hf Hc Hh) as [fr' Hr].
  rewrite Hl in Hr. unfold compact_body. fold p.
  rewrite (bind_run _ _ _ _ _ (try_run _ _ _ _ (os_Stat_size w p ct Hf Hc))).
  rewrite (bind_run _ _ _ _ _ (NewFileReader_ok w p ct h name bss [] Hf Hp Hc Hh)).
  rewrite (bind_run _ _ _ _ _ (with_local_run _ _ _ _ _ _ Hr)).
  unfold compaction_plan. destruct (flt _ _) eqn:Hflt; [done|].
  destruct (write_temp_ok w (GetCompactionTempPath p) (c_maxBlockSize c) (log_name name log)
    (index_of log) stale) as (w1 & E1 & Ho1 & Hl1); auto using temp_nonempty, live_log_entry_ok.
  destruct (rename_temp w w1 p _ _ ltac:(destruct Ho1; congruence) Ho1 Hl1)
    as (w2 & E2 & [Hf2 Hck2] & Hrep & c2 & Hc2).
  exists w2. split; [|done]. cbn [fst snd].
  rewrite (bind_run _ _ _ _ _ E1), (bind_run _ _ _ _ _ (on_err_run _ _ _ _ _ E2)).
  by rewrite (bind_run _ _ _ _ _ (os_Stat_size w2 p c2 Hf2 Hc2)).
Qed.

(** ** A compaction under failures *)

Lemma read_for_compaction_readonly c : respects readonly (read_for_compaction c).
Proof.
  assert (respects (readonly (X := FileReader)) reader_Close) as Hcl
    by apply file_Close_readonly.
  apply respects_bind; [apply _| |intros r].
  - apply respects_on_err; [apply _|apply CalculateFragmentation_readonly|done].
  - destruct (flt _ _); (apply respects_bind; [apply _| |intros]);
      try (apply respects_ignore; done); try apply respects_ret, _.
    + apply respects_on_err; [apply _|apply LoadIndex_readonly|done].
    + apply respects_bind; [apply _|by apply respects_ignore|intros]. apply respects_ret, _.
Qed.

Lemma os_Rename_cases a b w w' r :
  os_Rename a b w = (w', r) ->
  (exists c, r = Ok tt /\ files w !! a = Some c /\ files w' = <[b := c]> (delete a (files w))) \/
  (exists e, r = Err e /\ files w' = files w).
Proof.
  unfold os_Rename, os_call, syscall.
  destruct (faults w) as [|[k|] l]; simpl; [|intros [= <- <-]; right; eauto|];
    destruct (files w !! a) eqn:E; intros [= <- <-]; eauto 6.
Qed.

(** Nothing is lost and nothing is half done, whatever fails. *)
Definition untouched_or_replaced (w w' : world) (p name : bytes) (log : list Entry) : Prop :=
  (files w' !! p = files w !! p \/ stored_log w' p name log) /\
  forall q, q <> p -> q <> GetCompactionTempPath p -> files w' !! q = files w !! q.

Lemma readonly_untouched w w' p name log :
  readonly_w w w' -> untouched_or_replaced w w' p name log.
Proof. intros [Hf _]. split; [left|]; by rewrite Hf. Qed.

Lemma replace_atomic w w1 p name log :
  stored_log w1 (GetCompactionTempPath p) name log ->
  (forall q, q <> GetCompactionTempPath p -> files w1 !! q = files w !! q) ->
  untouched_or_replaced w
    (on_err (os_Rename (GetCompactionTempPath p) p) (os_Remove (GetCompactionTempPath p)) w1).1
    p name log.
Proof.
  intros (bss & (c & h & Hc & Hh & Hn) & Hl) Hq. pose proof (temp_ne p) as Hne.
  unfold on_err. destruct (os_Rename _ _ w1) as [w2 r] eqn:E.
  destruct (os_Rename_cases _ _ _ _ _ E) as [(c' & -> & Hc' & Hf)|(e & -> & Hf)]; simpl.
  - split; [right|].
    + exists bss. split; [|done]. exists c, h. rewrite Hf, lookup_insert_eq. split; congruence || done.
    + intros q Hqp Hqt. rewrite Hf, lookup_insert_ne, lookup_delete_ne by done. by apply Hq.
  - assert (forall q, q <> GetCompactionTempPath p ->
      files (os_Remove (GetCompactionTempPath p) w2).1 !! q = files w !! q) as Hall.
    { intros q Hq'. rewrite (os_Remove_same q _ ltac:(done) w2), Hf. by apply Hq. }
    split; [left|]; auto.
Qed.

(** An ignored close ends in the same state whether or not it fails. *)
Lemma ignore_close_clean : clean_run clean2 (ignore reader_Close).
Proof.
  intros [w fr] [w' fr'] r. unfold ignore, reader_Close, file_Close, file_call, syscall, clean2.
  simpl. destruct (f_open (r_file fr)); [|by intros [= <- <- <-]].
  by destruct (faults w) as [|[k|] l]; intros [= <- <- <-].
Qed.

Lemma read_for_compaction_clean c : clean_ok clean2 (read_for_compaction c).
Proof.
  apply clean_ok_bind; [apply clean_ok_on_err, clean_run_ok, CalculateFragmentation_clean|].
  intros r. pose proof ignore_close_clean.
  destruct (flt _ _); apply clean_ok_bind; auto using clean_ok_ret with clean.
  apply clean_ok_on_err, clean_run_ok, LoadIndex_clean.
Qed.

(** A read that succeeds under failures still reads the stored log. *)
Lemma read_stored w w1 w2 c name log r reader :
  compactable (clean w) c name log [] -> readonly_w w w1 ->
  NewFileReader (c_filePath c) w1 = (w2, Ok reader) ->
  forall w3 rd, with_local reader (read_for_compaction c) w2 = (w3, Ok (rd, r)) ->
  r = (log_frag log, compaction_plan (c_threshold c) name log).
Proof.
  intros [_ _ Hp Hst _ _ _ _] [Hro _] E1 w3 rd E2.
  apply NewFileReader_clean in E1.
  apply (with_local_clean _ _ (read_for_compaction_clean c)) in E2.
  destruct Hst as (bss & (ct & h & Hc & Hh & _) & Hl).
  assert (files (clean w1) !! c_filePath c = Some ct) as Hc1 by (cbn; by rewrite <-Hro).
  rewrite (NewFileReader_ok _ _ ct h name bss []) in E1 by done.
  pose proof (f_equal fst E1) as Hw. apply (f_equal snd), Ok_inj in E1 as <-.
  change (clean w1 = clean w2) in Hw. rewrite <-Hw in E2.
  destruct (read_for_compaction_ok (clean w1) (c_filePath c) ct h name bss c) as [fr' Hr]; try done.
  rewrite (with_local_run _ _ _ _ _ _ Hr) in E2. by simplify_eq.
Qed.

Lemma write_stored w w1 w2 c name log :
  compactable (clean w) c name log [] -> readonly_w w w1 ->
  write_temp (GetCompactionTempPath (c_filePath c)) (c_maxBlockSize c) (log_name name log)
    (index_of log) w1 = (w2, Ok tt) ->
  stored_log w2 (GetCompactionTempPath (c_filePath c)) (log_name name log) (live_log (index_of log)).
Proof.
  intros [_ Hi _ _ He Hn Hb Hs] [Hro Hclk] E. apply write_temp_clean in E.
  destruct (write_temp_ok (clean w1) (GetCompactionTempPath (c_filePath c)) (c_maxBlockSize c)
    (log_name name log) (index_of log) []) as (w' & E' & _ & Hl);
    auto using temp_nonempty, live_log_entry_ok.
  - cbn. by rewrite <-Hclk.
  - unfold stored_log, stored in *. cbn [files clean set_faults] in *. by rewrite <-Hro.
  - rewrite E in E'. by simplify_eq.
Qed.

Lemma compact_body_atomic w c name log :
  compactable (clean w) c name log [] ->
  untouched_or_replaced w (compact_body c w).1 (c_filePath c) (log_name name log)
    (live_log (index_of log)).
Proof.
  intros Hcb. set (p := c_filePath c). unfold compact_body, bind at 1, try. fold p.
  pose proof (os_Stat_readonly p w) as Hro1.
  destruct (os_Stat p w) as [w1 [size|e]]; [|apply readonly_untouched; by destruct e].
  unfold bind at 1. pose proof (NewFileReader_readonly p w1) as Hro2.
  destruct (NewFileReader p w1) as [w2 [reader|e]] eqn:E2; simpl in Hro1, Hro2;
    [|apply readonly_untouched; by etransitivity].
  assert (readonly_w w2 (with_local reader (read_for_compaction c) w2).1) as Hro3
    by (apply (with_local_respects readonly); [apply read_for_compaction_readonly|by intros ? ? []]).
  unfold bind at 1.
  destruct (with_local reader _ w2) as [w3 [[rd r]|e]] eqn:E3; simpl in Hro3;
    [|apply readonly_untouched; by do 2 (etransitivity; [eassumption|])].
  assert (readonly_w w w3) as Hro by by do 2 (etransitivity; [eassumption|]).
  rewrite (read_stored _ _ _ _ _ _ _ _ Hcb Hro1 E2 _ _ E3). cbn [fst snd].
  unfold compaction_plan. destruct (flt _ _); [by apply readonly_untouched|].
  unfold bind at 1. set (t := GetCompactionTempPath p).
  pose proof (fun q Hq => write_temp_same q t (c_maxBlockSize c) (log_name name log)
    (index_of log) Hq w3) as Hsame.
  assert (forall q, q <> t -> files (write_temp t (c_maxBlockSize c) (log_name name log)
    (index_of log) w3).1 !! q = files w !! q) as Hall.
  { intros q Hq. rewrite Hsame by done. by destruct Hro as [-> _]. }
  clear Hsame. destruct (write_temp t _ _ _ w3) as [w4 [[]|e]] eqn:E4; simpl in Hall.
  - apply (write_stored w) in E4; [|done|done].
    pose proof (replace_atomic w w4 p _ _ E4 Hall) as Hat. fold t in Hat.
    unfold bind at 1. destruct (on_err _ _ w4) as [w5 [[]|e]]; [|done].
    pose proof (os_Stat_readonly p w5) as [Hf5 _]. simpl in Hat. unfold bind.
    destruct (os_Stat p w5) as [w6 [z|e]]; simpl in *;
      unfold untouched_or_replaced, stored_log, stored in *; by rewrite <-Hf5.
  - split; [left; apply Hall, not_eq_sym, temp_ne|]. intros q _ Hq. by apply Hall.
Qed.
End Compaction.

(** ** Fragmentation is never negative *)

Definition nonneg (f : float64) : Prop :=
  match f with
  | S754_finite true _ _ | S754_infinity true | S754_zero true => False
  | _ => True
  end.

Lemma nonneg_not_below f : nonneg f -> flt f f0 = false.
Proof. by destruct f as [|[]| |[] m e]. Qed.

Lemma binary_round_aux_nonneg m e l : nonneg (binary_round_aux 53 1024 false m e l).
Proof.
  unfold binary_round_aux. destruct (shr_fexp _ _ m e l) as [mrs e'].
  match goal with |- context [shr_fexp 53 1024 ?a ?b ?c] => destruct (shr_fexp 53 1024 a b c) as [mrs' e''] end.
  destruct (shr_m mrs'); [done| |done].
  by case_match.
Qed.

Lemma float64_of_Z_nonneg z : 0 <= z -> nonneg (float64_of_Z z).
Proof.
  unfold float64_of_Z, binary_normalize. destruct z as [|p|p]; [done| |lia]. intros _.
  unfold binary_round. destruct (shl_align _ _ _). apply binary_round_aux_nonneg.
Qed.

Lemma fdiv_nonneg a b : nonneg a -> nonneg b -> nonneg (fdiv a b).
Proof.
  intros Ha Hb. destruct a as [sa|sa| |sa ma ea]; try destruct sa; try destruct Ha;
    destruct b as [sb|sb| |sb mb eb]; try destruct sb; try destruct Hb; try exact I.
  unfold fdiv, SFdiv. destruct (SFdiv_core_binary 53 1024 (Zpos ma) ea (Zpos mb) eb) as [[m e] l].
  apply binary_round_aux_nonneg.
Qed.

Lemma live_bytes_delete k n m : m !! k = Some n -> live_bytes m = (n + live_bytes (delete k m))%nat.
Proof. intros Hm. unfold live_bytes. by erewrite map_fold_delete_L; [|intros; lia|done]. Qed.

Lemma live_bytes_delete_le k m : (live_bytes (delete k m) <= live_bytes m)%nat.
Proof.
  destruct (m !! k) as [n|] eqn:Hm; [rewrite (live_bytes_delete _ _ _ Hm); lia|].
  by rewrite delete_id.
Qed.

Lemma live_bytes_insert_le k n m : (live_bytes (<[k := n]> m) <= n + live_bytes m)%nat.
Proof.
  rewrite (live_bytes_delete k n) by apply lookup_insert_eq.
  rewrite delete_insert_eq. pose proof (live_bytes_delete_le k m). lia.
Qed.

Lemma live_bytes_bound log : (live_bytes (length <$> index_of log) <= data_size log)%nat.
Proof.
  induction log as [|e log IH] using rev_ind; [done|].
  rewrite index_of_snoc. unfold data_size in *. rewrite sum_list_with_app. simpl.
  repeat case_decide.
  - rewrite fmap_delete. pose proof (live_bytes_delete_le (Key e) (length <$> index_of log)). lia.
  - rewrite fmap_insert.
    pose proof (live_bytes_insert_le (Key e) (length (Data e)) (length <$> index_of log)). lia.
  - lia.
Qed.

Lemma log_frag_nonneg log : nonneg (log_frag log).1.1.
Proof.
  unfold log_frag, fragmentation_of. case_decide as Hz; [done|].
  rewrite live_count, frag_totalEntries, frag_totalBytes, frag_liveKeys in *.
  pose proof (index_of_size log). pose proof (live_bytes_bound log).
  assert (forall part whole : nat, (part <= whole)%nat ->
    nonneg (fdiv (float64_of_Z (Z.of_nat whole - Z.of_nat part)) (float64_of_Z (Z.of_nat whole)))) as Hr.
  { intros. apply fdiv_nonneg; apply float64_of_Z_nonneg; lia. }
  simpl. case_match; [|by apply Hr]. case_decide; [by apply Hr|done].
Qed.

(** ** The methods *)

Section Methods.
Context `{HC : Codecs} `{HOk : !CodecsOk} `{MR : MapRange} `{MROk : !MapRangeOk}.

Lemma Compact_run w c :
  isRunning c = false ->
  Compact (w, c) = let (w', r) := compact_body c w in ((w', c), r).
Proof.
  intros Hr. unfold Compact, bind at 1, gets. cbn [snd]. rewrite Hr.
  unfold bind, modify, defer, gets, on_world. cbn [fst snd].
  change (compact_body (set_running true c)) with (compact_body c).
  destruct (compact_body c w) as [w' r]. cbn [fst snd]. unfold set_running. simpl.
  rewrite <-Hr. by destruct c.
Qed.

Lemma ForceCompact_run w c :
  isRunning c = false ->
  ForceCompact (w, c) =
    let (w', r) := compact_body (set_threshold f0 c) w in ((w', c), r).
Proof.
  intros Hr. unfold ForceCompact, bind, gets, modify, defer. cbn [fst snd].
  rewrite Compact_run by done. destruct (compact_body _ w) as [w' r].
  unfold set_threshold. simpl. by destruct c.
Qed.

Lemma index_of_inserts_app log l :
  NoDup l.*1 -> index_of (log ++ map insert_entry l) = list_to_map l ∪ index_of log.
Proof.
  intros Hnd. induction l as [|[k d] l IH] using rev_ind.
  - rewrite app_nil_r. simpl. by rewrite (left_id_L ∅ (∪)). 
  - rewrite fmap_app in Hnd. apply NoDup_app in Hnd as (Hl & Hk & _).
    rewrite map_app, app_assoc. cbn [map]. rewrite index_of_snoc, IH by done.
    rewrite decide_False, decide_True by (done || by left). simpl.
    rewrite list_to_map_snoc; [by rewrite insert_union_l|].
    intros Hin. by apply (Hk k Hin), list_elem_of_singleton.
Qed.

(** What a compaction leaves when an older temporary file held the log [stale]. *)
Lemma live_log_app stale index : index_of (stale ++ live_log index) = index ∪ index_of stale.
Proof.
  unfold live_log. by rewrite index_of_inserts_app, map_range_list_to_map by apply map_range_NoDup.
Qed.

Lemma remove_temp w p :
  faults w = [] ->
  exists w', ignore (os_Remove p) w = (w', Ok tt) /\ only p w w' /\ files w' !! p = None.
Proof.
  intros Hf. unfold ignore, os_Remove. rewrite os_call_ok by done.
  destruct (files w !! p) eqn:E; simpl; eexists; (split; [done|]).
  - split; [|apply lookup_delete_eq]. split_and!; [done|done|].
    intros q Hq. by apply lookup_delete_ne.
  - by split.
Qed.

Lemma CompactFromIndex_ok w p m name log total :
  faults w = [] -> in_i64 (clock w) -> p <> [] -> is_Some (files w !! p) -> name_ok name ->
  safe_block_size (maxSize (NewWriteBuffer m)) -> Forall entry_ok log ->
  exists w' r, CompactFromIndex p m name (index_of log) total w = (w', Ok r) /\
    replaced w w' p name (live_log (index_of log)) /\ faults w' = [] /\
    clock w' = clock w /\ Compacted r = true /\
    OldFileSize r = file_size w p /\ NewFileSize r = file_size w' p /\
    RemovedEntries r = total - Z.of_nat (size (index_of log)).
Proof.
  intros Hf Hi Hp [c Hc] Hn Hm He. unfold CompactFromIndex. rewrite decide_False by done.
  rewrite (bind_run _ _ _ _ _ (try_run _ _ _ _ (os_Stat_size w p c Hf Hc))). cbn zeta.
  change (p ++ bs ".compact") with (GetCompactionTempPath p).
  destruct (remove_temp w (GetCompactionTempPath p) Hf) as (w1 & E1 & (Hf1 & Hc1 & Ho1) & Hnone).
  rewrite (bind_run _ _ _ _ _ E1).
  assert (maxSize (NewWriteBuffer (if decide (m <= 0) then DefaultMaxBlockSize else m))
    = maxSize (NewWriteBuffer m)) as Hmax by (simpl; by repeat case_decide).
  destruct (write_temp_ok w1 (GetCompactionTempPath p)
    (if decide (m <= 0) then DefaultMaxBlockSize else m) name (index_of log) [])
    as (w2 & E2 & Ho2 & Hl2);
    [congruence|congruence|apply temp_nonempty|done|by rewrite Hmax|by apply live_log_entry_ok|by left|].
  rewrite (bind_run _ _ _ _ _ E2).
  assert (only (GetCompactionTempPath p) w w2) as Ho by by transitivity w1.
  destruct (rename_temp w w2 p _ _ ltac:(destruct Ho2; congruence) Ho Hl2)
    as (w3 & E3 & [Hf3 Hck3] & Hrep & c3 & Hc3).
  rewrite (bind_run _ _ _ _ _ (on_err_run _ _ _ _ _ E3)).
  rewrite (bind_run _ _ _ _ _ (try_run _ _ _ _ (os_Stat_size w3 p c3 Hf3 Hc3))).
  eexists _, _. split; [done|]. done.
Qed.
End Methods.
