(* ===== verification/Chronicler.v ===== *)
(** The V2 chronicler: [chronicler/chronicler_v2.go].

    The chronicler sits between a swamp and its [.hyd] file.  Its mutex makes each method
    one atomic step over the file system and its own state; methods that only log an error
    ([slog]) go on as the code does.  Of a treasure the chronicler sees what the getters
    and [ConvertToByte] answer, the record [saved_treasure]; decoding a stored treasure is
    the class [TreasureCodec].  Directories are not part of the world, so creating parent
    folders and removing empty ones is left out. *)
From S2P Require Import Prelude Types Compressor Block FileSys Writer Reader Compactor.

(** [treasure.LoadFromByte]: gob decoding of a stored treasure. *)
Class TreasureCodec := {
  stored_treasure : Type;
  LoadFromByte : bytes -> option stored_treasure
}.

(** What [Write] reads of a treasure. *)
Record saved_treasure := {
  t_key : bytes;
  t_deletedAt : Z;
  t_fileName : option bytes;
  t_bytes : option bytes   (** [None] when [ConvertToByte] fails *)
}.

Definition defaultMinEntriesForCompact : Z := 100.
Definition defaultMaxFileSizeForLoadCompact : Z := 256 * 1024 * 1024.

Record v2_config := {
  hydFilePath : bytes;
  maxBlockSize : Z;
  compactionThreshold : float64;
  compactionOnSave : bool;
  minEntriesForCompact : Z;
  maxFileSizeForLoadCompact : Z
}.

Record chroniclerV2 := {
  config : v2_config;
  dontSendFilePointer : bool;
  filePointerCallback : bool;   (** whether the callback is registered *)
  c_swampName : bytes;
  lastFragmentation : float64;
  totalEntriesInFile : Z;
  liveCountFunc : bool;         (** whether the callback is registered *)
  writer : option FileWriter;
  writerClosed : bool;
  destroyed : bool
}.

Definition set_callbacks (dont file live : bool) (c : chroniclerV2) : chroniclerV2 :=
  {| config := config c; dontSendFilePointer := dont; filePointerCallback := file;
     c_swampName := c_swampName c; lastFragmentation := lastFragmentation c;
     totalEntriesInFile := totalEntriesInFile c; liveCountFunc := live;
     writer := writer c; writerClosed := writerClosed c; destroyed := destroyed c |}.
Definition set_swampName (n : bytes) (c : chroniclerV2) : chroniclerV2 :=
  {| config := config c; dontSendFilePointer := dontSendFilePointer c;
     filePointerCallback := filePointerCallback c; c_swampName := n;
     lastFragmentation := lastFragmentation c; totalEntriesInFile := totalEntriesInFile c;
     liveCountFunc := liveCountFunc c; writer := writer c; writerClosed := writerClosed c;
     destroyed := destroyed c |}.
Definition set_counters (total : Z) (frag : float64) (c : chroniclerV2) : chroniclerV2 :=
  {| config := config c; dontSendFilePointer := dontSendFilePointer c;
     filePointerCallback := filePointerCallback c; c_swampName := c_swampName c;
     lastFragmentation := frag; totalEntriesInFile := total;
     liveCountFunc := liveCountFunc c; writer := writer c; writerClosed := writerClosed c;
     destroyed := destroyed c |}.
Definition set_writer (wr : option FileWriter) (cl : bool) (c : chroniclerV2) : chroniclerV2 :=
  {| config := config c; dontSendFilePointer := dontSendFilePointer c;
     filePointerCallback := filePointerCallback c; c_swampName := c_swampName c;
     lastFragmentation := lastFragmentation c; totalEntriesInFile := totalEntriesInFile c;
     liveCountFunc := liveCountFunc c; writer := wr; writerClosed := cl;
     destroyed := destroyed c |}.
Definition set_destroyed (c : chroniclerV2) : chroniclerV2 :=
  {| config := config c; dontSendFilePointer := dontSendFilePointer c;
     filePointerCallback := filePointerCallback c; c_swampName := c_swampName c;
     lastFragmentation := lastFragmentation c; totalEntriesInFile := totalEntriesInFile c;
     liveCountFunc := liveCountFunc c; writer := writer c; writerClosed := writerClosed c;
     destroyed := true |}.
Definition set_total (n : Z) (c : chroniclerV2) : chroniclerV2 :=
  set_counters n (lastFragmentation c) c.
Definition set_frag (f : float64) (c : chroniclerV2) : chroniclerV2 :=
  set_counters (totalEntriesInFile c) f c.

Definition new_chronicler (folder : bytes) (blockSize : Z) (threshold : float64)
    (name : bytes) : chroniclerV2 :=
  {| config := {| hydFilePath := folder ++ bs ".hyd"; maxBlockSize := blockSize;
                  compactionThreshold := threshold; compactionOnSave := true;
                  minEntriesForCompact := defaultMinEntriesForCompact;
                  maxFileSizeForLoadCompact := defaultMaxFileSizeForLoadCompact |};
     dontSendFilePointer := false; filePointerCallback := false; c_swampName := name;
     lastFragmentation := f0; totalEntriesInFile := 0; liveCountFunc := false;
     writer := None; writerClosed := false; destroyed := false |}.

Definition NewV2 (folder : bytes) : chroniclerV2 :=
  new_chronicler folder DefaultMaxBlockSize (tenth 3) [].
Definition NewV2WithName (folder name : bytes) : chroniclerV2 :=
  new_chronicler folder DefaultMaxBlockSize (tenth 3) name.
Definition NewV2WithConfig (folder : bytes) (blockSize : Z) (threshold : float64)
  : chroniclerV2 :=
  new_chronicler folder blockSize threshold [].

Definition DontSendFilePointer (c : chroniclerV2) : chroniclerV2 :=
  set_callbacks true (filePointerCallback c) (liveCountFunc c) c.
Definition RegisterFilePointerFunction (c : chroniclerV2) : chroniclerV2 :=
  set_callbacks (dontSendFilePointer c) true (liveCountFunc c) c.
Definition RegisterLiveCountFunction (c : chroniclerV2) : chroniclerV2 :=
  set_callbacks (dontSendFilePointer c) (filePointerCallback c) true c.
Definition GetFragmentation (c : chroniclerV2) : float64 := lastFragmentation c.

Section Chronicler.
Context `{HC : Codecs} `{MR : MapRange} `{TC : TreasureCodec}.

Abbreviation MX := (M (world * chroniclerV2)).

Definition field {A} (f : chroniclerV2 -> A) : MX A := gets (fun s => f s.2).
Definition change (f : chroniclerV2 -> chroniclerV2) : MX unit := modify (fun s => (s.1, f s.2)).
Definition path : MX bytes := field (fun c => hydFilePath (config c)).

(** Whether [c.writer != nil && !c.writerClosed]. *)
Definition writer_open (c : chroniclerV2) : bool :=
  match writer c with Some _ => negb (writerClosed c) | None => false end.

(** A method of the writer; a nil writer would panic. *)
Definition on_writer {A} (m : M (world * FileWriter) A) : MX A := fun s =>
  match writer s.2 with
  | Some fw => let '((w', fw'), r) := m (s.1, fw) in
               ((w', set_writer (Some fw') (writerClosed s.2) s.2), r)
  | None => (s, Err ErrFileClosed)
  end.

Definition ensureWriter : MX unit :=
  c <-- field (fun c => c) ;;
  if writer_open c then ret tt else
  st <-- try (on_world (os_Stat (hydFilePath (config c)))) ;;
  let isNewFile := match st with Err ErrNotExist => true | _ => false end in
  fw <-- on_world
    (if isNewFile && negb (bool_decide (c_swampName c = []))
     then NewFileWriterWithName (hydFilePath (config c)) (maxBlockSize (config c)) (c_swampName c)
     else NewFileWriter (hydFilePath (config c)) (maxBlockSize (config c))) ;;
  change (set_writer (Some fw) false).

(** Close an open writer and forget it. *)
Definition close_writer : MX unit :=
  c <-- field (fun c => c) ;;
  if writer_open c then on_writer Close ;;; change (set_writer None true) else ret tt.

Definition runCompactionLocked : MX unit :=
  close_writer ;;;
  c <-- field (fun c => c) ;;
  on_world (ignore (CleanupCompactionTemp (hydFilePath (config c)))) ;;;
  result <-- on_world (fun w =>
    let '((w', _), r) :=
      Compact (w, NewCompactor (hydFilePath (config c)) (maxBlockSize (config c)) f0) in
    (w', r)) ;;
  if Compacted result
  then change (set_counters (LiveEntries result) f0)
  else ret tt.

(** [live_now] is what the registered live-count callback answers during the call. *)
Definition maybeCompactInline (live_now : Z) : MX unit :=
  c <-- field (fun c => c) ;;
  if negb (compactionOnSave (config c)) then ret tt else
  if negb (liveCountFunc c) then ret tt else
  let total := totalEntriesInFile c in
  if decide (total < minEntriesForCompact (config c)) then ret tt else
  let live := if decide (live_now < 0) then 0 else live_now in
  if decide (total < live) then ret tt else
  let dead := total - live in
  let frag := fdiv (float64_of_Z dead) (float64_of_Z total) in
  if decide (total < 2 * live) then
    change (set_frag (if decide (dead <= 0) then f0 else frag))
  else if decide (dead <= 0) then change (set_frag f0)
  else
    change (set_frag frag) ;;;
    if fle frag (compactionThreshold (config c)) then ret tt else
    ignore runCompactionLocked.

Definition treasure_entry (t : saved_treasure) : option Entry :=
  if decide (0 < t_deletedAt t)
  then Some {| Operation := OpDelete; Key := t_key t; Data := [] |}
  else match t_bytes t with
       | None => None
       | Some data =>
           Some {| Operation := match t_fileName t with None => OpInsert | Some _ => OpUpdate end;
                   Key := t_key t; Data := data |}
       end.

(** The keys whose entries the writer took. *)
Fixpoint write_treasures (ts : list saved_treasure) : MX (list bytes) :=
  match ts with
  | [] => ret []
  | t :: ts =>
      r <-- match treasure_entry t with
            | None => ret None
            | Some entry =>
                r <-- try (on_writer (WriteEntry entry)) ;;
                ret match r with Ok _ => Some (t_key t) | Err _ => None end
            end ;;
      keys <-- write_treasures ts ;;
      ret match r with Some k => k :: keys | None => keys end
  end.

(** The events handed to the file pointer callback, [None] when it is not called. *)
Definition Write (live_now : Z) (ts : list saved_treasure)
  : MX (option (list (bytes * bytes))) :=
  c <-- field (fun c => c) ;;
  if destroyed c then ret None else
  if decide (length ts = O) then ret None else
  r <-- try ensureWriter ;;
  match r with
  | Err _ => ret None
  | Ok _ =>
      keys <-- write_treasures ts ;;
      c <-- field (fun c => c) ;;
      let events := if dontSendFilePointer c then []
                    else map (fun k => (k, hydFilePath (config c))) keys in
      change (set_total (totalEntriesInFile c + Z.of_nat (length keys))) ;;;
      maybeCompactInline live_now ;;;
      ret (if decide (length events <> O) then
             if filePointerCallback c && negb (dontSendFilePointer c) then Some events else None
           else None)
  end.

Definition chronicler_Close (live_now : Z) : MX unit :=
  close_writer ;;;
  maybeCompactInline live_now.

Definition chronicler_Sync : MX unit :=
  c <-- field (fun c => c) ;;
  if writer_open c then on_writer Sync else ret tt.

Definition ForceCompaction : MX unit := runCompactionLocked.

Definition Destroy : MX unit :=
  change set_destroyed ;;;
  p <-- path ;;
  on_world (ignore (os_Remove p)).

(** ** Loading *)

Definition decodeTreasure (data : bytes) : option stored_treasure :=
  if decide (data = []) then None else LoadFromByte data.

(** Rewrite a fragmented file from the index just loaded. *)
Definition load_self_heal (index : gmap bytes bytes) (total : Z) : MX unit :=
  c <-- field (fun c => c) ;;
  let live := Z.of_nat (size index) in
  if compactionOnSave (config c) && bool_decide (minEntriesForCompact (config c) <= total)
     && bool_decide (live < total)
  then
    let frag := fdiv (float64_of_Z (total - live)) (float64_of_Z total) in
    change (set_frag frag) ;;;
    if flt (compactionThreshold (config c)) frag then
      st <-- try (on_world (os_Stat (hydFilePath (config c)))) ;;
      let fileSize := match st with Ok n => n | Err _ => 0 end in
      if bool_decide (maxFileSizeForLoadCompact (config c) <= 0)
         || bool_decide (fileSize <= maxFileSizeForLoadCompact (config c))
      then
        r <-- try (on_world (CompactFromIndex (hydFilePath (config c)) (maxBlockSize (config c))
                               (c_swampName c) index total)) ;;
        match r with
        | Ok result => if Compacted result
                       then change (set_counters (LiveEntries result) f0)
                       else ret tt
        | Err _ => ret tt
        end
      else ret tt
    else ret tt
  else ret tt.

(** The treasures pushed to the beacon, [None] when nothing is. *)
Definition Load : MX (option (gmap bytes stored_treasure)) :=
  p <-- path ;;
  on_world (ignore (CleanupCompactionTemp p)) ;;;
  st <-- try (on_world (os_Stat p)) ;;
  match st with
  | Err ErrNotExist => ret None
  | _ =>
      r <-- try (on_world (NewFileReader p)) ;;
      match r with
      | Err _ => ret None
      | Ok reader =>
          r <-- try (on_world (with_local reader
            (idx <-- on_err LoadIndex reader_Close ;; ignore reader_Close ;;; ret idx))) ;;
          match r with
          | Err _ => ret None
          | Ok (_, (index, fileName)) =>
              let total := i64 (EntryCount (r_header reader)) in
              change (fun c => if decide (fileName <> [] /\ c_swampName c = [])
                               then set_swampName fileName c else c) ;;;
              change (set_total (if decide (total < Z.of_nat (size index))
                                 then Z.of_nat (size index) else total)) ;;;
              load_self_heal index total ;;;
              ret (Some (omap decodeTreasure index))
          end
      end
  end.
End Chronicler.
