(* ===== verification/Durability.v ===== *)
(** The chronicler keeps a swamp's data.

    [keeps_index w c index] relates the file system and a chronicler to the abstract state,
    the live data of the swamp: the log on disk, or the log of the open writer, replays to
    [index].  Each operation of the chronicler is shown to act on the abstract state
    ([acts m f]): writing applies the entries of its treasures, everything else, compaction
    included, is the identity. *)
From S2P Require Import Prelude Types Compressor Block FileSys Writer Reader Contents.
From S2P Require Import Log Session Compactor Compaction Chronicler.

Section Durability.
Context `{HC : Codecs} `{HOk : !CodecsOk} `{MR : MapRange} `{MROk : !MapRangeOk}.
Context `{TC : TreasureCodec}.

Definition the_file (c : chroniclerV2) : bytes := hydFilePath (config c).

(** The log a chronicler has: of its open writer, or of its file. *)
Definition chron_log (w : world) (c : chroniclerV2) (name : bytes) (log : list Entry) : Prop :=
  if writer_open c
  then exists fw bss ct, writer c = Some fw /\ filePath fw = the_file c /\
         session w fw name log bss ct
  else files w !! the_file c = None /\ log = [] \/ stored_log w (the_file c) name log.

Record keeps_index (w : world) (c : chroniclerV2) (index : gmap bytes bytes) : Prop := {
  ki_faults : faults w = [];
  ki_clock : in_i64 (clock w);
  ki_path : the_file c <> [];
  ki_block : safe_block_size (maxSize (NewWriteBuffer (maxBlockSize (config c))));
  ki_swampName : name_ok (c_swampName c);
  ki_alive : destroyed c = false;
  ki_log : exists name log, chron_log w c name log /\ Forall entry_ok log /\
             name_ok (log_name name log) /\ index_of log = index
}.

(** The paths a chronicler does not touch. *)
Definition elsewhere (c : chroniclerV2) (w w' : world) : Prop :=
  forall q, q <> the_file c -> q <> GetCompactionTempPath (the_file c) ->
    files w' !! q = files w !! q.

Definition acts {A} (m : M (world * chroniclerV2) A)
    (f : gmap bytes bytes -> gmap bytes bytes) : Prop :=
  forall w c index, keeps_index w c index ->
  exists w' c' a, m (w, c) = ((w', c'), Ok a) /\ keeps_index w' c' (f index) /\
    config c' = config c /\ elsewhere c w w'.

(** ** Composition *)

Lemma elsewhere_trans c c' w w1 w2 :
  config c' = config c -> elsewhere c w w1 -> elsewhere c' w1 w2 -> elsewhere c w w2.
Proof.
  unfold elsewhere, the_file. intros -> H1 H2 q Hq Hq'. by rewrite H2, H1.
Qed.

Lemma acts_bind {A B} (m : M (world * chroniclerV2) A) (k : A -> M (world * chroniclerV2) B) f g :
  acts m f -> (forall a, acts (k a) g) -> acts (bind m k) (fun i => g (f i)).
Proof.
  intros Hm Hk w c index Hi.
  destruct (Hm _ _ _ Hi) as (w1 & c1 & a & E1 & Hi1 & Hc1 & He1).
  destruct (Hk a _ _ _ Hi1) as (w2 & c2 & b & E2 & Hi2 & Hc2 & He2).
  exists w2, c2, b. rewrite (bind_run _ _ _ _ _ E1). split_and!; [done|done|congruence|].
  by eapply elsewhere_trans.
Qed.

Lemma acts_ret {A} (a : A) : acts (ret a) (fun i => i).
Proof. intros w c index Hi. by exists w, c, a. Qed.

Lemma acts_field {A B} (h : chroniclerV2 -> A) (k : A -> M (world * chroniclerV2) B) f :
  (forall w c index, keeps_index w c index ->
     exists w' c' b, k (h c) (w, c) = ((w', c'), Ok b) /\ keeps_index w' c' (f index) /\
       config c' = config c /\ elsewhere c w w') ->
  acts (bind (field h) k) f.
Proof. intros Hk w c index Hi. apply Hk. done. Qed.

(** Counters are not part of the relation. *)
Lemma keeps_counters w c index n fr :
  keeps_index w c index -> keeps_index w (set_counters n fr c) index.
Proof. intros []. by constructor. Qed.

Lemma acts_change g :
  (forall w c index, keeps_index w c index -> keeps_index w (g c) index) ->
  (forall c, config (g c) = config c) -> acts (change g) (fun i => i).
Proof. intros Hg Hc w c index Hi. exists w, (g c), tt. split_and!; auto. done. Qed.

Lemma acts_counters (n : chroniclerV2 -> Z) (fr : chroniclerV2 -> float64) :
  acts (change (fun c => set_counters (n c) (fr c) c)) (fun i => i).
Proof. apply acts_change; [intros; by apply keeps_counters|done]. Qed.

(** ** Opening and closing the writer *)

Lemma open_writer_ok w p m sn name log :
  faults w = [] -> in_i64 (clock w) -> p <> [] -> name_ok sn ->
  safe_block_size (maxSize (NewWriteBuffer m)) ->
  (files w !! p = None /\ log = [] /\ name = sn \/ stored_log w p name log) ->
  opens (NewFileWriterWithName p m sn) w p name log m.
Proof.
  intros Hf Hi Hp Hn Hm Hw. unfold opens, NewFileWriterWithName. rewrite decide_False by done.
  unfold bind, try, os_Stat. rewrite os_call_ok by done.
  destruct Hw as [(Hw & -> & ->)|(bss & Hst & <-)].
  - rewrite Hw. by apply createNewFile_ok.
  - pose proof Hst as (c & h & -> & _). by apply openExistingFile_ok.
Qed.

Lemma NewFileWriter_nameless p m : NewFileWriter p m = NewFileWriterWithName p m [].
Proof. done. Qed.

Lemma log_name_nil name : log_name name [] = name.
Proof. by destruct name. Qed.

Lemma ensureWriter_acts w c index :
  keeps_index w c index ->
  exists w' c', ensureWriter (w, c) = ((w', c'), Ok tt) /\ keeps_index w' c' index /\
    writer_open c' = true /\ config c' = config c /\ elsewhere c w w'.
Proof.
  intros Hi. unfold ensureWriter, bind at 1, field, gets. cbn [snd].
  destruct (writer_open c) eqn:Ho; [by exists w, c|].
  pose proof Hi as [Hf Hck Hp Hm Hsn Hal (name & log & Hlog & He & Hn & <-)].
  unfold chron_log in Hlog. rewrite Ho in Hlog. fold (the_file c).
  set (sn := if (bool_decide (files w !! the_file c = None)) &&
                negb (bool_decide (c_swampName c = [])) then c_swampName c else []).
  assert (exists name', opens (NewFileWriterWithName (the_file c) (maxBlockSize (config c)) sn)
    w (the_file c) name' log (maxBlockSize (config c)) /\ name_ok (log_name name' log))
    as (name' & (w' & fw & bss & ct & E & Hfp & Hon & _ & Hs) & Hn').
  { assert (name_ok sn) by (unfold sn; by destruct (_ && _)).
    destruct Hlog as [[Hno ->]|Hst].
    - exists sn. rewrite log_name_nil. split; [|done]. apply open_writer_ok; auto.
    - exists name. split; [|done]. apply open_writer_ok; auto. }
  exists w', (set_writer (Some fw) false c). split; [|split].
  - unfold bind, try, on_world, os_Stat. cbn [fst snd]. rewrite os_call_ok by done.
    destruct (files w !! the_file c) as [cc|] eqn:Hfile; cbn [fst snd].
    + assert (sn = []) as Hsn0 by (unfold sn; by rewrite bool_decide_false).
      rewrite Hsn0 in E. cbn [andb].
      by rewrite NewFileWriter_nameless, E.
    + unfold sn in E. rewrite bool_decide_true in E by done. cbn [andb] in *.
      destruct (negb _); [by rewrite E|].
      by rewrite NewFileWriter_nameless, E.
  - constructor; try done; [destruct Hs as [[] _ _ _ _ _]; done|by destruct Hon as (_ & -> & _)|].
    exists name', log. split_and!; try done. unfold chron_log. cbn [writer_open set_writer writer writerClosed].
    by exists fw, bss, ct.
  - split_and!; [done|done|]. intros q Hq _. by apply Hon.
Qed.

(** ** Writing *)

(** What a batch of entries does to the live data. *)
Definition apply_entries (es : list Entry) (index : gmap bytes bytes) : gmap bytes bytes :=
  (foldl index_entry (index, []) es).1.

Definition data_entry (e : Entry) : Prop := entry_ok e /\ Operation e <> OpMetadata.

Lemma log_name_app name log es :
  Forall data_entry es -> log_name name (log ++ es) = log_name name log.
Proof.
  intros Hes. unfold log_name. rewrite filter_app.
  assert (filter names_swamp es = []) as ->; [|by rewrite app_nil_r].
  induction Hes as [|e es [_ He] _ IH]; [done|].
  rewrite filter_cons_False; [done|]. by intros [? _].
Qed.

Lemma apply_entries_app es es' index :
  apply_entries (es ++ es') index = apply_entries es' (apply_entries es index).
Proof.
  unfold apply_entries. rewrite foldl_app. set (st := foldl index_entry (index, []) es).
  assert (st.1 = (st.1, [] : bytes).1) as H0 by done. revert H0.
  generalize (st.1, [] : bytes). generalize st. clear st.
  induction es' as [|e es' IH]; intros st st' Hst; simpl; [done|].
  by apply IH, index_entry_fst.
Qed.

Lemma apply_entry_snoc es e index :
  apply_entries (e :: es) index = apply_entries es (apply_entries [e] index).
Proof. apply (apply_entries_app [e]). Qed.

(** A method of the writer that appends [es]. *)
Lemma on_writer_extends m es w c index :
  extends m es -> Forall data_entry es -> keeps_index w c index -> writer_open c = true ->
  exists w' c', on_writer m (w, c) = ((w', c'), Ok tt) /\
    keeps_index w' c' (apply_entries es index) /\ writer_open c' = true /\
    config c' = config c /\ elsewhere c w w'.
Proof.
  intros Hm Hes [Hf Hck Hp Hb Hsn Hal (name & log & Hlog & He & Hn & <-)] Ho.
  unfold chron_log in Hlog. rewrite Ho in Hlog. destruct Hlog as (fw & bss & ct & Hw & Hfp & Hs).
  destruct (Hm _ _ _ _ _ _ Hs) as (w' & fw' & bss' & ct' & E & Hfp' & Hon & Hs').
  exists w', (set_writer (Some fw') (writerClosed c) c).
  assert (writer_open (set_writer (Some fw') (writerClosed c) c) = true) as Ho'.
  { unfold writer_open in *. rewrite Hw in Ho. done. }
  split; [|split].
  - unfold on_writer. cbn [snd fst]. by rewrite Hw, E.
  - constructor; try done; [apply Hs'|by destruct Hon as (_ & -> & _)|].
    exists name, (log ++ es). split_and!.
    + unfold chron_log. rewrite Ho'. exists fw', bss', ct'. split_and!; [done|by rewrite Hfp', Hfp|done].
    + apply Forall_app. split; [done|]. by apply (Forall_impl _ _ _ Hes); intros e [].
    + by rewrite log_name_app.
    + by rewrite index_of_app.
  - split_and!; [done|done|]. intros q Hq _. rewrite Hfp in Hon. by apply Hon.
Qed.

Definition treasure_entries (ts : list saved_treasure) : list Entry := omap treasure_entry ts.

Lemma treasure_entry_data t e : treasure_entry t = Some e -> entry_ok e -> data_entry e.
Proof.
  unfold treasure_entry. intros Ht He. split; [done|]. case_decide; [by simplify_eq|].
  destruct (t_bytes t); [|done]. simplify_eq. simpl. by destruct (t_fileName t).
Qed.

Lemma write_treasures_acts ts w c index :
  Forall entry_ok (treasure_entries ts) -> keeps_index w c index -> writer_open c = true ->
  exists w' c' keys, write_treasures ts (w, c) = ((w', c'), Ok keys) /\
    keeps_index w' c' (apply_entries (treasure_entries ts) index) /\
    config c' = config c /\ elsewhere c w w' /\ keys = map Key (treasure_entries ts).
Proof.
  revert w c index. induction ts as [|t ts IH]; intros w c index Hes Hi Ho.
  - by exists w, c, [].
  - unfold treasure_entries in *. cbn [omap list_omap] in *. cbn [write_treasures].
    destruct (treasure_entry t) as [e|] eqn:Ht.
    + apply Forall_cons in Hes as [He Hes].
      destruct (on_writer_extends (WriteEntry e) [e] w c index) as (w1 & c1 & E1 & Hi1 & Ho1 & Hc1 & He1);
        [by apply extends_if_open, extends_add|constructor; [by eapply treasure_entry_data|done]|done|done|].
      destruct (IH w1 c1 _ Hes Hi1 Ho1) as (w2 & c2 & keys & E2 & Hi2 & Hc2 & He2 & ->).
      exists w2, c2. eexists. split_and!; [| |congruence|by eapply elsewhere_trans|done].
      * unfold bind, try. rewrite E1. unfold ret. rewrite E2. cbn [map]. f_equal. f_equal. f_equal.
        unfold treasure_entry in Ht. case_decide; [by simplify_eq|].
        destruct (t_bytes t); by simplify_eq.
      * by rewrite apply_entry_snoc.
    + destruct (IH w c index Hes Hi Ho) as (w2 & c2 & keys & E2 & Hi2 & Hc2 & He2 & ->).
      exists w2, c2. eexists. split_and!; try done. unfold bind, ret. by rewrite E2.
Qed.

(** ** Closing and compacting *)

Lemma close_writer_acts w c index :
  keeps_index w c index ->
  exists w' c', close_writer (w, c) = ((w', c'), Ok tt) /\ keeps_index w' c' index /\
    writer_open c' = false /\ config c' = config c /\ elsewhere c w w'.
Proof.
  intros Hi. unfold close_writer, bind at 1, field, gets. cbn [snd].
  destruct (writer_open c) eqn:Ho; [|by exists w, c].
  pose proof Hi as [Hf Hck Hp Hb Hsn Hal (name & log & Hlog & He & Hn & <-)].
  unfold chron_log in Hlog. rewrite Ho in Hlog. destruct Hlog as (fw & bss & ct & Hw & Hfp & Hs).
  destruct (Close_session _ _ _ _ _ _ Hs) as (w' & fw' & E & Hfp' & _ & _ & Hon & Hf' & Hl).
  exists w', (set_writer None true c). rewrite Hfp in *. split_and!; try done.
  - unfold bind, on_writer. cbn [snd fst]. by rewrite Hw, E.
  - constructor; try done; [by destruct Hon as (_ & -> & _)|].
    exists name, log. split_and!; try done. by right.
  - intros q Hq _. by apply Hon.
Qed.

Lemma cleanup_ok w p :
  faults w = [] ->
  exists w', ignore (CleanupCompactionTemp p) w = (w', Ok tt) /\
    only (GetCompactionTempPath p) w w' /\ files w' !! GetCompactionTempPath p = None.
Proof.
  intros Hf. unfold ignore, CleanupCompactionTemp, bind, try, os_Stat.
  rewrite os_call_ok by done. destruct (files w !! GetCompactionTempPath p) eqn:E.
  - unfold os_Remove. rewrite os_call_ok, E by done. eexists. split; [done|]. simpl.
    split; [|apply lookup_delete_eq]. split_and!; [done|done|].
    intros q Hq. by apply lookup_delete_ne.
  - eexists. split; [done|]. done.
Qed.

Lemma keeps_world w w' c index :
  keeps_index w c index -> writer_open c = false -> faults w' = [] -> clock w' = clock w ->
  files w' !! the_file c = files w !! the_file c -> keeps_index w' c index.
Proof.
  intros [Hf Hck Hp Hb Hsn Hal (name & log & Hlog & Hrest)] Ho Hf' Hck' Hfile.
  constructor; try done; [congruence|].
  exists name, log. split; [|done]. unfold chron_log in *. rewrite Ho in *.
  unfold stored_log, stored in *. by rewrite Hfile.
Qed.

(** The compactor the chronicler makes; its threshold argument 0 means the default. *)
Definition own_compactor (c : chroniclerV2) : Compactor :=
  NewCompactor (the_file c) (maxBlockSize (config c)) f0.

Lemma own_threshold c : c_threshold (own_compactor c) = tenth 3.
Proof. done. Qed.

Lemma own_block c :
  maxSize (NewWriteBuffer (c_maxBlockSize (own_compactor c)))
  = maxSize (NewWriteBuffer (maxBlockSize (config c))).
Proof. simpl. by repeat case_decide. Qed.

Lemma chron_compactable w c index name log :
  keeps_index w c index -> stored_log w (the_file c) name log -> Forall entry_ok log ->
  name_ok (log_name name log) -> files w !! GetCompactionTempPath (the_file c) = None ->
  compactable w (own_compactor c) name log [].
Proof.
  intros [] Hst He Hn Ht. constructor; try done; [by rewrite own_block|by left].
Qed.

(** A compaction in a world without failures keeps the relation. *)
Lemma compact_step w c index :
  keeps_index w c index -> writer_open c = false ->
  files w !! GetCompactionTempPath (the_file c) = None ->
  exists w' r, Compact (w, own_compactor c) = ((w', own_compactor c), Ok r) /\
    keeps_index w' c index /\ elsewhere c w w'.
Proof.
  intros Hi Ho Ht. pose proof Hi as [Hf Hck Hp Hb Hsn Hal (name & log & Hlog & He & Hn & <-)].
  unfold chron_log in Hlog. rewrite Ho in Hlog. rewrite Compact_run by done.
  destruct Hlog as [[Hno ->]|Hst].
  - unfold compact_body, bind at 1, try, os_Stat. rewrite os_call_ok by done.
    change (c_filePath (own_compactor c)) with (the_file c). rewrite Hno. by eexists w, _.
  - pose proof (compact_body_ok w (own_compactor c) name log []
      (chron_compactable _ _ _ _ _ Hi Hst He Hn Ht)) as Hc. cbn zeta in Hc.
    change (c_filePath (own_compactor c)) with (the_file c) in Hc.
    destruct (flt _ _); [rewrite Hc; by eexists w, _|].
    destruct Hc as (w' & E & (Hst' & Ht' & Hq) & Hf' & Hck'). rewrite E.
    eexists w', _. split; [done|]. split; [|intros q Hq1 Hq2; by apply Hq].
    constructor; try done; [congruence|].
    exists (log_name name log), (live_log (index_of log)). split_and!.
    + unfold chron_log. rewrite Ho. by right.
    + by apply live_log_entry_ok.
    + by rewrite live_log_name.
    + apply live_log_index.
Qed.

Lemma runCompactionLocked_acts : acts runCompactionLocked (fun i => i).
Proof.
  intros w c index Hi. unfold runCompactionLocked.
  destruct (close_writer_acts _ _ _ Hi) as (w1 & c1 & E1 & Hi1 & Ho1 & Hc1 & He1).
  rewrite (bind_run _ _ _ _ _ E1). unfold bind at 1, field, gets. cbn [snd].
  destruct (cleanup_ok w1 (the_file c1) (ki_faults _ _ _ Hi1)) as (w2 & E2 & (Hf2 & Hk2 & Hq2) & Ht2).
  rewrite (bind_run _ _ (w1, c1) (w2, c1) tt) by (unfold on_world; cbn [fst snd]; unfold the_file in E2; by rewrite E2).
  assert (keeps_index w2 c1 index) as Hi2.
  { eapply keeps_world; [done|done|rewrite Hf2; apply Hi1|done|]. apply Hq2, not_eq_sym, temp_ne. }
  destruct (compact_step _ _ _ Hi2 Ho1 Ht2) as (w3 & r & E3 & Hi3 & He3).
  rewrite (bind_run _ _ (w2, c1) (w3, c1) r)
    by (unfold on_world; cbn [fst snd]; unfold own_compactor, the_file in E3; by rewrite E3).
  assert (elsewhere c w w3) as He.
  { eapply elsewhere_trans; [done|done|]. intros q Hq Hq'. rewrite He3 by done. by apply Hq2. }
  destruct (Compacted r).
  - exists w3, (set_counters (LiveEntries r) f0 c1), tt.
    split_and!; [done|by apply keeps_counters|done|done].
  - exists w3, c1, tt. done.
Qed.

Lemma acts_ignore {A} (m : M (world * chroniclerV2) A) f : acts m f -> acts (ignore m) f.
Proof.
  intros Hm w c index Hi. destruct (Hm _ _ _ Hi) as (w' & c' & a & E & Hrest).
  exists w', c', tt. unfold ignore. by rewrite E.
Qed.

Lemma acts_set_frag f : acts (change (set_frag f)) (fun i => i).
Proof. apply (acts_counters totalEntriesInFile (fun _ => f)). Qed.

Lemma maybeCompactInline_acts live : acts (maybeCompactInline live) (fun i => i).
Proof.
  apply acts_field. intros w c index Hi.
  revert w c index Hi. 
  assert (forall c0, acts
    (if negb (compactionOnSave (config c0)) then ret tt else
     if negb (liveCountFunc c0) then ret tt else
     let total := totalEntriesInFile c0 in
     if decide (total < minEntriesForCompact (config c0)) then ret tt else
     let live := if decide (live < 0) then 0 else live in
     if decide (total < live) then ret tt else
     let dead := total - live in
     let frag := fdiv (float64_of_Z dead) (float64_of_Z total) in
     if decide (total < 2 * live) then
       change (set_frag (if decide (dead <= 0) then f0 else frag))
     else if decide (dead <= 0) then change (set_frag f0)
     else
       change (set_frag frag) ;;;
       if fle frag (compactionThreshold (config c0)) then ret tt else
       ignore runCompactionLocked) (fun i => i)) as Hall.
  { intros c0. cbn zeta. repeat (case_match; try apply acts_ret; try apply acts_set_frag).
    all: apply (acts_bind _ _ (fun i => i) (fun i => i)); [apply acts_set_frag|intros _].
    all: repeat (case_match; try apply acts_ret). all: apply acts_ignore, runCompactionLocked_acts. }
  intros w c index Hi. by apply Hall.
Qed.

(** ** The operations *)

Lemma Write_acts live ts :
  Forall entry_ok (treasure_entries ts) ->
  acts (Write live ts) (apply_entries (treasure_entries ts)).
Proof.
  intros Hes w c index Hi. unfold Write, bind at 1, field, gets. cbn [snd].
  rewrite (ki_alive _ _ _ Hi). case_decide as Hl.
  { apply length_zero_iff_nil in Hl as ->. by exists w, c, None. }
  destruct (ensureWriter_acts _ _ _ Hi) as (w1 & c1 & E1 & Hi1 & Ho1 & Hc1 & He1).
  rewrite (bind_run _ _ _ _ _ (try_run _ _ _ _ E1)).
  destruct (write_treasures_acts ts w1 c1 index Hes Hi1 Ho1) as (w2 & c2 & keys & E2 & Hi2 & Hc2 & He2 & _).
  rewrite (bind_run _ _ _ _ _ E2). unfold bind at 1, field, gets. cbn [snd].
  unfold bind at 1, change, modify. cbn [fst snd].
  set (c3 := set_total _ c2).
  destruct (maybeCompactInline_acts live w2 c3 _ (keeps_counters _ _ _ _ _ Hi2))
    as (w4 & c4 & [] & E4 & Hi4 & Hc4 & He4).
  rewrite (bind_run _ _ _ _ _ E4). eexists w4, c4, _. split_and!; [done|done| |].
  - by rewrite Hc4, <-Hc1, <-Hc2.
  - eapply elsewhere_trans; [exact Hc1|done|]. eapply elsewhere_trans; [exact Hc2|done|].
    exact He4.
Qed.

Lemma chronicler_Close_acts live : acts (chronicler_Close live) (fun i => i).
Proof.
  unfold chronicler_Close. apply (acts_bind _ _ (fun i => i) (fun i => i)).
  - intros w c index Hi. destruct (close_writer_acts _ _ _ Hi) as (w' & c' & E & ? & _ & ?).
    by exists w', c', tt.
  - intros _. apply maybeCompactInline_acts.
Qed.

Lemma chronicler_Sync_acts : acts chronicler_Sync (fun i => i).
Proof.
  apply acts_field. intros w c index Hi. destruct (writer_open c) eqn:Ho; [|by exists w, c, tt].
  destruct (on_writer_extends Sync [] w c index extends_Sync ltac:(constructor) Hi Ho)
    as (w' & c' & E & Hi' & _ & Hrest).
  by exists w', c', tt.
Qed.

(** ** Loading *)

Lemma load_self_heal_acts index total w c :
  keeps_index w c index -> writer_open c = false -> is_Some (files w !! the_file c) ->
  exists w' c', load_self_heal index total (w, c) = ((w', c'), Ok tt) /\
    keeps_index w' c' index /\ config c' = config c /\ elsewhere c w w' /\
    writer_open c' = false.
Proof.
  intros Hi Ho Hfile. unfold load_self_heal, bind at 1, field, gets. cbn [snd].
  set (cond := _ && _). destruct cond; [|by exists w, c].
  set (frag := fdiv _ _). unfold bind at 1, change, modify. cbn [fst snd].
  set (c1 := set_frag frag c). assert (keeps_index w c1 index) as Hi1 by by apply keeps_counters.
  destruct (flt _ frag); [|by exists w, c1].
  destruct Hfile as [ct Hct].
  rewrite (bind_run _ _ (w, c1) (w, c1) (Ok (file_size w (the_file c)))).
  2:{ unfold try, on_world. cbn [fst snd]. fold (the_file c).
      by rewrite (os_Stat_size w (the_file c) ct (ki_faults _ _ _ Hi) Hct). }
  destruct (_ || _); [|by exists w, c1].
  destruct Hi as [Hf Hck Hp Hb Hsn Hal (name & log & Hlog & He & Hn & <-)].
  destruct (CompactFromIndex_ok w (the_file c) (maxBlockSize (config c)) (c_swampName c) log total)
    as (w2 & r & E & (Hst & Ht & Hq) & Hf2 & Hck2 & Hcp & _); try done.
  rewrite (bind_run _ _ (w, c1) (w2, c1) (Ok r))
    by (unfold try, on_world; cbn [fst snd]; fold (the_file c); by rewrite E).
  rewrite Hcp. exists w2, (set_counters (LiveEntries r) f0 c1). split_and!; try done.
  constructor; try done; [by rewrite Hck2|]. exists (c_swampName c), (live_log (index_of log)).
  split_and!; [|by apply live_log_entry_ok|by rewrite live_log_name|apply live_log_index].
  unfold chron_log. change (writer_open _) with (writer_open c). rewrite Ho. by right.
Qed.

Lemma keeps_swampName w c index n :
  name_ok n -> keeps_index w c index -> keeps_index w (set_swampName n c) index.
Proof. intros Hn []. by constructor. Qed.

Definition load_index (p : bytes) (reader : FileReader) : M world (FileReader * (gmap bytes bytes * bytes)) :=
  with_local reader (idx <-- on_err LoadIndex reader_Close ;; ignore reader_Close ;;; ret idx).

Lemma load_index_ok w p c h name bss :
  faults w = [] -> files w !! p = Some c -> holds c h name bss [] ->
  exists rd, load_index p (opened p h name) w =
    (w, Ok (rd, (index_of (concat bss), log_name name (concat bss)))).
Proof.
  intros Hf Hc Hh. pose proof (opened_reading w p c h name Hf Hc) as Hr.
  destruct (LoadIndex_ok _ _ _ _ name _ _ _ Hr eq_refl Hh tail_clean) as [n Hn].
  apply (reading_moved _ _ _ _ n) in Hr. cbn [rbind] in Hn. rewrite replay_spec in Hn.
  unfold load_index, bind, with_local, on_err. rewrite Hn.
  unfold ignore, reader_Close. rewrite file_Close_ok by apply Hr. by eexists.
Qed.

Lemma Load_acts w c index :
  keeps_index w c index -> writer_open c = false ->
  exists w' c' r, Load (w, c) = ((w', c'), Ok r) /\ keeps_index w' c' index /\
    config c' = config c /\ elsewhere c w w' /\ writer_open c' = false /\
    r = match files w !! the_file c with
        | None => None
        | Some _ => Some (omap decodeTreasure index)
        end /\ (files w !! the_file c = None -> index = ∅).
Proof.
  intros Hi Ho. unfold Load, bind at 1, path, field, gets. cbn [snd]. fold (the_file c).
  destruct (cleanup_ok w (the_file c) (ki_faults _ _ _ Hi)) as (w1 & E1 & (Hf1 & Hk1 & Hq1) & Ht1).
  rewrite (bind_run _ _ (w, c) (w1, c) tt) by (unfold on_world; cbn [fst snd]; by rewrite E1).
  pose proof (Hq1 _ (not_eq_sym (temp_ne (the_file c)))) as Hsame.
  assert (keeps_index w1 c index) as Hi1
    by (eapply keeps_world; [done|done|rewrite Hf1; apply Hi|done|done]).
  pose proof Hi as [Hf Hck Hp Hb Hsn Hal (name & log & Hlog & He & Hn & Hidx)].
  unfold chron_log in Hlog. rewrite Ho in Hlog.
  destruct Hlog as [[Hno ->]|(bss & (ct & h & Hct & Hh & Hcnt) & Hl)].
  - exists w1, c, None. rewrite Hno in *. split_and!; try done.
    + unfold bind, try, on_world, os_Stat. cbn [fst snd].
      rewrite os_call_ok by congruence. by rewrite Hsame.
    + intros q Hq Hq'. by apply Hq1.
  - rewrite Hct in Hsame. rewrite Hct.
    assert (faults w1 = []) as Hfw1 by congruence.
    rewrite (bind_run _ _ (w1, c) (w1, c) (Ok (file_size w1 (the_file c)))).
    2:{ unfold try, on_world. cbn [fst snd]. by rewrite (os_Stat_size w1 _ ct). }
    rewrite (bind_run _ _ (w1, c) (w1, c) (Ok (opened (the_file c) h name))).
    2:{ unfold try, on_world. cbn [fst snd]. by rewrite (NewFileReader_ok w1 _ ct h name bss []). }
    destruct (load_index_ok w1 (the_file c) ct h name bss Hfw1 Hsame Hh) as [rd Hload].
    rewrite Hl in Hload.
    rewrite (bind_run _ _ (w1, c) (w1, c) (Ok (rd, (index_of log, log_name name log)))).
    2:{ unfold try, on_world. cbn [fst snd]. unfold load_index in Hload. by rewrite Hload. }
    unfold bind at 1, change at 1, modify at 1. cbn [fst snd].
    unfold bind at 1, change at 1, modify at 1. cbn [fst snd].
    rewrite Hidx. set (total := i64 _).
    set (c1 := if decide (log_name name log <> [] /\ c_swampName c = [])
               then set_swampName (log_name name log) c else c). set (c2 := set_total _ c1).
    assert (keeps_index w1 c1 index /\ writer_open c1 = false /\ config c1 = config c)
      as (Hi2 & Ho2 & Hc2).
    { unfold c1. case_decide; [|done]. split; [|done]. by apply keeps_swampName. }
    assert (the_file c1 = the_file c) as Hfile by (unfold the_file; by rewrite Hc2).
    destruct (load_self_heal_acts index total w1 c2) as (w3 & c3 & E3 & Hi3 & Hc3 & He3 & Ho3);
      [by apply keeps_counters|done|exists ct; change (the_file c2) with (the_file c1); by rewrite Hfile|].
    exists w3, c3, (Some (omap decodeTreasure index)). split_and!; try done.
    + by rewrite (bind_run _ _ _ _ _ E3).
    + by rewrite Hc3.
    + intros q Hq Hq'. unfold elsewhere in He3. change (the_file c2) with (the_file c1) in He3.
      rewrite Hfile in He3. rewrite He3 by done. by apply Hq1.
Qed.

(** ** Other chroniclers of the same file *)

Definition stays_closed : relation (world * chroniclerV2) := fun s s' =>
  writer_open s.2 = false -> writer_open s'.2 = false.

#[export] Instance stays_closed_preorder : PreOrder stays_closed.
Proof. split; [intros s Ho; exact Ho|]. intros s1 s2 s3 H1 H2 H0. auto. Qed.

Lemma on_writer_stays_closed {A} (m : M (world * FileWriter) A) :
  respects stays_closed (on_writer m).
Proof.
  intros [w c] Ho. unfold on_writer, writer_open in *. cbn [snd fst] in *.
  destruct (writer c) as [fw|] eqn:E; [|cbn [fst snd]; by rewrite E].
  destruct (m (w, fw)) as [[w' fw'] r]. simpl. done.
Qed.

Lemma counters_stay_closed n fr :
  respects stays_closed (change (fun c => set_counters (n c) (fr c) c)).
Proof. intros [w c] Ho. exact Ho. Qed.

Lemma set_frag_stays_closed f : respects stays_closed (change (set_frag f)).
Proof. apply (counters_stay_closed totalEntriesInFile (fun _ => f)). Qed.

Lemma runCompactionLocked_stays_closed : respects stays_closed runCompactionLocked.
Proof.
  apply respects_bind; [apply _| |intros _].
  - intros [w c] Ho. unfold close_writer, bind at 1, field, gets.
    cbn [snd] in *. by rewrite Ho.
  - apply respects_bind; [apply _|apply respects_gets, _|intros c].
    apply respects_bind; [apply _| |intros _].
    { intros [w c'] Ho. unfold on_world. cbn [fst snd] in *. by destruct (ignore _ w). }
    apply respects_bind; [apply _| |intros r].
    { intros [w c'] Ho. unfold on_world. cbn [fst snd] in *.
      by destruct (Compact _) as [[w' ?] ?]. }
    destruct (Compacted r); [|apply respects_ret, _].
    apply (counters_stay_closed (fun _ => LiveEntries r) (fun _ => f0)).
Qed.

Lemma maybeCompactInline_stays_closed live : respects stays_closed (maybeCompactInline live).
Proof.
  apply respects_bind; [apply _|apply respects_gets, _|intros c]. cbn zeta.
  repeat (case_match; try apply respects_ret, _; try apply set_frag_stays_closed).
  all: apply respects_bind; [apply _|apply set_frag_stays_closed|intros _].
  all: repeat (case_match; try apply respects_ret, _).
  all: apply respects_ignore, runCompactionLocked_stays_closed.
Qed.

Lemma keeps_index_file w c cn index :
  keeps_index w c index -> writer_open c = false -> writer_open cn = false ->
  config cn = config c -> name_ok (c_swampName cn) -> destroyed cn = false ->
  keeps_index w cn index.
Proof.
  intros [Hf Hck Hp Hb Hsn Hal (name & log & Hlog & Hrest)] Ho Hon Hc Hn Hd.
  assert (the_file cn = the_file c) as Hfile by (unfold the_file; by rewrite Hc).
  constructor; try done; [by rewrite Hfile|by rewrite Hc|].
  exists name, log. split; [|done]. unfold chron_log in *. by rewrite Hon, Hfile, Ho in *.
Qed.

(** ** After a destroy *)

Lemma Write_destroyed live ts w c :
  destroyed c = true -> Write live ts (w, c) = ((w, c), Ok None).
Proof. intros Hd. unfold Write, bind, field, gets. cbn [snd]. by rewrite Hd. Qed.

(** ** When the inline compaction runs *)

Definition inline_due (live_now : Z) (c : chroniclerV2) : bool :=
  let total := totalEntriesInFile c in
  let live := Z.max 0 live_now in
  let frag := fdiv (float64_of_Z (total - live)) (float64_of_Z total) in
  compactionOnSave (config c) && liveCountFunc c &&
  bool_decide (minEntriesForCompact (config c) <= total) &&
  bool_decide (2 * live <= total) && bool_decide (live < total) &&
  negb (fle frag (compactionThreshold (config c))).

Lemma maybeCompactInline_due live w c :
  exists f, maybeCompactInline live (w, c) =
    if inline_due live c then ignore runCompactionLocked (w, set_frag f c)
    else ((w, set_frag f c), Ok tt).
Proof.
  assert (set_frag (lastFragmentation c) c = c) as Hsame by by destruct c.
  unfold maybeCompactInline, inline_due, bind at 1, field, gets. cbn [snd]. cbn zeta.
  destruct (compactionOnSave (config c)); cbn [negb andb];
    [|exists (lastFragmentation c); by rewrite Hsame].
  destruct (liveCountFunc c); cbn [negb andb]; [|exists (lastFragmentation c); by rewrite Hsame].
  assert ((if decide (live < 0) then 0 else live) = Z.max 0 live) as -> by (case_decide; lia).
  set (n := Z.max 0 live). set (t := totalEntriesInFile c).
  case_decide; [rewrite bool_decide_false by lia; exists (lastFragmentation c); by rewrite Hsame|].
  rewrite (bool_decide_true (minEntriesForCompact _ <= _)) by lia. cbn [andb].
  case_decide.
  { rewrite (bool_decide_false (n < t)), andb_false_r by lia. cbn [andb].
    exists (lastFragmentation c). by rewrite Hsame. }
  case_decide; [rewrite bool_decide_false by lia; cbn [andb]; by eexists|].
  rewrite (bool_decide_true (2 * n <= t)) by lia. cbn [andb].
  case_decide; [rewrite bool_decide_false by lia; cbn [andb]; by eexists|].
  rewrite (bool_decide_true (n < t)) by lia. cbn [andb].
  eexists. unfold bind, change, modify. cbn [fst snd].
  by destruct (fle _ _).
Qed.
End Durability.
