(* ===== verification/Lock.v ===== *)
(** The business lock: [core/hydra/lock/lock.go].

    A [Lock] call enqueues a caller, waits for its ready channel or its context, and on
    success starts a watchdog that removes the caller when its time to live is over.  The
    state is shared by every goroutine; a section under a queue's mutex is one step, and a
    goroutine may be interrupted between two of them.  Closing a closed channel panics:
    the outcome [Panic].  [uuid.NewString] gives an identifier no caller has; [arrivals]
    records the order of the calls and is read by no operation. *)
From S2P Require Import Prelude Steps.
#[local] Set Warnings "-clear-no-such-hyp".

(** ** State *)

(** Where a [Lock] call is: in the [select]; past the [select] on the context's side;
    returned with the lock; returned with an error. *)
Inductive phase : Type := Waiting | Cancelled | Holding | Failed.

(** The watchdog of a successful call: not started; in its [select]; past it on the timer's
    side; ended. *)
Inductive watchdog : Type := NoWatch | Watching | Fired | Ended.

#[export] Instance phase_eq_dec : EqDecision phase.
Proof. solve_decision. Defined.
#[export] Instance watchdog_eq_dec : EqDecision watchdog.
Proof. solve_decision. Defined.

Record caller := {
  c_key : bytes;
  c_ready : bool;      (** the channel is closed *)
  c_done : bool;
  c_phase : phase;
  c_watch : watchdog
}.

Record lock := {
  queues : gmap bytes (list bytes);
  callers : gmap bytes caller;
  arrivals : list (bytes * bytes)
}.

Definition New : lock := {| queues := ∅; callers := ∅; arrivals := [] |}.

Definition set_ready (c : caller) : caller :=
  {| c_key := c_key c; c_ready := true; c_done := c_done c; c_phase := c_phase c;
     c_watch := c_watch c |}.
Definition set_done (c : caller) : caller :=
  {| c_key := c_key c; c_ready := c_ready c; c_done := true; c_phase := c_phase c;
     c_watch := c_watch c |}.
Definition set_phase (p : phase) (w : watchdog) (c : caller) : caller :=
  {| c_key := c_key c; c_ready := c_ready c; c_done := c_done c; c_phase := p;
     c_watch := w |}.

Definition set_callers (m : gmap bytes caller) (s : lock) : lock :=
  {| queues := queues s; callers := m; arrivals := arrivals s |}.

(** ** Operations *)

(** [getQueue]: the queue of a key, made on the first use. *)
Definition getQueue (key : bytes) (s : lock) : list bytes := default [] (queues s !! key).

Definition newCaller (key : bytes) : caller :=
  {| c_key := key; c_ready := false; c_done := false; c_phase := Waiting; c_watch := NoWatch |}.

(** [close(c.ready)] and [close(c.done)] of a caller: [None] is the panic. *)
Definition close_ready (id : bytes) (m : gmap bytes caller) : option (gmap bytes caller) :=
  c ← m !! id; if c_ready c then None else Some (<[id := set_ready c]> m).
Definition close_done (id : bytes) (m : gmap bytes caller) : option (gmap bytes caller) :=
  c ← m !! id; if c_done c then None else Some (<[id := set_done c]> m).

(** A call of [Lock] up to its [select]. *)
Definition enqueue (key id : bytes) (s : lock) : outcome lock :=
  let q := getQueue key s in
  let m := <[id := newCaller key]> (callers s) in
  let q' := q ++ [id] in
  let s' m := {| queues := <[key := q']> (queues s); callers := m;
                 arrivals := arrivals s ++ [(key, id)] |} in
  if decide (length q = O)
  then match close_ready id m with Some m => Next (s' m) | None => Panic end
  else Next (s' m).

(** [remove]: the loop over the callers stops at the first one with the identifier. *)
Definition remove (key id : bytes) (s : lock) : option (lock * bool) :=
  let q := getQueue key s in
  match list_find (id =.) q with
  | None => Some (s, false)
  | Some (i, _) =>
      let q' := take i q ++ drop (S i) q in
      m ← close_done id (callers s);
      m ← (if decide (i = O) then
             match q' with
             | [] => Some m
             | next :: _ => close_ready next m
             end
           else Some m);
      Some ({| queues := <[key := q']> (queues s); callers := m; arrivals := arrivals s |}, true)
  end.

(** [Unlock], with what it reports to its caller: [false] is the error. *)
Definition Unlock (key id : bytes) (s : lock) : option (lock * bool) :=
  match queues s !! key with
  | None => Some (s, false)
  | Some _ => remove key id s
  end.

(** ** Steps *)

Inductive event : Type :=
| ECall (key id : bytes)          (** [Lock] enqueues *)
| EReady (id : bytes)             (** the [select] takes [c.ready]: the lock is granted *)
| EContext (id : bytes)           (** the [select] takes [ctx.Done()] *)
| ELeave (id : bytes)             (** ... and removes the caller *)
| EUnlock (key id : bytes)        (** [Unlock] *)
| ETimer (id : bytes)             (** the watchdog takes the timer *)
| EExpire (id : bytes)            (** ... and removes the caller *)
| EWatchEnd (id : bytes).         (** the watchdog takes [c.done] *)

Definition remove_as (id : bytes) (f : caller -> caller) (s : lock) : outcome lock :=
  match callers s !! id with
  | None => Disabled
  | Some c =>
      match remove (c_key c) id s with
      | None => Panic
      | Some (s', _) => Next (set_callers (alter f id (callers s')) s')
      end
  end.

Definition lock_step (e : event) (s : lock) : outcome lock :=
  match e with
  | ECall key id =>
      if decide (callers s !! id = None) then enqueue key id s else Disabled
  | EReady id =>
      match callers s !! id with
      | Some c => if decide (c_phase c = Waiting /\ c_ready c = true)
                  then Next (set_callers (<[id := set_phase Holding Watching c]> (callers s)) s)
                  else Disabled
      | None => Disabled
      end
  | EContext id =>
      match callers s !! id with
      | Some c => if decide (c_phase c = Waiting)
                  then Next (set_callers (<[id := set_phase Cancelled (c_watch c) c]> (callers s)) s)
                  else Disabled
      | None => Disabled
      end
  | ELeave id =>
      match callers s !! id with
      | Some c => if decide (c_phase c = Cancelled)
                  then remove_as id (fun c => set_phase Failed (c_watch c) c) s
                  else Disabled
      | None => Disabled
      end
  | EUnlock key id =>
      match Unlock key id s with
      | None => Panic
      | Some (s', _) => Next s'
      end
  | ETimer id =>
      match callers s !! id with
      | Some c => if decide (c_watch c = Watching)
                  then Next (set_callers (<[id := set_phase (c_phase c) Fired c]> (callers s)) s)
                  else Disabled
      | None => Disabled
      end
  | EExpire id =>
      match callers s !! id with
      | Some c => if decide (c_watch c = Fired)
                  then remove_as id (fun c => set_phase (c_phase c) Ended c) s
                  else Disabled
      | None => Disabled
      end
  | EWatchEnd id =>
      match callers s !! id with
      | Some c => if decide (c_watch c = Watching /\ c_done c = true)
                  then Next (set_callers (<[id := set_phase (c_phase c) Ended c]> (callers s)) s)
                  else Disabled
      | None => Disabled
      end
  end.

(** The caller an event belongs to. *)
Definition event_id (e : event) : bytes :=
  match e with
  | ECall _ id | EReady id | EContext id | ELeave id | EUnlock _ id | ETimer id | EExpire id
  | EWatchEnd id => id
  end.

(** Events that need neither a new call, nor a call of [Unlock], nor a context. *)
Definition unaided (e : event) : bool :=
  match e with ECall _ _ | EUnlock _ _ | EContext _ => false | _ => true end.

(** ** The invariant *)

(** A caller that has not been removed. *)
Definition alive (m : gmap bytes caller) (id : bytes) : bool :=
  match m !! id with Some c => negb (c_done c) | None => false end.

(** The callers of a key in the order of their calls. *)
Definition calls_of (key : bytes) (l : list (bytes * bytes)) : list bytes :=
  map snd (filter (fun a => a.1 = key) l).

Definition is_ready (m : gmap bytes caller) (id : bytes) : bool :=
  match m !! id with Some c => c_ready c | None => false end.

(** Whoever has the lock was ready; whoever has not been removed is waiting, about to leave,
    or has the lock and a watchdog that will remove it. *)
Definition caller_ok (c : caller) : Prop :=
  (c_phase c = Holding -> c_ready c = true) /\
  (c_done c = false ->
   match c_phase c with
   | Waiting | Cancelled => c_watch c = NoWatch
   | Holding => c_watch c = Watching \/ c_watch c = Fired
   | Failed => False
   end).

(** A queue holds the callers of its key that have not been removed, in the order of their
    calls; exactly its head is ready. *)
Record lock_ok (s : lock) : Prop := {
  lo_arrivals : NoDup (map snd (arrivals s));
  lo_callers key id : (key, id) ∈ arrivals s <->
    exists c, callers s !! id = Some c /\ c_key c = key;
  lo_queue key : getQueue key s = filter (fun id => alive (callers s) id) (calls_of key (arrivals s));
  lo_ready key id : id ∈ getQueue key s ->
    (is_ready (callers s) id = true <-> head (getQueue key s) = Some id);
  lo_caller id c : callers s !! id = Some c -> caller_ok c
}.

Lemma calls_of_elem key l id : id ∈ calls_of key l <-> (key, id) ∈ l.
Proof.
  unfold calls_of. rewrite list_elem_of_fmap. split.
  - intros ([k i] & -> & Hin). apply list_elem_of_filter in Hin as [<- Hin]. done.
  - intros Hin. exists (key, id). split; [done|]. by apply list_elem_of_filter.
Qed.

Lemma calls_of_NoDup key l : NoDup (map snd l) -> NoDup (calls_of key l).
Proof.
  unfold calls_of. induction l as [|[k i] l IH]; [done|]. cbn [map snd]. intros Hnd.
  inversion Hnd as [|? ? Hi Hl]; subst. destruct (decide (k = key)).
  - rewrite filter_cons_True by done. cbn [map snd]. constructor; [|by apply IH].
    intros Hin. apply Hi. apply list_elem_of_fmap in Hin as (a & -> & Ha).
    apply list_elem_of_filter in Ha as [_ Ha]. apply list_elem_of_fmap. by exists a.
  - rewrite filter_cons_False by done. by apply IH.
Qed.

Lemma calls_of_snoc key l a :
  calls_of key (l ++ [a]) = calls_of key l ++ (if decide (a.1 = key) then [a.2] else []).
Proof.
  unfold calls_of. rewrite filter_app, map_app. f_equal.
  destruct (decide (a.1 = key)).
  - by rewrite filter_cons_True.
  - by rewrite filter_cons_False.
Qed.

Lemma queue_NoDup s key : lock_ok s -> NoDup (getQueue key s).
Proof. intros []. rewrite lo_queue0. by apply NoDup_filter, calls_of_NoDup. Qed.

Lemma queue_elem s key id :
  lock_ok s -> id ∈ getQueue key s <->
    exists c, callers s !! id = Some c /\ c_key c = key /\ c_done c = false.
Proof.
  intros []. rewrite lo_queue0, list_elem_of_filter, calls_of_elem, lo_callers0.
  unfold alive. split.
  - intros [Ha (c & Hc & Hk)]. rewrite Hc in Ha. exists c. split_and!; [done|done|].
    by destruct (c_done c).
  - intros (c & Hc & Hk & Hd). rewrite Hc, Hd. split; [done|]. by exists c.
Qed.

(** Two queues share no caller. *)
Lemma queue_disjoint s k1 k2 id :
  lock_ok s -> id ∈ getQueue k1 s -> id ∈ getQueue k2 s -> k1 = k2.
Proof.
  intros Hs H1 H2. apply (queue_elem s) in H1 as (c1 & Hc1 & <- & _); [|done].
  apply (queue_elem s) in H2 as (c2 & Hc2 & <- & _); [|done]. by simplify_eq.
Qed.

(** ** Steps that move one goroutine only *)

Definition flags (c : caller) : bytes * bool * bool := (c_key c, c_ready c, c_done c).

(** The flags of every caller are the same. *)
Definition same_flags (m m' : gmap bytes caller) : Prop :=
  forall id, flags <$> m' !! id = flags <$> m !! id.

Lemma flags_alive m m' id : same_flags m m' -> alive m' id = alive m id.
Proof.
  intros Hm. specialize (Hm id). unfold alive, flags in *.
  destruct (m' !! id), (m !! id); cbn in Hm; congruence.
Qed.

Lemma flags_ready m m' id : same_flags m m' -> is_ready m' id = is_ready m id.
Proof.
  intros Hm. specialize (Hm id). unfold is_ready, flags in *.
  destruct (m' !! id), (m !! id); cbn in Hm; congruence.
Qed.

Lemma flags_key m m' id key :
  same_flags m m' ->
  (exists c, m !! id = Some c /\ c_key c = key) <-> (exists c, m' !! id = Some c /\ c_key c = key).
Proof.
  intros Hm. specialize (Hm id). unfold flags in *.
  destruct (m' !! id), (m !! id); cbn in Hm; [|congruence..|done].
  split; intros (d & [= <-] & Hk); (eexists; split; [reflexivity|congruence]).
Qed.

Lemma same_flags_insert m id c c' :
  m !! id = Some c -> flags c' = flags c -> same_flags m (<[id := c']> m).
Proof.
  intros Hc Hf i. destruct (decide (i = id)) as [->|].
  - by rewrite lookup_insert_eq, Hc; cbn; f_equal.
  - by rewrite lookup_insert_ne.
Qed.

Lemma filter_ext_bool (f g : bytes -> bool) (l : list bytes) :
  (forall x, x ∈ l -> f x = g x) -> filter (fun x => f x) l = filter (fun x => g x) l.
Proof.
  induction l as [|a l IH]; intros Hfg; [done|].
  pose proof (Hfg a ltac:(set_solver)) as Ha. rewrite !filter_cons, Ha.
  rewrite IH by (intros x Hx; apply Hfg; set_solver). done.
Qed.

Lemma move_ok m s :
  lock_ok s -> same_flags (callers s) m ->
  (forall id c, m !! id = Some c -> caller_ok c) -> lock_ok (set_callers m s).
Proof.
  intros [] Hm Hc. constructor; cbn [set_callers arrivals callers]; unfold getQueue in *;
    cbn [set_callers queues] in *.
  - done.
  - intros key id. rewrite lo_callers0. by apply flags_key.
  - intros key. rewrite lo_queue0. apply filter_ext_bool. intros x _. symmetry. by apply flags_alive.
  - intros key id Hin. rewrite (flags_ready (callers s) m) by done. by apply lo_ready0.
  - done.
Qed.

Lemma move_one_ok id c c' s :
  lock_ok s -> callers s !! id = Some c -> flags c' = flags c -> caller_ok c' ->
  lock_ok (set_callers (<[id := c']> (callers s)) s).
Proof.
  intros Hs Hc Hf Hok. apply move_ok; [done|by eapply same_flags_insert|].
  intros i c0 [[<- <-]|[? Hi]]%lookup_insert_Some; [done|]. by eapply lo_caller.
Qed.

(** ** Joining a queue *)

Lemma fresh_not_arrived s id : lock_ok s -> callers s !! id = None -> id ∉ map snd (arrivals s).
Proof.
  intros Hs Hn Hin. apply list_elem_of_fmap in Hin as ([k i] & -> & Hin).
  apply (lo_callers s Hs) in Hin as (c & Hc & _). by simplify_eq/=.
Qed.

Definition joined (key id : bytes) (s : lock) : lock :=
  {| queues := <[key := getQueue key s ++ [id]]> (queues s);
     callers := <[id := (if decide (length (getQueue key s) = O) then set_ready else fun c => c)
                          (newCaller key)]> (callers s);
     arrivals := arrivals s ++ [(key, id)] |}.

Lemma enqueue_joined key id s : enqueue key id s = Next (joined key id s).
Proof.
  unfold enqueue, joined, close_ready. destruct (decide _); [|done].
  by rewrite lookup_insert_eq; cbn; rewrite insert_insert_eq.
Qed.

Lemma getQueue_insert key k q s m a :
  getQueue k {| queues := <[key := q]> (queues s); callers := m; arrivals := a |} =
  if decide (k = key) then q else getQueue k s.
Proof.
  unfold getQueue. cbn [queues]. destruct (decide (k = key)) as [->|].
  - by rewrite lookup_insert_eq.
  - by rewrite lookup_insert_ne.
Qed.

Lemma join_ok key id s : lock_ok s -> callers s !! id = None -> lock_ok (joined key id s).
Proof.
  intros Hs Hn. pose proof (fresh_not_arrived s id Hs Hn) as Hfresh.
  assert (Hnq : forall k, id ∉ getQueue k s).
  { intros k Hin. apply (queue_elem s) in Hin as (c & Hc & _); [|done]. by simplify_eq. }
  pose proof Hs as []. unfold joined. constructor; cbn [arrivals callers].
  - rewrite map_app. apply NoDup_app. split_and!; [done| |apply NoDup_singleton].
    intros x Hx Hin. cbn in Hin. apply list_elem_of_singleton in Hin as ->. done.
  - intros k i. rewrite elem_of_app, lo_callers0, list_elem_of_singleton. split.
    + intros [(c & Hc & Hk)|[= -> ->]].
      * exists c. rewrite lookup_insert_ne; [done|]. intros ->. by simplify_eq.
      * eexists. rewrite lookup_insert_eq. split; [done|]. by destruct (decide _).
    + intros (c & [[<- <-]|[? Hc]]%lookup_insert_Some & Hk); [right|left; by exists c].
      by destruct (decide _); cbn in Hk; subst.
  - intros k. rewrite getQueue_insert, calls_of_snoc, filter_app. cbn [fst snd].
    assert (Hold : filter (fun i => alive (<[id:=(if decide (length (getQueue key s) = O)
      then set_ready else fun c => c) (newCaller key)]> (callers s)) i) (calls_of k (arrivals s))
      = getQueue k s).
    { rewrite (lo_queue0 k). apply filter_ext_bool. intros x Hx. unfold alive.
      rewrite lookup_insert_ne; [done|]. intros <-. apply Hfresh.
      apply calls_of_elem in Hx. apply list_elem_of_fmap. by eexists (_, _). }
    rewrite Hold. destruct (decide (k = key)) as [->|].
    + f_equal. rewrite (decide_True (P := key = key)) by done. rewrite filter_cons_True; [done|].
      unfold alive. rewrite lookup_insert_eq. by destruct (decide _).
    + rewrite (decide_False (P := key = k)) by done. by rewrite app_nil_r.
  - intros k i. rewrite getQueue_insert. unfold is_ready.
    destruct (decide (k = key)) as [->|Hk].
    + rewrite elem_of_app, list_elem_of_singleton. intros [Hin| ->].
      * rewrite lookup_insert_ne by (intros ->; by apply (Hnq key)).
        fold (is_ready (callers s) i). rewrite (lo_ready0 key i Hin).
        destruct (getQueue key s); [set_solver|done].
      * rewrite lookup_insert_eq. destruct (getQueue key s) as [|h q] eqn:Hq; cbn; [done|].
        split; [done|]. intros [= ->]. exfalso. apply (Hnq key). rewrite Hq. set_solver.
    + intros Hin. rewrite lookup_insert_ne by (intros ->; by apply (Hnq k)). by apply lo_ready0.
  - intros i c [[<- <-]|[? Hc]]%lookup_insert_Some; [|by eapply lo_caller0].
    destruct (decide _); split; done.
Qed.

(** ** Leaving a queue *)

Lemma filter_ne (id : bytes) (l : list bytes) : id ∉ l -> filter (fun y => y <> id) l = l.
Proof.
  induction l as [|a l IH]; [done|]. intros Hn.
  rewrite filter_cons_True by set_solver. rewrite IH by set_solver. done.
Qed.

Lemma list_find_split (q : list bytes) id i x :
  NoDup q -> list_find (id =.) q = Some (i, x) ->
  x = id /\ q = take i q ++ id :: drop (S i) q /\
  take i q ++ drop (S i) q = filter (fun y => y <> id) q /\
  (i = O <-> head q = Some id).
Proof.
  intros Hnd Hf. apply list_find_Some in Hf as (Hi & <- & _).
  pose proof (take_drop_middle q i id Hi) as Hq. split_and!; [done|done| |].
  - assert (Hni : id ∉ take i q ++ drop (S i) q).
    { rewrite <- Hq in Hnd. apply NoDup_app in Hnd as (_ & Hd & Hn). apply NoDup_cons in Hn as [Hn _].
      rewrite elem_of_app. intros [Hin|Hin]; [|done]. apply (Hd id Hin). set_solver. }
    rewrite <- Hq at 3. rewrite filter_app, filter_cons_False by naive_solver.
    rewrite <- filter_app. symmetry. by apply filter_ne.
  - split; [intros ->; by destruct q|]. intros Hh. destruct q as [|h q]; [done|].
    injection Hh as ->. eapply (NoDup_lookup (id :: q) i 0 id); done.
Qed.

(** What a removal that finds its caller does. *)
Definition left_state (key id : bytes) (s : lock) : lock :=
  let q' := filter (fun y => y <> id) (getQueue key s) in
  let m := alter set_done id (callers s) in
  {| queues := <[key := q']> (queues s);
     callers := if decide (head (getQueue key s) = Some id)
                then match q' with [] => m | n :: _ => alter set_ready n m end
                else m;
     arrivals := arrivals s |}.

Lemma remove_missing key id s : id ∉ getQueue key s -> remove key id s = Some (s, false).
Proof.
  intros Hn. unfold remove. destruct (list_find (id =.) (getQueue key s)) as [[i x]|] eqn:Hf; [|done].
  apply list_find_Some in Hf as (Hi & <- & _). destruct Hn. by eapply list_elem_of_lookup_2.
Qed.

Lemma close_done_alter id m c :
  m !! id = Some c -> c_done c = false -> close_done id m = Some (alter set_done id m).
Proof.
  intros Hc Hd. unfold close_done. rewrite Hc. cbn. rewrite Hd. f_equal.
  apply map_eq. intros j. destruct (decide (id = j)) as [<-|].
  - by rewrite lookup_insert_eq, lookup_alter_eq, Hc.
  - by rewrite lookup_insert_ne, lookup_alter_ne.
Qed.

Lemma close_ready_alter id m c :
  m !! id = Some c -> c_ready c = false -> close_ready id m = Some (alter set_ready id m).
Proof.
  intros Hc Hd. unfold close_ready. rewrite Hc. cbn. rewrite Hd. f_equal.
  apply map_eq. intros j. destruct (decide (id = j)) as [<-|].
  - by rewrite lookup_insert_eq, lookup_alter_eq, Hc.
  - by rewrite lookup_insert_ne, lookup_alter_ne.
Qed.

(** The second caller of a queue is not ready, so closing its channel does not panic. *)
Lemma next_not_ready s key id n q :
  lock_ok s -> head (getQueue key s) = Some id ->
  filter (fun y => y <> id) (getQueue key s) = n :: q ->
  n <> id /\ exists c, callers s !! n = Some c /\ c_key c = key /\ c_done c = false /\ c_ready c = false.
Proof.
  intros Hs Hh Hq. assert (Hn : n ∈ filter (fun y => y <> id) (getQueue key s)) by (rewrite Hq; set_solver).
  apply list_elem_of_filter in Hn as [Hne Hn]. split; [done|].
  pose proof (proj1 (queue_elem s key n Hs) Hn) as (c & Hc & Hk & Hd).
  exists c. split_and!; [done..|]. apply not_true_is_false. intros Hr.
  assert (Hready : is_ready (callers s) n = true) by (unfold is_ready; by rewrite Hc).
  apply (lo_ready s Hs key n Hn) in Hready. congruence.
Qed.

Lemma remove_found key id s :
  lock_ok s -> id ∈ getQueue key s -> remove key id s = Some (left_state key id s, true).
Proof.
  intros Hs Hin. unfold remove.
  destruct (list_find_elem_of (id =.) (getQueue key s) id Hin eq_refl) as ([i x] & Hf). rewrite Hf.
  destruct (list_find_split _ _ _ _ (queue_NoDup s key Hs) Hf) as (-> & _ & Hq' & Hi).
  rewrite Hq'. pose proof (proj1 (queue_elem s key id Hs) Hin) as (c & Hc & Hk & Hd).
  rewrite (close_done_alter id _ c Hc Hd). cbn. unfold left_state.
  destruct (decide (i = O)) as [H0|H0].
  - apply Hi in H0. rewrite decide_True by done.
    destruct (filter _ (getQueue key s)) as [|n q] eqn:Hq; [done|].
    destruct (next_not_ready s key id n q Hs H0 Hq) as (Hne & cn & Hcn & _ & _ & Hr).
    by rewrite (close_ready_alter n _ cn) by (rewrite ?lookup_alter_ne; done).
  - rewrite decide_False by (by rewrite <- Hi). done.
Qed.

(** ... seen from one caller. *)
Definition leave_flags (key id : bytes) (s : lock) (i : bytes) (c : caller) : caller :=
  {| c_key := c_key c;
     c_ready := c_ready c || bool_decide (head (getQueue key s) = Some id /\
       head (filter (fun y => y <> id) (getQueue key s)) = Some i);
     c_done := c_done c || bool_decide (i = id);
     c_phase := c_phase c; c_watch := c_watch c |}.

Lemma alter_set_done (m : gmap bytes caller) id i :
  alter set_done id m !! i = (fun c => {| c_key := c_key c; c_ready := c_ready c;
    c_done := c_done c || bool_decide (i = id); c_phase := c_phase c; c_watch := c_watch c |}) <$> m !! i.
Proof.
  destruct (decide (i = id)) as [->|Hne].
  - rewrite lookup_alter_eq. destruct (m !! id); [|done]. cbn. unfold set_done.
    by rewrite bool_decide_true, orb_true_r.
  - rewrite lookup_alter_ne by done. destruct (m !! i) as [[]|]; [|done]. cbn.
    by rewrite bool_decide_false, orb_false_r.
Qed.

Lemma alter_set_ready (m : gmap bytes caller) n i :
  alter set_ready n m !! i = (fun c => {| c_key := c_key c; c_ready := c_ready c || bool_decide (i = n);
    c_done := c_done c; c_phase := c_phase c; c_watch := c_watch c |}) <$> m !! i.
Proof.
  destruct (decide (i = n)) as [->|Hne].
  - rewrite lookup_alter_eq. destruct (m !! n); [|done]. cbn. unfold set_ready.
    by rewrite bool_decide_true, orb_true_r.
  - rewrite lookup_alter_ne by done. destruct (m !! i) as [[]|]; [|done]. cbn.
    by rewrite bool_decide_false, orb_false_r.
Qed.

Lemma left_lookup key id s i :
  callers (left_state key id s) !! i = leave_flags key id s i <$> callers s !! i.
Proof.
  unfold left_state, leave_flags. cbn [callers].
  destruct (decide (head (getQueue key s) = Some id)) as [Hh|Hh].
  - destruct (filter _ (getQueue key s)) as [|n q] eqn:Hq.
    + rewrite alter_set_done. destruct (callers s !! i); [|done]. cbn. do 2 f_equal.
      by rewrite (bool_decide_false (_ /\ _)), orb_false_r by (intros [_ [=]]).
    + rewrite alter_set_ready, alter_set_done. destruct (callers s !! i); [|done]. cbn. do 3 f_equal.
      apply bool_decide_ext. naive_solver.
  - rewrite alter_set_done. destruct (callers s !! i); [|done]. cbn. do 2 f_equal.
    by rewrite (bool_decide_false (_ /\ _)), orb_false_r by (intros [? _]; done).
Qed.

Lemma left_queue key id s k :
  getQueue k (left_state key id s) =
  if decide (k = key) then filter (fun y => y <> id) (getQueue key s) else getQueue k s.
Proof. unfold left_state. apply getQueue_insert. Qed.

Lemma alive_left key id s i :
  alive (callers (left_state key id s)) i = alive (callers s) i && bool_decide (i <> id).
Proof.
  unfold alive. rewrite left_lookup. destruct (callers s !! i); [|done]. cbn.
  destruct (decide (i = id)).
  - by rewrite bool_decide_true, bool_decide_false, orb_true_r, andb_false_r by naive_solver.
  - by rewrite bool_decide_false, bool_decide_true, orb_false_r, andb_true_r.
Qed.

Lemma ready_left key id s i :
  i ∈ getQueue key s ->
  lock_ok s ->
  is_ready (callers (left_state key id s)) i =
  is_ready (callers s) i || bool_decide (head (getQueue key s) = Some id /\
       head (filter (fun y => y <> id) (getQueue key s)) = Some i).
Proof.
  intros Hin Hs. apply (queue_elem s) in Hin as (c & Hc & _); [|done].
  unfold is_ready. by rewrite left_lookup, Hc.
Qed.

Lemma head_filter_ne (id : bytes) (q : list bytes) :
  head q <> Some id -> head (filter (fun y => y <> id) q) = head q.
Proof. destruct q as [|h q]; [done|]. intros Hh. rewrite filter_cons_True by naive_solver. done. Qed.

Lemma head_elem (l : list bytes) x : head l = Some x -> x ∈ l.
Proof. destruct l; [done|]. cbn. intros [= ->]. set_solver. Qed.

Lemma leave_ok key id s : lock_ok s -> id ∈ getQueue key s -> lock_ok (left_state key id s).
Proof.
  intros Hs Hin. pose proof Hs as []. constructor.
  - done.
  - intros k i. rewrite left_lookup. cbn [left_state arrivals]. rewrite lo_callers0.
    destruct (callers s !! i); cbn; [|naive_solver]. split; intros (d & [= <-] & Hk); eauto.
  - intros k. rewrite left_queue. cbn [left_state arrivals].
    rewrite (filter_ext_bool _ (fun i => alive (callers s) i && bool_decide (i <> id)))
      by (intros; apply alive_left).
    assert (Hf : filter (fun i => alive (callers s) i && bool_decide (i <> id)) (calls_of k (arrivals s))
      = filter (fun y => y <> id) (getQueue k s)).
    { rewrite (lo_queue0 k), list_filter_filter. apply list_filter_iff. intros x.
      rewrite andb_True, bool_decide_spec. naive_solver. }
    rewrite Hf. destruct (decide (k = key)) as [->|Hk]; [done|]. symmetry. apply filter_ne.
    intros Hi. apply Hk. by eapply queue_disjoint.
  - intros k i. rewrite left_queue. destruct (decide (k = key)) as [->|Hk]; intros Hi.
    + apply list_elem_of_filter in Hi as [Hne Hi]. rewrite ready_left by done.
      rewrite orb_true_iff, bool_decide_eq_true, (lo_ready0 key i Hi).
      destruct (decide (head (getQueue key s) = Some id)) as [Hh|Hh].
      * rewrite Hh. naive_solver.
      * rewrite (head_filter_ne id) by done. naive_solver.
    + rewrite <- (lo_ready0 k i Hi). unfold is_ready. rewrite left_lookup.
      apply (queue_elem s) in Hi as Hc; [|done]. destruct Hc as (c & Hc & Hck & _). rewrite Hc. cbn.
      rewrite bool_decide_false; [by rewrite orb_false_r|]. intros [_ Hh]. apply Hk.
      eapply (queue_disjoint s k key i Hs Hi). apply head_elem, list_elem_of_filter in Hh. tauto.
  - intros i c. rewrite left_lookup. destruct (callers s !! i) as [c0|] eqn:Hc0; [|done]. cbn.
    intros [= <-]. destruct (lo_caller0 i c0 Hc0) as [H1' H2']. split; cbn.
    + intros Hp. by rewrite H1'.
    + intros Hd. apply orb_false_iff in Hd as [Hd _]. by apply H2'.
Qed.

Lemma remove_ok key id s :
  lock_ok s -> exists s' b, remove key id s = Some (s', b) /\ lock_ok s' /\
    (b = true <-> id ∈ getQueue key s) /\
    (forall i, callers s' !! i = (if decide (id ∈ getQueue key s) then leave_flags key id s i else fun c => c)
                 <$> callers s !! i).
Proof.
  intros Hs. destruct (decide (id ∈ getQueue key s)) as [Hin|Hn].
  - exists (left_state key id s), true. rewrite remove_found by done.
    split_and!; [done|by apply leave_ok|done|]. intros i. apply left_lookup.
  - exists s, false. rewrite remove_missing by done. split_and!; [done..|].
    intros i. by destruct (callers s !! i).
Qed.

Lemma Unlock_remove key id s : Unlock key id s = remove key id s.
Proof.
  unfold Unlock. destruct (queues s !! key) eqn:Hq; [done|].
  symmetry. apply remove_missing. unfold getQueue. rewrite Hq. cbn. set_solver.
Qed.

(** ** Every step keeps the invariant, and no step closes a channel twice *)

Lemma remove_as_ok id f s c :
  lock_ok s -> callers s !! id = Some c ->
  (forall c, flags (f c) = flags c) ->
  (forall c', c_phase c' = c_phase c -> c_watch c' = c_watch c -> c_done c' = true ->
     caller_ok c' -> caller_ok (f c')) ->
  outcome_ok lock_ok (remove_as id f s).
Proof.
  intros Hs Hc Hf Hok. unfold remove_as. rewrite Hc.
  destruct (remove_ok (c_key c) id s Hs) as (s' & b & -> & Hs' & Hb & Hl). cbn.
  specialize (Hl id). rewrite Hc in Hl. cbn in Hl.
  set (c' := (if decide (id ∈ getQueue (c_key c) s) then leave_flags (c_key c) id s id else fun c => c) c) in Hl.
  assert (Hd : c_done c' = true /\ c_phase c' = c_phase c /\ c_watch c' = c_watch c).
  { unfold c'. destruct (decide _) as [Hi|Hi]; cbn.
    - by rewrite bool_decide_true, orb_true_r.
    - split_and!; [|done..]. apply not_false_iff_true. intros Hd. apply Hi.
      apply (queue_elem s); [done|]. by exists c. }
  destruct Hd as (Hd & Hp & Hw).
  replace (alter f id (callers s')) with (<[id := f c']> (callers s')).
  - apply (move_one_ok id c'); [done..|]. apply Hok; [done..|]. by eapply lo_caller.
  - apply map_eq. intros j. destruct (decide (id = j)) as [<-|].
    + by rewrite lookup_insert_eq, lookup_alter_eq, Hl.
    + by rewrite lookup_insert_ne, lookup_alter_ne.
Qed.

Lemma lock_step_ok e s : lock_ok s -> outcome_ok lock_ok (lock_step e s).
Proof.
  intros Hs. destruct e as [key id|id|id|id|key id|id|id|id]; cbn [lock_step].
  - destruct (decide _) as [Hn|]; [|done]. rewrite enqueue_joined. by apply join_ok.
  - destruct (callers s !! id) as [c|] eqn:Hc; [|done]. destruct (decide _) as [[Hp Hr]|]; [|done].
    apply (move_one_ok id c); [done..|]. split; cbn; [done|]. intros _. by left.
  - destruct (callers s !! id) as [c|] eqn:Hc; [|done]. destruct (decide _) as [Hp|]; [|done].
    apply (move_one_ok id c); [done..|]. destruct (lo_caller s Hs id c Hc) as [_ Hw].
    split; cbn; [done|]. by rewrite Hp in Hw.
  - destruct (callers s !! id) as [c|] eqn:Hc; [|done]. destruct (decide _) as [Hp|]; [|done].
    eapply remove_as_ok; [done..|]. intros c' _ _ Hd _. split; cbn; [done|congruence].
  - rewrite Unlock_remove. by destruct (remove_ok key id s Hs) as (s' & b & -> & Hs' & _).
  - destruct (callers s !! id) as [c|] eqn:Hc; [|done]. destruct (decide _) as [Hp|]; [|done].
    apply (move_one_ok id c); [done..|]. destruct (lo_caller s Hs id c Hc) as [Hh Hw].
    split; cbn; [done|]. intros Hd. specialize (Hw Hd).
    destruct (c_phase c); [congruence..|by right|done].
  - destruct (callers s !! id) as [c|] eqn:Hc; [|done]. destruct (decide _) as [Hp|]; [|done].
    eapply remove_as_ok; [done..|]. intros c' _ _ Hd [Hh _]. split; cbn; [done|congruence].
  - destruct (callers s !! id) as [c|] eqn:Hc; [|done]. destruct (decide _) as [[Hp Hd]|]; [|done].
    apply (move_one_ok id c); [done..|]. destruct (lo_caller s Hs id c Hc) as [Hh Hw].
    split; cbn; [done|congruence].
Qed.

Lemma New_ok : lock_ok New.
Proof.
  constructor; cbn; try done.
  - constructor.
  - intros key id. split; [intros Hin; by apply not_elem_of_nil in Hin|]. by intros (c & Hc & _).
Qed.

Lemma reachable_ok s : reachable lock_step New s -> lock_ok s.
Proof. apply reachable_inv; [apply lock_step_ok|apply New_ok]. Qed.

Lemma run_ok es s s' : lock_ok s -> run lock_step es s = Next s' -> lock_ok s'.
Proof.
  apply (run_inv _ (fun _ => True)); [|by apply Forall_forall].
  intros e s1 s2 _ Hs Hst. pose proof (lock_step_ok e s1 Hs) as Hok. by rewrite Hst in Hok.
Qed.

(** ** The head of a queue can always leave it *)

Lemma filter_head (id : bytes) q : NoDup (id :: q) -> filter (fun y => y <> id) (id :: q) = q.
Proof.
  intros [Hn _]%NoDup_cons. rewrite filter_cons_False by naive_solver. by apply filter_ne.
Qed.

Lemma queue_of_head s key h q :
  lock_ok s -> getQueue key s = h :: q ->
  exists c, callers s !! h = Some c /\ c_key c = key /\ c_done c = false /\ c_ready c = true.
Proof.
  intros Hs Hq. assert (Hin : h ∈ getQueue key s) by (rewrite Hq; set_solver).
  destruct (proj1 (queue_elem s key h Hs) Hin) as (c & Hc & Hk & Hd). exists c. split_and!; [done..|].
  pose proof (proj2 (lo_ready s Hs key h Hin)) as Hr. rewrite Hq in Hr.
  specialize (Hr eq_refl). unfold is_ready in Hr. by rewrite Hc in Hr.
Qed.

Lemma remove_as_head f s key h q :
  lock_ok s -> getQueue key s = h :: q ->
  exists s', remove_as h f s = Next s' /\ getQueue key s' = q.
Proof.
  intros Hs Hq. destruct (queue_of_head s key h q Hs Hq) as (c & Hc & Hk & _).
  unfold remove_as. rewrite Hc, Hk, remove_found by (try done; rewrite Hq; set_solver).
  eexists. split; [done|]. unfold getQueue. cbn [set_callers queues]. fold (getQueue key (left_state key h s)).
  rewrite left_queue, decide_True, Hq by done. apply filter_head. rewrite <- Hq. by apply queue_NoDup.
Qed.

(** The steps of the head alone take it out: it takes the lock if it has not, its timer
    fires, and the watchdog removes it; or it was leaving. *)
Lemma head_leaves s key h q :
  lock_ok s -> getQueue key s = h :: q ->
  exists es s', run lock_step es s = Next s' /\ getQueue key s' = q /\ (length es <= 3)%nat /\
    Forall (fun e => event_id e = h /\ unaided e = true) es.
Proof.
  intros Hs Hq. destruct (queue_of_head s key h q Hs Hq) as (c & Hc & Hk & Hd & Hr).
  assert (Hexp : forall s c, lock_ok s -> getQueue key s = h :: q -> callers s !! h = Some c ->
    c_watch c = Fired -> exists s', run lock_step [EExpire h] s = Next s' /\ getQueue key s' = q).
  { intros s0 c0 Hs0 Hq0 Hc0 Hw. cbn. rewrite Hc0, decide_True by done.
    destruct (remove_as_head (fun c => set_phase (c_phase c) Ended c) s0 key h q Hs0 Hq0)
      as (s' & -> & ?). by exists s'. }
  assert (Htim : forall s c, lock_ok s -> getQueue key s = h :: q -> callers s !! h = Some c ->
    c_watch c = Watching -> exists s', run lock_step [ETimer h; EExpire h] s = Next s' /\ getQueue key s' = q).
  { intros s0 c0 Hs0 Hq0 Hc0 Hw. pose proof (lock_step_ok (ETimer h) s0 Hs0) as Hok.
    cbn [run]. revert Hok. cbn [lock_step]. rewrite Hc0, decide_True by done. intros Hok.
    eapply Hexp; [done|done|apply lookup_insert_eq|done]. }
  destruct (lo_caller s Hs h c Hc) as [_ Hw]. specialize (Hw Hd).
  destruct (c_phase c) eqn:Hp; [| |destruct Hw as [Hw|Hw]|done].
  - pose proof (lock_step_ok (EReady h) s Hs) as Hok. revert Hok. cbn [lock_step].
    rewrite Hc, decide_True by done. intros Hok.
    destruct (Htim _ (set_phase Holding Watching c) Hok) as (s' & Hrun & Hq');
      [done|apply lookup_insert_eq|done|].
    exists [EReady h; ETimer h; EExpire h], s'. split_and!; [|done|cbn; lia|by repeat constructor].
    cbn [run lock_step]. by rewrite Hc, decide_True.
  - destruct (remove_as_head (fun c => set_phase Failed (c_watch c) c) s key h q Hs Hq) as (s' & Hr' & ?).
    exists [ELeave h], s'. split_and!; [|done|cbn; lia|by repeat constructor].
    cbn [run lock_step]. by rewrite Hc, decide_True, Hr'.
  - destruct (Htim s c Hs Hq Hc Hw) as (s' & ? & ?).
    exists [ETimer h; EExpire h], s'. split_and!; [done|done|cbn; lia|by repeat constructor].
  - destruct (Hexp s c Hs Hq Hc Hw) as (s' & ? & ?).
    exists [EExpire h], s'. split_and!; [done|done|cbn; lia|by repeat constructor].
Qed.

Lemma queue_drains key q : forall s,
  lock_ok s -> getQueue key s = q ->
  exists es s', run lock_step es s = Next s' /\ getQueue key s' = [] /\ (length es <= 3 * length q)%nat /\
    Forall (fun e => event_id e ∈ q /\ unaided e = true) es.
Proof.
  induction q as [|h q IH]; intros s Hs Hq; [by exists [], s|].
  destruct (head_leaves s key h q Hs Hq) as (es1 & s1 & Hr1 & Hq1 & Hl1 & Hf1).
  destruct (IH s1 (run_ok es1 s s1 Hs Hr1) Hq1) as (es2 & s2 & Hr2 & Hq2 & Hl2 & Hf2).
  exists (es1 ++ es2), s2. split_and!; [by rewrite (run_app _ es1 es2 s s1 Hr1)|done|rewrite length_app; cbn [length]; lia|].
  apply Forall_app. split; (eapply Forall_impl; [eassumption|]); intros e [He Hu]; (split; [set_solver|done]).
Qed.

(** ** Earlier calls *)

(** Whoever is at the head was preceded only by callers that have been removed. *)
Lemma head_preceded key id s l1 l2 :
  lock_ok s -> head (getQueue key s) = Some id -> arrivals s = l1 ++ (key, id) :: l2 ->
  forall i, (key, i) ∈ l1 -> alive (callers s) i = false.
Proof.
  intros Hs Hh Ha i Hi. rewrite (lo_queue s Hs), Ha in Hh.
  unfold calls_of in Hh. rewrite filter_app, map_app, filter_app in Hh.
  destruct (alive (callers s) i) eqn:Hal; [|done]. exfalso.
  assert (Hin : i ∈ filter (fun x => alive (callers s) x) (calls_of key l1)).
  { apply list_elem_of_filter. rewrite calls_of_elem. split; [by rewrite Hal|done]. }
  unfold calls_of in Hin. destruct (filter _ (map snd _)) as [|x r] eqn:Hx in Hin; [set_solver|].
  rewrite Hx in Hh. injection Hh as ->.
  assert (Hx1 : id ∈ map snd l1).
  { assert (Hd : id ∈ filter (fun x => alive (callers s) x) (calls_of key l1))
      by (unfold calls_of; rewrite Hx; set_solver).
    apply list_elem_of_filter in Hd as [_ Hd]. apply calls_of_elem in Hd.
    apply list_elem_of_fmap. by exists (key, id). }
  pose proof (lo_arrivals s Hs) as Hnd. rewrite Ha, map_app in Hnd.
  apply NoDup_app in Hnd as (_ & Hdis & _). apply (Hdis id Hx1). cbn. set_solver.
Qed.
