(* ===== verification/Guard.v ===== *)
(** The guard of a treasure: [core/hydra/swamp/treasure/guard/guard.go].

    Every method is one section under the guard's mutex, but [StartTreasureGuard], which may
    sleep on the condition variable: its section up to [cond.Wait] is one step, and every
    wake-up, which takes the mutex again and looks at the queue, is another.  [cond.Wait]
    joins the list of sleepers before it gives the mutex back and [Broadcast] is called under
    the mutex, so the sleepers are the goroutines [Asleep] below. *)
From Stdlib Require Import Sorting.Sorted.
From stdpp Require Import sorting.
From S2P Require Import Prelude Steps.
#[local] Set Warnings "-clear-no-such-hyp".

Record guard := {
  waitForUnlock : list Z;
  largestGuardID : Z;     (** int64 *)
  bodyAuthID : bytes
}.

Definition BodyAuthID : bytes := bs "kby1CXR0wkj@qpa2ynq".

Definition New : guard := {| waitForUnlock := []; largestGuardID := 0; bodyAuthID := [] |}.

Definition set_auth (a : option bytes) (g : guard) : guard :=
  {| waitForUnlock := waitForUnlock g; largestGuardID := largestGuardID g;
     bodyAuthID := default (bodyAuthID g) a |}.

(** The assignment that only fills an empty [bodyAuthID]. *)
Definition fill_auth (a : option bytes) (g : guard) : guard :=
  if decide (bodyAuthID g = []) then set_auth a g else g.

(** [AddInt64] and the append to the queue. *)
Definition join (g : guard) : guard * Z :=
  let gID := i64 (largestGuardID g + 1) in
  ({| waitForUnlock := waitForUnlock g ++ [gID]; largestGuardID := gID;
      bodyAuthID := bodyAuthID g |}, gID).

(** [g.waitForUnlock[0] == gID]: [None] is the index panic of an empty queue. *)
Definition is_first (gID : Z) (g : guard) : option bool :=
  first ← head (waitForUnlock g); Some (bool_decide (first = gID)).

(** The section of [StartTreasureGuard] up to the loop: the identifier it queued, or [None]
    when it returns 0. *)
Definition StartTreasureGuard (waiting : bool) (auth : option bytes) (g : guard) : guard * option Z :=
  let g := fill_auth auth g in
  if waiting then
    let '(g, gID) := join g in (set_auth auth g, Some gID)
  else if decide (length (waitForUnlock g) = O) then
    let '(g, gID) := join g in (set_auth auth g, Some gID)
  else (g, None).

(** [ReleaseTreasureGuard]; the flag tells whether it broadcast. *)
Definition ReleaseTreasureGuard (guardID : Z) (g : guard) : guard * bool :=
  match waitForUnlock g with
  | first :: rest =>
      if decide (first = guardID)
      then ({| waitForUnlock := rest;
               largestGuardID := if decide (length rest = O) then 0 else largestGuardID g;
               bodyAuthID := bodyAuthID g |}, true)
      else (g, false)
  | [] => (g, false)
  end.

(** [CanExecute]: [None] is the index panic of an empty queue, [Some false] an error. *)
Definition CanExecute (guardID : Z) (isBodyFunction : bool) (g : guard) : option bool :=
  if isBodyFunction && negb (bool_decide (bodyAuthID g = BodyAuthID)) then Some false
  else is_first guardID g.

(** ** Goroutines *)

(** A goroutine inside [StartTreasureGuard] is asleep on the condition variable or woken and
    about to look at the queue; one that has returned holds its identifier until it
    releases it. *)
Inductive thread : Type :=
| Asleep (gID : Z)
| Woken (gID : Z)
| Holding (gID : Z).

Definition thread_id (t : thread) : Z :=
  match t with Asleep g | Woken g | Holding g => g end.

Definition wake (t : thread) : thread :=
  match t with Asleep g => Woken g | t => t end.

Record system := { sys_guard : guard; threads : gmap nat thread }.

Definition init : system := {| sys_guard := New; threads := ∅ |}.

(** The body of the loop: return, or sleep. *)
Definition look (t : nat) (gID : Z) (g : guard) (ts : gmap nat thread) : outcome system :=
  match is_first gID g with
  | None => Panic
  | Some b => Next {| sys_guard := g;
                      threads := <[t := if b then Holding gID else Asleep gID]> ts |}
  end.

Definition release (gID : Z) (g : guard) (ts : gmap nat thread) : system :=
  let '(g, broadcast) := ReleaseTreasureGuard gID g in
  {| sys_guard := g; threads := if broadcast then wake <$> ts else ts |}.

Inductive event : Type :=
| EStart (t : nat) (waiting : bool) (auth : option bytes)
| EWake (t : nat)
| ERelease (t : nat)            (** a holder releases its own identifier *)
| EStray (gID : Z).             (** somebody releases an identifier it does not hold *)

Definition guard_step (e : event) (s : system) : outcome system :=
  match e with
  | EStart t waiting auth =>
      match threads s !! t with
      | Some _ => Disabled
      | None =>
          match StartTreasureGuard waiting auth (sys_guard s) with
          | (g, Some gID) =>
              if waiting then look t gID g (threads s)
              else Next {| sys_guard := g; threads := <[t := Holding gID]> (threads s) |}
          | (g, None) => Next {| sys_guard := g; threads := threads s |}
          end
      end
  | EWake t =>
      match threads s !! t with
      | Some (Woken gID) => look t gID (sys_guard s) (threads s)
      | _ => Disabled
      end
  | ERelease t =>
      match threads s !! t with
      | Some (Holding gID) => Next (release gID (sys_guard s) (delete t (threads s)))
      | _ => Disabled
      end
  | EStray gID => Next (release gID (sys_guard s) (threads s))
  end.

(** A goroutine releases what it holds, once. *)
Definition disciplined (e : event) : Prop :=
  match e with EStray _ => False | _ => True end.

(** ** The invariant *)

(** The queue holds the identifiers of the goroutines in the order of their calls; who holds
    is first, and who sleeps is not.  [n] bounds the calls so far, and with it the counter. *)
Record guard_inv (n : Z) (q : list Z) (l : Z) (ts : gmap nat thread) : Prop := {
  gi_bound : 0 <= l <= n;
  gi_sorted : StronglySorted Z.lt q;
  gi_largest g : g ∈ q -> 0 < g <= l;
  gi_threads g : g ∈ q <-> exists t th, ts !! t = Some th /\ thread_id th = g;
  gi_inj t1 t2 th1 th2 : ts !! t1 = Some th1 -> ts !! t2 = Some th2 ->
    thread_id th1 = thread_id th2 -> t1 = t2;
  gi_holding t g : ts !! t = Some (Holding g) -> head q = Some g;
  gi_asleep t g : ts !! t = Some (Asleep g) -> head q <> Some g
}.

Definition guard_ok (n : Z) (s : system) : Prop :=
  guard_inv n (waitForUnlock (sys_guard s)) (largestGuardID (sys_guard s)) (threads s).

Lemma guard_inv_le n m q l ts : n <= m -> guard_inv n q l ts -> guard_inv m q l ts.
Proof. intros Hle []. constructor; try done. lia. Qed.

Lemma sorted_snoc (q : list Z) x :
  StronglySorted Z.lt q -> (forall g, g ∈ q -> g < x) -> StronglySorted Z.lt (q ++ [x]).
Proof.
  induction 1 as [|a q Hq IH Ha]; intros Hlt; cbn.
  - repeat constructor.
  - constructor; [apply IH; set_solver|]. apply Forall_app. split; [done|].
    repeat constructor. apply Hlt. set_solver.
Qed.

(** A new goroutine joins. *)
Lemma inv_join n q l ts t :
  guard_inv n q l ts -> ts !! t = None ->
  guard_inv (n + 1) (q ++ [l + 1]) (l + 1)
    (<[t := if decide (q = []) then Holding (l + 1) else Asleep (l + 1)]> ts).
Proof.
  intros Hi Hn. pose proof Hi as []. set (th := if decide (q = []) then _ else _).
  assert (Hth : thread_id th = l + 1) by (unfold th; by destruct (decide _)).
  assert (Hold : forall t' th', ts !! t' = Some th' -> thread_id th' < l + 1).
  { intros t' th' Hl. enough (thread_id th' ∈ q) as Hin by (apply gi_largest0 in Hin; lia).
    apply gi_threads0. by exists t', th'. }
  constructor.
  - lia.
  - apply sorted_snoc; [done|]. intros g Hg. apply gi_largest0 in Hg. lia.
  - intros g. rewrite elem_of_app, list_elem_of_singleton. intros [Hg| ->]; [apply gi_largest0 in Hg|]; lia.
  - intros g. rewrite elem_of_app, list_elem_of_singleton, gi_threads0. split.
    + intros [(t' & th' & Hl & <-)| ->].
      * exists t', th'. rewrite lookup_insert_ne; [done|]. intros ->. congruence.
      * exists t, th. by rewrite lookup_insert_eq.
    + intros (t' & th' & [[<- <-]|[? Hl]]%lookup_insert_Some & Hid); [right; lia|left; by exists t', th'].
  - intros t1 t2 th1 th2 [[<- <-]|[? Hl1]]%lookup_insert_Some [[<- <-]|[? Hl2]]%lookup_insert_Some He.
    + done.
    + apply Hold in Hl2. lia.
    + apply Hold in Hl1. lia.
    + by eapply gi_inj0.
  - intros t' g [[<- Hg]|[? Hl]]%lookup_insert_Some.
    + unfold th in Hg. destruct (decide _) as [->|]; [|done]. by injection Hg as ->.
    + apply gi_holding0 in Hl. by destruct q.
  - intros t' g [[<- Hg]|[? Hl]]%lookup_insert_Some.
    + unfold th in Hg. destruct (decide _) as [|Hq]; [done|]. injection Hg as <-.
      destruct q as [|a q]; [done|]. cbn. intros [= ->].
      assert (l + 1 ∈ l + 1 :: q) as Hin by set_solver. apply gi_largest0 in Hin. lia.
    + assert (g ∈ q) as Hin by (apply gi_threads0; by exists t', (Asleep g)).
      apply gi_asleep0 in Hl. destruct q; [set_solver|done].
Qed.

(** A woken goroutine looks at the queue. *)
Lemma inv_look n q l ts t g :
  guard_inv n q l ts -> ts !! t = Some (Woken g) ->
  guard_inv n q l (<[t := if decide (head q = Some g) then Holding g else Asleep g]> ts).
Proof.
  intros Hi Ht. pose proof Hi as []. set (th := if decide _ then _ else _).
  assert (Hth : thread_id th = g) by (unfold th; by destruct (decide _)).
  assert (Hids : forall t' th', <[t := th]> ts !! t' = Some th' ->
    exists th0, ts !! t' = Some th0 /\ thread_id th0 = thread_id th').
  { intros t' th' [[<- <-]|[? Hl]]%lookup_insert_Some; [by exists (Woken g)|by exists th']. }
  constructor; [done..| | | |].
  - intros g'. rewrite gi_threads0. split.
    + intros (t' & th' & Hl & <-). destruct (decide (t = t')) as [<-|Hne].
      * exists t, th. rewrite lookup_insert_eq. split; [done|]. rewrite Ht in Hl. by injection Hl as <-.
      * exists t', th'. by rewrite lookup_insert_ne.
    + intros (t' & th' & (th0 & Hl & Hid)%Hids & <-). by exists t', th0.
  - intros t1 t2 th1 th2 (x & Hl1 & <-)%Hids (y & Hl2 & <-)%Hids. by eapply gi_inj0.
  - intros t' g' [[<- Hg]|[? Hl]]%lookup_insert_Some; [|by eapply gi_holding0].
    unfold th in Hg. destruct (decide _); [|done]. by injection Hg as <-.
  - intros t' g' [[<- Hg]|[? Hl]]%lookup_insert_Some; [|by eapply gi_asleep0].
    unfold th in Hg. destruct (decide _); [done|]. by injection Hg as <-.
Qed.

Lemma sorted_head_lt (g : Z) q x : StronglySorted Z.lt (g :: q) -> x ∈ q -> g < x.
Proof. intros Hs Hx. inversion Hs as [|? ? _ Hf]; subst. rewrite Forall_forall in Hf. by apply Hf. Qed.

(** The holder leaves and everybody asleep is woken. *)
Lemma inv_release n q l ts t g :
  guard_inv n q l ts -> ts !! t = Some (Holding g) ->
  exists rest, q = g :: rest /\
  guard_inv n rest (if decide (length rest = O) then 0 else l) (wake <$> delete t ts).
Proof.
  intros Hi Ht. pose proof Hi as [].
  pose proof (gi_holding0 t g Ht) as Hh. destruct q as [|a rest]; [done|]. injection Hh as ->.
  exists rest. split; [done|].
  assert (Hids : forall t' th', (wake <$> delete t ts) !! t' = Some th' ->
    t' <> t /\ exists th0, ts !! t' = Some th0 /\ thread_id th0 = thread_id th' /\ th' = wake th0).
  { intros t' th'. rewrite lookup_fmap, fmap_Some. intros (th0 & [Hne Hl]%lookup_delete_Some & ->).
    split; [done|]. exists th0. split_and!; [done|by destruct th0|done]. }
  constructor.
  - destruct (decide _); lia.
  - by inversion gi_sorted0.
  - intros x Hx. rewrite decide_False by (intros Hl; by destruct rest; [apply not_elem_of_nil in Hx|]).
    apply gi_largest0. set_solver.
  - intros x. split.
    + intros Hx. assert (x ∈ g :: rest) as (t' & th' & Hl & Hid)%gi_threads0 by set_solver.
      exists t', (wake th'). rewrite lookup_fmap, lookup_delete_ne, Hl.
      * split; [done|]. by destruct th'.
      * intros <-. rewrite Ht in Hl. injection Hl as <-. cbn in Hid. subst x.
        pose proof (sorted_head_lt g rest g gi_sorted0 Hx). lia.
    + intros (t' & th' & (Hne & th0 & Hl & Hid & _)%Hids & <-).
      assert (thread_id th0 ∈ g :: rest) as Hin by (apply gi_threads0; by exists t', th0).
      apply elem_of_cons in Hin as [He|Hin]; [|congruence].
      destruct Hne. by apply (gi_inj0 t' t th0 (Holding g)).
  - intros t1 t2 th1 th2 (_ & x & Hl1 & <- & _)%Hids (_ & y & Hl2 & <- & _)%Hids. by eapply gi_inj0.
  - intros t' g' (Hne & th0 & Hl & Hid & Hw)%Hids. destruct th0; try done. injection Hw as <-.
    apply gi_holding0 in Hl as He. injection He as ->. destruct Hne.
    by apply (gi_inj0 t' t (Holding g') (Holding g')).
  - intros t' g' (_ & th0 & _ & _ & Hw)%Hids. by destruct th0.
Qed.

(** ** Steps keep the invariant *)

Lemma fill_auth_queue a g : waitForUnlock (fill_auth a g) = waitForUnlock g.
Proof. unfold fill_auth. by destruct (decide _). Qed.
Lemma fill_auth_largest a g : largestGuardID (fill_auth a g) = largestGuardID g.
Proof. unfold fill_auth. by destruct (decide _). Qed.

(** What [EStart] does: a call that does not wait joins an empty queue only. *)
Lemma start_step n t waiting auth s :
  guard_ok n s -> n < 2 ^ 63 - 1 -> threads s !! t = None ->
  exists s', guard_step (EStart t waiting auth) s = Next s' /\
    let q := waitForUnlock (sys_guard s) in
    let l := largestGuardID (sys_guard s) in
    if waiting || bool_decide (q = [])
    then waitForUnlock (sys_guard s') = q ++ [l + 1] /\ largestGuardID (sys_guard s') = l + 1 /\
         threads s' = <[t := if decide (q = []) then Holding (l + 1) else Asleep (l + 1)]> (threads s)
    else waitForUnlock (sys_guard s') = q /\ largestGuardID (sys_guard s') = l /\ threads s' = threads s.
Proof.
  intros Hs Hn Ht. cbn [guard_step]. rewrite Ht. unfold StartTreasureGuard, join.
  rewrite !fill_auth_queue, !fill_auth_largest. pose proof (gi_bound _ _ _ _ Hs) as Hb.
  assert (Hw : i64 (largestGuardID (sys_guard s) + 1) = largestGuardID (sys_guard s) + 1)
    by (unfold i64; rewrite Z.mod_small; lia).
  rewrite Hw. set (l := largestGuardID (sys_guard s)) in *. set (q := waitForUnlock (sys_guard s)) in *.
  destruct waiting; cbn [orb].
  - unfold look, is_first. cbn [set_auth waitForUnlock].
    destruct q as [|a q'] eqn:Hq; cbn; (eexists; split; [reflexivity|]); cbn.
    + by rewrite bool_decide_true.
    + rewrite bool_decide_false; [done|]. intros ->.
      assert (l + 1 ∈ waitForUnlock (sys_guard s)) as Hin by (fold q; rewrite Hq; set_solver).
      apply (gi_largest _ _ _ _ Hs) in Hin. fold l in Hin. lia.
  - destruct (decide (length q = O)) as [Hl|Hl]; (eexists; split; [reflexivity|]); cbn.
    + apply nil_length_inv in Hl. rewrite Hl. cbn. done.
    + rewrite bool_decide_false; [|by intros ->]. by rewrite fill_auth_queue, fill_auth_largest.
Qed.

Lemma look_first gID g ts t x q :
  waitForUnlock g = x :: q ->
  look t gID g ts = Next {| sys_guard := g;
    threads := <[t := if decide (head (waitForUnlock g) = Some gID) then Holding gID else Asleep gID]> ts |}.
Proof.
  intros Hq. unfold look, is_first. rewrite Hq. cbn. do 3 f_equal.
  destruct (decide (x = gID)) as [->|].
  - by rewrite bool_decide_true, decide_True.
  - by rewrite bool_decide_false, decide_False by congruence.
Qed.

Lemma guard_step_ok n e s :
  disciplined e -> n < 2 ^ 63 - 1 -> guard_ok n s -> outcome_ok (guard_ok (n + 1)) (guard_step e s).
Proof.
  intros Hd Hn Hs. destruct e as [t waiting auth|t|t|]; [| | |done].
  - destruct (threads s !! t) eqn:Ht; [cbn; by rewrite Ht|].
    destruct (start_step n t waiting auth s Hs Hn Ht) as (s' & -> & Hs'). cbn. unfold guard_ok.
    cbn in Hs'. destruct (waiting || _); destruct Hs' as (-> & -> & ->).
    + by apply inv_join.
    + eapply guard_inv_le; [|done]. lia.
  - cbn. destruct (threads s !! t) as [[|g|]|] eqn:Ht; try done.
    assert (g ∈ waitForUnlock (sys_guard s)) as Hin.
    { apply (gi_threads _ _ _ _ Hs). by exists t, (Woken g). }
    destruct (waitForUnlock (sys_guard s)) as [|x q] eqn:Hq; [set_solver|].
    rewrite (look_first g _ _ t x q Hq). cbn. eapply guard_inv_le; [|by apply inv_look]. lia.
  - cbn. destruct (threads s !! t) as [[| |g]|] eqn:Ht; try done.
    destruct (inv_release _ _ _ _ t g Hs Ht) as (rest & Hq & Hi).
    unfold release, ReleaseTreasureGuard. rewrite Hq, decide_True by done. cbn.
    eapply guard_inv_le; [|exact Hi]. lia.
Qed.

Lemma init_ok : guard_ok 0 init.
Proof.
  constructor; cbn; try done.
  - constructor.
  - intros g Hg. by apply not_elem_of_nil in Hg.
  - intros g. split; [intros Hg; by apply not_elem_of_nil in Hg|]. by intros (t & th & Hl & _).
Qed.

(** A disciplined interleaving of fewer than [2 ^ 63] sections. *)
Lemma run_guard_ok es : forall n s s',
  Forall disciplined es -> n + Z.of_nat (length es) < 2 ^ 63 -> guard_ok n s ->
  run guard_step es s = Next s' -> guard_ok (n + Z.of_nat (length es)) s'.
Proof.
  induction es as [|e es IH]; intros n s s' Hd Hn Hs; cbn [run length] in *.
  - intros [= <-]. eapply guard_inv_le; [|done]. lia.
  - apply Forall_cons in Hd as [He Hd].
    pose proof (guard_step_ok n e s He ltac:(lia) Hs) as Hok.
    destruct (guard_step e s) as [| |s1]; try done. intros Hr.
    replace (n + Z.of_nat (S (length es))) with (n + 1 + Z.of_nat (length es)) by lia.
    apply (IH (n + 1) s1); [done|lia|done..].
Qed.

Lemma run_init_ok es s :
  Forall disciplined es -> Z.of_nat (length es) < 2 ^ 63 -> run guard_step es init = Next s ->
  guard_ok (Z.of_nat (length es)) s.
Proof. intros Hd Hn Hr. by apply (run_guard_ok es 0 init s Hd Hn init_ok). Qed.

(** ** A guard nobody is queued for *)

Definition fresh (g : guard) : Prop := waitForUnlock g = [] /\ largestGuardID g = 0.

Lemma start_fresh t waiting auth s :
  fresh (sys_guard s) -> threads s !! t = None ->
  exists s', guard_step (EStart t waiting auth) s = Next s' /\
    threads s' = <[t := Holding 1]> (threads s) /\ waitForUnlock (sys_guard s') = [1].
Proof.
  intros [Hq Hl] Ht. cbn [guard_step]. rewrite Ht. unfold StartTreasureGuard, join, look, is_first.
  rewrite fill_auth_queue, fill_auth_largest, Hq, Hl.
  destruct waiting; cbn; eexists; split_and!; reflexivity.
Qed.

Lemma release_last g ts :
  waitForUnlock g = [1] ->
  fresh (sys_guard (release 1 g ts)) /\ threads (release 1 g ts) = wake <$> ts.
Proof. intros Hq. unfold release, ReleaseTreasureGuard. by rewrite Hq. Qed.

(** ** The permission to run body functions *)

Lemma step_auth e s s' :
  (forall t w a, e = EStart t w (Some a) -> a = BodyAuthID) ->
  bodyAuthID (sys_guard s) = BodyAuthID -> guard_step e s = Next s' ->
  bodyAuthID (sys_guard s') = BodyAuthID.
Proof.
  intros He Ha. destruct e as [t w a|t|t|g]; cbn [guard_step].
  - destruct (threads s !! t); [done|]. unfold StartTreasureGuard, look.
    assert (Hset : forall g, bodyAuthID g = BodyAuthID -> bodyAuthID (set_auth a g) = BodyAuthID).
    { intros g Hg. destruct a as [a|]; cbn; [|done]. by eapply He. }
    assert (Hfill : bodyAuthID (fill_auth a (sys_guard s)) = BodyAuthID).
    { unfold fill_auth. destruct (decide _); auto. }
    destruct w; [|destruct (decide _)]; cbn [join].
    + destruct (is_first _ _); [|done]. intros [= <-]. by apply Hset.
    + intros [= <-]. by apply Hset.
    + by intros [= <-].
  - destruct (threads s !! t) as [[]|]; try done. unfold look. destruct (is_first _ _); [|done].
    by intros [= <-].
  - destruct (threads s !! t) as [[]|]; try done. intros [= <-].
    unfold release, ReleaseTreasureGuard. destruct (waitForUnlock (sys_guard s)); [done|].
    by destruct (decide _).
  - intros [= <-]. unfold release, ReleaseTreasureGuard.
    destruct (waitForUnlock (sys_guard s)); [done|]. by destruct (decide _).
Qed.
