(* ===== verification/Vigil.v ===== *)
(** The counter of running operations of a swamp: [core/hydra/swamp/vigil/vigil.go].

    [BeginVigil] and the two halves of [CeaseVigil], the decrement and the broadcast, are
    steps of their own: neither takes the mutex.  [WaitForActiveVigilsClosed] holds the mutex
    from its look at the counter to the moment [cond.Wait] has put it on the list of sleepers
    and given the mutex back, and takes it again when woken. *)
From S2P Require Import Prelude Steps.
#[local] Set Warnings "-clear-no-such-hyp".

(** A waiter has seen active vigils and is about to sleep; sleeps; has been woken; has
    returned. *)
Inductive waiter : Type := Checked | Asleep | Woken | Returned.

#[export] Instance waiter_eq_dec : EqDecision waiter.
Proof. solve_decision. Defined.

Record vigil := {
  vigils : Z;                    (** int64 *)
  ceasing : nat;                 (** calls of [CeaseVigil] between their two halves *)
  mu : option nat;               (** the waiter that holds the mutex *)
  waiters : gmap nat waiter
}.

Definition New : vigil := {| vigils := 0; ceasing := 0; mu := None; waiters := ∅ |}.

Definition HasActiveVigils (v : vigil) : bool := bool_decide (0 < vigils v).

Definition add_vigils (d : Z) (v : vigil) : vigil :=
  {| vigils := i64 (vigils v + d); ceasing := ceasing v; mu := mu v; waiters := waiters v |}.

Definition BeginVigil (v : vigil) : vigil := add_vigils 1 v.

(** The two halves of [CeaseVigil]. *)
Definition CeaseVigil_add (v : vigil) : vigil :=
  {| vigils := i64 (vigils v - 1); ceasing := S (ceasing v); mu := mu v; waiters := waiters v |}.
Definition wake (w : waiter) : waiter := match w with Asleep => Woken | w => w end.
Definition CeaseVigil_broadcast (v : vigil) : vigil :=
  {| vigils := vigils v; ceasing := pred (ceasing v); mu := mu v; waiters := wake <$> waiters v |}.

(** The head of the loop of [WaitForActiveVigilsClosed], with the mutex held. *)
Definition look (t : nat) (v : vigil) : vigil :=
  if HasActiveVigils v
  then {| vigils := vigils v; ceasing := ceasing v; mu := Some t; waiters := <[t := Checked]> (waiters v) |}
  else {| vigils := vigils v; ceasing := ceasing v; mu := None; waiters := <[t := Returned]> (waiters v) |}.

Definition cond_wait (t : nat) (v : vigil) : vigil :=
  {| vigils := vigils v; ceasing := ceasing v; mu := None; waiters := <[t := Asleep]> (waiters v) |}.

Inductive event : Type :=
| EBegin
| ECease                 (** the decrement *)
| EBroadcast
| EEnter (t : nat)       (** a waiter takes the mutex and looks *)
| ESleep (t : nat)
| EWake (t : nat).       (** a woken waiter takes the mutex and looks *)

Definition vigil_step (e : event) (v : vigil) : outcome vigil :=
  match e with
  | EBegin => Next (BeginVigil v)
  | ECease => Next (CeaseVigil_add v)
  | EBroadcast => if decide (ceasing v = O) then Disabled else Next (CeaseVigil_broadcast v)
  | EEnter t =>
      match waiters v !! t, mu v with
      | None, None => Next (look t v)
      | _, _ => Disabled
      end
  | ESleep t =>
      match waiters v !! t with
      | Some Checked => Next (cond_wait t v)
      | _ => Disabled
      end
  | EWake t =>
      match waiters v !! t, mu v with
      | Some Woken, None => Next (look t v)
      | _, _ => Disabled
      end
  end.

(** ** A waiter that sleeps is woken by a broadcast only *)

Lemma asleep_until_cease t es : forall v v',
  Forall (fun e => e <> ECease) es -> waiters v !! t = Some Asleep -> ceasing v = O ->
  run vigil_step es v = Next v' -> waiters v' !! t = Some Asleep /\ ceasing v' = O.
Proof.
  intros v v' Hes Ht Hc. apply (run_inv vigil_step (fun e => e <> ECease)
    (fun v => waiters v !! t = Some Asleep /\ ceasing v = O)); [|done..].
  clear. intros e v v' He [Ht Hc]. destruct e as [| | |u|u|u]; cbn.
  - by intros [= <-].
  - done.
  - rewrite decide_True by done. done.
  - destruct (waiters v !! u) eqn:Hu; [done|]. destruct (mu v); [done|]. intros [= <-].
    unfold look. destruct (HasActiveVigils v); cbn; rewrite lookup_insert_ne by congruence; done.
  - destruct (waiters v !! u) as [[]|] eqn:Hu; try done. intros [= <-].
    cbn. by rewrite lookup_insert_ne by congruence.
  - destruct (waiters v !! u) as [[]|] eqn:Hu; try done. destruct (mu v); [done|]. intros [= <-].
    unfold look. destruct (HasActiveVigils v); cbn; rewrite lookup_insert_ne by congruence; done.
Qed.

(** The last operation ends between the look and the sleep. *)
Lemma ends_before_sleep t :
  run vigil_step [EBegin; EEnter t; ECease; EBroadcast; ESleep t] New =
  Next {| vigils := 0; ceasing := 0; mu := None; waiters := <[t := Asleep]> (<[t := Checked]> ∅) |}.
Proof.
  set (v2 := {| vigils := 1; ceasing := 0; mu := Some t; waiters := <[t := Checked]> ∅ |}).
  assert (H2 : run vigil_step [EBegin; EEnter t] New = Next v2) by reflexivity.
  pose proof (run_app vigil_step _ [ECease; EBroadcast; ESleep t] _ _ H2) as Hr.
  cbn [app] in Hr. rewrite Hr. unfold v2. cbn [run vigil_step].
  rewrite decide_False by done. cbn. rewrite fmap_insert, fmap_empty, lookup_insert_eq.
  cbn [wake]. unfold cond_wait, CeaseVigil_broadcast, CeaseVigil_add. cbn [waiters vigils ceasing pred].
  by rewrite fmap_insert, fmap_empty.
Qed.

(** ** When no decrement comes between a look and the sleep after it *)

(** The step of the code with a decrement only while no waiter holds the mutex. *)
Definition serial_step (e : event) (v : vigil) : outcome vigil :=
  match e, mu v with
  | ECease, Some _ => Disabled
  | _, _ => vigil_step e v
  end.

Record vigil_ok (n : Z) (v : vigil) : Prop := {
  vo_bound : - n <= vigils v <= n;
  vo_checked t : waiters v !! t = Some Checked <-> mu v = Some t;
  vo_active t : waiters v !! t = Some Checked -> 0 < vigils v;
  vo_asleep t : waiters v !! t = Some Asleep -> 0 < vigils v \/ (0 < ceasing v)%nat
}.

Lemma i64_id z : in_i64 z -> i64 z = z.
Proof. unfold in_i64, i64. intros Hz. rewrite Z.mod_small; lia. Qed.

Lemma look_ok n v t :
  vigil_ok n v -> mu v = None -> waiters v !! t <> Some Asleep -> vigil_ok n (look t v).
Proof.
  intros [] Hmu Ht. unfold look, HasActiveVigils. destruct (bool_decide_reflect (0 < vigils v)) as [Ha|Ha].
  all: constructor; cbn; [done|intros u|intros u|intros u].
  - destruct (decide (t = u)) as [<-|Hne].
    + by rewrite lookup_insert_eq.
    + rewrite lookup_insert_ne, vo_checked0, Hmu by done. split; [done|congruence].
  - done.
  - intros [[_ Hw]|[_ Hu]]%lookup_insert_Some; [done|by apply vo_asleep0 in Hu].
  - destruct (decide (t = u)) as [<-|Hne].
    + by rewrite lookup_insert_eq.
    + by rewrite lookup_insert_ne, vo_checked0, Hmu by done.
  - intros [[_ Hw]|[_ Hu]]%lookup_insert_Some; [done|by apply vo_active0 in Hu].
  - intros [[_ Hw]|[_ Hu]]%lookup_insert_Some; [done|by apply vo_asleep0 in Hu].
Qed.

Lemma vigil_ok_le n m v : n <= m -> vigil_ok n v -> vigil_ok m v.
Proof. intros Hle []. constructor; try done. lia. Qed.

Lemma serial_step_ok n e v v' :
  0 <= n < 2 ^ 63 - 1 -> vigil_ok n v -> serial_step e v = Next v' -> vigil_ok (n + 1) v'.
Proof.
  intros Hn Hv. pose proof Hv as []. unfold serial_step.
  destruct e as [| | |t|t|t]; cbn [vigil_step].
  - intros [= <-].
    unfold BeginVigil, add_vigils. rewrite i64_id by (unfold in_i64; lia).
    constructor; cbn; [lia|done|..]; intros t Ht.
    + apply vo_active0 in Ht. lia.
    + apply vo_asleep0 in Ht. lia.
  - destruct (mu v) eqn:Hmu; [done|]. intros [= <-]. unfold CeaseVigil_add.
    rewrite i64_id by (unfold in_i64; lia).
    constructor; cbn; [lia|..].
    + intros t. by rewrite vo_checked0, Hmu.
    + intros t Ht. by apply vo_checked0 in Ht.
    + intros t _. right. lia.
  - destruct (decide _); [done|]. intros [= <-].
    assert (Hl : forall t w, w = Checked \/ w = Asleep ->
      (wake <$> waiters v) !! t = Some w <-> w = Checked /\ waiters v !! t = Some Checked).
    { intros t w Hw. rewrite lookup_fmap. destruct (waiters v !! t) as [[]|]; cbn; naive_solver. }
    constructor; cbn; [lia|..]; intros t; rewrite Hl by auto.
    + rewrite <- vo_checked0. naive_solver.
    + intros [_ Ht]. by eapply vo_active0.
    + by intros [? _].
  - destruct (waiters v !! t) eqn:Ht; [done|]. destruct (mu v) eqn:Hmu; [done|].
    intros [= <-]. apply (vigil_ok_le n); [lia|]. apply look_ok; [done..|congruence].
  - destruct (waiters v !! t) as [[]|] eqn:Ht; try done.
    assert (Hmu : mu v = Some t) by (by apply vo_checked0). intros [= <-].
    constructor; cbn; [lia|..]; intros u.
    + split; [|done]. intros [[_ Hw]|[Hne Hu]]%lookup_insert_Some; [done|].
      apply vo_checked0 in Hu. congruence.
    + intros [[_ Hw]|[Hne Hu]]%lookup_insert_Some; [done|]. by eapply vo_active0.
    + intros [[_ Hw]|[Hne Hu]]%lookup_insert_Some; [|by eapply vo_asleep0].
      left. by eapply vo_active0.
  - destruct (waiters v !! t) as [[]|] eqn:Ht; try done.
    destruct (mu v) eqn:Hmu; [done|].
    intros [= <-]. apply (vigil_ok_le n); [lia|]. apply look_ok; [done..|congruence].
Qed.

Lemma New_vigil_ok : vigil_ok 0 New.
Proof. by constructor. Qed.

Lemma serial_run_ok es : forall n v v',
  0 <= n -> n + Z.of_nat (length es) < 2 ^ 63 -> vigil_ok n v ->
  run serial_step es v = Next v' -> vigil_ok (n + Z.of_nat (length es)) v'.
Proof.
  induction es as [|e es IH]; intros n v v' Hn Hb Hv; cbn [run length] in *.
  - intros [= <-]. apply (vigil_ok_le n); [lia|done].
  - destruct (serial_step e v) as [| |v1] eqn:Hst; try done. intros Hr.
    replace (n + Z.of_nat (S (length es))) with (n + 1 + Z.of_nat (length es)) by lia.
    apply (IH (n + 1) v1); [lia|lia| |done]. eapply serial_step_ok; [|done..]. lia.
Qed.
