(* ===== verification/Treasure.v ===== *)
(** A treasure: [core/hydra/swamp/treasure/treasure.go].

    A treasure is a [Model], a guard, and flags that tell the swamp what a save has to do.
    Every setter asks the guard first and throws the answer away; [CanExecute] panics when
    nobody holds the guard.  The setters return [None] for a panic.  The [gob] conversion and
    the save callback belong to packages and callers and are not here. *)
From Stdlib Require Import Floats.SpecFloat.
From S2P Require Import Prelude Steps Guard.

(** ** Data *)

(** [Content]: one optional field per type, as the code has it.  Floats are IEEE values;
    [nil] byte slices are [None]. *)
Record Content := {
  c_Void : bool;
  c_Uint8 : option Z;
  c_Uint16 : option Z;
  c_Uint32 : option Z;
  c_Uint64 : option Z;
  c_Int8 : option Z;
  c_Int16 : option Z;
  c_Int32 : option Z;
  c_Int64 : option Z;
  c_Float32 : option spec_float;
  c_Float64 : option spec_float;
  c_String : option bytes;
  c_Boolean : option bool;
  c_ByteArray : option bytes;
  c_Uint32Slice : option bytes
}.

(** [Content{}] *)
Definition empty_content : Content :=
  {| c_Void := false; c_Uint8 := None; c_Uint16 := None; c_Uint32 := None; c_Uint64 := None;
     c_Int8 := None; c_Int16 := None; c_Int32 := None; c_Int64 := None; c_Float32 := None;
     c_Float64 := None; c_String := None; c_Boolean := None; c_ByteArray := None;
     c_Uint32Slice := None |}.

Inductive ContentType : Type :=
| ContentTypeVoid | ContentTypeUint8 | ContentTypeUint16 | ContentTypeUint32 | ContentTypeUint64
| ContentTypeInt8 | ContentTypeInt16 | ContentTypeInt32 | ContentTypeInt64
| ContentTypeFloat32 | ContentTypeFloat64 | ContentTypeString | ContentTypeBoolean
| ContentTypeByteArray | ContentTypeUint32Slice.

Record Model := {
  m_Key : bytes;
  m_Content : option Content;
  m_CreatedAt : Z;
  m_CreatedBy : bytes;
  m_DeletedAt : Z;
  m_DeletedBy : bytes;
  m_ModifiedAt : Z;
  m_ModifiedBy : bytes;
  m_ExpirationTime : Z;
  m_FileName : option bytes
}.

Record flags := {
  expirationTimeChanged : bool;
  contentChanged : bool;
  contentTypeChanged : bool;
  createdAtChanged : bool;
  createdByChanged : bool;
  deletedAtChanged : bool;
  deletedByChanged : bool;
  shadowDeleted : bool;
  modifiedAtChanged : bool;
  modifiedByChanged : bool
}.

Record treasure := { t_model : Model; t_guard : guard; t_flags : flags }.

Definition no_flags : flags :=
  {| expirationTimeChanged := false; contentChanged := false; contentTypeChanged := false;
     createdAtChanged := false; createdByChanged := false; deletedAtChanged := false;
     deletedByChanged := false; shadowDeleted := false; modifiedAtChanged := false;
     modifiedByChanged := false |}.

Definition empty_model : Model :=
  {| m_Key := []; m_Content := None; m_CreatedAt := 0; m_CreatedBy := []; m_DeletedAt := 0;
     m_DeletedBy := []; m_ModifiedAt := 0; m_ModifiedBy := []; m_ExpirationTime := 0;
     m_FileName := None |}.

Definition New : treasure := {| t_model := empty_model; t_guard := Guard.New; t_flags := no_flags |}.

(** ** Updates *)

Definition on_model (f : Model -> Model) (t : treasure) : treasure :=
  {| t_model := f (t_model t); t_guard := t_guard t; t_flags := t_flags t |}.
Definition on_flags (f : flags -> flags) (t : treasure) : treasure :=
  {| t_model := t_model t; t_guard := t_guard t; t_flags := f (t_flags t) |}.

Definition put_Content (c : option Content) : treasure -> treasure := on_model (fun m =>
  {| m_Key := m_Key m; m_Content := c; m_CreatedAt := m_CreatedAt m; m_CreatedBy := m_CreatedBy m;
     m_DeletedAt := m_DeletedAt m; m_DeletedBy := m_DeletedBy m; m_ModifiedAt := m_ModifiedAt m;
     m_ModifiedBy := m_ModifiedBy m; m_ExpirationTime := m_ExpirationTime m; m_FileName := m_FileName m |}).
Definition put_Key (k : bytes) : treasure -> treasure := on_model (fun m =>
  {| m_Key := k; m_Content := m_Content m; m_CreatedAt := m_CreatedAt m; m_CreatedBy := m_CreatedBy m;
     m_DeletedAt := m_DeletedAt m; m_DeletedBy := m_DeletedBy m; m_ModifiedAt := m_ModifiedAt m;
     m_ModifiedBy := m_ModifiedBy m; m_ExpirationTime := m_ExpirationTime m; m_FileName := m_FileName m |}).
Definition put_Created (at_ : Z) (by_ : bytes) : treasure -> treasure := on_model (fun m =>
  {| m_Key := m_Key m; m_Content := m_Content m; m_CreatedAt := at_; m_CreatedBy := by_;
     m_DeletedAt := m_DeletedAt m; m_DeletedBy := m_DeletedBy m; m_ModifiedAt := m_ModifiedAt m;
     m_ModifiedBy := m_ModifiedBy m; m_ExpirationTime := m_ExpirationTime m; m_FileName := m_FileName m |}).
Definition put_Deleted (at_ : Z) (by_ : bytes) : treasure -> treasure := on_model (fun m =>
  {| m_Key := m_Key m; m_Content := m_Content m; m_CreatedAt := m_CreatedAt m; m_CreatedBy := m_CreatedBy m;
     m_DeletedAt := at_; m_DeletedBy := by_; m_ModifiedAt := m_ModifiedAt m;
     m_ModifiedBy := m_ModifiedBy m; m_ExpirationTime := m_ExpirationTime m; m_FileName := m_FileName m |}).
Definition put_Modified (at_ : Z) (by_ : bytes) : treasure -> treasure := on_model (fun m =>
  {| m_Key := m_Key m; m_Content := m_Content m; m_CreatedAt := m_CreatedAt m; m_CreatedBy := m_CreatedBy m;
     m_DeletedAt := m_DeletedAt m; m_DeletedBy := m_DeletedBy m; m_ModifiedAt := at_;
     m_ModifiedBy := by_; m_ExpirationTime := m_ExpirationTime m; m_FileName := m_FileName m |}).
Definition put_ExpirationTime (x : Z) : treasure -> treasure := on_model (fun m =>
  {| m_Key := m_Key m; m_Content := m_Content m; m_CreatedAt := m_CreatedAt m; m_CreatedBy := m_CreatedBy m;
     m_DeletedAt := m_DeletedAt m; m_DeletedBy := m_DeletedBy m; m_ModifiedAt := m_ModifiedAt m;
     m_ModifiedBy := m_ModifiedBy m; m_ExpirationTime := x; m_FileName := m_FileName m |}).
Definition put_FileName (x : option bytes) : treasure -> treasure := on_model (fun m =>
  {| m_Key := m_Key m; m_Content := m_Content m; m_CreatedAt := m_CreatedAt m; m_CreatedBy := m_CreatedBy m;
     m_DeletedAt := m_DeletedAt m; m_DeletedBy := m_DeletedBy m; m_ModifiedAt := m_ModifiedAt m;
     m_ModifiedBy := m_ModifiedBy m; m_ExpirationTime := m_ExpirationTime m; m_FileName := x |}).

(** [changed content type ...]: the flags a setter raises. *)
Definition mark_content (b : bool) : treasure -> treasure := on_flags (fun f =>
  {| expirationTimeChanged := expirationTimeChanged f; contentChanged := b;
     contentTypeChanged := contentTypeChanged f; createdAtChanged := createdAtChanged f;
     createdByChanged := createdByChanged f; deletedAtChanged := deletedAtChanged f;
     deletedByChanged := deletedByChanged f; shadowDeleted := shadowDeleted f;
     modifiedAtChanged := modifiedAtChanged f; modifiedByChanged := modifiedByChanged f |}).
Definition mark_contentType : treasure -> treasure := on_flags (fun f =>
  {| expirationTimeChanged := expirationTimeChanged f; contentChanged := contentChanged f;
     contentTypeChanged := true; createdAtChanged := createdAtChanged f;
     createdByChanged := createdByChanged f; deletedAtChanged := deletedAtChanged f;
     deletedByChanged := deletedByChanged f; shadowDeleted := shadowDeleted f;
     modifiedAtChanged := modifiedAtChanged f; modifiedByChanged := modifiedByChanged f |}).
Definition mark_expiration : treasure -> treasure := on_flags (fun f =>
  {| expirationTimeChanged := true; contentChanged := contentChanged f;
     contentTypeChanged := contentTypeChanged f; createdAtChanged := createdAtChanged f;
     createdByChanged := createdByChanged f; deletedAtChanged := deletedAtChanged f;
     deletedByChanged := deletedByChanged f; shadowDeleted := shadowDeleted f;
     modifiedAtChanged := modifiedAtChanged f; modifiedByChanged := modifiedByChanged f |}).
Definition mark_created (at_ by_ : bool) : treasure -> treasure := on_flags (fun f =>
  {| expirationTimeChanged := expirationTimeChanged f; contentChanged := contentChanged f;
     contentTypeChanged := contentTypeChanged f; createdAtChanged := createdAtChanged f || at_;
     createdByChanged := createdByChanged f || by_; deletedAtChanged := deletedAtChanged f;
     deletedByChanged := deletedByChanged f; shadowDeleted := shadowDeleted f;
     modifiedAtChanged := modifiedAtChanged f; modifiedByChanged := modifiedByChanged f |}).
Definition mark_deleted (shadow : bool) : treasure -> treasure := on_flags (fun f =>
  {| expirationTimeChanged := expirationTimeChanged f; contentChanged := contentChanged f;
     contentTypeChanged := contentTypeChanged f; createdAtChanged := createdAtChanged f;
     createdByChanged := createdByChanged f; deletedAtChanged := true;
     deletedByChanged := true; shadowDeleted := shadow;
     modifiedAtChanged := modifiedAtChanged f; modifiedByChanged := modifiedByChanged f |}).
Definition mark_modified (at_ by_ : bool) : treasure -> treasure := on_flags (fun f =>
  {| expirationTimeChanged := expirationTimeChanged f; contentChanged := contentChanged f;
     contentTypeChanged := contentTypeChanged f; createdAtChanged := createdAtChanged f;
     createdByChanged := createdByChanged f; deletedAtChanged := deletedAtChanged f;
     deletedByChanged := deletedByChanged f; shadowDeleted := shadowDeleted f;
     modifiedAtChanged := modifiedAtChanged f || at_; modifiedByChanged := modifiedByChanged f || by_ |}).

(** [_ = t.Guard.CanExecute(guardID)]: only the panic matters. *)
Definition with_guard (guardID : Z) (f : treasure -> treasure) (t : treasure) : option treasure :=
  match CanExecute guardID false (t_guard t) with
  | None => None
  | Some _ => Some (f t)
  end.

(** [if canExecuteErr := ...; canExecuteErr != nil { return }] *)
Definition with_guard_err (guardID : Z) (f : treasure -> treasure) (t : treasure) : option treasure :=
  match CanExecute guardID false (t_guard t) with
  | None => None
  | Some true => Some (f t)
  | Some false => Some t
  end.

(** ** Content values *)

Definition eqd {A} `{EqDecision A} (x y : A) : bool := bool_decide (x = y).

Definition only_Uint8 (v : Z) : Content :=
  {| c_Void := false; c_Uint8 := Some v; c_Uint16 := None; c_Uint32 := None; c_Uint64 := None;
     c_Int8 := None; c_Int16 := None; c_Int32 := None; c_Int64 := None; c_Float32 := None;
     c_Float64 := None; c_String := None; c_Boolean := None; c_ByteArray := None;
     c_Uint32Slice := None |}.
Definition only_Uint16 (v : Z) : Content :=
  {| c_Void := false; c_Uint8 := None; c_Uint16 := Some v; c_Uint32 := None; c_Uint64 := None;
     c_Int8 := None; c_Int16 := None; c_Int32 := None; c_Int64 := None; c_Float32 := None;
     c_Float64 := None; c_String := None; c_Boolean := None; c_ByteArray := None;
     c_Uint32Slice := None |}.
Definition only_Uint32 (v : Z) : Content :=
  {| c_Void := false; c_Uint8 := None; c_Uint16 := None; c_Uint32 := Some v; c_Uint64 := None;
     c_Int8 := None; c_Int16 := None; c_Int32 := None; c_Int64 := None; c_Float32 := None;
     c_Float64 := None; c_String := None; c_Boolean := None; c_ByteArray := None;
     c_Uint32Slice := None |}.
Definition only_Uint64 (v : Z) : Content :=
  {| c_Void := false; c_Uint8 := None; c_Uint16 := None; c_Uint32 := None; c_Uint64 := Some v;
     c_Int8 := None; c_Int16 := None; c_Int32 := None; c_Int64 := None; c_Float32 := None;
     c_Float64 := None; c_String := None; c_Boolean := None; c_ByteArray := None;
     c_Uint32Slice := None |}.
Definition only_Int8 (v : Z) : Content :=
  {| c_Void := false; c_Uint8 := None; c_Uint16 := None; c_Uint32 := None; c_Uint64 := None;
     c_Int8 := Some v; c_Int16 := None; c_Int32 := None; c_Int64 := None; c_Float32 := None;
     c_Float64 := None; c_String := None; c_Boolean := None; c_ByteArray := None;
     c_Uint32Slice := None |}.
Definition only_Int16 (v : Z) : Content :=
  {| c_Void := false; c_Uint8 := None; c_Uint16 := None; c_Uint32 := None; c_Uint64 := None;
     c_Int8 := None; c_Int16 := Some v; c_Int32 := None; c_Int64 := None; c_Float32 := None;
     c_Float64 := None; c_String := None; c_Boolean := None; c_ByteArray := None;
     c_Uint32Slice := None |}.
Definition only_Int32 (v : Z) : Content :=
  {| c_Void := false; c_Uint8 := None; c_Uint16 := None; c_Uint32 := None; c_Uint64 := None;
     c_Int8 := None; c_Int16 := None; c_Int32 := Some v; c_Int64 := None; c_Float32 := None;
     c_Float64 := None; c_String := None; c_Boolean := None; c_ByteArray := None;
     c_Uint32Slice := None |}.
Definition only_Int64 (v : Z) : Content :=
  {| c_Void := false; c_Uint8 := None; c_Uint16 := None; c_Uint32 := None; c_Uint64 := None;
     c_Int8 := None; c_Int16 := None; c_Int32 := None; c_Int64 := Some v; c_Float32 := None;
     c_Float64 := None; c_String := None; c_Boolean := None; c_ByteArray := None;
     c_Uint32Slice := None |}.
Definition only_Float32 (v : spec_float) : Content :=
  {| c_Void := false; c_Uint8 := None; c_Uint16 := None; c_Uint32 := None; c_Uint64 := None;
     c_Int8 := None; c_Int16 := None; c_Int32 := None; c_Int64 := None; c_Float32 := Some v;
     c_Float64 := None; c_String := None; c_Boolean := None; c_ByteArray := None;
     c_Uint32Slice := None |}.
Definition only_Float64 (v : spec_float) : Content :=
  {| c_Void := false; c_Uint8 := None; c_Uint16 := None; c_Uint32 := None; c_Uint64 := None;
     c_Int8 := None; c_Int16 := None; c_Int32 := None; c_Int64 := None; c_Float32 := None;
     c_Float64 := Some v; c_String := None; c_Boolean := None; c_ByteArray := None;
     c_Uint32Slice := None |}.
Definition only_String (v : bytes) : Content :=
  {| c_Void := false; c_Uint8 := None; c_Uint16 := None; c_Uint32 := None; c_Uint64 := None;
     c_Int8 := None; c_Int16 := None; c_Int32 := None; c_Int64 := None; c_Float32 := None;
     c_Float64 := None; c_String := Some v; c_Boolean := None; c_ByteArray := None;
     c_Uint32Slice := None |}.
Definition only_Boolean (v : bool) : Content :=
  {| c_Void := false; c_Uint8 := None; c_Uint16 := None; c_Uint32 := None; c_Uint64 := None;
     c_Int8 := None; c_Int16 := None; c_Int32 := None; c_Int64 := None; c_Float32 := None;
     c_Float64 := None; c_String := None; c_Boolean := Some v; c_ByteArray := None;
     c_Uint32Slice := None |}.
Definition only_ByteArray (v : option bytes) : Content :=
  {| c_Void := false; c_Uint8 := None; c_Uint16 := None; c_Uint32 := None; c_Uint64 := None;
     c_Int8 := None; c_Int16 := None; c_Int32 := None; c_Int64 := None; c_Float32 := None;
     c_Float64 := None; c_String := None; c_Boolean := None; c_ByteArray := v;
     c_Uint32Slice := None |}.
Definition only_Uint32Slice (v : bytes) : Content :=
  {| c_Void := false; c_Uint8 := None; c_Uint16 := None; c_Uint32 := None; c_Uint64 := None;
     c_Int8 := None; c_Int16 := None; c_Int32 := None; c_Int64 := None; c_Float32 := None;
     c_Float64 := None; c_String := None; c_Boolean := None; c_ByteArray := None;
     c_Uint32Slice := Some v |}.

Definition clear_Void (c : Content) : Content :=
  {| c_Void := false; c_Uint8 := c_Uint8 c; c_Uint16 := c_Uint16 c; c_Uint32 := c_Uint32 c;
     c_Uint64 := c_Uint64 c; c_Int8 := c_Int8 c; c_Int16 := c_Int16 c; c_Int32 := c_Int32 c;
     c_Int64 := c_Int64 c; c_Float32 := c_Float32 c; c_Float64 := c_Float64 c;
     c_String := c_String c; c_Boolean := c_Boolean c; c_ByteArray := c_ByteArray c;
     c_Uint32Slice := c_Uint32Slice c |}.
Definition clear_Uint8 (c : Content) : Content :=
  {| c_Void := c_Void c; c_Uint8 := None; c_Uint16 := c_Uint16 c; c_Uint32 := c_Uint32 c;
     c_Uint64 := c_Uint64 c; c_Int8 := c_Int8 c; c_Int16 := c_Int16 c; c_Int32 := c_Int32 c;
     c_Int64 := c_Int64 c; c_Float32 := c_Float32 c; c_Float64 := c_Float64 c;
     c_String := c_String c; c_Boolean := c_Boolean c; c_ByteArray := c_ByteArray c;
     c_Uint32Slice := c_Uint32Slice c |}.
Definition clear_Uint16 (c : Content) : Content :=
  {| c_Void := c_Void c; c_Uint8 := c_Uint8 c; c_Uint16 := None; c_Uint32 := c_Uint32 c;
     c_Uint64 := c_Uint64 c; c_Int8 := c_Int8 c; c_Int16 := c_Int16 c; c_Int32 := c_Int32 c;
     c_Int64 := c_Int64 c; c_Float32 := c_Float32 c; c_Float64 := c_Float64 c;
     c_String := c_String c; c_Boolean := c_Boolean c; c_ByteArray := c_ByteArray c;
     c_Uint32Slice := c_Uint32Slice c |}.
Definition clear_Uint32 (c : Content) : Content :=
  {| c_Void := c_Void c; c_Uint8 := c_Uint8 c; c_Uint16 := c_Uint16 c; c_Uint32 := None;
     c_Uint64 := c_Uint64 c; c_Int8 := c_Int8 c; c_Int16 := c_Int16 c; c_Int32 := c_Int32 c;
     c_Int64 := c_Int64 c; c_Float32 := c_Float32 c; c_Float64 := c_Float64 c;
     c_String := c_String c; c_Boolean := c_Boolean c; c_ByteArray := c_ByteArray c;
     c_Uint32Slice := c_Uint32Slice c |}.
Definition clear_Uint64 (c : Content) : Content :=
  {| c_Void := c_Void c; c_Uint8 := c_Uint8 c; c_Uint16 := c_Uint16 c; c_Uint32 := c_Uint32 c;
     c_Uint64 := None; c_Int8 := c_Int8 c; c_Int16 := c_Int16 c; c_Int32 := c_Int32 c;
     c_Int64 := c_Int64 c; c_Float32 := c_Float32 c; c_Float64 := c_Float64 c;
     c_String := c_String c; c_Boolean := c_Boolean c; c_ByteArray := c_ByteArray c;
     c_Uint32Slice := c_Uint32Slice c |}.
Definition clear_Int8 (c : Content) : Content :=
  {| c_Void := c_Void c; c_Uint8 := c_Uint8 c; c_Uint16 := c_Uint16 c; c_Uint32 := c_Uint32 c;
     c_Uint64 := c_Uint64 c; c_Int8 := None; c_Int16 := c_Int16 c; c_Int32 := c_Int32 c;
     c_Int64 := c_Int64 c; c_Float32 := c_Float32 c; c_Float64 := c_Float64 c;
     c_String := c_String c; c_Boolean := c_Boolean c; c_ByteArray := c_ByteArray c;
     c_Uint32Slice := c_Uint32Slice c |}.
Definition clear_Int16 (c : Content) : Content :=
  {| c_Void := c_Void c; c_Uint8 := c_Uint8 c; c_Uint16 := c_Uint16 c; c_Uint32 := c_Uint32 c;
     c_Uint64 := c_Uint64 c; c_Int8 := c_Int8 c; c_Int16 := None; c_Int32 := c_Int32 c;
     c_Int64 := c_Int64 c; c_Float32 := c_Float32 c; c_Float64 := c_Float64 c;
     c_String := c_String c; c_Boolean := c_Boolean c; c_ByteArray := c_ByteArray c;
     c_Uint32Slice := c_Uint32Slice c |}.
Definition clear_Int32 (c : Content) : Content :=
  {| c_Void := c_Void c; c_Uint8 := c_Uint8 c; c_Uint16 := c_Uint16 c; c_Uint32 := c_Uint32 c;
     c_Uint64 := c_Uint64 c; c_Int8 := c_Int8 c; c_Int16 := c_Int16 c; c_Int32 := None;
     c_Int64 := c_Int64 c; c_Float32 := c_Float32 c; c_Float64 := c_Float64 c;
     c_String := c_String c; c_Boolean := c_Boolean c; c_ByteArray := c_ByteArray c;
     c_Uint32Slice := c_Uint32Slice c |}.
Definition clear_Int64 (c : Content) : Content :=
  {| c_Void := c_Void c; c_Uint8 := c_Uint8 c; c_Uint16 := c_Uint16 c; c_Uint32 := c_Uint32 c;
     c_Uint64 := c_Uint64 c; c_Int8 := c_Int8 c; c_Int16 := c_Int16 c; c_Int32 := c_Int32 c;
     c_Int64 := None; c_Float32 := c_Float32 c; c_Float64 := c_Float64 c;
     c_String := c_String c; c_Boolean := c_Boolean c; c_ByteArray := c_ByteArray c;
     c_Uint32Slice := c_Uint32Slice c |}.
Definition clear_Float32 (c : Content) : Content :=
  {| c_Void := c_Void c; c_Uint8 := c_Uint8 c; c_Uint16 := c_Uint16 c; c_Uint32 := c_Uint32 c;
     c_Uint64 := c_Uint64 c; c_Int8 := c_Int8 c; c_Int16 := c_Int16 c; c_Int32 := c_Int32 c;
     c_Int64 := c_Int64 c; c_Float32 := None; c_Float64 := c_Float64 c; c_String := c_String c;
     c_Boolean := c_Boolean c; c_ByteArray := c_ByteArray c;
     c_Uint32Slice := c_Uint32Slice c |}.
Definition clear_Float64 (c : Content) : Content :=
  {| c_Void := c_Void c; c_Uint8 := c_Uint8 c; c_Uint16 := c_Uint16 c; c_Uint32 := c_Uint32 c;
     c_Uint64 := c_Uint64 c; c_Int8 := c_Int8 c; c_Int16 := c_Int16 c; c_Int32 := c_Int32 c;
     c_Int64 := c_Int64 c; c_Float32 := c_Float32 c; c_Float64 := None; c_String := c_String c;
     c_Boolean := c_Boolean c; c_ByteArray := c_ByteArray c;
     c_Uint32Slice := c_Uint32Slice c |}.
Definition clear_String (c : Content) : Content :=
  {| c_Void := c_Void c; c_Uint8 := c_Uint8 c; c_Uint16 := c_Uint16 c; c_Uint32 := c_Uint32 c;
     c_Uint64 := c_Uint64 c; c_Int8 := c_Int8 c; c_Int16 := c_Int16 c; c_Int32 := c_Int32 c;
     c_Int64 := c_Int64 c; c_Float32 := c_Float32 c; c_Float64 := c_Float64 c;
     c_String := None; c_Boolean := c_Boolean c; c_ByteArray := c_ByteArray c;
     c_Uint32Slice := c_Uint32Slice c |}.
Definition clear_Boolean (c : Content) : Content :=
  {| c_Void := c_Void c; c_Uint8 := c_Uint8 c; c_Uint16 := c_Uint16 c; c_Uint32 := c_Uint32 c;
     c_Uint64 := c_Uint64 c; c_Int8 := c_Int8 c; c_Int16 := c_Int16 c; c_Int32 := c_Int32 c;
     c_Int64 := c_Int64 c; c_Float32 := c_Float32 c; c_Float64 := c_Float64 c;
     c_String := c_String c; c_Boolean := None; c_ByteArray := c_ByteArray c;
     c_Uint32Slice := c_Uint32Slice c |}.
Definition clear_ByteArray (c : Content) : Content :=
  {| c_Void := c_Void c; c_Uint8 := c_Uint8 c; c_Uint16 := c_Uint16 c; c_Uint32 := c_Uint32 c;
     c_Uint64 := c_Uint64 c; c_Int8 := c_Int8 c; c_Int16 := c_Int16 c; c_Int32 := c_Int32 c;
     c_Int64 := c_Int64 c; c_Float32 := c_Float32 c; c_Float64 := c_Float64 c;
     c_String := c_String c; c_Boolean := c_Boolean c; c_ByteArray := None;
     c_Uint32Slice := c_Uint32Slice c |}.
Definition clear_Uint32Slice (c : Content) : Content :=
  {| c_Void := c_Void c; c_Uint8 := c_Uint8 c; c_Uint16 := c_Uint16 c; c_Uint32 := c_Uint32 c;
     c_Uint64 := c_Uint64 c; c_Int8 := c_Int8 c; c_Int16 := c_Int16 c; c_Int32 := c_Int32 c;
     c_Int64 := c_Int64 c; c_Float32 := c_Float32 c; c_Float64 := c_Float64 c;
     c_String := c_String c; c_Boolean := c_Boolean c; c_ByteArray := c_ByteArray c;
     c_Uint32Slice := None |}.

(** [&Content{Void: true}] *)
Definition void_content : Content :=
  {| c_Void := true; c_Uint8 := None; c_Uint16 := None; c_Uint32 := None; c_Uint64 := None;
     c_Int8 := None; c_Int16 := None; c_Int32 := None; c_Int64 := None; c_Float32 := None;
     c_Float64 := None; c_String := None; c_Boolean := None; c_ByteArray := None;
     c_Uint32Slice := None |}.

(** ** Reading *)

Definition GetKey (t : treasure) : bytes := m_Key (t_model t).
Definition GetExpirationTime (t : treasure) : Z := m_ExpirationTime (t_model t).
Definition GetCreatedAt (t : treasure) : Z := m_CreatedAt (t_model t).
Definition GetCreatedBy (t : treasure) : bytes := m_CreatedBy (t_model t).
Definition GetDeletedAt (t : treasure) : Z := m_DeletedAt (t_model t).
Definition GetDeletedBy (t : treasure) : bytes := m_DeletedBy (t_model t).
Definition GetShadowDelete (t : treasure) : bool := shadowDeleted (t_flags t).
Definition GetModifiedAt (t : treasure) : Z := m_ModifiedAt (t_model t).
Definition GetModifiedBy (t : treasure) : bytes := m_ModifiedBy (t_model t).
Definition GetFileName (t : treasure) : option bytes := m_FileName (t_model t).
Definition IsContentChanged (t : treasure) : bool := contentChanged (t_flags t).
Definition IsContentTypeChanged (t : treasure) : bool := contentTypeChanged (t_flags t).

(** [None] is the error "content type is not ...". *)
Definition GetContentUint8 (t : treasure) : option Z :=
  c ← m_Content (t_model t); c_Uint8 c.
Definition GetContentUint16 (t : treasure) : option Z :=
  c ← m_Content (t_model t); c_Uint16 c.
Definition GetContentUint32 (t : treasure) : option Z :=
  c ← m_Content (t_model t); c_Uint32 c.
Definition GetContentUint64 (t : treasure) : option Z :=
  c ← m_Content (t_model t); c_Uint64 c.
Definition GetContentInt8 (t : treasure) : option Z :=
  c ← m_Content (t_model t); c_Int8 c.
Definition GetContentInt16 (t : treasure) : option Z :=
  c ← m_Content (t_model t); c_Int16 c.
Definition GetContentInt32 (t : treasure) : option Z :=
  c ← m_Content (t_model t); c_Int32 c.
Definition GetContentInt64 (t : treasure) : option Z :=
  c ← m_Content (t_model t); c_Int64 c.
Definition GetContentFloat32 (t : treasure) : option spec_float :=
  c ← m_Content (t_model t); c_Float32 c.
Definition GetContentFloat64 (t : treasure) : option spec_float :=
  c ← m_Content (t_model t); c_Float64 c.
Definition GetContentString (t : treasure) : option bytes :=
  c ← m_Content (t_model t); c_String c.
Definition GetContentBool (t : treasure) : option bool :=
  c ← m_Content (t_model t); c_Boolean c.
Definition GetContentByteArray (t : treasure) : option bytes :=
  c ← m_Content (t_model t); c_ByteArray c.

Definition is_some {A} (o : option A) : bool := match o with Some _ => true | None => false end.

Definition GetContentType (t : treasure) : ContentType :=
  match m_Content (t_model t) with
  | None => ContentTypeVoid
  | Some c =>
      if c_Void c then ContentTypeVoid else
      if is_some (c_Uint8 c) then ContentTypeUint8 else
      if is_some (c_Uint16 c) then ContentTypeUint16 else
      if is_some (c_Uint32 c) then ContentTypeUint32 else
      if is_some (c_Uint64 c) then ContentTypeUint64 else
      if is_some (c_Int8 c) then ContentTypeInt8 else
      if is_some (c_Int16 c) then ContentTypeInt16 else
      if is_some (c_Int32 c) then ContentTypeInt32 else
      if is_some (c_Int64 c) then ContentTypeInt64 else
      if is_some (c_Float32 c) then ContentTypeFloat32 else
      if is_some (c_Float64 c) then ContentTypeFloat64 else
      if is_some (c_String c) then ContentTypeString else
      if is_some (c_Boolean c) then ContentTypeBoolean else
      if is_some (c_ByteArray c) then ContentTypeByteArray else
      if is_some (c_Uint32Slice c) then ContentTypeUint32Slice else
      ContentTypeVoid
  end.

(** [IsExpired], at the time [now]. *)
Definition IsExpired (now : Z) (t : treasure) : bool :=
  if decide (GetExpirationTime t = 0) then false else bool_decide (GetExpirationTime t < now).

(** ** Copies *)

Definition cloneContent (t : treasure) : Content :=
  match m_Content (t_model t) with
  | None => empty_content
  | Some c =>
      match c_String c with Some v => only_String v | None =>
      match c_Uint8 c with Some v => only_Uint8 v | None =>
      match c_Uint16 c with Some v => only_Uint16 v | None =>
      match c_Uint32 c with Some v => only_Uint32 v | None =>
      match c_Uint64 c with Some v => only_Uint64 v | None =>
      match c_Int8 c with Some v => only_Int8 v | None =>
      match c_Int16 c with Some v => only_Int16 v | None =>
      match c_Int32 c with Some v => only_Int32 v | None =>
      match c_Int64 c with Some v => only_Int64 v | None =>
      match c_Float32 c with Some v => only_Float32 v | None =>
      match c_Float64 c with Some v => only_Float64 v | None =>
      match c_Boolean c with Some v => only_Boolean v | None =>
      match c_ByteArray c with Some v => only_ByteArray (Some v) | None =>
      match c_Uint32Slice c with Some v => only_Uint32Slice v | None =>
      if c_Void c then void_content else empty_content
      end end end end end end end end end end end end end end
  end.

(** The object [Clone] makes: it has a guard of its own and no flags. *)
Definition copy (t : treasure) : treasure :=
  let m := t_model t in
  {| t_model :=
       {| m_Key := m_Key m; m_Content := Some (cloneContent t); m_CreatedAt := m_CreatedAt m;
          m_CreatedBy := m_CreatedBy m; m_DeletedAt := 0; m_DeletedBy := [];
          m_ModifiedAt := m_ModifiedAt m; m_ModifiedBy := m_ModifiedBy m;
          m_ExpirationTime := m_ExpirationTime m; m_FileName := None |};
     t_guard := Guard.New; t_flags := no_flags |}.

Definition Clone (guardID : Z) (t : treasure) : option treasure :=
  match CanExecute guardID false (t_guard t) with
  | None => None
  | Some _ => Some (copy t)
  end.

Definition CloneContent (guardID : Z) (t : treasure) : option Content :=
  match CanExecute guardID false (t_guard t) with
  | None => None
  | Some _ => Some (cloneContent t)
  end.

Definition LoadFromClone (guardID : Z) (clone : treasure) : treasure -> option treasure :=
  with_guard guardID (on_model (fun _ => t_model clone)).

(** ** Writing *)

(** A setter of one type: nothing when the content is that value already. *)
Definition set_content {A} (eqb : A -> A -> bool) (get : Content -> option A) (c' : Content) (v : A)
    (t : treasure) : treasure :=
  match c ← m_Content (t_model t); get c with
  | Some old => if eqb old v then t else put_Content (Some c') (mark_content true t)
  | None => put_Content (Some c') (mark_content true t)
  end.

Definition SetContentUint8 (guardID : Z) (v : Z) : treasure -> option treasure :=
  with_guard guardID (set_content eqd c_Uint8 (only_Uint8 v) v).
Definition SetContentUint16 (guardID : Z) (v : Z) : treasure -> option treasure :=
  with_guard guardID (set_content eqd c_Uint16 (only_Uint16 v) v).
Definition SetContentUint32 (guardID : Z) (v : Z) : treasure -> option treasure :=
  with_guard guardID (set_content eqd c_Uint32 (only_Uint32 v) v).
Definition SetContentUint64 (guardID : Z) (v : Z) : treasure -> option treasure :=
  with_guard guardID (set_content eqd c_Uint64 (only_Uint64 v) v).
Definition SetContentInt8 (guardID : Z) (v : Z) : treasure -> option treasure :=
  with_guard guardID (set_content eqd c_Int8 (only_Int8 v) v).
Definition SetContentInt16 (guardID : Z) (v : Z) : treasure -> option treasure :=
  with_guard guardID (set_content eqd c_Int16 (only_Int16 v) v).
Definition SetContentInt32 (guardID : Z) (v : Z) : treasure -> option treasure :=
  with_guard guardID (set_content eqd c_Int32 (only_Int32 v) v).
Definition SetContentInt64 (guardID : Z) (v : Z) : treasure -> option treasure :=
  with_guard guardID (set_content eqd c_Int64 (only_Int64 v) v).
Definition SetContentFloat32 (guardID : Z) (v : spec_float) : treasure -> option treasure :=
  with_guard guardID (set_content SFeqb c_Float32 (only_Float32 v) v).
Definition SetContentFloat64 (guardID : Z) (v : spec_float) : treasure -> option treasure :=
  with_guard guardID (set_content SFeqb c_Float64 (only_Float64 v) v).
Definition SetContentString (guardID : Z) (v : bytes) : treasure -> option treasure :=
  with_guard guardID (set_content eqd c_String (only_String v) v).
Definition SetContentBool (guardID : Z) (v : bool) : treasure -> option treasure :=
  with_guard guardID (set_content eqd c_Boolean (only_Boolean v) v).

(** [bytes.Equal] does not tell [nil] from an empty slice. *)
Definition SetContentByteArray (guardID : Z) (v : option bytes) : treasure -> option treasure :=
  with_guard guardID (set_content eqd c_ByteArray (only_ByteArray v) (default [] v)).

(** The last test of [SetContentVoid] asks whether the flag is set already. *)
Definition SetContentVoid (guardID : Z) : treasure -> option treasure :=
  with_guard guardID (fun t =>
    match m_Content (t_model t) with
    | None => put_Content (Some void_content) (mark_content true t)
    | Some c => if c_Void c then t else mark_content true t
    end).

Definition SetContent (guardID : Z) (content : Content) : treasure -> option treasure :=
  with_guard guardID (fun t =>
    put_Content (Some content) (mark_content (IsContentTypeChanged t) t)).

Definition reset_content {A} (get : Content -> option A) (clear : Content -> Content) (t : treasure) : treasure :=
  match m_Content (t_model t) with
  | Some c => if is_some (get c) then put_Content (Some (clear c)) (mark_contentType (mark_content true t)) else t
  | None => t
  end.

Definition ResetContentUint8 (guardID : Z) : treasure -> option treasure :=
  with_guard guardID (reset_content c_Uint8 clear_Uint8).
Definition ResetContentUint16 (guardID : Z) : treasure -> option treasure :=
  with_guard guardID (reset_content c_Uint16 clear_Uint16).
Definition ResetContentUint32 (guardID : Z) : treasure -> option treasure :=
  with_guard guardID (reset_content c_Uint32 clear_Uint32).
Definition ResetContentUint64 (guardID : Z) : treasure -> option treasure :=
  with_guard guardID (reset_content c_Uint64 clear_Uint64).
Definition ResetContentInt8 (guardID : Z) : treasure -> option treasure :=
  with_guard guardID (reset_content c_Int8 clear_Int8).
Definition ResetContentInt16 (guardID : Z) : treasure -> option treasure :=
  with_guard guardID (reset_content c_Int16 clear_Int16).
Definition ResetContentInt32 (guardID : Z) : treasure -> option treasure :=
  with_guard guardID (reset_content c_Int32 clear_Int32).
Definition ResetContentInt64 (guardID : Z) : treasure -> option treasure :=
  with_guard guardID (reset_content c_Int64 clear_Int64).
Definition ResetContentFloat32 (guardID : Z) : treasure -> option treasure :=
  with_guard guardID (reset_content c_Float32 clear_Float32).
Definition ResetContentFloat64 (guardID : Z) : treasure -> option treasure :=
  with_guard guardID (reset_content c_Float64 clear_Float64).
Definition ResetContentString (guardID : Z) : treasure -> option treasure :=
  with_guard guardID (reset_content c_String clear_String).
Definition ResetContentBool (guardID : Z) : treasure -> option treasure :=
  with_guard guardID (reset_content c_Boolean clear_Boolean).
Definition ResetContentByteArray (guardID : Z) : treasure -> option treasure :=
  with_guard guardID (reset_content c_ByteArray clear_ByteArray).
Definition ResetContentUint32Slice (guardID : Z) : treasure -> option treasure :=
  with_guard guardID (reset_content c_Uint32Slice clear_Uint32Slice).
Definition ResetContentVoid (guardID : Z) : treasure -> option treasure :=
  with_guard guardID (reset_content (fun c => if c_Void c then Some tt else None) clear_Void).
(** A Go [time.Time] is the number of nanoseconds since the Unix epoch, without bounds;
    [UnixNano] is that number in 64 bits, and the zero time is the year 1. *)
Definition UnixNano (t : Z) : Z := i64 t.
Definition zero_time : Z := -62135596800 * 10 ^ 9.
Definition IsZero (t : Z) : bool := bool_decide (t = zero_time).

Definition SetCreatedBy (guardID : Z) (by_ : bytes) : treasure -> option treasure :=
  with_guard guardID (fun t => put_Created (GetCreatedAt t) by_ (mark_created false true t)).
Definition SetModifiedBy (guardID : Z) (by_ : bytes) : treasure -> option treasure :=
  with_guard guardID (fun t => put_Modified (GetModifiedAt t) by_ (mark_modified false true t)).
Definition SetCreatedAt (guardID : Z) (time : Z) : treasure -> option treasure :=
  with_guard guardID (fun t => put_Created (UnixNano time) (GetCreatedBy t) (mark_created true false t)).
Definition SetModifiedAt (guardID : Z) (time : Z) : treasure -> option treasure :=
  with_guard guardID (fun t => put_Modified (UnixNano time) (GetModifiedBy t) (mark_modified true false t)).
Definition SetExpirationTime (guardID : Z) (time : Z) : treasure -> option treasure :=
  with_guard guardID (fun t =>
    put_ExpirationTime (if IsZero time then 0 else UnixNano time) (mark_expiration t)).

Definition BodySetFileName (guardID : Z) (name : bytes) : treasure -> option treasure :=
  with_guard_err guardID (put_FileName (Some name)).
Definition BodySetKey (guardID : Z) (key : bytes) : treasure -> option treasure :=
  with_guard_err guardID (fun t => put_Key key (put_Deleted 0 [] t)).
Definition BodySetForDeletion (guardID : Z) (byUserID : bytes) (shadowDelete : bool) (now : Z) :
    treasure -> option treasure :=
  with_guard_err guardID (fun t =>
    let t := put_Deleted now byUserID (mark_deleted shadowDelete t) in
    if shadowDelete then t else put_ExpirationTime 0 (put_Content None t)).

(** ** Slices of 32-bit numbers *)

(** The loop [for i := 0; i < len(s); i += 4] over [binary.LittleEndian.Uint32(s[i:i+4])];
    [None] is the slice panic when the length is no multiple of four (the capacity is taken to
    be the length). *)
Fixpoint u32s (s : bytes) : option (list Z) :=
  match s with
  | [] => Some []
  | b0 :: b1 :: b2 :: b3 :: s => vs ← u32s s; Some (le_get [b0; b1; b2; b3] :: vs)
  | _ => None
  end.

Definition slice_of (t : treasure) : option bytes := c ← m_Content (t_model t); c_Uint32Slice c.

(** [Some None] is the error, [None] the panic. *)
Definition Uint32SliceGetAll (t : treasure) : option (option (list Z)) :=
  match slice_of t with
  | None => Some None
  | Some s => vs ← u32s s; Some (Some vs)
  end.

(** ** Comparing *)

(** One case of [CheckIfContentChanged]: the new content has another type or value. *)
Definition changed_to {A} (eqb : A -> A -> bool) (get : Content -> option A)
    (newContent old : option Content) : bool :=
  match c ← newContent; get c, c ← old; get c with
  | Some new, Some old => negb (eqb new old)
  | _, _ => true
  end.

Definition CheckIfContentChanged (newContent : option Content) (t : treasure) : bool :=
  match m_Content (t_model t), newContent with
  | None, Some _ => true
  | old, _ =>
      match GetContentType t with
      | ContentTypeVoid => match newContent with Some c => negb (c_Void c) | None => false end
      | ContentTypeUint8 => changed_to eqd c_Uint8 newContent old
      | ContentTypeUint16 => changed_to eqd c_Uint16 newContent old
      | ContentTypeUint32 => changed_to eqd c_Uint32 newContent old
      | ContentTypeUint64 => changed_to eqd c_Uint64 newContent old
      | ContentTypeInt8 => changed_to eqd c_Int8 newContent old
      | ContentTypeInt16 => changed_to eqd c_Int16 newContent old
      | ContentTypeInt32 => changed_to eqd c_Int32 newContent old
      | ContentTypeInt64 => changed_to eqd c_Int64 newContent old
      | ContentTypeFloat32 => changed_to SFeqb c_Float32 newContent old
      | ContentTypeFloat64 => changed_to SFeqb c_Float64 newContent old
      | ContentTypeString => changed_to eqd c_String newContent old
      | ContentTypeBoolean => changed_to eqd c_Boolean newContent old
      | ContentTypeByteArray => changed_to eqd c_ByteArray newContent old
      | ContentTypeUint32Slice => changed_to eqd c_Uint32Slice newContent old
      end
  end.

(** One case of [IsDifferentFrom]: the other treasure has a value of a type; [None] is the
    [nil] dereference when this one does not. *)
Definition differs_in {A} (eqb : A -> A -> bool) (get : Content -> option A) (other : option A)
    (t : treasure) : option bool :=
  match m_Content (t_model t) with
  | None => Some true
  | Some c =>
      match other with
      | None => Some true
      | Some v => u ← get c; Some (negb (eqb u v))
      end
  end.

Definition differs_in_content (other t : treasure) : option bool :=
  match GetContentType other with
  | ContentTypeVoid =>
      match m_Content (t_model t) with
      | None => Some true
      | Some c => Some (c_Void c)
      end
  | ContentTypeUint8 => differs_in eqd c_Uint8 (GetContentUint8 other) t
  | ContentTypeUint16 => differs_in eqd c_Uint16 (GetContentUint16 other) t
  | ContentTypeUint32 => differs_in eqd c_Uint32 (GetContentUint32 other) t
  | ContentTypeUint64 => differs_in eqd c_Uint64 (GetContentUint64 other) t
  | ContentTypeInt8 => differs_in eqd c_Int8 (GetContentInt8 other) t
  | ContentTypeInt16 => differs_in eqd c_Int16 (GetContentInt16 other) t
  | ContentTypeInt32 => differs_in eqd c_Int32 (GetContentInt32 other) t
  | ContentTypeInt64 => differs_in eqd c_Int64 (GetContentInt64 other) t
  | ContentTypeFloat32 => differs_in SFeqb c_Float32 (GetContentFloat32 other) t
  | ContentTypeFloat64 => differs_in SFeqb c_Float64 (GetContentFloat64 other) t
  | ContentTypeString => differs_in eqd c_String (GetContentString other) t
  | ContentTypeBoolean => differs_in eqd c_Boolean (GetContentBool other) t
  | ContentTypeByteArray =>
      (* [reflect.DeepEqual] of two byte slices: [nil] differs from an empty one *)
      match m_Content (t_model t) with
      | None => Some true
      | Some c =>
          match GetContentByteArray other with
          | None => Some true
          | Some v => Some (negb (eqd (c_ByteArray c) (Some v)))
          end
      end
  | ContentTypeUint32Slice =>
      (* [reflect.DeepEqual] of a [*Uint32Slice] and a [[]uint32] *)
      match m_Content (t_model t) with
      | None => Some true
      | Some _ => _ ← Uint32SliceGetAll other; Some true
      end
  end.

Definition IsDifferentFrom (guardID : Z) (other t : treasure) : option bool :=
  match CanExecute guardID false (t_guard t) with
  | None => None
  | Some _ =>
      if negb (eqd (GetKey t) (GetKey other)) then Some true else
      if negb (GetExpirationTime t =? GetExpirationTime other) then Some true else
      if negb (GetCreatedAt t =? GetCreatedAt other) then Some true else
      if negb (eqd (GetCreatedBy t) (GetCreatedBy other)) then Some true else
      if negb (GetDeletedAt t =? GetDeletedAt other) then Some true else
      if negb (eqd (GetDeletedBy t) (GetDeletedBy other)) then Some true else
      if negb (GetModifiedAt t =? GetModifiedAt other) then Some true else
      if negb (eqd (GetModifiedBy t) (GetModifiedBy other)) then Some true else
      differs_in_content other t
  end.

(** ** Changing slices of 32-bit numbers *)

(** The loop of [Uint32SlicePush] over the values. *)
Fixpoint push_loop (values : list Z) (existing : gset Z) (buf : bytes) : bytes :=
  match values with
  | [] => buf
  | v :: values =>
      if decide (v ∈ existing) then push_loop values existing buf
      else push_loop values ({[v]} ∪ existing) (buf ++ le_put 4 v)
  end.

Definition with_Uint32Slice (s : option bytes) (c : Content) : Content :=
  {| c_Void := c_Void c; c_Uint8 := c_Uint8 c; c_Uint16 := c_Uint16 c; c_Uint32 := c_Uint32 c;
     c_Uint64 := c_Uint64 c; c_Int8 := c_Int8 c; c_Int16 := c_Int16 c; c_Int32 := c_Int32 c;
     c_Int64 := c_Int64 c; c_Float32 := c_Float32 c; c_Float64 := c_Float64 c;
     c_String := c_String c; c_Boolean := c_Boolean c; c_ByteArray := c_ByteArray c;
     c_Uint32Slice := s |}.

Definition Uint32SlicePush (values : list Z) (t : treasure) : option treasure :=
  let c := default empty_content (m_Content (t_model t)) in
  let s := default [] (c_Uint32Slice c) in
  vs ← u32s s;
  let buf := push_loop values (list_to_set vs) [] in
  if decide (buf = []) then Some (put_Content (Some (with_Uint32Slice (Some s) c)) t)
  else Some (mark_content true (put_Content (Some (with_Uint32Slice (Some (s ++ buf)) c)) t)).

(** The loop of [Uint32SliceDelete]: the bytes kept, and whether it raised [contentChanged]. *)
Fixpoint delete_loop (values vs : list Z) : bytes * bool :=
  match vs with
  | [] => ([], false)
  | v :: vs =>
      let '(rest, changed) := delete_loop values vs in
      if decide (v ∈ values) then (rest, changed) else (le_put 4 v ++ rest, true)
  end.

Definition Uint32SliceDelete (values : list Z) (t : treasure) : option treasure :=
  match m_Content (t_model t) with
  | None => Some t
  | Some c =>
      match c_Uint32Slice c with
      | None => Some t
      | Some s =>
          vs ← u32s s;
          let '(rest, changed) := delete_loop values vs in
          Some (put_Content (Some (with_Uint32Slice (Some rest) c))
                 (if changed then mark_content true t else t))
      end
  end.

Definition Uint32SliceSize (t : treasure) : option Z :=
  s ← slice_of t; Some (Z.of_nat (length s) / 4).

(** ** What a treasure holds *)

(** A value of one of the types. *)
Inductive value : Type :=
| VUint8 (v : Z)
| VUint16 (v : Z)
| VUint32 (v : Z)
| VUint64 (v : Z)
| VInt8 (v : Z)
| VInt16 (v : Z)
| VInt32 (v : Z)
| VInt64 (v : Z)
| VFloat32 (v : spec_float)
| VFloat64 (v : spec_float)
| VString (v : bytes)
| VBoolean (v : bool)
| VByteArray (v : bytes)
| VUint32Slice (v : bytes).

Definition content_of (v : value) : Content :=
  match v with
  | VUint8 v => only_Uint8 v
  | VUint16 v => only_Uint16 v
  | VUint32 v => only_Uint32 v
  | VUint64 v => only_Uint64 v
  | VInt8 v => only_Int8 v
  | VInt16 v => only_Int16 v
  | VInt32 v => only_Int32 v
  | VInt64 v => only_Int64 v
  | VFloat32 v => only_Float32 v
  | VFloat64 v => only_Float64 v
  | VString v => only_String v
  | VBoolean v => only_Boolean v
  | VByteArray v => only_ByteArray (Some v)
  | VUint32Slice v => only_Uint32Slice v
  end.

Definition type_of (v : value) : ContentType :=
  match v with
  | VUint8 v => ContentTypeUint8
  | VUint16 v => ContentTypeUint16
  | VUint32 v => ContentTypeUint32
  | VUint64 v => ContentTypeUint64
  | VInt8 v => ContentTypeInt8
  | VInt16 v => ContentTypeInt16
  | VInt32 v => ContentTypeInt32
  | VInt64 v => ContentTypeInt64
  | VFloat32 v => ContentTypeFloat32
  | VFloat64 v => ContentTypeFloat64
  | VString v => ContentTypeString
  | VBoolean v => ContentTypeBoolean
  | VByteArray v => ContentTypeByteArray
  | VUint32Slice v => ContentTypeUint32Slice
  end.

(** Go's [==] on two values of one type, [false] on two types. *)
Definition value_eqb (v w : value) : bool :=
  match v, w with
  | VUint8 v, VUint8 w => eqd v w
  | VUint16 v, VUint16 w => eqd v w
  | VUint32 v, VUint32 w => eqd v w
  | VUint64 v, VUint64 w => eqd v w
  | VInt8 v, VInt8 w => eqd v w
  | VInt16 v, VInt16 w => eqd v w
  | VInt32 v, VInt32 w => eqd v w
  | VInt64 v, VInt64 w => eqd v w
  | VFloat32 v, VFloat32 w => SFeqb v w
  | VFloat64 v, VFloat64 w => SFeqb v w
  | VString v, VString w => eqd v w
  | VBoolean v, VBoolean w => eqd v w
  | VByteArray v, VByteArray w => eqd v w
  | VUint32Slice v, VUint32Slice w => eqd v w
  | _, _ => false
  end.

(** The setter and the getter of a type; slices are pushed one by one and are not here. *)
Definition set_value (guardID : Z) (v : value) : treasure -> option treasure :=
  match v with
  | VUint8 v => SetContentUint8 guardID v
  | VUint16 v => SetContentUint16 guardID v
  | VUint32 v => SetContentUint32 guardID v
  | VUint64 v => SetContentUint64 guardID v
  | VInt8 v => SetContentInt8 guardID v
  | VInt16 v => SetContentInt16 guardID v
  | VInt32 v => SetContentInt32 guardID v
  | VInt64 v => SetContentInt64 guardID v
  | VFloat32 v => SetContentFloat32 guardID v
  | VFloat64 v => SetContentFloat64 guardID v
  | VString v => SetContentString guardID v
  | VBoolean v => SetContentBool guardID v
  | VByteArray v => SetContentByteArray guardID (Some v)
  | VUint32Slice v => SetContent guardID (only_Uint32Slice v)
  end.

Definition get_value (ct : ContentType) (t : treasure) : option value :=
  match ct with
  | ContentTypeVoid => None
  | ContentTypeUint8 => VUint8 <$> GetContentUint8 t
  | ContentTypeUint16 => VUint16 <$> GetContentUint16 t
  | ContentTypeUint32 => VUint32 <$> GetContentUint32 t
  | ContentTypeUint64 => VUint64 <$> GetContentUint64 t
  | ContentTypeInt8 => VInt8 <$> GetContentInt8 t
  | ContentTypeInt16 => VInt16 <$> GetContentInt16 t
  | ContentTypeInt32 => VInt32 <$> GetContentInt32 t
  | ContentTypeInt64 => VInt64 <$> GetContentInt64 t
  | ContentTypeFloat32 => VFloat32 <$> GetContentFloat32 t
  | ContentTypeFloat64 => VFloat64 <$> GetContentFloat64 t
  | ContentTypeString => VString <$> GetContentString t
  | ContentTypeBoolean => VBoolean <$> GetContentBool t
  | ContentTypeByteArray => VByteArray <$> GetContentByteArray t
  | ContentTypeUint32Slice => VUint32Slice <$> slice_of t
  end.

(** A content the setters make: nothing, void, or one value. *)
Inductive valid : Content -> Prop :=
| valid_empty : valid empty_content
| valid_void : valid void_content
| valid_value v : valid (content_of v).

Definition valid_treasure (t : treasure) : Prop :=
  match m_Content (t_model t) with None => True | Some c => valid c end.

#[export] Instance ContentType_eq_dec : EqDecision ContentType.
Proof. solve_decision. Defined.

(** Somebody holds the guard, so [CanExecute] does not panic. *)
Definition guarded (t : treasure) : Prop := waitForUnlock (t_guard t) <> [].

Lemma with_guard_runs g f t : guarded t -> with_guard g f t = Some (f t).
Proof.
  intros Hg. unfold with_guard, CanExecute, is_first. cbn [andb]. unfold guarded in Hg.
  by destruct (waitForUnlock (t_guard t)).
Qed.

Lemma with_guard_err_runs g f t q :
  waitForUnlock (t_guard t) = g :: q -> with_guard_err g f t = Some (f t).
Proof.
  intros Hq. unfold with_guard_err, CanExecute, is_first. cbn [andb]. rewrite Hq. cbn.
  by rewrite bool_decide_true.
Qed.

Lemma with_guard_err_refused g h f t q :
  waitForUnlock (t_guard t) = h :: q -> h <> g -> with_guard_err g f t = Some t.
Proof.
  intros Hq Hne. unfold with_guard_err, CanExecute, is_first. cbn [andb]. rewrite Hq. cbn.
  by rewrite bool_decide_false.
Qed.

(** What reading a treasure with one value gives. *)
Lemma read_value t v :
  m_Content (t_model t) = Some (content_of v) ->
  GetContentType t = type_of v /\ cloneContent t = content_of v /\
  forall ct, get_value ct t = if decide (ct = type_of v) then Some v else None.
Proof.
  intros Hc. unfold GetContentType, cloneContent. rewrite Hc. split_and!.
  - by destruct v.
  - by destruct v.
  - intros ct. unfold get_value, slice_of.
    destruct v, ct; unfold GetContentUint8, GetContentUint16, GetContentUint32, GetContentUint64,
      GetContentInt8, GetContentInt16, GetContentInt32, GetContentInt64, GetContentFloat32,
      GetContentFloat64, GetContentString, GetContentBool, GetContentByteArray; rewrite ?Hc; reflexivity.
Qed.

(** One setter on a valid content. *)
Lemma set_content_spec {A} (eqb : A -> A -> bool) get c' v t :
  exists t', set_content eqb get c' v t = t' /\
    (m_Content (t_model t') = Some c' /\ contentChanged (t_flags t') = true \/
     t' = t /\ exists c old, m_Content (t_model t) = Some c /\ get c = Some old /\ eqb old v = true).
Proof.
  unfold set_content. destruct (m_Content (t_model t)) as [c|] eqn:Hc; cbn.
  - destruct (get c) as [old|] eqn:Hg; [destruct (eqb old v) eqn:He|]; eexists; split; try reflexivity.
    + right. split; [done|]. by exists c, old.
    + by left.
    + by left.
  - eexists; split; [reflexivity|]. by left.
Qed.

(** Setting a value leaves one value, equal to it, and raises the flag unless it was there. *)
Lemma set_value_spec g v t :
  guarded t -> valid_treasure t -> (forall s, v <> VUint32Slice s) ->
  exists t' v', set_value g v t = Some t' /\ m_Content (t_model t') = Some (content_of v') /\
    (v' = v /\ contentChanged (t_flags t') = true \/ t' = t /\ value_eqb v' v = true).
Proof.
  intros Hg Hv Hs. unfold valid_treasure in Hv.
  assert (Hset : forall A eqb (get : Content -> option A) x,
    (forall c old, valid c -> get c = Some old -> eqb old x = true ->
       exists v', c = content_of v' /\ value_eqb v' v = true) ->
    exists t' v', Some (set_content eqb get (content_of v) x t) = Some t' /\
      m_Content (t_model t') = Some (content_of v') /\
      (v' = v /\ contentChanged (t_flags t') = true \/ t' = t /\ value_eqb v' v = true)).
  { intros A eqb get x Hget. destruct (set_content_spec eqb get (content_of v) x t)
      as (t' & -> & [[Hc Hf]|(-> & c & old & Hc & Ho & He)]).
    - exists t', v. split_and!; [done..|]. by left.
    - rewrite Hc in Hv. destruct (Hget c old Hv Ho He) as (v' & -> & Hv').
      exists t, v'. split_and!; [done..|]. by right. }
  destruct v as [x|x|x|x|x|x|x|x|x|x|x|x|x|x]; cbn [set_value];
    try (exfalso; by eapply Hs);
    unfold SetContentUint8, SetContentUint16, SetContentUint32, SetContentUint64, SetContentInt8,
      SetContentInt16, SetContentInt32, SetContentInt64, SetContentFloat32, SetContentFloat64,
      SetContentString, SetContentBool, SetContentByteArray; rewrite with_guard_runs by done;
    apply Hset; intros c old [| |[]] Ho He; try discriminate Ho; injection Ho as ->; eexists; by split.
Qed.

(** ** Slices as lists of numbers *)

Definition u32_bytes (vs : list Z) : bytes := concat (map (le_put 4) vs).

Lemma le_put_4 v : exists b0 b1 b2 b3, le_put 4 v = [b0; b1; b2; b3].
Proof.
  pose proof (length_le_put 4 v) as Hl. destruct (le_put 4 v) as [|b0 [|b1 [|b2 [|b3 [|]]]]]; try done.
  by exists b0, b1, b2, b3.
Qed.

Lemma u32s_cons v s : in_u32 v -> u32s (le_put 4 v ++ s) = vs ← u32s s; Some (v :: vs).
Proof.
  intros Hv. pose proof (le_u32 v Hv) as Hg. destruct (le_put_4 v) as (b0 & b1 & b2 & b3 & Hb).
  rewrite Hb in *. cbn [app u32s]. by rewrite Hg.
Qed.

Lemma u32s_bytes vs : Forall in_u32 vs -> u32s (u32_bytes vs) = Some vs.
Proof.
  induction 1 as [|v vs Hv _ IH]; [done|]. unfold u32_bytes. cbn [map concat].
  rewrite u32s_cons by done. unfold u32_bytes in IH. by rewrite IH.
Qed.

(** A slice of whole numbers is the bytes of the numbers it decodes to. *)
Lemma u32s_inv n : forall s vs, (length s <= n)%nat -> u32s s = Some vs ->
  s = u32_bytes vs /\ Forall in_u32 vs.
Proof.
  induction n as [|n IH]; intros s vs Hn Hs.
  - destruct s; [|cbn in Hn; lia]. injection Hs as <-. split; [done|constructor].
  - destruct s as [|b0 [|b1 [|b2 [|b3 s]]]]; try done; [injection Hs as <-; split; [done|constructor]|].
    cbn [u32s] in Hs. destruct (u32s s) as [ws|] eqn:Hw; [|done]. injection Hs as <-.
    destruct (IH s ws) as [-> Hf]; [cbn in Hn; lia|done|]. split.
    + unfold u32_bytes. cbn [map concat]. 
      pose proof (le_put_get [b0; b1; b2; b3]) as Hp. cbn [length] in Hp. by rewrite Hp.
    + constructor; [|done]. by apply le_get_u32.
Qed.

Lemma u32_bytes_app a b : u32_bytes (a ++ b) = u32_bytes a ++ u32_bytes b.
Proof. unfold u32_bytes. by rewrite map_app, concat_app. Qed.

Lemma length_u32_bytes vs : length (u32_bytes vs) = (4 * length vs)%nat.
Proof.
  induction vs as [|v vs IH]; [done|]. unfold u32_bytes in *. cbn [map concat length].
  rewrite length_app, length_le_put. lia.
Qed.

(** The values that are not there yet, each once, in order. *)
Fixpoint unseen (values seen : list Z) : list Z :=
  match values with
  | [] => []
  | v :: values => if decide (v ∈ seen) then unseen values seen else v :: unseen values (v :: seen)
  end.

Lemma push_loop_unseen values : forall seen (existing : gset Z) buf,
  (forall v, v ∈ existing <-> v ∈ seen) ->
  push_loop values existing buf = buf ++ u32_bytes (unseen values seen).
Proof.
  induction values as [|v values IH]; intros seen existing buf He; cbn.
  - by rewrite app_nil_r.
  - destruct (decide (v ∈ existing)) as [Hin|Hin].
    + rewrite decide_True by (by apply He). by apply IH.
    + rewrite decide_False by (by rewrite <- He).
      rewrite (IH (v :: seen)) by (intros w; rewrite elem_of_union, elem_of_singleton, He, elem_of_cons; done).
      unfold u32_bytes. cbn [map concat]. by rewrite app_assoc.
Qed.

Lemma unseen_spec values : forall seen,
  NoDup (unseen values seen) /\ (forall v, v ∈ unseen values seen <-> v ∈ values /\ v ∉ seen).
Proof.
  induction values as [|v values IH]; intros seen; cbn.
  - split; [constructor|]. intros v. rewrite elem_of_nil. tauto.
  - destruct (decide (v ∈ seen)) as [Hin|Hin].
    + destruct (IH seen) as [Hn He]. split; [done|]. intros w. rewrite He, elem_of_cons.
      split; [tauto|]. intros [[->|?] ?]; [done|tauto].
    + destruct (IH (v :: seen)) as [Hn He]. split.
      * constructor; [|done]. rewrite He, elem_of_cons. tauto.
      * intros w. rewrite !elem_of_cons, He, elem_of_cons. destruct (decide (w = v)) as [->|]; tauto.
Qed.

Lemma unseen_range values seen : Forall in_u32 values -> Forall in_u32 (unseen values seen).
Proof.
  intros Hv. apply Forall_forall. intros v Hin. apply unseen_spec in Hin as [Hin _].
  by eapply Forall_forall.
Qed.

Lemma delete_loop_spec values vs :
  delete_loop values vs =
  (u32_bytes (filter (fun v => v ∉ values) vs), negb (bool_decide (filter (fun v => v ∉ values) vs = []))).
Proof.
  induction vs as [|v vs IH]; [done|]. cbn [delete_loop]. rewrite IH. destruct (decide (v ∈ values)) as [Hin|Hin].
  - rewrite filter_cons_False by tauto. done.
  - rewrite filter_cons_True by done. done.
Qed.

Lemma u32_bytes_nil vs : u32_bytes vs = [] <-> vs = [].
Proof.
  split; [|by intros ->]. intros Hn. apply (f_equal length) in Hn. rewrite length_u32_bytes in Hn.
  destruct vs; [done|]. cbn in Hn. lia.
Qed.

(** The numbers a treasure holds. *)
Definition numbers (t : treasure) (vs : list Z) : Prop :=
  slice_of t = Some (u32_bytes vs) /\ Forall in_u32 vs.

Lemma numbers_get t vs : numbers t vs -> Uint32SliceGetAll t = Some (Some vs).
Proof. intros [Hs Hv]. unfold Uint32SliceGetAll. by rewrite Hs, u32s_bytes. Qed.

Lemma numbers_size t vs : numbers t vs -> Uint32SliceSize t = Some (Z.of_nat (length vs)).
Proof.
  intros [Hs Hv]. unfold Uint32SliceSize. rewrite Hs. cbn. rewrite length_u32_bytes. f_equal.
  rewrite Nat2Z.inj_mul. change (Z.of_nat 4) with 4. rewrite Z.mul_comm. by rewrite Z.div_mul by lia.
Qed.

Lemma push_numbers t vs values :
  Forall in_u32 values ->
  numbers t vs \/ slice_of t = None /\ vs = [] ->
  exists t', Uint32SlicePush values t = Some t' /\ numbers t' (vs ++ unseen values vs) /\
    contentChanged (t_flags t') = contentChanged (t_flags t) || negb (bool_decide (unseen values vs = [])).
Proof.
  intros Hv Hn. unfold Uint32SlicePush.
  set (c := default empty_content (m_Content (t_model t))).
  assert (Hs : default [] (c_Uint32Slice c) = u32_bytes vs /\ Forall in_u32 vs).
  { unfold numbers, slice_of in Hn. unfold c.
    destruct (m_Content (t_model t)) as [c0|]; cbn in *.
    - destruct Hn as [[-> ?]|[-> ->]]; done.
    - destruct Hn as [[? ?]|[_ ->]]; done. }
  destruct Hs as [-> Hvs]. rewrite u32s_bytes by done. cbn [mbind option_bind].
  rewrite (push_loop_unseen values vs) by (intros v; by rewrite elem_of_list_to_set). cbn [app].
  assert (Hr : Forall in_u32 (vs ++ unseen values vs)) by (apply Forall_app; split; [done|by apply unseen_range]).
  destruct (decide (u32_bytes (unseen values vs) = [])) as [He|He].
  - eexists. split; [done|]. apply u32_bytes_nil in He. rewrite He in *. rewrite app_nil_r in *.
    split; [split; [reflexivity|done]|]. cbn. by rewrite orb_false_r.
  - eexists. split; [done|]. split; [split; [|done]|].
    + unfold slice_of. cbn. by rewrite u32_bytes_app.
    + cbn. rewrite bool_decide_false by (by rewrite <- u32_bytes_nil). by rewrite orb_true_r.
Qed.

Lemma delete_numbers t vs values :
  numbers t vs ->
  exists t', Uint32SliceDelete values t = Some t' /\ numbers t' (filter (fun v => v ∉ values) vs) /\
    contentChanged (t_flags t') =
      contentChanged (t_flags t) || negb (bool_decide (filter (fun v => v ∉ values) vs = [])).
Proof.
  intros [Hs Hv]. unfold Uint32SliceDelete, slice_of in *.
  destruct (m_Content (t_model t)) as [c|]; [|done]. cbn in Hs. rewrite Hs, u32s_bytes by done. cbn.
  rewrite delete_loop_spec.
  assert (Hf : Forall in_u32 (filter (fun v => v ∉ values) vs)).
  { apply Forall_forall. intros v [_ Hin]%list_elem_of_filter. by eapply Forall_forall. }
  eexists. split; [done|]. split; [split; [|done]|].
  - unfold slice_of. by destruct (negb _).
  - destruct (bool_decide _); cbn; by rewrite ?orb_true_r, ?orb_false_r.
Qed.

(** ** Setters leave the guard alone *)

Lemma with_guard_guard g f t t' :
  (forall t, t_guard (f t) = t_guard t) -> with_guard g f t = Some t' -> t_guard t' = t_guard t.
Proof.
  intros Hf. unfold with_guard. destruct (CanExecute _ _ _); [|done]. by intros [= <-].
Qed.

Lemma set_content_guard {A} (eqb : A -> A -> bool) get c' v t :
  t_guard (set_content eqb get c' v t) = t_guard t.
Proof.
  unfold set_content. destruct (c ← m_Content (t_model t); get c); [|done]. by destruct (eqb _ _).
Qed.

Lemma set_value_guard g v t t' : guarded t -> set_value g v t = Some t' -> guarded t'.
Proof.
  intros Hg Hs. enough (t_guard t' = t_guard t) as Hgg by (unfold guarded; by rewrite Hgg).
  destruct v; (eapply with_guard_guard; [|exact Hs]); intros t0; try apply set_content_guard; done.
Qed.
