(* ===== verification/Beacon.v ===== *)
(** The index of a swamp: [core/hydra/swamp/beacon/beacon.go].

    A beacon holds pointers to treasures, by key and, when it is ordered, in a slice.  The
    objects they point to live outside it and change under their own guards: [deref] gives
    their state while an operation has the beacon's mutex.  The order in which Go visits a map
    and what [sort.Slice] does with equal elements are unspecified: both are parameters with
    the documented laws. *)
From Stdlib Require Import Floats.SpecFloat.
From S2P Require Import Prelude Steps Guard Treasure Text.

(** A pointer to a treasure. *)
Abbreviation loc := nat.

(** ** The standard library *)

(** [for k, v := range m] over the map of a beacon. *)
Class KeyRange := key_range : gmap bytes loc -> list (bytes * loc).
Class KeyRangeOk `{KeyRange} : Prop := key_range_perm m : key_range m ≡ₚ map_to_list m.

(** The comparisons [sort.Slice] documents: a strict weak order of the elements. *)
Record strict_weak {A} (less : A -> A -> bool) (l : list A) : Prop := {
  sw_irrefl x : x ∈ l -> less x x = false;
  sw_trans x y z : x ∈ l -> y ∈ l -> z ∈ l -> less x y = true -> less y z = true -> less x z = true;
  sw_incomp x y z : x ∈ l -> y ∈ l -> z ∈ l -> less x y = false -> less y z = false -> less x z = false
}.

(** No element is smaller than one before it. *)
Definition in_order {A} (less : A -> A -> bool) (l : list A) : Prop :=
  forall i j x y, (i < j)%nat -> l !! i = Some x -> l !! j = Some y -> less y x = false.

(** [sort.Slice]: some permutation, in order when the comparison is a strict weak order. *)
Class SortSlice := sort_slice : (loc -> loc -> bool) -> list loc -> list loc.
Class SortSliceOk `{SortSlice} : Prop := {
  sort_slice_perm less l : sort_slice less l ≡ₚ l;
  sort_slice_in_order less l : strict_weak less l -> in_order less (sort_slice less l)
}.

(** [sort.SliceStable], which is determined: insert every element after those not larger. *)
Fixpoint insert_stable {A} (less : A -> A -> bool) (x : A) (l : list A) : list A :=
  match l with
  | [] => [x]
  | y :: l => if less x y then x :: y :: l else y :: insert_stable less x l
  end.
Fixpoint sort_stable {A} (less : A -> A -> bool) (acc l : list A) : list A :=
  match l with
  | [] => acc
  | x :: l => sort_stable less (insert_stable less x acc) l
  end.

(** ** State *)

Inductive SortOrder : Type :=
| ByExpirationTimeAsc | ByExpirationTimeDesc
| ByCreatedAtAsc | ByCreatedAtDesc
| ByModifiedAtAsc | ByModifiedAtDesc.

#[export] Instance SortOrder_eq_dec : EqDecision SortOrder.
Proof. solve_decision. Defined.

Record beacon := {
  treasuresByKeys : gmap bytes loc;
  treasuresByOrder : list loc;
  initialized : bool;
  isOrdered : bool;
  sortOrder : option SortOrder      (** [None] is 0 *)
}.

Definition New : beacon :=
  {| treasuresByKeys := ∅; treasuresByOrder := []; initialized := false; isOrdered := false;
     sortOrder := None |}.

Definition put (m : gmap bytes loc) (l : list loc) (b : beacon) : beacon :=
  {| treasuresByKeys := m; treasuresByOrder := l; initialized := initialized b;
     isOrdered := isOrdered b; sortOrder := sortOrder b |}.

(** [atomic.StoreInt32(&b.initialized, 1)] *)
Definition touch (b : beacon) : beacon :=
  {| treasuresByKeys := treasuresByKeys b; treasuresByOrder := treasuresByOrder b;
     initialized := true; isOrdered := isOrdered b; sortOrder := sortOrder b |}.

Definition put_order (o : SortOrder) (b : beacon) : beacon :=
  {| treasuresByKeys := treasuresByKeys b; treasuresByOrder := treasuresByOrder b;
     initialized := initialized b; isOrdered := isOrdered b; sortOrder := Some o |}.

Section Beacon.
Context `{HR : KeyRange} `{HS : SortSlice}.

(** ** Without the objects *)

Definition GetAll (b : beacon) : gmap bytes loc := treasuresByKeys b.
Definition Count (b : beacon) : beacon * Z := (touch b, Z.of_nat (size (treasuresByKeys b))).
Definition Get (key : bytes) (b : beacon) : beacon * option loc := (touch b, treasuresByKeys b !! key).
Definition IsExists (key : bytes) (b : beacon) : beacon * bool :=
  (touch b, is_some (treasuresByKeys b !! key)).

(** The loop of [AreExists]. *)
Fixpoint exists_loop (keys : list bytes) (m : gmap bytes loc) (result : gmap bytes bool) : gmap bytes bool :=
  match keys with
  | [] => result
  | k :: keys => exists_loop keys m (<[k := is_some (m !! k)]> result)
  end.
Definition AreExists (keys : list bytes) (b : beacon) : beacon * gmap bytes bool :=
  (touch b, exists_loop keys (treasuresByKeys b) ∅).

Definition IsOrdered (b : beacon) : bool := isOrdered b.
Definition IsInitialized (b : beacon) : bool := initialized b.
Definition SetInitialized (init : bool) (b : beacon) : beacon :=
  {| treasuresByKeys := treasuresByKeys b; treasuresByOrder := treasuresByOrder b;
     initialized := init; isOrdered := isOrdered b; sortOrder := sortOrder b |}.

Definition Reset (b : beacon) : beacon := SetInitialized false (put ∅ [] b).

Definition SetIsOrdered (o : bool) (b : beacon) : beacon :=
  if decide (isOrdered b = o) then b else
  {| treasuresByKeys := treasuresByKeys b;
     treasuresByOrder := if o then treasuresByOrder b ++ (key_range (treasuresByKeys b)).*2 else [];
     initialized := initialized b; isOrdered := o; sortOrder := sortOrder b |}.

(** [maps.Copy] and the loop. *)
Definition PushManyFromMap (treasures : gmap bytes loc) (b : beacon) : beacon :=
  put (treasures ∪ treasuresByKeys b)
      (if isOrdered b then treasuresByOrder b ++ (key_range treasures).*2 else treasuresByOrder b) b.

(** The treasures [Iterate] shows, up to the first the function refuses. *)
Inductive IterationType : Type := IterationTypeOrdered | IterationTypeKey.
Fixpoint iterate_loop (f : loc -> bool) (l : list loc) : list loc :=
  match l with
  | [] => []
  | x :: l => if f x then x :: iterate_loop f l else [x]
  end.
Definition Iterate (f : loc -> bool) (it : IterationType) (b : beacon) : list loc :=
  match it with
  | IterationTypeKey => iterate_loop f (key_range (treasuresByKeys b)).*2
  | IterationTypeOrdered => iterate_loop f (treasuresByOrder b)
  end.

(** ** With the objects *)

Variable deref : loc -> treasure.

Definition key_of (l : loc) : bytes := GetKey (deref l).

Definition Add (d : loc) (b : beacon) : beacon :=
  let b := touch b in
  match treasuresByKeys b !! key_of d with
  | Some _ => b
  | None =>
      put (<[key_of d := d]> (treasuresByKeys b))
          (if isOrdered b then treasuresByOrder b ++ [d] else treasuresByOrder b) b
  end.

(** The loop that removes the first treasure with a key from the slice. *)
Fixpoint remove_key (key : bytes) (l : list loc) : list loc :=
  match l with
  | [] => []
  | x :: l => if decide (key_of x = key) then l else x :: remove_key key l
  end.

Definition Delete (key : bytes) (b : beacon) : beacon :=
  let b := touch b in
  put (delete key (treasuresByKeys b))
      (if isOrdered b then remove_key key (treasuresByOrder b) else treasuresByOrder b) b.

Definition ShiftOne (key : bytes) (b : beacon) : beacon * option loc :=
  let b := touch b in
  match treasuresByKeys b !! key with
  | None => (b, None)
  | Some d =>
      (put (delete key (treasuresByKeys b))
           (if isOrdered b then remove_key key (treasuresByOrder b) else treasuresByOrder b) b, Some d)
  end.

(** The loop the shifts and the selections share: [counter] treasures that satisfy [p] have
    been taken so far, at most [howMany] are; the third result counts those that came too
    late. *)
Fixpoint shift_loop (p : loc -> bool) (howMany counter : Z) (l : list loc) : list loc * list loc * Z :=
  match l with
  | [] => ([], [], 0)
  | x :: l =>
      if p x && (counter <? howMany) then
        let '(taken, rest, beyond) := shift_loop p howMany (counter + 1) l in (x :: taken, rest, beyond)
      else
        let '(taken, rest, beyond) := shift_loop p howMany counter l in
        (taken, x :: rest, if p x then beyond + 1 else beyond)
  end.

(** [delete(b.treasuresByKeys, treasureObj.GetKey())] for every treasure taken. *)
Definition delete_all (taken : list loc) (m : gmap bytes loc) : gmap bytes loc :=
  foldl (fun m x => delete (key_of x) m) m taken.

Definition shift (p : loc -> bool) (howMany : Z) (b : beacon) : beacon * list treasure * Z :=
  let '(taken, rest, beyond) := shift_loop p howMany 0 (treasuresByOrder b) in
  (put (delete_all taken (treasuresByKeys b)) rest b, map (fun x => copy (deref x)) taken, beyond).

Definition select (p : loc -> bool) (howMany : Z) (b : beacon) : beacon * list loc * Z :=
  let '(taken, rest, beyond) := shift_loop p howMany 0 (treasuresByOrder b) in
  (put (treasuresByKeys b) rest b, taken, beyond).

(** [exp != 0 && exp < now] *)
Definition expired (now : Z) (x : loc) : bool :=
  let exp := GetExpirationTime (deref x) in negb (exp =? 0) && (exp <? now).

Definition ShiftMany (howMany : Z) (b : beacon) : beacon * list treasure :=
  (shift (fun _ => true) howMany (touch b)).1.

Definition ShiftExpired (howMany now : Z) (b : beacon) : beacon * list treasure :=
  (shift (expired now) howMany (touch b)).1.

Definition SelectExpiredForPatch (howMany now : Z) (b : beacon) : beacon * list loc :=
  (select (expired now) howMany (touch b)).1.

(** The count over the map. *)
Definition count_matching (p : loc -> bool) (m : gmap bytes loc) : Z :=
  Z.of_nat (length (filter (fun x => p x) (key_range m).*2)).

Definition CountMatching (predicate : option (loc -> bool)) (b : beacon) : beacon * Z :=
  match predicate with
  | None => (touch b, 0)
  | Some p => (touch b, count_matching p (treasuresByKeys b))
  end.

(** The budget the cap leaves: [None] when it is used up, else the effective number and
    whether the cap bounded it. *)
Definition cap_budget (capPredicate : option (loc -> bool)) (capMax howMany : Z) (b : beacon) : option (Z * bool) :=
  match capPredicate with
  | None => Some (howMany, false)
  | Some p =>
      let budget := capMax - count_matching p (treasuresByKeys b) in
      if budget <=? 0 then None
      else if budget <? howMany then Some (budget, true) else Some (howMany, false)
  end.

Definition cap_reached (capPredicate : option (loc -> bool)) (bounded : bool) (beyond : Z) : bool :=
  bounded || (is_some capPredicate && (0 <? beyond)).

Definition ShiftMatching (howMany : Z) (predicate capPredicate : option (loc -> bool)) (capMax : Z)
    (b : beacon) : beacon * list treasure * bool :=
  let b := touch b in
  match predicate with
  | None => (b, [], false)
  | Some p =>
      if howMany <=? 0 then (b, [], false) else
      match cap_budget capPredicate capMax howMany b with
      | None => (b, [], true)
      | Some (effective, bounded) =>
          let '(b, shifted, beyond) := shift p effective b in
          (b, shifted, cap_reached capPredicate bounded beyond)
      end
  end.

Definition max_int : Z := 2 ^ 63 - 1.

Definition SelectExpiredForPatchWithCap (howMany : Z) (selectionPredicate capPredicate : option (loc -> bool))
    (capMax now : Z) (b : beacon) : beacon * list loc * bool :=
  let b := touch b in
  let effective := if howMany <=? 0 then max_int else howMany in
  match cap_budget capPredicate capMax effective b with
  | None => (b, [], true)
  | Some (effective, bounded) =>
      let candidate x := expired now x && match selectionPredicate with None => true | Some p => p x end in
      let '(b, selected, beyond) := select candidate effective b in
      (b, selected, cap_reached capPredicate bounded beyond)
  end.

(** ** Sorting *)

Definition sort_by (less : loc -> loc -> bool) (b : beacon) : beacon :=
  put (treasuresByKeys b) (sort_slice less (treasuresByOrder b)) b.

Definition ReindexExpiration (treasures : list loc) (b : beacon) : beacon :=
  match treasures with
  | [] => b
  | _ =>
      let b := touch b in
      if negb (isOrdered b) then b else
      let kept := filter (fun x => key_of x ∉ map key_of treasures) (treasuresByOrder b) in
      let added := filter (fun x => GetExpirationTime (deref x) <> 0) treasures in
      put_order ByExpirationTimeAsc
        (sort_by (fun k l => GetExpirationTime (deref k) <? GetExpirationTime (deref l))
           (put (treasuresByKeys b) (kept ++ added) b))
  end.

(** The sorts by a time: [None] is the error "not ordered".  [sets_first] says whether the sort
    order is recorded before that test. *)
Definition sort_by_time (sets_first desc : bool) (o : SortOrder) (time : treasure -> Z) (b : beacon) : beacon * bool :=
  if negb (isOrdered b) then (if sets_first then put_order o b else b, false)
  else (put_order o (sort_by (fun k l =>
          if desc then time (deref l) <? time (deref k) else time (deref k) <? time (deref l)) b), true).

Definition SortByCreationTimeAsc := sort_by_time false false ByCreatedAtAsc GetCreatedAt.
Definition SortByCreationTimeDesc := sort_by_time true true ByCreatedAtDesc GetCreatedAt.
Definition SortByExpirationTimeAsc := sort_by_time false false ByExpirationTimeAsc GetExpirationTime.
Definition SortByExpirationTimeDesc := sort_by_time false true ByExpirationTimeDesc GetExpirationTime.
Definition SortByUpdateTimeAsc := sort_by_time false false ByModifiedAtAsc GetModifiedAt.
Definition SortByUpdateTimeDesc := sort_by_time false true ByModifiedAtDesc GetModifiedAt.

(** The sorts by key leave [sortOrder] as it is. *)
Definition sort_by_key (desc : bool) (b : beacon) : beacon * bool :=
  if negb (isOrdered b) then (b, false)
  else (sort_by (fun k l => if desc then bytes_lt (key_of l) (key_of k) else bytes_lt (key_of k) (key_of l)) b, true).
Definition SortByKeyAsc := sort_by_key false.
Definition SortByKeyDesc := sort_by_key true.

(** The sorts by a value: a comparison with a treasure of another type is [false]. *)
Definition value_less {A} (lt : A -> A -> bool) (get : treasure -> option A) (desc : bool) (k l : loc) : bool :=
  match get (deref k), get (deref l) with
  | Some kVal, Some lVal => if desc then lt lVal kVal else lt kVal lVal
  | _, _ => false
  end.
Definition sort_by_value {A} (lt : A -> A -> bool) (get : treasure -> option A) (desc : bool)
    (b : beacon) : beacon * bool :=
  if negb (isOrdered b) then (b, false) else (sort_by (value_less lt get desc) b, true).

Definition SortByValueFloat32ASC := sort_by_value SFltb GetContentFloat32 false.
Definition SortByValueFloat32DESC := sort_by_value SFltb GetContentFloat32 true.
Definition SortByValueFloat64ASC := sort_by_value SFltb GetContentFloat64 false.
Definition SortByValueFloat64DESC := sort_by_value SFltb GetContentFloat64 true.
Definition SortByValueUint8ASC := sort_by_value Z.ltb GetContentUint8 false.
Definition SortByValueUint8DESC := sort_by_value Z.ltb GetContentUint8 true.
Definition SortByValueUint16ASC := sort_by_value Z.ltb GetContentUint16 false.
Definition SortByValueUint16DESC := sort_by_value Z.ltb GetContentUint16 true.
Definition SortByValueUint32ASC := sort_by_value Z.ltb GetContentUint32 false.
Definition SortByValueUint32DESC := sort_by_value Z.ltb GetContentUint32 true.
Definition SortByValueUint64ASC := sort_by_value Z.ltb GetContentUint64 false.
Definition SortByValueUint64DESC := sort_by_value Z.ltb GetContentUint64 true.
Definition SortByValueInt8ASC := sort_by_value Z.ltb GetContentInt8 false.
Definition SortByValueInt8DESC := sort_by_value Z.ltb GetContentInt8 true.
Definition SortByValueInt16ASC := sort_by_value Z.ltb GetContentInt16 false.
Definition SortByValueInt16DESC := sort_by_value Z.ltb GetContentInt16 true.
Definition SortByValueInt32ASC := sort_by_value Z.ltb GetContentInt32 false.
Definition SortByValueInt32DESC := sort_by_value Z.ltb GetContentInt32 true.
Definition SortByValueStringASC := sort_by_value bytes_lt GetContentString false.
Definition SortByValueStringDESC := sort_by_value bytes_lt GetContentString true.

(** The 64-bit sorts collect the values first, fail on the first treasure without one, and are
    stable. *)
Fixpoint int64_items (l : list loc) : option (list (Z * loc)) :=
  match l with
  | [] => Some []
  | x :: l => v ← GetContentInt64 (deref x); items ← int64_items l; Some ((v, x) :: items)
  end.
Definition sort_by_int64 (desc : bool) (b : beacon) : beacon * bool :=
  if negb (isOrdered b) then (b, false) else
  match int64_items (treasuresByOrder b) with
  | None => (b, false)
  | Some items =>
      let sorted := sort_stable (fun i j : Z * loc => if desc then j.1 <? i.1 else i.1 <? j.1) [] items in
      (put (treasuresByKeys b) sorted.*2 b, true)
  end.
Definition SortByValueInt64ASC := sort_by_int64 false.
Definition SortByValueInt64DESC := sort_by_int64 true.

(** ** Copies *)

Definition empty_after (thenReset : bool) (b : beacon) : beacon :=
  if thenReset then put ∅ [] b else b.

Definition CloneOrderedTreasures (thenReset : bool) (b : beacon) : beacon * list treasure :=
  (empty_after thenReset (touch b), map (fun x => copy (deref x)) (treasuresByOrder b)).

Definition CloneUnorderedTreasures (thenReset : bool) (b : beacon) : beacon * gmap bytes treasure :=
  (empty_after thenReset (touch b), (fun x => copy (deref x)) <$> treasuresByKeys b).

(** ** Windows *)

(** [FromTime] and [ToTime] are instants ([Treasure.UnixNano]). *)
Record OrderPosition := {
  From : Z;
  Limit : Z;
  FromTime : option Z;
  ToTime : option Z
}.

Definition getTimestampFromTreasure (b : beacon) (x : loc) : Z :=
  match sortOrder b with
  | Some ByExpirationTimeAsc | Some ByExpirationTimeDesc => GetExpirationTime (deref x)
  | Some ByCreatedAtAsc | Some ByCreatedAtDesc => GetCreatedAt (deref x)
  | Some ByModifiedAtAsc | Some ByModifiedAtDesc => GetModifiedAt (deref x)
  | None => 0
  end.

(** The loop [for l < r]: [right m] tells whether the search goes on right of [m].  The
    distance shrinks in every round, so its first value is fuel enough. *)
Fixpoint search_loop (fuel : nat) (right : loc -> bool) (order : list loc) (l r : nat) : nat :=
  match fuel with
  | O => l
  | S fuel =>
      if decide (l < r)%nat then
        let m := (l + (r - l) / 2)%nat in
        match order !! m with
        | Some x => if right x then search_loop fuel right order (S m) r else search_loop fuel right order l m
        | None => l
        end
      else l
  end.
Definition search (right : loc -> bool) (order : list loc) : nat :=
  search_loop (length order) right order 0 (length order).

Definition isAscending (b : beacon) : bool :=
  match sortOrder b with
  | Some ByExpirationTimeAsc | Some ByCreatedAtAsc | Some ByModifiedAtAsc => true
  | _ => false
  end.

Definition findTimeRangeBounds (fromTime toTime : option Z) (b : beacon) : Z * Z :=
  let order := treasuresByOrder b in
  let n := Z.of_nat (length order) in
  let ts := getTimestampFromTreasure b in
  if n =? 0 then (0, -1) else
  let '(startIdx, endIdx) :=
    if isAscending b then
      (match fromTime with
       | Some f => Z.of_nat (search (fun x => ts x <? UnixNano f) order)
       | None => 0
       end,
       match toTime with
       | Some t => Z.of_nat (search (fun x => ts x <? UnixNano t) order) - 1
       | None => n - 1
       end)
    else
      (match toTime with
       | Some t => Z.of_nat (search (fun x => negb (ts x <? UnixNano t)) order)
       | None => 0
       end,
       match fromTime with
       | Some f => Z.of_nat (search (fun x => negb (ts x <? UnixNano f)) order) - 1
       | None => n - 1
       end) in
  let startIdx := if startIdx <? 0 then 0 else startIdx in
  let endIdx := if endIdx >=? n then n - 1 else endIdx in
  if (startIdx >? endIdx) || (startIdx >=? n) || (endIdx <? 0) then (0, -1) else (startIdx, endIdx).

(** [b.treasuresByOrder[i]] of an [int] index: [None] is the panic. *)
Definition index (l : list loc) (i : Z) : option loc := if i <? 0 then None else l !! Z.to_nat i.

(** The loop that copies [resultSize] elements. *)
Fixpoint copy_loop (l : list loc) (start : Z) (n : nat) : option (list loc) :=
  match n with
  | O => Some []
  | S n => x ← index l start; rest ← copy_loop l (start + 1) n; Some (x :: rest)
  end.

(** [GetManyFromOrderPosition]: [None] is a panic, [Some None] the error "not ordered". *)
Definition GetManyFromOrderPosition (pos : OrderPosition) (b : beacon) : beacon * option (option (list loc)) :=
  let b := touch b in
  if negb (isOrdered b) then (b, Some None) else
  let order := treasuresByOrder b in
  let filtered := is_some (FromTime pos) || is_some (ToTime pos) in
  let '(startIdx, endIdx) :=
    if filtered then findTimeRangeBounds (FromTime pos) (ToTime pos) b
    else (0, Z.of_nat (length order) - 1) in
  if filtered && ((endIdx <? startIdx) || (startIdx <? 0)) then (b, Some (Some [])) else
  let actualStart := i64 (startIdx + From pos) in
  if actualStart >? endIdx then (b, Some (Some [])) else
  let actualEnd :=
    if Limit pos =? 0 then endIdx else
    let e := i64 (i64 (actualStart + Limit pos) - 1) in if e >? endIdx then endIdx else e in
  let resultSize := i64 (actualEnd - actualStart + 1) in
  if resultSize <=? 0 then (b, Some (Some []))
  else (b, Some <$> copy_loop order actualStart (Z.to_nat resultSize)).

(** The loop of [GetManyFromKey]; the counter is an [int32] and a limit that is not positive is
    never met. *)
Fixpoint from_key_loop (fromKey : option bytes) (limit counter : Z) (found : bool) (l : list loc) : list loc :=
  match l with
  | [] => []
  | x :: l =>
      if negb found && match fromKey with Some k => negb (eqd k (key_of x)) | None => false end
      then from_key_loop fromKey limit counter found l
      else if counter + 1 =? limit then [x] else x :: from_key_loop fromKey limit (counter + 1) true l
  end.
Definition GetManyFromKey (fromKey : option bytes) (limit : option Z) (b : beacon) : option (list loc) :=
  if negb (isOrdered b) then None
  else Some (from_key_loop fromKey (default 100 limit) 0 false (treasuresByOrder b)).

(** ** Filtering in place *)

(** The loop of [FilterOrderedTreasures] ranges over the slice as it was, while a removal
    shifts the elements of the same array to the left: [arr] is the array, [len] the length
    the slice has now.  [None] is the panic of [b.treasuresByOrder[index+1:]] beyond it. *)
Fixpoint filter_loop (f : loc -> bool) (howMany : Z) (remove : bool) (n i len : nat) (counter : Z)
    (arr : list loc) (m : gmap bytes loc) : option (list loc * list loc * gmap bytes loc) :=
  match n with
  | O => Some ([], take len arr, m)
  | S n =>
      if counter =? howMany then Some ([], take len arr, m) else
      x ← arr !! i;
      if f x then
        if remove then
          if decide (len < S i)%nat then None else
          let arr' := take i arr ++ take (len - S i) (drop (S i) arr) ++ drop (len - 1) arr in
          '(filtered, order, m) ← filter_loop f howMany remove n (S i) (len - 1) (counter + 1) arr' (delete (key_of x) m);
          Some (x :: filtered, order, m)
        else
          '(filtered, order, m) ← filter_loop f howMany remove n (S i) len (counter + 1) arr m;
          Some (x :: filtered, order, m)
      else filter_loop f howMany remove n (S i) len counter arr m
  end.

(** [None] is the panic, [Some (_, None)] the error "not ordered". *)
Definition FilterOrderedTreasures (f : loc -> bool) (howMany : Z) (remove : bool) (b : beacon) :
    option (beacon * option (list loc)) :=
  if negb (isOrdered b) then Some (b, None) else
  let order := treasuresByOrder b in
  '(filtered, order, m) ← filter_loop f howMany remove (length order) 0 (length order) 0 order (treasuresByKeys b);
  Some (put m order b, Some filtered).
End Beacon.
