(* ===== verification/Views.v ===== *)
(** The two views of a beacon: what its shifts and selections take, and that the map and the
    ordered slice hold the same treasures through every operation. *)
From Stdlib Require Import Sorting.Sorted.
From S2P Require Import Prelude Steps Guard Treasure Beacon.
#[local] Set Warnings "-clear-no-such-hyp".

(** ** Taking from the ordered slice *)

Section Taking.
Implicit Types (p : loc -> bool) (l : list loc).

(** What was taken are the first matches; what is left keeps its order and has every
    non-match and the later matches. *)
Lemma shift_loop_spec p h l : forall c taken rest beyond,
  shift_loop p h c l = (taken, rest, beyond) ->
  taken = take (Z.to_nat (h - c)) (filter (fun x => p x) l) /\
  filter (fun x => p x) rest = drop (Z.to_nat (h - c)) (filter (fun x => p x) l) /\
  filter (fun x => negb (p x)) rest = filter (fun x => negb (p x)) l /\
  rest `sublist_of` l /\ taken ++ rest ≡ₚ l /\
  beyond = Z.of_nat (length (filter (fun x => p x) rest)).
Proof.
  induction l as [|x l IH]; intros c taken rest beyond; cbn [shift_loop].
  - intros [= <- <- <-]. cbn. rewrite take_nil, drop_nil. by split_and!.
  - rewrite !filter_cons. destruct (p x) eqn:Hp; cbn [andb negb].
    + rewrite (decide_True (P := true)), (decide_False (P := false)) by naive_solver.
      destruct (Z.ltb_spec c h) as [Hc|Hc].
      * destruct (shift_loop p h (c + 1) l) as [[t r] b] eqn:Hs. intros [= <- <- <-].
        destruct (IH _ _ _ _ Hs) as (-> & Hr & Hn & Hsub & Hperm & Hb).
        replace (Z.to_nat (h - c)) with (S (Z.to_nat (h - (c + 1)))) by lia. cbn [take drop].
        split_and!; [done..|by constructor|by apply Permutation_skip|done].
      * destruct (shift_loop p h c l) as [[t r] b] eqn:Hs. intros [= <- <- <-].
        destruct (IH _ _ _ _ Hs) as (-> & Hr & Hn & Hsub & Hperm & Hb).
        replace (Z.to_nat (h - c)) with O in * by lia. cbn [take drop] in *.
        rewrite !filter_cons, Hp. rewrite (decide_True (P := true)), (decide_False (P := negb true)) by naive_solver.
        split_and!; [done|by rewrite Hr|done|by constructor|by apply Permutation_skip|]. cbn [length]. lia.
    + rewrite (decide_False (P := false)), (decide_True (P := true)) by naive_solver.
      destruct (shift_loop p h c l) as [[t r] b] eqn:Hs. intros [= <- <- <-].
      destruct (IH _ _ _ _ Hs) as (-> & Hr & Hn & Hsub & Hperm & Hb).
      rewrite !filter_cons, Hp. rewrite (decide_False (P := false)), (decide_True (P := negb false)) by naive_solver.
      split_and!; [done..|by rewrite Hn|by constructor| |done].
      rewrite <- Permutation_middle. by apply Permutation_skip.
Qed.
End Taking.

(** ** Operations and the invariant *)

Section Views.
Context `{HR : KeyRange} `{HROk : !KeyRangeOk} `{HS : SortSlice} `{HSOk : !SortSliceOk}.

(** The key of a treasure does not change while it is in a beacon. *)
Variable key : loc -> bytes.

(** The map sends a key to a treasure with that key; the slice of an ordered beacon holds the
    treasures of the map, each once; that of an unordered one is empty. *)
Record views_ok (b : beacon) : Prop := {
  vo_keys k l : treasuresByKeys b !! k = Some l -> key l = k;
  vo_NoDup : NoDup (treasuresByOrder b);
  vo_order l : l ∈ treasuresByOrder b <-> isOrdered b = true /\ treasuresByKeys b !! key l = Some l
}.

Inductive op : Type :=
| OTouch
| OAdd (d : loc)
| ODelete (k : bytes)
| OShiftOne (k : bytes)
| OShiftMany (n : Z)
| OShiftExpired (n now : Z)
| OShiftMatching (n : Z) (p cap : option (loc -> bool)) (capMax : Z)
| OPush (m : gmap bytes loc)
| OReset
| OInit (init : bool)
| OOrdered (o : bool)
| OCloneOrdered (reset : bool)
| OCloneUnordered (reset : bool)
| OSortTime (sets_first desc : bool) (o : SortOrder) (time : treasure -> Z)
| OSortKey (desc : bool)
| OSortValue {A : Type} (lt : A -> A -> bool) (get : treasure -> option A) (desc : bool)
| OSortInt64 (desc : bool).

(** An operation, with the objects as they are when it runs. *)
Definition apply (deref : loc -> treasure) (o : op) (b : beacon) : beacon :=
  match o with
  | OTouch => (Count b).1
  | OAdd d => Add deref d b
  | ODelete k => Delete deref k b
  | OShiftOne k => (ShiftOne deref k b).1
  | OShiftMany n => (ShiftMany deref n b).1
  | OShiftExpired n now => (ShiftExpired deref n now b).1
  | OShiftMatching n p cap capMax => (ShiftMatching deref n p cap capMax b).1.1
  | OPush m => PushManyFromMap m b
  | OReset => Reset b
  | OInit i => SetInitialized i b
  | OOrdered o => SetIsOrdered o b
  | OCloneOrdered r => (CloneOrderedTreasures deref r b).1
  | OCloneUnordered r => (CloneUnorderedTreasures deref r b).1
  | OSortTime s d o time => (sort_by_time deref s d o time b).1
  | OSortKey d => (sort_by_key deref d b).1
  | OSortValue lt get d => (sort_by_value deref lt get d b).1
  | OSortInt64 d => (sort_by_int64 deref d b).1
  end.

(** Treasures pushed as a map are filed under their keys, and are new. *)
Definition op_ok (o : op) (b : beacon) : Prop :=
  match o with
  | OPush m => (forall k l, m !! k = Some l -> key l = k) /\ m ##ₘ treasuresByKeys b
  | _ => True
  end.

Definition keys_stable (deref : loc -> treasure) : Prop := forall l, key_of deref l = key l.

Lemma views_put m l b :
  views_ok b ->
  (forall k x, m !! k = Some x -> key x = k) -> NoDup l ->
  (forall x, x ∈ l <-> isOrdered b = true /\ m !! key x = Some x) ->
  views_ok (put m l b).
Proof. intros Hb Hk Hn Ho. by constructor. Qed.

Lemma views_touch b : views_ok b -> views_ok (touch b).
Proof. intros []. by constructor. Qed.

Lemma views_inj b x y :
  views_ok b -> x ∈ treasuresByOrder b -> y ∈ treasuresByOrder b -> key x = key y -> x = y.
Proof.
  intros Hb Hx Hy Hk. apply (vo_order b Hb) in Hx as [_ Hx], Hy as [_ Hy]. congruence.
Qed.

(** A map seen as a list. *)
Lemma range_values (m : gmap bytes loc) :
  (forall k x, m !! k = Some x -> key x = k) ->
  NoDup (key_range m).*2 /\ (forall x, x ∈ (key_range m).*2 <-> m !! key x = Some x).
Proof.
  intros Hk. assert (Hel : forall k x, (k, x) ∈ key_range m <-> m !! k = Some x).
  { intros k x. rewrite key_range_perm. apply elem_of_map_to_list. }
  split.
  - apply NoDup_fmap_2_strong.
    + intros [k x] [k' x'] Hx Hx' Heq. cbn in Heq. subst x'. apply Hel, Hk in Hx. apply Hel, Hk in Hx'.
      congruence.
    + rewrite key_range_perm. apply NoDup_map_to_list.
  - intros x. rewrite list_elem_of_fmap. split.
    + intros ([k y] & -> & Hx). apply Hel in Hx. cbn. by rewrite (Hk k y Hx).
    + intros Hx. exists (key x, x). split; [done|]. by apply Hel.
Qed.

Lemma views_new : views_ok New.
Proof.
  constructor; cbn; [done|constructor|]. intros l. rewrite elem_of_nil. split; [done|]. by intros [? _].
Qed.

Section Deref.
Variable deref : loc -> treasure.
Hypothesis Hkey : keys_stable deref.

Lemma remove_key_spec k l :
  (forall x y, x ∈ l -> y ∈ l -> key x = key y -> x = y) -> NoDup l ->
  NoDup (remove_key deref k l) /\ (forall x, x ∈ remove_key deref k l <-> x ∈ l /\ key x <> k).
Proof.
  induction l as [|y l IH]; intros Hinj Hnd; cbn.
  - split; [constructor|]. intros x. rewrite elem_of_nil. tauto.
  - apply NoDup_cons in Hnd as [Hy Hnd]. rewrite Hkey. destruct (decide (key y = k)) as [<-|Hne].
    + split; [done|]. intros x. rewrite elem_of_cons. split.
      * intros Hx. split; [by right|]. intros Heq. apply Hy.
        rewrite <- (Hinj x y); [done|set_solver|set_solver|done].
      * intros [[->|?] ?]; done.
    + destruct IH as [Hn Hel]; [intros; apply Hinj; set_solver|done|]. split.
      * constructor; [|done]. rewrite Hel. tauto.
      * intros x. rewrite !elem_of_cons, Hel. split; [intros [->|?]; tauto|]. intros [[->|?] ?]; tauto.
Qed.

Lemma delete_all_lookup taken : forall m k,
  delete_all deref taken m !! k = if decide (k ∈ map key taken) then None else m !! k.
Proof.
  unfold delete_all. induction taken as [|x taken IH]; intros m k; cbn [foldl map].
  - rewrite decide_False by apply not_elem_of_nil. done.
  - rewrite IH, Hkey. destruct (decide (k ∈ map key taken)) as [Hin|Hin].
    + rewrite decide_True by set_solver. done.
    + destruct (decide (k = key x)) as [->|Hne].
      * rewrite decide_True by set_solver. apply lookup_delete_eq.
      * rewrite decide_False by set_solver. by apply lookup_delete_ne.
Qed.

Lemma delete_all_Some taken m k x :
  delete_all deref taken m !! k = Some x <-> (k ∉ map key taken) /\ m !! k = Some x.
Proof. rewrite delete_all_lookup. destruct (decide _); naive_solver. Qed.

Lemma views_shift p n b : views_ok b -> views_ok (shift deref p n b).1.1.
Proof.
  intros Hb. unfold shift. destruct (shift_loop p n 0 (treasuresByOrder b)) as [[taken rest] beyond] eqn:Hs.
  destruct (shift_loop_spec _ _ _ _ _ _ _ Hs) as (_ & _ & _ & Hsub & Hperm & _). cbn.
  assert (Hnd : NoDup (taken ++ rest)) by (rewrite Hperm; apply (vo_NoDup b Hb)).
  assert (Hel : forall x, x ∈ treasuresByOrder b <-> x ∈ taken \/ x ∈ rest)
    by (intros x; by rewrite <- Hperm, elem_of_app).
  apply NoDup_app in Hnd as (_ & Hdis & Hnr). apply views_put; [done| |done|].
  - intros k x [_ Hx]%delete_all_Some. by apply (vo_keys b Hb).
  - intros x. rewrite delete_all_Some. split.
    + intros Hx. assert (Hxo : x ∈ treasuresByOrder b) by (apply Hel; by right).
      pose proof (proj1 (vo_order b Hb x) Hxo) as [Ho Hm]. split_and!; [done| |done].
      intros Hin. apply list_elem_of_fmap in Hin as (y & Hky & Hy).
      apply (Hdis y Hy). rewrite <- (views_inj b x y Hb); [done..|apply Hel; by left|done].
    + intros (Ho & Hnk & Hm). assert (Hxo : x ∈ treasuresByOrder b) by (by apply (vo_order b Hb)).
      apply Hel in Hxo as [Hx|Hx]; [|done]. destruct Hnk. apply list_elem_of_fmap. by exists x.
Qed.

(** Removing a key from the map and, when the beacon is ordered, from the slice. *)
Lemma views_remove k b :
  views_ok b ->
  views_ok (put (delete k (treasuresByKeys b))
    (if isOrdered b then remove_key deref k (treasuresByOrder b) else treasuresByOrder b) b).
Proof.
  intros Hb. destruct (remove_key_spec k (treasuresByOrder b)) as [Hnd Hel].
  { intros x y. by apply views_inj. } { apply (vo_NoDup b Hb). }
  assert (Hord := vo_order b Hb). apply views_put; [done|..].
  - intros k' x [_ Hx]%lookup_delete_Some. by apply (vo_keys b Hb).
  - destruct (isOrdered b); [done|]. apply (vo_NoDup b Hb).
  - intros x. rewrite lookup_delete_Some. destruct (isOrdered b).
    + rewrite Hel, Hord. naive_solver.
    + rewrite Hord. naive_solver.
Qed.

Lemma views_perm l b : views_ok b -> l ≡ₚ treasuresByOrder b -> views_ok (put (treasuresByKeys b) l b).
Proof.
  intros Hb Hl. apply views_put; [done|apply (vo_keys b Hb)|rewrite Hl; apply (vo_NoDup b Hb)|].
  intros x. rewrite Hl. apply (vo_order b Hb).
Qed.

Lemma views_put_order o b : views_ok b -> views_ok (put_order o b).
Proof. intros []. by constructor. Qed.

Lemma views_sort less b : views_ok b -> views_ok (sort_by less b).
Proof. intros Hb. apply views_perm; [done|]. apply sort_slice_perm. Qed.

Lemma insert_stable_perm {A} (less : A -> A -> bool) x l : insert_stable less x l ≡ₚ x :: l.
Proof.
  induction l as [|y l IH]; [done|]. cbn. destruct (less x y); [done|]. rewrite IH. constructor.
Qed.

Lemma sort_stable_perm {A} (less : A -> A -> bool) l : forall acc, sort_stable less acc l ≡ₚ acc ++ l.
Proof.
  induction l as [|x l IH]; intros acc; cbn; [by rewrite app_nil_r|].
  rewrite IH, insert_stable_perm. by rewrite <- Permutation_middle.
Qed.

Lemma int64_items_snd l items :
  int64_items deref l = Some items ->
  items.*2 = l /\ Forall (fun i => GetContentInt64 (deref i.2) = Some i.1) items.
Proof.
  revert items. induction l as [|x l IH]; intros items; cbn.
  - by intros [= <-].
  - destruct (GetContentInt64 (deref x)) as [v|] eqn:Hv; [|done]. cbn.
    destruct (int64_items deref l) as [rest|]; [|done]. cbn. intros [= <-].
    destruct (IH rest eq_refl) as [<- Hf]. by split; [|constructor].
Qed.

Lemma views_int64 desc b : views_ok b -> views_ok (sort_by_int64 deref desc b).1.
Proof.
  intros Hb. unfold sort_by_int64. destruct (negb (isOrdered b)); [done|].
  destruct (int64_items deref (treasuresByOrder b)) as [items|] eqn:Hi; [|done].
  apply int64_items_snd in Hi as [Hi _]. apply views_perm; [done|]. rewrite <- Hi.
  by rewrite sort_stable_perm.
Qed.

Lemma views_push m b :
  views_ok b -> (forall k l, m !! k = Some l -> key l = k) -> m ##ₘ treasuresByKeys b ->
  views_ok (PushManyFromMap m b).
Proof.
  intros Hb Hm Hd. destruct (range_values m Hm) as [Hn Hel].
  assert (Hu : forall k x, (m ∪ treasuresByKeys b) !! k = Some x <-> m !! k = Some x \/ treasuresByKeys b !! k = Some x)
    by (intros k x; by apply lookup_union_Some).
  assert (Hord := vo_order b Hb). apply views_put; [done|..].
  - intros k x [Hx|Hx]%Hu; [by apply Hm|by apply (vo_keys b Hb)].
  - destruct (isOrdered b); [|apply (vo_NoDup b Hb)].
    apply NoDup_app. split_and!; [apply (vo_NoDup b Hb)| |done].
    intros x [_ Hx]%Hord Hx'%Hel. eapply map_disjoint_spec; eauto.
  - intros x. rewrite Hu. destruct (isOrdered b); [rewrite elem_of_app, Hel|]; rewrite Hord; naive_solver.
Qed.

Lemma views_ordered o b : views_ok b -> views_ok (SetIsOrdered o b).
Proof.
  intros Hb. unfold SetIsOrdered. destruct (decide (isOrdered b = o)) as [|Hne]; [done|].
  destruct (range_values (treasuresByKeys b) (vo_keys b Hb)) as [Hn Hel].
  assert (Hord := vo_order b Hb). constructor; cbn.
  - apply (vo_keys b Hb).
  - destruct o; [|constructor]. apply NoDup_app. split_and!; [apply (vo_NoDup b Hb)| |done].
    intros x [Ho _]%Hord. by destruct Hne.
  - intros x. destruct o; [rewrite elem_of_app, Hel, Hord|rewrite elem_of_nil; naive_solver].
    destruct (isOrdered b); [done|]. naive_solver.
Qed.

Lemma views_add d b : views_ok b -> views_ok (Add deref d b).
Proof.
  intros Hb%views_touch. unfold Add. destruct (treasuresByKeys (touch b) !! key_of deref d) eqn:Hd; [done|].
  rewrite Hkey in *. assert (Hord := vo_order _ Hb).
  assert (Hfresh : d ∉ treasuresByOrder (touch b)) by (rewrite Hord; naive_solver).
  change (isOrdered b) with (isOrdered (touch b)) in *.
  set (b1 := touch b) in *. apply views_put; [done|..].
  - intros k x [[<- <-]|[_ Hx]]%lookup_insert_Some; [done|]. by apply (vo_keys b1 Hb).
  - destruct (isOrdered b1); [|apply (vo_NoDup b1 Hb)].
    apply NoDup_app. split_and!; [apply (vo_NoDup b1 Hb)| |apply NoDup_singleton]. set_solver.
  - intros x. rewrite lookup_insert_Some.
    destruct (isOrdered b1); [rewrite elem_of_app, list_elem_of_singleton|]; rewrite Hord; [|naive_solver].
    split.
    + intros [[_ Hx]| ->]; [|naive_solver]. split; [done|]. right. split; [congruence|done].
    + intros [_ [[_ ->]|[_ Hx]]]; [by right|by left].
Qed.

(** Every operation keeps the two views in agreement. *)
Lemma apply_ok o b : views_ok b -> op_ok o b -> views_ok (apply deref o b).
Proof.
  intros Hb Ho. destruct o; cbn [apply op_ok] in *.
  - by apply views_touch.
  - by apply views_add.
  - by apply (views_remove k (touch b)), views_touch.
  - unfold ShiftOne. destruct (treasuresByKeys (touch b) !! k) as [d|]; cbn; [|by apply views_touch].
    by apply (views_remove k (touch b)), views_touch.
  - by apply views_shift, views_touch.
  - by apply views_shift, views_touch.
  - unfold ShiftMatching. destruct p as [p|]; [|by apply views_touch].
    destruct (n <=? 0); [by apply views_touch|].
    destruct (cap_budget cap capMax n (touch b)) as [[effective bounded]|]; [|by apply views_touch].
    pose proof (views_shift p effective (touch b) (views_touch b Hb)) as Hs.
    by destruct (shift deref p effective (touch b)) as [[b' shifted] beyond].
  - destruct Ho. by apply views_push.
  - constructor; cbn; [done|constructor|]. intros x. rewrite elem_of_nil. naive_solver.
  - destruct Hb. by constructor.
  - by apply views_ordered.
  - destruct reset; [|by apply views_touch].
    constructor; cbn; [done|constructor|]. intros x. rewrite elem_of_nil. naive_solver.
  - destruct reset; [|by apply views_touch].
    constructor; cbn; [done|constructor|]. intros x. rewrite elem_of_nil. naive_solver.
  - unfold sort_by_time. destruct (negb (isOrdered b)); [by destruct sets_first; [apply views_put_order|]|].
    by apply views_put_order, views_sort.
  - unfold sort_by_key. destruct (negb (isOrdered b)); [done|]. by apply views_sort.
  - unfold sort_by_value. destruct (negb (isOrdered b)); [done|]. by apply views_sort.
  - by apply views_int64.
Qed.
End Deref.

(** A run: every operation with the objects of its moment. *)
Inductive runs : list ((loc -> treasure) * op) -> beacon -> beacon -> Prop :=
| runs_nil b : runs [] b b
| runs_cons deref o ops b b' :
    keys_stable deref -> op_ok o b -> runs ops (apply deref o b) b' -> runs ((deref, o) :: ops) b b'.

Lemma runs_ok ops b b' : runs ops b b' -> views_ok b -> views_ok b'.
Proof. induction 1; [done|]. intros Hb. apply IHruns. by apply apply_ok. Qed.
End Views.

(** ** A sort for the examples *)

Section Insertion.
Variable less : loc -> loc -> bool.
Implicit Types l : list loc.

Definition sorted_by l : Prop := StronglySorted (fun x y => less y x = false) l.

Lemma sorted_in_order l : sorted_by l -> in_order less l.
Proof.
  induction 1 as [|a l Hl IH Ha]; intros i j x y Hij Hi Hj; [done|].
  destruct j as [|j]; [lia|]. cbn in Hj. destruct i as [|i]; cbn in Hi.
  - injection Hi as ->. rewrite Forall_forall in Ha. apply Ha. by eapply list_elem_of_lookup_2.
  - apply (IH i j); [lia|done..].
Qed.

Lemma insert_stable_elem x l y : y ∈ insert_stable less x l <-> y = x \/ y ∈ l.
Proof. rewrite insert_stable_perm. apply elem_of_cons. Qed.

Lemma insert_sorted (dom : list loc) x l :
  strict_weak less dom -> x ∈ dom -> (forall y, y ∈ l -> y ∈ dom) -> sorted_by l -> sorted_by (insert_stable less x l).
Proof.
  intros Hw Hx Hdom. induction 1 as [|a l Hl IH Ha]; cbn; [repeat constructor|].
  rewrite Forall_forall in Ha. destruct (less x a) eqn:Hxa.
  - constructor; [by constructor; [|apply Forall_forall]|]. apply Forall_forall.
    intros z Hz. apply not_true_is_false. intros Hzx.
    assert (Hza : less z a = true).
    { apply (sw_trans less dom Hw z x a); try done; apply Hdom; set_solver. }
    apply elem_of_cons in Hz as [->|Hz]; [|by rewrite (Ha z Hz) in Hza].
    rewrite (sw_irrefl less dom Hw a) in Hza; [done|]. apply Hdom. set_solver.
  - constructor; [apply IH; intros; apply Hdom; set_solver|].
    apply Forall_forall. intros z [->|Hz]%insert_stable_elem; [done|]. by apply Ha.
Qed.

Lemma sort_stable_sorted (dom : list loc) l : forall acc,
  strict_weak less dom -> (forall y, y ∈ l -> y ∈ dom) -> (forall y, y ∈ acc -> y ∈ dom) ->
  sorted_by acc -> sorted_by (sort_stable less acc l).
Proof.
  induction l as [|x l IH]; intros acc Hw Hl Hacc Hs; cbn; [done|].
  apply IH; [done|set_solver| |].
  - intros y [->|Hy]%insert_stable_elem; [set_solver|by apply Hacc].
  - apply (insert_sorted dom); [done|set_solver|done..].
Qed.
End Insertion.

Lemma stable_sort_ok : @SortSliceOk (fun less l => sort_stable less [] l).
Proof.
  split.
  - intros less l. unfold sort_slice. by rewrite sort_stable_perm.
  - intros less l Hw. apply sorted_in_order, (sort_stable_sorted less l); try done; [set_solver|constructor].
Qed.
