(* ===== verification/Windows.v ===== *)
(** Reading a window of a sorted beacon: the binary searches, the bounds they give, and the
    page that is copied. *)
From S2P Require Import Prelude Steps Guard Treasure Beacon Views.
#[local] Set Warnings "-clear-no-such-hyp".

(** ** Predicates that hold on a prefix *)

Definition prefix_closed (p : loc -> bool) (l : list loc) : Prop :=
  forall i j x y, (i < j)%nat -> l !! i = Some x -> l !! j = Some y -> p y = true -> p x = true.

Definition count (p : loc -> bool) (l : list loc) : nat := length (filter (fun x => p x) l).

Lemma prefix_closed_tail p x l : prefix_closed p (x :: l) -> prefix_closed p l.
Proof. intros Hp i j y z Hij Hi Hj. apply (Hp (S i) (S j) y z); [lia|done..]. Qed.

Lemma filter_bool_cons (p : loc -> bool) x l :
  filter (fun x => p x) (x :: l) = if p x then x :: filter (fun x => p x) l else filter (fun x => p x) l.
Proof. rewrite filter_cons. by destruct (p x). Qed.

Lemma count_cons p x l : count p (x :: l) = ((if p x then 1 else 0) + count p l)%nat.
Proof.
  unfold count. rewrite filter_bool_cons. by destruct (p x).
Qed.

Lemma prefix_index p l i x :
  prefix_closed p l -> l !! i = Some x -> p x = bool_decide (i < count p l)%nat.
Proof.
  revert i. induction l as [|y l IH]; intros i Hp Hi; [done|]. rewrite count_cons.
  destruct i as [|i]; cbn in Hi.
  - injection Hi as ->. destruct (p x) eqn:Hx; [by rewrite bool_decide_true by lia|].
    enough (count p l = O) as -> by (by rewrite bool_decide_false by lia).
    unfold count. destruct (filter (fun x => p x) l) as [|z r] eqn:Hf; [done|].
    assert (Hz : z ∈ filter (fun x => p x) l) by (rewrite Hf; set_solver).
    apply list_elem_of_filter in Hz as [Hz Hin]. apply list_elem_of_lookup in Hin as [j Hj].
    enough (p x = true) by congruence. apply (Hp O (S j) x z); [lia|done|done|]. by apply Is_true_true.
  - rewrite (IH i (prefix_closed_tail _ _ _ Hp) Hi). destruct (p y) eqn:Hy.
    + apply bool_decide_ext. lia.
    + assert (Hx : p x = false).
      { apply not_true_is_false. intros Hx. enough (p y = true) by congruence.
        apply (Hp O (S i) y x); [lia|done..]. }
      rewrite (IH i (prefix_closed_tail _ _ _ Hp) Hi) in Hx. apply bool_decide_eq_false in Hx.
      by rewrite !bool_decide_false by lia.
Qed.

Lemma filter_range (q : loc -> bool) l : forall a b,
  (forall i x, l !! i = Some x -> q x = bool_decide (a <= i /\ i < b)%nat) ->
  filter (fun x => q x) l = take (b - a) (drop a l).
Proof.
  induction l as [|y l IH]; intros a b Hq; [by rewrite drop_nil, take_nil|].
  pose proof (Hq O y eq_refl) as Hy.
  assert (Htl : filter (fun x => q x) l = take (pred b - pred a) (drop (pred a) l)).
  { apply IH. intros i x Hi. rewrite (Hq (S i) x Hi). apply bool_decide_ext. lia. }
  rewrite filter_bool_cons, Htl, Hy. destruct a as [|a]; cbn [pred drop] in *.
  - destruct b as [|b].
    + by rewrite bool_decide_false by lia.
    + rewrite bool_decide_true by lia. cbn. by rewrite Nat.sub_0_r, drop_0.
  - rewrite bool_decide_false by lia. f_equal. lia.
Qed.

(** ** The binary search *)

Lemma search_loop_spec right order k fuel : forall l r,
  (forall i x, order !! i = Some x -> right x = bool_decide (i < k)%nat) ->
  (l <= k <= r)%nat -> (r <= length order)%nat -> (r - l <= fuel)%nat ->
  search_loop fuel right order l r = k.
Proof.
  induction fuel as [|fuel IH]; intros l r Hr Hk Hlen Hf; cbn [search_loop]; [lia|].
  destruct (decide (l < r)%nat) as [Hlt|]; [|lia].
  assert (Hm : ((r - l) / 2 < r - l)%nat) by (apply Nat.div_lt; lia).
  set (m := (l + (r - l) / 2)%nat) in *.
  destruct (lookup_lt_is_Some_2 order m) as [x Hx]; [lia|]. rewrite Hx, (Hr m x Hx).
  destruct (bool_decide_reflect (m < k)%nat); apply IH; try done; lia.
Qed.

Lemma count_le p l : (count p l <= length l)%nat.
Proof. apply length_filter. Qed.

Lemma search_spec p order : prefix_closed p order -> search p order = count p order.
Proof.
  intros Hp. apply search_loop_spec; [|pose proof (count_le p order); lia|lia|lia].
  intros i x. by apply prefix_index.
Qed.

(** ** The page *)

Lemma index_lookup l (i : nat) : index l (Z.of_nat i) = l !! i.
Proof. unfold index. destruct (Z.ltb_spec (Z.of_nat i) 0); [lia|]. by rewrite Nat2Z.id. Qed.

Lemma copy_loop_spec l n : forall start,
  (start + n <= length l)%nat -> copy_loop l (Z.of_nat start) n = Some (take n (drop start l)).
Proof.
  induction n as [|n IH]; intros start Hle; [done|]. cbn [copy_loop]. rewrite index_lookup.
  destruct (lookup_lt_is_Some_2 l start) as [x Hx]; [lia|]. rewrite Hx. cbn.
  replace (Z.of_nat start + 1) with (Z.of_nat (S start)) by lia. rewrite IH by lia. cbn.
  by rewrite (drop_S l x start Hx).
Qed.

(** A page of a list: skip [From], then at most [Limit], where 0 is no limit. *)
Definition page (pos : OrderPosition) (l : list loc) : list loc :=
  let rest := drop (Z.to_nat (From pos)) l in
  if Limit pos =? 0 then rest else take (Z.to_nat (Limit pos)) rest.

(** The elements of a sorted beacon inside the half-open window. *)
Definition in_window (b : beacon) (deref : loc -> treasure) (from_ to_ : option Z) (x : loc) : bool :=
  let ts := getTimestampFromTreasure deref b x in
  match from_ with Some f => UnixNano f <=? ts | None => true end &&
  match to_ with Some t => ts <? UnixNano t | None => true end.

Section Window.
Variable deref : loc -> treasure.
Variable b : beacon.

Abbreviation ts := (getTimestampFromTreasure deref b).

(** The slice is sorted by the time its sort order names. *)
Definition time_ordered : Prop :=
  forall i j x y, (i < j)%nat -> treasuresByOrder b !! i = Some x -> treasuresByOrder b !! j = Some y ->
    if isAscending b then ts x <= ts y else ts y <= ts x.

Hypothesis Hsorted : time_ordered.

Lemma below_prefix v : isAscending b = true -> prefix_closed (fun x => ts x <? v) (treasuresByOrder b).
Proof.
  intros Ha i j x y Hij Hi Hj Hy. pose proof (Hsorted i j x y Hij Hi Hj) as Hle. rewrite Ha in Hle. lia.
Qed.

Lemma above_prefix v : isAscending b = false -> prefix_closed (fun x => negb (ts x <? v)) (treasuresByOrder b).
Proof.
  intros Ha i j x y Hij Hi Hj Hy. pose proof (Hsorted i j x y Hij Hi Hj) as Hle. rewrite Ha in Hle. lia.
Qed.

(** The first index of the window and the one after its last, before normalisation. *)
Definition bounds (from_ to_ : option Z) : nat * nat :=
  let order := treasuresByOrder b in
  if isAscending b then
    (match from_ with Some f => count (fun x => ts x <? UnixNano f) order | None => O end,
     match to_ with Some t => count (fun x => ts x <? UnixNano t) order | None => length order end)
  else
    (match to_ with Some t => count (fun x => negb (ts x <? UnixNano t)) order | None => O end,
     match from_ with Some f => count (fun x => negb (ts x <? UnixNano f)) order | None => length order end).

Lemma bounds_le from_ to_ : ((bounds from_ to_).1 <= length (treasuresByOrder b) /\
  (bounds from_ to_).2 <= length (treasuresByOrder b))%nat.
Proof.
  unfold bounds. pose proof (fun p => count_le p (treasuresByOrder b)) as Hle.
  destruct (isAscending b), from_, to_; cbn; split; try apply Hle; lia.
Qed.

Lemma findTimeRangeBounds_bounds from_ to_ :
  findTimeRangeBounds deref from_ to_ b =
  let '(s, e) := bounds from_ to_ in if decide (s < e)%nat then (Z.of_nat s, Z.of_nat e - 1) else (0, -1).
Proof.
  pose proof (bounds_le from_ to_) as Hle. unfold findTimeRangeBounds.
  set (n := Z.of_nat (length (treasuresByOrder b))) in *.
  replace (if isAscending b then _ else _) with
    (Z.of_nat (bounds from_ to_).1, Z.of_nat (bounds from_ to_).2 - 1).
  - destruct (bounds from_ to_) as [s e]. cbn [fst snd] in *.
    destruct (Z.eqb_spec n 0) as [Hz|Hz]; [rewrite decide_False by lia; done|].
    destruct (Z.ltb_spec (Z.of_nat s) 0); [lia|].
    rewrite Z.geb_leb, Z.gtb_ltb. destruct (Z.leb_spec n (Z.of_nat e - 1)); [lia|].
    rewrite Z.geb_leb. destruct (decide (s < e)%nat) as [Hse|Hse].
    + by rewrite (proj2 (Z.ltb_ge _ _)), (proj2 (Z.leb_gt _ _)), (proj2 (Z.ltb_ge _ _)) by lia.
    + by rewrite (proj2 (Z.ltb_lt (Z.of_nat e - 1) (Z.of_nat s))) by lia.
  - unfold bounds. destruct (isAscending b) eqn:Ha.
    + destruct from_, to_; cbn [fst snd]; rewrite ?search_spec by (by apply below_prefix); done.
    + destruct from_, to_; cbn [fst snd]; rewrite ?search_spec by (by apply above_prefix); done.
Qed.

(** The window is a slice of the sorted treasures. *)
Lemma window_slice from_ to_ :
  filter (fun x => in_window b deref from_ to_ x) (treasuresByOrder b) =
  take ((bounds from_ to_).2 - (bounds from_ to_).1) (drop (bounds from_ to_).1 (treasuresByOrder b)).
Proof.
  apply filter_range. intros i x Hi. unfold in_window, bounds.
  assert (Hlen : (i < length (treasuresByOrder b))%nat) by (by eapply lookup_lt_Some).
  assert (Hup : forall v, isAscending b = true ->
    ts x < v <-> (i < count (fun x => (ts x <? v)%Z) (treasuresByOrder b))%nat).
  { intros v Ha. pose proof (prefix_index _ _ i x (below_prefix v Ha) Hi) as Hp. cbn beta in Hp.
    rewrite <- Z.ltb_lt, Hp. apply bool_decide_eq_true. }
  assert (Hdn : forall v, isAscending b = false ->
    v <= ts x <-> (i < count (fun x => negb (ts x <? v)%Z) (treasuresByOrder b))%nat).
  { intros v Ha. pose proof (prefix_index _ _ i x (above_prefix v Ha) Hi) as Hp. cbn beta in Hp.
    rewrite <- Z.ltb_ge, <- negb_true_iff, Hp. apply bool_decide_eq_true. }
  apply Bool.eq_iff_eq_true. rewrite bool_decide_eq_true.
  destruct (isAscending b); [clear Hdn|clear Hup]; destruct from_ as [f|], to_ as [t|]; cbn [fst snd];
    try pose proof (Hup (UnixNano f) eq_refl); try pose proof (Hup (UnixNano t) eq_refl);
    try pose proof (Hdn (UnixNano f) eq_refl); try pose proof (Hdn (UnixNano t) eq_refl);
    rewrite ?andb_true_iff, ?Z.leb_le, ?Z.ltb_lt; lia.
Qed.

Lemma window_all : filter (fun x => in_window b deref None None x) (treasuresByOrder b) = treasuresByOrder b.
Proof. induction (treasuresByOrder b) as [|x l IH]; [done|]. by rewrite filter_bool_cons, IH. Qed.

Lemma in_i64 z : - 2 ^ 63 <= z < 2 ^ 63 -> i64 z = z.
Proof. intros Hz. unfold i64. rewrite Z.mod_small; lia. Qed.

(** Copying a page of a slice of the treasures. *)
Lemma page_slice pos (s e : nat) :
  (s < e <= length (treasuresByOrder b))%nat -> 0 <= From pos -> 0 <= Limit pos ->
  From pos + Limit pos + Z.of_nat (length (treasuresByOrder b)) < 2 ^ 63 ->
  let actualStart := i64 (Z.of_nat s + From pos) in
  let actualEnd := if Limit pos =? 0 then Z.of_nat e - 1 else
    let x := i64 (i64 (actualStart + Limit pos) - 1) in
    if x >? Z.of_nat e - 1 then Z.of_nat e - 1 else x in
  let resultSize := i64 (actualEnd - actualStart + 1) in
  (if actualStart >? Z.of_nat e - 1 then Some [] else
   if resultSize <=? 0 then Some [] else copy_loop (treasuresByOrder b) actualStart (Z.to_nat resultSize)) =
  Some (page pos (take (e - s) (drop s (treasuresByOrder b)))).
Proof.
  intros Hse Hf Hl Hb. cbv zeta. rewrite (in_i64 (Z.of_nat s + From pos)) by lia.
  rewrite (in_i64 (Z.of_nat s + From pos + Limit pos)) by lia.
  rewrite (in_i64 (Z.of_nat s + From pos + Limit pos - 1)) by lia. rewrite !Z.gtb_ltb.
  assert (Hpage : page pos (take (e - s) (drop s (treasuresByOrder b))) =
    take (if Limit pos =? 0 then e - s - Z.to_nat (From pos)
          else Z.to_nat (Limit pos) `min` (e - s - Z.to_nat (From pos)))
      (drop (Z.to_nat (Z.of_nat s + From pos)) (treasuresByOrder b))).
  { unfold page. replace (Z.to_nat (Z.of_nat s + From pos)) with (s + Z.to_nat (From pos))%nat by lia.
    rewrite <- drop_drop, skipn_firstn_comm. destruct (Limit pos =? 0); [done|]. by rewrite take_take. }
  rewrite Hpage. destruct (Z.ltb_spec (Z.of_nat e - 1) (Z.of_nat s + From pos)) as [Hout|Hin].
  - replace (e - s - Z.to_nat (From pos))%nat with O by lia.
    destruct (Limit pos =? 0); by rewrite ?Nat.min_0_r.
  - destruct (Z.eqb_spec (Limit pos) 0) as [Hz|Hz];
      [|destruct (Z.ltb_spec (Z.of_nat e - 1) (Z.of_nat s + From pos + Limit pos - 1))];
      rewrite in_i64 by lia; rewrite (proj2 (Z.leb_gt _ _)) by lia;
      rewrite <- (Z2Nat.id (Z.of_nat s + From pos)) at 1 by lia;
      rewrite copy_loop_spec by lia; do 2 f_equal; lia.
Qed.

Lemma results (x y : bool) (c : option (list loc)) :
  (if x then (touch b, Some (Some [])) else
   if y then (touch b, Some (Some [])) else (touch b, Some <$> c)).2 =
  Some <$> (if x then Some [] else if y then Some [] else c).
Proof. by destruct x, y. Qed.

Lemma page_nil pos : page pos [] = [].
Proof. unfold page. rewrite drop_nil. destruct (Limit pos =? 0); [done|]. by rewrite take_nil. Qed.

(** A negative start. *)
Lemma GetMany_negative n :
  isOrdered b = true -> treasuresByOrder b <> [] -> - 2 ^ 62 < n < 0 ->
  (GetManyFromOrderPosition deref {| From := n; Limit := 1; FromTime := None; ToTime := None |} b).2 = None.
Proof.
  intros Ho Hne Hn. unfold GetManyFromOrderPosition. cbn [isOrdered touch treasuresByOrder FromTime ToTime From Limit].
  rewrite Ho. cbn [negb is_some orb andb]. rewrite (in_i64 (0 + n)) by lia. rewrite (in_i64 (0 + n + 1)) by lia.
  rewrite (in_i64 (0 + n + 1 - 1)) by lia. rewrite !Z.gtb_ltb.
  assert (Hlen : 0 < Z.of_nat (length (treasuresByOrder b))) by (destruct (treasuresByOrder b); [done|cbn; lia]).
  rewrite (proj2 (Z.ltb_ge (Z.of_nat (length (treasuresByOrder b)) - 1) (0 + n))) by lia.
  cbn [Z.eqb]. rewrite (proj2 (Z.ltb_ge _ _)) by lia.
  replace (0 + n + 1 - 1 - (0 + n) + 1) with 1 by lia. change (i64 1) with 1.
  change (Z.to_nat 1) with 1%nat. cbn [Z.leb Z.compare snd copy_loop]. unfold index.
  by rewrite (proj2 (Z.ltb_lt _ _)) by lia.
Qed.

(** What [GetManyFromOrderPosition] returns from a sorted beacon: the page of the treasures
    inside the window. *)
Lemma GetMany_window pos :
  isOrdered b = true -> 0 <= From pos -> 0 <= Limit pos ->
  From pos + Limit pos + Z.of_nat (length (treasuresByOrder b)) < 2 ^ 63 ->
  (GetManyFromOrderPosition deref pos b).2 =
  Some (Some (page pos (filter (fun x => in_window b deref (FromTime pos) (ToTime pos) x) (treasuresByOrder b)))).
Proof.
  intros Ho Hf Hl Hb. unfold GetManyFromOrderPosition. cbn [isOrdered touch treasuresByOrder].
  rewrite Ho. cbn [negb].
  change (findTimeRangeBounds deref (FromTime pos) (ToTime pos) (touch b))
    with (findTimeRangeBounds deref (FromTime pos) (ToTime pos) b).
  rewrite findTimeRangeBounds_bounds, window_slice.
  pose proof (bounds_le (FromTime pos) (ToTime pos)) as Hle.
  destruct (is_some (FromTime pos) || is_some (ToTime pos)) eqn:Hfilt; cbn [andb].
  - destruct (bounds (FromTime pos) (ToTime pos)) as [s e]. cbn [fst snd] in *.
    destruct (decide (s < e)%nat) as [Hse|Hse].
    + rewrite (proj2 (Z.ltb_ge (Z.of_nat e - 1) (Z.of_nat s))), (proj2 (Z.ltb_ge (Z.of_nat s) 0)) by lia.
      cbn [orb]. rewrite results. apply (f_equal (fmap (M := option) Some) (page_slice pos s e ltac:(lia) Hf Hl Hb)).
    + cbn. replace (e - s)%nat with O by lia. by rewrite page_nil.
  - assert (Hbd : bounds (FromTime pos) (ToTime pos) = (O, length (treasuresByOrder b))).
    { unfold bounds. destruct (FromTime pos), (ToTime pos); try done. by destruct (isAscending b). }
    rewrite Hbd. cbn [fst snd]. destruct (treasuresByOrder b) as [|x l] eqn:Hord.
    + cbn [length Z.of_nat take drop]. rewrite (in_i64 (0 + From pos)) by (cbn in Hb; lia).
      rewrite Z.gtb_ltb, (proj2 (Z.ltb_lt _ _)) by lia. cbn. by rewrite page_nil.
    + rewrite <- Hord in *. rewrite results.
      assert (Hlen : (0 < length (treasuresByOrder b) <= length (treasuresByOrder b))%nat)
        by (rewrite Hord; cbn; lia).
      pose proof (page_slice pos 0 _ Hlen Hf Hl Hb) as Hp. cbv zeta in Hp. change (Z.of_nat 0) with 0 in Hp.
      cbv zeta. rewrite Hp. by rewrite Nat.sub_0_r.
Qed.
End Window.

(** ** Sorting by a time *)

Section Sorting.
Context `{HS : SortSlice} `{HSOk : !SortSliceOk}.
Variable deref : loc -> treasure.

(** The sort of the code for a sort order. *)
Definition sort_for (o : SortOrder) : beacon -> beacon * bool :=
  match o with
  | ByExpirationTimeAsc => SortByExpirationTimeAsc deref
  | ByExpirationTimeDesc => SortByExpirationTimeDesc deref
  | ByCreatedAtAsc => SortByCreationTimeAsc deref
  | ByCreatedAtDesc => SortByCreationTimeDesc deref
  | ByModifiedAtAsc => SortByUpdateTimeAsc deref
  | ByModifiedAtDesc => SortByUpdateTimeDesc deref
  end.

Lemma strict_weak_key (time : loc -> Z) (desc : bool) l :
  strict_weak (fun k l => if desc then time l <? time k else time k <? time l) l.
Proof. constructor; intros; destruct desc; lia. Qed.

(** Sorting rearranges the treasures and puts them in time order. *)
Lemma sort_for_ordered o b b' :
  sort_for o b = (b', true) ->
  isOrdered b' = true /\ treasuresByKeys b' = treasuresByKeys b /\ sortOrder b' = Some o /\
  treasuresByOrder b' ≡ₚ treasuresByOrder b /\ time_ordered deref b'.
Proof.
  assert (Hgen : forall s desc time, (forall b x, sortOrder b = Some o -> getTimestampFromTreasure deref b x = time (deref x)) ->
    (forall b, sortOrder b = Some o -> isAscending b = negb desc) ->
    sort_by_time deref s desc o time b = (b', true) ->
    isOrdered b' = true /\ treasuresByKeys b' = treasuresByKeys b /\ sortOrder b' = Some o /\
    treasuresByOrder b' ≡ₚ treasuresByOrder b /\ time_ordered deref b').
  { intros s desc time Hts Hasc. unfold sort_by_time. destruct (isOrdered b) eqn:Ho; cbn [negb];
      [|by destruct s].
    intros [= <-]. split_and!; [done..|apply sort_slice_perm|].
    intros i j x y Hij Hi Hj. rewrite Hasc by done. cbn [treasuresByOrder put_order sort_by put] in Hi, Hj.
    pose proof (sort_slice_in_order _ _ (strict_weak_key (fun x => time (deref x)) desc (treasuresByOrder b))
      i j x y Hij Hi Hj) as Hle. cbn beta in Hle. rewrite !Hts by done. destruct desc; cbn [negb]; lia. }
  assert (Hsel : forall b x (time : treasure -> Z), sortOrder b = Some o ->
    (match o with ByExpirationTimeAsc | ByExpirationTimeDesc => GetExpirationTime
     | ByCreatedAtAsc | ByCreatedAtDesc => GetCreatedAt | _ => GetModifiedAt end) = time ->
    getTimestampFromTreasure deref b x = time (deref x)).
  { intros b0 x time Hs <-. unfold getTimestampFromTreasure. rewrite Hs. by destruct o. }
  assert (Hdir : forall b, sortOrder b = Some o -> isAscending b =
    match o with ByExpirationTimeAsc | ByCreatedAtAsc | ByModifiedAtAsc => true | _ => false end).
  { intros b0 Hs. unfold isAscending. rewrite Hs. by destruct o. }
  destruct o; cbn [sort_for]; (eapply Hgen; [intros; by apply Hsel|intros; by rewrite Hdir]).
Qed.

Lemma sort_for_succeeds o b : isOrdered b = true -> exists b', sort_for o b = (b', true).
Proof.
  intros Ho. destruct o; cbn [sort_for]; unfold SortByExpirationTimeAsc, SortByExpirationTimeDesc,
    SortByCreationTimeAsc, SortByCreationTimeDesc, SortByUpdateTimeAsc, SortByUpdateTimeDesc, sort_by_time;
    rewrite Ho; by eexists.
Qed.
End Sorting.

(** ** Filtering in place *)

Section InPlace.
Variable deref : loc -> treasure.
Variable f : loc -> bool.

Lemma filter_loop_S h remove n i len c arr m :
  filter_loop deref f h remove (S n) i len c arr m =
  if c =? h then Some ([], take len arr, m) else
  x ← arr !! i;
  if f x then
    if remove then
      if decide (len < S i)%nat then None else
      '(filtered, order, m) ← filter_loop deref f h remove n (S i) (len - 1) (c + 1)
        (take i arr ++ take (len - S i) (drop (S i) arr) ++ drop (len - 1) arr) (delete (key_of deref x) m);
      Some (x :: filtered, order, m)
    else
      '(filtered, order, m) ← filter_loop deref f h remove n (S i) len (c + 1) arr m;
      Some (x :: filtered, order, m)
  else filter_loop deref f h remove n (S i) len c arr m.
Proof. reflexivity. Qed.

(** Without removal: the first matches, and nothing changes. *)
Lemma filter_loop_keep h n : forall i c arr m,
  (i + n = length arr)%nat -> 0 <= c -> (h < 0 \/ c <= h) ->
  filter_loop deref f h false n i (length arr) c arr m =
  Some ((if h <? 0 then filter (fun x => f x) (drop i arr)
         else take (Z.to_nat (h - c)) (filter (fun x => f x) (drop i arr))), arr, m).
Proof.
  induction n as [|n IH]; intros i c arr m Hn Hc Hh; cbn [filter_loop].
  - rewrite drop_ge by lia. cbn. rewrite take_nil, firstn_all. by destruct (h <? 0).
  - destruct (Z.eqb_spec c h) as [->|Hne].
    + rewrite (proj2 (Z.ltb_ge _ _)) by lia. replace (Z.to_nat (h - h)) with O by lia. by rewrite firstn_all.
    + destruct (lookup_lt_is_Some_2 arr i) as [x Hx]; [lia|]. rewrite Hx. cbn.
      rewrite (drop_S arr x i Hx), filter_bool_cons. destruct (f x).
      * rewrite IH by lia. cbn. destruct (Z.ltb_spec h 0); [done|].
        replace (Z.to_nat (h - c)) with (S (Z.to_nat (h - (c + 1)))) by lia. done.
      * rewrite IH by lia. done.
Qed.

(** After a removal the last cell of the array is behind the slice: a match there panics. *)
Lemma filter_loop_stale h x n : forall i len c arr m,
  (i + S n = length arr)%nat -> (len < length arr)%nat -> h < 0 -> 0 <= c ->
  arr !! (length arr - 1)%nat = Some x -> f x = true ->
  filter_loop deref f h true (S n) i len c arr m = None.
Proof.
  induction n as [|n IH]; intros i len c arr m Hn Hlen Hh Hc Hl Hf; rewrite filter_loop_S;
    rewrite (proj2 (Z.eqb_neq c h)) by lia.
  - replace (length arr - 1)%nat with i in Hl by lia. rewrite Hl. cbn. by rewrite Hf, decide_True by lia.
  - destruct (lookup_lt_is_Some_2 arr i) as [y Hy]; [lia|]. rewrite Hy. cbn [mbind option_bind].
    destruct (f y); [|by apply IH; try lia].
    destruct (decide (len < S i)%nat) as [|Hle]; [done|].
    set (arr' := take i arr ++ take (len - S i) (drop (S i) arr) ++ drop (len - 1) arr).
    assert (Hlen' : length arr' = length arr).
    { unfold arr'. rewrite !length_app, !length_take, !length_drop. lia. }
    rewrite (IH (S i) (len - 1)%nat (c + 1) arr'); try lia; [done| |done].
    rewrite Hlen'. unfold arr'. rewrite !lookup_app_r; rewrite ?length_app, ?length_take, ?length_drop; try lia.
    rewrite lookup_drop. rewrite <- Hl. f_equal. lia.
Qed.

Lemma filter_loop_panics h x y n : forall i c arr m,
  (i + n = length arr)%nat -> h < 0 -> 0 <= c ->
  arr !! (length arr - 1)%nat = Some x -> f x = true ->
  (exists j, (i <= j < length arr - 1)%nat /\ arr !! j = Some y) -> f y = true ->
  filter_loop deref f h true n i (length arr) c arr m = None.
Proof.
  induction n as [|n IH]; intros i c arr m Hn Hh Hc Hl Hf (j & Hj & Hy) Hfy; [lia|]. rewrite filter_loop_S.
  rewrite (proj2 (Z.eqb_neq c h)) by lia.
  destruct (lookup_lt_is_Some_2 arr i) as [z Hz]; [lia|]. rewrite Hz. cbn [mbind option_bind].
  destruct (f z) eqn:Hfz.
  - rewrite decide_False by lia.
    set (arr' := take i arr ++ take (length arr - S i) (drop (S i) arr) ++ drop (length arr - 1) arr).
    assert (Hlen' : length arr' = length arr).
    { unfold arr'. rewrite !length_app, !length_take, !length_drop. lia. }
    destruct n as [|n]; [lia|].
    rewrite (filter_loop_stale h x n (S i) (length arr - 1) (c + 1) arr'); try lia; [done| |done].
    rewrite Hlen'. unfold arr'. rewrite !lookup_app_r; rewrite ?length_app, ?length_take, ?length_drop; try lia.
    rewrite lookup_drop. rewrite <- Hl. f_equal. lia.
  - apply IH; try done; try lia. exists j. split; [|done].
    destruct (decide (i = j)) as [<-|]; [congruence|lia].
Qed.
End InPlace.

(** ** The patch cycle *)

Section Patch.
Context `{HR : KeyRange} `{HS : SortSlice} `{HSOk : !SortSliceOk}.

Lemma filter_iff_in (P Q : loc -> Prop) `{!forall x, Decision (P x)} `{!forall x, Decision (Q x)} (l : list loc) :
  (forall x, x ∈ l -> P x <-> Q x) -> filter P l = filter Q l.
Proof.
  induction l as [|a l IH]; intros Hpq; [done|]. rewrite !filter_cons, IH by (intros; apply Hpq; set_solver).
  pose proof (Hpq a ltac:(set_solver)). destruct (decide (P a)), (decide (Q a)); tauto.
Qed.

Lemma filter_id (P : loc -> Prop) `{!forall x, Decision (P x)} (l : list loc) :
  (forall x, x ∈ l -> P x) -> filter P l = l.
Proof.
  induction l as [|a l IH]; intros Hp; [done|]. rewrite filter_cons_True by (apply Hp; set_solver).
  by rewrite IH by (intros; apply Hp; set_solver).
Qed.

(** What a selection returns and leaves. *)
Lemma select_cap_spec deref n p cap capMax now b b1 selected capReached :
  SelectExpiredForPatchWithCap deref n p cap capMax now b = (b1, selected, capReached) ->
  exists m,
    selected = take m (filter (fun x => expired deref now x && match p with None => true | Some f => f x end)
                         (treasuresByOrder b)) /\
    (0 < n -> (m <= Z.to_nat n)%nat) /\
    treasuresByKeys b1 = treasuresByKeys b /\ isOrdered b1 = isOrdered b /\
    selected ++ treasuresByOrder b1 ≡ₚ treasuresByOrder b /\ treasuresByOrder b1 `sublist_of` treasuresByOrder b.
Proof.
  unfold SelectExpiredForPatchWithCap.
  destruct (cap_budget cap capMax (if n <=? 0 then max_int else n) (touch b)) as [[eff bounded]|] eqn:Hcap.
  - unfold select. cbn [treasuresByOrder treasuresByKeys touch].
    destruct (shift_loop _ eff 0 (treasuresByOrder b)) as [[t r] bey] eqn:Hs. intros [= <- <- <-].
    destruct (shift_loop_spec _ _ _ _ _ _ _ Hs) as (Ht & _ & _ & Hsub & Hperm & _).
    exists (Z.to_nat eff). rewrite Z.sub_0_r in Ht. split_and!; try done.
    intros Hn. rewrite (proj2 (Z.leb_gt n 0)) in Hcap by lia.
    cbv iota in Hcap. unfold cap_budget in Hcap.
    destruct cap as [q|]; [|by injection Hcap as <- _].
    destruct (_ <=? 0) in Hcap; [done|]. destruct (Z.ltb_spec (capMax - count_matching q (treasuresByKeys (touch b))) n);
      injection Hcap as <- _; cbn [treasuresByKeys touch] in *; lia.
  - intros [= <- <- <-]. exists O. split_and!; try done. intros; lia.
Qed.

(** What giving treasures back does, when none of them is in the slice. *)
Lemma reindex_spec (key : loc -> bytes) deref sel b :
  (forall l, key_of deref l = key l) -> isOrdered b = true ->
  (forall x y, x ∈ sel -> y ∈ treasuresByOrder b -> key x = key y -> False) ->
  treasuresByKeys (ReindexExpiration deref sel b) = treasuresByKeys b /\
  treasuresByOrder (ReindexExpiration deref sel b) ≡ₚ
    treasuresByOrder b ++ filter (fun x => GetExpirationTime (deref x) <> 0) sel /\
  (sel <> [] -> time_ordered deref (ReindexExpiration deref sel b)).
Proof.
  intros Hkey Ho Hdis. destruct sel as [|s0 sel0].
  - cbn. by rewrite app_nil_r.
  - set (sel := s0 :: sel0) in *. change (ReindexExpiration deref sel b) with
      (let b := touch b in
       if negb (isOrdered b) then b else
       let kept := filter (fun x => key_of deref x ∉ map (key_of deref) sel) (treasuresByOrder b) in
       let added := filter (fun x => GetExpirationTime (deref x) <> 0) sel in
       put_order ByExpirationTimeAsc
         (sort_by (fun k l => GetExpirationTime (deref k) <? GetExpirationTime (deref l))
            (put (treasuresByKeys b) (kept ++ added) b))).
    cbv zeta. cbn [isOrdered touch]. rewrite Ho. cbn [negb]. split_and!; [done| |].
    + cbn [treasuresByOrder put_order sort_by put touch]. rewrite sort_slice_perm. f_equiv.
      apply reflexive_eq, filter_id. intros x Hx Hin. apply list_elem_of_fmap in Hin as (y & Hk & Hy).
      rewrite !Hkey in Hk. by apply (Hdis y x).
    + intros _ i j x y Hij Hi Hj. cbn [treasuresByOrder put_order sort_by put touch] in Hi, Hj.
      pose proof (sort_slice_in_order _ _ (strict_weak_key (fun x => GetExpirationTime (deref x)) false _)
        i j x y Hij Hi Hj) as Hle. cbn in Hle |- *. lia.
Qed.
End Patch.
