(* ===== verification/Canon.v ===== *)
(** Canonical values of body fields:
    [core/hydra/swamp/bucket/valuecanon/valuecanon.go], and the path lookup of
    [core/hydra/swamp/bucket/bucket.go].

    A decoded msgpack body is a Go [any]; [any] below has a constructor per dynamic type the
    code tells apart.  Floats are IEEE values; converting a float that an integer type cannot
    represent is left to the implementation by the Go specification, so the two conversions
    are a class, of which only [FloatToIntOk] is used where it matters. *)
From Stdlib Require Import Floats.SpecFloat.
From S2P Require Import Prelude Types Compressor Block FileSys Reader Treasure.
#[local] Set Warnings "-register-all,-clear-no-such-hyp".

(** ** Values *)

Inductive width : Type := W8 | W16 | W32 | W64 | Wint.

Inductive any : Type :=
| ANil
| ABool (b : bool)
| AInt (w : width) (z : Z)
| AUint (w : width) (z : Z)
| AFloat32 (f : spec_float)
| AFloat64 (f : spec_float)
| AString (s : bytes)
| ATime (seconds : Z)                   (** [n.UTC().Unix()] *)
| AMap (m : list (bytes * any))         (** [map[string]any], each key once *)
| AArray (xs : list any)                (** [[]any] *)
| AOther.

Inductive Kind : Type := KindNull | KindBool | KindInt64 | KindUint64 | KindFloat64 | KindString.

#[export] Instance Kind_eq_dec : EqDecision Kind.
Proof. solve_decision. Defined.

(** The fields [Kind] and [I], [U], [F], [S], [B]. *)
Record Key := { k_Kind : Kind; k_I : Z; k_U : Z; k_F : spec_float; k_S : bytes; k_B : bool }.

Definition NullKey : Key :=
  {| k_Kind := KindNull; k_I := 0; k_U := 0; k_F := f0; k_S := []; k_B := false |}.

Definition BoolKey (b : bool) : Key :=
  {| k_Kind := KindBool; k_I := 0; k_U := 0; k_F := f0; k_S := []; k_B := b |}.
Definition Int64Key (z : Z) : Key :=
  {| k_Kind := KindInt64; k_I := z; k_U := 0; k_F := f0; k_S := []; k_B := false |}.
Definition Uint64Key (z : Z) : Key :=
  {| k_Kind := KindUint64; k_I := 0; k_U := z; k_F := f0; k_S := []; k_B := false |}.
Definition Float64Key (f : spec_float) : Key :=
  {| k_Kind := KindFloat64; k_I := 0; k_U := 0; k_F := f; k_S := []; k_B := false |}.
Definition StringKey (s : bytes) : Key :=
  {| k_Kind := KindString; k_I := 0; k_U := 0; k_F := f0; k_S := s; k_B := false |}.

(** [float64(f)] of a [float32]. *)
Definition float64_of_float32 (f : spec_float) : spec_float :=
  match f with
  | S754_finite s m e => binary_normalize 53 1024 (cond_Zopp s (Zpos m)) e s
  | f => f
  end.

Definition Canonicalize (v : any) : Key :=
  match v with
  | ANil => NullKey
  | ABool b => BoolKey b
  | AInt _ z => Int64Key z
  | AUint _ z => Uint64Key z
  | AFloat32 f => Float64Key (float64_of_float32 f)
  | AFloat64 f => Float64Key f
  | AString s => StringKey s
  | ATime t => Int64Key t
  | AMap _ | AArray _ | AOther => NullKey
  end.

(** ** Equality *)

(** The [==] of Go on the struct: it compares the floats as floats. *)
Definition key_eqb (a b : Key) : bool :=
  eqd (k_Kind a) (k_Kind b) && eqd (k_I a) (k_I b) && eqd (k_U a) (k_U b)
  && SFeqb (k_F a) (k_F b) && eqd (k_S a) (k_S b) && eqd (k_B a) (k_B b).

Definition isNumeric (k : Kind) : bool :=
  match k with KindInt64 | KindUint64 | KindFloat64 => true | _ => false end.

(** The integer a float stands for when its fraction is cut off. *)
Definition trunc (f : spec_float) : option Z :=
  match f with
  | S754_zero _ => Some 0
  | S754_finite s m e =>
      Some (cond_Zopp s (if decide (0 <= e) then Zpos m * 2 ^ e else Zpos m / 2 ^ (- e)))
  | _ => None
  end.

(** What a conversion gives for a float outside the range of the type. *)
Class FloatToInt := { int64_outside : spec_float -> Z; uint64_outside : spec_float -> Z }.

Section Canon.
Context `{FI : FloatToInt}.

Definition int64_of (f : spec_float) : Z :=
  match trunc f with
  | Some z => if decide (in_i64 z) then z else int64_outside f
  | None => int64_outside f
  end.
Definition uint64_of (f : spec_float) : Z :=
  match trunc f with
  | Some z => if decide (in_u64 z) then z else uint64_outside f
  | None => uint64_outside f
  end.

Definition toFloat64Lossless (k : Key) : option spec_float :=
  match k_Kind k with
  | KindFloat64 => Some (k_F k)
  | KindInt64 =>
      let f := float64_of_Z (k_I k) in if negb (int64_of f =? k_I k) then None else Some f
  | KindUint64 =>
      let f := float64_of_Z (k_U k) in if negb (uint64_of f =? k_U k) then None else Some f
  | _ => None
  end.

Definition Equal (a b : Key) : bool :=
  if decide (k_Kind a = k_Kind b) then
    match k_Kind a with
    | KindNull => true
    | KindBool => eqd (k_B a) (k_B b)
    | KindInt64 => eqd (k_I a) (k_I b)
    | KindUint64 => eqd (k_U a) (k_U b)
    | KindFloat64 => SFeqb (k_F a) (k_F b)
    | KindString => eqd (k_S a) (k_S b)
    end
  else if negb (isNumeric (k_Kind a)) || negb (isNumeric (k_Kind b)) then false
  else match k_Kind a, k_Kind b with
       | KindFloat64, _ | _, KindFloat64 =>
           match toFloat64Lossless a with
           | None => false
           | Some af => match toFloat64Lossless b with None => false | Some bf => SFeqb af bf end
           end
       | KindInt64, KindUint64 => (0 <=? k_I a) && (u64 (k_I a) =? k_U b)
       | KindUint64, KindInt64 => (0 <=? k_I b) && (u64 (k_I b) =? k_U a)
       | _, _ => false
       end.

Definition IsNull (k : Key) : bool := eqd (k_Kind k) KindNull.

End Canon.

(** ** Paths *)

(** [cm[part]] *)
Fixpoint map_get (part : bytes) (m : list (bytes * any)) : option any :=
  match m with
  | [] => None
  | (k, v) :: m => if decide (k = part) then Some v else map_get part m
  end.

(** The scan of the path, with [part] the segment read so far: at a dot or at the end the
    segment is looked up in the current value. *)
Fixpoint walk (path part : bytes) (current : any) : any :=
  let next :=
    match current with
    | AMap m => match map_get part m with Some v => v | None => ANil end
    | _ => ANil
    end in
  match path with
  | [] => next
  | c :: path =>
      if decide (c = x2e) then
        match current with
        | AMap m => match map_get part m with Some v => walk path [] v | None => ANil end
        | _ => ANil
        end
      else walk path (part ++ [c]) current
  end.

Definition extractFieldByPath (m : list (bytes * any)) (path : bytes) : any :=
  if decide (path = []) then AMap m else walk path [] (AMap m).

(** ** Equality of canonical values *)

(** Converting an integer that a float rounds out of the range of the type does not happen to
    give the integer back.  It holds where the conversion answers with a fixed value below
    (as on amd64); a conversion that saturates breaks it. *)
Class FloatToIntOk `{FloatToInt} : Prop := {
  int64_detects z f : in_i64 z -> f = float64_of_Z z ->
    (forall t, trunc f = Some t -> ~ in_i64 t) -> int64_outside f <> z;
  uint64_detects z f : in_u64 z -> f = float64_of_Z z ->
    (forall t, trunc f = Some t -> ~ in_u64 t) -> uint64_outside f <> z
}.

(** The values a Go program can build. *)
Fixpoint any_ok (v : any) : Prop :=
  match v with
  | AInt _ z | ATime z => in_i64 z
  | AUint _ z => in_u64 z
  | AMap m => (fix all (m : list (bytes * any)) : Prop :=
                 match m with [] => True | (_, v) :: m => any_ok v /\ all m end) m
  | AArray xs => (fix all (xs : list any) : Prop :=
                    match xs with [] => True | v :: xs => any_ok v /\ all xs end) xs
  | _ => True
  end.
Definition key_ok (k : Key) : Prop :=
  match k_Kind k with KindInt64 => in_i64 (k_I k) | KindUint64 => in_u64 (k_U k) | _ => True end
  /\ (k_F k = S754_nan -> k_Kind k = KindFloat64).

Definition is_NaN (k : Key) : bool := match k_F k with S754_nan => true | _ => false end.

Lemma Canonicalize_ok v : any_ok v -> key_ok (Canonicalize v).
Proof. by destruct v; split. Qed.

Lemma map_get_ok part m v : any_ok (AMap m) -> map_get part m = Some v -> any_ok v.
Proof.
  induction m as [|[k w] m IH]; cbn; [done|]. intros [Hw Hm]. case_decide; [by intros [= <-]|auto].
Qed.

Lemma walk_ok path : forall part v, any_ok v -> any_ok (walk path part v).
Proof.
  induction path as [|c path IH]; intros part v Hv; cbn.
  - destruct v; try done. destruct (map_get part m) eqn:E; [by eapply map_get_ok|done].
  - case_decide; [|by apply IH]. destruct v; try done.
    destruct (map_get part m) eqn:E; [by apply IH; eapply map_get_ok|done].
Qed.

Lemma extractFieldByPath_ok m path : any_ok (AMap m) -> any_ok (extractFieldByPath m path).
Proof. intros Hm. unfold extractFieldByPath. case_decide; [done|by apply walk_ok]. Qed.

Lemma SFeqb_spec a b :
  SFeqb a b = true <->
  match a, b with
  | S754_zero _, S754_zero _ => True
  | S754_infinity s, S754_infinity s' => s = s'
  | S754_finite s m e, S754_finite s' m' e' => s = s' /\ m = m' /\ e = e'
  | _, _ => False
  end.
Proof.
  destruct a as [s|s| |s m e], b as [s'|s'| |s' m' e']; unfold SFeqb, SFcompare;
    try (by destruct s); try (by destruct s'); try (by destruct s, s'); [done|].
  change (Pos.compare_cont Eq m m') with (Pos.compare m m').
  destruct (Z.compare_spec e e') as [He|He|He], (Pos.compare_spec m m') as [Hm|Hm|Hm], s, s';
    cbn; split; try done; intros; destruct_and?; subst; done || lia.
Qed.

Lemma SFeqb_sym a b : SFeqb a b = SFeqb b a.
Proof.
  apply eq_bool_prop_intro. rewrite !Is_true_true, !SFeqb_spec.
  destruct a, b; naive_solver.
Qed.

Lemma SFeqb_trans a b c : SFeqb a b = true -> SFeqb b c = true -> SFeqb a c = true.
Proof. rewrite !SFeqb_spec. destruct a, b, c; naive_solver. Qed.

Lemma SFeqb_trunc a b : SFeqb a b = true -> trunc a = trunc b.
Proof. rewrite SFeqb_spec. destruct a, b; naive_solver. Qed.

Lemma SFeqb_refl a : a <> S754_nan -> SFeqb a a = true.
Proof. intros Ha. apply SFeqb_spec. by destruct a. Qed.

(** [==] is an equivalence but for NaN, which differs from itself. *)
Lemma key_eqb_spec a b :
  key_eqb a b = true <->
  k_Kind a = k_Kind b /\ k_I a = k_I b /\ k_U a = k_U b /\ SFeqb (k_F a) (k_F b) = true
  /\ k_S a = k_S b /\ k_B a = k_B b.
Proof. unfold key_eqb, eqd. rewrite !andb_true_iff, !bool_decide_eq_true. tauto. Qed.

Lemma key_eqb_refl a : is_NaN a = false -> key_eqb a a = true.
Proof.
  intros Ha. apply key_eqb_spec. split_and!; try done. apply SFeqb_refl.
  unfold is_NaN in Ha. intros Hn. by rewrite Hn in Ha.
Qed.
Lemma key_eqb_sym a b : key_eqb a b = true -> key_eqb b a = true.
Proof. rewrite !key_eqb_spec, SFeqb_sym. naive_solver. Qed.
Lemma key_eqb_trans a b c : key_eqb a b = true -> key_eqb b c = true -> key_eqb a c = true.
Proof.
  rewrite !key_eqb_spec. intros (? & ? & ? & He & ? & ?) (? & ? & ? & He' & ? & ?).
  pose proof (SFeqb_trans _ _ _ He He'). split_and!; congruence.
Qed.
Lemma key_eqb_NaN a b : key_eqb a b = true -> is_NaN a = false /\ is_NaN b = false.
Proof.
  rewrite key_eqb_spec, SFeqb_spec. unfold is_NaN. intros (_ & _ & _ & H & _).
  by destruct (k_F a), (k_F b).
Qed.

Section Laws.
Context `{FI : FloatToInt} `{!FloatToIntOk}.

(** The integer an integer key stands for. *)
Definition int_val (k : Key) : option Z :=
  match k_Kind k with KindInt64 => Some (k_I k) | KindUint64 => Some (k_U k) | _ => None end.

Lemma lossless_val k z :
  key_ok k -> int_val k = Some z ->
  toFloat64Lossless k =
    if decide (trunc (float64_of_Z z) = Some z) then Some (float64_of_Z z) else None.
Proof.
  unfold key_ok, int_val, toFloat64Lossless, int64_of, uint64_of. intros [Hk _] Hz.
  destruct (k_Kind k); simplify_eq; set (f := float64_of_Z _) in *;
    (destruct (trunc f) as [t|] eqn:Ht; [case_decide|];
     [destruct (decide _); simplify_eq;
        [by rewrite Z.eqb_refl|by rewrite (proj2 (Z.eqb_neq _ _)) by congruence]| |]);
    rewrite (decide_False (P := _ = Some _)) by naive_solver;
    rewrite (proj2 (Z.eqb_neq _ _)); try done;
    first [apply (int64_detects _ f Hk eq_refl)|apply (uint64_detects _ f Hk eq_refl)]; naive_solver.
Qed.

(** What [Equal] says, kind by kind. *)
Definition same (a b : Key) : Prop :=
  match k_Kind a, k_Kind b with
  | KindNull, KindNull => True
  | KindBool, KindBool => k_B a = k_B b
  | KindInt64, KindInt64 => k_I a = k_I b
  | KindUint64, KindUint64 => k_U a = k_U b
  | KindString, KindString => k_S a = k_S b
  | KindInt64, KindUint64 => k_I a = k_U b
  | KindUint64, KindInt64 => k_U a = k_I b
  | KindFloat64, (KindInt64 | KindUint64 | KindFloat64)
  | (KindInt64 | KindUint64), KindFloat64 =>
      exists f g, toFloat64Lossless a = Some f /\ toFloat64Lossless b = Some g /\ SFeqb f g = true
  | _, _ => False
  end.

Lemma float_equal (o p : option spec_float) :
  (match o with None => false | Some f => match p with None => false | Some g => SFeqb f g end end) = true <->
  exists f g, o = Some f /\ p = Some g /\ SFeqb f g = true.
Proof. destruct o, p; naive_solver. Qed.

Lemma mixed_equal i u : in_i64 i -> in_u64 u -> (0 <=? i) && (u64 i =? u) = true <-> i = u.
Proof.
  unfold in_i64, in_u64. intros Hi Hu. rewrite andb_true_iff, Z.leb_le, Z.eqb_eq. split.
  - intros [Hp <-]. by rewrite u64_small by (unfold in_u64; lia).
  - intros ->. rewrite u64_small by done. lia.
Qed.

Lemma Equal_same a b : key_ok a -> key_ok b -> Equal a b = true <-> same a b.
Proof.
  unfold Equal, same, key_ok, eqd. intros [Ha _] [Hb _].
  destruct (k_Kind a) eqn:Ka, (k_Kind b) eqn:Kb; cbn [decide Kind_eq_dec isNumeric negb orb] in *;
    try destruct (decide _); try done; try (by split; congruence);
    first [apply bool_decide_eq_true | apply float_equal | by apply mixed_equal
          | rewrite mixed_equal by done; by split
          | unfold toFloat64Lossless; rewrite Ka, Kb; naive_solver].
Qed.

Lemma key_eqb_Equal a b : key_eqb a b = true -> Equal a b = true.
Proof.
  rewrite key_eqb_spec. unfold Equal, eqd. intros (Hk & ? & ? & ? & ? & ?).
  rewrite decide_True by done. destruct (k_Kind a); rewrite ?bool_decide_eq_true; done.
Qed.

Lemma key_eqb_ok a b : key_eqb a b = true -> key_ok b -> key_ok a.
Proof.
  rewrite key_eqb_spec, SFeqb_spec. unfold key_ok. intros (-> & -> & -> & HF & _) [Hk Hn].
  split; [done|]. intros Ha. rewrite Ha in HF. done.
Qed.

Lemma Equal_NaN a b : is_NaN a = true -> key_ok a -> key_ok b -> Equal a b = false.
Proof.
  unfold is_NaN. intros Hn Ha Hb. destruct (Equal a b) eqn:He; [exfalso|done].
  apply Equal_same in He; [|done..]. unfold same in He.
  assert (k_Kind a = KindFloat64) as Hk by (apply Ha; by destruct (k_F a)). rewrite Hk in He.
  destruct (k_Kind b); try done; destruct He as (f & g & Hf & _ & Hfg);
    unfold toFloat64Lossless in Hf; rewrite Hk in Hf; simplify_eq;
    apply SFeqb_spec in Hfg; by destruct (k_F a).
Qed.

Lemma same_sym a b : same a b -> same b a.
Proof.
  unfold same. destruct (k_Kind a), (k_Kind b); try done; intros (f & g & ? & ? & ?);
    exists g, f; by rewrite SFeqb_sym.
Qed.

(** [same] between numbers: equal integers, or equal floats. *)
Lemma same_numbers a b :
  isNumeric (k_Kind a) = true -> isNumeric (k_Kind b) = true ->
  same a b <->
  match int_val a, int_val b with
  | Some x, Some y => x = y
  | _, _ => exists f g, toFloat64Lossless a = Some f /\ toFloat64Lossless b = Some g /\ SFeqb f g = true
  end.
Proof. unfold same, int_val. by destruct (k_Kind a), (k_Kind b). Qed.

Lemma same_numeric a b : same a b -> isNumeric (k_Kind a) = isNumeric (k_Kind b).
Proof. unfold same. by destruct (k_Kind a), (k_Kind b). Qed.

Lemma lossless_trunc a x f g :
  key_ok a -> int_val a = Some x -> toFloat64Lossless a = Some f -> SFeqb f g = true -> trunc g = Some x.
Proof.
  intros Ha Hx Hf He. rewrite (lossless_val _ _ Ha Hx) in Hf. case_decide; simplify_eq.
  by rewrite <-(SFeqb_trunc _ _ He).
Qed.

Lemma same_trans a b c : key_ok a -> key_ok b -> key_ok c -> same a b -> same b c -> same a c.
Proof.
  intros Ha Hb Hc Hab Hbc. destruct (isNumeric (k_Kind b)) eqn:Nb.
  2:{ unfold same in *. destruct (k_Kind b), (k_Kind a), (k_Kind c); try done; congruence. }
  pose proof (same_numeric _ _ Hab) as Na. pose proof (same_numeric _ _ Hbc) as Nc.
  rewrite Nb in Na. rewrite Nb in Nc. rewrite same_numbers in * by done.
  assert (forall k k' z, key_ok k -> key_ok k' -> int_val k = Some z -> int_val k' = Some z ->
    toFloat64Lossless k = toFloat64Lossless k') as Hsame
    by (intros k k' z ? ? ? ?; by rewrite !(lossless_val _ z)).
  destruct (int_val a) as [x|] eqn:Va, (int_val b) as [y|] eqn:Vb, (int_val c) as [z|] eqn:Vc;
    subst; try done.
  - by rewrite (Hsame a b y).
  - destruct Hab as (f & g & Hf & Hg & He), Hbc as (g' & h & Hg' & Hh & He'). simplify_eq.
    pose proof (lossless_trunc _ _ _ _ Ha Va Hf He) as Hx. rewrite SFeqb_sym in He'.
    pose proof (lossless_trunc _ _ _ _ Hc Vc Hh He'). congruence.
  - destruct Hab as (f & g & ? & ? & ?), Hbc as (g' & h & ? & ? & ?). simplify_eq. eauto 10 using SFeqb_trans.
  - by rewrite <-(Hsame b c z).
  - destruct Hab as (f & g & ? & ? & ?), Hbc as (g' & h & ? & ? & ?). simplify_eq. eauto 10 using SFeqb_trans.
  - destruct Hab as (f & g & ? & ? & ?), Hbc as (g' & h & ? & ? & ?). simplify_eq. eauto 10 using SFeqb_trans.
  - destruct Hab as (f & g & ? & ? & ?), Hbc as (g' & h & ? & ? & ?). simplify_eq. eauto 10 using SFeqb_trans.
Qed.

(** Keys that are equal for Go are equal to the same values. *)
Lemma Equal_eqb a b c :
  key_eqb a b = true -> key_ok b -> key_ok c -> Equal a c = Equal b c.
Proof.
  intros He Hb Hc. pose proof (key_eqb_ok _ _ He Hb) as Ha. apply key_eqb_Equal in He.
  apply eq_bool_prop_intro. rewrite !Is_true_true, !Equal_same in * by done.
  split; intros; eauto using same_trans, same_sym.
Qed.
End Laws.
