(* ===== verification/Bucket.v ===== *)
(** The field index of a swamp: [core/hydra/swamp/bucket/bucket.go].

    A bucket maps the canonical value of one body field to the treasures that have it.  Every
    method is one or more sections under the bucket's mutexes; [take_pending] and [replay] are
    the two sections of a round of [DrainPending], so that the saves of other goroutines can
    come between them.  Decoding a msgpack body belongs to a package the repository calls and
    is the class [Msgpack]; the order of a Go map is a parameter with its law. *)
From S2P Require Import Prelude Steps Types Compressor Block FileSys Reader Treasure Beacon Canon.

(** What a slot holds: a treasure of the swamp, or a copy the snapshot made. *)
Inductive handle : Type := Live (l : loc) | Copied (t : treasure).

(** [msgpack.Unmarshal] into a [map[string]any]. *)
Class Msgpack := Unmarshal : bytes -> option (list (bytes * any)).

Abbreviation slot := (gmap bytes handle).

(** [for ... range] over a slot and over the slots. *)
Class SlotRange := {
  slot_range : slot -> list (bytes * handle);
  value_range : list (Key * slot) -> list (Key * slot)
}.
Class SlotRangeOk `{SlotRange} : Prop := {
  slot_range_perm m : slot_range m ≡ₚ map_to_list m;
  value_range_perm l : value_range l ≡ₚ l
}.

Inductive PendingOp : Type :=
| PendingInsert (t : handle)
| PendingUpdate (t : handle)
| PendingDelete (key : bytes).

(** [byValue] is a Go map whose keys are compared with [==]: a list of slots. *)
Record bucket := {
  fieldPath : bytes;
  equalityInit : bool;
  byValue : list (Key * slot);
  byKey : gmap bytes Key;
  pending : list PendingOp;
  buildInFlight : bool;
  buildOnce : bool                (** whether the once has run *)
}.

Definition New (path : bytes) : bucket :=
  {| fieldPath := path; equalityInit := false; byValue := []; byKey := ∅; pending := [];
     buildInFlight := false; buildOnce := false |}.

Definition put_maps (vs : list (Key * slot)) (ks : gmap bytes Key) (b : bucket) : bucket :=
  {| fieldPath := fieldPath b; equalityInit := equalityInit b; byValue := vs; byKey := ks;
     pending := pending b; buildInFlight := buildInFlight b; buildOnce := buildOnce b |}.
Definition put_pending (p : list PendingOp) (b : bucket) : bucket :=
  {| fieldPath := fieldPath b; equalityInit := equalityInit b; byValue := byValue b; byKey := byKey b;
     pending := p; buildInFlight := buildInFlight b; buildOnce := buildOnce b |}.
Definition put_built (b : bucket) : bucket :=
  {| fieldPath := fieldPath b; equalityInit := true; byValue := byValue b; byKey := byKey b;
     pending := pending b; buildInFlight := buildInFlight b; buildOnce := true |}.

Definition FieldPath (b : bucket) : bytes := fieldPath b.
Definition EqualityInitialized (b : bucket) : bool := equalityInit b.
Definition BuildInFlight (b : bucket) : bool := buildInFlight b.
Definition SetBuildInFlight (v : bool) (b : bucket) : bucket :=
  {| fieldPath := fieldPath b; equalityInit := equalityInit b; byValue := byValue b; byKey := byKey b;
     pending := pending b; buildInFlight := v; buildOnce := buildOnce b |}.
Definition Count (b : bucket) : Z := Z.of_nat (size (byKey b)).
Definition Reset (b : bucket) : bucket := New (fieldPath b).

(** ** The map of slots *)

(** [b.byValue[valueKey]] *)
Fixpoint slot_get (v : Key) (vs : list (Key * slot)) : option slot :=
  match vs with
  | [] => None
  | (k, m) :: vs => if key_eqb k v then Some m else slot_get v vs
  end.
(** [b.byValue[valueKey][treasureKey] = t], for a slot that is there. *)
Fixpoint slot_put (v : Key) (key : bytes) (t : handle) (vs : list (Key * slot)) : list (Key * slot) :=
  match vs with
  | [] => []
  | (k, m) :: vs => if key_eqb k v then (k, <[key := t]> m) :: vs else (k, m) :: slot_put v key t vs
  end.
(** The deletion from a slot, and of a slot that is empty then. *)
Fixpoint slot_remove (v : Key) (key : bytes) (vs : list (Key * slot)) : list (Key * slot) :=
  match vs with
  | [] => []
  | (k, m) :: vs =>
      if key_eqb k v then
        let m := delete key m in if decide (size m = 0%nat) then vs else (k, m) :: vs
      else (k, m) :: slot_remove v key vs
  end.

Definition insertLocked (treasureKey : bytes) (valueKey : Key) (t : handle) (b : bucket) : bucket :=
  let vs := match slot_get valueKey (byValue b) with
            | Some _ => slot_put valueKey treasureKey t (byValue b)
            | None => byValue b ++ [(valueKey, {[treasureKey := t]})]
            end in
  put_maps vs (<[treasureKey := valueKey]> (byKey b)) b.

Definition removeFromSlotLocked (valueKey : Key) (treasureKey : bytes) (b : bucket) : bucket :=
  match slot_get valueKey (byValue b) with
  | None => b
  | Some _ => put_maps (slot_remove valueKey treasureKey (byValue b)) (byKey b) b
  end.

(** [None] is the panic of an assignment to a nil map. *)
Definition insertOrUpdateLocked (treasureKey : bytes) (newKey : Key) (t : handle) (b : bucket) : option bucket :=
  match byKey b !! treasureKey with
  | Some oldKey =>
      if key_eqb oldKey newKey then
        match slot_get oldKey (byValue b) with
        | Some _ => Some (put_maps (slot_put oldKey treasureKey t (byValue b)) (byKey b) b)
        | None => None
        end
      else Some (insertLocked treasureKey newKey t (removeFromSlotLocked oldKey treasureKey b))
  | None => Some (insertLocked treasureKey newKey t b)
  end.

Definition deleteLocked (treasureKey : bytes) (b : bucket) : bucket :=
  match byKey b !! treasureKey with
  | None => b
  | Some oldKey =>
      let b := removeFromSlotLocked oldKey treasureKey b in
      put_maps (byValue b) (delete treasureKey (byKey b)) b
  end.

(** ** With the objects *)

Section Bucket.
Context `{FI : FloatToInt} `{MP : Msgpack} `{SR : SlotRange}.

Definition msgpackMagic0 : byte := xc7.
Definition msgpackMagic1 : byte := x00.

Definition strip_magic (body : bytes) : bytes :=
  match body with
  | b0 :: b1 :: rest => if eqd b0 msgpackMagic0 && eqd b1 msgpackMagic1 then rest else body
  | _ => body
  end.

Definition extractKey (t : treasure) (fieldPath : bytes) : Key * bool :=
  match GetContentByteArray t with
  | None | Some [] => (NullKey, true)
  | Some body =>
      match Unmarshal (strip_magic body) with
      | None => (NullKey, false)
      | Some m => (Canonicalize (extractFieldByPath m fieldPath), true)
      end
  end.

(** [if !ok { k = valuecanon.NullKey }] *)
Definition key_or_null (t : treasure) (fieldPath : bytes) : Key :=
  let '(k, ok) := extractKey t fieldPath in if ok then k else NullKey.

(** [b.byValue[want]] first, then every other slot with an equal key. *)
Definition collectMatchingLocked (want : Key) (b : bucket) : list handle :=
  (match slot_get want (byValue b) with Some m => (slot_range m).*2 | None => [] end)
  ++ concat (map (fun '(k, m) =>
       if key_eqb k want then [] else if Equal k want then (slot_range m).*2 else [])
     (value_range (byValue b))).

Definition countMatchingLocked (want : Key) (b : bucket) : Z :=
  (match slot_get want (byValue b) with Some m => Z.of_nat (size m) | None => 0 end)
  + foldr Z.add 0 (map (fun '(k, m) =>
       if key_eqb k want then 0 else if Equal k want then Z.of_nat (size m) else 0)
     (value_range (byValue b))).

Definition LookupEqual (value : any) (b : bucket) : list handle :=
  if negb (equalityInit b) then [] else collectMatchingLocked (Canonicalize value) b.

Definition CountForValue (value : any) (b : bucket) : Z :=
  if negb (equalityInit b) then 0 else countMatchingLocked (Canonicalize value) b.

Variable deref : loc -> treasure.

Definition look (h : handle) : treasure := match h with Live l => deref l | Copied t => t end.

(** The inner and the outer loop of [LookupIn]. *)
Fixpoint in_loop (ts : list handle) (seen : gset bytes) : list handle * gset bytes :=
  match ts with
  | [] => ([], seen)
  | t :: ts =>
      let k := GetKey (look t) in
      if decide (k ∈ seen) then in_loop ts seen
      else let '(out, seen) := in_loop ts ({[k]} ∪ seen) in (t :: out, seen)
  end.
Fixpoint values_loop (values : list any) (seen : gset bytes) (b : bucket) : list handle :=
  match values with
  | [] => []
  | v :: values =>
      let '(out, seen) := in_loop (collectMatchingLocked (Canonicalize v) b) seen in
      out ++ values_loop values seen b
  end.
Definition LookupIn (values : list any) (b : bucket) : list handle :=
  if negb (equalityInit b) then [] else values_loop values ∅ b.

(** The loop over the snapshot, in the order [l]. *)
Fixpoint build_loop (l : list (bytes * handle)) (b : bucket) : bucket :=
  match l with
  | [] => b
  | (key, t) :: l => build_loop l (insertLocked key (key_or_null (look t) (fieldPath b)) t b)
  end.
Definition BuildEquality (snapshot : slot) (b : bucket) : bucket :=
  if buildOnce b then b else put_built (build_loop (slot_range snapshot) b).

Definition tryEnqueue (op : PendingOp) (b : bucket) : bucket * bool :=
  if buildInFlight b then (put_pending (pending b ++ [op]) b, true) else (b, false).

Definition EnqueuePending (op : PendingOp) (b : bucket) : bucket := put_pending (pending b ++ [op]) b.

Definition apply_treasure (t : handle) (b : bucket) : option bucket :=
  insertOrUpdateLocked (GetKey (look t)) (key_or_null (look t) (fieldPath b)) t b.

Definition OnInsert (t : handle) (b : bucket) : option bucket :=
  let '(b, enqueued) := tryEnqueue (PendingInsert t) b in
  if enqueued then Some b else if negb (equalityInit b) then Some b else apply_treasure t b.

Definition OnUpdate (t : handle) (b : bucket) : option bucket :=
  let '(b, enqueued) := tryEnqueue (PendingUpdate t) b in
  if enqueued then Some b else if negb (equalityInit b) then Some b else apply_treasure t b.

Definition OnDelete (key : bytes) (b : bucket) : bucket :=
  let '(b, enqueued) := tryEnqueue (PendingDelete key) b in
  if enqueued then b else if negb (equalityInit b) then b else deleteLocked key b.

(** The section of [DrainPending] under [pendingMu]: [None] when the list was empty and the flag
    is clear now. *)
Definition take_pending (b : bucket) : bucket * option (list PendingOp) :=
  match pending b with
  | [] => (SetBuildInFlight false b, None)
  | ops => (put_pending [] b, Some ops)
  end.

(** The section under [mu]. *)
Definition apply_op (op : PendingOp) (b : bucket) : option bucket :=
  match op with
  | PendingInsert t | PendingUpdate t => apply_treasure t b
  | PendingDelete key => Some (deleteLocked key b)
  end.
Fixpoint replay (ops : list PendingOp) (b : bucket) : option bucket :=
  match ops with
  | [] => Some b
  | op :: ops => b ← apply_op op b; replay ops b
  end.

(** The loop without other goroutines in between: two rounds at most. *)
Fixpoint drain_loop (fuel : nat) (b : bucket) : option bucket :=
  match fuel with
  | O => None
  | S fuel =>
      match take_pending b with
      | (b, None) => Some b
      | (b, Some ops) => b ← replay ops b; drain_loop fuel b
      end
  end.
Definition DrainPending : bucket -> option bucket := drain_loop 2.
End Bucket.
