(* ===== verification/Slots.v ===== *)
(** The invariant of a field index, and the index among the operations of its swamp. *)
From S2P Require Import Prelude Steps Types Compressor Block FileSys Reader Treasure Beacon Canon Bucket.
#[local] Set Warnings "-clear-no-such-hyp".

(** ** The list of slots as a map *)

(** No two slots have keys that are equal for Go. *)
Fixpoint distinct (ks : list Key) : Prop :=
  match ks with
  | [] => True
  | k :: ks => Forall (fun k' => key_eqb k k' = false) ks /\ distinct ks
  end.

(** [h] is in the slot [v] under the key [k]. *)
Definition entry (vs : list (Key * slot)) (v : Key) (k : bytes) (h : handle) : Prop :=
  exists m, (v, m) ∈ vs /\ m !! k = Some h.

Lemma distinct_sublist ks ks' : ks' `sublist_of` ks -> distinct ks -> distinct ks'.
Proof.
  induction 1 as [|k ks' ks Hs IH|k ks' ks Hs IH]; cbn; [done| |naive_solver].
  intros [Hk Hd]. split; [|auto]. rewrite Forall_forall in *. eauto using elem_of_sublist.
Qed.

Lemma distinct_snoc ks k :
  distinct ks -> Forall (fun k' => key_eqb k' k = false) ks -> distinct (ks ++ [k]).
Proof.
  induction ks as [|k' ks IH]; cbn; [auto|]. intros [Hk Hd] [Hk' Hks]%Forall_cons.
  split; [|auto]. by apply Forall_app_2; [|constructor].
Qed.

Lemma distinct_middle pre v post v' :
  distinct (pre ++ v :: post) -> v' ∈ pre ++ post -> key_eqb v' v = false.
Proof.
  induction pre as [|k pre IH]; cbn.
  - rewrite Forall_forall. intros [Hk _] Hv. destruct (key_eqb v' v) eqn:E; [|done].
    apply key_eqb_sym in E. by rewrite (Hk v') in E.
  - rewrite Forall_forall. intros [Hk Hd] [->|Hv]%elem_of_cons; [|auto].
    apply Hk. rewrite elem_of_app, elem_of_cons. auto.
Qed.

Lemma slot_get_Some v vs m :
  slot_get v vs = Some m -> exists pre v0 post, vs = pre ++ (v0, m) :: post /\ key_eqb v0 v = true /\
    (forall key t, slot_put v key t vs = pre ++ (v0, <[key := t]> m) :: post) /\
    (forall key, slot_remove v key vs =
       pre ++ (if decide (size (delete key m) = 0%nat) then post else (v0, delete key m) :: post)).
Proof.
  induction vs as [|[k s] vs IH]; cbn; [done|]. destruct (key_eqb k v) eqn:E.
  - intros [= ->]. by exists [], k, vs.
  - intros Hg. destruct (IH Hg) as (pre & v0 & post & -> & He & Hp & Hr).
    exists ((k, s) :: pre), v0, post. split_and!; [done|done| |]; intros; cbn.
    + by rewrite Hp.
    + by rewrite Hr.
Qed.

Lemma slot_get_None v vs : slot_get v vs = None -> Forall (fun k => key_eqb k v = false) vs.*1.
Proof.
  induction vs as [|[k s] vs IH]; cbn; [done|]. destruct (key_eqb k v) eqn:E; [done|]. auto.
Qed.

Lemma slot_get_elem v vs v0 m : (v0, m) ∈ vs -> key_eqb v0 v = true -> is_Some (slot_get v vs).
Proof.
  induction vs as [|[k s] vs IH]; cbn; [by intros ?%not_elem_of_nil|].
  intros [[= -> ->]|H]%elem_of_cons He; [by rewrite He|]. destruct (key_eqb k v); [done|auto].
Qed.

(** ** The invariant *)

(** The treasures keep their keys: [key] names that of every object. *)
Section Slots.
Variable key : loc -> bytes.

Definition handle_key (h : handle) : bytes := match h with Live l => key l | Copied t => GetKey t end.

(** Which treasures are in which slot, as far as a lookup can tell: entries under NaN are never
    found again and stay behind. *)
Record bucket_ok (b : bucket) : Prop := {
  bo_distinct : distinct (byValue b).*1;
  bo_entry v k h : entry (byValue b) v k h -> is_NaN v = false ->
    handle_key h = k /\ exists v', byKey b !! k = Some v' /\ key_eqb v v' = true;
  bo_slot k v : byKey b !! k = Some v -> is_NaN v = false ->
    exists v' h, entry (byValue b) v' k h /\ key_eqb v' v = true
}.

Lemma bucket_ok_New path : bucket_ok (New path).
Proof.
  split; cbn; [done| |].
  - intros v k h (m & ?%not_elem_of_nil & _). done.
  - intros k v. by rewrite lookup_empty.
Qed.

(** Changing the other fields. *)
Lemma bucket_ok_same b b' :
  byValue b' = byValue b -> byKey b' = byKey b -> bucket_ok b -> bucket_ok b'.
Proof. intros Hv Hk []. split; rewrite ?Hv, ?Hk; done. Qed.

(** No slot but those of NaN has an entry for [k]. *)
Definition absent (k : bytes) (vs : list (Key * slot)) : Prop :=
  forall v h, entry vs v k h -> is_NaN v = true.

Lemma entry_app vs vs' v k h : entry (vs ++ vs') v k h <-> entry vs v k h \/ entry vs' v k h.
Proof.
  unfold entry. split.
  - intros (m & [H|H]%elem_of_app & Hm); eauto.
  - intros [(m & H & Hm)|(m & H & Hm)]; exists m; rewrite elem_of_app; auto.
Qed.
Lemma entry_cons v0 m vs v k h :
  entry ((v0, m) :: vs) v k h <-> (v = v0 /\ m !! k = Some h) \/ entry vs v k h.
Proof.
  unfold entry. split.
  - intros (m' & [[= -> ->]|H]%elem_of_cons & Hm); eauto.
  - intros [[-> Hm]|(m' & H & Hm)]; [exists m|exists m']; rewrite elem_of_cons; auto.
Qed.
Lemma entry_nil v k h : ~ entry [] v k h.
Proof. by intros (m & ?%not_elem_of_nil & _). Qed.

(** The list of slots [insertLocked] makes. *)
Definition slot_insert (v : Key) (k : bytes) (t : handle) (vs : list (Key * slot)) : list (Key * slot) :=
  match slot_get v vs with
  | Some _ => slot_put v k t vs
  | None => vs ++ [(v, {[k := t]})]
  end.

Lemma slot_insert_distinct v k t vs : distinct vs.*1 -> distinct (slot_insert v k t vs).*1.
Proof.
  intros Hd. unfold slot_insert. destruct (slot_get v vs) as [m|] eqn:E.
  - destruct (slot_get_Some _ _ _ E) as (pre & v0 & post & -> & _ & Hp & _). rewrite Hp.
    by rewrite fmap_app in Hd |- *.
  - rewrite fmap_app. by apply distinct_snoc, slot_get_None.
Qed.

Lemma slot_insert_entry v k t vs v' k' h :
  entry (slot_insert v k t vs) v' k' h ->
  (k' <> k \/ h <> t -> entry vs v' k' h) /\
  (entry vs v' k' h \/ k' = k /\ h = t /\ (is_NaN v' = false -> key_eqb v' v = true)).
Proof.
  unfold slot_insert. destruct (slot_get v vs) as [m|] eqn:E.
  - destruct (slot_get_Some _ _ _ E) as (pre & v0 & post & -> & Hv & Hp & _). rewrite Hp.
    rewrite !entry_app, !entry_cons.
    intros [H|[[-> [(-> & ->)|(Hk & H)]%lookup_insert_Some]|H]]; naive_solver.
  - rewrite entry_app, entry_cons.
    intros [H|[[-> [<- <-]%lookup_singleton_Some]|[]%entry_nil]]; [naive_solver|].
    split; [naive_solver|]. right. split_and!; try done. apply key_eqb_refl.
Qed.

Lemma slot_insert_kept v k t vs v' k' h :
  k' <> k -> entry vs v' k' h -> entry (slot_insert v k t vs) v' k' h.
Proof.
  intros Hk. unfold slot_insert. destruct (slot_get v vs) as [m|] eqn:E; [|rewrite entry_app; by left].
  destruct (slot_get_Some _ _ _ E) as (pre & v0 & post & -> & Hv & Hp & _). rewrite Hp.
  rewrite !entry_app, !entry_cons. intros [?|[[-> ?]|?]]; [by left| |by right; right].
  right; left. split; [done|]. by rewrite lookup_insert_ne.
Qed.

Lemma slot_insert_new v k t vs :
  exists v', entry (slot_insert v k t vs) v' k t /\ (is_NaN v = false -> key_eqb v' v = true).
Proof.
  unfold slot_insert. destruct (slot_get v vs) as [m|] eqn:E.
  - destruct (slot_get_Some _ _ _ E) as (pre & v0 & post & -> & Hv & Hp & _). rewrite Hp.
    exists v0. rewrite entry_app, entry_cons, lookup_insert_eq. auto.
  - exists v. rewrite entry_app, entry_cons, lookup_singleton_eq. auto using key_eqb_refl.
Qed.

(** What the invariant says of the treasures other than [k]. *)
Definition others_ok (k : bytes) (b : bucket) : Prop :=
  distinct (byValue b).*1 /\
  (forall v' k' h, k' <> k -> entry (byValue b) v' k' h -> is_NaN v' = false ->
     handle_key h = k' /\ exists w, byKey b !! k' = Some w /\ key_eqb v' w = true) /\
  (forall k' w, k' <> k -> byKey b !! k' = Some w -> is_NaN w = false ->
     exists v' h, entry (byValue b) v' k' h /\ key_eqb v' w = true).

Lemma bucket_others k b : bucket_ok b -> others_ok k b.
Proof. intros []. split_and!; auto. Qed.

(** Inserting a treasure that no slot has. *)
Lemma insertLocked_ok k v t b :
  others_ok k b -> absent k (byValue b) -> handle_key t = k -> bucket_ok (insertLocked k v t b).
Proof.
  intros (Hd & He & Hs) Ha Ht. unfold insertLocked. fold (slot_insert v k t (byValue b)).
  split; cbn; [by apply slot_insert_distinct| |].
  - intros v' k' h H Hn. destruct (slot_insert_entry _ _ _ _ _ _ _ H) as [H1 H2].
    destruct (decide (k' = k)) as [->|Hk].
    + rewrite lookup_insert_eq. destruct H2 as [H2|(_ & -> & H2)]; [|eauto].
      rewrite (Ha _ _ H2) in Hn. done.
    + rewrite lookup_insert_ne by done. apply He; auto.
  - intros k' w H Hn. destruct (decide (k' = k)) as [->|Hk].
    + rewrite lookup_insert_eq in H. simplify_eq.
      destruct (slot_insert_new w (handle_key t) t (byValue b)) as (v' & H3 & Hv). eauto.
    + rewrite lookup_insert_ne in H by done. destruct (Hs k' w Hk H Hn) as (v' & h & He' & ?).
      eauto using slot_insert_kept.
Qed.

(** Taking a treasure out of the slot it is in. *)
Lemma removeFromSlotLocked_ok k v b :
  bucket_ok b -> byKey b !! k = Some v ->
  let b' := removeFromSlotLocked v k b in
  others_ok k b' /\ absent k (byValue b') /\ byKey b' = byKey b.
Proof.
  intros [Hd He Hs] Hv. unfold removeFromSlotLocked. cbn zeta.
  destruct (slot_get v (byValue b)) as [m|] eqn:E.
  - destruct (slot_get_Some _ _ _ E) as (pre & v0 & post & Hb & Hv0 & _ & Hr). cbn. rewrite Hr.
    set (vs := pre ++ _). rewrite Hb in *.
    assert (forall v' k' h, entry vs v' k' h <->
      entry (pre ++ post) v' k' h \/ v' = v0 /\ delete k m !! k' = Some h) as Hvs.
    { intros v' k' h. subst vs. case_decide as Hsz; rewrite !entry_app, ?entry_cons; [|tauto].
      apply map_size_empty_iff in Hsz. rewrite Hsz, lookup_empty. naive_solver. }
    assert (forall v' k' h, entry (pre ++ (v0, m) :: post) v' k' h <->
      entry (pre ++ post) v' k' h \/ v' = v0 /\ m !! k' = Some h) as Hold.
    { intros v' k' h. rewrite !entry_app, entry_cons. tauto. }
    unfold others_ok. cbn [byValue byKey put_maps]. split_and!; [| | | |done].
    + eapply distinct_sublist, Hd. subst vs. rewrite !fmap_app. apply sublist_app; [done|].
      case_decide; cbn; [by constructor|done].
    + intros v' k' h Hk Hen. apply He, Hold. apply Hvs in Hen.
      rewrite lookup_delete_ne in Hen by done. done.
    + intros k' w Hk Hw Hn. destruct (Hs _ _ Hw Hn) as (v' & h & Hen & ?). exists v', h. split; [|done].
      apply Hvs. rewrite lookup_delete_ne by done. by apply Hold.
    + intros v' h Hen%Hvs. destruct (is_NaN v') eqn:Hn; [done|]. exfalso.
      destruct Hen as [(m' & Hm' & Hk)|[_ Hk]]; [|by rewrite lookup_delete_eq in Hk].
      destruct (He v' k h) as (_ & w & Hw & Hvw); [apply Hold; left; by exists m'|done|]. simplify_eq.
      pose proof (key_eqb_trans _ _ _ Hvw (key_eqb_sym _ _ Hv0)) as Hvw2.
      rewrite fmap_app in Hd. pose proof (distinct_middle pre.*1 v0 post.*1 v' Hd) as Hm.
      rewrite Hm in Hvw2; [done|]. rewrite <-fmap_app. exact (list_elem_of_fmap_2 fst _ _ Hm').
  - unfold others_ok. split_and!; auto. intros v' h Hen. destruct (is_NaN v') eqn:Hn; [done|]. exfalso.
    destruct (He v' k h Hen Hn) as (_ & w & Hw & Hvw). simplify_eq. destruct Hen as (m & Hm & _).
    destruct (slot_get_elem _ _ _ _ Hm Hvw) as [? ?]. congruence.
Qed.

(** [w] stands for the value [v] in the map of keys. *)
Definition like (w v : Key) : Prop := w = v \/ key_eqb w v = true.

Lemma absent_none k b : bucket_ok b -> byKey b !! k = None -> absent k (byValue b).
Proof.
  intros Hb Hk v h H. destruct (is_NaN v) eqn:Hn; [done|].
  destruct (bo_entry _ Hb _ _ _ H Hn) as (_ & w & Hw & _). congruence.
Qed.

Lemma insertOrUpdateLocked_ok k v t b :
  bucket_ok b -> handle_key t = k ->
  exists b' w, insertOrUpdateLocked k v t b = Some b' /\ bucket_ok b' /\ like w v /\
    byKey b' = <[k := w]> (byKey b).
Proof.
  intros Hb Ht. unfold insertOrUpdateLocked. destruct (byKey b !! k) as [old|] eqn:Ho.
  - destruct (key_eqb old v) eqn:E.
    + destruct (key_eqb_NaN _ _ E) as [Hn _]. destruct (bo_slot _ Hb _ _ Ho Hn) as (v' & h & (m & Hm & Hk) & Hv').
      destruct (slot_get_elem _ _ _ _ Hm Hv') as [m' Hm']. rewrite Hm'.
      assert (slot_put old k t (byValue b) = slot_insert old k t (byValue b)) as -> by (unfold slot_insert; by rewrite Hm').
      eexists _, old. split_and!; [done| |by right|by rewrite insert_id].
      destruct Hb as [Hd He Hs]. split; cbn; [by apply slot_insert_distinct| |].
      * intros w k' h' H Hw. destruct (slot_insert_entry _ _ _ _ _ _ _ H) as [_ [H2|(-> & -> & H2)]]; eauto.
      * intros k' w Hk' Hw. destruct (decide (k' = k)) as [->|].
        -- simplify_eq. destruct (slot_insert_new old (handle_key t) t (byValue b)) as (v2 & ? & ?). eauto.
        -- destruct (Hs _ _ Hk' Hw) as (v2 & h2 & ? & ?). eauto using slot_insert_kept.
    + destruct (removeFromSlotLocked_ok k old b Hb Ho) as (Hb' & Ha & Hk).
      eexists _, v. split_and!; [done|by apply insertLocked_ok|by left|]. cbn. by rewrite Hk.
  - eexists _, v. split_and!; [done| |by left|done].
    apply insertLocked_ok; [by apply bucket_others|by apply absent_none|done].
Qed.

Lemma deleteLocked_ok k b :
  bucket_ok b -> bucket_ok (deleteLocked k b) /\ byKey (deleteLocked k b) = delete k (byKey b).
Proof.
  intros Hb. unfold deleteLocked. destruct (byKey b !! k) as [old|] eqn:Ho; [|by rewrite delete_id].
  destruct (removeFromSlotLocked_ok k old b Hb Ho) as ((Hd & He & Hs) & Ha & Hk).
  cbn. rewrite Hk in *. split; [|done]. split; cbn; [done| |].
  - intros v k' h H Hn. destruct (decide (k' = k)) as [->|Hne].
    + by rewrite (Ha _ _ H) in Hn.
    + rewrite lookup_delete_ne by done. by apply He.
  - intros k' w Hw Hn. apply lookup_delete_Some in Hw as [Hne Hw]. by apply Hs.
Qed.

(** ** Keys in their ranges *)

Definition keys_ok (b : bucket) : Prop :=
  (forall k v, byKey b !! k = Some v -> key_ok v) /\ Forall key_ok (byValue b).*1.

Lemma slot_put_keys v k t vs : (slot_put v k t vs).*1 = vs.*1.
Proof. induction vs as [|[v' m] vs IH]; cbn; [done|]. destruct (key_eqb v' v); cbn; by rewrite ?IH. Qed.

Lemma slot_remove_keys v k vs : Forall key_ok vs.*1 -> Forall key_ok (slot_remove v k vs).*1.
Proof.
  induction vs as [|[v' m] vs IH]; cbn; [done|]. intros [Hv Hvs]%Forall_cons.
  destruct (key_eqb v' v); [case_decide; [done|]|]; constructor; auto.
Qed.

Lemma insertLocked_keys k v t b : key_ok v -> keys_ok b -> keys_ok (insertLocked k v t b).
Proof.
  intros Hv [Hk Hs]. split; cbn.
  - intros k' v' [(_ & ->)|[_ ?]]%lookup_insert_Some; [done|by eapply Hk].
  - destruct (slot_get v (byValue b)); [by rewrite slot_put_keys|].
    rewrite fmap_app. apply Forall_app_2; [done|]. by apply Forall_cons; split.
Qed.

Lemma removeFromSlotLocked_keys v k b : keys_ok b -> keys_ok (removeFromSlotLocked v k b).
Proof.
  intros [Hk Hs]. unfold removeFromSlotLocked. destruct (slot_get v (byValue b)); [|done].
  split; cbn; [done|by apply slot_remove_keys].
Qed.

Lemma insertOrUpdateLocked_keys k v t b b' :
  key_ok v -> keys_ok b -> insertOrUpdateLocked k v t b = Some b' -> keys_ok b'.
Proof.
  intros Hv Hb. unfold insertOrUpdateLocked. repeat case_match; intros [= <-];
    try apply insertLocked_keys; try apply removeFromSlotLocked_keys; try done.
  destruct Hb as [? ?]. split; cbn; [done|by rewrite slot_put_keys].
Qed.

Lemma deleteLocked_keys k b : keys_ok b -> keys_ok (deleteLocked k b).
Proof.
  intros Hb. unfold deleteLocked. destruct (byKey b !! k) as [v|]; [|done].
  destruct (removeFromSlotLocked_keys v k b Hb) as [Hk Hs]. split; cbn; [|done].
  intros k' v' [_ ?]%lookup_delete_Some. by eapply Hk.
Qed.

(** ** Lookups *)

Section Lookup.
Context `{FI : FloatToInt} `{!FloatToIntOk} `{SR : SlotRange} `{!SlotRangeOk}.

(** One slot of the answer. *)
Definition part (want : Key) (p : Key * slot) : list handle :=
  if Equal p.1 want then (slot_range p.2).*2 else [].

Lemma collect_parts want b :
  distinct (byValue b).*1 -> collectMatchingLocked want b ≡ₚ concat (map (part want) (byValue b)).
Proof.
  intros Hd. unfold collectMatchingLocked. set (f := fun '(k, m) => if key_eqb k want then _ else _).
  assert (concat (map f (value_range (byValue b))) ≡ₚ concat (map f (byValue b))) as ->
    by (by rewrite (value_range_perm (byValue b))).
  assert (forall vs, Forall (fun k => key_eqb k want = false) vs.*1 ->
    concat (map f vs) = concat (map (part want) vs)) as Hf.
  { induction vs as [|[k m] vs IH]; cbn; [done|]. intros [Hk Hvs]%Forall_cons.
    rewrite IH by done. unfold part. cbn. by rewrite Hk. }
  destruct (slot_get want (byValue b)) as [m|] eqn:E; [|rewrite Hf; [done|by apply slot_get_None]].
  destruct (slot_get_Some _ _ _ E) as (pre & v0 & post & Hb & Hv & _). rewrite Hb in *.
  rewrite fmap_app in Hd. cbn [fmap list_fmap fst] in Hd.
  assert (Forall (fun k => key_eqb k want = false) (pre.*1 ++ post.*1)) as [Hpre Hpost]%Forall_app.
  { apply Forall_forall. intros k Hk. destruct (key_eqb k want) eqn:Ek; [|done].
    rewrite <-(distinct_middle _ _ _ _ Hd Hk). symmetry. eauto using key_eqb_trans, key_eqb_sym. }
  rewrite !map_app, !concat_app. cbn. rewrite Hv, !Hf by done.
  assert (part want (v0, m) = (slot_range m).*2) as ->
    by (unfold part; cbn; by rewrite (key_eqb_Equal _ _ Hv)).
  apply Permutation_app_swap_app.
Qed.

Lemma slot_values m h : h ∈ (slot_range m).*2 <-> exists k, m !! k = Some h.
Proof.
  rewrite (slot_range_perm m), list_elem_of_fmap. split.
  - intros ([k h'] & -> & Hk%elem_of_map_to_list). eauto.
  - intros [k Hk]. exists (k, h). by rewrite elem_of_map_to_list.
Qed.

(** The keys of the treasures of a slot are those of the slot. *)
Lemma slot_keys m :
  (forall k h, m !! k = Some h -> handle_key h = k) ->
  map handle_key (slot_range m).*2 ≡ₚ (map_to_list m).*1.
Proof.
  intros Hm. rewrite (slot_range_perm m).
  assert (forall p, p ∈ map_to_list m -> handle_key p.2 = p.1) as Hp
    by (intros [k h] Hk%elem_of_map_to_list; by apply Hm).
  induction (map_to_list m) as [|p l IH]; cbn; [done|]. rewrite Hp by (by left).
  rewrite IH; [done|]. intros. apply Hp. by right.
Qed.

Lemma parts_spec (want : Key) (vs : list (Key * slot)) (ks : gmap bytes Key) :
  distinct vs.*1 ->
  (forall (v : Key) (m : slot), (v, m) ∈ vs -> Equal v want = true -> forall k h, m !! k = Some h ->
     handle_key h = k /\ exists w, ks !! k = Some w /\ key_eqb v w = true) ->
  NoDup (map handle_key (concat (map (part want) vs))).
Proof.
  induction vs as [|[v m] vs IH]; cbn; [constructor|]. intros [Hv Hd] He. rewrite map_app.
  apply NoDup_app. split_and!.
  - unfold part. cbn. destruct (Equal v want) eqn:E; [|constructor].
    rewrite slot_keys; [apply NoDup_fst_map_to_list|]. intros k h Hk. eapply He; [by left|done|done].
  - intros k (h & -> & Hh)%list_elem_of_fmap (h' & Hk & Hh')%list_elem_of_fmap.
    unfold part in Hh. cbn in Hh. destruct (Equal v want) eqn:E; [|by apply not_elem_of_nil in Hh].
    apply slot_values in Hh as [k Hkm].
    destruct (He v m ltac:(by left) E _ _ Hkm) as (Hhk & w & Hw & Hvw).
    apply list_elem_of_In, in_concat in Hh' as (l & (q & <- & Hq)%in_map_iff & Hl).
    apply list_elem_of_In in Hq, Hl. destruct q as [v' m']. unfold part in Hl. cbn in Hl.
    destruct (Equal v' want) eqn:E'; [|by apply not_elem_of_nil in Hl].
    apply slot_values in Hl as [k' Hkm'].
    destruct (He v' m' ltac:(by right) E' _ _ Hkm') as (Hhk' & w' & Hw' & Hvw').
    assert (w' = w) as -> by congruence.
    pose proof (key_eqb_trans _ _ _ Hvw (key_eqb_sym _ _ Hvw')) as Hvw2.
    rewrite Forall_forall in Hv. rewrite (Hv v') in Hvw2; [done|exact (list_elem_of_fmap_2 fst _ _ Hq)].
  - apply IH; [done|]. intros. eapply He; [by right|done|done].
Qed.

(** An answer holds the keys that have an equal value, each once. *)
Lemma collect_spec want b :
  bucket_ok b -> keys_ok b -> key_ok want ->
  let out := map handle_key (collectMatchingLocked want b) in
  NoDup out /\ forall k, k ∈ out <-> exists v, byKey b !! k = Some v /\ Equal v want = true.
Proof.
  intros [Hd He Hs] [Hk Hvs'] Hw. cbn zeta.
  assert (forall v m, (v, m) ∈ byValue b -> key_ok v) as Hvs.
  { intros v m Hm. rewrite Forall_forall in Hvs'. apply Hvs'. exact (list_elem_of_fmap_2 fst _ _ Hm). }
  assert (forall v m, (v, m) ∈ byValue b -> Equal v want = true -> is_NaN v = false) as Hnan.
  { intros v m Hm E. destruct (is_NaN v) eqn:Hn; [|done].
    by rewrite (Equal_NaN _ _ Hn (Hvs _ _ Hm) Hw) in E. }
  pose proof (collect_parts want b Hd) as Hp. split.
  - rewrite Hp. apply (parts_spec want _ (byKey b) Hd). intros v m Hm E k h Hkm.
    apply He; [by exists m|by eapply Hnan].
  - intros k. rewrite list_elem_of_fmap. split.
    + intros (h & -> & Hh). rewrite Hp in Hh. apply list_elem_of_In, in_concat in Hh as (l & (q & <- & Hq)%in_map_iff & Hl).
      apply list_elem_of_In in Hq, Hl. destruct q as [v m]. unfold part in Hl. cbn in Hl.
      destruct (Equal v want) eqn:E; [|by apply not_elem_of_nil in Hl].
      apply slot_values in Hl as [k' Hkm].
      destruct (He v k' h) as (-> & w & Hkw & Hvw); [by exists m|by eapply Hnan|].
      exists w. split; [done|]. by rewrite <-(Equal_eqb _ _ want Hvw) by eauto.
    + intros (v & Hv & E).
      assert (is_NaN v = false) as Hn.
      { destruct (is_NaN v) eqn:Hn; [|done]. by rewrite (Equal_NaN _ _ Hn (Hk _ _ Hv) Hw) in E. }
      destruct (Hs _ _ Hv Hn) as (v' & h & (m & Hm & Hkm) & Hv').
      exists h. split.
      * destruct (He v' k h) as [-> _]; [by exists m| |done]. by apply key_eqb_NaN in Hv' as [? _].
      * rewrite Hp. apply list_elem_of_In, in_concat. exists (part want (v', m)). split.
        -- by apply (in_map (part want)), list_elem_of_In.
        -- apply list_elem_of_In. unfold part. cbn. rewrite (Equal_eqb _ _ want Hv'), E by eauto.
           apply slot_values. eauto.
Qed.
End Lookup.
End Slots.
