(* ===== verification/Indexing.v ===== *)
(** A field index among the saves, deletions and builds of its swamp:
    [GetOrBuildBucket] and the [notifyBuckets...] calls of
    [core/hydra/swamp/swamp_bucket.go].

    A save or a deletion changes the swamp first and tells the index later; a build registers
    the index, copies the treasures, fills the index and drains what was reported meanwhile.
    Each of these is a step, and the steps of the goroutines interleave freely. *)
From S2P Require Import Prelude Steps Types Compressor Block FileSys Reader Treasure Beacon Canon.
From S2P Require Import Bucket Slots.
#[local] Set Warnings "-clear-no-such-hyp".

(** What a goroutine still has to tell the index. *)
Inductive notice : Type := NInsert (l : loc) | NUpdate (l : loc) | NDelete.

(** Where a call of [GetOrBuildBucket] is. *)
Inductive stage : Type :=
| Entered                        (** registered or found the bucket, not initialised *)
| Snapped (snapshot : slot)
| Built
| Took (ops : list PendingOp).   (** inside [DrainPending] *)

Record sys := {
  heap : gmap loc treasure;
  live : gmap bytes loc;                   (** the map of [beaconKey] *)
  owed : gmap nat (bytes * notice);
  index : option bucket;                   (** [s.buckets[fieldPath]] *)
  builders : gmap nat stage
}.

Definition deref (s : sys) (l : loc) : treasure := default Treasure.New (heap s !! l).

Inductive event : Type :=
| ESave (g : nat) (k : bytes) (l : loc) (t : treasure)  (** the object [l] becomes [t] *)
| EDelete (g : nat) (k : bytes) (t : treasure)
| ENotify (g : nat)
| EEnter (b : nat)
| ESnapshot (b : nat)
| EBuild (b : nat)
| ETake (b : nat)
| EApply (b : nat).

Section Indexing.
Context `{FI : FloatToInt} `{MP : Msgpack} `{SR : SlotRange}.
Variable path : bytes.

Definition set_index (o : option bucket) (bs : gmap nat stage) (s : sys) : sys :=
  {| heap := heap s; live := live s; owed := owed s; index := o; builders := bs |}.
Definition set_live (h : gmap loc treasure) (m : gmap bytes loc) (o : gmap nat (bytes * notice)) (s : sys) : sys :=
  {| heap := h; live := m; owed := o; index := index s; builders := builders s |}.

(** [notifyBucketsInsert], [notifyBucketsUpdate] and [notifyBucketsDelete]. *)
Definition deliver (d : loc -> treasure) (k : bytes) (n : notice) (b : bucket) : option bucket :=
  match n with
  | NInsert l => OnInsert d (Live l) b
  | NUpdate l => OnUpdate d (Live l) b
  | NDelete => Some (OnDelete k b)
  end.

(** [s.beaconKey.CloneUnorderedTreasures(false)] *)
Definition snapshot (s : sys) : slot := (fun l => Copied (copy (deref s l))) <$> live s.

Definition of_option {A} (o : option A) : outcome A :=
  match o with Some a => Next a | None => Panic end.

Definition index_step (e : event) (s : sys) : outcome sys :=
  match e with
  | ESave g k l t =>
      match owed s !! g with
      | Some _ => Disabled
      | None =>
          let n := match live s !! k with Some _ => NUpdate l | None => NInsert l end in
          Next (set_live (<[l := t]> (heap s)) (<[k := l]> (live s)) (<[g := (k, n)]> (owed s)) s)
      end
  | EDelete g k t =>
      match owed s !! g, live s !! k with
      | None, Some l => Next (set_live (<[l := t]> (heap s)) (delete k (live s)) (<[g := (k, NDelete)]> (owed s)) s)
      | _, _ => Disabled
      end
  | ENotify g =>
      match owed s !! g with
      | None => Disabled
      | Some (k, n) =>
          let s := set_live (heap s) (live s) (delete g (owed s)) s in
          match index s with
          | None => Next s
          | Some b =>
              match deliver (deref s) k n b with
              | None => Panic
              | Some b => Next (set_index (Some b) (builders s) s)
              end
          end
      end
  | EEnter t =>
      match builders s !! t, index s with
      | Some _, _ => Disabled
      | None, None => Next (set_index (Some (SetBuildInFlight true (New path))) (<[t := Entered]> (builders s)) s)
      | None, Some b =>
          if equalityInit b then Disabled else Next (set_index (Some b) (<[t := Entered]> (builders s)) s)
      end
  | ESnapshot t =>
      match builders s !! t with
      | Some Entered => Next (set_index (index s) (<[t := Snapped (snapshot s)]> (builders s)) s)
      | _ => Disabled
      end
  | EBuild t =>
      match builders s !! t, index s with
      | Some (Snapped snap), Some b =>
          Next (set_index (Some (BuildEquality (deref s) snap b)) (<[t := Built]> (builders s)) s)
      | _, _ => Disabled
      end
  | ETake t =>
      match builders s !! t, index s with
      | Some Built, Some b =>
          match take_pending b with
          | (b, None) => Next (set_index (Some b) (delete t (builders s)) s)
          | (b, Some ops) => Next (set_index (Some b) (<[t := Took ops]> (builders s)) s)
          end
      | _, _ => Disabled
      end
  | EApply t =>
      match builders s !! t, index s with
      | Some (Took ops), Some b =>
          match replay (deref s) ops b with
          | None => Panic
          | Some b => Next (set_index (Some b) (<[t := Built]> (builders s)) s)
          end
      | _, _ => Disabled
      end
  end.

(** ** What the code relies on *)

Variable key : loc -> bytes.

(** The saves and deletions of one key follow each other, objects keep their keys and have one
    value, and one goroutine builds. *)
Definition nobody_owes (k : bytes) (s : sys) : Prop :=
  forall g n, owed s !! g <> Some (k, n).
Definition object_ok (l : loc) (t : treasure) : Prop := GetKey t = key l /\ valid_treasure t.
Definition allowed (e : event) (s : sys) : Prop :=
  match e with
  | ESave _ k l t => nobody_owes k s /\ object_ok l t /\ key l = k /\
                     (forall l', live s !! k = Some l' -> l' = l)
  | EDelete _ k t => nobody_owes k s /\ (forall l, live s !! k = Some l -> object_ok l t)
  | EEnter _ => builders s = ∅
  | _ => True
  end.
Fixpoint orderly (es : list event) (s : sys) : Prop :=
  match es with
  | [] => True
  | e :: es => allowed e s /\ forall s', index_step e s = Next s' -> orderly es s'
  end.

Lemma orderly_cons e es s s' :
  allowed e s -> index_step e s = Next s' -> orderly es s' -> orderly (e :: es) s.
Proof. intros Ha He Ho. split; [done|]. intros s1 E. rewrite He in E. by injection E as <-. Qed.

Lemma nobody_owes_nil k s : owed s = ∅ -> nobody_owes k s.
Proof. intros Ho g n. by rewrite Ho, lookup_empty. Qed.

(** A swamp with its treasures, and no index yet. *)
Definition start (s : sys) : Prop :=
  owed s = ∅ /\ index s = None /\ builders s = ∅ /\
  (forall l t, heap s !! l = Some t -> object_ok l t) /\
  (forall k l, live s !! k = Some l -> key l = k /\ is_Some (heap s !! l)).

(** ** Replaying *)

Definition op_key (op : PendingOp) : bytes :=
  match op with PendingInsert h | PendingUpdate h => handle_key key h | PendingDelete k => k end.
Definition op_handle (op : PendingOp) : option handle :=
  match op with PendingInsert h | PendingUpdate h => Some h | PendingDelete _ => None end.

(** What the last report of [k] says. *)
Fixpoint last_for (k : bytes) (ops : list PendingOp) : option (option handle) :=
  match ops with
  | [] => None
  | op :: ops =>
      match last_for k ops with
      | Some o => Some o
      | None => if decide (op_key op = k) then Some (op_handle op) else None
      end
  end.

Lemma last_for_app k ops ops' :
  last_for k (ops ++ ops') = match last_for k ops' with Some o => Some o | None => last_for k ops end.
Proof. induction ops as [|op ops IH]; cbn; [by destruct (last_for k ops')|]. rewrite IH. by destruct (last_for k ops'). Qed.

Definition handle_ok (d : loc -> treasure) (h : handle) : Prop :=
  match h with Live l => GetKey (d l) = key l | Copied _ => True end.
Definition op_ok (d : loc -> treasure) (op : PendingOp) : Prop :=
  match op_handle op with Some h => handle_ok d h | None => True end.

Lemma look_key d h : handle_ok d h -> GetKey (look d h) = handle_key key h.
Proof. by destruct h. Qed.

(** Everything but the two maps. *)
Definition rest (b : bucket) : bytes * bool * list PendingOp * bool * bool :=
  (fieldPath b, equalityInit b, pending b, buildInFlight b, buildOnce b).

Lemma insertLocked_rest k v t b : rest (insertLocked k v t b) = rest b.
Proof. done. Qed.
Lemma removeFromSlotLocked_rest v k b : rest (removeFromSlotLocked v k b) = rest b.
Proof. unfold removeFromSlotLocked. by destruct (slot_get v (byValue b)). Qed.
Lemma insertOrUpdateLocked_rest k v t b b' : insertOrUpdateLocked k v t b = Some b' -> rest b' = rest b.
Proof.
  unfold insertOrUpdateLocked. repeat case_match; intros [= <-]; try done.
  by rewrite insertLocked_rest, removeFromSlotLocked_rest.
Qed.
Lemma deleteLocked_rest k b : rest (deleteLocked k b) = rest b.
Proof.
  unfold deleteLocked. destruct (byKey b !! k); [|done].
  etransitivity; [|apply removeFromSlotLocked_rest]. done.
Qed.

Definition good (b : bucket) : Prop := bucket_ok key b /\ keys_ok b.

Context `{!FloatToIntOk}.
Hypothesis Unmarshal_ok : forall body m, Unmarshal body = Some m -> any_ok (AMap m).

Lemma key_or_null_ok t p : key_ok (key_or_null t p).
Proof.
  unfold key_or_null, extractKey. destruct (GetContentByteArray t) as [[|x body]|]; try done.
  destruct (Unmarshal _) as [m|] eqn:E; [|done].
  apply Canonicalize_ok, extractFieldByPath_ok. by eapply Unmarshal_ok.
Qed.

(** What the maps say of [k] after the report [o]. *)
Definition reported (d : loc -> treasure) (o : option handle) (v : option Key) : Prop :=
  match o with
  | None => v = None
  | Some h => exists w, v = Some w /\ like w (key_or_null (look d h) path)
  end.

Lemma apply_treasure_spec d h b :
  good b -> fieldPath b = path -> handle_ok d h ->
  exists b' w, apply_treasure d h b = Some b' /\ good b' /\ rest b' = rest b /\
    like w (key_or_null (look d h) path) /\ byKey b' = <[handle_key key h := w]> (byKey b).
Proof.
  intros [Hb Hk] Hp Hh. unfold apply_treasure. rewrite Hp, look_key by done.
  destruct (insertOrUpdateLocked_ok key (handle_key key h) (key_or_null (look d h) path) h b Hb eq_refl)
    as (b' & w & E & Hb' & Hw & Hbk).
  exists b', w. split_and!; try done; [split; [done|]|by eapply insertOrUpdateLocked_rest].
  eapply insertOrUpdateLocked_keys; [|done|done]. apply key_or_null_ok.
Qed.

Lemma replay_ops_spec d ops : forall b,
  good b -> fieldPath b = path -> Forall (op_ok d) ops ->
  exists b', replay d ops b = Some b' /\ good b' /\ rest b' = rest b /\
    forall k, match last_for k ops with
              | Some o => reported d o (byKey b' !! k)
              | None => byKey b' !! k = byKey b !! k
              end.
Proof.
  induction ops as [|op ops IH]; intros b Hb Hp Ho; cbn; [by exists b|].
  apply Forall_cons in Ho as [Ho Hops].
  assert (exists b1, apply_op d op b = Some b1 /\ good b1 /\ rest b1 = rest b /\
    forall k, if decide (op_key op = k) then reported d (op_handle op) (byKey b1 !! k)
              else byKey b1 !! k = byKey b !! k) as (b1 & -> & Hb1 & Hr1 & H1).
  { destruct op as [h|h|k]; cbn.
    1,2: destruct (apply_treasure_spec d h b Hb Hp Ho) as (b1 & w & -> & Hb1 & Hr1 & Hw & Hk);
      exists b1; split_and!; try done; intros k; rewrite Hk; case_decide as Hd;
      [rewrite Hd, lookup_insert_eq; by exists w|by rewrite lookup_insert_ne].
    destruct Hb as [Hb Hks]. destruct (deleteLocked_ok key k b Hb) as [Hb1 Hk].
    exists (deleteLocked k b). split_and!; [done|by split; [|apply deleteLocked_keys]|apply deleteLocked_rest|].
    intros k'. rewrite Hk. case_decide as Hd; [rewrite <-Hd; apply lookup_delete_eq|by rewrite lookup_delete_ne]. }
  assert (fieldPath b1 = path) as Hp1 by (unfold rest in Hr1; congruence).
  destruct (IH b1 Hb1 Hp1 Hops) as (b' & E & Hb' & Hr' & H'). cbn. exists b'.
  split_and!; [done|done|congruence|]. intros k. specialize (H' k). specialize (H1 k).
  destruct (last_for k ops); [done|]. case_decide; by rewrite H'.
Qed.

Lemma build_loop_spec d l : forall b,
  NoDup l.*1 -> (forall k h, (k, h) ∈ l -> handle_key key h = k) ->
  (forall k, k ∈ l.*1 -> byKey b !! k = None) -> good b -> fieldPath b = path ->
  good (build_loop d l b) /\ rest (build_loop d l b) = rest b /\
  forall k, byKey (build_loop d l b) !! k =
    match list_to_map (M := gmap bytes handle) l !! k with
    | Some h => Some (key_or_null (look d h) path)
    | None => byKey b !! k
    end.
Proof.
  induction l as [|[k h] l IH]; intros b Hnd Hh Hn [Hb Hks] Hp; cbn.
  { by split_and!. }
  cbn in Hnd. apply NoDup_cons in Hnd as [Hk Hnd].
  destruct (IH (insertLocked k (key_or_null (look d h) (fieldPath b)) h b) Hnd) as (Hg & Hr & Hl).
  - intros k' h' Hin. apply Hh. by right.
  - intros k' Hk'. cbn. rewrite lookup_insert_ne by (intros ->; done). apply Hn. by right.
  - split.
    + apply insertLocked_ok; [by apply bucket_others| |apply Hh; by left].
      apply (absent_none key); [done|]. apply Hn. by left.
    + apply insertLocked_keys; [apply key_or_null_ok|done].
  - done.
  - split_and!; [done|done|]. intros k'. rewrite Hl. cbn. rewrite Hp.
    destruct (decide (k = k')) as [->|Hne].
    + rewrite !lookup_insert_eq. by rewrite not_elem_of_list_to_map_1.
    + by rewrite !lookup_insert_ne.
Qed.

Context `{!SlotRangeOk}.

Lemma BuildEquality_spec d snap b :
  good b -> fieldPath b = path -> byKey b = ∅ -> buildOnce b = false ->
  (forall k h, snap !! k = Some h -> handle_key key h = k) ->
  let b' := BuildEquality d snap b in
  good b' /\ rest b' = (path, true, pending b, buildInFlight b, true) /\
  forall k, byKey b' !! k = (fun h => key_or_null (look d h) path) <$> (snap !! k).
Proof.
  intros Hb Hp He Ho Hs. unfold BuildEquality. rewrite Ho. cbn zeta.
  pose proof (slot_range_perm snap) as Hperm.
  destruct (build_loop_spec d (slot_range snap) b) as (Hg & Hr & Hl); [| | |done|done|].
  - rewrite Hperm. apply NoDup_fst_map_to_list.
  - intros k h Hk. rewrite Hperm, elem_of_map_to_list in Hk. by apply Hs.
  - intros. by rewrite He, lookup_empty.
  - unfold rest in Hr. injection Hr as Hr1 Hr2 Hr3 Hr4 Hr5.
    split_and!.
    + destruct Hg as [Hg1 Hg2]. split; [|done]. by apply (bucket_ok_same key (build_loop d (slot_range snap) b)).
    + unfold rest. cbn. congruence.
    + intros k. cbn. rewrite Hl, He, lookup_empty.
      rewrite (list_to_map_proper _ (map_to_list snap)) by
        (done || (rewrite Hperm; apply NoDup_fst_map_to_list)).
      rewrite list_to_map_to_list. by destruct (snap !! k).
Qed.

(** ** The invariant *)

(** The index says of [k] what the swamp says. *)
Definition settled_key (s : sys) (b : bucket) (k : bytes) : Prop :=
  reported (deref s) (Live <$> live s !! k) (byKey b !! k).

Definition snap_key (s : sys) (snap : slot) (k : bytes) : Prop :=
  match live s !! k with
  | Some l => exists t, snap !! k = Some (Copied t) /\ key_or_null t path = key_or_null (deref s l) path
  | None => snap !! k = None
  end.

Definition batch (st : option stage) : list PendingOp :=
  match st with Some (Took ops) => ops | _ => [] end.

Definition base (st : option stage) (s : sys) (b : bucket) (k : bytes) : Prop :=
  match st with
  | Some Entered => True
  | Some (Snapped snap) => snap_key s snap k
  | _ => settled_key s b k
  end.

Definition settled (st : option stage) (s : sys) (b : bucket) (k : bytes) : Prop :=
  match last_for k (batch st ++ pending b) with
  | Some o => o = Live <$> live s !! k
  | None => base st s b k
  end.

Definition phase (st : option stage) (b : bucket) : Prop :=
  match st with
  | None => equalityInit b = true /\ buildInFlight b = false /\ pending b = []
  | Some st =>
      buildInFlight b = true /\
      match st with
      | Entered => byKey b = ∅ /\ buildOnce b = false
      | Snapped snap => byKey b = ∅ /\ buildOnce b = false /\
                        forall k h, snap !! k = Some h -> handle_key key h = k
      | Built | Took _ => equalityInit b = true
      end
  end.

Definition stage_of (st : option stage) (bs : gmap nat stage) : Prop :=
  match st with None => bs = ∅ | Some st => exists t, bs = {[t := st]} end.

Record index_inv (s : sys) (b : bucket) : Prop := {
  ii_good : good b;
  ii_path : fieldPath b = path;
  ii_ops : Forall (op_ok (deref s)) (pending b);
  ii_stage : exists st, stage_of st (builders s) /\ phase st b /\ Forall (op_ok (deref s)) (batch st) /\
             forall k, nobody_owes k s -> settled st s b k
}.

Record inv (s : sys) : Prop := {
  inv_heap l t : heap s !! l = Some t -> object_ok l t;
  inv_live k l : live s !! k = Some l -> key l = k /\ is_Some (heap s !! l);
  inv_owed g k n : owed s !! g = Some (k, n) ->
    match n with NInsert l | NUpdate l => live s !! k = Some l | NDelete => live s !! k = None end;
  inv_once g g' k n n' : owed s !! g = Some (k, n) -> owed s !! g' = Some (k, n') -> g = g';
  inv_index : match index s with None => builders s = ∅ | Some b => index_inv s b end
}.

Lemma start_inv s : start s -> inv s.
Proof.
  intros (Ho & Hi & Hb & Hh & Hl). split; try done.
  - intros g k n. by rewrite Ho, lookup_empty.
  - intros g g' k n n'. by rewrite Ho, lookup_empty.
  - by rewrite Hi.
Qed.

(** ** The steps keep it *)

Lemma settled_frame s s' st b k :
  live s' !! k = live s !! k -> (forall l, live s !! k = Some l -> deref s' l = deref s l) ->
  settled st s b k -> settled st s' b k.
Proof.
  intros Hl Hd. unfold settled. rewrite Hl. destruct (last_for k _); [done|].
  assert (settled_key s b k -> settled_key s' b k) as Hk.
  { unfold settled_key. rewrite Hl. destruct (live s !! k) as [l|]; cbn; [|done]. by rewrite Hd. }
  unfold base, snap_key. rewrite Hl. destruct (live s !! k) as [l|] eqn:E; [rewrite Hd by done|];
    destruct st as [[]|]; auto.
Qed.

Lemma deref_other s h m o l :
  h !! l = heap s !! l -> deref (set_live h m o s) l = deref s l.
Proof. unfold deref. cbn. by intros ->. Qed.

(** A save or a deletion, up to its report. *)
Lemma mutate_inv s g k l t m' n :
  inv s -> owed s !! g = None -> nobody_owes k s -> object_ok l t -> key l = k ->
  (forall k', k' <> k -> m' !! k' = live s !! k') ->
  match n with NInsert l' | NUpdate l' => l' = l /\ m' !! k = Some l | NDelete => m' !! k = None end ->
  inv (set_live (<[l := t]> (heap s)) m' (<[g := (k, n)]> (owed s)) s).
Proof.
  intros [Hh Hl Ho Hu Hi] Hfree Hn Ht Hk Hm Hnew. set (s' := set_live _ _ _ s).
  assert (forall k' l', k' <> k -> live s !! k' = Some l' -> deref s' l' = deref s l') as Hd.
  { intros k' l' Hne Hl'. apply deref_other. apply Hl in Hl' as [Hl' _].
    apply lookup_insert_ne. intros ->. congruence. }
  split; cbn.
  - intros l' t' [[-> ->]|[_ ?]]%lookup_insert_Some; [done|by apply Hh].
  - intros k' l' Hl'. destruct (decide (k' = k)) as [->|Hne].
    + assert (l' = l) as -> by (destruct n; destruct_and?; congruence).
      rewrite lookup_insert_eq. eauto.
    + rewrite Hm in Hl' by done. apply Hl in Hl' as [? [t' ?]]. split; [done|].
      destruct (decide (l = l')) as [->|]; [rewrite lookup_insert_eq|rewrite lookup_insert_ne by done]; eauto.
  - intros g' k' n' [[-> [= -> ->]]|[_ Hg]]%lookup_insert_Some; [destruct n'; naive_solver|].
    assert (k' <> k) by (intros ->; by eapply Hn). rewrite Hm by done. by eapply Ho.
  - intros g1 g2 k' n1 n2 [[-> [= -> ->]]|[_ Hg1]]%lookup_insert_Some
      [[-> E]|[_ Hg2]]%lookup_insert_Some; try done.
    + exfalso. by eapply Hn.
    + injection E as -> ->. exfalso. by eapply Hn.
    + by eapply Hu.
  - destruct (index s) as [b|]; [|done]. destruct Hi as [Hg Hp Hops (st & Hst & Hph & Hb & Hs)].
    assert (forall op, op_ok (deref s) op -> op_ok (deref s') op) as Hop.
    { intros op. unfold op_ok. destruct (op_handle op) as [[l'|]|]; cbn; try done.
      unfold deref, s'. cbn. destruct (decide (l = l')) as [->|].
      - rewrite lookup_insert_eq. intros _. apply Ht.
      - by rewrite lookup_insert_ne. }
    split; [done|done|by eapply Forall_impl|]. exists st. split_and!; [done|done|by eapply Forall_impl|].
    intros k' Hk'. assert (k' <> k) as Hne.
    { intros ->. apply (Hk' g n). cbn. apply lookup_insert_eq. }
    assert (nobody_owes k' s) as Hk''.
    { intros g' n' Hg'. destruct (decide (g = g')) as [->|].
      - congruence.
      - apply (Hk' g' n'). cbn. by rewrite lookup_insert_ne. }
    apply (settled_frame s s' st b k'); [exact (Hm k' Hne)|intros; by eapply Hd|by apply Hs].
Qed.

(** The report a notice makes. *)
Definition notice_op (k : bytes) (n : notice) : PendingOp :=
  match n with NInsert l => PendingInsert (Live l) | NUpdate l => PendingUpdate (Live l) | NDelete => PendingDelete k end.

Lemma deliver_cases d k n b :
  deliver d k n b =
  if buildInFlight b then Some (put_pending (pending b ++ [notice_op k n]) b)
  else if negb (equalityInit b) then Some b else apply_op d (notice_op k n) b.
Proof.
  destruct n; cbn; unfold OnInsert, OnUpdate, OnDelete, tryEnqueue; destruct (buildInFlight b); try done;
    by destruct (negb (equalityInit b)).
Qed.

Lemma replay_one d op b : replay d [op] b = apply_op d op b.
Proof. cbn. by destruct (apply_op d op b). Qed.

Lemma last_for_snoc k ops op :
  last_for k (ops ++ [op]) = if decide (op_key op = k) then Some (op_handle op) else last_for k ops.
Proof. rewrite last_for_app. cbn. by case_decide. Qed.

(** A report that reaches the index. *)
Lemma deliver_inv s k n b st :
  good b -> fieldPath b = path -> Forall (op_ok (deref s)) (pending b) ->
  phase st b -> (forall k', k' <> k -> nobody_owes k' s -> settled st s b k') ->
  op_ok (deref s) (notice_op k n) -> op_key (notice_op k n) = k ->
  op_handle (notice_op k n) = Live <$> live s !! k ->
  exists b', deliver (deref s) k n b = Some b' /\ good b' /\ fieldPath b' = path /\
    Forall (op_ok (deref s)) (pending b') /\ phase st b' /\
    forall k', nobody_owes k' s -> settled st s b' k'.
Proof.
  intros Hg Hp Hops Hph Hs Hop Hk Hh. rewrite deliver_cases. destruct (buildInFlight b) eqn:Hf.
  - eexists. split; [done|]. split_and!.
    + destruct Hg as [H1 H2]. split; [by apply (bucket_ok_same key b)|done].
    + done.
    + cbn. apply Forall_app_2; [done|]. by apply Forall_cons; split.
    + destruct st; cbn in *; [done|]. destruct_and?. congruence.
    + intros k' Hk'. unfold settled. cbn. rewrite app_assoc, last_for_snoc. case_decide as Hd.
      * by rewrite Hh, <-Hd, Hk.
      * apply Hs; [congruence|done].
  - destruct st as [st|]; cbn in Hph; [by destruct_and?; congruence|]. destruct Hph as (Hi & _ & Hpe).
    rewrite Hi. cbn [negb]. rewrite <-replay_one.
    destruct (replay_ops_spec (deref s) [notice_op k n] b Hg Hp) as (b' & E & Hg' & Hr & Hl); [by apply Forall_cons; split|].
    unfold rest in Hr. injection Hr as Hr1 Hr2 Hr3 Hr4 Hr5.
    exists b'. split_and!; [done|done|congruence|by rewrite Hr3| |].
    + cbn. split_and!; congruence.
    + intros k' Hk'. unfold settled. cbn. rewrite Hr3, Hpe. cbn. unfold settled_key.
      specialize (Hl k'). cbn in Hl. case_decide as Hd.
      * by rewrite <-Hd, Hk, <-Hh in *.
      * assert (settled None s b k') as Hset by (apply Hs; [congruence|done]).
        unfold settled in Hset. cbn in Hset. rewrite Hpe in Hset. cbn in Hset.
        unfold settled_key in Hset. by rewrite Hl.
Qed.

Lemma stage_of_insert st st' t bs x :
  stage_of (Some st) bs -> bs !! t = Some x -> stage_of (Some st') (<[t := st']> bs) /\ x = st.
Proof.
  intros [t' ->] [<- <-]%lookup_singleton_Some. split; [|done]. exists t'. apply insert_singleton_eq.
Qed.
Lemma stage_of_lookup st bs t x : stage_of st bs -> bs !! t = Some x -> st = Some x.
Proof.
  destruct st as [st|]; cbn; [|by intros ->; rewrite lookup_empty].
  intros [t' ->] [_ <-]%lookup_singleton_Some. done.
Qed.

(** A step of the build: the swamp does not change. *)
Lemma build_inv s b bs :
  inv s -> index_inv (set_index (Some b) bs s) b -> inv (set_index (Some b) bs s).
Proof. intros [] Hb. by split. Qed.

(** A copy has the value of the original. *)
Lemma copy_key t p : valid_treasure t -> key_or_null (copy t) p = key_or_null t p.
Proof.
  intros Hv. assert (GetContentByteArray (copy t) = GetContentByteArray t) as Hb.
  { unfold valid_treasure in Hv. unfold GetContentByteArray, copy. cbn.
    destruct (m_Content (t_model t)) as [c|] eqn:Hc; [|by unfold cloneContent; rewrite Hc].
    destruct Hv as [| |v]; [by unfold cloneContent; rewrite Hc..|].
    destruct (read_value t v Hc) as (_ & -> & _). done. }
  unfold key_or_null, extractKey. by rewrite Hb.
Qed.

Lemma snapshot_inv s b t :
  inv s -> index s = Some b -> index_inv s b -> builders s !! t = Some Entered ->
  index_inv (set_index (Some b) (<[t := Snapped (snapshot s)]> (builders s)) s) b.
Proof.
  intros Hinv _ [Hg Hp Ho (st & Hst & Hph & Hb & Hs)] Et.
  pose proof (stage_of_lookup _ _ _ _ Hst Et) as ->.
  split; [done|done|done|]. exists (Some (Snapped (snapshot s))). split_and!.
  - by eapply stage_of_insert.
  - destruct Hph as (Hf & Hk & Ho1). split_and!; [done|done|done|].
    intros k h Hkh. unfold snapshot in Hkh. apply lookup_fmap_Some in Hkh as (l & <- & Hl).
    apply (inv_live _ Hinv) in Hl as [<- [t' Ht']]. cbn. unfold deref. rewrite Ht'. cbn.
    by apply (inv_heap _ Hinv).
  - done.
  - intros k Hk. specialize (Hs k Hk). unfold settled in *. cbn in *.
    destruct (last_for k (pending b)); [done|]. unfold snap_key, snapshot. cbn. rewrite lookup_fmap.
    destruct (live s !! k) as [l|] eqn:Hl; [|done]. exists (copy (deref s l)). split; [done|].
    apply copy_key. apply (inv_live _ Hinv) in Hl as [_ [t' Ht']]. unfold deref. cbn. rewrite Ht'.
    by apply (inv_heap _ Hinv _ _ Ht').
Qed.

Lemma built_inv s b t snap :
  inv s -> index_inv s b -> builders s !! t = Some (Snapped snap) ->
  let b' := BuildEquality (deref s) snap b in
  index_inv (set_index (Some b') (<[t := Built]> (builders s)) s) b'.
Proof.
  intros Hinv [Hg Hp Ho (st & Hst & Hph & Hb & Hs)] Et. cbn zeta.
  pose proof (stage_of_lookup _ _ _ _ Hst Et) as ->. destruct Hph as (Hf & Hk & Ho1 & Hkeys).
  destruct (BuildEquality_spec (deref s) snap b Hg Hp Hk Ho1 Hkeys) as (Hg' & Hr & Hl).
  unfold rest in Hr. injection Hr as Hr1 Hr2 Hr3 Hr4 Hr5. set (b' := BuildEquality _ _ _) in *.
  split; [done|done|by rewrite Hr3|]. exists (Some Built). split_and!; [by eapply stage_of_insert| |done|].
  - split; congruence.
  - intros k Hk'. specialize (Hs k Hk'). unfold settled in *. cbn in *. rewrite Hr3.
    destruct (last_for k (pending b)); [done|]. unfold settled_key, snap_key in *. cbn in *. rewrite Hl.
    destruct (live s !! k) as [l|]; cbn.
    + destruct Hs as (t' & -> & Hs). cbn. exists (key_or_null t' path). split; [done|by left].
    + by rewrite Hs.
Qed.

Lemma take_inv s b t :
  inv s -> index_inv s b -> builders s !! t = Some Built -> outcome_ok inv
    match take_pending b with
    | (b, None) => Next (set_index (Some b) (delete t (builders s)) s)
    | (b, Some ops) => Next (set_index (Some b) (<[t := Took ops]> (builders s)) s)
    end.
Proof.
  intros Hinv [Hg Hp Ho (st & Hst & Hph & Hb & Hs)] Et.
  pose proof (stage_of_lookup _ _ _ _ Hst Et) as ->. destruct Hph as (Hf & Hi).
  unfold take_pending. destruct (pending b) as [|op ops] eqn:Hpe; cbn; apply build_inv; try done.
  - split; [|done|by cbn; rewrite Hpe|].
    { destruct Hg as [H1 H2]. split; [by apply (bucket_ok_same key b)|done]. }
    exists None. split_and!; [|done|done|].
    + destruct Hst as [t' Hst]. rewrite Hst in *. apply lookup_singleton_Some in Et as [-> _].
      cbn. apply delete_singleton_eq.
    + intros k Hk'. specialize (Hs k Hk'). unfold settled in *. cbn in *. rewrite Hpe in *. done.
  - split; [|done|by cbn|].
    { destruct Hg as [H1 H2]. split; [by apply (bucket_ok_same key b)|done]. }
    exists (Some (Took (op :: ops))). split_and!; [by eapply stage_of_insert|done|done|].
    intros k Hk'. specialize (Hs k Hk'). unfold settled in *. cbn [batch pending put_pending] in *.
    rewrite app_nil_r, Hpe in *. done.
Qed.

Lemma applied_inv s b t ops :
  inv s -> index_inv s b -> builders s !! t = Some (Took ops) -> outcome_ok inv
    match replay (deref s) ops b with
    | None => Panic
    | Some b => Next (set_index (Some b) (<[t := Built]> (builders s)) s)
    end.
Proof.
  intros Hinv [Hg Hp Ho (st & Hst & Hph & Hb & Hs)] Et.
  pose proof (stage_of_lookup _ _ _ _ Hst Et) as ->. destruct Hph as (Hf & Hi).
  destruct (replay_ops_spec (deref s) ops b Hg Hp Hb) as (b' & -> & Hg' & Hr & Hl). cbn.
  unfold rest in Hr. injection Hr as Hr1 Hr2 Hr3 Hr4 Hr5.
  apply build_inv; [done|]. split; [done|congruence|by rewrite Hr3|].
  exists (Some Built). split_and!; [by eapply stage_of_insert|by split; congruence|done|].
  intros k Hk'. specialize (Hs k Hk'). specialize (Hl k). unfold settled in *. cbn [batch app] in *.
  rewrite Hr3, last_for_app in *. cbn. destruct (last_for k (pending b)); [done|].
  unfold settled_key in *. cbn. destruct (last_for k ops) as [o|].
  - by rewrite <-Hs.
  - by rewrite Hl.
Qed.

Lemma notify_inv s g k n :
  inv s -> owed s !! g = Some (k, n) -> outcome_ok inv (index_step (ENotify g) s).
Proof.
  intros [Hh Hl Ho Hu Hi] Hg. cbn. rewrite Hg. set (s' := set_live _ _ _ s).
  pose proof (Ho _ _ _ Hg) as Hn.
  assert (forall g' k' n', owed s' !! g' = Some (k', n') -> owed s !! g' = Some (k', n')) as Hsub
    by (intros g' k' n'; subst s'; cbn; by intros [_ ?]%lookup_delete_Some).
  assert (inv s' <-> match index s with None => builders s = ∅ | Some b => index_inv s' b end) as Hinv.
  { split; [by intros []|]. intros Hi'. split; [exact Hh|exact Hl| | |exact Hi'].
    - intros g' k' n' Hg'%Hsub. by apply (Ho g').
    - intros g1 g2 k' n1 n2 Hg1%Hsub Hg2%Hsub. by eapply Hu. }
  change (index s') with (index s). destruct (index s) as [b|]; [|by apply Hinv].
  destruct Hi as [Hgood Hp Hops (st & Hst & Hph & Hb & Hs)].
  destruct (deliver_inv s' k n b st) as (b' & E & Hg' & Hp' & Hops' & Hph' & Hs'); try done.
  - intros k' Hne Hk'. apply (settled_frame s s'); [done|done|]. apply Hs. intros g' n' Hg'.
    apply (Hk' g' n'). cbn. rewrite lookup_delete_ne; [done|]. intros ->. congruence.
  - destruct n as [l|l|]; cbn; try done; destruct (Hl _ _ Hn) as [_ [t Ht]]; unfold op_ok; cbn;
      unfold deref; cbn; rewrite Ht; apply (Hh _ _ Ht).
  - destruct n as [l|l|]; cbn; try done; by apply Hl.
  - destruct n as [l|l|]; cbn; by rewrite Hn.
  - rewrite E. cbn. split; [exact Hh|exact Hl| | |].
    + intros g' k' n' Hg1%Hsub. by apply (Ho g').
    + intros g1 g2 k' n1 n2 Hg1%Hsub Hg2%Hsub. by eapply Hu.
    + cbn. split; [done|done|done|]. exists st. split_and!; try done.
Qed.

Lemma index_step_inv e s : inv s -> allowed e s -> outcome_ok inv (index_step e s).
Proof.
  intros Hinv Ha. destruct e as [g k l t|g k t|g|t|t|t|t|t]; cbn in *.
  - destruct (owed s !! g) eqn:Hg; [done|]. destruct Ha as (Hn & Ht & Hk & Hl). cbn.
    apply mutate_inv; try done.
    + intros. by apply lookup_insert_ne.
    + by destruct (live s !! k); rewrite lookup_insert_eq.
  - destruct (owed s !! g) eqn:Hg; [done|]. destruct (live s !! k) as [l|] eqn:Hl; [|done].
    destruct Ha as [Hn Ht]. cbn. apply mutate_inv; try done.
    + by apply Ht.
    + by apply (inv_live _ Hinv).
    + intros. by apply lookup_delete_ne.
    + apply lookup_delete_eq.
  - destruct (owed s !! g) as [[k n]|] eqn:Hg; [|done].
    pose proof (notify_inv s g k n Hinv Hg) as Hn. cbn in Hn. by rewrite Hg in Hn.
  - pose proof (inv_index _ Hinv) as Hi. rewrite Ha, lookup_empty.
    destruct (index s) as [b|] eqn:Eb.
    + destruct Hi as [_ _ _ (st & Hst & Hph & _)]. rewrite Ha in Hst.
      destruct st as [st|]; [|destruct Hph as [-> _]; done].
      destruct Hst as [t' Hst]. symmetry in Hst. by apply map_non_empty_singleton in Hst.
    + cbn. apply build_inv; [done|]. split; cbn.
      * split; [apply (bucket_ok_same key (New path)); try done; apply bucket_ok_New|].
        split; cbn; [|done]. intros k v. by rewrite lookup_empty.
      * done.
      * done.
      * exists (Some Entered). split_and!; try done.
        -- exists t. by rewrite insert_empty.
  - pose proof (inv_index _ Hinv) as Hi. destruct (builders s !! t) as [[]|] eqn:Et; try done.
    destruct (index s) as [b|] eqn:Eb; [|by rewrite Hi, lookup_empty in Et].
    cbn. by apply build_inv, snapshot_inv.
  - pose proof (inv_index _ Hinv) as Hi. destruct (builders s !! t) as [[]|] eqn:Et; try done.
    destruct (index s) as [b|] eqn:Eb; [|done]. cbn. by apply build_inv, built_inv.
  - pose proof (inv_index _ Hinv) as Hi. destruct (builders s !! t) as [[]|] eqn:Et; try done.
    destruct (index s) as [b|] eqn:Eb; [|done]. by apply take_inv.
  - pose proof (inv_index _ Hinv) as Hi. destruct (builders s !! t) as [[]|] eqn:Et; try done.
    destruct (index s) as [b|] eqn:Eb; [|done]. by apply applied_inv.
Qed.

Lemma orderly_inv es : forall s, inv s -> orderly es s -> outcome_ok inv (run index_step es s) .
Proof.
  induction es as [|e es IH]; intros s Hs Ho; cbn; [done|]. destruct Ho as [Ha Ho].
  pose proof (index_step_inv e s Hs Ha) as Hok. destruct (index_step e s) as [| |s']; [done|done|].
  by apply IH, Ho.
Qed.
End Indexing.
