(* ===== verification/Meta.v ===== *)
(** The metadata of a swamp: [core/hydra/swamp/metadata/metadata.go] and [noop.go].

    The [gob] coding belongs to a package and is the class [GobMeta]; the file is an optional
    byte string, and [save] gives the bytes it is replaced by. *)
From Stdlib Require Import Floats.SpecFloat.
From S2P Require Import Prelude Steps Guard Treasure.

Record Meta := {
  SwampName : bytes;
  CreatedAt : Z;
  UpdatedAt : Z;
  BackupAt : Z;
  KeyValuePairs : gmap bytes bytes
}.

Record metadata := {
  meta : Meta;
  isModified : bool;
  filePersistDisabled : bool
}.

(** [gob] encoding and decoding of a [Meta]; [None] is an error. *)
Class GobMeta := { encode_meta : Meta -> option bytes; decode_meta : bytes -> option Meta }.

Definition empty_meta : Meta :=
  {| SwampName := []; CreatedAt := zero_time; UpdatedAt := zero_time; BackupAt := zero_time;
     KeyValuePairs := ∅ |}.

Definition New : metadata := {| meta := empty_meta; isModified := false; filePersistDisabled := false |}.

Definition set_meta (x : Meta) (modified : bool) (m : metadata) : metadata :=
  {| meta := x; isModified := isModified m || modified; filePersistDisabled := filePersistDisabled m |}.

Definition with_name (n : bytes) (x : Meta) : Meta :=
  {| SwampName := n; CreatedAt := CreatedAt x; UpdatedAt := UpdatedAt x; BackupAt := BackupAt x;
     KeyValuePairs := KeyValuePairs x |}.
Definition with_times (created updated : Z) (x : Meta) : Meta :=
  {| SwampName := SwampName x; CreatedAt := created; UpdatedAt := updated; BackupAt := BackupAt x;
     KeyValuePairs := KeyValuePairs x |}.
Definition with_pairs (p : gmap bytes bytes) (x : Meta) : Meta :=
  {| SwampName := SwampName x; CreatedAt := CreatedAt x; UpdatedAt := UpdatedAt x; BackupAt := BackupAt x;
     KeyValuePairs := p |}.

Definition DisableFilePersistence (m : metadata) : metadata :=
  {| meta := meta m; isModified := isModified m; filePersistDisabled := true |}.

Definition SetSwampName (sn : bytes) (m : metadata) : metadata :=
  if decide (SwampName (meta m) = []) then set_meta (with_name sn (meta m)) true m
  else if decide (SwampName (meta m) <> sn) then set_meta (with_name sn (meta m)) true m
  else m.
Definition GetSwampName (m : metadata) : bytes := SwampName (meta m).
Definition GetCreatedAt (m : metadata) : Z := CreatedAt (meta m).
Definition GetUpdatedAt (m : metadata) : Z := UpdatedAt (meta m).
Definition GetKey (key : bytes) (m : metadata) : bytes := default [] (KeyValuePairs (meta m) !! key).

Definition SetKey (key value : bytes) (m : metadata) : metadata :=
  match KeyValuePairs (meta m) !! key with
  | Some existing =>
      if decide (existing = value) then m
      else set_meta (with_pairs (<[key := value]> (KeyValuePairs (meta m))) (meta m)) true m
  | None => set_meta (with_pairs (<[key := value]> (KeyValuePairs (meta m))) (meta m)) true m
  end.

Definition DeleteKey (key : bytes) (m : metadata) : metadata :=
  match KeyValuePairs (meta m) !! key with
  | None => m
  | Some _ => set_meta (with_pairs (delete key (KeyValuePairs (meta m))) (meta m)) true m
  end.

Definition SetUpdatedAt (now : Z) (m : metadata) : metadata :=
  set_meta (with_times (CreatedAt (meta m)) now (meta m)) true m.

(** The file is removed as well. *)
Definition Destroy (m : metadata) : metadata :=
  {| meta := empty_meta; isModified := isModified m; filePersistDisabled := filePersistDisabled m |}.

Section Files.
Context `{GobMeta}.

Definition load (file : option bytes) (m : metadata) : metadata :=
  match file with
  | None => m
  | Some data => set_meta (default empty_meta (decode_meta data)) false m
  end.

Definition LoadFromFile (file : option bytes) (now : Z) (m : metadata) : metadata :=
  let m := load file m in
  if decide (CreatedAt (meta m) = zero_time)
  then set_meta (with_times now (UpdatedAt (meta m)) (meta m)) false m else m.

(** What the file becomes: [os.Create] truncates it before the encoder may fail. *)
Definition save (m : metadata) : bytes := default [] (encode_meta (meta m)).

Definition SaveToFile (file : option bytes) (m : metadata) : option bytes :=
  if filePersistDisabled m then file else if negb (isModified m) then file else Some (save m).
End Files.

(** ** The V2 engine *)

(** [noopMetadata] keeps a name and a time. *)
Record noopMetadata := { n_swampName : bytes; n_createdAt : Z }.

Definition NewNoop (now : Z) : noopMetadata := {| n_swampName := []; n_createdAt := now |}.
Definition noop_SetSwampName (n : bytes) (m : noopMetadata) : noopMetadata :=
  {| n_swampName := n; n_createdAt := n_createdAt m |}.
Definition noop_GetUpdatedAt (now : Z) (m : noopMetadata) : Z := now.
Definition noop_GetKey (key : bytes) (m : noopMetadata) : bytes := [].
Definition noop_SetKey (key value : bytes) (m : noopMetadata) : noopMetadata := m.
Definition noop_SetUpdatedAt (now : Z) (m : noopMetadata) : noopMetadata := m.

(** The interface a swamp sees. *)
Inductive Metadata : Type := Filed (m : metadata) | Noop (m : noopMetadata).

Definition metadata_SetUpdatedAt (now : Z) (m : Metadata) : Metadata :=
  match m with Filed m => Filed (SetUpdatedAt now m) | Noop m => Noop (noop_SetUpdatedAt now m) end.
Definition metadata_SaveToFile `{GobMeta} (file : option bytes) (m : Metadata) : option bytes :=
  match m with Filed m => SaveToFile file m | Noop _ => file end.

(** Saving and loading gives the metadata back, when the codec does. *)
Lemma save_load `{GobMeta} (file : option bytes) (now : Z) (m : metadata) data :
  encode_meta (meta m) = Some data -> decode_meta data = Some (meta m) ->
  isModified m = true -> filePersistDisabled m = false -> CreatedAt (meta m) <> zero_time ->
  meta (LoadFromFile (SaveToFile file m) now New) = meta m.
Proof.
  intros He Hd Hm Hp Hc. unfold SaveToFile, LoadFromFile, load, save. rewrite Hp, Hm, He. cbn.
  by rewrite Hd, decide_False.
Qed.
