(* ===== verification/Folder.v ===== *)
(** Files of binary segments in a folder: [core/filesystem/filesystem.go].

    A file is the snappy encoding of segments, each behind its length.  Directories are not
    part of the world: making one may fail but changes nothing, and [os.ReadDir] lists the
    files right below a folder.  The locks of a path make each method one atomic step. *)
From stdpp Require Import sorting.
From S2P Require Import Prelude Text Compressor FileSys.

(** ** Calls of [os] and [io] *)

Definition slash : byte := x2f.
(** [filepath.Join] of a folder and the name of a file in it. *)
Definition filepath_Join (folder name : bytes) : bytes := folder ++ slash :: name.

Definition name_le (a b : bytes) : bool := negb (bytes_lt b a).

(** The name of the file [p], when it is right below the folder. *)
Definition name_below (folder p : bytes) : option bytes :=
  let name := drop (S (length folder)) p in
  if decide (p = filepath_Join folder name /\ name <> [] /\ slash ∉ name) then Some name else None.

(** The files of a folder in the order of their names. *)
Definition names_in (folder : bytes) (m : gmap bytes bytes) : list bytes :=
  merge_sort name_le (omap (name_below folder) (map_to_list m).*1).

Definition os_ReadDir (folder : bytes) : M world (list bytes) :=
  os_call (fun w => (w, Ok (names_in folder (files w)))).
Definition os_MkdirAll : M world unit := os_call (ret tt).
Definition os_ReadFile (p : bytes) : M world bytes :=
  os_call (fun w => (w, match files w !! p with Some c => Ok c | None => Err ErrNotExist end)).

(** [os.WriteFile]: truncate, write, close; the first error is returned. *)
Definition os_WriteFile (p data : bytes) : M world unit :=
  f <-- os_Create p ;;
  with_local f
    (r <-- try (file_Write data) ;;
     c <-- try file_Close ;;
     match r with Err e => fail e | Ok _ => liftr c end) ;;;
  ret tt.

(** [io.ReadAll] from the offset of the descriptor on. *)
Definition io_ReadAll : M (world * File) bytes :=
  file_call (fun s => (advance (length (rest_of s)) s, Ok (rest_of s))) (fun _ => fail ErrIO).

(** ** Segments *)

Definition encodeBinaryLength (data : bytes) : bytes := le_put 4 (u32 (Z.of_nat (length data))).

Fixpoint encode_parts (content : list bytes) : bytes :=
  match content with
  | [] => []
  | part :: content => encodeBinaryLength part ++ part ++ encode_parts content
  end.

(** The loop reads at least four bytes a round.  [Read] fills as much of the block as there is,
    the rest stays zero; at the end it fails even for a block without bytes. *)
Fixpoint parse_loop (fuel : nat) (data : bytes) : result (list bytes) :=
  match fuel with
  | O => Err ErrFuel
  | S fuel =>
      if decide (data = []) then Ok [] else
      if decide (length data < 4)%nat then Err ErrUnexpectedEOF else
      let length_ := Z.to_nat (le_get (take 4 data)) in
      let rest := drop 4 data in
      if decide (rest = []) then Err EOF else
      let dataBlock := take length_ rest ++ make_bytes (length_ - length rest) in
      rbind (parse_loop fuel (drop length_ rest)) (fun result => Ok (dataBlock :: result))
  end.
Definition parseBinaryData (data : bytes) : result (list bytes) := parse_loop (S (length data)) data.

Section Folder.
Context `{HC : Codecs}.

(** ** Files *)

(** What an append starts from. *)
Definition existing_content (filePath : bytes) : M world bytes :=
  r <-- try (os_ReadFile filePath) ;;
  match r with
  | Err ErrNotExist => ret []
  | Err e => fail e
  | Ok existing => if decide (existing = []) then ret [] else liftr (Decompress Snappy existing)
  end.

Definition SaveFile (filePath : bytes) (content : list bytes) (appendFile : bool) : M world unit :=
  if decide (filePath = []) then fail ErrEmptyPath else
  st <-- try (os_Stat filePath) ;;
  match st with
  | Err ErrNotExist => os_MkdirAll
  | Err e => fail e
  | Ok _ => ret tt
  end ;;;
  before <-- (if appendFile then existing_content filePath else ret []) ;;
  compressed <-- liftr (Compress Snappy (before ++ encode_parts content)) ;;
  os_WriteFile filePath compressed.

Definition DeleteFile (filePath : bytes) : M world unit :=
  if decide (filePath = []) then fail ErrEmptyPath else
  os_Stat filePath ;;;
  os_Remove filePath.

Fixpoint remove_names (folder : bytes) (names : list bytes) : M world unit :=
  match names with
  | [] => ret tt
  | name :: names => os_Remove (filepath_Join folder name) ;;; remove_names folder names
  end.

Definition DeleteAllFiles (folderPath : bytes) : M world unit :=
  if decide (folderPath = []) then fail ErrEmptyPath else
  r <-- try (os_ReadDir folderPath) ;;
  match r with
  | Err ErrNotExist => ret tt
  | Err e => fail e
  | Ok dirEntries => remove_names folderPath dirEntries
  end.

(** Open, read and close. *)
Definition read_whole (filePath : bytes) : M world bytes :=
  file <-- os_Open filePath ;;
  r <-- with_local file
    (fileContent <-- on_err io_ReadAll file_Close ;;
     file_Close ;;;
     ret fileContent) ;;
  ret r.2.

Definition segments_of (fileContent : bytes) : result (list bytes) :=
  rbind (Decompress Snappy fileContent) parseBinaryData.

Definition GetFile (filePath : bytes) : M world (list bytes) :=
  if decide (filePath = []) then fail ErrEmptyPath else
  fileContent <-- read_whole filePath ;;
  liftr (segments_of fileContent).

(** A file that cannot be read, decompressed or parsed is passed over. *)
Fixpoint read_names (folder : bytes) (excludedFiles names : list bytes)
    (allFileContents : gmap bytes (list bytes)) : M world (gmap bytes (list bytes)) :=
  match names with
  | [] => ret allFileContents
  | name :: names =>
      if decide (name ∈ excludedFiles) then read_names folder excludedFiles names allFileContents else
      r <-- try (read_whole (filepath_Join folder name)) ;;
      read_names folder excludedFiles names
        (match rbind r segments_of with
         | Ok fileParts => <[name := fileParts]> allFileContents
         | Err _ => allFileContents
         end)
  end.
Definition GetAllFileContents (folderPath : bytes) (excludedFiles : list bytes)
  : M world (gmap bytes (list bytes)) :=
  if decide (folderPath = []) then fail ErrEmptyPath else
  names <-- os_ReadDir folderPath ;;
  read_names folderPath excludedFiles names ∅.

Definition GetFileSize (filePath : bytes) : M world Z :=
  if decide (filePath = []) then fail ErrEmptyPath else os_Stat filePath.
End Folder.

(** ** The names of a folder *)

Lemma name_below_spec folder p name :
  name_below folder p = Some name <->
  p = filepath_Join folder name /\ name <> [] /\ slash ∉ name.
Proof.
  unfold name_below. assert (forall n, drop (S (length folder)) (filepath_Join folder n) = n) as Hd.
  { intros n. unfold filepath_Join. by rewrite cons_middle, app_assoc, drop_app_length' by (rewrite length_app; simpl; lia). }
  case_decide as Hp.
  - split; [by intros [= <-]|]. intros (-> & _). by rewrite Hd.
  - split; [done|]. intros (-> & Hn). destruct Hp. by rewrite Hd.
Qed.

Lemma elem_of_names folder m name :
  name ∈ names_in folder m <->
  is_Some (m !! filepath_Join folder name) /\ name <> [] /\ slash ∉ name.
Proof.
  unfold names_in. rewrite (merge_sort_Permutation name_le), list_elem_of_omap.
  setoid_rewrite name_below_spec. setoid_rewrite list_elem_of_fmap. split.
  - intros (p & ([q c] & Heq & Hp) & -> & Hn). cbn in Heq. subst q. split; [|done].
    apply elem_of_map_to_list in Hp. by exists c.
  - intros ([c Hc] & Hn). exists (filepath_Join folder name). split; [|done].
    exists (filepath_Join folder name, c). split; [done|]. by apply elem_of_map_to_list.
Qed.

Lemma Join_inj folder a b : filepath_Join folder a = filepath_Join folder b -> a = b.
Proof. unfold filepath_Join. by intros [= ->]%app_inv_head. Qed.

Lemma names_NoDup folder m : NoDup (names_in folder m).
Proof.
  unfold names_in. rewrite (merge_sort_Permutation name_le).
  pose proof (NoDup_fst_map_to_list m) as Hnd. induction (map_to_list m).*1 as [|p l IH]; [constructor|].
  inversion Hnd as [|? ? Hp Hl]; subst. cbn [omap list_omap].
  destruct (name_below folder p) as [n|] eqn:E; [|auto]. constructor; [|auto].
  rewrite list_elem_of_omap. intros (q & Hq & Hn). apply Hp.
  apply name_below_spec in E as [-> _]. by apply name_below_spec in Hn as [-> _].
Qed.

(** ** Segments read back *)

Definition part_ok (part : bytes) : Prop := part <> [] /\ Z.of_nat (length part) < 2 ^ 32.

Lemma length_encoded part : length (encodeBinaryLength part) = 4%nat.
Proof. apply length_le_put. Qed.

Lemma encoded_length part : part_ok part -> Z.to_nat (le_get (encodeBinaryLength part)) = length part.
Proof.
  intros [_ Hp]. unfold encodeBinaryLength. rewrite u32_small, le_u32 by (unfold in_u32; lia). apply Nat2Z.id.
Qed.

Lemma encode_parts_app a b : encode_parts (a ++ b) = encode_parts a ++ encode_parts b.
Proof. induction a as [|x a IH]; [done|]. simpl. by rewrite IH, !app_assoc. Qed.

Lemma parse_loop_parts parts fuel :
  Forall part_ok parts -> (length (encode_parts parts) < fuel)%nat ->
  parse_loop fuel (encode_parts parts) = Ok parts.
Proof.
  intros Hp. revert fuel. induction Hp as [|part parts Hpart _ IH]; intros fuel Hf; destruct fuel as [|fuel]; [simpl in Hf; lia|done|cbn in Hf; lia|].
  cbn [encode_parts] in *. rewrite !length_app, length_encoded in Hf. cbn [parse_loop].
  set (rest := part ++ encode_parts parts).
  assert (length (encodeBinaryLength part ++ rest) = 4 + length rest)%nat as Hl by (by rewrite length_app, length_encoded).
  rewrite decide_False by (intros E; rewrite E in Hl; simpl in Hl; lia).
  rewrite decide_False by lia.
  rewrite take_app_length', drop_app_length' by (by rewrite length_encoded). rewrite encoded_length by done.
  rewrite decide_False by (unfold rest; destruct Hpart as [Hpart _]; by destruct part).
  unfold rest. rewrite take_app_length, drop_app_length, IH by lia. cbn [rbind].
  replace (length part - length (part ++ encode_parts parts))%nat with O by (rewrite length_app; lia).
  unfold make_bytes. simpl. by rewrite app_nil_r.
Qed.

Lemma parseBinaryData_parts parts : Forall part_ok parts -> parseBinaryData (encode_parts parts) = Ok parts.
Proof. intros. apply parse_loop_parts; [done|lia]. Qed.

(** ** Files without failures *)

Lemma os_WriteFile_ok p data w :
  faults w = [] -> os_WriteFile p data w = (put p data w, Ok tt).
Proof.
  intros Hf. unfold os_WriteFile, os_Create, bind at 1. rewrite os_call_ok by done.
  fold (put p [] w). unfold bind at 1, with_local, bind at 1, try.
  rewrite (file_Write_ok data _ _ []); [|done|done|apply files_put]. cbn [get_file set_file file_has_file f_name f_pos].
  unfold bind at 1. rewrite file_Close_ok by done.
  rewrite write_at_start, drop_nil, app_nil_r. cbn. by rewrite put_put.
Qed.

Lemma read_whole_ok p c w :
  faults w = [] -> files w !! p = Some c -> read_whole p w = (w, Ok c).
Proof.
  intros Hf Hc. unfold read_whole, os_Open, bind at 1. rewrite os_call_ok, Hc by done.
  unfold bind at 1, with_local, bind at 1, on_err, io_ReadAll. rewrite file_call_ok by done.
  assert (rest_of (w, {| f_name := p; f_pos := 0; f_open := true |}) = c) as ->
    by (unfold rest_of; cbn; by rewrite Hc).
  unfold advance, on_file, bind. by rewrite file_Close_ok.
Qed.

Section Files.
Context `{HC : Codecs} `{HOk : !CodecsOk}.

(** The file [p] holds the segments [parts]. *)
Definition segment_file (w : world) (p : bytes) (parts : list bytes) : Prop :=
  exists c, files w !! p = Some c /\ c <> [] /\ snappy_decode c = Some (encode_parts parts).

Definition parts_fit (parts : list bytes) : Prop :=
  Forall part_ok parts /\ Z.of_nat (length (encode_parts parts)) < 2 ^ 32.

Lemma GetFile_ok w p parts :
  faults w = [] -> p <> [] -> parts_fit parts -> segment_file w p parts -> GetFile p w = (w, Ok parts).
Proof.
  intros Hf Hp [Hok _] (c & Hc & _ & Hd). unfold GetFile. rewrite decide_False by done.
  rewrite (bind_run _ _ _ _ _ (read_whole_ok _ _ _ Hf Hc)). unfold liftr, segments_of.
  rewrite Decompress_Snappy, Hd. cbn [or_error rbind]. by rewrite parseBinaryData_parts.
Qed.

(** Saving: the old segments, where they are kept, and then the new ones. *)
Definition saved_before (w : world) (p : bytes) (append : bool) (old : list bytes) : Prop :=
  if append then segment_file w p old \/ files w !! p = None /\ old = [] else old = [].

Lemma SaveFile_ok w p content append old :
  faults w = [] -> p <> [] -> parts_fit (old ++ content) -> saved_before w p append old ->
  exists c, SaveFile p content append w = (put p c w, Ok tt) /\ segment_file (put p c w) p (old ++ content).
Proof.
  intros Hf Hp [_ Hl] Hb. exists (snappy_encode (encode_parts (old ++ content))).
  split; [|exists (snappy_encode (encode_parts (old ++ content))); split_and!;
    [apply files_put|apply snappy_nonempty|by apply snappy_roundtrip]].
  unfold SaveFile. rewrite decide_False by done.
  assert (exists st, try (os_Stat p) w = (w, Ok st) /\ (st = Err ErrNotExist \/ exists n, st = Ok n)) as (st & Hst & Hc).
  { unfold try, os_Stat. rewrite os_call_ok by done. destruct (files w !! p); eexists; (split; [reflexivity|]); eauto. }
  rewrite (bind_run _ _ _ _ _ Hst).
  assert (match st with Ok _ => ret tt | Err ErrNotExist => os_MkdirAll | Err e => fail e end w = (w, Ok tt)) as Hmk.
  { destruct Hc as [->|[n ->]]; [|done]. unfold os_MkdirAll. by rewrite os_call_ok. }
  rewrite (bind_run _ _ _ _ _ Hmk).
  assert ((if append then existing_content p else ret []) w = (w, Ok (encode_parts old))) as Hex.
  { destruct append; cbn in Hb; [|by rewrite Hb]. unfold existing_content, bind at 1, try, os_ReadFile.
    rewrite os_call_ok by done. destruct Hb as [(c & -> & Hne & Hd)|[-> ->]]; [|done].
    rewrite decide_False by done. unfold liftr. by rewrite Decompress_Snappy, Hd. }
  rewrite (bind_run _ _ _ _ _ Hex). cbn. unfold bind, liftr. rewrite <-encode_parts_app. by apply os_WriteFile_ok.
Qed.
End Files.
