(* ===== verification/ChroniclerV1.v ===== *)
(** The V1 chronicler: [chronicler/chronicler.go], the engine that is used unless V2 is chosen.

    A swamp is a folder of files of segments, each segment one treasure.  New treasures go to
    the file the metadata call the actual one, until it is full; a treasure that is written
    again is replaced in the file its file name points to.  What a treasure looks like to the
    chronicler is [saved_treasure], as for V2. *)
From Stdlib Require Import Floats.SpecFloat.
From S2P Require Import Prelude Steps Text Types Compressor Block FileSys Writer Reader Compactor Chronicler.
From S2P Require Import Guard Treasure Meta Canon Folder.
#[local] Set Warnings "-register-all,-clear-no-such-hyp".

(** ** Data *)

(** [encoding/gob] on a stored segment, the key of its [treasure.Model], and on the file of the
    metadata, the name of the swamp. *)
Class V1Gob := { treasure_key : bytes -> option bytes; meta_swamp_name : bytes -> option bytes }.
(** What [uuid.NewString] answers, call after call. *)
Class UUIDs := uuid_NewString : nat -> bytes.

Record v1_treasure := { v_saved : saved_treasure; v_shadowDelete : bool }.

Record chroniclerV1 := {
  swampDataFolderPath : bytes; maxFileSize : Z; filesystemInitiated : bool; v1_dontSend : bool;
  v1_callback : bool;   (** whether the callback is registered *)
  metadataInterface : metadata; uuids : nat
}.
Definition put_metadata (m : metadata) (c : chroniclerV1) : chroniclerV1 :=
  {| swampDataFolderPath := swampDataFolderPath c; maxFileSize := maxFileSize c;
     filesystemInitiated := filesystemInitiated c; v1_dontSend := v1_dontSend c; v1_callback := v1_callback c;
     metadataInterface := m; uuids := uuids c |}.
Definition put_v1_flags (initiated dont callback : bool) (c : chroniclerV1) : chroniclerV1 :=
  {| swampDataFolderPath := swampDataFolderPath c; maxFileSize := maxFileSize c;
     filesystemInitiated := initiated; v1_dontSend := dont; v1_callback := callback;
     metadataInterface := metadataInterface c; uuids := uuids c |}.
Definition next_uuid (c : chroniclerV1) : chroniclerV1 :=
  {| swampDataFolderPath := swampDataFolderPath c; maxFileSize := maxFileSize c;
     filesystemInitiated := filesystemInitiated c; v1_dontSend := v1_dontSend c; v1_callback := v1_callback c;
     metadataInterface := metadataInterface c; uuids := S (uuids c) |}.

Definition SnappyCompressionPercent : float64 := fdiv (float64_of_Z 36) (float64_of_Z 100).
Definition ActualFileKeyInMeta : bytes := bs "actual".
Definition MetaFile : bytes := bs "meta".

(** [filepath.Base]: without the slashes at its end, what follows the last slash. *)
Fixpoint drop_slashes (p : bytes) : bytes :=
  match p with
  | b :: p' => if decide (b = slash) then drop_slashes p' else p
  | [] => []
  end.
Definition filepath_Base (p : bytes) : bytes :=
  if decide (p = []) then bs "." else
  match rev (drop_slashes (rev p)) with
  | [] => [slash]
  | p => default [] (last (split slash p))
  end.

(** [math.Floor] of a float, as an integer. *)
Definition floor (f : spec_float) : option Z :=
  match f with
  | S754_zero _ => Some 0
  | S754_finite s m e =>
      Some (if decide (0 <= e) then cond_Zopp s (Zpos m) * 2 ^ e else cond_Zopp s (Zpos m) / 2 ^ (- e))
  | _ => None
  end.

Section ChroniclerV1.
Context `{HC : Codecs} `{VG : V1Gob} `{UU : UUIDs} `{FR : StringRange} `{FI : FloatToInt}.

Definition calculateOverloadSize (maxFileSizeBytes : Z) : Z :=
  let overloadedSize := fdiv (float64_of_Z maxFileSizeBytes) SnappyCompressionPercent in
  match floor overloadedSize with
  | Some z => if decide (in_i64 z) then z else int64_outside overloadedSize
  | None => int64_outside overloadedSize
  end.

Definition NewV1 (folder : bytes) (maxFileSizeBytes : Z) (metaInterface : metadata) : chroniclerV1 :=
  {| swampDataFolderPath := folder; maxFileSize := calculateOverloadSize maxFileSizeBytes;
     filesystemInitiated := false; v1_dontSend := false; v1_callback := false;
     metadataInterface := metaInterface; uuids := O |}.

Definition v1_DontSendFilePointer (c : chroniclerV1) : chroniclerV1 :=
  put_v1_flags (filesystemInitiated c) true (v1_callback c) c.
Definition v1_RegisterFilePointerFunction (c : chroniclerV1) : chroniclerV1 :=
  put_v1_flags (filesystemInitiated c) (v1_dontSend c) true c.

Abbreviation MV := (M (world * chroniclerV1)).
Definition own {A} (f : chroniclerV1 -> A) : MV A := gets (fun s => f s.2).
Definition change_v1 (f : chroniclerV1 -> chroniclerV1) : MV unit := modify (fun s => (s.1, f s.2)).

(** The error of [CreateFolder] is only logged. *)
Definition CreateDirectoryIfNotExists : MV unit :=
  folder <-- own swampDataFolderPath ;;
  (if decide (folder = []) then ret tt else on_world (ignore os_MkdirAll)) ;;;
  change_v1 (fun c => put_v1_flags true (v1_dontSend c) (v1_callback c) c).

(** Folders that become empty are removed as well. *)
Definition v1_Destroy : MV unit :=
  folder <-- own swampDataFolderPath ;;
  on_world (ignore (DeleteAllFiles folder)).

(** ** Loading *)

(** A segment that cannot be decoded ends the whole load. *)
Fixpoint load_segments (fileName : bytes) (byteTreasures : list bytes) (treasures : gmap bytes (bytes * bytes))
  : option (gmap bytes (bytes * bytes)) :=
  match byteTreasures with
  | [] => Some treasures
  | byteTreasure :: byteTreasures =>
      match treasure_key byteTreasure with
      | None => None
      | Some key => load_segments fileName byteTreasures (<[key := (byteTreasure, fileName)]> treasures)
      end
  end.
Fixpoint load_contents (contents : list (bytes * list bytes)) (treasures : gmap bytes (bytes * bytes))
  : option (gmap bytes (bytes * bytes)) :=
  match contents with
  | [] => Some treasures
  | (fileName, byteTreasures) :: contents =>
      match load_segments fileName byteTreasures treasures with
      | None => None
      | Some treasures => load_contents contents treasures
      end
  end.

(** The segments pushed to the beacon with the names of their files, [None] when nothing is. *)
Definition v1_Load : MV (option (gmap bytes (bytes * bytes))) :=
  folder <-- own swampDataFolderPath ;;
  r <-- try (on_world (GetAllFileContents folder [MetaFile])) ;;
  ret match r with Err _ => None | Ok contents => load_contents (string_range contents) ∅ end.

(** ** Writing *)

Definition createActualFile : MV bytes :=
  c <-- own (fun c => c) ;;
  let actualFileUUID := uuid_NewString (uuids c) in
  let filePath := filepath_Join (swampDataFolderPath c) actualFileUUID in
  change_v1 next_uuid ;;;
  r <-- try (on_world (SaveFile filePath [] false)) ;;
  match r with
  | Err _ => ret []
  | Ok _ =>
      change_v1 (fun c => put_metadata (SetKey ActualFileKeyInMeta actualFileUUID (metadataInterface c)) c) ;;;
      ret filePath
  end.

Definition getActualFile : MV bytes :=
  c <-- own (fun c => c) ;;
  let actualFilePath := GetKey ActualFileKeyInMeta (metadataInterface c) in
  if decide (actualFilePath <> []) then ret (filepath_Join (swampDataFolderPath c) actualFilePath) else createActualFile.

(** A list of events for each call of the callback. *)
Definition sendFilePointerEvents (filePointerEvents : list (bytes * bytes)) : MV (list (list (bytes * bytes))) :=
  c <-- own (fun c => c) ;;
  ret (if v1_dontSend c || bool_decide (filePointerEvents = []) then [] else
       if v1_callback c then [filePointerEvents] else []).

Definition write_content (workingFile : bytes) (byteContent : list bytes) (filePointerEvents : list (bytes * bytes))
  : MV (list (list (bytes * bytes))) :=
  r <-- try (on_world (SaveFile workingFile byteContent true)) ;;
  match r with Err _ => ret [] | Ok _ => sendFilePointerEvents filePointerEvents end.

(** When the file is full the rest goes to a new one, before this one is written. *)
Fixpoint write_new_loop (workingFile : bytes) (byteContent : list bytes) (actualSizeInBytes : Z)
    (filePointerEvents : list (bytes * bytes)) (newTreasures : list v1_treasure) : MV (list (list (bytes * bytes))) :=
  match newTreasures with
  | [] => write_content workingFile byteContent filePointerEvents
  | t :: newTreasures =>
      match t_bytes (v_saved t) with
      | None => write_new_loop workingFile byteContent actualSizeInBytes filePointerEvents newTreasures
      | Some b =>
          let byteContent := byteContent ++ [b] in
          let actualSizeInBytes :=
            actualSizeInBytes + int64_of (SFmul 53 1024 (float64_of_Z (Z.of_nat (length b))) SnappyCompressionPercent) in
          c <-- own (fun c => c) ;;
          if decide (maxFileSize c < actualSizeInBytes /\ newTreasures <> []) then
            createActualFile ;;;
            workingFile' <-- getActualFile ;;
            fileSize <-- try (on_world (GetFileSize workingFile')) ;;
            rest <-- write_new_loop workingFile' [] (match fileSize with Ok n => n | Err _ => 0 end) [] newTreasures ;;
            these <-- write_content workingFile byteContent filePointerEvents ;;
            ret (rest ++ these)
          else
            write_new_loop workingFile byteContent actualSizeInBytes
              (filePointerEvents ++ [(t_key (v_saved t), filepath_Base workingFile)]) newTreasures
      end
  end.
Definition writeNewTreasures (newTreasures : list v1_treasure) : MV (list (list (bytes * bytes))) :=
  workingFile <-- getActualFile ;;
  fileSize <-- try (on_world (GetFileSize workingFile)) ;;
  write_new_loop workingFile [] (match fileSize with Ok n => n | Err _ => 0 end) [] newTreasures.

(** What a segment of the file becomes; one that cannot be decoded, and one whose treasure
    cannot be encoded, is dropped. *)
Definition modified_part (treasures : gmap bytes v1_treasure) (treasureData : bytes) : option bytes :=
  match treasure_key treasureData with
  | None => None
  | Some treasureKey =>
      match treasures !! treasureKey with
      | None => Some treasureData
      | Some modifiedTreasure =>
          match t_bytes (v_saved modifiedTreasure) with
          | None => None
          | Some modifiedBytes =>
              if negb (bool_decide (t_deletedAt (v_saved modifiedTreasure) = 0)) && negb (v_shadowDelete modifiedTreasure)
              then None else Some modifiedBytes
          end
      end
  end.

Definition writeModifiedTreasures (fileName : bytes) (treasures : gmap bytes v1_treasure) : MV unit :=
  folder <-- own swampDataFolderPath ;;
  let fp := filepath_Join folder fileName in
  r <-- try (on_world (GetFile fp)) ;;
  match r with
  | Err _ => ret tt
  | Ok byteTreasures =>
      match omap (modified_part treasures) byteTreasures with
      | [] => on_world (ignore (DeleteFile fp))
      | modifiedTreasures => on_world (ignore (SaveFile fp modifiedTreasures false))
      end
  end.

Fixpoint modify_files (files : list (bytes * gmap bytes v1_treasure)) : MV unit :=
  match files with
  | [] => ret tt
  | (fileName, treasures) :: files => writeModifiedTreasures fileName treasures ;;; modify_files files
  end.
Definition modifyTreasuresInFilesystem (modifiedTreasuresForWrite : gmap bytes (gmap bytes v1_treasure)) : MV unit :=
  modify_files (string_range modifiedTreasuresForWrite).

(** Those with a file name by file and key, and the others in order. *)
Fixpoint sort_out (treasures : list v1_treasure) (modified : gmap bytes (gmap bytes v1_treasure)) (new : list v1_treasure)
  : gmap bytes (gmap bytes v1_treasure) * list v1_treasure :=
  match treasures with
  | [] => (modified, new)
  | t :: treasures =>
      match t_fileName (v_saved t) with
      | Some fileName =>
          sort_out treasures
            (<[fileName := <[t_key (v_saved t) := t]> (default ∅ (modified !! fileName))]> modified) new
      | None => sort_out treasures modified (new ++ [t])
      end
  end.

Definition v1_Write (treasures : list v1_treasure) : MV (list (list (bytes * bytes))) :=
  let '(modified, new) := sort_out treasures ∅ [] in
  (if decide (modified = ∅) then ret tt else modifyTreasuresInFilesystem modified) ;;;
  if decide (new = []) then ret [] else writeNewTreasures new.
End ChroniclerV1.

(** ** A folder and its segments *)

Definition file_name_ok (name : bytes) : Prop := name <> [] /\ (slash ∉ name) /\ name <> MetaFile.

Section Holds.
Context `{HC : Codecs} `{HOk : !CodecsOk}.

Record folder_holds (w : world) (folder : bytes) (segs : gmap bytes (list bytes)) : Prop := {
  fh_faults : faults w = [];
  fh_folder : folder <> [];
  fh_files : map_Forall (fun name parts =>
    file_name_ok name /\ parts_fit parts /\ segment_file w (filepath_Join folder name) parts) segs;
  fh_all : forall name, name ∈ names_in folder (files w) -> name <> MetaFile -> is_Some (segs !! name)
}.

Lemma Join_nonempty folder name : filepath_Join folder name <> [].
Proof. unfold filepath_Join. by destruct folder. Qed.

Lemma folder_holds_missing w folder segs name :
  folder_holds w folder segs -> file_name_ok name -> segs !! name = None -> files w !! filepath_Join folder name = None.
Proof.
  intros Hh (Hn & Hs & Hm) Hseg. destruct (files w !! _) as [c|] eqn:E; [|done].
  destruct (fh_all _ _ _ Hh name) as [parts Hp]; [by apply elem_of_names; eauto|done|congruence].
Qed.

Lemma folder_save w folder segs name content (append : bool) :
  let old := if append then default [] (segs !! name) else [] in
  folder_holds w folder segs -> file_name_ok name -> parts_fit (old ++ content) ->
  exists w', SaveFile (filepath_Join folder name) content append w = (w', Ok tt) /\
    folder_holds w' folder (<[name := old ++ content]> segs).
Proof.
  intros old Hh Hname Hfit.
  destruct (SaveFile_ok w (filepath_Join folder name) content append old) as (c & Hrun & Hc);
    [apply Hh|apply Join_nonempty|done| |].
  { unfold saved_before, old. destruct append; [|done]. destruct (segs !! name) as [parts|] eqn:E; cbn.
    - left. by apply (fh_files _ _ _ Hh) in E as (_ & _ & E).
    - right. split; [|done]. by eapply folder_holds_missing. }
  eexists. split; [exact Hrun|]. split; [apply Hh..| |].
  - intros n parts Hn. destruct (decide (n = name)) as [->|Hne].
    { rewrite lookup_insert_eq in Hn. by injection Hn as <-. }
    rewrite lookup_insert_ne in Hn by done.
    destruct (fh_files _ _ _ Hh n parts Hn) as (Hok & Hf & cc & Hcc & Hd). split_and!; try done.
    exists cc. split; [|done]. rewrite files_put_ne; [done|]. by intros ?%Join_inj.
  - intros n Hn Hm. destruct (decide (n = name)) as [->|Hne]; [rewrite lookup_insert_eq; eauto|].
    rewrite lookup_insert_ne by done. apply (fh_all _ _ _ Hh); [|done].
    apply elem_of_names in Hn as [Hn Hok]. apply elem_of_names. split; [|done].
    rewrite files_put_ne in Hn; [done|]. by intros ?%Join_inj.
Qed.

Lemma folder_delete w folder segs name parts :
  folder_holds w folder segs -> segs !! name = Some parts ->
  exists w', DeleteFile (filepath_Join folder name) w = (w', Ok tt) /\ folder_holds w' folder (delete name segs).
Proof.
  intros Hh Hn. destruct (fh_files _ _ _ Hh _ _ Hn) as (Hok & _ & c & Hc & _).
  exists (set_files (delete (filepath_Join folder name) (files w)) w). split.
  { unfold DeleteFile, os_Stat, os_Remove, bind. rewrite decide_False by apply Join_nonempty.
    rewrite os_call_ok, Hc, os_call_ok, Hc by apply Hh. done. }
  split; [apply Hh..| |].
  - intros n p [Hne Hp]%lookup_delete_Some. destruct (fh_files _ _ _ Hh n p Hp) as (Ho & Hf & cc & Hcc & Hd).
    split_and!; try done. exists cc. split; [|done]. cbn. rewrite lookup_delete_ne; [done|]. by intros ?%Join_inj.
  - intros n Hin Hm. apply elem_of_names in Hin as [[cc Hcc] Ho]. cbn in Hcc.
    apply lookup_delete_Some in Hcc as [Hne Hcc]. rewrite lookup_delete_ne by congruence.
    apply (fh_all _ _ _ Hh); [|done]. by apply elem_of_names; eauto.
Qed.

Lemma read_names_ok w folder segs names acc :
  folder_holds w folder segs -> NoDup names -> (forall name, name ∈ names -> name <> MetaFile -> is_Some (segs !! name)) ->
  exists m, read_names folder [MetaFile] names acc w = (w, Ok m) /\
    forall n, m !! n = if decide (n ∈ names /\ n <> MetaFile) then segs !! n else acc !! n.
Proof.
  intros Hh. revert acc. induction names as [|name names IH]; intros acc Hnd Hall; cbn [read_names].
  { exists acc. split; [done|]. intros n. rewrite decide_False; [done|]. by intros [?%not_elem_of_nil _]. }
  inversion Hnd as [|? ? Hn Hnd']; subst.
  assert (forall n, n ∈ names -> n <> MetaFile -> is_Some (segs !! n)) as Hall' by (intros; apply Hall; [by right|done]).
  case_decide as Hm.
  - destruct (IH acc Hnd' Hall') as (m & Hr & Hl). exists m. split; [done|]. intros n. rewrite Hl.
    apply list_elem_of_singleton in Hm as ->. apply decide_ext. rewrite elem_of_cons. naive_solver.
  - rewrite list_elem_of_singleton in Hm. destruct (Hall name) as [parts Hp]; [by left|done|].
    destruct (fh_files _ _ _ Hh _ _ Hp) as (Ho & [Hf _] & c & Hc & _ & Hd).
    rewrite (bind_run _ _ _ _ _ (try_run _ _ _ _ (read_whole_ok _ _ _ (fh_faults _ _ _ Hh) Hc))).
    cbn [rbind]. unfold segments_of. rewrite Decompress_Snappy, Hd. cbn [or_error rbind].
    rewrite parseBinaryData_parts by done.
    destruct (IH (<[name := parts]> acc) Hnd' Hall') as (m & Hr & Hl). exists m. split; [done|]. intros n. rewrite Hl.
    destruct (decide (n = name)) as [->|Hne].
    + rewrite decide_False, decide_True by (rewrite ?elem_of_cons; naive_solver). by rewrite lookup_insert_eq.
    + rewrite lookup_insert_ne by done. apply decide_ext. rewrite elem_of_cons. naive_solver.
Qed.

Lemma GetAllFileContents_ok w folder segs :
  folder_holds w folder segs -> GetAllFileContents folder [MetaFile] w = (w, Ok segs).
Proof.
  intros Hh. unfold GetAllFileContents, os_ReadDir, bind. rewrite decide_False by apply Hh.
  rewrite os_call_ok by apply Hh.
  destruct (read_names_ok w folder segs (names_in folder (files w)) ∅ Hh (names_NoDup _ _) (fh_all _ _ _ Hh)) as (m & -> & Hl).
  do 2 f_equal. apply map_eq. intros n. rewrite Hl. case_decide as Hn; [done|]. symmetry. rewrite lookup_empty.
  destruct (segs !! n) as [parts|] eqn:Hp; [|done]. destruct Hn.
  destruct (fh_files _ _ _ Hh _ _ Hp) as ((Hn & Hs & Hm) & _ & c & Hc & _). split; [|done]. apply elem_of_names; eauto.
Qed.
End Holds.

(** ** What a folder means *)

Section Meaning.
Context `{HC : Codecs} `{HOk : !CodecsOk} `{VG : V1Gob} `{UU : UUIDs} `{FR : StringRange} `{FROk : !StringRangeOk}.
Context `{FI : FloatToInt}.

(** The file [f] has the segment [d] of the key [k]. *)
Definition stored_at (segs : gmap bytes (list bytes)) (k d f : bytes) : Prop :=
  exists parts, segs !! f = Some parts /\ d ∈ parts /\ treasure_key d = Some k.

Definition decodable (segs : gmap bytes (list bytes)) : Prop :=
  forall f parts d, segs !! f = Some parts -> d ∈ parts -> is_Some (treasure_key d).
(** Every segment can be decoded, and a key has one segment in one file. *)
Record coherent (segs : gmap bytes (list bytes)) : Prop := {
  co_keys : decodable segs;
  co_once : forall k d f d' f', stored_at segs k d f -> stored_at segs k d' f' -> d = d' /\ f = f'
}.

Definition has_key (parts : list bytes) (k : bytes) : Prop := exists d, d ∈ parts /\ treasure_key d = Some k.

Lemma load_segments_spec f parts m :
  Forall (fun d => is_Some (treasure_key d)) parts ->
  exists m', load_segments f parts m = Some m' /\
    (forall k d g, m' !! k = Some (d, g) -> m !! k = Some (d, g) \/ g = f /\ d ∈ parts /\ treasure_key d = Some k) /\
    (forall k, is_Some (m !! k) \/ has_key parts k -> is_Some (m' !! k)).
Proof.
  intros Hp. revert m. induction Hp as [|d parts [key Hk] _ IH]; intros m; cbn [load_segments].
  { exists m. split_and!; [done|auto|]. intros k [H|(d & Hd & _)]; [done|]. by apply not_elem_of_nil in Hd. }
  rewrite Hk. destruct (IH (<[key := (d, f)]> m)) as (m' & Hr & Hb & Hf). exists m'. split_and!; [done| |].
  - intros k x g Hx. apply Hb in Hx as [Hx|(-> & Hin & Hx)]; [|right; split_and!; try done; by right].
    apply lookup_insert_Some in Hx as [[<- [= <- <-]]|[_ Hx]]; [|by left]. right. split_and!; [done|by left|done].
  - intros k Hkk. apply Hf. destruct (decide (k = key)) as [->|Hne]; [left; rewrite lookup_insert_eq; eauto|].
    rewrite lookup_insert_ne by done. destruct Hkk as [?|(x & Hx & Hkx)]; [by left|]. right. exists x.
    apply elem_of_cons in Hx as [->|Hx]; [congruence|done].
Qed.

Lemma load_contents_spec contents m :
  Forall (fun fp => Forall (fun d => is_Some (treasure_key d)) fp.2) contents ->
  exists m', load_contents contents m = Some m' /\
    (forall k d g, m' !! k = Some (d, g) ->
       m !! k = Some (d, g) \/ exists parts, (g, parts) ∈ contents /\ d ∈ parts /\ treasure_key d = Some k) /\
    (forall k, is_Some (m !! k) \/ (exists f parts, (f, parts) ∈ contents /\ has_key parts k) -> is_Some (m' !! k)).
Proof.
  intros Hp. revert m. induction Hp as [|[f parts] contents Hd _ IH]; intros m; cbn [load_contents].
  { exists m. split_and!; [done|auto|]. intros k [H|(f & parts & Hf & _)]; [done|]. by apply not_elem_of_nil in Hf. }
  destruct (load_segments_spec f parts m Hd) as (m1 & -> & Hb1 & Hf1).
  destruct (IH m1) as (m' & Hr & Hb & Hf). exists m'. split_and!; [done| |].
  - intros k d g Hx. apply Hb in Hx as [Hx|(ps & Hin & Hx)]; [|right; exists ps; split; [by right|done]].
    apply Hb1 in Hx as [Hx|(-> & Hx)]; [by left|]. right. exists parts. split; [by left|done].
  - intros k Hk. apply Hf. destruct Hk as [Hk|(g & ps & [[= -> ->]|Hin]%elem_of_cons & Hk)]; [left; auto..|right; eauto].
Qed.

(** Loading gives every key its one segment and its file, in whatever order the files are visited. *)
Lemma v1_Load_ok w c segs :
  folder_holds w (swampDataFolderPath c) segs -> coherent segs ->
  exists m, v1_Load (w, c) = ((w, c), Ok (Some m)) /\ forall k d f, m !! k = Some (d, f) <-> stored_at segs k d f.
Proof.
  intros Hh Hc. destruct (load_contents_spec (string_range segs) ∅) as (m & Hr & Hb & Hf).
  { apply Forall_forall. intros [f parts] Hin. rewrite (string_range_perm _ segs) in Hin.
    apply elem_of_map_to_list in Hin. apply Forall_forall. intros d Hd. by eapply (co_keys _ Hc). }
  assert (forall k d f, m !! k = Some (d, f) -> stored_at segs k d f) as Hback.
  { intros k d f Hm. apply Hb in Hm as [Hm|(parts & Hin & Hm)]; [by rewrite lookup_empty in Hm|].
    rewrite (string_range_perm _ segs) in Hin. apply elem_of_map_to_list in Hin. by exists parts. }
  exists m. split.
  - unfold v1_Load, own, gets, bind at 1. cbn [snd].
    rewrite (bind_run _ _ _ _ _ (try_run _ _ _ _ (on_world_ok _ _ _ _ _ (GetAllFileContents_ok _ _ _ Hh)))).
    unfold ret. by rewrite Hr.
  - intros k d f. split; [apply Hback|]. intros Hs. destruct Hs as (parts & Hp & Hd & Hk).
    destruct (Hf k) as [[d' f'] Hm].
    { right. exists f, parts. split; [|by exists d]. rewrite (string_range_perm _ segs). by apply elem_of_map_to_list. }
    destruct (co_once _ Hc k d f d' f') as [-> ->]; [by exists parts|by apply Hback|done].
Qed.

(** ** Treasures that were stored before *)

(** The treasures of [ts] that point to the file, by key. *)
Definition group (f : bytes) (ts : list v1_treasure) : gmap bytes v1_treasure :=
  default ∅ ((sort_out ts ∅ []).1 !! f).
Definition points_to (f : bytes) (t : v1_treasure) : Prop := t_fileName (v_saved t) = Some f.
#[export] Instance points_to_dec f t : Decision (points_to f t).
Proof. unfold points_to. apply _. Defined.
Definition key_of (t : v1_treasure) : bytes := t_key (v_saved t).

Lemma sort_out_spec ts modified new f k :
  NoDup (map key_of ts) ->
  let r := sort_out ts modified new in
  r.2 = new ++ filter (fun t => t_fileName (v_saved t) = None) ts /\
  (forall t, t ∈ ts -> points_to f t -> key_of t = k -> default ∅ (r.1 !! f) !! k = Some t) /\
  ((forall t, t ∈ ts -> points_to f t -> key_of t <> k) -> default ∅ (r.1 !! f) !! k = default ∅ (modified !! f) !! k) /\
  (is_Some (r.1 !! f) <-> is_Some (modified !! f) \/ exists t, t ∈ ts /\ points_to f t).
Proof.
  revert modified new. induction ts as [|t ts IH]; intros modified new Hnd r.
  { unfold r. cbn. rewrite app_nil_r. split_and!; [done| |done|].
    - by intros t Ht%not_elem_of_nil.
    - split; [auto|]. intros [?|(t & Ht%not_elem_of_nil & _)]; done. }
  cbn [map] in Hnd. inversion Hnd as [|? ? Hk Hnd']; subst. unfold r. cbn [sort_out]. fold (key_of t).
  destruct (t_fileName (v_saved t)) as [fn|] eqn:Hfn.
  - rewrite filter_cons_False by congruence.
    destruct (IH (<[fn:=<[key_of t:=t]> (default ∅ (modified !! fn))]> modified) new Hnd') as (H1 & H2 & H3 & H4).
    split_and!; [done| | |].
    + intros x [->|Hx]%elem_of_cons Hp Hxk; [|auto]. unfold points_to in Hp. assert (fn = f) as -> by congruence.
      rewrite H3; [by rewrite lookup_insert_eq, <-Hxk; cbn; rewrite lookup_insert_eq|].
      intros y Hy _ Hyk. apply Hk. rewrite Hxk, <-Hyk. by apply list_elem_of_fmap_2.
    + intros Hall. rewrite H3 by (intros; apply Hall; [by right|done]).
      destruct (decide (fn = f)) as [->|Hne]; [|by rewrite lookup_insert_ne].
      rewrite lookup_insert_eq. cbn. rewrite lookup_insert_ne; [done|]. apply Hall; [by left|done].
    + rewrite H4. destruct (decide (fn = f)) as [->|Hne].
      * rewrite lookup_insert_eq. split; [right; exists t; split; [by left|done]|]. intros _. left. eauto.
      * rewrite lookup_insert_ne by done. setoid_rewrite elem_of_cons. unfold points_to. naive_solver.
  - rewrite filter_cons_True by done. destruct (IH modified (new ++ [t]) Hnd') as (H1 & H2 & H3 & H4).
    split_and!.
    + by rewrite H1, <-app_assoc.
    + intros x [->|Hx]%elem_of_cons Hp Hxk; [unfold points_to in Hp; congruence|auto].
    + intros Hall. apply H3. intros; apply Hall; [by right|done].
    + rewrite H4. setoid_rewrite elem_of_cons. unfold points_to. naive_solver.
Qed.

Definition removed_t (t : v1_treasure) : bool :=
  negb (bool_decide (t_deletedAt (v_saved t) = 0)) && negb (v_shadowDelete t).

(** The segments of the files after the modifications. *)
Definition after_modify (ts : list v1_treasure) (segs : gmap bytes (list bytes)) : gmap bytes (list bytes) :=
  map_imap (fun f parts =>
    match (sort_out ts ∅ []).1 !! f with
    | None => Some parts
    | Some g => match omap (modified_part g) parts with [] => None | parts => Some parts end
    end) segs.

Lemma writeModified_ok w c segs f g parts :
  folder_holds w (swampDataFolderPath c) segs -> segs !! f = Some parts -> parts_fit (omap (modified_part g) parts) ->
  exists w', writeModifiedTreasures f g (w, c) = ((w', c), Ok tt) /\
    folder_holds w' (swampDataFolderPath c)
      (match omap (modified_part g) parts with [] => delete f segs | ps => <[f := ps]> segs end).
Proof.
  intros Hh Hf Hfit. destruct (fh_files _ _ _ Hh _ _ Hf) as (Hok & Hpf & Hseg).
  unfold writeModifiedTreasures, own, gets, bind at 1. cbn [snd].
  pose proof (GetFile_ok w _ _ (fh_faults _ _ _ Hh) (Join_nonempty _ _) Hpf Hseg) as Hg.
  rewrite (bind_run _ _ _ _ _ (try_run _ _ _ _ (on_world_ok _ _ _ c _ Hg))).
  destruct (omap (modified_part g) parts) as [|p ps] eqn:E.
  - destruct (folder_delete _ _ _ _ _ Hh Hf) as (w' & Hd & Hh'). exists w'. split; [|done].
    unfold on_world, ignore. cbn. by rewrite Hd.
  - destruct (folder_save _ _ _ f (p :: ps) false Hh Hok) as (w' & Hd & Hh'); [done|]. exists w'. split; [|done].
    unfold on_world, ignore. cbn. by rewrite Hd.
Qed.

Lemma modify_files_ok w c segs l :
  folder_holds w (swampDataFolderPath c) segs -> NoDup l.*1 ->
  (forall f g, (f, g) ∈ l -> exists parts, segs !! f = Some parts /\ parts_fit (omap (modified_part g) parts)) ->
  exists w', modify_files l (w, c) = ((w', c), Ok tt) /\
    folder_holds w' (swampDataFolderPath c)
      (map_imap (fun f parts => match (list_to_map l : gmap bytes _) !! f with
         | None => Some parts
         | Some g => match omap (modified_part g) parts with [] => None | parts => Some parts end
         end) segs).
Proof.
  revert w segs. induction l as [|[f g] l IH]; intros w segs Hh Hnd Hl; cbn [modify_files].
  { exists w. split; [done|]. eapply eq_ind; [exact Hh|]. apply map_eq. intros n.
    rewrite map_lookup_imap. destruct (segs !! n); [|done]. cbn. by rewrite lookup_empty. }
  cbn [fmap list_fmap fst] in Hnd. inversion Hnd as [|? ? Hf Hnd']; subst.
  destruct (Hl f g ltac:(by left)) as (parts & Hp & Hfit).
  destruct (writeModified_ok w c segs f g parts Hh Hp Hfit) as (w1 & Hw1 & Hh1).
  destruct (IH w1 _ Hh1 Hnd') as (w2 & Hw2 & Hh2).
  { intros f' g' Hin. destruct (Hl f' g' ltac:(by right)) as (parts' & Hp' & Hfit').
    assert (f <> f') as Hne by (intros ->; apply Hf, list_elem_of_fmap; by exists (f', g')).
    exists parts'. split; [|done]. destruct (omap (modified_part g) parts);
      rewrite ?lookup_delete_ne, ?lookup_insert_ne; done. }
  exists w2. split; [by rewrite (bind_run _ _ _ _ _ Hw1)|].
  eapply eq_ind; [exact Hh2|].
  apply map_eq. intros n. rewrite !map_lookup_imap. cbn [list_to_map foldr].
  destruct (decide (n = f)) as [->|Hne].
  - rewrite Hp. cbn. rewrite lookup_insert_eq. rewrite (not_elem_of_list_to_map_1 l f) by done.
    destruct (omap (modified_part g) parts); [by rewrite lookup_delete_eq|by rewrite lookup_insert_eq].
  - rewrite (lookup_insert_ne (list_to_map l)) by done.
    destruct (omap (modified_part g) parts); rewrite ?lookup_delete_ne, ?lookup_insert_ne; done.
Qed.

(** No file outgrows what its length prefix and the codec allow. *)
Definition room (ts : list v1_treasure) (segs : gmap bytes (list bytes)) : Prop :=
  forall f parts, segs !! f = Some parts -> parts_fit (omap (modified_part (group f ts)) parts).

Lemma modify_ok w c segs ts :
  folder_holds w (swampDataFolderPath c) segs -> room ts segs -> NoDup (map key_of ts) ->
  (forall t f, t ∈ ts -> points_to f t -> is_Some (segs !! f)) ->
  exists w', modifyTreasuresInFilesystem (sort_out ts ∅ []).1 (w, c) = ((w', c), Ok tt) /\
    folder_holds w' (swampDataFolderPath c) (after_modify ts segs).
Proof.
  intros Hh Hr Hnd Hpt. unfold modifyTreasuresInFilesystem. set (m := (sort_out ts ∅ []).1).
  pose proof (string_range_perm _ m) as Hperm.
  assert (NoDup (string_range m).*1) as Hnd' by (rewrite Hperm; apply NoDup_fst_map_to_list).
  assert (forall f, (list_to_map (string_range m) : gmap bytes _) !! f = m !! f) as Hlm.
  { intros f. by rewrite (list_to_map_proper _ _ Hnd' Hperm), list_to_map_to_list. }
  destruct (modify_files_ok w c segs (string_range m) Hh Hnd') as (w' & Hw & Hh').
  - intros f g Hin. rewrite Hperm in Hin. apply elem_of_map_to_list in Hin.
    destruct (sort_out_spec ts ∅ [] f [] Hnd) as (_ & _ & _ & Hd).
    destruct (proj1 Hd) as [[? He]|(t & Ht & Hp)]; [by exists g|by rewrite lookup_empty in He|].
    destruct (Hpt t f Ht Hp) as [parts Hparts]. exists parts. split; [done|].
    specialize (Hr f parts Hparts). unfold group in Hr. fold m in Hr. by rewrite Hin in Hr.
  - exists w'. split; [done|]. unfold after_modify. fold m.
    eapply eq_ind; [exact Hh'|].
    apply map_eq. intros n. rewrite !map_lookup_imap. by rewrite Hlm.
Qed.

Definition has_bytes (t : v1_treasure) (b : bytes) : Prop := t_bytes (v_saved t) = Some b.
(** What [Write] is given: each key once, encoded under its key, with the file it is in. *)
Definition encoded (t : v1_treasure) : Prop := exists b, has_bytes t b /\ treasure_key b = Some (key_of t).
Record batch_ok (ts : list v1_treasure) (segs : gmap bytes (list bytes)) : Prop := {
  ba_keys : NoDup (map key_of ts);
  ba_bytes : forall t, t ∈ ts -> encoded t;
  ba_old : forall t f, t ∈ ts -> points_to f t -> exists d, stored_at segs (key_of t) d f;
  ba_new : forall t, t ∈ ts -> t_fileName (v_saved t) = None ->
    removed_t t = false /\ forall d f, ~ stored_at segs (key_of t) d f
}.

Lemma key_inj ts t t' : NoDup (map key_of ts) -> t ∈ ts -> t' ∈ ts -> key_of t = key_of t' -> t = t'.
Proof.
  induction ts as [|x ts IH]; [by intros _ ?%not_elem_of_nil|]. cbn [map]. intros Hnd Ht Ht' Hk.
  inversion Hnd as [|? ? Hx Hnd']; subst.
  apply elem_of_cons in Ht as [->|Ht], Ht' as [->|Ht']; [done| | |auto].
  - destruct Hx. rewrite Hk. by apply list_elem_of_fmap_2.
  - destruct Hx. rewrite <-Hk. by apply list_elem_of_fmap_2.
Qed.

Lemma group_lookup ts f k :
  NoDup (map key_of ts) ->
  (exists t, t ∈ ts /\ points_to f t /\ key_of t = k /\ group f ts !! k = Some t) \/
  ((forall t, t ∈ ts -> points_to f t -> key_of t <> k) /\ group f ts !! k = None).
Proof.
  intros Hnd. destruct (sort_out_spec ts ∅ [] f k Hnd) as (_ & H1 & H2 & _). unfold group.
  destruct (decide (Exists (fun t => t_fileName (v_saved t) = Some f /\ key_of t = k) ts)) as [He|He].
  - apply Exists_exists in He as (t & Ht & Hp & Hk). left. exists t. auto.
  - right. assert (forall t, t ∈ ts -> points_to f t -> key_of t <> k) as Hall
      by (intros t Ht Hp Hk; apply He, Exists_exists; by exists t).
    split; [done|]. by rewrite H2, lookup_empty.
Qed.

Lemma after_modify_lookup ts segs f :
  NoDup (map key_of ts) ->
  after_modify ts segs !! f =
    parts ← segs !! f; (if decide (Exists (points_to f) ts)
      then match omap (modified_part (group f ts)) parts with [] => None | ps => Some ps end else Some parts).
Proof.
  intros Hnd. unfold after_modify. rewrite map_lookup_imap. destruct (segs !! f) as [parts|]; [|done]. cbn.
  destruct (sort_out_spec ts ∅ [] f [] Hnd) as (_ & _ & _ & Hd). unfold group.
  destruct ((sort_out ts ∅ []).1 !! f) as [g|] eqn:Hg.
  - rewrite decide_True; [done|]. destruct (proj1 Hd) as [[? He]|(t & Ht & Hp)]; [eauto|by rewrite lookup_empty in He|].
    apply Exists_exists; eauto.
  - rewrite decide_False; [done|]. intros (t & Ht & Hp)%Exists_exists.
    destruct (proj2 Hd) as [? He]; [by right; exists t|done].
Qed.

Lemma modified_part_spec ts f d0 d :
  NoDup (map key_of ts) -> modified_part (group f ts) d0 = Some d <->
  exists k, treasure_key d0 = Some k /\
    ((exists t, t ∈ ts /\ points_to f t /\ key_of t = k /\ has_bytes t d /\ removed_t t = false) \/
     ((forall t, t ∈ ts -> points_to f t -> key_of t <> k) /\ d = d0)).
Proof.
  intros Hnd. unfold modified_part. destruct (treasure_key d0) as [k|]; [|naive_solver].
  destruct (group_lookup ts f k Hnd) as [(t & Ht & Hp & Hk & ->)|[Hall ->]].
  - assert (forall t', t' ∈ ts -> key_of t' = k -> t' = t) as Hu
      by (intros t' Ht' Hk'; apply (key_inj ts); [done..|congruence]).
    unfold has_bytes, removed_t. destruct (t_bytes (v_saved t)) as [b|] eqn:Hb.
    + destruct (negb _ && negb _) eqn:Hr; split; [done| |intros [= <-]|].
      * intros (k' & [= <-] & [(t' & Ht' & _ & Hk' & _ & Hr')|[Hall _]]); [|by destruct (Hall t)].
        rewrite (Hu t') in Hr' by done. congruence.
      * exists k. split; [done|]. left. by exists t.
      * intros (k' & [= <-] & [(t' & Ht' & _ & Hk' & Hb' & _)|[Hall _]]); [|by destruct (Hall t)].
        rewrite (Hu t') in Hb' by done. congruence.
    + split; [done|]. intros (k' & [= <-] & [(t' & Ht' & _ & Hk' & Hb' & _)|[Hall _]]); [|by destruct (Hall t)].
      rewrite (Hu t') in Hb' by done. congruence.
  - split; [intros [= <-]; exists k; split; [done|]; by right|].
    intros (k' & [= <-] & [(t' & Ht' & Hp' & Hk' & _)|[_ ->]]); [by destruct (Hall t')|done].
Qed.

Lemma stored_after_modify ts segs k d f :
  coherent segs -> batch_ok ts segs ->
  stored_at (after_modify ts segs) k d f <->
  (exists t, t ∈ ts /\ points_to f t /\ key_of t = k /\ has_bytes t d /\ removed_t t = false) \/
  ((forall t g, t ∈ ts -> points_to g t -> key_of t <> k) /\ stored_at segs k d f).
Proof.
  intros Hc [Hnd Hb Ho _]. unfold stored_at at 1. rewrite after_modify_lookup by done.
  assert (forall t g x, t ∈ ts -> points_to g t -> stored_at segs (key_of t) x f -> g = f) as Hsame.
  { intros t g x Ht Hp Hs. destruct (Ho t g Ht Hp) as [d' Hd']. by destruct (co_once _ Hc _ _ _ _ _ Hs Hd') as [_ ->]. }
  split.
  - intros (ps & Hl & Hd & Hk). destruct (segs !! f) as [parts|] eqn:Hparts; [|done]. cbn in Hl. case_decide as He.
    + assert (d ∈ omap (modified_part (group f ts)) parts) as Hin by (destruct (omap _ parts); [done|by simplify_eq]).
      apply list_elem_of_omap in Hin as (d0 & Hd0 & Hm). apply modified_part_spec in Hm; [|done].
      destruct Hm as (k0 & Hk0 & [(t & Ht & Hp & Hkt & Hbt & Hr)|[Hall ->]]).
      * left. destruct (Hb t Ht) as (b & Hbb & Hkb). unfold has_bytes in *. exists t. split_and!; congruence || done.
      * assert (k0 = k) as -> by congruence. right. split; [|by exists parts]. intros t g Ht Hp Hkt.
        assert (g = f) as -> by (apply (Hsame t g d0); [done..|by exists parts; rewrite Hkt]). by apply (Hall t).
    + simplify_eq. right. split; [|by exists ps]. intros t g Ht Hp Hkt. destruct He. apply Exists_exists. exists t.
      split; [done|]. assert (g = f) as -> by (apply (Hsame t g d); [done..|by exists ps; rewrite Hkt]). done.
  - assert (forall d0 parts, segs !! f = Some parts -> d0 ∈ parts -> Exists (points_to f) ts -> modified_part (group f ts) d0 = Some d ->
      exists ps, (match omap (modified_part (group f ts)) parts with [] => None | ps => Some ps end) = Some ps /\ d ∈ ps) as Hin.
    { intros d0 parts _ Hd0 _ Hm. assert (d ∈ omap (modified_part (group f ts)) parts) as Hin by (apply list_elem_of_omap; eauto).
      destruct (omap _ parts) as [|p ps]; [by apply not_elem_of_nil in Hin|eauto]. }
    intros [(t & Ht & Hp & Hkt & Hbt & Hr)|[Hall (parts & Hparts & Hd & Hk)]].
    + destruct (Ho t f Ht Hp) as (d0 & parts & Hparts & Hd0 & Hk0). rewrite Hparts. cbn.
      assert (Exists (points_to f) ts) as He by (apply Exists_exists; eauto). rewrite decide_True by done.
      destruct (Hin d0 parts) as (ps & -> & Hps); [done..| |].
      { apply modified_part_spec; [done|]. exists (key_of t). split; [done|]. left. by exists t. }
      exists ps. split_and!; [done..|]. destruct (Hb t Ht) as (b & Hbb & Hkb). unfold has_bytes in *. congruence.
    + rewrite Hparts. cbn. case_decide as He; [|by exists parts].
      destruct (Hin d parts) as (ps & -> & Hps); [done..| |by exists ps].
      apply modified_part_spec; [done|]. exists k. split; [done|]. right. split; [|done]. intros t Ht Hp. by apply (Hall t f).
Qed.

(** ** New treasures *)

Lemma filepath_Base_Join folder a : file_name_ok a -> filepath_Base (filepath_Join folder a) = a.
Proof.
  intros (Ha & Hs & _). unfold filepath_Base. rewrite decide_False by apply Join_nonempty.
  assert (drop_slashes (rev (filepath_Join folder a)) = rev (filepath_Join folder a)) as ->.
  { unfold filepath_Join. rewrite cons_middle, app_assoc, rev_app_distr.
    destruct (rev a) as [|x l] eqn:E; [by apply (f_equal (@rev byte)) in E; rewrite rev_involutive in E|].
    cbn. rewrite decide_False; [done|]. intros ->. apply Hs. rewrite <-(rev_involutive a), E. cbn. set_solver. }
  rewrite rev_involutive. destruct (filepath_Join folder a) as [|x l] eqn:E; [by apply Join_nonempty in E|].
  rewrite <-E. unfold filepath_Join. rewrite split_app, (split_last slash a) by done. by rewrite last_snoc.
Qed.

Lemma parts_fit_app a b : parts_fit (a ++ b) -> parts_fit a /\ parts_fit b.
Proof.
  intros [Hp Hl]. apply Forall_app in Hp as [Ha Hb]. rewrite encode_parts_app, length_app in Hl.
  split; split; done || lia.
Qed.

Lemma stored_append segs a bc k d f :
  stored_at (<[a := default [] (segs !! a) ++ bc]> segs) k d f <->
  stored_at segs k d f \/ (f = a /\ d ∈ bc /\ treasure_key d = Some k).
Proof.
  unfold stored_at. destruct (decide (f = a)) as [->|Hne].
  - setoid_rewrite lookup_insert_eq. split.
    + intros (ps & [= <-] & [Hd|Hd]%elem_of_app & Hk); [left|by right].
      destruct (segs !! a) as [parts|]; [by exists parts|by apply not_elem_of_nil in Hd].
    + intros [(ps & -> & Hd & Hk)|(_ & Hd & Hk)]; (eexists; split; [reflexivity|]; split; [|done]); set_solver.
  - setoid_rewrite lookup_insert_ne; [|done..]. naive_solver.
Qed.

Lemma decodable_append segs a bc :
  decodable segs -> Forall (fun d => is_Some (treasure_key d)) bc -> decodable (<[a := default [] (segs !! a) ++ bc]> segs).
Proof.
  intros Hs Hb f parts d [[<- <-]|[_ Hf]]%lookup_insert_Some Hd; [|by eapply Hs].
  apply elem_of_app in Hd as [Hd|Hd]; [|by rewrite Forall_forall in Hb; apply Hb].
  destruct (segs !! a) eqn:E; [by eapply Hs|by apply not_elem_of_nil in Hd].
Qed.

Lemma GetKey_SetKey k v m : GetKey k (SetKey k v m) = v.
Proof.
  unfold GetKey, SetKey. destruct (KeyValuePairs (meta m) !! k) as [x|] eqn:E.
  - case_decide as Hx; [by rewrite E|]. cbn. by rewrite lookup_insert_eq.
  - cbn. by rewrite lookup_insert_eq.
Qed.

Definition with_actual (u : bytes) (c : chroniclerV1) : chroniclerV1 :=
  put_metadata (SetKey ActualFileKeyInMeta u (metadataInterface c)) (next_uuid c).

Lemma createActual_ok w c segs :
  let u := uuid_NewString (uuids c) in
  folder_holds w (swampDataFolderPath c) segs -> file_name_ok u ->
  exists w', createActualFile (w, c) = ((w', with_actual u c), Ok (filepath_Join (swampDataFolderPath c) u)) /\
    folder_holds w' (swampDataFolderPath c) (<[u := []]> segs).
Proof.
  intros u Hh Hu. destruct (folder_save w _ segs u [] false Hh Hu) as (w' & Hs & Hh').
  { by split; [constructor|]. }
  exists w'. split; [|done]. unfold createActualFile, own, gets, change_v1, modify, bind, try, on_world. cbn [fst snd].
  fold u. by rewrite Hs.
Qed.

Lemma getActual_known w c u :
  GetKey ActualFileKeyInMeta (metadataInterface c) = u -> u <> [] ->
  getActualFile (w, c) = ((w, c), Ok (filepath_Join (swampDataFolderPath c) u)).
Proof. intros <- Hu. unfold getActualFile, own, gets, bind. cbn. by rewrite decide_True. Qed.

Lemma write_content_ok w c segs a bc ev :
  folder_holds w (swampDataFolderPath c) segs -> file_name_ok a -> parts_fit (default [] (segs !! a) ++ bc) ->
  exists w' calls, write_content (filepath_Join (swampDataFolderPath c) a) bc ev (w, c) = ((w', c), Ok calls) /\
    folder_holds w' (swampDataFolderPath c) (<[a := default [] (segs !! a) ++ bc]> segs) /\
    forall call, call ∈ calls -> call = ev.
Proof.
  intros Hh Ha Hf. destruct (folder_save w _ segs a bc true Hh Ha Hf) as (w' & Hs & Hh').
  exists w', (if v1_dontSend c || bool_decide (ev = []) then [] else if v1_callback c then [ev] else []).
  split_and!; [|done|].
  - unfold write_content, bind, try, on_world. cbn [fst snd]. by rewrite Hs.
  - intros call. destruct (_ || _); [set_solver|]. destruct (v1_callback c); set_solver.
Qed.

Definition bytes_of (ts : list v1_treasure) : list bytes := omap (fun t => t_bytes (v_saved t)) ts.

(** The names that are still to come are those of no file. *)
Record fresh_names (n : nat) (segs : gmap bytes (list bytes)) : Prop := {
  fr_ok : forall m, (n <= m)%nat -> file_name_ok (uuid_NewString m) /\ segs !! uuid_NewString m = None;
  fr_inj : forall m m', (n <= m)%nat -> (n <= m')%nat -> uuid_NewString m = uuid_NewString m' -> m = m'
}.

(** [pl] says in which file each new segment is. *)
Record placed (c c' : chroniclerV1) (w' : world) (segs segs' : gmap bytes (list bytes)) (a : bytes) (bc : list bytes)
    (ev : list (bytes * bytes)) (ts : list v1_treasure) (pl : list (bytes * bytes)) (calls : list (list (bytes * bytes))) : Prop := {
  pl_folder : swampDataFolderPath c' = swampDataFolderPath c;
  pl_holds : folder_holds w' (swampDataFolderPath c) segs';
  pl_bytes : pl.*1 = bytes_of ts;
  pl_stored : forall k d f, stored_at segs' k d f <->
    stored_at segs k d f \/ (((f = a /\ d ∈ bc) \/ (d, f) ∈ pl) /\ treasure_key d = Some k);
  pl_keys : decodable segs -> Forall (fun d => is_Some (treasure_key d)) (bc ++ bytes_of ts) -> decodable segs';
  pl_other : forall n, n <> a -> (forall m, (uuids c <= m)%nat -> n <> uuid_NewString m) -> segs' !! n = segs !! n;
  pl_calls : forall call k f, call ∈ calls -> (k, f) ∈ call ->
    (k, f) ∈ ev \/ exists t d, t ∈ ts /\ key_of t = k /\ has_bytes t d /\ (d, f) ∈ pl
}.

Lemma GetFileSize_run w c p :
  faults w = [] -> p <> [] -> exists r, try (on_world (GetFileSize p)) (w, c) = ((w, c : chroniclerV1), Ok r).
Proof.
  intros Hf Hp. unfold try, on_world, GetFileSize, os_Stat. rewrite decide_False by done. cbn [fst snd].
  rewrite os_call_ok by done. destruct (files w !! p); eauto.
Qed.

Lemma write_new_loop_ok ts w c segs a bc size ev :
  folder_holds w (swampDataFolderPath c) segs -> file_name_ok a ->
  parts_fit (default [] (segs !! a) ++ bc ++ bytes_of ts) -> fresh_names (uuids c) segs ->
  (forall m, (uuids c <= m)%nat -> uuid_NewString m <> a) ->
  exists w' c' segs' pl calls,
    write_new_loop (filepath_Join (swampDataFolderPath c) a) bc size ev ts (w, c) = ((w', c'), Ok calls) /\
    placed c c' w' segs segs' a bc ev ts pl calls.
Proof.
  revert w c segs a bc size ev. induction ts as [|t ts IH]; intros w c segs a bc size ev Hh Ha Hfit Hfr Hna; cbn [write_new_loop].
  { cbn in Hfit. rewrite app_nil_r in Hfit. destruct (write_content_ok w c segs a bc ev Hh Ha Hfit) as (w' & calls & Hr & Hh' & Hc).
    exists w', c, (<[a := default [] (segs !! a) ++ bc]> segs), [], calls. split; [done|]. split; try done.
    - intros k d f. rewrite stored_append. set_solver.
    - cbn. rewrite app_nil_r. apply decodable_append.
    - intros n Hn _. by rewrite lookup_insert_ne.
    - intros call k f ->%Hc Hin. by left. }
  unfold bytes_of in Hfit. cbn [omap list_omap] in Hfit. fold (bytes_of ts) in Hfit.
  destruct (t_bytes (v_saved t)) as [b|] eqn:Hb.
  2: { destruct (IH w c segs a bc size ev Hh Ha Hfit Hfr Hna) as (w' & c' & segs' & pl & calls & Hr & Hp).
    exists w', c', segs', pl, calls. split; [done|]. destruct Hp as [H1 H2 H3 H4 Hk5 H5 H6].
    assert (bytes_of (t :: ts) = bytes_of ts) as Hbs by (unfold bytes_of; cbn; by rewrite Hb).
    split; rewrite ?Hbs; try done.
    - intros call k f Hc Hi. destruct (H6 call k f Hc Hi) as [?|(x & d & Hx & ?)]; [by left|]. right. exists x, d. split; [by right|done]. }
  rewrite cons_middle, (app_assoc bc) in Hfit. unfold bind at 1, own, gets. cbn [fst snd].
  set (size' := size + _). clearbody size'. assert (bytes_of (t :: ts) = b :: bytes_of ts) as Hbs by (unfold bytes_of; cbn; by rewrite Hb).
  case_decide as Hover.
  - set (u := uuid_NewString (uuids c)). destruct (fr_ok _ _ Hfr (uuids c)) as [Hu Hnone]; [done|]. fold u in Hu, Hnone.
    destruct (createActual_ok w c segs Hh Hu) as (w1 & Hcr & Hh1). fold u in Hcr, Hh1.
    rewrite (bind_run _ _ _ _ _ Hcr). set (c1 := with_actual u c) in *.
    rewrite (bind_run _ _ _ _ _ (getActual_known w1 c1 u (GetKey_SetKey _ _ _) (proj1 Hu))).
    destruct (GetFileSize_run w1 c1 (filepath_Join (swampDataFolderPath c1) u)) as [rs Hsz]; [apply Hh1|apply Join_nonempty|].
    rewrite (bind_run _ _ _ _ _ Hsz).
    destruct (IH w1 c1 (<[u := []]> segs) u [] (match rs with Ok n => n | Err _ => 0 end) [])
      as (w2 & c2 & segs2 & pl & calls & Hr & [H1 H2 H3 H4 Hk5 H5 H6]); [done|done| | | |].
    { rewrite lookup_insert_eq. cbn. rewrite app_assoc in Hfit. by apply parts_fit_app in Hfit as [_ Hfit]. }
    { split; [|intros m m' Hm Hm'; cbn in Hm, Hm'; apply (fr_inj _ _ Hfr); lia].
      intros m Hm. cbn in Hm. destruct (fr_ok _ _ Hfr m ltac:(lia)) as [Hok Hnm]. split; [done|].
      rewrite lookup_insert_ne; [done|]. intros Hum. apply (fr_inj _ _ Hfr) in Hum; lia. }
    { intros m Hm Hmu. cbn in Hm. apply (fr_inj _ _ Hfr) in Hmu; lia. }
    rewrite (bind_run _ _ _ _ _ Hr).
    assert (segs2 !! a = segs !! a) as Hsa.
    { rewrite H5, lookup_insert_ne; [done|by apply Hna|by intros ->; eapply Hna|]. intros m Hm ->. cbn in Hm. by apply (Hna m); [lia|]. }
    change (swampDataFolderPath c1) with (swampDataFolderPath c) in *. rewrite <-H1 in H2 |- *.
    destruct (write_content_ok w2 c2 segs2 a (bc ++ [b]) ev H2 Ha) as (w3 & calls2 & Hr3 & Hh3 & Hc3).
    { rewrite Hsa. rewrite app_assoc in Hfit. by apply parts_fit_app in Hfit as [Hfit _]. }
    exists w3, c2, (<[a := default [] (segs2 !! a) ++ (bc ++ [b])]> segs2), ((b, a) :: pl), (calls ++ calls2).
    split; [unfold bind at 1; by rewrite Hr3|]. rewrite H1 in Hh3. split; [done|done|rewrite Hbs; cbn [fmap list_fmap fst]; by rewrite H3| | | |].
    + intros k d f. rewrite stored_append, H4.
      assert (stored_at (<[u:=[]]> segs) k d f <-> stored_at segs k d f) as ->.
      { pose proof (stored_append segs u [] k d f) as Hsx. rewrite Hnone in Hsx. cbn in Hsx. rewrite Hsx. set_solver. }
      rewrite elem_of_cons, elem_of_app, list_elem_of_singleton, pair_equal_spec. set_solver.
    + rewrite Hbs, cons_middle, app_assoc. intros Hd [Hd1 Hd2]%Forall_app. apply decodable_append; [|done]. apply Hk5; [|done].
      pose proof (decodable_append segs u [] Hd ltac:(constructor)) as Hdu. by rewrite Hnone in Hdu.
    + intros n Hn Hm. rewrite lookup_insert_ne by done. rewrite H5, lookup_insert_ne; [done|by apply not_eq_sym, Hm|by apply Hm|].
      intros m Hmm. apply Hm. cbn in Hmm. lia.
    + intros call k f [Hcl|Hcl]%elem_of_app Hin.
      * right. destruct (H6 call k f Hcl Hin) as [Hnil|(x & d & Hx & Hk & Hbx & Hpx)]; [by apply not_elem_of_nil in Hnil|].
        exists x, d. split_and!; [by right|done|done|by right].
      * left. by rewrite (Hc3 _ Hcl) in Hin.
  - destruct (IH w c segs a (bc ++ [b]) size' (ev ++ [(key_of t, a)]) Hh Ha Hfit Hfr Hna)
      as (w' & c' & segs' & pl & calls & Hr & [H1 H2 H3 H4 Hk5 H5 H6]).
    exists w', c', segs', ((b, a) :: pl), calls. rewrite filepath_Base_Join by done. fold (key_of t).
    split; [done|]. split; [done|done|rewrite Hbs; cbn [fmap list_fmap fst]; by rewrite H3| | |done|].
    + intros k d f. rewrite H4, elem_of_cons, elem_of_app, list_elem_of_singleton, pair_equal_spec. naive_solver.
    + rewrite Hbs, cons_middle, app_assoc. apply Hk5.
    + intros call k f Hcl Hin. destruct (H6 call k f Hcl Hin) as [[?|Hl]%elem_of_app|(x & d & Hx & Hk & Hbx & Hpx)]; [by left| |].
      * apply list_elem_of_singleton in Hl as [= -> ->]. right. exists t, b. split_and!; [by left|done|done|by left].
      * right. exists x, d. split_and!; [by right|done|done|by right].
Qed.

(** ** A write and what a load finds after it *)

(** The file that takes new treasures first. *)
Definition actual_of (c : chroniclerV1) : bytes :=
  let known := GetKey ActualFileKeyInMeta (metadataInterface c) in
  if decide (known <> []) then known else uuid_NewString (uuids c).
Definition new_of (ts : list v1_treasure) : list v1_treasure := filter (fun t => t_fileName (v_saved t) = None) ts.

(** The name of the actual file can be told from those to come. *)
Definition actual_ok (c : chroniclerV1) : Prop :=
  GetKey ActualFileKeyInMeta (metadataInterface c) <> [] ->
  file_name_ok (actual_of c) /\ forall m, (uuids c <= m)%nat -> uuid_NewString m <> actual_of c.

Record writable (c : chroniclerV1) (ts : list v1_treasure) (segs : gmap bytes (list bytes)) : Prop := {
  wr_room : room ts segs;
  wr_new : parts_fit (default [] (after_modify ts segs !! actual_of c) ++ bytes_of (new_of ts));
  wr_fresh : fresh_names (uuids c) segs;
  wr_actual : actual_ok c
}.

Lemma after_modify_None ts segs f : segs !! f = None -> after_modify ts segs !! f = None.
Proof. intros Hf. unfold after_modify. by rewrite map_lookup_imap, Hf. Qed.

Lemma decodable_after_modify ts segs : coherent segs -> batch_ok ts segs -> decodable (after_modify ts segs).
Proof.
  intros Hc [Hnd Hb _ _] f ps d Hl Hd. rewrite after_modify_lookup in Hl by done.
  destruct (segs !! f) as [parts|] eqn:Hparts; [|done]. cbn in Hl. case_decide as He; [|simplify_eq; by eapply (co_keys _ Hc)].
  assert (d ∈ omap (modified_part (group f ts)) parts) as Hin by (destruct (omap _ parts); [done|by simplify_eq]).
  apply list_elem_of_omap in Hin as (d0 & Hd0 & Hm). apply modified_part_spec in Hm; [|done].
  destruct Hm as (k0 & Hk0 & [(t & Ht & _ & _ & Hbt & _)|[_ ->]]); [|eauto].
  destruct (Hb t Ht) as (b & Hbb & Hkb). unfold has_bytes in *. rewrite Hbt in Hbb. injection Hbb as ->. eauto.
Qed.

(** The actual file is known or made, and holds what it held. *)
Lemma getActual_ok w c segs :
  let a := actual_of c in
  folder_holds w (swampDataFolderPath c) segs -> fresh_names (uuids c) segs -> actual_ok c ->
  exists w1 c1 segs1, getActualFile (w, c) = ((w1, c1), Ok (filepath_Join (swampDataFolderPath c1) a)) /\
    swampDataFolderPath c1 = swampDataFolderPath c /\ folder_holds w1 (swampDataFolderPath c) segs1 /\ file_name_ok a /\
    fresh_names (uuids c1) segs1 /\ (forall m, (uuids c1 <= m)%nat -> uuid_NewString m <> a) /\
    (segs1 = segs \/ segs1 = <[a := default [] (segs !! a) ++ []]> segs).
Proof.
  intros a Hh Hfr Hact. unfold actual_ok in Hact. subst a. unfold actual_of in *. cbn zeta in *. case_decide as Hk.
  - destruct (Hact Hk). exists w, c, segs. split_and!; try done; [by apply getActual_known|by left].
  - destruct (fr_ok _ _ Hfr (uuids c)) as [Hu Hnone]; [done|]. destruct (createActual_ok w c segs Hh Hu) as (w1 & Hcr & Hh1).
    exists w1, (with_actual (uuid_NewString (uuids c)) c), (<[uuid_NewString (uuids c) := []]> segs). split_and!; try done.
    + unfold getActualFile, bind at 1, own, gets. cbn [snd]. case_decide; [by destruct Hk|exact Hcr].
    + split; [|intros m m' Hm Hm'; cbn in Hm, Hm'; apply (fr_inj _ _ Hfr); lia].
      intros m Hm. cbn in Hm. destruct (fr_ok _ _ Hfr m ltac:(lia)) as [Hok Hnm]. split; [done|].
      rewrite lookup_insert_ne; [done|]. intros Hum. apply (fr_inj _ _ Hfr) in Hum; lia.
    + intros m Hm Hmu. cbn in Hm. apply (fr_inj _ _ Hfr) in Hmu; lia.
    + right. by rewrite Hnone.
Qed.

Lemma writeNewTreasures_ok w c segs ts :
  folder_holds w (swampDataFolderPath c) segs -> fresh_names (uuids c) segs -> actual_ok c ->
  parts_fit (default [] (segs !! actual_of c) ++ bytes_of ts) ->
  exists w' c' segs' pl calls,
    writeNewTreasures ts (w, c) = ((w', c'), Ok calls) /\ swampDataFolderPath c' = swampDataFolderPath c /\
    folder_holds w' (swampDataFolderPath c) segs' /\ pl.*1 = bytes_of ts /\
    (forall k d f, stored_at segs' k d f <-> stored_at segs k d f \/ ((d, f) ∈ pl /\ treasure_key d = Some k)) /\
    (decodable segs -> Forall (fun d => is_Some (treasure_key d)) (bytes_of ts) -> decodable segs') /\
    (forall call k f, call ∈ calls -> (k, f) ∈ call ->
       exists t d, t ∈ ts /\ key_of t = k /\ has_bytes t d /\ (d, f) ∈ pl).
Proof.
  intros Hh Hfr Hact Hfit. destruct (getActual_ok w c segs Hh Hfr Hact) as (w1 & c1 & segs1 & Hg & Hf & Hh1 & Ha & Hfr1 & Hna & Hsegs).
  assert ((forall k d f, stored_at segs1 k d f <-> stored_at segs k d f) /\ (decodable segs -> decodable segs1) /\
    default [] (segs1 !! actual_of c) = default [] (segs !! actual_of c)) as (Hst & Hdec & Hold).
  { destruct Hsegs as [->| ->]; [done|]. split_and!.
    - intros k d f. rewrite stored_append. set_solver.
    - intros Hd. apply decodable_append; [done|constructor].
    - by rewrite lookup_insert_eq, app_nil_r. }
  unfold writeNewTreasures. rewrite (bind_run _ _ _ _ _ Hg).
  destruct (GetFileSize_run w1 c1 (filepath_Join (swampDataFolderPath c1) (actual_of c))) as [rs Hsz]; [apply Hh1|apply Join_nonempty|].
  rewrite (bind_run _ _ _ _ _ Hsz).
  destruct (write_new_loop_ok ts w1 c1 segs1 (actual_of c) [] (match rs with Ok n => n | Err _ => 0 end) [])
    as (w' & c' & segs' & pl & calls & Hr & [H1 H2 H3 H4 H5 H6 H7]); [by rewrite Hf|done|by rewrite Hold|done|done|].
  exists w', c', segs', pl, calls. rewrite Hf in *. split_and!; try done.
  - intros k d f. rewrite H4, Hst. set_solver.
  - auto.
  - intros call k f Hc Hi. destruct (H7 call k f Hc Hi) as [?%not_elem_of_nil|?]; done.
Qed.

Lemma after_modify_none ts segs :
  NoDup (map key_of ts) -> (sort_out ts ∅ []).1 = ∅ -> after_modify ts segs = segs.
Proof.
  intros Hnd Hm. unfold after_modify. rewrite Hm. apply map_eq. intros f. rewrite map_lookup_imap.
  by destruct (segs !! f).
Qed.

Lemma elem_of_new ts t : t ∈ new_of ts <-> t ∈ ts /\ t_fileName (v_saved t) = None.
Proof. unfold new_of. rewrite list_elem_of_filter. tauto. Qed.

Lemma elem_of_bytes ts b : b ∈ bytes_of ts <-> exists t, t ∈ ts /\ has_bytes t b.
Proof. apply list_elem_of_omap. Qed.

(** After both halves of a write: what is stored, and that it can be loaded. *)
Lemma v1_Write_stored w c segs ts :
  folder_holds w (swampDataFolderPath c) segs -> coherent segs -> batch_ok ts segs -> writable c ts segs ->
  exists w' c' segs' pl calls,
    v1_Write ts (w, c) = ((w', c'), Ok calls) /\ swampDataFolderPath c' = swampDataFolderPath c /\
    folder_holds w' (swampDataFolderPath c) segs' /\ pl.*1 = bytes_of (new_of ts) /\ decodable segs' /\
    (forall k d f, stored_at segs' k d f <->
       stored_at (after_modify ts segs) k d f \/ ((d, f) ∈ pl /\ treasure_key d = Some k)) /\
    (forall call k f, call ∈ calls -> (k, f) ∈ call ->
       exists t d, t ∈ new_of ts /\ key_of t = k /\ has_bytes t d /\ (d, f) ∈ pl).
Proof.
  intros Hh Hc Hb [Hroom Hnew Hfr Hact]. destruct (Hb) as [Hnd Hbytes Hold _].
  destruct (modify_ok w c segs ts Hh Hroom Hnd) as (w1 & Hm & Hh1).
  { intros t f Ht Hp. destruct (Hold t f Ht Hp) as (d & parts & Hp' & _). eauto. }
  pose proof (decodable_after_modify ts segs Hc Hb) as Hdec.
  pose proof (sort_out_spec ts ∅ [] [] [] Hnd) as (Hn & _). cbn zeta in Hn.
  assert (forall (k : unit -> M (world * chroniclerV1) (list (list (bytes * bytes)))),
    ((if decide ((sort_out ts ∅ []).1 = ∅) then ret tt else modifyTreasuresInFilesystem (sort_out ts ∅ []).1) ;;; k tt) (w, c)
    = k tt (if decide ((sort_out ts ∅ []).1 = ∅) then w else w1, c)) as Hstep.
  { intros k. case_decide; [done|]. by rewrite (bind_run _ _ _ _ _ Hm). }
  assert (folder_holds (if decide ((sort_out ts ∅ []).1 = ∅) then w else w1) (swampDataFolderPath c) (after_modify ts segs)) as Hh2.
  { case_decide as He; [by rewrite after_modify_none|done]. }
  set (w2 := if decide _ then w else w1) in *. unfold v1_Write. destruct (sort_out ts ∅ []) as [modified new]. cbn [fst snd] in *.
  subst new. cbn [app]. fold (new_of ts). rewrite (Hstep (fun _ => _)). fold w2. cbn beta.
  destruct (decide (new_of ts = [])) as [He|He].
  - exists w2, c, (after_modify ts segs), [], []. rewrite He. split_and!; try done; set_solver.
  - destruct (writeNewTreasures_ok w2 c (after_modify ts segs) (new_of ts)) as (w' & c' & segs' & pl & calls & Hr & H1 & H2 & H3 & H4 & H5 & H6); try done.
    { destruct Hfr as [Hok Hinj]. split; [|done]. intros m Hm'. destruct (Hok m Hm'). split; [done|]. by apply after_modify_None. }
    exists w', c', segs', pl, calls. split_and!; try done. apply H5; [done|]. apply Forall_forall.
    intros b (t & Ht & Hbt)%elem_of_bytes. apply elem_of_new in Ht as [Ht _]. destruct (Hbytes t Ht) as (b' & Hb' & Hk).
    unfold has_bytes in *. rewrite Hbt in Hb'. injection Hb' as <-. eauto.
Qed.


Lemma new_keys ts : NoDup (map key_of ts) -> NoDup (map key_of (new_of ts)).
Proof.
  induction ts as [|x ts IH]; intros Hnd; [constructor|]. cbn [map] in Hnd. inversion Hnd as [|? ? Hx Hn]; subst.
  unfold new_of in *. rewrite filter_cons. case_decide; [|auto]. cbn [map]. constructor; [|auto]. rewrite list_elem_of_fmap. intros (y & Hy & Hin). apply Hx. rewrite Hy.
  apply list_elem_of_filter in Hin as [_ Hin]. by apply list_elem_of_fmap_2.
Qed.

Lemma encoded_key t d : encoded t -> has_bytes t d -> treasure_key d = Some (key_of t).
Proof. unfold has_bytes. intros (b & Hb & Hk) Hd. unfold has_bytes in *. congruence. Qed.

(** Each new segment is in one file. *)
Lemma placed_file ts (pl : list (bytes * bytes)) t d :
  NoDup (map key_of ts) -> (forall t, t ∈ ts -> encoded t) -> pl.*1 = bytes_of ts -> t ∈ ts -> has_bytes t d ->
  exists f, forall g, (d, g) ∈ pl <-> g = f.
Proof.
  revert pl. induction ts as [|x ts IH]; intros pl Hnd Hb Hpl Ht Hd; [by apply not_elem_of_nil in Ht|].
  destruct (Hb x ltac:(by left)) as (b & Hbx & Hkx).
  assert (bytes_of (x :: ts) = b :: bytes_of ts) as Hbs by (unfold bytes_of, has_bytes in *; cbn; by rewrite Hbx).
  rewrite Hbs in Hpl. destruct pl as [|[b' f] pl]; [done|]. cbn [fmap list_fmap fst] in Hpl. injection Hpl as -> Hpl.
  cbn [map] in Hnd. inversion Hnd as [|? ? Hx Hnd']; subst.
  assert (forall y, y ∈ ts -> has_bytes y b -> False) as Hno.
  { intros y Hy Hby. apply Hx. pose proof (encoded_key y b (Hb y ltac:(by right)) Hby) as Hky.
    rewrite Hkx in Hky. injection Hky as ->. by apply list_elem_of_fmap_2. }
  apply elem_of_cons in Ht as [->|Ht].
  - assert (d = b) as -> by (unfold has_bytes in *; congruence). exists f. intros g. rewrite elem_of_cons. split; [|intros ->; by left].
    intros [Hg|Hin]; [by injection Hg|]. exfalso. assert (b ∈ bytes_of ts) as (y & Hy & Hby)%elem_of_bytes; [|by eapply Hno].
    rewrite <-Hpl. apply list_elem_of_fmap. by exists (b, g).
  - destruct (IH pl Hnd') as (f' & Hf'); [intros; apply Hb; by right|done..|]. exists f'. intros g. rewrite elem_of_cons, <-Hf'.
    split; [|by right]. intros [Hg|?]; [|done]. injection Hg as -> ->. by destruct (Hno t Ht Hd).
Qed.

(** What is stored after a write: the segments of the batch, and those of the other keys. *)
Definition in_file (pl : list (bytes * bytes)) (t : v1_treasure) (d f : bytes) : Prop :=
  points_to f t \/ t_fileName (v_saved t) = None /\ (d, f) ∈ pl.
Definition after_write (segs : gmap bytes (list bytes)) (ts : list v1_treasure) (pl : list (bytes * bytes)) (k d f : bytes) : Prop :=
  (exists t, t ∈ ts /\ key_of t = k /\ has_bytes t d /\ removed_t t = false /\ in_file pl t d f) \/
  ((k ∉ map key_of ts) /\ stored_at segs k d f).

Lemma not_a_key k ts : k ∉ map key_of ts <-> forall t, t ∈ ts -> key_of t <> k.
Proof. rewrite list_elem_of_fmap. naive_solver. Qed.

Lemma stored_after_write segs ts (pl : list (bytes * bytes)) k d f :
  coherent segs -> batch_ok ts segs -> pl.*1 = bytes_of (new_of ts) ->
  stored_at (after_modify ts segs) k d f \/ ((d, f) ∈ pl /\ treasure_key d = Some k) <-> after_write segs ts pl k d f.
Proof.
  intros Hc Hb Hpl. rewrite stored_after_modify by done. destruct Hb as [Hnd Hbytes Hold Hnew].
  unfold after_write, in_file. rewrite not_a_key. split.
  - intros [[(t & Ht & Hp & Hk & Hbt & Hr)|[Hno Hs]]|[Hin Hk]].
    + left. exists t. split_and!; try done. by left.
    + right. split; [|done]. intros t Ht Hk. destruct (t_fileName (v_saved t)) as [g|] eqn:Hfn; [by apply (Hno t g)|].
      destruct (Hnew t Ht Hfn) as [_ Hn]. apply (Hn d f). by rewrite Hk.
    + assert (d ∈ bytes_of (new_of ts)) as (t & [Ht Hfn]%elem_of_new & Hbt)%elem_of_bytes
        by (rewrite <-Hpl; apply list_elem_of_fmap; by exists (d, f)).
      left. exists t. rewrite (encoded_key t d (Hbytes t Ht) Hbt) in Hk. injection Hk as Hk.
      split_and!; try done; [by apply (Hnew t)|by right].
  - intros [(t & Ht & Hk & Hbt & Hr & [Hp|[Hfn Hin]])|[Hno Hs]].
    + left. left. by exists t.
    + right. split; [done|]. by rewrite <-Hk, (encoded_key t d (Hbytes t Ht) Hbt).
    + left. right. split; [|done]. intros t _ Ht _. by apply Hno.
Qed.

Lemma in_one_file segs ts (pl : list (bytes * bytes)) t d :
  batch_ok ts segs -> pl.*1 = bytes_of (new_of ts) -> t ∈ ts -> has_bytes t d ->
  exists f, forall g, in_file pl t d g <-> g = f.
Proof.
  intros [Hnd Hbytes _ _] Hpl Ht Hd. unfold in_file, points_to. destruct (t_fileName (v_saved t)) as [f|] eqn:Hfn.
  - exists f. naive_solver.
  - destruct (placed_file (new_of ts) pl t d) as (f & Hfp); [by apply new_keys|by intros x [Hx _]%elem_of_new; apply Hbytes|done|by apply elem_of_new|done|].
    exists f. intros g. rewrite <-Hfp. naive_solver.
Qed.

Lemma after_write_once segs ts (pl : list (bytes * bytes)) k d f d' f' :
  coherent segs -> batch_ok ts segs -> pl.*1 = bytes_of (new_of ts) ->
  after_write segs ts pl k d f -> after_write segs ts pl k d' f' -> d = d' /\ f = f'.
Proof.
  intros Hc Hb Hpl. pose proof (ba_keys _ _ Hb) as Hnd.
  intros [(t & Ht & Hk & Hbt & _ & Hf)|[Hno Hs]] [(t' & Ht' & Hk' & Hbt' & _ & Hf')|[Hno' Hs']].
  - assert (t = t') as <- by (apply (key_inj ts); congruence || done).
    assert (d = d') as <- by (unfold has_bytes in *; congruence). split; [done|].
    destruct (in_one_file segs ts pl t d Hb Hpl Ht Hbt) as (g & Hg). apply Hg in Hf as ->. by apply Hg in Hf' as ->.
  - rewrite not_a_key in Hno'. by destruct (Hno' t).
  - rewrite not_a_key in Hno. by destruct (Hno t').
  - by apply (co_once _ Hc k).
Qed.

(** C31: a write followed by a load, on a coherent folder of the V1 engine (every segment can be
    decoded, a key has one), of a batch that agrees with it: each key once and encoded under its
    key, a treasure that names a file is stored in it, and one that names none is stored nowhere and is
    not deleted.  Then a treasure of the batch is there with its new segment, in the file it pointed to
    when it had one, and a deleted one is gone; every other key is as before; and the files that were
    reported are the right ones.  Files that are full make the batch go on in new ones.
    ([V1Sample.full_file_forgets_pointer] is how the swamp loses such an agreement.) *)
Theorem v1_write_then_load (w : world) (c : chroniclerV1) (segs : gmap bytes (list bytes)) (ts : list v1_treasure)
    (Hh : folder_holds w (swampDataFolderPath c) segs) (Hc : coherent segs) (Hb : batch_ok ts segs) (Hw : writable c ts segs) :
  exists w' c' calls m,
    v1_Write ts (w, c) = ((w', c'), Ok calls) /\ v1_Load (w', c') = ((w', c'), Ok (Some m)) /\
    (forall t, t ∈ ts -> removed_t t = true -> m !! key_of t = None) /\
    (forall t d, t ∈ ts -> removed_t t = false -> has_bytes t d ->
       exists f, m !! key_of t = Some (d, f) /\ forall g, points_to g t -> g = f) /\
    (forall k d f, k ∉ map key_of ts -> m !! k = Some (d, f) <-> stored_at segs k d f) /\
    (forall call k f, call ∈ calls -> (k, f) ∈ call -> exists d, m !! k = Some (d, f)).
Proof.
  destruct (v1_Write_stored w c segs ts Hh Hc Hb Hw) as (w' & c' & segs' & pl & calls & Hrun & Hf & Hh' & Hpl & Hdec & Hst & Hcalls).
  assert (forall k d f, stored_at segs' k d f <-> after_write segs ts pl k d f) as Hall
    by (intros; by rewrite Hst, stored_after_write).
  destruct (v1_Load_ok w' c' segs') as (m & Hl & Hm); [by rewrite Hf| |].
  { split; [done|]. intros k d f d' f'. rewrite !Hall. by apply after_write_once. }
  exists w', c', calls, m. split_and!; [done|done| | | |].
  - intros t Ht Hr. destruct (m !! key_of t) as [[d f]|] eqn:E; [|done]. apply Hm, Hall in E as [(t' & Ht' & Hk & _ & Hr' & _)|[Hno _]].
    + apply (key_inj ts) in Hk; [congruence|apply Hb|done..].
    + by destruct (proj1 (not_a_key _ _) Hno t Ht).
  - intros t d Ht Hr Hd. destruct (in_one_file segs ts pl t d Hb Hpl Ht Hd) as (f & Hfi). exists f. split.
    + apply Hm, Hall. left. exists t. split_and!; try done. by apply Hfi.
    + intros g Hg. apply Hfi. by left.
  - intros k d f Hk. rewrite Hm, Hall. unfold after_write. split; [|by right].
    intros [(t & Ht & Hkt & _)|[_ Hs]]; [|done]. rewrite not_a_key in Hk. by destruct (Hk t).
  - intros call k f Hcl Hin. destruct (Hcalls call k f Hcl Hin) as (t & d & [Ht Hfn]%elem_of_new & Hk & Hd & Hp). exists d.
    apply Hm, Hall. left. exists t. split_and!; try done; [|by right]. by apply (ba_new _ _ Hb t).
Qed.
End Meaning.

(** ** Examples *)

Module V1Sample.
#[local] Existing Instance Stored.stored_codecs.
#[local] Instance first_byte : V1Gob :=
  {| treasure_key d := match d with k :: _ => Some [k] | [] => None end; meta_swamp_name d := Some d |}.
#[local] Instance letters : UUIDs := fun n => replicate (S n) x61.
#[local] Instance by_name : StringRange := fun _ m => map_to_list m.
#[local] Instance zero_outside : FloatToInt := {| int64_outside _ := 0; uint64_outside _ := 0 |}.

Definition folder : bytes := bs "/f".
(** A treasure of which a byte says the key and another the value. *)
Definition treasure_of (k v : byte) (deleted : Z) (file : option bytes) : v1_treasure :=
  {| v_saved := {| t_key := [k]; t_deletedAt := deleted; t_fileName := file; t_bytes := Some [k; v] |}; v_shadowDelete := false |}.

Definition old_file : bytes := bs "b".
Definition stored_parts : list bytes := [[x01; x0a]; [x02; x0b]; [x03; x0c]].
Definition start : world :=
  {| files := {[ filepath_Join folder old_file := x00 :: encode_parts stored_parts ]}; faults := []; clock := 0 |}.
Definition engine : chroniclerV1 := v1_RegisterFilePointerFunction (NewV1 folder 1000 Meta.New).
(** The first key gets a new value, the second is deleted, a fourth one is new. *)
Definition batch : list v1_treasure :=
  [treasure_of x01 x0d 0 (Some old_file); treasure_of x02 x0b 7 (Some old_file); treasure_of x04 x0e 0 None].

Example batch_written :
  (let '((w, _), calls) := v1_Write batch (start, engine) in
   ((fun r => (default [] (r !! old_file), default [] (r !! bs "a"))) <$>
      match (GetAllFileContents folder [MetaFile] w).2 with Ok m => Some m | Err _ => None end, calls))
  = (Some ([[x01; x0d]; [x03; x0c]], [[x04; x0e]]), Ok [[([x04], bs "a")]]).
Proof. vm_compute. reflexivity. Qed.

(** *** A file that is full *)

(** A treasure whose segment is larger than a file of one byte is to become. *)
Definition large (k v : byte) : v1_treasure :=
  {| v_saved := {| t_key := [k]; t_deletedAt := 0; t_fileName := None; t_bytes := Some ([k; v] ++ make_bytes 10) |};
     v_shadowDelete := false |}.
Definition empty_world : world := {| files := ∅; faults := []; clock := 0 |}.
Definition small : chroniclerV1 := v1_RegisterFilePointerFunction (NewV1 folder 1 Meta.New).
Definition forgotten : (world * chroniclerV1) * result (list (list (bytes * bytes))) := v1_Write [large x01 x0a; large x02 x0b] (empty_world, small).
(** The key that was not reported is written again, as a new one. *)
Definition written_twice : world * chroniclerV1 := (v1_Write [large x01 x0c] forgotten.1).1.

Definition value_loaded (FR : StringRange) (k : byte) : option byte :=
  match (v1_Load (FR := FR) written_twice).2 with
  | Ok (Some m) => '(d, _) ← m !! [k]; d !! 1%nat
  | _ => None
  end.
Definition in_reverse : StringRange := fun _ m => reverse (map_to_list m).

(** The treasure with which a file becomes full is written without a report of its file.  When
    it is written again both segments stay, and a load finds the old or the new value, as the
    map of the files is ranged over. *)
Theorem full_file_forgets_pointer :
  forgotten.2 = Ok [[([x02], bs "aa")]] /\
  StringRangeOk (SRG := by_name) /\ StringRangeOk (SRG := in_reverse) /\
  (value_loaded by_name x01, value_loaded in_reverse x01) ∈ [(Some x0a, Some x0c); (Some x0c, Some x0a)].
Proof.
  split_and!; [by vm_compute|by intros A m|intros A m; apply reverse_Permutation|].
  rewrite !elem_of_cons. vm_compute. auto.
Qed.

(** *** The batch meets what a write asks for *)

Definition start_segs : gmap bytes (list bytes) := {[ old_file := stored_parts ]}.

Lemma start_holds : folder_holds start (swampDataFolderPath engine) start_segs.
Proof.
  split; [done|done| |].
  - unfold start_segs. apply map_Forall_singleton. split; [|split].
    + split_and!; try done. apply (bool_decide_unpack _). by vm_compute.
    + split; [|by vm_compute]. repeat constructor; by vm_compute.
    + exists (x00 :: encode_parts stored_parts). split_and!; [apply lookup_singleton_eq|done|done].
  - intros name Hn _. apply elem_of_names in Hn as [[c Hc] _]. cbn [files start] in Hc.
    apply lookup_singleton_Some in Hc as [Hc _]. apply Join_inj in Hc as <-.
    unfold start_segs. rewrite lookup_singleton_eq. eauto.
Qed.

Lemma start_segs_Some f parts : start_segs !! f = Some parts <-> f = old_file /\ parts = stored_parts.
Proof. unfold start_segs. rewrite lookup_singleton_Some. naive_solver. Qed.

Lemma start_stored k d f : stored_at start_segs k d f <-> f = old_file /\ d ∈ stored_parts /\ treasure_key d = Some k.
Proof.
  unfold stored_at. setoid_rewrite start_segs_Some. naive_solver.
Qed.

Lemma start_coherent : coherent start_segs.
Proof.
  split.
  - intros f parts d [-> ->]%start_segs_Some Hd. unfold stored_parts in Hd. rewrite !elem_of_cons in Hd.
    destruct Hd as [->|[->|[->|Hd%elem_of_nil]]]; [eexists; reflexivity..|done].
  - intros k d f d' f' (-> & Hd & Hk)%start_stored (-> & Hd' & Hk')%start_stored. split; [|done].
    unfold stored_parts in *. rewrite !elem_of_cons, elem_of_nil in Hd, Hd'.
    destruct Hd as [->|[->|[->|[]]]], Hd' as [->|[->|[->|[]]]]; try done; cbn in *; congruence.
Qed.

Lemma batch_fits : batch_ok batch start_segs.
Proof.
  split.
  - apply (bool_decide_unpack _). by vm_compute.
  - intros t Ht. unfold batch in Ht. rewrite !elem_of_cons, elem_of_nil in Ht.
    destruct Ht as [->|[->|[->|[]]]]; (eexists; split; reflexivity).
  - intros t f Ht Hp. unfold batch in Ht. rewrite !elem_of_cons, elem_of_nil in Ht. setoid_rewrite start_stored.
    unfold points_to in Hp. destruct Ht as [->|[->|[->|[]]]]; cbn in Hp; [injection Hp as <-..|discriminate].
    + exists [x01; x0a]. split_and!; [done| |done]. by left.
    + exists [x02; x0b]. split_and!; [done| |done]. right. by left.
  - intros t Ht Hn. unfold batch in Ht. rewrite !elem_of_cons, elem_of_nil in Ht.
    destruct Ht as [->|[->|[->|[]]]]; [done|done|]. split; [done|]. intros d f (_ & Hd & Hk)%start_stored.
    unfold stored_parts in Hd. rewrite !elem_of_cons, elem_of_nil in Hd. by destruct Hd as [->|[->|[->|[]]]].
Qed.

Lemma letters_fresh n : fresh_names (UU := letters) n start_segs.
Proof.
  split.
  - intros m _. unfold uuid_NewString, letters. split.
    + split_and!; [done| |done]. intros [? _]%elem_of_replicate. done.
    + unfold start_segs. apply lookup_singleton_ne. done.
  - intros m m' _ _ H. apply (f_equal length) in H. unfold uuid_NewString, letters in H. rewrite !length_replicate in H. lia.
Qed.

Lemma batch_writable : writable engine batch start_segs.
Proof.
  split.
  - unfold room. intros f parts [-> ->]%start_segs_Some.
    assert (omap (modified_part (group old_file batch)) stored_parts = [[x01; x0d]; [x03; x0c]]) as -> by (vm_compute; reflexivity).
    split; [repeat constructor; by vm_compute|by vm_compute].
  - assert (default [] (after_modify batch start_segs !! actual_of engine) ++ bytes_of (new_of batch) = [[x04; x0e]]) as ->
      by (vm_compute; reflexivity).
    split; [repeat constructor; by vm_compute|by vm_compute].
  - apply letters_fresh.
  - intros H. by destruct H.
Qed.
End V1Sample.

Lemma v1_write_then_load_witness :
  exists w' c' calls m,
    v1_Write (HC := Stored.stored_codecs) (VG := V1Sample.first_byte) (UU := V1Sample.letters) (FR := V1Sample.by_name)
      (FI := V1Sample.zero_outside) V1Sample.batch (V1Sample.start, V1Sample.engine) = ((w', c'), Ok calls) /\
    v1_Load (HC := Stored.stored_codecs) (VG := V1Sample.first_byte) (FR := V1Sample.by_name) (w', c') = ((w', c'), Ok (Some m)) /\
    m !! [x02] = None /\ (exists f, m !! [x01] = Some ([x01; x0d], f)) /\ m !! [x03] = Some ([x03; x0c], V1Sample.old_file).
Proof.
  destruct (v1_write_then_load (HC := Stored.stored_codecs) (HOk := Stored.stored_codecs_ok) (VG := V1Sample.first_byte)
    (UU := V1Sample.letters) (FR := V1Sample.by_name) (FROk := fun _ _ => reflexivity _) (FI := V1Sample.zero_outside)
    V1Sample.start V1Sample.engine V1Sample.start_segs V1Sample.batch V1Sample.start_holds V1Sample.start_coherent
    V1Sample.batch_fits V1Sample.batch_writable) as (w' & c' & calls & m & H1 & H2 & H3 & H4 & H5 & _).
  exists w', c', calls, m. split; [exact H1|]. split; [exact H2|]. split; [|split].
  - apply (H3 (V1Sample.treasure_of x02 x0b 7 (Some V1Sample.old_file))); [right; left|reflexivity].
  - destruct (H4 (V1Sample.treasure_of x01 x0d 0 (Some V1Sample.old_file)) [x01; x0d]) as (f & Hf & _);
      [left|reflexivity|reflexivity|exists f; exact Hf].
  - apply H5.
    + apply not_a_key. intros t Ht. unfold V1Sample.batch in Ht. rewrite !elem_of_cons, elem_of_nil in Ht.
      destruct Ht as [->|[->|[->|[]]]]; discriminate.
    + apply V1Sample.start_stored. split; [reflexivity|]. split; [right; right; left|reflexivity].
Defined.
