(* ===== verification/Swamp.v ===== *)
(** A swamp: [core/hydra/swamp/swamp.go] and [swamp_bucket.go].

    The swamp owns the objects: [heap] is the store its beacons, its write buffer and its
    field indexes point into.  What it knows of its chronicler is the class [Store]; the
    instance for the V2 chronicler is in [SwampStore.v].  An operation is a function to an
    [outcome]: [Disabled] when it would wait for a guard or for vigils, [Panic], or the next
    state.  The calls of [time.Now] inside one operation give the same instant [now]. *)
From Stdlib Require Import Floats.SpecFloat.
From S2P Require Import Prelude Steps Types Compressor Block FileSys Reader Meta Chronicler.
From S2P Require Import Guard Treasure Beacon Canon Bucket.

(** ** What the swamp calls *)

(** [gob] coding of a treasure. *)
Class GobModel := { encode_model : Model -> option bytes; decode_model : bytes -> option Model }.

(** The model with another file name. *)
Definition with_file (f : option bytes) (m : Model) : Model :=
  {| m_Key := m_Key m; m_Content := m_Content m; m_CreatedAt := m_CreatedAt m; m_CreatedBy := m_CreatedBy m;
     m_DeletedAt := m_DeletedAt m; m_DeletedBy := m_DeletedBy m; m_ModifiedAt := m_ModifiedAt m;
     m_ModifiedBy := m_ModifiedBy m; m_ExpirationTime := m_ExpirationTime m; m_FileName := f |}.

(** [decodeTreasure] and [LoadFromByte], which sets the file name. *)
Definition decode_stored `{GM : GobModel} (fileName : bytes) (d : bytes) : option Model :=
  if decide (d = []) then None else with_file (Some fileName) <$> decode_model d.

(** The interface [chronicler.Chronicler]: [st_Write] answers with the events it hands to the
    file pointer callback, [st_Load] with the treasures it pushes to the beacon.  The live
    count is what the registered callback answers during the call. *)
Class Store := {
  store : Type;
  st_Register : store -> store;     (** the three [Register...] calls of [New] *)
  st_DontSendFilePointer : store -> store;
  st_Load : store -> store * option (gmap bytes Model);
  st_Write : Z -> list saved_treasure -> store -> store * option (list (bytes * bytes));
  st_Sync : store -> store;
  st_Close : Z -> store -> store;
  st_ForceCompaction : store -> store * bool;
  st_Destroy : store -> store
}.

Definition of_panic {A} (o : option A) : outcome A :=
  match o with Some a => Next a | None => Panic end.

(** ** Data *)

Inductive TreasureStatus : Type := StatusNew | StatusModified | StatusDeleted | StatusSame.

Inductive BeaconType : Type :=
| BeaconTypeKey | BeaconTypeCreationTime | BeaconTypeExpirationTime | BeaconTypeUpdateTime
| BeaconTypeValueUint8 | BeaconTypeValueUint16 | BeaconTypeValueUint32 | BeaconTypeValueUint64
| BeaconTypeValueInt8 | BeaconTypeValueInt16 | BeaconTypeValueInt32 | BeaconTypeValueInt64
| BeaconTypeValueFloat32 | BeaconTypeValueFloat64 | BeaconTypeValueString
| BeaconTypeOther.

Inductive BeaconOrder : Type := IndexOrderAsc | IndexOrderDesc | IndexOrderOther.

(** The five pairs of ordered beacons. *)
Inductive pair_of : Type := keyBeacon | expirationTimeBeacon | creationTimeBeacon | updateTimeBeacon | valueBeacon.
#[export] Instance pair_eq_dec : EqDecision pair_of.
Proof. solve_decision. Defined.

Inductive direction : Type := ASC | DESC.
#[export] Instance direction_eq_dec : EqDecision direction.
Proof. solve_decision. Defined.

Record Event := {
  e_Treasure : option loc;
  e_OldTreasure : option loc;
  e_DeletedTreasure : option treasure;
  e_EventTime : Z;
  e_StatusType : TreasureStatus
}.

(** The calls of the three callbacks. *)
Inductive message : Type := SentEvent (e : Event) | SentInfo (allElements : Z) | SentClosed.

(** The objects and what points to them. *)
Record contents := {
  heap : list treasure;
  beaconKey : beacon;
  beacons : pair_of -> direction -> beacon;
  treasuresWaitingForWriter : beacon;
  creatingTreasures : gmap bytes loc;
  buckets : gmap bytes bucket
}.

Record control := {
  closing : bool;
  destroyed : bool;
  cancelled : bool;                       (** [goRoutineContext] is done *)
  isFilesystemWritingActive : bool;
  isInformationSendingActive : bool;
  isEventSendingActive : bool;
  lastInteractionTime : Z;
  vigils : Z;
  sent : list message
}.

Record settings := { writeInterval : Z; inMemorySwamp : bool; closeAfterIdle : Z }.

Section Swamp.
Context `{SI : Store} `{GM : GobModel} `{GMeta : GobMeta} `{FI : FloatToInt} `{MP : Msgpack} `{SR : SlotRange}.
Context `{HR : KeyRange} `{HS : SortSlice}.

Record swamp := {
  data : contents;
  ctl : control;
  conf : settings;
  chron : option store;                   (** [None] is the nil interface *)
  metadataInterface : Metadata;
  metaFile : option bytes
}.

Definition on_data (f : contents -> contents) (s : swamp) : swamp :=
  {| data := f (data s); ctl := ctl s; conf := conf s; chron := chron s;
     metadataInterface := metadataInterface s; metaFile := metaFile s |}.
Definition on_ctl (f : control -> control) (s : swamp) : swamp :=
  {| data := data s; ctl := f (ctl s); conf := conf s; chron := chron s;
     metadataInterface := metadataInterface s; metaFile := metaFile s |}.
Definition set_chron (c : store) (s : swamp) : swamp :=
  {| data := data s; ctl := ctl s; conf := conf s; chron := Some c;
     metadataInterface := metadataInterface s; metaFile := metaFile s |}.
Definition set_metadata (m : Metadata) (f : option bytes) (s : swamp) : swamp :=
  {| data := data s; ctl := ctl s; conf := conf s; chron := chron s;
     metadataInterface := m; metaFile := f |}.

Definition on_heap (f : list treasure -> list treasure) : swamp -> swamp := on_data (fun d =>
  {| heap := f (heap d); beaconKey := beaconKey d; beacons := beacons d;
     treasuresWaitingForWriter := treasuresWaitingForWriter d;
     creatingTreasures := creatingTreasures d; buckets := buckets d |}).
Definition on_beaconKey (f : beacon -> beacon) : swamp -> swamp := on_data (fun d =>
  {| heap := heap d; beaconKey := f (beaconKey d); beacons := beacons d;
     treasuresWaitingForWriter := treasuresWaitingForWriter d;
     creatingTreasures := creatingTreasures d; buckets := buckets d |}).
Definition on_beacon (p : pair_of) (o : direction) (f : beacon -> beacon) : swamp -> swamp := on_data (fun d =>
  {| heap := heap d; beaconKey := beaconKey d;
     beacons p' o' := if decide (p' = p /\ o' = o) then f (beacons d p' o') else beacons d p' o';
     treasuresWaitingForWriter := treasuresWaitingForWriter d;
     creatingTreasures := creatingTreasures d; buckets := buckets d |}).
Definition on_waiting (f : beacon -> beacon) : swamp -> swamp := on_data (fun d =>
  {| heap := heap d; beaconKey := beaconKey d; beacons := beacons d;
     treasuresWaitingForWriter := f (treasuresWaitingForWriter d);
     creatingTreasures := creatingTreasures d; buckets := buckets d |}).
Definition on_creating (f : gmap bytes loc -> gmap bytes loc) : swamp -> swamp := on_data (fun d =>
  {| heap := heap d; beaconKey := beaconKey d; beacons := beacons d;
     treasuresWaitingForWriter := treasuresWaitingForWriter d;
     creatingTreasures := f (creatingTreasures d); buckets := buckets d |}).
Definition set_buckets (m : gmap bytes bucket) : swamp -> swamp := on_data (fun d =>
  {| heap := heap d; beaconKey := beaconKey d; beacons := beacons d;
     treasuresWaitingForWriter := treasuresWaitingForWriter d;
     creatingTreasures := creatingTreasures d; buckets := m |}).

Definition set_closing (c : bool) : swamp -> swamp := on_ctl (fun k =>
  {| closing := c; destroyed := destroyed k; cancelled := cancelled k;
     isFilesystemWritingActive := isFilesystemWritingActive k;
     isInformationSendingActive := isInformationSendingActive k;
     isEventSendingActive := isEventSendingActive k; lastInteractionTime := lastInteractionTime k;
     vigils := vigils k; sent := sent k |}).
Definition set_destroyed : swamp -> swamp := on_ctl (fun k =>
  {| closing := closing k; destroyed := true; cancelled := cancelled k;
     isFilesystemWritingActive := isFilesystemWritingActive k;
     isInformationSendingActive := isInformationSendingActive k;
     isEventSendingActive := isEventSendingActive k; lastInteractionTime := lastInteractionTime k;
     vigils := vigils k; sent := sent k |}).
Definition set_cancelled : swamp -> swamp := on_ctl (fun k =>
  {| closing := closing k; destroyed := destroyed k; cancelled := true;
     isFilesystemWritingActive := isFilesystemWritingActive k;
     isInformationSendingActive := isInformationSendingActive k;
     isEventSendingActive := isEventSendingActive k; lastInteractionTime := lastInteractionTime k;
     vigils := vigils k; sent := sent k |}).
Definition set_writing (b : bool) : swamp -> swamp := on_ctl (fun k =>
  {| closing := closing k; destroyed := destroyed k; cancelled := cancelled k;
     isFilesystemWritingActive := b;
     isInformationSendingActive := isInformationSendingActive k;
     isEventSendingActive := isEventSendingActive k; lastInteractionTime := lastInteractionTime k;
     vigils := vigils k; sent := sent k |}).
Definition set_sending (info event : bool) : swamp -> swamp := on_ctl (fun k =>
  {| closing := closing k; destroyed := destroyed k; cancelled := cancelled k;
     isFilesystemWritingActive := isFilesystemWritingActive k;
     isInformationSendingActive := info;
     isEventSendingActive := event; lastInteractionTime := lastInteractionTime k;
     vigils := vigils k; sent := sent k |}).
Definition interact (now : Z) : swamp -> swamp := on_ctl (fun k =>
  {| closing := closing k; destroyed := destroyed k; cancelled := cancelled k;
     isFilesystemWritingActive := isFilesystemWritingActive k;
     isInformationSendingActive := isInformationSendingActive k;
     isEventSendingActive := isEventSendingActive k; lastInteractionTime := UnixNano now;
     vigils := vigils k; sent := sent k |}).
Definition add_vigils (d : Z) : swamp -> swamp := on_ctl (fun k =>
  {| closing := closing k; destroyed := destroyed k; cancelled := cancelled k;
     isFilesystemWritingActive := isFilesystemWritingActive k;
     isInformationSendingActive := isInformationSendingActive k;
     isEventSendingActive := isEventSendingActive k; lastInteractionTime := lastInteractionTime k;
     vigils := i64 (vigils k + d); sent := sent k |}).
Definition send (m : message) : swamp -> swamp := on_ctl (fun k =>
  {| closing := closing k; destroyed := destroyed k; cancelled := cancelled k;
     isFilesystemWritingActive := isFilesystemWritingActive k;
     isInformationSendingActive := isInformationSendingActive k;
     isEventSendingActive := isEventSendingActive k; lastInteractionTime := lastInteractionTime k;
     vigils := vigils k; sent := sent k ++ [m] |}).

(** ** Objects and guards *)

Definition deref (s : swamp) (x : loc) : treasure := default Treasure.New (heap (data s) !! x).

Definition update (x : loc) (t : treasure) : swamp -> swamp := on_heap (fun h => <[x := t]> h).

Definition put_guard (g : guard) (t : treasure) : treasure :=
  {| t_model := t_model t; t_guard := g; t_flags := t_flags t |}.

(** [StartTreasureGuard(true, ...)], which returns when its identifier heads the queue. *)
Definition start_guard (x : loc) (auth : option bytes) (s : swamp) : outcome (swamp * Z) :=
  let '(g, o) := StartTreasureGuard true auth (t_guard (deref s x)) in
  match o with
  | None => Next (s, 0)
  | Some gID =>
      match is_first gID g with
      | Some true => Next (update x (put_guard g (deref s x)) s, gID)
      | _ => Disabled
      end
  end.
Definition release_guard (x : loc) (gID : Z) (s : swamp) : swamp :=
  update x (put_guard (ReleaseTreasureGuard gID (t_guard (deref s x))).1 (deref s x)) s.

(** A setter of the object at [x]. *)
Definition set_on (x : loc) (f : treasure -> option treasure) (s : swamp) : outcome swamp :=
  let! t := of_panic (f (deref s x)) in Next (update x t s).

Definition key_at (s : swamp) (x : loc) : bytes := GetKey (deref s x).

(** ** Small operations *)

Definition live_count (s : swamp) : Z := Z.of_nat (size (treasuresByKeys (beaconKey (data s)))).

Definition key_Get (key : bytes) (s : swamp) : swamp * option loc :=
  (on_beaconKey touch s, (Beacon.Get key (beaconKey (data s))).2).
Definition key_Count (s : swamp) : swamp * Z :=
  (on_beaconKey touch s, (Beacon.Count (beaconKey (data s))).2).

Definition StartSendingInformation (s : swamp) : swamp := set_sending true (isEventSendingActive (ctl s)) s.
Definition StopSendingInformation (s : swamp) : swamp := set_sending false (isEventSendingActive (ctl s)) s.
Definition StartSendingEvents (s : swamp) : swamp := set_sending (isInformationSendingActive (ctl s)) true s.
Definition StopSendingEvents (s : swamp) : swamp := set_sending (isInformationSendingActive (ctl s)) false s.

Definition BeginVigil : swamp -> swamp := add_vigils 1.
Definition CeaseVigil : swamp -> swamp := add_vigils (-1).
Definition HasActiveVigils (s : swamp) : bool := 0 <? vigils (ctl s).

Definition IsClosing (now : Z) (s : swamp) : swamp * bool := (interact now s, closing (ctl s)).

Definition sendSwampInfo (s : swamp) : swamp :=
  if negb (isInformationSendingActive (ctl s)) then s
  else let '(s, n) := key_Count s in send (SentInfo (u64 n)) s.

Definition sendEventToHydra (now : Z) (newT oldT : option loc) (status : TreasureStatus) (s : swamp) : swamp :=
  if negb (isEventSendingActive (ctl s)) then s
  else send (SentEvent {| e_Treasure := newT; e_OldTreasure := oldT; e_DeletedTreasure := None;
                          e_EventTime := UnixNano now; e_StatusType := status |}) s.

Definition sendDeletedEventToClient (now : Z) (d : treasure) (s : swamp) : swamp :=
  if negb (isEventSendingActive (ctl s)) then s
  else send (SentEvent {| e_Treasure := None; e_OldTreasure := None; e_DeletedTreasure := Some d;
                          e_EventTime := UnixNano now; e_StatusType := StatusDeleted |}) s.

Definition sendClosedEvent : swamp -> swamp := send SentClosed.

Definition metadata_update (now : Z) (s : swamp) : swamp :=
  set_metadata (metadata_SetUpdatedAt now (metadataInterface s)) (metaFile s) s.

(** ** Field indexes *)

(** A notification of every bucket; the buckets do not depend on each other. *)
Definition each_bucket (f : bucket -> option bucket) (m : gmap bytes bucket) : option (gmap bytes bucket) :=
  if decide (map_Forall (fun _ b => is_Some (f b)) m) then Some (omap f m) else None.

Definition notify (f : bucket -> option bucket) (s : swamp) : outcome swamp :=
  let! m := of_panic (each_bucket f (buckets (data s))) in Next (set_buckets m s).
Definition notifyBucketsInsert (x : loc) (s : swamp) : outcome swamp :=
  notify (OnInsert (deref s) (Live x)) s.
Definition notifyBucketsUpdate (x : loc) (s : swamp) : outcome swamp :=
  notify (OnUpdate (deref s) (Live x)) s.
Definition notifyBucketsDelete (key : bytes) (s : swamp) : outcome swamp :=
  notify (fun b => Some (OnDelete key b)) s.
Definition dropAllBuckets : swamp -> swamp := set_buckets ∅.
Definition BucketCount (s : swamp) : Z := Z.of_nat (size (buckets (data s))).

(** [GetOrBuildBucket], by one goroutine; [Indexing.v] has the interleavings. *)
Definition GetOrBuildBucket (fieldPath : bytes) (s : swamp) : outcome (swamp * bucket) :=
  match buckets (data s) !! fieldPath with
  | Some b => if EqualityInitialized b then Next (s, b) else
      let '(k, snapshot) := CloneUnorderedTreasures (deref s) false (beaconKey (data s)) in
      let! b := of_panic (DrainPending (deref s) (BuildEquality (deref s) (Copied <$> snapshot) b)) in
      Next (set_buckets (<[fieldPath := b]> (buckets (data s))) (on_beaconKey (fun _ => k) s), b)
  | None =>
      let b := SetBuildInFlight true (Bucket.New fieldPath) in
      let '(k, snapshot) := CloneUnorderedTreasures (deref s) false (beaconKey (data s)) in
      let! b := of_panic (DrainPending (deref s) (BuildEquality (deref s) (Copied <$> snapshot) b)) in
      Next (set_buckets (<[fieldPath := b]> (buckets (data s))) (on_beaconKey (fun _ => k) s), b)
  end.
Definition LookupByBucketEqual (fieldPath : bytes) (value : any) (s : swamp) : outcome (swamp * list handle) :=
  let! (s, b) := GetOrBuildBucket fieldPath s in Next (s, LookupEqual value b).
Definition LookupByBucketIn (fieldPath : bytes) (values : list any) (s : swamp) : outcome (swamp * list handle) :=
  match values with
  | [] => Next (s, [])
  | _ => let! (s, b) := GetOrBuildBucket fieldPath s in Next (s, LookupIn (deref s) values b)
  end.

(** ** The ordered beacons *)

Definition add_sorted (sort : beacon -> beacon * bool) (x : loc) (p : pair_of) (o : direction) (s : swamp) : swamp :=
  on_beacon p o (fun b => (sort (Beacon.Add (deref s) x b)).1) s.
(** The body of the [addTo...Beacon] functions: an error of a sort is only logged. *)
Definition add_to (p : pair_of) (asc desc : (loc -> treasure) -> beacon -> beacon * bool) (x : loc) (s : swamp) : swamp :=
  if negb (IsInitialized (beacons (data s) p ASC)) then s
  else add_sorted (desc (deref s)) x p DESC (add_sorted (asc (deref s)) x p ASC s).

Definition addToKeyBeacon : loc -> swamp -> swamp := add_to keyBeacon SortByKeyAsc SortByKeyDesc.
Definition addToCreationTimeBeacon : loc -> swamp -> swamp :=
  add_to creationTimeBeacon SortByCreationTimeAsc SortByCreationTimeDesc.
Definition addToUpdateTimeBeacon : loc -> swamp -> swamp :=
  add_to updateTimeBeacon SortByUpdateTimeAsc SortByUpdateTimeDesc.
Definition addToExpirationTimeBeacon : loc -> swamp -> swamp :=
  add_to expirationTimeBeacon SortByExpirationTimeAsc SortByExpirationTimeDesc.
Definition addToValueBeacon : loc -> swamp -> swamp :=
  add_to valueBeacon SortByValueInt64ASC SortByValueInt64DESC.

Definition addTreasureToBeacons (d : loc) (s : swamp) : swamp :=
  let t := deref s d in
  let s := addToKeyBeacon d s in
  let s := if GetCreatedAt t =? 0 then s else addToCreationTimeBeacon d s in
  let s := if GetModifiedAt t =? 0 then s else addToUpdateTimeBeacon d s in
  let s := if GetExpirationTime t =? 0 then s else addToExpirationTimeBeacon d s in
  addToValueBeacon d s.

Definition deleteTreasureIfBeaconInitialized (p : pair_of) (o : direction) (key : bytes) (s : swamp) : swamp :=
  if IsInitialized (beacons (data s) p o) then on_beacon p o (Beacon.Delete (deref s) key) s else s.

Definition delete_from_pair (key : bytes) (p : pair_of) (s : swamp) : swamp :=
  deleteTreasureIfBeaconInitialized p DESC key (deleteTreasureIfBeaconInitialized p ASC key s).
Definition deleteTreasureFromBeacons (key : bytes) (s : swamp) : swamp :=
  let s := delete_from_pair key keyBeacon s in
  let s := delete_from_pair key creationTimeBeacon s in
  let s := delete_from_pair key updateTimeBeacon s in
  let s := delete_from_pair key expirationTimeBeacon s in
  delete_from_pair key valueBeacon s.

Definition treasuresForBeacon (bc : BeaconType) (s : swamp) : gmap bytes loc :=
  let all := GetAll (beaconKey (data s)) in
  match bc with
  | BeaconTypeCreationTime => filter (fun p => GetCreatedAt (deref s p.2) <> 0) all
  | BeaconTypeUpdateTime => filter (fun p => GetModifiedAt (deref s p.2) <> 0) all
  | BeaconTypeExpirationTime => filter (fun p => GetExpirationTime (deref s p.2) <> 0) all
  | _ => all
  end.

Definition sort_asc (bc : BeaconType) : (loc -> treasure) -> beacon -> beacon * bool :=
  match bc with
  | BeaconTypeCreationTime => SortByCreationTimeAsc
  | BeaconTypeUpdateTime => SortByUpdateTimeAsc
  | BeaconTypeExpirationTime => SortByExpirationTimeAsc
  | BeaconTypeValueUint8 => SortByValueUint8ASC
  | BeaconTypeValueUint16 => SortByValueUint16ASC
  | BeaconTypeValueUint32 => SortByValueUint32ASC
  | BeaconTypeValueUint64 => SortByValueUint64ASC
  | BeaconTypeValueInt8 => SortByValueInt8ASC
  | BeaconTypeValueInt16 => SortByValueInt16ASC
  | BeaconTypeValueInt32 => SortByValueInt32ASC
  | BeaconTypeValueInt64 => SortByValueInt64ASC
  | BeaconTypeValueFloat32 => SortByValueFloat32ASC
  | BeaconTypeValueFloat64 => SortByValueFloat64ASC
  | BeaconTypeValueString => SortByValueStringASC
  | BeaconTypeKey | BeaconTypeOther => SortByKeyAsc
  end.
Definition sort_desc (bc : BeaconType) : (loc -> treasure) -> beacon -> beacon * bool :=
  match bc with
  | BeaconTypeCreationTime => SortByCreationTimeDesc
  | BeaconTypeUpdateTime => SortByUpdateTimeDesc
  | BeaconTypeExpirationTime => SortByExpirationTimeDesc
  | BeaconTypeValueUint8 => SortByValueUint8DESC
  | BeaconTypeValueUint16 => SortByValueUint16DESC
  | BeaconTypeValueUint32 => SortByValueUint32DESC
  | BeaconTypeValueUint64 => SortByValueUint64DESC
  | BeaconTypeValueInt8 => SortByValueInt8DESC
  | BeaconTypeValueInt16 => SortByValueInt16DESC
  | BeaconTypeValueInt32 => SortByValueInt32DESC
  | BeaconTypeValueInt64 => SortByValueInt64DESC
  | BeaconTypeValueFloat32 => SortByValueFloat32DESC
  | BeaconTypeValueFloat64 => SortByValueFloat64DESC
  | BeaconTypeValueString => SortByValueStringDESC
  | BeaconTypeKey | BeaconTypeOther => SortByKeyDesc
  end.

(** One half of [buildBeacon]: a failed sort takes the mark back, not the treasures. *)
Definition build_one (p : pair_of) (o : direction) (sort : (loc -> treasure) -> beacon -> beacon * bool)
    (bc : BeaconType) (s : swamp) : swamp :=
  if IsInitialized (beacons (data s) p o) then s else
  on_beacon p o (fun b =>
    let '(b, ok) := sort (deref s) (PushManyFromMap (treasuresForBeacon bc s) (SetInitialized true b)) in
    if ok then b else SetInitialized false b) s.
Definition buildBeacon (p : pair_of) (bc : BeaconType) (s : swamp) : swamp :=
  build_one p DESC (sort_desc bc) bc (build_one p ASC (sort_asc bc) bc s).

(** [None] when the code returns nil. *)
Definition GetBeacon (beaconType : BeaconType) (order : BeaconOrder) (s : swamp) :
    swamp * option (pair_of * direction) :=
  let o := match order with IndexOrderAsc => ASC | _ => DESC end in
  match beaconType with
  | BeaconTypeCreationTime => (buildBeacon creationTimeBeacon BeaconTypeCreationTime s, Some (creationTimeBeacon, o))
  | BeaconTypeExpirationTime => (buildBeacon expirationTimeBeacon BeaconTypeExpirationTime s, Some (expirationTimeBeacon, o))
  | BeaconTypeUpdateTime => (buildBeacon updateTimeBeacon BeaconTypeUpdateTime s, Some (updateTimeBeacon, o))
  | BeaconTypeValueInt64 | BeaconTypeValueFloat64 | BeaconTypeValueString =>
      (buildBeacon valueBeacon BeaconTypeValueInt64 s, Some (valueBeacon, o))
  | BeaconTypeKey => (buildBeacon keyBeacon BeaconTypeKey s, Some (keyBeacon, o))
  | _ => (s, None)
  end.

(** The common body of the [findIn...Beacon] functions: [None] is a panic, [Some None] an error. *)
Definition find_in (p : pair_of) (bc : BeaconType) (order : BeaconOrder) (from limit : Z)
    (fromTime toTime : option Z) (s : swamp) : swamp * option (option (list loc)) :=
  let s := buildBeacon p bc s in
  let pos := {| From := from; Limit := limit; FromTime := fromTime; ToTime := toTime |} in
  let get o :=
    let '(b, r) := GetManyFromOrderPosition (deref s) pos (beacons (data s) p o) in
    (on_beacon p o (fun _ => b) s, r) in
  match order with
  | IndexOrderAsc => get ASC
  | IndexOrderDesc => get DESC
  | IndexOrderOther => (s, Some None)
  end.
Definition findInCreationTimeBeacon := find_in creationTimeBeacon BeaconTypeCreationTime.
Definition findInUpdateTimeBeacon := find_in updateTimeBeacon BeaconTypeUpdateTime.
Definition findInExpirationTimeBeacon := find_in expirationTimeBeacon BeaconTypeExpirationTime.
Definition findInKeyBeacon (order : BeaconOrder) (from limit : Z) :=
  find_in keyBeacon BeaconTypeKey order from limit None None.
Definition findInValueBeacon (order : BeaconOrder) (bc : BeaconType) (from limit : Z) :=
  find_in valueBeacon bc order from limit None None.

(** [int32(n)] *)
Definition i32 (z : Z) : Z := (z + 2 ^ 31) mod 2 ^ 32 - 2 ^ 31.

Definition GetTreasuresByBeacon (now : Z) (beaconType : BeaconType) (order : BeaconOrder) (from limit : Z)
    (fromTime toTime : option Z) (s : swamp) : swamp * option (option (list loc)) :=
  let s := interact now s in
  let '(s, limit) := if limit =? 0 then let '(s, n) := key_Count s in (s, i32 n) else (s, limit) in
  match beaconType with
  | BeaconTypeKey => findInKeyBeacon order from limit s
  | BeaconTypeExpirationTime => findInExpirationTimeBeacon order from limit fromTime toTime s
  | BeaconTypeCreationTime => findInCreationTimeBeacon order from limit fromTime toTime s
  | BeaconTypeUpdateTime => findInUpdateTimeBeacon order from limit fromTime toTime s
  | bc => findInValueBeacon order bc from limit s
  end.

(** ** Writing to the chronicler *)

(** [ConvertToByte] encodes the model as it is, with the file name. *)
Definition saved_of (t : treasure) : saved_treasure :=
  {| t_key := GetKey t; t_deletedAt := GetDeletedAt t; t_fileName := GetFileName t;
     t_bytes := encode_model (t_model t) |}.

(** What [chroniclerInterface.Write] does to the objects: it holds the guard of each while it
    reads it. *)
Fixpoint read_all (xs : list loc) (s : swamp) : outcome (swamp * list saved_treasure) :=
  match xs with
  | [] => Next (s, [])
  | x :: xs =>
      let! (s, gID) := start_guard x (Some BodyAuthID) s in
      let saved := saved_of (deref s x) in
      let! (s, rest) := read_all xs (release_guard x gID s) in
      Next (s, saved :: rest)
  end.

Fixpoint file_pointers (es : list (bytes * bytes)) (s : swamp) : outcome swamp :=
  match es with
  | [] => Next s
  | (key, file) :: es =>
      if decide (key = []) then file_pointers es s else
      match key_Get key s with
      | (s, None) => file_pointers es s
      | (s, Some x) =>
          let! (s, gID) := start_guard x (Some BodyAuthID) s in
          let! s := set_on x (BodySetFileName gID file) s in
          file_pointers es (release_guard x gID s)
      end
  end.
(** [None] stands for nil events; the error of a closing swamp is only logged. *)
Definition FilePointerCallbackFunction (es : option (list (bytes * bytes))) (s : swamp) : outcome swamp :=
  if closing (ctl s) then Next s else
  match es with None => Next s | Some es => file_pointers es s end.

Definition delete_waiting (key : bytes) (s : swamp) : swamp := on_waiting (Beacon.Delete (deref s) key) s.

(** The treasures the write buffer hands over, which leave it: everything up to the call of
    [Write]. *)
Definition collect_waiting (s : swamp) : swamp * list loc :=
  let xs := Iterate (fun _ => true) IterationTypeKey (treasuresWaitingForWriter (data s)) in
  (foldl (fun s x => delete_waiting (key_at s x) s) s xs, xs).

(** [Write], with its callback, and [Sync]. *)
Definition write_out (xs : list loc) (s : swamp) : outcome swamp :=
  match chron s with
  | None => Panic
  | Some c =>
      let! (s, saved) := read_all xs s in
      let '(c, events) := st_Write (live_count s) saved c in
      let! s := FilePointerCallbackFunction events (set_chron c s) in
      match chron s with
      | None => Panic
      | Some c => Next (set_chron (st_Sync c) s)
      end
  end.

(** The test of [isFilesystemWritingActive] returns from its own function literal only. *)
Definition fileWriterHandler (isCloseWrite : bool) (s : swamp) : outcome swamp :=
  let s := set_writing true s in
  let waiting := size (treasuresByKeys (treasuresWaitingForWriter (data s))) in
  let s := on_waiting touch s in
  let! s :=
    if decide (waiting = 0%nat) then Next s
    else let '(s, xs) := collect_waiting s in write_out xs s in
  Next (if isCloseWrite then s else set_writing false s).

Definition WriteTreasuresToFilesystem (now : Z) (s : swamp) : outcome swamp :=
  let s := interact now s in
  if inMemorySwamp (conf s) then Next s else fileWriterHandler false s.

Definition CountTreasuresWaitingForWriter (s : swamp) : swamp * Z :=
  (on_waiting touch s, (Beacon.Count (treasuresWaitingForWriter (data s))).2).

(** ** Saving *)

Definition CreateTreasure (key : bytes) (s : swamp) : outcome (swamp * loc) :=
  match key_Get key s with
  | (s, Some x) => Next (s, x)
  | (s, None) =>
      match creatingTreasures (data s) !! key with
      | Some x => Next (s, x)
      | None =>
          let x := length (heap (data s)) in
          let s := on_heap (fun h => h ++ [Treasure.New]) s in
          let! (s, gID) := start_guard x (Some BodyAuthID) s in
          let! s := set_on x (BodySetKey gID key) s in
          let s := release_guard x gID s in
          Next (on_creating (fun m => <[key := x]> m) s, x)
      end
  end.

Definition changed (t : treasure) : bool :=
  let f := t_flags t in
  contentChanged f || contentTypeChanged f || expirationTimeChanged f || createdAtChanged f
  || createdByChanged f || deletedAtChanged f || deletedByChanged f || modifiedAtChanged f
  || modifiedByChanged f.

(** The write of a swamp without a write interval: the guard is released first. *)
Definition write_at_once (x : loc) (guardID : Z) (s : swamp) : outcome swamp :=
  if (writeInterval (conf s) =? 0) && negb (inMemorySwamp (conf s))
  then fileWriterHandler false (release_guard x guardID s)
  else Next s.

Definition save_new (now : Z) (x : loc) (guardID : Z) (s : swamp) : outcome swamp :=
  let key := key_at s x in
  let s := delete_waiting key s in
  let s := on_waiting (Beacon.Add (deref s) x) s in
  let s := on_beaconKey (Beacon.Add (deref s) x) s in
  let s := on_creating (fun m => delete key m) s in
  let s := addTreasureToBeacons x s in
  let! s := notifyBucketsInsert x s in
  let s := sendSwampInfo (sendEventToHydra now (Some x) None StatusNew s) in
  let! s := write_at_once x guardID s in
  Next (metadata_update now s).

(** The beacons after a change of the type or of the expiration time. *)
Definition reindex (x : loc) (s : swamp) : swamp :=
  let t := deref s x in
  if IsContentTypeChanged t then
    let s := deleteTreasureFromBeacons (GetKey t) s in
    if decide (GetContentType t = ContentTypeVoid) then s else addTreasureToBeacons x s
  else if expirationTimeChanged (t_flags t) then
    let s := delete_from_pair (GetKey t) expirationTimeBeacon s in
    if GetExpirationTime t =? 0 then s else addToExpirationTimeBeacon x s
  else s.

Definition save_modified (now : Z) (x existed : loc) (guardID : Z) (s : swamp) : outcome swamp :=
  let s := reindex x s in
  let s := on_waiting (Beacon.Add (deref s) x) s in
  let! s := notifyBucketsUpdate x s in
  let s := sendEventToHydra now (Some x) (Some existed) StatusModified s in
  let! s := write_at_once x guardID s in
  Next (metadata_update now s).

Definition SaveFunction (now : Z) (x : loc) (guardID : Z) (s : swamp) : outcome (swamp * TreasureStatus) :=
  let s := interact now s in
  match key_Get (key_at s x) s with
  | (s, None) => let! s := save_new now x guardID s in Next (s, StatusNew)
  | (s, Some existed) =>
      if changed (deref s x)
      then let! s := save_modified now x existed guardID s in Next (s, StatusModified)
      else Next (s, StatusSame)
  end.

(** [treasure.Save] *)
Definition Save (now : Z) (x : loc) (guardID : Z) (s : swamp) : outcome (swamp * TreasureStatus) :=
  match CanExecute guardID false (t_guard (deref s x)) with
  | None => Panic
  | Some _ => SaveFunction now x guardID s
  end.

(** ** Closing *)

Definition ForceCompaction (s : swamp) : outcome (swamp * bool) :=
  if inMemorySwamp (conf s) then Next (s, true) else
  match chron s with
  | None => Panic
  | Some c => let '(c, ok) := st_ForceCompaction c in Next (set_chron c s, ok)
  end.

Definition close_storage (s : swamp) : outcome swamp :=
  match chron s with
  | None => Panic
  | Some c =>
      let s := set_chron (st_DontSendFilePointer c) s in
      let! s := fileWriterHandler true s in
      let s := set_metadata (metadataInterface s) (metadata_SaveToFile (metaFile s) (metadataInterface s)) s in
      match chron s with
      | None => Panic
      | Some c => Next (set_chron (st_Close (live_count s) c) s)
      end
  end.

Definition Close (s : swamp) : outcome swamp :=
  if closing (ctl s) then Next s else
  let s := set_closing true s in
  let! s := if inMemorySwamp (conf s) then Next s else close_storage s in
  Next (sendClosedEvent (dropAllBuckets (set_cancelled s))).

(** [Destroy] waits for the vigils after its first steps; here it is enabled when there are
    none. *)
Definition Destroy (s : swamp) : outcome swamp :=
  let s := set_closing true s in
  if destroyed (ctl s) then Next s else
  let s := StopSendingEvents (StopSendingInformation (set_destroyed s)) in
  if HasActiveVigils s then Disabled else
  let s := set_cancelled s in
  let! s := if inMemorySwamp (conf s) then Next s else
            match chron s with None => Panic | Some c => Next (set_chron (st_Destroy c) s) end in
  Next (sendClosedEvent (dropAllBuckets s)).

(** ** Reading *)

Definition CloneTreasures (now : Z) (s : swamp) : swamp * gmap bytes treasure :=
  let s := interact now s in
  let '(b, m) := CloneUnorderedTreasures (deref s) false (beaconKey (data s)) in
  (on_beaconKey (fun _ => b) s, m).
Definition GetTreasure (now : Z) (key : bytes) (s : swamp) : swamp * option loc := key_Get key (interact now s).
Fixpoint get_loop (keys : list bytes) (s : swamp) : swamp * list loc :=
  match keys with
  | [] => (s, [])
  | k :: keys =>
      let '(s, o) := key_Get k s in
      let '(s, xs) := get_loop keys s in
      (s, match o with Some x => x :: xs | None => xs end)
  end.
Definition GetTreasuresByKeys (now : Z) (keys : list bytes) (s : swamp) : swamp * list loc :=
  get_loop keys (interact now s).
(** [None] is the nil map. *)
Definition swamp_GetAll (now : Z) (s : swamp) : swamp * option (gmap bytes loc) :=
  let '(s, n) := key_Count (interact now s) in
  (s, if n =? 0 then None else Some (GetAll (beaconKey (data s)))).
Definition CountTreasures (now : Z) (s : swamp) : swamp * Z := key_Count (interact now s).
Definition TreasureExists (now : Z) (key : bytes) (s : swamp) : swamp * bool :=
  let s := interact now s in (on_beaconKey touch s, (IsExists key (beaconKey (data s))).2).
Definition TreasuresExistByKeys (now : Z) (keys : list bytes) (s : swamp) : swamp * gmap bytes bool :=
  let s := interact now s in
  match keys with
  | [] => (s, ∅)
  | _ => (on_beaconKey touch s, (AreExists keys (beaconKey (data s))).2)
  end.
Definition CountMatchingTreasures (now : Z) (predicate : option (loc -> bool)) (s : swamp) : swamp * Z :=
  let s := interact now s in
  match predicate with
  | None => (s, 0)
  | Some p => (on_beaconKey touch s, i32 (CountMatching predicate (beaconKey (data s))).2)
  end.

(** ** Deleting *)

Definition deleteHandler (now : Z) (key : bytes) (shadowDelete : bool) (s : swamp) : outcome (swamp * option loc) :=
  match key_Get key s with
  | (s, None) => Next (s, None)
  | (s, Some x) =>
      let! (s, gID) := start_guard x (Some BodyAuthID) s in
      let! clone := of_panic (Clone gID (deref s x)) in
      let! s :=
        match GetFileName (deref s x) with
        | None => Next (delete_waiting key s)
        | Some _ =>
            let! s := set_on x (BodySetForDeletion gID (bs "system") shadowDelete (UnixNano now)) s in
            Next (metadata_update now (on_waiting (Beacon.Add (deref s) x) s))
        end in
      let s := on_beaconKey (Beacon.Delete (deref s) key) s in
      let s := deleteTreasureFromBeacons key s in
      let! s := notifyBucketsDelete key s in
      let s := sendSwampInfo (sendDeletedEventToClient now clone s) in
      Next (release_guard x gID s, Some x)
  end.

(** An empty swamp destroys itself, after it gave back the caller's vigil. *)
Definition destroy_if_empty (s : swamp) : outcome swamp :=
  let '(s, n) := key_Count s in
  if n =? 0 then Destroy (CeaseVigil s) else Next s.

(** [false] is the error "treasure does not exist". *)
Definition DeleteTreasure (now : Z) (key : bytes) (shadowDelete : bool) (s : swamp) : outcome (swamp * bool) :=
  let '(s, ex) := TreasureExists now key s in
  if negb ex then Next (s, false) else
  let! (s, _) := deleteHandler now key shadowDelete s in
  let! s := destroy_if_empty s in
  Next (s, true).

Fixpoint delete_keys (now : Z) (keys : list bytes) (s : swamp) : outcome swamp :=
  match keys with
  | [] => Next s
  | k :: keys => let! (s, _) := deleteHandler now k false s in delete_keys now keys s
  end.

Definition CloneAndDeleteExpiredTreasures (now howMany : Z) (s : swamp) : outcome (swamp * list treasure) :=
  let s := buildBeacon expirationTimeBeacon BeaconTypeExpirationTime (interact now s) in
  let '(b, shifted) := ShiftExpired (deref s) howMany (UnixNano now) (beacons (data s) expirationTimeBeacon ASC) in
  let s := on_beacon expirationTimeBeacon ASC (fun _ => b) s in
  let! s := delete_keys now (map GetKey shifted) s in
  let! s := destroy_if_empty s in
  Next (s, shifted).

(** The pair whose beacons [CloneAndDeleteMatchingTreasures] builds. *)
Definition pair_for (bc : BeaconType) : option pair_of :=
  match bc with
  | BeaconTypeCreationTime => Some creationTimeBeacon
  | BeaconTypeExpirationTime => Some expirationTimeBeacon
  | BeaconTypeUpdateTime => Some updateTimeBeacon
  | BeaconTypeKey => Some keyBeacon
  | BeaconTypeOther => None
  | _ => Some valueBeacon
  end.

(** [None] is one of the two errors. *)
Definition CloneAndDeleteMatchingTreasures (now : Z) (bc : BeaconType) (order : BeaconOrder) (howMany : Z)
    (predicate capPredicate : option (loc -> bool)) (capMax : Z) (s : swamp) :
    outcome (swamp * option (list treasure * bool)) :=
  let s := interact now s in
  if (howMany <=? 0) || negb (is_some predicate) then Next (s, Some ([], false)) else
  match pair_for bc with
  | None => Next (s, None)
  | Some p =>
      match GetBeacon bc order (buildBeacon p bc s) with
      | (s, None) => Next (s, None)
      | (s, Some (p, o)) =>
          let '(b, shifted, capReached) :=
            ShiftMatching (deref s) howMany predicate capPredicate capMax (beacons (data s) p o) in
          let s := on_beacon p o (fun _ => b) s in
          let! s := delete_keys now (map GetKey shifted) s in
          let! s := destroy_if_empty s in
          Next (s, Some (shifted, capReached))
      end
  end.

(** The loop of [CloneAndDeleteTreasuresByKeys]. *)
Fixpoint shift_keys (now : Z) (keys : list bytes) (s : swamp) : outcome (swamp * list treasure) :=
  match keys with
  | [] => Next (s, [])
  | k :: keys =>
      match key_Get k s with
      | (s, None) => shift_keys now keys s
      | (s, Some x) =>
          let! (s, lockerID) := start_guard x None s in
          let! clone := of_panic (Clone lockerID (deref s x)) in
          let! (s, _) := deleteHandler now k false (release_guard x lockerID s) in
          let! (s, rest) := shift_keys now keys s in
          Next (s, clone :: rest)
      end
  end.
Definition CloneAndDeleteTreasuresByKeys (now : Z) (keys : list bytes) (s : swamp) : outcome (swamp * list treasure) :=
  let s := interact now s in
  match keys with
  | [] => Next (s, [])
  | _ =>
      let! (s, result) := shift_keys now keys s in
      let! s := destroy_if_empty s in
      Next (s, result)
  end.

(** ** Increments *)

Inductive RelationalOperator : Type :=
| RelationalOperatorEqual | RelationalOperatorNotEqual | RelationalOperatorGreaterThan
| RelationalOperatorGreaterThanOrEqual | RelationalOperatorLessThan
| RelationalOperatorLessThanOrEqual | RelationalOperatorOther.

(** The structs [IncrementUInt8Condition] to [IncrementFloat64Condition]. *)
Record IncrementCondition (V : Type) := { c_RelationalOperator : RelationalOperator; c_Value : V }.
Arguments c_RelationalOperator {V}.
Arguments c_Value {V}.

Record IncrementMetadataRequest := {
  q_SetCreatedAt : bool; q_CreatedBy : bytes; q_SetUpdatedAt : bool; q_UpdatedBy : bytes; q_ExpiredAt : Z
}.
Record IncrementMetadataResponse := {
  r_CreatedAt : Z; r_CreatedBy : bytes; r_UpdatedAt : Z; r_UpdatedBy : bytes; r_ExpiredAt : Z
}.

Definition setMetaForIncrement (now : Z) (x : loc) (guardID : Z) (meta : IncrementMetadataRequest) (s : swamp) : outcome swamp :=
  let! s := if q_SetCreatedAt meta then set_on x (SetCreatedAt guardID now) s else Next s in
  let! s := if decide (q_CreatedBy meta <> []) then set_on x (SetCreatedBy guardID (q_CreatedBy meta)) s else Next s in
  let! s := if q_SetUpdatedAt meta then set_on x (SetModifiedAt guardID now) s else Next s in
  let! s := if decide (q_UpdatedBy meta <> []) then set_on x (SetModifiedBy guardID (q_UpdatedBy meta)) s else Next s in
  if IsZero (q_ExpiredAt meta) then Next s else set_on x (SetExpirationTime guardID (q_ExpiredAt meta)) s.

Definition time_or_zero (t : Z) : Z := if t =? 0 then zero_time else t.

(** [None] is the nil response. *)
Definition createMetaForIncrementResponse (t : treasure) : option IncrementMetadataResponse :=
  if (GetCreatedAt t =? 0) && eqd (GetCreatedBy t) [] && (GetModifiedAt t =? 0)
     && eqd (GetModifiedBy t) [] && (GetExpirationTime t =? 0)
  then None
  else Some {| r_CreatedAt := time_or_zero (GetCreatedAt t); r_CreatedBy := GetCreatedBy t;
               r_UpdatedAt := time_or_zero (GetModifiedAt t); r_UpdatedBy := GetModifiedBy t;
               r_ExpiredAt := time_or_zero (GetExpirationTime t) |}.

(** A numeric type: its tag, accessors, zero, addition and comparisons. *)
Record numeric := {
  num : Type;
  n_type : ContentType;
  n_get : treasure -> option num;
  n_set : Z -> num -> treasure -> option treasure;
  n_zero : num;
  n_add : num -> num -> num;
  n_eqb : num -> num -> bool;
  n_ltb : num -> num -> bool;
  n_leb : num -> num -> bool
}.

(** The tests that make an increment return early. *)
Definition refused (n : numeric) (c : IncrementCondition (num n)) (v : num n) : bool :=
  match c_RelationalOperator c with
  | RelationalOperatorEqual => negb (n_eqb n v (c_Value c))
  | RelationalOperatorNotEqual => n_eqb n v (c_Value c)
  | RelationalOperatorGreaterThan => n_leb n v (c_Value c)
  | RelationalOperatorGreaterThanOrEqual => n_ltb n v (c_Value c)
  | RelationalOperatorLessThan => n_leb n (c_Value c) v
  | RelationalOperatorLessThanOrEqual => n_ltb n (c_Value c) v
  | RelationalOperatorOther => false
  end.

(** An increment with the guard held, up to the deferred release.  [None] is the error "value is
    not an int" (or "float"). *)
Definition increment_guarded (n : numeric) (now : Z) (x : loc) (guardID : Z) (i : num n)
    (condition : option (IncrementCondition (num n))) (ifNotExist ifExist : option IncrementMetadataRequest)
    (s : swamp) : outcome (swamp * option (num n * bool * option IncrementMetadataResponse)) :=
  let set_meta o s := match o with Some meta => setMetaForIncrement now x guardID meta s | None => Next s end in
  let finish s :=
    match n_get n (deref s x) with
    | None => Next (s, None)
    | Some content =>
        if match condition with Some c => refused n c content | None => false end
        then Next (s, Some (content, false, createMetaForIncrementResponse (deref s x)))
        else
          let content := n_add n content i in
          let! s := set_on x (n_set n guardID content) s in
          let! (s, _) := Save now x guardID s in
          Next (s, Some (content, true, createMetaForIncrementResponse (deref s x)))
    end in
  if decide (GetContentType (deref s x) = ContentTypeVoid) then
    let! s := set_on x (n_set n guardID (n_zero n)) s in
    let! s := set_meta ifNotExist s in finish s
  else if decide (GetContentType (deref s x) = n_type n) then
    let! s := set_meta ifExist s in finish s
  else Next (s, None).

Definition increment (n : numeric) (now : Z) (key : bytes) (i : num n)
    (condition : option (IncrementCondition (num n))) (ifNotExist ifExist : option IncrementMetadataRequest)
    (s : swamp) : outcome (swamp * option (num n * bool * option IncrementMetadataResponse)) :=
  let! (s, x) := match key_Get key s with
                 | (s, Some x) => Next (s, x)
                 | (s, None) => CreateTreasure key s
                 end in
  let! (s, guardID) := start_guard x None s in
  let! (s, r) := increment_guarded n now x guardID i condition ifNotExist ifExist s in
  Next (release_guard x guardID s, r).

Definition i8 (z : Z) : Z := (z + 2 ^ 7) mod 2 ^ 8 - 2 ^ 7.
Definition i16 (z : Z) : Z := (z + 2 ^ 15) mod 2 ^ 16 - 2 ^ 15.

Definition integer (ct : ContentType) (get : treasure -> option Z)
    (set : Z -> Z -> treasure -> option treasure) (wrap : Z -> Z) : numeric :=
  {| num := Z; n_type := ct; n_get := get; n_set := set; n_zero := 0;
     n_add a b := wrap (a + b); n_eqb := Z.eqb; n_ltb := Z.ltb; n_leb := Z.leb |}.
Definition float (ct : ContentType) (get : treasure -> option spec_float)
    (set : Z -> spec_float -> treasure -> option treasure) (prec emax : Z) : numeric :=
  {| num := spec_float; n_type := ct; n_get := get; n_set := set; n_zero := S754_zero false;
     n_add := SFadd prec emax; n_eqb := SFeqb; n_ltb := SFltb; n_leb := SFleb |}.

Definition Uint8_ : numeric := integer ContentTypeUint8 GetContentUint8 SetContentUint8 u8.
Definition Uint16_ : numeric := integer ContentTypeUint16 GetContentUint16 SetContentUint16 u16.
Definition Uint32_ : numeric := integer ContentTypeUint32 GetContentUint32 SetContentUint32 u32.
Definition Uint64_ : numeric := integer ContentTypeUint64 GetContentUint64 SetContentUint64 u64.
Definition Int8_ : numeric := integer ContentTypeInt8 GetContentInt8 SetContentInt8 i8.
Definition Int16_ : numeric := integer ContentTypeInt16 GetContentInt16 SetContentInt16 i16.
Definition Int32_ : numeric := integer ContentTypeInt32 GetContentInt32 SetContentInt32 i32.
Definition Int64_ : numeric := integer ContentTypeInt64 GetContentInt64 SetContentInt64 i64.
Definition Float32_ : numeric := float ContentTypeFloat32 GetContentFloat32 SetContentFloat32 24 128.
Definition Float64_ : numeric := float ContentTypeFloat64 GetContentFloat64 SetContentFloat64 53 1024.

Definition IncrementUint8 := increment Uint8_.
Definition IncrementUint16 := increment Uint16_.
Definition IncrementUint32 := increment Uint32_.
Definition IncrementUint64 := increment Uint64_.
Definition IncrementInt8 := increment Int8_.
Definition IncrementInt16 := increment Int16_.
Definition IncrementInt32 := increment Int32_.
Definition IncrementInt64 := increment Int64_.
Definition IncrementFloat32 := increment Float32_.
Definition IncrementFloat64 := increment Float64_.

(** ** Life of a swamp *)

(** A treasure the chronicler decoded: it had the guard while it was filled. *)
Definition loaded (m : Model) : treasure :=
  {| t_model := m;
     t_guard := {| waitForUnlock := []; largestGuardID := 0; bodyAuthID := BodyAuthID |};
     t_flags := no_flags |}.

Definition ordered_beacon : beacon := SetIsOrdered true Beacon.New.

Definition fresh_control (now : Z) : control :=
  {| closing := false; destroyed := false; cancelled := false; isFilesystemWritingActive := false;
     isInformationSendingActive := false; isEventSendingActive := false;
     lastInteractionTime := UnixNano now; vigils := 0; sent := [] |}.

(** The objects [Load] creates, and where. *)
Definition allocate (ms : gmap bytes Model) : list treasure * gmap bytes loc :=
  let l := map_to_list ms in
  (map (fun p => loaded p.2) l, list_to_map (imap (fun i p => (p.1, i)) l)).

Definition New (now closeAfterIdle : Z) (filesystemSettings : option (store * Z)) (meta : Metadata)
    (file : option bytes) : swamp :=
  let '(c, models) :=
    match filesystemSettings with
    | None => (None, ∅)
    | Some (c, _) => let '(c, o) := st_Load (st_Register c) in (Some c, default ∅ o)
    end in
  let '(h, m) := allocate models in
  {| data := {| heap := h; beaconKey := PushManyFromMap m Beacon.New;
                beacons _ _ := ordered_beacon;
                treasuresWaitingForWriter := SetIsOrdered false Beacon.New;
                creatingTreasures := ∅; buckets := ∅ |};
     ctl := fresh_control now;
     conf := {| writeInterval := match filesystemSettings with Some (_, i) => i | None => 0 end;
                inMemorySwamp := match filesystemSettings with Some _ => false | None => true end;
                closeAfterIdle := closeAfterIdle |};
     chron := c; metadataInterface := meta; metaFile := file |}.

(** A tick of [startWriteListener] and of [startCloseListener]. *)
Definition write_tick (s : swamp) : outcome swamp :=
  if cancelled (ctl s) then Disabled else
  if isFilesystemWritingActive (ctl s) || closing (ctl s) then Next s else
  let '(s, n) := CountTreasuresWaitingForWriter s in
  if n =? 0 then Next s else fileWriterHandler false s.

Definition closeGapDuration : Z := 10 ^ 9.

Definition close_tick (now : Z) (s : swamp) : outcome swamp :=
  if cancelled (ctl s) then Disabled else
  let idle := bool_decide (lastInteractionTime (ctl s) + (closeAfterIdle (conf s) + closeGapDuration) < now) in
  let free := negb (HasActiveVigils s) && negb (closing (ctl s)) && idle in
  if inMemorySwamp (conf s) then if free then Close s else Next s
  else if negb (isFilesystemWritingActive (ctl s)) && free then Close s else Next s.
End Swamp.
