(* ===== verification/Gateway.v ===== *)
(** The gateway's handlers of one swamp: [server/gateway/gateway.go].

    A handler first checks the swamp's name and summons it from hydra; the definitions here
    are what it then does with the summoned swamp, from [BeginVigil] on: the conversions
    between the protobuf messages and treasures, and the calls.  The records are the messages'
    fields; [None] is a nil pointer. *)
From Stdlib Require Import Floats.SpecFloat.
From S2P Require Import Prelude Steps Types Meta Chronicler Guard Treasure Beacon Canon Bucket Swamp.

(** ** Messages *)

(** [timestamppb.Timestamp], with [GetSeconds], [GetNanos], [AsTime] and [New]. *)
Record Timestamp := { Seconds : Z; Nanos : Z }.
Definition AsTime (ts : Timestamp) : Z := Seconds ts * 10 ^ 9 + Nanos ts.
Definition New_timestamp (t : Z) : Timestamp := {| Seconds := t / 10 ^ 9; Nanos := t mod 10 ^ 9 |}.

Inductive Boolean_Type : Type := Boolean_TRUE | Boolean_FALSE | Boolean_OTHER.

Record KeyValuePair := {
  p_Key : bytes;
  p_Int8Val : option Z;
  p_Int16Val : option Z;
  p_Int32Val : option Z;
  p_Int64Val : option Z;
  p_Uint8Val : option Z;
  p_Uint16Val : option Z;
  p_Uint32Val : option Z;
  p_Uint64Val : option Z;
  p_Float32Val : option spec_float;
  p_Float64Val : option spec_float;
  p_StringVal : option bytes;
  p_BoolVal : option Boolean_Type;
  p_BytesVal : option bytes;
  p_Uint32Slice : option (list Z);
  p_VoidVal : option bool;
  p_CreatedAt : option Timestamp;
  p_CreatedBy : bytes;                (** [""] when it is nil *)
  p_UpdatedAt : option Timestamp;
  p_UpdatedBy : bytes;
  p_ExpiredAt : option Timestamp
}.

(** [hydrapb.Treasure] *)
Record pb_Treasure := {
  o_Key : bytes;
  o_IsExist : bool;
  o_Int8Val : option Z;
  o_Int16Val : option Z;
  o_Int32Val : option Z;
  o_Int64Val : option Z;
  o_Uint8Val : option Z;
  o_Uint16Val : option Z;
  o_Uint32Val : option Z;
  o_Uint64Val : option Z;
  o_Float32Val : option spec_float;
  o_Float64Val : option spec_float;
  o_StringVal : option bytes;
  o_BoolVal : option Boolean_Type;
  o_BytesVal : option bytes;
  o_Uint32Slice : option (list Z);
  o_CreatedAt : option Timestamp;
  o_CreatedBy : option bytes;
  o_UpdatedAt : option Timestamp;
  o_UpdatedBy : option bytes;
  o_ExpiredAt : option Timestamp
}.

Inductive Status_Code : Type :=
| Status_NEW | Status_UPDATED | Status_NOTHING_CHANGED | Status_DELETED | Status_NOT_FOUND.

Inductive Relational_Operator : Type :=
| Relational_EQUAL | Relational_LESS_THAN | Relational_LESS_THAN_OR_EQUAL | Relational_GREATER_THAN
| Relational_GREATER_THAN_OR_EQUAL | Relational_NOT_EQUAL | Relational_OTHER.

Inductive IndexType : Type :=
| IndexType_KEY | IndexType_EXPIRATION_TIME | IndexType_CREATION_TIME | IndexType_UPDATE_TIME
| IndexType_VALUE_INT8 | IndexType_VALUE_INT16 | IndexType_VALUE_INT32 | IndexType_VALUE_INT64
| IndexType_VALUE_UINT8 | IndexType_VALUE_UINT16 | IndexType_VALUE_UINT32 | IndexType_VALUE_UINT64
| IndexType_VALUE_FLOAT32 | IndexType_VALUE_FLOAT64 | IndexType_VALUE_STRING | IndexType_OTHER.
Inductive OrderType : Type := OrderType_ASC | OrderType_DESC | OrderType_OTHER.

(** ** Conversions *)

Definition isValidTimestamp (ts : option Timestamp) : bool :=
  match ts with None => false | Some ts => (0 <? Seconds ts) || (0 <? Nanos ts) end.

(** A setter applied to the treasure when the message has the field. *)
Definition then_set (o : option treasure) (f : treasure -> option treasure) : option treasure := o ≫= f.
Definition when_valid (ts : option Timestamp) (f : Z -> treasure -> option treasure) : treasure -> option treasure :=
  fun t => match ts with Some ts' => if isValidTimestamp ts then f (AsTime ts') t else Some t | None => Some t end.
Definition when_nonempty (s : bytes) (f : bytes -> treasure -> option treasure) : treasure -> option treasure :=
  fun t => if decide (s = []) then Some t else f s t.

(** The switch of [keyValuesToTreasure].  A panic of [Uint32SlicePush] is one here too. *)
Definition set_value_of (p : KeyValuePair) (guardID : Z) : treasure -> option treasure :=
  match p_Int8Val p with Some v => SetContentInt8 guardID (i8 v) | None =>
  match p_Int16Val p with Some v => SetContentInt16 guardID (i16 v) | None =>
  match p_Int32Val p with Some v => SetContentInt32 guardID v | None =>
  match p_Int64Val p with Some v => SetContentInt64 guardID v | None =>
  match p_Uint8Val p with Some v => SetContentUint8 guardID (u8 v) | None =>
  match p_Uint16Val p with Some v => SetContentUint16 guardID (u16 v) | None =>
  match p_Uint32Val p with Some v => SetContentUint32 guardID v | None =>
  match p_Uint64Val p with Some v => SetContentUint64 guardID v | None =>
  match p_Float32Val p with Some v => SetContentFloat32 guardID v | None =>
  match p_Float64Val p with Some v => SetContentFloat64 guardID v | None =>
  match p_StringVal p with Some v => SetContentString guardID v | None =>
  match p_BoolVal p with
  | Some v => SetContentBool guardID (match v with Boolean_TRUE => true | _ => false end)
  | None =>
  match p_BytesVal p with Some v => SetContentByteArray guardID (Some v) | None =>
  match p_Uint32Slice p with Some vs => Uint32SlicePush vs | None =>
  SetContentVoid guardID
  end end end end end end end end end end end end end end.

Definition keyValuesToTreasure (keyValuePair : option KeyValuePair) (guardID : Z) (t : treasure) : option treasure :=
  match keyValuePair with
  | None => SetContentVoid guardID t
  | Some p =>
      t ← set_value_of p guardID t;
      t ← when_valid (p_CreatedAt p) (SetCreatedAt guardID) t;
      t ← when_nonempty (p_CreatedBy p) (SetCreatedBy guardID) t;
      t ← when_valid (p_UpdatedAt p) (SetModifiedAt guardID) t;
      t ← when_nonempty (p_UpdatedBy p) (SetModifiedBy guardID) t;
      when_valid (p_ExpiredAt p) (SetExpirationTime guardID) t
  end.

Definition empty_pb (key : bytes) : pb_Treasure :=
  {| o_Key := key; o_IsExist := false; o_Int8Val := None; o_Int16Val := None; o_Int32Val := None;
     o_Int64Val := None; o_Uint8Val := None; o_Uint16Val := None; o_Uint32Val := None; o_Uint64Val := None;
     o_Float32Val := None; o_Float64Val := None; o_StringVal := None; o_BoolVal := None; o_BytesVal := None;
     o_Uint32Slice := None; o_CreatedAt := None; o_CreatedBy := None; o_UpdatedAt := None;
     o_UpdatedBy := None; o_ExpiredAt := None |}.

Definition pb_time (t : Z) : option Timestamp := if 0 <? t then Some (New_timestamp t) else None.
Definition pb_string (s : bytes) : option bytes := if decide (s = []) then None else Some s.

(** On an empty message; [None] is the panic of [Uint32SliceGetAll].  The getter of the case is
    the only one that is read. *)
Definition treasureToKeyValuePair (t : treasure) : option pb_Treasure :=
  let ct := GetContentType t in
  let case {A} (c : ContentType) (v : option A) : option A := if decide (ct = c) then v else None in
  slice ← if decide (ct = ContentTypeUint32Slice) then Uint32SliceGetAll t else Some None;
  Some {|
    o_Key := GetKey t; o_IsExist := true;
    o_Int8Val := case ContentTypeInt8 (GetContentInt8 t);
    o_Int16Val := case ContentTypeInt16 (GetContentInt16 t);
    o_Int32Val := case ContentTypeInt32 (GetContentInt32 t);
    o_Int64Val := case ContentTypeInt64 (GetContentInt64 t);
    o_Uint8Val := case ContentTypeUint8 (GetContentUint8 t);
    o_Uint16Val := case ContentTypeUint16 (GetContentUint16 t);
    o_Uint32Val := case ContentTypeUint32 (GetContentUint32 t);
    o_Uint64Val := case ContentTypeUint64 (GetContentUint64 t);
    o_Float32Val := case ContentTypeFloat32 (GetContentFloat32 t);
    o_Float64Val := case ContentTypeFloat64 (GetContentFloat64 t);
    o_StringVal := case ContentTypeString (GetContentString t);
    o_BoolVal := (fun b : bool => if b then Boolean_TRUE else Boolean_FALSE) <$> case ContentTypeBoolean (GetContentBool t);
    o_BytesVal := case ContentTypeByteArray (GetContentByteArray t);
    o_Uint32Slice := slice;
    o_CreatedAt := pb_time (GetCreatedAt t); o_CreatedBy := pb_string (GetCreatedBy t);
    o_UpdatedAt := pb_time (GetModifiedAt t); o_UpdatedBy := pb_string (GetModifiedBy t);
    o_ExpiredAt := pb_time (GetExpirationTime t) |}.

Definition convertTreasureStatusToPbStatus (s : TreasureStatus) : Status_Code :=
  match s with
  | StatusNew => Status_NEW
  | StatusModified => Status_UPDATED
  | StatusSame => Status_NOTHING_CHANGED
  | StatusDeleted => Status_DELETED
  end.

Definition inputIndexTypeToBeaconType (i : IndexType) : BeaconType :=
  match i with
  | IndexType_KEY => BeaconTypeKey
  | IndexType_EXPIRATION_TIME => BeaconTypeExpirationTime
  | IndexType_CREATION_TIME => BeaconTypeCreationTime
  | IndexType_UPDATE_TIME => BeaconTypeUpdateTime
  | IndexType_VALUE_INT8 => BeaconTypeValueInt8
  | IndexType_VALUE_INT16 => BeaconTypeValueInt16
  | IndexType_VALUE_INT32 => BeaconTypeValueInt32
  | IndexType_VALUE_INT64 => BeaconTypeValueInt64
  | IndexType_VALUE_UINT8 => BeaconTypeValueUint8
  | IndexType_VALUE_UINT16 => BeaconTypeValueUint16
  | IndexType_VALUE_UINT32 => BeaconTypeValueUint32
  | IndexType_VALUE_UINT64 => BeaconTypeValueUint64
  | IndexType_VALUE_FLOAT32 => BeaconTypeValueFloat32
  | IndexType_VALUE_FLOAT64 => BeaconTypeValueFloat64
  | IndexType_VALUE_STRING | IndexType_OTHER => BeaconTypeValueString
  end.
Definition inputOrderTypeToBeaconOrderType (o : OrderType) : BeaconOrder :=
  match o with OrderType_DESC => IndexOrderDesc | _ => IndexOrderAsc end.
Definition relationalOperatorToSwampRelationalOperator (o : Relational_Operator) : RelationalOperator :=
  match o with
  | Relational_EQUAL | Relational_OTHER => RelationalOperatorEqual
  | Relational_LESS_THAN => RelationalOperatorLessThan
  | Relational_LESS_THAN_OR_EQUAL => RelationalOperatorLessThanOrEqual
  | Relational_GREATER_THAN => RelationalOperatorGreaterThan
  | Relational_GREATER_THAN_OR_EQUAL => RelationalOperatorGreaterThanOrEqual
  | Relational_NOT_EQUAL => RelationalOperatorNotEqual
  end.

(** [hydrapb.IncrementRequestMetadata] and [IncrementResponseMetadata]. *)
Record IncrementRequestMetadata := {
  i_CreatedAt : bool; i_CreatedBy : bytes; i_UpdatedAt : bool; i_UpdatedBy : bytes; i_ExpiredAt : option Timestamp
}.
Record IncrementResponseMetadata := {
  x_CreatedAt : option Timestamp; x_CreatedBy : option bytes; x_UpdatedAt : option Timestamp;
  x_UpdatedBy : option bytes; x_ExpiredAt : option Timestamp
}.

(** [Timestamp.IsValid]: the years 1 to 9999 and proper nanoseconds. *)
Definition IsValid (ts : Timestamp) : bool :=
  (-62135596800 <=? Seconds ts) && (Seconds ts <=? 253402300799) && (0 <=? Nanos ts) && (Nanos ts <? 10 ^ 9).

Definition convertIncrementMetaToSwampMeta (meta : option IncrementRequestMetadata) : option IncrementMetadataRequest :=
  (fun i => {|
    q_SetCreatedAt := i_CreatedAt i; q_CreatedBy := i_CreatedBy i; q_SetUpdatedAt := i_UpdatedAt i;
    q_UpdatedBy := i_UpdatedBy i;
    q_ExpiredAt := match i_ExpiredAt i with Some ts => if IsValid ts then AsTime ts else zero_time | None => zero_time end
  |}) <$> meta.

Definition pb_nonzero_time (t : Z) : option Timestamp := if IsZero t then None else Some (New_timestamp t).
Definition convertIncrementMetaResponseToProtoResponse (r : option IncrementMetadataResponse) : option IncrementResponseMetadata :=
  (fun r => {|
    x_CreatedAt := pb_nonzero_time (r_CreatedAt r); x_CreatedBy := pb_string (r_CreatedBy r);
    x_UpdatedAt := pb_nonzero_time (r_UpdatedAt r); x_UpdatedBy := pb_string (r_UpdatedBy r);
    x_ExpiredAt := pb_nonzero_time (r_ExpiredAt r) |}) <$> r.

(** ** Handlers *)

Section Gateway.
Context `{SI : Store} `{GM : GobModel} `{GMeta : GobMeta} `{FI : FloatToInt} `{MP : Msgpack} `{SR : SlotRange}.
Context `{HR : KeyRange} `{HS : SortSlice}.

(** A body between [BeginVigil] and the deferred [CeaseVigil]. *)
Definition vigilant {A} (body : swamp -> outcome (swamp * A)) (s : swamp) : outcome (swamp * A) :=
  let! (s, a) := body (BeginVigil s) in Next (CeaseVigil s, a).

(** A treasure under its guard: the inner functions of [Set] and [Uint32SlicePush]. *)
Definition edit_and_save (now : Z) (key : bytes) (edit : Z -> treasure -> option treasure) (s : swamp) :
    outcome (swamp * TreasureStatus) :=
  let! (s, x) := CreateTreasure key s in
  let! (s, guardID) := start_guard x None s in
  let! s := set_on x (edit guardID) s in
  let! (s, status) := Save now x guardID s in
  Next (release_guard x guardID s, status).

(** One item of [Set]. *)
Definition set_item (now : Z) (createIfNotExist overwrite : bool) (item : KeyValuePair) (s : swamp) :
    outcome (swamp * Status_Code) :=
  let '(s, missing) :=
    if createIfNotExist then (s, false)
    else let '(s, e) := TreasureExists now (p_Key item) s in (s, negb e) in
  if missing then Next (s, Status_NOT_FOUND) else
  let '(s, present) := if overwrite then (s, false) else TreasureExists now (p_Key item) s in
  if present then Next (s, Status_NOTHING_CHANGED) else
  let! (s, status) := edit_and_save now (p_Key item) (keyValuesToTreasure (Some item)) s in
  Next (s, convertTreasureStatusToPbStatus status).

Fixpoint set_items (now : Z) (createIfNotExist overwrite : bool) (items : list KeyValuePair) (s : swamp) :
    outcome (swamp * list (bytes * Status_Code)) :=
  match items with
  | [] => Next (s, [])
  | item :: items =>
      let! (s, code) := set_item now createIfNotExist overwrite item s in
      let! (s, rest) := set_items now createIfNotExist overwrite items s in
      Next (s, (p_Key item, code) :: rest)
  end.

(** [None] is the error of a meaningless request. *)
Definition gateway_Set (now : Z) (createIfNotExist overwrite : bool) (items : list KeyValuePair) (s : swamp) :
    outcome (swamp * option (list (bytes * Status_Code))) :=
  if negb createIfNotExist && negb overwrite then Next (s, None)
  else vigilant (fun s => let! (s, r) := set_items now createIfNotExist overwrite items s in Next (s, Some r)) s.

Fixpoint get_keys (now : Z) (keys : list bytes) (s : swamp) : outcome (swamp * list pb_Treasure) :=
  match keys with
  | [] => Next (s, [])
  | k :: keys =>
      let '(s, o) := GetTreasure now k s in
      let! t := match o with
                | None => Next (empty_pb k)
                | Some x => of_panic (treasureToKeyValuePair (deref s x))
                end in
      let! (s, rest) := get_keys now keys s in
      Next (s, t :: rest)
  end.
Definition gateway_Get (now : Z) (keys : list bytes) : swamp -> outcome (swamp * list pb_Treasure) :=
  vigilant (get_keys now keys).

Fixpoint delete_items (now : Z) (keys : list bytes) (s : swamp) : outcome (swamp * list (bytes * Status_Code)) :=
  match keys with
  | [] => Next (s, [])
  | k :: keys =>
      let! (s, ok) := DeleteTreasure now k false s in
      let! (s, rest) := delete_items now keys s in
      Next (s, (k, if ok : bool then Status_DELETED else Status_NOT_FOUND) :: rest)
  end.
Definition gateway_Delete (now : Z) (keys : list bytes) : swamp -> outcome (swamp * list (bytes * Status_Code)) :=
  vigilant (delete_items now keys).

(** The answers made of copies. *)
Definition answer (ts : list treasure) : outcome (list pb_Treasure) := of_panic (mapM treasureToKeyValuePair ts).

Definition gateway_ShiftByKeys (now : Z) (keys : list bytes) (s : swamp) : outcome (swamp * list pb_Treasure) :=
  if decide (keys = []) then Next (s, []) else
  vigilant (fun s => let! (s, ts) := CloneAndDeleteTreasuresByKeys now keys s in
                     let! r := answer ts in Next (s, r)) s.

Definition shiftExpiredOneSwamp (now howMany : Z) : swamp -> outcome (swamp * list pb_Treasure) :=
  vigilant (fun s =>
    let howMany := if howMany =? 0 then 1000000000 else howMany in
    let! (s, ts) := CloneAndDeleteExpiredTreasures now howMany s in
    let! r := answer ts in Next (s, r)).

Definition gateway_Count (now : Z) : swamp -> outcome (swamp * Z) :=
  vigilant (fun s => let '(s, n) := CountTreasures now s in Next (s, i32 n)).
Definition gateway_IsKeyExist (now : Z) (key : bytes) : swamp -> outcome (swamp * bool) :=
  vigilant (fun s => Next (TreasureExists now key s)).
Definition gateway_AreKeysExist (now : Z) (keys : list bytes) (s : swamp) : outcome (swamp * gmap bytes bool) :=
  if decide (keys = []) then Next (s, ∅) else
  vigilant (fun s => Next (TreasuresExistByKeys now keys s)) s.

(** *** Slices *)

Fixpoint push_pairs (now : Z) (pairs : list (bytes * list Z)) (s : swamp) : outcome swamp :=
  match pairs with
  | [] => Next s
  | (key, values) :: pairs =>
      let! (s, _) := edit_and_save now key (fun _ => Uint32SlicePush values) s in push_pairs now pairs s
  end.
(** [Uint32SlicePush] of a treasure returns no error. *)
Definition gateway_Uint32SlicePush (now : Z) (pairs : list (bytes * list Z)) : swamp -> outcome (swamp * unit) :=
  vigilant (fun s => let! s := push_pairs now pairs s in Next (s, tt)).

(** The inner function of [Uint32SliceDelete], which deletes an empty treasure with the guard
    still to be released; the answer is whether that deletion failed. *)
Definition slice_delete_pair (now : Z) (key : bytes) (values : list Z) (s : swamp) : outcome (swamp * bool) :=
  match GetTreasure now key s with
  | (s, None) => Next (s, false)
  | (s, Some x) =>
      let! (s, guardID) := start_guard x None s in
      let! s := set_on x (Uint32SliceDelete values) s in
      let! (s, _) := Save now x guardID s in
      let! (s, failed) :=
        match Uint32SliceSize (deref s x) with
        | Some size => if size =? 0 then let! (s, ok) := DeleteTreasure now key false s in Next (s, negb ok)
                       else Next (s, false)
        | None => let! (s, ok) := DeleteTreasure now key false s in Next (s, negb ok)
        end in
      Next (release_guard x guardID s, failed)
  end.
Fixpoint slice_delete_pairs (now : Z) (pairs : list (bytes * list Z)) (s : swamp) : outcome (swamp * bool) :=
  match pairs with
  | [] => Next (s, true)
  | (key, values) :: pairs =>
      let! (s, failed) := slice_delete_pair now key values s in
      let! (s, ok) := slice_delete_pairs now pairs s in
      Next (s, negb failed && ok)
  end.
(** Whether no error is reported. *)
Definition gateway_Uint32SliceDelete (now : Z) (pairs : list (bytes * list Z)) : swamp -> outcome (swamp * bool) :=
  vigilant (slice_delete_pairs now pairs).

(** [None] is an error. *)
Definition gateway_Uint32SliceSize (now : Z) (key : bytes) : swamp -> outcome (swamp * option Z) :=
  vigilant (fun s => let '(s, o) := GetTreasure now key s in
                     Next (s, x ← o; Uint32SliceSize (deref s x))).
Definition gateway_Uint32SliceIsValueExist (now : Z) (key : bytes) (value : Z) : swamp -> outcome (swamp * option bool) :=
  vigilant (fun s =>
    match GetTreasure now key s with
    | (s, None) => Next (s, None)
    | (s, Some x) =>
        let! vs := of_panic (Uint32SliceGetAll (deref s x)) in
        Next (s, Some (bool_decide (value ∈ default [] vs)))
    end).

(** *** Increments *)

(** The fields of the ten request messages; [W] is the type on the wire. *)
Record IncrementRequest (W : Type) := {
  i_Key : bytes;
  i_IncrementBy : W;
  i_Condition : option (Relational_Operator * W);
  i_SetIfNotExist : option IncrementRequestMetadata;
  i_SetIfExist : option IncrementRequestMetadata
}.
Arguments i_Key {W}.
Arguments i_IncrementBy {W}.
Arguments i_Condition {W}.
Arguments i_SetIfNotExist {W}.
Arguments i_SetIfExist {W}.

(** [None] is an error: a zero increment, or a value of another type. *)
Definition gateway_increment {W} (n : numeric) (isZero : W -> bool) (narrow : W -> num n)
    (now : Z) (r : IncrementRequest W) (s : swamp) :
    outcome (swamp * option (num n * bool * option IncrementResponseMetadata)) :=
  if isZero (i_IncrementBy r) then Next (s, None) else
  vigilant (fun s =>
    let condition := (fun c => {| c_RelationalOperator := relationalOperatorToSwampRelationalOperator c.1;
                                  c_Value := narrow c.2 |}) <$> i_Condition r in
    let! (s, o) := increment n now (i_Key r) (narrow (i_IncrementBy r)) condition
                     (convertIncrementMetaToSwampMeta (i_SetIfNotExist r))
                     (convertIncrementMetaToSwampMeta (i_SetIfExist r)) s in
    Next (s, (fun v => (v.1.1, v.1.2, convertIncrementMetaResponseToProtoResponse v.2)) <$> o)) s.

Definition gateway_IncrementInt8 := gateway_increment Int8_ (Z.eqb 0) i8.
Definition gateway_IncrementInt16 := gateway_increment Int16_ (Z.eqb 0) i16.
Definition gateway_IncrementInt32 := gateway_increment Int32_ (Z.eqb 0) id.
Definition gateway_IncrementInt64 := gateway_increment Int64_ (Z.eqb 0) id.
Definition gateway_IncrementUint8 := gateway_increment Uint8_ (Z.eqb 0) u8.
Definition gateway_IncrementUint16 := gateway_increment Uint16_ (Z.eqb 0) u16.
Definition gateway_IncrementUint32 := gateway_increment Uint32_ (Z.eqb 0) id.
Definition gateway_IncrementUint64 := gateway_increment Uint64_ (Z.eqb 0) id.
Definition gateway_IncrementFloat32 := gateway_increment Float32_ (SFeqb (S754_zero false)) id.
Definition gateway_IncrementFloat64 := gateway_increment Float64_ (SFeqb (S754_zero false)) id.
End Gateway.
