(* ===== verification/Filters.v ===== *)
(** Filters on treasures: [server/gateway/filter.go] and [filter_native.go].

    A body is decoded by the class [Msgpack] of [Bucket.v]; the trigonometric functions and
    [strings.ToLower] are classes, too.  The loops of the code stop at the first leg that
    decides; the legs have no effect, so [forallb] and [existsb] give the same answer. *)
From Stdlib Require Import Floats.SpecFloat.
From stdpp Require Import sorting.
From S2P Require Import Prelude Steps Types Compressor Block FileSys Reader Contents Log Session.
From S2P Require Import Meta Chronicler Swamp Gateway Guard Treasure Beacon Canon Bucket Text.
#[local] Set Warnings "-register-all,-clear-no-such-hyp".

(** ** Messages *)

(** [hydrapb.Relational_Operator] *)
Inductive Operator : Type :=
| EQUAL | GREATER_THAN | GREATER_THAN_OR_EQUAL | LESS_THAN | LESS_THAN_OR_EQUAL | NOT_EQUAL
| CONTAINS | NOT_CONTAINS | STARTS_WITH | ENDS_WITH | IS_EMPTY | IS_NOT_EMPTY | HAS_KEY | HAS_NOT_KEY
| SLICE_CONTAINS | SLICE_NOT_CONTAINS | SLICE_CONTAINS_SUBSTRING | SLICE_NOT_CONTAINS_SUBSTRING
| STRING_IN | INT32_IN | INT64_IN
| OtherOperator (z : Z).

#[export] Instance Operator_eq_dec : EqDecision Operator.
Proof. solve_decision. Defined.

(** The [oneof] of a filter. *)
Inductive CompareValue : Type :=
| NoVal
| Int8Val (z : Z) | Int16Val (z : Z) | Int32Val (z : Z) | Int64Val (z : Z)
| Uint8Val (z : Z) | Uint16Val (z : Z) | Uint32Val (z : Z) | Uint64Val (z : Z)
| Float32Val (f : spec_float) | Float64Val (f : spec_float)
| StringVal (s : bytes) | BoolVal (b : Boolean_Type)
| CreatedAtVal (t : option Timestamp) | UpdatedAtVal (t : option Timestamp) | ExpiredAtVal (t : option Timestamp).

Record TreasureFilter := {
  tf_Operator : Operator; tf_CompareValue : CompareValue; tf_BytesFieldPath : option bytes;
  tf_TreasureKey : option bytes; tf_Label : option bytes;
  tf_StringInVals : list bytes; tf_Int32InVals : list Z; tf_Int64InVals : list Z
}.
Record PhraseFilter := {
  pf_BytesFieldPath : bytes; pf_Words : list bytes; pf_Negate : bool;
  pf_TreasureKey : option bytes; pf_Label : option bytes
}.
Record VectorFilter := {
  vf_BytesFieldPath : bytes; vf_QueryVector : list spec_float; vf_MinSimilarity : spec_float;
  vf_TreasureKey : option bytes; vf_Label : option bytes
}.
Inductive GeoDistanceMode : Type := INSIDE | OUTSIDE | OtherMode (z : Z).
Record GeoDistanceFilter := {
  gf_LatFieldPath : bytes; gf_LngFieldPath : bytes; gf_RefLatitude : spec_float; gf_RefLongitude : spec_float;
  gf_RadiusKm : spec_float; gf_Mode : GeoDistanceMode;
  gf_TreasureKey : option bytes; gf_Label : option bytes
}.
Inductive EvalMode : Type := ANY | ALL | NONE | COUNT | OtherEval (z : Z).
Inductive FilterLogic : Type := AND | OR | OtherLogic (z : Z).

#[export] Instance GeoDistanceMode_eq_dec : EqDecision GeoDistanceMode.
Proof. solve_decision. Defined.
#[export] Instance EvalMode_eq_dec : EqDecision EvalMode.
Proof. solve_decision. Defined.
#[export] Instance FilterLogic_eq_dec : EqDecision FilterLogic.
Proof. solve_decision. Defined.

Inductive FilterGroup : Type :=
| Group (logic : FilterLogic) (filters : list TreasureFilter) (subGroups : list FilterGroup)
    (phraseFilters : list PhraseFilter) (vectorFilters : list VectorFilter)
    (geoDistanceFilters : list GeoDistanceFilter) (nestedSliceWhereFilters : list NestedSliceWhereFilter)
with NestedSliceWhereFilter : Type :=
| NestedSliceWhere (evalMode : EvalMode) (slicePath : bytes) (conditions : option FilterGroup)
    (treasureKey label : option bytes) (countOperator : Operator) (countValue : Z).

Definition Logic (g : FilterGroup) := let '(Group l _ _ _ _ _ _) := g in l.
Definition Filters (g : FilterGroup) := let '(Group _ fs _ _ _ _ _) := g in fs.
Definition SubGroups (g : FilterGroup) := let '(Group _ _ sgs _ _ _ _) := g in sgs.
Definition PhraseFilters (g : FilterGroup) := let '(Group _ _ _ ps _ _ _) := g in ps.
Definition VectorFilters (g : FilterGroup) := let '(Group _ _ _ _ vs _ _) := g in vs.
Definition GeoDistanceFilters (g : FilterGroup) := let '(Group _ _ _ _ _ gs _) := g in gs.
Definition NestedSliceWhereFilters (g : FilterGroup) := let '(Group _ _ _ _ _ _ ns) := g in ns.
Definition nf_TreasureKey (nf : NestedSliceWhereFilter) := let '(NestedSliceWhere _ _ _ k _ _ _) := nf in k.
Definition nf_Label (nf : NestedSliceWhereFilter) := let '(NestedSliceWhere _ _ _ _ l _ _) := nf in l.

(** ** Comparisons *)

(** [cmp.Ordered]: the comparisons of a type. *)
Record ordered (A : Type) := { o_eqb : A -> A -> bool; o_ltb : A -> A -> bool; o_leb : A -> A -> bool }.
Arguments o_eqb {A}. Arguments o_ltb {A}. Arguments o_leb {A}.

Definition ints : ordered Z := {| o_eqb := Z.eqb; o_ltb := Z.ltb; o_leb := Z.leb |}.
Definition floats : ordered spec_float := {| o_eqb := SFeqb; o_ltb := SFltb; o_leb := SFleb |}.
Definition strings : ordered bytes :=
  {| o_eqb a b := bool_decide (a = b); o_ltb := bytes_lt; o_leb a b := negb (bytes_lt b a) |}.

Definition compareOrdered {A} (O : ordered A) (actual : A) (op : Operator) (ref : A) : bool :=
  match op with
  | EQUAL => o_eqb O actual ref
  | NOT_EQUAL => negb (o_eqb O actual ref)
  | GREATER_THAN => o_ltb O ref actual
  | GREATER_THAN_OR_EQUAL => o_leb O ref actual
  | LESS_THAN => o_ltb O actual ref
  | LESS_THAN_OR_EQUAL => o_leb O actual ref
  | _ => false
  end.

Definition compareString (actual : bytes) (op : Operator) (ref : bytes) : bool :=
  match op with
  | CONTAINS => contains actual ref
  | NOT_CONTAINS => negb (contains actual ref)
  | STARTS_WITH => has_prefix ref actual
  | ENDS_WITH => has_suffix ref actual
  | _ => compareOrdered strings actual op ref
  end.

Definition compareBoolRaw (actual : bool) (op : Operator) (ref : bool) : bool :=
  match op with
  | EQUAL => Bool.eqb actual ref
  | NOT_EQUAL => negb (Bool.eqb actual ref)
  | _ => false
  end.

(** [ref.AsTime().UnixNano()] *)
Definition compareNativeTimestamp (nanos : Z) (op : Operator) (ref : option Timestamp) : bool :=
  if nanos =? 0 then false else
  match ref with Some ref => compareOrdered ints nanos op (i64 (AsTime ref)) | None => false end.

Definition is_true (b : Boolean_Type) : bool := match b with Boolean_TRUE => true | _ => false end.

(** ** Decoded values *)

Definition float32_of_Z (z : Z) : spec_float := binary_normalize 24 128 z 0 false.
Definition float32_of (f : spec_float) : spec_float :=
  match f with S754_finite s m e => binary_normalize 24 128 (cond_Zopp s (Zpos m)) e s | f => f end.

Section Conversions.
Context `{FI : FloatToInt}.

(** A decoded number has one of the sized types. *)
Definition toInt64 (v : any) : option Z :=
  match v with
  | AInt Wint _ | AUint Wint _ => None
  | AInt _ z => Some z
  | AUint W64 z => if z <=? 2 ^ 63 - 1 then Some z else None
  | AUint _ z => Some z
  | AFloat32 f => Some (int64_of f)
  | AFloat64 f => Some (int64_of f)
  | ATime t => Some t
  | _ => None
  end.

Definition toUint64 (v : any) : option Z :=
  match v with
  | AInt Wint _ | AUint Wint _ => None
  | AUint _ z => Some z
  | AInt _ z => if 0 <=? z then Some z else None
  | AFloat32 f => Some (uint64_of f)
  | AFloat64 f => Some (uint64_of f)
  | _ => None
  end.

Definition toFloat64 (v : any) : option spec_float :=
  match v with
  | AInt Wint _ | AUint Wint _ => None
  | AFloat32 f => Some (float64_of_float32 f)
  | AFloat64 f => Some f
  | AInt _ z | AUint _ z => Some (float64_of_Z z)
  | _ => None
  end.

Definition toInt64Slice (v : any) : list Z := match v with AArray xs => omap toInt64 xs | _ => [] end.

(** One element of [toFloat32Slice]. *)
Definition toFloat32 (v : any) : option spec_float :=
  match v with
  | AInt Wint _ | AUint Wint _ => None
  | AFloat32 f => Some f
  | AFloat64 f => Some (float32_of f)
  | AInt _ z | AUint _ z => Some (float32_of_Z z)
  | _ => None
  end.
(** [[]] stands for [nil], too: the callers look at the length. *)
Definition toFloat32Slice (v : any) : list spec_float :=
  match v with AArray xs => default [] (mapM toFloat32 xs) | _ => [] end.
End Conversions.

(** ** Fields of a body *)

(** What [extractFieldByPath] returns: a value, or [anyMatchSlice]. *)
Inductive extracted : Type :=
| Plain (v : any)
| AnyMatch (values : list any).

(** A sentinel among the values of another one: no evaluator looks for its type. *)
Definition as_value (v : extracted) : any := match v with Plain v => v | AnyMatch _ => AOther end.

(** The loop over the segments. *)
Fixpoint navigate (parts : list bytes) (current : any) : extracted :=
  match parts with
  | [] => Plain current
  | part :: rest =>
      if decide (part = bs "#len") then
        match current with
        | AArray xs => Plain (AInt W64 (Z.of_nat (length xs)))
        | AMap m => Plain (AInt W64 (Z.of_nat (length m)))
        | _ => Plain ANil
        end
      else if has_suffix (bs "[*]") part then
        let fieldName := trim_suffix (bs "[*]") part in
        let current :=
          if decide (fieldName = []) then current
          else match current with AMap m => default ANil (map_get fieldName m) | _ => ANil end in
        match current with
        | AArray arr =>
            let remainingPath := join x2e rest in
            AnyMatch (omap (fun elem =>
              if decide (remainingPath = []) then Some elem
              else match elem with
                   | AMap _ => match navigate rest elem with Plain ANil => None | v => Some (as_value v) end
                   | _ => None
                   end) arr)
        | _ => Plain ANil
        end
      else
        match current with
        | AMap m => match map_get part m with Some v => navigate rest v | None => Plain ANil end
        | _ => Plain ANil
        end
  end.

Definition extractFieldByPath (m : list (bytes * any)) (path : bytes) : extracted :=
  if decide (path = []) then Plain (AMap m) else navigate (split x2e path) (AMap m).

(** [strings.ToLower] *)
Class LowerCase := ToLower : bytes -> bytes.

Section Evaluators.
Context `{FI : FloatToInt} `{LC : LowerCase}.

Definition evaluateStringIn (v : any) (vals : list bytes) : bool :=
  match v with AString s => existsb (fun allowed => bool_decide (s = allowed)) vals | _ => false end.
Definition evaluateInt32In (v : any) (vals : list Z) : bool :=
  match toInt64 v with Some n => existsb (Z.eqb n) vals | None => false end.
Definition evaluateInt64In (v : any) (vals : list Z) : bool :=
  match toInt64 v with Some n => existsb (Z.eqb n) vals | None => false end.

Definition is_empty_text (v : any) : bool := match v with AString [] => true | _ => false end.
Definition is_nil (v : any) : bool := match v with ANil => true | _ => false end.

Definition evaluateSliceContains (v : any) (op : Operator) (filter : TreasureFilter) : bool :=
  let negate := bool_decide (op = SLICE_NOT_CONTAINS \/ op = SLICE_NOT_CONTAINS_SUBSTRING) in
  match v with
  | AArray arr =>
      let answer (found : bool) := if negate then negb found else found in
      if decide (op = SLICE_CONTAINS_SUBSTRING \/ op = SLICE_NOT_CONTAINS_SUBSTRING) then
        match tf_CompareValue filter with
        | StringVal ref =>
            let lowerRef := ToLower ref in
            answer (existsb (fun e => match e with AString s => contains (ToLower s) lowerRef | _ => false end) arr)
        | _ => negate
        end
      else
        let has_int ref := existsb (fun e => match toInt64 e with Some n => n =? ref | None => false end) arr in
        match tf_CompareValue filter with
        | Int8Val ref | Int32Val ref | Int64Val ref => answer (has_int ref)
        | StringVal ref => answer (existsb (fun e => match e with AString s => bool_decide (s = ref) | _ => false end) arr)
        | _ => negate
        end
  | _ => negate
  end.

(** One value of [evaluateAnyMatch] against the compare value. *)
Definition any_match (v : any) (op : Operator) (filter : TreasureFilter) : bool :=
  match tf_CompareValue filter with
  | StringVal ref => match v with AString s => compareString s op ref | _ => false end
  | Int8Val ref | Int32Val ref | Int64Val ref =>
      match toInt64 v with Some n => compareOrdered ints n op ref | None => false end
  | BoolVal ref => match v with ABool b => compareBoolRaw b op (is_true ref) | _ => false end
  | Float64Val ref => match toFloat64 v with Some n => compareOrdered floats n op ref | None => false end
  | _ => false
  end.

Definition evaluateAnyMatch (values : list any) (op : Operator) (filter : TreasureFilter) : bool :=
  let filled v := negb (is_nil v) && negb (is_empty_text v) in
  match values with
  | [] => bool_decide (op = IS_EMPTY)
  | _ =>
      match op with
      | IS_NOT_EMPTY => existsb filled values
      | IS_EMPTY => negb (existsb filled values)
      | STRING_IN => existsb (fun v => evaluateStringIn v (tf_StringInVals filter)) values
      | INT32_IN => existsb (fun v => evaluateInt32In v (tf_Int32InVals filter)) values
      | INT64_IN => existsb (fun v => evaluateInt64In v (tf_Int64InVals filter)) values
      | _ => existsb (fun v => negb (is_nil v) && any_match v op filter) values
      end
  end.

(** The comparison of one decoded value with the compare value. *)
Definition compare_field (v : any) (op : Operator) (filter : TreasureFilter) : bool :=
  match tf_CompareValue filter with
  | Int8Val ref | Int16Val ref | Int32Val ref | Int64Val ref =>
      match toInt64 v with Some n => compareOrdered ints n op ref | None => false end
  | Uint8Val ref | Uint16Val ref | Uint32Val ref | Uint64Val ref =>
      match toUint64 v with Some n => compareOrdered ints n op ref | None => false end
  | Float32Val ref => match toFloat64 v with Some n => compareOrdered floats n op (float64_of_float32 ref) | None => false end
  | Float64Val ref => match toFloat64 v with Some n => compareOrdered floats n op ref | None => false end
  | StringVal ref => match v with AString s => compareString s op ref | _ => false end
  | BoolVal ref => match v with ABool b => compareBoolRaw b op (is_true ref) | _ => false end
  | _ => false
  end.

Definition evaluateBytesFieldFilterAgainstMap (decoded : list (bytes * any)) (filter : TreasureFilter) : bool :=
  let op := tf_Operator filter in
  match extractFieldByPath decoded (default [] (tf_BytesFieldPath filter)) with
  | AnyMatch values => evaluateAnyMatch values op filter
  | Plain v =>
      match op with
      | STRING_IN => evaluateStringIn v (tf_StringInVals filter)
      | INT32_IN => evaluateInt32In v (tf_Int32InVals filter)
      | INT64_IN => evaluateInt64In v (tf_Int64InVals filter)
      | IS_EMPTY => is_nil v || is_empty_text v
      | IS_NOT_EMPTY => negb (is_nil v || is_empty_text v)
      | HAS_KEY | HAS_NOT_KEY =>
          match v with
          | AMap m =>
              match tf_CompareValue filter with
              | StringVal k =>
                  let exists_ := bool_decide (is_Some (map_get k m)) in
                  if decide (op = HAS_KEY) then exists_ else negb exists_
              | _ => false
              end
          | _ => bool_decide (op = HAS_NOT_KEY)
          end
      | SLICE_CONTAINS | SLICE_NOT_CONTAINS | SLICE_CONTAINS_SUBSTRING | SLICE_NOT_CONTAINS_SUBSTRING =>
          evaluateSliceContains v op filter
      | _ => if is_nil v then false else compare_field v op filter
      end
  end.

(** *** Conditions on the elements of a slice *)

Definition evaluateCountResult (count : Z) (countOperator : Operator) (countValue : Z) : bool :=
  compareOrdered ints count countOperator countValue.

(** What a slice without elements answers, and a body without one. *)
Definition no_elements (evalMode : EvalMode) (countOperator : Operator) (countValue : Z) : bool :=
  match evalMode with
  | ALL | NONE => true
  | COUNT => evaluateCountResult 0 countOperator countValue
  | _ => false
  end.

Definition has_conditions (g : FilterGroup) : bool :=
  match Filters g, SubGroups g, NestedSliceWhereFilters g with [], [], [] => false | _, _, _ => true end.

(** The group in which only filters on fields, sub-groups and nested conditions count. *)
Fixpoint evaluateFilterGroupAgainstMap (decoded : list (bytes * any)) (group : FilterGroup) : bool :=
  match group with
  | Group logic filters subGroups _ _ _ nested =>
      match filters, subGroups, nested with
      | [], [], [] => true
      | _, _, _ =>
          if decide (logic = OR) then
            existsb (fun f => bool_decide (is_Some (tf_BytesFieldPath f)) && evaluateBytesFieldFilterAgainstMap decoded f) filters
            || existsb (fun sg => evaluateFilterGroupAgainstMap decoded sg) subGroups
            || existsb (fun nf => evaluateNestedSliceWhereAgainstMap decoded nf) nested
          else
            forallb (fun f => negb (bool_decide (is_Some (tf_BytesFieldPath f))) || evaluateBytesFieldFilterAgainstMap decoded f) filters
            && forallb (fun sg => evaluateFilterGroupAgainstMap decoded sg) subGroups
            && forallb (fun nf => evaluateNestedSliceWhereAgainstMap decoded nf) nested
      end
  end
with evaluateNestedSliceWhereAgainstMap (decoded : list (bytes * any)) (nf : NestedSliceWhereFilter) : bool :=
  match nf with
  | NestedSliceWhere evalMode slicePath conditions _ _ countOperator countValue =>
      match extractFieldByPath decoded slicePath with
      | Plain (AArray ((_ :: _) as arr)) =>
          let matched :=
            match conditions with
            | Some g =>
                if has_conditions g then
                  Some (fun elem => match elem with AMap m => evaluateFilterGroupAgainstMap m g | _ => false end)
                else None
            | None => None
            end in
          match matched with
          | None =>
              match evalMode with
              | NONE => false
              | COUNT => evaluateCountResult (i32 (Z.of_nat (length arr))) countOperator countValue
              | _ => true
              end
          | Some matched =>
              match evalMode with
              | ANY => existsb matched arr
              | ALL => forallb matched arr
              | NONE => negb (existsb matched arr)
              | COUNT => evaluateCountResult (i32 (Z.of_nat (length (List.filter matched arr)))) countOperator countValue
              | _ => false
              end
          end
      | _ => no_elements evalMode countOperator countValue
      end
  end.
End Evaluators.

(** ** Phrases, vectors, distances *)

(** [sort.Search(n, f)] by halving: the first index from which on [f] holds, for an [f] that
    stays true. *)
Fixpoint search (fuel : nat) (f : nat -> bool) (i j : nat) : nat :=
  match fuel with
  | O => i
  | S fuel =>
      if (i <? j)%nat then let h := ((i + j) / 2)%nat in if f h then search fuel f i h else search fuel f (S h) j else i
  end.

Definition sortedContains (sorted : list Z) (target : Z) : bool :=
  let n := length sorted in
  let i := search n (fun j => match sorted !! j with Some v => target <=? v | None => false end) 0 n in
  match sorted !! i with Some v => v =? target | None => false end.

(** The words behind the first one, the one at [i] next. *)
Fixpoint follow (startPos i : Z) (wordPositions : list (list Z)) : bool :=
  match wordPositions with
  | [] => true
  | ps :: rest => sortedContains ps (i64 (startPos + i)) && follow startPos (i + 1) rest
  end.
Definition hasConsecutivePositions (wordPositions : list (list Z)) : bool :=
  match wordPositions with
  | [] => true
  | [ps] => negb (bool_decide (ps = []))
  | first :: rest => existsb (fun startPos => follow startPos 1 rest) first
  end.

Definition mul32 := SFmul 24 128.
Definition add32 := SFadd 24 128.
Definition sub64 := SFsub 53 1024.
Definition add64 := SFadd 53 1024.
Definition mul64 := SFmul 53 1024.
Definition div64 := SFdiv 53 1024.

(** Four products at a time, then one. *)
Fixpoint dot_rest (sum : spec_float) (a b : list spec_float) : spec_float :=
  match a, b with a0 :: a, b0 :: b => dot_rest (add32 sum (mul32 a0 b0)) a b | _, _ => sum end.
Fixpoint dot_from (sum : spec_float) (a b : list spec_float) : spec_float :=
  match a, b with
  | a0 :: a1 :: a2 :: a3 :: a', b0 :: b1 :: b2 :: b3 :: b' =>
      dot_from (add32 sum (add32 (add32 (add32 (mul32 a0 b0) (mul32 a1 b1)) (mul32 a2 b2)) (mul32 a3 b3))) a' b'
  | _, _ => dot_rest sum a b
  end.
Definition dotProduct (a b : list spec_float) : spec_float := dot_from (S754_zero false) a b.

(** [math.Sin], [math.Cos] and [math.Atan2]. *)
Class Trigonometry := { Sin : spec_float -> spec_float; Cos : spec_float -> spec_float; Atan2 : spec_float -> spec_float -> spec_float }.

(** The constants, rounded to [float64]: [math.Pi / 180], [6371] and [111.32]. *)
Definition degToRad : spec_float := S754_finite false 5030569068109113 (-58).
Definition earthRadiusKm : spec_float := float64_of_Z 6371.
Definition km_per_degree : spec_float := S754_finite false 7833448601857556 (-46).
Definition two : spec_float := float64_of_Z 2.

Record geoBoundingBox := { minLat : spec_float; maxLat : spec_float; minLng : spec_float; maxLng : spec_float }.

Section Geo.
Context `{TG : Trigonometry}.

Definition haversineDistance (lat1 lng1 lat2 lng2 : spec_float) : spec_float :=
  let dLat := mul64 (sub64 lat2 lat1) degToRad in
  let dLng := mul64 (sub64 lng2 lng1) degToRad in
  let lat1Rad := mul64 lat1 degToRad in
  let lat2Rad := mul64 lat2 degToRad in
  let a := add64 (mul64 (Sin (div64 dLat two)) (Sin (div64 dLat two)))
                 (mul64 (mul64 (mul64 (Cos lat1Rad) (Cos lat2Rad)) (Sin (div64 dLng two))) (Sin (div64 dLng two))) in
  let c := mul64 two (Atan2 (SFsqrt 53 1024 a) (SFsqrt 53 1024 (sub64 (float64_of_Z 1) a))) in
  mul64 earthRadiusKm c.

Definition newGeoBoundingBox (lat lng radiusKm : spec_float) : geoBoundingBox :=
  let dLat := div64 radiusKm km_per_degree in
  let dLng := div64 radiusKm (mul64 km_per_degree (Cos (mul64 lat degToRad))) in
  {| minLat := sub64 lat dLat; maxLat := add64 lat dLat; minLng := sub64 lng dLng; maxLng := add64 lng dLng |}.

Definition box_contains (bb : geoBoundingBox) (lat lng : spec_float) : bool :=
  SFleb (minLat bb) lat && SFleb lat (maxLat bb) && SFleb (minLng bb) lng && SFleb lng (maxLng bb).

Definition evaluate_distance (lat lng : spec_float) (gf : GeoDistanceFilter) : bool :=
  let bb := newGeoBoundingBox (gf_RefLatitude gf) (gf_RefLongitude gf) (gf_RadiusKm gf) in
  let insideBox := box_contains bb lat lng in
  let distance := haversineDistance (gf_RefLatitude gf) (gf_RefLongitude gf) lat lng in
  match gf_Mode gf with
  | INSIDE => if negb insideBox then false else SFleb distance (gf_RadiusKm gf)
  | OUTSIDE => if negb insideBox then true else SFltb (gf_RadiusKm gf) distance
  | _ => SFltb (gf_RadiusKm gf) distance
  end.
End Geo.

(** ** On treasures *)

Section Native.
Context `{FI : FloatToInt} `{LC : LowerCase} `{MP : Msgpack} `{TG : Trigonometry}.

(** The decoded body: [None] when it is not a byte array, has no magic prefix or cannot be decoded. *)
Definition isMsgpackEncoded (data : bytes) : bool :=
  match data with b0 :: b1 :: _ => bool_decide (b0 = msgpackMagic0) && bool_decide (b1 = msgpackMagic1) | _ => false end.
Definition unwrapMsgpack (data : bytes) : bytes := drop 2 data.
Definition decoded_body (t : treasure) : option (list (bytes * any)) :=
  match GetContentType t with
  | ContentTypeByteArray =>
      b ← GetContentByteArray t;
      if isMsgpackEncoded b then Unmarshal (unwrapMsgpack b) else None
  | _ => None
  end.

Definition evaluateNativeBytesFieldFilter (t : treasure) (filter : TreasureFilter) : bool :=
  match decoded_body t with
  | None => bool_decide (tf_Operator filter = IS_EMPTY)
  | Some decoded => evaluateBytesFieldFilterAgainstMap decoded filter
  end.

(** A getter that fails answers false. *)
Definition compared {A} (O : ordered A) (v : option A) (op : Operator) (ref : A) : bool :=
  match v with Some v => compareOrdered O v op ref | None => false end.
Definition when_type (t : treasure) (ct : ContentType) (b : bool) : bool := if decide (GetContentType t = ct) then b else false.

Definition nativeFieldIsEmpty (t : treasure) (filter : TreasureFilter) : bool :=
  let other ct := bool_decide (GetContentType t <> ct) in
  match tf_CompareValue filter with
  | Int8Val _ => other ContentTypeInt8
  | Int16Val _ => other ContentTypeInt16
  | Int32Val _ => other ContentTypeInt32
  | Int64Val _ => other ContentTypeInt64
  | Uint8Val _ => other ContentTypeUint8
  | Uint16Val _ => other ContentTypeUint16
  | Uint32Val _ => other ContentTypeUint32
  | Uint64Val _ => other ContentTypeUint64
  | Float32Val _ => other ContentTypeFloat32
  | Float64Val _ => other ContentTypeFloat64
  | StringVal _ =>
      if other ContentTypeString then true
      else match GetContentString t with Some s => bool_decide (s = []) | None => true end
  | BoolVal _ => other ContentTypeBoolean
  | CreatedAtVal _ => GetCreatedAt t =? 0
  | UpdatedAtVal _ => GetModifiedAt t =? 0
  | ExpiredAtVal _ => GetExpirationTime t =? 0
  | NoVal => true
  end.

Definition evaluateNativeSingleFilter (t : treasure) (filter : TreasureFilter) : bool :=
  let op := tf_Operator filter in
  if decide (is_Some (tf_BytesFieldPath filter)) then evaluateNativeBytesFieldFilter t filter else
  if decide (op = IS_EMPTY) then nativeFieldIsEmpty t filter else
  if decide (op = IS_NOT_EMPTY) then negb (nativeFieldIsEmpty t filter) else
  match tf_CompareValue filter with
  | Int8Val ref => when_type t ContentTypeInt8 (compared ints (GetContentInt8 t) op ref)
  | Int16Val ref => when_type t ContentTypeInt16 (compared ints (GetContentInt16 t) op ref)
  | Int32Val ref => when_type t ContentTypeInt32 (compared ints (GetContentInt32 t) op ref)
  | Int64Val ref => when_type t ContentTypeInt64 (compared ints (GetContentInt64 t) op ref)
  | Uint8Val ref => when_type t ContentTypeUint8 (compared ints (GetContentUint8 t) op ref)
  | Uint16Val ref => when_type t ContentTypeUint16 (compared ints (GetContentUint16 t) op ref)
  | Uint32Val ref => when_type t ContentTypeUint32 (compared ints (GetContentUint32 t) op ref)
  | Uint64Val ref => when_type t ContentTypeUint64 (compared ints (GetContentUint64 t) op ref)
  | Float32Val ref => when_type t ContentTypeFloat32 (compared floats (GetContentFloat32 t) op ref)
  | Float64Val ref => when_type t ContentTypeFloat64 (compared floats (GetContentFloat64 t) op ref)
  | StringVal ref =>
      when_type t ContentTypeString (match GetContentString t with Some s => compareString s op ref | None => false end)
  | BoolVal ref =>
      when_type t ContentTypeBoolean (match GetContentBool t with Some b => compareBoolRaw b op (is_true ref) | None => false end)
  | CreatedAtVal ref => compareNativeTimestamp (GetCreatedAt t) op ref
  | UpdatedAtVal ref => compareNativeTimestamp (GetModifiedAt t) op ref
  | ExpiredAtVal ref => compareNativeTimestamp (GetExpirationTime t) op ref
  | NoVal => false
  end.

(** The positions of a word, in order. *)
Definition positions_of (word : bytes) (wordIndex : list (bytes * any)) : option (list Z) :=
  posVal ← map_get word wordIndex;
  match merge_sort Z.le (toInt64Slice posVal) with [] => None | ps => Some ps end.

Definition evaluateNativePhraseFilter (t : treasure) (pf : PhraseFilter) : bool :=
  match pf_Words pf with
  | [] => true
  | words =>
      match decoded_body t with
      | None => pf_Negate pf
      | Some decoded =>
          match extractFieldByPath decoded (pf_BytesFieldPath pf) with
          | Plain (AMap wordIndex) =>
              match mapM (fun word => positions_of word wordIndex) words with
              | None => pf_Negate pf
              | Some wordPositions => xorb (pf_Negate pf) (hasConsecutivePositions wordPositions)
              end
          | _ => pf_Negate pf
          end
      end
  end.

Definition evaluateNativeVectorFilterWithScore (t : treasure) (vf : VectorFilter) : bool * spec_float :=
  let zero := S754_zero false in
  match vf_QueryVector vf with
  | [] => (true, zero)
  | query =>
      match decoded_body t with
      | None => (false, zero)
      | Some decoded =>
          let storedVector := toFloat32Slice (as_value (extractFieldByPath decoded (vf_BytesFieldPath vf))) in
          if decide (storedVector = [] \/ length storedVector <> length query) then (false, zero) else
          let similarity := dotProduct storedVector query in
          (SFleb (vf_MinSimilarity vf) similarity, similarity)
      end
  end.
Definition evaluateNativeVectorFilter (t : treasure) (vf : VectorFilter) : bool :=
  match vf_QueryVector vf with
  | [] => true
  | query =>
      match decoded_body t with
      | None => false
      | Some decoded =>
          let storedVector := toFloat32Slice (as_value (extractFieldByPath decoded (vf_BytesFieldPath vf))) in
          if decide (storedVector = [] \/ length storedVector <> length query) then false
          else SFleb (vf_MinSimilarity vf) (dotProduct storedVector query)
      end
  end.

Definition evaluateNativeGeoDistanceFilter (t : treasure) (gf : GeoDistanceFilter) : bool :=
  match decoded_body t with
  | None => false
  | Some decoded =>
      match toFloat64 (as_value (extractFieldByPath decoded (gf_LatFieldPath gf))),
            toFloat64 (as_value (extractFieldByPath decoded (gf_LngFieldPath gf))) with
      | Some lat, Some lng =>
          if SFeqb lat (S754_zero false) && SFeqb lng (S754_zero false) then false else evaluate_distance lat lng gf
      | _, _ => false
      end
  end.

Definition evaluateNativeNestedSliceWhereFilter (t : treasure) (nf : NestedSliceWhereFilter) : bool :=
  match decoded_body t with
  | None => let '(NestedSliceWhere evalMode _ _ _ _ countOperator countValue) := nf in no_elements evalMode countOperator countValue
  | Some decoded => evaluateNestedSliceWhereAgainstMap decoded nf
  end.

(** ** Groups *)

(** [evaluateFilterGroupWith], on what the callbacks answer. *)
Definition evaluateFilterGroupWith (logic : FilterLogic) (filters subGroups phrases vectors distances nested : list bool) : bool :=
  match filters, subGroups, phrases, vectors, distances, nested with
  | [], [], [], [], [], [] => true
  | _, _, _, _, _, _ =>
      let legs := filters ++ subGroups ++ phrases ++ vectors ++ distances ++ nested in
      if decide (logic = OR) then existsb id legs else forallb id legs
  end.

Fixpoint evaluate_group (t : treasure) (group : FilterGroup) : bool :=
  match group with
  | Group logic filters subGroups phrases vectors distances nested =>
      evaluateFilterGroupWith logic
        (map (evaluateNativeSingleFilter t) filters)
        (map (evaluate_group t) subGroups)
        (map (evaluateNativePhraseFilter t) phrases)
        (map (evaluateNativeVectorFilter t) vectors)
        (map (evaluateNativeGeoDistanceFilter t) distances)
        (map (evaluateNativeNestedSliceWhereFilter t) nested)
  end.
Definition evaluateNativeFilterGroup (t : treasure) (group : option FilterGroup) : bool :=
  match group with None => true | Some g => evaluate_group t g end.

(** *** With the labels of what matched *)

Record filterMatchMeta := { vectorScores : list spec_float; matchedLabels : list bytes }.
Definition no_meta : filterMatchMeta := {| vectorScores := []; matchedLabels := [] |}.
Definition add_meta (a b : filterMatchMeta) : filterMatchMeta :=
  {| vectorScores := vectorScores a ++ vectorScores b; matchedLabels := matchedLabels a ++ matchedLabels b |}.

(** The label of a leg that matched. *)
Definition label_meta (label : option bytes) : filterMatchMeta :=
  match label with Some ((_ :: _) as l) => {| vectorScores := []; matchedLabels := [l] |} | _ => no_meta end.
Definition when_matched (matched : bool) (m : filterMatchMeta) : bool * filterMatchMeta :=
  (matched, if matched then m else no_meta).

(** The legs in order, up to the first that fails. *)
Fixpoint all_legs (legs : list (bool * filterMatchMeta)) : bool * filterMatchMeta :=
  match legs with
  | [] => (true, no_meta)
  | (matched, m) :: legs =>
      if matched then let '(b, m') := all_legs legs in (b, add_meta m m') else (false, m)
  end.
(** All legs. *)
Fixpoint any_leg (legs : list (bool * filterMatchMeta)) : bool * filterMatchMeta :=
  match legs with
  | [] => (false, no_meta)
  | (matched, m) :: legs => let '(b, m') := any_leg legs in (matched || b, add_meta m m')
  end.

Definition evaluateFilterGroupWithMeta (logic : FilterLogic)
    (filters subGroups phrases vectors distances nested : list (bool * filterMatchMeta)) : bool * filterMatchMeta :=
  match filters, subGroups, phrases, vectors, distances, nested with
  | [], [], [], [], [], [] => (true, no_meta)
  | _, _, _, _, _, _ =>
      let legs := filters ++ subGroups ++ phrases ++ vectors ++ distances ++ nested in
      if decide (logic = OR) then any_leg legs else all_legs legs
  end.

Definition labelled {A} (evaluate : A -> bool) (label : A -> option bytes) (x : A) : bool * filterMatchMeta :=
  when_matched (evaluate x) (label_meta (label x)).

Fixpoint evaluate_group_meta (t : treasure) (group : FilterGroup) : bool * filterMatchMeta :=
  match group with
  | Group logic filters subGroups phrases vectors distances nested =>
      evaluateFilterGroupWithMeta logic
        (map (labelled (evaluateNativeSingleFilter t) tf_Label) filters)
        (map (fun sg => let '(matched, m) := evaluate_group_meta t sg in when_matched matched m) subGroups)
        (map (labelled (evaluateNativePhraseFilter t) pf_Label) phrases)
        (map (fun vf => let '(matched, score) := evaluateNativeVectorFilterWithScore t vf in
                when_matched matched (add_meta {| vectorScores := [score]; matchedLabels := [] |} (label_meta (vf_Label vf)))) vectors)
        (map (labelled (evaluateNativeGeoDistanceFilter t) gf_Label) distances)
        (map (labelled (evaluateNativeNestedSliceWhereFilter t) nf_Label) nested)
  end.
Definition evaluateNativeFilterGroupWithMeta (t : treasure) (group : option FilterGroup) : bool * filterMatchMeta :=
  match group with None => (true, no_meta) | Some g => evaluate_group_meta t g end.

Definition has_label (label : option bytes) : bool := match label with Some (_ :: _) => true | _ => false end.
Fixpoint group_has_labels (group : FilterGroup) : bool :=
  match group with
  | Group _ filters subGroups phrases vectors distances nested =>
      negb (bool_decide (vectors = [])) || existsb (fun f => has_label (tf_Label f)) filters
      || existsb (fun pf => has_label (pf_Label pf)) phrases || existsb (fun gf => has_label (gf_Label gf)) distances
      || existsb (fun nf => has_label (nf_Label nf)) nested || existsb group_has_labels subGroups
  end.
Definition hasAnyLabels (group : option FilterGroup) : bool :=
  match group with None => false | Some g => group_has_labels g end.

(** ** Profiles: a treasure per field *)

Section Profile.
Variable treasures : gmap bytes treasure.

(** The treasure a leg names: [None] for no name. *)
Definition on_treasure (key : option bytes) (unnamed missing : bool) (evaluate : treasure -> bool) : bool :=
  match key with
  | None | Some [] => unnamed
  | Some k => match treasures !! k with Some t => evaluate t | None => missing end
  end.

Fixpoint evaluate_profile_group (group : FilterGroup) : bool :=
  match group with
  | Group logic filters subGroups phrases vectors distances nested =>
      evaluateFilterGroupWith logic
        (map (fun f => on_treasure (tf_TreasureKey f) false (bool_decide (tf_Operator f = IS_EMPTY))
                         (fun t => evaluateNativeSingleFilter t f)) filters)
        (map evaluate_profile_group subGroups)
        (map (fun pf => on_treasure (pf_TreasureKey pf) false (pf_Negate pf)
                          (fun t => evaluateNativePhraseFilter t pf)) phrases)
        (map (fun vf => on_treasure (vf_TreasureKey vf) false false (fun t => evaluateNativeVectorFilter t vf)) vectors)
        (map (fun gf => on_treasure (gf_TreasureKey gf) true false (fun t => evaluateNativeGeoDistanceFilter t gf)) distances)
        (map (fun nf => on_treasure (nf_TreasureKey nf) false
                          (let '(NestedSliceWhere evalMode _ _ _ _ countOperator countValue) := nf in
                           no_elements evalMode countOperator countValue)
                          (fun t => evaluateNativeNestedSliceWhereFilter t nf)) nested)
  end.
Definition evaluateNativeProfileFilterGroup (group : option FilterGroup) : bool :=
  match group with None => true | Some g => evaluate_profile_group g end.
End Profile.
End Native.
