(* ===== verification/Planner.v ===== *)
(** From a filter to lookups in the field indexes: [server/gateway/bucket_planner.go] and
    [bucket_exec.go]. *)
From Stdlib Require Import Floats.SpecFloat.
From S2P Require Import Prelude Steps Types Compressor Block FileSys Reader Contents Log Session.
From S2P Require Import Meta Chronicler Swamp Gateway Guard Treasure Beacon Canon Bucket Text Filters.
#[local] Set Warnings "-register-all,-clear-no-such-hyp".

(** ** Plans *)

Inductive PlanMode : Type := PlanModeBypass | PlanModeAnd | PlanModeOrUnion.
Inductive HintOp : Type := HintEqual | HintIn.
Record BucketHint := { FieldPath : bytes; Op : HintOp; Values : list any }.
Record Plan := { Mode : PlanMode; Hints : list BucketHint; Residual : option FilterGroup }.

Definition bypass : Plan := {| Mode := PlanModeBypass; Hints := []; Residual := None |}.

Definition compareValueToAny (f : TreasureFilter) : option any :=
  match tf_CompareValue f with
  | Int8Val z | Int16Val z | Int32Val z | Int64Val z => Some (AInt W64 z)
  | Uint8Val z | Uint16Val z | Uint32Val z | Uint64Val z => Some (AUint W64 z)
  | Float32Val v => Some (AFloat64 (float64_of_float32 v))
  | Float64Val v => Some (AFloat64 v)
  | StringVal s => Some (AString s)
  | BoolVal b => Some (ABool (is_true b))
  | _ => None
  end.

Definition indexableHint (f : TreasureFilter) : option BucketHint :=
  let path := default [] (tf_BytesFieldPath f) in
  let in_hint (vals : list any) :=
    match vals with [] => None | _ => Some {| FieldPath := path; Op := HintIn; Values := vals |} end in
  if decide (path = []) then None else
  match tf_Operator f with
  | EQUAL => v ← compareValueToAny f; Some {| FieldPath := path; Op := HintEqual; Values := [v] |}
  | STRING_IN => in_hint (map AString (tf_StringInVals f))
  | INT32_IN => in_hint (map (AInt W64) (tf_Int32InVals f))
  | INT64_IN => in_hint (map (AInt W64) (tf_Int64InVals f))
  | _ => None
  end.

Definition remove_nth {A} (i : nat) (l : list A) : list A := take i l ++ drop (S i) l.
Definition removeFilterAt (g : FilterGroup) (i : nat) : FilterGroup :=
  let '(Group l fs sgs ps vs gs ns) := g in Group l (remove_nth i fs) sgs ps vs gs ns.
Definition removeSubGroupAt (g : FilterGroup) (i : nat) : FilterGroup :=
  let '(Group l fs sgs ps vs gs ns) := g in Group l fs (remove_nth i sgs) ps vs gs ns.

Definition isEmptyGroup (g : FilterGroup) : bool :=
  match g with Group _ [] [] [] [] [] [] => true | _ => false end.

(** The first leg that has a hint, with its position. *)
Fixpoint first_hint (i : nat) (fs : list TreasureFilter) : option (nat * BucketHint) :=
  match fs with
  | [] => None
  | f :: fs => match indexableHint f with Some h => Some (i, h) | None => first_hint (S i) fs end
  end.

(** The first sub-plan that is a union, with its position. *)
Fixpoint first_union (i : nat) (plans : list Plan) : option (nat * list BucketHint) :=
  match plans with
  | [] => None
  | p :: plans => match Mode p with PlanModeOrUnion => Some (i, Hints p) | _ => first_union (S i) plans end
  end.

Definition planOr (g : FilterGroup) : Plan :=
  match g with
  | Group _ filters [] [] [] [] [] =>
      match mapM indexableHint filters with
      | None | Some [] => bypass
      | Some hints => {| Mode := PlanModeOrUnion; Hints := hints; Residual := None |}
      end
  | _ => bypass
  end.

Fixpoint plan_group (g : FilterGroup) : Plan :=
  if isEmptyGroup g then bypass else
  match g with
  | Group AND filters subGroups _ _ _ _ =>
      match first_hint 0 filters with
      | Some (i, hint) => {| Mode := PlanModeAnd; Hints := [hint]; Residual := Some (removeFilterAt g i) |}
      | None =>
          match first_union 0 (map plan_group subGroups) with
          | Some (i, hints) => {| Mode := PlanModeAnd; Hints := hints; Residual := Some (removeSubGroupAt g i) |}
          | None => bypass
          end
      end
  | _ => planOr g
  end.
Definition PlanFilter (g : option FilterGroup) : Plan := match g with None => bypass | Some g => plan_group g end.

(** ** Candidates *)

Definition bucketExecPreconditions (beaconType : BeaconType) : bool :=
  match beaconType with
  | BeaconTypeKey | BeaconTypeCreationTime | BeaconTypeUpdateTime | BeaconTypeExpirationTime => true
  | _ => false
  end.

(** [buildKeySet] and [candidateKeySet]: [None] is the nil map, which they return for an empty
    list. *)
Definition buildKeySet (keys : list bytes) : option (gset bytes) :=
  match keys with [] => None | _ => Some (list_to_set keys) end.

Section Candidates.
Context `{FI : FloatToInt} `{MP : Msgpack} `{SR : SlotRange}.
Context `{SI : Store} `{GM : GobModel} `{GMeta : GobMeta} `{HR : KeyRange} `{HS : SortSlice}.

Definition lookup_hint (h : BucketHint) (s : swamp) : outcome (swamp * list handle) :=
  match Op h with
  | HintEqual =>
      match Values h with [] => Next (s, []) | v :: _ => LookupByBucketEqual (FieldPath h) v s end
  | HintIn => LookupByBucketIn (FieldPath h) (Values h) s
  end.

(** The treasures whose key was not seen before. *)
Fixpoint unseen (key : handle -> bytes) (hits : list handle) (seen : gset bytes) : list handle * gset bytes :=
  match hits with
  | [] => ([], seen)
  | t :: hits =>
      if decide (key t ∈ seen) then unseen key hits seen
      else let '(out, seen) := unseen key hits ({[key t]} ∪ seen) in (t :: out, seen)
  end.

Definition handle_key (s : swamp) (h : handle) : bytes := GetKey (look (deref s) h).

Fixpoint union_hints (hints : list BucketHint) (seen : gset bytes) (s : swamp) : outcome (swamp * list handle) :=
  match hints with
  | [] => Next (s, [])
  | h :: hints =>
      let! (s, hits) := lookup_hint h s in
      let '(out, seen) := unseen (handle_key s) hits seen in
      let! (s, rest) := union_hints hints seen s in
      Next (s, out ++ rest)
  end.

Definition collectBucketCandidates (hints : list BucketHint) (s : swamp) : outcome (swamp * list handle) :=
  match hints with
  | [] => Next (s, [])
  | [h] => lookup_hint h s
  | _ => union_hints hints ∅ s
  end.

(** ** Time, order, page *)

Definition beaconTimeOf (t : treasure) (beaconType : BeaconType) : Z :=
  match beaconType with
  | BeaconTypeCreationTime => GetCreatedAt t
  | BeaconTypeUpdateTime => GetModifiedAt t
  | BeaconTypeExpirationTime => GetExpirationTime t
  | _ => 0
  end.

(** Within [fromTime, toTime), where a bound is there. *)
Definition in_bounds (fromTime toTime : option Z) (ts : Z) : bool :=
  match fromTime with Some from => UnixNano from <=? ts | None => true end &&
  match toTime with Some to_ => ts <? UnixNano to_ | None => true end.

Definition applyTimeRange (beaconType : BeaconType) (fromTime toTime : option Z) (candidates : list treasure) : list treasure :=
  match fromTime, toTime with
  | None, None => candidates
  | _, _ => filter (fun t => in_bounds fromTime toTime (beaconTimeOf t beaconType)) candidates
  end.

(** [sort.SliceStable] *)
Definition sortCandidates (beaconType : BeaconType) (order : BeaconOrder) (candidates : list treasure) : list treasure :=
  let desc := match order with IndexOrderDesc => true | _ => false end in
  let by_less (less : treasure -> treasure -> bool) :=
    sort_stable (fun a b => if desc then less b a else less a b) [] candidates in
  match beaconType with
  | BeaconTypeKey => by_less (fun a b => bytes_lt (GetKey a) (GetKey b))
  | BeaconTypeCreationTime | BeaconTypeUpdateTime | BeaconTypeExpirationTime =>
      by_less (fun a b => beaconTimeOf a beaconType <? beaconTimeOf b beaconType)
  | _ => candidates
  end.

Definition candidateKeySet (candidates : list treasure) : option (gset bytes) := buildKeySet (map GetKey candidates).

Definition applyFromLimit {A} (from limit : Z) (candidates : list A) : list A :=
  let from := Z.max 0 from in
  if Z.of_nat (length candidates) <=? from then [] else
  let rest := drop (Z.to_nat from) candidates in
  if (0 <? limit) && (limit <? Z.of_nat (length rest)) then take (Z.to_nat limit) rest else rest.
End Candidates.
