(* ===== verification/GatewaySearch.v ===== *)
(** The handlers of the gateway that read or take treasures by an index, with filters:
    [GetByIndex], [GetByKeys], [GetAll], [GetByIndexStream] and [GetStream] of [gateway.go],
    [gateway_shift_matching.go], and the selection of [gateway_patch_expired.go], on a swamp
    that is summoned.  What a stream sends is a list. *)
From S2P Require Import Prelude Steps Types Compressor Block FileSys Reader Contents Log Session.
From S2P Require Import Meta Chronicler Swamp Gateway Guard Treasure Beacon Canon Bucket Text Filters Planner.
#[local] Set Warnings "-register-all,-clear-no-such-hyp".

(** ** Requests *)

Record IndexRequest := {
  ir_IndexType : IndexType; ir_OrderType : OrderType; ir_From : Z; ir_Limit : Z;
  ir_FromTime : option Timestamp; ir_ToTime : option Timestamp; ir_Filters : option FilterGroup;
  ir_MaxResults : Z; ir_ExcludeKeys : list bytes; ir_KeysOnly : bool; ir_IncludedKeys : list bytes
}.
Record ShiftMatchingRequest := {
  sr_IndexType : IndexType; sr_OrderType : OrderType; sr_HowMany : Z; sr_MaxResults : Z;
  sr_FromTime : option Timestamp; sr_ToTime : option Timestamp; sr_Filters : option FilterGroup;
  sr_Cap : option (option FilterGroup * Z)       (* the filter and the maximum *)
}.

Definition parseOptionalTimestamps (from to_ : option Timestamp) : option Z * option Z := (AsTime <$> from, AsTime <$> to_).

(** ** Time bounds of a selection *)

Definition timestampExtractorFor (b : BeaconType) : option (treasure -> Z) :=
  match b with
  | BeaconTypeCreationTime => Some GetCreatedAt
  | BeaconTypeUpdateTime => Some GetModifiedAt
  | BeaconTypeExpirationTime => Some GetExpirationTime
  | _ => None
  end.
Definition timeBoundsNanos (from to_ : option Z) : Z * Z :=
  (match from with Some f => UnixNano f | None => - 2 ^ 63 end, match to_ with Some t => UnixNano t | None => 2 ^ 63 - 1 end).
Definition inTimeRange (ts fromNano toNano : Z) : bool := (fromNano <=? ts) && (ts <? toNano).

Section Search.
Context `{SI : Store} `{GM : GobModel} `{GMeta : GobMeta} `{FI : FloatToInt} `{MP : Msgpack} `{SR : SlotRange}.
Context `{HR : KeyRange} `{HS : SortSlice} `{LC : LowerCase} `{TG : Trigonometry}.

(** ** Answers *)

Definition key_only (key : bytes) : pb_Treasure :=
  let e := empty_pb key in
  {| o_Key := key; o_IsExist := true; o_Int8Val := o_Int8Val e; o_Int16Val := o_Int16Val e; o_Int32Val := o_Int32Val e;
     o_Int64Val := o_Int64Val e; o_Uint8Val := o_Uint8Val e; o_Uint16Val := o_Uint16Val e;
     o_Uint32Val := o_Uint32Val e; o_Uint64Val := o_Uint64Val e; o_Float32Val := o_Float32Val e;
     o_Float64Val := o_Float64Val e; o_StringVal := o_StringVal e; o_BoolVal := o_BoolVal e;
     o_BytesVal := o_BytesVal e; o_Uint32Slice := o_Uint32Slice e; o_CreatedAt := o_CreatedAt e;
     o_CreatedBy := o_CreatedBy e; o_UpdatedAt := o_UpdatedAt e; o_UpdatedBy := o_UpdatedBy e; o_ExpiredAt := o_ExpiredAt e |}.

Definition to_pb (keysOnly : bool) (t : treasure) : outcome pb_Treasure :=
  if keysOnly then Next (key_only (GetKey t)) else of_panic (treasureToKeyValuePair t).

(** The two key lists of a request. *)
Definition key_admitted (r : IndexRequest) (key : bytes) : bool :=
  match buildKeySet (ir_IncludedKeys r) with Some included => bool_decide (key ∈ included) | None => true end &&
  match buildKeySet (ir_ExcludeKeys r) with Some excluded => negb (bool_decide (key ∈ excluded)) | None => true end.

Fixpoint all_next {A} (os : list (outcome A)) : outcome (list A) :=
  match os with
  | [] => Next []
  | o :: os => let! a := o in let! rest := all_next os in Next (a :: rest)
  end.

(** [GetByIndex]; [None] is an error of the swamp. *)
Definition gateway_GetByIndex (now : Z) (r : IndexRequest) : swamp -> outcome (swamp * option (list pb_Treasure)) :=
  vigilant (fun s =>
    let '(fromTime, toTime) := parseOptionalTimestamps (ir_FromTime r) (ir_ToTime r) in
    match GetTreasuresByBeacon now (inputIndexTypeToBeaconType (ir_IndexType r)) (inputOrderTypeToBeaconOrderType (ir_OrderType r))
            (ir_From r) (ir_Limit r) fromTime toTime s with
    | (_, None) => Panic
    | (s, Some None) => Next (s, None)
    | (s, Some (Some xs)) =>
        let admitted := filter (fun t => key_admitted r (GetKey t)) (map (deref s) xs) in
        let! response := all_next (map (to_pb (ir_KeysOnly r)) admitted) in Next (s, Some response)
    end).

Definition gateway_GetByKeys (now : Z) (keys : list bytes) (r : IndexRequest) (s : swamp) : outcome (swamp * list pb_Treasure) :=
  match keys with
  | [] => Next (s, [])
  | _ =>
      vigilant (fun s =>
        let '(s, xs) := GetTreasuresByKeys now keys s in
        let admitted := filter (fun t => key_admitted r (GetKey t)) (map (deref s) xs) in
        let! response := all_next (map (to_pb (ir_KeysOnly r)) admitted) in Next (s, response)) s
  end.

(** [GetAll]: ranges over a map. *)
Definition gateway_GetAll (now : Z) : swamp -> outcome (swamp * list pb_Treasure) :=
  vigilant (fun s =>
    let '(s, all) := swamp_GetAll now s in
    let! response := all_next (map (fun x => to_pb false (deref s x)) (key_range (default ∅ all)).*2) in
    Next (s, response)).

(** ** [GetByIndexStream] *)

(** The treasures the stream goes through, in order, and the filter that is left. *)
Definition stream_candidates (now : Z) (r : IndexRequest) (s : swamp) :
    outcome (swamp * option (list treasure * option FilterGroup)) :=
  let '(fromTime, toTime) := parseOptionalTimestamps (ir_FromTime r) (ir_ToTime r) in
  let beaconType := inputIndexTypeToBeaconType (ir_IndexType r) in
  let order := inputOrderTypeToBeaconOrderType (ir_OrderType r) in
  let plan := PlanFilter (ir_Filters r) in
  let beacon_walk :=
    match GetTreasuresByBeacon now beaconType order (ir_From r) (ir_Limit r) fromTime toTime s with
    | (_, None) => Panic
    | (s, Some None) => Next (s, None)
    | (s, Some (Some xs)) => Next (s, Some (map (deref s) xs, ir_Filters r))
    end in
  match Mode plan with
  | PlanModeBypass => beacon_walk
  | _ =>
      if bucketExecPreconditions beaconType then
        let! (s, hits) := collectBucketCandidates (Hints plan) s in
        let candidates := applyTimeRange beaconType fromTime toTime (map (look (deref s)) hits) in
        let candidates := sortCandidates beaconType order candidates in
        Next (s, Some (applyFromLimit (ir_From r) (ir_Limit r) candidates, Residual plan))
      else beacon_walk
  end.

(** One treasure of the stream: [None] when it is passed over. *)
Definition stream_match (r : IndexRequest) (residual : option FilterGroup) (t : treasure) : option filterMatchMeta :=
  if negb (key_admitted r (GetKey t)) then None else
  let '(matched, m) :=
    if hasAnyLabels residual then evaluateNativeFilterGroupWithMeta t residual
    else (evaluateNativeFilterGroup t residual, no_meta) in
  if matched : bool then Some m else None.

(** At most [MaxResults] matches, when it is positive. *)
Definition at_most {A} (maxResults : Z) (l : list A) : list A := if 0 <? maxResults then take (Z.to_nat maxResults) l else l.

Definition stream_matches (r : IndexRequest) (residual : option FilterGroup) (ts : list treasure) : list (treasure * filterMatchMeta) :=
  at_most (ir_MaxResults r) (omap (fun t => (fun m => (t, m)) <$> stream_match r residual t) ts).

Definition gateway_GetByIndexStream (now : Z) (r : IndexRequest) :
    swamp -> outcome (swamp * option (list (pb_Treasure * filterMatchMeta))) :=
  vigilant (fun s =>
    let! (s, found) := stream_candidates now r s in
    match found with
    | None => Next (s, None)
    | Some (ts, residual) =>
        let! sent := all_next (map (fun '(t, m) => let! pb := to_pb (ir_KeysOnly r) t in Next (pb, m)) (stream_matches r residual ts)) in
        Next (s, Some sent)
    end).

(** ** [GetStream], one profile *)

Fixpoint profile_treasures (now : Z) (keys : list bytes) (s : swamp) : swamp * gmap bytes treasure :=
  match keys with
  | [] => (s, ∅)
  | k :: keys =>
      let '(s, o) := GetTreasure now k s in
      let '(s, rest) := profile_treasures now keys s in
      (s, match o with Some x => <[k := deref s x]> rest | None => rest end)
  end.

(** [None] when the profile does not match. *)
Definition gateway_profile (now : Z) (keys : list bytes) (filters : option FilterGroup) :
    swamp -> outcome (swamp * option (list pb_Treasure)) :=
  vigilant (fun s =>
    let '(s, nativeTreasures) := profile_treasures now keys s in
    if evaluateNativeProfileFilterGroup nativeTreasures filters then
      let! ts := all_next (map (fun k => match nativeTreasures !! k with
                                         | Some t => to_pb false t | None => Next (empty_pb k) end) keys) in
      Next (s, Some ts)
    else Next (s, None)).

(** ** Selections *)

(** [buildCapPredicate]: [None] is an error. *)
Definition buildCapPredicate (cap : option (option FilterGroup * Z)) : option (option (treasure -> bool) * Z) :=
  match cap with
  | None => Some (None, 0)
  | Some (filter, max) =>
      if max <=? 0 then None else
      match filter with
      | None => None
      | Some g => Some (Some (fun t => evaluateNativeFilterGroup t (Some g)), max)
      end
  end.

(** [buildShiftMatchingPredicate] *)
Definition buildShiftMatchingPredicate (beaconType : BeaconType) (filters : option FilterGroup)
    (fromTime toTime : option Z) (s : swamp) : outcome (swamp * (treasure -> bool)) :=
  let '(fromNano, toNano) := timeBoundsNanos fromTime toTime in
  let in_time : treasure -> bool :=
    match timestampExtractorFor beaconType, fromTime, toTime with
    | None, _, _ | Some _, None, None => fun _ => true
    | Some getTs, _, _ => fun t => inTimeRange (getTs t) fromNano toNano
    end in
  match filters with
  | None => Next (s, in_time)
  | Some _ =>
      let plan := PlanFilter filters in
      let! (s, keySet, filterEval) :=
        match Mode plan with
        | PlanModeBypass => Next (s, None, filters)
        | _ =>
            let! (s, hits) := collectBucketCandidates (Hints plan) s in
            Next (s, candidateKeySet (map (look (deref s)) hits), Residual plan)
        end in
      Next (s, fun t =>
        in_time t &&
        match keySet with Some keys => bool_decide (GetKey t ∈ (keys : gset bytes)) | None => true end &&
        evaluateNativeFilterGroup t filterEval)
  end.

(** [shiftMatchingOneSwamp]: the treasures and [capReached]. *)
Definition shiftMatchingOneSwamp (now : Z) (r : ShiftMatchingRequest) (s : swamp) :
    outcome (swamp * option (list pb_Treasure * bool)) :=
  match buildCapPredicate (sr_Cap r) with
  | None => Next (s, None)
  | Some (capPred, capMax) =>
      vigilant (fun s =>
        let beaconType := inputIndexTypeToBeaconType (sr_IndexType r) in
        let order := inputOrderTypeToBeaconOrderType (sr_OrderType r) in
        let howMany := if sr_HowMany r =? 0 then 1000000000 else sr_HowMany r in
        let howMany := if (0 <? sr_MaxResults r) && (sr_MaxResults r <? howMany) then sr_MaxResults r else howMany in
        let '(fromTime, toTime) := parseOptionalTimestamps (sr_FromTime r) (sr_ToTime r) in
        let! (s, predicate) := buildShiftMatchingPredicate beaconType (sr_Filters r) fromTime toTime s in
        let! (s, shifted) :=
          CloneAndDeleteMatchingTreasures now beaconType order howMany (Some (fun x => predicate (deref s x)))
            ((fun p x => p (deref s x)) <$> capPred) capMax s in
        match shifted with
        | None => Next (s, None)
        | Some (ts, capReached) => let! response := answer ts in Next (s, Some (response, capReached))
        end) s
  end.

(** [buildPatchExpiredSelectionPredicate]; [None] for no filters. *)
Definition buildPatchExpiredSelectionPredicate (filters : option FilterGroup) (s : swamp) :
    outcome (swamp * option (treasure -> bool)) :=
  match filters with
  | None => Next (s, None)
  | Some _ =>
      let plan := PlanFilter filters in
      match Mode plan with
      | PlanModeBypass => Next (s, Some (fun t => evaluateNativeFilterGroup t filters))
      | _ =>
          let! (s, hits) := collectBucketCandidates (Hints plan) s in
          let keys := default ∅ (candidateKeySet (map (look (deref s)) hits)) in
          Next (s, Some (fun t => bool_decide (GetKey t ∈ (keys : gset bytes)) && evaluateNativeFilterGroup t (Residual plan)))
      end
  end.
End Search.
