(* ===== verification/Plans.v ===== *)
(** What filters mean and what a plan keeps of it: the lemmas behind the theorems on searches.

    [matched_meta] and [leg_of] are the declarative readings: the labels of every leg that
    matched, and the legs a plan turned into lookups. *)
From Stdlib Require Import Floats.SpecFloat Sorting.Sorted.
From stdpp Require Import sorting.
From S2P Require Import Prelude Steps Types Compressor Block FileSys Reader Contents Log Session.
From S2P Require Import Meta Chronicler Swamp Gateway Guard Treasure Beacon Canon Bucket Text Filters Planner GatewaySearch.
#[local] Set Warnings "-register-all,-clear-no-such-hyp".

(** ** Induction over the sub-groups *)

Section GroupInd.
Variable P : FilterGroup -> Prop.
Hypothesis step : forall l fs sgs ps vs gs ns, Forall P sgs -> P (Group l fs sgs ps vs gs ns).

Fixpoint group_ind (g : FilterGroup) : P g :=
  match g with
  | Group l fs sgs ps vs gs ns =>
      step l fs sgs ps vs gs ns
        ((fix all (sgs : list FilterGroup) : Forall P sgs :=
            match sgs with
            | [] => List.Forall_nil P
            | sg :: sgs => List.Forall_cons P sg sgs (group_ind sg) (all sgs)
            end) sgs)
  end.
End GroupInd.

(** ** Legs *)

Lemma forallb_id_app l l' : forallb id (l ++ l') = forallb id l && forallb id l'.
Proof. apply forallb_app. Qed.
Lemma existsb_id_app l l' : existsb id (l ++ l') = existsb id l || existsb id l'.
Proof. apply existsb_app. Qed.

(** The legs of a group without the test for an empty one. *)
Definition legs_value (logic : FilterLogic) (legs : list bool) : bool :=
  if decide (logic = OR) then existsb id legs else forallb id legs.

Lemma evaluateFilterGroupWith_legs logic a b c d e f :
  logic <> OR \/ a ++ b ++ c ++ d ++ e ++ f <> [] ->
  evaluateFilterGroupWith logic a b c d e f = legs_value logic (a ++ b ++ c ++ d ++ e ++ f).
Proof.
  intros H. destruct a, b, c, d, e, f; try done. cbn. unfold legs_value.
  case_decide; [|done]. naive_solver.
Qed.

Lemma evaluateFilterGroupWithMeta_legs logic a b c d e f :
  logic <> OR \/ a ++ b ++ c ++ d ++ e ++ f <> [] ->
  evaluateFilterGroupWithMeta logic a b c d e f =
    (if decide (logic = OR) then any_leg else all_legs) (a ++ b ++ c ++ d ++ e ++ f).
Proof.
  intros H. unfold evaluateFilterGroupWithMeta. case_decide as Hl; [|by destruct a, b, c, d, e, f].
  destruct a, b, c, d, e, f; try done. naive_solver.
Qed.

(** ** Labels *)

Lemma add_meta_empty_l m : add_meta no_meta m = m.
Proof. by destruct m. Qed.
Lemma add_meta_empty_r m : add_meta m no_meta = m.
Proof. destruct m. unfold add_meta, no_meta. cbn. by rewrite !app_nil_r. Qed.

(** The labels of a list of legs, those that did not match have none. *)
Definition all_meta (legs : list (bool * filterMatchMeta)) : filterMatchMeta :=
  foldr (fun leg m => add_meta leg.2 m) no_meta legs.

Lemma any_leg_spec legs : any_leg legs = (existsb id legs.*1, all_meta legs).
Proof. induction legs as [|[b m] legs IH]; cbn; [done|]. by rewrite IH. Qed.

Lemma all_legs_spec legs :
  (all_legs legs).1 = forallb id legs.*1 /\
  ((all_legs legs).1 = true -> (all_legs legs).2 = all_meta legs).
Proof.
  induction legs as [|[b m] legs [IH1 IH2]]; cbn; [done|]. destruct b; cbn; [|done].
  destruct (all_legs legs) as [b' m']. cbn in *. split; [done|]. intros ->. by rewrite IH2.
Qed.

Section Meaning.
Context `{FI : FloatToInt} `{LC : LowerCase} `{MP : Msgpack} `{TG : Trigonometry}.

Lemma vector_score t vf : (evaluateNativeVectorFilterWithScore t vf).1 = evaluateNativeVectorFilter t vf.
Proof.
  unfold evaluateNativeVectorFilterWithScore, evaluateNativeVectorFilter.
  destruct (vf_QueryVector vf); [done|]. destruct (decoded_body t); [|done]. cbn zeta. by case_decide.
Qed.

(** What a leg that matched adds, and one that did not. *)
Definition leg_meta {A} (evaluate : A -> bool) (label : A -> option bytes) (x : A) : filterMatchMeta :=
  if evaluate x then label_meta (label x) else no_meta.
Definition vector_meta (t : treasure) (vf : VectorFilter) : filterMatchMeta :=
  if evaluateNativeVectorFilter t vf then
    add_meta {| vectorScores := [(evaluateNativeVectorFilterWithScore t vf).2]; matchedLabels := [] |} (label_meta (vf_Label vf))
  else no_meta.
Definition concat_meta {A} (f : A -> filterMatchMeta) (l : list A) : filterMatchMeta :=
  foldr (fun x m => add_meta (f x) m) no_meta l.

(** The scores and labels of all legs that match, in the order of the message; a sub-group that
    does not match adds nothing. *)
Fixpoint matched_meta (t : treasure) (group : FilterGroup) : filterMatchMeta :=
  match group with
  | Group _ filters subGroups phrases vectors distances nested =>
      add_meta (concat_meta (leg_meta (evaluateNativeSingleFilter t) tf_Label) filters)
     (add_meta (concat_meta (fun sg => if evaluate_group t sg then matched_meta t sg else no_meta) subGroups)
     (add_meta (concat_meta (leg_meta (evaluateNativePhraseFilter t) pf_Label) phrases)
     (add_meta (concat_meta (vector_meta t) vectors)
     (add_meta (concat_meta (leg_meta (evaluateNativeGeoDistanceFilter t) gf_Label) distances)
               (concat_meta (leg_meta (evaluateNativeNestedSliceWhereFilter t) nf_Label) nested)))))
  end.

Lemma add_meta_assoc a b c : add_meta a (add_meta b c) = add_meta (add_meta a b) c.
Proof. unfold add_meta. cbn. by rewrite !(assoc_L (++)). Qed.

Lemma all_meta_app l l' : all_meta (l ++ l') = add_meta (all_meta l) (all_meta l').
Proof.
  unfold all_meta. induction l as [|[b m] l IH]; cbn; [by rewrite add_meta_empty_l|].
  by rewrite IH, add_meta_assoc.
Qed.
Lemma all_meta_map {A} (f : A -> bool * filterMatchMeta) (g : A -> filterMatchMeta) l :
  Forall (fun x => (f x).2 = g x) l -> all_meta (map f l) = concat_meta g l.
Proof. unfold all_meta, concat_meta. induction 1 as [|x l Hx _ IH]; cbn; [done|]. by rewrite Hx, IH. Qed.

Lemma labelled_fst {A} (ev : A -> bool) lab (x : A) : (labelled ev lab x).1 = ev x.
Proof. done. Qed.
Lemma map_fst_ext {A} (f : A -> bool * filterMatchMeta) (g : A -> bool) l :
  Forall (fun x => (f x).1 = g x) l -> (map f l).*1 = map g l.
Proof. induction 1 as [|x l Hx _ IH]; cbn; [done|]. by rewrite Hx, IH. Qed.
Lemma labelled_fsts {A} (ev : A -> bool) lab (l : list A) : (map (labelled ev lab) l).*1 = map ev l.
Proof. by apply map_fst_ext, Forall_true. Qed.
Lemma labelled_snds {A} (ev : A -> bool) lab (l : list A) :
  all_meta (map (labelled ev lab) l) = concat_meta (leg_meta ev lab) l.
Proof. apply all_meta_map, Forall_true. intros x. done. Qed.

Definition vector_leg t vf : bool * filterMatchMeta :=
  let '(matched, score) := evaluateNativeVectorFilterWithScore t vf in
  when_matched matched (add_meta {| vectorScores := [score]; matchedLabels := [] |} (label_meta (vf_Label vf))).
Lemma vector_leg_spec t vf : vector_leg t vf = (evaluateNativeVectorFilter t vf, vector_meta t vf).
Proof.
  unfold vector_leg, vector_meta. rewrite <-!vector_score.
  by destruct (evaluateNativeVectorFilterWithScore t vf) as [[] ?].
Qed.

Definition group_leg t sg : bool * filterMatchMeta :=
  let '(matched, m) := evaluate_group_meta t sg in when_matched matched m.

Lemma map_nil_iff {A B} (f : A -> B) l : map f l = [] <-> l = [].
Proof. by destruct l. Qed.

(** The evaluation with labels: the same answer, and the labels of what matched. *)
Lemma group_meta_spec t g :
  (evaluate_group_meta t g).1 = evaluate_group t g /\
  (evaluate_group t g = true -> (evaluate_group_meta t g).2 = matched_meta t g).
Proof.
  induction g as [l fs sgs ps vs gs ns IH] using group_ind.
  assert (Forall (fun sg => (group_leg t sg).1 = evaluate_group t sg) sgs /\
    Forall (fun sg => (group_leg t sg).2 = (if evaluate_group t sg then matched_meta t sg else no_meta)) sgs) as Hsub.
  { split; eapply Forall_impl; [apply IH| |apply IH|]; intros sg [H1 H2]; unfold group_leg;
      destruct (evaluate_group_meta t sg) as [b m]; cbn in *; subst b; [done|]. destruct (evaluate_group t sg); cbn; auto. }
  destruct Hsub as [Hs1 Hs2]. clear IH.
  set (legs := map (labelled (evaluateNativeSingleFilter t) tf_Label) fs ++ map (group_leg t) sgs ++
    map (labelled (evaluateNativePhraseFilter t) pf_Label) ps ++ map (vector_leg t) vs ++
    map (labelled (evaluateNativeGeoDistanceFilter t) gf_Label) gs ++
    map (labelled (evaluateNativeNestedSliceWhereFilter t) nf_Label) ns).
  assert (legs.*1 = map (evaluateNativeSingleFilter t) fs ++ map (evaluate_group t) sgs ++
    map (evaluateNativePhraseFilter t) ps ++ map (evaluateNativeVectorFilter t) vs ++
    map (evaluateNativeGeoDistanceFilter t) gs ++ map (evaluateNativeNestedSliceWhereFilter t) ns) as Hl1.
  { unfold legs. rewrite !fmap_app, !labelled_fsts, (map_fst_ext _ _ _ Hs1).
    by rewrite (map_fst_ext (vector_leg t) (evaluateNativeVectorFilter t)) by (apply Forall_true; intros; by rewrite vector_leg_spec). }
  assert (all_meta legs = matched_meta t (Group l fs sgs ps vs gs ns)) as Hl2.
  { unfold legs. rewrite !all_meta_app, !labelled_snds, (all_meta_map _ _ _ Hs2).
    by rewrite (all_meta_map (vector_leg t) (vector_meta t)) by (apply Forall_true; intros; by rewrite vector_leg_spec). }
  assert (evaluate_group_meta t (Group l fs sgs ps vs gs ns) =
    evaluateFilterGroupWithMeta l (map (labelled (evaluateNativeSingleFilter t) tf_Label) fs) (map (group_leg t) sgs)
      (map (labelled (evaluateNativePhraseFilter t) pf_Label) ps) (map (vector_leg t) vs)
      (map (labelled (evaluateNativeGeoDistanceFilter t) gf_Label) gs)
      (map (labelled (evaluateNativeNestedSliceWhereFilter t) nf_Label) ns)) as -> by done.
  destruct (decide (legs = [])) as [Hnil|Hne].
  - unfold legs in Hnil. rewrite !app_nil, !map_nil_iff in Hnil. destruct_and!. subst. done.
  - rewrite evaluateFilterGroupWithMeta_legs by (by right). fold legs. cbn [evaluate_group].
    rewrite evaluateFilterGroupWith_legs; rewrite <-Hl1.
    2:{ right. by intros ?%fmap_nil_inv. }
    unfold legs_value. case_decide.
    + rewrite any_leg_spec. cbn. by rewrite Hl2.
    + destruct (all_legs_spec legs) as [H1 H2]. rewrite Hl2 in H2. rewrite <-H1. done.
Qed.

(** Without labels and vectors there is nothing to report. *)
Lemma concat_meta_none {A} (f : A -> filterMatchMeta) l : Forall (fun x => f x = no_meta) l -> concat_meta f l = no_meta.
Proof. unfold concat_meta. induction 1 as [|x l Hx _ IH]; cbn; [done|]. by rewrite Hx, IH. Qed.
Lemma leg_meta_none {A} (ev : A -> bool) (lab : A -> option bytes) l :
  existsb (fun x => has_label (lab x)) l = false -> concat_meta (leg_meta ev lab) l = no_meta.
Proof.
  intros H. apply concat_meta_none, List.Forall_forall. intros x Hx. unfold leg_meta.
  destruct (ev x); [|done]. destruct (has_label (lab x)) eqn:E.
  - rewrite (proj2 (existsb_exists _ _)) in H; [done|eauto].
  - destruct (lab x) as [[]|]; done.
Qed.

Lemma no_labels_no_meta t g : group_has_labels g = false -> matched_meta t g = no_meta.
Proof.
  induction g as [l fs sgs ps vs gs ns IH] using group_ind. cbn. rewrite !orb_false_iff, negb_false_iff.
  intros (((((->%bool_decide_eq_true & Hf) & Hp) & Hg) & Hn) & Hs).
  rewrite !leg_meta_none by done. rewrite (concat_meta_none _ sgs); [done|].
  apply List.Forall_forall. intros sg Hsg. rewrite List.Forall_forall in IH.
  rewrite IH; [by destruct (evaluate_group t sg)|done|].
  destruct (group_has_labels sg) eqn:E; [|done]. rewrite (proj2 (existsb_exists _ _)) in Hs; [done|eauto].
Qed.
End Meaning.

(** ** Paths without wildcards *)

Definition plain_segment (seg : bytes) : bool := negb (bool_decide (seg = bs "#len")) && negb (has_suffix (bs "[*]") seg).
Definition plain_path (path : bytes) : bool := forallb plain_segment (split x2e path).

(** The lookups of the segments. *)
Fixpoint lookups (parts : list bytes) (current : any) : any :=
  match parts with
  | [] => current
  | part :: rest =>
      match current with
      | AMap m => match map_get part m with Some v => lookups rest v | None => ANil end
      | _ => ANil
      end
  end.

Lemma walk_lookups path : forall part v,
  walk path part v = match split x2e path with p :: ps => lookups ((part ++ p) :: ps) v | [] => ANil end.
Proof.
  induction path as [|c path IH]; intros part v.
  - cbn [split]. rewrite app_nil_r. by destruct v.
  - cbn [walk split]. destruct (decide (c = x2e)) as [Hc|Hc].
    + rewrite app_nil_r. destruct v; try done. cbn [lookups]. destruct (map_get part m) as [w|]; [|done].
      rewrite IH. by destruct (split x2e path) eqn:E; [destruct (split_nonempty _ _ E)|].
    + rewrite IH. destruct (split x2e path) as [|p ps] eqn:E; [by destruct (split_nonempty _ _ E)|].
      by rewrite <-(assoc_L (++)).
Qed.

Lemma navigate_lookups parts : forall v, forallb plain_segment parts = true -> navigate parts v = Plain (lookups parts v).
Proof.
  induction parts as [|p ps IH]; intros v; cbn [forallb navigate lookups]; [done|]. unfold plain_segment at 1.
  rewrite !andb_true_iff, !negb_true_iff, bool_decide_eq_false. intros [[Hl Hs] Hps].
  rewrite decide_False, Hs by done. destruct v; try done. destruct (map_get p m); [auto|done].
Qed.

(** On a plain path both lookups of the program agree. *)
Lemma extract_plain m path : plain_path path = true -> extractFieldByPath m path = Plain (Canon.extractFieldByPath m path).
Proof.
  intros Hp. unfold extractFieldByPath, Canon.extractFieldByPath. case_decide; [done|].
  rewrite walk_lookups, navigate_lookups by done.
  by destruct (split x2e path) eqn:E; [destruct (split_nonempty _ _ E)|].
Qed.

(** ** A leg and its lookup *)

Section Legs.
Context `{FI : FloatToInt} `{LC : LowerCase} `{MP : Msgpack} `{TG : Trigonometry}.

(** The treasures a lookup of the hint is meant to find. *)
Definition hint_holds (h : BucketHint) (t : treasure) : bool :=
  existsb (fun v => Equal (key_or_null t (Planner.FieldPath h)) (Canonicalize v)) (Values h).

(** The value a plain path has in the body, as a field index reads it. *)
Definition field_of (t : treasure) (path : bytes) : any :=
  match GetContentByteArray t with
  | None | Some [] => ANil
  | Some body => match Unmarshal (strip_magic body) with Some m => Canon.extractFieldByPath m path | None => ANil end
  end.
Lemma key_or_null_field t path : key_or_null t path = Canonicalize (field_of t path).
Proof.
  unfold key_or_null, extractKey, field_of. destruct (GetContentByteArray t) as [[|c b]|]; try done.
  by destruct (Unmarshal _).
Qed.

(** Bodies carry the magic prefix, and the path has no wildcard. *)
Definition marked (t : treasure) : bool :=
  match GetContentByteArray t with
  | Some ((_ :: _) as b) => bool_decide (GetContentType t = ContentTypeByteArray) && isMsgpackEncoded b
  | _ => true
  end.

Definition is_number (v : any) : bool := match v with AFloat32 _ | AFloat64 _ => true | _ => false end.
Definition is_time (v : any) : bool := match v with ATime _ => true | _ => false end.
(** [toInt64] and its like do not know [int] and [uint], which no decoder makes. *)
Definition is_sized (v : any) : bool := match v with AInt Wint _ | AUint Wint _ => false | _ => true end.

(** The values on which comparing after a conversion is comparing canonical values. *)
Definition comparable (f : TreasureFilter) (v : any) : bool :=
  is_sized v &&
  match tf_Operator f, tf_CompareValue f with
  | EQUAL, (Int8Val _ | Int16Val _ | Int32Val _ | Int64Val _) | (INT32_IN | INT64_IN), _ => negb (is_number v)
  | EQUAL, (Uint8Val _ | Uint16Val _ | Uint32Val _ | Uint64Val _) => negb (is_number v) && negb (is_time v)
  | EQUAL, (Float32Val _ | Float64Val _) =>
      negb (is_time v) && match v with AInt _ _ | AUint _ _ => bool_decide (is_Some (toFloat64Lossless (Canonicalize v))) | _ => true end
  | _, _ => true
  end.

(** The values a message carries are in the range of their types. *)
Definition filter_ok (f : TreasureFilter) : bool :=
  let i64b z := bool_decide (in_i64 z) in
  match tf_CompareValue f with
  | Int8Val z | Int16Val z | Int32Val z | Int64Val z => i64b z
  | Uint8Val z | Uint16Val z | Uint32Val z | Uint64Val z => bool_decide (in_u64 z)
  | _ => true
  end && forallb i64b (tf_Int32InVals f) && forallb i64b (tf_Int64InVals f).

(** The body and the path of the leg are such that the lookup and the evaluation agree. *)
Definition leg_plain (t : treasure) (f : TreasureFilter) : bool :=
  let path := default [] (tf_BytesFieldPath f) in
  marked t && plain_path path && filter_ok f && comparable f (field_of t path).

Lemma marked_strip b : isMsgpackEncoded b = true -> strip_magic b = unwrapMsgpack b /\ b <> [].
Proof.
  destruct b as [|b0 [|b1 b]]; try done. cbn. unfold eqd. rewrite !andb_true_iff, !bool_decide_eq_true.
  intros [-> ->]. split; [by rewrite !bool_decide_true|done].
Qed.

Lemma decoded_field t path m :
  marked t = true -> decoded_body t = m ->
  field_of t path = match m with Some m => Canon.extractFieldByPath m path | None => ANil end.
Proof.
  intros Hm <-. unfold field_of, decoded_body, marked in *.
  destruct (GetContentByteArray t) as [[|c b]|] eqn:E; try (by destruct (GetContentType t)).
  apply andb_true_iff in Hm as [Ht%bool_decide_eq_true Hm]. rewrite Ht. cbn [mbind option_bind]. rewrite Hm.
  by rewrite (proj1 (marked_strip _ Hm)).
Qed.

(** The answer of a leg, from the value of its field. *)
Definition leg_value (f : TreasureFilter) (v : any) : bool :=
  match tf_Operator f with
  | STRING_IN => evaluateStringIn v (tf_StringInVals f)
  | INT32_IN => evaluateInt32In v (tf_Int32InVals f)
  | INT64_IN => evaluateInt64In v (tf_Int64InVals f)
  | _ => if is_nil v then false else compare_field v EQUAL f
  end.

Lemma indexable_operator f h : indexableHint f = Some h ->
  is_Some (tf_BytesFieldPath f) /\ Planner.FieldPath h = default [] (tf_BytesFieldPath f) /\
  (tf_Operator f = EQUAL \/ tf_Operator f = STRING_IN \/ tf_Operator f = INT32_IN \/ tf_Operator f = INT64_IN).
Proof.
  unfold indexableHint. case_decide as Hp; [done|]. destruct (tf_BytesFieldPath f) eqn:E; [|done].
  destruct (tf_Operator f) eqn:Ho; try done; cbn; split; try done; (split; [|tauto]).
  all: first [by destruct (compareValueToAny f); simplify_eq/= | by case_match; simplify_eq/=].
Qed.

Lemma native_leg t f h :
  indexableHint f = Some h -> marked t = true -> plain_path (default [] (tf_BytesFieldPath f)) = true ->
  evaluateNativeSingleFilter t f = leg_value f (field_of t (default [] (tf_BytesFieldPath f))).
Proof.
  intros Hh Hm Hp. destruct (indexable_operator _ _ Hh) as (Hs & _ & Ho).
  unfold evaluateNativeSingleFilter, evaluateNativeBytesFieldFilter. rewrite decide_True by done.
  rewrite (decoded_field t _ _ Hm eq_refl). destruct (decoded_body t) as [m|].
  - unfold evaluateBytesFieldFilterAgainstMap. rewrite extract_plain by done.
    unfold leg_value. by destruct Ho as [E|[E|[E|E]]]; rewrite E.
  - unfold leg_value. by destruct Ho as [E|[E|[E|E]]]; rewrite E.
Qed.

Lemma existsb_map {A B} (f : A -> B) p l : existsb p (map f l) = existsb (fun x => p (f x)) l.
Proof. induction l as [|x l IH]; cbn; [done|]. by rewrite IH. Qed.
Lemma forallb_map {A B} (f : A -> B) p l : forallb p (map f l) = forallb (fun x => p (f x)) l.
Proof. induction l as [|x l IH]; cbn; [done|]. by rewrite IH. Qed.
Lemma existsb_ext_in {A} (p q : A -> bool) l : (forall x, List.In x l -> p x = q x) -> existsb p l = existsb q l.
Proof. induction l as [|x l IH]; cbn; intros H; [done|]. rewrite H, IH; auto. Qed.
Lemma existsb_false {A} (l : list A) : existsb (fun _ => false) l = false.
Proof. by induction l. Qed.

Lemma eqb_decide (a b : Z) : (a =? b) = bool_decide (a = b).
Proof. by destruct (Z.eqb_spec a b); [rewrite bool_decide_true|rewrite bool_decide_false]. Qed.

(** Integers: a comparison after [toInt64] or [toUint64] is one of canonical values. *)
Lemma int_equal v ref : any_ok v -> in_i64 ref -> is_sized v = true -> is_number v = false ->
  match toInt64 v with Some n => n =? ref | None => false end = Equal (Canonicalize v) (Int64Key ref).
Proof.
  intros Hv Hr Hs Hn. destruct v as [| |w z|w z| | | |t| | |]; try done.
  - assert (toInt64 (AInt w z) = Some z) as -> by (by destruct w). apply eqb_decide.
  - unfold Equal. rewrite decide_False by done. cbn -[u64]. unfold any_ok, in_i64, in_u64 in *.
    assert ((0 <=? ref) && (u64 ref =? z) = (z =? ref)) as ->.
    { destruct (Z.leb_spec 0 ref); cbn; [rewrite u64_small by (unfold in_u64; lia); apply Z.eqb_sym|].
      symmetry. apply Z.eqb_neq. lia. }
    destruct w; try done. destruct (Z.leb_spec z (2 ^ 63 - 1)); [done|]. symmetry. apply Z.eqb_neq. lia.
  - apply eqb_decide.
Qed.

Lemma uint_equal v ref : any_ok v -> in_u64 ref -> is_sized v = true -> is_number v = false -> is_time v = false ->
  match toUint64 v with Some n => n =? ref | None => false end = Equal (Canonicalize v) (Uint64Key ref).
Proof.
  intros Hv Hr Hs Hn Ht. destruct v as [| |w z|w z| | | |t| | |]; try done.
  - unfold Equal. rewrite decide_False by done. cbn -[u64 toUint64 Z.leb]. unfold any_ok, in_i64, in_u64 in *.
    assert (toUint64 (AInt w z) = if 0 <=? z then Some z else None) as -> by (by destruct w).
    destruct (Z.leb_spec 0 z); cbn; [|done]. by rewrite u64_small by (unfold in_u64; lia).
  - assert (toUint64 (AUint w z) = Some z) as -> by (by destruct w). apply eqb_decide.
Qed.

Lemma float_equal_value v ref : is_sized v = true -> is_time v = false ->
  match v with AInt _ _ | AUint _ _ => is_Some (toFloat64Lossless (Canonicalize v)) | _ => True end ->
  match toFloat64 v with Some n => SFeqb n ref | None => false end = Equal (Canonicalize v) (Float64Key ref).
Proof.
  intros Hs Ht Hl. destruct v as [| |w z|w z| | | |t| | |]; try done.
  - destruct Hl as [g Hg]. unfold Equal. rewrite decide_False by done. rewrite Hg. cbn. unfold toFloat64Lossless in Hg. cbn in Hg. case_match; [done|]. injection Hg as <-. by destruct w.
  - destruct Hl as [g Hg]. unfold Equal. rewrite decide_False by done. rewrite Hg. cbn. unfold toFloat64Lossless in Hg. cbn in Hg. case_match; [done|]. injection Hg as <-. by destruct w.
Qed.

Lemma string_in_equal v vals :
  evaluateStringIn v vals = existsb (fun x => Equal (Canonicalize v) (Canonicalize x)) (map AString vals).
Proof.
  rewrite existsb_map. destruct v; cbn; try (by rewrite existsb_false); try done.
Qed.

Lemma ints_in_equal v vals :
  any_ok v -> is_sized v = true -> is_number v = false -> forallb (fun z => bool_decide (in_i64 z)) vals = true ->
  match toInt64 v with Some n => existsb (Z.eqb n) vals | None => false end
  = existsb (fun x => Equal (Canonicalize v) (Canonicalize x)) (map (AInt W64) vals).
Proof.
  intros Hv Hs Hn Hvals. rewrite existsb_map. rewrite forallb_forall in Hvals.
  rewrite (existsb_ext_in _ (fun z => match toInt64 v with Some n => n =? z | None => false end)).
  - destruct (toInt64 v); [done|]. by rewrite existsb_false.
  - intros z Hz. symmetry. apply int_equal; try done. exact (proj1 (bool_decide_eq_true _) (Hvals z Hz)).
Qed.

Lemma compare_equal f x v :
  tf_Operator f = EQUAL -> compareValueToAny f = Some x -> filter_ok f = true -> comparable f v = true -> any_ok v ->
  (if is_nil v then false else compare_field v EQUAL f) = Equal (Canonicalize v) (Canonicalize x).
Proof.
  intros Ho Hx Hok Hc Hv. unfold filter_ok in Hok. rewrite !andb_true_iff in Hok. destruct Hok as [[Hval _] _].
  unfold comparable in Hc. rewrite Ho in Hc. apply andb_true_iff in Hc as [Hs Hc]. unfold compareValueToAny in Hx.
  destruct (is_nil v) eqn:Hnil.
  { destruct v; try done. destruct (tf_CompareValue f); try done; by injection Hx as <-. }
  unfold compare_field. destruct (tf_CompareValue f) eqn:Hcv; try done; injection Hx as <-.
  1-4: apply bool_decide_eq_true in Hval; apply negb_true_iff in Hc; by apply int_equal.
  1-4: apply bool_decide_eq_true in Hval; apply andb_true_iff in Hc as [?%negb_true_iff ?%negb_true_iff];
    by apply uint_equal.
  1-2: apply andb_true_iff in Hc as [?%negb_true_iff Hl]; apply float_equal_value; try done;
    destruct v; try done; by apply bool_decide_eq_true in Hl.
  - by destruct v.
  - destruct v; try done. cbn. unfold eqd. by destruct b0, (is_true b).
Qed.

(** The answer of a leg is that of the lookup. *)
Lemma leg_value_equal f h v :
  indexableHint f = Some h -> filter_ok f = true -> comparable f v = true -> any_ok v ->
  leg_value f v = existsb (fun x => Equal (Canonicalize v) (Canonicalize x)) (Values h).
Proof.
  intros Hh Hok Hc Hv. unfold leg_value. pose proof Hc as Hc'. unfold comparable in Hc'.
  apply andb_true_iff in Hc' as [Hs Hc']. pose proof Hok as Hok'. unfold filter_ok in Hok'.
  rewrite !andb_true_iff in Hok'. destruct Hok' as [[_ H32] H64].
  unfold indexableHint in Hh. case_decide; [done|]. destruct (tf_Operator f) eqn:Ho; try done.
  - destruct (compareValueToAny f) as [x|] eqn:Hx; [|done]. injection Hh as <-. cbn. rewrite orb_false_r.
    by apply compare_equal.
  - rewrite string_in_equal. by destruct (map AString _); [|injection Hh as <-].
  - unfold evaluateInt32In. apply negb_true_iff in Hc'. rewrite ints_in_equal by done.
    by destruct (map _ (tf_Int32InVals f)); [|injection Hh as <-].
  - unfold evaluateInt64In. apply negb_true_iff in Hc'. rewrite ints_in_equal by done.
    by destruct (map _ (tf_Int64InVals f)); [|injection Hh as <-].
Qed.

(** What the decoder gives is a value a program can build. *)
Definition decodes_well : Prop := forall body m, Unmarshal body = Some m -> any_ok (AMap m).

Lemma field_of_ok t path : decodes_well -> any_ok (field_of t path).
Proof.
  intros Hd. unfold field_of. repeat case_match; try done. eapply Canon.extractFieldByPath_ok, Hd; eauto.
Qed.

Lemma leg_is_lookup t f h :
  decodes_well -> leg_plain t f = true -> indexableHint f = Some h ->
  evaluateNativeSingleFilter t f = hint_holds h t.
Proof.
  unfold leg_plain. rewrite !andb_true_iff. intros Hd [[[Hm Hp] Hf] Hc] Hh.
  rewrite (native_leg _ _ _ Hh Hm Hp). unfold hint_holds. rewrite key_or_null_field.
  destruct (indexable_operator _ _ Hh) as (_ & -> & _). apply leg_value_equal; auto using field_of_ok.
Qed.

(** ** Plans *)

(** A logic the evaluation and the planner read alike. *)
Definition known_logic (g : FilterGroup) : bool := match Logic g with AND | OR => true | OtherLogic _ => false end.
Definition known (g : FilterGroup) : bool := known_logic g && forallb known_logic (SubGroups g).

Lemma first_hint_spec fs : forall n i h, first_hint n fs = Some (i, h) ->
  exists j f, i = (n + j)%nat /\ fs !! j = Some f /\ indexableHint f = Some h.
Proof.
  induction fs as [|f fs IH]; intros n i h; cbn; [done|]. destruct (indexableHint f) eqn:E.
  - intros [= <- <-]. exists O, f. split; [lia|done].
  - intros H. destruct (IH _ _ _ H) as (j & f' & -> & ? & ?). exists (S j), f'. split; [lia|done].
Qed.
Lemma first_union_spec ps : forall n i hs, first_union n ps = Some (i, hs) ->
  exists j p, i = (n + j)%nat /\ ps !! j = Some p /\ Mode p = PlanModeOrUnion /\ Hints p = hs.
Proof.
  induction ps as [|p ps IH]; intros n i hs; cbn; [done|]. destruct (Mode p) eqn:E.
  3: { intros [= <- <-]. exists O, p. split; [lia|done]. }
  all: intros H; destruct (IH _ _ _ H) as (j & p' & -> & ? & ?); exists (S j), p'; (split; [lia|done]).
Qed.

Lemma planOr_spec g : Mode (planOr g) <> PlanModeBypass ->
  exists logic legs, g = Group logic legs [] [] [] [] [] /\ legs <> [] /\ Mode (planOr g) = PlanModeOrUnion /\
    mapM indexableHint legs = Some (Hints (planOr g)) /\ Residual (planOr g) = None.
Proof.
  destruct g as [l fs [|] [|] [|] [|] [|]]; cbn; try done.
  destruct (mapM indexableHint fs) as [[|h hs]|] eqn:E; cbn; try done. intros _. exists l, fs. split_and!; try done.
  by intros ->.
Qed.

Lemma plan_union g : Mode (plan_group g) = PlanModeOrUnion -> plan_group g = planOr g /\ Logic g <> AND.
Proof.
  destruct g as [l fs sgs ps vs gs ns]. cbn. case_match; [done|]. destruct l; try done.
  destruct (first_hint 0 fs) as [[]|]; [done|]. by destruct (first_union 0 _) as [[]|].
Qed.

Lemma and_legs t fs sgs ps vs gs ns :
  evaluate_group t (Group AND fs sgs ps vs gs ns) =
  forallb (evaluateNativeSingleFilter t) fs && (forallb (evaluate_group t) sgs &&
  (forallb (evaluateNativePhraseFilter t) ps && (forallb (evaluateNativeVectorFilter t) vs &&
  (forallb (evaluateNativeGeoDistanceFilter t) gs && forallb (evaluateNativeNestedSliceWhereFilter t) ns)))).
Proof.
  cbn [evaluate_group]. rewrite evaluateFilterGroupWith_legs by (by left). unfold legs_value.
  rewrite decide_False by done. rewrite !forallb_id_app, !forallb_map. done.
Qed.
Lemma or_legs t legs : legs <> [] ->
  evaluate_group t (Group OR legs [] [] [] [] []) = existsb (evaluateNativeSingleFilter t) legs.
Proof.
  intros Hl. cbn [evaluate_group map]. rewrite evaluateFilterGroupWith_legs by (right; by destruct legs).
  unfold legs_value. rewrite decide_True, app_nil_r, existsb_map by done. done.
Qed.

Lemma forallb_remove {A} (p : A -> bool) l i x :
  l !! i = Some x -> forallb p l = p x && forallb p (remove_nth i l).
Proof.
  intros H. rewrite <-(take_drop_middle _ _ _ H) at 1. unfold remove_nth. rewrite !forallb_app. cbn.
  by destruct (p x), (forallb p (take i l)).
Qed.

(** The filters a plan may turn into lookups. *)
Definition candidate_legs (g : FilterGroup) : list TreasureFilter := Filters g ++ concat (map Filters (SubGroups g)).

(** What a plan keeps: some legs become lookups, one of which has to hold, and the rest of the
    filter. *)
Lemma plan_group_spec g :
  known g = true -> Mode (plan_group g) <> PlanModeBypass ->
  exists legs, legs <> [] /\ mapM indexableHint legs = Some (Hints (plan_group g)) /\
    (forall f, f ∈ legs -> f ∈ candidate_legs g) /\
    forall t, evaluate_group t g =
      existsb (evaluateNativeSingleFilter t) legs && evaluateNativeFilterGroup t (Residual (plan_group g)).
Proof.
  assert (forall g, Logic g = OR -> Mode (planOr g) <> PlanModeBypass ->
    exists legs, legs <> [] /\ mapM indexableHint legs = Some (Hints (planOr g)) /\ Residual (planOr g) = None /\
      (forall f, f ∈ legs -> f ∈ Filters g) /\ forall t, evaluate_group t g = existsb (evaluateNativeSingleFilter t) legs) as Hor.
  { intros g' Hl Hm. destruct (planOr_spec g' Hm) as (l & legs & -> & Hne & _ & Hh & Hr). cbn in Hl. subst l.
    exists legs. auto 6 using or_legs. }
  destruct g as [l fs sgs ps vs gs ns]. intros Hk Hm. unfold known in Hk. apply andb_true_iff in Hk as [Hk Hks].
  cbn [SubGroups] in Hks. cbn [plan_group] in *. destruct (isEmptyGroup _) eqn:Hem; [done|].
  destruct l; [| |done].
  - destruct (first_hint 0 fs) as [[i h]|] eqn:Hf.
    + destruct (first_hint_spec _ _ _ _ Hf) as (j & f & -> & Hj & Hh). exists [f]. split_and!; [done| | |].
      { cbn. by rewrite Hh. }
      { intros f' ->%list_elem_of_singleton. apply elem_of_app. left. by eapply list_elem_of_lookup_2. }
      intros t. cbn [Residual evaluateNativeFilterGroup removeFilterAt existsb]. rewrite orb_false_r.
      rewrite !and_legs, (forallb_remove _ _ _ _ Hj). by rewrite <-!andb_assoc.
    + destruct (first_union 0 _) as [[i hs]|] eqn:Hu; [|done].
      destruct (first_union_spec _ _ _ _ Hu) as (j & p & -> & Hj & Hp & <-).
      rewrite list_lookup_fmap in Hj. destruct (sgs !! j) as [sg|] eqn:Hsg; [|done]. injection Hj as <-.
      destruct (plan_union _ Hp) as [Hpo Hl]. rewrite Hpo in *.
      assert (Logic sg = OR) as Hl'.
      { rewrite forallb_forall in Hks. pose proof (Hks sg) as H. unfold known_logic in H.
        destruct (Logic sg); try done. discriminate H. by eapply list_elem_of_In, list_elem_of_lookup_2. }
      destruct (Hor sg Hl') as (legs & Hne & Hh & _ & Hin & Hev); [by rewrite Hp|]. exists legs. split_and!; [done|done| |].
      { intros f Hf'. apply elem_of_app. right. apply list_elem_of_In, in_concat. exists (Filters sg).
        split; [apply in_map, list_elem_of_In; by eapply list_elem_of_lookup_2|by apply list_elem_of_In, Hin]. }
      intros t. cbn [Residual evaluateNativeFilterGroup removeSubGroupAt].
      rewrite !and_legs, (forallb_remove _ _ _ _ Hsg), Hev. cbn.
      destruct (forallb (evaluateNativeSingleFilter t) fs), (existsb _ legs); done.
  - destruct (Hor (Group OR fs sgs ps vs gs ns)) as (legs & ? & ? & -> & Hin & Hev); [done|done|].
    exists legs. split_and!; [done|done| |].
    { intros f Hf. apply elem_of_app. left. by apply Hin. }
    intros t. rewrite Hev. cbn. by rewrite andb_true_r.
Qed.
End Legs.

(** ** Phrases *)

Lemma halving_spec f n : forall fuel i j,
  (j <= n)%nat -> (i <= j)%nat -> (j - i <= fuel)%nat ->
  (forall a b, (a <= b < n)%nat -> f a = true -> f b = true) ->
  let r := search fuel f i j in
  (i <= r <= j)%nat /\ (forall a, (i <= a < r)%nat -> f a = false) /\ (forall a, (r <= a < j)%nat -> f a = true).
Proof.
  intros fuel. induction fuel as [|fuel IH]; intros i j Hn Hij Hf Hmono; cbn [search].
  { assert (i = j) as -> by lia. split_and!; intros; lia. }
  destruct (Nat.ltb_spec i j) as [Hlt|]; [|assert (i = j) as -> by lia; split_and!; intros; lia].
  cbn zeta. set (h := ((i + j) / 2)%nat).
  assert (i <= h < j)%nat as Hh.
  { pose proof (Nat.Div0.div_mod (i + j) 2) as Hd. pose proof (Nat.mod_upper_bound (i + j) 2 ltac:(lia)).
    unfold h. lia. }
  destruct (f h) eqn:E.
  - destruct (IH i h) as (? & ? & Ht); [lia..|done|]. split_and!; [lia|lia|done|].
    intros a Ha. destruct (decide (a < h)%nat); [apply Ht; lia|]. apply (Hmono h a); [lia|done].
  - destruct (IH (S h) j) as (? & Hlo & ?); [lia..|done|]. split_and!; [lia|lia| |done].
    intros a Ha. destruct (decide (h < a)%nat); [apply Hlo; lia|].
    destruct (f a) eqn:Ea; [|done]. rewrite (Hmono a h) in E; [done|lia|done].
Qed.

Lemma sortedContains_spec l z : StronglySorted Z.le l -> sortedContains l z = bool_decide (z ∈ l).
Proof.
  intros Hs. unfold sortedContains. set (f := fun j => match l !! j with Some v => z <=? v | None => false end).
  assert (forall a b v w, (a <= b)%nat -> l !! a = Some v -> l !! b = Some w -> v <= w) as Hord.
  { clear f. induction Hs as [|x l Hs IH Hx]; intros a b v w Hab Ha Hb; [done|].
    destruct a as [|a], b as [|b]; cbn in *; simplify_eq; [lia| |lia|eapply (IH a b); [lia|done..]].
    rewrite Forall_forall in Hx. apply Hx. by eapply list_elem_of_lookup_2. }
  destruct (halving_spec f (length l) (length l) 0 (length l)) as (Hr & Hlo & Hhi); [lia..| |].
  { intros a b Hab. unfold f. destruct (lookup_lt_is_Some_2 l a) as [v Hv]; [lia|].
    destruct (lookup_lt_is_Some_2 l b) as [w Hw]; [lia|]. rewrite Hv, Hw, !Z.leb_le.
    pose proof (Hord a b v w ltac:(lia) Hv Hw). lia. }
  set (r := search _ f 0 _) in *. apply eq_bool_prop_intro. rewrite !Is_true_true, bool_decide_eq_true.
  split.
  - destruct (l !! r) as [v|] eqn:E; [|done]. intros ->%Z.eqb_eq. by eapply list_elem_of_lookup_2.
  - intros (a & Ha)%list_elem_of_lookup_1. pose proof (lookup_lt_Some _ _ _ Ha) as Hlt.
    assert (f a = true) as Hfa by (unfold f; rewrite Ha; apply Z.leb_le; lia).
    assert (r <= a)%nat as Hra by (destruct (decide (r <= a)%nat); [done|]; rewrite Hlo in Hfa by lia; done).
    destruct (lookup_lt_is_Some_2 l r) as [v Hv]; [lia|]. rewrite Hv.
    assert (f r = true) as Hfr by (apply Hhi; lia). unfold f in Hfr. rewrite Hv in Hfr. apply Z.leb_le in Hfr.
    pose proof (Hord r a v z Hra Hv Ha). apply Z.eqb_eq. lia.
Qed.

(** The positions of the words one after the other, from a start on. *)
Definition consecutive (start : Z) (positions : list (list Z)) : Prop :=
  forall i ps, positions !! i = Some ps -> start + Z.of_nat i ∈ ps.

Lemma follow_spec start : forall rest i,
  Forall (StronglySorted Z.le) rest -> (forall j, (j < length rest)%nat -> in_i64 (start + i + Z.of_nat j)) ->
  follow start i rest = true <-> consecutive (start + i) rest.
Proof.
  induction rest as [|ps rest IH]; intros i Hs Hb; cbn; [split; [by intros _ ? ?|done]|].
  apply Forall_cons in Hs as [Hps Hs]. rewrite sortedContains_spec by done.
  assert (i64 (start + i) = start + i) as ->.
  { specialize (Hb 0%nat ltac:(cbn; lia)). rewrite Z.add_0_r in Hb. unfold i64, in_i64 in *.
    rewrite Z.mod_small; lia. }
  rewrite andb_true_iff, bool_decide_eq_true, IH; [|done|].
  - split.
    + intros [H0 Hr] [|j] qs; cbn; [intros [= <-]; by rewrite Z.add_0_r|]. intros Hj.
      specialize (Hr j qs Hj). replace (start + i + Z.of_nat (S j)) with (start + (i + 1) + Z.of_nat j) by lia. done.
    + intros Hc. split; [specialize (Hc 0%nat ps eq_refl); by rewrite Z.add_0_r in Hc|]. intros j qs Hj.
      specialize (Hc (S j) qs Hj). by replace (start + (i + 1) + Z.of_nat j) with (start + i + Z.of_nat (S j)) by lia.
  - intros j Hj. specialize (Hb (S j) ltac:(cbn; lia)). by replace (start + (i + 1) + Z.of_nat j) with (start + i + Z.of_nat (S j)) by lia.
Qed.

(** The test of the phrase filter, with its binary searches. *)
Lemma hasConsecutivePositions_spec positions :
  positions <> [] -> Forall (StronglySorted Z.le) positions ->
  (forall ps z, ps ∈ positions -> z ∈ ps -> - 2 ^ 62 <= z < 2 ^ 62) -> Z.of_nat (length positions) < 2 ^ 62 ->
  hasConsecutivePositions positions = true <-> exists start, consecutive start positions.
Proof.
  intros Hne Hs Hb Hlen. destruct positions as [|first rest]; [done|].
  assert (hasConsecutivePositions (first :: rest) = existsb (fun startPos => follow startPos 1 rest) first) as ->.
  { destruct rest; [|done]. cbn. by destruct first. }
  apply Forall_cons in Hs as [Hf Hs].
  assert (forall start, start ∈ first -> follow start 1 rest = true <-> consecutive (start + 1) rest) as Hfollow.
  { intros start Hst. apply follow_spec; [done|]. intros j Hj. specialize (Hb first start ltac:(by left) Hst).
    cbn in Hlen. unfold in_i64. lia. }
  rewrite existsb_exists. split.
  - intros (start & Hin%list_elem_of_In & Hc). exists start. apply Hfollow in Hc; [|done].
    intros [|i] ps; cbn; [intros [= <-]; by rewrite Z.add_0_r|]. intros Hi. specialize (Hc i ps Hi).
    by replace (start + Z.of_nat (S i)) with (start + 1 + Z.of_nat i) by lia.
  - intros (start & Hc). assert (start ∈ first) as Hin by (specialize (Hc 0%nat first eq_refl); by rewrite Z.add_0_r in Hc).
    exists start. split; [by apply list_elem_of_In|]. apply Hfollow; [done|]. intros i ps Hi.
    specialize (Hc (S i) ps Hi). by replace (start + 1 + Z.of_nat i) with (start + Z.of_nat (S i)) by lia.
Qed.

Section Phrase.
Context `{FI : FloatToInt} `{LC : LowerCase} `{MP : Msgpack} `{TG : Trigonometry}.

Lemma positions_of_spec word idx :
  match positions_of word idx with
  | Some ps => ps <> [] /\ StronglySorted Z.le ps /\ exists v, map_get word idx = Some v /\ ps ≡ₚ toInt64Slice v
  | None => match map_get word idx with Some v => toInt64Slice v = [] | None => True end
  end.
Proof.
  unfold positions_of. destruct (map_get word idx) as [v|]; [|done]. cbn.
  pose proof (merge_sort_Permutation Z.le (toInt64Slice v)) as Hp.
  pose proof (StronglySorted_merge_sort Z.le (toInt64Slice v)) as Hss.
  destruct (merge_sort Z.le (toInt64Slice v)) as [|p ps] eqn:E; [by apply Permutation_nil_l in Hp|].
  split_and!; [done| |eauto]. apply Hss.
Qed.

(** The positions a word has in the index of a phrase. *)
Definition word_at (idx : list (bytes * any)) (word : bytes) (z : Z) : Prop :=
  exists v, map_get word idx = Some v /\ z ∈ toInt64Slice v.

Lemma phrase_spec t pf decoded idx :
  decoded_body t = Some decoded -> extractFieldByPath decoded (pf_BytesFieldPath pf) = Plain (AMap idx) ->
  pf_Words pf <> [] -> Z.of_nat (length (pf_Words pf)) < 2 ^ 62 ->
  (forall word z, word ∈ pf_Words pf -> word_at idx word z -> - 2 ^ 62 <= z < 2 ^ 62) ->
  exists found, evaluateNativePhraseFilter t pf = xorb (pf_Negate pf) found /\
    (found = true <-> exists start, forall i word, pf_Words pf !! i = Some word -> word_at idx word (start + Z.of_nat i)).
Proof.
  intros Hd He Hne Hlen Hb. unfold evaluateNativePhraseFilter. destruct (pf_Words pf) as [|w0 ws] eqn:Ew; [done|].
  rewrite Hd, He. set (words := w0 :: ws) in *. destruct (mapM _ words) as [positions|] eqn:Em.
  - apply mapM_Some in Em. exists (hasConsecutivePositions positions). split; [done|].
    assert (Forall2 (fun word ps => StronglySorted Z.le ps /\ forall z, z ∈ ps <-> word_at idx word z) words positions) as Hw.
    { eapply Forall2_impl; [exact Em|]. intros word ps Hps. pose proof (positions_of_spec word idx) as Hsp.
      cbn in Hps. rewrite Hps in Hsp. destruct Hsp as (_ & Hs & v & Hv & Hp). split; [done|].
      intros z. unfold word_at. rewrite Hp, Hv. naive_solver. }
    rewrite hasConsecutivePositions_spec.
    + split; intros (start & Hc); exists start.
      * intros i word Hi. destruct (Forall2_lookup_l _ _ _ _ _ Hw Hi) as (ps & Hps & _ & Hz). by apply Hz, Hc.
      * intros i ps Hi. destruct (Forall2_lookup_r _ _ _ _ _ Hw Hi) as (word & Hword & _ & Hz). by apply Hz, Hc.
    + intros ->. by inversion Em.
    + eapply Forall2_Forall_r; [exact Hw|]. apply Forall_true. by intros ? ? [? _].
    + intros ps z (i & Hi)%list_elem_of_lookup_1 Hz.
      destruct (Forall2_lookup_r _ _ _ _ _ Hw Hi) as (word & Hword & _ & Hin). apply (Hb word); [|by apply Hin].
      by eapply list_elem_of_lookup_2.
    + by rewrite <-(Forall2_length _ _ _ Em).
  - exists false. split; [by destruct (pf_Negate pf)|]. split; [done|]. intros (start & Hc). exfalso.
    apply mapM_None in Em. apply Exists_exists in Em as (word & Hin & Hw). cbn in Hw.
    apply list_elem_of_lookup_1 in Hin as [i Hi]. destruct (Hc i word Hi) as (v & Hv & Hz).
    pose proof (positions_of_spec word idx) as Hsp. rewrite Hw, Hv in Hsp. rewrite Hsp in Hz. by apply not_elem_of_nil in Hz.
Qed.
End Phrase.
