(* ===== verification/Alike.v ===== *)
(** Treasures nobody can tell apart through their getters.

    A copy and its original differ in the guard, the flags, the file name and the marks of a
    deletion; [alike] leaves these out.  The getters, the filters and the answers of the
    gateway are [Proper] for it. *)
From Stdlib Require Import Floats.SpecFloat.
From S2P Require Import Prelude Steps Types Compressor Block FileSys Reader Contents Log Session.
From S2P Require Import Meta Chronicler Swamp Gateway Guard Treasure Beacon Canon Bucket Text Filters Planner GatewaySearch Plans.
#[local] Set Warnings "-register-all,-clear-no-such-hyp".

(** What the getters show of a treasure. *)
Definition shown (t : treasure) : treasure :=
  let m := t_model t in
  {| t_model :=
       {| m_Key := m_Key m; m_Content := Some (default empty_content (m_Content m)); m_CreatedAt := m_CreatedAt m;
          m_CreatedBy := m_CreatedBy m; m_DeletedAt := 0; m_DeletedBy := [];
          m_ModifiedAt := m_ModifiedAt m; m_ModifiedBy := m_ModifiedBy m;
          m_ExpirationTime := m_ExpirationTime m; m_FileName := None |};
     t_guard := Guard.New; t_flags := no_flags |}.
Definition alike (t t' : treasure) : Prop := shown t = shown t'.

#[export] Instance alike_equivalence : Equivalence alike.
Proof. unfold alike. split; [done|by intros ? ?|by intros ? ? ? -> ->]. Qed.

(** A function that only looks at what is shown. *)
Lemma shown_proper {A} (f : treasure -> A) : (forall t, f t = f (shown t)) -> Proper (alike ==> eq) f.
Proof. intros Hf t t' Ht. rewrite (Hf t), (Hf t'). by rewrite !Ht. Qed.

Ltac by_shown := apply shown_proper; intros t; destruct t as [[? [|] ? ? ? ? ? ? ? ?] ? ?]; reflexivity.

#[export] Instance GetKey_alike : Proper (alike ==> eq) GetKey. Proof. by_shown. Qed.
#[export] Instance GetCreatedAt_alike : Proper (alike ==> eq) GetCreatedAt. Proof. by_shown. Qed.
#[export] Instance GetCreatedBy_alike : Proper (alike ==> eq) GetCreatedBy. Proof. by_shown. Qed.
#[export] Instance GetModifiedAt_alike : Proper (alike ==> eq) GetModifiedAt. Proof. by_shown. Qed.
#[export] Instance GetModifiedBy_alike : Proper (alike ==> eq) GetModifiedBy. Proof. by_shown. Qed.
#[export] Instance GetExpirationTime_alike : Proper (alike ==> eq) GetExpirationTime. Proof. by_shown. Qed.
#[export] Instance GetContentType_alike : Proper (alike ==> eq) GetContentType. Proof. by_shown. Qed.
#[export] Instance GetContentUint8_alike : Proper (alike ==> eq) GetContentUint8. Proof. by_shown. Qed.
#[export] Instance GetContentUint16_alike : Proper (alike ==> eq) GetContentUint16. Proof. by_shown. Qed.
#[export] Instance GetContentUint32_alike : Proper (alike ==> eq) GetContentUint32. Proof. by_shown. Qed.
#[export] Instance GetContentUint64_alike : Proper (alike ==> eq) GetContentUint64. Proof. by_shown. Qed.
#[export] Instance GetContentInt8_alike : Proper (alike ==> eq) GetContentInt8. Proof. by_shown. Qed.
#[export] Instance GetContentInt16_alike : Proper (alike ==> eq) GetContentInt16. Proof. by_shown. Qed.
#[export] Instance GetContentInt32_alike : Proper (alike ==> eq) GetContentInt32. Proof. by_shown. Qed.
#[export] Instance GetContentInt64_alike : Proper (alike ==> eq) GetContentInt64. Proof. by_shown. Qed.
#[export] Instance GetContentFloat32_alike : Proper (alike ==> eq) GetContentFloat32. Proof. by_shown. Qed.
#[export] Instance GetContentFloat64_alike : Proper (alike ==> eq) GetContentFloat64. Proof. by_shown. Qed.
#[export] Instance GetContentString_alike : Proper (alike ==> eq) GetContentString. Proof. by_shown. Qed.
#[export] Instance GetContentBool_alike : Proper (alike ==> eq) GetContentBool. Proof. by_shown. Qed.
#[export] Instance GetContentByteArray_alike : Proper (alike ==> eq) GetContentByteArray. Proof. by_shown. Qed.
#[export] Instance slice_of_alike : Proper (alike ==> eq) slice_of. Proof. by_shown. Qed.

(** The getters of one treasure for those of another one. *)
Ltac alike Ht :=
  cbn zeta; rewrite ?(GetKey_alike _ _ Ht), ?(GetCreatedAt_alike _ _ Ht), ?(GetCreatedBy_alike
    _ _ Ht), ?(GetModifiedAt_alike _ _ Ht), ?(GetModifiedBy_alike _ _ Ht), ?(GetExpirationTime_alike
    _ _ Ht), ?(GetContentType_alike _ _ Ht), ?(GetContentUint8_alike _ _ Ht),
    ?(GetContentUint16_alike _ _ Ht), ?(GetContentUint32_alike _ _ Ht), ?(GetContentUint64_alike
    _ _ Ht), ?(GetContentInt8_alike _ _ Ht), ?(GetContentInt16_alike _ _ Ht),
    ?(GetContentInt32_alike _ _ Ht), ?(GetContentInt64_alike _ _ Ht), ?(GetContentFloat32_alike
    _ _ Ht), ?(GetContentFloat64_alike _ _ Ht), ?(GetContentString_alike _ _ Ht),
    ?(GetContentBool_alike _ _ Ht), ?(GetContentByteArray_alike _ _ Ht), ?(slice_of_alike _ _ Ht).

(** A copy shows what its original shows. *)
Lemma copy_alike t : valid_treasure t -> alike (copy t) t.
Proof.
  intros Hv. unfold alike, shown. cbn.
  assert (cloneContent t = default empty_content (m_Content (t_model t))) as ->; [|done].
  unfold valid_treasure in Hv. destruct (m_Content (t_model t)) as [c|] eqn:Hc; [|by unfold cloneContent; rewrite Hc].
  destruct Hv as [| |v]; [by unfold cloneContent; rewrite Hc..|]. by destruct (read_value t v Hc) as (_ & -> & _).
Qed.
Lemma same_model_alike t t' : t_model t = t_model t' -> alike t t'.
Proof. unfold alike, shown. by intros ->. Qed.

Section Alike.
Context `{FI : FloatToInt} `{LC : LowerCase} `{MP : Msgpack} `{TG : Trigonometry}.

#[export] Instance decoded_body_alike : Proper (alike ==> eq) decoded_body.
Proof.
  intros t t' Ht. unfold decoded_body. alike Ht.
  reflexivity.
Qed.
#[export] Instance key_or_null_alike : Proper (alike ==> eq ==> eq) key_or_null.
Proof. intros t t' Ht ? p ->. unfold key_or_null, extractKey. by rewrite !Ht. Qed.

#[export] Instance nativeFieldIsEmpty_alike : Proper (alike ==> eq ==> eq) nativeFieldIsEmpty.
Proof. intros t t' Ht ? f ->. unfold nativeFieldIsEmpty. by alike Ht. Qed.
#[export] Instance single_filter_alike : Proper (alike ==> eq ==> eq) evaluateNativeSingleFilter.
Proof.
  intros t t' Ht ? f ->. unfold evaluateNativeSingleFilter, evaluateNativeBytesFieldFilter, when_type.
  by rewrite (decoded_body_alike _ _ Ht), (nativeFieldIsEmpty_alike _ _ Ht f f eq_refl); alike Ht.
Qed.
#[export] Instance phrase_filter_alike : Proper (alike ==> eq ==> eq) evaluateNativePhraseFilter.
Proof. intros t t' Ht ? f ->. unfold evaluateNativePhraseFilter. by rewrite (decoded_body_alike _ _ Ht). Qed.
#[export] Instance vector_filter_alike : Proper (alike ==> eq ==> eq) evaluateNativeVectorFilter.
Proof. intros t t' Ht ? f ->. unfold evaluateNativeVectorFilter. by rewrite (decoded_body_alike _ _ Ht). Qed.
#[export] Instance vector_score_alike : Proper (alike ==> eq ==> eq) evaluateNativeVectorFilterWithScore.
Proof. intros t t' Ht ? f ->. unfold evaluateNativeVectorFilterWithScore. by rewrite (decoded_body_alike _ _ Ht). Qed.
#[export] Instance geo_filter_alike : Proper (alike ==> eq ==> eq) evaluateNativeGeoDistanceFilter.
Proof. intros t t' Ht ? f ->. unfold evaluateNativeGeoDistanceFilter. by rewrite (decoded_body_alike _ _ Ht). Qed.
#[export] Instance nested_filter_alike : Proper (alike ==> eq ==> eq) evaluateNativeNestedSliceWhereFilter.
Proof. intros t t' Ht ? f ->. unfold evaluateNativeNestedSliceWhereFilter. by rewrite (decoded_body_alike _ _ Ht). Qed.

#[export] Instance evaluate_group_alike : Proper (alike ==> eq ==> eq) evaluate_group.
Proof.
  intros t t' Ht ? g ->. induction g as [l fs sgs ps vs gs ns IH] using group_ind. cbn [evaluate_group].
  f_equal; try (apply map_ext; intros x; by rewrite !Ht).
  apply map_ext_in. intros sg Hsg. rewrite List.Forall_forall in IH. by apply IH.
Qed.
#[export] Instance native_group_alike : Proper (alike ==> eq ==> eq) evaluateNativeFilterGroup.
Proof. intros t t' Ht ? g ->. destruct g; cbn; [by rewrite !Ht|done]. Qed.

#[export] Instance evaluate_group_meta_alike : Proper (alike ==> eq ==> eq) evaluate_group_meta.
Proof.
  intros t t' Ht ? g ->. induction g as [l fs sgs ps vs gs ns IH] using group_ind. cbn [evaluate_group_meta].
  f_equal; try (apply map_ext; intros x; unfold labelled; by rewrite !Ht).
  apply map_ext_in. intros sg Hsg. rewrite List.Forall_forall in IH. by rewrite IH.
Qed.

Lemma treasureToKeyValuePair_alike : Proper (alike ==> eq) treasureToKeyValuePair.
Proof. intros t t' Ht. unfold treasureToKeyValuePair, Uint32SliceGetAll. by alike Ht. Qed.
End Alike.
#[export] Existing Instance treasureToKeyValuePair_alike.
