(* ===== verification/SwampInv.v ===== *)
(** The invariant between a swamp and its storage.

    [durable] says where the data of every key is: an object the write buffer does not have is
    stored as it is, an object it has will be stored by the next flush, and a deleted one is
    marked in the buffer.  Saving, deleting, flushing and closing keep it. *)
From Stdlib Require Import Floats.SpecFloat.
From S2P Require Import Prelude Steps Types Compressor Block FileSys Reader Contents Log Session.
From S2P Require Import Meta Chronicler Durability Guard Treasure Beacon Canon Bucket Swamp.
#[local] Set Warnings "-clear-no-such-hyp".

(** ** What a chronicler promises *)

Section Contract.
Context `{SI : Store} `{GM : GobModel}.

(** [holds c index]: after a close, loading gives [index]; [sends c]: [Write] hands the names of
    the file to the callback; [unopened c] and [closed c]: before [Load] and after [Close];
    [reopens c c']: [c'] is a new chronicler for the storage [c] leaves. *)
Class StoreOk := {
  file : bytes;
  holds : store -> gmap bytes bytes -> Prop;
  sends : store -> bool;
  unopened : store -> Prop;
  closed : store -> Prop;
  reopens : store -> store -> Prop;
  store_Load c index c' o :
    holds c index -> unopened c -> st_Load (st_Register c) = (c', o) ->
    holds c' index /\ sends c' = true /\ default ∅ o = omap (decode_stored file) index;
  store_Write n ts c index c' ev :
    holds c index -> Forall entry_ok (treasure_entries ts) -> st_Write n ts c = (c', ev) ->
    holds c' (apply_entries (treasure_entries ts) index) /\ sends c' = sends c /\
    (sends c = true -> treasure_entries ts <> [] ->
     ev = Some (map (fun e => (Types.Key e, file)) (treasure_entries ts))) /\
    (forall es, ev = Some es -> es = map (fun e => (Types.Key e, file)) (treasure_entries ts));
  store_Sync c index : holds c index -> holds (st_Sync c) index /\ sends (st_Sync c) = sends c;
  store_DontSend c index : holds c index -> holds (st_DontSendFilePointer c) index;
  store_Close n c index : holds c index -> holds (st_Close n c) index /\ closed (st_Close n c);
  store_reopen c c' index :
    holds c index -> closed c -> reopens c c' -> holds c' index /\ unopened c'
}.
End Contract.

(** ** Frames *)

Section SwampInv.
Context `{SI : Store} `{GM : GobModel} `{GMeta : GobMeta} `{FI : FloatToInt} `{MP : Msgpack} `{SR : SlotRange}.
Context `{HR : KeyRange} `{HS : SortSlice} `{HROk : !KeyRangeOk}.

Definition live (s : swamp) : gmap bytes loc := treasuresByKeys (beaconKey (data s)).
Definition waiting (s : swamp) : gmap bytes loc := treasuresByKeys (treasuresWaitingForWriter (data s)).

(** Everything the storage of the data depends on. *)
Definition core (s : swamp) :=
  (heap (data s), live s, waiting s, creatingTreasures (data s), buckets (data s), chron s, conf s, closing (ctl s)).

Lemma core_deref s s' : core s' = core s -> deref s' = deref s.
Proof. intros [= Hh _ _ _ _ _ _ _]. unfold deref. by rewrite Hh. Qed.

Lemma core_fields s s' : core s' = core s ->
  heap (data s') = heap (data s) /\ live s' = live s /\ waiting s' = waiting s /\
  (creatingTreasures (data s'), buckets (data s'), chron s', conf s', closing (ctl s'))
  = (creatingTreasures (data s), buckets (data s), chron s, conf s, closing (ctl s)).
Proof. intros Hc. injection Hc as -> -> -> -> -> -> -> ->. done. Qed.

Lemma on_beacon_core p o f s : core (on_beacon p o f s) = core s.
Proof. done. Qed.
Lemma add_to_core p a d x s : core (add_to p a d x s) = core s.
Proof. unfold add_to. by destruct (negb _). Qed.
Lemma addTreasureToBeacons_core x s : core (addTreasureToBeacons x s) = core s.
Proof.
  unfold addTreasureToBeacons, addToKeyBeacon, addToCreationTimeBeacon, addToUpdateTimeBeacon,
    addToExpirationTimeBeacon, addToValueBeacon. rewrite add_to_core.
  repeat case_match; by rewrite ?add_to_core.
Qed.
Lemma delete_from_pair_core k p s : core (delete_from_pair k p s) = core s.
Proof. unfold delete_from_pair, deleteTreasureIfBeaconInitialized. by repeat case_match. Qed.
Lemma deleteTreasureFromBeacons_core k s : core (deleteTreasureFromBeacons k s) = core s.
Proof. unfold deleteTreasureFromBeacons. by rewrite !delete_from_pair_core. Qed.
Lemma reindex_core x s : core (reindex x s) = core s.
Proof.
  unfold reindex, addToExpirationTimeBeacon.
  repeat case_match; rewrite ?addTreasureToBeacons_core, ?add_to_core,
    ?deleteTreasureFromBeacons_core, ?delete_from_pair_core; done.
Qed.
Lemma sendSwampInfo_core s : core (sendSwampInfo s) = core s.
Proof. unfold sendSwampInfo. by destruct (negb _). Qed.
Lemma sendEventToHydra_core now a b st s : core (sendEventToHydra now a b st s) = core s.
Proof. unfold sendEventToHydra. by destruct (negb _). Qed.
Lemma sendDeletedEventToClient_core now d s : core (sendDeletedEventToClient now d s) = core s.
Proof. unfold sendDeletedEventToClient. by destruct (negb _). Qed.
Lemma interact_core now s : core (interact now s) = core s.
Proof. done. Qed.
Lemma metadata_update_core now s : core (metadata_update now s) = core s.
Proof. done. Qed.
Lemma key_Get_spec k s : exists s', key_Get k s = (s', live s !! k) /\ core s' = core s.
Proof. by eexists. Qed.
Lemma notify_none f s : buckets (data s) = ∅ -> exists s', notify f s = Next s' /\ core s' = core s.
Proof.
  intros Hb. unfold notify, each_bucket. rewrite Hb, decide_True by apply map_Forall_empty.
  eexists. split; [done|]. unfold core. cbn. by rewrite omap_empty, Hb.
Qed.

(** ** Guards *)

Definition free (t : treasure) : Prop := waitForUnlock (t_guard t) = [] /\ largestGuardID (t_guard t) = 0.
Definition held (t : treasure) : Prop := waitForUnlock (t_guard t) = [1].

Lemma deref_lookup s x t : heap (data s) !! (x : nat) = Some t -> deref s x = t.
Proof. unfold deref. by intros ->. Qed.

Lemma deref_update x t s y :
  (x < length (heap (data s)))%nat -> deref (update x t s) y = if decide (y = x) then t else deref s y.
Proof.
  intros Hx. unfold deref. cbn. case_decide as Hy.
  - subst. by rewrite list_lookup_insert_eq.
  - by rewrite list_lookup_insert_ne.
Qed.

Lemma update_update (x : nat) t t' s : update x t (update x t' s) = update x t s.
Proof.
  unfold update, on_heap, on_data. cbn [heap data beaconKey beacons treasuresWaitingForWriter creatingTreasures buckets].
  by rewrite list_insert_insert_eq.
Qed.

Lemma start_guard_free x auth s :
  free (deref s x) ->
  exists g, start_guard x auth s = Next (update x (put_guard g (deref s x)) s, 1) /\ waitForUnlock g = [1].
Proof.
  intros [Hw Hl]. unfold start_guard, StartTreasureGuard, join, fill_auth.
  case_decide; cbn; rewrite Hw, Hl; by eexists.
Qed.

(** A goroutine that asks for the guard it holds waits for ever. *)
Lemma start_guard_again x auth auth' s s1 s2 :
  free (deref s x) -> start_guard x auth s = Next (s1, 1) -> t_guard (deref s2 x) = t_guard (deref s1 x) ->
  (x < length (heap (data s)))%nat -> start_guard x auth' s2 = Disabled.
Proof.
  intros [Hw Hl] Hst Hg Hx. unfold start_guard, StartTreasureGuard, join, fill_auth in *.
  assert (waitForUnlock (t_guard (deref s1 x)) = [1] /\ largestGuardID (t_guard (deref s1 x)) = 1) as [Hw1 Hl1].
  { case_decide; cbn in Hst; rewrite Hw, Hl in Hst; cbn in Hst; injection Hst as <-;
      rewrite deref_update, decide_True by done; done. }
  rewrite Hg. destruct auth'; repeat case_decide; cbn; rewrite ?Hw1, ?Hl1; done.
Qed.

Lemma release_held x s :
  held (deref s x) -> exists g, release_guard x 1 s = update x (put_guard g (deref s x)) s /\
    waitForUnlock g = [] /\ largestGuardID g = 0.
Proof.
  unfold held. intros Hw. unfold release_guard, ReleaseTreasureGuard. rewrite Hw. by eexists.
Qed.
Lemma release_free x g s :
  free (deref s x) -> (x < length (heap (data s)))%nat ->
  core (release_guard x g s) = core s.
Proof.
  intros [Hw _] Hx. unfold release_guard, ReleaseTreasureGuard. rewrite Hw. cbn [fst].
  assert (<[x := put_guard (t_guard (deref s x)) (deref s x)]> (heap (data s)) = heap (data s)) as E.
  { destruct (lookup_lt_is_Some_2 _ _ Hx) as [t Ht]. apply list_insert_id.
    rewrite (deref_lookup _ _ _ Ht), Ht. by destruct t. }
  unfold core. cbn. by rewrite E.
Qed.

(** ** The invariant *)

(** *** What survives the encoding

    [gob] sends the value a pointer field points to, and no zero values: a pointer to a zero
    value comes back as nil. *)
Definition sent_number (o : option Z) : option Z := match o with Some 0 => None | _ => o end.
Definition sent_float (o : option spec_float) : option spec_float :=
  match o with Some f => if SFeqb f (S754_zero false) then None else Some f | None => None end.
Definition sent_bytes (o : option bytes) : option bytes := match o with Some [] => None | _ => o end.
Definition sent_bool (o : option bool) : option bool := match o with Some false => None | _ => o end.
Definition sent_content (c : Content) : Content :=
  {| c_Void := c_Void c; c_Uint8 := sent_number (c_Uint8 c); c_Uint16 := sent_number (c_Uint16 c);
     c_Uint32 := sent_number (c_Uint32 c); c_Uint64 := sent_number (c_Uint64 c);
     c_Int8 := sent_number (c_Int8 c); c_Int16 := sent_number (c_Int16 c);
     c_Int32 := sent_number (c_Int32 c); c_Int64 := sent_number (c_Int64 c);
     c_Float32 := sent_float (c_Float32 c); c_Float64 := sent_float (c_Float64 c);
     c_String := sent_bytes (c_String c); c_Boolean := sent_bool (c_Boolean c);
     c_ByteArray := sent_bytes (c_ByteArray c); c_Uint32Slice := sent_bytes (c_Uint32Slice c) |}.
Definition transmitted (m : Model) : Model :=
  {| m_Key := m_Key m; m_Content := sent_content <$> m_Content m; m_CreatedAt := m_CreatedAt m;
     m_CreatedBy := m_CreatedBy m; m_DeletedAt := m_DeletedAt m; m_DeletedBy := m_DeletedBy m;
     m_ModifiedAt := m_ModifiedAt m; m_ModifiedBy := m_ModifiedBy m;
     m_ExpirationTime := m_ExpirationTime m; m_FileName := sent_bytes (m_FileName m) |}.

Lemma transmitted_idem f m :
  transmitted (with_file None (with_file f (transmitted m))) = transmitted (with_file None m).
Proof.
  assert (forall o, sent_number (sent_number o) = sent_number o) as Hn by (by intros [[]|]).
  assert (forall o, sent_float (sent_float o) = sent_float o) as Hf.
  { intros [x|]; [|done]. cbn. destruct (SFeqb x _) eqn:E; [done|]. cbn. by rewrite E. }
  assert (forall o, sent_bytes (sent_bytes o) = sent_bytes o) as Hb by (by intros [[]|]).
  assert (forall o, sent_bool (sent_bool o) = sent_bool o) as Hbo by (by intros [[]|]).
  unfold transmitted, with_file. cbn. f_equal. destruct (m_Content m) as [c|]; [|done]. cbn. f_equal.
  unfold sent_content. cbn. by rewrite !Hn, !Hf, !Hb, !Hbo.
Qed.

(** Two models nobody can tell apart once they are stored. *)
Definition same_stored (m m' : Model) : Prop :=
  transmitted (with_file None m) = transmitted (with_file None m').

(** The stored bytes are those of the object, with whatever file name it had then. *)
Definition stored_as (t : treasure) (d : bytes) : Prop :=
  exists m, encode_model m = Some d /\ same_stored m (t_model t).

Definition key_fits (k : bytes) : Prop := k <> [] /\ Z.of_nat (length k) < 2 ^ 16.
Context `{HOk : !StoreOk}.

(** The object can be encoded, in less than a gigabyte. *)
Definition fits (t : treasure) : Prop :=
  key_fits (GetKey t) /\ (GetFileName t = None \/ GetFileName t = Some file) /\
  forall f, f = None \/ f = Some file ->
    exists d, encode_model (with_file f (t_model t)) = Some d /\ Z.of_nat (length d) < 2 ^ 30.

Record durable (h : option loc) (s : swamp) (index : gmap bytes bytes) : Prop := {
  du_mem : inMemorySwamp (conf s) = false;
  du_buckets : buckets (data s) = ∅;
  du_store : exists c, chron s = Some c /\ holds c index;
  du_guard (x : nat) t : heap (data s) !! x = Some t ->
    (h = Some x -> held t) /\ (h <> Some x -> free t);
  du_live k x : live s !! k = Some x ->
    (x < length (heap (data s)))%nat /\ key_at s x = k /\ GetDeletedAt (deref s x) = 0 /\ fits (deref s x);
  du_wait k x : waiting s !! k = Some x ->
    (x < length (heap (data s)))%nat /\ key_at s x = k /\ key_fits k /\
    (live s !! k = Some x \/ live s !! k = None /\ 0 < GetDeletedAt (deref s x));
  du_creating k x : creatingTreasures (data s) !! k = Some x ->
    (x < length (heap (data s)))%nat /\ key_at s x = k /\ GetDeletedAt (deref s x) = 0;
  du_clean k : waiting s !! k = None ->
    match live s !! k with
    | Some x => exists d, index !! k = Some d /\ stored_as (deref s x) d
    | None => index !! k = None
    end
}.

Lemma durable_core h s s' index : core s' = core s -> durable h s index -> durable h s' index.
Proof.
  intros Hc. pose proof (core_deref _ _ Hc) as Hd. injection Hc as Hh Hl Hw Hcr Hb Hch Hcf Hcl.
  intros []. split; unfold key_at in *; rewrite ?Hd, ?Hh, ?Hl, ?Hw, ?Hcr, ?Hb, ?Hch, ?Hcf; done.
Qed.

(** One object changes, with its key's places. *)
Lemma durable_put h h' s s' index (x : nat) t k :
  durable h s index -> (x < length (heap (data s)))%nat -> key_at s x = k -> GetKey t = k ->
  heap (data s') = <[x := t]> (heap (data s)) ->
  buckets (data s') = buckets (data s) -> chron s' = chron s -> conf s' = conf s ->
  (h' = Some x -> held t) /\ (h' <> Some x -> free t) ->
  (forall y : nat, y <> x -> h' = Some y <-> h = Some y) ->
  (forall k', k' <> k -> live s' !! k' = live s !! k' /\ waiting s' !! k' = waiting s !! k') ->
  (forall k' y, creatingTreasures (data s') !! k' = Some y ->
     y = x /\ k' = k /\ GetDeletedAt t = 0 \/ y <> x /\ creatingTreasures (data s) !! k' = Some y) ->
  (forall y, live s' !! k = Some y -> y = x /\ GetDeletedAt t = 0 /\ fits t) ->
  (forall y, waiting s' !! k = Some y -> y = x /\ key_fits k /\
     (live s' !! k = Some x \/ live s' !! k = None /\ 0 < GetDeletedAt t)) ->
  (waiting s' !! k = None ->
    match live s' !! k with
    | Some _ => exists d, index !! k = Some d /\ stored_as t d
    | None => index !! k = None
    end) ->
  durable h' s' index.
Proof.
  intros Hdu Hx Hk Ht Hh Hb Hc Hcf Hg Hothers Hoff Hcr Hlive Hwait Hclean.
  assert (forall y, deref s' y = if decide (y = x) then t else deref s y) as Hd.
  { intros y. unfold deref. rewrite Hh. destruct (decide (y = x)) as [->|Hy].
    - by rewrite list_lookup_insert_eq.
    - by rewrite list_lookup_insert_ne. }
  assert (length (heap (data s')) = length (heap (data s))) as Hlen by (by rewrite Hh, length_insert).
  assert (forall k' y, k' <> k -> key_at s y = k' -> y <> x) as Hne by (intros k' y ? ? ->; congruence).
  split.
  - rewrite Hcf. apply Hdu.
  - rewrite Hb. apply Hdu.
  - rewrite Hc. apply Hdu.
  - intros y u. rewrite Hh. intros [[<- [<- _]]|[Hy Hu]]%list_lookup_insert_Some; [done|].
    pose proof (du_guard _ _ _ Hdu _ _ Hu) as Hgu. specialize (Hothers y (not_eq_sym Hy)).
    by rewrite Hothers.
  - intros k' y Hl. rewrite Hlen. unfold key_at. rewrite Hd. destruct (decide (k' = k)) as [->|Hkk].
    + destruct (Hlive _ Hl) as (-> & ? & ?). by rewrite decide_True.
    + rewrite (proj1 (Hoff _ Hkk)) in Hl. destruct (du_live _ _ _ Hdu _ _ Hl) as (? & Hy & ?).
      rewrite decide_False by eauto. auto.
  - intros k' y Hw. rewrite Hlen. unfold key_at. rewrite Hd. destruct (decide (k' = k)) as [->|Hkk].
    + destruct (Hwait _ Hw) as (-> & ? & ?). by rewrite decide_True.
    + destruct (Hoff _ Hkk) as [Hl Hw']. rewrite Hl. rewrite Hw' in Hw.
      destruct (du_wait _ _ _ Hdu _ _ Hw) as (? & Hy & ?). rewrite decide_False by eauto. auto.
  - intros k' y Hc'. rewrite Hlen. unfold key_at. rewrite Hd.
    destruct (Hcr _ _ Hc') as [(-> & -> & ?)|[Hy Hc2]].
    + by rewrite decide_True.
    + rewrite decide_False by done. by apply (du_creating _ _ _ Hdu).
  - intros k' Hw. destruct (decide (k' = k)) as [->|Hkk].
    + specialize (Hclean Hw). destruct (live s' !! k) as [y|] eqn:Hl; [|done].
      destruct (Hlive _ eq_refl) as (-> & _). by rewrite Hd, decide_True.
    + destruct (Hoff _ Hkk) as [Hl Hw']. rewrite Hl. rewrite Hw' in Hw.
      pose proof (du_clean _ _ _ Hdu _ Hw) as Hcl. destruct (live s !! k') as [y|] eqn:Hy; [|done].
      destruct (du_live _ _ _ Hdu _ _ Hy) as (_ & Hky & _). rewrite Hd, decide_False by eauto. done.
Qed.

Lemma deref_in s (x : nat) : (x < length (heap (data s)))%nat -> heap (data s) !! x = Some (deref s x).
Proof.
  intros Hx. destruct (lookup_lt_is_Some_2 _ _ Hx) as [t Ht]. by rewrite Ht, (deref_lookup _ _ _ Ht).
Qed.

(** A change of an object that keeps its model. *)
Lemma durable_same h h' s index (x : nat) t :
  durable h s index -> (x < length (heap (data s)))%nat -> t_model t = t_model (deref s x) ->
  (h' = Some x -> held t) /\ (h' <> Some x -> free t) ->
  (forall y : nat, y <> x -> h' = Some y <-> h = Some y) ->
  durable h' (update x t s) index.
Proof.
  intros Hdu Hx Hm Hg Ho.
  set (s' := update x t s).
  assert (forall y, t_model (deref s' y) = t_model (deref s y)) as Hd.
  { intros y. unfold s'. rewrite deref_update by done. by case_decide; subst. }
  assert (length (heap (data s')) = length (heap (data s))) as Hlen by apply length_insert.
  destruct Hdu as [Hmem Hb Hc Hgu Hl Hw Hcr Hcl].
  split; unfold key_at, fits, stored_as, GetKey, GetDeletedAt, GetFileName in *; try done.
  - intros y u [[<- [<- _]]|[Hy Hu]]%list_lookup_insert_Some; [done|].
    rewrite Ho by done. by apply Hgu.
  - intros k y. rewrite Hlen, Hd. apply Hl.
  - intros k y. rewrite Hlen, Hd. apply Hw.
  - intros k y. rewrite Hlen, Hd. apply Hcr.
  - intros k Hk. specialize (Hcl k Hk). change (live s') with (live s).
    destruct (live s !! k) as [y|]; [|done]. by rewrite Hd.
Qed.

Lemma start_guard_durable s index (x : nat) auth :
  durable None s index -> (x < length (heap (data s)))%nat ->
  exists g, let t := put_guard g (deref s x) in
    start_guard x auth s = Next (update x t s, 1) /\ waitForUnlock g = [1] /\
    durable (Some x) (update x t s) index /\ deref (update x t s) x = t.
Proof.
  intros Hdu Hx. assert (free (deref s x)) as Hf by (by apply (du_guard _ _ _ Hdu _ _ (deref_in _ _ Hx))).
  destruct (start_guard_free x auth s Hf) as (g & E & Hg). exists g. cbn zeta.
  split_and!; [done|done| |by rewrite deref_update, decide_True].
  apply (durable_same None); try done. intros y Hy. split; [by intros [= ->]|done].
Qed.

Lemma release_guard_durable s index (x : nat) :
  durable (Some x) s index -> (x < length (heap (data s)))%nat ->
  exists g, release_guard x 1 s = update x (put_guard g (deref s x)) s /\
    durable None (release_guard x 1 s) index.
Proof.
  intros Hdu Hx. assert (held (deref s x)) as Hh by (by apply (du_guard _ _ _ Hdu _ _ (deref_in _ _ Hx))).
  destruct (release_held x s Hh) as (g & E & Hw & Hl). exists g. split; [done|]. rewrite E.
  apply (durable_same (Some x)); try done. intros y Hy. split; [done|by intros [= ->]].
Qed.

(** ** Creating *)

(** The object the next save of [k] starts from. *)
Definition current (k : bytes) (s : swamp) : treasure :=
  match live s !! k with
  | Some x => deref s x
  | None =>
      match creatingTreasures (data s) !! k with
      | Some x => deref s x
      | None => put_Key k Treasure.New
      end
  end.

Lemma durable_new s s' index t k :
  durable None s index -> heap (data s') = heap (data s) ++ [t] ->
  creatingTreasures (data s') = <[k := length (heap (data s))]> (creatingTreasures (data s)) ->
  live s' = live s -> waiting s' = waiting s -> buckets (data s') = buckets (data s) ->
  chron s' = chron s -> conf s' = conf s -> GetKey t = k -> GetDeletedAt t = 0 -> free t ->
  durable None s' index.
Proof.
  intros [Hmem Hb Hc Hgu Hl Hw Hcr Hcl] Hh Hcreat Hlive Hwait Hbk Hch Hcf Hk Hda Hf.
  set (n := length (heap (data s))) in *.
  assert (forall y, (y < n)%nat -> deref s' y = deref s y) as Hold
    by (intros y Hy; unfold deref; by rewrite Hh, lookup_app_l).
  assert (deref s' n = t) as Hnew by (unfold deref; by rewrite Hh, list_lookup_middle).
  assert (length (heap (data s')) = S n) as Hlen by (rewrite Hh, length_app; cbn; lia).
  split; rewrite ?Hcf, ?Hbk, ?Hch, ?Hlive, ?Hwait; try done.
  - intros y u. rewrite Hh. intros [Hy|[Hy Hu]]%lookup_app_Some; [by apply Hgu|].
    apply list_lookup_singleton_Some in Hu as [_ <-]. done.
  - intros k' y Hy. destruct (Hl _ _ Hy) as (? & ? & ?). unfold key_at. rewrite Hold, Hlen by done.
    split; [lia|done].
  - intros k' y Hy. destruct (Hw _ _ Hy) as (? & ? & ?). unfold key_at. rewrite Hold, Hlen by done.
    split; [lia|done].
  - intros k' y. rewrite Hcreat. intros [[<- <-]|[_ Hy]]%lookup_insert_Some.
    + unfold key_at. rewrite Hnew, Hlen. split; [lia|done].
    + destruct (Hcr _ _ Hy) as (? & ? & ?). unfold key_at. rewrite Hold, Hlen by done. split; [lia|done].
  - intros k' Hk'. specialize (Hcl k' Hk'). destruct (live s !! k') as [y|] eqn:Hy; [|done].
    destruct (Hl _ _ Hy) as (? & _). by rewrite Hold.
Qed.

(** What [CreateTreasure] does: [x] is the object of [k], new or not, with the model the next
    save starts from; nothing else has changed. *)
Record created (k : bytes) (x : nat) (s s1 : swamp) : Prop := {
  ct_in : (x < length (heap (data s1)))%nat;
  ct_key : key_at s1 x = k;
  ct_deleted : GetDeletedAt (deref s1 x) = 0;
  ct_model : t_model (deref s1 x) = t_model (current k s);
  ct_flags : t_flags (deref s1 x) = t_flags (current k s);
  ct_rest : (live s1, waiting s1, closing (ctl s1), conf s1, chron s1) = (live s, waiting s, closing (ctl s), conf s, chron s);
  ct_new : live s !! k = None -> creatingTreasures (data s1) = <[k := x]> (creatingTreasures (data s));
  ct_there : is_Some (live s !! k) -> creatingTreasures (data s1) = creatingTreasures (data s);
  ct_old y : (y < length (heap (data s)))%nat -> deref s1 y = deref s y;
  ct_one y : live s !! k = Some y -> y = x
}.

Lemma CreateTreasure_durable s index k :
  durable None s index ->
  exists s1 x, CreateTreasure k s = Next (s1, x) /\ durable None s1 index /\ created k x s s1.
Proof.
  intros Hdu. unfold CreateTreasure. destruct (key_Get_spec k s) as (s0 & -> & Hc0).
  pose proof (core_deref _ _ Hc0) as Hd0. pose proof (durable_core _ _ _ _ Hc0 Hdu) as Hdu0.
  pose proof Hc0 as Hc0'. injection Hc0' as Hh Hl Hw Hcr Hb Hch Hcf Hcl.
  destruct (live s !! k) as [x|] eqn:Hx.
  { destruct (du_live _ _ _ Hdu _ _ Hx) as (? & ? & ? & ?). exists s0, x. split_and!; try done.
    split; unfold key_at; rewrite ?Hd0, ?Hh; unfold current; rewrite ?Hx; try done; congruence. }
  rewrite Hcr. destruct (creatingTreasures (data s) !! k) as [x|] eqn:Hx'.
  { destruct (du_creating _ _ _ Hdu _ _ Hx') as (? & ? & ?). exists s0, x. split_and!; try done.
    split; unfold key_at; rewrite ?Hd0, ?Hh; unfold current; rewrite ?Hx, ?Hx'; try done; try congruence.
    intros _. rewrite Hcr. symmetry. by apply insert_id. }
  set (n := length (heap (data s0))). set (s1 := on_heap _ s0).
  assert (deref s1 n = Treasure.New) as Hn by (unfold deref, s1, n; cbn; by rewrite list_lookup_middle).
  assert (n < length (heap (data s1)))%nat as Hlt by (unfold s1, n; cbn; rewrite length_app; cbn; lia).
  destruct (start_guard_free n (Some BodyAuthID) s1) as (g & -> & Hg); [by rewrite Hn|]. rewrite Hn. cbn [obind].
  set (t1 := put_guard g Treasure.New). set (s2 := update n t1 s1).
  assert (deref s2 n = t1) as Hn2 by (unfold s2; by rewrite deref_update, decide_True).
  unfold set_on, BodySetKey. rewrite Hn2, (with_guard_err_runs _ _ _ []) by done. cbn [of_panic obind].
  set (t2 := put_Key k (put_Deleted 0 [] t1)). set (s3 := update n t2 s2).
  assert (n < length (heap (data s2)))%nat as Hlt2 by (unfold s2; cbn; by rewrite length_insert).
  assert (deref s3 n = t2) as Hn3 by (unfold s3; by rewrite deref_update, decide_True).
  destruct (release_held n s3) as (g' & -> & Hg1 & Hg2); [by rewrite Hn3|]. rewrite Hn3.
  set (t3 := put_guard g' t2). set (s4 := on_creating _ _).
  assert (heap (data s4) = heap (data s) ++ [t3]) as Hheap.
  { unfold s4, s3, s2, s1. cbn. unfold n. rewrite !list_insert_insert_eq, Hh.
    by rewrite insert_app_r_alt, Nat.sub_diag by lia. }
  assert (deref s4 n = t3) as Hn4.
  { unfold deref. rewrite Hheap. unfold n. rewrite Hh. by rewrite list_lookup_middle. }
  exists s4, n. split; [done|]. split; [|split; unfold key_at, current; rewrite ?Hn4, ?Hx, ?Hx'; try done].
  - apply (durable_new s s4 index t3 k Hdu Hheap); try done.
    unfold s4. cbn. rewrite Hcr. unfold n. by rewrite Hh.
  - rewrite Hheap, length_app. unfold n. rewrite Hh. cbn. lia.
  - change ((live s0, waiting s0, closing (ctl s0), conf s0, chron s0) =
      (live s, waiting s, closing (ctl s), conf s, chron s)). congruence.
  - intros _. unfold s4. cbn. by rewrite Hcr.
  - intros y Hy. unfold deref. by rewrite Hheap, lookup_app_l.
Qed.
(** ** Flushing *)

Definition all_free (s : swamp) : Prop := forall x t, heap (data s) !! (x : nat) = Some t -> free t.

(** Only models and guards change, the models by [R]. *)
Record framed (R : Model -> Model -> Prop) (s s' : swamp) : Prop := {
  fr_len : length (heap (data s')) = length (heap (data s));
  fr_model y : R (t_model (deref s y)) (t_model (deref s' y));
  fr_rest : (live s', waiting s', creatingTreasures (data s'), buckets (data s'), chron s', conf s', closing (ctl s'))
    = (live s, waiting s, creatingTreasures (data s), buckets (data s), chron s, conf s, closing (ctl s))
}.

Lemma framed_refl R s s' : Reflexive R -> core s' = core s -> framed R s s'.
Proof.
  intros HRf Hc. pose proof (core_deref _ _ Hc) as Hd. injection Hc as Hh Hl Hw Hcr Hb Hch Hcf Hcl.
  split; [by rewrite Hh|intros y; by rewrite Hd|congruence].
Qed.
Lemma framed_trans R s1 s2 s3 : Transitive R -> framed R s1 s2 -> framed R s2 s3 -> framed R s1 s3.
Proof.
  intros HT [Hl1 Hm1 Hr1] [Hl2 Hm2 Hr2]. split; [congruence| |congruence].
  intros y. by etrans.
Qed.

Lemma framed_update (R : Model -> Model -> Prop) s (x : nat) t :
  Reflexive R -> R (t_model (deref s x)) (t_model t) -> (x < length (heap (data s)))%nat ->
  framed R s (update x t s).
Proof.
  intros HRf Hm Hx. split; [apply length_insert| |done].
  intros y. rewrite deref_update by done. by case_decide; subst.
Qed.

Lemma all_free_update s (x : nat) t : all_free s -> free t -> all_free (update x t s).
Proof. intros Hs Ht y u [[_ [<- _]]|[_ Hu]]%list_lookup_insert_Some; [done|]. by eapply Hs. Qed.

(** Taking the guard, changing the object and giving the guard back. *)
Lemma guard_section (R : Model -> Model -> Prop) s (x : nat) auth f :
  Reflexive R -> all_free s -> (x < length (heap (data s)))%nat ->
  (forall t, held t -> exists t', f t = Some t' /\ t_guard t' = t_guard t /\ R (t_model t) (t_model t')) ->
  exists g t' s', start_guard x auth s = Next (update x (put_guard g (deref s x)) s, 1) /\
    set_on x f (update x (put_guard g (deref s x)) s) = Next s' /\
    held (put_guard g (deref s x)) /\ f (put_guard g (deref s x)) = Some t' /\
    framed R s (release_guard x 1 s') /\ all_free (release_guard x 1 s') /\
    t_model (deref (release_guard x 1 s') x) = t_model t' /\
    (forall y, y <> x -> deref (release_guard x 1 s') y = deref s y).
Proof.
  intros HRf Hs Hx Hf.
  destruct (start_guard_free x auth s) as (g & E & Hg); [by eapply Hs, deref_in|].
  destruct (Hf (put_guard g (deref s x))) as (t' & Et & Hgt & Hm); [done|].
  set (s1 := update x (put_guard g (deref s x)) s).
  assert (deref s1 x = put_guard g (deref s x)) as Hd1 by (unfold s1; by rewrite deref_update, decide_True).
  assert (x < length (heap (data s1)))%nat as Hx1 by (unfold s1; cbn; by rewrite length_insert).
  exists g, t', (update x t' s1). split; [done|].
  split; [unfold set_on; fold s1; by rewrite Hd1, Et|]. split; [done|]. split; [done|].
  assert (deref (update x t' s1) x = t') as Hd2 by (by rewrite deref_update, decide_True).
  destruct (release_held x (update x t' s1)) as (g' & -> & Hw & Hl).
  { rewrite Hd2. unfold held. by rewrite Hgt. }
  rewrite Hd2. set (s2 := update x (put_guard g' t') (update x t' s1)).
  assert (s2 = update x (put_guard g' t') s) as ->.
  { unfold s2, s1, update, on_heap, on_data. cbn. by rewrite !list_insert_insert_eq. }
  split_and!.
  - by apply framed_update.
  - by apply all_free_update.
  - by rewrite deref_update, decide_True.
  - intros y Hy. by rewrite deref_update, decide_False.
Qed.

Lemma guard_pass s (x : nat) auth :
  all_free s -> (x < length (heap (data s)))%nat ->
  exists g, start_guard x auth s = Next (update x (put_guard g (deref s x)) s, 1) /\
    let s' := release_guard x 1 (update x (put_guard g (deref s x)) s) in
    framed eq s s' /\ all_free s' /\ (forall y, t_model (deref s' y) = t_model (deref s y)).
Proof.
  intros Hs Hx. destruct (guard_section eq s x auth Some _ Hs Hx) as (g & t' & s' & E & Es & _ & Ht & Hfr & Haf & _).
  { intros t Ht. by exists t. }
  exists g. split; [done|]. cbn zeta.
  assert (s' = update x (put_guard g (deref s x)) s) as <-.
  { unfold set_on in Es. rewrite deref_update, decide_True in Es by done. cbn in Es. injection Es as <-.
    unfold update, on_heap, on_data. cbn. by rewrite !list_insert_insert_eq. }
  split_and!; [done|done|]. intros y. symmetry. apply (fr_model _ _ _ Hfr).
Qed.

(** *** What a batch does to the stored data *)

Lemma treasure_entries_cons t e ts :
  treasure_entry t = Some e -> treasure_entries (t :: ts) = e :: treasure_entries ts.
Proof. intros He. unfold treasure_entries. cbn. by rewrite He. Qed.

Lemma apply_one t e index k :
  treasure_entry t = Some e ->
  apply_entries [e] index !! k =
    if decide (k = t_key t) then if decide (0 < t_deletedAt t) then None else t_bytes t else index !! k.
Proof.
  unfold treasure_entry, apply_entries. intros He.
  destruct (decide (0 < t_deletedAt t)) as [Hd|Hd].
  - injection He as <-. cbn [foldl index_entry Operation Types.Key]. rewrite decide_True by done.
    cbn. case_decide as Hk; [subst; apply lookup_delete_eq|by apply lookup_delete_ne].
  - destruct (t_bytes t) as [d|]; [|done]. injection He as <-.
    destruct (t_fileName t); cbn [foldl index_entry Operation Types.Key Data];
      rewrite decide_False, decide_True by auto; cbn.
    all: case_decide as Hk; [subst; apply lookup_insert_eq|by apply lookup_insert_ne].
Qed.

Lemma apply_batch ts index :
  Forall (fun t => is_Some (treasure_entry t)) ts -> NoDup (map t_key ts) ->
  (forall k, k ∉ map t_key ts -> apply_entries (treasure_entries ts) index !! k = index !! k) /\
  (forall t, t ∈ ts -> apply_entries (treasure_entries ts) index !! t_key t =
     if decide (0 < t_deletedAt t) then None else t_bytes t).
Proof.
  revert index. induction ts as [|t ts IH]; intros index Hall Hnd; [by split; intros; [|set_solver]|].
  apply Forall_cons in Hall as [[e He] Hall]. apply NoDup_cons in Hnd as [Hnin Hnd].
  rewrite (treasure_entries_cons _ _ _ He).
  destruct (IH (apply_entries [e] index) Hall Hnd) as [IH1 IH2].
  split.
  - intros k Hk. rewrite apply_entry_snoc, IH1 by set_solver.
    rewrite (apply_one _ _ _ _ He), decide_False by set_solver. done.
  - intros t' [->|Ht']%elem_of_cons.
    + by rewrite apply_entry_snoc, IH1, (apply_one _ _ _ _ He), decide_True.
    + by rewrite apply_entry_snoc, IH2.
Qed.

(** *** The steps of a flush *)

Lemma read_all_framed xs s :
  all_free s -> Forall (fun x => x < length (heap (data s)))%nat xs ->
  exists s', read_all xs s = Next (s', map (fun x => saved_of (deref s x)) xs) /\ framed eq s s' /\ all_free s'.
Proof.
  revert s. induction xs as [|x xs IH]; intros s Hs Hxs; cbn [read_all map].
  { exists s. split_and!; [done|by apply framed_refl|done]. }
  apply Forall_cons in Hxs as [Hx Hxs].
  destruct (guard_pass s x (Some BodyAuthID) Hs Hx) as (g & -> & Hfr & Haf & Hm). cbn [obind].
  set (s1 := update x _ s) in *.
  destruct (IH (release_guard x 1 s1) Haf) as (s2 & -> & Hfr2 & Haf2).
  { by rewrite (fr_len _ _ _ Hfr). }
  exists s2. cbn [obind]. split_and!; [|by eapply framed_trans; [apply _|done|done]|done].
  do 2 f_equal. f_equal.
  - unfold s1. rewrite deref_update, decide_True by done. done.
  - apply map_ext. intros y. unfold saved_of, GetKey, GetDeletedAt, GetFileName. by rewrite Hm.
Qed.

Definition renames (m m' : Model) : Prop := m' = m \/ m' = with_file (Some file) m.
#[local] Instance renames_refl : Reflexive renames.
Proof. by left. Qed.
#[local] Instance renames_trans : Transitive renames.
Proof. intros a b c [->| ->] [->| ->]; unfold renames; auto. Qed.

Lemma renames_name m m' : renames m m' -> m_FileName m = Some file -> m_FileName m' = Some file.
Proof. by intros [->| ->]. Qed.

Lemma file_pointers_framed es s :
  all_free s -> (forall k x, live s !! k = Some x -> x < length (heap (data s)))%nat ->
  Forall (fun e => e.2 = file) es ->
  exists s', file_pointers es s = Next s' /\ framed renames s s' /\ all_free s' /\
    (forall k x, (k, file) ∈ es -> k <> [] -> live s !! k = Some x -> GetFileName (deref s' x) = Some file).
Proof.
  revert s. induction es as [|[k p] es IH]; intros s Hs Hl Hes; cbn [file_pointers].
  { exists s. split_and!; [done|by apply framed_refl; [apply _|]|done|]. intros k x Hin. by apply elem_of_nil in Hin. }
  apply Forall_cons in Hes as [Hp Hes]. cbn in Hp. subst p. case_decide as Hk.
  { destruct (IH s Hs Hl Hes) as (s' & -> & Hfr & Haf & Hn). exists s'. split_and!; [done..|].
    intros k' x [[= -> ]|Hin]%elem_of_cons; [done|]. by apply Hn. }
  destruct (key_Get_spec k s) as (s0 & -> & Hc0). pose proof (core_deref _ _ Hc0) as Hd0.
  pose proof (framed_refl renames _ _ _ Hc0) as Hfr0.
  injection Hc0 as Hh0 Hl0 Hw0 Hcr0 Hb0 Hch0 Hcf0 Hcl0.
  assert (all_free s0) as Hs0 by (unfold all_free; by rewrite Hh0).
  destruct (live s !! k) as [x|] eqn:Hx.
  2:{ destruct (IH s0 Hs0) as (s' & -> & Hfr & Haf & Hn); [by rewrite Hl0, Hh0|done|].
      exists s'. split_and!; [done|by eapply framed_trans; [apply _|done|done]|done|].
      intros k' y [[= ->]|Hin]%elem_of_cons Hne Hy; [congruence|]. apply (Hn k'); by rewrite ?Hl0. }
  assert (x < length (heap (data s0)))%nat as Hx0 by (rewrite Hh0; by eapply Hl).
  destruct (guard_section renames s0 x (Some BodyAuthID) (BodySetFileName 1 file) _ Hs0 Hx0)
    as (g & t' & s1 & -> & Es & Hg & Et & Hfr1 & Haf1 & Hm1 & _).
  { intros t Ht. exists (put_FileName (Some file) t). split_and!; [|done|by right].
    by apply (with_guard_err_runs _ _ _ []). }
  cbn [obind]. rewrite Es. cbn [obind]. set (s2 := release_guard x 1 s1) in *.
  pose proof (fr_rest _ _ _ Hfr1) as Hr. injection Hr as Hl2 _ _ _ _ _ _.
  destruct (IH s2 Haf1) as (s' & -> & Hfr2 & Haf2 & Hn).
  { intros k' y. rewrite Hl2, Hl0, (fr_len _ _ _ Hfr1), Hh0. apply Hl. }
  { done. }
  exists s'. split_and!; [done| |done|].
  - eapply framed_trans; [apply _|done|]. by eapply framed_trans; [apply _|done|].
  - intros k' y [[= ->]|Hin]%elem_of_cons Hne Hy.
    + assert (y = x) as -> by congruence. apply (renames_name (t_model (deref s2 x))); [apply Hfr2|].
      rewrite Hm1. unfold BodySetFileName in Et. rewrite (with_guard_err_runs _ _ _ []) in Et by done.
      by injection Et as <-.
    + apply (Hn k'); [done|done|]. by rewrite Hl2, Hl0.
Qed.

Lemma iterate_all (l : list loc) : iterate_loop (fun _ => true) l = l.
Proof. induction l as [|x l IH]; [done|]. cbn. by rewrite IH. Qed.

(** Everything but the write buffer. *)
Definition off_waiting (s : swamp) :=
  (heap (data s), live s, creatingTreasures (data s), buckets (data s), chron s, conf s, closing (ctl s)).

Lemma collect_waiting_spec s :
  (forall k x, waiting s !! k = Some x -> key_at s x = k) ->
  exists s' xs, collect_waiting s = (s', xs) /\ xs ≡ₚ (map_to_list (waiting s)).*2 /\
    off_waiting s' = off_waiting s /\ waiting s' = ∅.
Proof.
  intros Hk. unfold collect_waiting, Iterate. rewrite iterate_all.
  set (xs := (key_range (waiting s)).*2). change (key_range _).*2 with xs.
  assert (xs ≡ₚ (map_to_list (waiting s)).*2) as Hp by (unfold xs; by rewrite key_range_perm).
  assert (forall xs s0, off_waiting (foldl (fun s x => delete_waiting (key_at s x) s) s0 xs) = off_waiting s0 /\
    forall k, waiting (foldl (fun s x => delete_waiting (key_at s x) s) s0 xs) !! k =
      if decide (k ∈ map (key_at s0) xs) then None else waiting s0 !! k) as Hfold.
  { clear. induction xs as [|x xs IH]; intros s; cbn [foldl map].
    { split; [done|]. intros k. by rewrite decide_False by apply not_elem_of_nil. }
    destruct (IH (delete_waiting (key_at s x) s)) as [Ho Hw]. split; [by rewrite Ho|].
    intros k. rewrite Hw. change (key_at (delete_waiting (key_at s x) s)) with (key_at s).
    change (waiting (delete_waiting (key_at s x) s)) with (delete (key_at s x) (waiting s)).
    destruct (decide (k = key_at s x)) as [->|Hne].
    - rewrite (decide_True (P := _ ∈ _ :: _)) by set_solver. case_decide; [done|apply lookup_delete_eq].
    - rewrite lookup_delete_ne by done. repeat case_decide; set_solver. }
  destruct (Hfold xs s) as [Ho Hw]. eexists _, xs. split_and!; [done|done|done|].
  apply map_eq. intros k. rewrite lookup_empty, Hw. case_decide as Hin; [done|].
  destruct (waiting s !! k) as [x|] eqn:Hx; [|done]. exfalso. apply Hin.
  rewrite <-(Hk _ _ Hx). apply list_elem_of_fmap_2. rewrite Hp.
  apply (list_elem_of_fmap_2 snd _ (k, x)). by apply elem_of_map_to_list.
Qed.

Lemma with_own_file m : with_file (m_FileName m) m = m.
Proof. by destruct m. Qed.

(** The entry of a waiting object. *)
Lemma saved_entry s h index k x :
  durable h s index -> waiting s !! k = Some x ->
  let t := saved_of (deref s x) in
  t_key t = k /\ (exists e, treasure_entry t = Some e /\ entry_ok e) /\
  match live s !! k with
  | Some y => y = x /\ ~ 0 < t_deletedAt t /\ exists d, t_bytes t = Some d /\ stored_as (deref s x) d
  | None => 0 < t_deletedAt t
  end.
Proof.
  intros Hdu Hw. destruct (du_wait _ _ _ Hdu _ _ Hw) as (Hx & Hk & [Hne Hlen] & Hcase).
  cbn zeta. split; [done|]. unfold key_at in Hk.
  assert (forall op d, in_u8 op -> Z.of_nat (length d) < 2 ^ 30 ->
    entry_ok {| Operation := op; Types.Key := k; Data := d |}) as Hok.
  { intros op d Ho Hd. split; [|done]. unfold entry_wf. cbn. by split_and!; [| | |lia]. }
  destruct Hcase as [Hl|[Hl Hda]]; rewrite Hl.
  - destruct (du_live _ _ _ Hdu _ _ Hl) as (_ & _ & Hda & _ & Hf & Hfits).
    destruct (Hfits _ Hf) as (d & Hd & Hdl). unfold GetFileName in Hd. rewrite with_own_file in Hd.
    unfold treasure_entry, saved_of. cbn [t_deletedAt t_bytes t_key t_fileName]. rewrite Hda, Hd, Hk.
    split; [|split_and!; [done|done|]].
    + rewrite decide_False by lia. eexists. split; [done|]. apply Hok; [by case_match|done].
    + exists d. split; [done|]. by eexists.
  - unfold treasure_entry, saved_of. cbn [t_deletedAt t_bytes t_key t_fileName]. rewrite Hk.
    split; [|done]. rewrite decide_True by done. eexists. split; [done|]. by apply Hok.
Qed.

(** The whole batch. *)
Lemma saved_batch s h index xs :
  durable h s index -> xs ≡ₚ (map_to_list (waiting s)).*2 ->
  let ts := map (fun x => saved_of (deref s x)) xs in
  Forall entry_ok (treasure_entries ts) /\ (xs <> [] -> treasure_entries ts <> []) /\
  (forall k x, waiting s !! k = Some x -> k ∈ map Types.Key (treasure_entries ts)) /\
  forall k, match live s !! k with
    | Some x => exists d, apply_entries (treasure_entries ts) index !! k = Some d /\ stored_as (deref s x) d
    | None => apply_entries (treasure_entries ts) index !! k = None
    end.
Proof.
  intros Hdu Hp. cbn zeta. set (ts := map _ xs).
  assert (forall x, x ∈ xs <-> exists k, waiting s !! k = Some x) as Hin.
  { intros x. rewrite Hp, list_elem_of_fmap. split.
    - intros ([k y] & -> & Hy%elem_of_map_to_list). by exists k.
    - intros [k Hk]. exists (k, x). split; [done|]. by apply elem_of_map_to_list. }
  assert (Forall (fun x => exists e, treasure_entry (saved_of (deref s x)) = Some e /\ entry_ok e) xs) as Hent.
  { apply Forall_forall. intros x [k Hk]%Hin. by apply (saved_entry _ _ _ _ _ Hdu Hk). }
  assert (NoDup (map t_key ts)) as Hnd.
  { assert (map t_key ts = map (key_at s) xs) as -> by (unfold ts; by rewrite map_map).
    assert (map (key_at s) xs ≡ₚ (map_to_list (waiting s)).*1) as ->; [|apply NoDup_fst_map_to_list].
    rewrite Hp. fold (key_at s <$> (map_to_list (waiting s)).*2). rewrite <-list_fmap_compose.
    apply Permutation_refl'. apply list_fmap_ext. intros i [k x] Hix. cbn.
    eapply (du_wait _ _ _ Hdu). by apply elem_of_map_to_list, list_elem_of_lookup_2 with i. }
  destruct (apply_batch ts index) as [Hoff Hon]; [|done|].
  { apply Forall_map. by eapply Forall_impl; [exact Hent|]; intros x (e & -> & _). }
  assert (forall k x, waiting s !! k = Some x -> saved_of (deref s x) ∈ ts) as Hts.
  { intros k x Hk. unfold ts. apply (list_elem_of_fmap_2 (fun x => saved_of (deref s x))), Hin. by exists k. }
  split_and!.
  - clear -Hent. unfold ts, treasure_entries. induction Hent as [|x xs (e & He & Hok) _ IH]; [done|].
    cbn. rewrite He. by constructor.
  - intros Hne. destruct xs as [|x xs]; [done|]. apply Forall_cons in Hent as [(e & He & _) _].
    unfold ts. cbn [map]. by rewrite (treasure_entries_cons _ _ _ He).
  - intros k x Hk. destruct (saved_entry _ _ _ _ _ Hdu Hk) as (Hkey & (e & He & _) & _).
    assert (Types.Key e = k) as <-.
    { rewrite <-Hkey. unfold treasure_entry in He. repeat case_match; by simplify_eq. }
    apply list_elem_of_fmap_2, list_elem_of_omap. eauto.
  - intros k. destruct (waiting s !! k) as [x|] eqn:Hk.
    + destruct (saved_entry _ _ _ _ _ Hdu Hk) as (Hkey & _ & Hcase).
      specialize (Hon _ (Hts _ _ Hk)). rewrite Hkey in Hon. rewrite Hon.
      destruct (live s !! k) as [y|].
      * destruct Hcase as (-> & Hd & d & Hb & Hst). rewrite decide_False by done. eauto.
      * by rewrite decide_True.
    + rewrite Hoff; [by apply Hdu|]. intros Hkin. apply list_elem_of_fmap in Hkin as (t & -> & Ht).
      apply list_elem_of_fmap in Ht as (x & -> & [k' Hx]%Hin).
      destruct (du_wait _ _ _ Hdu _ _ Hx) as (_ & Hkx & _). unfold key_at in Hkx.
      cbn in Hk. congruence.
Qed.

(** What a flush leaves as it was, and what it does. *)
Record flushed (s s' : swamp) : Prop := {
  fs_len : length (heap (data s')) = length (heap (data s));
  fs_model y : renames (t_model (deref s y)) (t_model (deref s' y));
  fs_live : live s' = live s;
  fs_empty : waiting s' = ∅;
  fs_rest : (creatingTreasures (data s'), conf s', closing (ctl s')) = (creatingTreasures (data s), conf s, closing (ctl s));
  fs_named c : chron s = Some c -> exists c', chron s' = Some c' /\ sends c' = sends c /\
    (closing (ctl s) = false -> sends c = true -> forall k x, waiting s !! k = Some x -> live s !! k = Some x ->
     GetFileName (deref s' x) = Some file)
}.

Lemma stored_renames t t' d : renames (t_model t) (t_model t') -> stored_as t d -> stored_as t' d.
Proof. unfold stored_as. intros [->| ->] (m & Hm & Hs); by exists m. Qed.

Lemma fits_renames t t' : renames (t_model t) (t_model t') -> fits t -> fits t'.
Proof.
  unfold fits, GetKey, GetFileName. intros [->| ->] (? & ? & ?); split_and!; auto.
Qed.

Lemma flushed_durable s s' index index' :
  durable None s index -> flushed s s' -> all_free s' -> buckets (data s') = ∅ ->
  (exists c, chron s' = Some c /\ holds c index') ->
  (forall k, match live s !! k with
    | Some x => exists d, index' !! k = Some d /\ stored_as (deref s x) d
    | None => index' !! k = None
    end) -> durable None s' index'.
Proof.
  intros Hdu [Hlen Hm Hl Hw Hr _] Haf Hb Hc Hi. injection Hr as Hcr Hcf Hcl.
  assert (forall y, key_at s' y = key_at s y /\ GetDeletedAt (deref s' y) = GetDeletedAt (deref s y)) as Hkd
    by (intros y; unfold key_at, GetKey, GetDeletedAt; by destruct (Hm y) as [->| ->]).
  split; rewrite ?Hcf, ?Hl; try done.
  - apply Hdu.
  - intros y u Hu. split; [done|]. intros _. by eapply Haf.
  - intros k x Hk. destruct (du_live _ _ _ Hdu _ _ Hk) as (? & ? & ? & ?).
    destruct (Hkd x) as [-> ->]. rewrite Hlen. do 3 (split; [done|]). by apply (fits_renames (deref s x)).
  - intros k x. by rewrite Hw, lookup_empty.
  - intros k x. rewrite Hcr. intros Hk. destruct (du_creating _ _ _ Hdu _ _ Hk) as (? & ? & ?).
    destruct (Hkd x) as [-> ->]. by rewrite Hlen.
  - intros k _. specialize (Hi k). destruct (live s !! k) as [x|]; [|done].
    destruct Hi as (d & ? & ?). exists d. split; [done|]. by apply (stored_renames (deref s x)).
Qed.

Lemma FilePointerCallback_framed ev es s :
  all_free s -> (forall k x, live s !! k = Some x -> x < length (heap (data s)))%nat ->
  (forall ks, ev = Some ks -> ks = map (fun e => (Types.Key e, file)) es) ->
  exists s', FilePointerCallbackFunction ev s = Next s' /\ framed renames s s' /\ all_free s' /\
    (closing (ctl s) = false -> ev <> None -> forall k x, k ∈ map Types.Key es -> k <> [] ->
     live s !! k = Some x -> GetFileName (deref s' x) = Some file).
Proof.
  intros Haf Hl Hev. unfold FilePointerCallbackFunction.
  destruct (closing (ctl s)) eqn:Hcl.
  { exists s. split_and!; [done|by apply framed_refl; [apply _|]|done|done]. }
  destruct ev as [ks|].
  2:{ exists s. split_and!; [done|by apply framed_refl; [apply _|]|done|done]. }
  rewrite (Hev _ eq_refl).
  destruct (file_pointers_framed (map (fun e => (Types.Key e, file)) es) s) as (s' & -> & Hfr & Haf' & Hn); try done.
  { apply Forall_map. by apply Forall_true. }
  exists s'. split_and!; try done. intros _ _ k x Hk. apply Hn.
  apply list_elem_of_fmap in Hk as (e & -> & He).
  by apply (list_elem_of_fmap_2 (fun e => (Types.Key e, file))).
Qed.

Lemma write_out_durable s s2 index xs :
  durable None s index -> off_waiting s2 = off_waiting s -> waiting s2 = ∅ ->
  xs ≡ₚ (map_to_list (waiting s)).*2 -> xs <> [] ->
  exists s' index', write_out xs s2 = Next s' /\ flushed s s' /\ durable None s' index'.
Proof.
  intros Hdu Hoff Hempty Hp Hne.
  destruct (saved_batch _ _ _ _ Hdu Hp) as (Hok & Hnil & Hkeys & Hi). cbn zeta in *.
  injection Hoff as Hh2 Hl2 Hcr2 Hb2 Hch2 Hcf2 Hcl2.
  assert (deref s2 = deref s) as Hd2 by (unfold deref; by rewrite Hh2).
  assert (all_free s) as Haf by (intros y u Hu; by apply (du_guard _ _ _ Hdu _ _ Hu)).
  assert (forall k x, live s !! k = Some x -> x < length (heap (data s)))%nat as Hlt
    by (intros k x Hk; apply (du_live _ _ _ Hdu _ _ Hk)).
  destruct (du_store _ _ _ Hdu) as (c & Hc & Hho). unfold write_out. rewrite Hch2, Hc.
  destruct (read_all_framed xs s2) as (s3 & -> & Hfr3 & Haf3).
  { unfold all_free. by rewrite Hh2. }
  { apply Forall_forall. intros x. rewrite Hp, Hh2, list_elem_of_fmap.
    intros ([k y] & -> & Hy%elem_of_map_to_list). apply (du_wait _ _ _ Hdu _ _ Hy). }
  cbn [obind]. rewrite Hd2.
  destruct (st_Write (live_count s3) _ c) as [c' ev] eqn:Hwr.
  destruct (store_Write _ _ _ _ _ _ Hho Hok Hwr) as (Hho' & Hs' & Hev1 & Hev2).
  pose proof (fr_rest _ _ _ Hfr3) as Hr3. injection Hr3 as Hl3 Hw3 Hcr3 Hb3 Hch3 Hcf3 Hcl3.
  assert (forall y, t_model (deref s3 y) = t_model (deref s y)) as Hm3
    by (intros y; by rewrite <-Hd2, (fr_model _ _ _ Hfr3)).
  destruct (FilePointerCallback_framed ev (treasure_entries (map (fun x => saved_of (deref s x)) xs)) (set_chron c' s3))
    as (s4 & -> & Hfr4 & Haf4 & Hn4); [done| |done|].
  { intros k x. change (live (set_chron c' s3)) with (live s3). cbn [data set_chron].
    rewrite Hl3, Hl2, (fr_len _ _ _ Hfr3), Hh2. apply Hlt. }
  cbn [obind]. pose proof (fr_rest _ _ _ Hfr4) as Hr4. injection Hr4 as Hl4 Hw4 Hcr4 Hb4 Hch4 Hcf4 Hcl4.
  rewrite Hch4. destruct (store_Sync _ _ Hho') as [Hho5 Hs5].
  set (s5 := set_chron (st_Sync c') s4).
  assert (flushed s s5) as Hfl.
  { split.
    - change (heap (data s5)) with (heap (data s4)). rewrite (fr_len _ _ _ Hfr4).
      change (heap (data (set_chron c' s3))) with (heap (data s3)). by rewrite (fr_len _ _ _ Hfr3), Hh2.
    - intros y. rewrite <-Hm3. apply Hfr4.
    - change (live s5) with (live s4). rewrite Hl4. change (live (set_chron c' s3)) with (live s3). congruence.
    - change (waiting s5) with (waiting s4). rewrite Hw4. change (waiting (set_chron c' s3)) with (waiting s3). congruence.
    - change (creatingTreasures (data s5), conf s5, closing (ctl s5))
        with (creatingTreasures (data s4), conf s4, closing (ctl s4)).
      rewrite Hcr4, Hcf4, Hcl4.
      change ((creatingTreasures (data s3), conf s3, closing (ctl s3)) =
        (creatingTreasures (data s), conf s, closing (ctl s))). congruence.
    - intros c0 Hc0. assert (c0 = c) as -> by congruence. exists (st_Sync c').
      split_and!; [done|congruence|]. intros Hcl Hse k x Hk Hlx. change (deref s5) with (deref s4).
      apply (Hn4 ltac:(change (closing (ctl s3) = false); congruence)) with k.
      + rewrite Hev1; [done|done|by apply Hnil].
      + by eapply Hkeys.
      + by apply (du_wait _ _ _ Hdu _ _ Hk).
      + change (live s3 !! k = Some x). congruence. }
  eexists s5, _. split_and!; [done|done|]. apply (flushed_durable s s5 index _ Hdu Hfl).
  - done.
  - change (buckets (data s4) = ∅). rewrite Hb4. change (buckets (data s3) = ∅). rewrite Hb3, Hb2. apply Hdu.
  - by eexists.
  - done.
Qed.

Lemma flush_durable b s index :
  durable None s index ->
  exists s' index', fileWriterHandler b s = Next s' /\ flushed s s' /\ durable None s' index'.
Proof.
  intros Hdu. unfold fileWriterHandler. set (s1 := on_waiting touch (set_writing true s)).
  assert (core s1 = core s) as Hc1 by done.
  assert (forall s2, flushed s s2 -> flushed s (set_writing false s2)) as Hset.
  { intros s2 []. by split. }
  case_decide as Hsz.
  - assert (waiting s = ∅) as Hempty by by apply map_size_empty_iff.
    assert (flushed s s1) as Hfl.
    { split; [done| |done|done|done|].
      - intros y. by left.
      - intros c Hc. exists c. split_and!; [done|done|]. intros _ _ k x. by rewrite Hempty. }
    cbn [obind]. exists (if b then s1 else set_writing false s1), index.
    split_and!; [done|destruct b; auto|]. apply (durable_core _ s); [by destruct b|done].
  - destruct (collect_waiting_spec s1) as (s2 & xs & -> & Hp & Hoff & Hempty).
    { intros k x Hk. apply (du_wait _ _ _ Hdu _ _ Hk). }
    destruct (write_out_durable s s2 index xs Hdu Hoff Hempty Hp) as (s3 & index' & -> & Hfl & Hdu').
    { intros ->. apply Hsz. change (size (waiting s) = 0)%nat. apply map_size_empty_iff.
      apply Permutation_nil in Hp.
      apply fmap_nil_inv in Hp. by apply map_to_list_empty_iff. }
    cbn [obind]. exists (if b then s3 else set_writing false s3), index'.
    split_and!; [done|destruct b; auto|]. apply (durable_core _ s3); [by destruct b|done].
Qed.

(** ** Saving *)

Lemma add_key (dr : loc -> treasure) x b k :
  GetKey (dr x) = k ->
  treasuresByKeys (Beacon.Add dr x b) =
    match treasuresByKeys b !! k with Some _ => treasuresByKeys b | None => <[k := x]> (treasuresByKeys b) end.
Proof. intros <-. unfold Beacon.Add, key_of. cbn. by destruct (treasuresByKeys b !! _). Qed.

(** What a save does before the write of a swamp without write interval. *)
Record saved_in (k : bytes) (x : nat) (s s' : swamp) : Prop := {
  sv_heap : heap (data s') = heap (data s);
  sv_live : live s' = <[k := x]> (live s);
  sv_waiting : waiting s' = <[k := x]> (waiting s);
  sv_creating : creatingTreasures (data s') =
    match live s !! k with Some _ => creatingTreasures (data s) | None => delete k (creatingTreasures (data s)) end;
  sv_rest : (buckets (data s'), chron s', conf s', closing (ctl s')) = (buckets (data s), chron s, conf s, closing (ctl s))
}.

Lemma saved_in_core k x s s0 s1 s' : core s0 = core s -> core s' = core s1 -> saved_in k x s0 s1 -> saved_in k x s s'.
Proof.
  intros Hc0 Hc1 []. injection Hc0 as Hh Hl Hw Hcr Hb Hch Hcf Hcl.
  injection Hc1 as Hh1 Hl1 Hw1 Hcr1 Hb1 Hch1 Hcf1 Hcl1.
  split; rewrite ?Hh1, ?Hl1, ?Hw1, ?Hcr1, ?Hb1, ?Hch1, ?Hcf1, ?Hcl1, <-?Hh, <-?Hl, <-?Hw, <-?Hcr, <-?Hb, <-?Hch, <-?Hcf, <-?Hcl; done.
Qed.

Lemma save_new_memory now x g s k :
  buckets (data s) = ∅ -> key_at s x = k -> live s !! k = None ->
  exists s1, saved_in k x s s1 /\
    save_new now x g s = let! s' := write_at_once x g s1 in Next (metadata_update now s').
Proof.
  intros Hb Hk Hl. unfold save_new. rewrite Hk.
  set (s1 := on_creating _ _).
  assert (saved_in k x s s1) as Hs1.
  { split; try done.
    - change (live s1) with (treasuresByKeys (Beacon.Add (deref s) x (beaconKey (data s)))).
      rewrite (add_key _ _ _ k) by done. fold (live s). by rewrite Hl.
    - change (waiting s1) with
        (treasuresByKeys (Beacon.Add (deref s) x (Beacon.Delete (deref s) k (treasuresWaitingForWriter (data s))))).
      rewrite (add_key _ _ _ k) by done. cbn. fold (waiting s). by rewrite lookup_delete_eq, insert_delete_eq.
    - by rewrite Hl. }
  pose proof (addTreasureToBeacons_core x s1) as Hc2. set (s2 := addTreasureToBeacons x s1) in *.
  destruct (notify_none (OnInsert (deref s2) (Live x)) s2) as (s3 & Hn & Hc3).
  { injection Hc2 as _ _ _ _ -> _ _ _. by rewrite <-Hb. }
  unfold notifyBucketsInsert. rewrite Hn. cbn [obind]. eexists. split; [|done].
  apply (saved_in_core _ _ s s s1); [done| |done]. by rewrite sendSwampInfo_core, sendEventToHydra_core, Hc3, Hc2.
Qed.

Lemma save_modified_memory now x g s k :
  buckets (data s) = ∅ -> key_at s x = k -> live s !! k = Some x ->
  (forall y, waiting s !! k = Some y -> y = x) ->
  exists s1, saved_in k x s s1 /\
    save_modified now x x g s = let! s' := write_at_once x g s1 in Next (metadata_update now s').
Proof.
  intros Hb Hk Hl Hw. unfold save_modified.
  pose proof (reindex_core x s) as Hc0. set (s0 := reindex x s) in *.
  pose proof (core_deref _ _ Hc0) as Hd0.
  set (s1 := on_waiting _ s0).
  assert (saved_in k x s0 s1) as Hs1.
  { injection Hc0 as Hh Hl0 Hw0 Hcr Hb0 Hch Hcf Hcl. split; try done.
    - change (live s1) with (live s0). rewrite Hl0. symmetry. by apply insert_id.
    - change (waiting s1) with (treasuresByKeys (Beacon.Add (deref s0) x (treasuresWaitingForWriter (data s0)))).
      rewrite (add_key _ _ _ k) by (by rewrite Hd0). fold (waiting s0). rewrite Hw0.
      destruct (waiting s !! k) as [y|] eqn:Hy; [|done]. rewrite (Hw _ eq_refl) in Hy. symmetry. by apply insert_id.
    - by rewrite Hl0, Hl. }
  destruct (notify_none (OnUpdate (deref s1) (Live x)) s1) as (s3 & Hn & Hc3).
  { injection Hc0 as _ _ _ _ Hb0 _ _ _. change (buckets (data s1)) with (buckets (data s0)). congruence. }
  unfold notifyBucketsUpdate. rewrite Hn. cbn [obind]. eexists. split; [|done].
  apply (saved_in_core _ _ s s0 s1); [done| |done]. by rewrite sendEventToHydra_core, Hc3.
Qed.

(** A save changes nothing, or saves in memory and then perhaps writes. *)
Lemma SaveFunction_spec now x g s k :
  buckets (data s) = ∅ -> key_at s x = k ->
  (forall y, live s !! k = Some y -> y = x) ->
  (forall y, live s !! k = Some x -> waiting s !! k = Some y -> y = x) ->
  (exists s1, SaveFunction now x g s = Next (s1, StatusSame) /\ core s1 = core s /\
     live s !! k = Some x /\ changed (deref s x) = false) \/
  (exists s1, saved_in k x s s1 /\ (live s !! k = Some x -> changed (deref s x) = true) /\
     SaveFunction now x g s =
       let! s' := write_at_once x g s1 in
       Next (metadata_update now s', if decide (live s !! k = None) then StatusNew else StatusModified)).
Proof.
  intros Hb Hk Hl Hw. unfold SaveFunction.
  change (key_at (interact now s) x) with (key_at s x). rewrite Hk.
  destruct (key_Get_spec k (interact now s)) as (s0 & -> & Hc0).
  change (core (interact now s)) with (core s) in Hc0. pose proof (core_deref _ _ Hc0) as Hd0.
  change (live (interact now s)) with (live s).
  pose proof Hc0 as Hc0'. injection Hc0' as Hh Hl0 Hw0 Hcr Hb0 Hch Hcf Hcl.
  destruct (live s !! k) as [y|] eqn:Hy.
  - assert (y = x) as -> by by apply Hl. rewrite Hd0.
    destruct (changed (deref s x)) eqn:Hch'; [right|left; by exists s0].
    destruct (save_modified_memory now x g s0 k) as (s1 & Hs1 & ->).
    { congruence. }
    { unfold key_at. by rewrite Hd0. }
    { congruence. }
    { intros y. rewrite Hw0. by apply Hw. }
    exists s1. split; [by apply (saved_in_core _ _ s s0 s1)|]. split; [done|].
    rewrite decide_False by done. by destruct (write_at_once x g s1).
  - right. destruct (save_new_memory now x g s0 k) as (s1 & Hs1 & ->).
    { congruence. }
    { unfold key_at. by rewrite Hd0. }
    { congruence. }
    exists s1. split; [by apply (saved_in_core _ _ s s0 s1)|]. split; [done|].
    rewrite decide_True by done. by destruct (write_at_once x g s1).
Qed.
End SwampInv.
