(* ===== verification/Fields.v ===== *)
(** The field indexes of a swamp, and what the planner collects from them.

    [indexed] says that every index answers as a scan of the live treasures would, and that the
    objects an answer hands out are the live ones or copies of them.  Building an index on
    demand keeps it, whichever indexes are there. *)
From Stdlib Require Import Floats.SpecFloat.
From S2P Require Import Prelude Steps Types Compressor Block FileSys Reader Contents Log Session.
From S2P Require Import Meta Chronicler Guard Treasure Beacon Canon Bucket Slots Indexing Swamp Gateway SwampInv Text.
From S2P Require Import Filters Planner GatewaySearch Plans Alike.
#[local] Set Warnings "-register-all,-clear-no-such-hyp".

Lemma Forall2_in_l {A B} (P : A -> B -> Prop) l k x : Forall2 P l k -> x ∈ l -> exists y, y ∈ k /\ P x y.
Proof.
  induction 1 as [|x' y l k Hxy _ IH]; [by intros ?%not_elem_of_nil|].
  intros [->|Hx]%elem_of_cons; [exists y; split; [by left|done]|]. destruct (IH Hx) as (y' & ? & ?).
  exists y'. split; [by right|done].
Qed.
Lemma Forall2_in_r {A B} (P : A -> B -> Prop) l k y : Forall2 P l k -> y ∈ k -> exists x, x ∈ l /\ P x y.
Proof. intros HP Hy. apply Forall2_flip in HP. by apply (Forall2_in_l _ _ _ _ HP). Qed.

(** ** Lists without repetitions *)

Section Unseen.
Variable key : handle -> bytes.

Lemma unseen_hits hits : forall seen out seen', unseen key hits seen = (out, seen') ->
  NoDup (map key out) /\ out `sublist_of` hits /\ seen' = seen ∪ list_to_set (map key out) /\
  forall k, k ∈ map key out <-> k ∈ map key hits /\ k ∉ seen.
Proof.
  induction hits as [|h hits IH]; intros seen out seen'; cbn.
  - intros [= <- <-]. split_and!; [constructor|done|set_solver|set_solver].
  - case_decide as Hk.
    + intros E. destruct (IH _ _ _ E) as (Hnd & Hs & Hseen & Hin). split_and!; [done|by constructor|done|].
      intros k. rewrite Hin, elem_of_cons. naive_solver.
    + destruct (unseen key hits _) as [out0 s0] eqn:E. intros [= <- <-].
      destruct (IH _ _ _ E) as (Hnd & Hs & Hseen & Hin). cbn. split_and!; [|by constructor|set_solver|].
      * apply NoDup_cons. split; [|done]. rewrite Hin. set_solver.
      * intros k. rewrite !elem_of_cons, Hin. destruct (decide (k = key h)); set_solver.
Qed.

(** The union of several answers. *)
Fixpoint union_of (answers : list (list handle)) (seen : gset bytes) : list handle :=
  match answers with
  | [] => []
  | a :: answers => let '(out, seen) := unseen key a seen in out ++ union_of answers seen
  end.

Lemma union_of_spec answers : forall seen,
  NoDup (map key (union_of answers seen)) /\
  (forall h, h ∈ union_of answers seen -> exists a, a ∈ answers /\ h ∈ a) /\
  (forall k, k ∈ map key (union_of answers seen) <-> (k ∉ seen) /\ (exists a, a ∈ answers /\ k ∈ map key a)).
Proof.
  induction answers as [|a answers IH]; intros seen; cbn.
  - split_and!; [constructor|set_solver|set_solver].
  - destruct (unseen key a seen) as [out seen'] eqn:E. destruct (unseen_hits _ _ _ _ E) as (Hnd & Hs & -> & Hin).
    destruct (IH (seen ∪ list_to_set (map key out))) as (Hnd' & Hh & Hk). rewrite map_app. split_and!.
    + apply NoDup_app. split_and!; [done| |done]. intros k Ho Hu. apply Hk in Hu as [Hns _].
      apply Hns, elem_of_union_r, elem_of_list_to_set, Ho.
    + intros h [Ho|Hu]%elem_of_app; [exists a; split; [by left|]|].
      * by eapply elem_of_sublist.
      * destruct (Hh h Hu) as (a' & ? & ?). exists a'. split; [by right|done].
    + intros k. rewrite elem_of_app, Hk, Hin. setoid_rewrite elem_of_cons. rewrite not_elem_of_union, elem_of_list_to_set, Hin.
      split; [naive_solver|]. intros (Hns & a' & [->|Ha] & Hka); [by left|].
      destruct (decide (k ∈ map key a)); [by left|right]. naive_solver.
Qed.
End Unseen.

Lemma in_loop_unseen d ts : forall seen, in_loop d ts seen = unseen (fun h => GetKey (look d h)) ts seen.
Proof. induction ts as [|t ts IH]; intros seen; cbn; [done|]. rewrite !IH. by case_decide. Qed.

Section Lookups.
Context `{FI : FloatToInt} `{MP : Msgpack} `{SR : SlotRange}.

Lemma LookupIn_union d values b :
  equalityInit b = true ->
  LookupIn d values b = union_of (fun h => GetKey (look d h)) (map (fun v => LookupEqual v b) values) ∅.
Proof.
  intros Hi. unfold LookupIn, LookupEqual. rewrite Hi. cbn [negb]. generalize (∅ : gset bytes).
  induction values as [|v values IH]; intros seen; cbn; [done|]. rewrite in_loop_unseen.
  destruct (unseen _ _ _). by rewrite IH.
Qed.
End Lookups.

(** ** The invariant *)

Section Fields.
Context `{SI : Store} `{GM : GobModel} `{GMeta : GobMeta} `{FI : FloatToInt} `{MP : Msgpack} `{SR : SlotRange}.
Context `{HR : KeyRange} `{HS : SortSlice} `{!FloatToIntOk} `{!SlotRangeOk}.
Hypothesis Unmarshal_ok : decodes_well.

(** A handle that shows the object at [x]: the object, or a copy that is up to date. *)
Definition shows (s : swamp) (h : handle) (x : loc) : Prop :=
  h = Live x \/ exists t, h = Copied t /\ alike t (deref s x).

(** An index is in order, but perhaps for the key [e], which somebody is saving or deleting. *)
Record field_but (e : option bytes) (s : swamp) (path : bytes) (b : bucket) : Prop := {
  fo_good : good (key_at s) b;
  fo_path : fieldPath b = path;
  fo_built : equalityInit b = true /\ buildOnce b = true;
  fo_idle : buildInFlight b = false /\ pending b = [];
  fo_alloc v k x : entry (byValue b) v k (Live x) -> (x < length (heap (data s)))%nat;
  fo_key k : Some k <> e -> reported path (deref s) (Live <$> live s !! k) (byKey b !! k);
  fo_entry v k h : Some k <> e -> entry (byValue b) v k h -> is_NaN v = false ->
    exists x, live s !! k = Some x /\ shows s h x
}.
Abbreviation field_ok := (field_but None).

(** The treasures of the swamp are there, under their keys, and have one value each. *)
Definition keyed (s : swamp) : Prop :=
  forall k x, live s !! k = Some x ->
    (x < length (heap (data s)))%nat /\ key_at s x = k /\ valid_treasure (deref s x).

Record indexed (s : swamp) : Prop := {
  ix_keyed : keyed s;
  ix_fields path b : buckets (data s) !! path = Some b -> field_ok s path b
}.

Lemma indexed_none s : keyed s -> buckets (data s) = ∅ -> indexed s.
Proof. intros Hk Hb. split; [done|]. intros path b. by rewrite Hb, lookup_empty. Qed.

Lemma shows_key s h x : shows s h x -> Slots.handle_key (key_at s) h = key_at s x.
Proof. intros [->|(t & -> & Ht)]; cbn; [done|]. by rewrite Ht. Qed.

(** What the lookups of an index return: of the treasures with a value that is asked for, each
    once, the live object or a copy of it. *)
Definition answers (s : swamp) (wanted : treasure -> bool) (hits : list handle) : Prop :=
  NoDup (map (Planner.handle_key s) hits) /\
  (forall k, k ∈ map (Planner.handle_key s) hits <-> exists x, live s !! k = Some x /\ wanted (deref s x) = true) /\
  (forall h, h ∈ hits -> exists x, live s !! Planner.handle_key s h = Some x /\ shows s h x).

Lemma handle_key_same s h : Slots.handle_key (key_at s) h = Planner.handle_key s h.
Proof. by destruct h. Qed.

Lemma collect_elem want b h :
  h ∈ collectMatchingLocked want b -> exists v k, entry (byValue b) v k h /\ Equal v want = true \/
    key_eqb v want = true /\ entry (byValue b) v k h.
Proof.
  unfold collectMatchingLocked. rewrite elem_of_app. intros [Hh|Hh].
  - destruct (slot_get want (byValue b)) as [m|] eqn:E; [|by apply not_elem_of_nil in Hh].
    apply slot_values in Hh as [k Hk]. destruct (slot_get_Some _ _ _ E) as (pre & v0 & post & Hb & Hv & _).
    exists v0, k. right. split; [done|]. exists m. rewrite Hb, elem_of_app, elem_of_cons. auto.
  - apply list_elem_of_In, in_concat in Hh as (l & ([v m] & <- & Hq)%in_map_iff & Hl).
    destruct (key_eqb v want); [done|]. destruct (Equal v want) eqn:E; [|done].
    apply list_elem_of_In, slot_values in Hl as [k Hk]. exists v, k. left. split; [|done]. exists m. split; [|done].
    rewrite <-(value_range_perm (byValue b)). by apply list_elem_of_In.
Qed.

Lemma LookupEqual_answers s path b v :
  keyed s -> field_ok s path b -> any_ok v ->
  answers s (fun t => Equal (key_or_null t path) (Canonicalize v)) (LookupEqual v b).
Proof.
  intros Hks [[Hb Hk] Hp [Hi _] _ _ Hr He] Hv. unfold LookupEqual. rewrite Hi. cbn [negb].
  pose proof (Canonicalize_ok _ Hv) as Hw.
  destruct (collect_spec (key_at s) (Canonicalize v) b Hb Hk Hw) as [Hnd Hin].
  assert (forall l, map (Slots.handle_key (key_at s)) l = map (Planner.handle_key s) l) as Hmap
    by (intros l; apply map_ext; intros h; apply handle_key_same).
  rewrite Hmap in *. split_and!; [done| |].
  - intros k. rewrite Hin. specialize (Hr k ltac:(done)). destruct (live s !! k) as [x|] eqn:El; cbn in Hr.
    + destruct Hr as (w & Hwk & Hlike).
      assert (Equal w (Canonicalize v) = Equal (key_or_null (deref s x) path) (Canonicalize v)) as Heq.
      { destruct Hlike as [->|Hl]; [done|]. apply Equal_eqb; [done| |done]. by apply key_or_null_ok. }
      split; [intros (w' & ? & ?); exists x; by simplify_eq; rewrite <-Heq|].
      intros (x' & [= <-] & ?). exists w. by rewrite Heq.
    + split; [intros (w & ? & _); congruence|naive_solver].
  - intros h Hh. destruct (collect_elem _ _ _ Hh) as (w & k & Hwk).
    assert (entry (byValue b) w k h /\ is_NaN w = false) as [Hen Hn].
    { destruct Hwk as [[Hen HE]|[HE Hen]]; (split; [done|]).
      - destruct (is_NaN w) eqn:Hn; [|done]. rewrite (Equal_NaN _ _ Hn) in HE; [done| |done].
        destruct Hk as [_ Hk]. destruct Hen as (m & Hm & _). rewrite Forall_forall in Hk. apply Hk.
        exact (list_elem_of_fmap_2 fst _ _ Hm).
      - by apply key_eqb_NaN in HE as [? _]. }
    destruct (He _ _ _ ltac:(done) Hen Hn) as (x & Hx & Hsh). exists x. split; [|done].
    rewrite <-handle_key_same, (shows_key _ _ _ Hsh). by destruct (Hks _ _ Hx) as (_ & -> & _).
Qed.

Lemma LookupIn_answers s path b vs :
  keyed s -> field_ok s path b -> Forall any_ok vs ->
  answers s (fun t => existsb (fun v => Equal (key_or_null t path) (Canonicalize v)) vs) (LookupIn (deref s) vs b).
Proof.
  intros Hks Hf Hvs. rewrite LookupIn_union by apply Hf.
  destruct (union_of_spec (Planner.handle_key s) (map (fun v => LookupEqual v b) vs) ∅) as (Hnd & Hh & Hk).
  rewrite Forall_forall in Hvs. split_and!; [done| |].
  - intros k. etransitivity; [apply Hk|]. split.
    + intros (_ & a & (v & -> & Hv)%list_elem_of_fmap & Hka).
      destruct (LookupEqual_answers s path b v Hks Hf (Hvs _ Hv)) as (_ & Hin & _).
      apply Hin in Hka as (x & ? & ?). exists x. split; [done|]. apply existsb_exists. exists v. by rewrite <-list_elem_of_In.
    + intros (x & Hx & (v & Hv%list_elem_of_In & HE)%existsb_exists). split; [apply not_elem_of_empty|].
      exists (LookupEqual v b). split; [apply (list_elem_of_fmap_2 (fun v => LookupEqual v b) _ _ Hv)|].
      destruct (LookupEqual_answers s path b v Hks Hf (Hvs _ Hv)) as (_ & Hin & _). apply Hin. eauto.
  - intros h Hu. destruct (Hh h Hu) as (a & (v & -> & Hv)%list_elem_of_fmap & Ha).
    by apply (LookupEqual_answers s path b v Hks Hf (Hvs _ Hv)).
Qed.

(** ** Building on demand *)

(** The objects and what is live are the same. *)
Definition same_live (s s' : swamp) : Prop := heap (data s') = heap (data s) /\ live s' = live s.

Lemma same_live_deref s s' : same_live s s' -> deref s' = deref s.
Proof. intros [Hh _]. unfold deref. by rewrite Hh. Qed.
Lemma same_live_refl s : same_live s s.
Proof. done. Qed.
Lemma same_live_trans s1 s2 s3 : same_live s1 s2 -> same_live s2 s3 -> same_live s1 s3.
Proof. unfold same_live. intros [] []. split; congruence. Qed.

Lemma field_ok_frame s s' e path b : same_live s s' -> field_but e s path b -> field_but e s' path b.
Proof.
  intros Hs. pose proof (same_live_deref _ _ Hs) as Hd. destruct Hs as [Hh Hl].
  intros []. split; unfold key_at, shows in *; rewrite ?Hd, ?Hl, ?Hh; done.
Qed.
Lemma keyed_frame s s' : same_live s s' -> keyed s -> keyed s'.
Proof.
  intros Hs Hk k x. pose proof (same_live_deref _ _ Hs) as Hd. destruct Hs as [Hh Hl].
  unfold key_at. rewrite Hd, Hl, Hh. apply Hk.
Qed.
Lemma indexed_frame s s' : same_live s s' -> buckets (data s') = buckets (data s) -> indexed s -> indexed s'.
Proof.
  intros Hs Hb [Hk Hf]. split; [by eapply keyed_frame|]. intros path b. rewrite Hb. intros Hpb.
  eapply field_ok_frame; [done|auto].
Qed.

Lemma build_loop_entry d l : forall b v k h,
  entry (byValue (build_loop d l b)) v k h -> entry (byValue b) v k h \/ (k, h) ∈ l.
Proof.
  induction l as [|[k' h'] l IH]; intros b v k h; cbn; [by left|]. rewrite elem_of_cons.
  intros [He|Hl]%IH; [|by right; right]. unfold insertLocked in He. cbn in He.
  destruct (slot_insert_entry _ _ _ _ _ _ _ He) as [_ [?|(-> & -> & _)]]; [by left|by right; left].
Qed.

(** An index of its own for a field that has none. *)
Lemma build_new s path :
  keyed s ->
  let d := deref s in
  let snap : slot := (fun x => Copied (copy (d x))) <$> live s in
  exists b, DrainPending d (BuildEquality d snap (SetBuildInFlight true (Bucket.New path))) = Some b /\ field_ok s path b.
Proof.
  intros Hk d snap. set (b0 := SetBuildInFlight true (Bucket.New path)).
  assert (good (key_at s) b0) as Hg0.
  { split; [|done || (split; cbn; [intros k v; by rewrite lookup_empty|constructor])].
    apply (bucket_ok_same (key_at s) (Bucket.New path)); [done|done|apply bucket_ok_New]. }
  destruct (BuildEquality_spec path (key_at s) Unmarshal_ok d snap b0) as (Hg & Hr & Hl); try done.
  { intros k h. unfold snap. rewrite lookup_fmap, fmap_Some. intros (x & Hx & ->). cbn. by apply (Hk k x). }
  set (b := BuildEquality d snap b0) in *. unfold rest in Hr.
  assert (fieldPath b = path /\ pending b = []) as [Hp Hpe] by (split; cbn in Hr |- *; congruence).
  assert (DrainPending d b = Some (SetBuildInFlight false b)) as ->.
  { unfold DrainPending, drain_loop, take_pending. rewrite Hpe. done. }
  exists (SetBuildInFlight false b). split; [done|]. split; try done.
  - destruct Hg as [Hg1 Hg2]. split; [|done]. by apply (bucket_ok_same (key_at s) b).
  - intros v k x He. cbn in He. unfold b, BuildEquality in He. cbn in He.
    apply build_loop_entry in He as [(m & Hm & _)|He]; [by apply not_elem_of_nil in Hm|].
    rewrite (slot_range_perm snap), elem_of_map_to_list in He. unfold snap in He.
    rewrite lookup_fmap, fmap_Some in He. by destruct He as (? & _ & ?).
  - intros k _. cbn [byKey SetBuildInFlight]. rewrite Hl. unfold snap. rewrite lookup_fmap.
    destruct (live s !! k) as [x|] eqn:Hx; cbn; [|done]. exists (key_or_null (copy (d x)) path). split; [done|].
    left. apply copy_key. by apply (Hk k x).
  - intros v k h _ He _. cbn in He. unfold b, BuildEquality in He. cbn in He.
    apply build_loop_entry in He as [(m & Hm & _)|He]; [by apply not_elem_of_nil in Hm|].
    rewrite (slot_range_perm snap), elem_of_map_to_list in He. unfold snap in He.
    rewrite lookup_fmap, fmap_Some in He. destruct He as (x & Hx & ->). exists x. split; [done|].
    right. eexists. split; [done|]. apply copy_alike. by apply (Hk k x).
Qed.

Lemma GetOrBuildBucket_indexed s path :
  indexed s -> exists s' b, GetOrBuildBucket path s = Next (s', b) /\
    indexed s' /\ same_live s s' /\ field_ok s' path b.
Proof.
  intros [Hk Hf]. unfold GetOrBuildBucket. destruct (buckets (data s) !! path) as [b|] eqn:Hb.
  - destruct (Hf _ _ Hb) as [? ? [Hi ?] ? ? ? ?]. unfold EqualityInitialized. rewrite Hi. exists s, b.
    split; [done|]. split; [by split|]. split; [apply same_live_refl|]. by apply Hf.
  - destruct (build_new s path Hk) as (b & Hd & Hok). cbn zeta in *.
    unfold CloneUnorderedTreasures. cbn zeta. cbn [fst snd].
    assert ((Copied <$> ((fun x => copy (deref s x)) <$> treasuresByKeys (beaconKey (data s)))) =
      ((fun x => Copied (copy (deref s x))) <$> live s : slot)) as E by (by rewrite <-map_fmap_compose).
    rewrite E, Hd. cbn [of_panic obind]. set (s' := set_buckets _ _).
    assert (same_live s s') as Hs by done. exists s', b. split_and!; try done.
    + split; [by eapply keyed_frame|]. intros p b'. cbn.
      intros [[<- <-]|[Hne Hp]]%lookup_insert_Some; eapply field_ok_frame; try done. by apply Hf.
    + by eapply field_ok_frame.
Qed.

(** ** What the planner collects *)

Definition hint_ok (h : BucketHint) : Prop :=
  Forall any_ok (Values h) /\
  match Op h with HintEqual => exists v, Values h = [v] | HintIn => Values h <> [] end.

Lemma indexable_hint_ok f h : indexableHint f = Some h -> filter_ok f = true -> hint_ok h.
Proof.
  unfold indexableHint, filter_ok. rewrite !andb_true_iff. intros Hh [[Hval H32] H64]. case_decide; [done|].
  assert (forall vals, forallb (fun z => bool_decide (in_i64 z)) vals = true -> Forall any_ok (map (AInt W64) vals)) as Hints.
  { intros vals Hv. rewrite forallb_forall in Hv. apply Forall_forall. intros v (z & -> & Hz)%list_elem_of_fmap.
    apply list_elem_of_In in Hz. exact (proj1 (bool_decide_eq_true _) (Hv z Hz)). }
  destruct (tf_Operator f); try done.
  - destruct (compareValueToAny f) as [v|] eqn:Hv; [|done]. injection Hh as <-. split; [|by eexists].
    constructor; [|constructor]. unfold compareValueToAny in Hv.
    destruct (tf_CompareValue f); try done; injection Hv as <-; try done; by apply bool_decide_eq_true in Hval.
  - destruct (map AString _) as [|v vs] eqn:E; [done|]. injection Hh as <-. split; [|done]. cbn. rewrite <-E.
    apply Forall_forall. by intros ? (? & -> & _)%list_elem_of_fmap.
  - pose proof (Hints _ H32) as Hv. destruct (map _ _) as [|v vs]; [done|]. by injection Hh as <-.
  - pose proof (Hints _ H64) as Hv. destruct (map _ _) as [|v vs]; [done|]. by injection Hh as <-.
Qed.

Lemma answers_frame s s' P hits : same_live s s' -> answers s P hits -> answers s' P hits.
Proof.
  intros Hs. pose proof (same_live_deref _ _ Hs) as Hd. destruct Hs as [_ Hl].
  unfold answers, Planner.handle_key, shows. by rewrite Hd, Hl.
Qed.

Lemma lookup_hint_indexed s h :
  indexed s -> hint_ok h ->
  exists s' hits, lookup_hint h s = Next (s', hits) /\ indexed s' /\ same_live s s' /\ answers s (hint_holds h) hits.
Proof.
  intros Hi [Hv Ho]. unfold lookup_hint, LookupByBucketEqual, LookupByBucketIn.
  destruct (GetOrBuildBucket_indexed s (Planner.FieldPath h) Hi) as (s' & b & E & Hi' & Hs & Hf).
  assert (same_live s' s) as Hs' by (destruct Hs; by split).
  assert (answers s (hint_holds h) (LookupIn (deref s') (Values h) b)) as Hin.
  { eapply answers_frame; [done|]. apply LookupIn_answers; [apply Hi'|done|done]. }
  destruct (Op h).
  - destruct Ho as [v Ev]. rewrite Ev in *. rewrite E. cbn [obind]. exists s', (LookupEqual v b). split_and!; try done.
    apply Forall_cons in Hv as [Hv _]. eapply answers_frame; [done|].
    unfold hint_holds. rewrite Ev. 
    destruct (LookupEqual_answers s' (Planner.FieldPath h) b v (ix_keyed _ Hi') Hf Hv) as (? & Hk & ?).
    split_and!; [done| |done]. intros k. rewrite Hk. cbn. by setoid_rewrite orb_false_r.
  - destruct (Values h) as [|v vs] eqn:Ev; [done|]. rewrite E. cbn [obind]. eauto 10.
Qed.

Definition any_hint (hints : list BucketHint) (t : treasure) : bool := existsb (fun h => hint_holds h t) hints.

Lemma union_hints_indexed hints : forall s seen,
  indexed s -> Forall hint_ok hints ->
  exists s' answered, union_hints hints seen s = Next (s', union_of (Planner.handle_key s) answered seen) /\
    indexed s' /\ same_live s s' /\ Forall2 (fun h hits => answers s (hint_holds h) hits) hints answered.
Proof.
  induction hints as [|h hints IH]; intros s seen Hi Hok; cbn.
  - exists s, []. split_and!; auto using same_live_refl.
  - apply Forall_cons in Hok as [Hh Hok].
    destruct (lookup_hint_indexed s h Hi Hh) as (s1 & hits & -> & Hi1 & Hs1 & Ha). cbn [obind].
    assert (Planner.handle_key s1 = Planner.handle_key s) as ->
      by (unfold Planner.handle_key; by rewrite (same_live_deref _ _ Hs1)).
    destruct (unseen _ hits seen) as [out seen'] eqn:E.
    destruct (IH s1 seen' Hi1 Hok) as (s2 & answered & -> & Hi2 & Hs2 & Has).
    assert (Planner.handle_key s1 = Planner.handle_key s) as Hk
      by (unfold Planner.handle_key; by rewrite (same_live_deref _ _ Hs1)).
    cbn [obind]. exists s2, (hits :: answered). rewrite Hk. cbn. rewrite E. split_and!; [done|done| |].
    + by eapply same_live_trans.
    + constructor; [done|]. eapply Forall2_impl; [done|]. intros ? ? Hans.
      apply (answers_frame s1); [destruct Hs1; by split|done].
Qed.

(** The candidates are the treasures for which one of the lookups holds, each once. *)
Lemma collectBucketCandidates_indexed s hints :
  indexed s -> Forall hint_ok hints ->
  exists s' hits, collectBucketCandidates hints s = Next (s', hits) /\ indexed s' /\ same_live s s' /\
    answers s (any_hint hints) hits.
Proof.
  intros Hi Hok. unfold collectBucketCandidates. destruct hints as [|h [|h' hints]].
  - exists s, []. split_and!; auto using same_live_refl. split_and!; [constructor| |set_solver].
    intros k. split; [by intros ?%not_elem_of_nil|]. by intros (x & _ & Hx).
  - apply Forall_cons in Hok as [Hh _]. destruct (lookup_hint_indexed s h Hi Hh) as (s' & hits & -> & Hi' & Hs & Ha).
    exists s', hits. split_and!; try done. destruct Ha as (? & Hk & ?). split_and!; [done| |done].
    intros k. rewrite Hk. cbn. by setoid_rewrite orb_false_r.
  - set (hs := h :: h' :: hints) in *. destruct (union_hints_indexed hs s ∅ Hi Hok) as (s' & answered & -> & Hi' & Hs & Ha).
    exists s', (union_of (Planner.handle_key s) answered ∅). split_and!; try done.
    destruct (union_of_spec (Planner.handle_key s) answered ∅) as (Hnd & Hh & Hk). split_and!; [done| |].
    + intros k. rewrite Hk. unfold any_hint. split.
      * intros (_ & a & Haa & Hka). destruct (Forall2_in_r _ _ _ _ Ha Haa) as (h0 & Hh0 & ? & Hin & ?).
        destruct (proj1 (Hin k) Hka) as (x & Hx & HE). exists x. split; [done|]. apply existsb_exists. exists h0.
        split; [by apply list_elem_of_In|done].
      * intros (x & Hx & HE). apply existsb_exists in HE as (h0 & Hh0 & HE). apply list_elem_of_In in Hh0.
        split; [apply not_elem_of_empty|].
        destruct (Forall2_in_l _ _ _ _ Ha Hh0) as (a & Haa & ? & Hin & ?). exists a. split; [done|]. apply Hin. eauto.
    + intros x Hx. destruct (Hh x Hx) as (a & Haa & Hxa).
      destruct (Forall2_in_r _ _ _ _ Ha Haa) as (h0 & ? & ? & ? & Hsh). by apply Hsh.
Qed.
End Fields.
