(* ===== verification/Searches.v ===== *)
(** Searches on a swamp whose field indexes are in order: the selections of the gateway and the
    candidates of a stream, against the evaluation of the whole filter. *)
From Stdlib Require Import Floats.SpecFloat Sorting.Sorted.
From S2P Require Import Prelude Steps Types Compressor Block FileSys Reader Contents Log Session.
From S2P Require Import Meta Chronicler Guard Treasure Beacon Views Canon Bucket Slots Indexing Swamp Gateway SwampInv Text.
From S2P Require Import Filters Planner GatewaySearch Plans Alike Fields.
#[local] Set Warnings "-register-all,-clear-no-such-hyp".

(** ** Stable sorts *)

Section Sort.
Context {A : Type} (less : A -> A -> bool).
Hypothesis less_asym : forall a b, less a b = true -> less b a = false.
Hypothesis less_cotrans : forall a b c, less b a = false -> less c b = false -> less c a = false.

Definition in_order (l : list A) : Prop := StronglySorted (fun a b => less b a = false) l.

Lemma insert_in_order x l : in_order l -> in_order (insert_stable less x l).
Proof.
  induction 1 as [|a l Hl IH Ha]; cbn; [repeat constructor|]. destruct (less x a) eqn:E.
  - constructor; [by constructor|]. constructor; [by apply less_asym|].
    eapply Forall_impl; [exact Ha|]. intros b Hb. eapply less_cotrans; [|exact Hb]. by apply less_asym.
  - constructor; [done|]. apply Forall_forall. intros b Hb.
    rewrite (insert_stable_perm less x l), elem_of_cons in Hb. destruct Hb as [->|Hb]; [done|].
    rewrite Forall_forall in Ha. by apply Ha.
Qed.
Lemma sort_in_order l : forall acc, in_order acc -> in_order (sort_stable less acc l).
Proof. induction l as [|x l IH]; intros acc Hacc; cbn; [done|]. by apply IH, insert_in_order. Qed.
End Sort.

(** The order of an index: [b] does not come before [a]. *)
Definition index_less (beaconType : BeaconType) (order : BeaconOrder) (a b : treasure) : bool :=
  let desc := match order with IndexOrderDesc => true | _ => false end in
  let less (a b : treasure) :=
    match beaconType with
    | BeaconTypeKey => bytes_lt (GetKey a) (GetKey b)
    | _ => beaconTimeOf a beaconType <? beaconTimeOf b beaconType
    end in
  if desc then less b a else less a b.

Lemma sortCandidates_order bt order l :
  bucketExecPreconditions bt = true ->
  sortCandidates bt order l ≡ₚ l /\ in_order (index_less bt order) (sortCandidates bt order l).
Proof.
  intros Hbt.
  assert (sortCandidates bt order l = sort_stable (index_less bt order) [] l) as -> by (by destruct bt).
  split; [by rewrite sort_stable_perm|]. apply sort_in_order; [| |constructor]; unfold index_less.
  - intros a b. destruct bt, order; try apply bytes_lt_asym; rewrite Z.ltb_lt, Z.ltb_ge; lia.
  - intros a b c. destruct bt, order; try (intros; by eapply bytes_lt_cotrans); rewrite !Z.ltb_ge; lia.
Qed.

(** ** Searches *)

Section Searches.
Context `{SI : Store} `{GM : GobModel} `{GMeta : GobMeta} `{FI : FloatToInt} `{MP : Msgpack} `{SR : SlotRange}.
Context `{HR : KeyRange} `{HS : SortSlice} `{LC : LowerCase} `{TG : Trigonometry} `{!FloatToIntOk} `{!SlotRangeOk}.
Hypothesis Unmarshal_ok : decodes_well.

(** The filter has a plan, and its lookups read the bodies as the evaluation does. *)
Record searchable (s : swamp) (g : FilterGroup) : Prop := {
  se_known : known g = true;
  se_planned : Mode (plan_group g) <> PlanModeBypass;
  se_filters f : f ∈ candidate_legs g -> filter_ok f = true;
  se_plain k x f : live s !! k = Some x -> f ∈ candidate_legs g -> is_Some (indexableHint f) ->
    leg_plain (deref s x) f = true
}.

Lemma mapM_hint_ok legs hints :
  mapM indexableHint legs = Some hints -> (forall f, f ∈ legs -> filter_ok f = true) -> Forall hint_ok hints.
Proof.
  rewrite mapM_Some. induction 1 as [|f h legs hints Hh _ IH]; intros Hok; constructor.
  - eapply indexable_hint_ok; [done|]. apply Hok. by left.
  - apply IH. intros. apply Hok. by right.
Qed.

Lemma any_hint_legs t legs hints :
  mapM indexableHint legs = Some hints ->
  (forall f, f ∈ legs -> is_Some (indexableHint f) -> leg_plain t f = true) ->
  existsb (evaluateNativeSingleFilter t) legs = any_hint hints t.
Proof.
  rewrite mapM_Some. induction 1 as [|f h legs hints Hh _ IH]; intros Hok; cbn; [done|].
  rewrite IH by (intros; apply Hok; [by right|done]). unfold any_hint. f_equal.
  apply leg_is_lookup; [done| |done]. apply Hok; [by left|eauto].
Qed.

(** The plan of a filter on such a swamp: lookups for some treasures, and the filter is that one
    of the lookups holds and the rest of the filter does. *)
Lemma plan_candidates s g :
  indexed s -> searchable s g ->
  exists s' hits, collectBucketCandidates (Hints (plan_group g)) s = Next (s', hits) /\
    indexed s' /\ same_live s s' /\ answers s (any_hint (Hints (plan_group g))) hits /\
    forall k x, live s !! k = Some x ->
      evaluate_group (deref s x) g =
      any_hint (Hints (plan_group g)) (deref s x) && evaluateNativeFilterGroup (deref s x) (Residual (plan_group g)).
Proof.
  intros Hi [Hk Hm Hf Hp]. destruct (plan_group_spec g Hk Hm) as (legs & Hne & Hh & Hin & Hev).
  destruct (collectBucketCandidates_indexed Unmarshal_ok s (Hints (plan_group g)) Hi) as (s' & hits & Hc & ? & ? & ?).
  { eapply mapM_hint_ok; eauto. }
  exists s', hits. split_and!; try done. intros k x Hx. rewrite Hev. f_equal. eapply any_hint_legs; eauto.
Qed.

(** *** Selections *)

Lemma candidate_keys s hits :
  map GetKey (map (look (deref s)) hits) = map (Planner.handle_key s) hits.
Proof. rewrite map_map. apply map_ext. by intros []. Qed.

Lemma look_frame s s' : same_live s s' -> look (deref s') = look (deref s).
Proof. intros Hs. by rewrite (same_live_deref _ _ Hs). Qed.

Lemma live_candidate s hints hits k x :
  keyed s -> answers s (any_hint hints) hits -> live s !! k = Some x ->
  bool_decide (GetKey (deref s x) ∈ map (Planner.handle_key s) hits) = any_hint hints (deref s x).
Proof.
  intros Hk (_ & Hin & _) Hx. destruct (Hk _ _ Hx) as (_ & Hkey & _). unfold key_at in Hkey.
  apply eq_bool_prop_intro. rewrite !Is_true_true, bool_decide_eq_true, Hin, Hkey. split; [|eauto].
  intros (y & Hy & ?). by simplify_eq.
Qed.

(** Whether some live treasure has a value that is looked up. *)
Definition finds_some (s : swamp) (g : FilterGroup) : Prop :=
  exists k x, live s !! k = Some x /\ any_hint (Hints (plan_group g)) (deref s x) = true.

(** The bounds on the time, where the index has one. *)
Definition selected_time (bt : BeaconType) (fromTime toTime : option Z) (t : treasure) : bool :=
  match timestampExtractorFor bt, fromTime, toTime with
  | Some getTs, None, None => true
  | Some getTs, _, _ => inTimeRange (getTs t) (timeBoundsNanos fromTime toTime).1 (timeBoundsNanos fromTime toTime).2
  | None, _, _ => true
  end.

(** The predicate of [ShiftMatching] is the filter when the lookups find something, and the rest
    of the filter when they do not. *)
Lemma shift_predicate_spec s g bt fromTime toTime :
  indexed s -> searchable s g ->
  exists s' p, buildShiftMatchingPredicate bt (Some g) fromTime toTime s = Next (s', p) /\ indexed s' /\ same_live s s' /\
    forall k x, live s !! k = Some x ->
      (finds_some s g -> p (deref s x) = selected_time bt fromTime toTime (deref s x) && evaluate_group (deref s x) g) /\
      (~ finds_some s g -> evaluate_group (deref s x) g = false /\
         p (deref s x) = selected_time bt fromTime toTime (deref s x)
                         && evaluateNativeFilterGroup (deref s x) (Residual (plan_group g))).
Proof.
  intros Hi Hse. destruct (plan_candidates s g Hi Hse) as (s' & hits & Hc & Hi' & Hs & Ha & Hev).
  unfold buildShiftMatchingPredicate. cbn [PlanFilter]. destruct (timeBoundsNanos fromTime toTime) as [fn tn] eqn:Etn.
  destruct (Mode (plan_group g)) eqn:Em; [by destruct (se_planned _ _ Hse)| |].
  all: rewrite Hc; cbn [obind]; eexists s', _; split; [reflexivity|]; split; [done|]; split; [done|].
  all: intros k x Hx; cbn zeta; specialize (Hev k x Hx).
  all: unfold selected_time; rewrite Etn; cbn [fst snd].
  all: set (tm := match timestampExtractorFor bt, fromTime, toTime with None, _, _ => _ | _, _, _ => _ end (deref s x)).
  all: assert (tm = match timestampExtractorFor bt, fromTime, toTime with
         | Some getTs, None, None => true
         | Some getTs, _, _ => inTimeRange (getTs (deref s x)) fn tn
         | None, _, _ => true end) as -> by (unfold tm; by destruct (timestampExtractorFor bt), fromTime, toTime).
  all: rewrite (look_frame _ _ Hs); unfold candidateKeySet, buildKeySet; rewrite candidate_keys.
  all: pose proof (live_candidate s _ hits k x (ix_keyed _ Hi) Ha Hx) as Hlive.
  all: destruct (map (Planner.handle_key s) hits) as [|k0 ks] eqn:Eh.
  all: assert (finds_some s g <-> map (Planner.handle_key s) hits <> []) as Hfs by
    (destruct Ha as (_ & Hin & _); unfold finds_some; split;
     [intros (k' & y & Hy & Hh) En; rewrite En in Hin; apply (not_elem_of_nil k'), Hin; eauto
     |intros Hne; rewrite Eh in *; first [done | destruct (proj1 (Hin k0) ltac:(by left)) as (y & ? & ?); eauto]]).
  all: rewrite Eh in Hfs.
  1, 3: split; [intros Hf; by apply Hfs in Hf|intros _]; rewrite bool_decide_false in Hlive by apply not_elem_of_nil;
    rewrite <-Hlive in Hev; split; [done|by rewrite andb_true_r].
  all: split; [intros _|intros Hn; destruct Hn; by apply Hfs].
  all: rewrite Hev, <-Hlive, <-andb_assoc; do 2 f_equal; apply bool_decide_ext; apply elem_of_list_to_set.
Qed.

(** The predicate of [PatchExpired] is the filter. *)
Lemma patch_predicate_spec s g :
  indexed s -> searchable s g ->
  exists s' p, buildPatchExpiredSelectionPredicate (Some g) s = Next (s', Some p) /\ indexed s' /\ same_live s s' /\
    forall k x, live s !! k = Some x -> p (deref s x) = evaluate_group (deref s x) g.
Proof.
  intros Hi Hse. destruct (plan_candidates s g Hi Hse) as (s' & hits & Hc & Hi' & Hs & Ha & Hev).
  unfold buildPatchExpiredSelectionPredicate. cbn [PlanFilter].
  destruct (Mode (plan_group g)) eqn:Em; [by destruct (se_planned _ _ Hse)| |].
  all: rewrite Hc; cbn [obind]; eexists s', _; split; [reflexivity|]; split; [done|]; split; [done|].
  all: intros k x Hx; cbn zeta; rewrite (Hev k x Hx); f_equal.
  all: rewrite <-(live_candidate s _ hits k x (ix_keyed _ Hi) Ha Hx).
  all: rewrite (look_frame _ _ Hs); unfold candidateKeySet, buildKeySet; rewrite candidate_keys.
  all: apply bool_decide_ext; destruct (map (Planner.handle_key s) hits); cbn [default from_option]; [set_solver|].
  all: apply elem_of_list_to_set.
Qed.

(** *** Streams *)

(** The window a request asks for, on an index by time. *)
Definition in_window (r : IndexRequest) (t : treasure) : bool :=
  match ir_FromTime r, ir_ToTime r with
  | None, None => true
  | from, to_ => in_bounds (AsTime <$> from) (AsTime <$> to_) (beaconTimeOf t (inputIndexTypeToBeaconType (ir_IndexType r)))
  end.

Lemma applyTimeRange_window r l :
  applyTimeRange (inputIndexTypeToBeaconType (ir_IndexType r)) (AsTime <$> ir_FromTime r) (AsTime <$> ir_ToTime r) l
  = filter (fun t => in_window r t) l.
Proof.
  unfold applyTimeRange, in_window. destruct (ir_FromTime r), (ir_ToTime r); cbn [fmap option_fmap option_map]; try done.
  induction l as [|t l IH]; [done|]. by rewrite filter_cons_True, <-IH.
Qed.

Lemma beaconTimeOf_alike bt : Proper (alike ==> eq) (fun t => beaconTimeOf t bt).
Proof. intros t t' Ht. unfold beaconTimeOf. destruct bt; by rewrite ?Ht. Qed.
Lemma in_window_alike r : Proper (alike ==> eq) (in_window r).
Proof. intros t t' Ht. unfold in_window. by rewrite (beaconTimeOf_alike _ _ _ Ht). Qed.

Lemma shows_alike s h x : shows s h x -> alike (look (deref s) h) (deref s x).
Proof. by intros [->|(t & -> & Ht)]. Qed.

(** The list [ts] shows the live treasures that have [P], in the order of the index, each once. *)
Record listed (s : swamp) (P : treasure -> bool) (ts : list treasure) : Prop := {
  li_once : NoDup (map GetKey ts);
  li_all k : k ∈ map GetKey ts <-> exists x, live s !! k = Some x /\ P (deref s x) = true;
  li_shows t : t ∈ ts -> exists x, live s !! GetKey t = Some x /\ alike t (deref s x)
}.

Lemma listed_perm s P ts ts' : ts' ≡ₚ ts -> listed s P ts -> listed s P ts'.
Proof.
  intros Hp [Ho Ha Hs]. split.
  - by rewrite Hp.
  - intros k. by rewrite Hp.
  - intros t. rewrite Hp. apply Hs.
Qed.

Lemma NoDup_map_filter {A B} (f : A -> B) (Q : A -> Prop) `{!forall x, Decision (Q x)} l :
  NoDup (map f l) -> NoDup (map f (filter Q l)).
Proof.
  induction l as [|x l IH]; [done|]. cbn [map]. intros [Hx Hl]%NoDup_cons. rewrite filter_cons. case_decide; [|auto].
  cbn [map]. apply NoDup_cons. split; [|auto]. intros (y & Hy & [_ Hin]%list_elem_of_filter)%list_elem_of_fmap.
  apply Hx. rewrite Hy. by apply (list_elem_of_fmap_2 f).
Qed.
Lemma in_order_filter {A} (less : A -> A -> bool) (Q : A -> Prop) `{!forall x, Decision (Q x)} l :
  in_order less l -> in_order less (filter Q l).
Proof.
  induction 1 as [|x l Hl IH Hx]; [constructor|]. rewrite filter_cons. case_decide; [|done].
  constructor; [done|]. rewrite Forall_forall in *. intros y [_ Hy]%list_elem_of_filter. auto.
Qed.

Lemma listed_once s P ts t t' : listed s P ts -> t ∈ ts -> t' ∈ ts -> GetKey t = GetKey t' -> t = t'.
Proof.
  intros [Ho _ _]. induction ts as [|u ts IH]; [by intros ?%not_elem_of_nil|]. cbn in Ho.
  apply NoDup_cons in Ho as [Hu Ho]. intros [->|Ht]%elem_of_cons [->|Ht']%elem_of_cons Hk; [done| | |auto].
  - destruct Hu. rewrite Hk. by apply (list_elem_of_fmap_2 GetKey).
  - destruct Hu. rewrite <-Hk. by apply (list_elem_of_fmap_2 GetKey).
Qed.

Lemma listed_filter s P Q ts :
  Proper (alike ==> eq) Q -> listed s P ts -> listed s (fun t => P t && Q t) (filter (fun t => Q t) ts).
Proof.
  intros HQ [Ho Ha Hs]. split.
  - by apply NoDup_map_filter.
  - intros k. rewrite list_elem_of_fmap. split.
    + intros (t & -> & [HQt Ht]%list_elem_of_filter). destruct (Hs t Ht) as (x & Hx & Hal).
      exists x. split; [done|]. rewrite <-(HQ _ _ Hal). apply andb_true_iff. split; [|by apply Is_true_true].
      destruct (proj1 (Ha (GetKey t)) (list_elem_of_fmap_2 GetKey _ _ Ht)) as (y & Hy & HP). by simplify_eq.
    + intros (x & Hx & [HP HQx]%andb_true_iff).
      assert (k ∈ map GetKey ts) as (t & -> & Ht)%list_elem_of_fmap by (apply Ha; eauto).
      exists t. split; [done|]. apply list_elem_of_filter. split; [|done].
      destruct (Hs t Ht) as (y & Hy & Hal). simplify_eq. rewrite (HQ _ _ Hal), HQx. done.
  - intros t [_ Ht]%list_elem_of_filter. by apply Hs.
Qed.

Lemma listed_ext s P Q ts :
  (forall k x, live s !! k = Some x -> P (deref s x) = Q (deref s x)) -> listed s P ts -> listed s Q ts.
Proof.
  intros HPQ [Ho Ha Hs]. split; [done| |done]. intros k. rewrite Ha. split; intros (x & Hx & HP);
    exists x; (split; [done|]); specialize (HPQ _ _ Hx); congruence.
Qed.

Lemma answers_listed s P hits :
  keyed s -> answers s P hits -> listed s P (map (look (deref s)) hits).
Proof.
  intros Hk (Ho & Ha & Hs). split.
  - by rewrite candidate_keys.
  - intros k. rewrite candidate_keys. apply Ha.
  - intros t (h & -> & Hh)%list_elem_of_fmap. destruct (Hs h Hh) as (x & Hx & Hsh).
    assert (GetKey (look (deref s) h) = Planner.handle_key s h) as -> by (by destruct h).
    exists x. split; [done|]. by eapply shows_alike.
Qed.

(** The candidates of a stream without a page. *)
Lemma stream_candidates_spec s now r g :
  indexed s -> searchable s g -> ir_Filters r = Some g -> ir_From r <= 0 -> ir_Limit r <= 0 ->
  let bt := inputIndexTypeToBeaconType (ir_IndexType r) in
  bucketExecPreconditions bt = true ->
  exists s' ts, stream_candidates now r s = Next (s', Some (ts, Residual (plan_group g))) /\ indexed s' /\ same_live s s' /\
    listed s (fun t => any_hint (Hints (plan_group g)) t && in_window r t) ts /\
    in_order (index_less bt (inputOrderTypeToBeaconOrderType (ir_OrderType r))) ts /\
    forall k x, live s !! k = Some x ->
      evaluate_group (deref s x) g =
      any_hint (Hints (plan_group g)) (deref s x) && evaluateNativeFilterGroup (deref s x) (Residual (plan_group g)).
Proof.
  intros Hi Hse Hr Hfrom Hlimit bt Hbt.
  destruct (plan_candidates s g Hi Hse) as (s' & hits & Hc & Hi' & Hs & Ha & Hev).
  unfold stream_candidates. rewrite Hr. unfold parseOptionalTimestamps. cbn [PlanFilter]. fold bt.
  destruct (sortCandidates_order bt (inputOrderTypeToBeaconOrderType (ir_OrderType r))
    (applyTimeRange bt (AsTime <$> ir_FromTime r) (AsTime <$> ir_ToTime r) (map (look (deref s')) hits)) Hbt) as [Hp Ho].
  set (ts := sortCandidates _ _ _) in *.
  assert (applyFromLimit (ir_From r) (ir_Limit r) ts = ts) as Hpage.
  { unfold applyFromLimit. rewrite Z.max_l by lia. destruct ts; [done|]. cbn [length].
    rewrite (proj2 (Z.leb_gt _ _)) by lia. by rewrite (proj2 (Z.ltb_ge _ _)) by lia. }
  exists s', ts. split.
  { destruct (Mode (plan_group g)) eqn:Em; [by destruct (se_planned _ _ Hse)| |].
    all: rewrite Hbt, Hc; cbn [obind]; cbn zeta; fold ts; by rewrite Hpage. }
  split_and!; try done; try apply Hi'; try apply Hs. eapply listed_perm; [exact Hp|].
  unfold bt. rewrite applyTimeRange_window. apply listed_filter; [apply in_window_alike|].
  rewrite (look_frame _ _ Hs). apply answers_listed; [apply Hi|done].
Qed.

(** What the loop of a stream asks of a treasure. *)
Definition stream_admits (r : IndexRequest) (residual : option FilterGroup) (t : treasure) : bool :=
  key_admitted r (GetKey t) && evaluateNativeFilterGroup t residual.

Lemma stream_match_spec r residual t :
  match stream_match r residual t with
  | Some m => stream_admits r residual t = true /\ m = (evaluateNativeFilterGroupWithMeta t residual).2
  | None => stream_admits r residual t = false
  end.
Proof.
  unfold stream_match, stream_admits. destruct (key_admitted r (GetKey t)); cbn [negb andb]; [|done].
  destruct residual as [g|]; cbn; [|done]. destruct (group_meta_spec t g) as [H1 H2].
  destruct (group_has_labels g) eqn:Hl.
  - destruct (evaluate_group_meta t g) as [b m]. cbn in *. subst b. by destruct (evaluate_group t g).
  - destruct (evaluate_group t g); [|done]. split; [done|]. rewrite H2 by done. by rewrite no_labels_no_meta.
Qed.

Lemma stream_matches_spec r residual ts :
  ir_MaxResults r <= 0 ->
  stream_matches r residual ts =
    map (fun t => (t, (evaluateNativeFilterGroupWithMeta t residual).2)) (filter (fun t => stream_admits r residual t) ts).
Proof.
  intros Hm. unfold stream_matches, at_most. rewrite (proj2 (Z.ltb_ge _ _)) by lia.
  induction ts as [|t ts IH]; [done|]. cbn [omap list_omap]. rewrite filter_cons.
  pose proof (stream_match_spec r residual t) as Ht. destruct (stream_match r residual t) as [m|].
  - destruct Ht as [Ht ->]. cbn [fmap option_fmap option_map]. rewrite decide_True by (by rewrite Ht).
    cbn [map]. f_equal. apply IH.
  - cbn [fmap option_fmap option_map]. rewrite decide_False by (rewrite Ht; by intros []). apply IH.
Qed.

Lemma stream_admits_alike r residual : Proper (alike ==> eq) (stream_admits r residual).
Proof. intros t t' Ht. unfold stream_admits. by rewrite !Ht. Qed.

Lemma all_next_Forall2 {A B} (f : A -> outcome B) l :
  (forall x, x ∈ l -> exists y, f x = Next y) -> exists ys, all_next (map f l) = Next ys /\ Forall2 (fun x y => f x = Next y) l ys.
Proof.
  induction l as [|x l IH]; intros Hf; cbn; [by exists []|].
  destruct (Hf x) as [y Hy]; [by left|]. destruct IH as (ys & -> & Hys); [intros; apply Hf; by right|].
  rewrite Hy. cbn. exists (y :: ys). split; [done|by constructor].
Qed.

Definition stream_wants (r : IndexRequest) (g : FilterGroup) (t : treasure) : bool :=
  in_window r t && key_admitted r (GetKey t) && evaluate_group t g.

(** The stream of a plan. *)
Lemma planned_stream_spec s now r g :
  indexed s -> searchable s g -> ir_Filters r = Some g -> ir_From r <= 0 -> ir_Limit r <= 0 -> ir_MaxResults r <= 0 ->
  let bt := inputIndexTypeToBeaconType (ir_IndexType r) in
  bucketExecPreconditions bt = true ->
  (ir_KeysOnly r = true \/ forall k x, live s !! k = Some x -> is_Some (treasureToKeyValuePair (deref s x))) ->
  exists s' sent ts, gateway_GetByIndexStream now r s = Next (s', Some sent) /\ indexed s' /\ same_live s s' /\
    listed s (stream_wants r g) ts /\
    in_order (index_less bt (inputOrderTypeToBeaconOrderType (ir_OrderType r))) ts /\
    Forall2 (fun t sent => to_pb (ir_KeysOnly r) t = Next sent.1) ts sent.
Proof.
  intros Hi Hse Hr Hfrom Hlimit Hmax bt Hbt Hans.
  assert (same_live s (BeginVigil s)) as Hs0 by done.
  assert (indexed (BeginVigil s)) as Hi0 by (by apply (indexed_frame s)).
  destruct (stream_candidates_spec (BeginVigil s) now r g) as (s1 & ts & Hc & Hi1 & Hs1 & Hl & Ho & Hev); try done.
  { by destruct Hse. }
  fold bt in Ho. change (live (BeginVigil s)) with (live s) in Hev. change (deref (BeginVigil s)) with (deref s) in Hev.
  assert (listed s (fun t => any_hint (Hints (plan_group g)) t && in_window r t) ts) as Hl' by (by destruct Hl; split).
  clear Hl. set (ts' := filter (fun t => stream_admits r (Residual (plan_group g)) t) ts).
  assert (listed s (stream_wants r g) ts') as Hl2.
  { eapply listed_ext, listed_filter, Hl'; [|apply stream_admits_alike]. intros k x Hx. unfold stream_wants, stream_admits.
    rewrite (Hev _ _ Hx). by destruct (any_hint _ _), (in_window _ _), (key_admitted _ _). }
  destruct (all_next_Forall2 (fun '(t, m) => let! pb := to_pb (ir_KeysOnly r) t in Next (pb, m))
    (stream_matches r (Residual (plan_group g)) ts)) as (sent & Hsent & Hf).
  { rewrite stream_matches_spec by done. intros [t m] (t' & [= -> ->] & Ht)%list_elem_of_fmap.
    destruct Hans as [Hk|Hans]; [rewrite Hk; by eexists|].
    destruct (li_shows _ _ _ Hl2 t' Ht) as (x & Hx & Hal). unfold to_pb. destruct (ir_KeysOnly r); [by eexists|].
    rewrite (treasureToKeyValuePair_alike _ _ Hal). destruct (Hans _ _ Hx) as [pb ->]. by eexists. }
  exists (CeaseVigil s1), sent, ts'. split.
  { unfold gateway_GetByIndexStream, vigilant. rewrite Hc. cbn [obind]. rewrite Hsent. done. }
  split; [by apply (indexed_frame s1)|]. split; [done|]. split; [done|]. split; [by apply in_order_filter|].
  rewrite stream_matches_spec in Hf by done. fold ts' in Hf. rewrite Forall2_fmap_l in Hf.
  eapply Forall2_impl; [exact Hf|]. intros t [pb m]. cbn. by destruct (to_pb _ t); [| |intros [= -> _]].
Qed.

(** *** Checked on a concrete swamp *)

(** A treasure with bytes, or without content. *)
#[local] Instance spec_float_eq_dec : EqDecision spec_float.
Proof. solve_decision. Defined.
#[local] Instance Content_eq_dec : EqDecision Content.
Proof. solve_decision. Defined.
Definition plain_treasure (t : treasure) : bool :=
  match m_Content (t_model t) with None => true | Some c => bool_decide (c = only_ByteArray (c_ByteArray c)) end.

Lemma plain_treasure_valid t : plain_treasure t = true -> valid_treasure t.
Proof.
  unfold plain_treasure, valid_treasure. destruct (m_Content (t_model t)) as [c|]; [|done].
  intros ->%bool_decide_eq_true. destruct (c_ByteArray c) as [b|]; [apply (valid_value (VByteArray b))|apply valid_empty].
Qed.

Definition live_check (s : swamp) (P : bytes -> treasure -> bool) : bool :=
  forallb (fun '(k, x) => P k (deref s x)) (map_to_list (live s)).
Lemma live_check_spec s P k x : live_check s P = true -> live s !! k = Some x -> P k (deref s x) = true.
Proof.
  unfold live_check. rewrite forallb_forall. intros Hc Hx. apply (Hc (k, x)).
  by apply list_elem_of_In, elem_of_map_to_list.
Qed.

Definition keyed_check (s : swamp) : bool :=
  live_check s (fun k t => bool_decide (GetKey t = k) && plain_treasure t) &&
  forallb (fun '(_, x) => bool_decide (x < length (heap (data s)))%nat) (map_to_list (live s)).
Lemma keyed_checked s : keyed_check s = true -> keyed s.
Proof.
  unfold keyed_check. rewrite andb_true_iff, forallb_forall. intros [Hc Hlen] k x Hx.
  pose proof (live_check_spec _ _ _ _ Hc Hx) as Hk. cbn in Hk.
  apply andb_true_iff in Hk as [Hk%bool_decide_eq_true Hp]. split_and!; [|done|by apply plain_treasure_valid].
  exact (proj1 (bool_decide_eq_true _) (Hlen (k, x) (proj1 (list_elem_of_In _ _) (proj2 (elem_of_map_to_list _ _ _) Hx)))).
Qed.

Definition legs_check (t : treasure) (g : FilterGroup) : bool :=
  forallb (fun f => match indexableHint f with Some _ => leg_plain t f | None => true end) (candidate_legs g).
Lemma legs_checked t g f :
  legs_check t g = true -> f ∈ candidate_legs g -> is_Some (indexableHint f) -> leg_plain t f = true.
Proof.
  unfold legs_check. rewrite forallb_forall. intros Hc Hin [h Hh].
  specialize (Hc f (proj1 (list_elem_of_In _ _) Hin)). by rewrite Hh in Hc.
Qed.

Definition planned (g : FilterGroup) : bool := match Mode (plan_group g) with PlanModeBypass => false | _ => true end.
Definition search_check (s : swamp) (g : FilterGroup) : bool :=
  known g && planned g && forallb filter_ok (candidate_legs g) &&
  live_check s (fun _ t => legs_check t g).
Lemma search_checked s g : search_check s g = true -> searchable s g.
Proof.
  unfold search_check. rewrite !andb_true_iff. intros [[[Hk Hp] Hf] Hl]. split; [done| | |].
  - unfold planned in Hp. by destruct (Mode (plan_group g)).
  - rewrite forallb_forall in Hf. intros f Hin. by apply Hf, list_elem_of_In.
  - intros k x f Hx. apply legs_checked. exact (live_check_spec _ _ _ _ Hl Hx).
Qed.

Definition finds_check (s : swamp) (g : FilterGroup) : bool :=
  negb (live_check s (fun _ t => negb (any_hint (Hints (plan_group g)) t))).
Lemma finds_checked s g : finds_check s g = false -> ~ finds_some s g.
Proof.
  unfold finds_check. rewrite negb_false_iff. intros Hc (k & x & Hx & Hh).
  pose proof (live_check_spec _ _ _ _ Hc Hx) as Hn. cbn in Hn. by rewrite Hh in Hn.
Qed.
End Searches.
