(* ===== verification/FieldSteps.v ===== *)
(** The field indexes through the operations of a swamp.

    [tended e s]: every index of [s] is in order, but perhaps for the key [e].  A request that
    edits the treasure of a key leaves the indexes behind for that key; saving it, or deleting
    it, reports the key and brings them up to date.  What writes to the storage does not touch
    what an index can see. *)
From Stdlib Require Import Floats.SpecFloat.
From S2P Require Import Prelude Steps Types Compressor Block FileSys Reader Contents Log Session.
From S2P Require Import Meta Chronicler Guard Treasure Beacon Canon Bucket Slots Indexing Swamp Gateway SwampInv Text.
From S2P Require Import Filters Planner GatewaySearch Plans Alike Fields.
#[local] Set Warnings "-register-all,-clear-no-such-hyp".

#[export] Instance valid_alike : Proper (alike ==> iff) valid_treasure.
Proof.
  assert (forall t t', alike t t' -> valid_treasure t -> valid_treasure t') as Hv.
  { intros t t' Ht Hv. unfold alike, shown in Ht. injection Ht as _ Hc _ _ _ _ _.
    unfold valid_treasure in *. destruct (m_Content (t_model t')) as [c'|]; [|done]. cbn in Hc. rewrite <-Hc.
    destruct (m_Content (t_model t)); cbn; [done|constructor]. }
  intros t t' Ht. split; apply Hv; [done|by symmetry].
Qed.

(** The locations of objects in an index matter only as far as their keys go. *)
Lemma bucket_ok_keys key key' b :
  (forall v k h, entry (byValue b) v k h -> Slots.handle_key key' h = Slots.handle_key key h) ->
  bucket_ok key b -> bucket_ok key' b.
Proof.
  intros Hk [Hd He Hs]. split; [done| |done]. intros v k h Hen Hn. rewrite (Hk _ _ _ Hen). by apply He.
Qed.

(** ** Edits

    [f] keeps the key, leaves one value, and raises a flag when it changes what the treasure
    shows. *)
Record fair (f : treasure -> option treasure) : Prop := {
  fair_run t t' : f t = Some t' ->
    GetKey t' = GetKey t /\ (valid_treasure t -> valid_treasure t') /\ (changed t = true -> changed t' = true) /\
    (changed t' = true \/ alike t' t)
}.

Lemma fair_id : fair Some.
Proof. split. intros t t' [= <-]. split_and!; try done. by right. Qed.
Lemma fair_then f g : fair f -> fair g -> fair (fun t => f t ≫= g).
Proof.
  intros [Hf] [Hg]. split. intros t t2. destruct (f t) as [t1|] eqn:E1; [|done]. cbn. intros E2.
  destruct (Hf _ _ E1) as (K1 & V1 & C1 & O1). destruct (Hg _ _ E2) as (K2 & V2 & C2 & O2).
  split_and!; [congruence|auto|auto|]. destruct O2 as [?|A2]; [by left|]. destruct O1 as [?|A1]; [left; auto|right].
  by transitivity t1.
Qed.
Lemma fair_guard g F :
  (forall t, GetKey (F t) = GetKey t /\ (valid_treasure t -> valid_treasure (F t)) /\
     (changed t = true -> changed (F t) = true) /\ (changed (F t) = true \/ alike (F t) t)) ->
  fair (with_guard g F).
Proof. intros HF. split. intros t t'. unfold with_guard. destruct (CanExecute _ _ _); [|done]. intros [= <-]. apply HF. Qed.

Lemma fair_set_content {A} (eqb : A -> A -> bool) get v x g :
  valid (x : Content) -> fair (with_guard g (set_content eqb get x v)).
Proof.
  intros Hv. apply fair_guard. intros t. unfold set_content.
  destruct (c ← m_Content (t_model t); get c) as [old|]; [destruct (eqb old v)|].
  all: split_and!; try done; try (by left); by right.
Qed.

Ltac flag_raised := intros; unfold changed; cbn; rewrite ?orb_true_r; done.
Lemma fair_mark g F :
  (forall t, GetKey (F t) = GetKey t /\ m_Content (t_model (F t)) = m_Content (t_model t) /\ changed (F t) = true) ->
  fair (with_guard g F).
Proof.
  intros HF. apply fair_guard. intros t. destruct (HF t) as (? & Hc & ?). split_and!; auto.
  unfold valid_treasure. by rewrite Hc.
Qed.

Lemma fair_set_value p g : p_Uint32Slice p = None -> fair (set_value_of p g).
Proof.
  intros Hs. unfold set_value_of. rewrite Hs.
  repeat (case_match; [apply fair_set_content; first
    [apply (valid_value (VInt8 _)) | apply (valid_value (VInt16 _)) | apply (valid_value (VInt32 _)) | apply (valid_value (VInt64 _))
    |apply (valid_value (VUint8 _)) | apply (valid_value (VUint16 _)) | apply (valid_value (VUint32 _)) | apply (valid_value (VUint64 _))
    |apply (valid_value (VFloat32 _)) | apply (valid_value (VFloat64 _)) | apply (valid_value (VString _)) | apply (valid_value (VBoolean _))
    |apply (valid_value (VByteArray _)) | apply valid_empty]|]).
  apply fair_guard. intros t. destruct (m_Content (t_model t)) as [c|] eqn:Hc; [destruct (c_Void c) eqn:Hv|].
  all: split_and!; try done; try (by left); try (by right). intros _. apply valid_void.
Qed.

Lemma fair_valid ts f : (forall t, fair (f t)) -> fair (when_valid ts f).
Proof. intros Hf. unfold when_valid. destruct ts as [ts|]; [destruct (isValidTimestamp _)|]; auto using fair_id. Qed.
Lemma fair_nonempty b f : (forall b, fair (f b)) -> fair (when_nonempty b f).
Proof. intros Hf. unfold when_nonempty. case_decide; auto using fair_id. Qed.

Lemma keyValuesToTreasure_fair p g : p_Uint32Slice p = None -> fair (keyValuesToTreasure (Some p) g).
Proof.
  intros Hs. unfold keyValuesToTreasure.
  apply (fair_then _ (fun t => t ← when_valid (p_CreatedAt p) (SetCreatedAt g) t; _)); [by apply fair_set_value|].
  apply (fair_then _ (fun t => t ← when_nonempty (p_CreatedBy p) (SetCreatedBy g) t; _));
    [apply fair_valid; intros; apply fair_mark; intros; split_and!; [done|done|flag_raised]|].
  apply (fair_then _ (fun t => t ← when_valid (p_UpdatedAt p) (SetModifiedAt g) t; _));
    [apply fair_nonempty; intros; apply fair_mark; intros; split_and!; [done|done|flag_raised]|].
  apply (fair_then _ (fun t => t ← when_nonempty (p_UpdatedBy p) (SetModifiedBy g) t; _));
    [apply fair_valid; intros; apply fair_mark; intros; split_and!; [done|done|flag_raised]|].
  apply fair_then; [apply fair_nonempty|apply fair_valid]; intros; apply fair_mark; intros; split_and!; (done || flag_raised).
Qed.

Section FieldSteps.
Context `{SI : Store} `{GM : GobModel} `{GMeta : GobMeta} `{FI : FloatToInt} `{MP : Msgpack} `{SR : SlotRange}.
Context `{HR : KeyRange} `{HS : SortSlice} `{!FloatToIntOk} `{!SlotRangeOk}.
Hypothesis Unmarshal_ok : decodes_well.

(** The objects of keys that are being created. *)
Definition creating_ok (s : swamp) : Prop :=
  forall k x, creatingTreasures (data s) !! k = Some x ->
    (x < length (heap (data s)))%nat /\ key_at s x = k /\ valid_treasure (deref s x).

Record tended (e : option bytes) (s : swamp) : Prop := {
  td_keyed : keyed s;
  td_creating : creating_ok s;
  td_fields path b : buckets (data s) !! path = Some b -> field_but e s path b
}.

Lemma tended_indexed s : tended None s <-> indexed s /\ creating_ok s.
Proof. split; [by intros []|]. by intros [[] ?]. Qed.
Lemma field_but_weaken e s path b : field_but None s path b -> field_but e s path b.
Proof.
  intros [? ? ? ? ? Hk He]. split; try done; intros; [by apply Hk|by eapply He].
Qed.
Lemma tended_weaken e s : tended None s -> tended e s.
Proof. intros [Hk Hc Hf]. split; [done|done|]. intros. by apply field_but_weaken, Hf. Qed.

(** ** Steps an index cannot see *)

(** The objects that were there show what they showed. *)
Record calm (s s' : swamp) : Prop := {
  cm_len : (length (heap (data s)) <= length (heap (data s')))%nat;
  cm_objects x : (x < length (heap (data s)))%nat -> alike (deref s' x) (deref s x);
  cm_live : live s' = live s;
  cm_buckets : buckets (data s') = buckets (data s);
  cm_creating : creating_ok s -> creating_ok s'
}.

#[export] Instance calm_preorder : PreOrder calm.
Proof.
  split; [by split|]. intros s1 s2 s3 [Hl1 Ho1 Hv1 Hb1 Hc1] [Hl2 Ho2 Hv2 Hb2 Hc2].
  split; [lia| |congruence..|by auto]. intros x Hx. rewrite Ho2 by lia. by apply Ho1.
Qed.

(** The objects are the same. *)
Lemma calm_same s s' :
  same_live s s' -> buckets (data s') = buckets (data s) ->
  (forall k x, creatingTreasures (data s') !! k = Some x -> creatingTreasures (data s) !! k = Some x) -> calm s s'.
Proof.
  intros Hs Hb Hc. pose proof (same_live_deref _ _ Hs) as Hd. destruct Hs as [Hh Hl].
  split; [by rewrite Hh|by intros; rewrite Hd|done|done|]. intros Hco k x Hx.
  unfold key_at. rewrite Hd, Hh. by apply Hco, Hc.
Qed.
Lemma calm_core s s' : core s' = core s -> calm s s'.
Proof. intros Hc. injection Hc as Hh Hl _ Hcr Hb _ _ _. apply calm_same; [by split|done|by rewrite Hcr]. Qed.

Lemma deref_update_cases s x t y :
  (y < length (heap (data s)))%nat -> deref (update x t s) y = if decide (y = x) then t else deref s y.
Proof.
  intros Hy. destruct (decide (y = x)) as [->|Hne]; [by rewrite deref_update, decide_True|].
  unfold deref. cbn. by rewrite list_lookup_insert_ne.
Qed.

Lemma update_length x t s : length (heap (data (update x t s))) = length (heap (data s)).
Proof. apply length_insert. Qed.

Lemma calm_update s x t : alike t (deref s x) -> calm s (update x t s).
Proof.
  intros Ht. assert (forall y, (y < length (heap (data s)))%nat -> alike (deref (update x t s) y) (deref s y)) as Hall.
  { intros y Hy. rewrite deref_update_cases by done. case_decide; by subst. }
  split; [cbn; by rewrite length_insert|done|done|done|].
  intros Hco k y Hy. destruct (Hco k y Hy) as (Hlt & Hk & Hv). unfold key_at in *.
  split_and!; [cbn; by rewrite length_insert|by rewrite (Hall y Hlt)|by rewrite (Hall y Hlt)].
Qed.

Lemma field_calm e s s' path b : calm s s' -> keyed s -> field_but e s path b -> field_but e s' path b.
Proof.
  intros [Hlen Ho Hl _ _] Hks [[Hg Hks'] Hp Hb Hi Ha Hk He].
  assert (forall v k h, entry (byValue b) v k h -> Slots.handle_key (key_at s') h = Slots.handle_key (key_at s) h) as Hkeys.
  { intros v k [x|t] Hen; [|done]. unfold key_at. cbn. by rewrite (Ho x (Ha _ _ _ Hen)). }
  split; try done.
  - split; [by eapply bucket_ok_keys|done].
  - intros v k x Hen. specialize (Ha _ _ _ Hen). lia.
  - intros k Hne. specialize (Hk k Hne). rewrite Hl. destruct (live s !! k) as [x|] eqn:Hx; [|done].
    destruct Hk as (w & Hw & Hlk). exists w. split; [done|]. cbn in *.
    by rewrite (Ho x (proj1 (Hks _ _ Hx))).
  - intros v k h Hne Hen Hn. destruct (He v k h Hne Hen Hn) as (x & Hx & Hs). exists x. rewrite Hl. split; [done|].
    destruct Hs as [->|(t & -> & Ht)]; [by left|right]. exists t. split; [done|].
    by rewrite Ht, (Ho x (proj1 (Hks _ _ Hx))).
Qed.

Lemma keyed_calm s s' : calm s s' -> keyed s -> keyed s'.
Proof.
  intros [Hlen Ho Hl _ _] Hk k x. rewrite Hl. intros Hx. destruct (Hk k x Hx) as (Hlt & Hkey & Hv). unfold key_at in *.
  split_and!; [lia|by rewrite (Ho x Hlt)|by rewrite (Ho x Hlt)].
Qed.

Lemma tended_calm e s s' : calm s s' -> tended e s -> tended e s'.
Proof.
  intros Hc [Hk Hcr Hf]. split; [by eapply keyed_calm|by apply (cm_creating _ _ Hc)|]. intros path b. rewrite (cm_buckets _ _ Hc). intros Hb.
  eapply field_calm; eauto.
Qed.

(** ** Steps on one key *)

(** Somebody edits the object of a key, or puts it among the live ones, or takes it away. *)
Record edits_key (k : bytes) (s s' : swamp) : Prop := {
  ek_len : (length (heap (data s)) <= length (heap (data s')))%nat;
  ek_keys x : (x < length (heap (data s)))%nat -> key_at s' x = key_at s x;
  ek_others k' x : live s !! k' = Some x -> k' <> k -> alike (deref s' x) (deref s x);
  ek_live k' : k' <> k -> live s' !! k' = live s !! k';
  ek_here x : live s' !! k = Some x -> (x < length (heap (data s')))%nat /\ key_at s' x = k /\ valid_treasure (deref s' x);
  ek_buckets : buckets (data s') = buckets (data s);
  ek_creating : creating_ok s -> creating_ok s'
}.

Lemma tended_edit e k s s' : (e = None \/ e = Some k) -> edits_key k s s' -> tended e s -> tended (Some k) s'.
Proof.
  intros Hek [Hlen Hks Ho Hl Hx Hbs Hcr] [Hk Hc Hf].
  assert (tended (Some k) s) as [_ _ Hf'] by (destruct Hek as [->| ->]; [by apply tended_weaken|by split]).
  split; [|by auto|].
  - intros k' x Hl'. destruct (decide (k' = k)) as [->|Hne]; [by apply Hx|]. rewrite Hl in Hl' by done.
    destruct (Hk _ _ Hl') as (Hlt & Hkey & Hv). rewrite Hks by done. split_and!; [lia|done|].
    by rewrite (Ho _ _ Hl' Hne).
  - intros path b. rewrite Hbs. intros Hb. destruct (Hf' _ _ Hb) as [[Hg Hks'] Hp Hi1 Hi2 Ha Hr He].
    split; try done.
    + split; [|done]. eapply bucket_ok_keys; [|done]. intros v k' [x|t] Hen; [|done]. cbn. apply Hks. by eapply Ha.
    + intros v k' x Hen. specialize (Ha _ _ _ Hen). lia.
    + intros k' Hne. assert (k' <> k) as Hnk by congruence. specialize (Hr k' Hne). rewrite Hl by done.
      destruct (live s !! k') as [x|] eqn:El; [|done]. destruct Hr as (w & Hw & Hlk). exists w. split; [done|].
      cbn in *. by rewrite (Ho _ _ El Hnk).
    + intros v k' h Hne Hen Hn. assert (k' <> k) as Hnk by congruence.
      destruct (He v k' h Hne Hen Hn) as (x & El & Hs). exists x. rewrite Hl by done. split; [done|].
      destruct Hs as [->|(t & -> & Ht)]; [by left|right]. exists t. split; [done|]. by rewrite Ht, (Ho _ _ El Hnk).
Qed.

(** ** Reports *)

Lemma removeFromSlot_entry old k b v k' h :
  entry (byValue (removeFromSlotLocked old k b)) v k' h -> entry (byValue b) v k' h.
Proof.
  intros Hr. unfold removeFromSlotLocked in Hr. destruct (slot_get old (byValue b)) as [m|] eqn:Hm; [|done].
  destruct (slot_get_Some _ _ _ Hm) as (pre & v0 & post & Hbv & _ & _ & Hrem). cbn in Hr. rewrite Hrem in Hr.
  rewrite Hbv, entry_app, entry_cons. rewrite entry_app in Hr. destruct Hr as [Hr|Hr]; [by left|right].
  case_decide; [by right|]. rewrite entry_cons in Hr. destruct Hr as [[-> Hr]|Hr]; [left|by right].
  split; [done|]. by apply lookup_delete_Some in Hr as [_ ?].
Qed.

(** What a report does to the entries of an index. *)
Lemma insertOrUpdate_entries key k v t b b' v' k' h :
  bucket_ok key b -> Slots.handle_key key t = k ->
  insertOrUpdateLocked k v t b = Some b' -> entry (byValue b') v' k' h ->
  (k' <> k -> entry (byValue b) v' k' h) /\ (k' = k -> is_NaN v' = false -> h = t) /\
  (entry (byValue b) v' k' h \/ h = t).
Proof.
  intros Hb Ht. unfold insertOrUpdateLocked. destruct (byKey b !! k) as [old|] eqn:Ho.
  - destruct (key_eqb old v) eqn:E.
    + destruct (slot_get old (byValue b)) as [m|] eqn:Hm; [|done]. intros [= <-] Hen. cbn in Hen.
      destruct (slot_get_Some _ _ _ Hm) as (pre & v0 & post & Hbv & Hv0 & Hput & _). rewrite Hput in Hen.
      rewrite Hbv, !entry_app, !entry_cons. rewrite entry_app, entry_cons in Hen.
      assert (forall w, entry (pre ++ post) w k h -> is_NaN w = false -> False) as Hno.
      { intros w Hew Hn. assert (entry (byValue b) w k h) as Hew'.
        { rewrite Hbv, entry_app, entry_cons. rewrite entry_app in Hew. tauto. }
        destruct (bo_entry _ _ Hb _ _ _ Hew' Hn) as (_ & w' & Hw' & Heq). simplify_eq.
        pose proof (key_eqb_trans _ _ _ Heq (key_eqb_sym _ _ Hv0)) as Hww.
        pose proof (bo_distinct _ _ Hb) as Hd. rewrite Hbv, fmap_app in Hd. cbn in Hd.
        rewrite (distinct_middle pre.*1 v0 post.*1 w Hd) in Hww; [done|]. rewrite <-fmap_app.
        destruct Hew as (mw & Hmw & _). exact (list_elem_of_fmap_2 fst _ _ Hmw). }
      destruct Hen as [Hen|[[-> Hen]|Hen]].
      * split_and!; [auto| |auto]. intros -> Hn. destruct (Hno v'); [by apply entry_app; left|done].
      * apply lookup_insert_Some in Hen as [[<- <-]|[Hne Hen]]; [by split_and!; auto|].
        split_and!; [auto| |auto]. intros ->. done.
      * split_and!; [auto| |auto]. intros -> Hn. destruct (Hno v'); [by apply entry_app; right|done].
    + intros [= <-] Hen. unfold insertLocked in Hen. cbn in Hen.
      destruct (removeFromSlotLocked_ok key k old b Hb Ho) as (_ & Habs & _).
      destruct (slot_insert_entry _ _ _ _ _ _ _ Hen) as [H1 H2].
      split_and!.
      * intros Hne. eapply removeFromSlot_entry, H1. by left.
      * intros -> Hn. destruct H2 as [H2|(_ & -> & _)]; [|done]. rewrite (Habs _ _ H2) in Hn. done.
      * destruct H2 as [H2|(_ & -> & _)]; [left; by eapply removeFromSlot_entry|by right].
  - intros [= <-] Hen. unfold insertLocked in Hen. cbn in Hen.
    pose proof (absent_none key k b Hb Ho) as Habs. destruct (slot_insert_entry _ _ _ _ _ _ _ Hen) as [H1 H2].
    split_and!.
    + intros Hne. apply H1. by left.
    + intros -> Hn. destruct H2 as [H2|(_ & -> & _)]; [|done]. rewrite (Habs _ _ H2) in Hn. done.
    + destruct H2 as [H2|(_ & -> & _)]; [by left|by right].
Qed.

Lemma notify_buckets f s s' path b' :
  notify f s = Next s' -> buckets (data s') !! path = Some b' ->
  same_live s s' /\ exists b, buckets (data s) !! path = Some b /\ f b = Some b'.
Proof.
  unfold notify, each_bucket. case_decide as Hall; cbn; [|done]. intros [= <-] Hb. split; [done|]. cbn in Hb.
  apply lookup_omap_Some in Hb as (b & Hf & Hb). eauto.
Qed.
Lemma notify_same f s s' : notify f s = Next s' -> same_live s s' /\ creatingTreasures (data s') = creatingTreasures (data s).
Proof. unfold notify, each_bucket. case_decide as Hall; cbn; [|done]. by intros [= <-]. Qed.

Lemma creating_frame s s' :
  same_live s s' -> creatingTreasures (data s') = creatingTreasures (data s) -> creating_ok s -> creating_ok s'.
Proof.
  intros Hs Hc Hco k x. pose proof (same_live_deref _ _ Hs) as Hd. destruct Hs as [Hh Hl].
  unfold key_at. rewrite Hc, Hd, Hh. apply Hco.
Qed.

(** The object of the key is reported. *)
Lemma report_saved k x s f s' :
  (f = OnInsert (deref s) (Live x) \/ f = OnUpdate (deref s) (Live x)) ->
  tended (Some k) s -> live s !! k = Some x -> notify f s = Next s' -> tended None s'.
Proof.
  intros Hf [Hk Hcr Hfs] Hx Hn. destruct (notify_same _ _ _ Hn) as [Hs Hcs].
  destruct (Hk _ _ Hx) as (Hlt & Hkey & Hv). split; [by eapply keyed_frame|by eapply creating_frame|].
  intros path b' Hb'. destruct (notify_buckets _ _ _ _ _ Hn Hb') as (_ & b & Hb & Hfb).
  eapply field_ok_frame; [done|]. destruct (Hfs _ _ Hb) as [Hg Hp [Hi Ho] [Hfl Hpe] Ha Hr He].
  assert (apply_treasure (deref s) (Live x) b = Some b') as Happ.
  { destruct Hf as [->| ->]; unfold OnInsert, OnUpdate, tryEnqueue in Hfb; rewrite Hfl, Hi in Hfb; done. }
  destruct (apply_treasure_spec path (key_at s) Unmarshal_ok (deref s) (Live x) b Hg Hp eq_refl)
    as (b1 & w & E & Hg1 & Hrest & Hlk & Hby).
  assert (b1 = b') as -> by congruence. cbn in Hby, Hlk. rewrite Hkey in Hby.
  unfold rest in Hrest. injection Hrest as R1 R2 R3 R4 R5.
  unfold apply_treasure in Happ. cbn in Happ. unfold key_at in Hkey. rewrite Hkey in Happ.
  assert (forall v k' h, entry (byValue b') v k' h ->
    (k' <> k -> entry (byValue b) v k' h) /\ (k' = k -> is_NaN v = false -> h = Live x) /\
    (entry (byValue b) v k' h \/ h = Live x)) as Hent.
  { intros v k' h. eapply (insertOrUpdate_entries (key_at s)); [apply Hg| |exact Happ]. exact Hkey. }
  split; try done; try congruence; try (split; congruence).
  - intros v k' y Hen. destruct (Hent _ _ _ Hen) as (_ & _ & [Hold|Hnew]); [by eapply Ha|]. by injection Hnew as ->.
  - intros k' _. rewrite Hby. destruct (decide (k' = k)) as [->|Hne].
    + rewrite lookup_insert_eq, Hx. cbn. by exists w.
    + rewrite lookup_insert_ne by done. apply Hr. congruence.
  - intros v k' h _ Hen Hnn. destruct (Hent _ _ _ Hen) as (H1 & H2 & _). destruct (decide (k' = k)) as [->|Hne].
    + exists x. split; [done|]. left. by apply H2.
    + apply (He v); [congruence|by apply H1|done].
Qed.

(** A deletion is reported. *)
Lemma report_deleted k s s' :
  tended (Some k) s -> live s !! k = None -> notifyBucketsDelete k s = Next s' -> tended None s'.
Proof.
  intros [Hk Hcr Hfs] Hx Hn. destruct (notify_same _ _ _ Hn) as [Hs Hcs]. split; [by eapply keyed_frame|by eapply creating_frame|].
  intros path b' Hb'. destruct (notify_buckets _ _ _ _ _ Hn Hb') as (_ & b & Hb & Hfb).
  eapply field_ok_frame; [done|]. destruct (Hfs _ _ Hb) as [[Hg Hks] Hp [Hi Ho] [Hfl Hpe] Ha Hr He].
  assert (b' = deleteLocked k b) as ->.
  { unfold OnDelete, tryEnqueue in Hfb. rewrite Hfl, Hi in Hfb. by injection Hfb as <-. }
  destruct (deleteLocked_ok (key_at s) k b Hg) as [Hg' Hby].
  assert (forall v k' h, entry (byValue (deleteLocked k b)) v k' h -> entry (byValue b) v k' h) as Hent.
  { intros v k' h. unfold deleteLocked. destruct (byKey b !! k) as [old|]; [|done]. cbn. apply removeFromSlot_entry. }
  pose proof (deleteLocked_rest k b) as Hrest. unfold rest in Hrest. injection Hrest as R1 R2 R3 R4 R5.
  split; try congruence; try (split; congruence).
  - split; [done|]. by apply deleteLocked_keys.
  - intros v k' x Hen. eapply Ha. by apply Hent.
  - intros k' _. rewrite Hby. destruct (decide (k' = k)) as [->|Hne].
    + by rewrite lookup_delete_eq, Hx.
    + rewrite lookup_delete_ne by done. apply Hr. congruence.
  - intros v k' h _ Hen Hnn. destruct (decide (k' = k)) as [->|Hne].
    + destruct (bo_entry _ _ Hg' _ _ _ Hen Hnn) as (_ & w & Hw & _). by rewrite Hby, lookup_delete_eq in Hw.
    + apply (He v); [congruence|by apply Hent|done].
Qed.

(** ** Guards, storage, and the other indexes *)

Lemma put_guard_alike g t : alike (put_guard g t) t.
Proof. done. Qed.

Lemma start_guard_calm x auth s s' g : start_guard x auth s = Next (s', g) -> calm s s'.
Proof.
  unfold start_guard. destruct (StartTreasureGuard _ _ _) as [gd [i|]]; [|by intros [= <- <-]].
  destruct (is_first i gd) as [[]|]; try done. intros [= <- <-]. by apply calm_update.
Qed.
Lemma release_guard_calm x g s : calm s (release_guard x g s).
Proof. by apply calm_update. Qed.

Lemma set_on_calm x f s s' :
  (forall t t', f t = Some t' -> alike t' t) -> set_on x f s = Next s' -> calm s s'.
Proof.
  intros Hf. unfold set_on. destruct (f (deref s x)) as [t|] eqn:E; cbn; [|done]. intros [= <-].
  apply calm_update. by eapply Hf.
Qed.

Lemma guard_err_alike g F : (forall t, alike (F t) t) -> forall t t', with_guard_err g F t = Some t' -> alike t' t.
Proof. intros HF t t'. unfold with_guard_err. destruct (CanExecute _ _ _) as [[]|]; [| |done]; by intros [= <-]. Qed.

Lemma on_beacons_calm p o f s : calm s (on_beacon p o f s).
Proof. by apply calm_same. Qed.
Lemma on_waiting_calm f s : calm s (on_waiting f s).
Proof. by apply calm_same. Qed.

Lemma read_all_calm xs : forall s s' r, read_all xs s = Next (s', r) -> calm s s'.
Proof.
  induction xs as [|x xs IH]; intros s s' r; cbn [read_all]; [by intros [= <- <-]|].
  destruct (start_guard x (Some BodyAuthID) s) as [| |[s1 g]] eqn:E1; try done. cbn [obind].
  destruct (read_all xs (release_guard x g s1)) as [| |[s2 rest]] eqn:E2; try done. cbn [obind]. intros [= <- <-].
  transitivity s1; [by eapply start_guard_calm|]. transitivity (release_guard x g s1); [apply release_guard_calm|by eapply IH].
Qed.

Lemma file_pointers_calm es : forall s s', file_pointers es s = Next s' -> calm s s'.
Proof.
  induction es as [|[k f] es IH]; intros s s'; cbn [file_pointers]; [by intros [= <-]|]. case_decide; [apply IH|].
  unfold key_Get. destruct (Beacon.Get k (beaconKey (data s))).2 as [x|] eqn:Ex.
  - set (s0 := on_beaconKey touch s).
    destruct (start_guard x (Some BodyAuthID) s0) as [| |[s1 g]] eqn:E1; try done. cbn [obind].
    destruct (set_on x (BodySetFileName g f) s1) as [| |s2] eqn:E2; try done. cbn [obind]. intros E3.
    transitivity s0; [by apply calm_same|]. transitivity s1; [by eapply start_guard_calm|].
    transitivity s2; [|transitivity (release_guard x g s2); [apply release_guard_calm|by apply IH]].
    eapply set_on_calm; [|exact E2]. by apply guard_err_alike.
  - intros E. transitivity (on_beaconKey touch s); [by apply calm_same|by apply IH].
Qed.

Lemma callback_calm es s s' : FilePointerCallbackFunction es s = Next s' -> calm s s'.
Proof.
  unfold FilePointerCallbackFunction. destruct (closing _); [by intros [= <-]|].
  destruct es; [apply file_pointers_calm|by intros [= <-]].
Qed.

Lemma write_out_calm xs s s' : write_out xs s = Next s' -> calm s s'.
Proof.
  unfold write_out. destruct (chron s) as [c|]; [|done].
  destruct (read_all xs s) as [| |[s1 saved]] eqn:E1; try done. cbn. destruct (st_Write _ _ _) as [c' ev].
  destruct (FilePointerCallbackFunction ev _) as [| |s2] eqn:E2; try done. cbn.
  destruct (chron s2); [|done]. intros [= <-]. transitivity s1; [by eapply read_all_calm|].
  transitivity (set_chron c' s1); [by apply calm_same|]. transitivity s2; [by eapply callback_calm|by apply calm_same].
Qed.

Lemma collect_waiting_calm s : calm s (collect_waiting s).1.
Proof.
  unfold collect_waiting. cbn [fst]. generalize (Iterate (fun _ => true) IterationTypeKey (treasuresWaitingForWriter (data s))).
  intros xs. revert s. induction xs as [|x xs IH]; intros s; cbn; [done|].
  transitivity (delete_waiting (key_at s x) s); [by apply calm_same|apply IH].
Qed.

Lemma fileWriterHandler_calm b s s' : fileWriterHandler b s = Next s' -> calm s s'.
Proof.
  unfold fileWriterHandler. cbn zeta. set (s0 := on_waiting touch (set_writing true s)).
  assert (calm s s0) as Hs0 by by apply calm_same.
  intros E. transitivity s0; [done|]. case_decide.
  - cbn in E. injection E as <-. destruct b; by apply calm_same.
  - pose proof (collect_waiting_calm s0) as Hcol. destruct (collect_waiting s0) as [s1 xs]. cbn in Hcol, E.
    destruct (write_out xs s1) as [| |s2] eqn:E2; try done. cbn in E. injection E as <-.
    transitivity s1; [done|]. transitivity s2; [by eapply write_out_calm|]. destruct b; by apply calm_same.
Qed.

Lemma write_at_once_calm x g s s' : write_at_once x g s = Next s' -> calm s s'.
Proof.
  unfold write_at_once. case_match; [|by intros [= <-]]. intros E.
  transitivity (release_guard x g s); [apply release_guard_calm|by eapply fileWriterHandler_calm].
Qed.

(** ** Saving *)

Lemma edits_key_live k x s s' :
  heap (data s') = heap (data s) -> buckets (data s') = buckets (data s) ->
  (forall k' y, creatingTreasures (data s') !! k' = Some y -> creatingTreasures (data s) !! k' = Some y) ->
  live s' = <[k := x]> (live s) -> (x < length (heap (data s)))%nat -> key_at s x = k -> valid_treasure (deref s x) ->
  edits_key k s s'.
Proof.
  intros Hh Hb Hc Hl Hx Hk Hv. assert (deref s' = deref s) as Hd by (unfold deref; by rewrite Hh).
  split; unfold key_at in *; rewrite ?Hh, ?Hd, ?Hl; try done.
  - intros k' Hne. by rewrite lookup_insert_ne.
  - intros y. rewrite lookup_insert_eq. by intros [= <-].
  - intros Hco k' y Hy. unfold key_at. rewrite Hh, Hd. by apply Hco, Hc.
Qed.

Lemma save_new_tended now x g s s' k :
  tended (Some k) s -> live s !! k = None -> (x < length (heap (data s)))%nat -> key_at s x = k -> valid_treasure (deref s x) ->
  save_new now x g s = Next s' -> tended None s'.
Proof.
  intros Ht Hl Hx Hk Hv. unfold save_new. cbn zeta. rewrite Hk.
  set (s1 := on_waiting _ (delete_waiting k s)). set (s2 := on_beaconKey (Beacon.Add (deref s1) x) s1).
  set (s3 := on_creating (fun m => delete k m) s2).
  assert (live s3 = <[k := x]> (live s)) as Hl3.
  { change (live s3) with (treasuresByKeys (Beacon.Add (deref s1) x (beaconKey (data s)))). unfold Beacon.Add. cbn.
    change (key_of (deref s1) x) with (key_at s x). rewrite Hk. change (treasuresByKeys (beaconKey (data s))) with (live s).
    by rewrite Hl. }
  assert (tended (Some k) s3) as Ht3.
  { eapply (tended_edit (Some k)); [by right| |exact Ht]. apply (edits_key_live k x); try done.
    intros k' y. cbn. by intros [_ ?]%lookup_delete_Some. }
  set (s4 := addTreasureToBeacons x s3).
  assert (tended (Some k) s4) as Ht4 by (eapply tended_calm; [|exact Ht3]; apply calm_core, addTreasureToBeacons_core).
  assert (live s4 !! k = Some x) as Hl4.
  { pose proof (addTreasureToBeacons_core x s3) as Hc. injection Hc as _ Hc _ _ _ _ _ _. unfold s4.
    by rewrite Hc, Hl3, lookup_insert_eq. }
  destruct (notifyBucketsInsert x s4) as [| |s5] eqn:En; try done. cbn.
  assert (tended None s5) as Ht5 by (eapply (report_saved k x s4); [by left|done|done|exact En]).
  set (s6 := sendSwampInfo _).
  assert (calm s5 s6) as H6 by (apply calm_core; unfold s6; by rewrite sendSwampInfo_core, sendEventToHydra_core).
  destruct (write_at_once x g s6) as [| |s7] eqn:E7; try done. cbn. intros [= <-].
  eapply tended_calm; [|exact Ht5]. transitivity s6; [done|]. transitivity s7; [by eapply write_at_once_calm|by apply calm_same].
Qed.

Lemma save_modified_tended now x y g s s' k :
  tended (Some k) s -> live s !! k = Some x -> save_modified now x y g s = Next s' -> tended None s'.
Proof.
  intros Ht Hl. unfold save_modified. cbn zeta. set (s1 := reindex x s).
  set (s2 := on_waiting _ s1).
  assert (calm s s2) as Hc2 by (transitivity s1; [apply calm_core, reindex_core|by apply calm_same]).
  assert (live s2 !! k = Some x) as Hl2 by (by rewrite (cm_live _ _ Hc2)).
  destruct (notifyBucketsUpdate x s2) as [| |s3] eqn:En; try done. cbn.
  assert (tended None s3) as Ht3
    by (eapply (report_saved k x s2); [by right|by eapply tended_calm|done|exact En]).
  set (s4 := sendEventToHydra _ _ _ _ s3).
  assert (calm s3 s4) as H4 by (apply calm_core; unfold s4; by rewrite sendEventToHydra_core).
  destruct (write_at_once x g s4) as [| |s5] eqn:E5; try done. cbn. intros [= <-].
  eapply tended_calm; [|exact Ht3]. transitivity s4; [done|]. transitivity s5; [by eapply write_at_once_calm|by apply calm_same].
Qed.

(** A save brings the indexes up to date. *)
Lemma SaveFunction_tended now x g s s' st k :
  tended (Some k) s -> (x < length (heap (data s)))%nat -> key_at s x = k -> valid_treasure (deref s x) ->
  (forall y, live s !! k = Some y -> y = x) -> (changed (deref s x) = true \/ tended None s) ->
  SaveFunction now x g s = Next (s', st) -> tended None s'.
Proof.
  intros Ht Hx Hk Hv Hone Hch. unfold SaveFunction. cbn zeta.
  change (key_at (interact now s) x) with (key_at s x). rewrite Hk.
  destruct (key_Get_spec k (interact now s)) as (s0 & -> & Hc0). change (live (interact now s)) with (live s).
  assert (calm s s0) as Hs0 by (apply calm_core; by rewrite Hc0).
  pose proof (core_deref _ _ Hc0) as Hd0. change (deref (interact now s)) with (deref s) in Hd0.
  destruct (live s !! k) as [y|] eqn:Hl.
  - assert (y = x) as -> by by apply Hone. rewrite Hd0. destruct (changed (deref s x)) eqn:Hc.
    + destruct (save_modified now x x g s0) as [| |s1] eqn:E; try done. cbn. intros [= <- <-].
      eapply save_modified_tended; [by eapply tended_calm| |exact E]. by rewrite (cm_live _ _ Hs0).
    + intros [= <- <-]. eapply tended_calm; [done|]. by destruct Hch.
  - destruct (save_new now x g s0) as [| |s1] eqn:E; try done. cbn. intros [= <- <-].
    injection Hc0 as Hh _ _ _ _ _ _ _.
    eapply save_new_tended; [by eapply tended_calm| | | | |exact E].
    + by rewrite (cm_live _ _ Hs0).
    + by rewrite Hh.
    + unfold key_at. by rewrite Hd0.
    + by rewrite Hd0.
Qed.

(** ** A request that edits a key *)

Lemma CreateTreasure_tended k s s1 x :
  tended None s -> CreateTreasure k s = Next (s1, x) ->
  tended None s1 /\ (x < length (heap (data s1)))%nat /\ key_at s1 x = k /\ valid_treasure (deref s1 x) /\
  forall y, live s1 !! k = Some y -> y = x.
Proof.
  intros Ht. unfold CreateTreasure. destruct (key_Get_spec k s) as (s0 & -> & Hc0).
  pose proof (calm_core _ _ Hc0) as Hs0. pose proof (tended_calm _ _ _ Hs0 Ht) as Ht0.
  assert (live s0 = live s) as Hl0 by apply Hs0.
  destruct (live s !! k) as [y|] eqn:Hl.
  { intros [= <- <-]. destruct (td_keyed _ _ Ht0 k y) as (? & ? & ?); [by rewrite Hl0|]. split_and!; try done; try apply Ht0.
    intros z. rewrite Hl0, Hl. by intros [= <-]. }
  destruct (creatingTreasures (data s0) !! k) as [y|] eqn:Hcr.
  { intros [= <- <-]. destruct (td_creating _ _ Ht0 k y Hcr) as (? & ? & ?). split_and!; try done; try apply Ht0.
    intros z. by rewrite Hl0, Hl. }
  set (n := length (heap (data s0))). set (s2 := on_heap _ s0).
  assert (deref s2 n = Treasure.New) as Hn by (unfold deref, s2, n; cbn; by rewrite list_lookup_middle).
  assert (length (heap (data s2)) = S n) as Hlen by (unfold s2, n; cbn; rewrite length_app; cbn; lia).
  assert (forall y, (y < n)%nat -> deref s2 y = deref s0 y) as Hold
    by (intros y Hy; unfold deref, s2; cbn; by rewrite lookup_app_l).
  destruct (start_guard n (Some BodyAuthID) s2) as [| |[s3 g]] eqn:E3; try done. cbn [obind].
  destruct (set_on n (BodySetKey g k) s3) as [| |s4] eqn:E4; try done. cbn [obind].
  set (s5 := release_guard n g s4). intros [= <- <-].
  destruct (start_guard_free n (Some BodyAuthID) s2) as (gd & Est & Hgd); [by rewrite Hn|].
  rewrite Est in E3. injection E3 as <- <-. set (t3 := put_guard gd (deref s2 n)) in *.
  assert (deref (update n t3 s2) n = t3) as Hd3 by (rewrite deref_update_cases, decide_True by (done || (rewrite Hlen; lia)); done).
  unfold set_on in E4. rewrite Hd3 in E4. unfold BodySetKey, with_guard_err, CanExecute, is_first in E4.
  change (t_guard t3) with gd in E4. rewrite Hgd in E4. cbn in E4.
  injection E4 as <-. set (t4 := put_Key k _) in *.
  set (s4 := update n t4 (update n t3 s2)) in *.
  assert (length (heap (data (update n t3 s2))) = S n) as Hlen3 by (by rewrite update_length).
  assert (length (heap (data s4)) = S n) as Hlen4 by (unfold s4; by rewrite update_length).
  assert (forall y, (y < S n)%nat -> deref s4 y = if decide (y = n) then t4 else deref s2 y) as Hd4.
  { intros y Hy. unfold s4. rewrite deref_update_cases by lia.
    case_decide; [done|]. rewrite deref_update_cases by lia. by rewrite decide_False. }
  set (t5 := put_guard (ReleaseTreasureGuard 1 (t_guard (deref s4 n))).1 (deref s4 n)).
  assert (s5 = update n t5 s4) as Hs5 by done.
  assert (length (heap (data s5)) = S n) as Hlen5 by (rewrite Hs5; by rewrite update_length).
  assert (deref s5 n = t5) as Hd5 by (rewrite Hs5, deref_update_cases, decide_True by (done || lia); done).
  assert (forall y, (y < n)%nat -> deref s5 y = deref s0 y) as Hold5.
  { intros y Hy. rewrite Hs5, deref_update_cases by lia. rewrite decide_False by lia.
    rewrite Hd4, decide_False by lia. by apply Hold. }
  assert (GetKey t5 = k /\ valid_treasure t5) as [Hk5 Hv5].
  { unfold t5. rewrite Hd4, decide_True by lia. unfold t4, t3. by rewrite Hn. }
  set (s6 := on_creating _ s5). assert (deref s6 = deref s5) as Hd6 by done.
  assert (length (heap (data s6)) = S n) as Hlen6 by exact Hlen5.
  assert (calm s0 s6) as Hc6.
  { split; [rewrite Hlen6; unfold n; lia| |done|done|].
    - intros y Hy. rewrite Hd6, Hold5 by done. done.
    - intros Hco k' y Hy. unfold key_at. rewrite Hd6, Hlen6.
      change (creatingTreasures (data s6)) with (<[k := n]> (creatingTreasures (data s0))) in Hy.
      apply lookup_insert_Some in Hy as [[<- <-]|[_ Hy]].
      + rewrite Hd5. split_and!; [lia|done|done].
      + destruct (Hco k' y Hy) as (Hlt & ? & ?). fold n in Hlt. rewrite Hold5 by done. split_and!; [lia|done|done]. }
  split; [by eapply tended_calm|]. unfold key_at. rewrite Hd6, Hd5.
  split_and!; [rewrite Hlen6; lia|done|done|].
  intros y. change (live s6) with (live s0). by rewrite Hl0, Hl.
Qed.

(** The object of a key is edited. *)
Lemma edit_tended k x t s :
  tended None s -> (x < length (heap (data s)))%nat -> key_at s x = k -> GetKey t = k -> valid_treasure t ->
  tended (Some k) (update x t s).
Proof.
  intros Ht Hx Hk Hkt Hv. eapply (tended_edit None); [by left| |exact Ht].
  assert (forall y, (y < length (heap (data s)))%nat -> deref (update x t s) y = if decide (y = x) then t else deref s y) as Hd
    by (intros; by apply deref_update_cases).
  split; rewrite ?update_length; try done.
  - intros y Hy. unfold key_at. rewrite Hd by done. case_decide; [subst; by rewrite Hkt|done].
  - intros k' y Hy Hne. destruct (td_keyed _ _ Ht _ _ Hy) as (Hlt & Hky & _). rewrite Hd by done.
    rewrite decide_False; [done|]. intros ->. congruence.
  - intros y Hy. destruct (td_keyed _ _ Ht _ _ Hy) as (Hlt & Hky & Hvy). unfold key_at in *. rewrite Hd by done.
    case_decide; [by subst|done].
  - intros Hco k' y Hy. destruct (Hco k' y Hy) as (Hlt & Hky & Hvy). unfold key_at in *.
    rewrite update_length, Hd by done. case_decide; [subst|done]. split_and!; congruence || done.
Qed.

Lemma edit_and_save_tended now k edit s s' st :
  (forall g, fair (edit g)) -> tended None s -> edit_and_save now k edit s = Next (s', st) -> tended None s'.
Proof.
  intros Hf Ht. unfold edit_and_save. destruct (CreateTreasure k s) as [| |[s1 x]] eqn:E1; try done. cbn [obind].
  destruct (CreateTreasure_tended _ _ _ _ Ht E1) as (Ht1 & Hx1 & Hk1 & Hv1 & Hone).
  destruct (start_guard x None s1) as [| |[s2 g]] eqn:E2; try done. cbn [obind].
  pose proof (start_guard_calm _ _ _ _ _ E2) as Hc2. pose proof (tended_calm _ _ _ Hc2 Ht1) as Ht2.
  pose proof (cm_len _ _ Hc2) as Hlen2. pose proof (cm_objects _ _ Hc2 x Hx1) as Hal2.
  destruct (set_on x (edit g) s2) as [| |s3] eqn:E3; try done. cbn [obind].
  unfold set_on in E3. destruct (edit g (deref s2 x)) as [t|] eqn:Et; [|done]. cbn in E3. injection E3 as <-.
  destruct (fair_run _ (Hf g) _ _ Et) as (Hkt & Hvt & _ & Hor). rewrite Hal2 in Hvt.
  assert (key_at s2 x = k) as Hk2 by (unfold key_at; by rewrite Hal2).
  set (s3 := update x t s2). assert (deref s3 x = t) as Hd3 by (unfold s3; rewrite deref_update_cases, decide_True by lia; done).
  assert (tended (Some k) s3) as Ht3.
  { apply edit_tended; [done|lia|done| |by apply Hvt]. rewrite Hkt. exact Hk2. }
  destruct (Save now x g s3) as [| |[s4 st4]] eqn:E4; try done. cbn [obind]. intros [= <- <-].
  eapply tended_calm; [apply release_guard_calm|]. unfold Save in E4. destruct (CanExecute _ _ _); [|done].
  eapply SaveFunction_tended; [exact Ht3| | | | | |exact E4].
  - unfold s3. cbn. rewrite length_insert. lia.
  - unfold key_at. rewrite Hd3, Hkt. exact Hk2.
  - rewrite Hd3. by apply Hvt.
  - intros y. change (live s3) with (live s2). rewrite (cm_live _ _ Hc2). apply Hone.
  - rewrite Hd3. destruct Hor as [?|Ha]; [by left|right]. eapply tended_calm; [|exact Ht2]. by apply calm_update.
Qed.

(** ** Deleting *)

Lemma edits_key_gone k s s' :
  heap (data s') = heap (data s) -> buckets (data s') = buckets (data s) ->
  creatingTreasures (data s') = creatingTreasures (data s) -> live s' = delete k (live s) -> edits_key k s s'.
Proof.
  intros Hh Hb Hc Hl. assert (deref s' = deref s) as Hd by (unfold deref; by rewrite Hh).
  split; unfold key_at in *; rewrite ?Hh, ?Hd, ?Hl; try done.
  - intros k' Hne. by rewrite lookup_delete_ne.
  - intros y. by rewrite lookup_delete_eq.
  - intros Hco k' y. unfold key_at. rewrite Hc, Hh, Hd. apply Hco.
Qed.

Lemma deleteHandler_tended now k b s s' o :
  tended None s -> deleteHandler now k b s = Next (s', o) -> tended None s'.
Proof.
  intros Ht. unfold deleteHandler. destruct (key_Get_spec k s) as (s0 & -> & Hc0).
  pose proof (calm_core _ _ Hc0) as Hs0. pose proof (tended_calm _ _ _ Hs0 Ht) as Ht0.
  destruct (live s !! k) as [x|] eqn:Hl; [|by intros [= <- <-]].
  destruct (start_guard x (Some BodyAuthID) s0) as [| |[s1 g]] eqn:E1; try done. cbn [obind].
  pose proof (start_guard_calm _ _ _ _ _ E1) as Hc1. pose proof (tended_calm _ _ _ Hc1 Ht0) as Ht1.
  assert (live s1 !! k = Some x) as Hl1 by (rewrite (cm_live _ _ Hc1), (cm_live _ _ Hs0); exact Hl).
  destruct (td_keyed _ _ Ht1 _ _ Hl1) as (Hx1 & Hk1 & Hv1).
  destruct (Clone g (deref s1 x)) as [clone|]; [|done]. cbn [obind of_panic].
  set (o2 := match GetFileName (deref s1 x) with None => _ | Some _ => _ end).
  assert (forall s2, o2 = Next s2 -> tended (Some k) s2) as Ho2.
  { intros s2. unfold o2. destruct (GetFileName (deref s1 x)) as [f|].
    - unfold set_on. destruct (BodySetForDeletion g (bs "system") b (UnixNano now) (deref s1 x)) as [t|] eqn:Et; [|done].
      cbn [of_panic obind]. intros [= <-].
      assert (tended (Some k) (update x t s1)) as Htu.
      { unfold BodySetForDeletion, with_guard_err in Et. destruct (CanExecute _ _ _) as [[]|]; [| |done]; injection Et as <-.
        - apply edit_tended; [done|done|done| |]; unfold key_at in Hk1.
          + destruct b; exact Hk1.
          + destruct b; [exact Hv1|done].
        - apply tended_weaken. eapply tended_calm; [|exact Ht1]. by apply calm_update. }
      eapply tended_calm; [|exact Htu]. by apply calm_same.
    - intros [= <-]. apply tended_weaken. eapply tended_calm; [|exact Ht1]. by apply calm_same. }
  destruct o2 as [| |s2]; try done. cbn [obind]. specialize (Ho2 s2 eq_refl).
  set (s3 := on_beaconKey (Beacon.Delete (deref s2) k) s2).
  assert (tended (Some k) s3) as Ht3.
  { eapply (tended_edit (Some k)); [by right| |exact Ho2]. by apply edits_key_gone. }
  set (s4 := deleteTreasureFromBeacons k s3).
  assert (calm s3 s4) as Hc4 by (apply calm_core, deleteTreasureFromBeacons_core).
  destruct (notifyBucketsDelete k s4) as [| |s5] eqn:En; try done. cbn [obind]. intros [= <- <-].
  assert (tended None s5) as Ht5.
  { eapply (report_deleted k s4); [by eapply tended_calm| |exact En]. rewrite (cm_live _ _ Hc4).
    change (live s3) with (delete k (live s2)). apply lookup_delete_eq. }
  eapply tended_calm; [apply release_guard_calm|]. eapply tended_calm; [|exact Ht5].
  apply calm_core. by rewrite sendSwampInfo_core, sendDeletedEventToClient_core.
Qed.

Lemma drop_tended e s : tended e s -> tended None (dropAllBuckets s).
Proof. intros [Hk Hc _]. split; [done|done|]. intros path b. cbn. by rewrite lookup_empty. Qed.

Lemma Destroy_tended s s' : tended None s -> Destroy s = Next s' -> tended None s'.
Proof.
  intros Ht. unfold Destroy. cbn zeta. set (s1 := set_closing true s).
  assert (tended None s1) as Ht1 by (by eapply tended_calm; [|exact Ht]; apply calm_same).
  destruct (destroyed (ctl s1)); [by intros [= <-]|]. destruct (HasActiveVigils _); [done|].
  set (s2 := set_cancelled _).
  assert (tended None s2) as Ht2 by (by eapply tended_calm; [|exact Ht1]; apply calm_same).
  set (o := if inMemorySwamp (conf s2) then _ else _).
  assert (forall s3, o = Next s3 -> calm s2 s3) as Ho.
  { intros s3. unfold o. destruct (inMemorySwamp _); [by intros [= <-]|]. destruct (chron s2); [|done].
    intros [= <-]. by apply calm_same. }
  destruct o as [| |s3]; try done. cbn [obind]. specialize (Ho s3 eq_refl). intros [= <-].
  assert (tended None (dropAllBuckets s3)) as Htd by (eapply drop_tended, tended_calm; [exact Ho|exact Ht2]).
  eapply tended_calm; [|exact Htd]. by apply calm_same.
Qed.

Lemma destroy_if_empty_tended s s' : tended None s -> destroy_if_empty s = Next s' -> tended None s'.
Proof.
  intros Ht. unfold destroy_if_empty, key_Count. set (s0 := on_beaconKey touch s).
  assert (calm s s0) as Hs0 by by apply calm_same.
  case_match; [|intros [= <-]; by eapply tended_calm]. intros E. eapply Destroy_tended; [|exact E].
  eapply tended_calm; [|exact Ht]. transitivity s0; [done|by apply calm_same].
Qed.

Lemma DeleteTreasure_tended now k b s s' ok : tended None s -> DeleteTreasure now k b s = Next (s', ok) -> tended None s'.
Proof.
  intros Ht. unfold DeleteTreasure, TreasureExists. set (s0 := on_beaconKey touch (interact now s)).
  assert (tended None s0) as Ht0 by (by eapply tended_calm; [|exact Ht]; apply calm_same).
  destruct (negb _); [by intros [= <- <-]|].
  destruct (deleteHandler now k b s0) as [| |[s1 o]] eqn:E1; try done. cbn [obind].
  destruct (destroy_if_empty s1) as [| |s2] eqn:E2; try done. cbn [obind]. intros [= <- <-].
  eapply destroy_if_empty_tended; [|exact E2]. by eapply deleteHandler_tended.
Qed.

Lemma delete_keys_tended now ks : forall s s', tended None s -> delete_keys now ks s = Next s' -> tended None s'.
Proof.
  induction ks as [|k ks IH]; intros s s' Ht; cbn [delete_keys]; [by intros [= <-]|].
  destruct (deleteHandler now k false s) as [| |[s1 o]] eqn:E1; try done. cbn [obind]. apply IH.
  by eapply deleteHandler_tended.
Qed.

(** ** The other indexes *)

Lemma buildBeacon_calm p bc s : calm s (buildBeacon p bc s).
Proof.
  unfold buildBeacon. assert (forall o f s, calm s (build_one p o f bc s)) as Hone.
  { intros o f s1. unfold build_one. destruct (IsInitialized _); [done|apply on_beacons_calm]. }
  etransitivity; apply Hone.
Qed.
Lemma GetBeacon_calm bc o s : calm s (GetBeacon bc o s).1.
Proof. unfold GetBeacon. destruct bc; cbn [fst]; (apply buildBeacon_calm || done). Qed.

Lemma find_in_calm p bc o from limit ft tt s : calm s (find_in p bc o from limit ft tt s).1.
Proof.
  unfold find_in. cbn zeta. destruct o.
  1, 2: destruct (GetManyFromOrderPosition _ _ _) as [b r]; cbn [fst];
    transitivity (buildBeacon p bc s); [apply buildBeacon_calm|apply on_beacons_calm].
  apply buildBeacon_calm.
Qed.
Lemma GetTreasuresByBeacon_calm now bc o from limit ft tt s : calm s (GetTreasuresByBeacon now bc o from limit ft tt s).1.
Proof.
  unfold GetTreasuresByBeacon. cbn zeta. set (s0 := interact now s).
  assert (calm s s0) as Hs0 by by apply calm_same.
  assert (forall p bc' l s1, calm s s1 -> calm s (find_in p bc' o from l ft tt s1).1) as Hf
    by (intros; etransitivity; [done|apply find_in_calm]).
  assert (forall p bc' l s1, calm s s1 -> calm s (find_in p bc' o from l None None s1).1) as Hf'
    by (intros; etransitivity; [done|apply find_in_calm]).
  destruct (limit =? 0); [destruct (key_Count s0) as [s1 n] eqn:E; unfold key_Count in E; injection E as <- <-|].
  1: assert (calm s (on_beaconKey touch s0)) by by apply calm_same.
  all: destruct bc; (by apply Hf || by apply Hf').
Qed.

Lemma CloneAndDeleteMatching_tended now bc o n p cp cm s s' r :
  tended None s -> CloneAndDeleteMatchingTreasures now bc o n p cp cm s = Next (s', r) -> tended None s'.
Proof.
  intros Ht. unfold CloneAndDeleteMatchingTreasures. cbn zeta. set (s0 := interact now s).
  assert (calm s s0) as Hs0 by by apply calm_same.
  destruct (_ || _); [intros [= <- <-]; by eapply tended_calm|].
  destruct (pair_for bc) as [pr|]; [|intros [= <- <-]; by eapply tended_calm].
  pose proof (GetBeacon_calm bc o (buildBeacon pr bc s0)) as Hc1.
  destruct (GetBeacon bc o (buildBeacon pr bc s0)) as [s1 [[pr' d]|]]; cbn [fst] in Hc1.
  - destruct (ShiftMatching _ _ _ _ _ _) as [[b shifted] cr].
    set (s2 := on_beacon pr' d (fun _ => b) s1).
    assert (tended None s2) as Ht2.
    { eapply tended_calm; [|exact Ht]. transitivity s0; [done|]. transitivity (buildBeacon pr bc s0); [apply buildBeacon_calm|].
      transitivity s1; [done|apply on_beacons_calm]. }
    destruct (delete_keys now (map GetKey shifted) s2) as [| |s3] eqn:E3; try done. cbn [obind].
    destruct (destroy_if_empty s3) as [| |s4] eqn:E4; try done. cbn [obind]. intros [= <- <-].
    eapply destroy_if_empty_tended; [|exact E4]. by eapply delete_keys_tended.
  - intros [= <- <-]. eapply tended_calm; [|exact Ht]. transitivity s0; [done|].
    transitivity (buildBeacon pr bc s0); [apply buildBeacon_calm|done].
Qed.

(** ** Lookups *)

Lemma GetOrBuild_tended path s s' b : tended None s -> GetOrBuildBucket path s = Next (s', b) -> tended None s'.
Proof.
  intros Ht E. apply tended_indexed in Ht as [Hi Hc].
  destruct (GetOrBuildBucket_indexed Unmarshal_ok s path Hi) as (s1 & b1 & E1 & Hi1 & Hs1 & _).
  rewrite E in E1. injection E1 as <- <-. apply tended_indexed. split; [done|].
  eapply creating_frame; [exact Hs1| |exact Hc]. unfold GetOrBuildBucket in E.
  destruct (buckets (data s) !! path) as [b0|]; [destruct (EqualityInitialized b0); [by injection E as <- <-|]|].
  all: destruct (CloneUnorderedTreasures _ _ _); destruct (DrainPending _ _); [|done]; cbn in E; by injection E as <- <-.
Qed.
Lemma lookup_hint_tended h s s' r : tended None s -> lookup_hint h s = Next (s', r) -> tended None s'.
Proof.
  intros Ht. unfold lookup_hint, LookupByBucketEqual, LookupByBucketIn.
  destruct (Op h), (Values h); try (by intros [= <- <-]).
  all: destruct (GetOrBuildBucket _ s) as [| |[s1 b]] eqn:E; try done; cbn [obind]; intros [= <- <-];
    by eapply GetOrBuild_tended.
Qed.
Lemma union_hints_tended hs : forall seen s s' r, tended None s -> union_hints hs seen s = Next (s', r) -> tended None s'.
Proof.
  induction hs as [|h hs IH]; intros seen s s' r Ht; cbn [union_hints]; [by intros [= <- <-]|].
  destruct (lookup_hint h s) as [| |[s1 hits]] eqn:E1; try done. cbn [obind].
  destruct (unseen _ hits seen) as [out seen'].
  destruct (union_hints hs seen' s1) as [| |[s2 rest]] eqn:E2; try done. cbn [obind]. intros [= <- <-].
  eapply IH; [|exact E2]. by eapply lookup_hint_tended.
Qed.
Lemma collect_tended hs s s' r : tended None s -> collectBucketCandidates hs s = Next (s', r) -> tended None s'.
Proof.
  intros Ht. unfold collectBucketCandidates. destruct hs as [|h [|h' hs]]; [by intros [= <- <-]| |].
  - by apply lookup_hint_tended.
  - by apply union_hints_tended.
Qed.
End FieldSteps.

(** ** Requests *)

Section Requests.
Context `{SI : Store} `{GM : GobModel} `{GMeta : GobMeta} `{FI : FloatToInt} `{MP : Msgpack} `{SR : SlotRange}.
Context `{HR : KeyRange} `{HS : SortSlice} `{LC : LowerCase} `{TG : Trigonometry} `{!FloatToIntOk} `{!SlotRangeOk}.
Hypothesis Unmarshal_ok : decodes_well.

(** A vigil around an operation. *)
Lemma vigilant_tended {A} (f : swamp -> outcome (swamp * A)) s s' a :
  (forall s s' a, tended None s -> f s = Next (s', a) -> tended None s') ->
  tended None s -> vigilant f s = Next (s', a) -> tended None s'.
Proof.
  intros Hf Ht. unfold vigilant. destruct (f (BeginVigil s)) as [| |[s1 a1]] eqn:E; try done. cbn [obind]. intros [= <- <-].
  eapply tended_calm; [|eapply Hf; [|exact E]]; [by apply calm_same|]. eapply tended_calm; [|exact Ht]. by apply calm_same.
Qed.

Lemma set_item_tended now create overwrite item s s' c :
  p_Uint32Slice item = None -> tended None s -> set_item now create overwrite item s = Next (s', c) -> tended None s'.
Proof.
  intros Hs Ht. assert (forall s1, calm s s1 ->
    (let! (s, status) := edit_and_save now (p_Key item) (keyValuesToTreasure (Some item)) s1 in
     Next (s, convertTreasureStatusToPbStatus status)) = Next (s', c) -> tended None s') as Hedit.
  { intros s1 Hs1. destruct (edit_and_save _ _ _ s1) as [| |[s2 st]] eqn:E; try done. cbn [obind]. intros [= <- <-].
    eapply (edit_and_save_tended Unmarshal_ok); [|by eapply tended_calm|exact E]. intros g. by apply keyValuesToTreasure_fair. }
  assert (forall s1, calm s s1 -> Next (s1, c) = Next (s', c) -> tended None s') as Hsame
    by (intros s1 Hs1 [= <-]; by eapply tended_calm).
  unfold set_item, TreasureExists. set (touched := fun s => on_beaconKey touch (interact now s)).
  assert (forall s1, calm s s1 -> calm s (touched s1)) as Htouch by (intros s1 Hs1; transitivity s1; [done|by apply calm_same]).
  assert (forall s1, calm s s1 ->
    (let '(s, present) := if overwrite then (s1, false) else (touched s1, (IsExists (p_Key item) (beaconKey (data (interact now s1)))).2) in
     if present : bool then Next (s, Status_NOTHING_CHANGED) else
     let! (s, status) := edit_and_save now (p_Key item) (keyValuesToTreasure (Some item)) s in
     Next (s, convertTreasureStatusToPbStatus status)) = Next (s', c) -> tended None s') as Hrest.
  { intros s1 Hs1. destruct overwrite; [by apply Hedit|]. destruct (IsExists _ _).2; [|by apply Hedit, Htouch].
    intros [= <- <-]. eapply Hsame; [by apply Htouch|done]. }
  destruct create; [by apply Hrest|]. cbn zeta. destruct (negb _); [|by apply Hrest, Htouch].
  intros [= <- <-]. eapply Hsame; [by apply (Htouch s)|done].
Qed.

Lemma set_items_tended now create overwrite items : forall s s' r,
  Forall (fun item => p_Uint32Slice item = None) items -> tended None s ->
  set_items now create overwrite items s = Next (s', r) -> tended None s'.
Proof.
  induction items as [|item items IH]; intros s s' r Hs Ht; cbn [set_items]; [by intros [= <- <-]|].
  apply Forall_cons in Hs as [Hi Hs].
  destruct (set_item now create overwrite item s) as [| |[s1 c]] eqn:E1; try done. cbn [obind].
  destruct (set_items now create overwrite items s1) as [| |[s2 rest]] eqn:E2; try done. cbn [obind]. intros [= <- <-].
  eapply IH; [exact Hs| |exact E2]. by eapply set_item_tended.
Qed.

Lemma delete_items_tended now ks : forall s s' r, tended None s -> delete_items now ks s = Next (s', r) -> tended None s'.
Proof.
  induction ks as [|k ks IH]; intros s s' r Ht; cbn [delete_items]; [by intros [= <- <-]|].
  destruct (DeleteTreasure now k false s) as [| |[s1 ok]] eqn:E1; try done. cbn [obind].
  destruct (delete_items now ks s1) as [| |[s2 rest]] eqn:E2; try done. cbn [obind]. intros [= <- <-].
  eapply IH; [|exact E2]. by eapply DeleteTreasure_tended.
Qed.

Lemma stream_candidates_tended now r s s' o : tended None s -> stream_candidates now r s = Next (s', o) -> tended None s'.
Proof.
  intros Ht. unfold stream_candidates, parseOptionalTimestamps.
  set (walk := match GetTreasuresByBeacon _ _ _ _ _ _ _ s with (_, None) => _ | _ => _ end).
  assert (walk = Next (s', o) -> tended None s') as Hwalk.
  { unfold walk.
    pose proof (GetTreasuresByBeacon_calm now (inputIndexTypeToBeaconType (ir_IndexType r))
      (inputOrderTypeToBeaconOrderType (ir_OrderType r)) (ir_From r) (ir_Limit r) (AsTime <$> ir_FromTime r) (AsTime <$> ir_ToTime r) s) as Hc.
    destruct (GetTreasuresByBeacon _ _ _ _ _ _ _ s) as [s1 [[xs|]|]]; try done; intros [= <- <-]; by eapply tended_calm. }
  destruct (Mode _); [done| |]; (destruct (bucketExecPreconditions _); [|done]);
    (destruct (collectBucketCandidates _ s) as [| |[s1 hits]] eqn:E; try done); cbn [obind]; intros [= <- <-];
    by eapply (collect_tended Unmarshal_ok).
Qed.

Lemma stream_tended now r s s' o : tended None s -> gateway_GetByIndexStream now r s = Next (s', o) -> tended None s'.
Proof.
  apply vigilant_tended. clear s s' o. intros s s' o Ht.
  destruct (stream_candidates now r s) as [| |[s1 found]] eqn:E; try done. cbn [obind].
  pose proof (stream_candidates_tended _ _ _ _ _ Ht E) as Ht1.
  destruct found as [[ts residual]|]; [|by intros [= <- <-]].
  destruct (all_next _); try done. cbn [obind]. by intros [= <- <-].
Qed.

Lemma shift_predicate_tended bt fs ft tt s s' p :
  tended None s -> buildShiftMatchingPredicate bt fs ft tt s = Next (s', p) -> tended None s'.
Proof.
  intros Ht. unfold buildShiftMatchingPredicate. destruct (timeBoundsNanos ft tt). destruct fs as [g|]; [|by intros [= <- <-]].
  destruct (Mode (PlanFilter (Some g))); [by intros [= <- <-]| |];
    (destruct (collectBucketCandidates _ s) as [| |[s1 hits]] eqn:E; try done); cbn [obind]; intros [= <- <-];
    by eapply (collect_tended Unmarshal_ok).
Qed.

Lemma shiftMatching_tended now r s s' o : tended None s -> shiftMatchingOneSwamp now r s = Next (s', o) -> tended None s'.
Proof.
  intros Ht. unfold shiftMatchingOneSwamp. destruct (buildCapPredicate (sr_Cap r)) as [[cp cm]|]; [|by intros [= <- <-]].
  apply vigilant_tended; [|done]. clear s s' o Ht. intros s s' o Ht. cbn zeta. unfold parseOptionalTimestamps.
  destruct (buildShiftMatchingPredicate _ _ _ _ s) as [| |[s1 p]] eqn:E1; try done. cbn [obind].
  destruct (CloneAndDeleteMatchingTreasures _ _ _ _ _ _ _ s1) as [| |[s2 shifted]] eqn:E2; try done. cbn [obind].
  assert (tended None s2) as Ht2.
  { eapply CloneAndDeleteMatching_tended; [|exact E2]. by eapply shift_predicate_tended. }
  destruct shifted as [[ts cr]|]; [|by intros [= <- <-]].
  destruct (answer ts); try done. cbn [obind]. by intros [= <- <-].
Qed.

(** What clients and the writer ask of a swamp, as far as the indexes are concerned. *)
Inductive index_request : Type :=
| Setting (now : Z) (createIfNotExist overwrite : bool) (items : list KeyValuePair)
| Deleting (now : Z) (keys : list bytes)
| Streaming (now : Z) (r : IndexRequest)
| Shifting (now : Z) (r : ShiftMatchingRequest)
| Flushing.

(** The replies are left out. *)
Definition state_of {A} (o : outcome (swamp * A)) : outcome swamp := let! (s, _) := o in Next s.
Definition serve_index (r : index_request) (s : swamp) : outcome swamp :=
  match r with
  | Setting now create overwrite items => state_of (gateway_Set now create overwrite items s)
  | Deleting now keys => state_of (gateway_Delete now keys s)
  | Streaming now r => state_of (gateway_GetByIndexStream now r s)
  | Shifting now r => state_of (shiftMatchingOneSwamp now r s)
  | Flushing => fileWriterHandler false s
  end.
Definition no_slices (r : index_request) : bool :=
  match r with
  | Setting _ _ _ items => forallb (fun item => bool_decide (p_Uint32Slice item = None)) items
  | _ => true
  end.

Lemma state_of_tended {A} (o : outcome (swamp * A)) s' :
  (forall s a, o = Next (s, a) -> tended None s) -> state_of o = Next s' -> tended None s'.
Proof. destruct o as [| |[s a]]; try done. intros Ho. cbn. intros [= <-]. by eapply Ho. Qed.

Lemma serve_index_tended r s s' :
  no_slices r = true -> tended None s -> serve_index r s = Next s' -> tended None s'.
Proof.
  intros Hn Ht. destruct r as [now c o items|now ks|now r|now r|]; cbn [serve_index].
  - apply state_of_tended. intros s1 a. unfold gateway_Set. destruct (_ && _); [by intros [= <- <-]|].
    apply vigilant_tended; [|done]. intros s2 s3 a3 Ht2.
    destruct (set_items now c o items s2) as [| |[s4 rs]] eqn:E; try done. cbn [obind]. intros [= <- <-].
    eapply set_items_tended; [|done|exact E]. cbn in Hn. rewrite forallb_forall in Hn. apply List.Forall_forall.
    intros item Hi. exact (proj1 (bool_decide_eq_true _) (Hn item Hi)).
  - apply state_of_tended. intros s1 a. apply vigilant_tended; [|done]. intros. by eapply delete_items_tended.
  - apply state_of_tended. intros s1 a. by apply stream_tended.
  - apply state_of_tended. intros s1 a. by apply shiftMatching_tended.
  - intros E. eapply tended_calm; [by eapply fileWriterHandler_calm|done].
Qed.

Lemma run_index_tended rs s s' :
  forallb no_slices rs = true -> tended None s -> run serve_index rs s = Next s' -> tended None s'.
Proof.
  intros Hn. apply (run_inv serve_index (fun r => no_slices r = true) (tended None)).
  - intros r s1 s2 Hr. by apply serve_index_tended.
  - apply List.Forall_forall. by rewrite forallb_forall in Hn.
Qed.
End Requests.
