(* ===== verification/SwampSteps.v ===== *)
(** The operations of a swamp on its abstract state, the treasures' models by key.

    [tracked D s index spec]: the swamp's live treasures are [spec], file names aside, the
    storage is behind by what waits in the write buffer, and [D] are the keys deleted since
    the last flush.  Setting, deleting, flushing and closing keep it. *)
From Stdlib Require Import Floats.SpecFloat.
From S2P Require Import Prelude Steps Types Compressor Block FileSys Reader Contents Log Session.
From S2P Require Import Meta Chronicler Durability Guard Treasure Beacon Canon Bucket Swamp Gateway SwampInv.
#[local] Set Warnings "-clear-no-such-hyp".

(** ** Edits *)

(** [f] does to a held treasure what [e] does to its model, and raises a flag when it changes
    it; [e] does not look at the file name, and keeps it, the key and the deletion time. *)
Record edits (f : treasure -> option treasure) (e : Model -> Model) : Prop := {
  ed_run t : held t -> exists t', f t = Some t' /\ t_guard t' = t_guard t /\ t_model t' = e (t_model t) /\
    (changed t = true -> changed t' = true) /\ (changed t' = true \/ t_model t' = t_model t);
  ed_file m p : e (with_file p m) = with_file p (e m);
  ed_name m : m_FileName (e m) = m_FileName m;
  ed_key m : m_Key (e m) = m_Key m;
  ed_deleted m : m_DeletedAt (e m) = m_DeletedAt m
}.

Lemma edits_id : edits Some (fun m => m).
Proof. split; try done. intros t _. exists t. by split_and!; try right. Qed.

Lemma edits_then f g e e' : edits f e -> edits g e' -> edits (fun t => f t ≫= g) (fun m => e' (e m)).
Proof.
  intros [Hf1 Hf2 Hf3 Hf4 Hf5] [Hg1 Hg2 Hg3 Hg4 Hg5]. split; try (intros; congruence).
  - intros t Ht. destruct (Hf1 t Ht) as (t1 & -> & Hg & Hm & Hc & Hor).
    destruct (Hg1 t1) as (t2 & E & Hg' & Hm' & Hc' & Hor'); [by unfold held; rewrite Hg|].
    exists t2. cbn. rewrite E, Hm', Hm. split_and!; [done|congruence|done|auto|].
    destruct Hor' as [?|Hs]; [by left|]. destruct Hor as [?|Hs1]; [left; auto|right]. congruence.
Qed.

Lemma held_guard f t : held t -> with_guard 1 f t = Some (f t).
Proof. intros Ht. apply with_guard_runs. unfold guarded. by rewrite Ht. Qed.

(** A setter under the guard. *)
Lemma edits_guard (F : treasure -> treasure) e :
  (forall t, t_guard (F t) = t_guard t /\ t_model (F t) = e (t_model t) /\
     (changed t = true -> changed (F t) = true) /\ (changed (F t) = true \/ t_model (F t) = t_model t)) ->
  (forall m p, e (with_file p m) = with_file p (e m)) ->
  (forall m, m_FileName (e m) = m_FileName m /\ m_Key (e m) = m_Key m /\ m_DeletedAt (e m) = m_DeletedAt m) ->
  edits (with_guard 1 F) e.
Proof.
  intros HF Hp He. split; try apply He; [|done].
  intros t Ht. exists (F t). split; [by apply held_guard|]. destruct (HF t) as (? & ? & ? & ?). done.
Qed.

Lemma changed_content t c : changed (put_Content c (mark_content true t)) = true.
Proof. done. Qed.

(** *** The setters of the gateway *)

Definition with_content (c : option Content) (m : Model) : Model := t_model (put_Content c {| t_model := m; t_guard := Guard.New; t_flags := no_flags |}).

Lemma edits_set_content {A} (eqb : A -> A -> bool) (get : Content -> option A) c' v :
  edits (with_guard 1 (set_content eqb get c' v))
    (fun m => match c ← m_Content m; get c with
              | Some old => if eqb old v then m else with_content (Some c') m
              | None => with_content (Some c') m
              end).
Proof.
  apply edits_guard.
  - intros t. unfold set_content. destruct (c ← m_Content (t_model t); get c) as [old|]; [destruct (eqb old v)|].
    all: split_and!; try done; try (by left); by right.
  - intros m p. cbn. destruct (c ← m_Content m; get c) as [old|]; [destruct (eqb old v)|]; done.
  - intros m. destruct (c ← m_Content m; get c) as [old|]; [destruct (eqb old v)|]; done.
Qed.

Lemma edits_void :
  edits (SetContentVoid 1) (fun m => match m_Content m with None => with_content (Some void_content) m | Some _ => m end).
Proof.
  apply edits_guard.
  - intros t. destruct (m_Content (t_model t)) as [c|]; [destruct (c_Void c)|]; split_and!; try done; auto.
  - intros m p. cbn. by destruct (m_Content m).
  - intros m. by destruct (m_Content m).
Qed.

Lemma edits_time (F : treasure -> treasure) e :
  (forall t, t_guard (F t) = t_guard t /\ t_model (F t) = e (t_model t) /\ changed (F t) = true) ->
  (forall m p, e (with_file p m) = with_file p (e m)) ->
  (forall m, m_FileName (e m) = m_FileName m /\ m_Key (e m) = m_Key m /\ m_DeletedAt (e m) = m_DeletedAt m) ->
  edits (with_guard 1 F) e.
Proof. intros HF Hp He. apply edits_guard; [|done|done]. intros t. destruct (HF t) as (? & ? & ?). auto. Qed.

(** Whether the flags of a treasure say it changed, when one was just raised. *)
Ltac raised := unfold changed; cbn; rewrite ?orb_true_r; done.

Lemma edits_CreatedAt t : exists e, edits (SetCreatedAt 1 t) e.
Proof.
  eexists (fun m => t_model (put_Created (UnixNano t) (m_CreatedBy m) {| t_model := m; t_guard := Guard.New; t_flags := no_flags |})).
  apply edits_time; [intros; split_and!; [done|done|raised]|done|done].
Qed.
Lemma edits_CreatedBy b : exists e, edits (SetCreatedBy 1 b) e.
Proof.
  eexists (fun m => t_model (put_Created (m_CreatedAt m) b {| t_model := m; t_guard := Guard.New; t_flags := no_flags |})).
  apply edits_time; [intros; split_and!; [done|done|raised]|done|done].
Qed.
Lemma edits_ModifiedAt t : exists e, edits (SetModifiedAt 1 t) e.
Proof.
  eexists (fun m => t_model (put_Modified (UnixNano t) (m_ModifiedBy m) {| t_model := m; t_guard := Guard.New; t_flags := no_flags |})).
  apply edits_time; [intros; split_and!; [done|done|raised]|done|done].
Qed.
Lemma edits_ModifiedBy b : exists e, edits (SetModifiedBy 1 b) e.
Proof.
  eexists (fun m => t_model (put_Modified (m_ModifiedAt m) b {| t_model := m; t_guard := Guard.New; t_flags := no_flags |})).
  apply edits_time; [intros; split_and!; [done|done|raised]|done|done].
Qed.
Lemma edits_ExpirationTime t : exists e, edits (SetExpirationTime 1 t) e.
Proof.
  eexists (fun m => t_model (put_ExpirationTime (if IsZero t then 0 else UnixNano t) {| t_model := m; t_guard := Guard.New; t_flags := no_flags |})).
  apply edits_time; [intros; split_and!; [done|done|raised]|done|done].
Qed.

Lemma edits_valid ts f : (forall t, exists e, edits (f t) e) -> exists e, edits (when_valid ts f) e.
Proof.
  intros Hf. unfold when_valid. destruct ts as [ts|]; [|eexists; apply edits_id].
  destruct (isValidTimestamp _); [apply Hf|eexists; apply edits_id].
Qed.
Lemma edits_nonempty s f : (forall b, exists e, edits (f b) e) -> exists e, edits (when_nonempty s f) e.
Proof. intros Hf. unfold when_nonempty. case_decide; [eexists; apply edits_id|apply Hf]. Qed.

Lemma edits_bind f g : (exists e, edits f e) -> (exists e, edits g e) -> exists e, edits (fun t => f t ≫= g) e.
Proof. intros [e He] [e' He']. eexists. by apply edits_then. Qed.

Lemma edits_value p : p_Uint32Slice p = None -> exists e, edits (set_value_of p 1) e.
Proof.
  intros Hs. unfold set_value_of. rewrite Hs.
  repeat (case_match; [eexists; apply edits_set_content|]). eexists. apply edits_void.
Qed.

(** A message without a slice is an edit. *)
Lemma keyValuesToTreasure_edits p :
  p_Uint32Slice p = None -> exists e, edits (keyValuesToTreasure (Some p) 1) e.
Proof.
  intros Hs. unfold keyValuesToTreasure.
  apply (edits_bind _ (fun t => t ← when_valid (p_CreatedAt p) (SetCreatedAt 1) t; _)); [by apply edits_value|].
  apply (edits_bind _ (fun t => t ← when_nonempty (p_CreatedBy p) (SetCreatedBy 1) t; _));
    [apply edits_valid, edits_CreatedAt|].
  apply (edits_bind _ (fun t => t ← when_valid (p_UpdatedAt p) (SetModifiedAt 1) t; _));
    [apply edits_nonempty, edits_CreatedBy|].
  apply (edits_bind _ (fun t => t ← when_nonempty (p_UpdatedBy p) (SetModifiedBy 1) t; _));
    [apply edits_valid, edits_ModifiedAt|].
  apply edits_bind; [apply edits_nonempty, edits_ModifiedBy|apply edits_valid, edits_ExpirationTime].
Qed.

(** An edit is known from what it does to a fresh treasure with the model. *)
Definition model_edit (f : treasure -> option treasure) (m : Model) : Model :=
  from_option t_model m
    (f {| t_model := m; t_guard := {| waitForUnlock := [1]; largestGuardID := 1; bodyAuthID := [] |};
          t_flags := no_flags |}).

Lemma edits_model f e m : edits f e -> model_edit f m = e m.
Proof.
  intros He. unfold model_edit. edestruct (ed_run _ _ He) as (t' & -> & _ & Hm & _); [done|]. done.
Qed.

(** ** The abstract state *)

Section SwampSteps.
Context `{SI : Store} `{GM : GobModel} `{GMeta : GobMeta} `{FI : FloatToInt} `{MP : Msgpack} `{SR : SlotRange}.
Context `{HR : KeyRange} `{HS : SortSlice} `{HROk : !KeyRangeOk} `{HOk : !StoreOk}.

(** The model of a treasure just created. *)
Definition blank (k : bytes) : Model := t_model (put_Key k Treasure.New).

(** A model that can be stored. *)
Definition storable (m : Model) : Prop :=
  key_fits (m_Key m) /\ forall f, f = None \/ f = Some file ->
    exists d, encode_model (with_file f m) = Some d /\ Z.of_nat (length d) < 2 ^ 30.

Record tracked (D : gset bytes) (s : swamp) (index : gmap bytes bytes) (spec : gmap bytes Model) : Prop := {
  tr_durable : durable None s index;
  tr_open : closing (ctl s) = false;
  tr_sends : exists c, chron s = Some c /\ sends c = true;
  tr_creating : creatingTreasures (data s) = ∅;
  tr_named k x : live s !! k = Some x -> GetFileName (deref s x) = None ->
    waiting s !! k = Some x /\ (k ∈ D \/ index !! k = None);
  tr_deleted k : is_Some (waiting s !! k) -> live s !! k = None -> k ∈ D;
  tr_spec k : match spec !! k with
    | Some m => exists x, live s !! k = Some x /\ with_file None (t_model (deref s x)) = m
    | None => live s !! k = None
    end
}.

Lemma tracked_core D s s' index spec : core s' = core s -> tracked D s index spec -> tracked D s' index spec.
Proof.
  intros Hc []. pose proof (core_deref _ _ Hc) as Hd. pose proof (durable_core _ _ _ _ Hc tr_durable0) as Hdu.
  injection Hc as Hh Hl Hw Hcr Hb Hch Hcf Hcl.
  split; rewrite ?Hd, ?Hh, ?Hl, ?Hw, ?Hcr, ?Hch, ?Hcl; try done.
Qed.

Lemma tracked_mono D D' s index spec : D ⊆ D' -> tracked D s index spec -> tracked D' s index spec.
Proof.
  intros HD []. split; try done.
  - intros k x Hl Hn. destruct (tr_named0 k x Hl Hn) as [? [?|?]]; split; auto.
  - intros k Hk Hl. auto.
Qed.

Lemma flush_tracked b D s index spec :
  tracked D s index spec ->
  exists s' index', fileWriterHandler b s = Next s' /\ tracked ∅ s' index' spec /\ waiting s' = ∅.
Proof.
  intros [Hdu Ho (c & Hc & Hse) Hcr Hn _ Hsp].
  destruct (flush_durable b s index Hdu) as (s' & index' & E & [Hlen Hm Hl Hw Hr Hnamed] & Hdu').
  destruct (Hnamed c Hc) as (c' & Hc' & Hse' & Hnm). injection Hr as Hcr' Hcf' Hcl'.
  exists s', index'. split; [done|]. split; [|done]. split; try done; rewrite ?Hl.
  - congruence.
  - exists c'. split; congruence.
  - congruence.
  - intros k x Hk Hf. exfalso.
    destruct (Hn k x) as [Hwk _]; [done| |].
    { unfold GetFileName in *. destruct (Hm x) as [Hx|Hx]; rewrite Hx in Hf; done. }
    by rewrite (Hnm Ho Hse k x Hwk Hk) in Hf.
  - intros k. rewrite Hw, lookup_empty. by intros [].
  - intros k. specialize (Hsp k). destruct (spec !! k) as [m|]; [|done].
    destruct Hsp as (x & ? & <-). exists x. split; [done|]. by destruct (Hm x) as [->| ->].
Qed.

Lemma tracked_model D s index spec k x :
  tracked D s index spec -> live s !! k = Some x ->
  spec !! k = Some (with_file None (t_model (deref s x))).
Proof.
  intros Htr Hx. pose proof (tr_spec _ _ _ _ Htr k) as Hs. destruct (spec !! k) as [m|]; [|congruence].
  destruct Hs as (y & Hy & <-). by assert (y = x) as -> by congruence.
Qed.

Lemma with_file_idem f g m : with_file f (with_file g m) = with_file f m.
Proof. done. Qed.

(** The object a set works on has the model of the abstract state. *)
Lemma current_model D s index spec k :
  tracked D s index spec ->
  with_file None (t_model (current k s)) = default (blank k) (spec !! k) /\
  (GetFileName (current k s) = None \/ GetFileName (current k s) = Some file) /\
  GetKey (current k s) = k.
Proof.
  intros Htr. unfold current. destruct (live s !! k) as [x|] eqn:Hx.
  - rewrite (tracked_model _ _ _ _ _ _ Htr Hx).
    destruct (du_live _ _ _ (tr_durable _ _ _ _ Htr) _ _ Hx) as (_ & ? & _ & _ & ? & _). done.
  - rewrite (tr_creating _ _ _ _ Htr), lookup_empty.
    pose proof (tr_spec _ _ _ _ Htr k) as Hs. destruct (spec !! k) as [m|].
    + destruct Hs as (x & ? & _). congruence.
    + split_and!; try done. by left.
Qed.

(** ** Deleting *)

(** What [deleteHandler] does to the places of a key, with the object [t'] at the end. *)
Record deleted_in (k : bytes) (x : nat) (t' : treasure) (s s' : swamp) : Prop := {
  dl_heap : heap (data s') = <[x := t']> (heap (data s));
  dl_live : live s' = delete k (live s);
  dl_waiting : waiting s' = if GetFileName (deref s x) is Some _ then <[k := x]> (waiting s) else delete k (waiting s);
  dl_rest : (creatingTreasures (data s'), buckets (data s'), chron s', conf s', closing (ctl s'))
    = (creatingTreasures (data s), buckets (data s), chron s, conf s, closing (ctl s));
  dl_free : free t';
  dl_key : GetKey t' = GetKey (deref s x);
  dl_marked : GetFileName (deref s x) <> None -> 0 < GetDeletedAt t'
}.

(** How the write buffer learns of a deletion: a stored treasure is marked as deleted and waits,
    one that was never written leaves it. *)
Lemma pend_deletion now k shadow s (x : nat) t :
  (x < length (heap (data s)))%nat -> deref s x = t -> held t -> GetKey t = k ->
  (forall y, waiting s !! k = Some y -> y = x) -> 0 < UnixNano now ->
  exists s' t', match GetFileName t with
    | None => Next (delete_waiting k s)
    | Some _ => let! s := set_on x (BodySetForDeletion 1 (bs "system") shadow (UnixNano now)) s in
                Next (metadata_update now (on_waiting (Beacon.Add (deref s) x) s))
    end = Next s' /\ heap (data s') = <[x := t']> (heap (data s)) /\ held t' /\ GetKey t' = k /\
    (GetFileName t <> None -> 0 < GetDeletedAt t') /\
    waiting s' = (if GetFileName t is Some _ then <[k := x]> (waiting s) else delete k (waiting s)) /\
    live s' = live s /\
    (creatingTreasures (data s'), buckets (data s'), chron s', conf s', closing (ctl s'))
    = (creatingTreasures (data s), buckets (data s), chron s, conf s, closing (ctl s)).
Proof.
  intros Hx Hd Ht Hk Hw Hnow. destruct (GetFileName t) as [p|].
  - unfold set_on. rewrite Hd. unfold BodySetForDeletion at 1.
    rewrite (with_guard_err_runs 1 _ t []) by done. cbn [of_panic obind].
    set (t2 := if shadow then _ else _). eexists _, t2. split; [done|].
    assert (GetKey t2 = k /\ t_guard t2 = t_guard t /\ GetDeletedAt t2 = UnixNano now) as (Hk2 & Hg2 & Hda2)
      by (unfold t2; destruct shadow; done).
    assert (0 < GetDeletedAt t2) as Hpos by (by rewrite Hda2).
    split_and!; try done; [unfold held; by rewrite Hg2|].
    change (treasuresByKeys (Beacon.Add (deref (update x t2 s)) x (treasuresWaitingForWriter (data s)))
      = <[k := x]> (waiting s)).
    rewrite (add_key _ _ _ k) by (by rewrite deref_update, decide_True).
    fold (waiting s). destruct (waiting s !! k) as [y|] eqn:Hy; [|done].
    rewrite (Hw _ eq_refl) in Hy. symmetry. by apply insert_id.
  - eexists _, t. split; [done|]. split_and!; try done. symmetry. apply list_insert_id.
    destruct (lookup_lt_is_Some_2 _ _ Hx) as [u Hu]. by rewrite <-Hd, (deref_lookup _ _ _ Hu).
Qed.

Lemma leave_indexes k s :
  buckets (data s) = ∅ ->
  exists s', notifyBucketsDelete k (deleteTreasureFromBeacons k s) = Next s' /\ core s' = core s.
Proof.
  intros Hb. pose proof (deleteTreasureFromBeacons_core k s) as Hc. unfold notifyBucketsDelete.
  set (s1 := deleteTreasureFromBeacons k s) in *. clearbody s1.
  destruct (notify_none (fun b => Some (OnDelete k b)) s1) as (s2 & -> & Hc2).
  { destruct (core_fields _ _ Hc) as (_ & _ & _ & Hr). injection Hr as _ -> _ _ _. done. }
  exists s2. split; [done|congruence].
Qed.

Lemma deleteHandler_spec now k shadow s (x : nat) :
  all_free s -> buckets (data s) = ∅ -> live s !! k = Some x -> (x < length (heap (data s)))%nat ->
  key_at s x = k -> (forall y, waiting s !! k = Some y -> y = x) -> 0 < UnixNano now ->
  exists s' t', deleteHandler now k shadow s = Next (s', Some x) /\ deleted_in k x t' s s'.
Proof.
  intros Haf Hb Hl Hx Hk Hw Hnow. unfold deleteHandler.
  destruct (key_Get_spec k s) as (s0 & -> & Hc0). rewrite Hl.
  pose proof (core_deref _ _ Hc0) as Hd0. destruct (core_fields _ _ Hc0) as (Hh0 & Hl0 & Hw0 & Hr0).
  destruct (start_guard_free x (Some BodyAuthID) s0) as (g & -> & Hg).
  { rewrite Hd0. by eapply Haf, deref_in. }
  cbn [obind]. rewrite Hd0. set (t := deref s x) in *. set (s1 := update x (put_guard g t) s0).
  assert (deref s1 x = put_guard g t) as Hd1 
    by (unfold s1; rewrite deref_update by (by rewrite Hh0); by rewrite decide_True).
  assert (x < length (heap (data s1)))%nat as Hx1 by (unfold s1; cbn; by rewrite length_insert, Hh0).
  assert (Clone 1 (deref s1 x) = Some (copy (put_guard g t))) as Hcl1.
  { rewrite Hd1. unfold Clone, CanExecute, is_first. cbn [andb t_guard put_guard]. by rewrite Hg. }
  unfold of_panic at 1. rewrite Hcl1. cbn [obind]. rewrite Hd1.
  destruct (pend_deletion now k shadow s1 x _ Hx1 Hd1 Hg Hk) as (s2 & t2 & -> & Hh2' & Hg2 & Hk2 & Hda2 & Hw2' & Hl2' & Hr2'); [|done|].
  { change (waiting s1) with (waiting s0). by rewrite Hw0. }
  change (GetFileName (put_guard g t)) with (GetFileName t) in *.
  assert (heap (data s2) = <[x := t2]> (heap (data s))) as Hh2
    by (rewrite Hh2'; unfold s1; cbn; by rewrite Hh0, list_insert_insert_eq).
  assert (live s2 = live s) as Hl2 by (rewrite Hl2'; exact Hl0).
  assert (waiting s2 = if GetFileName t is Some _ then <[k := x]> (waiting s) else delete k (waiting s)) as Hw2
    by (rewrite Hw2'; change (waiting s1) with (waiting s0); by rewrite Hw0).
  assert ((creatingTreasures (data s2), buckets (data s2), chron s2, conf s2, closing (ctl s2))
    = (creatingTreasures (data s), buckets (data s), chron s, conf s, closing (ctl s))) as Hr2 by (rewrite Hr2'; exact Hr0).
  clear Hh2' Hl2' Hw2' Hr2'.
  cbn [obind]. set (s3 := on_beaconKey _ s2).
  destruct (leave_indexes k s3) as (s5 & -> & Hc5).
  { injection Hr2 as _ Hb2 _ _ _. exact (eq_trans Hb2 Hb). }
  cbn [obind].
  set (cl := copy (put_guard g t)). set (s6 := sendSwampInfo (sendDeletedEventToClient now cl s5)).
  assert (core s6 = core s3) as Hc6.
  { unfold s6. by rewrite sendSwampInfo_core, sendDeletedEventToClient_core. }
  pose proof (core_deref _ _ Hc6) as Hd6. destruct (core_fields _ _ Hc6) as (Hh6 & Hl6 & Hw6 & Hr6).
  clearbody s6. clear Hc6.
  assert (deref s6 x = t2) as Hdx.
  { rewrite Hd6. apply deref_lookup. change (heap (data s3)) with (heap (data s2)). rewrite Hh2.
    by apply list_lookup_insert_eq. }
  destruct (release_held x s6) as (g' & -> & Hgw & Hgl); [by unfold held; rewrite Hdx|]. rewrite Hdx.
  eexists _, (put_guard g' t2). split; [done|]. split.
  - cbn. rewrite Hh6. change (heap (data s3)) with (heap (data s2)). by rewrite Hh2, list_insert_insert_eq.
  - change (live s6 = delete k (live s)). rewrite Hl6. change (delete k (live s2) = delete k (live s)). by rewrite Hl2.
  - change (waiting s6 = if GetFileName t is Some _ then <[k := x]> (waiting s) else delete k (waiting s)).
    rewrite Hw6. exact Hw2.
  - change ((creatingTreasures (data s6), buckets (data s6), chron s6, conf s6, closing (ctl s6)) =
      (creatingTreasures (data s), buckets (data s), chron s, conf s, closing (ctl s))).
    rewrite Hr6. exact Hr2.
  - done.
  - change (GetKey t2 = GetKey t). by rewrite Hk2.
  - done.
Qed.

Lemma deleted_tracked k (x : nat) t' D s s' index spec :
  tracked D s index spec -> live s !! k = Some x -> deleted_in k x t' s s' -> k ∉ D ->
  tracked ({[k]} ∪ D) s' index (delete k spec).
Proof.
  intros Htr Hl [Hh Hl' Hw' Hr Hf Hk' Hm] HkD.
  destruct Htr as [Hdu Ho (c & Hc & Hse) Hcr Hn Hdl Hsp].
  destruct (du_live _ _ _ Hdu _ _ Hl) as (Hx & Hk & Hda & Hfit).
  injection Hr as Hcr' Hb' Hch' Hcf' Hcl'.
  assert (forall y, y <> x -> deref s' y = deref s y) as Hdy
    by (intros y Hy; unfold deref; by rewrite Hh, list_lookup_insert_ne).
  assert (waiting s' !! k = (if GetFileName (deref s x) is Some _ then Some x else None) /\
          forall k', k' <> k -> waiting s' !! k' = waiting s !! k') as [Hwk Hwo].
  { rewrite Hw'. destruct (GetFileName (deref s x)); split.
    - apply lookup_insert_eq.
    - intros k' Hne. by apply lookup_insert_ne.
    - apply lookup_delete_eq.
    - intros k' Hne. by apply lookup_delete_ne. }
  assert (forall k' y, k' <> k -> live s !! k' = Some y -> y <> x) as Hother.
  { intros k' y Hne Hy ->. destruct (du_live _ _ _ Hdu _ _ Hy) as (_ & Hk2 & _). congruence. }
  split.
  - apply (durable_put None None s s' index x t' k Hdu Hx Hk); try done.
    + rewrite Hk'. exact Hk.
    + intros k' Hne. by rewrite Hl', lookup_delete_ne, Hwo.
    + intros k' y. by rewrite Hcr', Hcr, lookup_empty.
    + intros y. by rewrite Hl', lookup_delete_eq.
    + intros y. rewrite Hwk. destruct (GetFileName (deref s x)) eqn:Hfn; [|done]. intros [= <-].
      split; [done|]. split; [rewrite <-Hk; apply Hfit|]. right. split; [by rewrite Hl', lookup_delete_eq|].
      by apply Hm.
    + rewrite Hwk, Hl', lookup_delete_eq. destruct (GetFileName (deref s x)) eqn:Hfn; [done|]. intros _.
      destruct (Hn k x Hl Hfn) as [_ [?|?]]; done.
  - congruence.
  - exists c. split; congruence.
  - congruence.
  - intros k' y. rewrite Hl'. intros [Hne Hy]%lookup_delete_Some.
    assert (k' <> k) as Hne' by done. rewrite Hdy, Hwo by eauto. intros Hnf.
    destruct (Hn k' y Hy Hnf) as [? [?|?]]; split; auto; left; set_solver.
  - intros k' Hwx. rewrite Hl'. destruct (decide (k' = k)) as [->|Hne]; [set_solver|].
    rewrite lookup_delete_ne by done. rewrite Hwo in Hwx by done. intros Hlx. specialize (Hdl k' Hwx Hlx). set_solver.
  - intros k'. rewrite Hl'. destruct (decide (k' = k)) as [->|Hne]; [by rewrite !lookup_delete_eq|].
    rewrite !lookup_delete_ne by done. specialize (Hsp k'). destruct (spec !! k') as [m|]; [|done].
    destruct Hsp as (y & Hy & <-). exists y. by rewrite Hdy by eauto.
Qed.

Lemma deleteHandler_tracked now k shadow D s index spec :
  tracked D s index spec -> is_Some (spec !! k) -> k ∉ D -> 0 < UnixNano now ->
  exists s' x, deleteHandler now k shadow s = Next (s', Some x) /\
    tracked ({[k]} ∪ D) s' index (delete k spec).
Proof.
  intros Htr [m Hm] HkD Hnow. pose proof (tr_spec _ _ _ _ Htr k) as Hs. rewrite Hm in Hs.
  destruct Hs as (x & Hx & _). pose proof (tr_durable _ _ _ _ Htr) as Hdu.
  destruct (du_live _ _ _ Hdu _ _ Hx) as (Hlt & Hk & _).
  destruct (deleteHandler_spec now k shadow s x) as (s' & t' & E & Hdel); try done.
  - intros y u Hu. by apply (du_guard _ _ _ Hdu _ _ Hu).
  - apply Hdu.
  - intros y Hy. destruct (du_wait _ _ _ Hdu _ _ Hy) as (_ & _ & _ & [?|[? _]]); congruence.
  - exists s', x. split; [done|]. by eapply deleted_tracked.
Qed.

Lemma live_empty D s index spec : tracked D s index spec -> live s = ∅ <-> spec = ∅.
Proof.
  intros Htr. rewrite !map_empty. split; intros He k; pose proof (tr_spec _ _ _ _ Htr k) as Hs; specialize (He k).
  - destruct (spec !! k); [|done]. destruct Hs as (x & Hx & _). congruence.
  - by rewrite He in Hs.
Qed.

(** Deleting a key that is not the last. *)
Lemma DeleteTreasure_tracked now k shadow D s index spec :
  tracked D s index spec -> is_Some (spec !! k) -> k ∉ D -> 0 < UnixNano now -> delete k spec <> ∅ ->
  exists s', DeleteTreasure now k shadow s = Next (s', true) /\ tracked ({[k]} ∪ D) s' index (delete k spec).
Proof.
  intros Htr Hk HkD Hnow Hne. unfold DeleteTreasure, TreasureExists.
  set (s0 := on_beaconKey touch (interact now s)).
  assert (tracked D s0 index spec) as Htr0 by (by apply (tracked_core _ s)).
  assert (is_some (treasuresByKeys (beaconKey (data (interact now s))) !! k) = true) as Hex.
  { change (is_some (live s !! k) = true). destruct Hk as [m Hm].
    pose proof (tr_spec _ _ _ _ Htr k) as Hs. rewrite Hm in Hs. by destruct Hs as (x & -> & _). }
  cbn [IsExists snd]. rewrite Hex. cbn [negb].
  destruct (deleteHandler_tracked now k shadow D s0 index spec Htr0 Hk HkD Hnow) as (s1 & x & -> & Htr1).
  cbn [obind]. unfold destroy_if_empty, key_Count, Beacon.Count.
  exists (on_beaconKey touch s1). split; [|by apply (tracked_core _ s1)].
  case_match eqn:Hz; [|done]. exfalso. apply Hne. apply (live_empty _ _ _ _ Htr1).
  apply Z.eqb_eq in Hz. cbn in Hz. apply map_size_empty_iff. unfold live. lia.
Qed.

(** A key that is not there. *)
Lemma DeleteTreasure_missing now k shadow D s index spec :
  tracked D s index spec -> spec !! k = None ->
  exists s', DeleteTreasure now k shadow s = Next (s', false) /\ tracked D s' index spec.
Proof.
  intros Htr Hk. unfold DeleteTreasure, TreasureExists.
  assert (is_some (treasuresByKeys (beaconKey (data (interact now s))) !! k) = false) as Hex.
  { change (is_some (live s !! k) = false). pose proof (tr_spec _ _ _ _ Htr k) as Hs. rewrite Hk in Hs. by rewrite Hs. }
  cbn [IsExists snd]. rewrite Hex. cbn [negb]. eexists. split; [done|]. by apply (tracked_core _ s).
Qed.

(** ** Opening and closing *)

(** The stored data of the models [spec], whatever file names they have. *)
Definition represents (index : gmap bytes bytes) (spec : gmap bytes Model) : Prop :=
  forall k, match spec !! k with
  | Some m => exists m' d, index !! k = Some d /\ encode_model m' = Some d /\ same_stored m' m
  | None => index !! k = None
  end.

Lemma Close_tracked D s index spec :
  tracked D s index spec ->
  exists s' index' c, Close s = Next s' /\ chron s' = Some c /\ holds c index' /\ closed c /\ represents index' spec.
Proof.
  intros Htr. pose proof Htr as [Hdu Ho (c & Hc & Hse) Hcr Hn _ Hsp]. unfold Close. rewrite Ho.
  set (s0 := set_closing true s).
  assert (durable None s0 index) as Hdu0 by (by destruct Hdu; split).
  change (inMemorySwamp (conf s0)) with (inMemorySwamp (conf s)). rewrite (du_mem _ _ _ Hdu).
  unfold close_storage. change (chron s0) with (chron s). rewrite Hc.
  destruct (du_store _ _ _ Hdu) as (c' & Hc' & Hho). assert (c' = c) as -> by congruence.
  set (s1 := set_chron _ s0).
  assert (durable None s1 index) as Hdu1.
  { destruct Hdu0 as [Hmem Hb _ Hgu Hlv Hwt Hcrt Hcln]. split; try done.
    eexists. split; [done|]. by apply store_DontSend. }
  destruct (flush_durable true s1 index Hdu1) as (s2 & index' & -> & Hfl & Hdu2). cbn [obind].
  destruct (du_store _ _ _ Hdu2) as (c2 & Hc2 & Hho2). cbn [chron set_metadata].
  change (chron (set_metadata (metadataInterface s2) (metadata_SaveToFile (metaFile s2) (metadataInterface s2)) s2)) with (chron s2).
  rewrite Hc2. cbn [obind].
  destruct (store_Close (live_count (set_metadata (metadataInterface s2) (metadata_SaveToFile (metaFile s2) (metadataInterface s2)) s2)) _ _ Hho2) as [Hho3 Hcl3].
  eexists _, index', _. split; [done|]. split; [done|]. split; [done|]. split; [done|].
  intros k. pose proof (du_clean _ _ _ Hdu2 k) as Hcln. rewrite (fs_empty _ _ Hfl), lookup_empty in Hcln.
  specialize (Hcln eq_refl). rewrite (fs_live _ _ Hfl) in Hcln. change (live s1) with (live s) in Hcln.
  specialize (Hsp k). destruct (spec !! k) as [m|].
  - destruct Hsp as (x & Hx & <-). rewrite Hx in Hcln. destruct Hcln as (d & Hd & m' & He & Hs).
    exists m', d. split; [done|]. split; [done|].
    destruct (fs_model _ _ Hfl x) as [Hm|Hm]; rewrite Hm in Hs; exact Hs.
  - by rewrite Hsp in Hcln.
Qed.

(** *** What survives the encoding *)

Class GobOk : Prop := {
  gob_round_trip m d : encode_model m = Some d -> decode_model d = Some (transmitted m);
  gob_nonempty m d : encode_model m = Some d -> d <> []
}.
Context `{GMOk : GobOk}.

(** *** Loading *)

Lemma allocate_spec ms :
  (forall k, match ms !! k with
    | Some m => exists i : nat, (allocate ms).2 !! k = Some i /\ (allocate ms).1 !! i = Some (loaded m)
    | None => (allocate ms).2 !! k = None
    end) /\
  forall i t, (allocate ms).1 !! (i : nat) = Some t -> exists m, t = loaded m.
Proof.
  unfold allocate. cbn. set (l := map_to_list ms).
  assert (NoDup (imap (fun i p => (p.1, i)) l).*1) as Hnd.
  { assert ((imap (fun i p => (p.1, i)) l).*1 = l.*1) as ->; [|apply NoDup_fst_map_to_list].
    rewrite fmap_imap. clear. generalize (fun i : nat => i). induction l as [|p l IH]; intros f; [done|].
    cbn. f_equal. apply (IH (f ∘ S)). }
  split.
  - intros k. destruct (ms !! k) as [m|] eqn:Hm.
    + assert ((k, m) ∈ l) as Hin by (by apply elem_of_map_to_list).
      apply list_elem_of_lookup_1 in Hin as [i Hi]. exists i. split.
      * apply elem_of_list_to_map_1; [done|]. apply elem_of_lookup_imap. by exists i, (k, m).
      * fold ((fun p : bytes * Model => loaded p.2) <$> l). by rewrite list_lookup_fmap, Hi.
    + apply not_elem_of_list_to_map_1. intros Hin. apply list_elem_of_fmap in Hin as ([k' i] & -> & Hin).
      apply elem_of_lookup_imap in Hin as (j & [k2 m] & [= -> ->] & Hj).
      apply list_elem_of_lookup_2 in Hj. apply elem_of_map_to_list in Hj. cbn in Hm. congruence.
  - intros i t. fold ((fun p : bytes * Model => loaded p.2) <$> l). rewrite list_lookup_fmap.
    destruct (l !! i) as [[k m]|]; [|done]. intros [= <-]. by eexists.
Qed.

(** The abstract states of swamps that can be stored and read back. *)
Definition spec_ok (spec : gmap bytes Model) : Prop :=
  forall k m, spec !! k = Some m -> m_Key m = k /\ m_DeletedAt m = 0 /\ m_FileName m = None /\ storable (transmitted m).

Lemma with_file_transmitted f m : with_file f (transmitted m) = with_file f (transmitted (with_file None m)).
Proof. done. Qed.

Lemma New_tracked now idle c interval meta mfile index spec :
  holds c index -> unopened c -> represents index spec -> spec_ok spec ->
  tracked ∅ (Swamp.New now idle (Some (c, interval)) meta mfile) index (transmitted <$> spec).
Proof.
  intros Hho Hun Hrep Hok. unfold Swamp.New.
  destruct (st_Load (st_Register c)) as [c' o] eqn:Hload.
  destruct (store_Load _ _ _ _ Hho Hun Hload) as (Hho' & Hse & Ho).
  assert (forall k, default ∅ o !! k = (fun m => with_file (Some file) (transmitted m)) <$> spec !! k) as Hms.
  { intros k. rewrite Ho, lookup_omap. specialize (Hrep k). destruct (spec !! k) as [m|]; [|by rewrite Hrep].
    destruct Hrep as (m' & d & -> & He & Hs). cbn. unfold decode_stored.
    rewrite decide_False by (by eapply gob_nonempty). rewrite (gob_round_trip _ _ He). cbn.
    by rewrite (with_file_transmitted _ m'), Hs. }
  destruct (allocate_spec (default ∅ o)) as [Hal Hall].
  destruct (allocate (default ∅ o)) as [h m] eqn:Eal. cbn [fst snd] in *.
  set (s := {| data := _ |}).
  assert (forall k, live s !! k = m !! k) as Hlive.
  { intros k. change (live s) with (m ∪ ∅). by rewrite (right_id_L ∅ (∪)). }
  assert (forall k, match spec !! k with
    | Some mo => exists x : nat, live s !! k = Some x /\ heap (data s) !! x = Some (loaded (with_file (Some file) (transmitted mo)))
    | None => live s !! k = None
    end) as Hobj.
  { intros k. specialize (Hal k). rewrite Hms in Hal. rewrite Hlive.
    destruct (spec !! k); exact Hal. }
  assert (forall k x, live s !! k = Some x -> exists mo, spec !! k = Some mo /\
    heap (data s) !! (x : nat) = Some (loaded (with_file (Some file) (transmitted mo)))) as Hobj'.
  { intros k x Hx. specialize (Hobj k). destruct (spec !! k) as [mo|]; [|congruence].
    destruct Hobj as (y & Hy & Hh). exists mo. split; [done|]. congruence. }
  assert (durable None s index) as Hdu.
  { split; try done.
    - by exists c'.
    - intros x t Ht. split; [done|]. intros _. by destruct (Hall _ _ Ht) as (mo & ->).
    - intros k x Hx. destruct (Hobj' k x Hx) as (mo & Hmo & Hh). unfold key_at. rewrite (deref_lookup _ _ _ Hh).
      destruct (Hok _ _ Hmo) as (Hk & Hd & Hf & [Hkf Hst]).
      split; [by eapply lookup_lt_Some|]. split; [done|]. split; [done|].
      split; [exact Hkf|]. split; [by right|]. intros f Hff. apply (Hst f Hff).
    - intros k _. specialize (Hobj k). specialize (Hrep k). destruct (spec !! k) as [mo|] eqn:Hmo.
      + destruct Hobj as (x & -> & Hh). rewrite (deref_lookup _ _ _ Hh).
        destruct Hrep as (m' & d & Hd & He & Hs). exists d. split; [done|]. exists m'. split; [done|].
        unfold same_stored in *. rewrite Hs. symmetry. apply transmitted_idem.
      + by rewrite Hobj. }
  split; try done.
  - by exists c'.
  - intros k x Hx Hnf. exfalso. destruct (Hobj' k x Hx) as (mo & _ & Hh). by rewrite (deref_lookup _ _ _ Hh) in Hnf.
  - intros k. change (waiting s) with (∅ : gmap bytes loc). rewrite lookup_empty. by intros [].
  - intros k. rewrite lookup_fmap. specialize (Hobj k). destruct (spec !! k) as [mo|] eqn:Hmo; cbn.
    + destruct Hobj as (x & Hx & Hh). exists x. split; [done|]. rewrite (deref_lookup _ _ _ Hh). cbn.
      destruct (Hok _ _ Hmo) as (_ & _ & Hf & _). unfold transmitted, with_file. cbn. by rewrite Hf.
    + exact Hobj.
Qed.
End SwampSteps.
