(* ===== verification/Saving.v ===== *)
(** Saving one key: what a request that creates a treasure, takes its guard, edits it and saves
    it leaves of the storage and of the abstract state. *)
From S2P Require Import Prelude Steps Types Compressor Block FileSys Reader Contents Log Session.
From S2P Require Import Meta Chronicler Durability Guard Treasure Beacon Canon Bucket Swamp Gateway SwampInv SwampSteps.
#[local] Set Warnings "-clear-no-such-hyp".

Section Saving.
Context `{SI : Store} `{GM : GobModel} `{GMeta : GobMeta} `{FI : FloatToInt} `{MP : Msgpack} `{SR : SlotRange}.
Context `{HR : KeyRange} `{HS : SortSlice} `{HROk : !KeyRangeOk} `{HOk : !StoreOk}.

(** ** The places of a saved key *)

(** [s'] is the swamp after the save of [k]'s object [x], which is [t] now: the swamp was [s]
    before the request and [s1] after [CreateTreasure]. *)
Record saves (k : bytes) (x : nat) (t : treasure) (s s1 s' : swamp) : Prop := {
  sa_heap : heap (data s') = <[x := t]> (heap (data s1));
  sa_live : live s' = <[k := x]> (live s);
  sa_waiting : waiting s' = <[k := x]> (waiting s);
  sa_creating : creatingTreasures (data s') = ∅;
  sa_rest : (buckets (data s'), chron s', conf s', closing (ctl s')) = (buckets (data s1), chron s1, conf s1, closing (ctl s1))
}.

(** An object that may be left at [x]. *)
Record ready (k : bytes) (x : nat) (t : treasure) (s1 : swamp) : Prop := {
  rd_free : free t;
  rd_key : GetKey t = k;
  rd_deleted : GetDeletedAt t = 0;
  rd_fits : fits t;
  rd_file : GetFileName t = GetFileName (deref s1 x)
}.

Lemma saves_durable k x t s s1 s' index :
  durable None s1 index -> created k x s s1 -> saves k x t s s1 s' -> ready k x t s1 -> durable None s' index.
Proof.
  intros Hdu Hct [Hh Hl Hw Hcr Hr] [Hfr Hk Hd Hfit _]. injection Hr as Hb Hch Hcf Hcl.
  pose proof (ct_rest _ _ _ _ Hct) as Hr1. injection Hr1 as Hl1 Hw1 _ _ _.
  apply (durable_put None None s1 s' index x t k Hdu (ct_in _ _ _ _ Hct) (ct_key _ _ _ _ Hct) Hk Hh); try done.
  - intros k' Hne. by rewrite Hl, Hw, Hl1, Hw1, !lookup_insert_ne by done.
  - intros k' y. by rewrite Hcr, lookup_empty.
  - intros y. rewrite Hl, lookup_insert_eq. by intros [= <-].
  - intros y. rewrite Hl, Hw, !lookup_insert_eq. intros [= <-]. split; [done|].
    split; [|by left]. rewrite <-Hk. apply Hfit.
  - by rewrite Hw, lookup_insert_eq.
Qed.

(** The other objects stay. *)
Lemma saves_deref k x t s s1 s' :
  created k x s s1 -> saves k x t s s1 s' ->
  deref s' x = t /\ forall y, (y < length (heap (data s)))%nat -> y <> x -> deref s' y = deref s y.
Proof.
  intros Hct Hsa. split.
  - apply deref_lookup. rewrite (sa_heap _ _ _ _ _ _ Hsa). apply list_lookup_insert_eq, Hct.
  - intros y Hy Hne. rewrite <-(ct_old _ _ _ _ Hct) by done. unfold deref.
    by rewrite (sa_heap _ _ _ _ _ _ Hsa), list_lookup_insert_ne.
Qed.

Lemma other_object k x k' y s s1 index :
  durable None s index -> created k x s s1 -> live s !! k' = Some y -> k' <> k ->
  (y < length (heap (data s)))%nat /\ y <> x.
Proof.
  intros Hdu Hct Hy Hne. destruct (du_live _ _ _ Hdu _ _ Hy) as (Hlt & Hk & _). split; [done|].
  intros ->. apply Hne. rewrite <-Hk, <-(ct_key _ _ _ _ Hct). unfold key_at. by rewrite (ct_old _ _ _ _ Hct).
Qed.

Lemma saves_tracked k x t D s s1 s' index spec :
  tracked D s index spec -> durable None s1 index -> created k x s s1 -> saves k x t s s1 s' -> ready k x t s1 ->
  tracked D s' index (<[k := with_file None (t_model t)]> spec).
Proof.
  intros Htr Hdu1 Hct Hsa Hrd. pose proof (saves_durable _ _ _ _ _ _ _ Hdu1 Hct Hsa Hrd) as Hdu'.
  destruct (saves_deref _ _ _ _ _ _ Hct Hsa) as [Hdx Hdy].
  destruct Hsa as [_ Hl Hw Hcr Hr]. injection Hr as Hb Hch Hcf Hcl.
  pose proof (ct_rest _ _ _ _ Hct) as Hr1. injection Hr1 as Hl1 Hw1 Hcl1 Hcf1 Hch1.
  destruct Htr as [Hdu Hopen (c & Hc & Hse) _ Hn Hdl Hsp].
  split; try done.
  - congruence.
  - exists c. split; [congruence|done].
  - intros k' y. rewrite Hl, Hw. destruct (decide (k' = k)) as [->|Hne].
    + rewrite !lookup_insert_eq. intros [= <-] Hnf. split; [done|].
      destruct (live s !! k) as [y|] eqn:Hy.
      * assert (y = x) as -> by by apply (ct_one _ _ _ _ Hct). apply (Hn k x Hy).
        rewrite <-(ct_old _ _ _ _ Hct) by apply (du_live _ _ _ Hdu _ _ Hy). by rewrite <-(rd_file _ _ _ _ Hrd), <-Hdx.
      * destruct (waiting s !! k) as [y|] eqn:Hyw; [left; by apply Hdl|right].
        pose proof (du_clean _ _ _ Hdu _ Hyw) as Hcl'. by rewrite Hy in Hcl'.
    + rewrite !lookup_insert_ne by done. intros Hy. destruct (other_object _ _ _ _ _ _ _ Hdu Hct Hy Hne).
      rewrite Hdy by done. by apply Hn.
  - intros k'. rewrite Hl, Hw. destruct (decide (k' = k)) as [->|Hne]; [by rewrite !lookup_insert_eq|].
    rewrite !lookup_insert_ne by done. apply Hdl.
  - intros k'. rewrite Hl. destruct (decide (k' = k)) as [->|Hne].
    + rewrite !lookup_insert_eq. exists x. split; [done|]. by rewrite Hdx.
    + rewrite !lookup_insert_ne by done. specialize (Hsp k'). destruct (spec !! k') as [m|]; [|done].
      destruct Hsp as (y & Hy & <-). exists y. split; [done|].
      destruct (other_object _ _ _ _ _ _ _ Hdu Hct Hy Hne). by rewrite Hdy.
Qed.

(** ** Ways to get there *)

(** A save in memory, with the guard given back. *)
Lemma saved_saves k x t s s1 s4 :
  created k x s s1 -> creatingTreasures (data s) = ∅ -> held t -> saved_in k x (update x t s1) s4 ->
  exists g, free (put_guard g t) /\ saves k x (put_guard g t) s s1 (release_guard x 1 s4).
Proof.
  intros Hct Hcre Ht [Hh Hl Hw Hcr Hr].
  pose proof (ct_rest _ _ _ _ Hct) as Hr1. injection Hr1 as Hl1 Hw1 _ _ _.
  change (live (update x t s1)) with (live s1) in Hl, Hcr. change (waiting (update x t s1)) with (waiting s1) in Hw.
  assert (deref s4 x = t) as Hd by (apply deref_lookup; rewrite Hh; apply list_lookup_insert_eq, Hct).
  destruct (release_held x s4) as (g & -> & Hgw & Hgl); [by rewrite Hd|]. rewrite Hd.
  exists g. split; [done|]. split.
  - cbn. rewrite Hh. cbn. by rewrite list_insert_insert_eq.
  - change (live s4 = <[k := x]> (live s)). by rewrite Hl, Hl1.
  - change (waiting s4 = <[k := x]> (waiting s)). by rewrite Hw, Hw1.
  - change (creatingTreasures (data s4) = ∅). rewrite Hcr, Hl1. cbn [data update].
    change (creatingTreasures (data (update x t s1))) with (creatingTreasures (data s1)).
    destruct (live s !! k) as [y|] eqn:Hy.
    + by rewrite (ct_there _ _ _ _ Hct).
    + rewrite (ct_new _ _ _ _ Hct), Hcre by done. by rewrite delete_insert_id.
  - exact Hr.
Qed.

(** *** A save that finds no change *)

Lemma durable_framed s s' index :
  durable None s index -> framed eq s s' -> all_free s' -> durable None s' index.
Proof.
  intros Hdu [Hlen Hm Hr] Haf. injection Hr as Hl Hw Hcr Hb Hch Hcf Hcl.
  destruct Hdu as [Hmem Hbk Hc Hgu Hlv Hwt Hcrt Hcln].
  split; unfold key_at, fits, stored_as, GetKey, GetDeletedAt, GetFileName in *;
    rewrite ?Hl, ?Hw, ?Hcr, ?Hb, ?Hch, ?Hcf; try done.
  - intros y u Hu. split; [done|]. intros _. by eapply Haf.
  - intros k y. rewrite Hlen, <-Hm. apply Hlv.
  - intros k y. rewrite Hlen, <-Hm. apply Hwt.
  - intros k y. rewrite Hlen, <-Hm. apply Hcrt.
  - intros k Hk. specialize (Hcln k Hk). destruct (live s !! k) as [y|]; [|done]. by rewrite <-Hm.
Qed.

Lemma tracked_framed D s s' index spec :
  tracked D s index spec -> framed eq s s' -> all_free s' -> tracked D s' index spec.
Proof.
  intros [Hdu Ho Hse Hcr Hn Hdl Hsp] Hfr Haf. pose proof (durable_framed _ _ _ Hdu Hfr Haf) as Hdu'.
  destruct Hfr as [Hlen Hm Hr]. injection Hr as Hl Hw Hcr' Hb Hch Hcf Hcl.
  split; rewrite ?Hl, ?Hw, ?Hcr', ?Hch, ?Hcl; try done.
  - intros k x. unfold GetFileName. rewrite <-Hm. apply Hn.
  - intros k. specialize (Hsp k). destruct (spec !! k); [|done]. destruct Hsp as (x & ? & <-).
    exists x. by rewrite <-Hm.
Qed.

(** Where the key was there, [CreateTreasure] only finds it. *)
Lemma created_tracked k x D s s1 index spec :
  tracked D s index spec -> durable None s1 index -> created k x s s1 -> is_Some (live s !! k) ->
  tracked D s1 index spec.
Proof.
  intros [Hdu Hopen Hse Hcr Hn Hdl Hsp] Hdu1 Hct Hlv.
  pose proof (ct_rest _ _ _ _ Hct) as Hr1. injection Hr1 as Hl Hw Hcl _ Hch.
  assert (forall k' y, live s !! k' = Some y -> deref s1 y = deref s y) as Hold
    by (intros k' y Hy; apply (ct_old _ _ _ _ Hct), (du_live _ _ _ Hdu _ _ Hy)).
  split; rewrite ?Hl, ?Hw, ?Hcl, ?Hch; try done.
  - by rewrite (ct_there _ _ _ _ Hct).
  - intros k' y Hy. rewrite (Hold _ _ Hy). by apply Hn.
  - intros k'. specialize (Hsp k'). destruct (spec !! k'); [|done]. destruct Hsp as (y & Hy & <-).
    exists y. by rewrite (Hold _ _ Hy).
Qed.

(** Where it was not, and nothing was saved, it is dropped again. *)
Lemma dropped_tracked k x D s s1 index spec :
  tracked D s index spec -> durable None s1 index -> created k x s s1 -> live s !! k = None ->
  tracked D (on_creating (fun m => delete k m) s1) index spec.
Proof.
  intros [Hdu Hopen Hse Hcr Hn Hdl Hsp] Hdu1 Hct Hlv.
  pose proof (ct_rest _ _ _ _ Hct) as Hr1. injection Hr1 as Hl Hw Hcl _ Hch.
  assert (forall k' y, live s !! k' = Some y -> deref s1 y = deref s y) as Hold
    by (intros k' y Hy; apply (ct_old _ _ _ _ Hct), (du_live _ _ _ Hdu _ _ Hy)).
  set (s2 := on_creating (fun m => delete k m) s1).
  assert (creatingTreasures (data s2) = ∅) as Hcr2.
  { change (creatingTreasures (data s2)) with (delete k (creatingTreasures (data s1))).
    by rewrite (ct_new _ _ _ _ Hct Hlv), Hcr, delete_insert_id. }
  change (live s1) with (live s2) in Hl. change (waiting s1) with (waiting s2) in Hw.
  change (chron s1) with (chron s2) in Hch. change (closing (ctl s1)) with (closing (ctl s2)) in Hcl.
  split; rewrite ?Hl, ?Hw, ?Hcl, ?Hch; try done.
  - destruct Hdu1 as [? ? ? ? ? ? Hc ?]. split; try done. intros k' y. by rewrite Hcr2, lookup_empty.
  - intros k' y Hy. change (deref s2 y) with (deref s1 y). rewrite (Hold _ _ Hy). by apply Hn.
  - intros k'. specialize (Hsp k'). destruct (spec !! k'); [|done]. destruct Hsp as (y & Hy & <-).
    exists y. change (deref s2 y) with (deref s1 y). by rewrite (Hold _ _ Hy).
Qed.

(** The object is only given back. *)
Lemma given_back x t D s1 s4 index spec :
  tracked D s1 index spec -> (x < length (heap (data s1)))%nat ->
  held t -> t_model t = t_model (deref s1 x) -> core s4 = core (update x t s1) ->
  tracked D (release_guard x 1 s4) index spec.
Proof.
  intros Htr1 Hx Ht Hm Hc. pose proof (tr_durable _ _ _ _ Htr1) as Hdu1.
  destruct (core_fields _ _ Hc) as (Hh4 & Hl4 & Hw4 & Hr4). injection Hr4 as Hcr4 Hb4 Hch4 Hcf4 Hcl4.
  assert (deref s4 x = t) as Hd by (rewrite (core_deref _ _ Hc); by rewrite deref_update, decide_True).
  destruct (release_held x s4) as (g & -> & Hgw & Hgl); [by rewrite Hd|]. rewrite Hd.
  set (s6 := update x (put_guard g t) s4).
  assert (heap (data s6) = <[x := put_guard g t]> (heap (data s1))) as Hh6
    by (cbn; rewrite Hh4; cbn; by rewrite list_insert_insert_eq).
  apply (tracked_framed _ s1); [done| |].
  - split.
    + by rewrite Hh6, length_insert.
    + intros y. unfold deref at 2. rewrite Hh6. destruct (decide (y = x)) as [->|Hy].
      * by rewrite list_lookup_insert_eq.
      * by rewrite list_lookup_insert_ne.
    + change (live s6, waiting s6, creatingTreasures (data s6), buckets (data s6), chron s6, conf s6, closing (ctl s6))
        with (live s4, waiting s4, creatingTreasures (data s4), buckets (data s4), chron s4, conf s4, closing (ctl s4)).
      by rewrite Hl4, Hw4, Hcr4, Hb4, Hch4, Hcf4, Hcl4.
  - intros y u. rewrite Hh6. intros [[_ [<- _]]|[_ Hu]]%list_lookup_insert_Some; [done|].
    by apply (du_guard _ _ _ Hdu1 _ _ Hu).
Qed.

Lemma unchanged_tracked k x t D s s1 s4 index spec :
  tracked D s index spec -> durable None s1 index -> created k x s s1 -> is_Some (live s !! k) ->
  held t -> t_model t = t_model (deref s1 x) -> core s4 = core (update x t s1) ->
  tracked D (release_guard x 1 s4) index spec.
Proof.
  intros Htr Hdu1 Hct Hlv. apply given_back; [|apply Hct]. by eapply created_tracked.
Qed.

(** ** Save *)

(** What [Save] does under a held guard. *)
Lemma Save_held now x s : held (deref s x) -> Save now x 1 s = SaveFunction now x 1 s.
Proof. unfold held, Save, CanExecute, is_first. by intros ->. Qed.

(** The write of a swamp without write interval.  It gives the guard back, and the release
    that is deferred then finds nobody. *)
Lemma write_at_once_tracked D s index spec x :
  tracked D (release_guard x 1 s) index spec -> (x < length (heap (data s)))%nat ->
  exists s' index' D', write_at_once x 1 s = Next s' /\ D' ⊆ D /\
    tracked D' (release_guard x 1 s') index' spec /\
    with_file None (t_model (deref s' x)) = with_file None (t_model (deref s x)).
Proof.
  intros Htr Hx. unfold write_at_once. case_match; [|by exists s, index, D].
  destruct (flush_durable false _ _ (tr_durable _ _ _ _ Htr)) as (s1 & ? & E1 & Hfl & _).
  destruct (flush_tracked false _ _ _ _ Htr) as (s1' & index' & E & Htr1 & _).
  assert (s1' = s1) as -> by congruence. rewrite E1. exists s1, index', ∅.
  assert (x < length (heap (data s1)))%nat as Hx1
    by (rewrite (fs_len _ _ Hfl); unfold release_guard; cbn; by rewrite length_insert).
  split; [done|]. split; [apply empty_subseteq|]. split.
  - apply (tracked_core _ s1); [|done]. apply release_free; [|done].
    by apply (du_guard _ _ _ (tr_durable _ _ _ _ Htr1) x _ (deref_in _ _ Hx1)).
  - assert (t_model (deref (release_guard x 1 s) x) = t_model (deref s x)) as <-
      by (unfold release_guard; by rewrite deref_update, decide_True).
    by destruct (fs_model _ _ Hfl x) as [->| ->].
Qed.

(** [x] is the object a request works on: it is held, has been edited by [e], and says that it
    changed unless it did not. *)
Record edited (e : Model -> Model) (x : nat) (t : treasure) (s1 : swamp) : Prop := {
  ei_held : held t;
  ei_model : t_model t = e (t_model (deref s1 x));
  ei_changed : changed t = true \/ t_model t = t_model (deref s1 x)
}.

(** Edits keep what is not theirs. *)
Record tame (e : Model -> Model) : Prop := {
  tm_file m p : e (with_file p m) = with_file p (e m);
  tm_name m : m_FileName (e m) = m_FileName m;
  tm_key m : m_Key (e m) = m_Key m;
  tm_deleted m : m_DeletedAt (e m) = m_DeletedAt m
}.

Lemma edits_tame f e : edits f e -> tame e.
Proof. by intros []. Qed.

Lemma edited_ready e k x t g D s s1 index spec :
  tracked D s index spec -> created k x s s1 -> tame e -> edited e x t s1 ->
  storable (e (default (blank k) (spec !! k))) -> free (put_guard g t) ->
  ready k x (put_guard g t) s1 /\ with_file None (t_model t) = e (default (blank k) (spec !! k)).
Proof.
  intros Htr Hct He [_ Hm _] [Hkf Hst] Hfree.
  destruct (current_model _ _ _ _ k Htr) as (Hcm & Hcf & Hck).
  rewrite (ct_model _ _ _ _ Hct) in Hm.
  assert (with_file None (t_model t) = e (default (blank k) (spec !! k))) as Hmodel
    by (by rewrite Hm, <-(tm_file _ He), Hcm).
  split; [|done].
  assert (GetKey (put_guard g t) = k) as Hk
    by (unfold GetKey; cbn [put_guard t_model]; by rewrite Hm, (tm_key _ He)).
  split; [done|done| | |].
  - unfold GetDeletedAt. cbn [put_guard t_model]. rewrite Hm, (tm_deleted _ He), <-(ct_model _ _ _ _ Hct). apply Hct.
  - split; [|split].
    + unfold GetKey. cbn [put_guard t_model]. change (m_Key (t_model t)) with (m_Key (with_file None (t_model t))).
      by rewrite Hmodel.
    + unfold GetFileName. cbn [put_guard t_model]. by rewrite Hm, (tm_name _ He).
    + intros f Hf. cbn [put_guard t_model]. rewrite <-(with_file_idem f None), Hmodel. by apply Hst.
  - unfold GetFileName. cbn [put_guard t_model]. by rewrite Hm, (tm_name _ He), (ct_model _ _ _ _ Hct).
Qed.

(** The save of an edited object, and the release that follows it. *)
Lemma Save_tracked now e k x t D s s1 index spec :
  tracked D s index spec -> durable None s1 index -> created k x s s1 -> tame e -> edited e x t s1 ->
  storable (e (default (blank k) (spec !! k))) ->
  exists s4 st index' D', Save now x 1 (update x t s1) = Next (s4, st) /\ D' ⊆ D /\
    tracked D' (release_guard x 1 s4) index' (<[k := e (default (blank k) (spec !! k))]> spec) /\
    with_file None (t_model (deref s4 x)) = e (default (blank k) (spec !! k)) /\
    match spec !! k with None => st = StatusNew | Some _ => st = StatusModified \/ st = StatusSame end.
Proof.
  intros Htr Hdu1 Hct He Hed Hst. pose proof (ct_in _ _ _ _ Hct) as Hx.
  set (s3 := update x t s1).
  assert (deref s3 x = t) as Hd3 by (unfold s3; by rewrite deref_update, decide_True).
  assert (exists g, free (put_guard g t)) as [g0 Hg0].
  { by exists {| waitForUnlock := []; largestGuardID := 0; bodyAuthID := [] |}. }
  destruct (edited_ready _ _ _ _ _ _ _ _ _ _ Htr Hct He Hed Hst Hg0) as [Hrd Hmodel].
  pose proof (ct_rest _ _ _ _ Hct) as Hr1. injection Hr1 as Hl1 Hw1 Hcl1 Hcf1 Hch1.
  pose proof (tr_spec _ _ _ _ Htr k) as Hspec.
  rewrite Save_held by (rewrite Hd3; apply Hed).
  destruct (SaveFunction_spec now x 1 s3 k) as [(s4 & -> & Hc4 & Hlx & Hchg)|(s4 & Hsv & _ & ->)].
  - apply Hdu1.
  - unfold key_at. rewrite Hd3. exact (rd_key _ _ _ _ Hrd).
  - change (live s3) with (live s1). rewrite Hl1. apply Hct.
  - change (live s3) with (live s1). change (waiting s3) with (waiting s1). intros y Hy Hwy.
    destruct (du_wait _ _ _ Hdu1 _ _ Hwy) as (_ & _ & _ & [Hy'|[Hy' _]]); congruence.
  - change (live s3) with (live s1) in Hlx. rewrite Hl1 in Hlx. rewrite Hd3 in Hchg.
    destruct (ei_changed _ _ _ _ Hed) as [Hor|Hor]; [congruence|].
    destruct (spec !! k) as [m|] eqn:Hm; [|congruence].
    assert (<[k := e (default (blank k) (Some m))]> spec = spec) as ->.
    { apply insert_id. rewrite <-Hmodel, Hor, Hm. destruct Hspec as (y & Hy & <-). assert (y = x) as -> by congruence.
      by rewrite <-(ct_old _ _ _ _ Hct) by apply (du_live _ _ _ (tr_durable _ _ _ _ Htr) _ _ Hlx). }
    eexists s4, _, index, D. split; [done|]. split; [done|]. split; [|split; [|by right]].
    + apply (unchanged_tracked k x t D s s1); try done. apply Hed.
    + by rewrite (core_deref _ _ Hc4), Hd3.
  - destruct (saved_saves k x t s s1 s4 Hct (tr_creating _ _ _ _ Htr) (ei_held _ _ _ _ Hed) Hsv) as (g & Hg & Hsa).
    destruct (edited_ready _ _ _ _ _ _ _ _ _ _ Htr Hct He Hed Hst Hg) as [Hrd' _].
    pose proof (saves_tracked _ _ _ _ _ _ _ _ _ Htr Hdu1 Hct Hsa Hrd') as Htr'.
    cbn [put_guard t_model] in Htr'. rewrite Hmodel in Htr'.
    destruct (write_at_once_tracked _ _ _ _ x Htr') as (s5 & index' & D' & -> & HD & Htr5 & Hm5).
    { rewrite (sv_heap _ _ _ _ Hsv). cbn. by rewrite length_insert. }
    cbn [obind]. eexists _, _, index', D'. split; [done|]. split; [done|]. split; [|split].
    + by apply (tracked_core _ (release_guard x 1 s5)).
    + change (with_file None (t_model (deref s5 x)) = e (default (blank k) (spec !! k))). rewrite Hm5.
      unfold deref. rewrite (sv_heap _ _ _ _ Hsv). fold (deref s3 x). by rewrite Hd3.
    + change (live s3) with (live s1). rewrite Hl1. destruct (spec !! k) as [m|].
      * destruct Hspec as (y & -> & _). rewrite decide_False by done. by left.
      * by rewrite Hspec, decide_True.
Qed.

(** ** Taking a treasure *)

(** A request creates the treasure of a key and takes its guard. *)
Lemma take_tracked k D s index spec :
  tracked D s index spec ->
  exists s1 x g, durable None s1 index /\ created k x s s1 /\ waitForUnlock g = [1] /\
    CreateTreasure k s = Next (s1, x) /\
    start_guard x None s1 = Next (update x (put_guard g (deref s1 x)) s1, 1).
Proof.
  intros Htr. destruct (CreateTreasure_durable s index k (tr_durable _ _ _ _ Htr)) as (s1 & x & E & Hdu1 & Hct).
  destruct (start_guard_free x None s1) as (g & Eg & Hg).
  { by apply (du_guard _ _ _ Hdu1 _ _ (deref_in _ _ (ct_in _ _ _ _ Hct))). }
  by exists s1, x, g.
Qed.

(** Then it edits it. *)
Lemma edit_taken k x g f e s s1 :
  created k x s s1 -> waitForUnlock g = [1] -> edits f e ->
  exists t, edited e x t s1 /\ set_on x f (update x (put_guard g (deref s1 x)) s1) = Next (update x t s1).
Proof.
  intros Hct Hg Hed. destruct (ed_run _ _ Hed (put_guard g (deref s1 x)) Hg) as (t & Et & Hgt & Hmt & _ & Hor).
  exists t. split; [split; [unfold held; by rewrite Hgt|done|done]|].
  unfold set_on. rewrite deref_update, decide_True, Et by (done || apply Hct). cbn [of_panic obind].
  by rewrite update_update.
Qed.

(** Setting a key. *)
Lemma edit_and_save_tracked now k edit e D s index spec :
  tracked D s index spec -> edits (edit 1) e -> storable (e (default (blank k) (spec !! k))) ->
  exists s' index' D' st, edit_and_save now k edit s = Next (s', st) /\ D' ⊆ D /\
    tracked D' s' index' (<[k := e (default (blank k) (spec !! k))]> spec) /\
    match spec !! k with None => st = StatusNew | Some _ => st = StatusModified \/ st = StatusSame end.
Proof.
  intros Htr Hed Hst. destruct (take_tracked k D s index spec Htr) as (s1 & x & g & Hdu1 & Hct & Hg & Ec & Eg).
  destruct (edit_taken k x g _ _ s s1 Hct Hg Hed) as (t & Hei & Es).
  destruct (Save_tracked now e k x t D s s1 index spec Htr Hdu1 Hct (edits_tame _ _ Hed) Hei Hst)
    as (s4 & st & index' & D' & Esv & HD & Htr' & _ & Hstat).
  exists (release_guard x 1 s4), index', D', st. split; [|done].
  unfold edit_and_save. rewrite Ec. cbn [obind]. rewrite Eg. cbn [obind]. rewrite Es. cbn [obind]. by rewrite Esv.
Qed.
End Saving.
