(* ===== verification/Increments.v ===== *)
(** Increments of the eight integer types.

    [increment] reads, decides and writes under one guard; an accepted increment is an edit of
    the treasure ([SwampSteps.v]) that is saved ([Saving.v]). *)
From S2P Require Import Prelude Steps Types Compressor Block FileSys Reader Contents Log Session.
From S2P Require Import Meta Chronicler Durability Guard Treasure Beacon Canon Bucket Swamp Gateway.
From S2P Require Import SwampInv SwampSteps Saving.
#[local] Set Warnings "-clear-no-such-hyp".

(** ** The integer types *)

Inductive int_type : Type := IUint8 | IUint16 | IUint32 | IUint64 | IInt8 | IInt16 | IInt32 | IInt64.

Definition int_tag (w : int_type) : ContentType :=
  match w with
  | IUint8 => ContentTypeUint8 | IUint16 => ContentTypeUint16
  | IUint32 => ContentTypeUint32 | IUint64 => ContentTypeUint64
  | IInt8 => ContentTypeInt8 | IInt16 => ContentTypeInt16
  | IInt32 => ContentTypeInt32 | IInt64 => ContentTypeInt64
  end.
Definition int_get (w : int_type) : treasure -> option Z :=
  match w with
  | IUint8 => GetContentUint8 | IUint16 => GetContentUint16
  | IUint32 => GetContentUint32 | IUint64 => GetContentUint64
  | IInt8 => GetContentInt8 | IInt16 => GetContentInt16
  | IInt32 => GetContentInt32 | IInt64 => GetContentInt64
  end.
Definition int_set (w : int_type) : Z -> Z -> treasure -> option treasure :=
  match w with
  | IUint8 => SetContentUint8 | IUint16 => SetContentUint16
  | IUint32 => SetContentUint32 | IUint64 => SetContentUint64
  | IInt8 => SetContentInt8 | IInt16 => SetContentInt16
  | IInt32 => SetContentInt32 | IInt64 => SetContentInt64
  end.
(** How sums wrap around. *)
Definition wrap (w : int_type) : Z -> Z :=
  match w with
  | IUint8 => u8 | IUint16 => u16 | IUint32 => u32 | IUint64 => u64
  | IInt8 => i8 | IInt16 => i16 | IInt32 => i32 | IInt64 => i64
  end.
Definition int_min (w : int_type) : Z :=
  match w with
  | IUint8 | IUint16 | IUint32 | IUint64 => 0
  | IInt8 => - 2 ^ 7 | IInt16 => - 2 ^ 15 | IInt32 => - 2 ^ 31 | IInt64 => - 2 ^ 63
  end.
Definition int_max (w : int_type) : Z :=
  match w with
  | IUint8 => 2 ^ 8 - 1 | IUint16 => 2 ^ 16 - 1 | IUint32 => 2 ^ 32 - 1 | IUint64 => 2 ^ 64 - 1
  | IInt8 => 2 ^ 7 - 1 | IInt16 => 2 ^ 15 - 1 | IInt32 => 2 ^ 31 - 1 | IInt64 => 2 ^ 63 - 1
  end.

Definition integer_of (w : int_type) : numeric := integer (int_tag w) (int_get w) (int_set w) (wrap w).

Example integers_are_the_swamps :
  map integer_of [IUint8; IUint16; IUint32; IUint64; IInt8; IInt16; IInt32; IInt64] =
  [Uint8_; Uint16_; Uint32_; Uint64_; Int8_; Int16_; Int32_; Int64_].
Proof. reflexivity. Qed.

(** A sum stays in the range of the type, and is off by a multiple of the range's size. *)
Lemma wrap_range w z : int_min w <= wrap w z <= int_max w.
Proof.
  destruct w; cbn; unfold u8, u16, u32, u64, i8, i16, i32, i64;
    match goal with |- context [?a mod ?n] => pose proof (Z.mod_pos_bound a n eq_refl) end; lia.
Qed.
Lemma wrap_congruent w z : exists q, wrap w z = z + q * (int_max w - int_min w + 1).
Proof.
  destruct w; cbn; unfold u8, u16, u32, u64, i8, i16, i32, i64;
    match goal with |- context [?a mod ?n] =>
      exists (- (a / n)); pose proof (Z.div_mod a n ltac:(discriminate)) end; lia.
Qed.

Definition field (w : int_type) (m : Model) : option Z :=
  int_get w {| t_model := m; t_guard := Guard.New; t_flags := no_flags |}.

Lemma field_spec w t : int_get w t = field w (t_model t).
Proof. by destruct w. Qed.
Lemma field_file w f m : field w (with_file f m) = field w m.
Proof. by destruct w. Qed.

(** The number a treasure without content, or of the type, is taken to have. *)
Definition number_at (w : int_type) (m : Model) : option Z :=
  let ct := GetContentType {| t_model := m; t_guard := Guard.New; t_flags := no_flags |} in
  if decide (ct = ContentTypeVoid) then Some 0
  else if decide (ct = int_tag w) then field w m else None.

Definition is_void (m : Model) : bool :=
  bool_decide (GetContentType {| t_model := m; t_guard := Guard.New; t_flags := no_flags |} = ContentTypeVoid).

(** ** The edits of an increment *)

Definition int_field (w : int_type) : Content -> option Z :=
  match w with
  | IUint8 => c_Uint8 | IUint16 => c_Uint16 | IUint32 => c_Uint32 | IUint64 => c_Uint64
  | IInt8 => c_Int8 | IInt16 => c_Int16 | IInt32 => c_Int32 | IInt64 => c_Int64
  end.
Definition only_int (w : int_type) : Z -> Content :=
  match w with
  | IUint8 => only_Uint8 | IUint16 => only_Uint16 | IUint32 => only_Uint32 | IUint64 => only_Uint64
  | IInt8 => only_Int8 | IInt16 => only_Int16 | IInt32 => only_Int32 | IInt64 => only_Int64
  end.
Lemma field_content w m : field w m = (c ← m_Content m; int_field w c).
Proof. by destruct w. Qed.
Lemma int_set_content w z : int_set w 1 z = with_guard 1 (set_content eqd (int_field w) (only_int w z) z).
Proof. by destruct w. Qed.

Lemma set_number w z : exists e, edits (int_set w 1 z) e /\ forall m, field w (e m) = Some z.
Proof.
  rewrite int_set_content. eexists. split; [apply edits_set_content|]. intros m. cbn beta.
  rewrite field_content. destruct (c ← m_Content m; int_field w c) as [old|] eqn:Hold; [|by destruct w].
  destruct (eqd old z) eqn:E; [|by destruct w].
  apply bool_decide_eq_true in E. by rewrite Hold, E.
Qed.

(** [setMetaForIncrement], on a treasure. *)
Definition meta_edit (now : Z) (q : IncrementMetadataRequest) : treasure -> option treasure :=
  fun t => t ← (if q_SetCreatedAt q then SetCreatedAt 1 now else Some) t;
           t ← (if decide (q_CreatedBy q <> []) then SetCreatedBy 1 (q_CreatedBy q) else Some) t;
           t ← (if q_SetUpdatedAt q then SetModifiedAt 1 now else Some) t;
           t ← (if decide (q_UpdatedBy q <> []) then SetModifiedBy 1 (q_UpdatedBy q) else Some) t;
           (if IsZero (q_ExpiredAt q) then Some else SetExpirationTime 1 (q_ExpiredAt q)) t.

Definition meta_of (now : Z) (o : option IncrementMetadataRequest) : treasure -> option treasure :=
  match o with Some q => meta_edit now q | None => Some end.

Lemma edits_if (b : bool) f : (exists e, edits f e) -> exists e, edits (if b then f else Some) e.
Proof. intros He. destruct b; [done|]. eexists. apply edits_id. Qed.

(** The metadata leave the content alone. *)
Lemma meta_edits now o :
  exists e, edits (meta_of now o) e /\ forall m, m_Content (e m) = m_Content m.
Proof.
  assert (exists e, edits (meta_of now o) e) as [e He].
  { destruct o as [q|]; [|eexists; apply edits_id]. unfold meta_of, meta_edit.
    apply (edits_bind _ (fun t => t ← (if decide (q_CreatedBy q <> []) then _ else Some) t; _));
      [apply edits_if, edits_CreatedAt|].
    apply (edits_bind _ (fun t => t ← (if q_SetUpdatedAt q then _ else Some) t; _));
      [case_decide; [apply edits_CreatedBy|eexists; apply edits_id]|].
    apply (edits_bind _ (fun t => t ← (if decide (q_UpdatedBy q <> []) then _ else Some) t; _));
      [apply edits_if, edits_ModifiedAt|].
    apply edits_bind; [case_decide; [apply edits_ModifiedBy|eexists; apply edits_id]|].
    destruct (IsZero _); [eexists; apply edits_id|apply edits_ExpirationTime]. }
  exists e. split; [done|]. intros m. rewrite <-(edits_model _ _ m He). unfold model_edit.
  destruct o as [q|]; [|done]. unfold meta_of, meta_edit.
  destruct (q_SetCreatedAt q), (decide (q_CreatedBy q <> [])), (q_SetUpdatedAt q),
    (decide (q_UpdatedBy q <> [])), (IsZero (q_ExpiredAt q)); reflexivity.
Qed.

(** The treasure before the branches decide: it has a number, and the metadata asked for. *)
Definition prepare_edit (w : int_type) (now : Z) (void : bool) (ifNotExist ifExist : option IncrementMetadataRequest) :
    treasure -> option treasure :=
  if void then fun t => int_set w 1 0 t ≫= meta_of now ifNotExist else meta_of now ifExist.

(** What an accepted increment makes of a model. *)
Definition incremented (w : int_type) (now : Z) (i : Z) (ifNotExist ifExist : option IncrementMetadataRequest)
    (m : Model) : Model :=
  model_edit (fun t => prepare_edit w now (is_void m) ifNotExist ifExist t ≫=
                       int_set w 1 (wrap w (default 0 (number_at w m) + i))) m.

(** What a refused increment makes of the object it looked at: the zero of the type where there
    was no content, and the metadata. *)
Definition marked (w : int_type) (now : Z) (ifNotExist ifExist : option IncrementMetadataRequest) (m : Model) : Model :=
  model_edit (prepare_edit w now (is_void m) ifNotExist ifExist) m.

(** ** The request *)

Section Increments.
Context `{SI : Store} `{GM : GobModel} `{GMeta : GobMeta} `{FI : FloatToInt} `{MP : Msgpack} `{SR : SlotRange}.
Context `{HR : KeyRange} `{HS : SortSlice} `{HROk : !KeyRangeOk} `{HOk : !StoreOk}.

Definition heap_size (s : swamp) : nat := length (heap (data s)).

Lemma heap_size_update x t s : heap_size (update x t s) = heap_size s.
Proof. unfold heap_size. cbn. by rewrite length_insert. Qed.

Lemma set_on_id (x : nat) s : (x < heap_size s)%nat -> set_on x Some s = Next s.
Proof.
  intros Hx. unfold set_on. cbn [of_panic obind]. f_equal. destruct (lookup_lt_is_Some_2 _ _ Hx) as [t Ht].
  rewrite (deref_lookup _ _ _ Ht). assert (<[x := t]> (heap (data s)) = heap (data s)) as E by by apply list_insert_id.
  unfold update, on_heap, on_data. cbn beta. rewrite E. by destruct s as [[]].
Qed.

Lemma set_on_bind (x : nat) f g s k :
  (x < heap_size s)%nat -> (forall s', heap_size s' = heap_size s -> k s' = set_on x g s') ->
  (let! s := set_on x f s in k s) = set_on x (fun t => f t ≫= g) s.
Proof.
  intros Hx Hk. unfold set_on. destruct (f (deref s x)) as [t|]; [|done]. cbn [of_panic obind mbind option_bind].
  rewrite Hk by apply heap_size_update. unfold set_on. rewrite deref_update, decide_True by done.
  destruct (g t) as [t'|]; [|done]. cbn [of_panic obind]. by rewrite update_update.
Qed.

Lemma set_on_if (x : nat) (b : bool) f s :
  (x < heap_size s)%nat -> (if b then set_on x f s else Next s) = set_on x (if b then f else Some) s.
Proof. intros Hx. destruct b; [done|]. by rewrite set_on_id. Qed.
Lemma set_on_when (x : nat) (P : Prop) `{Decision P} f s :
  (x < heap_size s)%nat -> (if decide P then set_on x f s else Next s) = set_on x (if decide P then f else Some) s.
Proof. intros Hx. case_decide; [done|]. by rewrite set_on_id. Qed.

Lemma set_meta_on now (x : nat) o s :
  (x < heap_size s)%nat ->
  match o with Some q => setMetaForIncrement now x 1 q s | None => Next s end = set_on x (meta_of now o) s.
Proof.
  intros Hx. destruct o as [q|]; [|by rewrite set_on_id]. unfold setMetaForIncrement, meta_of, meta_edit.
  rewrite set_on_if by done. apply set_on_bind; [done|]. intros s1 Hs1.
  rewrite set_on_when by lia. apply set_on_bind; [lia|]. intros s2 Hs2.
  rewrite set_on_if by lia. apply set_on_bind; [lia|]. intros s3 Hs3.
  rewrite set_on_when by lia. apply set_on_bind; [lia|]. intros s4 Hs4.
  destruct (IsZero _); [by rewrite set_on_id by lia|done].
Qed.

(** The look before [CreateTreasure] changes nothing. *)
Lemma get_or_create k s :
  exists s0, core s0 = core s /\
    match key_Get k s with (s, Some x) => Next (s, x) | (s, None) => CreateTreasure k s end = CreateTreasure k s0.
Proof.
  destruct (key_Get_spec k s) as (s0 & E & Hc0). destruct (live s !! k) as [x|] eqn:Hl.
  - exists s. split; [done|]. unfold CreateTreasure. by rewrite E.
  - exists s0. by rewrite E.
Qed.

Definition refused_by (w : int_type) (condition : option (IncrementCondition Z)) (v : Z) : bool :=
  match condition with Some c => refused (integer_of w) c v | None => false end.

(** What the reply tells of the metadata. *)
Definition response (m : Model) : option IncrementMetadataResponse :=
  createMetaForIncrementResponse {| t_model := m; t_guard := Guard.New; t_flags := no_flags |}.
Lemma response_spec t m : with_file None (t_model t) = m -> createMetaForIncrementResponse t = response m.
Proof. by intros <-. Qed.

(** The end of an increment, after the treasure has its number and metadata. *)
Definition finish (w : int_type) (now : Z) (x : loc) (i : Z) (condition : option (IncrementCondition Z)) (s : swamp) :
    outcome (swamp * option (Z * bool * option IncrementMetadataResponse)) :=
  match int_get w (deref s x) with
  | None => Next (s, None)
  | Some v =>
      if refused_by w condition v then Next (s, Some (v, false, createMetaForIncrementResponse (deref s x)))
      else let! s := set_on x (int_set w 1 (wrap w (v + i))) s in
           let! (s, _) := Save now x 1 s in
           Next (s, Some (wrap w (v + i), true, createMetaForIncrementResponse (deref s x)))
  end.

Lemma increment_guarded_spec w now (x : nat) i condition ine ie s v :
  (x < heap_size s)%nat -> number_at w (t_model (deref s x)) = Some v ->
  increment_guarded (integer_of w) now x 1 i condition ine ie s =
    let! s := set_on x (prepare_edit w now (is_void (t_model (deref s x))) ine ie) s in
    finish w now x i condition s.
Proof.
  intros Hx Hv. unfold increment_guarded, prepare_edit, is_void. unfold number_at in Hv.
  change (GetContentType {| t_model := t_model (deref s x); t_guard := Guard.New; t_flags := no_flags |})
    with (GetContentType (deref s x)) in *.
  case_decide as Hvoid.
  - rewrite bool_decide_true by done. rewrite <-(set_on_bind x _ _ s (set_on x (meta_of now ine))) by done.
    cbn [n_set n_zero integer_of integer]. destruct (set_on x (int_set w 1 0) s) as [| |s1] eqn:E; [done|done|].
    cbn [obind]. rewrite set_meta_on; [done|].
    unfold set_on in E. destruct (int_set w 1 0 (deref s x)); [|done]. injection E as <-. by rewrite heap_size_update.
  - rewrite bool_decide_false by done. change (n_type (integer_of w)) with (int_tag w).
    case_decide; [|done]. by rewrite set_meta_on.
Qed.

Lemma tagged_field w t : GetContentType t = int_tag w -> is_Some (field w (t_model t)).
Proof.
  unfold GetContentType. rewrite field_content. destruct (m_Content (t_model t)) as [c|]; [|by destruct w].
  cbn. intros Ht. destruct w; cbn in *; repeat case_match; try discriminate;
    match goal with |- is_Some (?f c) => by destruct (f c) end.
Qed.

Lemma increment_guarded_error w now (x : nat) i condition ine ie s :
  number_at w (t_model (deref s x)) = None ->
  increment_guarded (integer_of w) now x 1 i condition ine ie s = Next (s, None).
Proof.
  unfold number_at, increment_guarded.
  change (GetContentType {| t_model := t_model (deref s x); t_guard := Guard.New; t_flags := no_flags |})
    with (GetContentType (deref s x)).
  case_decide; [done|]. change (n_type (integer_of w)) with (int_tag w).
  case_decide as Ht; [|done]. intros Hf. destruct (tagged_field _ _ Ht). congruence.
Qed.

Lemma number_file w f m : number_at w (with_file f m) = number_at w m.
Proof. unfold number_at. by rewrite field_file. Qed.

(** The number is there when the branches are decided. *)
Lemma prepared w now void v ine ie m :
  number_at w m = Some v -> void = is_void m ->
  exists e, edits (prepare_edit w now void ine ie) e /\ field w (e m) = Some v.
Proof.
  intros Hv ->. unfold prepare_edit. destruct (meta_edits now (if is_void m then ine else ie)) as (e & He & Hc).
  unfold number_at, is_void in *. case_decide as Ht; cbn in *.
  - rewrite bool_decide_true in * by done. destruct (set_number w 0) as (e0 & He0 & H0). injection Hv as <-.
    eexists. split; [by apply edits_then|]. cbn beta. rewrite field_content, Hc, <-field_content. apply H0.
  - rewrite bool_decide_false in * by done. exists e. split; [done|].
    case_decide; [|done]. rewrite field_content, Hc, <-field_content. done.
Qed.

(** A refused increment: the object of the key has the model [m'], reserved when the key is not
    there; nothing else of the swamp has changed, and nothing is written or waits to be. *)
Record marked_only (k : bytes) (m' : Model) (s s' : swamp) : Prop := {
  mo_storage : chron s' = chron s;
  mo_waiting : waiting s' = waiting s;
  mo_live : live s' = live s;
  mo_others k' y : k' <> k -> live s !! k' = Some y -> deref s' y = deref s y;
  mo_there y : live s !! k = Some y -> with_file None (t_model (deref s' y)) = m';
  mo_reserved : live s !! k = None ->
    exists y, creatingTreasures (data s') !! k = Some y /\ with_file None (t_model (deref s' y)) = m'
}.

(** ** The three outcomes *)

Section Request.
Context (w : int_type) (now : Z) (k : bytes) (i : Z) (condition : option (IncrementCondition Z)).
Context (ine ie : option IncrementMetadataRequest) (D : gset bytes) (s : swamp) (index : gmap bytes bytes).
Context (spec : gmap bytes Model).
Hypothesis Htr : tracked D s index spec.
#[local] Abbreviation m := (default (blank k) (spec !! k)).
#[local] Abbreviation out := (increment (integer_of w) now k i condition ine ie s).

(** Up to the guarded part, with the treasure's model. *)
Lemma increment_taken :
  exists s0 s1 x g, core s0 = core s /\ tracked D s0 index spec /\ durable None s1 index /\ created k x s0 s1 /\ waitForUnlock g = [1] /\
    with_file None (t_model (deref s1 x)) = m /\
    out = let! (s, r) := increment_guarded (integer_of w) now x 1 i condition ine ie
                           (update x (put_guard g (deref s1 x)) s1) in
          Next (release_guard x 1 s, r).
Proof.
  destruct (get_or_create k s) as (s0 & Hc0 & Eg). pose proof (tracked_core _ _ _ _ _ Hc0 Htr) as Htr0.
  destruct (take_tracked k D s0 index spec Htr0) as (s1 & x & g & Hdu1 & Hct & Hg & Ec & Es).
  exists s0, s1, x, g. do 5 (split; [done|]). split.
  - rewrite (ct_model _ _ _ _ Hct). by apply (current_model D s0 index).
  - unfold increment. rewrite Eg, Ec. cbn [obind]. by rewrite Es.
Qed.

Lemma increment_error :
  number_at w m = None -> exists s', out = Next (s', None) /\ tracked D s' index spec.
Proof.
  intros Hn. destruct increment_taken as (s0 & s1 & x & g & Hc0 & Htr0 & Hdu1 & Hct & Hg & Hm & ->).
  pose proof (ct_in _ _ _ _ Hct) as Hx.
  rewrite increment_guarded_error.
  2:{ rewrite deref_update, decide_True by done. cbn [put_guard t_model]. by rewrite <-(number_file w None), Hm. }
  cbn [obind]. eexists. split; [done|].
  apply (unchanged_tracked k x (put_guard g (deref s1 x)) D s0 s1); try done.
  pose proof (tr_spec _ _ _ _ Htr0 k) as Hs. destruct (spec !! k); [|done]. by destruct Hs as (y & -> & _).
Qed.

(** The object is changed and given back. *)
Lemma taken_marked s0 s1 (x : nat) t m' :
  core s0 = core s -> created k x s0 s1 -> held t -> with_file None (t_model t) = m' ->
  marked_only k m' s (release_guard x 1 (update x t s1)).
Proof.
  intros Hc Hct Ht Hm. pose proof (ct_in _ _ _ _ Hct) as Hx. pose proof (tr_durable _ _ _ _ Htr) as Hdu.
  destruct (release_held x (update x t s1)) as (g & -> & _); [by rewrite deref_update, decide_True|].
  rewrite update_update. set (t' := put_guard g _). assert (with_file None (t_model t') = m') as Hm'
    by (unfold t'; by rewrite deref_update, decide_True).
  assert (deref (update x t' s1) x = t') as Hdx by (by rewrite deref_update, decide_True).
  destruct (core_fields _ _ Hc) as (_ & Hl & Hw & Hcs). injection Hcs as _ _ Hch _ _.
  pose proof (ct_rest _ _ _ _ Hct) as Hr. injection Hr as Hrl Hrw _ _ Hrc. split; cbn [update on_heap on_data data chron].
  - congruence.
  - transitivity (waiting s1); [done|congruence].
  - transitivity (live s1); [done|congruence].
  - intros k' y Hne Hy. destruct (du_live _ _ _ Hdu _ _ Hy) as (Hin & Hk & _).
    assert (deref s1 y = deref s y) as Hd.
    { rewrite (ct_old _ _ _ _ Hct), (core_deref _ _ Hc); [done|]. injection Hc as Hh. by rewrite Hh. }
    rewrite deref_update, decide_False; [done| |done]. intros ->. apply Hne. rewrite <-Hk, <-(ct_key _ _ _ _ Hct).
    unfold key_at. by rewrite Hd.
  - intros y Hy. rewrite <-Hl in Hy. apply (ct_one _ _ _ _ Hct) in Hy as ->. by rewrite Hdx.
  - intros Hn. rewrite <-Hl in Hn. exists x. rewrite Hdx. split; [|done].
    transitivity (creatingTreasures (data s1) !! k); [done|]. by rewrite (ct_new _ _ _ _ Hct Hn), lookup_insert_eq.
Qed.

Lemma increment_refused v :
  number_at w m = Some v -> refused_by w condition v = true ->
  let m' := marked w now ine ie m in
  exists s', out = Next (s', Some (v, false, response m')) /\ marked_only k m' s s' /\
    (is_void m = false -> ie = None -> m' = m /\ tracked D s' index spec).
Proof.
  intros Hv Href. destruct increment_taken as (s0 & s1 & x & g & Hc0 & Htr0 & Hdu1 & Hct & Hg & Hm & ->).
  pose proof (ct_in _ _ _ _ Hct) as Hx. set (s2 := update x (put_guard g (deref s1 x)) s1).
  assert (x < heap_size s2)%nat as Hx2 by (unfold s2; by rewrite heap_size_update).
  assert (t_model (deref s2 x) = t_model (deref s1 x)) as Hm2 by (unfold s2; by rewrite deref_update, decide_True).
  assert (number_at w (t_model (deref s1 x)) = Some v /\ is_void (t_model (deref s1 x)) = is_void m) as [Hv1 Hvo].
  { split; [by rewrite <-(number_file w None), Hm|by rewrite <-Hm]. }
  rewrite (increment_guarded_spec _ _ _ _ _ _ _ _ v) by (done || by rewrite Hm2). rewrite Hm2, Hvo.
  destruct (prepared w now (is_void m) v ine ie (t_model (deref s1 x)) Hv1 (eq_sym Hvo)) as (e & He & Hf).
  destruct (edit_taken k x g _ e s0 s1 Hct Hg He) as (t & Hei & Es). fold s2 in Es. rewrite Es. cbn [obind].
  assert (deref (update x t s1) x = t) as Hdt by (by rewrite deref_update, decide_True).
  assert (with_file None (t_model t) = marked w now ine ie m) as Em.
  { unfold marked. rewrite (edits_model _ _ m He), (ei_model _ _ _ _ Hei), <-Hm. by rewrite (ed_file _ _ He). }
  unfold finish. rewrite Hdt, field_spec, (ei_model _ _ _ _ Hei), Hf, Href. cbn [obind]. rewrite (response_spec _ _ Em).
  eexists. split; [done|]. split; [by apply (taken_marked s0); [..|apply Hei|]|]. intros Hnv Hie. subst ie.
  assert (marked w now ine None m = m) as Emm by (unfold marked; by rewrite Hnv).
  rewrite Hnv in Es. unfold prepare_edit, meta_of in Es. rewrite set_on_id in Es by done.
  assert (s2 = update x t s1) as Es2 by congruence.
  assert (t = put_guard g (deref s1 x)) as ->.
  { rewrite <-Hdt, <-Es2. unfold s2. by rewrite deref_update, decide_True. }
  split; [exact Emm|].
  apply (unchanged_tracked k x (put_guard g (deref s1 x)) D s0 s1); try done.
  pose proof (tr_spec _ _ _ _ Htr0 k) as Hs. destruct (spec !! k); [|done]. by destruct Hs as (y & -> & _).
Qed.

Lemma increment_accepted v :
  number_at w m = Some v -> refused_by w condition v = false ->
  let m' := incremented w now i ine ie m in
  storable m' ->
  field w m' = Some (wrap w (v + i)) /\
  exists s' index' D', out = Next (s', Some (wrap w (v + i), true, response m')) /\ D' ⊆ D /\
    tracked D' s' index' (<[k := m']> spec).
Proof.
  intros Hv Href m' Hst. destruct increment_taken as (s0 & s1 & x & g & Hc0 & Htr0 & Hdu1 & Hct & Hg & Hm & ->).
  pose proof (ct_in _ _ _ _ Hct) as Hx. set (s2 := update x (put_guard g (deref s1 x)) s1).
  assert (x < heap_size s2)%nat as Hx2 by (unfold s2; by rewrite heap_size_update).
  assert (t_model (deref s2 x) = t_model (deref s1 x)) as Hm2 by (unfold s2; by rewrite deref_update, decide_True).
  assert (number_at w (t_model (deref s1 x)) = Some v /\ is_void (t_model (deref s1 x)) = is_void m) as [Hv1 Hvo].
  { split; [by rewrite <-(number_file w None), Hm|by rewrite <-Hm]. }
  destruct (prepared w now (is_void m) v ine ie (t_model (deref s1 x)) Hv1 (eq_sym Hvo)) as (e1 & He1 & Hf1).
  destruct (set_number w (wrap w (v + i))) as (e2 & He2 & Hf2).
  pose proof (edits_then _ _ _ _ He1 He2) as He.
  assert (m' = e2 (e1 m)) as Em.
  { unfold m', incremented. rewrite Hv. apply (edits_model _ _ m He). }
  rewrite (increment_guarded_spec _ _ _ _ _ _ _ _ v) by (done || by rewrite Hm2). rewrite Hm2, Hvo.
  destruct (edit_taken k x g _ e1 s0 s1 Hct Hg He1) as (t1 & Hei1 & Es1). fold s2 in Es1.
  destruct (edit_taken k x g _ _ s0 s1 Hct Hg He) as (t & Hei & Es). fold s2 in Es.
  rewrite <-(set_on_bind x _ _ s2 (set_on x (int_set w 1 (wrap w (v + i))))) in Es by done.
  rewrite Es1 in *. cbn [obind] in *. unfold finish.
  rewrite deref_update, decide_True by done. rewrite field_spec, (ei_model _ _ _ _ Hei1), Hf1, Href, Es. cbn [obind].
  destruct (Save_tracked now _ k x t D s0 s1 index spec Htr0 Hdu1 Hct (edits_tame _ _ He) Hei)
    as (s4 & st & index' & D' & -> & HD & Htr4 & Hm4 & _); [by rewrite <-Em|].
  cbn [obind]. split; [by rewrite Em|]. rewrite <-Em in Htr4, Hm4.
  exists (release_guard x 1 s4), index', D'. by rewrite (response_spec _ _ Hm4).
Qed.
End Request.
End Increments.
