(* ===== verification/SwampPatch.v ===== *)
(** Patching a treasure in a swamp: [swamp_patch.go], and what a patch makes of the abstract
    state. *)
From Stdlib Require Import Floats.SpecFloat.
From S2P Require Import Prelude Steps Types Compressor Block FileSys Reader Contents Log Session.
From S2P Require Import Meta Chronicler Durability Guard Treasure Beacon Canon Bucket Swamp Gateway SwampInv SwampSteps.
From S2P Require Import Saving Increments PatchPath Skeleton PatchOps.
#[local] Set Warnings "-clear-no-such-hyp".

(** ** Data *)

Inductive PatchFieldsStatus : Type :=
| PatchStatusPatched | PatchStatusCreated | PatchStatusKeyNotFound | PatchStatusConditionNotMet
| PatchStatusFieldNotFound | PatchStatusTypeMismatch | PatchStatusPathInvalid
| PatchStatusEncodingNotSupported | PatchStatusInternalError | PatchStatusCapExceeded.

#[export] Instance PatchFieldsStatus_eq_dec : EqDecision PatchFieldsStatus.
Proof. solve_decision. Defined.

Record PatchFieldsMeta := {
  pm_SetUpdatedAt : bool; pm_SetUpdatedBy : bytes; pm_SetCreatedAt : bool; pm_SetCreatedBy : bytes;
  pm_SetExpiredAt : Z; pm_ClearExpiredAt : bool
}.

(** [CapBudgetLeft] is a pointer that the calls of a batch share: it is passed and returned. *)
Record PatchFieldsOptions := {
  CreateIfNotExist : bool; InitialMsgpackOnCreate : bytes; pf_Meta : option PatchFieldsMeta;
  CapPredicate : option (bytes -> bool)
}.

Definition patchMsgpackMagic0 : byte := xc7.
Definition patchMsgpackMagic1 : byte := x00.
Definition emptyMapMsgpack : bytes := [x80].

Definition wrapMsgpackBody (body : bytes) : bytes := patchMsgpackMagic0 :: patchMsgpackMagic1 :: body.

Definition classifyPatchError (e : patch_err) : PatchFieldsStatus :=
  match e with
  | ErrConditionNotMet => PatchStatusConditionNotMet
  | ErrTypeMismatch => PatchStatusTypeMismatch
  | ErrPathInvalid | ErrInvalidOp => PatchStatusPathInvalid
  | ErrInvalidMsgpack | ErrNonStringKey => PatchStatusEncodingNotSupported
  | OutOfFuel => PatchStatusInternalError
  end.

(** [applyPatchMeta], on a treasure whose guard is held. *)
Definition applyPatchMeta (now guardID : Z) (meta : option PatchFieldsMeta) (onCreate : bool) (t : treasure) : option treasure :=
  match meta with
  | None => Some t
  | Some meta =>
      t ← (if pm_SetUpdatedAt meta then SetModifiedAt guardID now else Some) t;
      t ← (if decide (pm_SetUpdatedBy meta <> []) then SetModifiedBy guardID (pm_SetUpdatedBy meta) else Some) t;
      t ← (if onCreate && pm_SetCreatedAt meta then SetCreatedAt guardID now else Some) t;
      t ← (if onCreate && negb (bool_decide (pm_SetCreatedBy meta = [])) then SetCreatedBy guardID (pm_SetCreatedBy meta) else Some) t;
      (if pm_ClearExpiredAt meta then SetExpirationTime guardID zero_time
       else if IsZero (pm_SetExpiredAt meta) then Some else SetExpirationTime guardID (pm_SetExpiredAt meta)) t
  end.

Section SwampPatch.
Context `{SI : Store} `{GM : GobModel} `{GMeta : GobMeta} `{FI : FloatToInt} `{MP : Msgpack} `{SR : SlotRange}.
Context `{HR : KeyRange} `{HS : SortSlice} `{MC : MsgpackCodec}.

(** ** The request *)

Definition seed_of (opts : PatchFieldsOptions) : bytes :=
  if decide (InitialMsgpackOnCreate opts = []) then emptyMapMsgpack else InitialMsgpackOnCreate opts.

(** The body to patch and whether it is a new one, or the status that ends the call. *)
Definition input_of (opts : PatchFieldsOptions) (t : treasure) : PatchFieldsStatus + bytes * bool :=
  match GetContentType t with
  | ContentTypeVoid => if CreateIfNotExist opts then inr (seed_of opts, true) else inl PatchStatusKeyNotFound
  | ContentTypeByteArray =>
      match GetContentByteArray t with
      | None => inl PatchStatusInternalError
      | Some (b0 :: b1 :: body) =>
          if bool_decide (b0 = patchMsgpackMagic0) && bool_decide (b1 = patchMsgpackMagic1)
          then inr (body, false) else inl PatchStatusEncodingNotSupported
      | Some _ => inl PatchStatusEncodingNotSupported
      end
  | _ => inl PatchStatusTypeMismatch
  end.

(** The check of the cap: the budget left, [None] when the patch is refused. *)
Definition cap_check (opts : PatchFieldsOptions) (isCreate : bool) (pre post : bytes) (budget : Z) : option Z :=
  match CapPredicate opts with
  | None => Some budget
  | Some matches =>
      let preMatched := negb isCreate && matches pre in
      if negb preMatched && matches post then (if budget <=? 0 then None else Some (budget - 1)) else Some budget
  end.

(** What the guarded part decides before it changes the treasure: the new body, whether it is
    created, and the budget left. *)
Definition decide_patch (ops : list Op) (condition : option Condition) (opts : PatchFieldsOptions) (budget : Z)
    (t : treasure) : PatchFieldsStatus + bytes * bool * Z :=
  match input_of opts t with
  | inl status => inl status
  | inr (inputBody, isCreate) =>
      match ApplyWithCondition inputBody ops condition with
      | Fails e => inl (classifyPatchError e)
      | Fine out =>
          match cap_check opts isCreate inputBody out budget with
          | None => inl PatchStatusCapExceeded
          | Some rest => inr (out, isCreate, rest)
          end
      end
  end.

Definition patch_edit (now guardID : Z) (out : bytes) (isCreate : bool) (opts : PatchFieldsOptions) (t : treasure) : option treasure :=
  t ← SetContentByteArray guardID (Some (wrapMsgpackBody out)) t;
  applyPatchMeta now guardID (pf_Meta opts) isCreate t.

(** [PatchFields]: the swamp, the status with [NewMsgpack], and the budget. *)
Definition PatchFields (now : Z) (key : bytes) (ops : list Op) (condition : option Condition)
    (opts : PatchFieldsOptions) (budget : Z) (s : swamp) :
    outcome (swamp * (PatchFieldsStatus * option bytes) * Z) :=
  let '(s, early) := if CreateIfNotExist opts then (s, false) else
                       let '(s, o) := key_Get key s in (s, bool_decide (o = None)) in
  if early then Next (s, (PatchStatusKeyNotFound, None), budget) else
  match (if CreateIfNotExist opts then Parse (seed_of opts) else Fine (MapNode [])) with
  | Fails _ => Next (s, (PatchStatusTypeMismatch, None), budget)
  | Fine _ =>
      let! (s, x, createdNew) :=
        match key_Get key s with
        | (s, Some x) => Next (s, x, false)
        | (s, None) => let! (s, x) := CreateTreasure key s in Next (s, x, true)
        end in
      let! (s, guardID) := start_guard x None s in
      match decide_patch ops condition opts budget (deref s x) with
      | inl status =>
          let s := if createdNew then on_creating (fun m => delete key m) s else s in
          Next (release_guard x guardID s, (status, None), budget)
      | inr (out, isCreate, rest) =>
          let! s := set_on x (patch_edit now guardID out isCreate opts) s in
          let! (s, _) := Save now x guardID s in
          Next (release_guard x guardID s,
                (if isCreate then PatchStatusCreated else PatchStatusPatched, Some out), rest)
      end
  end.

(** ** On the abstract state *)

Context `{HROk : !KeyRangeOk} `{HOk : !StoreOk}.

Definition bare (m : Model) : treasure := {| t_model := m; t_guard := Guard.New; t_flags := no_flags |}.

Definition body_of (m : Model) : option bytes := c ← m_Content m; c_ByteArray c.

Lemma decide_patch_content ops condition opts budget t t' :
  m_Content (t_model t) = m_Content (t_model t') ->
  decide_patch ops condition opts budget t = decide_patch ops condition opts budget t'.
Proof.
  intros Hc. unfold decide_patch, input_of, GetContentType, GetContentByteArray. by rewrite Hc.
Qed.

Lemma meta_patch_edits now meta onCreate :
  exists e, edits (applyPatchMeta now 1 meta onCreate) e /\ forall m, m_Content (e m) = m_Content m.
Proof.
  assert (exists e, edits (applyPatchMeta now 1 meta onCreate) e) as [e He].
  { destruct meta as [q|]; [|eexists; apply edits_id]. unfold applyPatchMeta.
    apply (edits_bind _ (fun t => t ← (if decide (pm_SetUpdatedBy q <> []) then _ else Some) t; _));
      [apply edits_if, edits_ModifiedAt|].
    apply (edits_bind _ (fun t => t ← (if onCreate && pm_SetCreatedAt q then _ else Some) t; _));
      [case_decide; [apply edits_ModifiedBy|eexists; apply edits_id]|].
    apply (edits_bind _ (fun t => t ← (if onCreate && negb (bool_decide (pm_SetCreatedBy q = [])) then _ else Some) t; _));
      [apply edits_if, edits_CreatedAt|].
    apply edits_bind; [apply edits_if, edits_CreatedBy|].
    destruct (pm_ClearExpiredAt q); [apply edits_ExpirationTime|].
    destruct (IsZero _); [eexists; apply edits_id|apply edits_ExpirationTime]. }
  exists e. split; [done|]. intros m. rewrite <-(edits_model _ _ m He). unfold model_edit, applyPatchMeta.
  destruct meta as [q|]; [|done].
  destruct (pm_SetUpdatedAt q), (decide (pm_SetUpdatedBy q <> [])), (onCreate && pm_SetCreatedAt q),
    (onCreate && negb (bool_decide (pm_SetCreatedBy q = []))), (pm_ClearExpiredAt q), (IsZero (pm_SetExpiredAt q)); reflexivity.
Qed.

Lemma set_body b : exists e, edits (SetContentByteArray 1 (Some b)) e /\ forall m, body_of (e m) = Some b.
Proof.
  eexists. split; [apply (edits_set_content eqd c_ByteArray (only_ByteArray (Some b)) b)|]. intros m. cbn beta. unfold body_of.
  destruct (c ← m_Content m; c_ByteArray c) as [old|] eqn:Hold; [|done].
  destruct (eqd old b) eqn:E; [|done]. apply bool_decide_eq_true in E. by rewrite Hold, E.
Qed.

Lemma patch_edit_edits now out isCreate opts :
  exists e, edits (patch_edit now 1 out isCreate opts) e /\ forall m, body_of (e m) = Some (wrapMsgpackBody out).
Proof.
  destruct (set_body (wrapMsgpackBody out)) as (e1 & He1 & H1).
  destruct (meta_patch_edits now (pf_Meta opts) isCreate) as (e2 & He2 & H2).
  exists (fun m => e2 (e1 m)). split; [by apply edits_then|]. intros m. unfold body_of. rewrite H2. apply H1.
Qed.

(** The look before [CreateTreasure] changes nothing. *)
Lemma found_or_created k s :
  exists s0, core s0 = core s /\
    match key_Get k s with
    | (s, Some x) => Next (s, x, false)
    | (s, None) => let! (s, x) := CreateTreasure k s in Next (s, x, true)
    end = let! (s, x) := CreateTreasure k s0 in Next (s, x, bool_decide (live s0 !! k = None)).
Proof.
  destruct (key_Get_spec k s) as (s0 & E & Hc0). destruct (live s !! k) as [x|] eqn:Hl.
  - exists s. split; [done|]. unfold CreateTreasure. rewrite E, Hl. cbn [obind].
    by rewrite bool_decide_eq_false_2.
  - exists s0. rewrite E. split; [done|].
    rewrite (bool_decide_eq_true_2 (live s0 !! k = None)); [done|]. by destruct (core_fields _ _ Hc0) as (_ & -> & _).
Qed.

Section Request.
Context (now : Z) (k : bytes) (ops : list Op) (condition : option Condition) (opts : PatchFieldsOptions) (budget : Z).
Context (D : gset bytes) (s : swamp) (index : gmap bytes bytes) (spec : gmap bytes Model).
Hypothesis Htr : tracked D s index spec.
#[local] Abbreviation m := (default (blank k) (spec !! k)).
#[local] Abbreviation out := (PatchFields now k ops condition opts budget s).

(** Whether the call gets to the treasure at all. *)
Definition seed_fails : bool :=
  CreateIfNotExist opts && match Parse (seed_of opts) with Fails _ => true | Fine _ => false end.
Definition no_treasure : bool := negb (CreateIfNotExist opts) && bool_decide (spec !! k = None).

Lemma missing_in_spec : spec !! k = None <-> live s !! k = None.
Proof.
  pose proof (tr_spec _ _ _ _ Htr k) as Hs. destruct (spec !! k) as [m0|]; [|naive_solver].
  destruct Hs as (y & Hy & _). split; [done|]. by rewrite Hy.
Qed.

Lemma PatchFields_early :
  no_treasure = true -> exists s', out = Next (s', (PatchStatusKeyNotFound, None), budget) /\ tracked D s' index spec.
Proof.
  unfold no_treasure, PatchFields. intros Hn. apply andb_true_iff in Hn as [->%negb_true_iff Hk].
  apply bool_decide_eq_true, missing_in_spec in Hk. destruct (key_Get_spec k s) as (s0 & -> & Hc0). rewrite Hk.
  rewrite bool_decide_eq_true_2 by done. exists s0. split; [done|]. by apply (tracked_core _ s).
Qed.

(** Up to the decision, with the treasure's model. *)
Lemma PatchFields_taken :
  no_treasure = false -> seed_fails = false ->
  exists s0 s1 x g, tracked D s0 index spec /\ durable None s1 index /\ created k x s0 s1 /\ waitForUnlock g = [1] /\
    with_file None (t_model (deref s1 x)) = m /\
    let s2 := update x (put_guard g (deref s1 x)) s1 in
    out = match decide_patch ops condition opts budget (bare m) with
          | inl status =>
              Next (release_guard x 1 (if bool_decide (live s0 !! k = None) then on_creating (fun m => delete k m) s2 else s2),
                    (status, None), budget)
          | inr (b, isCreate, rest) =>
              let! s := set_on x (patch_edit now 1 b isCreate opts) s2 in
              let! (s, _) := Save now x 1 s in
              Next (release_guard x 1 s, (if isCreate then PatchStatusCreated else PatchStatusPatched, Some b), rest)
          end.
Proof.
  unfold no_treasure, seed_fails. intros Hn Hseed.
  assert (exists s', core s' = core s /\
    (if CreateIfNotExist opts then (s, false) else let '(s, o) := key_Get k s in (s, bool_decide (o = None))) = (s', false))
    as (s' & Hc' & E1).
  { destruct (CreateIfNotExist opts); [by exists s|]. cbn in Hn. apply bool_decide_eq_false in Hn.
    destruct (key_Get_spec k s) as (s0 & -> & Hc0). exists s0. split; [done|].
    by rewrite bool_decide_eq_false_2 by by rewrite <-missing_in_spec. }
  assert (exists t, (if CreateIfNotExist opts then Parse (seed_of opts) else Fine (MapNode [])) = Fine t) as [t Et].
  { destruct (CreateIfNotExist opts); [|eauto]. cbn in Hseed. destruct (Parse (seed_of opts)); [eauto|done]. }
  destruct (found_or_created k s') as (s0 & Hc0 & E2). rewrite Hc' in Hc0.
  pose proof (tracked_core _ _ _ _ _ Hc0 Htr) as Htr0.
  destruct (take_tracked k D s0 index spec Htr0) as (s1 & x & g & Hdu1 & Hct & Hg & Ec & Es).
  exists s0, s1, x, g. do 4 (split; [done|]).
  assert (with_file None (t_model (deref s1 x)) = m) as Hm.
  { rewrite (ct_model _ _ _ _ Hct). by apply (current_model D s0 index). }
  split; [done|]. unfold PatchFields. rewrite E1, Et, E2, Ec. cbn [obind]. rewrite Es. cbn [obind].
  rewrite (decide_patch_content ops condition opts budget _ (bare m)).
  2:{ rewrite deref_update, decide_True by (done || apply Hct). cbn [put_guard t_model bare]. by rewrite <-Hm. }
  destruct (decide_patch _ _ _ _ _) as [status|[[b isCreate] rest]]; [|done].
  by destruct (bool_decide _).
Qed.

Lemma PatchFields_unchanged status :
  no_treasure = false -> seed_fails = false -> decide_patch ops condition opts budget (bare m) = inl status ->
  exists s', out = Next (s', (status, None), budget) /\ tracked D s' index spec.
Proof.
  intros Hn Hseed Hd.
  destruct (PatchFields_taken Hn Hseed) as (s0 & s1 & x & g & Htr0 & Hdu1 & Hct & Hg & Hm & ->). rewrite Hd.
  pose proof (ct_in _ _ _ _ Hct) as Hx. eexists. split; [done|].
  case_bool_decide as Hl.
  - by apply (given_back x (put_guard g (deref s1 x)) D (on_creating (fun m => delete k m) s1));
      [eapply dropped_tracked|..].
  - apply (unchanged_tracked k x (put_guard g (deref s1 x)) D s0 s1); try done.
    by destruct (live s0 !! k).
Qed.

Lemma PatchFields_changed b isCreate rest :
  no_treasure = false -> seed_fails = false -> decide_patch ops condition opts budget (bare m) = inr (b, isCreate, rest) ->
  let m' := model_edit (patch_edit now 1 b isCreate opts) m in
  storable m' ->
  body_of m' = Some (wrapMsgpackBody b) /\
  exists s' index' D',
    out = Next (s', (if isCreate then PatchStatusCreated else PatchStatusPatched, Some b), rest) /\ D' ⊆ D /\
    tracked D' s' index' (<[k := m']> spec).
Proof.
  intros Hn Hseed Hd m' Hst.
  destruct (PatchFields_taken Hn Hseed) as (s0 & s1 & x & g & Htr0 & Hdu1 & Hct & Hg & Hm & ->). rewrite Hd.
  destruct (patch_edit_edits now b isCreate opts) as (e & He & Hbody).
  assert (m' = e m) as Em by apply (edits_model _ _ m He).
  destruct (edit_taken k x g _ e s0 s1 Hct Hg He) as (t & Hei & ->). cbn [obind].
  destruct (Save_tracked now _ k x t D s0 s1 index spec Htr0 Hdu1 Hct (edits_tame _ _ He) Hei)
    as (s4 & st & index' & D' & -> & HD & Htr4 & _ & _); [by rewrite <-Em|].
  cbn [obind]. split; [by rewrite Em|]. rewrite <-Em in Htr4. by exists (release_guard x 1 s4), index', D'.
Qed.

Lemma PatchFields_bad_seed :
  no_treasure = false -> seed_fails = true ->
  exists s', out = Next (s', (PatchStatusTypeMismatch, None), budget) /\ tracked D s' index spec.
Proof.
  unfold seed_fails, PatchFields. intros _ [-> Hp]%andb_true_iff. exists s. split; [|done].
  by destruct (Parse (seed_of opts)).
Qed.
End Request.
End SwampPatch.
