(* ===== verification/GatewayPatch.v ===== *)
(** The handler of a batch of patches on one swamp: [server/gateway/gateway_patch.go], from the
    summoned swamp on, with its cap on the number of treasures that match a filter. *)
From S2P Require Import Prelude Steps Types Compressor Block FileSys Reader Contents Log Session.
From S2P Require Import Meta Chronicler Durability Guard Treasure Beacon Canon Bucket Swamp Gateway SwampInv SwampSteps.
From S2P Require Import Saving Increments PatchPath Skeleton PatchOps SwampPatch.
#[local] Set Warnings "-clear-no-such-hyp".

(** ** Messages *)

Record PatchOp := { po_Op : Z; po_Path : bytes; po_Value : bytes }.
Record PatchCondition := { pc_Path : bytes; pc_Operator : Z; pc_Threshold : bytes }.
Record PatchMeta := {
  pb_SetUpdatedAt : bool; pb_SetUpdatedBy : bytes; pb_SetCreatedAt : bool; pb_SetCreatedBy : bytes;
  pb_SetExpiredAt : option Timestamp; pb_ClearExpiredAt : bool
}.
Record KeyPatch := {
  kp_Key : bytes; kp_Ops : list (option PatchOp); kp_Condition : option PatchCondition; kp_Meta : option PatchMeta
}.
Record PatchTreasuresRequest := {
  pr_CreateIfNotExist : bool; pr_InitialMsgpackOnCreate : bytes; pr_Meta : option PatchMeta; pr_Patches : list KeyPatch
}.

(** [msgpackpatch.OpKind(op.GetOp())], a [uint8]. *)
Definition op_kind (z : Z) : OpKind :=
  match u8 z with
  | 0 => OpSet | 1 => OpDelete | 2 => OpInc | 3 => OpAppend | 4 => OpPrepend | 5 => OpRemoveAt
  | 6 => OpRemoveVal | 7 => OpMerge | k => OpOther k
  end.
Definition cond_op (z : Z) : CondOp :=
  match u8 z with
  | 0 => CondEqual | 1 => CondNotEqual | 2 => CondGreaterThan | 3 => CondGreaterThanOrEqual
  | 4 => CondLessThan | 5 => CondLessThanOrEqual | 6 => CondExists | 7 => CondNotExists | k => CondOther k
  end.

(** [None] is the error about a nil operation. *)
Fixpoint protoOpsToMsgpackpatchOps (ops : list (option PatchOp)) : option (list Op) :=
  match ops with
  | [] => Some []
  | None :: _ => None
  | Some op :: ops =>
      rest ← protoOpsToMsgpackpatchOps ops;
      Some ({| op_Kind := op_kind (po_Op op); op_Path := po_Path op; op_Value := po_Value op |} :: rest)
  end.

Definition protoCondToMsgpackpatchCond (c : option PatchCondition) : option Condition :=
  (fun c => {| c_Path := pc_Path c; c_Op := cond_op (pc_Operator c); c_Threshold := pc_Threshold c |}) <$> c.

Definition protoMetaToSwampMeta (m : option PatchMeta) : option PatchFieldsMeta :=
  (fun m => {| pm_SetUpdatedAt := pb_SetUpdatedAt m; pm_SetUpdatedBy := pb_SetUpdatedBy m;
               pm_SetCreatedAt := pb_SetCreatedAt m; pm_SetCreatedBy := pb_SetCreatedBy m;
               pm_SetExpiredAt := match pb_SetExpiredAt m with Some t => AsTime t | None => zero_time end;
               pm_ClearExpiredAt := pb_ClearExpiredAt m |}) <$> m.

Section GatewayPatch.
Context `{SI : Store} `{GM : GobModel} `{GMeta : GobMeta} `{FI : FloatToInt} `{MP : Msgpack} `{SR : SlotRange}.
Context `{HR : KeyRange} `{HS : SortSlice} `{MC : MsgpackCodec}.

(** ** The batch *)

(** A cap that passed its checks: the predicate on a body and the maximum. *)
Definition cap : Type := (bytes -> bool) * Z.

(** The options of one patch: its own metadata replace the request's. *)
Definition options_for (r : PatchTreasuresRequest) (c : option cap) (p : KeyPatch) : PatchFieldsOptions :=
  {| CreateIfNotExist := pr_CreateIfNotExist r; InitialMsgpackOnCreate := pr_InitialMsgpackOnCreate r;
     pf_Meta := protoMetaToSwampMeta (match kp_Meta p with Some m => Some m | None => pr_Meta r end);
     CapPredicate := fst <$> c |}.

(** The predicate of the count looks at whatever follows two bytes. *)
Definition treasure_matches (matches : bytes -> bool) (t : treasure) : bool :=
  match GetContentByteArray t with Some (_ :: _ :: body) => matches body | _ => false end.

(** The patches in order, with the budget left; the results are in order. *)
Fixpoint patch_each (now : Z) (r : PatchTreasuresRequest) (c : option cap) (patches : list KeyPatch) (budget : Z) (s : swamp)
    : outcome (swamp * list (bytes * PatchFieldsStatus) * Z) :=
  match patches with
  | [] => Next (s, [], budget)
  | p :: patches =>
      match protoOpsToMsgpackpatchOps (kp_Ops p) with
      | None =>
          let! (s, results, budget) := patch_each now r c patches budget s in
          Next (s, (kp_Key p, PatchStatusPathInvalid) :: results, budget)
      | Some ops =>
          let! (s, (status, _), budget) :=
            PatchFields now (kp_Key p) ops (protoCondToMsgpackpatchCond (kp_Condition p)) (options_for r c p) budget s in
          let! (s, results, budget) := patch_each now r c patches budget s in
          Next (s, (kp_Key p, status) :: results, budget)
      end
  end.

(** [capPreCount], before it takes [capMu]. *)
Definition count_for_cap (now : Z) (c : option cap) (s : swamp) : swamp * Z :=
  match c with
  | None => (s, 0)
  | Some (matches, _) => CountMatchingTreasures now (Some (fun x => treasure_matches matches (deref s x))) s
  end.

Definition budget_of (c : option cap) (currentMatching : Z) : Z :=
  match c with None => 0 | Some (_, max) => Z.max 0 (i32 (max - currentMatching)) end.

Definition cap_reached (results : list (bytes * PatchFieldsStatus)) : bool :=
  existsb (fun r => bool_decide (r.2 = PatchStatusCapExceeded)) results.

(** [patchTreasuresOneSwamp]: the results and [capReached]. *)
Definition patchTreasuresOneSwamp (now : Z) (r : PatchTreasuresRequest) (c : option cap) (s : swamp)
    : outcome (swamp * (list (bytes * PatchFieldsStatus) * bool)) :=
  match pr_Patches r with
  | [] => Next (s, ([], false))
  | patches =>
      vigilant (fun s =>
        let '(s, n) := count_for_cap now c s in
        let! (s, results, _) := patch_each now r c patches (budget_of c n) s in
        Next (s, (results, cap_reached results))) s
  end.

(** *** Several batches at once

    A batch counts, then waits for [capMu], which it holds until its end: what another batch
    does between the two is in neither its count nor its way. *)
Inductive cap_event := Counts (batch : bytes) | Runs (batch : bytes).

Definition cap_step (now : Z) (requests : gmap bytes PatchTreasuresRequest) (c : option cap) (e : cap_event)
    (st : swamp * gmap bytes Z) : outcome (swamp * gmap bytes Z) :=
  let '(s, counts) := st in
  match e with
  | Counts i => let '(s, n) := count_for_cap now c s in Next (s, <[i := n]> counts)
  | Runs i =>
      match requests !! i, counts !! i with
      | Some r, Some n =>
          let! (s, _, _) := patch_each now r c (pr_Patches r) (budget_of c n) s in Next (s, delete i counts)
      | _, _ => Next (s, counts)
      end
  end.

Fixpoint cap_steps (now : Z) (requests : gmap bytes PatchTreasuresRequest) (c : option cap) (es : list cap_event)
    (st : swamp * gmap bytes Z) : outcome (swamp * gmap bytes Z) :=
  match es with
  | [] => Next st
  | e :: es => let! st := cap_step now requests c e st in cap_steps now requests c es st
  end.

(** ** On the abstract state *)

(** One patch of the batch. *)
Definition patch_spec (now : Z) (r : PatchTreasuresRequest) (c : option cap) (p : KeyPatch) (budget : Z)
    (spec : gmap bytes Model) : gmap bytes Model * PatchFieldsStatus * Z :=
  match protoOpsToMsgpackpatchOps (kp_Ops p) with
  | None => (spec, PatchStatusPathInvalid, budget)
  | Some ops =>
      let opts := options_for r c p in
      let m := default (blank (kp_Key p)) (spec !! kp_Key p) in
      if no_treasure (kp_Key p) opts spec then (spec, PatchStatusKeyNotFound, budget)
      else if seed_fails opts then (spec, PatchStatusTypeMismatch, budget)
      else match decide_patch ops (protoCondToMsgpackpatchCond (kp_Condition p)) opts budget (bare m) with
           | inl status => (spec, status, budget)
           | inr (out, isCreate, rest) =>
               (<[kp_Key p := model_edit (patch_edit now 1 out isCreate opts) m]> spec,
                if isCreate then PatchStatusCreated else PatchStatusPatched, rest)
           end
  end.

Fixpoint patches_spec (now : Z) (r : PatchTreasuresRequest) (c : option cap) (patches : list KeyPatch) (budget : Z)
    (spec : gmap bytes Model) : gmap bytes Model * list (bytes * PatchFieldsStatus) * Z :=
  match patches with
  | [] => (spec, [], budget)
  | p :: patches =>
      let '(spec, status, budget) := patch_spec now r c p budget spec in
      let '(spec, results, budget) := patches_spec now r c patches budget spec in
      (spec, (kp_Key p, status) :: results, budget)
  end.

(** What each patch leaves of its key can be stored. *)
Fixpoint patches_storable `{!StoreOk} (now : Z) (r : PatchTreasuresRequest) (c : option cap) (patches : list KeyPatch) (budget : Z)
    (spec : gmap bytes Model) : Prop :=
  match patches with
  | [] => True
  | p :: patches =>
      let '(spec', _, budget') := patch_spec now r c p budget spec in
      from_option storable True (spec' !! kp_Key p) /\
      patches_storable now r c patches budget' spec'
  end.

Context `{HROk : !KeyRangeOk} `{HOk : !StoreOk}.

Lemma patch_tracked now p r c budget D s index spec ops :
  tracked D s index spec -> protoOpsToMsgpackpatchOps (kp_Ops p) = Some ops ->
  let '(spec', status, budget') := patch_spec now r c p budget spec in
  from_option storable True (spec' !! kp_Key p) ->
  exists s' index' D' b,
    PatchFields now (kp_Key p) ops (protoCondToMsgpackpatchCond (kp_Condition p)) (options_for r c p) budget s
    = Next (s', (status, b), budget') /\ D' ⊆ D /\ tracked D' s' index' spec'.
Proof.
  intros Htr Hops. unfold patch_spec. rewrite Hops.
  set (cond := protoCondToMsgpackpatchCond (kp_Condition p)). set (opts := options_for r c p).
  destruct (no_treasure _ _ _) eqn:Hn.
  { intros _. destruct (PatchFields_early now _ ops cond opts budget D s index spec Htr Hn) as (s' & -> & Htr'). eauto 10. }
  destruct (seed_fails _) eqn:Hseed.
  { intros _. destruct (PatchFields_bad_seed now _ ops cond opts budget D s index spec Htr Hn Hseed) as (s' & -> & Htr'). eauto 10. }
  destruct (decide_patch _ _ _ _ _) as [status|[[b isCreate] rest]] eqn:Hd.
  { intros _. destruct (PatchFields_unchanged now _ ops cond opts budget D s index spec Htr status Hn Hseed Hd)
      as (s' & -> & Htr'). eauto 10. }
  rewrite lookup_insert_eq. intros Hst.
  destruct (PatchFields_changed now _ ops cond opts budget D s index spec Htr b isCreate rest Hn Hseed Hd Hst)
    as (_ & s' & index' & D' & -> & HD & Htr'). eauto 10.
Qed.

Lemma patch_each_tracked now r c patches budget D s index spec :
  tracked D s index spec -> patches_storable now r c patches budget spec ->
  let '(spec', results, budget') := patches_spec now r c patches budget spec in
  exists s' index' D',
    patch_each now r c patches budget s = Next (s', results, budget') /\ D' ⊆ D /\ tracked D' s' index' spec'.
Proof.
  revert budget D s index spec. induction patches as [|p patches IH]; intros budget D s index spec Htr; cbn [patches_spec patches_storable patch_each].
  { intros _. by exists s, index, D. }
  destruct (protoOpsToMsgpackpatchOps (kp_Ops p)) as [ops|] eqn:Hops.
  - pose proof (patch_tracked now p r c budget D s index spec ops Htr Hops) as Hp.
    destruct (patch_spec now r c p budget spec) as [[spec1 status] budget1]. intros [Hst Hrest].
    destruct (Hp Hst) as (s1 & index1 & D1 & b & -> & HD1 & Htr1). cbn [obind].
    specialize (IH budget1 D1 s1 index1 spec1 Htr1 Hrest).
    destruct (patches_spec now r c patches budget1 spec1) as [[spec2 results] budget2].
    destruct IH as (s2 & index2 & D2 & -> & HD2 & Htr2). cbn [obind]. exists s2, index2, D2. split; [done|].
    split; [by etransitivity|done].
  - assert (patch_spec now r c p budget spec = (spec, PatchStatusPathInvalid, budget)) as -> by (unfold patch_spec; by rewrite Hops).
    intros [_ Hrest]. specialize (IH budget D s index spec Htr Hrest).
    destruct (patches_spec now r c patches budget spec) as [[spec2 results] budget2].
    destruct IH as (s2 & index2 & D2 & -> & HD2 & Htr2). cbn [obind]. by exists s2, index2, D2.
Qed.

(** *** The cap *)

Lemma i32_small z : - 2 ^ 31 <= z < 2 ^ 31 -> i32 z = z.
Proof. intros Hz. unfold i32. rewrite Z.mod_small; lia. Qed.

Definition model_matches (matches : bytes -> bool) (m : Model) : bool := treasure_matches matches (bare m).

(** How many treasures match. *)
Definition matching (matches : bytes -> bool) (spec : gmap bytes Model) : Z :=
  Z.of_nat (size (filter (fun kv => model_matches matches kv.2 = true) spec)).

Definition one_if (b : bool) : Z := if b then 1 else 0.

Lemma matching_new matches k m spec :
  spec !! k = None -> matching matches (<[k := m]> spec) = matching matches spec + one_if (model_matches matches m).
Proof.
  intros Hk. unfold matching, one_if. rewrite map_filter_insert. cbn.
  destruct (model_matches matches m) eqn:Hm.
  - rewrite decide_True by done. rewrite map_size_insert_None; [lia|]. apply map_lookup_filter_None. by left.
  - rewrite decide_False by done. rewrite delete_id by done. lia.
Qed.

Lemma matching_insert matches k m spec :
  matching matches (<[k := m]> spec)
  = matching matches spec - one_if (from_option (model_matches matches) false (spec !! k)) + one_if (model_matches matches m).
Proof.
  rewrite <-insert_delete_eq, matching_new by apply lookup_delete_eq.
  enough (matching matches spec = matching matches (delete k spec) + one_if (from_option (model_matches matches) false (spec !! k))) by lia.
  destruct (spec !! k) as [m0|] eqn:Hk; cbn.
  - rewrite <-(insert_delete_id spec k m0) at 1 by done. by rewrite matching_new by apply lookup_delete_eq.
  - rewrite delete_id by done. cbn. lia.
Qed.

Lemma model_matches_body matches m :
  model_matches matches m = match body_of m with Some (_ :: _ :: body) => matches body | _ => false end.
Proof. done. Qed.

Lemma input_existing opts m pre :
  input_of opts (bare m) = inr (pre, false) -> exists b0 b1, body_of m = Some (b0 :: b1 :: pre).
Proof.
  unfold input_of. change (GetContentByteArray (bare m)) with (body_of m).
  destruct (GetContentType (bare m)); try done; [by destruct (CreateIfNotExist opts)|].
  destruct (body_of m) as [[|b0 [|b1 body]]|]; try done.
  destruct (bool_decide _ && bool_decide _); [|done]. intros [= <-]. eauto.
Qed.

(** A patch uses up the budget by what it adds to the count. *)
Lemma patch_spec_budget now r matches max p budget spec :
  0 <= budget ->
  let '(spec', _, budget') := patch_spec now r (Some (matches, max)) p budget spec in
  0 <= budget' <= budget /\ matching matches spec' + budget' <= matching matches spec + budget.
Proof.
  intros Hb. unfold patch_spec. destruct (protoOpsToMsgpackpatchOps _) as [ops|]; [|lia].
  destruct (no_treasure _ _ _); [lia|]. destruct (seed_fails _); [lia|].
  set (m := default _ _). set (opts := options_for _ _ _).
  destruct (decide_patch _ _ _ _ _) as [status|[[b isCreate] rest]] eqn:Hd; [lia|].
  destruct (patch_edit_edits now b isCreate opts) as (e & He & Hbody).
  assert (model_matches matches (model_edit (patch_edit now 1 b isCreate opts) m) = matches b) as Hpost
    by (by rewrite model_matches_body, (edits_model _ _ m He), Hbody).
  rewrite matching_insert, Hpost. unfold decide_patch in Hd.
  destruct (input_of opts (bare m)) as [|[pre isCreate']] eqn:Hi; [done|].
  destruct (ApplyWithCondition pre ops _) as [b'|]; [|done].
  destruct (cap_check opts isCreate' pre b' budget) as [left'|] eqn:Hc; [|done]. injection Hd as -> -> ->.
  assert (negb isCreate && matches pre = true -> from_option (model_matches matches) false (spec !! kp_Key p) = true) as Hpre.
  { intros [->%negb_true_iff Hm]%andb_true_iff. destruct (input_existing _ _ _ Hi) as (b0 & b1 & Hbd).
    subst m. destruct (spec !! kp_Key p) as [m0|]; [|discriminate].
    cbn [default from_option]. rewrite model_matches_body.
    change (default (blank (kp_Key p)) (Some m0)) with m0 in Hbd. by rewrite Hbd. }
  unfold cap_check in Hc. cbn in Hc. unfold one_if.
  destruct (negb isCreate && matches pre), (matches b); cbn in Hc; try rewrite (Hpre eq_refl);
    try destruct (from_option (model_matches _) _ _); try destruct (budget <=? 0) eqn:?; simplify_eq; lia.
Qed.

Lemma patches_spec_budget now r matches max patches budget spec :
  0 <= budget ->
  let '(spec', _, budget') := patches_spec now r (Some (matches, max)) patches budget spec in
  0 <= budget' /\ matching matches spec' + budget' <= matching matches spec + budget.
Proof.
  revert budget spec. induction patches as [|p patches IH]; intros budget spec Hb; cbn [patches_spec]; [lia|].
  pose proof (patch_spec_budget now r matches max p budget spec Hb) as Hp.
  destruct (patch_spec now r (Some (matches, max)) p budget spec) as [[spec1 status] budget1].
  specialize (IH budget1 spec1 ltac:(lia)).
  destruct (patches_spec now r (Some (matches, max)) patches budget1 spec1) as [[spec2 results] budget2]. lia.
Qed.

(** The count is the count of the abstract state. *)
Lemma tracked_models D s index spec :
  tracked D s index spec -> spec = (fun x => with_file None (t_model (deref s x))) <$> live s.
Proof.
  intros Htr. apply map_eq. intros k. rewrite lookup_fmap. pose proof (tr_spec _ _ _ _ Htr k) as Hs.
  destruct (spec !! k) as [m|]; [|by rewrite Hs]. by destruct Hs as (x & -> & <-).
Qed.

Lemma filter_snd {A B} (p : B -> bool) (l : list (A * B)) :
  filter (fun x => p x) l.*2 = (filter (fun kv => p kv.2) l).*2.
Proof. induction l as [|[a b] l IH]; [done|]. rewrite fmap_cons, !filter_cons. cbn [snd].
  destruct (decide (p b)); [rewrite fmap_cons|]; by rewrite IH. Qed.

Lemma count_matching_size (p : loc -> bool) m : count_matching p m = Z.of_nat (size (filter (fun kv => p kv.2) m)).
Proof.
  unfold count_matching. f_equal. rewrite filter_snd, length_fmap, map_filter_alt, map_size_list_to_map.
  - by rewrite key_range_perm.
  - apply NoDup_fmap_fst; [|apply NoDup_filter, NoDup_map_to_list].
    intros k x y [_ Hx]%list_elem_of_filter [_ Hy]%list_elem_of_filter.
    apply elem_of_map_to_list in Hx, Hy. congruence.
Qed.

Lemma count_tracked now matches max D s index spec :
  tracked D s index spec -> matching matches spec < 2 ^ 31 ->
  exists s', count_for_cap now (Some (matches, max)) s = (s', matching matches spec) /\ core s' = core s.
Proof.
  intros Htr Hmax. assert (count_matching (fun x => treasure_matches matches (deref s x)) (live s) = matching matches spec) as Hn.
  { rewrite count_matching_size. unfold matching. rewrite (tracked_models _ _ _ _ Htr), map_filter_fmap, map_size_fmap.
    do 2 f_equal. apply map_filter_ext. intros k x _. cbn. unfold model_matches.
    change (treasure_matches matches (bare _)) with (treasure_matches matches (deref s x)).
    by destruct (treasure_matches _ _). }
  exists (on_beaconKey touch (interact now s)). split; [|reflexivity]. unfold count_for_cap, CountMatchingTreasures. f_equal.
  cbn beta iota zeta. change (i32 (count_matching (fun x => treasure_matches matches (deref s x)) (live s)) = matching matches spec).
  rewrite Hn. apply i32_small. unfold matching in *. lia.
Qed.

(** The cap of a request: [budget_of] does not overflow. *)
Definition cap_ok (c : option cap) (spec : gmap bytes Model) : Prop :=
  match c with None => True | Some (matches, max) => 0 < max < 2 ^ 31 /\ matching matches spec < 2 ^ 31 end.
Definition count_of (c : option cap) (spec : gmap bytes Model) : Z :=
  match c with None => 0 | Some (matches, _) => matching matches spec end.

Lemma counted c now D s index spec :
  tracked D s index spec -> cap_ok c spec ->
  exists s', count_for_cap now c s = (s', count_of c spec) /\ core s' = core s.
Proof.
  intros Htr Hc. destruct c as [[matches max]|]; [|by eexists]. apply (count_tracked now matches max D s index spec Htr), Hc.
Qed.

(** A batch is its patches on the abstract state, with the budget of its count. *)
Lemma batch_tracked now r c D s index spec :
  tracked D s index spec -> cap_ok c spec ->
  let budget := budget_of c (count_of c spec) in
  let '(spec', results, _) := patches_spec now r c (pr_Patches r) budget spec in
  patches_storable now r c (pr_Patches r) budget spec ->
  exists s' index' D',
    patchTreasuresOneSwamp now r c s = Next (s', (results, cap_reached results)) /\ D' ⊆ D /\ tracked D' s' index' spec'.
Proof.
  intros Htr Hc budget. unfold patchTreasuresOneSwamp.
  destruct (pr_Patches r) as [|p ps] eqn:Hps; [cbn; intros _; by exists s, index, D|]. rewrite <-Hps.
  destruct (counted c now D (BeginVigil s) index spec (tracked_core D s (BeginVigil s) index spec eq_refl Htr) Hc) as (s1 & Hcnt & Hc1).
  assert (tracked D s1 index spec) as Htr1.
  { eapply tracked_core; [exact Hc1|]. exact (tracked_core D s (BeginVigil s) index spec eq_refl Htr). }
  pose proof (patch_each_tracked now r c (pr_Patches r) budget D s1 index spec Htr1) as He.
  destruct (patches_spec now r c (pr_Patches r) budget spec) as [[spec' results] rest]. intros Hst.
  destruct (He Hst) as (s2 & index2 & D2 & Hr & HD & Htr2). unfold vigilant. rewrite Hcnt. fold budget. rewrite Hr. cbn [obind].
  exists (CeaseVigil s2), index2, D2. split; [done|]. split; [done|]. by apply (tracked_core D2 s2 (CeaseVigil s2)).
Qed.

(** A cap bounds what a batch leaves. *)
Lemma batch_capped now r matches max spec :
  cap_ok (Some (matches, max)) spec ->
  let '(spec', _, _) := patches_spec now r (Some (matches, max)) (pr_Patches r) (budget_of (Some (matches, max)) (matching matches spec)) spec in
  matching matches spec' <= Z.max (matching matches spec) max.
Proof.
  intros [Hmax Hn]. set (b := budget_of _ _).
  assert (b = Z.max 0 (max - matching matches spec)) as Hb.
  { unfold b, budget_of. rewrite i32_small; [done|]. unfold matching in *. lia. }
  pose proof (patches_spec_budget now r matches max (pr_Patches r) b spec ltac:(lia)) as Hp.
  destruct (patches_spec _ _ _ _ _ _) as [[spec' results] rest]. lia.
Qed.
End GatewayPatch.
