(* ===== verification/SwampPatchExpired.v ===== *)
(** Caps on patches by key and patches of expired treasures: [server/gateway/gateway_cap_body.go]
    and the request of [gateway_patch.go] with its cap; [swamp_patch_expired.go] and one swamp of
    [gateway_patch_expired.go], and what such a request makes of the abstract state. *)
From Stdlib Require Import Floats.SpecFloat Sorting.Sorted.
From S2P Require Import Prelude Steps Types Compressor Block FileSys Reader Contents Log Session.
From S2P Require Import Meta Chronicler Durability Guard Treasure Beacon Views Windows Canon Bucket Slots Indexing.
From S2P Require Import Swamp Gateway SwampInv Text Filters Planner GatewaySearch Plans Alike Fields FieldSteps SwampSteps.
From S2P Require Import Saving PatchPath Skeleton PatchOps SwampPatch GatewayPatch.
#[local] Set Warnings "-register-all,-clear-no-such-hyp".

(** ** Caps on patches by key *)

(** No error: every filter is on a field of the body. *)
Fixpoint validateBodyOnlyFilterGroup (g : FilterGroup) : bool :=
  match g with
  | Group _ filters subGroups phrases vectors distances _ =>
      forallb (fun f => negb (bool_decide (default [] (tf_BytesFieldPath f) = []))) filters
      && match phrases, vectors, distances with [], [], [] => true | _, _, _ => false end
      && forallb validateBodyOnlyFilterGroup subGroups
  end.

Lemma forallb_ext_in {A} (p q : A -> bool) l : (forall x, List.In x l -> p x = q x) -> forallb p l = forallb q l.
Proof. induction l as [|x l IH]; cbn; intros Hpq; [done|]. rewrite Hpq, IH; auto. Qed.

(** A list in order, by positions. *)
Section InOrder.
Context {A : Type} (R : A -> A -> Prop).
Lemma sorted_lookup (l : list A) :
  (forall i j x y, (i < j)%nat -> l !! i = Some x -> l !! j = Some y -> R x y) -> StronglySorted R l.
Proof.
  induction l as [|x l IH]; intros Hl; constructor.
  - apply IH. intros i j y z Hij Hy Hz. by apply (Hl (S i) (S j) y z); [lia|..].
  - apply Forall_forall. intros y Hy. apply list_elem_of_lookup in Hy as [j Hj]. by apply (Hl O (S j) x y); [lia|..].
Qed.
Lemma sorted_lookup_le (l : list A) i j x y :
  StronglySorted R l -> (i < j)%nat -> l !! i = Some x -> l !! j = Some y -> R x y.
Proof.
  intros Hl. revert i j. induction Hl as [|z l Hl IH Hz]; intros [|i] [|j] Hij Hx Hy; simplify_eq/=; try lia.
  - by eapply Forall_lookup_1.
  - apply (IH i j); [lia|done..].
Qed.
Lemma sorted_filter (P : A -> Prop) `{!forall x, Decision (P x)} l : StronglySorted R l -> StronglySorted R (filter P l).
Proof.
  induction 1 as [|x l Hl IH Hx]; [constructor|]. rewrite filter_cons. case_decide; [|done].
  constructor; [done|]. apply Forall_forall. intros y [_ Hy]%list_elem_of_filter. by eapply Forall_forall in Hx.
Qed.
End InOrder.

Section BodyCap.
Context `{SI : Store} `{GM : GobModel} `{GMeta : GobMeta} `{FI : FloatToInt} `{MP : Msgpack} `{SR : SlotRange}.
Context `{HR : KeyRange} `{HS : SortSlice} `{MC : MsgpackCodec} `{LC : LowerCase} `{TG : Trigonometry}.

(** The outer [None] is an error, the inner one no cap. *)
Definition buildBodyCapPredicate (c : option (option FilterGroup * Z)) : option (option ((list (bytes * any) -> bool) * Z)) :=
  match c with
  | None => Some None
  | Some (filter, max) =>
      if max <=? 0 then None else
      match filter with
      | None => None
      | Some g =>
          if validateBodyOnlyFilterGroup g then Some (Some (fun decoded => evaluateFilterGroupAgainstMap decoded g, max)) else None
      end
  end.

Definition decodeMsgpackMapForCap (body : bytes) : option (list (bytes * any)) :=
  match body with [] => Some [] | _ => Unmarshal body end.

(** [capPredicate] of the request, on a body without its prefix. *)
Definition on_body (matches : list (bytes * any) -> bool) (rawBody : bytes) : bool :=
  match decodeMsgpackMapForCap rawBody with Some decoded => matches decoded | None => false end.

(** [patchTreasuresOneSwamp] with the cap of the message; [None] is an error. *)
Definition patchTreasures (now : Z) (r : PatchTreasuresRequest) (c : option (option FilterGroup * Z)) (s : swamp)
    : outcome (swamp * option (list (bytes * PatchFieldsStatus) * bool)) :=
  match pr_Patches r with
  | [] => Next (s, Some ([], false))
  | _ =>
      match buildBodyCapPredicate c with
      | None => Next (s, None)
      | Some p =>
          let! (s, reply) := patchTreasuresOneSwamp now r ((fun '(matches, max) => (on_body matches, max)) <$> p) s in
          Next (s, Some reply)
      end
  end.

(** ** The cap and the filter *)

(** On a body the filter of a cap is the filter on the treasure that has the body. *)
Lemma body_filter t d : decoded_body t = Some d -> forall g,
  validateBodyOnlyFilterGroup g = true -> evaluateFilterGroupAgainstMap d g = evaluate_group t g.
Proof.
  intros Hd. induction g as [logic fs sgs ps vs ds ns IH] using group_ind. cbn [validateBodyOnlyFilterGroup].
  intros [[Hf Hp]%andb_true_iff Hs]%andb_true_iff. destruct ps, vs, ds; try done.
  assert (forall f, f ∈ fs -> is_Some (tf_BytesFieldPath f) /\
    evaluateNativeSingleFilter t f = evaluateBytesFieldFilterAgainstMap d f) as Hfs.
  { intros f Hin. rewrite forallb_forall in Hf. apply list_elem_of_In in Hin. specialize (Hf f Hin).
    apply negb_true_iff, bool_decide_eq_false in Hf. destruct (tf_BytesFieldPath f) as [p|] eqn:Ep; [|done].
    split; [done|]. unfold evaluateNativeSingleFilter. rewrite Ep, decide_True by done.
    unfold evaluateNativeBytesFieldFilter. by rewrite Hd. }
  assert (forall sg, sg ∈ sgs -> evaluateFilterGroupAgainstMap d sg = evaluate_group t sg) as Hsg.
  { intros sg Hin. rewrite Forall_forall in IH. apply IH; [done|]. rewrite forallb_forall in Hs. by apply Hs, list_elem_of_In. }
  assert (forall nf, evaluateNativeNestedSliceWhereFilter t nf = evaluateNestedSliceWhereAgainstMap d nf) as Hns
    by (intros nf; unfold evaluateNativeNestedSliceWhereFilter; by rewrite Hd).
  cbn [evaluate_group evaluateFilterGroupAgainstMap map].
  destruct (decide (fs = [] /\ sgs = [] /\ ns = [])) as [(-> & -> & ->)|Hne]; [done|].
  assert (forall A (a a' : A), match fs, sgs, ns with [], [], [] => a | _, _, _ => a' end = a') as ->
    by (intros; destruct fs, sgs, ns; naive_solver).
  rewrite evaluateFilterGroupWith_legs by (right; destruct fs, sgs, ns; naive_solver).
  unfold legs_value. cbn [app]. rewrite existsb_id_app, forallb_id_app, existsb_id_app, forallb_id_app, !existsb_map, !forallb_map.
  assert (forall nf, id (evaluateNativeNestedSliceWhereFilter t nf) = evaluateNestedSliceWhereAgainstMap d nf) as Hns' by apply Hns.
  case_decide; [rewrite <-orb_assoc; f_equal; [|f_equal]|rewrite <-andb_assoc; f_equal; [|f_equal]];
    try (apply existsb_ext_in; intros z Hz%list_elem_of_In); try (apply forallb_ext_in; intros z Hz%list_elem_of_In);
    rewrite ?Hns'; auto; try (destruct (Hfs z Hz) as [? ->]; by rewrite bool_decide_eq_true_2).
Qed.

(** The keys whose body can be decoded and has the filter. *)
Definition holds_of (g : FilterGroup) (m : Model) : bool :=
  bool_decide (is_Some (decoded_body (bare m))) && evaluate_group (bare m) g.
Definition holders (g : FilterGroup) (spec : gmap bytes Model) : Z :=
  Z.of_nat (size (filter (fun kv => holds_of g kv.2 = true) spec)).

(** The empty text is no msgpack value. *)
Definition rejects_empty : Prop := Unmarshal [] = None.

(** Where the body can be decoded, the predicate on the text of the body is the filter. *)
Lemma body_text_filter g t d body :
  rejects_empty -> validateBodyOnlyFilterGroup g = true -> decoded_body t = Some d ->
  GetContentByteArray t = Some (msgpackMagic0 :: msgpackMagic1 :: body) ->
  on_body (fun d => evaluateFilterGroupAgainstMap d g) body = evaluate_group t g.
Proof.
  intros He Hg Hd Hb. rewrite <-(body_filter _ _ Hd g Hg). unfold decoded_body in Hd.
  destruct (GetContentType t); try done. rewrite Hb in Hd. cbn -[Unmarshal] in Hd.
  rewrite drop_0, !bool_decide_eq_true_2 in Hd by done. cbn -[Unmarshal] in Hd.
  unfold on_body, decodeMsgpackMapForCap. cbv [rejects_empty Unmarshal] in *.
  destruct body as [|b2 body]; [by rewrite He in Hd|]. by rewrite Hd.
Qed.
Lemma decoded_text t d : decoded_body t = Some d -> exists body, GetContentByteArray t = Some (msgpackMagic0 :: msgpackMagic1 :: body).
Proof.
  unfold decoded_body. destruct (GetContentType t); try done. destruct (GetContentByteArray t) as [b|]; [|done]. cbn -[Unmarshal].
  destruct b as [|b0 [|b1 body]]; try done. unfold isMsgpackEncoded, eqd. destruct (bool_decide_reflect (b0 = msgpackMagic0)) as [->|]; [|done].
  destruct (bool_decide_reflect (b1 = msgpackMagic1)) as [->|]; [|done]. by exists body.
Qed.
Lemma matches_is_filter g m :
  rejects_empty -> validateBodyOnlyFilterGroup g = true -> is_Some (decoded_body (bare m)) ->
  model_matches (on_body (fun d => evaluateFilterGroupAgainstMap d g)) m = evaluate_group (bare m) g.
Proof.
  intros He Hg [d Hd]. destruct (decoded_text _ _ Hd) as [body Hb]. unfold model_matches, treasure_matches. rewrite Hb.
  by apply (body_text_filter g (bare m) d).
Qed.

Lemma holds_of_matches g m :
  rejects_empty -> validateBodyOnlyFilterGroup g = true -> holds_of g m = true ->
  model_matches (on_body (fun d => evaluateFilterGroupAgainstMap d g)) m = true.
Proof. intros He Hg [Hd%bool_decide_eq_true Hev]%andb_true_iff. by rewrite matches_is_filter. Qed.

(** Every body that is counted can be decoded as the filter decodes it. *)
Definition counted_decode (g : FilterGroup) (spec : gmap bytes Model) : Prop :=
  forall k m, spec !! k = Some m -> model_matches (on_body (fun d => evaluateFilterGroupAgainstMap d g)) m = true ->
    is_Some (decoded_body (bare m)).

Lemma holders_matching g spec :
  rejects_empty -> validateBodyOnlyFilterGroup g = true ->
  holders g spec <= matching (on_body (fun d => evaluateFilterGroupAgainstMap d g)) spec.
Proof.
  intros He Hg. unfold holders, matching. apply inj_le, map_subseteq_size, map_filter_subseteq_ext.
  intros k m _. by apply holds_of_matches.
Qed.
Lemma matching_holders g spec :
  rejects_empty -> validateBodyOnlyFilterGroup g = true -> counted_decode g spec ->
  matching (on_body (fun d => evaluateFilterGroupAgainstMap d g)) spec = holders g spec.
Proof.
  intros He Hg Hc. unfold holders, matching. do 2 f_equal. apply map_filter_ext. intros k m Hk. cbn. split; [|by apply holds_of_matches].
  intros Hm. pose proof (Hc k m Hk Hm) as Hd. unfold holds_of. rewrite <-matches_is_filter, Hm by done.
  by rewrite bool_decide_eq_true_2.
Qed.
End BodyCap.

(** ** Patches of expired treasures *)

Record PatchExpiredEntry := {
  pe_Key : bytes; pe_Status : PatchFieldsStatus; pe_NewMsgpack : option bytes; pe_ExpiredAt : Z
}.

Definition expirationTimeAsTime (expirationTime : Z) : Z := if expirationTime =? 0 then zero_time else expirationTime.

Record PatchExpiredRequest := {
  er_HowMany : Z; er_Ops : list (option PatchOp); er_Condition : option PatchCondition; er_Meta : option PatchMeta;
  er_Filters : option FilterGroup; er_Cap : option (option FilterGroup * Z)
}.

(** [patchExpiredHowManySentinel] *)
Definition patchExpiredHowManySentinel : Z := 2 ^ 30.

(** A treasure that is there is patched as by [PatchFields] that creates nothing and has no cap. *)
Definition expired_options (meta : option PatchFieldsMeta) : PatchFieldsOptions :=
  {| CreateIfNotExist := false; InitialMsgpackOnCreate := []; pf_Meta := meta; CapPredicate := None |}.

Section SwampPatchExpired.
Context `{SI : Store} `{GM : GobModel} `{GMeta : GobMeta} `{FI : FloatToInt} `{MP : Msgpack} `{SR : SlotRange}.
Context `{HR : KeyRange} `{HS : SortSlice} `{MC : MsgpackCodec} `{LC : LowerCase} `{TG : Trigonometry}.

(** ** One treasure *)

Definition entry_of (x : loc) (status : PatchFieldsStatus) (body : option bytes) (s : swamp) : PatchExpiredEntry :=
  {| pe_Key := key_at s x; pe_Status := status; pe_NewMsgpack := body;
     pe_ExpiredAt := expirationTimeAsTime (GetExpirationTime (deref s x)) |}.

Definition applyPatchExpiredOne (now : Z) (ops : list Op) (condition : option Condition) (meta : option PatchFieldsMeta)
    (x : loc) (s : swamp) : outcome (swamp * PatchExpiredEntry) :=
  let! (s, guardID) := start_guard x None s in
  let! (s, entry) :=
    match input_of (expired_options meta) (deref s x) with
    | inl status => Next (s, entry_of x status None s)
    | inr (inputBody, _) =>
        match ApplyWithCondition inputBody ops condition with
        | Fails e => Next (s, entry_of x (classifyPatchError e) None s)
        | Fine out =>
            let! s := set_on x (fun t => t ← SetContentByteArray guardID (Some (wrapMsgpackBody out)) t;
                                         applyPatchMeta now guardID meta false t) s in
            let! (s, _) := Save now x guardID s in
            Next (s, entry_of x PatchStatusPatched (Some out) s)
        end
    end in
  Next (release_guard x guardID s, entry).

(** ** The request *)

Fixpoint patch_selected (now : Z) (ops : list Op) (condition : option Condition) (meta : option PatchFieldsMeta)
    (selected : list loc) (s : swamp) : outcome (swamp * list PatchExpiredEntry) :=
  match selected with
  | [] => Next (s, [])
  | x :: selected =>
      let! (s, entry) := applyPatchExpiredOne now ops condition meta x s in
      let! (s, entries) := patch_selected now ops condition meta selected s in
      Next (s, entry :: entries)
  end.

(** Into the descending beacon again. *)
Definition add_desc (s : swamp) (x : loc) : swamp :=
  if GetExpirationTime (deref s x) =? 0 then s
  else if IsInitialized (beacons (data s) expirationTimeBeacon DESC)
       then on_beacon expirationTimeBeacon DESC (Beacon.Add (deref s) x) s else s.
Definition sort_desc_again (s : swamp) : swamp :=
  if IsInitialized (beacons (data s) expirationTimeBeacon DESC)
  then on_beacon expirationTimeBeacon DESC (fun b => (SortByExpirationTimeDesc (deref s) b).1) s else s.

Definition nothing_to_apply (ops : list Op) (meta : option PatchFieldsMeta) : bool :=
  match ops, meta with [], None => true | _, _ => false end.

(** [PatchExpired]: the entries and [capReached]. *)
Definition PatchExpired (now howMany : Z) (ops : list Op) (condition : option Condition) (meta : option PatchFieldsMeta)
    (selectionPredicate capPredicate : option (loc -> bool)) (capMax : Z) (s : swamp) :
    outcome (swamp * (list PatchExpiredEntry * bool)) :=
  if nothing_to_apply ops meta then Next (s, ([], false)) else
  let s := buildBeacon expirationTimeBeacon BeaconTypeExpirationTime (interact now s) in
  let '(b, selected, capReached) :=
    SelectExpiredForPatchWithCap (deref s) howMany selectionPredicate capPredicate capMax (UnixNano now)
      (beacons (data s) expirationTimeBeacon ASC) in
  let s := on_beacon expirationTimeBeacon ASC (fun _ => b) s in
  match selected with
  | [] => Next (s, ([], capReached))
  | _ =>
      let s := foldl (fun s x => deleteTreasureIfBeaconInitialized expirationTimeBeacon DESC (key_at s x) s) s selected in
      let! (s, results) := patch_selected now ops condition meta selected s in
      let s := on_beacon expirationTimeBeacon ASC (ReindexExpiration (deref s) selected) s in
      let s := sort_desc_again (foldl add_desc s selected) in
      Next (s, (results, capReached))
  end.

(** [patchExpiredOneSwamp], on a summoned swamp; [None] is an error. *)
Definition patchExpiredOneSwamp (now : Z) (r : PatchExpiredRequest) (s : swamp) :
    outcome (swamp * option (list PatchExpiredEntry * bool)) :=
  match er_Ops r, er_Meta r with
  | [], None => Next (s, None)
  | _, _ =>
      match buildCapPredicate (er_Cap r) with
      | None => Next (s, None)
      | Some (capPred, capMax) =>
          vigilant (fun s =>
            match protoOpsToMsgpackpatchOps (er_Ops r) with
            | None => Next (s, None)
            | Some ops =>
                let! (s, selectionPred) := buildPatchExpiredSelectionPredicate (er_Filters r) s in
                let howMany := if er_HowMany r <=? 0 then patchExpiredHowManySentinel else er_HowMany r in
                let on_loc (p : treasure -> bool) := fun x => p (deref s x) in
                let! (s, reply) :=
                  PatchExpired now howMany ops (protoCondToMsgpackpatchCond (er_Condition r)) (protoMetaToSwampMeta (er_Meta r))
                    (on_loc <$> selectionPred) (on_loc <$> capPred) capMax s in
                Next (s, Some reply)
            end) s
      end
  end.

(** ** On the abstract state *)

(** One patch: the key's model is there. *)
Definition expired_spec (now : Z) (ops : list Op) (condition : option Condition) (meta : option PatchFieldsMeta)
    (k : bytes) (spec : gmap bytes Model) : gmap bytes Model * (PatchFieldsStatus * option bytes) :=
  match decide_patch ops condition (expired_options meta) 0 (bare (default (blank k) (spec !! k))) with
  | inl status => (spec, (status, None))
  | inr (out, _, _) =>
      (<[k := model_edit (patch_edit now 1 out false (expired_options meta)) (default (blank k) (spec !! k))]> spec,
       (PatchStatusPatched, Some out))
  end.
Definition entry_spec (k : bytes) (answer : PatchFieldsStatus * option bytes) (spec : gmap bytes Model) : PatchExpiredEntry :=
  {| pe_Key := k; pe_Status := answer.1; pe_NewMsgpack := answer.2;
     pe_ExpiredAt := expirationTimeAsTime (m_ExpirationTime (default (blank k) (spec !! k))) |}.

Fixpoint expireds_spec (now : Z) (ops : list Op) (condition : option Condition) (meta : option PatchFieldsMeta)
    (ks : list bytes) (spec : gmap bytes Model) : gmap bytes Model * list PatchExpiredEntry :=
  match ks with
  | [] => (spec, [])
  | k :: ks =>
      let '(spec, answer) := expired_spec now ops condition meta k spec in
      let e := entry_spec k answer spec in
      let '(spec, es) := expireds_spec now ops condition meta ks spec in
      (spec, e :: es)
  end.

Context `{HROk : !KeyRangeOk} `{HOk : !StoreOk}.

Lemma created_live k (x : nat) s index :
  durable None s index -> live s !! k = Some x -> created k x s s.
Proof.
  intros Hdu Hx. destruct (du_live _ _ _ Hdu _ _ Hx) as (Hin & Hk & Hd & _).
  split; try done; try (unfold current; by rewrite Hx). rewrite Hx. intros y. by intros [= <-].
Qed.

Lemma core_live s s' : core s' = core s -> live s' = live s.
Proof. intros Hc. by destruct (core_fields _ _ Hc) as (_ & ? & _). Qed.

(** Saving an object of the key index leaves the index. *)
Lemma Save_live now x g s s' st :
  live s !! key_at s x = Some x -> Save now x g s = Next (s', st) -> live s' = live s.
Proof.
  intros Hl. unfold Save, SaveFunction. destruct (CanExecute _ _ _); [|done]. cbn zeta.
  set (s0 := interact now s). change (key_at s0 x) with (key_at s x).
  destruct (key_Get_spec (key_at s x) s0) as (s1 & -> & Hc). change (live s0) with (live s). rewrite Hl.
  assert (live s1 = live s) as H1 by exact (core_live _ _ Hc).
  destruct (changed (deref s1 x)); [|by intros [= <- <-]]. destruct (save_modified now x x g s1) as [| |s2] eqn:E; try done.
  cbn [obind]. intros [= <- <-]. rewrite <-H1. revert E. unfold save_modified. cbn zeta.
  set (s3 := reindex x s1). set (s4 := on_waiting _ s3).
  pose proof (core_live _ _ (reindex_core x s1)) as H3. change (live s4 = live s1) in H3. rewrite <-H3.
  destruct (notifyBucketsUpdate x s4) as [| |s5] eqn:En; try done. cbn [obind].
  rewrite <-(proj2 (proj1 (notify_same _ _ _ En))). set (s6 := sendEventToHydra _ _ _ _ s5).
  destruct (write_at_once x g s6) as [| |s7] eqn:Ew; try done. cbn [obind]. intros [= <-].
  transitivity (live s7); [exact (core_live _ _ (metadata_update_core now s7))|].
  rewrite (cm_live _ _ (write_at_once_calm _ _ _ _ Ew)).
  exact (core_live _ _ (sendEventToHydra_core now (Some x) (Some x) StatusModified s5)).
Qed.

Section One.
Context (now : Z) (ops : list Op) (condition : option Condition) (meta : option PatchFieldsMeta).
Context (D : gset bytes) (s : swamp) (index : gmap bytes bytes) (spec : gmap bytes Model) (k : bytes) (x : nat).
Hypothesis (Htr : tracked D s index spec) (Hx : live s !! k = Some x).

#[local] Abbreviation m := (default (blank k) (spec !! k)).

Lemma applyPatchExpiredOne_tracked :
  let '(spec', answer) := expired_spec now ops condition meta k spec in
  from_option storable True (spec' !! k) ->
  exists s' index' D', applyPatchExpiredOne now ops condition meta x s = Next (s', entry_spec k answer spec') /\
    D' ⊆ D /\ tracked D' s' index' spec' /\ live s' = live s.
Proof.
  pose proof (tr_durable _ _ _ _ Htr) as Hdu. pose proof (created_live _ _ _ _ Hdu Hx) as Hct.
  destruct (start_guard_free x None s) as (g & Eg & Hg);
    [by apply (du_guard _ _ _ Hdu _ _ (deref_in _ _ (ct_in _ _ _ _ Hct)))|].
  set (s2 := update x (put_guard g (deref s x)) s) in *.
  assert (deref s2 x = put_guard g (deref s x)) as Hd2 by (unfold s2; rewrite deref_update, decide_True; done || apply Hct).
  assert (with_file None (t_model (deref s x)) = m) as Hm.
  { destruct (current_model D s index spec k Htr) as (Hcm & _). unfold current in Hcm. by rewrite Hx in Hcm. }
  unfold expired_spec, applyPatchExpiredOne. rewrite Eg. cbn [obind]. fold s2.
  rewrite (decide_patch_content ops condition (expired_options meta) 0 (bare m) (deref s2 x))
    by (rewrite Hd2, <-Hm; done).
  assert (forall status body, entry_of x status body s2 = entry_spec k (status, body) spec) as Hentry.
  { intros status body. unfold entry_of, entry_spec, key_at, GetKey, GetExpirationTime. rewrite Hd2. cbn [put_guard t_model fst snd].
    rewrite <-Hm. f_equal. apply (ct_key _ _ _ _ Hct). }
  assert (tracked D (release_guard x 1 s2) index spec) as Hback
    by (apply (unchanged_tracked k x (put_guard g (deref s x)) D s s); done || by eexists).
  unfold decide_patch, cap_check. cbn [expired_options CapPredicate].
  destruct (input_of (expired_options meta) (deref s2 x)) as [status|[body isCreate]];
    [|destruct (ApplyWithCondition body ops condition) as [out|e]].
  - intros _. cbn [obind]. rewrite Hentry. exists (release_guard x 1 s2), index, D. split; [done|]. split; [done|].
    by split.
  - intros Hst. rewrite lookup_insert_eq in Hst. cbn in Hst.
    destruct (patch_edit_edits now out false (expired_options meta)) as (e & He & _).
    set (m' := model_edit _ m) in *. assert (m' = e m) as Em by apply (edits_model _ _ m He).
    destruct (edit_taken k x g _ e s s Hct Hg He) as (t & Hei & Et). fold s2 in Et.
    change (set_on x (patch_edit now 1 out false (expired_options meta)) s2) with
      (set_on x (fun t => t ← SetContentByteArray 1 (Some (wrapMsgpackBody out)) t; applyPatchMeta now 1 meta false t) s2) in Et.
    rewrite Et. cbn [obind].
    destruct (Save_tracked now _ k x t D s s index spec Htr Hdu Hct (edits_tame _ _ He) Hei)
      as (s4 & st & index' & D' & Es & HD & Htr4 & Hm4 & _); [by rewrite <-Em|].
    rewrite Es. cbn [obind]. rewrite <-Em in Htr4, Hm4. exists (release_guard x 1 s4), index', D'.
    assert (key_at (update x t s) x = k) as Hk3.
    { unfold key_at, GetKey. rewrite deref_update, decide_True by (done || apply Hct).
      rewrite (ei_model _ _ _ _ Hei), (ed_key _ _ He). apply (ct_key _ _ _ _ Hct). }
    assert (live s4 = live s) as Hl4 by (apply (Save_live now x 1 (update x t s) s4 st); [by rewrite Hk3|done]).
    split; [|by split].
    f_equal. f_equal. unfold entry_of, entry_spec. cbn [fst snd]. rewrite lookup_insert_eq. cbn [default].
    assert (m_Key m' = k) as Hk4.
    { rewrite Em, (ed_key _ _ He). rewrite <-Hm. apply (ct_key _ _ _ _ Hct). }
    unfold key_at, GetKey, GetExpirationTime. rewrite <-Hm4 in Hk4 |- *. by rewrite <-Hk4.
  - intros _. cbn [obind]. rewrite Hentry. exists (release_guard x 1 s2), index, D. split; [done|]. split; [done|].
    by split.
Qed.
End One.

(** What each patch leaves of its key can be stored. *)
Fixpoint expireds_storable (now : Z) (ops : list Op) (condition : option Condition) (meta : option PatchFieldsMeta)
    (ks : list bytes) (spec : gmap bytes Model) : Prop :=
  match ks with
  | [] => True
  | k :: ks =>
      let '(spec, _) := expired_spec now ops condition meta k spec in
      from_option storable True (spec !! k) /\ expireds_storable now ops condition meta ks spec
  end.

Section Many.
Context (now : Z) (ops : list Op) (condition : option Condition) (meta : option PatchFieldsMeta).

Lemma patch_selected_tracked xs : forall ks D s index spec,
  tracked D s index spec -> Forall2 (fun x k => live s !! k = Some x) xs ks ->
  expireds_storable now ops condition meta ks spec ->
  let '(spec', es) := expireds_spec now ops condition meta ks spec in
  exists s' index' D', patch_selected now ops condition meta xs s = Next (s', es) /\
    D' ⊆ D /\ tracked D' s' index' spec' /\ live s' = live s.
Proof.
  induction xs as [|x xs IH]; intros ks D s index spec Htr Hks Hst.
  { apply Forall2_nil_inv_l in Hks as ->. cbn. by exists s, index, D. }
  apply Forall2_cons_inv_l in Hks as (k & ks' & Hk & Hks' & ->).
  cbn [expireds_storable] in Hst. cbn [expireds_spec].
  pose proof (applyPatchExpiredOne_tracked now ops condition meta D s index spec k x Htr Hk) as H1.
  destruct (expired_spec now ops condition meta k spec) as [spec1 answer]. destruct Hst as [Hst1 Hst].
  destruct (H1 Hst1) as (s1 & index1 & D1 & E1 & HD1 & Htr1 & Hl1).
  assert (Forall2 (fun x k => live s1 !! k = Some x) xs ks') as Hks1 by (by rewrite Hl1).
  pose proof (IH ks' D1 s1 index1 spec1 Htr1 Hks1 Hst) as H2.
  destruct (expireds_spec now ops condition meta ks' spec1) as [spec2 es].
  destruct H2 as (s2 & index2 & D2 & E2 & HD2 & Htr2 & Hl2).
  exists s2, index2, D2. cbn [patch_selected]. rewrite E1. cbn [obind]. rewrite E2. cbn [obind].
  split; [done|]. split; [by transitivity D1|]. split; [done|]. congruence.
Qed.

(** The beacon the selection looks at, the number it may take, and what it takes. *)
Definition expiring (s : swamp) : beacon :=
  beacons (data (buildBeacon expirationTimeBeacon BeaconTypeExpirationTime (interact now s))) expirationTimeBeacon ASC.
Definition quota (howMany : Z) (capPredicate : option (loc -> bool)) (capMax : Z) (s : swamp) : Z :=
  match cap_budget capPredicate capMax (if howMany <=? 0 then max_int else howMany) (expiring s) with
  | Some (n, _) => n | None => 0
  end.
Definition chosen (howMany : Z) (selection capPredicate : option (loc -> bool)) (capMax : Z) (s : swamp) : list loc :=
  take (Z.to_nat (quota howMany capPredicate capMax s))
    (filter (fun x => expired (deref s) (UnixNano now) x && match selection with None => true | Some p => p x end)
       (treasuresByOrder (expiring s))).

Lemma quota_bounds howMany cp capMax s :
  (0 < howMany -> Z.max 0 (quota howMany cp capMax s) <= howMany) /\
  match cp with Some p => Z.max 0 (quota howMany cp capMax s) <= Z.max 0 (capMax - count_matching p (treasuresByKeys (expiring s))) | None => True end.
Proof.
  unfold quota. set (most := if howMany <=? 0 then max_int else howMany).
  assert (0 < howMany -> most = howMany) as Hm by (intros; unfold most; by destruct (Z.leb_spec howMany 0); [lia|]).
  destruct cp as [p|]; cbn [cap_budget]; [|split; [lia|done]].
  set (budget := capMax - _). destruct (Z.leb_spec budget 0); [lia|]. destruct (Z.ltb_spec budget most); lia.
Qed.

Lemma chosen_length howMany sel cp capMax s :
  Z.of_nat (length (chosen howMany sel cp capMax s)) <= Z.max 0 (quota howMany cp capMax s).
Proof. unfold chosen. rewrite length_take. lia. Qed.
Lemma expireds_length ks : forall spec, length (expireds_spec now ops condition meta ks spec).2 = length ks.
Proof.
  induction ks as [|k ks IH]; intros spec; cbn [expireds_spec]; [done|]. destruct (expired_spec _ _ _ _ _ _) as [spec1 a].
  specialize (IH spec1). destruct (expireds_spec _ _ _ _ _ _). cbn in *. lia.
Qed.

(** The live treasures that expire, each once, the earliest first. *)
Record expiry_order (s : swamp) (l : list loc) : Prop := {
  eo_nodup : NoDup l;
  eo_members x : x ∈ l <-> (exists k, live s !! k = Some x) /\ GetExpirationTime (deref s x) <> 0;
  eo_sorted i j x y : (i < j)%nat -> l !! i = Some x -> l !! j = Some y ->
    GetExpirationTime (deref s x) <= GetExpirationTime (deref s y)
}.

(** The index by expiration time was not built yet, or is in order. *)
Definition expiry_kept (s : swamp) : Prop :=
  let b := beacons (data s) expirationTimeBeacon ASC in
  if IsInitialized b then expiry_order s (treasuresByOrder b) else isOrdered b = true /\ treasuresByOrder b = [].

Context `{HSOk : !SortSliceOk}.

(** Building the index puts it in order. *)
Lemma expiring_order s :
  (forall k x, live s !! k = Some x -> key_at s x = k) -> expiry_kept s -> expiry_order s (treasuresByOrder (expiring s)).
Proof.
  intros Hk. unfold expiry_kept, expiring, buildBeacon. set (s1 := interact now s).
  change (beacons (data s) expirationTimeBeacon ASC) with (beacons (data s1) expirationTimeBeacon ASC).
  set (s2 := build_one expirationTimeBeacon ASC _ _ s1).
  assert (forall f, beacons (data (build_one expirationTimeBeacon DESC f BeaconTypeExpirationTime s2)) expirationTimeBeacon ASC
    = beacons (data s2) expirationTimeBeacon ASC) as ->.
  { intros f. unfold build_one. destruct (IsInitialized _); [done|]. cbn. by rewrite decide_False by naive_solver. }
  unfold s2, build_one. set (b := beacons (data s1) expirationTimeBeacon ASC). destruct (IsInitialized b) eqn:Hi; [done|].
  intros [Ho Hl]. cbn [on_beacon on_data data beacons]. rewrite decide_True by done. fold b.
  set (m := treasuresForBeacon BeaconTypeExpirationTime s1). change (sort_asc BeaconTypeExpirationTime) with SortByExpirationTimeAsc.
  assert (forall k x, m !! k = Some x -> key_at s x = k) as Hm.
  { intros k x (Hx & _)%map_lookup_filter_Some. by apply Hk. }
  destruct (sort_for_succeeds (deref s1) ByExpirationTimeAsc (PushManyFromMap m (SetInitialized true b)) Ho) as [b' E].
  pose proof (sort_for_ordered (deref s1) _ _ _ E) as (_ & _ & Hso & Hp & Hord). cbn [sort_for] in E. rewrite E.
  cbn [PushManyFromMap put treasuresByOrder SetInitialized isOrdered] in Hp. rewrite Ho, Hl in Hp. cbn [app] in Hp.
  destruct (range_values (key_at s) m Hm) as [Hnd Hel]. split.
  - by rewrite Hp.
  - intros x. rewrite Hp, Hel. unfold m, treasuresForBeacon. rewrite map_lookup_filter_Some. split.
    + intros [Hx He]. split; [by eexists|done].
    + intros [[k Hx] He]. by rewrite (Hk _ _ Hx).
  - intros i j x y Hij Hx Hy. pose proof (Hord i j x y Hij Hx Hy) as Hle. unfold isAscending, getTimestampFromTreasure in Hle.
    by rewrite Hso in Hle.
Qed.

(** The first [n] of the live treasures that have expired and are selected, in the order of
    their times: one is left out only when [n] others that expired no later are there. *)
Record first_expired (selection : option (loc -> bool)) (n : nat) (s : swamp) (xs : list loc) : Prop := {
  fe_nodup : NoDup xs;
  fe_most : (length xs <= n)%nat;
  fe_members x : x ∈ xs -> (exists k, live s !! k = Some x) /\ expired (deref s) (UnixNano now) x = true /\
    match selection with None => True | Some p => p x = true end;
  fe_sorted i j x y : (i < j)%nat -> xs !! i = Some x -> xs !! j = Some y ->
    GetExpirationTime (deref s x) <= GetExpirationTime (deref s y);
  fe_first k x : live s !! k = Some x -> expired (deref s) (UnixNano now) x = true ->
    match selection with None => True | Some p => p x = true end ->
    x ∈ xs \/ length xs = n /\ forall y, y ∈ xs -> GetExpirationTime (deref s y) <= GetExpirationTime (deref s x)
}.

Lemma chosen_first howMany sel cp capMax s :
  (forall k x, live s !! k = Some x -> key_at s x = k) -> expiry_kept s ->
  first_expired sel (Z.to_nat (quota howMany cp capMax s)) s (chosen howMany sel cp capMax s).
Proof.
  intros Hk He. destruct (expiring_order s Hk He) as [Hnd Hm Hs]. unfold chosen. set (n := Z.to_nat _).
  set (l := treasuresByOrder (expiring s)) in *. set (P := fun x => _). set (c := filter P l).
  assert (StronglySorted (fun x y => GetExpirationTime (deref s x) <= GetExpirationTime (deref s y)) c) as Hc.
  { apply sorted_filter, sorted_lookup, Hs. }
  assert (forall x, x ∈ c <-> x ∈ l /\ expired (deref s) (UnixNano now) x = true /\
    match sel with None => True | Some p => p x = true end) as Hin.
  { intros x. unfold c. rewrite list_elem_of_filter. unfold P. rewrite Is_true_true, andb_true_iff. destruct sel; tauto. }
  split.
  - apply (sublist_NoDup _ c); [apply NoDup_filter, Hnd|apply sublist_take].
  - rewrite length_take. lia.
  - intros x Hx. apply elem_of_take in Hx as (i & Hx & _). apply list_elem_of_lookup_2 in Hx.
    apply Hin in Hx as (Hx & ? & ?). apply Hm in Hx as [? _]. done.
  - intros i j x y Hij Hx Hy. apply lookup_take_Some in Hx as [Hx _], Hy as [Hy _]. exact (sorted_lookup_le _ c i j x y Hc Hij Hx Hy).
  - intros k x Hx Hexp Hsel. assert (x ∈ c) as Hxc.
    { apply Hin. split; [|done]. apply Hm. split; [by exists k|]. unfold expired in Hexp.
      apply andb_true_iff in Hexp as [Hne%negb_true_iff%Z.eqb_neq _]. done. }
    apply list_elem_of_lookup in Hxc as [j Hj]. destruct (decide (j < n)%nat) as [Hlt|Hge].
    + left. apply list_elem_of_lookup. exists j. by apply lookup_take_Some.
    + right. apply lookup_lt_Some in Hj as Hlen. split; [rewrite length_take; lia|]. intros y Hy.
      apply elem_of_take in Hy as (i & Hi & Hin'). apply (sorted_lookup_le _ c i j y x Hc); [lia|done..].
Qed.

(** What a swamp that keeps its invariant says of the objects taken. *)
Lemma expired_objects howMany sel cp capMax D s index spec :
  tracked D s index spec -> expiry_kept s ->
  (forall k x, live s !! k = Some x -> key_at s x = k) /\
  expiry_order s (treasuresByOrder (expiring s)) /\
  (forall x, x ∈ treasuresByOrder (expiring s) -> exists k, live s !! k = Some x) /\
  (forall x, x ∈ chosen howMany sel cp capMax s ->
     exists m, spec !! key_at s x = Some m /\ m_ExpirationTime m = GetExpirationTime (deref s x)).
Proof.
  intros Htr He. assert (forall k x, live s !! k = Some x -> key_at s x = k) as Hk.
  { intros k x Hx. by destruct (du_live _ _ _ (tr_durable _ _ _ _ Htr) _ _ Hx) as (_ & ? & _). }
  pose proof (expiring_order s Hk He) as Ho. split_and!; [done|done| |].
  - intros x [Hx _]%(eo_members _ _ Ho). done.
  - intros x Hx. destruct (fe_members _ _ _ _ (chosen_first howMany sel cp capMax s Hk He) x Hx) as ([k Hlx] & _).
    rewrite (Hk _ _ Hlx). pose proof (tr_spec _ _ _ _ Htr k) as Hs. destruct (spec !! k) as [m|]; [|congruence].
    destruct Hs as (y & Hy & <-). assert (x = y) as <- by congruence. by exists (with_file None (t_model (deref s x))).
Qed.

(** The beacons are no part of what a swamp keeps. *)
Lemma build_one_core p o sort bc s : core (build_one p o sort bc s) = core s.
Proof. unfold build_one. by destruct (IsInitialized _). Qed.
Lemma buildBeacon_core p bc s : core (buildBeacon p bc s) = core s.
Proof. unfold buildBeacon. by rewrite !build_one_core. Qed.
Lemma fold_core {A} (f : swamp -> A -> swamp) xs : (forall s x, core (f s x) = core s) -> forall s, core (foldl f s xs) = core s.
Proof. intros Hf. induction xs as [|x xs IH]; intros s; cbn; [done|]. by rewrite IH, Hf. Qed.
Lemma add_desc_core s x : core (add_desc s x) = core s.
Proof. unfold add_desc. destruct (_ =? _); [done|]. by destruct (IsInitialized _). Qed.
Lemma sort_desc_again_core s : core (sort_desc_again s) = core s.
Proof. unfold sort_desc_again. by destruct (IsInitialized _). Qed.
Lemma delete_desc_core s x : core (deleteTreasureIfBeaconInitialized expirationTimeBeacon DESC (key_at s x) s) = core s.
Proof. unfold deleteTreasureIfBeaconInitialized. by destruct (IsInitialized _). Qed.

Lemma select_chosen howMany sel cp capMax s :
  exists b capReached,
    SelectExpiredForPatchWithCap (deref s) howMany sel cp capMax (UnixNano now) (expiring s)
    = (b, chosen howMany sel cp capMax s, capReached).
Proof.
  unfold SelectExpiredForPatchWithCap, chosen, quota. change (cap_budget cp capMax ?n (touch ?b)) with (cap_budget cp capMax n b).
  destruct (cap_budget _ _ _ _) as [[n bounded]|]; [|by eexists _, _].
  unfold select. cbn [treasuresByOrder treasuresByKeys touch].
  destruct (shift_loop _ n 0 _) as [[t r] bey] eqn:Hs.
  destruct (shift_loop_spec _ _ _ _ _ _ _ Hs) as (-> & _). rewrite Z.sub_0_r. by eexists _, _.
Qed.

Lemma PatchExpired_tracked howMany sel cp capMax D s index spec :
  nothing_to_apply ops meta = false -> tracked D s index spec ->
  (forall x, x ∈ treasuresByOrder (expiring s) -> exists k, live s !! k = Some x) ->
  let ks := map (key_at s) (chosen howMany sel cp capMax s) in
  expireds_storable now ops condition meta ks spec ->
  let '(spec', es) := expireds_spec now ops condition meta ks spec in
  exists s' index' D' capReached,
    PatchExpired now howMany ops condition meta sel cp capMax s = Next (s', (es, capReached)) /\
    D' ⊆ D /\ tracked D' s' index' spec' /\ live s' = live s.
Proof.
  intros Hn Htr Hlive ks Hst. unfold PatchExpired. rewrite Hn. cbn zeta.
  set (s1 := buildBeacon _ _ _).
  assert (core s1 = core s) as Hc1 by (unfold s1; by rewrite buildBeacon_core, interact_core).
  destruct (select_chosen howMany sel cp capMax s) as (b & capReached & Hsel).
  change (beacons (data s1) expirationTimeBeacon ASC) with (expiring s). rewrite (core_deref _ _ Hc1), Hsel.
  set (xs := chosen howMany sel cp capMax s) in *. set (s2 := on_beacon _ _ _ s1).
  assert (core s2 = core s) as Hc2 by done.
  destruct (decide (xs = [])) as [Exs|Hne].
  { unfold ks. rewrite Exs. cbn. exists s2, index, D, capReached. split; [done|]. split; [done|]. split; [by apply (tracked_core _ s)|]. by apply core_live. }
  assert (forall A (a a' : A), match xs with [] => a | _ => a' end = a') as -> by (by destruct xs).
  set (s3 := foldl _ s2 xs).
  assert (core s3 = core s) as Hc3 by (unfold s3; rewrite fold_core; [done|apply delete_desc_core]).
  assert (Forall2 (fun x k => live s3 !! k = Some x) xs ks) as Hks.
  { rewrite (core_live _ _ Hc3). apply Forall2_fmap_r, Forall_Forall2_diag, Forall_forall. intros x Hx.
    assert (x ∈ treasuresByOrder (expiring s)) as Ho.
    { unfold xs, chosen in Hx. apply elem_of_take in Hx as (i & Hx & _). apply list_elem_of_lookup_2 in Hx. by apply list_elem_of_filter in Hx as [_ ?]. }
    destruct (Hlive x Ho) as [k Hk]. destruct (du_live _ _ _ (tr_durable _ _ _ _ Htr) _ _ Hk) as (_ & <- & _). done. }
  pose proof (patch_selected_tracked xs ks D s3 index spec (tracked_core _ _ _ _ _ Hc3 Htr) Hks Hst) as Hp.
  destruct (expireds_spec now ops condition meta ks spec) as [spec' es].
  destruct Hp as (s4 & index' & D' & -> & HD & Htr4 & Hl4). cbn [obind].
  set (s5 := on_beacon _ _ _ s4). set (s6 := sort_desc_again _).
  assert (core s6 = core s4) as Hc6.
  { unfold s6. rewrite sort_desc_again_core, fold_core; [done|apply add_desc_core]. }
  exists s6, index', D', capReached. split; [done|]. split; [done|]. split; [by apply (tracked_core _ s4)|].
  rewrite (core_live _ _ Hc6), Hl4. by apply core_live.
Qed.
End Many.
End SwampPatchExpired.
