(* ===== verification/SwampRun.v ===== *)
(** Clients of a swamp against its abstract state.

    A session is a list of requests, with the ticks of the write listener among them.  Each is
    answered as the abstract state, the models by key, says, and leaves the swamp tracked. *)
From Stdlib Require Import Floats.SpecFloat.
From S2P Require Import Prelude Steps Types Compressor Block FileSys Reader Contents Log Session.
From S2P Require Import Meta Chronicler Durability Guard Treasure Beacon Canon Bucket Swamp Gateway SwampInv SwampSteps Saving.
#[local] Set Warnings "-clear-no-such-hyp".

Inductive request : Type :=
| ReqSet (createIfNotExist overwrite : bool) (items : list KeyValuePair)
| ReqGet (keys : list bytes)
| ReqDelete (keys : list bytes)
| Tick.

Inductive reply : Type :=
| RepSet (codes : option (list (bytes * Status_Code)))
| RepGet (treasures : list pb_Treasure)
| RepDelete (codes : list (bytes * Status_Code))
| NoReply.

(** ** The abstract machine *)

Definition present (k : bytes) (spec : gmap bytes Model) : bool := is_some (spec !! k).

(** Whether [Set] skips an item, and what it makes of the others. *)
Definition skips (create overwrite : bool) (k : bytes) (spec : gmap bytes Model) : bool :=
  negb create && negb (present k spec) || negb overwrite && present k spec.
Definition new_model (item : KeyValuePair) (spec : gmap bytes Model) : Model :=
  model_edit (keyValuesToTreasure (Some item) 1)
    (default (t_model (put_Key (p_Key item) Treasure.New)) (spec !! p_Key item)).
Definition spec_set (create overwrite : bool) (item : KeyValuePair) (spec : gmap bytes Model) : gmap bytes Model :=
  if skips create overwrite (p_Key item) spec then spec else <[p_Key item := new_model item spec]> spec.

(** A key that was there is reported as updated, or as unchanged. *)
Definition set_code (create overwrite : bool) (k : bytes) (spec : gmap bytes Model) (code : Status_Code) : Prop :=
  if skips create overwrite k spec
  then code = if present k spec then Status_NOTHING_CHANGED else Status_NOT_FOUND
  else if present k spec then code = Status_UPDATED \/ code = Status_NOTHING_CHANGED
  else code = Status_NEW.

Fixpoint set_codes (create overwrite : bool) (items : list KeyValuePair) (spec : gmap bytes Model)
    (codes : list (bytes * Status_Code)) : Prop :=
  match items, codes with
  | [], [] => True
  | item :: items, (k, code) :: codes =>
      k = p_Key item /\ set_code create overwrite k spec code /\
      set_codes create overwrite items (spec_set create overwrite item spec) codes
  | _, _ => False
  end.

Definition spec_get (spec : gmap bytes Model) (k : bytes) : option pb_Treasure :=
  match spec !! k with
  | None => Some (empty_pb k)
  | Some m => treasureToKeyValuePair {| t_model := m; t_guard := Guard.New; t_flags := no_flags |}
  end.

Fixpoint delete_codes (keys : list bytes) (spec : gmap bytes Model) : list (bytes * Status_Code) :=
  match keys with
  | [] => []
  | k :: keys => (k, if present k spec then Status_DELETED else Status_NOT_FOUND) :: delete_codes keys (delete k spec)
  end.

Definition spec_step (r : request) (spec : gmap bytes Model) : gmap bytes Model :=
  match r with
  | ReqSet create overwrite items =>
      if negb create && negb overwrite then spec
      else foldl (fun spec item => spec_set create overwrite item spec) spec items
  | ReqGet _ | Tick => spec
  | ReqDelete keys => foldl (fun spec k => delete k spec) spec keys
  end.

Definition reply_ok (r : request) (spec : gmap bytes Model) (a : reply) : Prop :=
  match r, a with
  | ReqSet create overwrite items, RepSet None => create = false /\ overwrite = false
  | ReqSet create overwrite items, RepSet (Some codes) => set_codes create overwrite items spec codes
  | ReqGet keys, RepGet ts => mapM (spec_get spec) keys = Some ts
  | ReqDelete keys, RepDelete codes => codes = delete_codes keys spec
  | Tick, NoReply => True
  | _, _ => False
  end.

Section SwampRun.
Context `{SI : Store} `{GM : GobModel} `{GMeta : GobMeta} `{FI : FloatToInt} `{MP : Msgpack} `{SR : SlotRange}.
Context `{HR : KeyRange} `{HS : SortSlice} `{HROk : !KeyRangeOk} `{HOk : !StoreOk} `{GMOk : !GobOk}.

(** A tick is one at which the listener writes: see [write_tick_tracked] for the others. *)
Definition serve (now : Z) (r : request) (s : swamp) : outcome (swamp * reply) :=
  match r with
  | ReqSet create overwrite items => (let! (s, o) := gateway_Set now create overwrite items s in Next (s, RepSet o))
  | ReqGet keys => (let! (s, o) := gateway_Get now keys s in Next (s, RepGet o))
  | ReqDelete keys => (let! (s, o) := gateway_Delete now keys s in Next (s, RepDelete o))
  | Tick => (let! s := fileWriterHandler false s in Next (s, NoReply))
  end.

(** ** What a session may ask for

    Values that are no slices of numbers and can be stored; deletions that leave something,
    and no key deleted twice between two ticks ([D] are the keys deleted since the last). *)
Fixpoint may_set (create overwrite : bool) (items : list KeyValuePair) (spec : gmap bytes Model) : Prop :=
  match items with
  | [] => True
  | item :: items =>
      (skips create overwrite (p_Key item) spec = false ->
       p_Uint32Slice item = None /\ storable (new_model item spec) /\ storable (transmitted (new_model item spec))) /\
      may_set create overwrite items (spec_set create overwrite item spec)
  end.
Fixpoint may_delete (keys : list bytes) (spec : gmap bytes Model) (D : gset bytes) : Prop :=
  match keys with
  | [] => True
  | k :: keys =>
      (present k spec = true -> (k ∉ D) /\ delete k spec <> ∅) /\
      may_delete keys (delete k spec) (if present k spec then ({[k]} ∪ D) else D)
  end.
Definition may (now : Z) (r : request) (spec : gmap bytes Model) (D : gset bytes) : Prop :=
  match r with
  | ReqSet create overwrite items => may_set create overwrite items spec
  | ReqGet keys => is_Some (mapM (spec_get spec) keys)
  | ReqDelete keys => may_delete keys spec D /\ 0 < UnixNano now
  | Tick => True
  end.
(** The keys deleted since the last tick. *)
Definition fresh (r : request) (spec : gmap bytes Model) (D : gset bytes) : gset bytes :=
  match r with
  | ReqDelete keys => list_to_set keys ∪ D
  | Tick => ∅
  | _ => D
  end.

(** ** The requests *)

Lemma TreasureExists_tracked now k D s index spec :
  tracked D s index spec ->
  exists s', TreasureExists now k s = (s', present k spec) /\ core s' = core s.
Proof.
  intros Htr. exists (on_beaconKey touch (interact now s)). split; [|done].
  apply (f_equal (pair _)). transitivity (is_some (live s !! k)); [done|]. unfold present. pose proof (tr_spec _ _ _ _ Htr k) as Hs.
  destruct (spec !! k); [by destruct Hs as (x & -> & _)|by rewrite Hs].
Qed.

Lemma spec_ok_insert spec k m :
  spec_ok spec -> m_Key m = k -> m_DeletedAt m = 0 -> m_FileName m = None -> storable (transmitted m) ->
  spec_ok (<[k := m]> spec).
Proof.
  intros Hok ? ? ? ? k' m' [[<- <-]|[_ Hm]]%lookup_insert_Some; [done|]. by apply Hok.
Qed.
Lemma spec_ok_delete spec k : spec_ok spec -> spec_ok (delete k spec).
Proof. intros Hok k' m' [_ Hm]%lookup_delete_Some. by apply Hok. Qed.

Lemma new_model_fields item spec e :
  spec_ok spec -> edits (keyValuesToTreasure (Some item) 1) e ->
  m_Key (new_model item spec) = p_Key item /\ m_DeletedAt (new_model item spec) = 0 /\
  m_FileName (new_model item spec) = None.
Proof.
  intros Hok He. unfold new_model. rewrite (edits_model _ _ _ He), (ed_key _ _ He), (ed_deleted _ _ He), (ed_name _ _ He).
  destruct (spec !! p_Key item) as [m|] eqn:Hm; cbn [default]; [|done].
  destruct (Hok _ _ Hm) as (? & ? & ? & _). done.
Qed.

Lemma set_item_tracked now create overwrite item D s index spec :
  tracked D s index spec -> spec_ok spec ->
  (skips create overwrite (p_Key item) spec = false ->
   p_Uint32Slice item = None /\ storable (new_model item spec) /\ storable (transmitted (new_model item spec))) ->
  exists s' index' D' code, set_item now create overwrite item s = Next (s', code) /\ D' ⊆ D /\
    tracked D' s' index' (spec_set create overwrite item spec) /\ spec_ok (spec_set create overwrite item spec) /\
    set_code create overwrite (p_Key item) spec code.
Proof.
  intros Htr Hok Hmay. unfold set_item, spec_set, set_code. set (k := p_Key item) in *.
  assert (exists s1, (if create then (s, false) else let '(s, e) := TreasureExists now k s in (s, negb e))
      = (s1, negb create && negb (present k spec)) /\ core s1 = core s) as (s1 & -> & Hc1).
  { destruct create; [by exists s|]. destruct (TreasureExists_tracked now k _ _ _ _ Htr) as (s1 & -> & ?). by exists s1. }
  pose proof (tracked_core _ _ _ _ _ Hc1 Htr) as Htr1.
  destruct (negb create && negb (present k spec)) eqn:Hmiss.
  { assert (skips create overwrite k spec = true) as -> by (unfold skips; by rewrite Hmiss).
    exists s1, index, D, Status_NOT_FOUND. split_and!; try done.
    apply andb_true_iff in Hmiss as [_ Hp]. by destruct (present k spec). }
  assert (exists s2, (if overwrite then (s1, false) else TreasureExists now k s1)
      = (s2, negb overwrite && present k spec) /\ core s2 = core s1) as (s2 & -> & Hc2).
  { destruct overwrite; [by exists s1|]. destruct (TreasureExists_tracked now k _ _ _ _ Htr1) as (s2 & -> & ?). by exists s2. }
  pose proof (tracked_core _ _ _ _ _ Hc2 Htr1) as Htr2.
  destruct (negb overwrite && present k spec) eqn:Hpres.
  { assert (skips create overwrite k spec = true) as -> by (unfold skips; by rewrite Hmiss, Hpres).
    exists s2, index, D, Status_NOTHING_CHANGED. split_and!; try done.
    apply andb_true_iff in Hpres as [_ Hp]. by rewrite Hp. }
  assert (skips create overwrite k spec = false) as Hsk by (unfold skips; by rewrite Hmiss, Hpres).
  rewrite Hsk in *. destruct (Hmay eq_refl) as (Hsl & Hst & Hst').
  destruct (keyValuesToTreasure_edits item Hsl) as [e He].
  destruct (new_model_fields item spec e Hok He) as (Hk & Hd & Hf).
  assert (new_model item spec = e (default (blank k) (spec !! k))) as Hnm by (by apply edits_model).
  rewrite Hnm in *.
  destruct (edit_and_save_tracked now k (keyValuesToTreasure (Some item)) e D s2 index spec Htr2 He Hst)
    as (s' & index' & D' & st & -> & HD & Htr' & Hnew). cbn [obind].
  exists s', index', D', (convertTreasureStatusToPbStatus st). split; [done|]. split; [done|]. split; [done|].
  split; [by apply spec_ok_insert|]. unfold present. destruct (spec !! k) as [m|]; cbn [is_some].
  - destruct Hnew as [-> | ->]; auto.
  - by rewrite Hnew.
Qed.

Lemma set_items_tracked now create overwrite items D s index spec :
  tracked D s index spec -> spec_ok spec -> may_set create overwrite items spec ->
  let spec' := foldl (fun spec item => spec_set create overwrite item spec) spec items in
  exists s' index' codes, set_items now create overwrite items s = Next (s', codes) /\
    tracked D s' index' spec' /\ spec_ok spec' /\ set_codes create overwrite items spec codes.
Proof.
  cbn zeta. revert s index spec. induction items as [|item items IH]; intros s index spec Htr Hok Hmay;
    cbn [set_items foldl].
  { exists s, index, []. done. }
  destruct Hmay as [Hitem Hmay].
  destruct (set_item_tracked now _ _ _ _ _ _ _ Htr Hok Hitem) as (s1 & index1 & D1 & code & -> & HD & Htr1 & Hok1 & Hcode).
  cbn [obind]. apply (tracked_mono _ D) in Htr1; [|done].
  destruct (IH _ _ _ Htr1 Hok1 Hmay) as (s2 & index2 & codes & -> & Htr2 & Hok2 & Hcodes). cbn [obind].
  exists s2, index2, ((p_Key item, code) :: codes). split_and!; try done.
Qed.

Lemma pb_model t :
  treasureToKeyValuePair t =
  treasureToKeyValuePair {| t_model := with_file None (t_model t); t_guard := Guard.New; t_flags := no_flags |}.
Proof. done. Qed.

Lemma get_keys_tracked now keys ts D s index spec :
  tracked D s index spec -> mapM (spec_get spec) keys = Some ts ->
  exists s', get_keys now keys s = Next (s', ts) /\ core s' = core s.
Proof.
  revert s ts. induction keys as [|k keys IH]; intros s ts Htr; cbn [get_keys mapM].
  { intros [= <-]. by exists s. }
  intros Hts. apply bind_Some in Hts as (t & Ht & Hts). apply bind_Some in Hts as (ts' & Hts' & [= <-]).
  unfold GetTreasure. destruct (key_Get_spec k (interact now s)) as (s1 & -> & Hc1).
  change (live (interact now s)) with (live s). change (core (interact now s)) with (core s) in Hc1.
  assert (match live s !! k with
          | None => Next (empty_pb k)
          | Some x => of_panic (treasureToKeyValuePair (deref s1 x))
          end = Next t) as ->.
  { rewrite (core_deref _ _ Hc1). unfold spec_get in Ht. pose proof (tr_spec _ _ _ _ Htr k) as Hs.
    destruct (spec !! k) as [m|].
    - destruct Hs as (x & -> & <-). by rewrite pb_model, Ht.
    - rewrite Hs. by injection Ht as <-. }
  cbn [obind]. destruct (IH s1 ts') as (s2 & -> & Hc2); [by apply (tracked_core _ s)|done|].
  cbn [obind]. exists s2. split; [done|congruence].
Qed.

Lemma delete_items_tracked now keys D s index spec :
  tracked D s index spec -> spec_ok spec -> may_delete keys spec D -> 0 < UnixNano now ->
  let spec' := foldl (fun spec k => delete k spec) spec keys in
  exists s', delete_items now keys s = Next (s', delete_codes keys spec) /\
    tracked (list_to_set keys ∪ D) s' index spec' /\ spec_ok spec'.
Proof.
  cbn zeta. revert D s spec. induction keys as [|k keys IH]; intros D s spec Htr Hok Hmay Hnow;
    cbn [delete_items foldl delete_codes].
  { exists s. split; [done|]. split; [|done]. apply (tracked_mono D); [set_solver|done]. }
  destruct Hmay as [Hk Hmay]. unfold present in *. destruct (spec !! k) as [m|] eqn:Hm; cbn [is_some] in *.
  - destruct (Hk eq_refl) as [HkD Hne].
    destruct (DeleteTreasure_tracked now k false D s index spec) as (s1 & -> & Htr1); [done|by eexists|done..|].
    cbn [obind]. destruct (IH _ s1 _ Htr1) as (s2 & -> & Htr2 & Hok2); [by apply spec_ok_delete|done|done|].
    cbn [obind]. exists s2. split; [done|]. split; [|done]. apply (tracked_mono (list_to_set keys ∪ ({[k]} ∪ D))); [set_solver|done].
  - destruct (DeleteTreasure_missing now k false D s index spec) as (s1 & -> & Htr1); [done|done|].
    assert (delete k spec = spec) as Hdel by (by apply delete_id). rewrite Hdel in *.
    cbn [obind]. destruct (IH _ s1 _ Htr1) as (s2 & -> & Htr2 & Hok2); [done..|].
    cbn [obind]. exists s2. split; [done|]. split; [|done]. apply (tracked_mono (list_to_set keys ∪ D)); [set_solver|done].
Qed.

Lemma write_tick_tracked D s index spec :
  tracked D s index spec -> cancelled (ctl s) = false -> isFilesystemWritingActive (ctl s) = false ->
  exists s' index', write_tick s = Next s' /\ tracked ∅ s' index' spec.
Proof.
  intros Htr Hca Hac. unfold write_tick. rewrite Hca, Hac, (tr_open _ _ _ _ Htr). cbn [orb].
  unfold CountTreasuresWaitingForWriter. set (s1 := on_waiting touch s).
  assert (tracked D s1 index spec) as Htr1 by (by apply (tracked_core _ s)).
  case_match eqn:Hz.
  - exists s1, index. split; [done|]. apply Z.eqb_eq in Hz. cbn in Hz.
    assert (waiting s1 = ∅) as Hw by (apply map_size_empty_iff; change (waiting s1) with (waiting s); unfold waiting; lia).
    destruct Htr1 as [Hdu Ho Hse Hcr Hn Hdl Hsp]. split; try done.
    + intros k x Hx Hnf. exfalso. destruct (Hn k x Hx Hnf) as [Hwx _]. by rewrite Hw, lookup_empty in Hwx.
    + intros k. rewrite Hw, lookup_empty. by intros [].
  - destruct (flush_tracked false _ _ _ _ Htr1) as (s2 & index2 & -> & Htr2 & _). by exists s2, index2.
Qed.

Lemma serve_tracked now r D s index spec :
  tracked D s index spec -> spec_ok spec -> may now r spec D ->
  exists s' index' a, serve now r s = Next (s', a) /\ tracked (fresh r spec D) s' index' (spec_step r spec) /\
    spec_ok (spec_step r spec) /\ reply_ok r spec a.
Proof.
  intros Htr Hok Hmay. assert (tracked D (BeginVigil s) index spec) as Htrv by (by apply (tracked_core _ s)).
  destruct r as [create overwrite items|keys|keys|]; cbn [serve may spec_step fresh] in *.
  - unfold gateway_Set, vigilant. destruct (negb create && negb overwrite) eqn:Hm.
    { exists s, index, (RepSet None). split_and!; try done; by destruct create, overwrite. }
    destruct (set_items_tracked now create overwrite items _ _ _ _ Htrv Hok Hmay) as (s1 & index1 & codes & -> & Htr1 & Hok1 & Hc).
    cbn [obind]. exists (CeaseVigil s1), index1, (RepSet (Some codes)). split_and!; try done. by apply (tracked_core _ s1).
  - destruct Hmay as [ts Hts]. unfold gateway_Get, vigilant.
    destruct (get_keys_tracked now keys ts _ _ _ _ Htrv Hts) as (s1 & -> & Hc1). cbn [obind].
    exists (CeaseVigil s1), index, (RepGet ts). split_and!; try done. by apply (tracked_core _ (BeginVigil s)).
  - destruct Hmay as [Hmay Hnow]. unfold gateway_Delete, vigilant.
    destruct (delete_items_tracked now keys _ _ _ _ Htrv Hok Hmay Hnow) as (s1 & -> & Htr1 & Hok1). cbn [obind].
    eexists (CeaseVigil s1), index, (RepDelete _). split_and!; try done. by apply (tracked_core _ s1).
  - destruct (flush_tracked false _ _ _ _ Htr) as (s1 & index1 & -> & Htr1 & _). cbn [obind].
    exists s1, index1, NoReply. split_and!; done.
Qed.

(** ** Sessions *)

Fixpoint serve_all (rs : list (Z * request)) (s : swamp) : outcome (swamp * list reply) :=
  match rs with
  | [] => Next (s, [])
  | (now, r) :: rs =>
      let! (s, a) := serve now r s in
      let! (s, rest) := serve_all rs s in Next (s, a :: rest)
  end.

Fixpoint may_all (rs : list (Z * request)) (spec : gmap bytes Model) (D : gset bytes) : Prop :=
  match rs with
  | [] => True
  | (now, r) :: rs => may now r spec D /\ may_all rs (spec_step r spec) (fresh r spec D)
  end.

Lemma serve_all_tracked rs D s index spec :
  tracked D s index spec -> spec_ok spec -> may_all rs spec D ->
  exists s' index' D' replies, serve_all rs s = Next (s', replies) /\
    tracked D' s' index' (foldl (fun spec r => spec_step r.2 spec) spec rs) /\
    spec_ok (foldl (fun spec r => spec_step r.2 spec) spec rs) /\
    length replies = length rs /\
    forall i now r a, rs !! i = Some (now, r) -> replies !! i = Some a ->
      reply_ok r (foldl (fun spec r => spec_step r.2 spec) spec (take i rs)) a.
Proof.
  revert D s index spec. induction rs as [|[now r] rs IH]; intros D s index spec Htr Hok Hmay; cbn [serve_all foldl snd].
  { exists s, index, D, []. split_and!; done. }
  destruct Hmay as [Hr Hmay].
  destruct (serve_tracked _ _ _ _ _ _ Htr Hok Hr) as (s1 & index1 & a & -> & Htr1 & Hok1 & Ha). cbn [obind].
  destruct (IH _ _ _ _ Htr1 Hok1 Hmay) as (s2 & index2 & D2 & replies & -> & Htr2 & Hok2 & Hlen & Hrep). cbn [obind].
  exists s2, index2, D2, (a :: replies). split_and!; try done; [cbn; congruence|].
  intros [|i] now' r' a'; cbn.
  - by intros [= -> ->] [= ->].
  - apply Hrep.
Qed.
End SwampRun.
