(* ===== verification/SwampStore.v ===== *)
(** The V2 chronicler as the storage of a swamp.

    The instance of [Store] runs the chronicler of [Chronicler.v] on the file system; the
    instance of [StoreOk] is what [Durability.v] shows of it, and that its operations leave
    the registered callbacks alone.  [Sample] is an executable encoding and storage. *)
From S2P Require Import Prelude Types Compressor Block FileSys Writer Reader Contents.
From S2P Require Import Log Session Compactor Compaction Chronicler Durability.
From S2P Require Import Meta Guard Treasure Beacon Canon Bucket Swamp SwampInv.

(** ** Callbacks *)

Definition callbacks (c : chroniclerV2) : bool * bool := (dontSendFilePointer c, filePointerCallback c).
Definition same_callbacks : relation (world * chroniclerV2) := fun s s' => callbacks s'.2 = callbacks s.2.

#[export] Instance same_callbacks_preorder : PreOrder same_callbacks.
Proof. split; [done|]. intros s1 s2 s3 E1 E2. unfold same_callbacks in *. congruence. Qed.

Section SwampStore.
Context `{HC : Codecs} `{MR : MapRange} `{GM : GobModel}.
(** The configuration of the swamp's chroniclers. *)
Variable cfg : v2_config.
Let path : bytes := hydFilePath cfg.

#[local] Instance v2_treasures : TreasureCodec :=
  {| stored_treasure := Model; LoadFromByte d := with_file (Some path) <$> decode_model d |}.

Lemma on_world_callbacks {A} (m : M world A) : respects same_callbacks (on_world m).
Proof. intros [w c]. unfold on_world. cbn. by destruct (m w). Qed.
Lemma on_writer_callbacks {A} (m : M (world * FileWriter) A) : respects same_callbacks (on_writer m).
Proof.
  intros [w c]. unfold on_writer. cbn [fst snd]. destruct (writer c) as [fw|]; [|done].
  by destruct (m (w, fw)) as [[w' fw'] r].
Qed.
Lemma change_callbacks f : (forall c, callbacks (f c) = callbacks c) -> respects same_callbacks (change f).
Proof. intros Hf [w c]. apply Hf. Qed.
Lemma field_callbacks {A} (f : chroniclerV2 -> A) : respects same_callbacks (field f).
Proof. by intros s. Qed.

Ltac callback_step := first
  [ apply respects_ret, _ | apply field_callbacks | apply on_world_callbacks | apply on_writer_callbacks
  | apply change_callbacks; intros; done | apply respects_try | apply respects_ignore
  | apply respects_bind; [apply _| |intros] | case_match ].
Ltac callbacks := repeat callback_step.

Lemma ensureWriter_callbacks : respects same_callbacks ensureWriter.
Proof. unfold ensureWriter. callbacks. Qed.
Lemma close_writer_callbacks : respects same_callbacks close_writer.
Proof. unfold close_writer. callbacks. Qed.
Lemma runCompactionLocked_callbacks : respects same_callbacks runCompactionLocked.
Proof. unfold runCompactionLocked. apply respects_bind; [apply _|apply close_writer_callbacks|intros]. callbacks. Qed.
Lemma maybeCompactInline_callbacks n : respects same_callbacks (maybeCompactInline n).
Proof.
  unfold maybeCompactInline. cbv zeta.
  apply respects_bind; [apply _|apply field_callbacks|intros c].
  repeat (case_match; try apply respects_ret, _); callbacks. all: apply runCompactionLocked_callbacks.
Qed.
Lemma write_treasures_callbacks ts : respects same_callbacks (write_treasures ts).
Proof. induction ts as [|t ts IH]; cbn [write_treasures]; callbacks; apply IH. Qed.
Lemma load_self_heal_callbacks index n : respects same_callbacks (load_self_heal index n).
Proof. unfold load_self_heal. cbv zeta. callbacks. Qed.
Lemma Load_callbacks : respects same_callbacks Load.
Proof.
  unfold Load, Chronicler.path.
  repeat first [ apply load_self_heal_callbacks
               | apply change_callbacks; intros; case_decide; done | callback_step ].
Qed.

(** ** The instance *)

Definition returned {A} (r : result (option A)) : option A := match r with Ok o => o | Err _ => None end.

#[export] Instance v2_store : Store := {
  store := world * chroniclerV2;
  st_Register s := (s.1, RegisterLiveCountFunction (RegisterFilePointerFunction s.2));
  st_DontSendFilePointer s := (s.1, DontSendFilePointer s.2);
  st_Load s := let '(s, r) := Load s in (s, returned r);
  st_Write n ts s := let '(s, r) := Write n ts s in (s, returned r);
  st_Sync s := (chronicler_Sync s).1;
  st_Close n s := (chronicler_Close n s).1;
  st_ForceCompaction s := let '(s, r) := Chronicler.ForceCompaction s in (s, match r with Ok _ => true | Err _ => false end);
  st_Destroy s := (Chronicler.Destroy s).1
}.

Context `{COk : !CodecsOk} `{MROk : !MapRangeOk}.

Definition calls_back (c : chroniclerV2) : bool := filePointerCallback c && negb (dontSendFilePointer c).

Lemma keeps_set_callbacks w c index a b d : keeps_index w c index -> keeps_index w (set_callbacks a b d c) index.
Proof. intros []. by constructor. Qed.

Lemma chronicler_Close_closed n w c index :
  keeps_index w c index ->
  exists w' c', chronicler_Close n (w, c) = ((w', c'), Ok tt) /\ keeps_index w' c' index /\
    config c' = config c /\ writer_open c' = false.
Proof.
  intros Hi. unfold chronicler_Close. destruct (close_writer_acts _ _ _ Hi) as (w1 & c1 & E1 & Hi1 & Ho1 & Hc1 & _).
  rewrite (bind_run _ _ _ _ _ E1).
  destruct (maybeCompactInline_acts n w1 c1 _ Hi1) as (w2 & c2 & [] & E2 & Hi2 & Hc2 & _).
  exists w2, c2. split_and!; [done|done|congruence|].
  pose proof (maybeCompactInline_stays_closed n (w1, c1) Ho1) as Hm. by rewrite E2 in Hm.
Qed.

(** The events of a write. *)
Lemma Write_events live ts w c index w' c' a :
  Forall entry_ok (treasure_entries ts) -> keeps_index w c index -> Write live ts (w, c) = ((w', c'), Ok a) ->
  callbacks c' = callbacks c /\
  a = if calls_back c && negb (bool_decide (treasure_entries ts = []))
      then Some (map (fun e => (Types.Key e, the_file c)) (treasure_entries ts)) else None.
Proof.
  intros Hes Hi. unfold Write, bind at 1, field, gets. cbn [snd].
  rewrite (ki_alive _ _ _ Hi). case_decide as Hl.
  { apply length_zero_iff_nil in Hl as ->. intros [= <- <- <-]. split; [done|]. cbn. by rewrite andb_false_r. }
  destruct (ensureWriter_acts _ _ _ Hi) as (w1 & c1 & E1 & Hi1 & Ho1 & Hc1 & He1).
  rewrite (bind_run _ _ _ _ _ (try_run _ _ _ _ E1)).
  pose proof (ensureWriter_callbacks (w, c)) as Hcb1. rewrite E1 in Hcb1. unfold same_callbacks in Hcb1. cbn in Hcb1.
  destruct (write_treasures_acts ts w1 c1 index Hes Hi1 Ho1) as (w2 & c2 & keys & E2 & Hi2 & Hc2 & He2 & Hkeys).
  rewrite (bind_run _ _ _ _ _ E2). unfold bind at 1, field, gets. cbn [snd].
  pose proof (write_treasures_callbacks ts (w1, c1)) as Hcb2. rewrite E2 in Hcb2. unfold same_callbacks in Hcb2. cbn in Hcb2.
  unfold bind at 1, change, modify. cbn [fst snd].
  set (c3 := set_total _ c2).
  destruct (maybeCompactInline_acts live w2 c3 _ (keeps_counters _ _ _ _ _ Hi2))
    as (w4 & c4 & [] & E4 & Hi4 & Hc4 & He4).
  pose proof (maybeCompactInline_callbacks live (w2, c3)) as Hcb3. rewrite E4 in Hcb3. unfold same_callbacks in Hcb3. cbn in Hcb3.
  rewrite (bind_run _ _ _ _ _ E4). intros [= <- <- <-]. change (callbacks c3) with (callbacks c2) in Hcb3.
  assert (callbacks c2 = callbacks c) as Hcb by congruence. split; [congruence|].
  injection Hcb as Hd Hf. unfold calls_back. rewrite Hd, Hf.
  assert (hydFilePath (config c2) = the_file c) as -> by (unfold the_file; congruence).
  rewrite Hkeys. destruct (dontSendFilePointer c); cbn.
  { by rewrite andb_false_r. }
  rewrite andb_true_r. case_decide as Hn.
  - rewrite bool_decide_false by (intros He; apply Hn; by rewrite He).
    rewrite andb_true_r. destruct (filePointerCallback c); [|done]. by rewrite map_map.
  - rewrite !length_map in Hn. rewrite bool_decide_true, andb_false_r; [done|].
    destruct (treasure_entries ts); [done|]. by cbn in Hn.
Qed.

#[export] Instance v2_store_ok : StoreOk.
Proof.
  refine {|
    file := path;
    holds s index := keeps_index s.1 s.2 index /\ config s.2 = cfg;
    sends s := calls_back s.2;
    unopened s := writer_open s.2 = false /\ dontSendFilePointer s.2 = false;
    closed s := writer_open s.2 = false;
    reopens s s' := s'.1 = s.1 /\ config s'.2 = cfg /\ writer_open s'.2 = false /\
      dontSendFilePointer s'.2 = false /\ name_ok (c_swampName s'.2) /\ Chronicler.destroyed s'.2 = false
  |}.
  - intros [w c] index [w' c'] o [Hi Hp] [Ho Hd] E. cbn [st_Load st_Register v2_store fst snd] in *.
    set (c1 := RegisterLiveCountFunction _) in E.
    destruct (Load_acts w c1 index) as (w2 & c2 & r & E2 & Hi2 & Hc2 & _ & _ & -> & Hempty);
      [by apply keeps_set_callbacks, keeps_set_callbacks|done|].
    pose proof (Load_callbacks (w, c1)) as Hcb. rewrite E2 in E, Hcb. injection E as <- <- <-.
    unfold same_callbacks in Hcb. cbn in Hcb. injection Hcb as Hd2 Hf2. cbn [fst snd].
    split; [split; [done|by rewrite Hc2]|]. split.
    { unfold calls_back. by rewrite Hd2, Hf2, Hd. }
    cbn [returned]. destruct (files w !! the_file c1); cbn [default]; [done|].
    rewrite (Hempty eq_refl). by rewrite omap_empty.
  - intros n ts [w c] index [w' c'] ev [Hi Hp] Hes E. cbn [st_Write v2_store fst snd] in *.
    destruct (Write_acts n ts Hes w c index Hi) as (w2 & c2 & a & E2 & Hi2 & Hc2 & _).
    destruct (Write_events n ts w c index w2 c2 a Hes Hi E2) as [Hcb ->].
    rewrite E2 in E. injection E as <- <- <-. cbn [fst snd returned].
    split; [split; [done|congruence]|].
    injection Hcb as Hd Hf. assert (the_file c = path) as -> by (unfold the_file, path; by rewrite Hp).
    unfold calls_back. rewrite Hd, Hf. split; [done|]. split.
    + intros -> Hne. by rewrite bool_decide_false.
    + intros es. by destruct (_ && _); [intros [= <-]|].
  - intros [w c] index [Hi Hp]. cbn [st_Sync v2_store fst snd] in *.
    destruct (chronicler_Sync_acts w c index Hi) as (w2 & c2 & a & E2 & Hi2 & Hc2 & _).
    assert (same_callbacks (w, c) (chronicler_Sync (w, c)).1) as Hcb.
    { assert (respects same_callbacks chronicler_Sync) as Hr by (unfold chronicler_Sync; callbacks). apply Hr. }
    rewrite E2 in *. unfold same_callbacks in Hcb. cbn in Hcb. injection Hcb as Hd Hf. cbn [fst snd].
    split; [split; [done|congruence]|]. unfold calls_back. by rewrite Hd, Hf.
  - intros [w c] index [Hi Hp]. split; [by apply keeps_set_callbacks|done].
  - intros n [w c] index [Hi Hp]. cbn [st_Close v2_store fst snd] in *.
    destruct (chronicler_Close_closed n w c index Hi) as (w2 & c2 & -> & Hi2 & Hc2 & Ho2). cbn [fst snd].
    split; [split; [done|congruence]|done].
  - intros [w c] [w' c'] index [Hi Hp] Hcl (-> & Hc & Ho & Hd & Hn & Hdes). cbn [fst snd] in *.
    split; [split|done]; [|done].
    apply (keeps_index_file w c); congruence || done.
Defined.
End SwampStore.

(** ** A concrete storage for the examples

    The encoding stands in for [gob]: it is injective and drops the zero values a pointer
    points to, as [gob] does.  It covers treasures without content, void ones and those with a
    text, a signed number of 8 or 64 bits, a truth value, a slice of numbers or bytes. *)
From Stdlib Require Import Floats.SpecFloat.
From S2P Require Import Steps Gateway SwampSteps SwampRun.

Module Sample.
(** ** The encoding *)

#[local] Instance spec_float_eq_dec : EqDecision spec_float.
Proof. solve_decision. Defined.
#[local] Instance Content_eq_dec : EqDecision Content.
Proof. solve_decision. Defined.

Definition content_of_tag (p : Z * bytes * Z) : option Content :=
  match p with
  | (0, _, _) => None
  | (1, _, _) => Some void_content
  | (2, s, _) => Some (only_String s)
  | (3, _, z) => Some (only_Int64 z)
  | (4, _, _) => Some (only_Boolean true)
  | (6, s, _) => Some (only_Uint32Slice s)
  | (7, _, z) => Some (only_Int8 z)
  | (8, s, _) => Some (only_ByteArray (Some s))
  | _ => Some empty_content
  end.
Definition tag_of (c : option Content) : Z * bytes * Z :=
  match c with
  | None => (0, [], 0)
  | Some c =>
      if c_Void c then (1, [], 0) else
      match c_String c, c_Int64 c, c_Boolean c, c_Uint32Slice c with
      | Some s, _, _, _ => (2, s, 0)
      | _, Some z, _, _ => (3, [], z)
      | _, _, Some true, _ => (4, [], 0)
      | _, _, _, Some s => (6, s, 0)
      | _, _, _, _ => match c_Int8 c, c_ByteArray c with Some z, _ => (7, [], z) | None, Some s => (8, s, 0) | None, None => (5, [], 0) end
      end
  end.

Definition flat : Type := bytes * (Z * bytes * Z) * (Z * bytes) * (Z * bytes) * (Z * bytes) * Z * option bytes.
Definition flatten (m : Model) : flat :=
  (m_Key m, tag_of (m_Content m), (m_CreatedAt m, m_CreatedBy m), (m_DeletedAt m, m_DeletedBy m),
   (m_ModifiedAt m, m_ModifiedBy m), m_ExpirationTime m, m_FileName m).
Definition unflatten (f : flat) : Model :=
  let '(k, c, (ca, cb), (da, db), (ma, mb), e, n) := f in
  {| m_Key := k; m_Content := content_of_tag c; m_CreatedAt := ca; m_CreatedBy := cb; m_DeletedAt := da;
     m_DeletedBy := db; m_ModifiedAt := ma; m_ModifiedBy := mb; m_ExpirationTime := e; m_FileName := n |}.

Fixpoint pos_bits (p : positive) : bytes :=
  match p with xH => [Byte.x02] | xO p => Byte.x00 :: pos_bits p | xI p => Byte.x01 :: pos_bits p end.
Fixpoint bits_pos (l : bytes) : option positive :=
  match l with
  | Byte.x02 :: _ => Some xH
  | Byte.x00 :: l => xO <$> bits_pos l
  | Byte.x01 :: l => xI <$> bits_pos l
  | _ => None
  end.
Lemma bits_pos_bits p : bits_pos (pos_bits p) = Some p.
Proof. induction p as [p IH|p IH|]; cbn; by rewrite ?IH. Qed.

#[export] Instance sample_gob : GobModel := {
  encode_model m :=
    let m := transmitted m in
    if decide (content_of_tag (tag_of (m_Content m)) = m_Content m)
    then Some (pos_bits (countable.encode (flatten m))) else None;
  decode_model d := p ← bits_pos d; f ← countable.decode (A := flat) p; Some (unflatten f)
}.

#[export] Instance sample_gob_ok : GobOk.
Proof.
  split; intros m d; unfold encode_model, sample_gob; case_decide as Hc; try done; intros [= <-].
  - unfold decode_model. rewrite bits_pos_bits. cbn [mbind option_bind]. rewrite decode_encode.
    cbn [mbind option_bind]. f_equal. unfold unflatten, flatten.
    rewrite Hc. by destruct (transmitted m).
  - by destruct (countable.encode _).
Qed.

(** ** The rest of the environment *)

#[export] Existing Instance Stored.stored_codecs.
#[export] Existing Instance Stored.stored_codecs_ok.
#[export] Instance sample_maps : MapRange := map_to_list.
#[export] Instance sample_maps_ok : MapRangeOk.
Proof. by intros m. Qed.
#[export] Instance sample_keys : KeyRange := fun m => map_to_list m.
#[export] Instance sample_keys_ok : KeyRangeOk.
Proof. by intros m. Qed.
#[export] Instance sample_sort : SortSlice := fun less l => sort_stable less [] l.
#[export] Instance sample_meta : GobMeta := {| encode_meta _ := None; decode_meta _ := None |}.
#[export] Instance sample_floats : FloatToInt := {| int64_outside _ := - 2 ^ 63; uint64_outside _ := 2 ^ 63 |}.
#[export] Instance sample_msgpack : Msgpack := fun _ => None.
#[export] Instance sample_slots : SlotRange := {| slot_range := map_to_list; value_range l := l |}.

Definition sample_chronicler : chroniclerV2 := NewV2WithName (bs "data/x") (bs "users/alice").
Definition sample_path : bytes := the_file sample_chronicler.
#[export] Instance sample_store : Store := v2_store (config sample_chronicler).
#[export] Instance sample_store_ok : StoreOk := v2_store_ok (config sample_chronicler).

Definition no_files : world := {| files := ∅; faults := []; clock := 1700000000000000000 |}.
Lemma sample_storage_keeps : keeps_index no_files sample_chronicler ∅.
Proof.
  constructor; try done. exists [], []. split_and!; [by left|constructor|by vm_compute|done].
Qed.

Definition opened_at (interval : Z) (w : world) : swamp :=
  Swamp.New 0 0 (Some ((w, sample_chronicler), interval)) (Noop (NewNoop 0)) None.
Definition item (k v : string) : KeyValuePair :=
  {| p_Key := bs k; p_Int8Val := None; p_Int16Val := None; p_Int32Val := None; p_Int64Val := None;
     p_Uint8Val := None; p_Uint16Val := None; p_Uint32Val := None; p_Uint64Val := None; p_Float32Val := None;
     p_Float64Val := None; p_StringVal := Some (bs v); p_BoolVal := None; p_BytesVal := None;
     p_Uint32Slice := None; p_VoidVal := None; p_CreatedAt := None; p_CreatedBy := []; p_UpdatedAt := None;
     p_UpdatedBy := []; p_ExpiredAt := None |}.

Lemma sample_named : name_ok (c_swampName sample_chronicler).
Proof. by vm_compute. Qed.

(** The texts a list of replies holds. *)
Definition texts (ts : list pb_Treasure) : list (option bytes) := map o_StringVal ts.

(** A session, the close, and a read from the swamp opened afterwards. *)
Definition after_session (rs : list (Z * request)) (keys : list bytes) : option (list reply * list pb_Treasure) :=
  match serve_all rs (opened_at 1 no_files) with
  | Next (s, replies) =>
      match Swamp.Close s with
      | Next s' =>
          match chron s' with
          | Some (w, _) => match gateway_Get 0 keys (opened_at 1 w) with Next (_, ts) => Some (replies, ts) | _ => None end
          | None => None
          end
      | _ => None
      end
  | _ => None
  end.

(** What [storable] asks of a model, evaluated. *)
Definition storable_at (p : bytes) (m : Model) : bool :=
  bool_decide (m_Key m <> [] /\ Z.of_nat (length (m_Key m)) < 2 ^ 16) &&
  forallb (fun f => match encode_model (with_file f m) with
                    | Some d => bool_decide (Z.of_nat (length d) < 2 ^ 30) | None => false end) [None; Some p].

Lemma storable_sample m : storable_at sample_path m = true -> storable m.
Proof.
  unfold storable_at, storable, key_fits. intros [Hk%bool_decide_eq_true Hf]%andb_true_iff. split; [exact Hk|].
  cbn [forallb] in Hf. rewrite !andb_true_iff in Hf. destruct Hf as (H1 & H2 & _).
  intros f [-> | ->].
  - destruct (encode_model (with_file None m)) as [d|]; [|done]. exists d. split; [done|].
    by apply bool_decide_eq_true in H1.
  - change file with sample_path. destruct (encode_model (with_file (Some sample_path) m)) as [d|]; [|done].
    exists d. split; [done|]. by apply bool_decide_eq_true in H2.
Qed.

(** A swamp without keys that has a write interval. *)
Lemma new_tracked : tracked ∅ (opened_at 1 no_files) ∅ ∅.
Proof.
  assert (tracked ∅ (opened_at 1 no_files) ∅ (transmitted <$> ∅)) as Htr; [|by rewrite fmap_empty in Htr].
  apply New_tracked; [split; [apply sample_storage_keeps|done]|done| |].
  - intros k'. by rewrite !lookup_empty.
  - intros k' m. by rewrite lookup_empty.
Qed.
End Sample.
