(* ===== verification/Names.v ===== *)
(** Names of swamps and their patterns: [name/name.go].

    A name has three parts, a sanctuary, a realm and a swamp, and a path that joins them with
    slashes.  A swamp's file lies in a folder that is computed from the hash of the path. *)
From S2P Require Import Prelude Steps Text.
#[local] Set Warnings "-register-all,-clear-no-such-hyp".

(** ** [path/filepath] *)

Definition slash : byte := Byte.x2f.

(** The parts of a path without the empty ones and the dots; the first argument holds the
    parts so far, the last one first. *)
Fixpoint clean_parts (rooted : bool) (acc ps : list bytes) : list bytes :=
  match ps with
  | [] => rev acc
  | p :: ps =>
      if decide (p = [] \/ p = bs ".") then clean_parts rooted acc ps
      else if decide (p = bs "..") then
        match acc with
        | [] => clean_parts rooted (if rooted then [] else [p]) ps
        | q :: acc' => clean_parts rooted (if decide (q = bs "..") then p :: acc else acc') ps
        end
      else clean_parts rooted (p :: acc) ps
  end.

(** [filepath.Clean] *)
Definition Clean (path : bytes) : bytes :=
  let rooted := has_prefix [slash] path in
  match clean_parts rooted [] (split slash path) with
  | [] => if rooted then [slash] else bs "."
  | ps => (if rooted then [slash] else []) ++ join slash ps
  end.

(** [filepath.Join] *)
Fixpoint Join (elems : list bytes) : bytes :=
  match elems with
  | [] => []
  | [] :: elems => Join elems
  | elems => Clean (join slash elems)
  end.

Example Clean_examples :
  map (fun s => Clean (bs s)) ["/a//b/./c"; "a/../.."; "/../x"; ""]%string = [bs "/a/b/c"; bs ".."; bs "/x"; bs "."].
Proof. by vm_compute. Qed.

(** [xxhash.Sum64], of a package the repository only calls. *)
Class XXHash := Sum64 : bytes -> Z.
Class XXHashOk `{XH : XXHash} : Prop := Sum64_u64 : forall s, 0 <= Sum64 s < 2 ^ 64.

Section Names.
Context `{XH : XXHash}.

(** ** Data *)

Record name := {
  Path : bytes; SanctuaryID : bytes; RealmName : bytes; SwampName : bytes;
  HashPath : bytes; ServerNumber : Z; FolderNumber : Z
}.

Definition name_at (path sanctuary realm swamp : bytes) : name :=
  {| Path := path; SanctuaryID := sanctuary; RealmName := realm; SwampName := swamp;
     HashPath := []; ServerNumber := 0; FolderNumber := 0 |}.

(** ** Operations *)

Definition New : name := name_at [] [] [] [].
Definition Sanctuary (sanctuaryID : bytes) (n : name) : name := name_at sanctuaryID sanctuaryID [] [].
Definition Realm (realmName : bytes) (n : name) : name :=
  name_at (Path n ++ slash :: realmName) (SanctuaryID n) realmName [].
Definition Swamp (swampName : bytes) (n : name) : name :=
  name_at (Path n ++ slash :: swampName) (SanctuaryID n) (RealmName n) swampName.
Definition Get (n : name) : bytes := Path n.

Definition with_folder (f : Z) (n : name) : name :=
  {| Path := Path n; SanctuaryID := SanctuaryID n; RealmName := RealmName n; SwampName := SwampName n;
     HashPath := HashPath n; ServerNumber := ServerNumber n; FolderNumber := f |}.
Definition with_hash_path (p : bytes) (n : name) : name :=
  {| Path := Path n; SanctuaryID := SanctuaryID n; RealmName := RealmName n; SwampName := SwampName n;
     HashPath := p; ServerNumber := ServerNumber n; FolderNumber := FolderNumber n |}.

(** Dividing by zero folders panics; the number is kept in the name. *)
Definition GetFolderNumber (allFolders : Z) (n : name) : outcome (name * Z) :=
  if decide (FolderNumber n <> 0) then Next (n, FolderNumber n) else
  if decide (allFolders = 0) then Panic else
  let hash := Sum64 (SanctuaryID n ++ RealmName n ++ SwampName n) in
  let f := u16 (u16 (hash mod allFolders) + 1) in
  Next (with_folder f n, f).

Definition star : bytes := bs "*".
Definition IsWildcardPattern (n : name) : bool :=
  bool_decide (SanctuaryID n = star) || bool_decide (RealmName n = star) || bool_decide (SwampName n = star).

Definition ComparePattern (n comparableName : name) : bool :=
  if decide (SanctuaryID n <> SanctuaryID comparableName) then false else
  if decide (RealmName comparableName <> star /\ RealmName n <> RealmName comparableName) then false else
  if decide (SwampName comparableName <> star /\ SwampName n <> SwampName comparableName) then false else true.

(** A path with fewer than three parts panics. *)
Definition Load (path : bytes) : outcome name :=
  match split slash path with
  | sanctuaryID :: realmName :: swampName :: _ =>
      Next (name_at (sanctuaryID ++ [slash] ++ realmName ++ [slash] ++ swampName) sanctuaryID realmName swampName)
  | _ => Panic
  end.

(** ** The folder of a swamp *)

(** [len(fmt.Sprintf("%x", z))] *)
Definition hex_length (z : Z) : nat := if decide (z < 0) then S (length (hex (- z))) else length (hex z).
Definition charsPerLevel (maxFoldersPerLevel : Z) : nat := Nat.max 2 (hex_length (maxFoldersPerLevel - 1)).

(** The parts from number [i] on, [n] of them; a part that starts behind the end panics. *)
Fixpoint hash_parts (hashHex : bytes) (chars : nat) (n i : nat) : outcome (list bytes) :=
  match n with
  | O => Next []
  | S n =>
      let start := (i * chars)%nat in
      let stop := Nat.min (start + chars) (length hashHex) in
      if decide (stop < start)%nat then Panic else
      let! parts := hash_parts hashHex chars n (S i) in
      Next (take (stop - start) (drop start hashHex) :: parts)
  end.

Definition generateHashedDirectoryPath (input : bytes) (depth maxFoldersPerLevel : Z) : outcome bytes :=
  if decide (depth < 0) then Panic else
  let! parts := hash_parts (hex (Sum64 input)) (charsPerLevel maxFoldersPerLevel) (Z.to_nat depth) 0 in
  Next (join slash parts).

Definition generateSwampFolderName (swampName : bytes) : bytes := hex (Sum64 swampName).

(** The path is kept in the name: later calls answer with it, whatever they ask for. *)
Definition GetFullHashPath (rootPath : bytes) (islandID depth maxFoldersPerLevel : Z) (n : name) : outcome (name * bytes) :=
  if decide (HashPath n <> []) then Next (n, HashPath n) else
  let! hashedDirectoryPath := generateHashedDirectoryPath (Path n) depth maxFoldersPerLevel in
  let p := Join [rootPath; decimal islandID; hashedDirectoryPath; generateSwampFolderName (Path n)] in
  Next (with_hash_path p n, p).
End Names.

(** ** Paths *)

Definition plain (p : bytes) : Prop := p <> [] /\ p <> bs "." /\ p <> bs ".." /\ slash ∉ p.

Lemma clean_parts_plain rooted qs : Forall (fun q => q = [] \/ plain q) qs -> forall ps acc,
  clean_parts rooted acc (ps ++ qs) = clean_parts rooted acc ps ++ filter (fun q => q <> []) qs.
Proof.
  intros Hqs. induction ps as [|p ps IH]; cbn [app clean_parts]; intros acc.
  - revert acc. induction Hqs as [|q qs Hq _ IHq]; intros acc; cbn [clean_parts]; [by rewrite app_nil_r|].
    destruct (decide (q = [])) as [->|Hne]; [rewrite decide_True by auto; rewrite filter_cons_False by naive_solver; by rewrite IHq|].
    destruct Hq as [|(_ & Hd & Hdd & _)]; [done|].
    rewrite decide_False by naive_solver. rewrite decide_False by done. rewrite IHq, filter_cons_True by done. cbn [rev].
    by rewrite <-app_assoc.
  - case_decide; [apply IH|]. case_decide; [|apply IH]. destruct acc; apply IH.
Qed.

Lemma clean_parts_free rooted ps : Forall (fun p => slash ∉ p) ps -> forall acc,
  Forall (fun p => slash ∉ p) acc -> Forall (fun p => slash ∉ p) (clean_parts rooted acc ps).
Proof.
  induction 1 as [|p ps Hp _ IH]; intros acc Hacc; cbn [clean_parts]; [by apply Forall_rev|].
  case_decide; [by apply IH|]. case_decide.
  - destruct acc as [|q acc]; apply IH; [by destruct rooted; constructor|].
    apply Forall_cons in Hacc as [? ?]. case_decide; by repeat constructor.
  - apply IH. by constructor.
Qed.

Lemma split_concat ps : ps <> [] -> split slash (join slash ps) = concat (map (split slash) ps).
Proof.
  induction ps as [|p ps IH]; [done|]. intros _. destruct ps as [|q ps]; [cbn; by rewrite app_nil_r|].
  change (join slash (p :: q :: ps)) with (p ++ slash :: join slash (q :: ps)). rewrite split_app, IH by done. done.
Qed.
Lemma has_prefix_app p s : p <> [] -> has_prefix [slash] (p ++ s) = has_prefix [slash] p.
Proof. by destruct p. Qed.

(** ** Numbers as text *)

Lemma hex_digit_bound z : 0 <= z < 16 -> hex_digit z <> slash /\ hex_digit z <> Byte.x2e.
Proof.
  intros Hz. assert (forallb (fun n => negb (bool_decide (hex_digit (Z.of_nat n) = slash)) &&
    negb (bool_decide (hex_digit (Z.of_nat n) = Byte.x2e))) (seq 0 16) = true) as Ha by (by vm_compute).
  rewrite forallb_forall in Ha. specialize (Ha (Z.to_nat z)). rewrite in_seq, Z2Nat.id in Ha by lia.
  apply andb_true_iff in Ha as [H1 H2]; [|lia]. apply negb_true_iff, bool_decide_eq_false in H1, H2. done.
Qed.
Lemma hex_digit_inj z w : 0 <= z < 16 -> 0 <= w < 16 -> hex_digit z = hex_digit w -> z = w.
Proof.
  intros Hz Hw He. apply (f_equal Z_of_byte) in He. unfold hex_digit in He. rewrite !Z_of_byte_of_Z in He.
  case_decide; case_decide; rewrite !Z.mod_small in He by lia; lia.
Qed.

Section Bases.
Context (b : Z) (Hb : 2 <= b <= 16).

Lemma in_base_inj fuel : forall n m, 0 <= n < b ^ Z.of_nat fuel -> 0 <= m < b ^ Z.of_nat fuel ->
  in_base fuel b n = in_base fuel b m -> n = m.
Proof.
  assert (forall fuel n, 0 <= n < b ^ Z.of_nat (S fuel) -> 0 <= n / b < b ^ Z.of_nat fuel) as Hdiv.
  { intros f n Hn. rewrite Nat2Z.inj_succ, Z.pow_succ_r in Hn by lia.
    split; [apply Z.div_pos; lia|]. apply Z.div_lt_upper_bound; lia. }
  assert (forall fuel n, 0 <= n < b ^ Z.of_nat fuel -> n <> 0 -> in_base fuel b n <> []) as Hne.
  { intros [|f] n Hn Hz; [cbn in Hn; lia|]. cbn [in_base]. by destruct (if decide (n / b = 0) then _ else _). }
  induction fuel as [|fuel IH]; intros n m Hn Hm; [cbn in *; lia|]. cbn [in_base].
  intros [Hp Hd]%app_inj_tail. assert (n mod b = m mod b) as Hmod
    by (apply hex_digit_inj; [..|done]; pose proof (Z.mod_pos_bound n b); pose proof (Z.mod_pos_bound m b); lia).
  pose proof (Hdiv _ _ Hn) as Hn'. pose proof (Hdiv _ _ Hm) as Hm'.
  assert (n / b = m / b) as Hq.
  { case_decide as H1; case_decide as H2; [congruence| | |by apply IH].
    - symmetry in Hp. by destruct (Hne _ _ Hm' H2 Hp).
    - by destruct (Hne _ _ Hn' H1 Hp). }
  rewrite (Z.div_mod n b), (Z.div_mod m b) by lia. by rewrite Hq, Hmod.
Qed.

Lemma in_base_chars fuel : forall n, Forall (fun c => c <> slash /\ c <> Byte.x2e) (in_base fuel b n).
Proof.
  induction fuel as [|fuel IH]; intros n; cbn [in_base]; [constructor|].
  apply Forall_app. split; [by case_decide|]. repeat constructor; apply hex_digit_bound;
    pose proof (Z.mod_pos_bound n b); lia.
Qed.

Lemma in_base_plain fuel n : plain (in_base (S fuel) b n).
Proof.
  pose proof (in_base_chars (S fuel) n) as Hc. set (s := in_base (S fuel) b n) in *.
  assert (s <> []) as Hne by (unfold s; cbn [in_base]; by destruct (if decide (n / b = 0) then _ else _)).
  split; [done|]. destruct s as [|c s]; [done|]. apply Forall_cons in Hc as [[Hs Hd] Hc].
  split; [by intros [= -> ->]|]. split; [by intros [= -> ->]|].
  apply not_elem_of_cons. split; [congruence|]. intros Hin. rewrite Forall_forall in Hc. by destruct (Hc _ Hin).
Qed.
End Bases.

Lemma hex_inj n m : 0 <= n < 2 ^ 64 -> 0 <= m < 2 ^ 64 -> hex n = hex m -> n = m.
Proof. intros. apply (in_base_inj 16 ltac:(lia) 64); [lia|lia|done]. Qed.
Lemma decimal_inj n m : 0 <= n < 2 ^ 64 -> 0 <= m < 2 ^ 64 -> decimal n = decimal m -> n = m.
Proof. intros. apply (in_base_inj 10 ltac:(lia) 64); [lia|lia|done]. Qed.
Lemma hex_plain n : plain (hex n). Proof. by apply in_base_plain. Qed.
Lemma decimal_plain n : plain (decimal n). Proof. by apply in_base_plain. Qed.

(** ** The location of a swamp *)

(** A text whose characters are digits is no special part of a path. *)
Definition free (q : bytes) : Prop := Forall (fun c => c <> slash /\ c <> Byte.x2e) q.
Lemma free_plain q : free q -> q = [] \/ plain q.
Proof.
  intros Hf. destruct q as [|c q]; [by left|]. right. apply Forall_cons in Hf as [[Hs Hd] Hf].
  split; [done|]. split; [by intros [= -> ->]|]. split; [by intros [= -> ->]|].
  apply not_elem_of_cons. split; [congruence|]. intros Hin. unfold free in Hf. rewrite Forall_forall in Hf. by destruct (Hf _ Hin).
Qed.

(** The path below a root, when the parts are plain. *)
Definition below (root : bytes) (ps : list bytes) : bytes :=
  let rooted := has_prefix [slash] root in
  (if rooted then [slash] else []) ++ join slash (clean_parts rooted [] (split slash root) ++ ps).

Lemma Join_below root island dirs folder :
  plain island -> Forall free dirs -> plain folder ->
  Join [root; island; join slash dirs; folder] = below root (island :: filter (fun q => q <> []) dirs ++ [folder]).
Proof.
  intros Hi Hd Hf. set (rest := [island; join slash dirs; folder]).
  assert (Join (root :: rest) = Clean (join slash (match root with [] => rest | _ => root :: rest end))) as ->.
  { destruct root; [|done]. destruct island; [by destruct Hi|done]. }
  assert (concat (map (split slash) rest) = [island] ++ (match dirs with [] => [[]] | _ => dirs end) ++ [folder]) as Hrest.
  { assert (split slash (join slash dirs) = match dirs with [] => [[]] | _ => dirs end) as Hdirs.
    { destruct dirs as [|d dirs]; [done|]. apply split_join; [done|]. intros p Hp. rewrite Forall_forall in Hd.
      destruct (free_plain _ (Hd _ Hp)) as [->|Hpl]; [apply not_elem_of_nil|apply Hpl]. }
    unfold rest. cbn [map concat]. rewrite Hdirs, !split_last by apply Hi || apply Hf. by rewrite app_nil_r. }
  set (tail := [island] ++ _ ++ [folder]) in Hrest.
  assert (Forall (fun q => q = [] \/ plain q) tail) as Htail.
  { unfold tail. rewrite !Forall_app. split; [by constructor; auto|]. split; [|by constructor; auto].
    destruct dirs; [constructor; auto|]. eapply Forall_impl; [exact Hd|]. apply free_plain. }
  assert (filter (fun q => q <> []) tail = island :: filter (fun q => q <> []) dirs ++ [folder]) as Hfil.
  { unfold tail. rewrite !filter_app, filter_cons_True by apply Hi. rewrite (filter_cons_True _ folder) by apply Hf.
    destruct dirs; done. }
  unfold Clean, below. assert (has_prefix [slash] (join slash (match root with [] => rest | _ => root :: rest end)) = has_prefix [slash] root) as ->.
  { destruct root as [|c root]; [|done]. cbn. destruct island as [|c island]; [by destruct Hi|]. cbn. rewrite andb_true_r.
    apply bool_decide_eq_false. intros <-. destruct Hi as (_ & _ & _ & Hi). apply Hi. by left. }
  assert (clean_parts (has_prefix [slash] root) [] (split slash (join slash (match root with [] => rest | _ => root :: rest end)))
    = clean_parts (has_prefix [slash] root) [] (split slash root) ++ filter (fun q => q <> []) tail) as ->.
  { destruct root as [|c root].
    - rewrite split_concat, Hrest by done. change tail with ([] ++ tail) at 1. by rewrite clean_parts_plain.
    - rewrite split_concat by done. cbn [map concat]. rewrite Hrest. by rewrite clean_parts_plain. }
  rewrite Hfil. set (ps := clean_parts _ _ _ ++ _). assert (ps <> []) as Hne by (unfold ps; by destruct (clean_parts _ _ _)).
  by destruct ps.
Qed.

Lemma below_inj root ps qs :
  Forall plain ps -> Forall plain qs -> ps <> [] -> qs <> [] -> below root ps = below root qs -> ps = qs.
Proof.
  intros Hp Hq Hpn Hqn. unfold below. intros He%app_inv_head. apply (f_equal (split slash)) in He.
  assert (Forall (fun p => slash ∉ p) (clean_parts (has_prefix [slash] root) [] (split slash root))) as Hroot.
  { apply clean_parts_free; [|constructor]. apply Forall_forall. intros p. apply split_free. }
  assert (forall rs, Forall plain rs -> rs <> [] ->
    split slash (join slash (clean_parts (has_prefix [slash] root) [] (split slash root) ++ rs))
    = clean_parts (has_prefix [slash] root) [] (split slash root) ++ rs) as Hs.
  { intros rs Hrs Hne. apply split_join; [by destruct rs, (clean_parts _ _ _)|]. intros p [Hin|Hin]%elem_of_app.
    - rewrite Forall_forall in Hroot. auto.
    - rewrite Forall_forall in Hrs. apply Hrs. done. }
  rewrite !Hs in He by done. by apply app_inv_head in He.
Qed.

(** When the parts of a hash are all there. *)
Definition deep_enough (hash depth maxFoldersPerLevel : Z) : Prop :=
  0 <= depth /\ (Z.to_nat depth = 0 \/ (Z.to_nat depth - 1) * charsPerLevel maxFoldersPerLevel <= length (hex hash))%nat.

Lemma hash_parts_ok h c n : forall i,
  (n = 0 \/ (i + n - 1) * c <= length h)%nat <-> exists parts, hash_parts h c n i = Next parts.
Proof.
  induction n as [|n IH]; intros i; cbn [hash_parts]; [split; [by exists []|auto]|].
  destruct (decide (Nat.min (i * c + c) (length h) < i * c)%nat) as [Hlt|Hge].
  - split; [|by intros []]. intros [|Hle]; [done|]. exfalso. assert (i * c <= (i + S n - 1) * c)%nat by nia. lia.
  - transitivity (exists parts, hash_parts h c n (S i) = Next parts).
    { rewrite <-IH. destruct n; [split; [by left|intros _; right; replace (i + 1 - 1)%nat with i by lia; lia]|].
      replace (S i + S n - 1)%nat with (i + S (S n) - 1)%nat by lia. by split; (intros [|Hle]; [done|right]). }
    split; [intros [parts ->]; by eexists|]. intros [parts Hp]. destruct (hash_parts h c n (S i)); by eexists.
Qed.

Lemma hash_parts_free h c n : free h -> forall i parts, hash_parts h c n i = Next parts -> Forall free parts.
Proof.
  intros Hh. induction n as [|n IH]; intros i parts; cbn [hash_parts]; [intros [= <-]; constructor|].
  case_decide; [done|]. destruct (hash_parts h c n (S i)) as [| |parts'] eqn:E; try done. cbn [obind]. intros [= <-].
  constructor; [by apply Forall_take, Forall_drop|eauto].
Qed.

Section Locations.
Context `{XH : XXHash}.

Lemma GetFullHashPath_fresh (root : bytes) (island depth max : Z) (n : name) :
  HashPath n = [] -> deep_enough (Sum64 (Path n)) depth max ->
  exists dirs, hash_parts (hex (Sum64 (Path n))) (charsPerLevel max) (Z.to_nat depth) 0%nat = Next dirs /\ Forall free dirs /\
    let p := below root (decimal island :: filter (fun q => q <> []) dirs ++ [hex (Sum64 (Path n))]) in
    GetFullHashPath root island depth max n = Next (with_hash_path p n, p).
Proof.
  intros Hn [Hd Hdeep]. destruct (proj1 (hash_parts_ok (hex (Sum64 (Path n))) (charsPerLevel max) (Z.to_nat depth) 0) Hdeep) as [dirs Hdirs].
  assert (Forall free dirs) as Hf by (eapply hash_parts_free; [|exact Hdirs]; by apply in_base_chars).
  exists dirs. split; [done|]. split; [done|]. cbn zeta. unfold GetFullHashPath. rewrite decide_False by (rewrite Hn; auto).
  unfold generateHashedDirectoryPath. rewrite decide_False by lia. rewrite Hdirs. cbn [obind]. cbn zeta.
  unfold generateSwampFolderName. by rewrite Join_below by (apply decimal_plain || apply hex_plain || done).
Qed.

Lemma GetFullHashPath_shallow (root : bytes) (island depth max : Z) (n : name) :
  HashPath n = [] -> ~ deep_enough (Sum64 (Path n)) depth max -> GetFullHashPath root island depth max n = Panic.
Proof.
  intros Hn Hd. unfold GetFullHashPath. rewrite decide_False by (rewrite Hn; auto). unfold generateHashedDirectoryPath.
  case_decide; [done|]. destruct (hash_parts _ _ _ _) as [| |dirs] eqn:E; [exfalso|done|exfalso].
  - revert E. generalize 0%nat. induction (Z.to_nat depth) as [|k IH]; intros i; cbn; [done|]. case_decide; [done|].
    destruct (hash_parts _ _ _ _) eqn:E; try done. by intros; eapply IH.
  - apply Hd. split; [lia|]. apply (hash_parts_ok (hex (Sum64 (Path n))) (charsPerLevel max) (Z.to_nat depth) 0). eauto.
Qed.
End Locations.

(** ** Names from their paths *)

Lemma Load_parts a b c : slash ∉ a -> slash ∉ b -> slash ∉ c ->
  Load (a ++ [slash] ++ b ++ [slash] ++ c) = Next (name_at (a ++ [slash] ++ b ++ [slash] ++ c) a b c).
Proof. intros Ha Hb Hc. unfold Load. cbn [app]. by rewrite split_part, split_part, split_last. Qed.

(** A name that was loaded is found again under its path. *)
Lemma Load_Get path n : Load path = Next n -> Load (Get n) = Next n.
Proof.
  unfold Load at 1. destruct (split slash path) as [|a [|b [|c rest]]] eqn:E; try done. intros [= <-]. unfold Get.
  assert (Forall (fun p => slash ∉ p) (split slash path)) as Hf by (apply Forall_forall; intros p; apply split_free).
  rewrite E in Hf. apply Forall_cons in Hf as [? [? [? _]%Forall_cons]%Forall_cons]. by apply Load_parts.
Qed.
Lemma Load_Path path n : Load path = Next n -> SanctuaryID n ++ [slash] ++ RealmName n ++ [slash] ++ SwampName n = Get n.
Proof. unfold Load. destruct (split slash path) as [|a [|b [|c rest]]]; try done. by intros [= <-]. Qed.
Lemma Load_same path n n' : Load path = Next n -> Load path = Next n' -> n = n'.
Proof. congruence. Qed.

Lemma ComparePattern_spec n p :
  ComparePattern n p = true <->
  SanctuaryID n = SanctuaryID p /\ (RealmName p = star \/ RealmName n = RealmName p) /\ (SwampName p = star \/ SwampName n = SwampName p).
Proof.
  unfold ComparePattern. destruct (decide (SanctuaryID n <> SanctuaryID p)); [split; [done|naive_solver]|].
  case_decide as H1; [split; [done|naive_solver]|]. case_decide as H2; [split; [done|naive_solver]|].
  split; [intros _|done]. split; [by destruct (decide (SanctuaryID n = SanctuaryID p))|].
  destruct (decide (RealmName p = star)), (decide (RealmName n = RealmName p)), (decide (SwampName p = star)),
    (decide (SwampName n = SwampName p)); naive_solver.
Qed.

Lemma location_plain island dirs hash :
  Forall free dirs -> Forall plain (decimal island :: filter (fun q => q <> []) dirs ++ [hex hash]).
Proof.
  intros Hd. constructor; [apply decimal_plain|]. apply Forall_app. split; [|constructor; [apply hex_plain|constructor]].
  apply Forall_forall. intros q [Hne Hq]%list_elem_of_filter. rewrite Forall_forall in Hd. by destruct (free_plain _ (Hd _ Hq)).
Qed.
Lemma below_nonempty root ps q : Forall plain ps -> q ∈ ps -> below root ps <> [].
Proof.
  intros Hps Hq He. unfold below in He. apply app_eq_nil in He as [_ He]. set (rs := clean_parts _ _ _) in He.
  rewrite Forall_forall in Hps. apply list_elem_of_split in Hq as (l & r & ->). destruct (Hps q) as [Hne _]; [set_solver|].
  rewrite app_assoc in He. revert He. generalize (rs ++ l). intros l'. induction l' as [|x l' IH]; cbn [app].
  - destruct q; [done|]. by destruct r.
  - destruct (l' ++ q :: r) as [|y ys] eqn:E; [by destruct l'|]. cbn. by destruct x.
Qed.
#[export] Instance deep_enough_dec hash depth folders : Decision (deep_enough hash depth folders).
Proof. unfold deep_enough. apply _. Defined.
