(* ===== verification/Settings.v ===== *)
(** The patterns of swamps and their settings: [core/settings/settings.go],
    [core/settings/setting/setting.go], and the requests that register them. *)
From S2P Require Import Prelude Steps Text Names.
#[local] Set Warnings "-register-all,-clear-no-such-hyp".

(** ** Data *)

(** Durations are in nanoseconds. *)
Record SwampSetting := {
  Pattern : name; InMemory : bool; CloseAfterIdleSec : Z; WriteIntervalSec : Z; MaxFileSizeByte : Z; ChroniclerV2 : bool
}.
Inductive SwampType := InMemorySwamp | PermanentSwamp.
Definition GetSwampType (ws : SwampSetting) : SwampType := if InMemory ws then InMemorySwamp else PermanentSwamp.

Record FileSystemSettings := { fs_WriteIntervalSec : Z; fs_MaxFileSizeByte : Z; fs_UseChroniclerV2 : bool }.

Record PatternModel := {
  NameCanonicalForm : bytes; pm_InMemory : bool; pm_CloseAfterIdleSec : Z; pm_WriteIntervalSec : Z; pm_MaxFileSizeByte : Z
}.
(** [None] is the nil map. *)
Record SettingsModel := {
  Engine : bytes; Patterns : option (gmap bytes PatternModel); StreamPath : bytes; AutoMoverPath : bytes
}.

Definition EngineV1 : bytes := bs "V1".
Definition EngineV2 : bytes := bs "V2".

(** What [os.ReadFile] finds. *)
Inductive contents := Missing | Unreadable | Holding (data : bytes).

(** [file] is [settings.json]; no model is the nil pointer that [null] is read as. *)
Record settings := {
  model : option SettingsModel; patterns : gmap bytes SwampSetting; streamPath : bytes; automoverPath : bytes;
  maxDepthOfFolders : Z; maxFoldersPerLevel : Z; file : contents
}.

(** [encoding/json] on the model; what is read is read over an empty model. *)
Class SettingsJSON := { MarshalModel : SettingsModel -> bytes; UnmarshalModel : bytes -> option (option SettingsModel) }.

(** The order in which [range] goes through the patterns. *)
Class PatternRange := pattern_range : gmap bytes SwampSetting -> list (bytes * SwampSetting).
Class PatternRangeOk `{PR : PatternRange} : Prop := pattern_range_perm m : pattern_range m ≡ₚ map_to_list m.

(** [time.Duration(seconds) * time.Second] *)
Definition Second : Z := 10 ^ 9.
Definition seconds_of (n : Z) : Z := i64 (n * Second).

Definition with_model (m : option SettingsModel) (s : settings) : settings :=
  {| model := m; patterns := patterns s; streamPath := streamPath s; automoverPath := automoverPath s;
     maxDepthOfFolders := maxDepthOfFolders s; maxFoldersPerLevel := maxFoldersPerLevel s; file := file s |}.
Definition with_patterns (f : gmap bytes SwampSetting -> gmap bytes SwampSetting) (s : settings) : settings :=
  {| model := model s; patterns := f (patterns s); streamPath := streamPath s; automoverPath := automoverPath s;
     maxDepthOfFolders := maxDepthOfFolders s; maxFoldersPerLevel := maxFoldersPerLevel s; file := file s |}.
Definition with_file (c : contents) (s : settings) : settings :=
  {| model := model s; patterns := patterns s; streamPath := streamPath s; automoverPath := automoverPath s;
     maxDepthOfFolders := maxDepthOfFolders s; maxFoldersPerLevel := maxFoldersPerLevel s; file := c |}.
Definition with_paths (stream mover : bytes) (s : settings) : settings :=
  {| model := model s; patterns := patterns s; streamPath := stream; automoverPath := mover;
     maxDepthOfFolders := maxDepthOfFolders s; maxFoldersPerLevel := maxFoldersPerLevel s; file := file s |}.
Definition put_patterns (p : option (gmap bytes PatternModel)) (m : SettingsModel) : SettingsModel :=
  {| Engine := Engine m; Patterns := p; StreamPath := StreamPath m; AutoMoverPath := AutoMoverPath m |}.
Definition put_engine (e : bytes) (m : SettingsModel) : SettingsModel :=
  {| Engine := e; Patterns := Patterns m; StreamPath := StreamPath m; AutoMoverPath := AutoMoverPath m |}.

Section Settings.
Context `{JS : SettingsJSON} `{PR : PatternRange}.

(** ** The file *)

(** [json.MarshalIndent] of a nil pointer. *)
Definition marshal (m : option SettingsModel) : bytes :=
  match m with Some m => MarshalModel m | None => bs "null" end.

(** [write] is what a failed write leaves, [None] a write that succeeds; the answer is whether
    it succeeded. *)
Definition SaveSettingsToFilesystem (write : option contents) (s : settings) : settings * bool :=
  match write with
  | None => (with_file (Holding (marshal (model s))) s, true)
  | Some left_over => (with_file left_over s, false)
  end.

(** The setting of a pattern that was read. *)
Definition setting_of (pm : PatternModel) : outcome SwampSetting :=
  let! patternNameObj := Load (NameCanonicalForm pm) in
  Next {| Pattern := patternNameObj; InMemory := pm_InMemory pm;
          CloseAfterIdleSec := seconds_of (pm_CloseAfterIdleSec pm); WriteIntervalSec := seconds_of (pm_WriteIntervalSec pm);
          MaxFileSizeByte := pm_MaxFileSizeByte pm; ChroniclerV2 := false |}.
Fixpoint load_patterns (pms : list PatternModel) (ps : gmap bytes SwampSetting) : outcome (gmap bytes SwampSetting) :=
  match pms with
  | [] => Next ps
  | pm :: pms =>
      let! ws := setting_of pm in
      load_patterns pms (<[NameCanonicalForm pm := ws]> ps)
  end.

(** An error is only logged. *)
Definition loadSettingsFromFilesystem (s : settings) : outcome settings :=
  match file s with
  | Missing | Unreadable => Next s
  | Holding data =>
      match UnmarshalModel data with
      | None => Next s
      | Some None => Next (with_model None s)
      | Some (Some m) =>
          let s := with_model (Some m) s in
          let! ps := match Patterns m with
                     | None => Next (patterns s)
                     | Some pms => load_patterns (map snd (map_to_list pms)) (patterns s)
                     end in
          let stream := if decide (StreamPath m <> []) then StreamPath m else streamPath s in
          let mover := if decide (AutoMoverPath m <> []) then AutoMoverPath m else automoverPath s in
          Next (with_paths stream mover (with_patterns (fun _ => ps) s))
      end
  end.

Definition empty_model : SettingsModel := {| Engine := []; Patterns := Some ∅; StreamPath := []; AutoMoverPath := [] |}.
(** [New], on a data folder that can be written. *)
Definition NewSettings (depth folders : Z) (found : contents) : outcome settings :=
  loadSettingsFromFilesystem
    {| model := Some empty_model; patterns := ∅; streamPath := []; automoverPath := [];
       maxDepthOfFolders := depth; maxFoldersPerLevel := folders; file := found |}.

(** ** Patterns *)

(** Whether the pattern is there with these numbers already. *)
Definition unchanged (pattern : name) (closeAfterIdleSec : Z) (fs : option FileSystemSettings) (s : settings) : bool :=
  match patterns s !! Get pattern, fs with
  | Some ws, Some fs =>
      (CloseAfterIdleSec ws =? seconds_of closeAfterIdleSec) &&
      ((WriteIntervalSec ws =? seconds_of (fs_WriteIntervalSec fs)) && (MaxFileSizeByte ws =? fs_MaxFileSizeByte fs))
  | _, _ => false
  end.

Definition RegisterPattern (write : option contents) (pattern : name) (inMemorySwamp : bool) (closeAfterIdleSec : Z)
    (fs : option FileSystemSettings) (s : settings) : outcome settings :=
  if negb inMemorySwamp && unchanged pattern closeAfterIdleSec fs s then Next s else
  let stored := if inMemorySwamp then None else fs in
  let swampSetting :=
    {| Pattern := pattern; InMemory := inMemorySwamp; CloseAfterIdleSec := seconds_of closeAfterIdleSec;
       WriteIntervalSec := from_option (fun fs => seconds_of (fs_WriteIntervalSec fs)) 0 stored;
       MaxFileSizeByte := from_option fs_MaxFileSizeByte 0 stored;
       ChroniclerV2 := from_option fs_UseChroniclerV2 false stored |} in
  let s := with_patterns <[Get pattern := swampSetting]> s in
  let! (interval, size) :=
    match inMemorySwamp, fs with
    | true, _ => Next (0, 0)
    | false, Some fs => Next (fs_WriteIntervalSec fs, fs_MaxFileSizeByte fs)
    | false, None => Panic
    end in
  let pm := {| NameCanonicalForm := Get pattern; pm_InMemory := inMemorySwamp; pm_CloseAfterIdleSec := closeAfterIdleSec;
               pm_WriteIntervalSec := interval; pm_MaxFileSizeByte := size |} in
  match model s with
  | Some m =>
      match Patterns m with
      | Some pms =>
          Next (SaveSettingsToFilesystem write (with_model (Some (put_patterns (Some (<[Get pattern := pm]> pms)) m)) s)).1
      | None => Panic
      end
  | None => Panic
  end.

Definition DeregisterPattern (write : option contents) (pattern : name) (s : settings) : outcome settings :=
  match model s with
  | None => Panic
  | Some m =>
      let s := (SaveSettingsToFilesystem write (with_model (Some (put_patterns (delete (Get pattern) <$> Patterns m) m)) s)).1 in
      Next (with_patterns (delete (Get pattern)) s)
  end.

Definition default_setting (swampName : name) : SwampSetting :=
  {| Pattern := swampName; InMemory := false; CloseAfterIdleSec := 5 * Second; WriteIntervalSec := Second;
     MaxFileSizeByte := 65536; ChroniclerV2 := false |}.

(** The first pattern of the range that the name is compared with successfully. *)
Definition GetBySwampName (swampName : name) (s : settings) : SwampSetting :=
  match find (fun kp => ComparePattern swampName (Pattern kp.2)) (pattern_range (patterns s)) with
  | Some (_, pi) => pi
  | None => default_setting swampName
  end.

(** ** The engine *)

Definition GetEngine (s : settings) : outcome bytes :=
  match model s with
  | None => Panic
  | Some m => Next (if decide (Engine m = []) then EngineV1 else Engine m)
  end.
Definition IsV2Engine (s : settings) : outcome bool := let! e := GetEngine s in Next (bool_decide (e = EngineV2)).

(** The answer is whether there was no error. *)
Definition SetEngine (write : option contents) (engine : bytes) (s : settings) : outcome (settings * bool) :=
  if decide (engine <> EngineV1 /\ engine <> EngineV2) then Next (s, false) else
  match model s with
  | None => Panic
  | Some m => Next (SaveSettingsToFilesystem write (with_model (Some (put_engine engine m)) s))
  end.

(** ** The requests *)

Record RegisterSwampRequest := {
  SwampPattern : bytes; IsInMemorySwamp : bool; CloseAfterIdle : Z; WriteInterval : option Z; MaxFileSize : option Z
}.
(** The defaults of the gateway. *)
Record Defaults := { DefaultCloseAfterIdle : Z; DefaultWriteInterval : Z; DefaultFileSize : Z }.

Definition positive_or (n : option Z) (default : Z) : Z :=
  match n with Some n => if 0 <? n then n else default | None => default end.
Definition closing_after (d : Defaults) (r : RegisterSwampRequest) : Z :=
  if 0 <? CloseAfterIdle r then CloseAfterIdle r else DefaultCloseAfterIdle d.
Definition stored_as (d : Defaults) (r : RegisterSwampRequest) : option FileSystemSettings :=
  if IsInMemorySwamp r then None else
  Some {| fs_WriteIntervalSec := positive_or (WriteInterval r) (DefaultWriteInterval d);
          fs_MaxFileSizeByte := positive_or (MaxFileSize r) (DefaultFileSize d); fs_UseChroniclerV2 := false |}.

(** The answer is whether there was no error. *)
Definition RegisterSwamp (write : option contents) (d : Defaults) (r : RegisterSwampRequest) (s : settings) :
    outcome (settings * bool) :=
  if decide (SwampPattern r = []) then Next (s, false) else
  let! swampPattern := Load (SwampPattern r) in
  let! s := RegisterPattern write swampPattern (IsInMemorySwamp r) (closing_after d r) (stored_as d r) s in
  Next (s, true).

Definition DeRegisterSwamp (write : option contents) (pattern : bytes) (s : settings) : outcome (settings * bool) :=
  if decide (pattern = []) then Next (s, false) else
  let! swampPattern := Load pattern in
  let! s := DeregisterPattern write swampPattern s in
  Next (s, true).
End Settings.

(** ** What is registered *)

Definition ascii (s : bytes) : Prop := Forall (fun c => Z_of_byte c < 128) s.
Record representable_pattern (pm : PatternModel) : Prop := {
  rp_name : ascii (NameCanonicalForm pm); rp_idle : in_i64 (pm_CloseAfterIdleSec pm);
  rp_interval : in_i64 (pm_WriteIntervalSec pm); rp_size : in_i64 (pm_MaxFileSizeByte pm)
}.
(** What JSON keeps: texts of ASCII characters, and numbers of the width they have. *)
Record representable (m : SettingsModel) : Prop := {
  re_engine : ascii (Engine m); re_stream : ascii (StreamPath m); re_mover : ascii (AutoMoverPath m);
  re_patterns : exists pms, Patterns m = Some pms /\ map_Forall (fun k pm => ascii k /\ representable_pattern pm) pms
}.
Class SettingsJSONOk `{JS : SettingsJSON} : Prop :=
  Unmarshal_Marshal m : representable m -> UnmarshalModel (MarshalModel m) = Some (Some m).

(** One pattern in memory and in the model. *)
Record stored_pattern (k : bytes) (pm : PatternModel) (ws : SwampSetting) : Prop := {
  sp_key : NameCanonicalForm pm = k; sp_setting : setting_of pm = Next ws; sp_ok : representable_pattern pm;
  sp_memory : InMemory ws = true -> MaxFileSizeByte ws = 0
}.

Record consistent (s : settings) : Prop := {
  co_model : exists m pms, model s = Some m /\ Patterns m = Some pms /\ representable m /\
    forall k, option_relation (stored_pattern k) (fun _ => False) (fun _ => False) (pms !! k) (patterns s !! k)
}.

Definition spec_of (d : Defaults) (r : RegisterSwampRequest) (pattern : name) : SwampSetting :=
  let stored := stored_as d r in
  {| Pattern := pattern; InMemory := IsInMemorySwamp r; CloseAfterIdleSec := seconds_of (closing_after d r);
     WriteIntervalSec := from_option (fun fs => seconds_of (fs_WriteIntervalSec fs)) 0 stored;
     MaxFileSizeByte := from_option fs_MaxFileSizeByte 0 stored; ChroniclerV2 := false |}.

Definition pattern_model (d : Defaults) (r : RegisterSwampRequest) (pattern : name) : PatternModel :=
  {| NameCanonicalForm := Get pattern; pm_InMemory := IsInMemorySwamp r; pm_CloseAfterIdleSec := closing_after d r;
     pm_WriteIntervalSec := from_option fs_WriteIntervalSec 0 (stored_as d r);
     pm_MaxFileSizeByte := from_option fs_MaxFileSizeByte 0 (stored_as d r) |}.

Inductive settings_event :=
| Registering (r : RegisterSwampRequest)
| Deregistering (pattern : bytes)
| Choosing (engine : bytes).

(** Requests whose writes succeed. *)
Definition serve_settings `{JS : SettingsJSON} (d : Defaults) (e : settings_event) (s : settings) : outcome settings :=
  let! (s, _) := match e with
                 | Registering r => RegisterSwamp None d r s
                 | Deregistering p => DeRegisterSwamp None p s
                 | Choosing e => SetEngine None e s
                 end in
  Next s.
Definition spec_step (d : Defaults) (spec : gmap bytes SwampSetting) (e : settings_event) : gmap bytes SwampSetting :=
  match e with
  | Registering r => match Load (SwampPattern r) with Next n => <[Get n := spec_of d r n]> spec | _ => spec end
  | Deregistering p => match Load p with Next n => delete (Get n) spec | _ => spec end
  | Choosing _ => spec
  end.

(** A pattern of at least three parts, in ASCII, and numbers of 64 bits. *)
Definition pattern_ok (p : bytes) : Prop := ascii p /\ exists n, Load p = Next n.
Definition optional_i64 (n : option Z) : Prop := match n with Some n => in_i64 n | None => True end.
Definition event_ok (e : settings_event) : Prop :=
  match e with
  | Registering r => pattern_ok (SwampPattern r) /\ in_i64 (CloseAfterIdle r) /\ optional_i64 (WriteInterval r) /\ optional_i64 (MaxFileSize r)
  | Deregistering p => pattern_ok p
  | Choosing _ => True
  end.
Record defaults_ok (d : Defaults) : Prop := {
  do_idle : in_i64 (DefaultCloseAfterIdle d); do_interval : in_i64 (DefaultWriteInterval d);
  do_size : in_i64 (DefaultFileSize d); do_positive : 0 < DefaultFileSize d
}.

Lemma ascii_Get p n : ascii p -> Load p = Next n -> ascii (Get n).
Proof.
  unfold Load. destruct (split slash p) as [|a [|b [|c rest]]] eqn:E; try done. intros Hp [= <-]. cbn [Get Path name_at].
  assert (forall q, q ∈ split slash p -> ascii q) as Hs.
  { clear E. unfold ascii in *. induction p as [|x p IH]; cbn [split]; intros q; [rewrite list_elem_of_singleton; intros ->; constructor|].
    apply Forall_cons in Hp as [Hx Hp]. specialize (IH Hp).
    case_decide; [intros [->|?]%elem_of_cons; [constructor|auto]|].
    destruct (split slash p) as [|y ys] eqn:E; [by destruct (split_nonempty slash p)|].
    intros [->|?]%elem_of_cons; [constructor; [done|apply IH; by left]|apply IH; by right]. }
  rewrite E in Hs. unfold ascii.
  repeat (apply Forall_app || apply Forall_cons; split); try (by vm_compute); apply Hs; repeat constructor.
Qed.

Section Registered.
Context `{JSOk : SettingsJSONOk}.

Lemma consistent_new depth folders :
  exists s, NewSettings depth folders Missing = Next s /\ consistent s /\ patterns s = ∅ /\ file s = Missing.
Proof.
  eexists. split; [reflexivity|]. split; [|done]. split. eexists _, _. split; [done|]. split; [done|]. split; [|intros k; cbn; by rewrite lookup_empty].
  split; try constructor. eexists. split; [done|]. apply map_Forall_empty.
Qed.

(** Saving the model with other patterns. *)
Lemma saved_consistent s m pms ps :
  representable m -> map_Forall (fun k pm => ascii k /\ representable_pattern pm) pms ->
  (forall k, option_relation (stored_pattern k) (fun _ => False) (fun _ => False) (pms !! k) (ps !! k)) ->
  patterns s = ps -> model s = Some (put_patterns (Some pms) m) -> consistent s.
Proof.
  intros [He Hs Hm Hp] Hpms Hrel <- Hmodel. split. eexists _, pms. split; [done|]. split; [done|]. split; [|done].
  split; try done. by exists pms.
Qed.

Lemma RegisterPattern_writes d r n s m pms :
  model s = Some m -> Patterns m = Some pms ->
  negb (IsInMemorySwamp r) && unchanged n (closing_after d r) (stored_as d r) s = false ->
  exists s', RegisterPattern None n (IsInMemorySwamp r) (closing_after d r) (stored_as d r) s = Next s' /\
    patterns s' = <[Get n := spec_of d r n]> (patterns s) /\
    model s' = Some (put_patterns (Some (<[Get n := pattern_model d r n]> pms)) m) /\
    file s' = Holding (marshal (model s')).
Proof.
  intros Hm Hpms Hu. unfold RegisterPattern, spec_of, pattern_model. rewrite Hu. unfold stored_as.
  destruct (IsInMemorySwamp r); cbn [obind from_option]; cbv beta iota zeta; unfold with_patterns at 1; cbn [model];
    rewrite Hm, Hpms; by eexists.
Qed.

Lemma RegisterSwamp_consistent d r s n :
  defaults_ok d -> event_ok (Registering r) -> Load (SwampPattern r) = Next n -> consistent s ->
  exists s', RegisterSwamp None d r s = Next (s', true) /\ consistent s' /\
    patterns s' = <[Get n := spec_of d r n]> (patterns s) /\
    (file s' = Holding (marshal (model s')) \/ s' = s).
Proof.
  intros Hd (Hpat & Hci & Hwi & Hfs) Hn [(m & pms & Hm & Hpms & Hre & Hrel)]. unfold RegisterSwamp.
  rewrite decide_False by (intros E; by rewrite E in Hn). rewrite Hn. cbn [obind].
  set (ws := spec_of d r n).
  assert (in_i64 (closing_after d r)) as Hidle by (unfold closing_after; destruct (_ <? _); [done|apply Hd]).
  assert (forall o v, in_i64 v -> optional_i64 o -> in_i64 (positive_or o v)) as Hpos
    by (intros [o|] v Hv Ho; [unfold positive_or; destruct (0 <? o)|]; done).
  set (pm := pattern_model d r n).
  assert (map_Forall (fun k pm => ascii k /\ representable_pattern pm) pms) as Hall
    by (destruct Hre as [_ _ _ (pms' & E & ?)]; rewrite Hpms in E; by injection E as <-).
  assert (stored_pattern (Get n) pm ws) as Hst.
  { split; [done| | |].
    - unfold setting_of. cbn [NameCanonicalForm pattern_model pm]. rewrite (Load_Get _ _ Hn). cbn [obind]. unfold ws, spec_of, pm, pattern_model, stored_as.
      cbn. by destruct (IsInMemorySwamp r).
    - destruct Hd. split; [by eapply ascii_Get; [apply Hpat|]|done|..]; cbn; unfold stored_as;
        (destruct (IsInMemorySwamp r); [done|]); by apply Hpos.
    - cbn. unfold stored_as. intros ->. done. }
  unfold RegisterPattern. destruct (IsInMemorySwamp r) eqn:Emem; cbn [negb andb].
  2: destruct (unchanged _ _ _ s) eqn:Eu.
  2: { exists s. cbn [obind]. split; [done|]. split; [split; by eexists _, _|]. split; [|by right].
    symmetry. apply insert_id. unfold unchanged in Eu. specialize (Hrel (Get n)).
    destruct (patterns s !! Get n) as [ws'|] eqn:Ew; [|done]. destruct (pms !! Get n) as [pm'|]; [|done]. destruct Hrel as [Hk Hset Hok Hmem'].
    unfold stored_as in Eu. rewrite Emem in Eu. apply andb_true_iff in Eu as [E1 [E2 E3]%andb_true_iff].
    apply Z.eqb_eq in E1, E2, E3. cbn [fs_WriteIntervalSec fs_MaxFileSizeByte] in E2, E3.
    assert (InMemory ws' = false) as Hin.
    { destruct (InMemory ws'); [|done]. rewrite Hmem' in E3 by done. exfalso.
      destruct (MaxFileSize r) as [z|]; cbn in E3; [destruct (Z.ltb_spec 0 z)|]; pose proof (do_positive _ Hd); lia. }
    unfold setting_of in Hset. rewrite Hk, (Load_Get _ _ Hn) in Hset. injection Hset as <-. cbn in E1, E2, E3, Hin.
    f_equal. unfold ws, spec_of, stored_as. rewrite Emem. cbn. by rewrite Hin, E1, E2, E3. }
  all: destruct (RegisterPattern_writes d r n s m pms Hm Hpms) as (s' & Hr & Hp' & Hm' & Hf');
    [rewrite Emem; by try rewrite Eu|].
  all: unfold RegisterPattern in Hr; rewrite Emem in Hr; cbn [negb andb] in Hr; try rewrite Eu in Hr; rewrite Hr; cbn [obind].
  all: exists s'; split; [done|]; split; [|by split; [|left]].
  all: apply (saved_consistent s' m (<[Get n := pm]> pms) (<[Get n := ws]> (patterns s)));
    [done|apply map_Forall_insert_2; [split; [eapply ascii_Get; [apply Hpat|done]|apply Hst]|exact Hall]| |done|done].
  all: intros k; destruct (decide (k = Get n)) as [->|Hk]; [by rewrite !lookup_insert_eq|by rewrite !lookup_insert_ne].
Qed.

Lemma DeRegisterSwamp_consistent p s n :
  Load p = Next n -> consistent s ->
  exists s', DeRegisterSwamp None p s = Next (s', true) /\ consistent s' /\ patterns s' = delete (Get n) (patterns s) /\
    file s' = Holding (marshal (model s')).
Proof.
  intros Hn [(m & pms & Hm & Hpms & Hre & Hrel)]. unfold DeRegisterSwamp. rewrite decide_False by (intros E; by rewrite E in Hn).
  rewrite Hn. cbn [obind]. unfold DeregisterPattern. rewrite Hm, Hpms. cbn [SaveSettingsToFilesystem fst obind fmap option_fmap option_map].
  eexists. split; [reflexivity|]. split; [|by split].
  assert (map_Forall (fun k pm => ascii k /\ representable_pattern pm) pms) as Hall
    by (destruct Hre as [_ _ _ (pms' & E & ?)]; rewrite Hpms in E; by injection E as <-).
  apply (saved_consistent _ m (delete (Get n) pms) (delete (Get n) (patterns s))); [done|by apply map_Forall_delete| |done|done].
  intros k. destruct (decide (k = Get n)) as [->|Hk]; [by rewrite !lookup_delete_eq|by rewrite !lookup_delete_ne].
Qed.

Lemma SetEngine_consistent e s :
  consistent s -> exists s' ok, SetEngine None e s = Next (s', ok) /\ consistent s' /\ patterns s' = patterns s /\
    (file s' = Holding (marshal (model s')) \/ s' = s).
Proof.
  intros Hs. destruct Hs as [(m & pms & Hm & Hpms & Hre & Hrel)]. unfold SetEngine. case_decide as He.
  { exists s, false. split; [done|]. split; [split; by exists m, pms|]. auto. }
  rewrite Hm. cbn [SaveSettingsToFilesystem]. eexists _, _. split; [reflexivity|]. split; [|split; [done|by left]].
  split. exists (put_engine e m), pms. split; [done|]. split; [done|]. split; [|done]. destruct Hre as [_ ? ? ?]. split; try done.
  assert (e = EngineV1 \/ e = EngineV2) as [-> | ->]; [|by repeat constructor..].
  destruct (decide (e = EngineV1)), (decide (e = EngineV2)); naive_solver.
Qed.

(** ** Reading the file again *)

Lemma load_all (ps : gmap bytes SwampSetting) l : forall acc,
  (forall k pm, (k, pm) ∈ l -> NameCanonicalForm pm = k /\ exists ws, ps !! k = Some ws /\ setting_of pm = Next ws) ->
  exists acc', load_patterns (map snd l) acc = Next acc' /\
    forall k, acc' !! k = if decide (k ∈ l.*1) then ps !! k else acc !! k.
Proof.
  induction l as [|[k pm] l IH]; intros acc Hl; cbn [map snd load_patterns fmap list_fmap].
  { exists acc. split; [done|]. intros k. by rewrite decide_False by apply not_elem_of_nil. }
  destruct (Hl k pm ltac:(by left)) as (Hk & ws & Hps & ->). cbn [obind]. rewrite Hk.
  destruct (IH (<[k:=ws]> acc)) as (acc' & -> & Hacc); [intros; apply Hl; by right|]. exists acc'. split; [done|].
  intros k'. rewrite Hacc. destruct (decide (k' ∈ l.*1)) as [Hin|Hin]; [by rewrite decide_True by (by right)|].
  destruct (decide (k' = k)) as [->|Hne]; [by rewrite lookup_insert_eq, decide_True by left|].
  rewrite lookup_insert_ne, decide_False by (rewrite ?elem_of_cons; naive_solver). done.
Qed.

Lemma settings_read_back depth folders s :
  consistent s -> file s = Holding (marshal (model s)) ->
  exists s', NewSettings depth folders (file s) = Next s' /\ patterns s' = patterns s /\ model s' = model s.
Proof.
  intros [(m & pms & Hm & Hpms & Hre & Hrel)] ->. unfold NewSettings, loadSettingsFromFilesystem. cbn [file].
  rewrite Hm. cbn [marshal]. rewrite Unmarshal_Marshal by done. rewrite Hpms.
  destruct (load_all (patterns s) (map_to_list pms) ∅) as (acc & Hl & Hacc).
  { intros k pm Hin%elem_of_map_to_list. specialize (Hrel k). rewrite Hin in Hrel.
    destruct (patterns s !! k) as [ws|]; [|done]. destruct Hrel as [? ? _ _]. eauto. }
  cbn [patterns with_model]. rewrite Hl. cbn [obind]. eexists. split; [reflexivity|]. split; [|done].
  cbn. apply map_eq. intros k. rewrite Hacc. specialize (Hrel k). case_decide as Hin; [done|].
  rewrite lookup_empty. destruct (pms !! k) as [pm|] eqn:E; [|by destruct (patterns s !! k)].
  destruct Hin. apply list_elem_of_fmap. exists (k, pm). split; [done|]. by apply elem_of_map_to_list.
Qed.

Lemma served d e s :
  defaults_ok d -> event_ok e -> consistent s ->
  exists s', serve_settings d e s = Next s' /\ consistent s' /\ patterns s' = spec_step d (patterns s) e /\
    (file s' = Holding (marshal (model s')) \/ s' = s).
Proof.
  intros Hd He Hs. unfold serve_settings, spec_step. destruct e as [r|p|e].
  - destruct (He) as ((_ & n & Hn) & _). rewrite Hn.
    destruct (RegisterSwamp_consistent d r s n Hd He Hn Hs) as (s' & -> & ? & ? & ?). by exists s'.
  - destruct He as (_ & n & Hn). rewrite Hn. destruct (DeRegisterSwamp_consistent p s n Hn Hs) as (s' & -> & ? & ? & ?).
    exists s'. auto.
  - destruct (SetEngine_consistent e s Hs) as (s' & ok & -> & ? & ? & ?). by exists s'.
Qed.

Lemma served_run d es : defaults_ok d -> forall s, Forall event_ok es -> consistent s ->
  exists s', run (serve_settings d) es s = Next s' /\ consistent s' /\ patterns s' = foldl (spec_step d) (patterns s) es /\
    (file s' = Holding (marshal (model s')) \/ s' = s).
Proof.
  intros Hd. induction es as [|e es IH]; intros s Hes Hs; cbn [run foldl]; [exists s; auto|].
  apply Forall_cons in Hes as [He Hes]. destruct (served d e s Hd He Hs) as (s1 & -> & Hc1 & Hp1 & Hf1).
  destruct (IH s1 Hes Hc1) as (s' & Hr & Hc' & Hp' & Hf'). exists s'. split; [done|]. split; [done|]. split; [by rewrite <-Hp1|].
  destruct Hf' as [| ->]; auto.
Qed.
End Registered.

(** ** Looking a name up *)

(** The answers for a name: a setting whose pattern it matches, or the default when none does. *)
Definition answers (n : name) (ps : gmap bytes SwampSetting) (ws : SwampSetting) : Prop :=
  (exists k, ps !! k = Some ws /\ ComparePattern n (Pattern ws) = true) \/
  (map_Forall (fun _ p => ComparePattern n (Pattern p) = false) ps /\ ws = default_setting n).

Lemma GetBySwampName_answers `{PROk : PatternRangeOk} n s : answers n (patterns s) (GetBySwampName n s).
Proof.
  unfold GetBySwampName. destruct (find _ _) as [[k ws]|] eqn:E.
  - apply find_some in E as [Hin Hc]. left. exists k. split; [|done]. apply elem_of_map_to_list. rewrite <-pattern_range_perm.
    by apply list_elem_of_In.
  - right. split; [|done]. intros k ws Hk. pose proof (find_none _ _ E (k, ws)) as Hn. cbn in Hn. apply Hn.
    apply list_elem_of_In. rewrite pattern_range_perm. by apply elem_of_map_to_list.
Qed.

(** ** The shape of the folders *)

Definition shape (s : settings) : Z * Z := (maxDepthOfFolders s, maxFoldersPerLevel s).

Section Shape.
Context `{JS : SettingsJSON}.

Lemma shape_new depth folders f s : NewSettings depth folders f = Next s -> shape s = (depth, folders).
Proof.
  unfold NewSettings, loadSettingsFromFilesystem. cbn [file]. destruct f as [| |data]; try (by intros [= <-]).
  destruct (UnmarshalModel data) as [[m|]|]; try (by intros [= <-]). destruct (Patterns m); [|by intros [= <-]].
  destruct (load_patterns _ _); try done. by intros [= <-].
Qed.
Lemma shape_served d e s s' : serve_settings d e s = Next s' -> shape s' = shape s.
Proof.
  unfold serve_settings. destruct e as [r|p|e].
  - unfold RegisterSwamp. case_decide; [by intros [= <-]|]. destruct (Load _) as [| |n]; try done. cbn [obind].
    unfold RegisterPattern. destruct (negb _ && _); [by intros [= <-]|]. destruct (IsInMemorySwamp r); cbn [obind].
    2: destruct (stored_as d r); cbn [obind]; [|done].
    all: unfold with_patterns at 1; cbn [model]; destruct (model s) as [m|]; [|done]; destruct (Patterns m); [|done]; cbn [obind];
      by intros [= <-].
  - unfold DeRegisterSwamp. case_decide; [by intros [= <-]|]. destruct (Load _) as [| |n]; try done. cbn [obind].
    unfold DeregisterPattern. destruct (model s) as [m|]; [|done]. cbn [obind]. by intros [= <-].
  - unfold SetEngine. case_decide; [by intros [= <-]|]. destruct (model s) as [m|]; [|done]. cbn. by intros [= <-].
Qed.
Lemma shape_run d es s : forall s', run (serve_settings d) es s = Next s' -> shape s' = shape s.
Proof.
  revert s. induction es as [|e es IH]; intros s s'; cbn [run]; [by intros [= ->]|].
  destruct (serve_settings d e s) as [| |s1] eqn:E; try done. intros Hr. rewrite (IH s1 s' Hr). by eapply shape_served.
Qed.
End Shape.
