(* ===== verification/Hydra.v ===== *)
(** The registry of open swamps: [core/hydra/hydra.go], with the parts of
    [core/hydra/swamp/swamp.go] that close a swamp.

    Goroutines summon swamps, close them and destroy them; an event is one step of one of them,
    a list of events an interleaving.  A caller of [SummonSwamp] has a program counter; so has a
    caller of [Close] or [Destroy].  The mutex of a waiter is held inside one step only. *)
From S2P Require Import Prelude Steps Text Names.
#[local] Set Warnings "-register-all,-clear-no-such-hyp".


(** ** Data *)

(** [SwampWaiter]; its condition variable is the callers that are [Asleep] at it. *)
Record SwampWaiter := { ready : bool; count : Z }.
Definition newSwampWaiter : SwampWaiter := {| ready := false; count := 0 |}.

(** A swamp, as far as the hydra sees it. *)
Record instance := {
  in_name : bytes; in_island : Z; closing : bool; destroyed : bool; cancelled : bool;
  sendingEvents : bool; sendingInformation : bool
}.

Inductive result := Got (i : nat) | ErrorHydraIsShuttingDown | ErrContextDone | ErrCloseTimeout.

(** Where a caller of [SummonSwamp] is; [w] is its waiter. *)
Inductive pc :=
| Called                              (* before the check of the flag *)
| Arrived                             (* before [LoadOrStore] *)
| Entering (w : nat)                  (* at the mutex of the waiter *)
| Asleep (w : nat)                    (* in [cond.Wait] *)
| Looking (w : nat)                   (* at the head of the loop *)
| Asking (w i : nat)                  (* before [IsClosing] *)
| Awaiting (w i : nat)                (* in [WaitForGracefulClose] *)
| Creating (w : nat)                  (* before [createNewSwamp] *)
| Storing (w i : nat)                 (* before [swamps.Store] *)
| StartingEvents (w i : nat) | StartingInfo (w i : nat)
| Leaving (w : nat) (r : result)      (* the deferred function, at its mutex *)
| Counting (w : nat) (r : result) | Tidying (w : nat) (r : result) | Deleting (w : nat) (r : result)
| Returned (r : result).

Record caller := { c_name : bytes; c_island : Z; c_done : bool; c_pc : pc }.

(** Where a caller of [Close] or [Destroy] of swamp [i] is. *)
Inductive closer :=
| CloseBegin (i : nat) | CloseWrite (i : nat) | CloseReport (i : nat)
| DestroyBegin (i : nat) | DestroyClaim (i : nat) | DestroyTear (i : nat) | DestroyReport (i : nat)
| Ended.

Record hydra := {
  shuttingDown : bool;
  swamps : gmap bytes nat;
  summoningSwamps : gmap bytes nat;
  eventSubscribers : gmap bytes (gset bytes);
  infoSubscribers : gmap bytes (gset bytes);
  waiters : list SwampWaiter;
  instances : list instance;
  callers : gmap nat caller;
  closers : gmap nat closer
}.

Definition NewHydra : hydra :=
  {| shuttingDown := false; swamps := ∅; summoningSwamps := ∅; eventSubscribers := ∅; infoSubscribers := ∅;
     waiters := []; instances := []; callers := ∅; closers := ∅ |}.

(** ** Changing one field *)

Definition with_swamps (f : gmap bytes nat -> gmap bytes nat) (h : hydra) : hydra :=
  {| shuttingDown := shuttingDown h; swamps := f (swamps h); summoningSwamps := summoningSwamps h;
     eventSubscribers := eventSubscribers h; infoSubscribers := infoSubscribers h; waiters := waiters h;
     instances := instances h; callers := callers h; closers := closers h |}.
Definition with_summoning (f : gmap bytes nat -> gmap bytes nat) (h : hydra) : hydra :=
  {| shuttingDown := shuttingDown h; swamps := swamps h; summoningSwamps := f (summoningSwamps h);
     eventSubscribers := eventSubscribers h; infoSubscribers := infoSubscribers h; waiters := waiters h;
     instances := instances h; callers := callers h; closers := closers h |}.
Definition with_waiters (f : list SwampWaiter -> list SwampWaiter) (h : hydra) : hydra :=
  {| shuttingDown := shuttingDown h; swamps := swamps h; summoningSwamps := summoningSwamps h;
     eventSubscribers := eventSubscribers h; infoSubscribers := infoSubscribers h; waiters := f (waiters h);
     instances := instances h; callers := callers h; closers := closers h |}.
Definition with_instances (f : list instance -> list instance) (h : hydra) : hydra :=
  {| shuttingDown := shuttingDown h; swamps := swamps h; summoningSwamps := summoningSwamps h;
     eventSubscribers := eventSubscribers h; infoSubscribers := infoSubscribers h; waiters := waiters h;
     instances := f (instances h); callers := callers h; closers := closers h |}.
Definition with_callers (f : gmap nat caller -> gmap nat caller) (h : hydra) : hydra :=
  {| shuttingDown := shuttingDown h; swamps := swamps h; summoningSwamps := summoningSwamps h;
     eventSubscribers := eventSubscribers h; infoSubscribers := infoSubscribers h; waiters := waiters h;
     instances := instances h; callers := f (callers h); closers := closers h |}.
Definition with_closers (f : gmap nat closer -> gmap nat closer) (h : hydra) : hydra :=
  {| shuttingDown := shuttingDown h; swamps := swamps h; summoningSwamps := summoningSwamps h;
     eventSubscribers := eventSubscribers h; infoSubscribers := infoSubscribers h; waiters := waiters h;
     instances := instances h; callers := callers h; closers := f (closers h) |}.
Definition with_subscribers (stopped : bool) (events infos : gmap bytes (gset bytes)) (h : hydra) : hydra :=
  {| shuttingDown := stopped; swamps := swamps h; summoningSwamps := summoningSwamps h;
     eventSubscribers := events; infoSubscribers := infos; waiters := waiters h;
     instances := instances h; callers := callers h; closers := closers h |}.

Definition put_pc (p : pc) (c : caller) : caller := {| c_name := c_name c; c_island := c_island c; c_done := c_done c; c_pc := p |}.
Definition cancel_context (c : caller) : caller := {| c_name := c_name c; c_island := c_island c; c_done := true; c_pc := c_pc c |}.
Definition goto (id : nat) (p : pc) : hydra -> hydra := with_callers (alter (put_pc p) id).
Definition on_waiter (w : nat) (f : SwampWaiter -> SwampWaiter) : hydra -> hydra := with_waiters (alter f w).
Definition on_instance (i : nat) (f : instance -> instance) : hydra -> hydra := with_instances (alter f i).

Definition put_ready (b : bool) (w : SwampWaiter) : SwampWaiter := {| ready := b; count := count w |}.
(** [atomic.AddInt32] *)
Definition add_count (n : Z) (w : SwampWaiter) : SwampWaiter :=
  {| ready := ready w; count := (count w + n + 2 ^ 31) mod 2 ^ 32 - 2 ^ 31 |}.
Definition put_closing (i : instance) : instance :=
  {| in_name := in_name i; in_island := in_island i; closing := true; destroyed := destroyed i; cancelled := cancelled i;
     sendingEvents := sendingEvents i; sendingInformation := sendingInformation i |}.
Definition put_cancelled (i : instance) : instance :=
  {| in_name := in_name i; in_island := in_island i; closing := closing i; destroyed := destroyed i; cancelled := true;
     sendingEvents := sendingEvents i; sendingInformation := sendingInformation i |}.
Definition put_destroyed (i : instance) : instance :=
  {| in_name := in_name i; in_island := in_island i; closing := closing i; destroyed := true; cancelled := cancelled i;
     sendingEvents := sendingEvents i; sendingInformation := sendingInformation i |}.
Definition put_sending (events infos : bool) (i : instance) : instance :=
  {| in_name := in_name i; in_island := in_island i; closing := closing i; destroyed := destroyed i; cancelled := cancelled i;
     sendingEvents := events; sendingInformation := infos |}.
Definition StartSendingEvents (i : instance) : instance := put_sending true (sendingInformation i) i.
Definition StopSendingEvents (i : instance) : instance := put_sending false (sendingInformation i) i.
Definition StartSendingInformation (i : instance) : instance := put_sending (sendingEvents i) true i.
Definition StopSendingInformation (i : instance) : instance := put_sending (sendingEvents i) false i.

(** [cond.Broadcast]: who sleeps at the waiter comes back to its mutex. *)
Definition wake (w : nat) (c : caller) : caller :=
  match c_pc c with Asleep w' => if decide (w' = w) then put_pc (Entering w) c else c | _ => c end.
Definition Broadcast (w : nat) : hydra -> hydra := with_callers (fmap (wake w)).

(** ** Subscribers *)

Definition hasSubscriber (subscribers : gmap bytes (gset bytes)) (n : bytes) : bool :=
  match subscribers !! n with Some clients => negb (bool_decide (clients = ∅)) | None => false end.
Definition hasEventSubscriber (n : bytes) (h : hydra) : bool := hasSubscriber (eventSubscribers h) n.
Definition hasInfoSubscriber (n : bytes) (h : hydra) : bool := hasSubscriber (infoSubscribers h) n.

(** On the swamp of the name, when it is open. *)
Definition on_open (n : bytes) (f : instance -> instance) (h : hydra) : hydra :=
  match swamps h !! n with Some i => on_instance i f h | None => h end.

Definition subscribe (client n : bytes) (subscribers : gmap bytes (gset bytes)) : gmap bytes (gset bytes) :=
  <[n := {[client]} ∪ default ∅ (subscribers !! n)]> subscribers.
(** The client leaves the clients of the name; the name stays. *)
Definition unsubscribe (client n : bytes) (subscribers : gmap bytes (gset bytes)) : gmap bytes (gset bytes) :=
  alter (fun clients => clients ∖ {[client]}) n subscribers.

(** The answers are whether there was no error. *)
Definition SubscribeToSwampEvents (client n : bytes) (h : hydra) : hydra * bool :=
  if shuttingDown h then (h, false) else
  (on_open n StartSendingEvents
     (with_subscribers (shuttingDown h) (subscribe client n (eventSubscribers h)) (infoSubscribers h) h), true).
Definition SubscribeToSwampInfo (client n : bytes) (h : hydra) : hydra * bool :=
  if shuttingDown h then (h, false) else
  (on_open n StartSendingInformation
     (with_subscribers (shuttingDown h) (eventSubscribers h) (subscribe client n (infoSubscribers h)) h), true).
Definition UnsubscribeFromSwampEvents (client n : bytes) (h : hydra) : hydra * bool :=
  if shuttingDown h then (h, false) else
  let h := with_subscribers (shuttingDown h) (unsubscribe client n (eventSubscribers h)) (infoSubscribers h) h in
  let allSubscribers := size (eventSubscribers h) in
  (if decide (allSubscribers = 0%nat) then on_open n StopSendingEvents h else h, true).
Definition UnsubscribeFromSwampInfo (client n : bytes) (h : hydra) : hydra * bool :=
  if shuttingDown h then (h, false) else
  let h := with_subscribers (shuttingDown h) (eventSubscribers h) (unsubscribe client n (infoSubscribers h)) h in
  let allSubscribers := size (infoSubscribers h) in
  (if decide (allSubscribers = 0%nat) then on_open n StopSendingInformation h else h, true).

(** [eventCallbackFunction], [infoCallbackFunction]: the clients that are called. *)
Definition eventCallbackFunction (n : bytes) (h : hydra) : gset bytes := default ∅ (eventSubscribers h !! n).
Definition infoCallbackFunction (n : bytes) (h : hydra) : gset bytes := default ∅ (infoSubscribers h !! n).

Definition MarkShuttingDown (h : hydra) : hydra :=
  if shuttingDown h then h else with_subscribers true ∅ ∅ h.

(** ** Looking *)

Definition getSwamp (n : bytes) (h : hydra) : option nat := swamps h !! n.
Definition ListActiveSwamps (h : hydra) : list bytes := (map_to_list (swamps h)).*1.
Definition CountActiveSwamps (h : hydra) : nat := size (swamps h).
(** [on_disk] is whether the file, or the folder of the old storage, is there; [None] is an error. *)
Definition IsExistSwamp (n : bytes) (on_disk : bool) (h : hydra) : option bool :=
  if shuttingDown h then None else
  Some (match getSwamp n h with Some _ => true | None => on_disk end).

Definition closeEventCallbackFunction (n : bytes) : hydra -> hydra := with_swamps (delete n).

(** ** Summoning *)

Definition new_instance (n : bytes) (island : Z) : instance :=
  {| in_name := n; in_island := island; closing := false; destroyed := false; cancelled := false;
     sendingEvents := false; sendingInformation := false |}.

(** One step of caller [id], who is [c]. *)
Definition summon_step (id : nat) (c : caller) (h : hydra) : outcome hydra :=
  let n := c_name c in
  match c_pc c with
  | Called => Next (goto id (if shuttingDown h then Returned ErrorHydraIsShuttingDown else Arrived) h)
  | Arrived =>
      match summoningSwamps h !! n with
      | Some w => Next (goto id (Entering w) h)
      | None =>
          let w := length (waiters h) in
          Next (goto id (Entering w) (with_summoning <[n := w]> (with_waiters (fun ws => ws ++ [newSwampWaiter]) h)))
      end
  | Entering w =>
      match waiters h !! w with
      | None => Panic
      | Some waiter =>
          if ready waiter then
            if c_done c then Next (goto id (Returned ErrContextDone) (Broadcast w h))
            else Next (goto id (Asleep w) (on_waiter w (add_count 1) h))
          else Next (goto id (Looking w) (on_waiter w (put_ready true) h))
      end
  | Asleep _ => Disabled
  | Looking w =>
      if c_done c then Next (goto id (Leaving w ErrContextDone) h) else
      match getSwamp n h with
      | Some i => Next (goto id (Asking w i) h)
      | None => Next (goto id (Creating w) h)
      end
  | Asking w i =>
      match instances h !! i with
      | None => Panic
      | Some s => Next (goto id (if closing s then Awaiting w i else Leaving w (Got i)) h)
      end
  | Awaiting w i =>
      match instances h !! i with
      | None => Panic
      | Some s => if cancelled s then Next (goto id (Looking w) h) else Disabled
      end
  | Creating w =>
      let i := length (instances h) in
      Next (goto id (Storing w i) (with_instances (fun l => l ++ [new_instance n (c_island c)]) h))
  | Storing w i => Next (goto id (StartingEvents w i) (with_swamps <[n := i]> h))
  | StartingEvents w i =>
      Next (goto id (StartingInfo w i) (if hasEventSubscriber n h then on_instance i StartSendingEvents h else h))
  | StartingInfo w i =>
      Next (goto id (Leaving w (Got i)) (if hasInfoSubscriber n h then on_instance i StartSendingInformation h else h))
  | Leaving w r => Next (goto id (Counting w r) (Broadcast w (on_waiter w (put_ready false) h)))
  | Counting w r => Next (goto id (Tidying w r) (on_waiter w (add_count (-1)) h))
  | Tidying w r =>
      match waiters h !! w with
      | None => Panic
      | Some waiter => Next (goto id (if count waiter =? 0 then Deleting w r else Returned r) h)
      end
  | Deleting w r => Next (goto id (Returned r) (with_summoning (delete n) h))
  | Returned _ => Disabled
  end.

(** ** Closing *)

Definition set_closer (k : nat) (p : closer) : hydra -> hydra := with_closers <[k := p]>.

(** One step of [Close] or [Destroy]; between the claim and the teardown of [Destroy] it waits
    for the running operations. *)
Definition closer_step (k : nat) (p : closer) (h : hydra) : outcome hydra :=
  let on i (f : instance -> outcome hydra) := match instances h !! i with Some s => f s | None => Panic end in
  match p with
  | CloseBegin i =>
      on i (fun s => Next (if closing s then set_closer k Ended h else set_closer k (CloseWrite i) (on_instance i put_closing h)))
  | CloseWrite i => on i (fun _ => Next (set_closer k (CloseReport i) (on_instance i put_cancelled h)))
  | CloseReport i => on i (fun s => Next (set_closer k Ended (closeEventCallbackFunction (in_name s) h)))
  | DestroyBegin i => on i (fun _ => Next (set_closer k (DestroyClaim i) (on_instance i put_closing h)))
  | DestroyClaim i =>
      on i (fun s => Next (if destroyed s then set_closer k Ended h else
        set_closer k (DestroyTear i) (on_instance i (fun s => put_sending false false (put_destroyed s)) h)))
  | DestroyTear i => on i (fun _ => Next (set_closer k (DestroyReport i) (on_instance i put_cancelled h)))
  | DestroyReport i => on i (fun s => Next (set_closer k Ended (closeEventCallbackFunction (in_name s) h)))
  | Ended => Disabled
  end.

(** ** Events *)

Inductive event :=
| Call (id : nat) (n : bytes) (island : Z)          (* somebody calls [SummonSwamp] *)
| Step (id : nat)
| Cancel (id : nat)                                 (* the context of the caller is done *)
| TimeUp (id : nat)                                 (* thirty seconds in [WaitForGracefulClose] *)
| CallClose (k i : nat) | CallDestroy (k i : nat) | CloserStep (k : nat)
| Subscribing (events : bool) (client n : bytes) | Unsubscribing (events : bool) (client n : bytes)
| ShuttingDown.

Definition hydra_step (e : event) (h : hydra) : outcome hydra :=
  match e with
  | Call id n island =>
      match callers h !! id with
      | Some _ => Disabled
      | None => Next (with_callers <[id := {| c_name := n; c_island := island; c_done := false; c_pc := Called |}]> h)
      end
  | Step id => match callers h !! id with Some c => summon_step id c h | None => Disabled end
  | Cancel id => match callers h !! id with Some _ => Next (with_callers (alter cancel_context id) h) | None => Disabled end
  | TimeUp id =>
      match callers h !! id with
      | Some c => match c_pc c with Awaiting w i => Next (goto id (Leaving w ErrCloseTimeout) h) | _ => Disabled end
      | None => Disabled
      end
  | CallClose k i =>
      match closers h !! k, instances h !! i with
      | None, Some _ => Next (set_closer k (CloseBegin i) h)
      | _, _ => Disabled
      end
  | CallDestroy k i =>
      match closers h !! k, instances h !! i with
      | None, Some _ => Next (set_closer k (DestroyBegin i) h)
      | _, _ => Disabled
      end
  | CloserStep k => match closers h !! k with Some p => closer_step k p h | None => Disabled end
  | Subscribing events client n => Next ((if events then SubscribeToSwampEvents else SubscribeToSwampInfo) client n h).1
  | Unsubscribing events client n => Next ((if events then UnsubscribeFromSwampEvents else UnsubscribeFromSwampInfo) client n h).1
  | ShuttingDown => Next (MarkShuttingDown h)
  end.

Abbreviation hydra_run := (run hydra_step).
Abbreviation hydra_reachable := (reachable hydra_step NewHydra).

(** ** Opening a swamp

    What [createNewSwamp] makes of the settings, the checks of [server/gateway/gateway.go] before a
    swamp is summoned, the requests for the business lock, and the counter of
    [core/safeops/safeops.go]. *)
From S2P Require Import Settings.

Module Opening.
(** ** The configuration of a swamp *)

Inductive chronicler := ChroniclerV1 (folder : bytes) (maxFileSize depth : Z) | ChroniclerNewV2 (folder : bytes) (depth : Z) (swampName : bytes).
Inductive metadata := MetadataNoop | MetadataFile (folder : bytes).
Record filesystem := { fl_Chronicler : chronicler; fl_WriteInterval : Z }.
(** The arguments of [swamp.New]; no filesystem is a swamp in memory. *)
Record swamp_config := {
  cf_name : bytes; cf_closeAfterIdle : Z; cf_filesystem : option filesystem; cf_metadata : metadata
}.

Section Opening.
Context `{XH : XXHash} `{PR : PatternRange}.

Definition loadChronicler (ws : SwampSetting) (folder : bytes) (n : name) (useV2 : bool) (s : settings) : chronicler :=
  if useV2 then ChroniclerNewV2 folder (maxDepthOfFolders s) (Get n)
  else ChroniclerV1 folder (MaxFileSizeByte ws) (maxDepthOfFolders s).

(** [root] is the data folder; the name keeps the path of its folder. *)
Definition createNewSwamp (root : bytes) (islandID : Z) (swampName : name) (s : settings) : outcome (name * swamp_config) :=
  let ws := GetBySwampName swampName s in
  let! (swampName, folder) := GetFullHashPath root islandID (maxDepthOfFolders s) (maxFoldersPerLevel s) swampName in
  let! v2 := IsV2Engine s in
  let useV2 := v2 || ChroniclerV2 ws in
  Next (swampName,
    {| cf_name := Get swampName; cf_closeAfterIdle := CloseAfterIdleSec ws;
       cf_filesystem :=
         match GetSwampType ws with
         | PermanentSwamp => Some {| fl_Chronicler := loadChronicler ws folder swampName useV2 s; fl_WriteInterval := WriteIntervalSec ws |}
         | InMemorySwamp => None
         end;
       cf_metadata := if useV2 then MetadataNoop else MetadataFile folder |}).

(** ** The checks of the gateway *)

(** [IsExistSwamp] of a name: in the registry, or as a file or a folder; [None] is an error. *)
Definition exists_swamp (is_file is_folder : bytes -> bool) (root : bytes) (islandID : Z) (s : settings) (n : name)
    (h : hydra) : outcome (name * option bool) :=
  if shuttingDown h then Next (n, None) else
  match getSwamp (Get n) h with
  | Some _ => Next (n, Some true)
  | None =>
      let! (n, folder) := GetFullHashPath root islandID (maxDepthOfFolders s) (maxFoldersPerLevel s) n in
      Next (n, IsExistSwamp (Get n) (is_file (folder ++ bs ".hyd") || is_folder folder) h)
  end.

Inductive checked := InvalidArgument | FailedPrecondition | Checked (n : name).

Definition checkSwampName (isExistSwamp : name -> outcome (name * option bool)) (inputSwampName : bytes) (checkExist : bool) :
    outcome checked :=
  if decide (inputSwampName = []) then Next InvalidArgument else
  let! swampName := Load inputSwampName in
  if checkExist then
    let! (swampName, isExist) := isExistSwamp swampName in
    Next (match isExist with Some true => Checked swampName | _ => FailedPrecondition end)
  else Next (Checked swampName).

(** The answer and whether there is an error. *)
Definition gateway_IsSwampExist (isExistSwamp : name -> outcome (name * option bool)) (inputSwampName : bytes) : outcome (bool * bool) :=
  let! c := checkSwampName isExistSwamp inputSwampName true in
  Next (match c with Checked _ => (true, false) | FailedPrecondition => (false, false) | InvalidArgument => (false, true) end).

(** ** The requests for the business lock *)

(** The key and the time to live in nanoseconds that [Lock] is called with; [None] is an error. *)
Definition gateway_Lock (key : bytes) (ttl : Z) : option (bytes * Z) :=
  let ttl := if ttl <=? 1000 then 1000 else ttl in
  if decide (key = []) then None else Some (key, i64 (ttl * 10 ^ 6)).
Definition gateway_Unlock (key lockID : bytes) : option (bytes * bytes) :=
  if decide (key = []) then None else if decide (lockID = []) then None else Some (key, lockID).
Definition gateway_Heartbeat (ping : bytes) : bytes := ping.

(** ** Lemmas *)

(** At most one setting matches the name. *)
Definition unambiguous (n : name) (ps : gmap bytes SwampSetting) : Prop :=
  forall k k' ws ws', ps !! k = Some ws -> ps !! k' = Some ws' ->
    ComparePattern n (Pattern ws) = true -> ComparePattern n (Pattern ws') = true -> ws = ws'.

Lemma answers_unique n ps ws ws' : unambiguous n ps -> answers n ps ws -> answers n ps ws' -> ws = ws'.
Proof.
  intros Hu [(k & Hk & Hc)|[Hn ->]] [(k' & Hk' & Hc')|[Hn' ->]]; [by eapply Hu| | |done].
  - by rewrite (Hn' k ws Hk) in Hc.
  - by rewrite (Hn k' ws' Hk') in Hc'.
Qed.

(** Settings with the same patterns and model open a swamp alike. *)
Lemma createNewSwamp_same `{PROk : !PatternRangeOk} root islandID n s s' :
  patterns s' = patterns s -> model s' = model s -> maxDepthOfFolders s' = maxDepthOfFolders s ->
  maxFoldersPerLevel s' = maxFoldersPerLevel s -> unambiguous n (patterns s) ->
  createNewSwamp root islandID n s' = createNewSwamp root islandID n s.
Proof.
  intros Hp Hm Hd Hf Hu. unfold createNewSwamp, loadChronicler, IsV2Engine, GetEngine. rewrite Hm, Hd, Hf.
  assert (GetBySwampName n s' = GetBySwampName n s) as ->; [|done].
  eapply answers_unique; [exact Hu| |apply GetBySwampName_answers]. rewrite <-Hp. apply GetBySwampName_answers.
Qed.

Lemma lock_lives_a_second key ttl k ns :
  ttl <= 9 * 10 ^ 12 -> gateway_Lock key ttl = Some (k, ns) -> k = key /\ ns = Z.max 1000 ttl * 10 ^ 6.
Proof.
  unfold gateway_Lock. case_decide; [done|]. intros Ht [= <- <-]. split; [done|]. unfold i64.
  destruct (Z.leb_spec ttl 1000); rewrite Z.mod_small by lia; lia.
Qed.
End Opening.

(** ** The counter of running requests *)
Module Safeops.

(** [isLocked] *)
Abbreviation safeops := Z.
Definition i32 (z : Z) : Z := (z + 2 ^ 31) mod 2 ^ 32 - 2 ^ 31.
Definition New : safeops := 0.
Definition LockSystem (s : safeops) : safeops := i32 (s + 1).
Definition UnlockSystem (s : safeops) : safeops := i32 (s - 1).
Definition SystemLocked (s : safeops) : bool := 0 <? s.

(** Requests begin and end; the wait of a shutdown ends when none runs. *)
Inductive event := Begins | Ends | WaitEnds.
Definition safeops_step (e : event) (s : safeops) : outcome safeops :=
  match e with
  | Begins => Next (LockSystem s)
  | Ends => Next (UnlockSystem s)
  | WaitEnds => if SystemLocked s then Disabled else Next s
  end.
Definition running (es : list event) : Z :=
  foldl (fun n e => match e with Begins => n + 1 | Ends => n - 1 | WaitEnds => n end) 0 es.

(** Every request that ends has begun, and there are fewer than 2^31 at once. *)
Definition balanced (es : list event) : Prop := forall k, 0 <= running (take k es) < 2 ^ 31.

Lemma run_app_inv es1 es2 s s' : run safeops_step (es1 ++ es2) s = Next s' ->
  exists s1, run safeops_step es1 s = Next s1 /\ run safeops_step es2 s1 = Next s'.
Proof.
  revert s. induction es1 as [|e es IH]; intros s; cbn [app run]; [by exists s|].
  destruct (safeops_step e s) as [| |s1]; try done. apply IH.
Qed.

Lemma running_snoc es e : running (es ++ [e]) = match e with Begins => running es + 1 | Ends => running es - 1 | WaitEnds => running es end.
Proof. unfold running. by rewrite foldl_snoc. Qed.

(** The wait ends only when no request runs. *)
Lemma counts_requests es s :
  balanced es -> run safeops_step es New = Next s -> s = running es /\ (SystemLocked s = true <-> 0 < running es).
Proof.
  intros Hb Hr. assert (s = running es) as ->; [|split; [done|]; unfold SystemLocked; lia].
  revert s Hb Hr. induction es as [|e es IH] using rev_ind; intros s Hb Hr; [by injection Hr as <-|].
  assert (balanced es) as Hb'.
  { intros k. destruct (decide (k <= length es)%nat); [specialize (Hb k); by rewrite take_app_le in Hb|].
    specialize (Hb (length es)). rewrite take_app_le, firstn_all in Hb by lia. by rewrite take_ge by lia. }
  pose proof (Hb (length es + 1)%nat) as H1. rewrite take_ge, running_snoc in H1 by (rewrite length_app; cbn; lia).
  pose proof (Hb' (length es)) as H0. rewrite firstn_all in H0.
  apply run_app_inv in Hr as (s0 & E & Hr). cbn [run] in Hr. rewrite (IH s0 Hb' E) in Hr. rewrite running_snoc.
  destruct e; cbn in Hr; [| |destruct (SystemLocked _); [done|by injection Hr as <-]]; injection Hr as <-;
    unfold LockSystem, UnlockSystem, i32; rewrite Z.mod_small by lia; lia.
Qed.
End Safeops.
End Opening.
