(* ===== verification/HydraInv.v ===== *)
(** The invariants of the registry of open swamps ([Hydra.v]): the exclusion at a waiter, that
    somebody can always go on, and what holds while nothing is closed and no context is
    cancelled: one swamp for each name, and everybody comes to an end. *)
From S2P Require Import Prelude Steps Text Names Hydra.
#[local] Set Warnings "-register-all,-clear-no-such-hyp".

(** ** Who is at a waiter *)

Definition inside (p : pc) : option nat :=
  match p with
  | Looking w | Asking w _ | Awaiting w _ | Creating w | Storing w _ | StartingEvents w _ | StartingInfo w _ | Leaving w _ => Some w
  | _ => None
  end.
Definition at_waiter (p : pc) : option nat :=
  match p with
  | Entering w | Asleep w | Counting w _ | Tidying w _ | Deleting w _ => Some w
  | _ => inside p
  end.
Definition sleeps (p : pc) : option nat := match p with Asleep w => Some w | _ => None end.

Lemma inside_at p w : inside p = Some w -> at_waiter p = Some w.
Proof. by destruct p. Qed.
Lemma sleeps_at p w : sleeps p = Some w -> at_waiter p = Some w.
Proof. by destruct p. Qed.

Definition wake_pc (w : nat) (p : pc) : pc := match p with Asleep w' => if decide (w' = w) then Entering w else p | _ => p end.
Lemma wake_pc_spec w c : c_pc (wake w c) = wake_pc w (c_pc c).
Proof. unfold wake, wake_pc. destruct (c_pc c) eqn:E; try done. destruct (decide _); [done|exact E]. Qed.
Lemma wake_name w c : c_name (wake w c) = c_name c.
Proof. unfold wake. destruct (c_pc c); try done. by destruct (decide _). Qed.
Lemma inside_wake w p : inside (wake_pc w p) = inside p.
Proof. destruct p; try done. unfold wake_pc. by destruct (decide _). Qed.
Lemma at_wake w p : at_waiter (wake_pc w p) = at_waiter p.
Proof. destruct p; try done. unfold wake_pc. destruct (decide _); by subst. Qed.
Lemma sleeps_wake w p w' : sleeps (wake_pc w p) = Some w' -> sleeps p = Some w' /\ w' <> w.
Proof. destruct p; try done. unfold wake_pc. destruct (decide _); [done|]. by intros [= <-]. Qed.

(** What the exclusion is about: the flags of the waiters and where the callers are. *)
Definition flags (h : hydra) : list bool := ready <$> waiters h.
Definition pcs (h : hydra) : gmap nat pc := c_pc <$> callers h.

Definition one_inside (ps : gmap nat pc) (w : nat) : Prop :=
  exists id : nat, inside <$> (ps !! id) = Some (Some w) /\ forall id' : nat, inside <$> (ps !! id') = Some (Some w) -> id' = id.
Definition nobody (ps : gmap nat pc) (w : nat) : Prop :=
  forall (id : nat) (p : pc), ps !! id = Some p -> inside p <> Some w /\ sleeps p <> Some w.
Record exclusive (rs : list bool) (ps : gmap nat pc) : Prop := {
  ex_flag (w : nat) (r : bool) : rs !! w = Some r -> if r then one_inside ps w else nobody ps w;
  ex_bound (id : nat) (p : pc) (w : nat) : ps !! id = Some p -> at_waiter p = Some w -> (w < length rs)%nat
}.

(** The moves of a caller, as far as the exclusion is concerned. *)
Inductive move (rs : list bool) (ps : gmap nat pc) : list bool -> gmap nat pc -> Prop :=
| move_still : move rs ps rs ps
| move_call id : ps !! id = None -> move rs ps rs (<[id := Called]> ps)
| move_on id p p' : ps !! id = Some p -> inside p' = inside p -> sleeps p' = None -> sleeps p = None ->
    from_option (fun w => w < length rs)%nat True (at_waiter p') -> move rs ps rs (<[id := p']> ps)
| move_new id p : ps !! id = Some p -> at_waiter p = None -> move rs ps (rs ++ [false]) (<[id := Entering (length rs)]> ps)
| move_enter id w : ps !! id = Some (Entering w) -> rs !! w = Some false -> move rs ps (<[w := true]> rs) (<[id := Looking w]> ps)
| move_sleep id w : ps !! id = Some (Entering w) -> rs !! w = Some true -> move rs ps rs (<[id := Asleep w]> ps)
| move_give_up id w r : ps !! id = Some (Entering w) -> move rs ps rs (<[id := Returned r]> (wake_pc w <$> ps))
| move_leave id w r : ps !! id = Some (Leaving w r) -> move rs ps (<[w := false]> rs) (<[id := Counting w r]> (wake_pc w <$> ps)).

Section Moves.
Context (rs : list bool) (ps : gmap nat pc).
Hypothesis (Hex : exclusive rs ps).

Lemma one_inside_insert id p p' w :
  ps !! id = Some p -> inside p' = inside p -> one_inside ps w -> one_inside (<[id := p']> ps) w.
Proof.
  intros Hp Hin (i & Hi & Hu).
  assert (forall k, inside <$> <[id := p']> ps !! k = inside <$> ps !! k) as Hk.
  { intros k. destruct (decide (k = id)) as [->|]; [by rewrite lookup_insert_eq, Hp; cbn; rewrite Hin|by rewrite lookup_insert_ne]. }
  exists i. rewrite Hk. split; [done|]. intros id'. rewrite Hk. apply Hu.
Qed.
Lemma nobody_insert id p' w :
  inside p' <> Some w -> sleeps p' <> Some w -> nobody ps w -> nobody (<[id := p']> ps) w.
Proof.
  intros H1 H2 Hn k q. destruct (decide (k = id)) as [->|]; [rewrite lookup_insert_eq; by intros [= <-]|].
  rewrite lookup_insert_ne by done. apply Hn.
Qed.

Lemma one_inside_wake v w : one_inside ps w -> one_inside (wake_pc v <$> ps) w.
Proof.
  assert (forall k, inside <$> (wake_pc v <$> ps) !! k = inside <$> ps !! k) as Hk
    by (intros k; rewrite lookup_fmap; destruct (ps !! k); cbn; [by rewrite inside_wake|done]).
  intros (i & Hi & Hu). exists i. rewrite Hk. split; [done|]. intros id'. rewrite Hk. apply Hu.
Qed.
Lemma nobody_wake v w : nobody ps w -> nobody (wake_pc v <$> ps) w.
Proof.
  intros Hn k q. rewrite lookup_fmap. destruct (ps !! k) as [p|] eqn:E; [|done]. cbn. intros [= <-]. destruct (Hn k p E) as [H1 H2].
  rewrite inside_wake. split; [done|]. by intros [? _]%sleeps_wake.
Qed.
End Moves.

Lemma holder_unique rs ps i j p q w :
  exclusive rs ps -> ps !! i = Some p -> inside p = Some w -> ps !! j = Some q -> inside q = Some w -> i = j.
Proof.
  intros Hex Hp Hpw Hq Hqw. destruct (lookup_lt_is_Some_2 rs w) as [r Hr]; [eapply (ex_bound _ _ Hex i); [done|by apply inside_at]|].
  pose proof (ex_flag _ _ Hex w r Hr) as Hf. destruct r; [|by destruct (Hf i p Hp)].
  destruct Hf as (k & _ & Hu). rewrite (Hu i), (Hu j); [done|by rewrite Hq; cbn; rewrite Hqw|by rewrite Hp; cbn; rewrite Hpw].
Qed.

Lemma move_exclusive rs ps rs' ps' : exclusive rs ps -> move rs ps rs' ps' -> exclusive rs' ps'.
Proof.
  intros Hex Hmv. assert (forall v, exclusive rs (wake_pc v <$> ps)) as Hwake.
  { intros v. split; [|intros id p w].
    - intros w r Hr. pose proof (ex_flag _ _ Hex w r Hr). destruct r; [by apply one_inside_wake|by apply nobody_wake].
    - rewrite lookup_fmap. destruct (ps !! id) as [q|] eqn:E; [|done]. intros [= <-]. rewrite at_wake. by apply (ex_bound _ _ Hex id). }
  assert (forall (rs' : list bool) (ps0 : gmap nat pc) id q, exclusive rs ps0 -> length rs <= length rs' ->
    from_option (fun w => w < length rs')%nat True (at_waiter q) ->
    forall i p w, <[id := q]> ps0 !! i = Some p -> at_waiter p = Some w -> (w < length rs')%nat)%nat as Hbound.
  { intros rs0 ps0 id q H0 Hle Hq i p w. destruct (decide (i = id)) as [->|];
      [rewrite lookup_insert_eq; intros [= <-] Hw; by rewrite Hw in Hq|].
    rewrite lookup_insert_ne by done. intros Hp Hw. pose proof (ex_bound _ _ H0 _ _ _ Hp Hw). lia. }
  destruct Hmv as [|id Hid|id p p' Hp Hin Hs Hs' Hb|id p Hp Ha|id w Hp Hr|id w Hp Hr|id w r Hp|id w r Hp]; [done|..];
    (split; [|eapply Hbound; [eauto|rewrite ?length_app, ?length_insert; lia|cbn; rewrite ?length_app, ?length_insert; cbn; auto]]).
  - intros v r Hv. pose proof (ex_flag _ _ Hex v r Hv) as Hf. destruct r; [|by apply nobody_insert].
    destruct Hf as (i & Hi & Hu). exists i. assert (i <> id) by (intros ->; by rewrite Hid in Hi).
    rewrite lookup_insert_ne by done. split; [done|]. intros i'. destruct (decide (i' = id)) as [->|];
      [by rewrite lookup_insert_eq|rewrite lookup_insert_ne by done; apply Hu].
  - intros v r Hv. pose proof (ex_flag _ _ Hex v r Hv) as Hf. destruct r; [by eapply one_inside_insert|].
    apply nobody_insert; [rewrite Hin; apply (Hf id p Hp)|by rewrite Hs|done].
  - intros v r Hv. apply lookup_app_Some in Hv as [Hv|[Hle Hv]].
    + pose proof (ex_flag _ _ Hex v r Hv) as Hf. destruct r; [eapply one_inside_insert; [done|..|done]; cbn|by apply nobody_insert].
      destruct p; done.
    + apply list_lookup_singleton_Some in Hv as [Hv <-]. apply nobody_insert; [done|done|].
      intros k q Hq. split; intros E; [apply inside_at in E|apply sleeps_at in E]; pose proof (ex_bound _ _ Hex _ _ _ Hq E); lia.
  - lia.
  - intros v r Hv. destruct (decide (v = w)) as [->|Hne].
    + rewrite list_lookup_insert_eq in Hv by by eapply lookup_lt_Some. injection Hv as <-.
      pose proof (ex_flag _ _ Hex w false Hr) as Hf. exists id. rewrite lookup_insert_eq. split; [done|].
      intros i'. destruct (decide (i' = id)); [done|]. rewrite lookup_insert_ne by done. destruct (ps !! i') as [q|] eqn:E; [|done].
      cbn. intros [= Hq]. by destruct (Hf i' q E).
    + rewrite list_lookup_insert_ne in Hv by done. pose proof (ex_flag _ _ Hex v r Hv) as Hf.
      destruct r; [|apply nobody_insert; [cbn; congruence|done|done]].
      destruct Hf as (i & Hi & Hu). exists i. assert (i <> id) by (intros ->; by rewrite Hp in Hi).
      rewrite lookup_insert_ne by done. split; [done|]. intros i'. destruct (decide (i' = id)) as [->|];
        [rewrite lookup_insert_eq; cbn; congruence|rewrite lookup_insert_ne by done; apply Hu].
  - eapply lookup_lt_Some, Hr.
  - intros v r Hv. pose proof (ex_flag _ _ Hex v r Hv) as Hf. destruct r; [by eapply one_inside_insert|].
    apply nobody_insert; [done|cbn; intros [= ->]; congruence|done].
  - eapply lookup_lt_Some, Hr.
  - intros v r' Hv. pose proof (ex_flag _ _ (Hwake w) v r' Hv) as Hf.
    destruct r'; [|by apply nobody_insert]. eapply one_inside_insert; [rewrite lookup_fmap, Hp; done|done|done].
  - intros v r' Hv. destruct (decide (v = w)) as [->|Hne].
    + assert (r' = false) as -> by (destruct (decide (w < length rs)%nat);
        [rewrite list_lookup_insert_eq in Hv by done; congruence|rewrite list_insert_ge in Hv by lia; apply lookup_lt_Some in Hv; lia]).
      intros k q. destruct (decide (k = id)) as [->|Hk]; [rewrite lookup_insert_eq; by intros [= <-]|].
      rewrite lookup_insert_ne, lookup_fmap by done. destruct (ps !! k) as [q0|] eqn:E; [|done]. cbn. intros [= <-]. split.
      * rewrite inside_wake. intros Hq. apply Hk. eapply (holder_unique rs ps); eauto.
      * by intros [_ ?]%sleeps_wake.
    + rewrite list_lookup_insert_ne in Hv by done. pose proof (ex_flag _ _ (Hwake w) v r' Hv) as Hf.
      destruct r'; [|by apply nobody_insert].
      destruct Hf as (i & Hi & Hu). exists i.
      assert (i <> id) by (intros ->; rewrite lookup_fmap, Hp in Hi; cbn in Hi; congruence).
      rewrite lookup_insert_ne by done. split; [done|]. intros i'. destruct (decide (i' = id)) as [->|];
        [by rewrite lookup_insert_eq|rewrite lookup_insert_ne by done; apply Hu].
  - apply (ex_bound _ _ Hex _ _ _ Hp eq_refl).
Qed.

(** ** The steps as moves *)

Lemma pcs_goto id p h c : callers h !! id = Some c -> pcs (goto id p h) = <[id := p]> (pcs h).
Proof.
  intros Hc. unfold pcs, goto. cbn. apply map_eq. intros k. rewrite lookup_fmap. destruct (decide (k = id)) as [->|].
  - by rewrite lookup_alter_eq, lookup_insert_eq, Hc.
  - by rewrite lookup_alter_ne, lookup_insert_ne, lookup_fmap.
Qed.
Lemma pcs_broadcast w h : pcs (Broadcast w h) = wake_pc w <$> pcs h.
Proof.
  unfold pcs, Broadcast. cbn. apply map_eq. intros k. rewrite !lookup_fmap. destruct (callers h !! k); cbn; [|done].
  by rewrite wake_pc_spec.
Qed.
Lemma callers_broadcast id w h c : callers h !! id = Some c -> callers (Broadcast w h) !! id = Some (wake w c).
Proof. intros Hc. cbn. by rewrite lookup_fmap, Hc. Qed.
Lemma flags_set_ready w b h : flags (on_waiter w (put_ready b) h) = <[w := b]> (flags h).
Proof.
  unfold flags, on_waiter. cbn. apply list_eq. intros k. rewrite list_lookup_fmap.
  destruct (decide (k = w)) as [->|].
  - destruct (decide (w < length (waiters h))%nat).
    + rewrite list_lookup_alter_eq, list_lookup_insert_eq by by rewrite length_fmap.
      destruct (lookup_lt_is_Some_2 (waiters h) w) as [x Hx]; [done|]. by rewrite Hx.
    + rewrite list_lookup_alter_eq, (list_insert_ge (ready <$> _)) by (rewrite length_fmap; lia). rewrite list_lookup_fmap.
      by rewrite lookup_ge_None_2 by lia.
  - rewrite list_lookup_alter_ne, list_lookup_insert_ne by done. by rewrite list_lookup_fmap.
Qed.
Lemma flags_count w n h : flags (on_waiter w (add_count n) h) = flags h.
Proof.
  unfold flags, on_waiter. cbn. apply list_eq. intros k. rewrite !list_lookup_fmap. destruct (decide (k = w)) as [->|];
    [rewrite list_lookup_alter_eq; by destruct (waiters h !! w)|by rewrite list_lookup_alter_ne].
Qed.

Definition pc_instance (p : pc) : option nat :=
  match p with
  | Asking _ i | Awaiting _ i | Storing _ i | StartingEvents _ i | StartingInfo _ i
  | Leaving _ (Got i) | Counting _ (Got i) | Tidying _ (Got i) | Deleting _ (Got i) | Returned (Got i) => Some i
  | _ => None
  end.
Definition closer_instance (p : closer) : option nat :=
  match p with
  | CloseBegin i | CloseWrite i | CloseReport i | DestroyBegin i | DestroyClaim i | DestroyTear i | DestroyReport i => Some i
  | Ended => None
  end.

Record bounded (h : hydra) : Prop := {
  bo_swamps n i : swamps h !! n = Some i -> (i < length (instances h))%nat;
  bo_summoning n w : summoningSwamps h !! n = Some w -> (w < length (waiters h))%nat;
  bo_pc id p i : pcs h !! id = Some p -> pc_instance p = Some i -> (i < length (instances h))%nat;
  bo_closer k p i : closers h !! k = Some p -> closer_instance p = Some i -> (i < length (instances h))%nat
}.

Create HintDb bounds.
#[export] Hint Extern 1 => lia : bounds.

Section Bounded.
Context (h : hydra) (Hb : bounded h).

Lemma bounded_goto id p :
  from_option (fun i => i < length (instances h))%nat True (pc_instance p) -> bounded (goto id p h).
Proof.
  intros Hp. destruct Hb as [Hs Hw Hc Hk]. split; [exact Hs|exact Hw| |exact Hk].
  intros k q i Hq Hi. cbn. unfold pcs, goto in Hq. cbn in Hq. rewrite lookup_fmap in Hq. destruct (decide (k = id)) as [->|].
  - rewrite lookup_alter_eq in Hq. destruct (callers h !! id); [|done]. injection Hq as <-. cbn in Hi. by rewrite Hi in Hp.
  - rewrite lookup_alter_ne, <-lookup_fmap in Hq by done. by apply (Hc k q).
Qed.
Lemma bounded_broadcast w : bounded (Broadcast w h).
Proof.
  destruct Hb as [Hs Hw Hc Hk]. split; [exact Hs|exact Hw| |exact Hk]. intros k q i. rewrite pcs_broadcast, lookup_fmap.
  destruct (pcs h !! k) as [p|] eqn:E; [|done]. intros [= <-] Hi. apply (Hc k p); [done|].
  destruct p; try done. revert Hi. unfold wake_pc. by destruct (decide _).
Qed.
Lemma bounded_waiter w f : bounded (on_waiter w f h).
Proof. destruct Hb as [Hs Hw Hc Hk]. split; try done. intros n v. cbn. rewrite length_alter. apply Hw. Qed.
Lemma bounded_instance i f : bounded (on_instance i f h).
Proof.
  destruct Hb as [Hs Hw Hc Hk]. split; try done; cbn; rewrite length_alter; [exact Hs|exact Hc|exact Hk].
Qed.
Lemma bounded_delete n : bounded (with_swamps (delete n) h).
Proof. destruct Hb as [Hs Hw Hc Hk]. split; try done. intros m i. cbn. intros [_ Hm]%lookup_delete_Some. by eapply Hs. Qed.
Lemma bounded_store n i : (i < length (instances h))%nat -> bounded (with_swamps <[n := i]> h).
Proof.
  intros Hi. destruct Hb as [Hs Hw Hc Hk]. split; try done. intros m j. cbn. intros [[_ <-]|[_ Hm]]%lookup_insert_Some; [done|by eapply Hs].
Qed.
Lemma bounded_tidy n : bounded (with_summoning (delete n) h).
Proof. destruct Hb as [Hs Hw Hc Hk]. split; try done. intros m i. cbn. intros [_ Hm]%lookup_delete_Some. by eapply Hw. Qed.
Lemma bounded_new_waiter n w :
  bounded (with_summoning <[n := length (waiters h)]> (with_waiters (fun ws => ws ++ [w]) h)).
Proof.
  destruct Hb as [Hs Hw Hc Hk]. split; try done. intros m v. cbn. rewrite length_app. cbn.
  intros [[_ <-]|[_ Hm]]%lookup_insert_Some; [lia|]. specialize (Hw m v Hm). lia.
Qed.
Lemma bounded_new_instance s : bounded (with_instances (fun l => l ++ [s]) h).
Proof.
  destruct Hb as [Hs Hw Hc Hk]. split; try done; cbn; rewrite length_app; [intros n i Hn; specialize (Hs n i Hn)|
    intros id p i Hp Hi; specialize (Hc id p i Hp Hi)|intros k p i Hp Hi; specialize (Hk k p i Hp Hi)]; lia.
Qed.
Lemma bounded_closer k p :
  from_option (fun i => i < length (instances h))%nat True (closer_instance p) -> bounded (set_closer k p h).
Proof.
  intros Hp. destruct Hb as [Hs Hw Hc Hk]. split; try done. intros j q i. cbn. intros [[_ <-]|[_ Hq]]%lookup_insert_Some Hi; [by rewrite Hi in Hp|by apply (Hk j q)].
Qed.
Lemma bounded_subscribers b e i : bounded (with_subscribers b e i h).
Proof. by destruct Hb. Qed.
Lemma bounded_on_open n f : bounded (on_open n f h).
Proof. unfold on_open. destruct (swamps h !! n); [apply bounded_instance|done]. Qed.
Lemma bounded_call id n island :
  callers h !! id = None -> bounded (with_callers <[id := {| c_name := n; c_island := island; c_done := false; c_pc := Called |}]> h).
Proof.
  intros _. destruct Hb as [Hs Hw Hc Hk]. split; try done. intros k p i. unfold pcs. cbn. rewrite fmap_insert.
  intros [[_ <-]|[_ Hq]]%lookup_insert_Some Hi; [done|by apply (Hc k p)].
Qed.
Lemma bounded_cancel id : bounded (with_callers (alter cancel_context id) h).
Proof.
  destruct Hb as [Hs Hw Hc Hk]. split; try done. intros k p i Hp Hi. apply (Hc k p); [|done]. rewrite <-Hp. unfold pcs. cbn.
  rewrite !lookup_fmap. destruct (decide (k = id)) as [->|]; [rewrite lookup_alter_eq; by destruct (callers h !! id)|by rewrite lookup_alter_ne].
Qed.
End Bounded.
#[export] Hint Resolve bounded_goto bounded_broadcast bounded_waiter bounded_instance bounded_delete bounded_store bounded_tidy
  bounded_new_waiter bounded_new_instance bounded_closer bounded_subscribers bounded_on_open bounded_call bounded_cancel : bounds.

Lemma pc_bound h id c i :
  bounded h -> callers h !! id = Some c -> pc_instance (c_pc c) = Some i -> (i < length (instances h))%nat.
Proof. intros Hb Hc Hi. apply (bo_pc _ Hb id (c_pc c)); [|done]. unfold pcs. by rewrite lookup_fmap, Hc. Qed.

Lemma step_bounded e h h' : bounded h -> hydra_step e h = Next h' -> bounded h'.
Proof.
  intros Hb. destruct e as [id n island|id|id|id|k i|k i|k|b client n|b client n|]; cbn [hydra_step].
  - destruct (callers h !! id) eqn:E; [done|]. intros [= <-]. auto with bounds.
  - destruct (callers h !! id) as [c|] eqn:E; [|done]. pose proof (pc_bound h id c) as Hi. unfold summon_step.
    destruct (c_pc c) eqn:Ep; cbn in Hi; try specialize (Hi _ Hb E eq_refl); repeat case_match; intros [= <-]; eauto 7 with bounds.
    all: try (apply bounded_goto; [eauto with bounds|cbn; rewrite ?length_app, ?length_alter; cbn; eauto with bounds]).
    by eapply bo_swamps.
  - destruct (callers h !! id); [|done]. intros [= <-]. auto with bounds.
  - destruct (callers h !! id) as [c|] eqn:E; [|done]. destruct (c_pc c) eqn:Ep; try done. intros [= <-].
    by apply bounded_goto.
  - destruct (closers h !! k); [done|]. destruct (instances h !! i) eqn:E; [|done]. intros [= <-].
    apply bounded_closer; [done|]. by eapply lookup_lt_Some.
  - destruct (closers h !! k); [done|]. destruct (instances h !! i) eqn:E; [|done]. intros [= <-].
    apply bounded_closer; [done|]. by eapply lookup_lt_Some.
  - destruct (closers h !! k) as [p|] eqn:E; [|done]. pose proof (bo_closer _ Hb k p) as Hi. unfold closer_step, closeEventCallbackFunction.
    destruct p; cbn in Hi; try done; specialize (Hi _ E eq_refl); repeat case_match; try done; intros [= <-];
      (apply bounded_closer; [auto with bounds|cbn; rewrite ?length_alter; done]).
  - intros [= <-]. unfold SubscribeToSwampEvents, SubscribeToSwampInfo. destruct b, (shuttingDown h); cbn [fst]; auto with bounds.
  - intros [= <-]. unfold UnsubscribeFromSwampEvents, UnsubscribeFromSwampInfo.
    destruct b, (shuttingDown h); cbn [fst]; try done; case_decide; auto with bounds.
  - intros [= <-]. unfold MarkShuttingDown. destruct (shuttingDown h); auto with bounds.
Qed.

Lemma bounded_new : bounded NewHydra.
Proof. split; intros *; cbn; unfold pcs; cbn; rewrite ?fmap_empty, lookup_empty; done. Qed.

(** The parts of a state that the moves are about. *)
Lemma pcs_fields h h' : callers h' = callers h -> pcs h' = pcs h.
Proof. unfold pcs. by intros ->. Qed.

Lemma step_move e h h' : bounded h -> exclusive (flags h) (pcs h) -> hydra_step e h = Next h' ->
  move (flags h) (pcs h) (flags h') (pcs h').
Proof.
  intros Hb Hex. assert (forall id c, callers h !! id = Some c -> pcs h !! id = Some (c_pc c)) as Hpc
    by (intros id c Hc; unfold pcs; by rewrite lookup_fmap, Hc).
  assert (forall id c p h1, callers h !! id = Some c -> callers h1 = callers h -> flags h1 = flags h ->
    inside p = inside (c_pc c) -> sleeps p = None -> sleeps (c_pc c) = None -> at_waiter p = at_waiter (c_pc c) \/
      from_option (fun w => w < length (waiters h))%nat True (at_waiter p) ->
    move (flags h) (pcs h) (flags (goto id p h1)) (pcs (goto id p h1))) as Hon.
  { intros id c p h1 Hc Hc1 Hf1 Hi Hs Hs' Ha. change (flags (goto id p h1)) with (flags h1). rewrite Hf1.
    rewrite (pcs_goto _ _ _ c) by by rewrite Hc1. rewrite (pcs_fields h h1 Hc1). eapply move_on; [by apply Hpc|done..|].
    destruct Ha as [->|Ha]; [|unfold flags; rewrite length_fmap; done]. destruct (at_waiter (c_pc c)) eqn:E; [|done].
    cbn. eapply (ex_bound _ _ Hex id); [by apply Hpc|done]. }
  destruct e as [id n island|id|id|id|k i|k i|k|b client n|b client n|]; cbn [hydra_step].
  - destruct (callers h !! id) eqn:E; [done|]. intros [= <-]. unfold pcs at 2. cbn. rewrite fmap_insert.
    apply move_call. unfold pcs. by rewrite lookup_fmap, E.
  - destruct (callers h !! id) as [c|] eqn:E; [|done]. specialize (Hpc _ _ E). unfold summon_step.
    destruct (c_pc c) eqn:Ep; repeat case_match; intros [= <-];
      try (eapply Hon; [exact E|done|first [done|apply flags_count]|rewrite Ep; done|done|rewrite Ep; done|
                        first [left; rewrite Ep; done|right; cbn; first [done|by eapply bo_summoning]]]).
    + rewrite (pcs_goto _ _ _ c) by done. unfold flags. cbn. rewrite fmap_app. cbn.
      rewrite <-(length_fmap ready). by eapply move_new.
    + rewrite (pcs_goto _ _ _ (wake w c)), pcs_broadcast by by apply callers_broadcast. by apply move_give_up.
    + rewrite (pcs_goto _ _ _ c) by done. change (flags (goto ?a ?b ?x)) with (flags x). rewrite flags_count. apply move_sleep; [done|].
      unfold flags. rewrite list_lookup_fmap. match goal with H : waiters h !! w = Some _ |- _ => rewrite H end. cbn. congruence.
    + rewrite (pcs_goto _ _ _ c) by done. change (flags (goto ?a ?b ?x)) with (flags x). rewrite flags_set_ready. apply move_enter; [done|].
      unfold flags. rewrite list_lookup_fmap. match goal with H : waiters h !! w = Some _ |- _ => rewrite H end. cbn. congruence.
    + rewrite (pcs_goto _ _ _ (wake w c)), pcs_broadcast by by apply callers_broadcast.
      change (flags (goto ?a ?b (Broadcast w ?x))) with (flags x). rewrite flags_set_ready. by apply move_leave.
  - destruct (callers h !! id) as [c|] eqn:E; [|done]. intros [= <-].
    assert (pcs (with_callers (alter cancel_context id) h) = pcs h) as ->; [|apply move_still].
    unfold pcs. cbn. apply map_eq. intros k. rewrite !lookup_fmap. destruct (decide (k = id)) as [->|];
      [rewrite lookup_alter_eq; by destruct (callers h !! id)|by rewrite lookup_alter_ne].
  - destruct (callers h !! id) as [c|] eqn:E; [|done]. destruct (c_pc c) eqn:Ep; try done. intros [= <-].
    eapply Hon; [exact E|done|done|rewrite Ep; done|done|rewrite Ep; done|left; rewrite Ep; done].
  - repeat case_match; try done. intros [= <-]. apply move_still.
  - repeat case_match; try done. intros [= <-]. apply move_still.
  - destruct (closers h !! k) as [p|]; [|done]. unfold closer_step. destruct p; repeat case_match; try done; intros [= <-]; apply move_still.
  - intros [= <-]. unfold SubscribeToSwampEvents, SubscribeToSwampInfo. unfold on_open. destruct b, (shuttingDown h); repeat case_match; apply move_still.
  - intros [= <-]. unfold UnsubscribeFromSwampEvents, UnsubscribeFromSwampInfo. unfold on_open.
    destruct b, (shuttingDown h); repeat case_match; apply move_still.
  - intros [= <-]. unfold MarkShuttingDown. destruct (shuttingDown h); apply move_still.
Qed.

Definition hydra_ok (h : hydra) : Prop := bounded h /\ exclusive (flags h) (pcs h).

Lemma hydra_ok_new : hydra_ok NewHydra.
Proof.
  split; [apply bounded_new|]. split; intros *; unfold flags, pcs; cbn; rewrite ?fmap_empty, ?lookup_empty, ?lookup_nil; done.
Qed.

Lemma step_no_panic e h : hydra_ok h -> hydra_step e h <> Panic.
Proof.
  intros [Hb Hex]. assert (forall id c, callers h !! id = Some c -> pcs h !! id = Some (c_pc c)) as Hpc
    by (intros id c Hc; unfold pcs; by rewrite lookup_fmap, Hc).
  assert (forall id c w, callers h !! id = Some c -> at_waiter (c_pc c) = Some w -> waiters h !! w <> None) as Hw.
  { intros id c w Hc Ha E%lookup_ge_None. pose proof (ex_bound _ _ Hex _ _ _ (Hpc _ _ Hc) Ha) as Hl. unfold flags in Hl.
    rewrite length_fmap in Hl. lia. }
  assert (forall i, (i < length (instances h))%nat -> instances h !! i <> None) as Hi by (intros i Hi E%lookup_ge_None; lia).
  destruct e as [id n island|id|id|id|k i|k i|k|b client n|b client n|]; cbn [hydra_step]; try (repeat case_match; done).
  - destruct (callers h !! id) as [c|] eqn:E; [|done]. specialize (fun w => Hw _ _ w E). pose proof (pc_bound h id c) as Hbd. unfold summon_step.
    destruct (c_pc c) eqn:Ep; cbn in Hbd; try specialize (Hw _ eq_refl); try specialize (Hi _ (Hbd _ Hb E eq_refl)); repeat case_match; done.
  - destruct (closers h !! k) as [p|] eqn:E; [|done]. pose proof (bo_closer _ Hb k p) as Hbd. unfold closer_step.
    destruct p; cbn in Hbd; try specialize (Hi _ (Hbd _ E eq_refl)); repeat case_match; done.
Qed.

Lemma step_ok e h : hydra_ok h -> outcome_ok hydra_ok (hydra_step e h).
Proof.
  intros Hok. destruct (hydra_step e h) as [| |h'] eqn:E; cbn; [done|by apply (step_no_panic e h)|].
  destruct Hok as [Hb Hex]. split; [by eapply step_bounded|]. eapply move_exclusive; [done|by eapply step_move].
Qed.
Lemma hydra_reachable_ok h : hydra_reachable h -> hydra_ok h.
Proof. apply reachable_inv; [intros; by apply step_ok|apply hydra_ok_new]. Qed.

(** ** Somebody can always go on *)

Lemma caller_pc h id c : callers h !! id = Some c -> pcs h !! id = Some (c_pc c).
Proof. intros Hc. unfold pcs. by rewrite lookup_fmap, Hc. Qed.

Lemma awake_moves h id c :
  hydra_ok h -> callers h !! id = Some c -> sleeps (c_pc c) = None -> (forall r, c_pc c <> Returned r) ->
  exists h', hydra_step (Step id) h = Next h' \/ hydra_step (TimeUp id) h = Next h'.
Proof.
  intros Hok Hc Hs Hr. pose proof (step_no_panic (Step id) h Hok) as Hp. cbn [hydra_step] in *. rewrite Hc in *.
  unfold summon_step in *. destruct (c_pc c) eqn:Ep; try done; repeat case_match; try done; try (eexists; by left); try (by destruct (Hr r)).
  all: eexists; right; reflexivity.
Qed.

(** Who sleeps at a waiter waits for somebody inside. *)
Lemma sleeper_waits h id c w :
  hydra_ok h -> callers h !! id = Some c -> c_pc c = Asleep w ->
  exists id' c', callers h !! id' = Some c' /\ inside (c_pc c') = Some w.
Proof.
  intros [Hb Hex] Hc Hp. pose proof (caller_pc _ _ _ Hc) as Hpc. rewrite Hp in Hpc.
  destruct (lookup_lt_is_Some_2 (flags h) w) as [r Hr]; [by eapply (ex_bound _ _ Hex id)|].
  pose proof (ex_flag _ _ Hex w r Hr) as Hf. destruct r; [|by destruct (Hf id _ Hpc)].
  destruct Hf as (id' & Hi & _). unfold pcs in Hi. rewrite lookup_fmap in Hi. destruct (callers h !! id') as [c'|] eqn:E; [|done].
  cbn in Hi. injection Hi as Hi. by exists id', c'.
Qed.

Lemma someone_moves h id c :
  hydra_ok h -> callers h !! id = Some c -> (forall r, c_pc c <> Returned r) ->
  exists id' h', hydra_step (Step id') h = Next h' \/ hydra_step (TimeUp id') h = Next h'.
Proof.
  intros Hok Hc Hr. destruct (sleeps (c_pc c)) as [w|] eqn:Es; [|exists id; by eapply awake_moves].
  assert (c_pc c = Asleep w) as Ep by (destruct (c_pc c); try done; by injection Es as ->).
  destruct (sleeper_waits _ _ _ _ Hok Hc Ep) as (id' & c' & Hc' & Hi). exists id'. eapply awake_moves; try done;
    destruct (c_pc c'); done.
Qed.

(** * Summoning while nothing is closed *)

(** ** Names, waiters and swamps *)

(** Where the callers are with their names, the names of the swamps, and the two maps. *)
Definition places (h : hydra) : gmap nat (bytes * pc) := (fun c => (c_name c, c_pc c)) <$> callers h.
Definition names_of (h : hydra) : list bytes := in_name <$> instances h.

(** What is known where a caller for [n] is. *)
Definition knows (names : list bytes) (reg : gmap bytes nat) (n : bytes) (p : pc) : Prop :=
  match p with
  | Called | Arrived | Entering _ | Asleep _ | Looking _ | Returned ErrorHydraIsShuttingDown => True
  | Asking _ i | StartingEvents _ i | StartingInfo _ i | Leaving _ (Got i) | Counting _ (Got i) | Tidying _ (Got i)
  | Deleting _ (Got i) | Returned (Got i) => reg !! n = Some i
  | Creating _ => reg !! n = None
  | Storing _ i => reg !! n = None /\ names !! i = Some n
  | _ => False
  end.

Record orderly (ps : gmap nat (bytes * pc)) (names : list bytes) (reg summ : gmap bytes nat) : Prop := {
  or_reg n i : reg !! n = Some i -> names !! i = Some n;
  or_names i n : names !! i = Some n ->
    reg !! n = Some i \/ reg !! n = None /\ exists id w, ps !! id = Some (n, Storing w i);
  or_knows id n p : ps !! id = Some (n, p) -> knows names reg n p;
  or_summ n m w : summ !! n = Some w -> summ !! m = Some w -> n = m;
  or_waiter id n p w m : ps !! id = Some (n, p) -> at_waiter p = Some w -> summ !! m = Some w -> m = n;
  or_same id n p id' n' p' w :
    ps !! id = Some (n, p) -> ps !! id' = Some (n', p') -> at_waiter p = Some w -> at_waiter p' = Some w -> n = n';
  or_new id n p w : ps !! id = Some (n, p) -> at_waiter p = Some w -> reg !! n = None -> summ !! n = Some w
}.

Section Orderly.
Context (ps : gmap nat (bytes * pc)) (names : list bytes) (reg summ : gmap bytes nat).
Hypothesis (Ho : orderly ps names reg summ).

Lemma orderly_goto id n p p' :
  ps !! id = Some (n, p) -> (forall w i, p <> Storing w i) -> knows names reg n p' ->
  (forall w, at_waiter p' = Some w -> at_waiter p = Some w \/ summ !! n = Some w) ->
  orderly (<[id := (n, p')]> ps) names reg summ.
Proof.
  intros Hp Hns Hk Hw. destruct Ho as [O1 O2 O3 O4 O5 O6 O7].
  assert (forall m w, at_waiter p' = Some w -> summ !! m = Some w -> m = n) as Hw5.
  { intros m w Ha Hm. destruct (Hw w Ha) as [Ha'|Hs]; [by eapply O5|by eapply O4]. }
  assert (forall i m q w, ps !! i = Some (m, q) -> at_waiter q = Some w -> at_waiter p' = Some w -> m = n) as Hw6.
  { intros i m q w Hq Hqw Ha. destruct (Hw w Ha) as [Ha'|Hs]; [by eapply O6|symmetry; by eapply O5]. }
  split; [done| |intros i m q|done|intros i m q w m'|intros i m q i' m' q' w|intros i m q w].
  - intros i m Hm. destruct (O2 i m Hm) as [|(Hr & k & w & Hkw)]; [by left|right]. split; [done|]. exists k, w.
    rewrite lookup_insert_ne; [done|]. intros ->. rewrite Hp in Hkw. injection Hkw as -> ->. by destruct (Hns w i).
  - intros [[_ [= <- <-]]|[_ Hq]]%lookup_insert_Some; [done|by eapply O3].
  - intros [[_ [= <- <-]]|[_ Hq]]%lookup_insert_Some; [eauto|by eapply O5].
  - intros [[_ [= <- <-]]|[_ Hq]]%lookup_insert_Some [[_ [= <- <-]]|[_ Hq']]%lookup_insert_Some Ha Ha'; [done|symmetry; eauto|eauto|].
    by eapply (O6 i m q i' m' q').
  - intros [[_ [= <- <-]]|[_ Hq]]%lookup_insert_Some Ha Hr; [|by eapply O7]. destruct (Hw w Ha); [by eapply O7|done].
Qed.

Lemma orderly_call id n : ps !! id = None -> orderly (<[id := (n, Called)]> ps) names reg summ.
Proof.
  intros Hid. destruct Ho as [O1 O2 O3 O4 O5 O6 O7].
  split; [done| |intros i m q|done|intros i m q w m'|intros i m q i' m' q' w|intros i m q w].
  - intros i m Hm. destruct (O2 i m Hm) as [|(Hr & k & w & Hkw)]; [by left|right]. split; [done|]. exists k, w.
    rewrite lookup_insert_ne; [done|]. intros ->. by rewrite Hid in Hkw.
  - intros [[_ [= <- <-]]|[_ Hq]]%lookup_insert_Some; [done|by eapply O3].
  - intros [[_ [= <- <-]]|[_ Hq]]%lookup_insert_Some; [done|by eapply O5].
  - intros [[_ [= <- <-]]|[_ Hq]]%lookup_insert_Some [[_ [= <- <-]]|[_ Hq']]%lookup_insert_Some; [done..|].
    by eapply (O6 i m q i' m' q').
  - intros [[_ [= <- <-]]|[_ Hq]]%lookup_insert_Some; [done|by eapply O7].
Qed.

Lemma orderly_wake w : orderly ((fun '(n, p) => (n, wake_pc w p)) <$> ps) names reg summ.
Proof.
  destruct Ho as [O1 O2 O3 O4 O5 O6 O7].
  assert (forall id n q, ((fun '(n, p) => (n, wake_pc w p)) <$> ps) !! id = Some (n, q) ->
    exists p, ps !! id = Some (n, p) /\ q = wake_pc w p) as Hps.
  { intros id n q. rewrite lookup_fmap. destruct (ps !! id) as [[m p]|]; [|done]. cbn. intros [= <- <-]. eauto. }
  split; [done| |intros i m q|done|intros i m q v m'|intros i m q i' m' q' v|intros i m q v].
  - intros i m Hm. destruct (O2 i m Hm) as [|(Hr & k & v & Hkv)]; [by left|right]. split; [done|]. exists k, v.
    by rewrite lookup_fmap, Hkv.
  - intros (p & Hp & ->)%Hps. specialize (O3 _ _ _ Hp). destruct p; try done. unfold wake_pc. by destruct (decide _).
  - intros (p & Hp & ->)%Hps. rewrite at_wake. by eapply O5.
  - intros (p & Hp & ->)%Hps (p' & Hp' & ->)%Hps. rewrite !at_wake. by eapply O6.
  - intros (p & Hp & ->)%Hps. rewrite at_wake. by eapply O7.
Qed.

Lemma orderly_new_waiter n w :
  summ !! n = None -> (forall m, summ !! m <> Some w) -> (forall id m p, ps !! id = Some (m, p) -> at_waiter p <> Some w) ->
  orderly ps names reg (<[n := w]> summ).
Proof.
  intros Hn Hs Hps. destruct Ho as [O1 O2 O3 O4 O5 O6 O7]. split; try done.
  - intros m m' v [[<- <-]|[_ Hm]]%lookup_insert_Some [[<- Hv]|[_ Hm']]%lookup_insert_Some; [done| |subst|by eapply O4];
      by exfalso; eapply Hs.
  - intros id m p v m' Hp Ha [[<- <-]|[_ Hm]]%lookup_insert_Some; [by destruct (Hps _ _ _ Hp)|by eapply O5].
  - intros id m p v Hp Ha Hr. pose proof (O7 _ _ _ _ Hp Ha Hr). rewrite lookup_insert_ne; [done|]. intros ->. congruence.
Qed.

Lemma orderly_tidy n : is_Some (reg !! n) -> orderly ps names reg (delete n summ).
Proof.
  intros [i Hn]. destruct Ho as [O1 O2 O3 O4 O5 O6 O7]. split; try done.
  - intros m m' v [_ Hm]%lookup_delete_Some [_ Hm']%lookup_delete_Some. by eapply O4.
  - intros id m p v m' Hp Ha [_ Hm]%lookup_delete_Some. by eapply O5.
  - intros id m p v Hp Ha Hr. rewrite lookup_delete_ne by congruence. by eapply O7.
Qed.

Lemma orderly_create id n w :
  ps !! id = Some (n, Creating w) ->
  orderly (<[id := (n, Storing w (length names))]> ps) (names ++ [n]) reg summ.
Proof.
  intros Hp. destruct Ho as [O1 O2 O3 O4 O5 O6 O7]. pose proof (O3 _ _ _ Hp) as Hr. cbn in Hr.
  assert (forall i m, names !! i = Some m -> (names ++ [n]) !! i = Some m) as Happ
    by (intros i m Hm; rewrite lookup_app_l; [done|by eapply lookup_lt_Some]).
  assert (forall m q, knows names reg m q -> knows (names ++ [n]) reg m q) as Hkn
    by (intros m q; destruct q as [| | | | | | | |? ?| | |? []|? []|? []|? []|[]]; try done; cbn; naive_solver).
  split; [eauto| |intros i m q|done|intros i m q v m'|intros i m q i' m' q' v|intros i m q v].
  - intros i m [Hm|[Hle Hm]]%lookup_app_Some.
    + destruct (O2 i m Hm) as [|(Hr' & k & v & Hkv)]; [by left|right]. split; [done|]. exists k, v.
      rewrite lookup_insert_ne; [done|]. intros ->. congruence.
    + apply list_lookup_singleton_Some in Hm as [Hi ->]. right. split; [done|]. exists id, w. rewrite lookup_insert_eq.
      repeat f_equal. lia.
  - intros [[_ [= <- <-]]|[_ Hq]]%lookup_insert_Some; [|eauto]. split; [done|]. by rewrite lookup_app_r, Nat.sub_diag.
  - intros [[_ [= <- <-]]|[_ Hq]]%lookup_insert_Some; [exact (O5 _ _ _ _ _ Hp)|by eapply O5].
  - intros [[_ [= <- <-]]|[_ Hq]]%lookup_insert_Some [[_ [= <- <-]]|[_ Hq']]%lookup_insert_Some Ha Ha'; [done|..].
    + by eapply (O6 id n (Creating w) i').
    + by eapply (O6 i m q id n (Creating w)).
    + by eapply (O6 i m q i' m' q').
  - intros [[_ [= <- <-]]|[_ Hq]]%lookup_insert_Some; [exact (O7 _ _ _ _ Hp)|by eapply O7].
Qed.

Lemma orderly_store id n w i :
  (forall id1 id2 n1 n2 p1 p2 v, ps !! id1 = Some (n1, p1) -> ps !! id2 = Some (n2, p2) -> inside p1 = Some v -> inside p2 = Some v -> id1 = id2) ->
  ps !! id = Some (n, Storing w i) ->
  orderly (<[id := (n, StartingEvents w i)]> ps) names (<[n := i]> reg) summ.
Proof.
  intros Hex Hp. destruct Ho as [O1 O2 O3 O4 O5 O6 O7]. destruct (O3 _ _ _ Hp) as [Hr Hi].
  assert (forall k q v, ps !! k = Some (n, q) -> inside q = Some v -> k = id) as Honly.
  { intros k q v Hq Hv. pose proof (O7 _ _ _ _ Hq (inside_at _ _ Hv) Hr) as H1. pose proof (O7 _ _ _ w Hp eq_refl Hr) as H2.
    rewrite H1 in H2. injection H2 as ->. by eapply (Hex k id). }
  split; [| |intros k m q|done|intros k m q v m'|intros k m q k' m' q' v|intros k m q v].
  - intros m j [[<- <-]|[_ Hm]]%lookup_insert_Some; [done|eauto].
  - intros j m Hm. destruct (decide (m = n)) as [->|Hne].
    + left. rewrite lookup_insert_eq. destruct (O2 j n Hm) as [|(_ & k & v & Hkv)]; [congruence|].
      pose proof (Honly k _ v Hkv eq_refl) as ->. congruence.
    + destruct (O2 j m Hm) as [|(Hr' & k & v & Hkv)]; [left; by rewrite lookup_insert_ne|right].
      rewrite lookup_insert_ne by done. split; [done|]. exists k, v. rewrite lookup_insert_ne; [done|]. intros ->. congruence.
  - intros [[_ [= <- <-]]|[Hk Hq]]%lookup_insert_Some; [cbn; by rewrite lookup_insert_eq|]. pose proof (O3 _ _ _ Hq) as Hkn.
    destruct (decide (m = n)) as [->|]; [|destruct q as [| | | | | | | |? ?| | |? []|? []|? []|? []|[]]; try done; cbn in *;
      by rewrite lookup_insert_ne].
    destruct q as [| | | | | | | |? ?| | |? []|? []|? []|? []|[]]; try done; cbn in Hkn; try congruence; exfalso; apply Hk; symmetry; by eapply Honly.
  - intros [[_ [= <- <-]]|[_ Hq]]%lookup_insert_Some; [exact (O5 _ _ _ _ _ Hp)|by eapply O5].
  - intros [[_ [= <- <-]]|[_ Hq]]%lookup_insert_Some [[_ [= <- <-]]|[_ Hq']]%lookup_insert_Some Ha Ha'; [done|..].
    + by eapply (O6 id n (Storing w i) k').
    + by eapply (O6 k m q id n (Storing w i)).
    + by eapply (O6 k m q k' m' q').
  - intros [[_ [= <- <-]]|[_ Hq]]%lookup_insert_Some Ha [Hr' ?]%lookup_insert_None; [done|by eapply O7].
Qed.

(** One swamp for each name. *)
Lemma orderly_once i j n :
  (forall id1 id2 n1 n2 p1 p2 v, ps !! id1 = Some (n1, p1) -> ps !! id2 = Some (n2, p2) -> inside p1 = Some v -> inside p2 = Some v -> id1 = id2) ->
  names !! i = Some n -> names !! j = Some n -> i = j.
Proof.
  intros Hex Hi Hj. destruct (or_names _ _ _ _ Ho i n Hi) as [Hri|(Hri & k1 & w1 & H1)],
    (or_names _ _ _ _ Ho j n Hj) as [Hrj|(Hrj & k2 & w2 & H2)]; try congruence.
  pose proof (or_new _ _ _ _ Ho _ _ _ _ H1 eq_refl Hri) as E1. pose proof (or_new _ _ _ _ Ho _ _ _ _ H2 eq_refl Hri) as E2.
  rewrite E1 in E2. injection E2 as ->. pose proof (Hex _ _ _ _ _ _ w2 H1 H2 eq_refl eq_refl) as ->. congruence.
Qed.
End Orderly.

(** ** Quiet runs *)

Definition quiet (e : event) : Prop :=
  match e with Call _ _ _ | Step _ | Subscribing _ _ _ | Unsubscribing _ _ _ | ShuttingDown => True | _ => False end.

Record calm (h : hydra) : Prop := {
  ca_callers id c : callers h !! id = Some c -> c_done c = false;
  ca_open i s : instances h !! i = Some s -> closing s = false;
  ca_closers : closers h = ∅;
  ca_orderly : orderly (places h) (names_of h) (swamps h) (summoningSwamps h)
}.

Lemma places_goto id p h c : callers h !! id = Some c -> places (goto id p h) = <[id := (c_name c, p)]> (places h).
Proof.
  intros Hc. unfold places, goto. cbn. apply map_eq. intros k. rewrite lookup_fmap. destruct (decide (k = id)) as [->|].
  - by rewrite lookup_alter_eq, lookup_insert_eq, Hc.
  - by rewrite lookup_alter_ne, lookup_insert_ne, lookup_fmap.
Qed.
Lemma places_broadcast w h : places (Broadcast w h) = (fun '(n, p) => (n, wake_pc w p)) <$> places h.
Proof.
  unfold places, Broadcast. cbn. apply map_eq. intros k. rewrite !lookup_fmap. destruct (callers h !! k); cbn; [|done].
  by rewrite wake_pc_spec, wake_name.
Qed.
Lemma names_instance i f h : (forall s, in_name (f s) = in_name s) -> names_of (on_instance i f h) = names_of h.
Proof.
  intros Hf. unfold names_of, on_instance. cbn. apply list_eq. intros k. rewrite !list_lookup_fmap. destruct (decide (k = i)) as [->|];
    [rewrite list_lookup_alter_eq; destruct (instances h !! i); cbn; by rewrite ?Hf|by rewrite list_lookup_alter_ne].
Qed.

Lemma undone_goto id p h :
  (forall k c, callers h !! k = Some c -> c_done c = false) -> forall k c, callers (goto id p h) !! k = Some c -> c_done c = false.
Proof.
  intros Hd k c. cbn. intros [(<- & c0 & Hc & ->)|[_ Hc]]%lookup_alter_Some; [by apply (Hd id c0)|by eapply Hd].
Qed.
Lemma undone_broadcast w h :
  (forall k c, callers h !! k = Some c -> c_done c = false) -> forall k c, callers (Broadcast w h) !! k = Some c -> c_done c = false.
Proof.
  intros Hd k c. cbn. rewrite lookup_fmap. destruct (callers h !! k) as [c0|] eqn:E; [|done]. intros [= <-].
  unfold wake. pose proof (Hd _ _ E). destruct (c_pc c0); try done. by destruct (decide _).
Qed.
Lemma open_instance i f h :
  (forall s, closing (f s) = closing s) -> (forall k s, instances h !! k = Some s -> closing s = false) ->
  forall k s, instances (on_instance i f h) !! k = Some s -> closing s = false.
Proof.
  intros Hf Hd k s. cbn. destruct (decide (k = i)) as [->|]; [|rewrite list_lookup_alter_ne by done; apply Hd].
  rewrite list_lookup_alter_eq. destruct (instances h !! i) as [s0|] eqn:E; [|done]. intros [= <-]. rewrite Hf. by eapply Hd.
Qed.

(** The callers that are inside a waiter. *)
Lemma places_inside h : hydra_ok h ->
  forall id1 id2 n1 n2 p1 p2 v, places h !! id1 = Some (n1, p1) -> places h !! id2 = Some (n2, p2) ->
    inside p1 = Some v -> inside p2 = Some v -> id1 = id2.
Proof.
  intros [_ Hex] id1 id2 n1 n2 p1 p2 v H1 H2. unfold places in H1, H2. rewrite lookup_fmap in H1, H2.
  destruct (callers h !! id1) as [c1|] eqn:E1; [|done]. destruct (callers h !! id2) as [c2|] eqn:E2; [|done].
  cbn in H1, H2. injection H1 as _ <-. injection H2 as _ <-. intros. by eapply (holder_unique _ _ id1 id2); eauto using caller_pc.
Qed.

(** A step of a caller whose place and map changes keep the order. *)
Lemma calm_goto id p c h h1 :
  calm h -> callers h !! id = Some c -> callers h1 = callers h -> closers h1 = closers h ->
  (forall k s, instances h1 !! k = Some s -> closing s = false) ->
  orderly (<[id := (c_name c, p)]> (places h)) (names_of h1) (swamps h1) (summoningSwamps h1) -> calm (goto id p h1).
Proof.
  intros Hca Hc Hc1 Hk1 Hi Ho. split; [|exact Hi|exact (eq_trans Hk1 (ca_closers _ Hca))|].
  - apply undone_goto. rewrite Hc1. apply (ca_callers _ Hca).
  - rewrite (places_goto _ _ _ c) by by rewrite Hc1. assert (places h1 = places h) as -> by (unfold places; by rewrite Hc1). exact Ho.
Qed.

Lemma calm_summon id c h h' : hydra_ok h -> calm h -> callers h !! id = Some c -> summon_step id c h = Next h' -> calm h'.
Proof.
  intros Hok Hca Hc. pose proof (ca_orderly _ Hca) as Ho. pose proof (ca_open _ Hca) as Hopen.
  assert (places h !! id = Some (c_name c, c_pc c)) as Hp by (unfold places; by rewrite lookup_fmap, Hc).
  pose proof (or_knows _ _ _ _ Ho _ _ _ Hp) as Hk. pose proof (ca_callers _ Hca _ _ Hc) as Hdone. pose proof (proj1 Hok) as Hb.
  unfold summon_step. rewrite Hdone. destruct (c_pc c) eqn:Ep.
  - intros [= <-]. eapply calm_goto; try done. eapply orderly_goto; try done; by destruct (shuttingDown h).
  - destruct (summoningSwamps h !! c_name c) as [w|] eqn:E; intros [= <-]; (eapply calm_goto; try done).
    + eapply orderly_goto; try done. intros v [= <-]. by right.
    + set (w := length (waiters h)). assert (forall m, summoningSwamps h !! m <> Some w) as Hfresh
        by (intros m Hm; pose proof (bo_summoning _ Hb _ _ Hm); lia).
      assert (forall k m p, places h !! k = Some (m, p) -> at_waiter p <> Some w) as Hnobody.
      { intros k m p Hkp Ha. unfold places in Hkp. rewrite lookup_fmap in Hkp. destruct (callers h !! k) eqn:Ek; [|done].
        cbn in Hkp. injection Hkp as _ <-. pose proof (ex_bound _ _ (proj2 Hok) _ _ _ (caller_pc _ _ _ Ek) Ha) as Hl.
        unfold flags in Hl. rewrite length_fmap in Hl. lia. }
      apply (orderly_goto _ _ _ _ (orderly_new_waiter _ _ _ _ Ho _ w E Hfresh Hnobody) id _ Arrived); try done.
      intros v [= <-]. right. by rewrite lookup_insert_eq.
  - destruct (waiters h !! w) as [wt|]; [|done]. destruct (ready wt); intros [= <-]; (eapply calm_goto; try done);
      (eapply orderly_goto; try done; by left).
  - done.
  - unfold getSwamp. destruct (swamps h !! c_name c) as [i|] eqn:E; intros [= <-]; (eapply calm_goto; try done);
      (eapply orderly_goto; try done; by left).
  - destruct (instances h !! i) as [s|] eqn:E; [|done]. rewrite (Hopen i s E). intros [= <-]. eapply calm_goto; try done.
    eapply orderly_goto; try done. by left.
  - done.
  - intros [= <-]. eapply calm_goto; try done.
    + intros k s. cbn. intros [Hk'|[_ Hk']]%lookup_app_Some; [by eapply Hopen|]. by apply list_lookup_singleton_Some in Hk' as [_ <-].
    + unfold names_of. cbn. rewrite fmap_app. cbn. replace (length (instances h)) with (length (in_name <$> instances h)) by apply length_fmap.
      by apply orderly_create.
  - intros [= <-]. eapply calm_goto; try done. apply orderly_store; [done|by apply places_inside|done].
  - assert (forall h1, h1 = (if hasEventSubscriber (c_name c) h then on_instance i StartSendingEvents h else h) ->
      callers h1 = callers h /\ closers h1 = closers h /\ swamps h1 = swamps h /\ summoningSwamps h1 = summoningSwamps h /\ names_of h1 = names_of h /\
      forall k s, instances h1 !! k = Some s -> closing s = false) as Hh1.
    { intros h1 ->. destruct (hasEventSubscriber _ _); [|done]. repeat (split; [done|]). split; [by apply names_instance|by apply open_instance]. }
    destruct (Hh1 _ eq_refl) as (E1 & E2 & E3 & E4 & E5 & E6). intros [= <-]. eapply calm_goto; try done. rewrite E3, E4, E5.
    eapply orderly_goto; try done. by left.
  - assert (forall h1, h1 = (if hasInfoSubscriber (c_name c) h then on_instance i StartSendingInformation h else h) ->
      callers h1 = callers h /\ closers h1 = closers h /\ swamps h1 = swamps h /\ summoningSwamps h1 = summoningSwamps h /\ names_of h1 = names_of h /\
      forall k s, instances h1 !! k = Some s -> closing s = false) as Hh1.
    { intros h1 ->. destruct (hasInfoSubscriber _ _); [|done]. repeat (split; [done|]). split; [by apply names_instance|by apply open_instance]. }
    destruct (Hh1 _ eq_refl) as (E1 & E2 & E3 & E4 & E5 & E6). intros [= <-]. eapply calm_goto; try done. rewrite E3, E4, E5.
    eapply orderly_goto; try done. by left.
  - intros [= <-]. set (h1 := on_waiter w (put_ready false) h).
    split; [apply undone_goto, undone_broadcast, Hca|exact Hopen|exact (ca_closers _ Hca)|].
    rewrite (places_goto _ _ _ (wake w c)) by by apply (callers_broadcast _ _ h1). rewrite places_broadcast, wake_name.
    change (orderly (<[id := (c_name c, Counting w r)]> ((fun '(n, p) => (n, wake_pc w p)) <$> places h)) (names_of h) (swamps h) (summoningSwamps h)).
    eapply orderly_goto; [by apply orderly_wake|rewrite lookup_fmap, Hp; reflexivity|done|done|by left].
  - intros [= <-]. eapply calm_goto; try done. eapply orderly_goto; try done. by left.
  - destruct (waiters h !! w) as [wt|]; [|done]. intros [= <-]. eapply calm_goto; try done.
    destruct (count wt =? 0); eapply orderly_goto; try done; [by left|by destruct r].
  - intros [= <-]. eapply calm_goto; try done. eapply orderly_goto; [apply orderly_tidy; [done|]|done|done|by destruct r|done].
    by destruct r.
  - done.
Qed.

Lemma calm_on_open n f h : (forall s, in_name (f s) = in_name s) -> (forall s, closing (f s) = closing s) -> calm h -> calm (on_open n f h).
Proof.
  intros Hn Hc [C1 C2 C3 C4]. unfold on_open. destruct (swamps h !! n); [|by split]. split; [exact C1|by apply open_instance|exact C3|].
  by rewrite names_instance.
Qed.

Lemma calm_step e h h' : hydra_ok h -> calm h -> quiet e -> hydra_step e h = Next h' -> calm h'.
Proof.
  intros Hok Hca He. pose proof Hca as [C1 C2 C3 C4].
  assert (forall b x y, calm (with_subscribers b x y h)) as Hsub by (by intros b x y; split).
  destruct e as [id n island|id|id|id|k i|k i|k|b client n|b client n|]; try done; cbn [hydra_step].
  - destruct (callers h !! id) eqn:E; [done|]. intros [= <-]. split; [|exact C2|exact C3|].
    + intros k c. cbn. intros [[_ <-]|[_ Hk]]%lookup_insert_Some; [done|by eapply C1].
    + unfold places. cbn. rewrite fmap_insert. cbn. apply orderly_call; [done|]. by rewrite lookup_fmap, E.
  - destruct (callers h !! id) as [c|] eqn:E; [|done]. by eapply calm_summon.
  - intros [= <-]. unfold SubscribeToSwampEvents, SubscribeToSwampInfo. destruct b, (shuttingDown h); cbn [fst]; try done; by apply calm_on_open.
  - intros [= <-]. unfold UnsubscribeFromSwampEvents, UnsubscribeFromSwampInfo.
    destruct b, (shuttingDown h); cbn [fst]; try done; case_decide; try done; by apply calm_on_open.
  - intros [= <-]. unfold MarkShuttingDown. by destruct (shuttingDown h).
Qed.

Lemma calm_new : calm NewHydra.
Proof.
  split; [intros id c; cbn; by rewrite lookup_empty|done|done|].
  split; intros *; unfold places, names_of; cbn; rewrite ?fmap_empty, ?lookup_empty, ?lookup_nil; done.
Qed.

Lemma quiet_calm es h : Forall quiet es -> hydra_run es NewHydra = Next h -> hydra_ok h /\ calm h.
Proof.
  intros Hq Hr. eapply (run_inv hydra_step quiet (fun h => hydra_ok h /\ calm h)); [|exact Hq| |exact Hr].
  - intros e s s' He [Hok Hca] Hs. pose proof (step_ok e s Hok) as Ho. rewrite Hs in Ho. split; [done|by apply (calm_step e s)].
  - split; [apply hydra_ok_new|apply calm_new].
Qed.

(** ** Steps left *)

Definition rank (p : pc) : nat :=
  match p with
  | Called => 12 | Arrived => 11 | Entering _ | Asleep _ => 10 | Looking _ => 9 | Creating _ | Asking _ _ => 8
  | Storing _ _ => 7 | StartingEvents _ _ => 6 | StartingInfo _ _ => 5 | Leaving _ _ => 4 | Counting _ _ => 3
  | Tidying _ _ => 2 | Deleting _ _ => 1 | Awaiting _ _ | Returned _ => 0
  end.
(** A caller that is awake at the mutex may go to sleep, one step more. *)
Definition left_of (callers : nat) (p : pc) : nat :=
  (rank p * (callers + 1) + match p with Entering _ => 1 | _ => 0 end)%nat.
Definition total (f : pc -> nat) (ps : gmap nat pc) : nat := map_fold (fun _ p acc => f p + acc)%nat 0%nat ps.

Lemma total_insert_new f ps id p : ps !! id = None -> total f (<[id := p]> ps) = (f p + total f ps)%nat.
Proof. intros Hid. unfold total. rewrite map_fold_insert_L; [done|intros; cbn; lia|done]. Qed.
Lemma total_insert f ps id p p' : ps !! id = Some p -> (total f (<[id := p']> ps) + f p = total f ps + f p')%nat.
Proof.
  intros Hp. rewrite <-(insert_id ps id p Hp) at 2. rewrite <-!(insert_delete_eq ps).
  rewrite !total_insert_new by by rewrite lookup_delete_eq. lia.
Qed.
Lemma total_fmap_le f g ps : (forall p, f (g p) <= f p + 1)%nat -> (total f (g <$> ps) <= total f ps + size ps)%nat.
Proof.
  intros Hg. induction ps as [|id p ps Hid IH] using map_ind; [by rewrite fmap_empty|].
  rewrite fmap_insert, !total_insert_new, map_size_insert_None by (done || by rewrite lookup_fmap, Hid). specialize (Hg p). lia.
Qed.
Lemma total_le f ps m : (forall p, f p <= m)%nat -> (total f ps <= size ps * m)%nat.
Proof.
  intros Hf. induction ps as [|id p ps Hid IH] using map_ind; [done|].
  rewrite total_insert_new, map_size_insert_None by done. specialize (Hf p). lia.
Qed.

Definition steps_left (h : hydra) : nat := total (left_of (size (pcs h))) (pcs h).
Lemma steps_left_bound h : (steps_left h <= size (callers h) * (12 * (size (callers h) + 1) + 1))%nat.
Proof.
  unfold steps_left. replace (size (callers h)) with (size (pcs h)) by apply map_size_fmap. apply total_le. intros p. unfold left_of.
  assert (rank p <= 12)%nat by (destruct p; cbn; lia). destruct p; cbn in *; nia.
Qed.

Lemma pcs_size id p ps q : ps !! id = Some q -> size (<[id := p]> ps : gmap nat pc) = size ps.
Proof. intros Hq. by rewrite map_size_insert_Some by (by eexists). Qed.

(** A step that goes one place on. *)
Lemma left_goto id p h h1 c :
  callers h !! id = Some c -> callers h1 = callers h ->
  (left_of (size (pcs h)) p < left_of (size (pcs h)) (c_pc c))%nat -> (steps_left (goto id p h1) < steps_left h)%nat.
Proof.
  intros Hc Hc1 Hlt. pose proof (caller_pc _ _ _ Hc) as Hp. unfold steps_left.
  assert (pcs (goto id p h1) = <[id := p]> (pcs h)) as ->
    by (rewrite (pcs_goto _ _ _ c) by (by rewrite Hc1); by rewrite (pcs_fields h h1 Hc1)).
  rewrite (pcs_size _ _ _ _ Hp). pose proof (total_insert (left_of (size (pcs h))) (pcs h) id _ p Hp). lia.
Qed.

Lemma member_size h id c : callers h !! id = Some c -> (0 < size (pcs h))%nat.
Proof. intros Hc. apply Nat.neq_0_lt_0, (map_size_ne_0_lookup_2 _ id). rewrite (caller_pc _ _ _ Hc). by eexists. Qed.

Lemma summon_left id c h h' :
  calm h -> callers h !! id = Some c -> summon_step id c h = Next h' -> (steps_left h' < steps_left h)%nat.
Proof.
  intros Hca Hc. pose proof (member_size _ _ _ Hc) as Hsz. pose proof (ca_callers _ Hca _ _ Hc) as Hd.
  assert (forall p h1, callers h1 = callers h -> (rank p < rank (c_pc c))%nat -> (steps_left (goto id p h1) < steps_left h)%nat) as Hgo.
  { intros p h1 H1 Hr. eapply left_goto; [done|done|]. unfold left_of.
    assert (match p with Entering _ => 1 | _ => 0 end <= 1)%nat by (destruct p; lia). nia. }
  unfold summon_step. rewrite Hd. destruct (c_pc c) eqn:Ep; try done.
  - intros [= <-]. apply Hgo; [done|]. destruct (shuttingDown h); cbn; lia.
  - destruct (summoningSwamps h !! c_name c); intros [= <-]; (apply Hgo; [done|cbn; lia]).
  - destruct (waiters h !! w) as [wt|]; [|done]. destruct (ready wt); intros [= <-]; [|apply Hgo; [done|cbn; lia]].
    eapply left_goto; [done|done|]. rewrite Ep. unfold left_of. cbn. lia.
  - destruct (getSwamp (c_name c) h); intros [= <-]; (apply Hgo; [done|cbn; lia]).
  - destruct (instances h !! i) as [s|] eqn:E; [|done]. rewrite (ca_open _ Hca _ _ E). intros [= <-]. apply Hgo; [done|cbn; lia].
  - destruct (ca_orderly _ Hca) as [_ _ Hk _ _ _ _]. specialize (Hk id (c_name c) (Awaiting w i)).
    unfold places in Hk. rewrite lookup_fmap, Hc in Hk. cbn in Hk. rewrite Ep in Hk. by destruct (Hk eq_refl).
  - intros [= <-]. apply Hgo; [done|cbn; lia].
  - intros [= <-]. apply Hgo; [done|cbn; lia].
  - intros [= <-]. apply Hgo; [by destruct (hasEventSubscriber _ _)|cbn; lia].
  - intros [= <-]. apply Hgo; [by destruct (hasInfoSubscriber _ _)|cbn; lia].
  - intros [= <-]. pose proof (caller_pc _ _ _ Hc) as Hp. rewrite Ep in Hp. unfold steps_left.
    rewrite (pcs_goto _ _ _ (wake w c)) by by apply (callers_broadcast _ _ (on_waiter w (put_ready false) h)).
    rewrite pcs_broadcast. change (pcs (on_waiter w (put_ready false) h)) with (pcs h).
    assert ((wake_pc w <$> pcs h) !! id = Some (Leaving w r)) as Hp' by by rewrite lookup_fmap, Hp.
    rewrite (pcs_size _ _ _ _ Hp'), map_size_fmap. set (n := size (pcs h)) in *.
    pose proof (total_insert (left_of n) _ id _ (Counting w r) Hp') as H1.
    pose proof (total_fmap_le (left_of n) (wake_pc w) (pcs h)) as H2. fold n in H2. unfold left_of in H1 at 2 4. cbn in H1.
    assert (forall p, left_of n (wake_pc w p) <= left_of n p + 1)%nat as H3
      by (intros p; destruct p as [| | |v| | | | | | | | | | | |]; try (cbn; lia); unfold wake_pc; destruct (decide (v = w)); unfold left_of; cbn; lia).
    specialize (H2 H3). lia.
  - intros [= <-]. apply Hgo; [done|cbn; lia].
  - destruct (waiters h !! w) as [wt|]; [|done]. intros [= <-]. apply Hgo; [done|]. destruct (count wt =? 0); cbn; lia.
  - intros [= <-]. apply Hgo; [done|cbn; lia].
Qed.

Lemma steps_run ids : forall h h', hydra_ok h -> calm h -> hydra_run (map Step ids) h = Next h' ->
  (length ids + steps_left h' <= steps_left h)%nat /\ hydra_ok h' /\ calm h'.
Proof.
  induction ids as [|id ids IH]; intros h h' Hok Hca; cbn [map run]; [intros [= <-]; cbn; auto|].
  destruct (hydra_step (Step id) h) as [| |h1] eqn:E; try done. intros Hr.
  pose proof (step_ok (Step id) h Hok) as Hok1. rewrite E in Hok1. pose proof (calm_step (Step id) _ _ Hok Hca I E) as Hca1.
  cbn [hydra_step] in E. destruct (callers h !! id) as [c|] eqn:Hc; [|done]. pose proof (summon_left _ _ _ _ Hca Hc E).
  destruct (IH h1 h' Hok1 Hca1 Hr) as (? & ? & ?). cbn. split; [lia|done].
Qed.

(** Where nobody can take a step everybody has returned. *)
Lemma stuck_returned h id c :
  hydra_ok h -> calm h -> (forall i, hydra_step (Step i) h = Disabled) -> callers h !! id = Some c -> exists r, c_pc c = Returned r.
Proof.
  intros Hok Hca Hdis Hc. assert ((exists r, c_pc c = Returned r) \/ forall r, c_pc c <> Returned r) as [|Hn] by (destruct (c_pc c); eauto); [done|].
  destruct (someone_moves h id c Hok Hc Hn) as (id' & h' & [Hs|Ht]); [by rewrite Hdis in Hs|].
  exfalso. cbn in Ht. destruct (callers h !! id') as [c'|] eqn:E; [|done]. destruct (c_pc c') eqn:Ep; try done.
  pose proof (or_knows _ _ _ _ (ca_orderly _ Hca) id' (c_name c') (c_pc c')) as Hk. rewrite Ep in Hk. apply Hk. unfold places.
  by rewrite lookup_fmap, E, <-Ep.
Qed.

Definition all_returned (h : hydra) : Prop := forall id c, callers h !! id = Some c -> exists r, c_pc c = Returned r.

(** Whether somebody can take a step. *)
Lemma step_or_stuck h : hydra_ok h ->
  (exists id h', hydra_step (Step id) h = Next h') \/ forall id, hydra_step (Step id) h = Disabled.
Proof.
  intros Hok. set (can := fun id => match hydra_step (Step id) h with Next _ => true | _ => false end).
  destruct (existsb can (map_to_list (callers h)).*1) eqn:E.
  - left. apply existsb_exists in E as (id & _ & Hc). unfold can in Hc. exists id. destruct (hydra_step _ _); try done. by eexists.
  - right. intros id. destruct (callers h !! id) as [c|] eqn:Hc; [|cbn; by rewrite Hc].
    pose proof (step_no_panic (Step id) h Hok) as Hp.
    destruct (hydra_step (Step id) h) as [| |h'] eqn:Es; [done|done|]. exfalso.
    assert (existsb can (map_to_list (callers h)).*1 = true) as Ht; [|by rewrite Ht in E].
    apply existsb_exists. exists id. split; [|unfold can; by rewrite Es]. apply list_elem_of_In, list_elem_of_fmap.
    exists (id, c). split; [done|]. by apply elem_of_map_to_list.
Qed.

Lemma all_return h : hydra_ok h -> calm h -> exists ids h', hydra_run (map Step ids) h = Next h' /\ all_returned h'.
Proof.
  remember (steps_left h) as n eqn:Hn. revert h Hn. induction (lt_wf n) as [n _ IH]. intros h -> Hok Hca.
  destruct (step_or_stuck h Hok) as [(id & h1 & Hs)|Hst].
  - destruct (steps_run [id] h h1 Hok Hca) as (Hl & Hok1 & Hca1); [cbn [map run]; by rewrite Hs|]. cbn in Hl.
    destruct (IH (steps_left h1) ltac:(lia) h1 eq_refl Hok1 Hca1) as (ids & h' & Hr & Ha). exists (id :: ids), h'.
    cbn [map run]. by rewrite Hs.
  - exists [], h. split; [done|]. intros id c Hc. by eapply stuck_returned.
Qed.
