(* ===== verification/Sdk.v ===== *)
(** The models of the Go SDK: [sdk/go/hydraidego/conversions.go], [conversions_mapbody.go] and
    the conversions of [hydraidego.go].

    Reflection is modelled on what it finds: a struct is the list of its exported fields, each with its
    name, the text of its [hydraide] tag and a value that carries its type.  Slices (but of bytes), maps and
    pointers go through [encoding/gob] or the msgpack library, the class [SdkCodec].  The
    registration of types with gob is left out, and a [time.Time] is its instant. *)
From Stdlib Require Import Floats.SpecFloat.
From S2P Require Import Prelude Steps Text Types Compressor Block FileSys Reader Contents Log Session.
From S2P Require Import Meta Chronicler Guard Treasure Beacon Canon Bucket Swamp Gateway Filters SwampInv SwampSteps.
#[local] Set Warnings "-register-all,-clear-no-such-hyp".

(** ** Values and models *)

(** [reflect.Kind] of a slice, a map or a pointer. *)
Inductive compound := SliceKind | MapKind | PtrKind.
#[export] Instance compound_eq_dec : EqDecision compound.
Proof. solve_decision. Defined.

(** A type of this kind: its identity, and whether it is a slice of [uint32]. *)
Record gtype := { g_Kind : compound; g_Uint32s : bool; g_Id : Z }.

Inductive gvalue : Type :=
| GString (s : bytes)
| GBool (b : bool)
| GInt (w : width) (z : Z)
| GUint (w : width) (z : Z)
| GFloat32 (f : spec_float)
| GFloat64 (f : spec_float)
| GBytes (s : option bytes)               (** [[]byte]; [None] is nil *)
| GTime (t : Z)                           (** [time.Time], in nanoseconds since 1970 *)
| GData (t : gtype) (v : option any)      (** a slice, map or pointer; [None] is nil *)
| GStruct                                 (** any other struct *)
| GOther.                                 (** complex numbers, channels, functions, arrays, interfaces *)

Record field := { fd_Name : bytes; fd_Tag : option bytes; fd_Value : gvalue }.
(** What a function gets as [any]. *)
Inductive gmodel := Pointer_to (fields : list field) | Other_model.

Definition put_value (v : gvalue) (f : field) : field :=
  {| fd_Name := fd_Name f; fd_Tag := fd_Tag f; fd_Value := v |}.

(** [reflect.Zero] of the type of a value. *)
Definition zero_like (v : gvalue) : gvalue :=
  match v with
  | GString _ => GString []
  | GBool _ => GBool false
  | GInt w _ => GInt w 0
  | GUint w _ => GUint w 0
  | GFloat32 _ => GFloat32 (S754_zero false)
  | GFloat64 _ => GFloat64 (S754_zero false)
  | GBytes _ => GBytes None
  | GTime _ => GTime zero_time
  | GData t _ => GData t None
  | GStruct => GStruct
  | GOther => GOther
  end.

Inductive EncodingFormat := EncodingGOB | EncodingMsgPack.

(** [encoding/gob] and the msgpack library on Go values.  A decoder gets the value it decodes
    into; a [map[string]any] is ranged over by the encoder, and decoded into raw messages. *)
Class SdkCodec := {
  gob_Encode : gvalue -> option bytes; gob_Decode : gvalue -> bytes -> option gvalue;
  msgpack_Marshal : gvalue -> option bytes; msgpack_Unmarshal : gvalue -> bytes -> option gvalue;
  msgpack_MarshalMap : gmap bytes gvalue -> option bytes;
  msgpack_UnmarshalMap : bytes -> option (gmap bytes bytes)
}.

(** The errors of the conversions. *)
Inductive model_error :=
| NotAPointerToStruct | MixedShapes | KeyEmpty | KeyNotFound
| NotATime (tag : bytes) | ZeroTime (tag : bytes) | NotAString (tag : bytes)
| UnsupportedType | EncodeFailed | DecodeFailed | NotUint32Slice.

Definition ebind {A B} (x : model_error + A) (f : A -> model_error + B) : model_error + B :=
  match x with inl e => inl e | inr a => f a end.
Notation "'let?' x := o 'in' k" := (ebind o (fun x => k))
  (at level 10, x strict pattern, o at level 100, k at level 200) : go_scope.

(** ** Tags *)

Definition tagKey : bytes := bs "key".
Definition tagValue : bytes := bs "value".
Definition tagOmitempty : bytes := bs "omitempty".
Definition tagDeletable : bytes := bs "deletable".
Definition tagCreatedAt : bytes := bs "createdAt".
Definition tagCreatedBy : bytes := bs "createdBy".
Definition tagUpdatedAt : bytes := bs "updatedAt".
Definition tagUpdatedBy : bytes := bs "updatedBy".
Definition tagExpireAt : bytes := bs "expireAt".
Definition tagSearchMeta : bytes := bs "searchMeta".
Definition reservedHydraideTagNames : list bytes :=
  [tagKey; tagValue; tagExpireAt; tagCreatedAt; tagCreatedBy; tagUpdatedAt; tagUpdatedBy].

Definition comma : byte := x2c.
(** [unicode.IsSpace] on ASCII, where tags are. *)
Definition is_space (b : byte) : bool := bool_decide (b ∈ [x09; x0a; x0b; x0c; x0d; x20]).
Fixpoint trim_left (s : bytes) : bytes :=
  match s with
  | b :: s' => if is_space b then trim_left s' else s
  | [] => []
  end.
Definition TrimSpace (s : bytes) : bytes := rev (trim_left (rev (trim_left s))).

Record mapBodyField := { mb_Name : bytes; mb_Index : nat; mb_OmitEmpty : bool }.
Inductive catalogShape := catalogShapeKeyOnly | catalogShapeSingleVal | catalogShapeMapBody.
#[export] Instance catalogShape_eq_dec : EqDecision catalogShape.
Proof. solve_decision. Defined.

Fixpoint inspect_fields (i : nat) (fields : list field) (hasValue : bool) (bodyFields : list mapBodyField)
    : bool * list mapBodyField :=
  match fields with
  | [] => (hasValue, bodyFields)
  | f :: fields =>
      match fd_Tag f with
      | None => inspect_fields (S i) fields hasValue bodyFields
      | Some raw =>
          let parts := split comma raw in
          let head := hd [] parts in
          if decide (head = []) then inspect_fields (S i) fields hasValue bodyFields else
          if decide (head = tagValue) then inspect_fields (S i) fields true bodyFields else
          if decide (head ∈ reservedHydraideTagNames) then inspect_fields (S i) fields hasValue bodyFields else
          inspect_fields (S i) fields hasValue (bodyFields ++
            [{| mb_Name := head; mb_Index := i;
                mb_OmitEmpty := existsb (fun p => bool_decide (TrimSpace p = tagOmitempty)) (tl parts) |}])
      end
  end.

Definition inspectCatalogModel (fields : list field) : model_error + (catalogShape * list mapBodyField) :=
  let '(hasValue, bodyFields) := inspect_fields O fields false [] in
  if hasValue && negb (bool_decide (bodyFields = [])) then inl MixedShapes else
  if hasValue then inr (catalogShapeSingleVal, []) else
  if decide (bodyFields <> []) then inr (catalogShapeMapBody, bodyFields) else inr (catalogShapeKeyOnly, []).

(** ** Values into pairs *)

Definition isFieldEmpty (v : gvalue) : bool :=
  match v with
  | GString s => bool_decide (s = [])
  | GInt _ z | GUint _ z => z =? 0
  | GFloat32 f | GFloat64 f => SFeqb f (S754_zero false)
  | GBytes s => bool_decide (default [] s = [])
  | GTime t => IsZero t
  | GData t v =>
      match v with
      | None => true
      | Some d =>
          match g_Kind t, d with
          | PtrKind, _ => false
          | _, AArray xs => bool_decide (length xs = O)
          | _, AMap m => bool_decide (length m = O)
          | _, _ => false
          end
      end
  | GBool _ | GStruct | GOther => false
  end.
(** *** Updates of a pair *)

Definition kv_Key (v : bytes) (p : KeyValuePair) : KeyValuePair :=
  {| p_Key := v; p_Int8Val := p_Int8Val p; p_Int16Val := p_Int16Val p; p_Int32Val := p_Int32Val p;
     p_Int64Val := p_Int64Val p; p_Uint8Val := p_Uint8Val p; p_Uint16Val := p_Uint16Val p; p_Uint32Val :=
     p_Uint32Val p; p_Uint64Val := p_Uint64Val p; p_Float32Val := p_Float32Val p; p_Float64Val :=
     p_Float64Val p; p_StringVal := p_StringVal p; p_BoolVal := p_BoolVal p; p_BytesVal := p_BytesVal p;
     p_Uint32Slice := p_Uint32Slice p; p_VoidVal := p_VoidVal p; p_CreatedAt := p_CreatedAt p; p_CreatedBy
     := p_CreatedBy p; p_UpdatedAt := p_UpdatedAt p; p_UpdatedBy := p_UpdatedBy p; p_ExpiredAt :=
     p_ExpiredAt p |}.
Definition kv_Int8Val (v : option Z) (p : KeyValuePair) : KeyValuePair :=
  {| p_Key := p_Key p; p_Int8Val := v; p_Int16Val := p_Int16Val p; p_Int32Val := p_Int32Val p; p_Int64Val :=
     p_Int64Val p; p_Uint8Val := p_Uint8Val p; p_Uint16Val := p_Uint16Val p; p_Uint32Val := p_Uint32Val p;
     p_Uint64Val := p_Uint64Val p; p_Float32Val := p_Float32Val p; p_Float64Val := p_Float64Val p;
     p_StringVal := p_StringVal p; p_BoolVal := p_BoolVal p; p_BytesVal := p_BytesVal p; p_Uint32Slice :=
     p_Uint32Slice p; p_VoidVal := p_VoidVal p; p_CreatedAt := p_CreatedAt p; p_CreatedBy := p_CreatedBy p;
     p_UpdatedAt := p_UpdatedAt p; p_UpdatedBy := p_UpdatedBy p; p_ExpiredAt := p_ExpiredAt p |}.
Definition kv_Int16Val (v : option Z) (p : KeyValuePair) : KeyValuePair :=
  {| p_Key := p_Key p; p_Int8Val := p_Int8Val p; p_Int16Val := v; p_Int32Val := p_Int32Val p; p_Int64Val :=
     p_Int64Val p; p_Uint8Val := p_Uint8Val p; p_Uint16Val := p_Uint16Val p; p_Uint32Val := p_Uint32Val p;
     p_Uint64Val := p_Uint64Val p; p_Float32Val := p_Float32Val p; p_Float64Val := p_Float64Val p;
     p_StringVal := p_StringVal p; p_BoolVal := p_BoolVal p; p_BytesVal := p_BytesVal p; p_Uint32Slice :=
     p_Uint32Slice p; p_VoidVal := p_VoidVal p; p_CreatedAt := p_CreatedAt p; p_CreatedBy := p_CreatedBy p;
     p_UpdatedAt := p_UpdatedAt p; p_UpdatedBy := p_UpdatedBy p; p_ExpiredAt := p_ExpiredAt p |}.
Definition kv_Int32Val (v : option Z) (p : KeyValuePair) : KeyValuePair :=
  {| p_Key := p_Key p; p_Int8Val := p_Int8Val p; p_Int16Val := p_Int16Val p; p_Int32Val := v; p_Int64Val :=
     p_Int64Val p; p_Uint8Val := p_Uint8Val p; p_Uint16Val := p_Uint16Val p; p_Uint32Val := p_Uint32Val p;
     p_Uint64Val := p_Uint64Val p; p_Float32Val := p_Float32Val p; p_Float64Val := p_Float64Val p;
     p_StringVal := p_StringVal p; p_BoolVal := p_BoolVal p; p_BytesVal := p_BytesVal p; p_Uint32Slice :=
     p_Uint32Slice p; p_VoidVal := p_VoidVal p; p_CreatedAt := p_CreatedAt p; p_CreatedBy := p_CreatedBy p;
     p_UpdatedAt := p_UpdatedAt p; p_UpdatedBy := p_UpdatedBy p; p_ExpiredAt := p_ExpiredAt p |}.
Definition kv_Int64Val (v : option Z) (p : KeyValuePair) : KeyValuePair :=
  {| p_Key := p_Key p; p_Int8Val := p_Int8Val p; p_Int16Val := p_Int16Val p; p_Int32Val := p_Int32Val p;
     p_Int64Val := v; p_Uint8Val := p_Uint8Val p; p_Uint16Val := p_Uint16Val p; p_Uint32Val := p_Uint32Val
     p; p_Uint64Val := p_Uint64Val p; p_Float32Val := p_Float32Val p; p_Float64Val := p_Float64Val p;
     p_StringVal := p_StringVal p; p_BoolVal := p_BoolVal p; p_BytesVal := p_BytesVal p; p_Uint32Slice :=
     p_Uint32Slice p; p_VoidVal := p_VoidVal p; p_CreatedAt := p_CreatedAt p; p_CreatedBy := p_CreatedBy p;
     p_UpdatedAt := p_UpdatedAt p; p_UpdatedBy := p_UpdatedBy p; p_ExpiredAt := p_ExpiredAt p |}.
Definition kv_Uint8Val (v : option Z) (p : KeyValuePair) : KeyValuePair :=
  {| p_Key := p_Key p; p_Int8Val := p_Int8Val p; p_Int16Val := p_Int16Val p; p_Int32Val := p_Int32Val p;
     p_Int64Val := p_Int64Val p; p_Uint8Val := v; p_Uint16Val := p_Uint16Val p; p_Uint32Val := p_Uint32Val
     p; p_Uint64Val := p_Uint64Val p; p_Float32Val := p_Float32Val p; p_Float64Val := p_Float64Val p;
     p_StringVal := p_StringVal p; p_BoolVal := p_BoolVal p; p_BytesVal := p_BytesVal p; p_Uint32Slice :=
     p_Uint32Slice p; p_VoidVal := p_VoidVal p; p_CreatedAt := p_CreatedAt p; p_CreatedBy := p_CreatedBy p;
     p_UpdatedAt := p_UpdatedAt p; p_UpdatedBy := p_UpdatedBy p; p_ExpiredAt := p_ExpiredAt p |}.
Definition kv_Uint16Val (v : option Z) (p : KeyValuePair) : KeyValuePair :=
  {| p_Key := p_Key p; p_Int8Val := p_Int8Val p; p_Int16Val := p_Int16Val p; p_Int32Val := p_Int32Val p;
     p_Int64Val := p_Int64Val p; p_Uint8Val := p_Uint8Val p; p_Uint16Val := v; p_Uint32Val := p_Uint32Val p;
     p_Uint64Val := p_Uint64Val p; p_Float32Val := p_Float32Val p; p_Float64Val := p_Float64Val p;
     p_StringVal := p_StringVal p; p_BoolVal := p_BoolVal p; p_BytesVal := p_BytesVal p; p_Uint32Slice :=
     p_Uint32Slice p; p_VoidVal := p_VoidVal p; p_CreatedAt := p_CreatedAt p; p_CreatedBy := p_CreatedBy p;
     p_UpdatedAt := p_UpdatedAt p; p_UpdatedBy := p_UpdatedBy p; p_ExpiredAt := p_ExpiredAt p |}.
Definition kv_Uint32Val (v : option Z) (p : KeyValuePair) : KeyValuePair :=
  {| p_Key := p_Key p; p_Int8Val := p_Int8Val p; p_Int16Val := p_Int16Val p; p_Int32Val := p_Int32Val p;
     p_Int64Val := p_Int64Val p; p_Uint8Val := p_Uint8Val p; p_Uint16Val := p_Uint16Val p; p_Uint32Val := v;
     p_Uint64Val := p_Uint64Val p; p_Float32Val := p_Float32Val p; p_Float64Val := p_Float64Val p;
     p_StringVal := p_StringVal p; p_BoolVal := p_BoolVal p; p_BytesVal := p_BytesVal p; p_Uint32Slice :=
     p_Uint32Slice p; p_VoidVal := p_VoidVal p; p_CreatedAt := p_CreatedAt p; p_CreatedBy := p_CreatedBy p;
     p_UpdatedAt := p_UpdatedAt p; p_UpdatedBy := p_UpdatedBy p; p_ExpiredAt := p_ExpiredAt p |}.
Definition kv_Uint64Val (v : option Z) (p : KeyValuePair) : KeyValuePair :=
  {| p_Key := p_Key p; p_Int8Val := p_Int8Val p; p_Int16Val := p_Int16Val p; p_Int32Val := p_Int32Val p;
     p_Int64Val := p_Int64Val p; p_Uint8Val := p_Uint8Val p; p_Uint16Val := p_Uint16Val p; p_Uint32Val :=
     p_Uint32Val p; p_Uint64Val := v; p_Float32Val := p_Float32Val p; p_Float64Val := p_Float64Val p;
     p_StringVal := p_StringVal p; p_BoolVal := p_BoolVal p; p_BytesVal := p_BytesVal p; p_Uint32Slice :=
     p_Uint32Slice p; p_VoidVal := p_VoidVal p; p_CreatedAt := p_CreatedAt p; p_CreatedBy := p_CreatedBy p;
     p_UpdatedAt := p_UpdatedAt p; p_UpdatedBy := p_UpdatedBy p; p_ExpiredAt := p_ExpiredAt p |}.
Definition kv_Float32Val (v : option spec_float) (p : KeyValuePair) : KeyValuePair :=
  {| p_Key := p_Key p; p_Int8Val := p_Int8Val p; p_Int16Val := p_Int16Val p; p_Int32Val := p_Int32Val p;
     p_Int64Val := p_Int64Val p; p_Uint8Val := p_Uint8Val p; p_Uint16Val := p_Uint16Val p; p_Uint32Val :=
     p_Uint32Val p; p_Uint64Val := p_Uint64Val p; p_Float32Val := v; p_Float64Val := p_Float64Val p;
     p_StringVal := p_StringVal p; p_BoolVal := p_BoolVal p; p_BytesVal := p_BytesVal p; p_Uint32Slice :=
     p_Uint32Slice p; p_VoidVal := p_VoidVal p; p_CreatedAt := p_CreatedAt p; p_CreatedBy := p_CreatedBy p;
     p_UpdatedAt := p_UpdatedAt p; p_UpdatedBy := p_UpdatedBy p; p_ExpiredAt := p_ExpiredAt p |}.
Definition kv_Float64Val (v : option spec_float) (p : KeyValuePair) : KeyValuePair :=
  {| p_Key := p_Key p; p_Int8Val := p_Int8Val p; p_Int16Val := p_Int16Val p; p_Int32Val := p_Int32Val p;
     p_Int64Val := p_Int64Val p; p_Uint8Val := p_Uint8Val p; p_Uint16Val := p_Uint16Val p; p_Uint32Val :=
     p_Uint32Val p; p_Uint64Val := p_Uint64Val p; p_Float32Val := p_Float32Val p; p_Float64Val := v;
     p_StringVal := p_StringVal p; p_BoolVal := p_BoolVal p; p_BytesVal := p_BytesVal p; p_Uint32Slice :=
     p_Uint32Slice p; p_VoidVal := p_VoidVal p; p_CreatedAt := p_CreatedAt p; p_CreatedBy := p_CreatedBy p;
     p_UpdatedAt := p_UpdatedAt p; p_UpdatedBy := p_UpdatedBy p; p_ExpiredAt := p_ExpiredAt p |}.
Definition kv_StringVal (v : option bytes) (p : KeyValuePair) : KeyValuePair :=
  {| p_Key := p_Key p; p_Int8Val := p_Int8Val p; p_Int16Val := p_Int16Val p; p_Int32Val := p_Int32Val p;
     p_Int64Val := p_Int64Val p; p_Uint8Val := p_Uint8Val p; p_Uint16Val := p_Uint16Val p; p_Uint32Val :=
     p_Uint32Val p; p_Uint64Val := p_Uint64Val p; p_Float32Val := p_Float32Val p; p_Float64Val :=
     p_Float64Val p; p_StringVal := v; p_BoolVal := p_BoolVal p; p_BytesVal := p_BytesVal p; p_Uint32Slice
     := p_Uint32Slice p; p_VoidVal := p_VoidVal p; p_CreatedAt := p_CreatedAt p; p_CreatedBy := p_CreatedBy
     p; p_UpdatedAt := p_UpdatedAt p; p_UpdatedBy := p_UpdatedBy p; p_ExpiredAt := p_ExpiredAt p |}.
Definition kv_BoolVal (v : option Boolean_Type) (p : KeyValuePair) : KeyValuePair :=
  {| p_Key := p_Key p; p_Int8Val := p_Int8Val p; p_Int16Val := p_Int16Val p; p_Int32Val := p_Int32Val p;
     p_Int64Val := p_Int64Val p; p_Uint8Val := p_Uint8Val p; p_Uint16Val := p_Uint16Val p; p_Uint32Val :=
     p_Uint32Val p; p_Uint64Val := p_Uint64Val p; p_Float32Val := p_Float32Val p; p_Float64Val :=
     p_Float64Val p; p_StringVal := p_StringVal p; p_BoolVal := v; p_BytesVal := p_BytesVal p; p_Uint32Slice
     := p_Uint32Slice p; p_VoidVal := p_VoidVal p; p_CreatedAt := p_CreatedAt p; p_CreatedBy := p_CreatedBy
     p; p_UpdatedAt := p_UpdatedAt p; p_UpdatedBy := p_UpdatedBy p; p_ExpiredAt := p_ExpiredAt p |}.
Definition kv_BytesVal (v : option bytes) (p : KeyValuePair) : KeyValuePair :=
  {| p_Key := p_Key p; p_Int8Val := p_Int8Val p; p_Int16Val := p_Int16Val p; p_Int32Val := p_Int32Val p;
     p_Int64Val := p_Int64Val p; p_Uint8Val := p_Uint8Val p; p_Uint16Val := p_Uint16Val p; p_Uint32Val :=
     p_Uint32Val p; p_Uint64Val := p_Uint64Val p; p_Float32Val := p_Float32Val p; p_Float64Val :=
     p_Float64Val p; p_StringVal := p_StringVal p; p_BoolVal := p_BoolVal p; p_BytesVal := v; p_Uint32Slice
     := p_Uint32Slice p; p_VoidVal := p_VoidVal p; p_CreatedAt := p_CreatedAt p; p_CreatedBy := p_CreatedBy
     p; p_UpdatedAt := p_UpdatedAt p; p_UpdatedBy := p_UpdatedBy p; p_ExpiredAt := p_ExpiredAt p |}.
Definition kv_VoidVal (v : option bool) (p : KeyValuePair) : KeyValuePair :=
  {| p_Key := p_Key p; p_Int8Val := p_Int8Val p; p_Int16Val := p_Int16Val p; p_Int32Val := p_Int32Val p;
     p_Int64Val := p_Int64Val p; p_Uint8Val := p_Uint8Val p; p_Uint16Val := p_Uint16Val p; p_Uint32Val :=
     p_Uint32Val p; p_Uint64Val := p_Uint64Val p; p_Float32Val := p_Float32Val p; p_Float64Val :=
     p_Float64Val p; p_StringVal := p_StringVal p; p_BoolVal := p_BoolVal p; p_BytesVal := p_BytesVal p;
     p_Uint32Slice := p_Uint32Slice p; p_VoidVal := v; p_CreatedAt := p_CreatedAt p; p_CreatedBy :=
     p_CreatedBy p; p_UpdatedAt := p_UpdatedAt p; p_UpdatedBy := p_UpdatedBy p; p_ExpiredAt := p_ExpiredAt p
     |}.
Definition kv_CreatedAt (v : option Timestamp) (p : KeyValuePair) : KeyValuePair :=
  {| p_Key := p_Key p; p_Int8Val := p_Int8Val p; p_Int16Val := p_Int16Val p; p_Int32Val := p_Int32Val p;
     p_Int64Val := p_Int64Val p; p_Uint8Val := p_Uint8Val p; p_Uint16Val := p_Uint16Val p; p_Uint32Val :=
     p_Uint32Val p; p_Uint64Val := p_Uint64Val p; p_Float32Val := p_Float32Val p; p_Float64Val :=
     p_Float64Val p; p_StringVal := p_StringVal p; p_BoolVal := p_BoolVal p; p_BytesVal := p_BytesVal p;
     p_Uint32Slice := p_Uint32Slice p; p_VoidVal := p_VoidVal p; p_CreatedAt := v; p_CreatedBy :=
     p_CreatedBy p; p_UpdatedAt := p_UpdatedAt p; p_UpdatedBy := p_UpdatedBy p; p_ExpiredAt := p_ExpiredAt p
     |}.
Definition kv_CreatedBy (v : bytes) (p : KeyValuePair) : KeyValuePair :=
  {| p_Key := p_Key p; p_Int8Val := p_Int8Val p; p_Int16Val := p_Int16Val p; p_Int32Val := p_Int32Val p;
     p_Int64Val := p_Int64Val p; p_Uint8Val := p_Uint8Val p; p_Uint16Val := p_Uint16Val p; p_Uint32Val :=
     p_Uint32Val p; p_Uint64Val := p_Uint64Val p; p_Float32Val := p_Float32Val p; p_Float64Val :=
     p_Float64Val p; p_StringVal := p_StringVal p; p_BoolVal := p_BoolVal p; p_BytesVal := p_BytesVal p;
     p_Uint32Slice := p_Uint32Slice p; p_VoidVal := p_VoidVal p; p_CreatedAt := p_CreatedAt p; p_CreatedBy
     := v; p_UpdatedAt := p_UpdatedAt p; p_UpdatedBy := p_UpdatedBy p; p_ExpiredAt := p_ExpiredAt p |}.
Definition kv_UpdatedAt (v : option Timestamp) (p : KeyValuePair) : KeyValuePair :=
  {| p_Key := p_Key p; p_Int8Val := p_Int8Val p; p_Int16Val := p_Int16Val p; p_Int32Val := p_Int32Val p;
     p_Int64Val := p_Int64Val p; p_Uint8Val := p_Uint8Val p; p_Uint16Val := p_Uint16Val p; p_Uint32Val :=
     p_Uint32Val p; p_Uint64Val := p_Uint64Val p; p_Float32Val := p_Float32Val p; p_Float64Val :=
     p_Float64Val p; p_StringVal := p_StringVal p; p_BoolVal := p_BoolVal p; p_BytesVal := p_BytesVal p;
     p_Uint32Slice := p_Uint32Slice p; p_VoidVal := p_VoidVal p; p_CreatedAt := p_CreatedAt p; p_CreatedBy
     := p_CreatedBy p; p_UpdatedAt := v; p_UpdatedBy := p_UpdatedBy p; p_ExpiredAt := p_ExpiredAt p |}.
Definition kv_UpdatedBy (v : bytes) (p : KeyValuePair) : KeyValuePair :=
  {| p_Key := p_Key p; p_Int8Val := p_Int8Val p; p_Int16Val := p_Int16Val p; p_Int32Val := p_Int32Val p;
     p_Int64Val := p_Int64Val p; p_Uint8Val := p_Uint8Val p; p_Uint16Val := p_Uint16Val p; p_Uint32Val :=
     p_Uint32Val p; p_Uint64Val := p_Uint64Val p; p_Float32Val := p_Float32Val p; p_Float64Val :=
     p_Float64Val p; p_StringVal := p_StringVal p; p_BoolVal := p_BoolVal p; p_BytesVal := p_BytesVal p;
     p_Uint32Slice := p_Uint32Slice p; p_VoidVal := p_VoidVal p; p_CreatedAt := p_CreatedAt p; p_CreatedBy
     := p_CreatedBy p; p_UpdatedAt := p_UpdatedAt p; p_UpdatedBy := v; p_ExpiredAt := p_ExpiredAt p |}.
Definition kv_ExpiredAt (v : option Timestamp) (p : KeyValuePair) : KeyValuePair :=
  {| p_Key := p_Key p; p_Int8Val := p_Int8Val p; p_Int16Val := p_Int16Val p; p_Int32Val := p_Int32Val p;
     p_Int64Val := p_Int64Val p; p_Uint8Val := p_Uint8Val p; p_Uint16Val := p_Uint16Val p; p_Uint32Val :=
     p_Uint32Val p; p_Uint64Val := p_Uint64Val p; p_Float32Val := p_Float32Val p; p_Float64Val :=
     p_Float64Val p; p_StringVal := p_StringVal p; p_BoolVal := p_BoolVal p; p_BytesVal := p_BytesVal p;
     p_Uint32Slice := p_Uint32Slice p; p_VoidVal := p_VoidVal p; p_CreatedAt := p_CreatedAt p; p_CreatedBy
     := p_CreatedBy p; p_UpdatedAt := p_UpdatedAt p; p_UpdatedBy := p_UpdatedBy p; p_ExpiredAt := v |}.
(** [&KeyValuePair{}] *)
Definition kv_empty : KeyValuePair :=
  {| p_Key := []; p_Int8Val := None; p_Int16Val := None; p_Int32Val := None; p_Int64Val := None; p_Uint8Val
     := None; p_Uint16Val := None; p_Uint32Val := None; p_Uint64Val := None; p_Float32Val := None;
     p_Float64Val := None; p_StringVal := None; p_BoolVal := None; p_BytesVal := None; p_Uint32Slice :=
     None; p_VoidVal := None; p_CreatedAt := None; p_CreatedBy := []; p_UpdatedAt := None; p_UpdatedBy :=
     []; p_ExpiredAt := None |}.

Section Sdk.
Context `{GC : SdkCodec}.

Definition wrapMsgpack (data : bytes) : bytes := msgpackMagic0 :: msgpackMagic1 :: data.

(** The encoding of a slice, a map or a pointer. *)
Definition encode_data (encoding : EncodingFormat) (v : gvalue) (kv : KeyValuePair) : model_error + KeyValuePair :=
  match encoding with
  | EncodingMsgPack =>
      match msgpack_Marshal v with
      | Some encoded => inr (kv_BytesVal (Some (wrapMsgpack encoded)) kv)
      | None => inl EncodeFailed
      end
  | EncodingGOB =>
      match gob_Encode v with
      | Some encoded => inr (kv_BytesVal (Some encoded) kv)
      | None => inl EncodeFailed
      end
  end.

Definition convertFieldToKvPair (v : gvalue) (kv : KeyValuePair) (encoding : EncodingFormat) : model_error + KeyValuePair :=
  match v with
  | GString s => inr (kv_StringVal (Some s) kv)
  | GBool b => inr (kv_BoolVal (Some (if b then Boolean_TRUE else Boolean_FALSE)) kv)
  | GUint W8 z => inr (kv_Uint8Val (Some z) kv)
  | GUint W16 z => inr (kv_Uint16Val (Some z) kv)
  | GUint W32 z => inr (kv_Uint32Val (Some z) kv)
  | GUint W64 z | GUint Wint z => inr (kv_Uint64Val (Some z) kv)
  | GInt W8 z => inr (kv_Int8Val (Some z) kv)
  | GInt W16 z => inr (kv_Int16Val (Some z) kv)
  | GInt W32 z => inr (kv_Int32Val (Some z) kv)
  | GInt W64 z | GInt Wint z => inr (kv_Int64Val (Some z) kv)
  | GFloat32 f => inr (kv_Float32Val (Some f) kv)
  | GFloat64 f => inr (kv_Float64Val (Some f) kv)
  | GBytes s => inr (kv_BytesVal s kv)
  | GData t d =>
      if decide (g_Kind t = PtrKind /\ d = None) then inr kv else encode_data encoding v kv
  | GTime t => inr (if IsZero t then kv else kv_Int64Val (Some (t / 10 ^ 9)) kv)
  | GStruct => inr kv
  | GOther => inl UnsupportedType
  end.

(** A field of the message and whether the loop goes on with the next field of the model. *)
Definition convert_key (f : field) (tag : bytes) (kv : KeyValuePair) : model_error + (KeyValuePair * bool) :=
  if decide (tag = tagKey) then
    match fd_Value f with
    | GString s => if decide (s = []) then inl KeyEmpty else inr (kv_Key s kv, true)
    | _ => inl KeyEmpty
    end
  else inr (kv, false).

Definition convert_value (encoding : EncodingFormat) (f : field) (tag : bytes) (kv : KeyValuePair) : model_error + (KeyValuePair * bool) :=
  if contains tag tagValue then
    let isEmpty := isFieldEmpty (fd_Value f) in
    let kv := if isEmpty then kv_VoidVal (Some true) kv else kv in
    if contains tag tagOmitempty && isEmpty then inr (kv, true) else
    let? kv := convertFieldToKvPair (fd_Value f) kv encoding in inr (kv, false)
  else inr (kv, false).

Definition convert_time (name : bytes) (put : option Timestamp -> KeyValuePair -> KeyValuePair) (f : field) (tag : bytes)
    (kv : KeyValuePair) : model_error + (KeyValuePair * bool) :=
  if contains tag name then
    let hasOmitempty := contains tag tagOmitempty in
    if hasOmitempty && isFieldEmpty (fd_Value f) then inr (kv, true) else
    match fd_Value f with
    | GTime t =>
        if negb hasOmitempty && IsZero t then inl (ZeroTime name) else
        inr (if IsZero t then kv else put (Some (New_timestamp t)) kv, true)
    | _ => inl (NotATime name)
    end
  else inr (kv, false).

Definition convert_by (name : bytes) (put : bytes -> KeyValuePair -> KeyValuePair) (f : field) (tag : bytes)
    (kv : KeyValuePair) : model_error + (KeyValuePair * bool) :=
  if contains tag name then
    if contains tag tagOmitempty && isFieldEmpty (fd_Value f) then inr (kv, true) else
    match fd_Value f with
    | GString s => inr (if decide (s = []) then kv else put s kv, true)
    | _ => inl (NotAString name)
    end
  else inr (kv, false).

(** The checks of a field in their order; one that answers [true] is a [continue]. *)
Fixpoint first_match (checks : list (KeyValuePair -> model_error + (KeyValuePair * bool))) (kv : KeyValuePair)
    : model_error + KeyValuePair :=
  match checks with
  | [] => inr kv
  | check :: checks =>
      let? r := check kv in
      if r.2 then inr r.1 else first_match checks r.1
  end.

Definition convert_field (encoding : EncodingFormat) (f : field) (kv : KeyValuePair) : model_error + KeyValuePair :=
  match fd_Tag f with
  | None => inr kv
  | Some tag =>
      first_match [convert_key f tag; convert_value encoding f tag; convert_time tagExpireAt kv_ExpiredAt f tag;
        convert_by tagCreatedBy kv_CreatedBy f tag; convert_time tagCreatedAt kv_CreatedAt f tag;
        convert_by tagUpdatedBy kv_UpdatedBy f tag; convert_time tagUpdatedAt kv_UpdatedAt f tag] kv
  end.

Fixpoint convert_fields (encoding : EncodingFormat) (fields : list field) (kv : KeyValuePair) : model_error + KeyValuePair :=
  match fields with
  | [] => inr kv
  | f :: fields => let? kv := convert_field encoding f kv in convert_fields encoding fields kv
  end.

(** *** Map bodies *)

Fixpoint body_of (fields : list field) (bodyFields : list mapBodyField) (body : gmap bytes gvalue) : gmap bytes gvalue :=
  match bodyFields with
  | [] => body
  | b :: bodyFields =>
      body_of fields bodyFields
        (match fields !! mb_Index b with
         | Some f => if mb_OmitEmpty b && isFieldEmpty (fd_Value f) then body else <[mb_Name b := fd_Value f]> body
         | None => body
         end)
  end.

(** Nothing when every field was skipped. *)
Definition encodeMapBody (fields : list field) (bodyFields : list mapBodyField) : model_error + option bytes :=
  if decide (bodyFields = []) then inr None else
  let body := body_of fields bodyFields ∅ in
  if decide (body = ∅) then inr None else
  match msgpack_MarshalMap body with
  | Some encoded => inr (Some (wrapMsgpack encoded))
  | None => inl EncodeFailed
  end.

Definition applyMapBodyToKvPair (kv : KeyValuePair) (fields : list field) (bodyFields : list mapBodyField)
    : model_error + KeyValuePair :=
  let? body := encodeMapBody fields bodyFields in
  inr (match body with None => kv | Some _ => kv_VoidVal None (kv_BytesVal body kv) end).

Definition convertCatalogModelToKeyValuePair (model : gmodel) (encoding : EncodingFormat) : model_error + KeyValuePair :=
  match model with
  | Other_model => inl NotAPointerToStruct
  | Pointer_to fields =>
      let? (shape, mapBodyFields) := inspectCatalogModel fields in
      let? kv := convert_fields encoding fields kv_empty in
      let? kv := if decide (shape = catalogShapeMapBody) then applyMapBodyToKvPair kv fields mapBodyFields else inr kv in
      if decide (p_Key kv = []) then inl KeyNotFound else inr kv
  end.

(** ** Treasures into models *)

Definition decode_data (data : bytes) (v : gvalue) : model_error + gvalue :=
  match (if isMsgpackEncoded data then msgpack_Unmarshal (zero_like v) (unwrapMsgpack data) else gob_Decode (zero_like v) data) with
  | Some v => inr v
  | None => inl DecodeFailed
  end.

(** What the value of a field becomes, and whether the check for a slice of numbers is left. *)
Definition set_bytes (data : bytes) (v : gvalue) : model_error + (gvalue * bool) :=
  match v with
  | GBytes _ => inr (GBytes (Some data), true)
  | GData _ _ => let? v := decode_data data v in inr (v, true)
  | _ => inr (v, false)
  end.

Definition set_uint32s (values : list Z) (v : gvalue) : model_error + gvalue :=
  match v with
  | GData t _ =>
      if decide (g_Kind t = SliceKind /\ g_Uint32s t = true) then inr (GData t (Some (AArray (map (AUint W32) values))))
      else inl NotUint32Slice
  | _ => inl NotUint32Slice
  end.

Definition setProtoTreasureToModel (t : pb_Treasure) (v : gvalue) : model_error + gvalue :=
  match o_StringVal t with Some s => inr (match v with GString _ => GString s | _ => v end) | None =>
  match o_Uint8Val t with Some z => inr (match v with GUint W8 _ => GUint W8 (u8 z) | _ => v end) | None =>
  match o_Uint16Val t with Some z => inr (match v with GUint W16 _ => GUint W16 (u16 z) | _ => v end) | None =>
  match o_Uint32Val t with Some z => inr (match v with GUint W32 _ => GUint W32 z | _ => v end) | None =>
  match o_Uint64Val t with
  | Some z => inr (match v with GUint W64 _ => GUint W64 z | GUint Wint _ => GUint Wint z | _ => v end)
  | None =>
  match o_Int8Val t with Some z => inr (match v with GInt W8 _ => GInt W8 (i8 z) | _ => v end) | None =>
  match o_Int16Val t with Some z => inr (match v with GInt W16 _ => GInt W16 (i16 z) | _ => v end) | None =>
  match o_Int32Val t with Some z => inr (match v with GInt W32 _ => GInt W32 z | _ => v end) | None =>
  match o_Int64Val t with
  | Some z => inr (match v with
                   | GInt W64 _ => GInt W64 z | GInt Wint _ => GInt Wint z
                   | GTime _ => GTime (z * 10 ^ 9)
                   | _ => v
                   end)
  | None =>
  match o_Float32Val t with Some f => inr (match v with GFloat32 _ => GFloat32 f | _ => v end) | None =>
  match o_Float64Val t with Some f => inr (match v with GFloat64 _ => GFloat64 f | _ => v end) | None =>
  match o_BoolVal t with Some b => inr (match v with GBool _ => GBool (is_true b) | _ => v end) | None =>
  let? (v, more) := match o_BytesVal t with Some data => set_bytes data v | None => inr (v, true) end in
  match o_Uint32Slice t with
  | Some values => if more : bool then set_uint32s values v else inr v
  | None => inr v
  end
  end end end end end end end end end end end end.

(** The fields as far as they were set, and the error. *)
Fixpoint decode_fields (raws : gmap bytes bytes) (bodyFields : list mapBodyField) (fields : list field)
    : list field * option model_error :=
  match bodyFields with
  | [] => (fields, None)
  | b :: bodyFields =>
      match raws !! mb_Name b, fields !! mb_Index b with
      | Some raw, Some f =>
          match msgpack_Unmarshal (fd_Value f) raw with
          | Some v => decode_fields raws bodyFields (<[mb_Index b := put_value v f]> fields)
          | None => (fields, Some DecodeFailed)
          end
      | _, _ => decode_fields raws bodyFields fields
      end
  end.

Definition decodeMapBodyInto (blob : bytes) (fields : list field) (bodyFields : list mapBodyField)
    : list field * option model_error :=
  if decide (blob = [] \/ bodyFields = []) then (fields, None) else
  let body := if isMsgpackEncoded blob then unwrapMsgpack blob else blob in
  if decide (body = []) then (fields, None) else
  match msgpack_UnmarshalMap body with
  | Some raws => decode_fields raws bodyFields fields
  | None => (fields, Some DecodeFailed)
  end.

(** [SetString] and [Set] panic on a field of another type. *)
Definition set_string (s : bytes) (v : gvalue) : outcome gvalue :=
  match v with GString _ => Next (GString s) | _ => Panic end.
Definition set_time (ts : Timestamp) (v : gvalue) : outcome gvalue :=
  match v with GTime _ => Next (GTime (AsTime ts)) | _ => Panic end.
Definition set_when {A} (o : option A) (set : A -> gvalue -> outcome gvalue) (v : gvalue) : outcome (gvalue * option model_error) :=
  match o with
  | Some a => let! v := set a v in Next (v, None)
  | None => Next (v, None)
  end.

Definition assign (t : pb_Treasure) (tag : bytes) (v : gvalue) : outcome (gvalue * option model_error) :=
  if contains tag tagKey then set_when (Some (o_Key t)) set_string v else
  if contains tag tagValue then
    Next (match setProtoTreasureToModel t v with inr v => (v, None) | inl e => (v, Some e) end) else
  if contains tag tagExpireAt then set_when (o_ExpiredAt t) set_time v else
  if contains tag tagCreatedBy then set_when (o_CreatedBy t) set_string v else
  if contains tag tagCreatedAt then set_when (o_CreatedAt t) set_time v else
  if contains tag tagUpdatedBy then set_when (o_UpdatedBy t) set_string v else
  if contains tag tagUpdatedAt then set_when (o_UpdatedAt t) set_time v else
  Next (v, None).

Fixpoint assign_fields (t : pb_Treasure) (fields : list field) : outcome (list field * option model_error) :=
  match fields with
  | [] => Next ([], None)
  | f :: fields =>
      let! (v, e) := match fd_Tag f with Some tag => assign t tag (fd_Value f) | None => Next (fd_Value f, None) end in
      match e with
      | Some e => Next (put_value v f :: fields, Some e)
      | None => let! (rest, e) := assign_fields t fields in Next (put_value v f :: rest, e)
      end
  end.

Definition convertProtoTreasureToCatalogModel (t : pb_Treasure) (model : gmodel) : outcome (gmodel * option model_error) :=
  match model with
  | Other_model => Next (Other_model, Some NotAPointerToStruct)
  | Pointer_to fields =>
      let '(fields, e) :=
        match inspectCatalogModel fields with
        | inr (catalogShapeMapBody, mapBodyFields) => decodeMapBodyInto (default [] (o_BytesVal t)) fields mapBodyFields
        | _ => (fields, None)
        end in
      match e with
      | Some e => Next (Pointer_to fields, Some e)
      | None => let! (fields, e) := assign_fields t fields in Next (Pointer_to fields, e)
      end
  end.

(** ** Profiles: a treasure for each field *)

Definition getKeyFromProfileModel (model : gmodel) : model_error + list bytes :=
  match model with
  | Other_model => inl NotAPointerToStruct
  | Pointer_to fields => inr (map fd_Name fields)
  end.

(** Whether an empty field is deleted, left out or saved. *)
Inductive empty_rule := DeleteEmpty | OmitEmpty | KeepEmpty.
Definition rule_of (f : field) : empty_rule :=
  match fd_Tag f with
  | None => KeepEmpty
  | Some tag =>
      let tags := split comma tag in
      if isFieldEmpty (fd_Value f) then
        if decide (tagDeletable ∈ tags) then DeleteEmpty else
        if decide (tagOmitempty ∈ tags) then OmitEmpty else KeepEmpty
      else KeepEmpty
  end.

Fixpoint profile_pairs (encoding : EncodingFormat) (fields : list field) : model_error + (list KeyValuePair * list bytes) :=
  match fields with
  | [] => inr ([], [])
  | f :: fields =>
      match rule_of f with
      | DeleteEmpty => let? (kvs, deletes) := profile_pairs encoding fields in inr (kvs, fd_Name f :: deletes)
      | OmitEmpty => profile_pairs encoding fields
      | KeepEmpty =>
          let? kv := convertFieldToKvPair (fd_Value f) (kv_Key (fd_Name f) kv_empty) encoding in
          let? (kvs, deletes) := profile_pairs encoding fields in inr (kv :: kvs, deletes)
      end
  end.
Definition convertProfileModelToKeyValuePair (model : gmodel) (encoding : EncodingFormat)
    : model_error + (list KeyValuePair * list bytes) :=
  match model with
  | Other_model => inl NotAPointerToStruct
  | Pointer_to fields => profile_pairs encoding fields
  end.

(** The first error ends the loop over the fields. *)
Fixpoint set_profile_field (t : pb_Treasure) (fields : list field) : list field * option model_error :=
  match fields with
  | [] => ([], None)
  | f :: fields =>
      if decide (fd_Name f = o_Key t) then
        match setProtoTreasureToModel t (fd_Value f) with
        | inl e => (f :: fields, Some e)
        | inr v => let '(rest, e) := set_profile_field t fields in (put_value v f :: rest, e)
        end
      else let '(rest, e) := set_profile_field t fields in (f :: rest, e)
  end.
Definition setTreasureValueToProfileModel (model : gmodel) (t : pb_Treasure) : outcome (gmodel * option model_error) :=
  match model with
  | Other_model => Panic
  | Pointer_to fields => let '(fields, e) := set_profile_field t fields in Next (Pointer_to fields, e)
  end.
End Sdk.
