(* ===== verification/FormatProps.v ===== *)
(** Properties of the file format: headers, entries, blocks, and the compressor. *)
From S2P Require Import Prelude Crc32 Types Metadata Compressor Block.

Definition sample_header : FileHeader :=
  {| Magic := MagicBytes; Version := Version3; Flags := 1; CreatedAt := -5;
     ModifiedAt := 1700000000000000000; BlockSize := 16384; EntryCount := 3; BlockCount := 2;
     NameLength := 9; Reserved := make_bytes 14 |}.

Definition sample_block_header : BlockHeader :=
  {| CompressedSize := 40; UncompressedSize := 39; BEntryCount := 3; Checksum := 77;
     BFlags := 0 |}.

Definition ins (k d : string) : Entry :=
  {| Operation := OpInsert; Key := bs k; Data := bs d |}.
Definition upd (k d : string) : Entry :=
  {| Operation := OpUpdate; Key := bs k; Data := bs d |}.
Definition del (k : string) : Entry :=
  {| Operation := OpDelete; Key := bs k; Data := [] |}.
Definition meta (d : string) : Entry :=
  {| Operation := OpMetadata; Key := bs "__swamp_meta__"; Data := bs d |}.

Definition sample_entries : list Entry := [ins "alpha" "1"; upd "beta" ""; del "alpha"].

Lemma sample_entries_wf : Forall entry_wf sample_entries.
Proof. by apply (bool_decide_unpack _). Qed.

Definition deserialize_reason (buf : bytes) (e : err) : Prop :=
  match e with
  | ErrBufferTooSmall => (length buf < FileHeaderSize)%nat
  | ErrInvalidMagic => (FileHeaderSize <= length buf)%nat /\ take 4 buf <> MagicBytes
  | ErrUnsupportedVer =>
      (FileHeaderSize <= length buf)%nat /\ take 4 buf = MagicBytes /\
      le_get (slice 4 6 buf) <> Version2 /\ le_get (slice 4 6 buf) <> Version3
  | _ => False
  end.

(** A file header survives [Serialize] and [Deserialize], whatever follows it. *)
Theorem FileHeader_Serialize_Deserialize (h : FileHeader) (rest : bytes) :
  header_wf h -> FileHeader_Deserialize (FileHeader_Serialize h ++ rest) = Ok h.
Proof. apply FileHeader_roundtrip. Qed.

Lemma FileHeader_Serialize_Deserialize_witness :
  FileHeader_Deserialize (FileHeader_Serialize sample_header ++ bs "sanctuary") = Ok sample_header.
Proof.
  apply FileHeader_Serialize_Deserialize.
  constructor; simpl; unfold in_u16, in_u32, in_u64, in_i64; try lia; try done.
Defined.

Lemma Deserialize_bytes buf h :
  FileHeader_Deserialize buf = Ok h -> take 44 (FileHeader_Serialize h) = take 44 buf /\ Reserved h = slice 46 60 buf.
Proof.
  unfold FileHeader_Deserialize, FileHeaderSize. cbn zeta. intros H.
  case_decide as Hl; [done|]. case_decide as Hm; [done|]. case_decide as Hv; [done|]. simplify_eq.
  assert (64 <= length buf)%nat by lia.
  assert (length (slice 46 60 buf) = 14%nat) as Hr by (rewrite length_slice; lia).
  split; [|done]. rewrite FileHeader_layout; fields; [|by rewrite length_slice; lia|done].
  rewrite !u64_i64 by slice_bound. rewrite !le_put_slice by lia.
  rewrite take_slice, (take_slice 44).
  rewrite (slice_split 0 4 44 buf), (slice_split 4 6 44 buf), (slice_split 6 8 44 buf),
    (slice_split 8 16 44 buf), (slice_split 16 24 44 buf), (slice_split 24 28 44 buf),
    (slice_split 28 36 44 buf) by lia.
  rewrite !app_assoc. do 2 rewrite <-app_assoc. apply slice_here; [done|].
  rewrite !length_app, !length_slice by lia. done.
Qed.

(** C26: [FileHeader.Deserialize] on every input: what it accepts is a valid header, which
    determines the bytes it was read from but for the length of the name in a header before version 3
    and the four bytes of padding: the first 44 of the 64 bytes and the 14 reserved ones are
    written back for every version, and the first 60 for version 3; what it rejects, it
    rejects for the reason its error names. *)
Theorem FileHeader_Deserialize_total (buf : bytes) :
  match FileHeader_Deserialize buf with
  | Ok h => (FileHeaderSize <= length buf)%nat /\ header_wf h /\
            take 44 (FileHeader_Serialize h) = take 44 buf /\ Reserved h = slice 46 60 buf /\
            (Version h = Version3 -> take 60 (FileHeader_Serialize h) = take 60 buf)
  | Err e => deserialize_reason buf e
  end.
Proof.
  destruct (FileHeader_Deserialize buf) as [h|e] eqn:E.
  - destruct (FileHeader_Deserialize_wf _ _ E) as [Hw H60]. destruct (Deserialize_bytes _ _ E) as [H44 Hr].
    split_and!; try done. unfold FileHeader_Deserialize in E. case_decide; [done|lia].
  - unfold FileHeader_Deserialize in E. cbn zeta in E. rewrite <-take_slice in E.
    case_decide; [by injection E as <-|].
    assert (FileHeaderSize <= length buf)%nat by lia.
    case_decide; [by injection E as <-|]. case_decide; [|done]. injection E as <-.
    simpl. destruct (decide (take 4 buf = MagicBytes)); tauto.
Qed.

(** Block headers: serialising inverts deserialising on sixteen bytes, and the other way
    round on every header whose fields fit. *)
Theorem BlockHeader_codec (b : BlockHeader) (buf : bytes) :
  (block_header_wf b -> BlockHeader_Deserialize (BlockHeader_Serialize b ++ buf) = Ok b) /\
  match BlockHeader_Deserialize buf with
  | Ok b' => take BlockHeaderSize buf = BlockHeader_Serialize b'
  | Err e => e = ErrBufferTooSmall /\ (length buf < BlockHeaderSize)%nat
  end.
Proof.
  split; [apply BlockHeader_roundtrip|].
  destruct (BlockHeader_Deserialize buf) as [b'|e] eqn:E.
  - by apply BlockHeader_Deserialize_wf in E as [_ ?].
  - unfold BlockHeader_Deserialize in E. case_decide; by simplify_eq.
Qed.

Lemma BlockHeader_codec_witness :
  BlockHeader_Deserialize (BlockHeader_Serialize sample_block_header ++ bs "payload")
  = Ok sample_block_header.
Proof.
  apply (BlockHeader_codec sample_block_header (bs "payload")).
  constructor; simpl; unfold in_u16, in_u32; lia.
Defined.

(** [Entry.Deserialize] accepts exactly the serialised forms: it answers [n] and [e] when
    the buffer starts with the [n] bytes of the serialised well-formed entry [e]. *)
Theorem Entry_Deserialize_iff (buf : bytes) (n : nat) (e : Entry) :
  Entry_Deserialize buf = Ok (n, e) <->
  entry_wf e /\ n = Entry_Size e /\ take n buf = Entry_Serialize e.
Proof.
  split; [apply Entry_Deserialize_sound|]. intros (He & -> & Hb).
  rewrite <-(take_drop (Entry_Size e) buf), Hb. by apply Entry_roundtrip.
Qed.

(** Swamp metadata survives [Serialize] and [Deserialize] whatever the order in which the
    key-value map is visited, as long as every length fits its 16-bit field. *)
Theorem SwampMetadata_Serialize_Deserialize `{MR : MapRange} `{MROk : !MapRangeOk}
    (m : SwampMetadata) (rest : bytes) :
  metadata_wf m -> SwampMetadata_Deserialize (SwampMetadata_Serialize m ++ rest) = Ok m.
Proof. apply SwampMetadata_roundtrip. Qed.

Definition backwards : MapRange := fun m => reverse (map_to_list m).

Lemma backwards_ok : @MapRangeOk backwards.
Proof. intros m. apply reverse_Permutation. Qed.

Definition sample_metadata : SwampMetadata :=
  {| SwampName := bs "users/alice"; MCreatedAt := -1;
     KeyValuePairs := {[ bs "owner" := bs "bob"; bs "" := bs "x" ]} |}.

Lemma SwampMetadata_Serialize_Deserialize_witness :
  SwampMetadata_Deserialize (@SwampMetadata_Serialize backwards sample_metadata ++ bs "!")
  = Ok sample_metadata.
Proof.
  apply (@SwampMetadata_Serialize_Deserialize backwards backwards_ok).
  constructor; [by vm_compute|split; vm_compute; congruence|by vm_compute|].
  intros k v Hkv. cbn [KeyValuePairs sample_metadata] in Hkv.
  apply lookup_insert_Some in Hkv as [[<- <-]|[_ Hkv]]; [by vm_compute|].
  apply lookup_singleton_Some in Hkv as [<- <-]. by vm_compute.
Defined.

Section Blocks.
Context `{HC : Codecs} `{HOk : !CodecsOk}.

(** C23: a block written by [CompressEntries] and read by [ParseBlock] has all its entries
    exactly when the 16-bit entry count of its header did not wrap around. *)
Theorem CompressEntries_ParseBlock (es : list Entry) :
  es <> [] -> Forall entry_wf es -> Z.of_nat (total_size es) < 2 ^ 32 ->
  exists h c b, CompressEntries es = Ok (Some (h, c)) /\ ParseBlock h c = Ok b /\
    (BEntries b = es <-> Z.of_nat (length es) < 2 ^ 16).
Proof.
  intros Hne Hes Hsz. unfold CompressEntries.
  rewrite decide_False by by intros ?%length_zero_iff_nil.
  unfold snappyCompress. rewrite Compress_Snappy. cbn [rbind].
  eexists _, _, _. split; [done|]. split; [by apply ParseBlock_compressed|]. cbn [BEntries].
  rewrite take_all_iff. unfold u16.
  pose proof (Z.mod_small_iff (Z.of_nat (length es)) (2 ^ 16) ltac:(lia)).
  pose proof (Z.mod_pos_bound (Z.of_nat (length es)) (2 ^ 16) ltac:(lia)).
  pose proof (Z.mod_le (Z.of_nat (length es)) (2 ^ 16)). lia.
Qed.

(** C24: a stored block in which up to four consecutive payload bytes are damaged is rejected
    as corrupted, never read. *)
Theorem damaged_block_rejected (es : list Entry) (h : BlockHeader) (c p d d' s : bytes) :
  CompressEntries es = Ok (Some (h, c)) ->
  c = p ++ d ++ s -> length d = length d' -> (length d <= 4)%nat -> d <> d' ->
  ParseBlock h (p ++ d' ++ s) = Err ErrCorruptedBlock.
Proof.
  intros Hc -> Hl H4 Hne. apply ParseBlock_burst with d; try done.
  unfold CompressEntries, snappyCompress in Hc. rewrite Compress_Snappy in Hc.
  case_decide; [done|]. simpl in Hc. injection Hc as <- Hc.
  unfold ValidateChecksum. apply bool_decide_eq_true. simpl. by rewrite Hc.
Qed.

(** A gzip stream that cannot be read is reported as success with no data; the other
    three algorithms report it. *)
Theorem decompressGzip_hides_errors (c : bytes) :
  gzip_read c = None -> lz4_read c = None -> snappy_decode c = None -> zstd_decode c = None ->
  Decompress Gzip c = Ok [] /\
  Forall (fun t => Decompress t c = Err ErrDecompress) [LZ4; Snappy; Zstd].
Proof.
  intros Hg Hl Hs Hz. split.
  - unfold Decompress, decompressGzip. simpl. by rewrite Hg.
  - repeat constructor; unfold Decompress, decompressLZ4, decompressSnappy, decompressZstd, or_error;
      simpl; by rewrite ?Hl, ?Hs, ?Hz.
Qed.
End Blocks.

Lemma CompressEntries_ParseBlock_witness :
  exists h c b, @CompressEntries Stored.stored_codecs sample_entries = Ok (Some (h, c)) /\
    @ParseBlock Stored.stored_codecs h c = Ok b /\
    (BEntries b = sample_entries <-> Z.of_nat (length sample_entries) < 2 ^ 16).
Proof.
  apply (@CompressEntries_ParseBlock Stored.stored_codecs Stored.stored_codecs_ok);
    [done|apply sample_entries_wf|by vm_compute].
Defined.

Lemma damaged_block_rejected_witness :
  exists h c, @CompressEntries Stored.stored_codecs [ins "a" "1"] = Ok (Some (h, c)) /\
    @ParseBlock Stored.stored_codecs h (take 5 c ++ bs "zz" ++ drop 7 c) = Err ErrCorruptedBlock.
Proof.
  eexists _, _. split; [reflexivity|].
  eapply (@damaged_block_rejected Stored.stored_codecs [ins "a" "1"] _ _ _
    (take 2 (drop 5 (stored_encode (serializeEntries [ins "a" "1"]))))); [reflexivity|..].
  all: vm_compute; try reflexivity; try lia; discriminate.
Defined.

Lemma decompressGzip_hides_errors_witness :
  @Decompress Stored.stored_codecs Gzip [] = Ok [] /\
  Forall (fun t => @Decompress Stored.stored_codecs t [] = Err ErrDecompress) [LZ4; Snappy; Zstd].
Proof. by apply (@decompressGzip_hides_errors Stored.stored_codecs). Defined.
