(* ===== verification/StorageProps.v ===== *)
(** Properties of the storage engine: writing, reading, crashes and compaction. *)
From S2P Require Import Prelude Crc32 Types Compressor Block FileSys Writer Reader Contents.
From S2P Require Import Log Session Loops Crash Compactor Compaction FormatProps.

(** ** Sample inputs *)

Definition the_path : bytes := bs "data/x.hyd".
Definition the_name : bytes := bs "users/profiles/alice".
Definition empty_world : world := {| files := ∅; faults := []; clock := 1700000000000000000 |}.

Definition sample_commands : list command :=
  [CWriteEntry (ins "alpha" "1"); CFlush; CWriteEntries [upd "beta" "22"; del "alpha"]; CSync].

(** A file of two blocks whose log is [sample_log]. *)
Definition sample_blocks : list (list Entry) :=
  [[ins "alpha" "1"; ins "beta" "2"]; [upd "alpha" "333"; del "beta"; del "gamma"]].
Definition sample_log : list Entry := concat sample_blocks.

Definition file_header (name : bytes) (bss : list (list Entry)) : FileHeader :=
  set_counts (Z.of_nat (length (concat bss))) (Z.of_nat (length bss))
    (new_header 1700000000000000000 name).
Definition file_bytes `{Codecs} (name : bytes) (bss : list (list Entry)) : bytes :=
  FileHeader_Serialize (file_header name bss) ++ name ++ encode_blocks bss.

#[export] Instance good_block_dec es : Decision (good_block es).
Proof.
  refine (cast_if (decide (es <> [] /\ Z.of_nat (length es) < 2 ^ 16 /\ Forall entry_wf es /\
    Z.of_nat (total_size es) < 2 ^ 31))); [by destruct a as (? & ? & ? & ?)|].
  intros []. tauto.
Defined.
#[export] Instance entry_ok_dec e : Decision (entry_ok e).
Proof. unfold entry_ok. apply _. Defined.

Definition world_with (l : list (bytes * bytes)) (fs : list (option nat)) : world :=
  {| files := list_to_map l; faults := fs; clock := 1700000000000000000 |}.

Section Sample.
Context `{HC : Codecs}.

Lemma file_bytes_holds name bss tail :
  name_ok name -> Forall good_block bss -> Z.of_nat (length (concat bss)) < 2 ^ 64 ->
  Z.of_nat (length bss) < 2 ^ 64 ->
  holds (file_bytes name bss ++ tail) (file_header name bss) name bss tail.
Proof.
  intros Hn Hb He Hl. constructor; [by unfold file_bytes; rewrite <-!app_assoc| | |done].
  - constructor; simpl; auto with codec; unfold in_u16, in_u32, in_u64, in_i64; lia || done || by right.
  - pose proof (ho_name _ _ _ _ _ (new_file_holds 1700000000000000000 name Hn ltac:(unfold in_i64; lia))) as Hd.
    exact Hd.
Qed.

Lemma file_bytes_stored w p name bss :
  files w !! p = Some (file_bytes name bss) ->
  name_ok name -> Forall good_block bss -> Z.of_nat (length (concat bss)) < 2 ^ 64 ->
  Z.of_nat (length bss) < 2 ^ 64 ->
  stored_log w p name (concat bss).
Proof.
  intros Hf Hn Hb He Hl. exists bss. split; [|done].
  exists (file_bytes name bss), (file_header name bss). split; [done|]. split.
  - rewrite <-(app_nil_r (file_bytes _ _)). by apply file_bytes_holds.
  - unfold counts_ok. simpl. by rewrite !u64_small by (unfold in_u64; lia).
Qed.
End Sample.

Section Writing.
Context `{HC : Codecs} `{HOk : !CodecsOk}.

(** Open a file, load its index, close it. *)
Definition load_file (p : bytes) : M world (gmap bytes bytes * bytes) :=
  fr <-- NewFileReader p ;;
  r <-- with_local fr (idx <-- on_err LoadIndex reader_Close ;; ignore reader_Close ;;; ret idx) ;;
  ret r.2.

Lemma load_file_tail w p c h name bss tail r :
  faults w = [] -> p <> [] -> files w !! p = Some c -> holds c h name bss tail ->
  tail_end tail r ->
  load_file p w = (w, rbind r (fun _ => Ok (index_of (concat bss), log_name name (concat bss)))).
Proof.
  intros Hf Hp Hc Hh Ht. unfold load_file.
  rewrite (bind_run _ _ _ _ _ (NewFileReader_ok _ _ _ _ _ _ _ Hf Hp Hc Hh)).
  pose proof (opened_reading w p c h name Hf Hc) as Hr.
  destruct (LoadIndex_ok _ _ _ _ name _ _ _ Hr eq_refl Hh Ht) as [n Hn].
  apply (reading_moved _ _ _ _ n) in Hr. rewrite replay_spec in Hn.
  unfold bind, with_local, on_err. rewrite Hn. unfold reader_Close.
  destruct (tail_errors _ _ Ht) as [-> | ->]; cbn [rbind].
  - unfold ignore. by rewrite file_Close_ok by apply Hr.
  - by rewrite file_Close_ok by apply Hr.
Qed.

Lemma load_file_ok w p name log :
  faults w = [] -> p <> [] -> stored_log w p name log ->
  load_file p w = (w, Ok (index_of log, log_name name log)).
Proof.
  intros Hf Hp (bss & (c & h & Hc & Hh & _) & <-).
  by rewrite (load_file_tail w p c h name bss [] (Ok tt) Hf Hp Hc Hh tail_clean).
Qed.

(** C1: a writing session appends.  Opened on a new path, or on a file that holds the log
    [log], a writer that is given any sequence of writes, flushes and syncs and is then closed
    succeeds; the file then holds [log] followed by the entries in the order they were written,
    with the right counts in its header; loading it gives the value of the last writer of every
    key; and no other file has changed. *)
Theorem session_appends_and_reads_back (w : world) (p name : bytes) (m : Z)
    (log : list Entry) (cmds : list command) :
  faults w = [] -> in_i64 (clock w) -> p <> [] -> name_ok name ->
  safe_block_size (maxSize (NewWriteBuffer m)) ->
  (files w !! p = None /\ log = [] \/ stored_log w p name log) ->
  Forall entry_ok (concat (map appended cmds)) ->
  let log' := log ++ concat (map appended cmds) in
  exists w', write_session p m name cmds w = (w', Ok tt) /\
    stored_log w' p name log' /\
    load_file p w' = (w', Ok (index_of log', log_name name log')) /\
    forall q, q <> p -> files w' !! q = files w !! q.
Proof.
  intros Hf Hi Hp Hn Hm Hw Hc log'.
  destruct (write_session_ok w p m name log cmds) as (w' & E & (Hf' & _ & Ho) & Hl); try done.
  exists w'. split_and!; try done. apply load_file_ok; congruence || done.
Qed.

(** C21: last writer wins.  [LoadIndex] of a complete file maps a key to the data of the last
    entry that inserts, updates or deletes it (a delete removes it), and finds the name of the
    header or else the first non-empty metadata entry. *)
Theorem LoadIndex_last_writer_wins (w : world) (fr : FileReader) (c : bytes) (h : FileHeader)
    (name : bytes) (bss : list (list Entry)) :
  reading w fr c h -> r_swampName fr = name -> holds c h name bss [] ->
  exists fr' index nm, LoadIndex (w, fr) = ((w, fr'), Ok (index, nm)) /\
    (forall k, index !! k = live_value k (concat bss)) /\ nm = log_name name (concat bss).
Proof.
  intros Hr Hn Hh. destruct (LoadIndex_ok _ _ _ _ name _ _ _ Hr Hn Hh tail_clean) as [n E].
  cbn [rbind] in E. rewrite replay_spec in E.
  eexists _, _, _. split; [exact E|]. split; [|done].
  intros k. apply index_of_lookup.
Qed.

(** A torn write.  When the file ends inside the record of one more block, up to and
    including its bare header the reader takes the log before it as the whole log; from the
    first payload byte on the whole file fails to load. *)
Theorem LoadIndex_torn_block (w : world) (fr : FileReader) (c : bytes) (h : FileHeader)
    (name : bytes) (bss : list (list Entry)) (es : list Entry) (k : nat) :
  reading w fr c h -> r_swampName fr = name -> good_block es ->
  (k < length (encode_block es))%nat -> holds c h name bss (take k (encode_block es)) ->
  exists fr', LoadIndex (w, fr) =
    ((w, fr'), if decide (k <= BlockHeaderSize)%nat
               then Ok (index_of (concat bss), log_name name (concat bss))
               else Err ErrUnexpectedEOF).
Proof.
  intros Hr Hn He Hk Hh.
  destruct (LoadIndex_ok _ _ _ _ name _ _ _ Hr Hn Hh (tail_prefix es k He Hk)) as [n E].
  exists (set_r_file (set_pos n (r_file fr)) fr). rewrite E, replay_spec. by case_decide.
Qed.

(** C8: a crash while the writer flushes its buffer.  Whatever system call fails and however
    much of a write was done, the file then loads as the log before the flush or as the log
    after it, or it fails to load because it ends inside the payload of the new block; no
    other file has changed. *)
Theorem Flush_crash (w : world) (fw : FileWriter) (name : bytes) (bss : list (list Entry))
    (c : bytes) :
  writing (clean w) fw name bss c -> good_block (entries (buffer fw)) -> filePath fw <> [] ->
  let w' := clean (Flush_ (w, fw)).1.1 in
  let after := concat bss ++ entries (buffer fw) in
  exists r, load_file (filePath fw) w' = (w', r) /\
    (r = Ok (index_of (concat bss), log_name name (concat bss)) \/
     r = Ok (index_of after, log_name name after) \/ r = Err ErrUnexpectedEOF) /\
    forall q, q <> filePath fw -> files w' !! q = files w !! q.
Proof.
  intros Hw Hg Hp w' after. pose proof (flushLocked_crash w fw name bss c Hw Hg) as Hc.
  assert ((Flush_ (w, fw)).1 = (flushLocked (w, fw)).1) as Hfl.
  { unfold Flush_, if_open, bind, self, gets. simpl. by rewrite (wr_closed _ _ _ _ _ Hw). }
  unfold w'. rewrite Hfl. destruct Hc as (c' & Hc' & h & bss' & tail & r & Hh & Ht & Hbss).
  eexists. split; [by eapply load_file_tail|]. split.
  - destruct Hbss as [->|[-> ->]].
    + destruct (tail_errors _ _ Ht) as [-> | ->]; cbn; auto.
    + rewrite concat_app. cbn [concat]. rewrite app_nil_r.
      destruct (tail_errors _ _ Ht) as [-> | ->]; cbn; auto.
  - intros q Hq. destruct Hw as [_ _ _ Hn _ _ _ _ _].
    destruct (flushLocked_keeps q (w, fw)) as [_ Hs]. apply Hs. cbn. by rewrite Hn.
Qed.

(** The counts in the header agree with the blocks: a header-only scan of a stored file
    finds as many blocks and entries as its file header says. *)
Theorem ScanBlockHeaders_agrees (w : world) (fr : FileReader) (c : bytes) (h : FileHeader)
    (name : bytes) (bss : list (list Entry)) :
  reading w fr c h -> holds c h name bss [] -> counts_ok h bss ->
  exists fr' r, ScanBlockHeaders (w, fr) = ((w, fr'), Ok r) /\
    ScanBlockCount r = BlockCount h /\ TotalEntryCount r = EntryCount h /\
    TotalUncompressedSize r = u64 (Z.of_nat (total_size (concat bss))).
Proof.
  intros Hr Hh [He Hb]. destruct (ScanBlockHeaders_ok _ _ _ _ _ _ Hr Hh) as [fr' E].
  exists fr'. eexists. split; [exact E|]. by rewrite He, Hb.
Qed.

(** C25: the reader's loops end, on every file content and under every schedule of I/O
    failures. *)
Theorem reader_terminates {St} (callback : St -> Entry -> St * bool) (st : St)
    (s : world * FileReader) :
  (ReadAllEntries callback st s).2 <> Err ErrFuel /\ (ReadAllBlocks s).2 <> Err ErrFuel /\
  (ScanBlockHeaders s).2 <> Err ErrFuel.
Proof.
  split_and!; [apply ReadAllEntries_terminates|apply ReadAllBlocks_terminates|
               apply ScanBlockHeaders_terminates].
Qed.

(** A closed writer refuses every write and changes nothing; closing it again succeeds
    and changes nothing. *)
Theorem closed_writer_is_inert (w : world) (fw : FileWriter) (cmd : command) :
  closed fw = true ->
  run_command cmd (w, fw) = ((w, fw), Err ErrFileClosed) /\ Close (w, fw) = ((w, fw), Ok tt).
Proof.
  intros Hc. destruct cmd; unfold run_command, WriteEntry, WriteEntries, Flush_, Sync, if_open,
    Close, bind, self, gets; simpl; by rewrite Hc.
Qed.

(** [CalculateFragmentation] counts the live keys and the entries of the file and moves
    nothing but the descriptor; the ratio is never negative. *)
Theorem CalculateFragmentation_counts (w : world) (fr : FileReader) (c : bytes)
    (h : FileHeader) (name : bytes) (bss : list (list Entry)) :
  reading w fr c h -> holds c h name bss [] ->
  exists fr' ratio,
    CalculateFragmentation (w, fr) =
      ((w, fr'), Ok (ratio, size (index_of (concat bss)), length (concat bss))) /\
    flt ratio f0 = false.
Proof.
  intros Hr Hh. destruct (CalculateFragmentation_ok _ _ _ _ _ _ _ _ Hr Hh tail_clean) as [n E].
  rewrite E. cbn [rbind]. fold (log_frag (concat bss)).
  destruct (log_frag_counts (concat bss)) as [Hl Ht].
  pose proof (nonneg_not_below _ (log_frag_nonneg (concat bss))) as Hn.
  destruct (log_frag (concat bss)) as [[ratio live] total]. simpl in *. subst. eauto.
Qed.
End Writing.

Section Compacting.
Context `{HC : Codecs} `{HOk : !CodecsOk} `{MR : MapRange} `{MROk : !MapRangeOk}.

(** A file of live entries loads as the index it was made from. *)
Lemma load_live w p name log :
  faults w = [] -> p <> [] -> stored_log w p name (live_log (index_of log)) ->
  load_file p w = (w, Ok (index_of log, name)).
Proof.
  intros Hf Hp Hs. by rewrite (load_file_ok _ _ _ _ Hf Hp Hs), live_log_index, live_log_name.
Qed.

(** C7: compaction is atomic.  Started on a stored file beside which no temporary file was left over, and
    whatever sequence of system calls fails, [Compact] leaves the file as it was or replaced by
    a complete file of the same name whose log is one insert per live key; either way the live
    data and the name that a reader loads are those of before, and no file but the two has
    changed.  (A run that fails may leave a temporary file behind; [Compact_merges_leftover] is what
    the next run makes of it.) *)
Theorem Compact_atomic (w : world) (c : Compactor) (name : bytes) (log : list Entry) :
  isRunning c = false -> compactable (clean w) c name log [] ->
  let w' := (Compact (w, c)).1.1 in
  (files w' !! c_filePath c = files w !! c_filePath c \/
   stored_log w' (c_filePath c) (log_name name log) (live_log (index_of log))) /\
  index_of (live_log (index_of log)) = index_of log /\
  log_name (log_name name log) (live_log (index_of log)) = log_name name log /\
  (forall q, q <> c_filePath c -> q <> GetCompactionTempPath (c_filePath c) ->
    files w' !! q = files w !! q).
Proof.
  intros Hr Hc w'. pose proof (compact_body_atomic w c name log Hc) as [Hat Hq].
  unfold w'. rewrite Compact_run by done. destruct (compact_body c w) as [w1 r]. simpl in *.
  split_and!; [done|apply live_log_index|apply live_log_name|done].
Qed.

(** C22: a compaction of a stored file beside which no temporary file was left over: one that runs
    rewrites the file to one insert per live key, keeping the loaded index and name; one that does
    not, because the file is not fragmented enough, changes nothing.  The statistics are the real
    ones.  ([Compact_merges_leftover] is what happens otherwise.) *)
Theorem Compact_rewrites (w : world) (c : Compactor) (name : bytes) (log : list Entry) :
  isRunning c = false -> compactable w c name log [] ->
  let p := c_filePath c in
  exists w' r, Compact (w, c) = ((w', c), Ok r) /\
    Compacted r = negb (flt (log_frag log).1.1 (c_threshold c)) /\
    OldFileSize r = file_size w p /\ TotalEntries r = Z.of_nat (length log) /\
    LiveEntries r = Z.of_nat (size (index_of log)) /\
    if Compacted r
    then NewFileSize r = file_size w' p /\
         replaced w w' p (log_name name log) (live_log (index_of log)) /\
         load_file p w' = (w', Ok (index_of log, log_name name log)) /\
         length (live_log (index_of log)) = size (index_of log)
    else w' = w.
Proof.
  intros Hr Hc p. pose proof (compact_body_ok w c name log [] Hc) as Hb. cbn zeta in Hb.
  destruct (log_frag_counts log) as [Hl Ht]. rewrite Compact_run by done.
  destruct (flt (log_frag log).1.1 (c_threshold c)) eqn:Hflt.
  - rewrite Hb. eexists _, _. split; [done|]. cbn. by rewrite Hl, Ht.
  - destruct Hb as (w' & E & Hrep & Hf & _). rewrite E. eexists _, _. split; [done|]. cbn.
    rewrite Hl, Ht. split_and!; try done; [|apply length_live_log].
    eapply load_live; [done|apply Hc|apply Hrep].
Qed.

(** [ForceCompact] always rewrites, and gives the compactor its threshold back. *)
Theorem ForceCompact_rewrites (w : world) (c : Compactor) (name : bytes) (log : list Entry) :
  isRunning c = false -> compactable w c name log [] ->
  exists w' r, ForceCompact (w, c) = ((w', c), Ok r) /\ Compacted r = true /\
    replaced w w' (c_filePath c) (log_name name log) (live_log (index_of log)).
Proof.
  intros Hr Hc. rewrite ForceCompact_run by done.
  assert (compactable w (set_threshold f0 c) name log []) as Hc' by by destruct Hc.
  pose proof (compact_body_ok w (set_threshold f0 c) name log [] Hc') as Hb. cbn zeta in Hb.
  cbn [c_threshold set_threshold] in Hb.
  rewrite (nonneg_not_below _ (log_frag_nonneg log)) in Hb.
  destruct Hb as (w' & E & Hrep & _). rewrite E. eauto.
Qed.

(** A leftover temporary file is merged, not discarded: when a complete [.compact] file
    of the same swamp is there, [Compact] appends to it, and the file it leaves holds every
    live entry of the leftover log that the file itself does not override, deleted keys
    included. *)
Theorem Compact_merges_leftover (w : world) (c : Compactor) (name : bytes)
    (log stale : list Entry) :
  isRunning c = false -> compactable w c name log stale ->
  flt (log_frag log).1.1 (c_threshold c) = false ->
  exists w' r log', Compact (w, c) = ((w', c), Ok r) /\
    stored_log w' (c_filePath c) (log_name name log) log' /\
    index_of log' = index_of log ∪ index_of stale.
Proof.
  intros Hr Hc Hflt. pose proof (compact_body_ok w c name log stale Hc) as Hb. cbn zeta in Hb.
  rewrite Hflt in Hb. destruct Hb as (w' & E & [Hst _] & _). rewrite Compact_run, E by done.
  eexists _, _, _. split; [done|]. split; [done|]. apply live_log_app.
Qed.

(** [CompactFromIndex] discards whatever the temporary path held and replaces the file by
    the live entries. *)
Theorem CompactFromIndex_replaces (w : world) (p : bytes) (m : Z) (name : bytes)
    (log : list Entry) (total : Z) :
  faults w = [] -> in_i64 (clock w) -> p <> [] -> is_Some (files w !! p) -> name_ok name ->
  safe_block_size (maxSize (NewWriteBuffer m)) -> Forall entry_ok log ->
  exists w' r, CompactFromIndex p m name (index_of log) total w = (w', Ok r) /\
    replaced w w' p name (live_log (index_of log)) /\
    load_file p w' = (w', Ok (index_of log, name)) /\ Compacted r = true /\
    RemovedEntries r = total - Z.of_nat (size (index_of log)).
Proof.
  intros Hf Hi Hp Hc Hn Hm He.
  destruct (CompactFromIndex_ok w p m name log total) as (w' & r & E & Hrep & Hf' & _ & H1 & _ & _ & H2);
    try done.
  exists w', r. split_and!; try done. eapply load_live; [done|done|apply Hrep].
Qed.

(** Only one compaction of a compactor at a time: with [isRunning] set, [Compact] does
    nothing and says so; otherwise the flag is clear again afterwards, on every outcome. *)
Theorem Compact_excludes_itself (w : world) (c : Compactor) :
  if isRunning c then Compact (w, c) = ((w, c), Err ErrCompactionRunning)
  else (Compact (w, c)).1.2 = c.
Proof.
  destruct (isRunning c) eqn:Hr; [|by rewrite Compact_run by done; destruct (compact_body c w)].
  unfold Compact, bind, gets. simpl. by rewrite Hr.
Qed.
End Compacting.

(** ** Witnesses *)

Section Witnesses.
#[local] Existing Instance Stored.stored_codecs.
#[local] Existing Instance Stored.stored_codecs_ok.
#[local] Instance sample_range : MapRange := map_to_list.
#[local] Instance sample_range_ok : MapRangeOk.
Proof. by intros m. Qed.

Definition file_world (fs : list (option nat)) : world :=
  world_with [(the_path, file_bytes the_name sample_blocks)] fs.
Definition torn_world (k : nat) : world :=
  world_with [(the_path, file_bytes the_name sample_blocks
                         ++ take k (encode_block [ins "delta" "4"]))] [].
Definition leftover_world : world :=
  world_with [(the_path, file_bytes the_name sample_blocks);
              (GetCompactionTempPath the_path, file_bytes the_name [[ins "gamma" "stale"]])] [].

Lemma sample_good : Forall good_block sample_blocks.
Proof. by apply (bool_decide_unpack _). Qed.
Lemma sample_ok : Forall entry_ok sample_log.
Proof. by apply (bool_decide_unpack _). Qed.

Lemma file_world_stored fs : stored_log (file_world fs) the_path the_name sample_log.
Proof. apply file_bytes_stored; [done|done|apply sample_good|done|done]. Qed.

Definition the_compactor : Compactor := NewCompactor the_path 0 (tenth 3).

Lemma file_world_compactable fs :
  compactable (clean (file_world fs)) the_compactor the_name sample_log [].
Proof.
  constructor; try done; [apply (file_world_stored []) |apply sample_ok|by left].
Qed.

Lemma leftover_compactable :
  compactable leftover_world the_compactor the_name sample_log [ins "gamma" "stale"].
Proof.
  constructor; try done; [|apply sample_ok|right].
  - apply file_bytes_stored; [done|done|apply sample_good|done|done].
  - apply (file_bytes_stored _ _ _ [[ins "gamma" "stale"]]); try done.
    by apply (bool_decide_unpack _).
Qed.

Definition the_header : FileHeader := file_header the_name sample_blocks.

(** The sample file followed by [tail]. *)
Definition tail_bytes (tail : bytes) : bytes := file_bytes the_name sample_blocks ++ tail.
Definition tail_world (tail : bytes) : world := world_with [(the_path, tail_bytes tail)] [].

Lemma file_world_holds tail :
  holds (tail_bytes tail) the_header the_name sample_blocks tail.
Proof. apply file_bytes_holds; [done|apply sample_good|done|done]. Qed.

Lemma session_appends_and_reads_back_witness :
  exists w', write_session the_path 0 the_name sample_commands (file_world []) = (w', Ok tt) /\
    stored_log w' the_path the_name (sample_log ++ concat (map appended sample_commands)).
Proof.
  destruct (session_appends_and_reads_back (file_world []) the_path the_name 0 sample_log
    sample_commands) as (w' & E & Hs & _);
    [done|done|done|done|done|right; apply file_world_stored|by apply (bool_decide_unpack _)|].
  exists w'. split; [exact E|exact Hs].
Defined.

Definition the_reader : FileReader := opened the_path the_header the_name.

Lemma file_world_reading tail :
  reading (tail_world tail) the_reader (tail_bytes tail) the_header.
Proof. by constructor. Qed.
Lemma file_world_counts : counts_ok the_header sample_blocks.
Proof. by split. Qed.
Lemma the_reader_name : r_swampName the_reader = the_name.
Proof. done. Qed.

Lemma LoadIndex_last_writer_wins_witness :
  exists w fr', exists index nm, LoadIndex (w, the_reader) = ((w, fr'), Ok (index, nm)) /\
    index !! bs "alpha" = Some (bs "333") /\ index !! bs "beta" = None.
Proof.
  destruct (LoadIndex_last_writer_wins (tail_world []) the_reader (tail_bytes []) the_header
    the_name sample_blocks (file_world_reading []) the_reader_name (file_world_holds [])) as (fr' & index & nm & E & Hl & _).
  exists (tail_world []), fr', index, nm. split; [exact E|].
  split; rewrite Hl; vm_compute; reflexivity.
Defined.

Lemma LoadIndex_torn_block_witness :
  exists w fr', LoadIndex (w, the_reader) = ((w, fr'), Err ErrUnexpectedEOF).
Proof.
  destruct (LoadIndex_torn_block (tail_world (take 20 (encode_block [ins "delta" "4"])))
    the_reader _ the_header the_name sample_blocks [ins "delta" "4"] 20
    (file_world_reading (take 20 (encode_block [ins "delta" "4"]))) the_reader_name) as [fr' E].
  - by apply (bool_decide_unpack _).
  - vm_compute. lia.
  - apply file_world_holds.
  - eexists _, fr'. exact E.
Defined.

Lemma ScanBlockHeaders_agrees_witness :
  exists w fr' r, ScanBlockHeaders (w, the_reader) = ((w, fr'), Ok r) /\
    ScanBlockCount r = 2 /\ TotalEntryCount r = 5.
Proof.
  destruct (ScanBlockHeaders_agrees (tail_world []) the_reader (tail_bytes []) the_header the_name sample_blocks (file_world_reading [])
    (file_world_holds []) file_world_counts) as (fr' & r & E & Hb & He & _).
  exists (tail_world []), fr', r. split; [exact E|].
  rewrite Hb, He. split; vm_compute; reflexivity.
Defined.

Lemma closed_writer_is_inert_witness :
  exists fw, (Close (empty_world, fw)).2 = Ok tt /\
    (run_command CSync (empty_world, fw)).2 = Err ErrFileClosed.
Proof.
  set (fw := {| file := {| f_name := the_path; f_pos := 0; f_open := false |};
    filePath := the_path; header := the_header; buffer := NewWriteBuffer 0; blockCount := 0;
    entryCount := 0; closed := true; swampName := the_name |}).
  exists fw. destruct (closed_writer_is_inert empty_world fw CSync eq_refl) as [-> ->]. done.
Defined.

Lemma CalculateFragmentation_counts_witness :
  exists w fr' ratio, CalculateFragmentation (w, the_reader) = ((w, fr'), Ok (ratio, 1%nat, 5%nat)).
Proof.
  destruct (CalculateFragmentation_counts (tail_world []) the_reader (tail_bytes [])
    the_header the_name sample_blocks (file_world_reading []) (file_world_holds [])) as (fr' & ratio & E & _).
  exists (tail_world []), fr', ratio. exact E.
Defined.

Lemma Flush_crash_witness :
  exists w fw r, load_file the_path (clean (Flush_ (w, fw)).1.1) = r /\ r.2 <> Err ErrInvalidMagic.
Proof.
  set (fw := {| file := {| f_name := the_path; f_pos := length (file_bytes the_name sample_blocks);
    f_open := true |}; filePath := the_path; header := the_header;
    buffer := (Add (ins "delta" "4") (NewWriteBuffer 0)).1; blockCount := 2; entryCount := 5;
    closed := false; swampName := the_name |}).
  destruct (Flush_crash (file_world [None; Some 3%nat]) fw the_name sample_blocks
    (file_bytes the_name sample_blocks)) as (r & E & Hr & _).
  - constructor; try done. rewrite <-(app_nil_r (file_bytes _ _)). apply (file_world_holds []).
  - by apply (bool_decide_unpack _).
  - done.
  - eexists (file_world [None; Some 3%nat]), fw, _. split; [exact E|].
    destruct Hr as [->|[->| ->]]; done.
Defined.

Lemma Compact_atomic_witness :
  let w := file_world [None; None; None; None; None; Some 5%nat] in
  let w' := (Compact (w, the_compactor)).1.1 in
  files w' !! the_path = files w !! the_path \/
  stored_log w' the_path the_name (live_log (index_of sample_log)).
Proof.
  destruct (Compact_atomic (file_world [None; None; None; None; None; Some 5%nat]) the_compactor
    the_name sample_log eq_refl (file_world_compactable _)) as [Hr _]. exact Hr.
Defined.

Lemma Compact_rewrites_witness :
  exists w' r, Compact (file_world [], the_compactor) = ((w', the_compactor), Ok r) /\
    LiveEntries r = 1 /\ TotalEntries r = 5.
Proof.
  destruct (Compact_rewrites (file_world []) the_compactor the_name sample_log eq_refl
    (file_world_compactable [])) as (w' & r & E & _ & _ & Ht & Hl & _).
  exists w', r. split; [exact E|].
  rewrite Ht, Hl. split; vm_compute; reflexivity.
Defined.

Lemma ForceCompact_rewrites_witness :
  exists w' r, ForceCompact (file_world [], the_compactor) = ((w', the_compactor), Ok r) /\
    Compacted r = true.
Proof.
  destruct (ForceCompact_rewrites (file_world []) the_compactor the_name sample_log eq_refl
    (file_world_compactable [])) as (w' & r & E & Hr & _).
  exists w', r. split; [exact E|exact Hr].
Defined.

Lemma Compact_merges_leftover_witness :
  exists w' r log', Compact (leftover_world, the_compactor) = ((w', the_compactor), Ok r) /\
    stored_log w' the_path the_name log' /\ index_of sample_log !! bs "gamma" = None /\
    index_of log' !! bs "gamma" = Some (bs "stale").
Proof.
  destruct (Compact_merges_leftover leftover_world the_compactor the_name sample_log
    [ins "gamma" "stale"] eq_refl leftover_compactable eq_refl) as (w' & r & log' & E & Hs & Hi).
  exists w', r, log'. split_and!; [exact E|exact Hs| |rewrite Hi]; vm_compute; reflexivity.
Defined.

Lemma CompactFromIndex_replaces_witness :
  exists w' r, CompactFromIndex the_path 0 the_name (index_of sample_log) 5 leftover_world = (w', Ok r) /\
    load_file the_path w' = (w', Ok (index_of sample_log, the_name)) /\ RemovedEntries r = 4.
Proof.
  destruct (CompactFromIndex_replaces leftover_world the_path 0 the_name sample_log 5)
    as (w' & r & E & _ & Hl & _ & Hr);
    [reflexivity|split; vm_compute; congruence|discriminate|eexists; reflexivity|reflexivity|split; vm_compute; congruence|apply sample_ok|].
  exists w', r. split_and!; [exact E|exact Hl|]. rewrite Hr. vm_compute. reflexivity.
Defined.

(** Appending after a torn block header loses the file.  A file that ends ten bytes into
    a block header loads without an error; a session that appends one entry to it succeeds;
    after that the file, the entries from before the crash included, does not load. *)
Theorem append_after_torn_header :
  let w := torn_world 10 in
  let s := write_session the_path 0 the_name [CWriteEntry (ins "omega" "9")] w in
  (load_file the_path w).2 = Ok (index_of sample_log, the_name) /\
  s.2 = Ok tt /\ (load_file the_path s.1).2 = Err ErrCorruptedBlock.
Proof.
  cbv zeta. split; [|split].
  - vm_cast_no_check (@eq_refl (result (gmap bytes bytes * bytes)) (Ok (index_of sample_log, the_name))).
  - vm_cast_no_check (@eq_refl (result unit) (Ok tt)).
  - vm_cast_no_check (@eq_refl (result (gmap bytes bytes * bytes)) (Err ErrCorruptedBlock)).
Qed.
End Witnesses.
