(* ===== verification/Migrator.v ===== *)
(** The migration of V1 swamps to V2 files: [chronicler/v2/migrator/migrator.go] and
    [helpers.go], and what it may lose.

    A migrator is modelled on the folders it is given; finding them by walking the data folder
    and the reports of progress are left out.  The workers take one folder each and touch the files of that
    folder and one [.hyd] file only, so they are run one after the other. *)
From stdpp Require Import sorting.
From S2P Require Import Prelude Types Compressor Block FileSys Writer Reader Contents Log Session Compactor Compaction.
From S2P Require Import Chronicler Folder ChroniclerV1 StorageProps.
#[local] Set Warnings "-register-all,-clear-no-such-hyp".

(** ** Reading V1 data: [helpers.go] *)

Record ByteReader := { br_data : bytes; br_offset : nat }.
Definition NewByteReader (data : bytes) : ByteReader := {| br_data := data; br_offset := O |}.
Definition br_skip (n : nat) (r : ByteReader) : ByteReader :=
  {| br_data := br_data r; br_offset := (br_offset r + n)%nat |}.

Definition ReadUint32 : M ByteReader Z :=
  fun r => if decide (length (br_data r) < br_offset r + 4)%nat then (r, Err EOF)
           else (br_skip 4 r, Ok (le_get (slice (br_offset r) (br_offset r + 4) (br_data r)))).
Definition ReadBytes (n : nat) : M ByteReader bytes :=
  fun r => if decide (length (br_data r) < br_offset r + n)%nat then (r, Err ErrUnexpectedEOF)
           else (br_skip n r, Ok (slice (br_offset r) (br_offset r + n) (br_data r))).
Definition Remaining (r : ByteReader) : nat := length (br_data r) - br_offset r.

(** Each round reads four bytes or ends. *)
Fixpoint v1_segments_loop (fuel : nat) : M ByteReader (list bytes) :=
  match fuel with
  | O => fail ErrFuel
  | S fuel =>
      n <-- gets Remaining ;;
      if decide (n = O) then ret [] else
      r <-- try ReadUint32 ;;
      match r with
      | Err EOF => ret []
      | Err e => fail e
      | Ok length_ =>
          if decide (length_ = 0) then v1_segments_loop fuel else
          segment <-- ReadBytes (Z.to_nat length_) ;;
          segments <-- v1_segments_loop fuel ;;
          ret (segment :: segments)
      end
  end.
Definition parseV1Segments (data : bytes) : result (list bytes) :=
  (v1_segments_loop (S (length data)) (NewByteReader data)).2.

(** Only the digits of hexadecimal numbers and dashes. *)
Definition v1_name_byte (c : byte) : bool :=
  let c := Z_of_byte c in
  ((48 <=? c) && (c <=? 57)) || ((97 <=? c) && (c <=? 102)) || ((65 <=? c) && (c <=? 70)) || (c =? 45).
Definition isV1DataFileName (name : bytes) : bool := negb (bool_decide (name = [])) && forallb v1_name_byte name.
(** Whether [filepath.Ext] of a file's name is not empty. *)
Definition has_Ext (name : bytes) : bool := bool_decide (x2e ∈ name).

(** ** Data *)

Record Config := { DryRun : bool; Verify : bool; DeleteOld : bool }.
Inductive Phase := PhaseLoad | PhaseWrite | PhaseVerify.
Record FailedSwamp := { fs_Path : bytes; fs_Error : err; fs_Phase : Phase }.
Record Result := {
  TotalSwamps : Z; ProcessedSwamps : Z; SuccessfulSwamps : Z; FailedSwamps : list FailedSwamp;
  res_TotalEntries : Z; TotalRawEntries : Z; DuplicateKeys : Z; EmptySwampsSkipped : Z
}.
Definition add_counts (processed successful entries raw duplicates skipped : Z) (r : Result) : Result :=
  {| TotalSwamps := TotalSwamps r; ProcessedSwamps := ProcessedSwamps r + processed;
     SuccessfulSwamps := SuccessfulSwamps r + successful; FailedSwamps := FailedSwamps r;
     res_TotalEntries := res_TotalEntries r + entries; TotalRawEntries := TotalRawEntries r + raw;
     DuplicateKeys := DuplicateKeys r + duplicates; EmptySwampsSkipped := EmptySwampsSkipped r + skipped |}.
Definition recordFailure (path : bytes) (e : err) (phase : Phase) (r : Result) : Result :=
  {| TotalSwamps := TotalSwamps r; ProcessedSwamps := ProcessedSwamps r; SuccessfulSwamps := SuccessfulSwamps r;
     FailedSwamps := FailedSwamps r ++ [{| fs_Path := path; fs_Error := e; fs_Phase := phase |}];
     res_TotalEntries := res_TotalEntries r; TotalRawEntries := TotalRawEntries r;
     DuplicateKeys := DuplicateKeys r; EmptySwampsSkipped := EmptySwampsSkipped r |}.
Definition no_migration (swamps : Z) : Result :=
  {| TotalSwamps := swamps; ProcessedSwamps := 0; SuccessfulSwamps := 0; FailedSwamps := [];
     res_TotalEntries := 0; TotalRawEntries := 0; DuplicateKeys := 0; EmptySwampsSkipped := 0 |}.

(** [os.Remove] of a folder. *)
Definition is_below (folder p : bytes) : bool := bool_decide (take (S (length folder)) p = filepath_Join folder []).
Definition os_RemoveDir (folder : bytes) : M world unit :=
  os_call (fun w => (w, if existsb (is_below folder) (map_to_list (files w)).*1 then Err ErrNotEmpty else Ok tt)).

Section Migrator.
Context `{HC : Codecs} `{MR : MapRange} `{VG : V1Gob}.

(** ** Loading *)

Definition isV1SwampFolder (folderPath : bytes) : M world bool :=
  r <-- try (os_ReadDir folderPath) ;;
  ret match r with
      | Err _ => false
      | Ok entries => existsb (fun name => bool_decide (name = MetaFile)) entries
                      || existsb (fun name => negb (has_Ext name) && isV1DataFileName name) entries
      end.

Definition extractKeyFromTreasure (data : bytes) : result bytes :=
  match treasure_key data with
  | None => Err ErrDecode
  | Some [] => Err ErrEmptyKey
  | Some key => Ok key
  end.

Fixpoint entries_of (segments : list bytes) : result (list Entry) :=
  match segments with
  | [] => Ok []
  | segment :: segments =>
      rbind (extractKeyFromTreasure segment) (fun key =>
      rbind (entries_of segments) (fun entries =>
      Ok ({| Operation := OpInsert; Key := key; Data := segment |} :: entries)))
  end.

Definition loadV1File (filePath : bytes) : M world (list Entry) :=
  compressedData <-- os_ReadFile filePath ;;
  decompressed <-- liftr (Decompress Snappy compressedData) ;;
  segments <-- liftr (parseV1Segments decompressed) ;;
  liftr (entries_of segments).

Definition add_entries (fileEntries : list Entry) (entryMap : gmap bytes bytes) : gmap bytes bytes :=
  fold_left (fun m entry => <[Key entry := Data entry]> m) fileEntries entryMap.

Fixpoint load_files (folderPath : bytes) (files : list bytes) (entryMap : gmap bytes bytes) (rawEntryCount : Z)
  : M world (gmap bytes bytes * Z) :=
  match files with
  | [] => ret (entryMap, rawEntryCount)
  | name :: files =>
      if decide (name = MetaFile) then load_files folderPath files entryMap rawEntryCount else
      if has_Ext name then load_files folderPath files entryMap rawEntryCount else
      if negb (isV1DataFileName name) then load_files folderPath files entryMap rawEntryCount else
      fileEntries <-- loadV1File (filepath_Join folderPath name) ;;
      load_files folderPath files (add_entries fileEntries entryMap) (rawEntryCount + Z.of_nat (length fileEntries))
  end.

(** The entries, every one an insert, by key; how many there were, and how many keys came again. *)
Definition loadV1Swamp (folderPath : bytes) : M world (gmap bytes bytes * Z * Z) :=
  files <-- os_ReadDir folderPath ;;
  r <-- load_files folderPath files ∅ 0 ;;
  ret (r, r.2 - Z.of_nat (size r.1)).

(** The decoder reads the open file; closing it is deferred. *)
Definition loadSwampNameFromMeta (folderPath : bytes) : M world bytes :=
  file <-- os_Open (filepath_Join folderPath MetaFile) ;;
  r <-- with_local file
    (r <-- try io_ReadAll ;;
     ignore file_Close ;;;
     match r with
     | Err e => fail e
     | Ok data => liftr (match meta_swamp_name data with Some n => Ok n | None => Err ErrDecode end)
     end) ;;
  ret r.2.

(** ** Writing and checking *)

Fixpoint write_each (entries : list Entry) : M (world * FileWriter) unit :=
  match entries with
  | [] => ret tt
  | entry :: entries => WriteEntry entry ;;; write_each entries
  end.

Definition writeV2File (filePath : bytes) (entries : list Entry) (swampName : bytes) : M world unit :=
  writer <-- NewFileWriterWithName filePath DefaultMaxBlockSize swampName ;;
  on_err (with_local writer (on_err (write_each entries) Close ;;; Close)) (os_Remove filePath) ;;;
  ret tt.

Definition verifyMigration (hydFilePath : bytes) (originalEntries : list Entry) : M world unit :=
  reader <-- NewFileReader hydFilePath ;;
  r <-- with_local reader (index <-- on_err LoadIndex reader_Close ;; ignore reader_Close ;;; ret index) ;;
  if forallb (fun entry => bool_decide (is_Some (r.2.1 !! Key entry))) originalEntries then ret tt else fail ErrMissingKey.

Definition deleteV1Files (folderPath : bytes) : M world unit :=
  entries <-- os_ReadDir folderPath ;;
  remove_names folderPath entries ;;;
  os_RemoveDir folderPath.

(** ** One swamp *)

Abbreviation MG := (M (world * Result)).
Definition count (f : Result -> Result) : MG unit := modify (fun s => (s.1, f s.2)).

(** Its steps 2 to 4: write, check, and delete the old files. *)
Definition convert (config : Config) (folderPath : bytes) (entries : list Entry) (swampName : bytes) : MG unit :=
  let hydFilePath := folderPath ++ bs ".hyd" in
  r <-- try (on_world (writeV2File hydFilePath entries swampName)) ;;
  match r with
  | Err e => count (recordFailure folderPath e PhaseWrite)
  | Ok _ =>
      r <-- (if Verify config then try (on_world (verifyMigration hydFilePath entries)) else ret (Ok tt)) ;;
      match r with
      | Err e =>
          on_world (ignore (os_Remove hydFilePath)) ;;;
          count (recordFailure folderPath e PhaseVerify)
      | Ok _ =>
          (if DeleteOld config then on_world (ignore (deleteV1Files folderPath)) else ret tt) ;;;
          count (add_counts 0 1 0 0 0 0)
      end
  end.

Definition migrateSwamp (config : Config) (folderPath : bytes) : MG unit :=
  count (add_counts 1 0 0 0 0 0) ;;;
  r <-- try (on_world (loadSwampNameFromMeta folderPath)) ;;
  let swampName := match r with Ok n => n | Err _ => [] end in
  r <-- try (on_world (loadV1Swamp folderPath)) ;;
  match r with
  | Err e => count (recordFailure folderPath e PhaseLoad)
  | Ok (entryMap, rawEntryCount, duplicateCount) =>
      let entries := map insert_entry (map_range entryMap) in
      count (add_counts 0 0 (Z.of_nat (length entries)) rawEntryCount duplicateCount 0) ;;;
      if decide (length entries = O) then
        count (add_counts 0 0 0 0 0 1) ;;;
        (if DeleteOld config && negb (DryRun config) then on_world (ignore (deleteV1Files folderPath)) else ret tt) ;;;
        count (add_counts 0 1 0 0 0 0)
      else if DryRun config then count (add_counts 0 1 0 0 0 0) else
      convert config folderPath entries swampName
  end.

(** ** All of them *)

Fixpoint processSwamps (config : Config) (swampFolders : list bytes) : MG unit :=
  match swampFolders with
  | [] => ret tt
  | folder :: swampFolders => migrateSwamp config folder ;;; processSwamps config swampFolders
  end.
Definition Run (config : Config) (swampFolders : list bytes) : M world Result :=
  fun w => let '((w', r), _) := processSwamps config swampFolders (w, no_migration (Z.of_nat (length swampFolders))) in (w', Ok r).
End Migrator.

(** ** The segments of a V1 file *)

Lemma v1_loop_parts parts pre fuel :
  Forall part_ok parts -> (length (encode_parts parts) < fuel)%nat ->
  (v1_segments_loop fuel {| br_data := pre ++ encode_parts parts; br_offset := length pre |}).2 = Ok parts.
Proof.
  intros Hp. revert pre fuel. induction Hp as [|part parts Hpart _ IH]; intros pre fuel Hf; (destruct fuel as [|fuel]; [simpl in Hf; lia|]);
    cbn [v1_segments_loop]; unfold bind at 1, gets, Remaining; cbn [br_data br_offset]; rewrite length_app.
  { by rewrite decide_True by (cbn; lia). }
  cbn [encode_parts] in *. rewrite !length_app, length_encoded in Hf. set (rest := encode_parts parts) in *.
  rewrite decide_False by (rewrite !length_app, length_encoded; lia).
  unfold bind at 1, try, ReadUint32. cbn [br_data br_offset].
  rewrite decide_False by (rewrite !length_app, length_encoded; lia).
  rewrite slice_skip, slice_here by (rewrite ?length_encoded; lia).
  pose proof (encoded_length part Hpart) as He. destruct (Hpart) as [Hne _].
  assert (0 < length part)%nat as Hpos by (destruct part; [done|cbn; lia]).
  rewrite decide_False by lia. rewrite He.
  unfold bind at 1, ReadBytes, br_skip. cbn [br_data br_offset].
  rewrite decide_False by (rewrite !length_app, length_encoded; lia).
  assert (slice (length pre + 4) (length pre + 4 + length part) (pre ++ encodeBinaryLength part ++ part ++ rest) = part) as ->.
  { rewrite slice_skip, slice_skip, slice_here by (rewrite ?length_encoded; lia). done. }
  unfold bind. specialize (IH (pre ++ encodeBinaryLength part ++ part) fuel ltac:(lia)).
  rewrite <-!app_assoc, !length_app, length_encoded in IH.
  replace (length pre + 4 + length part)%nat with (length pre + (4 + length part))%nat by lia. fold rest in IH.
  destruct (v1_segments_loop fuel _) as [r' [segs|e]]; cbn in *; by simplify_eq.
Qed.

Lemma parseV1Segments_parts parts : Forall part_ok parts -> parseV1Segments (encode_parts parts) = Ok parts.
Proof. intros. apply (v1_loop_parts parts []); [done|lia]. Qed.

(** ** What each step touches *)

Lemma os_call_readonly {A} (m : M world A) : respects readonly_w m -> respects readonly_w (os_call m).
Proof. intros Hm. apply syscall_respects; [apply _|done|done|]. intros k s. done. Qed.
Lemma os_ReadDir_readonly folder : respects readonly_w (os_ReadDir folder).
Proof. by apply os_call_readonly. Qed.
Lemma os_ReadFile_readonly p : respects readonly_w (os_ReadFile p).
Proof. by apply os_call_readonly. Qed.
Lemma os_RemoveDir_readonly p : respects readonly_w (os_RemoveDir p).
Proof. by apply os_call_readonly. Qed.

Lemma readonly_w_clean w w' : readonly_w w w' -> clean w' = clean w.
Proof. destruct w, w'. intros [H1 H2]. cbn in *. unfold clean, set_faults. cbn. congruence. Qed.

Lemma stored_log_same `{Codecs} w w' p name log : same_at p w w' -> stored_log w p name log -> stored_log w' p name log.
Proof. unfold stored_log, stored, same_at. by intros ->. Qed.

Section Frames.
Context `{HC : Codecs} `{HOk : !CodecsOk} `{MR : MapRange} `{MROk : !MapRangeOk} `{VG : V1Gob}.

Lemma loadV1File_readonly p : respects readonly_w (loadV1File p).
Proof.
  apply respects_bind; [apply _|apply os_ReadFile_readonly|intros].
  apply respects_bind; [apply _|apply respects_liftr, _|intros].
  apply respects_bind; [apply _|apply respects_liftr, _|intros]. apply respects_liftr, _.
Qed.

Lemma load_files_readonly folder files m n : respects readonly_w (load_files folder files m n).
Proof.
  revert m n. induction files as [|name files IH]; intros m n; cbn [load_files]; [apply respects_ret, _|].
  case_decide; [auto|]. destruct (has_Ext name); [auto|]. destruct (negb _); [auto|].
  apply respects_bind; [apply _|apply loadV1File_readonly|auto].
Qed.

Lemma loadV1Swamp_readonly folder : respects readonly_w (loadV1Swamp folder).
Proof.
  apply respects_bind; [apply _|apply os_ReadDir_readonly|intros].
  apply respects_bind; [apply _|apply load_files_readonly|intros]. apply respects_ret, _.
Qed.

Lemma io_ReadAll_readonly : respects readonly io_ReadAll.
Proof. by apply file_call_readonly. Qed.

Lemma loadSwampName_readonly folder : respects readonly_w (loadSwampNameFromMeta folder).
Proof.
  apply respects_bind; [apply _|apply os_Open_readonly|intros f].
  apply respects_bind; [apply _| |intros; apply respects_ret, _].
  apply (with_local_respects readonly); [|by intros w s' []].
  apply respects_bind; [apply _|apply respects_try, io_ReadAll_readonly|intros r].
  apply respects_bind; [apply _|apply respects_ignore, file_Close_readonly|intros _].
  destruct r; [apply respects_liftr, _|apply respects_fail, _].
Qed.

Lemma verifyMigration_readonly p es : respects readonly_w (verifyMigration p es).
Proof.
  apply respects_bind; [apply _|apply NewFileReader_readonly|intros fr].
  apply respects_bind; [apply _| |intros r; destruct (forallb _ _); [apply respects_ret, _|apply respects_fail, _]].
  apply (with_local_respects readonly); [|by intros w s' []].
  apply respects_bind; [apply _| |intros].
  - apply respects_on_err; [apply _|apply LoadIndex_readonly|apply file_Close_readonly].
  - apply respects_bind; [apply _|apply respects_ignore, file_Close_readonly|intros; apply respects_ret, _].
Qed.

Lemma remove_names_same q folder names :
  name_below folder q = None -> (forall n, n ∈ names -> n <> [] /\ slash ∉ n) -> respects (same_at q) (remove_names folder names).
Proof.
  intros Hq. induction names as [|n names IH]; intros Hn; cbn [remove_names]; [apply respects_ret, _|].
  apply respects_bind; [apply _| |intros; apply IH; intros; apply Hn; by right].
  apply os_Remove_same. intros <-. assert (name_below folder (filepath_Join folder n) = Some n) as E
    by (apply name_below_spec; split; [done|apply Hn; by left]). congruence.
Qed.

(** A deletion leaves what is not right below the folder. *)
Lemma deleteV1Files_same q folder : name_below folder q = None -> respects (same_at q) (deleteV1Files folder).
Proof.
  intros Hq w. unfold deleteV1Files, bind at 1.
  destruct (os_ReadDir folder w) as [w1 [names|e]] eqn:E; pose proof (os_ReadDir_readonly folder w) as Hro; rewrite E in Hro;
    cbn [fst] in Hro; [|by apply readonly_same].
  assert (forall n, n ∈ names -> n <> [] /\ slash ∉ n) as Hn.
  { revert E. unfold os_ReadDir, os_call, syscall. destruct (faults w) as [|[k|] l]; [| |]; intros [= _ <-] n; cbn;
      rewrite elem_of_names; tauto. }
  etransitivity; [by apply readonly_same|].
  apply (respects_bind (same_at q)); [by apply remove_names_same|]. intros _ w2. apply readonly_same, os_RemoveDir_readonly.
Qed.

(** The migrator writes its entries as a compaction writes the live ones. *)
Lemma write_each_live l s : write_each (map insert_entry l) s = write_live l s.
Proof.
  revert s. induction l as [|[k d] l IH]; intros s; [done|]. cbn [map write_each write_live]. unfold bind.
  unfold insert_entry at 1. cbn [fst snd]. by destruct (WriteEntry _ s) as [s' [[]|]].
Qed.

Lemma writeV2File_temp p index name w :
  writeV2File p (live_log index) name w = write_temp p DefaultMaxBlockSize name index w.
Proof.
  unfold writeV2File, write_temp, live_log, bind at 1. unfold bind at 3.
  destruct (NewFileWriterWithName p DefaultMaxBlockSize name w) as [w1 [fw|e]]; [|done].
  unfold bind, on_err, with_local. by rewrite write_each_live.
Qed.

Lemma writeV2File_stored p index name w w' :
  files w !! p = None -> in_i64 (clock w) -> p <> [] -> name_ok name -> Forall entry_ok (live_log index) ->
  writeV2File p (live_log index) name w = (w', Ok tt) -> stored_log w' p name (live_log index).
Proof.
  intros Hp Hi Hne Hn He E. rewrite writeV2File_temp in E. apply write_temp_clean in E.
  destruct (write_temp_ok (clean w) p DefaultMaxBlockSize name index []) as (w1 & E1 & _ & Hl);
    try done; [by left|].
  rewrite E in E1. by simplify_eq.
Qed.

Lemma writeV2File_same p q index name : p <> q -> respects (same_at q) (writeV2File p (live_log index) name).
Proof. intros Hq w. rewrite writeV2File_temp. by apply write_temp_same. Qed.

(** A load that succeeds is a load without failures. *)
Lemma loadV1File_clean p : clean_ok clean (loadV1File p).
Proof.
  apply clean_ok_bind; [apply clean_run_ok, os_call_clean; intros w l; cbn; by destruct (files w !! p)|intros].
  apply clean_ok_bind; [apply clean_run_ok, clean_liftr|intros].
  apply clean_ok_bind; intros; apply clean_run_ok, clean_liftr.
Qed.

Lemma load_files_clean folder files m n : clean_ok clean (load_files folder files m n).
Proof.
  revert m n. induction files as [|name files IH]; intros m n; cbn [load_files]; [apply clean_ok_ret|].
  case_decide; [auto|]. destruct (has_Ext name); [auto|]. destruct (negb _); [auto|].
  apply clean_ok_bind; [apply loadV1File_clean|auto].
Qed.

Lemma loadV1Swamp_clean folder : clean_ok clean (loadV1Swamp folder).
Proof.
  apply clean_ok_bind; [by apply clean_run_ok, os_call_clean|intros].
  apply clean_ok_bind; [apply load_files_clean|intros; apply clean_ok_ret].
Qed.

Lemma loadSwampName_meta folder w w' n :
  loadSwampNameFromMeta folder w = (w', Ok n) ->
  exists data, files w !! filepath_Join folder MetaFile = Some data /\ meta_swamp_name data = Some n.
Proof.
  unfold loadSwampNameFromMeta. intros (w1 & f & Ho & H)%bind_Ok. apply bind_Ok in H as (w2 & [f' n'] & Hl & [= _ <-]).
  assert (files w1 !! filepath_Join folder MetaFile = files w !! filepath_Join folder MetaFile /\
    is_Some (files w !! filepath_Join folder MetaFile) /\ f = {| f_name := filepath_Join folder MetaFile; f_pos := 0; f_open := true |})
    as (Hw1 & [data Hd] & ->).
  { revert Ho. unfold os_Open, os_call, syscall. destruct (faults w) as [|[k|] l]; cbn; [| |]; try done;
      destruct (files w !! _) eqn:E; intros [= <- <-]; cbn; rewrite ?E; eauto. }
  exists data. split; [done|]. rewrite Hd in Hw1. revert Hl. unfold with_local, bind at 1, try, io_ReadAll, file_call, syscall.
  cbn [f_open get_file file_has_file snd fst].
  assert (forall w0, files w0 = files w1 -> rest_of (w0, {| f_name := filepath_Join folder MetaFile; f_pos := 0; f_open := true |}) = data) as Hrest
    by (intros w0 Hw0; unfold rest_of; cbn [fst snd get_file file_has_file f_name f_pos]; by rewrite Hw0, Hw1).
  destruct (faults w1) as [|[k|] l]; cbn [fail]; rewrite ?Hrest by done; unfold bind, ignore;
    match goal with |- context [file_Close ?s] => destruct (file_Close s) as [[] ?] end; cbn; try done;
    destruct (meta_swamp_name data); intros [= _ _ ->]; done.
Qed.

Lemma hyd_not_below folder : name_below folder (folder ++ bs ".hyd") = None.
Proof.
  destruct (name_below _ _) as [n|] eqn:E; [|done]. apply name_below_spec in E as [E _].
  unfold filepath_Join in E. apply app_inv_head in E. by injection E.
Qed.

(** ** One migration *)

Definition hyd_of (folder : bytes) : bytes := folder ++ bs ".hyd".
Definition same_but (p : bytes) (w w' : world) : Prop := forall q, q <> p -> files w' !! q = files w !! q.

(** The name that is written: that of the metadata, or none when they cannot be read. *)
Definition name_of_meta (folder : bytes) (w : world) (name : bytes) : Prop :=
  name = [] \/ exists data, files w !! filepath_Join folder MetaFile = Some data /\ meta_swamp_name data = Some name.

(** No V2 file is there yet, and the data fit its format. *)
Record migratable (folder : bytes) (w : world) : Prop := {
  mg_new : files w !! hyd_of folder = None;
  mg_clock : in_i64 (clock w);
  mg_entries : forall w1 m raw dup, loadV1Swamp folder (clean w) = (w1, Ok (m, raw, dup)) -> Forall entry_ok (live_log m);
  mg_name : forall name, name_of_meta folder w name -> name_ok name
}.

Lemma hyd_nonempty folder : hyd_of folder <> [].
Proof. unfold hyd_of. by destruct folder. Qed.

Lemma same_but_trans p w1 w2 w3 : same_but p w1 w2 -> same_but p w2 w3 -> same_but p w1 w3.
Proof. intros H1 H2 q Hq. by rewrite H2, H1. Qed.
Lemma readonly_same_but p w w' : readonly_w w w' -> same_but p w w'.
Proof. intros [H _] q _. by rewrite H. Qed.
Lemma os_Remove_same_but p w : same_but p w (os_Remove p w).1.
Proof. intros q Hq. by apply os_Remove_same. Qed.

(** The load of a migration under failures is that of a world without. *)
Lemma load_before folder w w1 w2 m raw dup :
  readonly_w w w1 -> loadV1Swamp folder w1 = (w2, Ok (m, raw, dup)) ->
  loadV1Swamp folder (clean w) = (clean w, Ok (m, raw, dup)) /\ readonly_w w w2.
Proof.
  intros Hro E. pose proof (loadV1Swamp_readonly folder w1) as Hr2. rewrite E in Hr2. cbn in Hr2.
  assert (readonly_w w w2) as Hw2 by by etransitivity. split; [|done].
  apply loadV1Swamp_clean in E. by rewrite (readonly_w_clean _ _ Hro), (readonly_w_clean _ _ Hw2) in E.
Qed.

Lemma entries_empty (m : gmap bytes bytes) : length (map insert_entry (map_range m)) = O <-> m = ∅.
Proof.
  rewrite length_map, map_range_size. apply map_size_empty_iff.
Qed.

(** What a migration has done to the files, and whether it reports a failure. *)
Inductive outcome_of (folder : bytes) (w w' : world) (failed : bool) : Prop :=
| kept_v1 : same_but (hyd_of folder) w w' -> outcome_of folder w w' failed
| nothing_to_keep raw dup :
    loadV1Swamp folder (clean w) = (clean w, Ok (∅, raw, dup)) -> failed = false ->
    (forall q, name_below folder q = None -> files w' !! q = files w !! q) -> outcome_of folder w w' failed
| written_to_v2 m raw dup name :
    loadV1Swamp folder (clean w) = (clean w, Ok (m, raw, dup)) -> failed = false -> name_of_meta folder w name ->
    stored_log w' (hyd_of folder) name (live_log m) ->
    (forall q, q <> hyd_of folder -> name_below folder q = None -> files w' !! q = files w !! q) -> outcome_of folder w w' failed.

Definition failures (res res' : Result) : bool := negb (length (FailedSwamps res') =? length (FailedSwamps res))%nat.

Lemma outcome_before folder w w2 w' failed : readonly_w w w2 -> outcome_of folder w2 w' failed -> outcome_of folder w w' failed.
Proof.
  intros Hro. pose proof (readonly_w_clean _ _ Hro) as Hc. destruct Hro as [Hf _].
  intros [Hs|raw dup Hl Hfd Hs|m raw dup name Hl Hfd Hn Hst Hs]; unfold same_but, name_of_meta in *;
    rewrite <-?Hf, ?Hc in *; [by apply kept_v1|by eapply nothing_to_keep|by eapply written_to_v2].
Qed.

Lemma same_failures res res' : FailedSwamps res' = FailedSwamps res -> failures res res' = false.
Proof. intros H. unfold failures. by rewrite H, Nat.eqb_refl. Qed.

(** A run of an optional deletion. *)
Lemma delete_run (old : bool) folder w (res : Result) :
  exists w', (if old then on_world (ignore (deleteV1Files folder)) else ret tt) (w, res) = ((w', res), Ok tt) /\
    (forall q, name_below folder q = None -> files w' !! q = files w !! q).
Proof.
  destruct old; [|by exists w]. exists (deleteV1Files folder w).1. unfold on_world, ignore. cbn [fst snd].
  split; [by destruct (deleteV1Files folder w)|]. intros q Hq. by apply deleteV1Files_same.
Qed.

Lemma convert_outcome config folder w res m name raw dup :
  files w !! hyd_of folder = None -> in_i64 (clock w) -> Forall entry_ok (live_log m) -> name_ok name ->
  name_of_meta folder w name -> loadV1Swamp folder (clean w) = (clean w, Ok (m, raw, dup)) ->
  let (s, r) := convert config folder (live_log m) name (w, res) in
  r = Ok tt /\ outcome_of folder w s.1 (failures res s.2).
Proof.
  intros Hnew Hclk Hent Hname Hn Hload. unfold convert. fold (hyd_of folder). unfold bind at 1, try, on_world at 1. cbn [fst snd].
  pose proof (fun q Hq => writeV2File_same (hyd_of folder) q m name Hq w) as Hsame.
  destruct (writeV2File (hyd_of folder) (live_log m) name w) as [w3 [[]|e]] eqn:E3; cbn [fst] in Hsame.
  2: { unfold count, modify. cbn [fst snd]. split; [done|]. apply kept_v1. intros q Hq. by apply Hsame, not_eq_sym. }
  apply writeV2File_stored in E3; [|done|done|apply hyd_nonempty|done|done].
  assert (exists w4 r, (if Verify config then (fun s => let (s', r) := on_world (verifyMigration (hyd_of folder) (live_log m)) s in (s', Ok r))
    else ret (Ok tt)) (w3, res) = ((w4, res), Ok r) /\ readonly_w w3 w4) as (w4 & r & E4 & Hro4).
  { destruct (Verify config); [|by exists w3, (Ok tt)].
    exists (verifyMigration (hyd_of folder) (live_log m) w3).1, (verifyMigration (hyd_of folder) (live_log m) w3).2.
    split; [|apply verifyMigration_readonly]. unfold on_world. cbn [fst snd]. by destruct (verifyMigration _ _ _). }
  rewrite (bind_run _ _ _ _ _ E4).
  assert (same_but (hyd_of folder) w w4) as Hb4.
  { eapply same_but_trans; [|by apply readonly_same_but]. intros q Hq. by apply Hsame, not_eq_sym. }
  destruct r as [u|e].
  - destruct (delete_run (DeleteOld config) folder w4 res) as (w5 & E5 & Hs5). rewrite (bind_run _ _ _ _ _ E5). unfold count, modify. cbn [fst snd].
    split; [done|]. apply (written_to_v2 _ _ _ _ m raw dup name); [done|by apply same_failures|done| |].
    + eapply stored_log_same; [|exact E3]. etransitivity; [by apply readonly_same|]. apply Hs5, hyd_not_below.
    + intros q Hq Hb. by rewrite Hs5, Hb4.
  - unfold bind, on_world, ignore, count, modify. cbn [fst snd].
    destruct (os_Remove (hyd_of folder) w4) as [w5 r5] eqn:E5. cbn [fst snd]. split; [done|]. apply kept_v1.
    pose proof (os_Remove_same_but (hyd_of folder) w4) as Hb5. rewrite E5 in Hb5. by eapply same_but_trans.
Qed.

Lemma migrateSwamp_outcome config folder w res :
  migratable folder w ->
  let (s, r) := migrateSwamp config folder (w, res) in
  r = Ok tt /\ outcome_of folder w s.1 (failures res s.2).
Proof.
  intros [Hnew Hclk Hent Hname]. unfold migrateSwamp, bind at 1, count at 1, modify. cbn [fst snd].
  unfold bind at 1, try, on_world at 1. cbn [fst snd].
  destruct (loadSwampNameFromMeta folder w) as [w1 rn] eqn:E1.
  pose proof (loadSwampName_readonly folder w) as Hro1. rewrite E1 in Hro1. cbn [fst] in Hro1.
  assert (name_of_meta folder w (match rn with Ok n => n | Err _ => [] end)) as Hn.
  { destruct rn as [n|e]; [right; by eapply loadSwampName_meta|by left]. }
  set (name := match rn with Ok n => n | Err _ => [] end) in *. clearbody name.
  unfold bind at 1, on_world at 1. cbn [fst snd].
  destruct (loadV1Swamp folder w1) as [w2 [[[m raw] dup]|e]] eqn:E2.
  2: { split; [done|]. apply kept_v1, readonly_same_but. pose proof (loadV1Swamp_readonly folder w1) as Hr. rewrite E2 in Hr. by etransitivity. }
  destruct (load_before _ _ _ _ _ _ _ Hro1 E2) as [Hload Hro]. fold (live_log m).
  assert (forall q, files w2 !! q = files w !! q) as Hw2 by (intros q; by destruct Hro as [<- _]).
  unfold bind at 1, count at 1, modify. cbn [fst snd]. case_decide as Hempty.
  - apply entries_empty in Hempty as ->. unfold bind at 1, count at 1, modify. cbn [fst snd].
    match goal with |- context [(?m ;;; ?k) (w2, ?r)] => destruct (delete_run (DeleteOld config && negb (DryRun config)) folder w2 r) as (w3 & E3 & Hs) end.
    rewrite (bind_run _ _ _ _ _ E3). unfold count, modify. cbn [fst snd]. split; [done|].
    apply (nothing_to_keep _ _ _ _ raw dup); [done|by apply same_failures|]. intros q Hq. by rewrite Hs.
  - destruct (DryRun config); [split; [done|]; by apply kept_v1, readonly_same_but|].
    match goal with |- context [convert _ _ _ _ (w2, ?r)] => set (res2 := r) end.
    pose proof (convert_outcome config folder w2 res2 m name raw dup) as Hcv. fold (live_log m).
    destruct (convert config folder (live_log m) name (w2, res2)) as [s r]. destruct Hcv as [Hok Hout].
    + by rewrite Hw2.
    + by destruct Hro as [_ <-].
    + by eapply Hent.
    + by apply Hname.
    + destruct Hn as [->|(data & Hd & Hn)]; [by left|right]. exists data. by rewrite Hw2.
    + by rewrite (readonly_w_clean _ _ Hro).
    + split; [done|]. change (failures res) with (failures res2). by eapply outcome_before.
Qed.

(** A file of live entries loads as the data and the name. *)
Lemma load_migrated w p name m :
  p <> [] -> stored_log w p name (live_log m) -> load_file p (clean w) = (clean w, Ok (m, name)).
Proof.
  intros Hp Hs. rewrite (load_file_ok (clean w) p name (live_log m)); [|done|done|exact Hs].
  by rewrite live_log_index, live_log_name.
Qed.

(** C32: a migration loses nothing, whatever system calls fail and wherever it stops.  Started
    where no V2 file is yet, it leaves every V1 file as it was, or the V1 files had no treasure,
    or there is a complete V2 file that loads as exactly the last version of every key, under
    the name of the metadata or none; no other file changes; and where it reports a failure the
    V1 files are all there. *)
Theorem migrate_keeps_data (config : Config) (folder : bytes) (w : world) (res : Result) (Hm : migratable folder w) :
  exists w' res', migrateSwamp config folder (w, res) = ((w', res'), Ok tt) /\
    (forall q, q <> hyd_of folder -> name_below folder q = None -> files w' !! q = files w !! q) /\
    (failures res res' = true -> same_but (hyd_of folder) w w') /\
    (same_but (hyd_of folder) w w' \/
     exists m raw dup, loadV1Swamp folder (clean w) = (clean w, Ok (m, raw, dup)) /\
       (m = ∅ \/ exists name, name_of_meta folder w name /\
          load_file (hyd_of folder) (clean w') = (clean w', Ok (m, name)))).
Proof.
  pose proof (migrateSwamp_outcome config folder w res Hm) as Ho.
  destruct (migrateSwamp config folder (w, res)) as [[w' res'] r]. destruct Ho as [-> Ho]. exists w', res'. split; [done|].
  cbn [fst snd] in Ho. destruct Ho as [Hs|raw dup Hl Hf Hs|m raw dup name Hl Hf Hn Hst Hs].
  - split_and!; [by intros; apply Hs|done|by left].
  - split_and!; [by intros; apply Hs|congruence|]. right. exists ∅, raw, dup. split; [done|by left].
  - split_and!; [done|congruence|]. right. exists m, raw, dup. split; [done|]. right. exists name. split; [done|].
    apply load_migrated; [apply hyd_nonempty|done].
Qed.

(** ** A migration without failures *)

(** The files of a V1 folder that are read: their names are hexadecimal, no key is empty. *)
Definition v1_data (segs : gmap bytes (list bytes)) : Prop :=
  map_Forall (fun name parts => has_Ext name = false /\ isV1DataFileName name = true /\
    Forall (fun d => treasure_key d <> Some []) parts) segs.

Lemma entries_of_parts parts :
  Forall (fun d => is_Some (treasure_key d)) parts -> Forall (fun d => treasure_key d <> Some []) parts ->
  exists es, entries_of parts = Ok es /\ forall k d, (exists e, e ∈ es /\ Key e = k /\ Data e = d) <-> d ∈ parts /\ treasure_key d = Some k.
Proof.
  induction parts as [|p parts IH]; intros Hd Hn; cbn [entries_of].
  { exists []. split; [done|]. intros k d. set_solver. }
  inversion Hd as [|? ? [k Hk] Hd']; inversion Hn as [|? ? Hnk Hn']; subst.
  destruct (IH Hd' Hn') as (es & -> & Hes). unfold extractKeyFromTreasure. rewrite Hk.
  destruct k as [|x k]; [congruence|]. cbn [rbind].
  eexists. split; [reflexivity|]. intros k' d. setoid_rewrite elem_of_cons. split.
  - intros (e & [->|He] & <- & <-); [cbn; split; [by left|done]|]. destruct (proj1 (Hes (Key e) (Data e))) as [? ?]; [by exists e|]. split; [by right|done].
  - intros [[->|Hin] Hk']; [eexists; split; [by left|]; cbn; split; congruence|].
    destruct (proj2 (Hes k' d)) as (e & He & ?); [done|]. exists e. split; [by right|done].
Qed.

Lemma add_entries_spec es m :
  (forall k d, add_entries es m !! k = Some d -> m !! k = Some d \/ exists e, e ∈ es /\ Key e = k /\ Data e = d) /\
  (forall k, is_Some (m !! k) \/ (exists e, e ∈ es /\ Key e = k) -> is_Some (add_entries es m !! k)).
Proof.
  revert m. induction es as [|e es IH]; intros m; cbn [add_entries fold_left].
  { split; [auto|]. intros k [?|(e & He%elem_of_nil & _)]; done. }
  destruct (IH (<[Key e := Data e]> m)) as [H1 H2]. unfold add_entries in *. split.
  - intros k d Hk. apply H1 in Hk as [[[<- <-]|[_ Hk]]%lookup_insert_Some|(x & Hx & Hk)]; [|by left|].
    + right. exists e. split; [by left|done].
    + right. exists x. split; [by right|done].
  - intros k Hk. apply H2. destruct (decide (k = Key e)) as [->|Hne]; [left; rewrite lookup_insert_eq; eauto|].
    rewrite lookup_insert_ne by done. destruct Hk as [?|(x & [->|Hx]%elem_of_cons & Hxk)]; [by left|congruence|right; eauto].
Qed.

Lemma load_files_ok w folder segs names m n :
  folder_holds w folder segs -> coherent segs -> v1_data segs ->
  (forall name, name ∈ names -> name <> MetaFile -> is_Some (segs !! name)) ->
  exists m' n', load_files folder names m n w = (w, Ok (m', n')) /\
    (forall k d, m' !! k = Some d -> m !! k = Some d \/ exists f, f ∈ names /\ stored_at segs k d f) /\
    (forall k, is_Some (m !! k) \/ (exists d f, f ∈ names /\ stored_at segs k d f) -> is_Some (m' !! k)).
Proof.
  intros Hh Hc Hv. revert m n. induction names as [|name names IH]; intros m n Hall; cbn [load_files].
  { exists m, n. split_and!; [done|auto|]. intros k [?|(d & f & Hf%elem_of_nil & _)]; done. }
  assert (forall x, x ∈ names -> x <> MetaFile -> is_Some (segs !! x)) as Hall' by (intros; apply Hall; [by right|done]).
  case_decide as Hm.
  - destruct (IH m n Hall') as (m' & n' & Hr & Hb & Hf). exists m', n'. split_and!; [done| |].
    + intros k d Hk. apply Hb in Hk as [?|(f & Hin & ?)]; [by left|right; exists f; split; [by right|done]].
    + intros k [?|(d & f & [->|Hin]%elem_of_cons & Hs)]; apply Hf; [by left| |by right; eauto].
      destruct Hs as (parts & Hp & _). by destruct (fh_files _ _ _ Hh _ _ Hp) as ((_ & _ & []) & _).
  - destruct (Hall name ltac:(by left) Hm) as [parts Hp]. destruct (Hv _ _ Hp) as (-> & -> & Hne). cbn [negb].
    destruct (fh_files _ _ _ Hh _ _ Hp) as (_ & [Hok _] & c & Hcc & _ & Hd).
    destruct (entries_of_parts parts) as (es & Hes & Hin); [apply Forall_forall; intros d; by apply (co_keys _ Hc name)|done|].
    assert (loadV1File (filepath_Join folder name) w = (w, Ok es)) as Hl.
    { unfold loadV1File, os_ReadFile, bind, liftr. rewrite os_call_ok, Hcc by apply Hh. rewrite Decompress_Snappy, Hd.
      cbn [or_error]. rewrite parseV1Segments_parts by done. by rewrite Hes. }
    rewrite (bind_run _ _ _ _ _ Hl). destruct (add_entries_spec es m) as [Ha1 Ha2].
    destruct (IH (add_entries es m) (n + Z.of_nat (length es)) Hall') as (m' & n' & Hr & Hb & Hf). exists m', n'. split_and!; [done| |].
    + intros k d Hk. apply Hb in Hk as [Hk|(f & Hf' & ?)]; [|right; exists f; split; [by right|done]].
      apply Ha1 in Hk as [?|He]; [by left|]. apply Hin in He as [Hdp Hk]. right. exists name. split; [by left|]. by exists parts.
    + intros k Hk. apply Hf. destruct Hk as [Hk|(d & f & [->|Hfn]%elem_of_cons & Hs)]; [left; apply Ha2; by left| |right; eauto].
      left. apply Ha2. right. destruct Hs as (parts' & Hp' & Hdp & Hk). rewrite Hp in Hp'. injection Hp' as <-.
      destruct (proj2 (Hin k d)) as (e & He & Hk' & _); [done|]. by exists e.
Qed.

(** The data of a migration are those of a load by the V1 engine. *)
Lemma loadV1Swamp_ok w folder segs :
  folder_holds w folder segs -> coherent segs -> v1_data segs ->
  exists m raw dup, loadV1Swamp folder w = (w, Ok (m, raw, dup)) /\
    forall k d, m !! k = Some d <-> exists f, stored_at segs k d f.
Proof.
  intros Hh Hc Hv. unfold loadV1Swamp, os_ReadDir, bind at 1. rewrite os_call_ok by apply Hh.
  destruct (load_files_ok w folder segs (names_in folder (files w)) ∅ 0 Hh Hc Hv (fh_all _ _ _ Hh)) as (m & n & Hr & Hb & Hf).
  exists m, n, (n - Z.of_nat (size m)). rewrite (bind_run _ _ _ _ _ Hr). split; [done|].
  assert (forall k d f, stored_at segs k d f -> f ∈ names_in folder (files w)) as Hin.
  { intros k d f (parts & Hp & _). destruct (fh_files _ _ _ Hh _ _ Hp) as ((H1 & H2 & _) & _ & c & Hcc & _).
    apply elem_of_names. eauto. }
  intros k d. split.
  - intros Hk. apply Hb in Hk as [Hk|(f & _ & Hs)]; [by rewrite lookup_empty in Hk|eauto].
  - intros (f & Hs). destruct (Hf k) as [d' Hd']; [right; eauto|]. rewrite Hd'. f_equal.
    apply Hb in Hd' as [Hd'|(f' & _ & Hs')]; [by rewrite lookup_empty in Hd'|]. by destruct (co_once _ Hc _ _ _ _ _ Hs' Hs).
Qed.

(** A check reads the file as a load does. *)
Lemma verify_load p es w :
  verifyMigration p es w =
    bind (load_file p) (fun r => if forallb (fun e => bool_decide (is_Some (r.1 !! Key e))) es then ret tt else fail ErrMissingKey) w.
Proof.
  unfold verifyMigration, load_file, bind. destruct (NewFileReader p w) as [w1 [fr|e]]; [|done].
  match goal with |- context [with_local fr ?m w1] => by destruct (with_local fr m w1) as [w2 [[fr' [m' name]]|e]] end.
Qed.

Lemma remove_names_ok w folder names :
  faults w = [] -> NoDup names -> (forall n, n ∈ names -> is_Some (files w !! filepath_Join folder n)) ->
  exists w', remove_names folder names w = (w', Ok tt) /\ faults w' = [] /\
    (forall n, n ∈ names -> files w' !! filepath_Join folder n = None) /\
    (forall q, files w' !! q = files w !! q \/ files w' !! q = None).
Proof.
  revert w. induction names as [|n names IH]; intros w Hf Hnd Hall; cbn [remove_names].
  { exists w. split_and!; [done|done|by intros n Hn%elem_of_nil|by left]. }
  inversion Hnd as [|? ? Hn Hnd']; subst. destruct (Hall n ltac:(by left)) as [c Hc].
  set (w1 := set_files (delete (filepath_Join folder n) (files w)) w).
  assert (os_Remove (filepath_Join folder n) w = (w1, Ok tt)) as Hr by (unfold os_Remove; by rewrite os_call_ok, Hc).
  rewrite (bind_run _ _ _ _ _ Hr). destruct (IH w1) as (w' & Hr' & Hf' & Hnone & Hsub); [done|done| |].
  { intros x Hx. unfold w1. cbn [files set_files]. rewrite lookup_delete_ne; [apply Hall; by right|]. by intros ->%Join_inj. }
  exists w'. split_and!; [done|done| |].
  - intros x [->|Hx]%elem_of_cons; [|auto]. destruct (Hsub (filepath_Join folder n)) as [->|?]; [|done]. apply lookup_delete_eq.
  - intros q. destruct (Hsub q) as [Hq|?]; [|by right]. rewrite Hq. cbn.
    destruct (decide (filepath_Join folder n = q)) as [<-|]; [right; apply lookup_delete_eq|left; by apply lookup_delete_ne].
Qed.

Lemma deleteV1Files_ok w folder :
  faults w = [] -> exists w' r, deleteV1Files folder w = (w', r) /\ names_in folder (files w') = [] /\ faults w' = [].
Proof.
  intros Hf. unfold deleteV1Files, os_ReadDir, bind at 1. rewrite os_call_ok by done.
  destruct (remove_names_ok w folder (names_in folder (files w)) Hf (names_NoDup _ _)) as (w' & Hr & Hf' & Hnone & Hsub).
  { intros n Hn. by apply elem_of_names in Hn as [? _]. }
  rewrite (bind_run _ _ _ _ _ Hr). unfold os_RemoveDir. rewrite os_call_ok by done. eexists _, _. split; [reflexivity|]. split; [|done].
  destruct (names_in folder (files w')) as [|n l] eqn:E; [done|]. exfalso.
  assert (n ∈ names_in folder (files w')) as Hn by (rewrite E; by left). apply elem_of_names in Hn as [[c Hc] Hn].
  destruct (Hsub (filepath_Join folder n)) as [Hs|Hs]; [|congruence].
  rewrite Hnone in Hc; [done|]. apply elem_of_names. split; [|done]. exists c. congruence.
Qed.

Definition meta_name (folder : bytes) (w : world) : bytes :=
  default [] (data ← files w !! filepath_Join folder MetaFile; meta_swamp_name data).

Lemma loadSwampName_ok folder w :
  faults w = [] -> exists r, loadSwampNameFromMeta folder w = (w, r) /\ match r with Ok n => n | Err _ => [] end = meta_name folder w.
Proof.
  intros Hf. unfold loadSwampNameFromMeta, meta_name, os_Open, bind at 1. rewrite os_call_ok by done.
  destruct (files w !! filepath_Join folder MetaFile) as [data|] eqn:E; [|by exists (Err ErrNotExist)].
  unfold bind at 1, with_local, bind at 1, try, io_ReadAll. rewrite file_call_ok by done.
  assert (rest_of (w, {| f_name := filepath_Join folder MetaFile; f_pos := 0; f_open := true |}) = data) as ->
    by (unfold rest_of; cbn [fst snd get_file file_has_file f_name f_pos]; by rewrite E).
  unfold bind, ignore, advance, on_file. rewrite file_Close_ok by done. unfold liftr. cbn [option_bind mbind].
  destruct (meta_swamp_name data) as [n|]; [by exists (Ok n)|by exists (Err ErrDecode)].
Qed.

Lemma try_on_world {X A} (m : M world A) w w' (x : X) r : m w = (w', r) -> try (on_world m) (w, x) = ((w', x), Ok r).
Proof. intros H. unfold try, on_world. cbn. by rewrite H. Qed.

Lemma convert_ok config folder w res m name :
  faults w = [] -> files w !! hyd_of folder = None -> in_i64 (clock w) -> Forall entry_ok (live_log m) -> name_ok name ->
  exists w', convert config folder (live_log m) name (w, res) = ((w', add_counts 0 1 0 0 0 0 res), Ok tt) /\
    faults w' = [] /\ stored_log w' (hyd_of folder) name (live_log m) /\
    (DeleteOld config = true -> names_in folder (files w') = []).
Proof.
  intros Hf Hnew Hclk Hent Hname. unfold convert. fold (hyd_of folder).
  destruct (write_temp_ok w (hyd_of folder) DefaultMaxBlockSize name m []) as (w1 & E1 & (Hf1 & _ & Ho1) & Hl1);
    try done; [apply hyd_nonempty|by left|].
  rewrite <-writeV2File_temp in E1. rewrite (bind_run _ _ _ _ _ (try_run _ _ _ _ (on_world_ok _ _ _ res _ E1))). cbn [app] in Hl1.
  assert ((if Verify config then try (on_world (verifyMigration (hyd_of folder) (live_log m))) else ret (Ok tt)) (w1, res)
    = ((w1, res), Ok (Ok tt))) as E2.
  { destruct (Verify config); [|done]. apply try_run, on_world_ok. rewrite verify_load.
    assert (w1 = clean w1) as Hcl by (unfold clean, set_faults; destruct w1; cbn in *; congruence).
    pose proof (load_migrated w1 (hyd_of folder) name m (hyd_nonempty _) Hl1) as Hld. rewrite <-Hcl in Hld.
    rewrite (bind_run _ _ _ _ _ Hld). cbn [fst].
    assert (forallb (fun e => bool_decide (is_Some (m !! Key e))) (live_log m) = true) as ->; [|done].
    apply forallb_forall. intros e Hin%list_elem_of_In. apply bool_decide_eq_true. unfold live_log in Hin.
    apply list_elem_of_fmap in Hin as ([k d] & -> & Hin). rewrite (map_range_perm m) in Hin. apply elem_of_map_to_list in Hin.
    cbn. by exists d. }
  rewrite (bind_run _ _ _ _ _ E2).
  destruct (DeleteOld config).
  - destruct (deleteV1Files_ok w1 folder) as (w2 & r & E3 & Hn & Hf2); [congruence|]. exists w2.
    unfold bind, on_world, ignore, count, modify. cbn [fst snd]. rewrite E3. cbn [fst snd]. split_and!; try done.
    eapply stored_log_same; [|exact Hl1]. pose proof (deleteV1Files_same _ _ (hyd_not_below folder) w1) as Hs. by rewrite E3 in Hs.
  - exists w1. split_and!; [done|congruence|done|done].
Qed.
End Frames.

Section Same.
Context `{HC : Codecs} `{HOk : !CodecsOk} `{MR : MapRange} `{MROk : !MapRangeOk} `{VG : V1Gob}.
Context `{FR : StringRange} `{FROk : !StringRangeOk}.

(** C33: what a migration without failures and that is no dry run makes of a folder of the V1 engine,
    beside which there is no V2 file yet, loads, from the V2 file, as the very treasures that the V1
    engine would load, under the name of the metadata; the migration counts as a success, with its
    check as well, and asked to delete the old files it leaves none.  The folder holds at least one
    treasure, each key in one segment of one file, in files with hexadecimal names, and no key is
    empty; keys, data and name fit the V2 format. *)
Theorem migration_reads_same (config : Config) (folder : bytes) (w : world) (res : Result) (c : chroniclerV1)
    (segs : gmap bytes (list bytes))
    (Hc : swampDataFolderPath c = folder) (Hh : folder_holds w folder segs) (Hco : coherent segs) (Hv : v1_data segs)
    (Hm : migratable folder w) (Hdry : DryRun config = false) (Hsome : exists k d f, stored_at segs k d f) :
  exists w' res' loaded,
    v1_Load (w, c) = ((w, c), Ok (Some loaded)) /\
    migrateSwamp config folder (w, res) = ((w', res'), Ok tt) /\
    load_file (hyd_of folder) w' = (w', Ok (fst <$> loaded, meta_name folder w)) /\
    FailedSwamps res' = FailedSwamps res /\ SuccessfulSwamps res' = SuccessfulSwamps res + 1 /\
    (DeleteOld config = true -> names_in folder (files w') = []).
Proof.
  pose proof (fh_faults _ _ _ Hh) as Hf. destruct Hm as [Hnew Hclk Hent Hname].
  rewrite <-Hc in Hh. destruct (v1_Load_ok w c segs Hh Hco) as (loaded & Hl & Hlo). rewrite Hc in Hh.
  destruct (loadV1Swamp_ok w folder segs Hh Hco Hv) as (m & raw & dup & Hlv & Hmm).
  assert (fst <$> loaded = m) as Heq.
  { apply map_eq. intros k. apply option_eq. intros d. rewrite lookup_fmap_Some, Hmm. split.
    - intros ([d' f] & <- & Hk). exists f. by apply Hlo.
    - intros (f & Hs). exists (d, f). split; [done|]. by apply Hlo. }
  destruct (loadSwampName_ok folder w Hf) as (r & Hr & Hrn).
  assert (w = clean w) as Hcl by (unfold clean, set_faults; destruct w; cbn in *; congruence).
  unfold migrateSwamp, bind at 1, count at 1, modify. cbn [fst snd].
  rewrite (bind_run _ _ _ _ _ (try_on_world _ _ _ _ _ Hr)).
  rewrite Hrn. set (name := meta_name folder w).
  rewrite (bind_run _ _ _ _ _ (try_on_world _ _ _ _ _ Hlv)). fold (live_log m). unfold bind at 1, count at 1, modify. cbn [fst snd].
  rewrite decide_False, Hdry.
  2: { unfold live_log. rewrite entries_empty. intros ->. destruct Hsome as (k & d & f & Hs). assert (∅ !! k = Some d) as Hk by (apply Hmm; by exists f).
    by rewrite lookup_empty in Hk. }
  match goal with |- context [convert _ _ _ _ (w, ?r)] => destruct (convert_ok config folder w r m name) as (w' & Hcv & Hf' & Hst & Hdel) end; try done.
  { rewrite Hcl in Hlv. by eapply Hent. }
  { apply Hname. unfold name, meta_name, name_of_meta. destruct (files w !! filepath_Join folder MetaFile) as [data|]; [|left; reflexivity]. cbn.
    destruct (meta_swamp_name data) eqn:E; [right; by exists data|by left]. }
  eexists w', _, loaded. split; [exact Hl|]. split; [exact Hcv|]. rewrite Heq. split_and!; try done.
  - pose proof (load_migrated w' (hyd_of folder) name m (hyd_nonempty _) Hst) as Hld.
    by replace (clean w') with w' in Hld by (unfold clean, set_faults; destruct w'; cbn in *; congruence).
  - cbn. lia.
Qed.
End Same.

(** ** What a migration does not keep *)

Section Losses.
Context `{HC : Codecs} `{HOk : !CodecsOk} `{MR : MapRange} `{MROk : !MapRangeOk} `{VG : V1Gob}.

(** A V2 file that is there already is not replaced: the migrated treasures are appended to it, so
    they win over newer ones of the same key, and its other keys stay. *)
Theorem leftover_file_is_merged (config : Config) (folder : bytes) (w : world) (res : Result) (m : gmap bytes bytes)
    (name : bytes) (log : list Entry) :
  faults w = [] -> in_i64 (clock w) -> stored_log w (hyd_of folder) name log -> Forall entry_ok (live_log m) -> name_ok name ->
  Verify config = false -> DeleteOld config = false ->
  exists w' log', convert config folder (live_log m) name (w, res) = ((w', add_counts 0 1 0 0 0 0 res), Ok tt) /\
    stored_log w' (hyd_of folder) name log' /\ index_of log' = m ∪ index_of log.
Proof.
  intros Hf Hclk Hst Hent Hname Hver Hdel. unfold convert. fold (hyd_of folder).
  destruct (write_temp_ok w (hyd_of folder) DefaultMaxBlockSize name m log) as (w1 & E1 & _ & Hl1);
    try done; [apply hyd_nonempty|by right|].
  rewrite <-writeV2File_temp in E1. rewrite (bind_run _ _ _ _ _ (try_run _ _ _ _ (on_world_ok _ _ _ res _ E1))).
  rewrite Hver, Hdel. exists w1, (log ++ live_log m). split_and!; [done|done|apply live_log_app].
Qed.

(** What is left of a file of which less than four bytes can be read is nothing: such a swamp
    counts as empty, and its files are deleted where that is asked for. *)
Theorem torn_file_counts_as_empty (data : bytes) : (length data < 4)%nat -> parseV1Segments data = Ok [].
Proof.
  intros Hl. unfold parseV1Segments. cbn [v1_segments_loop]. unfold bind at 1, gets, Remaining, NewByteReader. cbn [br_data br_offset].
  case_decide; [done|]. unfold bind, try, ReadUint32. cbn [br_data br_offset]. by rewrite decide_True by lia.
Qed.
End Losses.

(** ** Examples *)

Module MigratorSample.
#[local] Existing Instance Stored.stored_codecs.
#[local] Existing Instance V1Sample.first_byte.
#[local] Existing Instance V1Sample.by_name.
#[local] Instance sorted_range : MapRange := map_to_list.
#[local] Instance sorted_range_ok : MapRangeOk.
Proof. intros m. reflexivity. Qed.

(** Everything but trying. *)
Definition careful : Config := {| DryRun := false; Verify := true; DeleteOld := true |}.
Definition folder : bytes := V1Sample.folder.
(** The swamp of [V1Sample] with the file of its metadata. *)
Definition v1_swamp : world :=
  {| files := <[filepath_Join folder MetaFile := bs "s/r/n"]> (files V1Sample.start); faults := []; clock := 0 |}.
(** The same, with a write that fails after a few bytes. *)
Definition failing : world := set_faults (replicate 12 None ++ [Some 5%nat]) v1_swamp.
Definition content : gmap bytes bytes := match (loadV1Swamp folder v1_swamp).2 with Ok (m, _, _) => m | Err _ => ∅ end.

Lemma sample_migratable w : clean w = v1_swamp -> migratable folder w.
Proof.
  intros Hw. assert (files w = files v1_swamp) as Hfiles by (by rewrite <-Hw). split.
  - rewrite Hfiles. by vm_compute.
  - assert (clock w = 0) as -> by (change (clock w) with (clock (clean w)); by rewrite Hw). by vm_compute.
  - intros w1 m raw dup. rewrite Hw. intros E. assert (m = content) as -> by (unfold content; by rewrite E).
    apply (bool_decide_unpack _). by vm_compute.
  - intros name [->|(data & Hd & Hn)]; [by vm_compute|]. rewrite Hfiles in Hd.
    unfold v1_swamp in Hd. cbn [files] in Hd. rewrite lookup_insert_eq in Hd. injection Hd as <-. injection Hn as <-. by vm_compute.
Qed.

Lemma v1_swamp_holds : folder_holds v1_swamp folder V1Sample.start_segs.
Proof.
  destruct V1Sample.start_holds as [Hf Hn Hs Ha]. change (swampDataFolderPath V1Sample.engine) with folder in *. split; [done|done| |].
  - intros f parts Hp. destruct (Hs f parts Hp) as (Ho & Hfit & c & Hc & Hd). split_and!; try done. exists c. split; [|done].
    cbn [files v1_swamp]. rewrite lookup_insert_ne; [done|]. intros H%Join_inj. destruct Ho as (_ & _ & []). by rewrite H.
  - intros f Hf' Hm. apply Ha; [|done]. apply elem_of_names in Hf' as [[c Hc] Ho]. apply elem_of_names. split; [|done].
    cbn [files v1_swamp] in Hc. rewrite lookup_insert_ne in Hc; [by exists c|]. by intros <-%Join_inj.
Qed.

Lemma sample_v1_data : v1_data V1Sample.start_segs.
Proof.
  unfold v1_data, V1Sample.start_segs. apply map_Forall_singleton. split_and!; [by vm_compute..|]. by repeat constructor.
Qed.
End MigratorSample.

(** A schedule with a failing write: the migration stops and nothing of the old files is lost. *)
Lemma migrate_keeps_data_witness :
  exists w' res', migrateSwamp (HC := Stored.stored_codecs) (MR := MigratorSample.sorted_range) (VG := V1Sample.first_byte)
      MigratorSample.careful MigratorSample.folder (MigratorSample.failing, no_migration 1) = ((w', res'), Ok tt) /\
    (failures (no_migration 1) res' = true ->
      files w' !! filepath_Join MigratorSample.folder V1Sample.old_file = Some (x00 :: encode_parts V1Sample.stored_parts)).
Proof.
  destruct (migrate_keeps_data (HC := Stored.stored_codecs) (HOk := Stored.stored_codecs_ok) (MR := MigratorSample.sorted_range)
    (MROk := MigratorSample.sorted_range_ok) (VG := V1Sample.first_byte) MigratorSample.careful MigratorSample.folder
    MigratorSample.failing (no_migration 1) (MigratorSample.sample_migratable MigratorSample.failing eq_refl))
    as (w' & res' & Hrun & _ & Hfail & _).
  exists w', res'. split; [exact Hrun|]. intros H. rewrite (Hfail H); [vm_compute; reflexivity|]. intros E. vm_compute in E. discriminate E.
Defined.

Lemma migration_reads_same_witness :
  exists w' res' (loaded : gmap bytes (bytes * bytes)),
    migrateSwamp (HC := Stored.stored_codecs) (MR := MigratorSample.sorted_range) (VG := V1Sample.first_byte)
      MigratorSample.careful MigratorSample.folder (MigratorSample.v1_swamp, no_migration 1) = ((w', res'), Ok tt) /\
    load_file (HC := Stored.stored_codecs) (hyd_of MigratorSample.folder) w' = (w', Ok (fst <$> loaded, bs "s/r/n")) /\
    names_in MigratorSample.folder (files w') = [].
Proof.
  destruct (migration_reads_same (HC := Stored.stored_codecs) (HOk := Stored.stored_codecs_ok) (MR := MigratorSample.sorted_range)
    (MROk := MigratorSample.sorted_range_ok) (VG := V1Sample.first_byte) (FR := V1Sample.by_name) (FROk := fun _ _ => reflexivity _)
    MigratorSample.careful MigratorSample.folder MigratorSample.v1_swamp (no_migration 1) V1Sample.engine V1Sample.start_segs
    eq_refl MigratorSample.v1_swamp_holds V1Sample.start_coherent MigratorSample.sample_v1_data
    (MigratorSample.sample_migratable MigratorSample.v1_swamp eq_refl) eq_refl)
    as (w' & res' & loaded & _ & Hrun & Hload & _ & _ & Hdel).
  - exists [x01], [x01; x0a], V1Sample.old_file. apply V1Sample.start_stored. split; [reflexivity|]. split; [left|reflexivity].
  - exists w', res', loaded. split; [exact Hrun|]. split; [exact Hload|exact (Hdel eq_refl)].
Defined.
