(* ===== verification/ChroniclerProps.v ===== *)
(** Properties of the V2 chronicler. *)
From S2P Require Import Prelude Types Compressor Block FileSys Writer Reader Contents.
From S2P Require Import Log Session Compactor Compaction Chronicler Durability.

(** What a swamp does with its chronicler between loading and closing. *)
Inductive chron_op : Type :=
| DoWrite (live_now : Z) (ts : list saved_treasure)
| DoSync
| DoForceCompaction.

Definition op_entries (op : chron_op) : list Entry :=
  match op with DoWrite _ ts => treasure_entries ts | _ => [] end.

Section Chronicler.
Context `{HC : Codecs} `{HOk : !CodecsOk} `{MR : MapRange} `{MROk : !MapRangeOk}.
Context `{TC : TreasureCodec}.

Definition run_op (op : chron_op) : M (world * chroniclerV2) unit :=
  match op with
  | DoWrite live_now ts => Write live_now ts ;;; ret tt
  | DoSync => chronicler_Sync
  | DoForceCompaction => ForceCompaction
  end.

Fixpoint run_ops (ops : list chron_op) : M (world * chroniclerV2) unit :=
  match ops with
  | [] => ret tt
  | op :: ops => run_op op ;;; run_ops ops
  end.

Lemma run_op_acts op :
  Forall entry_ok (op_entries op) -> acts (run_op op) (apply_entries (op_entries op)).
Proof.
  intros He. destruct op as [live ts| |]; simpl in *.
  - apply (acts_bind _ _ _ (fun i => i)); [by apply Write_acts|intros; apply acts_ret].
  - apply chronicler_Sync_acts.
  - apply runCompactionLocked_acts.
Qed.

Lemma run_ops_acts ops :
  Forall entry_ok (concat (map op_entries ops)) ->
  acts (run_ops ops) (apply_entries (concat (map op_entries ops))).
Proof.
  induction ops as [|op ops IH]; intros He; [apply acts_ret|].
  cbn [map concat] in *. apply Forall_app in He as [Ho He]. intros w c index Hi.
  destruct (acts_bind (run_op op) (fun _ => run_ops ops) _ _ (run_op_acts op Ho)
    (fun _ => IH He) w c index Hi) as (w' & c' & a & E & Hi' & Hrest).
  exists w', c', a. rewrite apply_entries_app. done.
Qed.

(** C2: the chronicler keeps a swamp's data.  A chronicler whose file holds the log [log] is
    given any sequence of saves (with inline compactions whenever their thresholds are met),
    syncs and forced compactions and is closed; a new chronicler on the same path then loads,
    for every key, the treasure decoded from the last data saved for it, or nothing where it
    was deleted; no other file but the temporary one has changed. *)
Theorem chronicler_keeps_data (w : world) (c cn : chroniclerV2) (log : list Entry)
    (ops : list chron_op) (live : Z) :
  keeps_index w c (index_of log) -> Forall entry_ok (concat (map op_entries ops)) ->
  config cn = config c -> writer_open cn = false -> name_ok (c_swampName cn) ->
  destroyed cn = false ->
  exists w1 c1 w2 c2 loaded,
    (run_ops ops ;;; chronicler_Close live) (w, c) = ((w1, c1), Ok tt) /\
    Load (w1, cn) = ((w2, c2), Ok loaded) /\
    (forall k, default ∅ loaded !! k =
       live_value k (log ++ concat (map op_entries ops)) ≫= decodeTreasure) /\
    elsewhere c w w1.
Proof.
  intros Hi He Hcfg Hcl Hn Hal. set (es := concat (map op_entries ops)) in *.
  destruct (run_ops_acts ops He w c _ Hi) as (wa & ca & [] & Ea & Hia & Hca & Hea).
  destruct (close_writer_acts _ _ _ Hia) as (wb & cb & Eb & Hib & Hob & Hcb & Heb).
  destruct (maybeCompactInline_acts live wb cb _ Hib) as (w1 & c1 & [] & E1 & Hi1 & Hc1 & He1).
  assert (writer_open c1 = false) as Ho1.
  { pose proof (maybeCompactInline_stays_closed live (wb, cb) Hob) as Hm. by rewrite E1 in Hm. }
  assert (config c1 = config c) as Hcc by congruence.
  assert (keeps_index w1 cn (apply_entries es (index_of log))) as Hin
    by (apply (keeps_index_file w1 c1); congruence || done).
  destruct (Load_acts w1 cn _ Hin Hcl) as (w2 & c2 & r & E2 & _ & _ & _ & _ & -> & Hempty).
  exists w1, c1, w2, c2. eexists. split; [|split; [exact E2|split]].
  - rewrite (bind_run _ _ _ _ _ Ea). unfold chronicler_Close.
    by rewrite (bind_run _ _ _ _ _ Eb).
  - intros k. rewrite <-index_of_lookup, index_of_app. fold (apply_entries es (index_of log)).
    destruct (files w1 !! the_file cn); cbn [default]; [apply lookup_omap|].
    rewrite Hempty by done. by rewrite !lookup_empty.
  - eapply elsewhere_trans; [exact Hca|done|]. eapply elsewhere_trans; [exact Hcb|done|done].
Qed.

(** The inline compaction and its hysteresis.  After a save or at the close the chronicler
    compacts exactly when compaction is on, the live-count callback is there, the file has the
    minimum number of entries, the entries are at least twice the live keys and more, and the
    dead share exceeds the threshold; otherwise no file changes. *)
Theorem maybeCompactInline_runs_iff_due (w : world) (c : chroniclerV2) (live_now : Z) :
  exists f, maybeCompactInline live_now (w, c) =
    if inline_due live_now c then ignore runCompactionLocked (w, set_frag f c)
    else ((w, set_frag f c), Ok tt).
Proof. apply maybeCompactInline_due. Qed.

(** A forced compaction is not forced.  Below the default threshold of thirty percent
    [ForceCompaction] only closes the writer: with no writer open it reports success and leaves
    the file as it is. *)
Theorem ForceCompaction_respects_threshold (w : world) (c : chroniclerV2)
    (index : gmap bytes bytes) (name : bytes) (log : list Entry) :
  keeps_index w c index -> writer_open c = false -> stored_log w (the_file c) name log ->
  Forall entry_ok log -> name_ok (log_name name log) ->
  flt (log_frag log).1.1 (tenth 3) = true ->
  exists w', ForceCompaction (w, c) = ((w', c), Ok tt) /\
    files w' !! the_file c = files w !! the_file c.
Proof.
  intros Hi Ho Hst He Hn Hflt. unfold ForceCompaction, runCompactionLocked.
  rewrite (bind_run _ _ (w, c) (w, c) tt)
    by (unfold close_writer, bind, field, gets; cbn [snd]; by rewrite Ho).
  unfold bind at 1, field, gets. cbn [snd].
  destruct (cleanup_ok w (the_file c) (ki_faults _ _ _ Hi)) as (w2 & E2 & (Hf2 & Hk2 & Hq2) & Ht2).
  rewrite (bind_run _ _ (w, c) (w2, c) tt)
    by (unfold on_world; cbn [fst snd]; unfold the_file in E2; by rewrite E2).
  pose proof (Hq2 _ (not_eq_sym (temp_ne (the_file c)))) as Hsame.
  assert (stored_log w2 (the_file c) name log) as Hst2
    by (unfold stored_log, stored in *; by rewrite Hsame).
  assert (keeps_index w2 c index) as Hi2
    by (eapply keeps_world; [done|done|rewrite Hf2; apply Hi|done|done]).
  pose proof (compact_body_ok w2 (own_compactor c) name log []
    (chron_compactable _ _ _ _ _ Hi2 Hst2 He Hn Ht2)) as Hc. cbn zeta in Hc.
  rewrite own_threshold, Hflt in Hc.
  exists w2. split; [|done].
  erewrite (bind_run _ _ (w2, c) (w2, c)).
  2:{ unfold on_world. cbn [fst snd]. fold (the_file c). fold (own_compactor c).
      rewrite Compact_run, Hc by done. done. }
  done.
Qed.

(** Once destroyed a chronicler does not bring its file back: a save is ignored, whatever
    the state of the writer and of the file system. *)
Theorem Write_after_Destroy (w : world) (c : chroniclerV2) (live : Z) (ts : list saved_treasure) :
  let s := (Destroy (w, c)).1 in
  Write live ts s = (s, Ok None) /\
  (faults w = [] -> files s.1 !! the_file c = None).
Proof.
  cbn zeta. unfold Destroy, bind, change, modify, path, field, gets, on_world, ignore.
  cbn [fst snd]. split.
  - destruct (os_Remove _ w) as [w' r]. by apply Write_destroyed.
  - intros Hf. unfold os_Remove. rewrite os_call_ok by done.
    change (hydFilePath (config (set_destroyed c))) with (the_file c).
    destruct (files w !! the_file c) eqn:E; simpl; [apply lookup_delete_eq|done].
Qed.
End Chronicler.

(** ** Witnesses *)

Section Witnesses.
#[local] Existing Instance Stored.stored_codecs.
#[local] Existing Instance Stored.stored_codecs_ok.
#[local] Instance sample_range : MapRange := map_to_list.
#[local] Instance sample_range_ok : MapRangeOk.
Proof. by intros m. Qed.
#[local] Instance raw_treasures : TreasureCodec :=
  {| stored_treasure := bytes; LoadFromByte := Some |}.

Definition new_world : world := {| files := ∅; faults := []; clock := 1700000000000000000 |}.
Definition saved (k d : string) : saved_treasure :=
  {| t_key := bs k; t_deletedAt := 0; t_fileName := None; t_bytes := Some (bs d) |}.
Definition deleted (k : string) : saved_treasure :=
  {| t_key := bs k; t_deletedAt := 5; t_fileName := Some (bs "x.hyd"); t_bytes := None |}.

Definition sample_ops : list chron_op :=
  [DoWrite 2 [saved "alpha" "1"; saved "beta" "2"]; DoSync;
   DoWrite 1 [deleted "alpha"; saved "beta" "3"]; DoForceCompaction;
   DoWrite 2 [saved "gamma" "4"]].

Definition sample_chronicler : chroniclerV2 := NewV2WithName (bs "data/x") (bs "users/alice").

Lemma sample_keeps : keeps_index new_world sample_chronicler (index_of []).
Proof.
  constructor; try done.
  - exists [], []. split_and!; [by left|constructor|by vm_compute|done].
Qed.

#[local] Instance entry_ok_decision e : Decision (entry_ok e).
Proof. unfold entry_ok. apply _. Defined.

Lemma chronicler_keeps_data_witness :
  exists w1 c1 w2 c2 loaded,
    (run_ops sample_ops ;;; chronicler_Close 2) (new_world, sample_chronicler) = ((w1, c1), Ok tt) /\
    Load (w1, NewV2 (bs "data/x")) = ((w2, c2), Ok loaded) /\
    default ∅ loaded !! bs "alpha" = None /\
    default ∅ loaded !! bs "beta" = Some (bs "3").
Proof.
  destruct (chronicler_keeps_data new_world sample_chronicler (NewV2 (bs "data/x")) [] sample_ops 2
    sample_keeps) as (w1 & c1 & w2 & c2 & loaded & E1 & E2 & Hl & _);
    [apply (bool_decide_unpack _); vm_compute; exact I|reflexivity|reflexivity|vm_compute; reflexivity
    |reflexivity|].
  exists w1, c1, w2, c2, loaded.
  split; [exact E1|split; [exact E2|]]. rewrite !Hl. split; vm_compute; reflexivity.
Defined.

(** A file of one block and three live keys, not fragmented at all. *)
Definition tidy_log : list Entry :=
  [{| Operation := OpInsert; Key := bs "a"; Data := bs "1" |};
   {| Operation := OpInsert; Key := bs "b"; Data := bs "2" |}].

Lemma ForceCompaction_respects_threshold_witness :
  exists w w', ForceCompaction (w, sample_chronicler) = ((w', sample_chronicler), Ok tt) /\
    is_Some (files w !! the_file sample_chronicler).
Proof.
  destruct (write_session_ok new_world (the_file sample_chronicler) 0 (bs "users/alice") []
    (map CWriteEntry tidy_log)) as (w & E & Hon & Hl);
    [reflexivity|split; vm_compute; congruence|discriminate|vm_compute; reflexivity
    |split; vm_compute; congruence|by left|apply (bool_decide_unpack _); vm_compute; exact I|].
  assert (keeps_index w sample_chronicler (index_of tidy_log)) as Hk.
  { destruct Hon as (Hf & Hc & _). clear E. destruct sample_keeps.
    constructor; [exact Hf|rewrite Hc; assumption|assumption|assumption|assumption|assumption|].
    exists (bs "users/alice"), tidy_log.
    split; [right; exact Hl|split; [|split; [vm_compute; reflexivity|reflexivity]]].
    apply (bool_decide_unpack _); vm_compute; exact I. }
  destruct (ForceCompaction_respects_threshold w sample_chronicler _ (bs "users/alice") tidy_log Hk)
    as (w' & E' & Hsame);
    [reflexivity|exact Hl|apply (bool_decide_unpack _); vm_compute; exact I
    |vm_compute; reflexivity|vm_compute; reflexivity|].
  exists w, w'. split; [exact E'|]. destruct Hl as (bss & (ct & h & Hct & _) & _). by exists ct.
Defined.

Lemma Write_after_Destroy_witness :
  files (Destroy (new_world, sample_chronicler)).1.1 !! the_file sample_chronicler = None.
Proof.
  apply (Write_after_Destroy new_world sample_chronicler 0 []). reflexivity.
Defined.
End Witnesses.
