(* ===== verification/ConcurrencyProps.v ===== *)
(** Properties of the business lock, the treasure guard and the vigil counter.

    The three models have identifiers of their own; they are named in full here. *)
From S2P Require Import Prelude Steps Lock Guard Vigil.

(** ** The business lock *)

(** C19: in every interleaving, of the callers of a key that have not been removed at most one
    has the lock; it is the head of the queue, and everybody who called before it has been
    removed. *)
Theorem Lock_exclusive_in_call_order s key a b ca cb :
  reachable Lock.lock_step Lock.New s ->
  callers s !! a = Some ca -> c_key ca = key -> c_phase ca = Lock.Holding -> c_done ca = false ->
  callers s !! b = Some cb -> c_key cb = key -> c_done cb = false ->
  (head (getQueue key s) = Some a) /\
  (c_phase cb = Lock.Holding -> b = a) /\
  (forall l1 l2, arrivals s = l1 ++ (key, a) :: l2 ->
     ((key, b) ∉ l1) /\ forall i, (key, i) ∈ l1 -> Lock.alive (callers s) i = false).
Proof.
  intros Hr%reachable_ok Ha Hka Hpa Hda Hb Hkb Hdb.
  assert (Hin : a ∈ getQueue key s) by (apply (Lock.queue_elem s); eauto).
  assert (Hinb : b ∈ getQueue key s) by (apply (Lock.queue_elem s); eauto).
  assert (Hh : head (getQueue key s) = Some a).
  { apply (lo_ready s Hr key a Hin). unfold is_ready. rewrite Ha. by apply (lo_caller s Hr a). }
  split_and!; [done|..].
  - intros Hpb. enough (head (getQueue key s) = Some b) by congruence.
    apply (lo_ready s Hr key b Hinb). unfold is_ready. rewrite Hb. by apply (lo_caller s Hr b).
  - intros l1 l2 Harr. assert (Hpre := head_preceded key a s l1 l2 Hr Hh Harr). split; [|done].
    intros Hbl. apply Hpre in Hbl. unfold alive in Hbl. by rewrite Hb, Hdb in Hbl.
Qed.

Definition two_callers : list Lock.event :=
  [ECall (bs "k") (bs "a"); ECall (bs "k") (bs "b"); EReady (bs "a")].
Definition two_callers_state : lock :=
  match run lock_step two_callers Lock.New with Next s => s | _ => Lock.New end.

Lemma two_callers_reachable : reachable lock_step Lock.New two_callers_state.
Proof.
  apply (run_reachable lock_step Lock.New two_callers Lock.New); [constructor|].
  vm_compute. reflexivity.
Qed.

Lemma Lock_exclusive_in_call_order_witness :
  head (getQueue (bs "k") two_callers_state) = Some (bs "a").
Proof.
  refine (proj1 (Lock_exclusive_in_call_order two_callers_state (bs "k") (bs "a") (bs "b") _ _
    two_callers_reachable _ _ _ _ _ _ _)); [vm_compute; reflexivity..].
Defined.

(** In every interleaving no channel is closed twice, and [Unlock] succeeds exactly for a
    caller of the key that has not been removed: it takes that caller and no other out of the
    queue, leaves the other keys alone, and reports an error when called again. *)
Theorem Unlock_removes_once s e key id :
  reachable Lock.lock_step Lock.New s ->
  Lock.lock_step e s <> Panic /\
  exists s' b, Lock.Unlock key id s = Some (s', b) /\
    (b = true <-> exists c, callers s !! id = Some c /\ c_key c = key /\ c_done c = false) /\
    getQueue key s' = filter (fun i => i <> id) (getQueue key s) /\
    (forall k, k <> key -> getQueue k s' = getQueue k s) /\
    Lock.Unlock key id s' = Some (s', false).
Proof.
  intros Hr%reachable_ok. split.
  { pose proof (lock_step_ok e s Hr) as Hok. by intros Hp; rewrite Hp in Hok. }
  rewrite Unlock_remove. destruct (decide (id ∈ getQueue key s)) as [Hin|Hn].
  - exists (left_state key id s), true. rewrite remove_found by done. split_and!.
    + done.
    + split; [intros _|done]. by apply (Lock.queue_elem s).
    + rewrite left_queue. by rewrite decide_True.
    + intros k Hk. rewrite left_queue. by rewrite decide_False.
    + rewrite Unlock_remove. apply remove_missing.
      rewrite left_queue, decide_True by done. rewrite list_elem_of_filter. by intros [? _].
  - exists s, false. rewrite remove_missing by done. split_and!; [done| |by rewrite Lock.filter_ne|done|].
    + split; [done|]. intros Hc. apply (Lock.queue_elem s) in Hc; done.
    + rewrite Unlock_remove. by apply remove_missing.
Qed.

Lemma Unlock_removes_once_witness : exists s' b, Lock.Unlock (bs "k") (bs "a") two_callers_state = Some (s', b).
Proof.
  destruct (Unlock_removes_once two_callers_state (ETimer (bs "a")) (bs "k") (bs "a")
    two_callers_reachable) as [_ (s' & b & Hu & _)].
  exists s', b. exact Hu.
Defined.

(** C27: nobody waits for ever on a holder that never unlocks: from every reachable state the
    waiting callers and the timers alone, in at most three steps each, empty the queue. *)
Theorem Lock_queue_drains s key :
  reachable Lock.lock_step Lock.New s ->
  exists es s', run Lock.lock_step es s = Next s' /\ getQueue key s' = [] /\
    (length es <= 3 * length (getQueue key s))%nat /\
    Forall (fun e => event_id e ∈ getQueue key s /\ unaided e = true) es.
Proof. intros Hr%reachable_ok. by apply queue_drains. Qed.

Lemma Lock_queue_drains_witness :
  exists es s', run lock_step es two_callers_state = Next s' /\ getQueue (bs "k") s' = [].
Proof.
  destruct (Lock_queue_drains two_callers_state (bs "k") two_callers_reachable)
    as (es & s' & Hr & Hq & _). exists es, s'. split; assumption.
Defined.

(** ** The guard of a treasure *)

(** C5: as long as every goroutine releases only the identifier it holds, once, no section panics;
    the holder is the first of the queue, it may execute, and everybody else holds a larger
    identifier, given after its own, and waits; and if somebody is queued, the first of the
    queue holds the guard or has been woken and gets it when it looks: no wake-up is lost.
    ([stale_release_breaks_exclusion] is what a second release does.) *)
Theorem guard_exclusive_in_order es s :
  Forall Guard.disciplined es -> Z.of_nat (length es) < 2 ^ 63 - 1 ->
  run Guard.guard_step es Guard.init = Next s ->
  (forall e, Guard.disciplined e -> Guard.guard_step e s <> Panic) /\
  (forall t g, threads s !! t = Some (Guard.Holding g) ->
     Guard.CanExecute g false (sys_guard s) = Some true /\
     forall t' th, t' <> t -> threads s !! t' = Some th ->
       g < thread_id th /\ th <> Guard.Holding (thread_id th)) /\
  (forall g q, waitForUnlock (sys_guard s) = g :: q ->
     exists t, threads s !! t = Some (Guard.Holding g) \/
       threads s !! t = Some (Guard.Woken g) /\
       exists s', Guard.guard_step (Guard.EWake t) s = Next s' /\ threads s' !! t = Some (Guard.Holding g)).
Proof.
  intros Hd Hn Hr. pose proof (run_init_ok es s Hd ltac:(lia) Hr) as Hs. split_and!.
  - intros e He. pose proof (guard_step_ok _ e s He Hn Hs) as Hok. by intros Hp; rewrite Hp in Hok.
  - intros t g Ht. pose proof (gi_holding _ _ _ _ Hs t g Ht) as Hh.
    destruct (waitForUnlock (sys_guard s)) as [|a q] eqn:Hq; [done|]. injection Hh as ->. split.
    + unfold CanExecute, is_first. rewrite Hq. cbn. by rewrite bool_decide_true.
    + intros t' th Hne Ht'.
      assert (thread_id th ∈ waitForUnlock (sys_guard s)) as Hin
        by (apply (gi_threads _ _ _ _ Hs); eauto).
      rewrite Hq in Hin. apply elem_of_cons in Hin as [He|Hin].
      { destruct Hne. by apply (gi_inj _ _ _ _ Hs t' t th (Guard.Holding g)). }
      pose proof (gi_sorted _ _ _ _ Hs) as Hsort. rewrite Hq in Hsort.
      pose proof (sorted_head_lt g q _ Hsort Hin) as Hlt. split; [done|]. intros Hth.
      rewrite Hth in Ht'. apply (gi_holding _ _ _ _ Hs) in Ht'. rewrite Hq in Ht'.
      injection Ht' as ?. lia.
  - intros g q Hq. assert (g ∈ waitForUnlock (sys_guard s)) as Hin by (rewrite Hq; set_solver).
    apply (gi_threads _ _ _ _ Hs) in Hin as (t & [g'|g'|g'] & Ht & [= ->]); exists t.
    + apply (gi_asleep _ _ _ _ Hs) in Ht. by rewrite Hq in Ht.
    + right. split; [done|]. cbn. rewrite Ht, (look_first g _ _ t g q Hq), Hq, decide_True by done.
      eexists. split; [done|]. cbn. by rewrite lookup_insert_eq.
    + by left.
Qed.

Definition two_goroutines : list Guard.event :=
  [EStart 1 true None; EStart 2 true None; EStart 3 false None; ERelease 1].
Definition two_goroutines_state : system :=
  match run guard_step two_goroutines init with Next s => s | _ => init end.

Lemma guard_exclusive_in_order_witness :
  guard_step (ERelease 2) two_goroutines_state <> Panic.
Proof.
  refine (proj1 (guard_exclusive_in_order two_goroutines two_goroutines_state _ _ _) (ERelease 2) I).
  - repeat constructor.
  - vm_compute. reflexivity.
  - vm_compute. reflexivity.
Defined.

(** Identifiers come back when the queue has been empty, so releasing one twice frees a
    later holder: two goroutines then hold the guard at once, under the same identifier. *)
Theorem stale_release_breaks_exclusion (t1 t2 t3 : nat) (a1 a2 a3 : option bytes) (w1 w2 w3 : bool) :
  t2 <> t3 ->
  exists s, run Guard.guard_step
      [EStart t1 w1 a1; ERelease t1; EStart t2 w2 a2; EStray 1; EStart t3 w3 a3] init = Next s /\
    threads s !! t2 = Some (Guard.Holding 1) /\ threads s !! t3 = Some (Guard.Holding 1).
Proof.
  intros Hne. cbn [run].
  destruct (start_fresh t1 w1 a1 init) as (s1 & -> & Ht1 & Hq1); [done..|].
  cbn [guard_step]. rewrite Ht1. cbn [threads init]. rewrite lookup_insert_eq.
  rewrite (delete_insert_id ∅ t1) by done.
  destruct (release_last (sys_guard s1) ∅ Hq1) as [Hf2 Ht2]. rewrite fmap_empty in Ht2.
  destruct (start_fresh t2 w2 a2 _ Hf2) as (s3 & Hs3 & Ht3 & Hq3); [by rewrite Ht2|].
  cbn [guard_step] in Hs3. rewrite Hs3. rewrite Ht2 in Ht3.
  destruct (release_last (sys_guard s3) (threads s3) Hq3) as [Hf4 Ht4]. rewrite Ht3 in Ht4.
  assert (Ht4' : threads (release 1 (sys_guard s3) (threads s3)) = <[t2 := Guard.Holding 1]> ∅).
  { rewrite Ht3 in *. rewrite Ht4, fmap_insert, fmap_empty. done. }
  destruct (start_fresh t3 w3 a3 _ Hf4) as (s5 & Hs5 & Ht5 & _).
  { rewrite Ht4'. by rewrite lookup_insert_ne. }
  cbn [guard_step] in Hs5. rewrite Hs5. exists s5. split; [done|].
  rewrite Ht5, Ht4'. rewrite lookup_insert_ne, !lookup_insert_eq by done. done.
Qed.

Lemma stale_release_breaks_exclusion_witness :
  exists s, threads s !! 2%nat = Some (Guard.Holding 1) /\ threads s !! 3%nat = Some (Guard.Holding 1).
Proof.
  destruct (stale_release_breaks_exclusion 1 2 3 None None None true true true ltac:(lia)) as (s & _ & Hs).
  exists s. exact Hs.
Defined.

(** [CanExecute] refuses a body function when the identifier of the guard is not the one
    for bodies, panics on an empty queue and otherwise tells whether the caller is first; and
    the permission outlives its holder: once set, it stays for every later one, whether it
    asked for it or not. *)
Theorem CanExecute_permission_is_sticky es s s' :
  bodyAuthID (sys_guard s) = BodyAuthID ->
  Forall (fun e => forall t w a, e = EStart t w (Some a) -> a = BodyAuthID) es ->
  run Guard.guard_step es s = Next s' ->
  forall gID, Guard.CanExecute gID true (sys_guard s') = is_first gID (sys_guard s') /\
    (is_first gID (sys_guard s') = None <-> waitForUnlock (sys_guard s') = []) /\
    (is_first gID (sys_guard s') = Some true <-> head (waitForUnlock (sys_guard s')) = Some gID).
Proof.
  intros Ha He Hr gID.
  assert (Ha' : bodyAuthID (sys_guard s') = BodyAuthID).
  { eapply (run_inv guard_step _ (fun s => bodyAuthID (sys_guard s) = BodyAuthID)); [|done..].
    intros e s1 s2 He1 Ha1. by apply step_auth. }
  unfold CanExecute, is_first. rewrite Ha', bool_decide_true by done. cbn [negb andb].
  destruct (waitForUnlock (sys_guard s')) as [|x q]; cbn; [done|].
  split_and!; [done..|]. destruct (bool_decide_reflect (x = gID)); naive_solver.
Qed.

Definition body_then_other : list Guard.event :=
  [EStart 1 true (Some BodyAuthID); ERelease 1; EStart 2 true None].
Definition after_body : system :=
  match run guard_step (take 1 body_then_other) init with Next s => s | _ => init end.
Definition after_other : system :=
  match run guard_step body_then_other init with Next s => s | _ => init end.

Lemma CanExecute_permission_is_sticky_witness : Guard.CanExecute 1 true (sys_guard after_other) = Some true.
Proof.
  refine (eq_trans (proj1 (CanExecute_permission_is_sticky (drop 1 body_then_other) after_body after_other
    _ _ _ 1)) _).
  - vm_compute. reflexivity.
  - apply Forall_forall. intros e He t w a ->. exfalso.
    unfold body_then_other in He. cbn in He. repeat (apply elem_of_cons in He as [He|He]; [discriminate He|]).
    by apply not_elem_of_nil in He.
  - vm_compute. reflexivity.
  - vm_compute. reflexivity.
Defined.

(** ** The vigil counter *)

(** The last operation may end between a waiter's look at the counter and its sleep, and
    then nobody wakes the waiter: no operation runs and none is ending, and it sleeps on
    until a later [CeaseVigil]. *)
Theorem vigil_lost_wakeup t :
  exists v, run Vigil.vigil_step [EBegin; EEnter t; ECease; EBroadcast; ESleep t] Vigil.New = Next v /\
    vigils v = 0 /\ HasActiveVigils v = false /\ ceasing v = O /\
    forall es v', Forall (fun e => e <> ECease) es -> run Vigil.vigil_step es v = Next v' ->
      waiters v' !! t = Some Vigil.Asleep.
Proof.
  eexists. split_and!; [apply ends_before_sleep|reflexivity..|].
  intros es v' Hes Hr. refine (proj1 (asleep_until_cease t es _ v' Hes _ _ Hr)); [|reflexivity].
  cbn. by rewrite lookup_insert_eq.
Qed.

Lemma vigil_lost_wakeup_witness :
  exists v, run Vigil.vigil_step [EBegin; EEnter 7; ECease; EBroadcast; ESleep 7] Vigil.New = Next v /\
    HasActiveVigils v = false /\
    forall v', run Vigil.vigil_step [EBegin] v = Next v' -> waiters v' !! 7%nat = Some Vigil.Asleep.
Proof.
  destruct (vigil_lost_wakeup 7) as (v & Hr & _ & Hz & _ & Hs). exists v.
  split; [exact Hr|]. split; [exact Hz|]. intros v'. apply (Hs [EBegin] v'). by repeat constructor.
Defined.

(** C28: [WaitForActiveVigilsClosed] returns only when no operation runs; and when no
    operation ends between a look and the sleep after it, a waiter that sleeps while no
    operation runs is about to be woken by an operation that is ending. *)
Theorem vigil_waits_for_operations es v t :
  Z.of_nat (length es) < 2 ^ 63 -> run Vigil.serial_step es Vigil.New = Next v ->
  (waiters v !! t = Some Vigil.Asleep -> HasActiveVigils v = false ->
     exists v', Vigil.vigil_step EBroadcast v = Next v' /\ waiters v' !! t = Some Vigil.Woken) /\
  (forall u e v', waiters u !! t <> Some Returned -> Vigil.vigil_step e u = Next v' ->
     waiters v' !! t = Some Returned -> HasActiveVigils u = false).
Proof.
  intros Hn Hr. pose proof (serial_run_ok es 0 Vigil.New v ltac:(lia) ltac:(lia) Vigil.New_vigil_ok Hr) as Hv. split.
  - intros Ht Hz. unfold HasActiveVigils in Hz. apply bool_decide_eq_false in Hz.
    destruct (vo_asleep _ v Hv t Ht) as [Ha|Hc]; [done|]. cbn. rewrite decide_False by lia.
    eexists. split; [done|]. cbn. by rewrite lookup_fmap, Ht.
  - clear. intros u e v' Hnr Hst Ht'.
    assert (Hlook : forall t', waiters (Vigil.look t' u) !! t = Some Returned -> HasActiveVigils u = false).
    { intros t' Hl. unfold Vigil.look in Hl. destruct (HasActiveVigils u); [|done].
      cbn in Hl. apply lookup_insert_Some in Hl as [[_ Hl]|[_ Hl]]; done. }
    destruct e as [| | |t'|t'|t']; cbn in Hst.
    + by simplify_eq.
    + by simplify_eq.
    + destruct (decide _); [done|]. simplify_eq. cbn in Ht'. rewrite lookup_fmap in Ht'.
      by destruct (waiters u !! t) as [[]|].
    + destruct (waiters u !! t'), (mu u); simplify_eq. by eapply Hlook.
    + destruct (waiters u !! t') as [[]|]; simplify_eq. cbn in Ht'.
      apply lookup_insert_Some in Ht' as [[_ Hl]|[_ Hl]]; done.
    + destruct (waiters u !! t') as [[]|], (mu u); simplify_eq; by eapply Hlook.
Qed.

Definition serial_wait : list Vigil.event := [EBegin; EEnter 7; ESleep 7; ECease].
Definition serial_wait_state : vigil :=
  match run serial_step serial_wait Vigil.New with Next v => v | _ => Vigil.New end.

Lemma vigil_waits_for_operations_witness :
  exists v', Vigil.vigil_step EBroadcast serial_wait_state = Next v' /\
    waiters v' !! 7%nat = Some Vigil.Woken.
Proof.
  refine (proj1 (vigil_waits_for_operations serial_wait serial_wait_state 7 _ _) _ _);
    vm_compute; reflexivity.
Defined.
