(* ===== verification/BeaconProps.v ===== *)
(** Properties of the beacon: the two views, shifts and quotas, windows, the patch cycle, and
    filtering in place; and of treasures: contents, slices of numbers, and what the guard protects. *)
From Stdlib Require Import Sorting.Sorted Floats.SpecFloat.
From S2P Require Import Prelude Steps Guard Treasure Beacon Views Windows.
#[local] Set Warnings "-clear-no-such-hyp".

(** ** Concrete map order and sort *)

#[export] Instance list_order : KeyRange := fun m => map_to_list m.
#[export] Instance list_order_ok : KeyRangeOk.
Proof. intros m. reflexivity. Qed.

#[export] Instance insertion_sort : SortSlice := fun less l => sort_stable less [] l.

#[export] Instance insertion_sort_ok : SortSliceOk := stable_sort_ok.

(** ** A small beacon *)

Definition named (key : string) (exp : Z) : treasure := put_ExpirationTime exp (put_Key (bs key) Treasure.New).
Definition objects (l : loc) : treasure :=
  match l with
  | 0%nat => named "a" 30 | 1%nat => named "b" 10 | 2%nat => named "c" 20 | 3%nat => named "d" 0
  | _ => named "e" 40
  end.

Definition sample_ops : list ((loc -> treasure) * op) :=
  map (pair objects) [OOrdered true; OAdd 0%nat; OAdd 1%nat; OAdd 2%nat; OAdd 3%nat;
    OSortTime false false ByExpirationTimeAsc GetExpirationTime].
Definition sample : beacon := foldl (fun b o => apply o.1 o.2 b) Beacon.New sample_ops.

Lemma sample_runs : runs (fun l => GetKey (objects l)) sample_ops Beacon.New sample.
Proof. repeat (constructor; [intros l; reflexivity|exact I|]). constructor. Qed.

Section Props.
Context `{HR : KeyRange} `{HROk : !KeyRangeOk} `{HS : SortSlice} `{HSOk : !SortSliceOk}.

(** C6: through every sequence of the operations of [op], which add, delete, shift, push, sort, clone
    or reset, with the objects changing in between as long as their keys do not, the map files
    every treasure under its key, and the slice of an ordered beacon holds exactly the
    treasures of the map, each once.  What is pushed as a map has to be filed under its keys and be
    new.  The selection of expired treasures for a patch, which takes them out of the slice until
    they are given back, and filtering with removal are no operations of [op]. *)
Theorem beacon_views_agree (key : loc -> bytes) ops b :
  runs key ops Beacon.New b ->
  (forall k l, treasuresByKeys b !! k = Some l -> key l = k) /\
  (isOrdered b = true -> NoDup (treasuresByOrder b) /\
     (treasuresByOrder b ≡ₚ (map_to_list (treasuresByKeys b)).*2) /\
     (Beacon.Count b).2 = Z.of_nat (length (treasuresByOrder b))) /\
  (isOrdered b = false -> treasuresByOrder b = []).
Proof.
  intros Hr%runs_ok; [|apply views_new]. destruct Hr as [Hk Hn Ho]. split_and!; [done|..].
  - intros Hord. assert (Hperm : treasuresByOrder b ≡ₚ (map_to_list (treasuresByKeys b)).*2).
    { destruct (range_values (HR := list_order) key (treasuresByKeys b) Hk) as [Hnd Hel].
      apply NoDup_Permutation; [done|done|]. intros x. rewrite Ho. rewrite (Hel x). tauto. }
    split_and!; [done..|]. cbn. rewrite Hperm, length_fmap, length_map_to_list. done.
  - intros Hord. destruct (treasuresByOrder b) as [|x l] eqn:Hl; [done|].
    assert (Hx : x ∈ x :: l) by set_solver. apply Ho in Hx as [Hx _]. congruence.
Qed.
(** [ShiftMatching] returns copies of the first matches of the ordered slice, as many as
    asked for and as the cap leaves, takes them out of both views and nothing else; a count of
    the cap's treasures plus what it returns never exceeds the cap; and it reports the cap as
    reached when the cap is used up, when the rest of it is smaller than the number asked for
    (however few matches there are), or when there are more matches than it took. *)
Theorem ShiftMatching_takes_first (deref : loc -> treasure) key n (p : loc -> bool) cap capMax b :
  keys_stable key deref -> views_ok key b -> 0 < n ->
  let budget := match cap with Some q => capMax - count_matching q (treasuresByKeys b) | None => n end in
  let taken := take (Z.to_nat (Z.min n budget)) (filter (fun x => p x) (treasuresByOrder b)) in
  exists b' capReached,
    ShiftMatching deref n (Some p) cap capMax b = (b', map (fun x => copy (deref x)) taken, capReached) /\
    filter (fun x => p x) (treasuresByOrder b') =
      drop (Z.to_nat (Z.min n budget)) (filter (fun x => p x) (treasuresByOrder b)) /\
    filter (fun x => negb (p x)) (treasuresByOrder b') = filter (fun x => negb (p x)) (treasuresByOrder b) /\
    (forall k x, treasuresByKeys b' !! k = Some x <-> treasuresByKeys b !! k = Some x /\ x ∉ taken) /\
    (forall q, cap = Some q -> 0 < budget ->
       count_matching q (treasuresByKeys b) + Z.of_nat (length taken) <= capMax) /\
    (capReached = true <-> is_some cap = true /\
       (budget < n \/ budget < Z.of_nat (length (filter (fun x => p x) (treasuresByOrder b))) \/
        n < Z.of_nat (length (filter (fun x => p x) (treasuresByOrder b))))).
Proof.
  intros Hkey Hb Hn budget taken.
  assert (Hkeys : forall eff t r bey, shift_loop p eff 0 (treasuresByOrder b) = (t, r, bey) ->
    forall k x, delete_all deref t (treasuresByKeys b) !! k = Some x <-> treasuresByKeys b !! k = Some x /\ x ∉ t).
  { intros eff t r bey Hs k x. destruct (shift_loop_spec _ _ _ _ _ _ _ Hs) as (_ & _ & _ & _ & Hperm & _).
    rewrite (delete_all_Some key deref Hkey). split.
    - intros [Hk Hx]. split; [done|]. intros Hin. apply Hk. apply list_elem_of_fmap.
      exists x. split; [|done]. symmetry. by apply (vo_keys key b Hb).
    - intros [Hx Hnt]. split; [|done]. intros Hin. apply list_elem_of_fmap in Hin as (y & -> & Hy).
      assert (Hyo : y ∈ treasuresByOrder b) by (rewrite <- Hperm; apply elem_of_app; by left).
      apply (vo_order key b Hb) in Hyo as [_ Hyo]. apply Hnt. congruence. }
  assert (Hshift : forall eff bounded, Z.min n budget = eff -> 0 < eff ->
    cap_budget cap capMax n (touch b) = Some (eff, bounded) ->
    (bounded = true <-> is_some cap = true /\ budget < n) ->
    exists b' capReached, ShiftMatching deref n (Some p) cap capMax b =
      (b', map (fun x => copy (deref x)) taken, capReached) /\
      filter (fun x => p x) (treasuresByOrder b') = drop (Z.to_nat eff) (filter (fun x => p x) (treasuresByOrder b)) /\
      filter (fun x => negb (p x)) (treasuresByOrder b') = filter (fun x => negb (p x)) (treasuresByOrder b) /\
      (forall k x, treasuresByKeys b' !! k = Some x <-> treasuresByKeys b !! k = Some x /\ x ∉ taken) /\
      (capReached = true <-> is_some cap = true /\
         (budget < n \/ eff < Z.of_nat (length (filter (fun x => p x) (treasuresByOrder b)))))).
  { intros eff bounded Heff Hpos Hcap Hbd. unfold ShiftMatching.
    rewrite (proj2 (Z.leb_gt n 0)) by lia. rewrite Hcap. unfold shift. cbn [treasuresByOrder treasuresByKeys touch].
    destruct (shift_loop p eff 0 (treasuresByOrder b)) as [[t r] bey] eqn:Hs.
    destruct (shift_loop_spec _ _ _ _ _ _ _ Hs) as (Ht & Hr & Hnr & _ & _ & Hbey).
    rewrite Z.sub_0_r in Ht, Hr. assert (Htk : t = taken) by (unfold taken; by rewrite Heff).
    eexists _, _. split; [by rewrite <- Htk|]. split_and!; [done..| |].
    - intros k x. rewrite <- Htk. by apply (Hkeys eff t r bey).
    - unfold cap_reached. rewrite orb_true_iff, andb_true_iff, Z.ltb_lt, Hbd, Hbey, Hr, length_drop.
      set (k := length _). assert (Hn' : 0 < Z.of_nat (k - Z.to_nat eff) <-> eff < Z.of_nat k) by lia.
      rewrite Hn'. tauto. }
  unfold cap_budget in Hshift. cbn [treasuresByKeys touch] in Hshift. destruct cap as [q|]; fold budget in Hshift.
  - destruct (Z.leb_spec budget 0) as [Hz|Hz].
    + clear Hshift. exists (touch b), true. unfold taken. replace (Z.to_nat (Z.min n budget)) with O by lia.
      split_and!; cbn [treasuresByOrder treasuresByKeys touch].
      * unfold ShiftMatching, cap_budget. rewrite (proj2 (Z.leb_gt n 0)) by lia.
        cbn [treasuresByKeys touch]. fold budget. by rewrite (proj2 (Z.leb_le budget 0)) by lia.
      * by rewrite drop_0.
      * done.
      * intros k x. split; [intros Hx; split; [done|apply not_elem_of_nil]|by intros [? _]].
      * intros q' _. lia.
      * split; [intros _; split; [done|left; lia]|done].
    + destruct (Z.ltb_spec budget n) as [Hlt|Hge].
      * destruct (Hshift budget true) as (b' & cr & H1' & H2' & H3' & H4' & H5'); [lia..|done|done|].
        exists b', cr. replace (Z.min n budget) with budget in * by lia.
        split_and!; [done..| |rewrite H5'; cbn; intuition lia].
        intros q' [= <-] _. unfold taken. rewrite length_take. lia.
      * destruct (Hshift n false) as (b' & cr & H1' & H2' & H3' & H4' & H5'); [lia..|done|split; [done|lia]|].
        exists b', cr. replace (Z.min n budget) with n in * by lia.
        split_and!; [done..| |rewrite H5'; cbn; intuition lia].
        intros q' [= <-] _. unfold taken. rewrite length_take. lia.
  - destruct (Hshift n false) as (b' & cr & H1' & H2' & H3' & H4' & H5'); [lia..|done|by split; [|intros [? _]]|].
    exists b', cr. replace (Z.min n budget) with n in * by lia.
    split_and!; [done..|rewrite H5'; cbn; intuition lia].
Qed.

(** C20: from a beacon that was sorted by any of the six time orders, [GetManyFromOrderPosition] with a
    position and a limit that are not negative returns the page of the treasures whose time lies in
    the half-open window, in order; the sort only rearranged them.  A start beyond the treasures of
    the window is an empty page and no error; a negative start reads before the slice and
    panics. *)
Theorem GetMany_returns_window (deref : loc -> treasure) o b b' pos :
  sort_for deref o b = (b', true) ->
  0 <= From pos -> 0 <= Limit pos ->
  From pos + Limit pos + Z.of_nat (length (treasuresByOrder b)) < 2 ^ 63 ->
  treasuresByOrder b' ≡ₚ treasuresByOrder b /\
  (forall i j x y, (i < j)%nat -> treasuresByOrder b' !! i = Some x -> treasuresByOrder b' !! j = Some y ->
     let ts := getTimestampFromTreasure deref b' in if isAscending b' then ts x <= ts y else ts y <= ts x) /\
  (GetManyFromOrderPosition deref pos b').2 =
    Some (Some (page pos (filter (fun x => in_window b' deref (FromTime pos) (ToTime pos) x) (treasuresByOrder b')))) /\
  (Z.of_nat (length (filter (fun x => in_window b' deref (FromTime pos) (ToTime pos) x) (treasuresByOrder b'))) <= From pos ->
     (GetManyFromOrderPosition deref pos b').2 = Some (Some [])) /\
  (treasuresByOrder b <> [] -> forall n, - 2 ^ 62 < n < 0 ->
     (GetManyFromOrderPosition deref {| From := n; Limit := 1; FromTime := None; ToTime := None |} b').2 = None).
Proof.
  intros Hs Hf Hl Hlen. destruct (sort_for_ordered deref o b b' Hs) as (Ho & _ & _ & Hperm & Hord).
  assert ((GetManyFromOrderPosition deref pos b').2 =
    Some (Some (page pos (filter (fun x => in_window b' deref (FromTime pos) (ToTime pos) x) (treasuresByOrder b'))))) as Hp
    by (apply GetMany_window; try done; by rewrite Hperm).
  split_and!; [done|exact Hord|exact Hp| |].
  - intros Hbeyond. rewrite Hp. unfold page. rewrite drop_ge, take_nil by lia. by destruct (_ =? _).
  - intros Hne n Hn. apply GetMany_negative; [done| |done]. intros Heq. apply Hne.
    rewrite Heq in Hperm. by apply Permutation_nil in Hperm.
Qed.


(** The patch cycle.  Selecting expired treasures returns the first ones that are
    candidates, within the limit and the cap, and takes them out of the slice but not out of
    the map, so no second selection returns one of them; giving back the treasures selected,
    with the times they have by then, restores each once, except those that no longer expire,
    and leaves the map alone; and after a selection that found any the slice is sorted by the
    new times. *)
Theorem patch_cycle (deref deref' : loc -> treasure) key n p now cap capMax b b1 selected capReached :
  keys_stable key deref -> keys_stable key deref' -> views_ok key b -> isOrdered b = true ->
  SelectExpiredForPatchWithCap deref n p cap capMax now b = (b1, selected, capReached) ->
  let candidate x := expired deref now x && match p with None => true | Some f => f x end in
  let b2 := ReindexExpiration deref' selected b1 in
  (exists m, selected = take m (filter (fun x => candidate x) (treasuresByOrder b)) /\ (0 < n -> (m <= Z.to_nat n)%nat)) /\
  (treasuresByKeys b1 = treasuresByKeys b /\ treasuresByKeys b2 = treasuresByKeys b) /\
  (forall n' p' now' cap' capMax' deref'' b3 selected' capReached',
     SelectExpiredForPatchWithCap deref'' n' p' cap' capMax' now' b1 = (b3, selected', capReached') ->
     forall x, x ∈ selected -> x ∉ selected') /\
  (treasuresByOrder b2 ≡ₚ
     filter (fun x => x ∉ selected \/ GetExpirationTime (deref' x) <> 0) (treasuresByOrder b)) /\
  (selected <> [] -> time_ordered deref' b2).
Proof.
  intros Hkey Hkey' Hb Ho Hsel candidate b2.
  destruct (select_cap_spec _ _ _ _ _ _ _ _ _ _ Hsel) as (m & Hm & Hmn & Hkeys1 & Ho1 & Hperm & _).
  assert (Hnd : NoDup (selected ++ treasuresByOrder b1)) by (rewrite Hperm; apply (vo_NoDup key b Hb)).
  apply NoDup_app in Hnd as (_ & Hdis & _).
  assert (Hb2 : treasuresByKeys b2 = treasuresByKeys b1 /\
    treasuresByOrder b2 ≡ₚ treasuresByOrder b1 ++ filter (fun x => GetExpirationTime (deref' x) <> 0) selected /\
    (selected <> [] -> time_ordered deref' b2)).
  { apply (reindex_spec key); [done|by rewrite Ho1|]. intros x y Hx Hy Hk.
    enough (x = y) as -> by (by eapply Hdis). apply (views_inj key b); try done; rewrite <- Hperm; set_solver. }
  destruct Hb2 as (Hk2 & Hp2 & Ht2). split_and!.
  - by exists m.
  - done.
  - congruence.
  - intros n' p' now' cap' capMax' deref'' b3 selected' capReached' Hsel' x Hx Hx'.
    destruct (select_cap_spec _ _ _ _ _ _ _ _ _ _ Hsel') as (_ & _ & _ & _ & _ & Hperm' & _).
    apply (Hdis x Hx). rewrite <- Hperm'. set_solver.
  - rewrite Hp2, <- Hperm, filter_app.
    rewrite (Permutation_app_comm (treasuresByOrder b1)). f_equiv.
    + apply reflexive_eq, filter_iff_in. intros x Hx. tauto.
    + apply reflexive_eq. symmetry. apply filter_id. intros x Hx. left. intros Hin. by apply (Hdis x).
  - done.
Qed.

(** [FilterOrderedTreasures] without removal returns the first matches (all of them when
    the limit is negative) and changes nothing; with removal and no limit it panics as soon as
    the last treasure and any other match, because it ranges over the slice as it was while
    the removals shorten it. *)
Theorem FilterOrderedTreasures_in_place (deref : loc -> treasure) (f : loc -> bool) h b :
  isOrdered b = true ->
  FilterOrderedTreasures deref f h false b =
    Some (b, Some (if h <? 0 then filter (fun x => f x) (treasuresByOrder b)
                   else take (Z.to_nat h) (filter (fun x => f x) (treasuresByOrder b)))) /\
  (h < 0 -> forall l x y, treasuresByOrder b = l ++ [x] -> f x = true -> y ∈ l -> f y = true ->
     FilterOrderedTreasures deref f h true b = None).
Proof.
  intros Ho. unfold FilterOrderedTreasures. rewrite Ho. cbn [negb]. split.
  - rewrite (filter_loop_keep deref f h (length (treasuresByOrder b)) 0 0) by lia. cbn [mbind option_bind].
    rewrite drop_0, Z.sub_0_r. by destruct b.
  - intros Hh l x y Hl Hx [j Hj]%list_elem_of_lookup Hy. rewrite Hl.
    assert (Hlen : length (l ++ [x]) = S (length l)) by (rewrite length_app; cbn; lia).
    assert (Hjl : (j < length l)%nat) by (by eapply lookup_lt_Some).
    rewrite (filter_loop_panics deref f h x y); try done; try lia.
    + rewrite Hlen. replace (S (length l) - 1)%nat with (length l) by lia.
      rewrite lookup_app_r by lia. by rewrite Nat.sub_diag.
    + exists j. split; [lia|]. by apply lookup_app_l_Some.
Qed.
End Props.

Lemma beacon_views_agree_witness : (Beacon.Count sample).2 = Z.of_nat (length (treasuresByOrder sample)).
Proof.
  refine (proj2 (proj2 (proj1 (proj2 (beacon_views_agree _ sample_ops sample sample_runs)) _))).
  vm_compute. reflexivity.
Defined.

Lemma GetMany_returns_window_witness :
  exists b', sort_for objects ByExpirationTimeAsc sample = (b', true) /\
    (GetManyFromOrderPosition objects {| From := 1; Limit := 1; FromTime := Some 10; ToTime := Some 30 |} b').2 =
    Some (Some [2%nat]).
Proof.
  destruct (sort_for_succeeds objects ByExpirationTimeAsc sample) as (b' & Hs); [vm_compute; reflexivity|].
  destruct (GetMany_returns_window objects _ sample b' {| From := 1; Limit := 1; FromTime := Some 10; ToTime := Some 30 |} Hs)
    as (_ & _ & Hw & _).
  - cbn. lia.
  - cbn. lia.
  - vm_compute. reflexivity.
  - exists b'. split; [exact Hs|]. refine (eq_trans Hw _). clear Hw.
    assert (Hb' : b' = (sort_for objects ByExpirationTimeAsc sample).1) by (rewrite Hs; reflexivity).
    rewrite Hb'. vm_compute. reflexivity.
Defined.

Lemma sample_views : views_ok (fun l => GetKey (objects l)) sample.
Proof. exact (runs_ok _ _ _ _ sample_runs (views_new _)). Qed.

Lemma ShiftMatching_takes_first_witness :
  exists b' capReached, ShiftMatching objects 2 (Some (expired objects 25)) (Some (expired objects 100)) 5 sample =
    (b', map (fun x => copy (objects x)) [1%nat; 2%nat], capReached).
Proof.
  destruct (ShiftMatching_takes_first objects (fun l => GetKey (objects l)) 2 (expired objects 25)
    (Some (expired objects 100)) 5 sample) as (b' & cr & Hs & _).
  - intros l. reflexivity.
  - exact sample_views.
  - lia.
  - exists b', cr. refine (eq_trans Hs _). vm_compute. reflexivity.
Defined.

Definition selected_sample : beacon * list loc * bool :=
  SelectExpiredForPatchWithCap objects 1 None None 0 25 sample.

Definition patched (l : loc) : treasure := if decide (l = 1%nat) then named "b" 35 else objects l.

Lemma patch_cycle_witness :
  treasuresByKeys (ReindexExpiration patched [1%nat] selected_sample.1.1) = treasuresByKeys sample.
Proof.
  refine (proj2 (proj1 (proj2 (patch_cycle objects patched (fun l => GetKey (objects l)) 1 None 25 None 0
    sample selected_sample.1.1 [1%nat] false _ _ sample_views _ _)))).
  - intros l. reflexivity.
  - intros l. destruct l as [|[|l]]; reflexivity.
  - vm_compute. reflexivity.
  - vm_compute. reflexivity.
Defined.

Lemma FilterOrderedTreasures_in_place_witness :
  FilterOrderedTreasures objects (expired objects 100) (-1) true sample = None.
Proof.
  refine (proj2 (FilterOrderedTreasures_in_place objects (expired objects 100) (-1) sample _) _
    [3; 1; 2]%nat 0%nat 1%nat _ _ _ _).
  - vm_compute. reflexivity.
  - lia.
  - vm_compute. reflexivity.
  - vm_compute. reflexivity.
  - apply (bool_decide_unpack _). vm_compute. exact I.
  - vm_compute. reflexivity.
Defined.

(** ** Treasures *)

(** A treasure somebody holds the guard of, under the identifier 1. *)
Definition held (t : treasure) : treasure :=
  {| t_model := t_model t; t_guard := (StartTreasureGuard true None (t_guard t)).1; t_flags := t_flags t |}.

Definition text_treasure : treasure :=
  put_Content (Some (only_String (bs "hello"))) (put_Key (bs "k") (held Treasure.New)).

(** Under the guard, a setter leaves the treasure with that one value (or with the equal
    one it had, and then untouched): its type and its getter answer with it, every other
    getter with an error, and a copy reads the same under the same key, with a guard and flags
    of its own and no file name. *)
Theorem SetContent_reads_back g v t :
  guarded t -> valid_treasure t -> (forall s, v <> VUint32Slice s) ->
  exists t' v', set_value g v t = Some t' /\
    (v' = v /\ IsContentChanged t' = true \/ t' = t /\ value_eqb v' v = true) /\
    GetContentType t' = type_of v' /\
    (forall ct, get_value ct t' = if decide (ct = type_of v') then Some v' else None) /\
    exists copy, Clone g t' = Some copy /\
      (forall ct, get_value ct copy = get_value ct t') /\ GetContentType copy = GetContentType t' /\
      GetKey copy = GetKey t' /\ GetExpirationTime copy = GetExpirationTime t' /\
      GetFileName copy = None /\ t_guard copy = Guard.New /\ t_flags copy = no_flags.
Proof.
  intros Hg Hv Hs. destruct (set_value_spec g v t Hg Hv Hs) as (t' & v' & Hset & Hc & Hcase).
  destruct (read_value t' v' Hc) as (Hty & Hcl & Hget).
  exists t', v'. split_and!; [done..|].
  assert (Hg' : guarded t').
  { destruct Hcase as [_|[-> _]]; [|done]. eapply set_value_guard; eauto. }
  eexists. split.
  { unfold Clone, CanExecute, is_first. cbn [andb]. unfold guarded in Hg'.
    destruct (waitForUnlock (t_guard t')); [done|]. reflexivity. }
  match goal with |- context [get_value _ ?c] => set (copy := c) end.
  assert (Hcc : m_Content (t_model copy) = Some (content_of v')) by (cbn; by rewrite Hcl).
  destruct (read_value copy v' Hcc) as (Hty' & _ & Hget').
  split_and!; try done; [intros ct; by rewrite Hget', Hget|by rewrite Hty', Hty].
Qed.

Lemma SetContent_reads_back_witness :
  exists t' v', set_value 1 (VUint8 7) text_treasure = Some t' /\
    GetContentType t' = type_of v'.
Proof.
  destruct (SetContent_reads_back 1 (VUint8 7) text_treasure) as (t' & v' & Hs & _ & Ht & _).
  - discriminate.
  - apply (valid_value (VString (bs "hello"))).
  - discriminate.
  - exists t', v'. split; [exact Hs|exact Ht].
Defined.

(** A slice of numbers is a list without repetitions: pushing adds the values that are
    not there, in order; deleting removes the values named; and reading and the size agree
    with the list.  Pushing raises the content flag when it added something; deleting raises
    it when it {e kept} something, so emptying a slice leaves no trace for the next save. *)
Theorem Uint32Slice_operations t vs values :
  numbers t vs -> NoDup vs -> Forall in_u32 values ->
  Uint32SliceGetAll t = Some (Some vs) /\
  (exists t' added, Uint32SlicePush values t = Some t' /\ Uint32SliceGetAll t' = Some (Some (vs ++ added)) /\
     Uint32SliceSize t' = Some (Z.of_nat (length (vs ++ added))) /\ NoDup (vs ++ added) /\
     (forall v, v ∈ vs ++ added <-> v ∈ vs \/ v ∈ values) /\
     IsContentChanged t' = IsContentChanged t || negb (bool_decide (added = []))) /\
  (exists t' kept, Uint32SliceDelete values t = Some t' /\ Uint32SliceGetAll t' = Some (Some kept) /\
     Uint32SliceSize t' = Some (Z.of_nat (length kept)) /\ NoDup kept /\
     (forall v, v ∈ kept <-> v ∈ vs /\ v ∉ values) /\
     IsContentChanged t' = IsContentChanged t || negb (bool_decide (kept = []))).
Proof.
  intros Hn Hnd Hv. split; [by apply numbers_get|]. split.
  - destruct (push_numbers t vs values Hv (or_introl Hn)) as (t' & Hp & Hn' & Hf).
    destruct (unseen_spec values vs) as [Hnu Hu].
    exists t', (unseen values vs). split_and!; try done.
    + by apply numbers_get.
    + by apply numbers_size.
    + apply NoDup_app. split_and!; [done| |done]. intros v Hin Hin'. by apply Hu in Hin' as [_ ?].
    + intros v. rewrite elem_of_app, Hu. destruct (decide (v ∈ vs)); tauto.
  - destruct (delete_numbers t vs values Hn) as (t' & Hd & Hn' & Hf).
    exists t', (filter (fun v => v ∉ values) vs). split_and!; try done.
    + by apply numbers_get.
    + by apply numbers_size.
    + by apply NoDup_filter.
    + intros v. rewrite list_elem_of_filter. tauto.
Qed.

Definition slice_treasure : treasure := put_Content (Some (only_Uint32Slice (u32_bytes [5; 9]))) Treasure.New.

Lemma Uint32Slice_operations_witness :
  exists t' kept, Uint32SliceDelete [5; 9] slice_treasure = Some t' /\
    Uint32SliceGetAll t' = Some (Some kept).
Proof.
  destruct (Uint32Slice_operations slice_treasure [5; 9] [5; 9]) as (_ & _ & t' & kept & Hd & Hg & _).
  - split; [reflexivity|]. repeat constructor; lia.
  - apply (bool_decide_unpack _). vm_compute. exact I.
  - repeat constructor; lia.
  - exists t', kept. split; [exact Hd|exact Hg].
Defined.

(** [SetContentVoid] makes void only a treasure without content: any other keeps its
    value, which is then saved as changed. *)
Theorem SetContentVoid_keeps_value g t :
  guarded t ->
  exists t', SetContentVoid g t = Some t' /\
    match m_Content (t_model t) with
    | None => m_Content (t_model t') = Some void_content /\ IsContentChanged t' = true
    | Some c => m_Content (t_model t') = Some c /\ (c_Void c = false -> IsContentChanged t' = true)
    end.
Proof.
  intros Hg. unfold SetContentVoid. rewrite with_guard_runs by done. eexists. split; [done|].
  destruct (m_Content (t_model t)) as [c|] eqn:Hc; [|done].
  destruct (c_Void c) eqn:Hv; [done|]. by rewrite <- Hc.
Qed.

Lemma SetContentVoid_keeps_value_witness :
  exists t', SetContentVoid 1 text_treasure = Some t' /\
    m_Content (t_model t') = Some (only_String (bs "hello")).
Proof.
  destruct (SetContentVoid_keeps_value 1 text_treasure) as (t' & Hs & Hc & _); [discriminate|].
  exists t'. split; [exact Hs|exact Hc].
Defined.

(** A goroutine that does not hold the guard is refused by [CanExecute], yet a content
    setter changes the treasure all the same; the body setters do nothing for it, but work for
    the holder whatever permission it asked the guard for. *)
Theorem setters_ignore_refusal g h q v key t :
  waitForUnlock (t_guard t) = h :: q -> h <> g -> valid_treasure t -> (forall s, v <> VUint32Slice s) ->
  CanExecute g false (t_guard t) = Some false /\
  (exists t' v', set_value g v t = Some t' /\ m_Content (t_model t') = Some (content_of v') /\
     (v' = v \/ t' = t /\ value_eqb v' v = true)) /\
  BodySetKey g key t = Some t /\
  exists t', BodySetKey h key t = Some t' /\ GetKey t' = key.
Proof.
  intros Hq Hne Hv Hs. split_and!.
  - unfold CanExecute, is_first. rewrite Hq. cbn. by rewrite bool_decide_false.
  - destruct (set_value_spec g v t) as (t' & v' & Hset & Hc & Hcase); try done.
    { unfold guarded. by rewrite Hq. }
    exists t', v'. split_and!; [done..|]. destruct Hcase as [[-> _]|?]; auto.
  - by eapply with_guard_err_refused.
  - unfold BodySetKey. rewrite (with_guard_err_runs h _ t q Hq). by eexists.
Qed.

Lemma setters_ignore_refusal_witness :
  CanExecute 2 false (t_guard text_treasure) = Some false /\
  BodySetKey 2 (bs "other") text_treasure = Some text_treasure.
Proof.
  destruct (setters_ignore_refusal 2 1 [] (VUint8 7) (bs "other") text_treasure) as (Hc & _ & Hb & _).
  - reflexivity.
  - discriminate.
  - apply (valid_value (VString (bs "hello"))).
  - discriminate.
  - split; [exact Hc|exact Hb].
Defined.
