(* ===== verification/IndexProps.v ===== *)
(** Properties of the field indexes. *)
From Stdlib Require Import Floats.SpecFloat.
From S2P Require Import Prelude Steps Types Compressor Block FileSys Reader Treasure Beacon Canon.
From S2P Require Import Bucket Slots Indexing.
#[local] Set Warnings "-clear-no-such-hyp".

(** ** Conversions that answer with a fixed value, and that saturate *)

Module FixedAnswer.
Definition conv : FloatToInt := {| int64_outside _ := - 2 ^ 63; uint64_outside _ := 2 ^ 63 |}.

Lemma conv_ok : @FloatToIntOk conv.
Proof.
  split; intros z f _ -> Hf Hz; cbn in Hz; subst z.
  - apply (Hf (- 2 ^ 63)); [by vm_compute|]. unfold in_i64. lia.
  - apply (Hf (2 ^ 63)); [by vm_compute|]. unfold in_u64. lia.
Qed.
End FixedAnswer.

Module Saturating.
Definition conv : FloatToInt := {| int64_outside _ := 2 ^ 63 - 1; uint64_outside _ := 2 ^ 64 - 1 |}.
End Saturating.

(** Equality of canonical values.  On the values a program can build [Equal] is symmetric
    and transitive across the kinds, a value is equal to itself unless it is NaN, an integer
    of either kind is equal to the other kind exactly when they are the same number, values
    equal for Go are equal, and nothing else than null equals null. *)
Theorem Equal_is_an_equivalence `{FI : FloatToInt} `{!FloatToIntOk} (a b c : any) :
  any_ok a -> any_ok b -> any_ok c ->
  let ka := Canonicalize a in let kb := Canonicalize b in let kc := Canonicalize c in
  Equal ka ka = negb (is_NaN ka) /\
  Equal ka kb = Equal kb ka /\
  (Equal ka kb = true -> Equal kb kc = true -> Equal ka kc = true) /\
  (key_eqb ka kb = true -> Equal ka kc = Equal kb kc) /\
  (forall w w' i u, a = AInt w i -> b = AUint w' u -> Equal ka kb = (i =? u)) /\
  (IsNull ka = true -> Equal ka kb = IsNull kb).
Proof.
  intros Ha Hb Hc ka kb kc. pose proof (Canonicalize_ok a Ha : key_ok ka) as Oa.
  pose proof (Canonicalize_ok b Hb : key_ok kb) as Ob. pose proof (Canonicalize_ok c Hc : key_ok kc) as Oc.
  split_and!.
  - destruct (is_NaN ka) eqn:Hn; cbn; [by apply Equal_NaN|]. by apply key_eqb_Equal, key_eqb_refl.
  - apply eq_bool_prop_intro. rewrite !Is_true_true, !Equal_same by done. split; apply same_sym.
  - rewrite !Equal_same by done. by apply same_trans.
  - intros He. by apply Equal_eqb.
  - intros w w' i u -> ->. apply eq_bool_prop_intro. by rewrite !Is_true_true, Equal_same, Z.eqb_eq.
  - intros Hn. unfold IsNull, eqd in Hn. apply bool_decide_eq_true in Hn.
    apply eq_bool_prop_intro. rewrite !Is_true_true, Equal_same by done. unfold same, IsNull, eqd.
    rewrite Hn, bool_decide_eq_true. by destruct (k_Kind kb).
Qed.

Lemma Equal_is_an_equivalence_witness :
  let c := FixedAnswer.conv in
  Equal (Canonicalize (AInt W8 5)) (Canonicalize (AUint W64 5)) = true /\
  Equal (Canonicalize (AUint W64 5)) (Canonicalize (AFloat64 (float64_of_Z 5))) = true /\
  Equal (Canonicalize (AInt W8 5)) (Canonicalize (AFloat64 (float64_of_Z 5))) = true.
Proof.
  cbn zeta. split; [reflexivity|]. split; [reflexivity|].
  destruct (@Equal_is_an_equivalence FixedAnswer.conv FixedAnswer.conv_ok
    (AInt W8 5) (AUint W64 5) (AFloat64 (float64_of_Z 5))) as (_ & _ & Htrans & _);
    [unfold any_ok, in_i64; lia|unfold any_ok, in_u64; lia|exact I|].
  exact (Htrans eq_refl eq_refl).
Defined.

(** Where the conversion saturates, the largest [int64] counts as the float it rounds to, and
    equality is not transitive. *)
Lemma saturating_conversion_breaks_transitivity :
  let i := Canonicalize (AInt W64 (2 ^ 63 - 1)) in
  let f := Canonicalize (AFloat64 (float64_of_Z (2 ^ 63))) in
  let u := Canonicalize (AUint W64 (2 ^ 63)) in
  @Equal Saturating.conv i f = true /\ @Equal Saturating.conv f u = true /\
  @Equal Saturating.conv i u = false.
Proof. by vm_compute. Qed.

Section Props.
Context `{FI : FloatToInt} `{!FloatToIntOk} `{MP : Msgpack} `{SR : SlotRange} `{!SlotRangeOk}.
Hypothesis Unmarshal_ok : forall body m, Unmarshal body = Some m -> any_ok (AMap m).

(** C4: a field index answers as a scan of the swamp, in every [orderly] interleaving: the saves,
    deletions and reports of any number of goroutines interleave with the registration, the
    snapshot, the build and the drain of the index, but a key is saved or deleted only when the last
    report on it was delivered, a key keeps its object, and one goroutine builds at a time.  Then
    nothing panics, and once the index is built a lookup gives every key at most once and, of
    the keys with no report on its way, exactly those whose treasure has an equal value in the
    field.  ([field_index_races] has interleavings that are not orderly.) *)
Theorem field_index_answers_as_a_scan (key : loc -> bytes) (path : bytes) (s0 : sys) (es : list event) :
  start key s0 -> orderly path key es s0 ->
  run (index_step path) es s0 <> Panic /\
  forall s b v, run (index_step path) es s0 = Next s -> index s = Some b -> builders s = ∅ ->
    any_ok v ->
    let out := map (handle_key key) (LookupEqual v b) in
    NoDup out /\
    forall k, nobody_owes k s ->
      k ∈ out <-> exists l, live s !! k = Some l /\ GetKey (deref s l) = k /\
        Equal (key_or_null (deref s l) path) (Canonicalize v) = true.
Proof.
  intros Hs Ho.
  pose proof (orderly_inv path key Unmarshal_ok es s0 (start_inv path key s0 Hs) Ho) as Hrun.
  split; [by intros E; rewrite E in Hrun|]. intros s b v E Eb Ebs Hv. rewrite E in Hrun. cbn in Hrun.
  pose proof (inv_index _ _ _ Hrun) as Hi. rewrite Eb in Hi.
  destruct Hi as [[Hb Hk] Hp _ (st & Hst & Hph & _ & Hset)]. rewrite Ebs in Hst.
  destruct st as [st|].
  { destruct Hst as [t Hst]. symmetry in Hst. by apply map_non_empty_singleton in Hst. }
  destruct Hph as (Hinit & _ & Hpe). unfold LookupEqual. rewrite Hinit. cbn [negb].
  destruct (collect_spec key (Canonicalize v) b Hb Hk (Canonicalize_ok _ Hv)) as [Hnd Hin].
  split; [done|]. intros k Hnob. rewrite Hin. specialize (Hset k Hnob). unfold settled in Hset.
  cbn in Hset. rewrite Hpe in Hset. cbn in Hset. unfold settled_key in Hset.
  destruct (live s !! k) as [l|] eqn:El; cbn in Hset.
  - destruct Hset as (w & Hw & Hlike). destruct (inv_live _ _ _ Hrun _ _ El) as [Hkl [t Ht]].
    assert (GetKey (deref s l) = k) as Hkey.
    { unfold deref. rewrite Ht. cbn. rewrite <-Hkl. by apply (inv_heap _ _ _ Hrun). }
    assert (Equal w (Canonicalize v) = Equal (key_or_null (deref s l) path) (Canonicalize v)) as He.
    { destruct Hlike as [->|He]; [done|]. apply Equal_eqb; [done| |by apply Canonicalize_ok].
      by apply key_or_null_ok. }
    split.
    + intros (w' & Hw' & E'). assert (w' = w) as -> by congruence. exists l. by rewrite <-He.
    + intros (l' & [= <-] & _ & E'). exists w. by rewrite He.
  - split; [intros (w & Hw & _); congruence|naive_solver].
Qed.
End Props.

(** ** Examples *)

(** Bodies with one field, ["f"], which holds the body itself. *)
Module Sample.
Definition msgpack : Msgpack := fun body => Some [(bs "f", AString body)].
Definition ranges : SlotRange := {| slot_range := map_to_list; value_range l := l |}.
Definition ranges_ok : @SlotRangeOk ranges.
Proof. by split. Qed.
Definition msgpack_ok body m : @Unmarshal msgpack body = Some m -> any_ok (AMap m).
Proof. by intros [= <-]. Qed.

Definition item (k body : bytes) : treasure :=
  put_Key k (put_Content (Some (only_ByteArray (Some body))) Treasure.New).
(** The objects 0 and 1 have the key ["a"], the others ["b"]. *)
Definition key (l : loc) : bytes := match l with 0%nat | 1%nat => bs "a" | _ => bs "b" end.
Definition a0 : sys :=
  {| heap := {[0%nat := item (bs "a") (bs "x")]}; live := {[bs "a" := 0%nat]}; owed := ∅;
     Indexing.index := None; builders := ∅ |}.
Definition step := @index_step msgpack ranges (bs "f").
Definition found (v : bytes) (s : sys) : list bytes :=
  match Indexing.index s with
  | Some b => map (handle_key key) (@LookupEqual FixedAnswer.conv ranges (AString v) b)
  | None => []
  end.
Definition answer (v : bytes) (o : outcome sys) : option (list bytes * list (bytes * loc)) :=
  match o with Next s => Some (found v s, map_to_list (live s)) | _ => None end.
Definition quiet (o : outcome sys) : bool :=
  match o with Next s => bool_decide (map_to_list (owed s) = [] /\ map fst (map_to_list (builders s)) = []) | _ => false end.
End Sample.

Definition sample_run : list event :=
  [EEnter 1%nat; ESave 7%nat (bs "b") 2%nat (Sample.item (bs "b") (bs "x")); ESnapshot 1%nat; ENotify 7%nat;
   EDelete 8%nat (bs "a") (Sample.item (bs "a") (bs "x")); EBuild 1%nat; ENotify 8%nat; ETake 1%nat; EApply 1%nat; ETake 1%nat].

Lemma field_index_answers_as_a_scan_witness :
  run Sample.step sample_run Sample.a0 <> Panic /\
  Sample.answer (bs "x") (run Sample.step sample_run Sample.a0) = Some ([bs "b"], [(bs "b", 2%nat)]).
Proof.
  split; [|vm_compute; reflexivity].
  apply (@field_index_answers_as_a_scan FixedAnswer.conv FixedAnswer.conv_ok Sample.msgpack
    Sample.ranges Sample.ranges_ok Sample.msgpack_ok Sample.key (bs "f") Sample.a0 sample_run).
  - split_and!; try reflexivity.
    + intros l t Ht. cbn in Ht. apply lookup_singleton_Some in Ht as [<- <-]. split; [reflexivity|]. exact (valid_value (VByteArray (bs "x"))).
    + intros k l Hl. cbn in Hl. apply lookup_singleton_Some in Hl as [<- <-]. split; [reflexivity|]. eexists. reflexivity.
  - unfold sample_run.
    eapply orderly_cons; [reflexivity|vm_compute; reflexivity|].
    eapply orderly_cons; [|vm_compute; reflexivity|].
    { split_and!; [by apply nobody_owes_nil|split; [reflexivity|exact (valid_value (VByteArray (bs "x")))]|reflexivity|].
      intros l'. vm_compute. discriminate. }
    eapply orderly_cons; [exact I|vm_compute; reflexivity|].
    eapply orderly_cons; [exact I|vm_compute; reflexivity|].
    eapply orderly_cons; [|vm_compute; reflexivity|].
    { split; [by apply nobody_owes_nil|]. intros l'. vm_compute. intros [= <-].
      split; [reflexivity|exact (valid_value (VByteArray (bs "x")))]. }
    repeat (eapply orderly_cons; [exact I|vm_compute; reflexivity|]). exact I.
Defined.

(** Two ways for a field index to go wrong.  Two goroutines that find the index missing both
    drain it: one takes the report of a save, the other takes and applies the report of the
    deletion that follows and ends the build, then the first applies the save, and the index
    answers with a deleted treasure.  And a deletion whose report comes after that of a new
    save of the key, which holds another object's guard, removes the new treasure from the
    index.  In both runs every report is delivered and every build has ended. *)
Theorem field_index_races :
  let two_builders :=
    [EEnter 1%nat; EEnter 2%nat; ESnapshot 1%nat; ESnapshot 2%nat; EBuild 1%nat; EBuild 2%nat;
     ESave 7%nat (bs "a") 0%nat (Sample.item (bs "a") (bs "y")); ENotify 7%nat; ETake 1%nat;
     EDelete 8%nat (bs "a") (Sample.item (bs "a") (bs "y")); ENotify 8%nat; ETake 2%nat; EApply 2%nat; ETake 2%nat;
     EApply 1%nat; ETake 1%nat] in
  let late_report :=
    [EEnter 1%nat; ESnapshot 1%nat; EBuild 1%nat; ETake 1%nat;
     EDelete 8%nat (bs "a") (Sample.item (bs "a") (bs "x"));
     ESave 7%nat (bs "a") 1%nat (Sample.item (bs "a") (bs "y")); ENotify 7%nat; ENotify 8%nat] in
  let s1 := run Sample.step two_builders Sample.a0 in
  let s2 := run Sample.step late_report Sample.a0 in
  Sample.quiet s1 = true /\ Sample.answer (bs "y") s1 = Some ([bs "a"], []) /\
  Sample.quiet s2 = true /\ Sample.answer (bs "y") s2 = Some ([], [(bs "a", 1%nat)]).
Proof. by vm_compute. Qed.
