(* ===== verification/SwampProps.v ===== *)
(** Properties of swamps: a session of requests refines an abstract map and survives closing
    and opening, what the encoding of a value loses, and two defects of deletion. *)
From Stdlib Require Import Floats.SpecFloat.
From S2P Require Import Prelude Steps Types Compressor Block FileSys Writer Reader Contents Log Session.
From S2P Require Import Chronicler Durability Meta Guard Treasure Beacon Canon Bucket.
From S2P Require Import Swamp Gateway SwampInv SwampSteps Saving SwampRun SwampStore Increments.
#[local] Set Warnings "-clear-no-such-hyp".

(** The abstract state after the first requests of a session. *)
Definition state_after (rs : list (Z * request)) (spec : gmap bytes Model) : gmap bytes Model :=
  foldl (fun spec r => spec_step r.2 spec) spec rs.

Section Sessions.
Context `{HC : Codecs} `{COk : !CodecsOk} `{MR : MapRange} `{MROk : !MapRangeOk}.
Context `{GM : GobModel} `{GMOk : !GobOk} `{GMeta : GobMeta} `{FI : FloatToInt} `{MP : Msgpack} `{SR : SlotRange}.
Context `{HR : KeyRange} `{HROk : !KeyRangeOk} `{HS : SortSlice}.
Variable cfg : v2_config.
#[local] Instance storage : Store := v2_store cfg.
#[local] Instance storage_ok : StoreOk := v2_store_ok cfg.

Lemma spec_ok_transmitted spec : spec_ok spec -> spec_ok (transmitted <$> spec).
Proof.
  intros Hok k m. rewrite lookup_fmap. destruct (spec !! k) as [m0|] eqn:Hm; [|done]. intros [= <-].
  destruct (Hok _ _ Hm) as (Hk & Hd & Hf & Hst).
  assert (with_file None m0 = m0) as Hno by (destruct m0; cbn in *; by subst).
  assert (transmitted (transmitted m0) = transmitted m0) as ->.
  { pose proof (transmitted_idem None m0) as Hi. rewrite Hno in Hi.
    assert (with_file None (with_file None (transmitted m0)) = transmitted m0) as Hn2; [|by rewrite Hn2 in Hi].
    unfold transmitted, with_file. cbn. by rewrite Hf. }
  split; [done|]. split; [done|]. split; [cbn; by rewrite Hf|done].
Qed.

(** C3: a swamp keeps its data.  A swamp opened on a stored file serves a session of sets,
    reads, deletions and flushes and is closed; every reply is the one of the abstract state
    (a map from keys to contents); and a swamp opened on the file again answers reads from
    the last abstract state, up to the zero values the encoding drops.  The session ([may_all])
    sets values that can be stored and are no slices of numbers, does not delete a key again that it
    deleted and set since the last flush, and never deletes the last key; [recreated_key_resurrects] is
    a session without the second of these. *)
Theorem swamp_keeps_data (w : world) (c : chroniclerV2) (index : gmap bytes bytes)
    (spec : gmap bytes Model) (rs : list (Z * request)) (now idle interval : Z) (meta : Metadata) (mfile : option bytes) :
  keeps_index w c index -> config c = cfg -> writer_open c = false -> dontSendFilePointer c = false ->
  represents index spec -> spec_ok spec -> may_all rs (transmitted <$> spec) ∅ ->
  exists s replies s' w' c' index',
    serve_all rs (Swamp.New now idle (Some ((w, c), interval)) meta mfile) = Next (s, replies) /\
    length replies = length rs /\
    (forall i t r a, rs !! i = Some (t, r) -> replies !! i = Some a ->
       reply_ok r (state_after (take i rs) (transmitted <$> spec)) a) /\
    Swamp.Close s = Next s' /\ chron s' = Some (w', c') /\ keeps_index w' c' index' /\
    forall cn now' idle' interval' meta' mfile' keys,
      config cn = cfg -> writer_open cn = false -> dontSendFilePointer cn = false ->
      name_ok (c_swampName cn) -> Chronicler.destroyed cn = false ->
      forall ts, mapM (spec_get (transmitted <$> state_after rs (transmitted <$> spec))) keys = Some ts ->
      exists s2, gateway_Get now' keys (Swamp.New now' idle' (Some ((w', cn), interval')) meta' mfile') = Next (s2, ts).
Proof.
  intros Hi Hp Ho Hd Hrep Hok Hmay.
  assert (holds (w, c) index) as Hho by done. assert (unopened (w, c)) as Hun by done.
  pose proof (New_tracked now idle (w, c) interval meta mfile index spec Hho Hun Hrep Hok) as Htr.
  destruct (serve_all_tracked rs _ _ _ _ Htr (spec_ok_transmitted _ Hok) Hmay)
    as (s & index1 & D & replies & E & Htr1 & Hok1 & Hlen & Hrepl).
  destruct (Close_tracked _ _ _ _ Htr1) as (s' & index' & [w' c'] & Ecl & Hc' & Hho' & Hcl' & Hrep').
  exists s, replies, s', w', c', index'. split; [done|]. split; [done|]. split; [exact Hrepl|].
  split; [done|]. split; [done|]. split; [apply Hho'|].
  intros cn now' idle' interval' meta' mfile' keys Hcf Hon Hdn Hnn Hde ts Hts.
  assert (reopens (w', c') (w', cn)) as Hre by done.
  destruct (store_reopen _ _ _ Hho' Hcl' Hre) as [Hho2 Hun2].
  pose proof (New_tracked now' idle' (w', cn) interval' meta' mfile' index' _ Hho2 Hun2 Hrep' Hok1) as Htr2.
  match type of Htr2 with tracked _ ?x _ _ => set (s1 := x) in * end.
  destruct (get_keys_tracked now' keys ts ∅ (BeginVigil s1) _ _ ltac:(by apply (tracked_core _ s1)) Hts) as (s2 & E2 & _).
  exists (CeaseVigil s2). exact (f_equal (fun o => let! (s, a) := o in Next (CeaseVigil s, a)) E2).
Qed.
End Sessions.

Import SwampStore.Sample.

(** A session on the sample storage that deletes a key, sets it again and reads. *)
Definition sample_session : list (Z * request) :=
  [(10, ReqSet true true [item "a" "old"; item "b" "keep"]); (11, Tick); (12, ReqDelete [bs "a"]);
   (13, ReqSet true false [item "a" "new"; item "b" "ignored"]); (14, ReqGet [bs "a"])].

Lemma may_sample : may_all sample_session ∅ ∅.
Proof.
  cbn [may_all sample_session may may_set may_delete].
  split_and!; try done.
  all: try (intros _; split; [done|split; apply storable_sample; vm_compute; reflexivity]).
  all: try (intros Hs; vm_compute in Hs; discriminate).
  all: try (vm_compute; eexists; reflexivity).
  all: vm_compute; try done.
Qed.

(** What the reads of the swamp opened afterwards answer. *)
Definition sample_answer : option (list pb_Treasure) :=
  mapM (spec_get (transmitted <$> state_after sample_session (transmitted <$> ∅))) [bs "a"; bs "b"].

Lemma swamp_keeps_data_witness :
  exists s replies s' w' c' s2 ts,
    serve_all sample_session (opened_at 1 no_files) = Next (s, replies) /\ length replies = 5%nat /\
    Swamp.Close s = Next s' /\ chron s' = Some (w', c') /\
    gateway_Get 0 [bs "a"; bs "b"] (opened_at 1 w') = Next (s2, ts) /\
    texts ts = [Some (bs "new"); Some (bs "keep")].
Proof.
  destruct (swamp_keeps_data (config sample_chronicler) no_files sample_chronicler ∅ ∅ sample_session 0 0 1 (Noop (NewNoop 0)) None)
    as (s & replies & s' & w' & c' & index' & E & Hlen & Hrep & Ecl & Hc & Hk & Hread).
  - exact sample_storage_keeps.
  - reflexivity.
  - reflexivity.
  - reflexivity.
  - intros k. rewrite !lookup_empty. reflexivity.
  - intros k m. rewrite lookup_empty. discriminate.
  - rewrite fmap_empty. exact may_sample.
  - destruct (Hread sample_chronicler 0 0 1 (Noop (NewNoop 0)) None [bs "a"; bs "b"] eq_refl eq_refl eq_refl
      sample_named eq_refl (default [] sample_answer) ltac:(vm_compute; reflexivity)) as [s2 Es2].
    exists s, replies, s', w', c', s2, (default [] sample_answer).
    split; [exact E|]. split; [exact Hlen|]. split; [exact Ecl|]. split; [exact Hc|]. split; [exact Es2|].
    vm_compute. reflexivity.
Defined.

(** A deleted key comes back.  A stored key is deleted, set again and deleted again before
    the next flush: the second deletion finds a treasure that was never written and only takes
    it out of the write buffer, where it had replaced the first deletion.  Nothing of the key
    is written; both deletions are confirmed and the key is gone, but a swamp opened later has
    its old value again. *)
Theorem recreated_key_resurrects :
  exists replies t,
    after_session
      [(10, ReqSet true true [item "a" "old"; item "b" "keep"]); (11, Tick); (12, ReqDelete [bs "a"]);
       (13, ReqSet true true [item "a" "new"]); (14, ReqDelete [bs "a"]); (15, ReqGet [bs "a"]); (16, Tick)]
      [bs "a"] = Some (replies, [t]) /\
    replies !! 2%nat = Some (RepDelete [(bs "a", Status_DELETED)]) /\
    replies !! 4%nat = Some (RepDelete [(bs "a", Status_DELETED)]) /\
    replies !! 5%nat = Some (RepGet [empty_pb (bs "a")]) /\
    o_IsExist t = true /\ o_StringVal t = Some (bs "old").
Proof. eexists _, _. split; [vm_compute; reflexivity|]. by split_and!. Qed.

(** ** Values and their encoding *)

(** The values a pointer field loses when it is encoded. *)
Definition zero_value (v : value) : bool :=
  match v with
  | VUint8 z | VUint16 z | VUint32 z | VUint64 z | VInt8 z | VInt16 z | VInt32 z | VInt64 z => z =? 0
  | VFloat32 f | VFloat64 f => SFeqb f (S754_zero false)
  | VString s | VByteArray s | VUint32Slice s => bool_decide (s = [])
  | VBoolean b => negb b
  end.

Lemma sent_value v :
  sent_content (content_of v) = if zero_value v then empty_content else content_of v.
Proof.
  destruct v as [z|z|z|z|z|z|z|z|f|f|s|b|s|s]; unfold sent_content; cbn.
  1-8: by destruct z.
  1-2: by destruct (SFeqb f _).
  - by destruct s.
  - by destruct b.
  - by destruct s.
  - by destruct s.
Qed.

(** C17: what is read back from the storage.  A treasure with one value is stored and loaded
    with that value, its key and its times and the name of the file, unless the value is the
    zero of its type: zero numbers, empty texts, [false] and empty slices come back as a
    treasure without content, whose type is void and whose getters all fail. *)
Theorem stored_value_reads_back `{GM : GobModel} `{GMOk : !GobOk} (fileName : bytes) (m : Model) (v : value) (d : bytes) :
  m_Content m = Some (content_of v) -> encode_model m = Some d ->
  exists m', decode_stored fileName d = Some m' /\
    m_Key m' = m_Key m /\ m_CreatedAt m' = m_CreatedAt m /\ m_ModifiedAt m' = m_ModifiedAt m /\
    m_ExpirationTime m' = m_ExpirationTime m /\ m_FileName m' = Some fileName /\
    GetContentType (loaded m') = (if zero_value v then ContentTypeVoid else type_of v) /\
    forall ct, get_value ct (loaded m') =
      if zero_value v then None else if decide (ct = type_of v) then Some v else None.
Proof.
  intros Hc He. unfold decode_stored. rewrite decide_False by (by eapply gob_nonempty).
  rewrite (gob_round_trip _ _ He). eexists. split; [done|]. cbn [fmap option_fmap option_map].
  assert (m_Content (with_file (Some fileName) (transmitted m)) = Some (if zero_value v then empty_content else content_of v)) as Hc'
    by (cbn; by rewrite Hc, <-sent_value).
  split_and!; try done.
  - destruct (zero_value v); [unfold GetContentType; cbn [loaded t_model]; by rewrite Hc'|].
    by apply (read_value (loaded _) v).
  - intros ct. destruct (zero_value v); [|by apply (read_value (loaded _) v)].
    unfold get_value, slice_of, GetContentUint8, GetContentUint16, GetContentUint32, GetContentUint64,
      GetContentInt8, GetContentInt16, GetContentInt32, GetContentInt64, GetContentFloat32,
      GetContentFloat64, GetContentString, GetContentBool, GetContentByteArray.
    destruct ct; cbn [loaded t_model]; rewrite ?Hc'; done.
Qed.

Definition numbered (z : Z) : Model := t_model (put_Content (Some (only_Int64 z)) (put_Key (bs "n") Treasure.New)).

Lemma stored_value_reads_back_witness :
  exists m0 m7, decode_stored (bs "f.hyd") (default [] (encode_model (numbered 0))) = Some m0 /\
    decode_stored (bs "f.hyd") (default [] (encode_model (numbered 7))) = Some m7 /\
    GetContentType (loaded m0) = ContentTypeVoid /\ GetContentType (loaded m7) = ContentTypeInt64.
Proof.
  destruct (stored_value_reads_back (bs "f.hyd") (numbered 0) (VInt64 0) (default [] (encode_model (numbered 0))))
    as (m0 & E0 & _ & _ & _ & _ & _ & T0 & _); [reflexivity|vm_compute; reflexivity|].
  destruct (stored_value_reads_back (bs "f.hyd") (numbered 7) (VInt64 7) (default [] (encode_model (numbered 7))))
    as (m7 & E7 & _ & _ & _ & _ & _ & T7 & _); [reflexivity|vm_compute; reflexivity|].
  exists m0, m7. split; [exact E0|]. split; [exact E7|]. split; [exact T0|exact T7].
Defined.

(** ** Slices *)

Section Slices.
Context `{SI : Store} `{GM : GobModel} `{GMeta : GobMeta} `{FI : FloatToInt} `{MP : Msgpack} `{SR : SlotRange}.
Context `{HR : KeyRange} `{HS : SortSlice} `{HROk : !KeyRangeOk} `{HOk : !StoreOk}.

Lemma slice_delete_frame values t t' :
  Uint32SliceDelete values t = Some t' ->
  t_guard t' = t_guard t /\ GetKey t' = GetKey t /\
  (contentChanged (t_flags t') = contentChanged (t_flags t) -> changed t' = changed t).
Proof.
  unfold Uint32SliceDelete. intros Hd. destruct (m_Content (t_model t)) as [c|] eqn:Hc; [|by simplify_eq].
  destruct (c_Uint32Slice c); [|by simplify_eq]. apply bind_Some in Hd as (vs & _ & Hd).
  destruct (delete_loop values vs) as [rest chg]. destruct chg; simplify_eq; split_and!; try done.
  unfold changed. cbn. by intros <-.
Qed.

(** All numbers of a slice are deleted. *)
Lemma slice_emptied t vs values :
  numbers t vs -> (forall v, v ∈ vs -> v ∈ values) ->
  exists t', Uint32SliceDelete values t = Some t' /\ t_guard t' = t_guard t /\ GetKey t' = GetKey t /\
    changed t' = changed t /\ Uint32SliceSize t' = Some 0.
Proof.
  intros Hnum Hall. destruct (delete_numbers t vs values Hnum) as (t' & Et & Hnum' & Hflag).
  destruct (slice_delete_frame _ _ _ Et) as (Hgt & Hkt & Hcht).
  assert (filter (fun v => v ∉ values) vs = []) as Hnil.
  { apply elem_of_nil_inv. intros v [Hv Hin]%list_elem_of_filter. auto. }
  rewrite Hnil in *. rewrite bool_decide_true, orb_false_r in Hflag by done.
  exists t'. split_and!; auto. by apply (numbers_size t' []).
Qed.

(** Deleting a key waits while its guard cannot be had. *)
Lemma DeleteTreasure_waits now k s (x : nat) :
  live s !! k = Some x -> (forall s', deref s' x = deref s x -> start_guard x (Some BodyAuthID) s' = Disabled) ->
  DeleteTreasure now k false s = Disabled.
Proof.
  intros Hl Hst. unfold DeleteTreasure, TreasureExists, IsExists.
  assert (is_some (treasuresByKeys (beaconKey (data (interact now s))) !! k) = true) as ->.
  { change (is_some (live s !! k) = true). by rewrite Hl. }
  cbn [snd negb]. unfold deleteHandler. set (s0 := on_beaconKey _ _).
  destruct (key_Get_spec k s0) as (s1 & -> & Hc1). change (live s0) with (live s). rewrite Hl.
  rewrite Hst; [done|]. by rewrite (core_deref _ _ Hc1).
Qed.

(** A save that does not write leaves the object as it is. *)
Lemma Save_unwritten now x s k :
  held (deref s x) -> buckets (data s) = ∅ -> key_at s x = k -> live s !! k = Some x ->
  (forall y, waiting s !! k = Some y -> y = x) -> writeInterval (conf s) <> 0 \/ changed (deref s x) = false ->
  exists s' st, Save now x 1 s = Next (s', st) /\ deref s' x = deref s x /\ live s' !! k = Some x.
Proof.
  intros Hh Hb Hk Hl Hw Hmode. rewrite Save_held by done.
  destruct (SaveFunction_spec now x 1 s k) as [(s1 & -> & Hc1 & _ & _)|(s1 & Hsv & Hchg & ->)].
  - done.
  - done.
  - intros y. rewrite Hl. by intros [= <-].
  - intros y _. apply Hw.
  - eexists _, _. split; [done|]. rewrite (core_deref _ _ Hc1). destruct (core_fields _ _ Hc1) as (_ & -> & _). done.
  - destruct Hmode as [Hmode|Hmode]; [|by rewrite Hchg in Hmode]. unfold write_at_once.
    pose proof (sv_rest _ _ _ _ Hsv) as Hr. injection Hr as _ _ Hcf _.
    rewrite Hcf, (proj2 (Z.eqb_neq _ _) Hmode). cbn [andb obind]. eexists _, _. split; [done|].
    change (deref s1 x = deref s x /\ live s1 !! k = Some x). unfold deref.
    rewrite (sv_heap _ _ _ _ Hsv), (sv_live _ _ _ _ Hsv). split; [done|]. apply lookup_insert_eq.
Qed.

(** Emptying a slice blocks for ever.  [Uint32SliceDelete] deletes the treasure when
    nothing is left of its slice, while it still holds the treasure's guard, and the deletion
    waits for that guard; the request never returns, and keeps the guard, its vigil and the
    lock of the system.  It happens whenever the swamp has a write interval, and without one
    when the treasure has no flag set (otherwise [Save] has given the guard back). *)
Theorem emptying_a_slice_blocks (now : Z) (key : bytes) (values vs : list Z) (s : swamp)
    (index : gmap bytes bytes) (x : loc) :
  durable None s index -> live s !! key = Some x -> numbers (deref s x) vs ->
  (forall v, v ∈ vs -> v ∈ values) ->
  writeInterval (conf s) <> 0 \/ changed (deref s x) = false ->
  gateway_Uint32SliceDelete now [(key, values)] s = Disabled.
Proof.
  intros Hdu Hl Hnum Hall Hmode.
  destruct (du_live _ _ _ Hdu _ _ Hl) as (Hx & Hk & _).
  assert (free (deref s x)) as Hfree by (by apply (du_guard _ _ _ Hdu _ _ (deref_in _ _ Hx))).
  unfold gateway_Uint32SliceDelete, vigilant. cbn [slice_delete_pairs]. unfold slice_delete_pair, GetTreasure.
  destruct (key_Get_spec key (interact now (BeginVigil s))) as (s1 & -> & Hc1).
  change (live (interact now (BeginVigil s))) with (live s). change (core (interact now (BeginVigil s))) with (core s) in Hc1.
  rewrite Hl. pose proof (core_deref _ _ Hc1) as Hd1. destruct (core_fields _ _ Hc1) as (Hh1 & Hl1 & Hw1 & Hr1).
  injection Hr1 as _ Hb1 _ Hcf1 _.
  assert (free (deref s1 x)) as Hfree1 by (by rewrite Hd1).
  destruct (start_guard_free x None s1 Hfree1) as (g & Eg & Hg). rewrite Eg. cbn [obind]. rewrite Hd1.
  destruct (slice_emptied (put_guard g (deref s x)) vs values Hnum Hall) as (t & Et & Hgt & Hkt & Hct & Hsize).
  set (s2 := update x (put_guard g (deref s x)) s1).
  assert (x < length (heap (data s1)))%nat as Hx1 by (by rewrite Hh1).
  assert (deref s2 x = put_guard g (deref s x)) as Hd2 by (unfold s2; by rewrite deref_update, decide_True).
  unfold set_on. rewrite Hd2, Et. cbn [of_panic obind]. set (s3 := update x t s2).
  assert (deref s3 x = t) as Hd3 by (unfold s3, s2; by rewrite update_update, deref_update, decide_True).
  destruct (Save_unwritten now x s3 key) as (s4 & st & -> & Hd4 & Hl4).
  - unfold held. by rewrite Hd3, Hgt.
  - change (buckets (data s1) = ∅). rewrite Hb1. apply Hdu.
  - unfold key_at. rewrite Hd3, Hkt. exact Hk.
  - change (live s1 !! key = Some x). by rewrite Hl1.
  - change (waiting s3) with (waiting s1). rewrite Hw1. intros y Hy.
    destruct (du_wait _ _ _ Hdu _ _ Hy) as (_ & _ & _ & [?|[? _]]); congruence.
  - rewrite Hd3, Hct. change (conf s3) with (conf s1). by rewrite Hcf1.
  - cbn [obind]. rewrite Hd4, Hd3, Hsize. cbn [Z.eqb]. rewrite (DeleteTreasure_waits now key s4 x); [done|done|].
    intros s' Hs'. apply (start_guard_again x None _ s1 s2 s'); [done|by rewrite Eg, Hd1| |done].
    by rewrite Hs', Hd4, Hd3, Hgt, Hd2.
Qed.
End Slices.

(** A swamp with one treasure, which waits for the write listener. *)
Definition with_one (t : treasure) (s : swamp) : swamp :=
  on_beaconKey (Beacon.Add (fun _ => t) 0%nat) (on_waiting (Beacon.Add (fun _ => t) 0%nat) (on_heap (fun _ => [t]) s)).

Lemma with_one_durable t k :
  GetKey t = k -> GetDeletedAt t = 0 -> free t -> storable (with_file None (t_model t)) -> GetFileName t = None ->
  durable None (with_one t (opened_at 1 no_files)) ∅ /\
  live (with_one t (opened_at 1 no_files)) = {[k := 0%nat]} /\
  deref (with_one t (opened_at 1 no_files)) 0%nat = t /\ writeInterval (conf (with_one t (opened_at 1 no_files))) = 1.
Proof.
  intros Hk Hd Hfree [Hkf Hst] Hf.
  assert (tracked ∅ (opened_at 1 no_files) ∅ (transmitted <$> ∅)) as Htr.
  { apply New_tracked; [split; [apply sample_storage_keeps|done]|done| |].
    - intros k'. by rewrite !lookup_empty.
    - intros k' m. by rewrite lookup_empty. }
  set (s0 := opened_at 1 no_files) in *. rewrite fmap_empty in Htr.
  pose proof (proj2 (live_empty _ _ _ _ Htr) eq_refl) as Hl0.
  assert (waiting s0 = ∅) as Hw0 by reflexivity.
  pose proof (tr_durable _ _ _ _ Htr) as Hdu. set (s := with_one t s0).
  assert (live s = {[k := 0%nat]}) as Hl.
  { change (live s) with (treasuresByKeys (Beacon.Add (fun _ => t) 0%nat (beaconKey (data s0)))).
    rewrite (add_key _ _ _ k) by done. fold (live s0). by rewrite Hl0, lookup_empty. }
  assert (waiting s = {[k := 0%nat]}) as Hw.
  { change (waiting s) with (treasuresByKeys (Beacon.Add (fun _ => t) 0%nat (treasuresWaitingForWriter (data s0)))).
    rewrite (add_key _ _ _ k) by done. fold (waiting s0). by rewrite Hw0, lookup_empty. }
  assert (heap (data s) = [t]) as Hh by done.
  assert (deref s 0%nat = t) as Hdr by done.
  assert (key_fits k) as Hkf' by (by rewrite <-Hk).
  assert (fits t) as Hfit.
  { split; [by rewrite Hk|]. split; [by left|]. intros f. apply Hst. }
  split; [|done]. split.
  - apply Hdu.
  - apply Hdu.
  - apply Hdu.
  - intros y u. rewrite Hh. intros [_ <-]%list_lookup_singleton_Some. done.
  - intros k' y. rewrite Hl. intros [<- <-]%lookup_singleton_Some. unfold key_at. rewrite Hh, Hdr. cbn.
    split; [lia|done].
  - intros k' y. rewrite Hw, Hl. intros [<- <-]%lookup_singleton_Some. unfold key_at. rewrite Hh, Hdr. cbn.
    split; [lia|]. split; [done|]. split; [done|]. left. apply lookup_singleton_eq.
  - intros k' y. change (creatingTreasures (data s)) with (creatingTreasures (data s0)).
    by rewrite (tr_creating _ _ _ _ Htr), lookup_empty.
  - intros k'. rewrite Hw, Hl. intros Hk'. rewrite Hk'. done.
Qed.

Definition numbers_treasure : treasure :=
  put_Content (Some (only_Uint32Slice (u32_bytes [5; 9]))) (put_Key (bs "n") Treasure.New).

Lemma emptying_a_slice_blocks_witness :
  live (with_one numbers_treasure (opened_at 1 no_files)) !! bs "n" = Some 0%nat /\
  gateway_Uint32SliceDelete 7 [(bs "n", [9; 5])] (with_one numbers_treasure (opened_at 1 no_files)) = Disabled.
Proof.
  destruct (with_one_durable numbers_treasure (bs "n")) as (Hdu & Hl & Hd & Hi).
  - reflexivity.
  - reflexivity.
  - split; reflexivity.
  - apply storable_sample. vm_compute. reflexivity.
  - reflexivity.
  - assert (live (with_one numbers_treasure (opened_at 1 no_files)) !! bs "n" = Some 0%nat) as Hl0
      by (rewrite Hl; apply lookup_singleton_eq).
    split; [exact Hl0|].
    apply (emptying_a_slice_blocks 7 (bs "n") [9; 5] [5; 9] (with_one numbers_treasure (opened_at 1 no_files)) ∅ 0%nat).
    + exact Hdu.
    + exact Hl0.
    + rewrite Hd. split; [reflexivity|]. repeat constructor; lia.
    + intros v. rewrite !elem_of_cons. intros [-> | [-> |Hv]]; [right; left|left|right; right; exact Hv]; reflexivity.
    + left. rewrite Hi. discriminate.
Defined.

(** ** Increments *)

Section IncrementProps.
Context `{SI : Store} `{GM : GobModel} `{GMeta : GobMeta} `{FI : FloatToInt} `{MP : Msgpack} `{SR : SlotRange}.
Context `{HR : KeyRange} `{HS : SortSlice} `{HROk : !KeyRangeOk} `{HOk : !StoreOk}.

End IncrementProps.

Definition counted (z : Z) : Model := t_model (put_Content (Some (only_Int8 z)) (put_Key (bs "n") Treasure.New)).


Definition above (z : Z) : option (IncrementCondition Z) :=
  Some {| c_RelationalOperator := RelationalOperatorGreaterThan; c_Value := z |}.
Definition updated_by (who : bytes) : option IncrementMetadataRequest :=
  Some {| q_SetCreatedAt := false; q_CreatedBy := []; q_SetUpdatedAt := false; q_UpdatedBy := who;
          q_ExpiredAt := zero_time |}.
(** What a request answers, and what the next one does. *)
Definition answer_of {A} (o : outcome (swamp * A)) : option A := match o with Next (_, a) => Some a | _ => None end.
Definition after {A B} (o : outcome (swamp * A)) (next : swamp -> outcome B) : outcome B := let! (s, _) := o in next s.
Definition counter (o : outcome (swamp * option (Z * bool * option IncrementMetadataResponse))) : option (option (Z * bool)) :=
  option_map fst <$> answer_of o.
Definition reopened (s : swamp) : outcome (swamp * unit) :=
  let! s := fileWriterHandler false s in
  let! s := Swamp.Close s in
  match chron s with Some (w, _) => Next (opened_at 1 w, tt) | None => Panic end.
Definition updated (k : bytes) (s : swamp) : outcome (swamp * option bytes) :=
  let! (s, ts) := gateway_Get 0 [k] s in Next (s, t ← head ts; o_UpdatedBy t).

(** A refused increment leaves marks.  On a missing key it leaves the key missing, but the
    type of its number reserved: an increment of another type is an error afterwards, which it
    was not before.  On a stored treasure the metadata it was asked to set are there for
    readers, and are not written, so a swamp opened again does not have them. *)
Theorem refused_increment_leaves_marks :
  let fresh := opened_at 1 no_files in
  let other s := IncrementInt8 7 (bs "n") 1 None None None s in
  let refused := IncrementInt64 5 (bs "n") 1 (above 10) None None fresh in
  let stored := after (IncrementInt64 5 (bs "n") 7 None None None fresh) reopened in
  let marked := after stored (IncrementInt64 6 (bs "n") 1 (above 10) None (updated_by (bs "me"))) in
  counter refused = Some (Some (0, false)) /\
  answer_of (after refused (gateway_IsKeyExist 6 (bs "n"))) = Some false /\
  counter (after refused other) = Some None /\ counter (other fresh) = Some (Some (1, true)) /\
  counter marked = Some (Some (7, false)) /\
  answer_of (after marked (updated (bs "n"))) = Some (Some (bs "me")) /\
  answer_of (after (after marked reopened) (updated (bs "n"))) = Some None.
Proof. split_and!; vm_compute; reflexivity. Qed.
