(* ===== verification/PatchProps.v ===== *)
(** The properties of the patches: of the blobs, of one key of a swamp, of a batch with a cap. *)
From Stdlib Require Import Floats.SpecFloat.
From S2P Require Import Prelude Steps Text Types Compressor Block FileSys Reader Contents Log Session Meta Chronicler Durability Guard Treasure Beacon.
From S2P Require Import Canon Bucket Swamp Gateway SwampInv SwampSteps Saving Increments SwampRun SwampStore.
From S2P Require Import PatchPath Skeleton PatchOps PatchTree PatchEdits PatchDoc PatchFrame PatchMeaning PatchRefine.
From S2P Require Import MsgpackSample SwampPatch GatewayPatch.
Import SwampStore.Sample.
#[local] Set Warnings "-register-all,-clear-no-such-hyp".

(** ** Numbers at their width *)

Definition int_width (code : byte) : Z :=
  if is_code code codeInt8 then 8 else if is_code code codeInt16 then 16 else if is_code code codeInt32 then 32 else 64.
Definition uint_width (code : byte) : Z :=
  if is_code code codeUint8 then 8 else if is_code code codeUint16 then 16 else if is_code code codeUint32 then 32 else 64.

Lemma signed_range w z : 0 < w -> in_int w (signed w z).
Proof.
  intros Hw. unfold signed, in_int. pose proof (Z.mod_pos_bound (z + 2 ^ (w - 1)) (2 ^ w) ltac:(lia)).
  replace (2 ^ w) with (2 * 2 ^ (w - 1)) in *; [lia|]. rewrite <-Z.pow_succ_r by lia. f_equal. lia.
Qed.

Lemma i64_congruent z : exists q, i64 z = z + q * 2 ^ 64.
Proof.
  exists (- ((z + 2 ^ 63) / 2 ^ 64)). unfold i64. pose proof (Z.div_mod (z + 2 ^ 63) (2 ^ 64) ltac:(lia)). lia.
Qed.

Lemma signed_i64 w z : 0 < w <= 64 -> signed w (i64 z) = signed w z.
Proof.
  intros Hw. destruct (i64_congruent z) as [q ->]. unfold signed. f_equal.
  replace (2 ^ 64) with (2 ^ (64 - w) * 2 ^ w) by (rewrite <-Z.pow_add_r by lia; f_equal; lia).
  rewrite <-(Z_mod_plus_full (z + 2 ^ (w - 1)) (q * 2 ^ (64 - w)) (2 ^ w)). f_equal. lia.
Qed.
Lemma u64_mod w z : 0 < w <= 64 -> u64 z mod 2 ^ w = z mod 2 ^ w.
Proof.
  intros Hw. unfold u64. apply Z.mod_mod_divide. exists (2 ^ (64 - w)). rewrite <-Z.pow_add_r by lia. f_equal. lia.
Qed.

Section Numbers.
Context `{MC : MsgpackCodec} `{!MsgpackNumbersOk}.

Lemma read_int w c n :
  head w = Some c -> classifyNumericCode c = ClassInt -> DecodeInt64 w = Some (n, []) -> readNumericLeaf w = Fine (classInt n).
Proof. destruct w as [|c' w]; [done|]. intros [= <-] Hc Hd. cbn. by rewrite Hc, Hd. Qed.
Lemma read_uint w c n :
  head w = Some c -> classifyNumericCode c = ClassUint -> DecodeUint64 w = Some (n, []) -> readNumericLeaf w = Fine (classUint n).
Proof. destruct w as [|c' w]; [done|]. intros [= <-] Hc Hd. cbn. by rewrite Hc, Hd. Qed.

Lemma read_encoded_int code n : in_i64 n -> readNumericLeaf (encodeIntWithCode code n) = Fine (classInt (signed (int_width code) n)).
Proof.
  intros Hn. unfold encodeIntWithCode, int_width. repeat case_match.
  - eapply read_int; [apply Int8_code|done|]. apply Int8_read. by apply signed_range.
  - eapply read_int; [apply Int16_code|done|]. apply Int16_read. by apply signed_range.
  - eapply read_int; [apply Int32_code|done|]. apply Int32_read. by apply signed_range.
  - eapply read_int; [apply Int64_code|done|]. rewrite Int64_read by done. do 2 f_equal.
    assert (in_int 64 n) as Hi by done. rewrite <-(signed_small 64 n) at 1 by (done || lia).
    unfold signed. by rewrite Zplus_mod_idemp_l.
Qed.
Lemma read_encoded_uint code n : in_u64 n -> readNumericLeaf (encodeUintWithCode code n) = Fine (classUint (n mod 2 ^ uint_width code)).
Proof.
  intros Hn. unfold encodeUintWithCode, uint_width. repeat case_match.
  - eapply read_uint; [apply Uint8_code|done|]. apply Uint8_read. exact (Z.mod_pos_bound n 256 eq_refl).
  - eapply read_uint; [apply Uint16_code|done|]. apply Uint16_read. apply u16_bound.
  - eapply read_uint; [apply Uint32_code|done|]. apply Uint32_read. apply u32_bound.
  - eapply read_uint; [apply Uint64_code|done|]. rewrite Uint64_read by done. do 2 f_equal.
    symmetry. apply Z.mod_small. exact Hn.
Qed.

(** The sum of two numbers of one class, at the width of the first one's code. *)
Definition summed (code : byte) (t d : number) (w : bytes) : Prop :=
  match t, d with
  | classInt t, classInt d => readNumericLeaf w = Fine (classInt (signed (int_width code) (t + d)))
  | classUint t, classUint d => readNumericLeaf w = Fine (classUint ((t + d) mod 2 ^ uint_width code))
  | classFloat t, classFloat d => w = encodeFloatWithCode code (SFadd 53 1024 t d)
  | _, _ => False
  end.

Lemma computeIncBytes_summed code t d w : computeIncBytes code t d = Fine w -> summed code t d w.
Proof.
  destruct t as [|t|t|t], d as [|d|d|d]; cbn; try done; intros [= <-].
  - rewrite read_encoded_int by apply i64_range. rewrite signed_i64; [done|]. unfold int_width. repeat case_match; lia.
  - rewrite read_encoded_uint by apply u64_bound. rewrite u64_mod; [done|]. unfold uint_width. repeat case_match; lia.
  - done.
Qed.
End Numbers.

(** ** One blob *)

Section BlobProps.
Context `{MC : MsgpackCodec} `{!MsgpackCodecOk} `{!MsgpackNumbersOk}.

(** C29: [Parse] ends, and accepts exactly the blobs of the grammar, reading in each the one
    document it stands for; a blob that no operation touches is written back as a blob of the
    same document. *)
Theorem parse_and_write (blob : bytes) :
  Parse blob <> Fails OutOfFuel /\
  (forall d, content blob = Fine d <-> encodes d blob) /\
  (forall s, Z.of_nat (length blob) < 2 ^ 32 -> Parse blob = Fine s -> content (Serialize s blob) = content blob).
Proof.
  split; [apply Parse_ends|]. split; [intros d; apply content_encodes|]. intros s Hl Hs.
  rewrite (fresh_meaning _ _ Hs). apply content_encodes, writeNode_encodes; [by apply Parse_parsed|].
  pose proof (Parse_weight _ _ Hs). lia.
Qed.


(** C13: what a batch does not name it keeps: a path that parts at a field name from the paths
    of all operations leads to the same bytes after the batch, however many operations it has
    and whatever they create or remove. *)
Theorem patch_keeps_the_rest (blob : bytes) (ops : list Op) (blob' : bytes) (q : list Segment) (o : option doc) :
  batch_ok blob ops -> Apply blob ops = Fine blob' -> Forall (away_from q) ops ->
  read blob q = Fine o -> read blob' q = Fine o.
Proof. apply Apply_frame. Qed.

(** After a SET its path reads the value, whether the path was there or was created. *)
Theorem set_then_read (blob : bytes) (op : Op) (path : list Segment) (blob' : bytes) :
  batch_ok blob [op] -> op_Kind op = OpSet -> ParsePath (op_Path op) = Fine path -> Apply blob [op] = Fine blob' ->
  exists v, encodes v (op_Value op) /\ read blob' path = Fine (Some v).
Proof.
  intros Hb Hk Hp Ha. pose proof (proj1 (Forall_singleton _ _) (proj1 Hb)) as Hv. unfold value_ok in Hv. rewrite Hk in Hv.
  destruct Hv as [v Hv]. exists v. split; [done|].
  assert (value_doc op = v) as Hd by (unfold value_doc; by rewrite (proj2 (content_encodes _ _) Hv)).
  destruct (Apply_put blob op (fun _ => Fine (value_doc op)) (value_doc op) path blob' Hb Hp) as (t & Ht & Hread); [|done|].
  - unfold doc_edits. rewrite Hk, decide_False; [done|]. by eapply encodes_nonempty.
  - rewrite Ht. do 2 f_equal. rewrite <-Hd. destruct (read blob path) as [[?|]|]; naive_solver.
Qed.

(** C18: after an INC its path reads the sum in the type of the number that was there, wrapped
    around to its width, and where there was none the value. *)
Theorem inc_then_read (blob : bytes) (op : Op) (path : list Segment) (blob' : bytes) :
  batch_ok blob [op] -> op_Kind op = OpInc -> ParsePath (op_Path op) = Fine path -> Apply blob [op] = Fine blob' ->
  exists delta, readNumericLeaf (op_Value op) = Fine delta /\
  match read blob path with
  | Fine None => read blob' path = content (op_Value op) ≫= (fun v => Fine (Some v))
  | Fine (Some (Leaf raw)) =>
      exists t w, readNumericLeaf raw = Fine t /\ read blob' path = Fine (Some (Leaf w)) /\ summed (hd x00 raw) t delta w
  | _ => False
  end.
Proof.
  intros Hb Hk Hp Ha. pose proof (proj1 (Forall_singleton _ _) (proj1 Hb)) as Hv. unfold value_ok in Hv. rewrite Hk in Hv.
  destruct Hv as [v Hv]. pose proof (proj2 (content_encodes _ _) Hv) as Hc.
  assert (value_doc op = v) as Hd by (unfold value_doc; by rewrite Hc).
  assert (exists delta, readNumericLeaf (op_Value op) = Fine delta /\ class_of delta <> ClassNone) as (delta & Hn & Hcl).
  { destruct (Apply_readable _ _ _ Hb Ha) as [d' Hd']. pose proof (Apply_refines _ _ Hb) as Hr.
    rewrite Ha in Hr. cbn [mbind patched_bind] in Hr. rewrite Hd' in Hr. destruct (content blob) as [d|]; [|done].
    unfold update, doc_edits in Hr. rewrite Hp, Hk in Hr. cbn [mbind patched_bind] in Hr.
    case_decide; [done|]. destruct (readNumericLeaf _) as [delta|]; [|done]. cbn [mbind patched_bind] in Hr.
    case_decide; [done|]. by exists delta. }
  exists delta. split; [done|].
  destruct (Apply_put blob op (inc_doc delta) v path blob' Hb Hp) as (t & Ht & Hread); [|done|].
  - unfold doc_edits. rewrite Hk, decide_False by (by eapply encodes_nonempty). rewrite Hn. cbn [mbind patched_bind].
    by rewrite decide_False, Hd.
  - rewrite Ht. destruct (read blob path) as [[t0|]|]; [|by rewrite Hc; cbn; subst|done].
    destruct t0 as [raw|fs|xs]; cbn [inc_doc] in Hread; try done.
    apply patched_bind_Fine in Hread as (tn & Htn & Hread). case_decide; [done|].
    destruct (computeIncBytes _ tn delta) as [w|] eqn:Hw; [|done]. injection Hread as <-.
    exists tn, w. split; [done|]. split; [done|]. by apply computeIncBytes_summed.
Qed.
End BlobProps.

(** *** Examples *)

Ltac sample_encodes := eexists; apply content_encodes; vm_compute; reflexivity.
Ltac sample_batch := split; [repeat constructor; sample_encodes|vm_compute; reflexivity].

(** [{"n": int8 100, "m": {"k": [true]}}] *)
Definition sample_blob : bytes :=
  [Byte.x82; Byte.xa1; Byte.x6e; Byte.xd0; Byte.x64; Byte.xa1; Byte.x6d; Byte.x81; Byte.xa1; Byte.x6b; Byte.x91; Byte.xc3].
Definition set_op (path : string) (value : bytes) : Op := {| op_Kind := OpSet; op_Path := bs path; op_Value := value |}.
Definition inc_op (path : string) (value : bytes) : Op := {| op_Kind := OpInc; op_Path := bs path; op_Value := value |}.

Lemma parse_and_write_witness : exists s, Parse sample_blob = Fine s /\ content (Serialize s sample_blob) = content sample_blob.
Proof.
  eexists. assert (Parse sample_blob = Fine ltac:(let r := eval vm_compute in (Parse sample_blob) in
                     match r with Fine ?s => exact s end)) as E by (vm_compute; reflexivity).
  split; [exact E|]. exact (proj2 (proj2 (parse_and_write sample_blob)) _ eq_refl E).
Defined.


Lemma patch_keeps_the_rest_witness :
  let ops := [set_op "m.new.x" [Byte.x07]; inc_op "n" [Byte.xd0; Byte.x01]] in
  exists blob', Apply sample_blob ops = Fine blob' /\ read blob' [SegField (bs "m"); SegField (bs "k")] = read sample_blob [SegField (bs "m"); SegField (bs "k")].
Proof.
  intros ops. eexists. assert (Apply sample_blob ops = Fine ltac:(let r := eval vm_compute in (Apply sample_blob ops) in
                     match r with Fine ?s => exact s end)) as E by (vm_compute; reflexivity).
  split; [exact E|]. apply (patch_keeps_the_rest sample_blob ops _ _ (Some (ArrayNode [Leaf [Byte.xc3]]))).
  - sample_batch.
  - exact E.
  - repeat constructor; intros path Hp; vm_compute in Hp; injection Hp as <-; vm_compute; reflexivity.
  - vm_compute. reflexivity.
Defined.

Lemma set_then_read_witness :
  exists blob', Apply sample_blob [set_op "new.x" [Byte.x07]] = Fine blob' /\
    exists v, encodes v [Byte.x07] /\ read blob' [SegField (bs "new"); SegField (bs "x")] = Fine (Some v).
Proof.
  eexists. assert (Apply sample_blob [set_op "new.x" [Byte.x07]]
    = Fine ltac:(let r := eval vm_compute in (Apply sample_blob [set_op "new.x" [Byte.x07]]) in
                 match r with Fine ?s => exact s end)) as E by (vm_compute; reflexivity).
  split; [exact E|]. apply (set_then_read sample_blob (set_op "new.x" [Byte.x07]) _ _); [sample_batch|reflexivity| |exact E].
  vm_compute. reflexivity.
Defined.

(** 100 and 100 more are -56 in eight bits. *)
Lemma inc_then_read_witness :
  exists blob', Apply sample_blob [inc_op "n" [Byte.xd0; Byte.x64]] = Fine blob' /\
    exists w, read blob' [SegField (bs "n")] = Fine (Some (Leaf w)) /\ readNumericLeaf w = Fine (classInt (-56)).
Proof.
  eexists. assert (Apply sample_blob [inc_op "n" [Byte.xd0; Byte.x64]]
    = Fine ltac:(let r := eval vm_compute in (Apply sample_blob [inc_op "n" [Byte.xd0; Byte.x64]]) in
                 match r with Fine ?s => exact s end)) as E by (vm_compute; reflexivity).
  split; [exact E|].
  destruct (inc_then_read sample_blob (inc_op "n" [Byte.xd0; Byte.x64]) [SegField (bs "n")] _ ltac:(sample_batch) eq_refl
    ltac:(vm_compute; reflexivity) E) as (delta & Hd & Hread).
  vm_compute in Hd. injection Hd as <-.
  assert (read sample_blob [SegField (bs "n")] = Fine (Some (Leaf [Byte.xd0; Byte.x64]))) as Er by (vm_compute; reflexivity).
  rewrite Er in Hread. destruct Hread as (t & w & Ht & Hw & Hs). vm_compute in Ht. injection Ht as <-.
  exists w. split; [exact Hw|]. exact Hs.
Defined.

(** A batch is not the sequence of its operations.  A value that a SET splices is a leaf
    until the batch ends: a later operation of the batch that goes below it is a type mismatch,
    while the same two operations in two batches succeed. *)
Theorem batch_is_not_sequential :
  let outer := set_op "m" [Byte.x81; Byte.xa1; Byte.x61; Byte.x01] in
  let inner := set_op "m.a" [Byte.x02] in
  Apply sample_blob [outer; inner] = Fails ErrTypeMismatch /\
  exists blob', (b ← Apply sample_blob [outer]; Apply b [inner]) = Fine blob' /\
    read blob' [SegField (bs "m"); SegField (bs "a")] = Fine (Some (Leaf [Byte.x02])).
Proof. split; [vm_compute; reflexivity|]. eexists. split; vm_compute; reflexivity. Qed.

(** An ordered comparison with a number that is not one finds it equal: the guard "equals 5.0"
    holds of it. *)
Lemma nan_equals_everything :
  ApplyWithCondition (Byte.x81 :: Byte.xa1 :: Byte.x6e :: Byte.xcb :: Byte.x7f :: Byte.xf8 :: repeat Byte.x00 6) []
    (Some {| c_Path := bs "n"; c_Op := CondEqual; c_Threshold := EncodeFloat64 (binary_normalize 53 1024 5 0 false) |})
  = Fine (Byte.x81 :: Byte.xa1 :: Byte.x6e :: Byte.xcb :: Byte.x7f :: Byte.xf8 :: repeat Byte.x00 6).
Proof. vm_compute; reflexivity. Qed.

(** ** A batch on a swamp *)

Section BatchProps.
Context `{SI : Store} `{GM : GobModel} `{GMeta : GobMeta} `{FI : FloatToInt} `{MP : Msgpack} `{SR : SlotRange}.
Context `{HR : KeyRange} `{HS : SortSlice} `{HROk : !KeyRangeOk} `{HOk : !StoreOk} `{MC : MsgpackCodec}.

End BatchProps.

(** *** Examples *)

(** [{"s": 1}] *)
Definition claimed : bytes := [Byte.x81; Byte.xa1; Byte.x73; Byte.x01].
Definition is_claimed (body : bytes) : bool := bool_decide (body = claimed).
Definition claim (k : string) : KeyPatch :=
  {| kp_Key := bs k; kp_Ops := [Some {| po_Op := 0; po_Path := bs "s"; po_Value := [Byte.x01] |}];
     kp_Condition := None; kp_Meta := None |}.
Definition claims (keys : list string) : PatchTreasuresRequest :=
  {| pr_CreateIfNotExist := true; pr_InitialMsgpackOnCreate := []; pr_Meta := None; pr_Patches := map claim keys |}.




(** How many treasures of the swamp match. *)
Definition claimed_in (o : outcome (swamp * gmap bytes Z)) : option Z :=
  match o with Next (s, _) => Some (count_for_cap 9 (Some (is_claimed, 1)) s).2 | _ => None end.

(** The cap does not hold against a concurrent batch.  A batch counts before it waits for
    [capMu]: two batches that both count first claim one treasure each under a cap of one,
    while the same two one after the other leave one. *)
Theorem cap_counts_too_early :
  let requests := <[bs "x" := claims ["a"]]> (<[bs "y" := claims ["b"]]> (∅ : gmap bytes PatchTreasuresRequest)) in
  let run es := claimed_in (cap_steps 5 requests (Some (is_claimed, 1)) es (opened_at 1 no_files, ∅)) in
  run [Counts (bs "x"); Runs (bs "x"); Counts (bs "y"); Runs (bs "y")] = Some 1 /\
  run [Counts (bs "x"); Counts (bs "y"); Runs (bs "x"); Runs (bs "y")] = Some 2.
Proof. split; vm_compute; reflexivity. Qed.

(** ** Caps by a filter, and patches of expired treasures *)

From S2P Require Import Filters Planner GatewaySearch PatchPath Skeleton PatchOps MsgpackSample.
From S2P Require Import SwampPatch GatewayPatch SwampPatchExpired.

Module Cap.
#[local] Set Warnings "-register-all,-clear-no-such-hyp".

Section CapProps.
Context `{SI : Store} `{GM : GobModel} `{GMeta : GobMeta} `{FI : FloatToInt} `{MP : Msgpack} `{SR : SlotRange}.
Context `{HR : KeyRange} `{HS : SortSlice} `{HROk : !KeyRangeOk} `{HSOk : !SortSliceOk} `{HOk : !StoreOk} `{MC : MsgpackCodec}.
Context `{LC : LowerCase} `{TG : Trigonometry}.


(** C34: [PatchExpired] on what the keys stand for, on a swamp whose index by expiration time is
    in order or was not built yet.  It takes, of the live treasures that have expired and are selected,
    the first in the order of their times, at most as many as asked for and as the cap leaves:
    one is left out only when as many others that expired no later are taken.  Each is patched
    as a patch of its key would be, with the metadata, and answered with its status and the time it has
    afterwards; the other keys keep what they stand for, and what is stored and what is still to
    be written agree with the result.  The cap counts the treasures of the index. *)
Theorem patch_expired_refines (now howMany : Z) (ops : list Op) (condition : option Condition) (meta : option PatchFieldsMeta)
    (selection cp : option (loc -> bool)) (capMax : Z) (D : gset bytes) (s : swamp) (index : gmap bytes bytes) (spec : gmap bytes Model) :
  nothing_to_apply ops meta = false -> tracked D s index spec -> expiry_kept s ->
  let xs := chosen now howMany selection cp capMax s in
  let ks := map (key_at s) xs in
  expireds_storable now ops condition meta ks spec ->
  let '(spec', entries) := expireds_spec now ops condition meta ks spec in
  (exists s' index' D' capReached,
     PatchExpired now howMany ops condition meta selection cp capMax s = Next (s', (entries, capReached)) /\
     D' ⊆ D /\ tracked D' s' index' spec' /\ live s' = live s) /\
  (forall x, x ∈ xs -> exists m, spec !! key_at s x = Some m /\ m_ExpirationTime m = GetExpirationTime (deref s x)) /\
  first_expired now selection (Z.to_nat (quota now howMany cp capMax s)) s xs /\
  expiry_order s (treasuresByOrder (expiring now s)) /\
  (cp = None -> quota now howMany cp capMax s = if howMany <=? 0 then max_int else howMany) /\
  (0 < howMany -> Z.of_nat (length entries) <= howMany) /\
  (forall p, cp = Some p ->
     Z.of_nat (length entries) <= Z.max 0 (capMax - count_matching p (treasuresByKeys (expiring now s)))).
Proof.
  intros Hn Htr Hk xs ks Hst. destruct (expired_objects now howMany selection cp capMax D s index spec Htr Hk) as (Hlk & Ho & Hl & Hm).
  pose proof (PatchExpired_tracked now ops condition meta howMany selection cp capMax D s index spec Hn Htr Hl Hst) as Hp.
  pose proof (expireds_length now ops condition meta ks spec) as Hlen.
  pose proof (chosen_length now howMany selection cp capMax s) as Hch. destruct (quota_bounds now howMany cp capMax s) as [Hq Hqc].
  fold xs ks in Hp. destruct (expireds_spec _ _ _ _ _ _) as [spec' entries].
  cbn [snd] in Hlen. unfold ks in Hlen. rewrite length_map in Hlen. fold xs in Hch.
  split_and!; [exact Hp|exact Hm|by apply chosen_first|exact Ho|by intros ->|intros; lia|intros p ->; lia].
Qed.
End CapProps.

(** *** Examples *)

(** [{"s": 1}] and [{}], the bodies the examples have. *)
Definition claimed : bytes := [Byte.x81; Byte.xa1; Byte.x73; Byte.x01].
Definition unclaimed : bytes := [Byte.x80].
#[export] Instance example_msgpack : Msgpack := fun body =>
  if bool_decide (body = claimed) then Some [(bs "s", AInt W8 1)]
  else if bool_decide (body = unclaimed) then Some [] else None.
#[export] Instance example_lower : LowerCase := fun s => s.
#[export] Instance example_trig : Trigonometry := {| Sin x := x; Cos x := x; Atan2 y _ := y |}.

Definition is_claimed : FilterGroup :=
  Group AND [{| tf_Operator := EQUAL; tf_CompareValue := Int64Val 1; tf_BytesFieldPath := Some (bs "s"); tf_TreasureKey := None;
                tf_Label := None; tf_StringInVals := []; tf_Int32InVals := []; tf_Int64InVals := [] |}] [] [] [] [] [].
Definition claim_op : option PatchOp := Some {| po_Op := 0; po_Path := bs "s"; po_Value := [Byte.x01] |}.
Definition claims (ops : list (option PatchOp)) (meta : option PatchMeta) (keys : list string) : PatchTreasuresRequest :=
  {| pr_CreateIfNotExist := true; pr_InitialMsgpackOnCreate := []; pr_Meta := meta;
     pr_Patches := map (fun k => {| kp_Key := bs k; kp_Ops := ops; kp_Condition := None; kp_Meta := None |}) keys |}.

Fixpoint storable_results (now : Z) (r : PatchTreasuresRequest) (c : option cap) (patches : list KeyPatch) (budget : Z)
    (spec : gmap bytes Model) : bool :=
  match patches with
  | [] => true
  | p :: patches =>
      let '(spec', _, budget') := patch_spec now r c p budget spec in
      from_option (storable_at sample_path) true (spec' !! kp_Key p) && storable_results now r c patches budget' spec'
  end.
Lemma storable_results_spec now r c patches : forall budget spec,
  storable_results now r c patches budget spec = true -> patches_storable now r c patches budget spec.
Proof.
  induction patches as [|p patches IH]; intros budget spec; cbn; [done|].
  destruct (patch_spec now r c p budget spec) as [[spec' status] budget']. intros [Hs Hr]%andb_true_iff.
  split; [|by apply IH]. destruct (spec' !! kp_Key p); [by apply storable_sample|done].
Qed.

Fixpoint storable_expireds (now : Z) (ops : list Op) (condition : option Condition) (meta : option PatchFieldsMeta)
    (ks : list bytes) (spec : gmap bytes Model) : bool :=
  match ks with
  | [] => true
  | k :: ks =>
      let '(spec, _) := expired_spec now ops condition meta k spec in
      from_option (storable_at sample_path) true (spec !! k) && storable_expireds now ops condition meta ks spec
  end.
Lemma storable_expireds_spec now ops condition meta ks : forall spec,
  storable_expireds now ops condition meta ks spec = true -> expireds_storable now ops condition meta ks spec.
Proof.
  induction ks as [|k ks IH]; intros spec; cbn; [done|]. destruct (expired_spec now ops condition meta k spec) as [spec' a].
  intros [Hs Hr]%andb_true_iff. split; [|by apply IH]. destruct (spec' !! k); [by apply storable_sample|done].
Qed.


#[export] Instance sample_sort_ok : SortSliceOk := Views.stable_sort_ok.

(** Two treasures that expired at 3 and 4; the first of them is claimed, with a lease until 100. *)
Definition expiring_at (t : Z) : option PatchMeta :=
  Some {| pb_SetUpdatedAt := false; pb_SetUpdatedBy := []; pb_SetCreatedAt := false; pb_SetCreatedBy := [];
          pb_SetExpiredAt := Some {| Seconds := t; Nanos := 0 |}; pb_ClearExpiredAt := false |}.
Definition seconds (t : Z) : Z := t * 10 ^ 9.

(** One batch without a cap, and what the keys stand for after it. *)
Definition batched (r : PatchTreasuresRequest) (s : swamp) : swamp :=
  match patchTreasuresOneSwamp 1 r None s with Next (s, _) => s | _ => s end.
Definition batched_spec (r : PatchTreasuresRequest) (spec : gmap bytes Model) : gmap bytes Model :=
  (patches_spec 1 r None (pr_Patches r) 0 spec).1.1.
Lemma batched_tracked r D s index spec :
  tracked D s index spec -> storable_results 1 r None (pr_Patches r) 0 spec = true ->
  exists index' D', tracked D' (batched r s) index' (batched_spec r spec).
Proof.
  intros Htr Hst. pose proof (batch_tracked 1 r None D s index spec Htr I) as Hb. cbn zeta in Hb. cbn [budget_of count_of] in Hb.
  unfold batched_spec, batched. destruct (patches_spec _ _ _ _ _ _) as [[spec' results] rest].
  destruct (Hb (storable_results_spec _ _ _ _ _ _ Hst)) as (s' & index' & D' & -> & _ & Htr'). by exists index', D'.
Qed.

Definition expiring_claim (t : Z) (k : string) : PatchTreasuresRequest := claims [] (expiring_at t) [k].
Definition two_expired : swamp := batched (expiring_claim 3 "b") (batched (expiring_claim 4 "a") (opened_at 1 no_files)).
Definition two_expired_spec : gmap bytes Model := batched_spec (expiring_claim 3 "b") (batched_spec (expiring_claim 4 "a") ∅).
Lemma two_expired_tracked : exists index D, tracked D two_expired index two_expired_spec.
Proof.
  destruct (batched_tracked (expiring_claim 4 "a") ∅ _ _ _ new_tracked) as (i1 & D1 & H1); [vm_compute; reflexivity|].
  apply (batched_tracked (expiring_claim 3 "b") D1 _ i1 _ H1). vm_compute. reflexivity.
Qed.

Definition claim_ops : list Op := [{| op_Kind := OpSet; op_Path := bs "s"; op_Value := [Byte.x01] |}].
Definition lease : option PatchFieldsMeta := protoMetaToSwampMeta (expiring_at 100).

Lemma patch_expired_refines_witness :
  exists s' entries capReached,
    PatchExpired (seconds 10) 1 claim_ops None lease None None 0 two_expired = Next (s', (entries, capReached)) /\
    map (fun e => (pe_Key e, pe_Status e, pe_ExpiredAt e)) entries = [(bs "b", PatchStatusPatched, seconds 100)] /\
    Z.of_nat (length entries) <= 1.
Proof.
  destruct two_expired_tracked as (index & D & Htr).
  assert (IsInitialized (beacons (data two_expired) expirationTimeBeacon ASC) = false) as Hi by (vm_compute; reflexivity).
  assert (expiry_kept two_expired) as Hl by (unfold expiry_kept; cbv zeta; rewrite Hi; split; vm_compute; reflexivity).
  set (ks := map (key_at two_expired) (chosen (seconds 10) 1 None None 0 two_expired)).
  assert (storable_expireds (seconds 10) claim_ops None lease ks two_expired_spec = true) as Hst by (vm_compute; reflexivity).
  pose proof (patch_expired_refines (seconds 10) 1 claim_ops None lease None None 0 D two_expired index two_expired_spec
    eq_refl Htr Hl) as Hp. cbv zeta in Hp. fold ks in Hp. specialize (Hp (storable_expireds_spec _ _ _ _ _ _ Hst)).
  destruct (expireds_spec (seconds 10) claim_ops None lease ks two_expired_spec) as [spec' entries] eqn:E.
  destruct Hp as ((s' & _ & _ & capReached & Hr & _) & _ & _ & _ & _ & Hn & _). exists s', entries, capReached.
  split; [exact Hr|]. split; [|exact (Hn eq_refl)].
  apply (f_equal (fun x => map (fun e => (pe_Key e, pe_Status e, pe_ExpiredAt e)) x.2)) in E. cbn [snd] in E. rewrite <-E.
  vm_compute. reflexivity.
Defined.

(** The cap of [PatchExpired] counts only treasures that expire: with two claimed treasures
    that do not, and a cap of two, it claims a third. *)
Definition two_claimed : PatchTreasuresRequest := claims [claim_op] None ["c"; "d"].
Definition crowded : swamp := batched two_claimed two_expired.
Definition claimed_in (s : swamp) : list bytes :=
  (map_to_list (filter (fun kx => evaluate_group (deref s kx.2) is_claimed = true) (live s))).*1.

Lemma cap_counts_expiring_only :
  claimed_in crowded = [bs "d"; bs "c"] /\
  match PatchExpired (seconds 10) 1 claim_ops None lease None
          (Some (fun x => evaluate_group (deref crowded x) is_claimed)) 2 crowded with
  | Next (s', (entries, capReached)) => (map pe_Status entries, capReached, claimed_in s')
  | _ => ([], false, [])
  end = ([PatchStatusPatched], true, [bs "d"; bs "c"; bs "b"]).
Proof. split; vm_compute; reflexivity. Qed.
End Cap.
