(* ===== verification/FilterProps.v ===== *)
(** The properties of filters and of the searches with them. *)
From Stdlib Require Import Floats.SpecFloat.
From S2P Require Import Prelude Steps Types Compressor Block FileSys Reader Contents Log Session.
From S2P Require Import Meta Chronicler Durability Guard Treasure Beacon Views Canon Bucket Slots Indexing.
From S2P Require Import Swamp Gateway SwampInv SwampSteps SwampRun SwampStore Text.
From S2P Require Import Filters Planner GatewaySearch Plans Alike Fields Searches FieldSteps.
Import SwampStore.Sample.
#[local] Set Warnings "-register-all,-clear-no-such-hyp".

(** ** A small swamp to search in

    Bodies are [f] followed by a text, [n] by nothing: a text and two tags, or the number 1.5. *)
Module Sample.
#[export] Instance msgpack : Msgpack := fun body =>
  match body with
  | x66 :: text => Some [(bs "f", AString text); (bs "tags", AArray [AString (bs "red"); AString (bs "blue")])]
  | [x6e] => Some [(bs "f", AFloat64 (S754_finite false 6755399441055744 (-52)))]
  | _ => None
  end.
#[export] Instance lower : LowerCase := fun s => s.
#[export] Instance trig : Trigonometry :=
  {| Sin x := x; Cos _ := S754_finite false 4503599627370496 (-52); Atan2 y _ := y |}.

Lemma msgpack_ok : decodes_well.
Proof.
  intros body m. unfold Unmarshal, msgpack.
  destruct body as [|b body]; [done|]. destruct b; try done; [by intros [= <-]|].
  destruct body; [by intros [= <-]|done].
Qed.
#[export] Instance floats_ok : FloatToIntOk.
Proof.
  split; intros z f _ -> Hf Hz; cbn in Hz; subst z.
  - apply (Hf (- 2 ^ 63)); [by vm_compute|]. unfold in_i64. lia.
  - apply (Hf (2 ^ 63)); [by vm_compute|]. unfold in_u64. lia.
Qed.
#[export] Instance slots_ok : SlotRangeOk.
Proof. by split. Qed.

(** A filter on a body field, with a label. *)
Definition leg (path : string) (op : Operator) (v : CompareValue) (label : option bytes) : TreasureFilter :=
  {| tf_Operator := op; tf_CompareValue := v; tf_BytesFieldPath := Some (bs path); tf_TreasureKey := None;
     tf_Label := label; tf_StringInVals := []; tf_Int32InVals := []; tf_Int64InVals := [] |}.
Definition text_is (v : string) : TreasureFilter := leg "f" EQUAL (StringVal (bs v)) (Some (bs v)).
Definition all_of (legs : list TreasureFilter) : FilterGroup := Group AND legs [] [] [] [] [].
Definition any_of (legs : list TreasureFilter) : FilterGroup := Group OR legs [] [] [] [] [].

Definition body_item (k : string) (body : bytes) : KeyValuePair :=
  {| p_Key := bs k; p_Int8Val := None; p_Int16Val := None; p_Int32Val := None; p_Int64Val := None;
     p_Uint8Val := None; p_Uint16Val := None; p_Uint32Val := None; p_Uint64Val := None; p_Float32Val := None;
     p_Float64Val := None; p_StringVal := None; p_BoolVal := None; p_BytesVal := Some body;
     p_Uint32Slice := None; p_VoidVal := None; p_CreatedAt := None; p_CreatedBy := []; p_UpdatedAt := None;
     p_UpdatedBy := []; p_ExpiredAt := None |}.
Definition text_body (v : string) : bytes := msgpackMagic0 :: msgpackMagic1 :: x66 :: bs v.

Definition filled (items : list KeyValuePair) : swamp :=
  match gateway_Set 7 true true items (opened_at 1 no_files) with Next (s, _) => s | _ => opened_at 1 no_files end.
Definition three : swamp :=
  filled [body_item "a" (text_body "open"); body_item "b" (text_body "done"); body_item "c" (text_body "open")].

Definition by_key : IndexRequest :=
  {| ir_IndexType := IndexType_KEY; ir_OrderType := OrderType_DESC; ir_From := 0; ir_Limit := 0; ir_FromTime := None;
     ir_ToTime := None; ir_Filters := None; ir_MaxResults := 0; ir_ExcludeKeys := []; ir_KeysOnly := false; ir_IncludedKeys := [] |}.
Definition with_filter (g : FilterGroup) (r : IndexRequest) : IndexRequest :=
  {| ir_IndexType := ir_IndexType r; ir_OrderType := ir_OrderType r; ir_From := ir_From r; ir_Limit := ir_Limit r;
     ir_FromTime := ir_FromTime r; ir_ToTime := ir_ToTime r; ir_Filters := Some g; ir_MaxResults := ir_MaxResults r;
     ir_ExcludeKeys := ir_ExcludeKeys r; ir_KeysOnly := ir_KeysOnly r; ir_IncludedKeys := ir_IncludedKeys r |}.
(** The keys and the labels of what is sent. *)
Definition keys_sent (r : IndexRequest) (s : swamp) : option (list (bytes * list bytes)) :=
  match gateway_GetByIndexStream 9 r s with
  | Next (_, Some sent) => Some (map (fun '(pb, m) => (o_Key pb, matchedLabels m)) sent)
  | _ => None
  end.
End Sample.


(** ** The evaluation *)

Section Evaluation.
Context `{FI : FloatToInt} `{LC : LowerCase} `{MP : Msgpack} `{TG : Trigonometry}.


(** A phrase filter finds the words at consecutive positions, whatever order they are stored
    in: its binary searches and early exits come to that, and the answer is turned round for a
    negated filter. *)
Theorem phrase_found (t : treasure) (pf : PhraseFilter) (decoded idx : list (bytes * any)) :
  decoded_body t = Some decoded -> Filters.extractFieldByPath decoded (pf_BytesFieldPath pf) = Plain (AMap idx) ->
  pf_Words pf <> [] -> Z.of_nat (length (pf_Words pf)) < 2 ^ 62 ->
  (forall word z, word ∈ pf_Words pf -> word_at idx word z -> - 2 ^ 62 <= z < 2 ^ 62) ->
  exists found, evaluateNativePhraseFilter t pf = xorb (pf_Negate pf) found /\
    (found = true <-> exists start, forall i word, pf_Words pf !! i = Some word -> word_at idx word (start + Z.of_nat i)).
Proof. apply phrase_spec. Qed.

(** C14: a plan keeps the filter.  When the planner turns legs into lookups, the filter holds of
    a treasure exactly when one of the lookups is for the value the treasure has in the field,
    compared as canonical values, and the rest of the filter holds - where the body has the
    magic prefix, the path no wildcard, and the value and the operand are not a float and an
    integer the one of which is no value of the other. *)
Theorem plan_keeps_the_filter (g : FilterGroup) (t : treasure) :
  decodes_well -> known g = true -> Mode (PlanFilter (Some g)) <> PlanModeBypass ->
  (forall f, f ∈ candidate_legs g -> is_Some (indexableHint f) -> leg_plain t f = true) ->
  evaluateNativeFilterGroup t (Some g) =
  existsb (fun h => hint_holds h t) (Hints (PlanFilter (Some g))) &&
  evaluateNativeFilterGroup t (Residual (PlanFilter (Some g))).
Proof.
  intros Hd Hk Hm Hp. destruct (plan_group_spec g Hk Hm) as (legs & _ & Hh & Hin & Hev). cbn.
  rewrite Hev. f_equal. eapply any_hint_legs; eauto.
Qed.
End Evaluation.

(** ** The searches *)

Section Searching.
Context `{SI : Store} `{GM : GobModel} `{GMeta : GobMeta} `{FI : FloatToInt} `{MP : Msgpack} `{SR : SlotRange}.
Context `{HR : KeyRange} `{HS : SortSlice} `{LC : LowerCase} `{TG : Trigonometry} `{!FloatToIntOk} `{!SlotRangeOk}.

(** C10: a stream whose filter has a plan, without a start, a limit or a maximum of results, over an
    index by key or by time, on a swamp whose field indexes are in order and whose bodies the
    filter can search ([searchable]: the bodies carry their prefix, the paths of the legs that may be
    looked up are plain, and the values there compare as their canonical values do).  It sends, in the
    order of the index and each once, the treasures the filter matches that are within the
    bounds on the time and among the keys asked for: the indexes it builds on the way, or finds,
    give it the candidates. *)
Theorem planned_stream_sends_the_matches (s : swamp) (now : Z) (r : IndexRequest) (g : FilterGroup) :
  decodes_well -> indexed s -> searchable s g ->
  ir_Filters r = Some g -> ir_From r <= 0 -> ir_Limit r <= 0 -> ir_MaxResults r <= 0 ->
  bucketExecPreconditions (inputIndexTypeToBeaconType (ir_IndexType r)) = true ->
  (ir_KeysOnly r = true \/ forall k x, live s !! k = Some x -> is_Some (treasureToKeyValuePair (deref s x))) ->
  exists s' sent ts, gateway_GetByIndexStream now r s = Next (s', Some sent) /\ indexed s' /\ same_live s s' /\
    listed s (stream_wants r g) ts /\
    in_order (index_less (inputIndexTypeToBeaconType (ir_IndexType r)) (inputOrderTypeToBeaconOrderType (ir_OrderType r))) ts /\
    Forall2 (fun t sent => to_pb (ir_KeysOnly r) t = Next sent.1) ts sent.
Proof. intros. by apply planned_stream_spec. Qed.

(** C15: the two selections with a filter that has a plan, on a swamp whose field indexes are in order
    and whose bodies the filter can search ([searchable], as above).  That of [PatchExpired] is the
    filter.  That of [ShiftMatching] is the filter, too, when some live treasure has a value
    that is looked up; when none has, the filter matches nothing, and the selection takes every
    treasure the rest of the filter admits. *)
Theorem selections_by_plan (s : swamp) (g : FilterGroup) (bt : BeaconType) (fromTime toTime : option Z) :
  decodes_well -> indexed s -> searchable s g ->
  (exists s' p, buildPatchExpiredSelectionPredicate (Some g) s = Next (s', Some p) /\ indexed s' /\ same_live s s' /\
     forall k x, live s !! k = Some x -> p (deref s x) = evaluate_group (deref s x) g) /\
  (exists s' p, buildShiftMatchingPredicate bt (Some g) fromTime toTime s = Next (s', p) /\ indexed s' /\ same_live s s' /\
     forall k x, live s !! k = Some x ->
       (finds_some s g -> p (deref s x) = selected_time bt fromTime toTime (deref s x) && evaluate_group (deref s x) g) /\
       (~ finds_some s g -> evaluate_group (deref s x) g = false /\
          p (deref s x) = selected_time bt fromTime toTime (deref s x)
                          && evaluateNativeFilterGroup (deref s x) (Residual (plan_group g)))).
Proof. intros. split; [by apply patch_predicate_spec|by apply shift_predicate_spec]. Qed.
(** C11: the field indexes stay in order.  Whatever sets (of values other than integer slices),
    deletes, searches, shifts and writes a swamp serves in a row, afterwards each of its field
    indexes again lists exactly the live treasures, under the values their bodies have in the
    field - so that the next search finds what it is to find. *)
Theorem field_indexes_stay_in_order (rs : list index_request) (s s' : swamp) :
  decodes_well -> indexed s -> creating_ok s -> forallb no_slices rs = true ->
  run serve_index rs s = Next s' -> indexed s' /\ creating_ok s'.
Proof. intros Hd Hi Hc Hn Hr. apply tended_indexed. eapply run_index_tended; eauto. by apply tended_indexed. Qed.
End Searching.

Import Sample.

Lemma three_indexed : indexed three.
Proof. apply indexed_none; [apply keyed_checked; by vm_compute|by vm_compute]. Qed.

(** *** Examples *)

Definition at_key (k : string) (s : swamp) : treasure :=
  match live s !! bs k with Some x => deref s x | None => Treasure.New end.


Lemma plan_keeps_the_filter_witness :
  let g := all_of [text_is "open"] in let t := at_key "a" three in
  evaluateNativeFilterGroup t (Some g) = true /\ existsb (fun h => hint_holds h t) (Hints (PlanFilter (Some g))) = true.
Proof.
  cbn zeta. set (g := all_of [text_is "open"]). set (t := at_key "a" three).
  assert (evaluateNativeFilterGroup t (Some g) = true) as Hm by (vm_compute; reflexivity).
  assert (legs_check t g = true) as Hl by (vm_compute; reflexivity).
  assert (Mode (PlanFilter (Some g)) <> PlanModeBypass) as Hp by (vm_compute; discriminate).
  split; [exact Hm|].
  pose proof (plan_keeps_the_filter g t msgpack_ok eq_refl Hp (fun f => legs_checked t g f Hl)) as E.
  rewrite Hm in E. symmetry in E. exact (proj1 (proj1 (andb_true_iff _ _) E)).
Defined.

Definition keys_only (r : IndexRequest) (s : swamp) : option (list bytes) :=
  match gateway_GetByIndexStream 9 r s with Next (_, Some sent) => Some (map (fun x => o_Key x.1) sent) | _ => None end.

Lemma planned_stream_sends_the_matches_witness :
  let g := any_of [text_is "open"; text_is "gone"] in
  exists s' sent ts, gateway_GetByIndexStream 9 (with_filter g by_key) three = Next (s', Some sent) /\
    listed three (stream_wants (with_filter g by_key) g) ts /\ map (fun x => o_Key x.1) sent = [bs "c"; bs "a"] /\
    Forall2 (fun t sent => to_pb false t = Next sent.1) ts sent.
Proof.
  cbn zeta. set (g := any_of _). set (r := with_filter g by_key).
  assert (search_check three g = true) as Hs by (vm_compute; reflexivity).
  assert (live_check three (fun _ t => bool_decide (is_Some (treasureToKeyValuePair t))) = true) as Ha by (vm_compute; reflexivity).
  assert (keys_only r three = Some [bs "c"; bs "a"]) as Hk by (vm_compute; reflexivity).
  destruct (planned_stream_sends_the_matches three 9 r g msgpack_ok three_indexed (search_checked _ _ Hs) eq_refl
    (Z.le_refl 0) (Z.le_refl 0) (Z.le_refl 0) eq_refl
    (or_intror (fun k x Hx => proj1 (bool_decide_eq_true _) (live_check_spec _ _ k x Ha Hx))))
    as (s' & sent & ts & Hsent & _ & _ & Hl & _ & Hf).
  exists s', sent, ts. split; [exact Hsent|]. split; [exact Hl|]. split; [|exact Hf].
  unfold keys_only in Hk. rewrite Hsent in Hk. injection Hk as Hk. exact Hk.
Defined.

Lemma selections_by_plan_witness :
  let g := all_of [text_is "gone"] in
  ~ finds_some three g /\
  exists s' p, buildShiftMatchingPredicate BeaconTypeKey (Some g) None None three = Next (s', p) /\
    forall k x, live three !! k = Some x -> evaluate_group (deref three x) g = false /\ p (deref three x) = true.
Proof.
  cbn zeta. set (g := all_of _).
  assert (search_check three g = true) as Hs by (vm_compute; reflexivity).
  assert (finds_check three g = false) as Hn by (vm_compute; reflexivity).
  split; [exact (finds_checked _ _ Hn)|].
  destruct (proj2 (selections_by_plan three g BeaconTypeKey None None msgpack_ok three_indexed (search_checked _ _ Hs)))
    as (s' & p & Hp & _ & _ & Hall).
  exists s', p. split; [exact Hp|]. intros k x Hx. destruct (proj2 (Hall k x Hx) (finds_checked _ _ Hn)) as [He E].
  split; [exact He|]. rewrite E. reflexivity.
Defined.

(** A field is indexed, a treasure is written again, one is deleted, and one is taken. *)
Definition session : list index_request :=
  [Streaming 9 (with_filter (all_of [text_is "open"]) by_key);
   Setting 10 true true [body_item "a" (text_body "done"); body_item "d" (text_body "open")];
   Deleting 11 [bs "c"]; Flushing;
   Shifting 12 {| sr_IndexType := IndexType_KEY; sr_OrderType := OrderType_ASC; sr_HowMany := 1; sr_MaxResults := 0;
     sr_FromTime := None; sr_ToTime := None; sr_Filters := Some (all_of [text_is "done"]); sr_Cap := None |}].
Definition end_of (o : outcome swamp) : swamp := match o with Next s => s | _ => three end.

Definition ended (o : outcome swamp) : bool := match o with Next _ => true | _ => false end.
Lemma end_of_ended o : ended o = true -> o = Next (end_of o).
Proof. by destruct o. Qed.

Lemma field_indexes_stay_in_order_witness :
  let s := end_of (run serve_index session three) in
  indexed s /\ size (buckets (data s)) = 1%nat /\
  keys_only (with_filter (all_of [text_is "open"]) by_key) s = Some [bs "d"] /\
  keys_only (with_filter (all_of [text_is "done"]) by_key) s = Some [bs "b"].
Proof.
  cbn zeta. set (s := end_of _).
  assert (ended (run serve_index session three) = true) as He by (vm_compute; reflexivity).
  pose proof (end_of_ended _ He) as Hr. fold s in Hr.
  split; [|split; [|split]]; [|vm_compute; reflexivity..].
  assert (creating_ok three) as Hc.
  { intros k x Hx. assert (creatingTreasures (data three) = ∅) as E by (vm_compute; reflexivity).
    rewrite E, lookup_empty in Hx. discriminate Hx. }
  exact (proj1 (field_indexes_stay_in_order session three s msgpack_ok three_indexed Hc eq_refl Hr)).
Defined.

(** *** Plans that give another answer *)

(** The same filter as a sub-group, which the planner leaves alone. *)
Definition wrap (g : FilterGroup) : FilterGroup := Group AND [] [g] [] [] [] [].

Lemma wrap_same t g : evaluate_group t (wrap g) = evaluate_group t g.
Proof. unfold wrap. rewrite and_legs. cbn. by rewrite !andb_true_r. Qed.

Definition matching (g : FilterGroup) : ShiftMatchingRequest :=
  {| sr_IndexType := IndexType_KEY; sr_OrderType := OrderType_ASC; sr_HowMany := 0; sr_MaxResults := 0; sr_FromTime := None;
     sr_ToTime := None; sr_Filters := Some g; sr_Cap := None |}.
(** The keys that are handed out, and those that are left. *)
Definition shifted (g : FilterGroup) (s : swamp) : option (list bytes * list bytes) :=
  match shiftMatchingOneSwamp 9 (matching g) s with
  | Next (s', Some (ts, _)) => Some (map o_Key ts, (map_to_list (live s')).*1)
  | _ => None
  end.

(** [ShiftMatchingTreasures] with a filter on a field that no treasure satisfies takes and
    deletes every treasure of the swamp; the same filter as a sub-group takes none. *)
Theorem shift_takes_everything :
  live_check three (fun _ t => negb (evaluate_group t (all_of [text_is "gone"]))) = true /\
  shifted (all_of [text_is "gone"]) three = Some ([bs "a"; bs "b"; bs "c"], []) /\
  (forall t, evaluate_group t (wrap (all_of [text_is "gone"])) = evaluate_group t (all_of [text_is "gone"])) /\
  shifted (wrap (all_of [text_is "gone"])) three = Some ([], [bs "c"; bs "b"; bs "a"]).
Proof.
  split; [vm_compute; reflexivity|]. split; [vm_compute; reflexivity|]. split; [|vm_compute; reflexivity].
  intros t. apply wrap_same.
Qed.

Definition half : swamp := filled [body_item "n" [msgpackMagic0; msgpackMagic1; x6e]].
Definition bare : swamp := filled [body_item "n" (x66 :: bs "open")].
Definition page (from limit : Z) (t : IndexType) : IndexRequest :=
  {| ir_IndexType := t; ir_OrderType := OrderType_ASC; ir_From := from; ir_Limit := limit; ir_FromTime := None;
     ir_ToTime := None; ir_Filters := None; ir_MaxResults := 0; ir_ExcludeKeys := []; ir_KeysOnly := false; ir_IncludedKeys := [] |}.
(** What a stream sends for a filter and for the same filter as a sub-group. *)
Definition two_ways (g : FilterGroup) (r : IndexRequest) (s : swamp) :=
  (keys_sent (with_filter g r) s, keys_sent (with_filter (wrap g) r) s).

(** A filter answers differently through the field indexes and without them, although the
    treasures it matches are the same: a float against an integer, a wildcard or a length in
    the path, a body without the magic prefix, the page of a request (which comes before the
    filter without a plan and after the lookup with one), treasures without the time of the
    index, and the labels of the legs that were looked up. *)
Theorem plans_change_answers :
  (forall t g, evaluate_group t (wrap g) = evaluate_group t g) /\
  two_ways (all_of [leg "f" EQUAL (Int64Val 1) None]) (page 0 0 IndexType_KEY) half = (Some [], Some [(bs "n", [])]) /\
  two_ways (all_of [leg "tags[*]" EQUAL (StringVal (bs "red")) None]) (page 0 0 IndexType_KEY) three =
    (Some [], Some [(bs "a", []); (bs "b", []); (bs "c", [])]) /\
  two_ways (all_of [leg "tags.#len" EQUAL (Int64Val 2) None]) (page 0 0 IndexType_KEY) three =
    (Some [], Some [(bs "a", []); (bs "b", []); (bs "c", [])]) /\
  two_ways (all_of [leg "f" EQUAL (StringVal (bs "open")) None]) (page 0 0 IndexType_KEY) bare = (Some [(bs "n", [])], Some []) /\
  two_ways (all_of [leg "f" EQUAL (StringVal (bs "open")) None]) (page 1 1 IndexType_KEY) three = (Some [(bs "c", [])], Some []) /\
  two_ways (all_of [leg "f" EQUAL (StringVal (bs "open")) None]) (page 0 0 IndexType_CREATION_TIME) three =
    (Some [(bs "c", []); (bs "a", [])], Some []) /\
  two_ways (all_of [text_is "done"]) (page 0 0 IndexType_KEY) three = (Some [(bs "b", [])], Some [(bs "b", [bs "done"])]).
Proof.
  split; [exact wrap_same|].
  repeat match goal with |- _ /\ _ => split; [vm_compute; reflexivity|] end. vm_compute. reflexivity.
Qed.

(** A logic nobody knows: the evaluation takes it for AND, the planner for OR. *)
Lemma unknown_logic_is_two_things :
  let g := Group (OtherLogic 7) [text_is "open"; text_is "done"] [] [] [] [] [] in
  live_check three (fun _ t => negb (evaluate_group t g)) = true /\
  keys_sent (with_filter g (page 0 0 IndexType_KEY)) three = Some [(bs "a", []); (bs "b", []); (bs "c", [])].
Proof. split; vm_compute; reflexivity. Qed.

(** The box around a point does not go round the date line. *)
Lemma box_stops_at_the_date_line :
  box_contains (newGeoBoundingBox (float64_of_Z 0) (float64_of_Z 179) (float64_of_Z 500))
    (float64_of_Z 0) (float64_of_Z (-179)) = false.
Proof. vm_compute. reflexivity. Qed.

(** ** The index by update time *)

Definition updated (k : string) (v : string) (seconds : Z) : KeyValuePair :=
  {| p_Key := bs k; p_Int8Val := None; p_Int16Val := None; p_Int32Val := None; p_Int64Val := None;
     p_Uint8Val := None; p_Uint16Val := None; p_Uint32Val := None; p_Uint64Val := None; p_Float32Val := None;
     p_Float64Val := None; p_StringVal := Some (bs v); p_BoolVal := None; p_BytesVal := None;
     p_Uint32Slice := None; p_VoidVal := None; p_CreatedAt := None; p_CreatedBy := [];
     p_UpdatedAt := Some {| Seconds := seconds; Nanos := 0 |}; p_UpdatedBy := []; p_ExpiredAt := None |}.
Definition since (seconds : Z) : IndexRequest :=
  {| ir_IndexType := IndexType_UPDATE_TIME; ir_OrderType := OrderType_ASC; ir_From := 0; ir_Limit := 0;
     ir_FromTime := Some {| Seconds := seconds; Nanos := 0 |}; ir_ToTime := None; ir_Filters := None; ir_MaxResults := 0;
     ir_ExcludeKeys := []; ir_KeysOnly := false; ir_IncludedKeys := [] |}.
(** Writes, reads by the index, and writes again. *)
Definition read_index (r : IndexRequest) (s : swamp) : swamp * option (list bytes) :=
  match gateway_GetByIndex 9 r s with Next (s, Some ts) => (s, Some (map o_Key ts)) | _ => (s, None) end.
Definition write_again (items : list KeyValuePair) (s : swamp) : swamp :=
  match gateway_Set 8 true true items s with Next (s, _) => s | _ => s end.

Definition two_updates : swamp := filled [updated "a" "x" 10; updated "b" "x" 20].

Definition late_update : swamp := filled [item "a" "x"; updated "b" "x" 20].
Definition all_updates : IndexRequest := page 0 0 IndexType_UPDATE_TIME.

(** The index by update time goes stale.  A treasure that is written again keeps its place,
    so reading by the index gives the old order, the search in the window looks at unsorted
    times and misses the treasure, and one that gets its first update time later never comes
    into the index; an index that is built afterwards has it all. *)
Theorem update_index_goes_stale :
  let before := (read_index all_updates two_updates).1 in
  let s := write_again [updated "a" "y" 30] before in
  let fresh := write_again [updated "a" "y" 30] two_updates in
  let late := write_again [updated "a" "y" 30] (read_index all_updates late_update).1 in
  (read_index all_updates s).2 = Some [bs "a"; bs "b"] /\ (read_index all_updates fresh).2 = Some [bs "b"; bs "a"] /\
  (read_index (since 25) s).2 = Some [] /\ (read_index (since 25) fresh).2 = Some [bs "a"] /\
  (read_index all_updates late).2 = Some [bs "b"] /\ GetModifiedAt (at_key "a" late) = 30 * 10 ^ 9.
Proof.
  cbn zeta. repeat match goal with |- _ /\ _ => split; [vm_compute; reflexivity|] end. vm_compute. reflexivity.
Qed.

(** A phrase in a body: the words of its index are at the positions 1, 2 and 5. *)
Module Phrases.
#[export] Instance msgpack : Msgpack := fun _ =>
  Some [(bs "words", AMap [(bs "big", AArray [AInt W64 5; AInt W64 1]); (bs "data", AArray [AUint W8 2])])].
Definition t : treasure := put_Key (bs "doc") Treasure.New.
Definition doc : treasure :=
  default t (with_guard 1 (on_model (fun m => {| m_Key := m_Key m; m_Content := Some (only_ByteArray (Some [msgpackMagic0; msgpackMagic1]));
    m_CreatedAt := 0; m_CreatedBy := []; m_DeletedAt := 0; m_DeletedBy := []; m_ModifiedAt := 0; m_ModifiedBy := [];
    m_ExpirationTime := 0; m_FileName := None |})) (put_guard {| waitForUnlock := [1]; largestGuardID := 1; bodyAuthID := [] |} t)).
Definition phrase (words : list bytes) : PhraseFilter :=
  {| pf_BytesFieldPath := bs "words"; pf_Words := words; pf_Negate := false; pf_TreasureKey := None; pf_Label := None |}.
End Phrases.
Import Phrases.

Lemma phrase_found_witness :
  exists found, evaluateNativePhraseFilter doc (phrase [bs "big"; bs "data"]) = xorb false found /\ found = true.
Proof.
  destruct (phrase_found doc (phrase [bs "big"; bs "data"])
    [(bs "words", AMap [(bs "big", AArray [AInt W64 5; AInt W64 1]); (bs "data", AArray [AUint W8 2])])]
    [(bs "big", AArray [AInt W64 5; AInt W64 1]); (bs "data", AArray [AUint W8 2])]) as (found & E & Hf).
  - vm_compute. reflexivity.
  - vm_compute. reflexivity.
  - discriminate.
  - vm_compute. reflexivity.
  - intros word z Hw (v & Hv & Hz).
    assert (word = bs "big" \/ word = bs "data") as [-> | ->] by set_solver; cbn in Hv; injection Hv as <-; cbn in Hz.
    + assert (z = 5 \/ z = 1) as [-> | ->] by set_solver; split; (discriminate || reflexivity).
    + assert (z = 2) as -> by set_solver; split; (discriminate || reflexivity).
  - exists found. split; [exact E|]. apply Hf. exists 1. intros [|[|i]] word Hi; cbn in Hi; [..|discriminate].
    + injection Hi as <-. eexists. split; [reflexivity|]. cbn. set_solver.
    + injection Hi as <-. eexists. split; [reflexivity|]. cbn. set_solver.
Defined.
