(* ===== verification/RegistryProps.v ===== *)
(** The properties of names, settings and the registry of open swamps. *)
From S2P Require Import Prelude Steps Text Names Settings Hydra HydraInv.
Import Hydra.Opening.
#[local] Set Warnings "-register-all,-clear-no-such-hyp".

(** ** Names *)



(** Where the file of a swamp lies.  A name that has not been asked before panics exactly
    when the depth is negative or the hash, written without leading zeros, is too short for it;
    otherwise the answer is kept, whatever a later call asks for.  Two swamps below one root
    have the same location exactly when they have the same island and the same hash: the
    folders between are no cause of a collision, and the root, however it is written, none either. *)
Theorem swamp_location `{XHOk : XXHashOk} (root : bytes) (depth folders : Z) (n1 n2 : name) (i1 i2 : Z) :
  HashPath n1 = [] -> HashPath n2 = [] -> 0 <= i1 < 2 ^ 64 -> 0 <= i2 < 2 ^ 64 ->
  (GetFullHashPath root i1 depth folders n1 = Panic <-> ~ deep_enough (Sum64 (Path n1)) depth folders) /\
  (forall n1' p1, GetFullHashPath root i1 depth folders n1 = Next (n1', p1) ->
     (forall root' i' depth' folders', GetFullHashPath root' i' depth' folders' n1' = Next (n1', p1)) /\
     (forall n2' p2, GetFullHashPath root i2 depth folders n2 = Next (n2', p2) ->
        (p1 = p2 <-> i1 = i2 /\ Sum64 (Path n1) = Sum64 (Path n2)))).
Proof.
  intros Hn1 Hn2 Hi1 Hi2.
  assert (forall i n n' p, HashPath n = [] -> GetFullHashPath root i depth folders n = Next (n', p) ->
    deep_enough (Sum64 (Path n)) depth folders) as Hdeep.
  { intros i n n' p Hn Hp. destruct (deep_enough_dec (Sum64 (Path n)) depth folders) as [|Hd]; [done|].
    by rewrite (GetFullHashPath_shallow root i depth folders n Hn Hd) in Hp. }
  split; [|intros n1' p1 H1; split].
  - split; [|by apply GetFullHashPath_shallow]. intros Hp Hd.
    destruct (GetFullHashPath_fresh root i1 depth folders n1 Hn1 Hd) as (dirs & _ & _ & E). by rewrite E in Hp.
  - intros. destruct (GetFullHashPath_fresh root i1 depth folders n1 Hn1 (Hdeep _ _ _ _ Hn1 H1)) as (dirs & _ & Hf & E).
    rewrite E in H1. injection H1 as <- <-. unfold GetFullHashPath at 1. rewrite decide_True; [done|].
    cbn [HashPath with_hash_path]. eapply below_nonempty; [by apply location_plain|by left].
  - intros n2' p2 H2. destruct (GetFullHashPath_fresh root i1 depth folders n1 Hn1 (Hdeep _ _ _ _ Hn1 H1)) as (d1 & E1 & F1 & G1).
    destruct (GetFullHashPath_fresh root i2 depth folders n2 Hn2 (Hdeep _ _ _ _ Hn2 H2)) as (d2 & E2 & F2 & G2).
    rewrite G1 in H1. rewrite G2 in H2. injection H1 as _ <-. injection H2 as _ <-. split.
    + intros He%below_inj; [|by apply location_plain..|done|done]. injection He as Hi He.
      apply app_inj_tail in He as [_ Hh]. split; [by apply decimal_inj|]. apply hex_inj; [apply Sum64_u64..|done].
    + intros [-> Hh]. rewrite Hh in *. rewrite E1 in E2. by injection E2 as ->.
Qed.

(** A hash for the examples. *)
#[export] Instance example_hash : XXHash := foldl (fun h b => (h * 31 + Z_of_byte b) mod 2 ^ 64) 17.
#[export] Instance example_hash_ok : XXHashOk.
Proof.
  intros s. unfold Sum64, example_hash. assert (0 <= 17 < 2 ^ 64) as H by done. revert H. generalize 17.
  induction s as [|c s IH]; intros h Hh; [done|]. apply IH, Z.mod_pos_bound. done.
Qed.

(** Two islands keep one name apart. *)
Lemma swamp_location_witness :
  let n := name_at (bs "a/b/c") (bs "a") (bs "b") (bs "c") in
  exists n1 n2 p1 p2, GetFullHashPath (bs "/data") 1 2 256 n = Next (n1, p1) /\ GetFullHashPath (bs "/data") 2 2 256 n = Next (n2, p2) /\
    p1 <> p2.
Proof.
  intros n. destruct (GetFullHashPath (bs "/data") 1 2 256 n) as [| |[n1 p1]] eqn:E1; [discriminate E1..|].
  destruct (GetFullHashPath (bs "/data") 2 2 256 n) as [| |[n2 p2]] eqn:E2; [discriminate E2..|].
  exists n1, n2, p1, p2. split; [reflexivity|]. split; [reflexivity|]. intros Hp.
  destruct (swamp_location (bs "/data") 2 256 n n 1 2 eq_refl eq_refl) as [_ Hl]; [lia|lia|].
  destruct (Hl n1 p1 E1) as [_ Hsame]. apply (Hsame n2 p2 E2) in Hp as [Hi _]. discriminate Hi.
Defined.

(** ** Settings *)

(** C38: the settings that are registered are the settings that apply, now and after a restart.
    Any run of registrations, deregistrations and choices of the engine whose writes succeed
    ends without a panic; then every pattern has the setting of its last registration; the file
    is read back to the same patterns and the same model; a name is answered with a setting
    whose pattern it matches, or with the default when it matches none, from memory as from
    the file; and a swamp whose name does not match two settings is opened after the restart
    as before, in the same folder, by the same engine, with the same intervals. *)
Theorem settings_survive_restart `{JSOk : SettingsJSONOk} `{PROk : PatternRangeOk} `{XH : XXHash} (d : Defaults) (depth folders : Z)
    (es : list settings_event) :
  defaults_ok d -> Forall event_ok es ->
  exists s0 s s', NewSettings depth folders Missing = Next s0 /\ run (serve_settings d) es s0 = Next s /\
    patterns s = foldl (spec_step d) ∅ es /\
    NewSettings depth folders (file s) = Next s' /\ patterns s' = patterns s /\ model s' = model s /\
    (forall n, answers n (patterns s) (GetBySwampName n s) /\ answers n (patterns s) (GetBySwampName n s')) /\
    (forall root island n, unambiguous n (patterns s) -> createNewSwamp root island n s' = createNewSwamp root island n s).
Proof.
  intros Hd Hes. destruct (consistent_new depth folders) as (s0 & H0 & Hc0 & Hp0 & Hf0).
  destruct (served_run d es Hd s0 Hes Hc0) as (s & Hr & Hc & Hp & Hf). rewrite Hp0 in Hp.
  assert (exists s', NewSettings depth folders (file s) = Next s' /\ patterns s' = patterns s /\ model s' = model s) as (s' & H' & Hp' & Hm').
  { destruct Hf as [Hf| ->]; [by apply settings_read_back|]. rewrite Hf0. by exists s0. }
  exists s0, s, s'. repeat (split; [done|]).
  split; [intros n; split; [|rewrite <-Hp']; apply GetBySwampName_answers|]. intros root island n Hu.
  pose proof (shape_new _ _ _ _ H0) as E0. pose proof (shape_run _ _ _ _ Hr) as E1. pose proof (shape_new _ _ _ _ H') as E2.
  unfold shape in E0, E1, E2. apply createNewSwamp_same; [done|done|congruence|congruence|done].
Qed.

(** *** Examples *)

(** A text for a model that can be read back: the number that [Countable] gives it. *)
Definition pattern_tuple (pm : PatternModel) :=
  (NameCanonicalForm pm, pm_InMemory pm, pm_CloseAfterIdleSec pm, pm_WriteIntervalSec pm, pm_MaxFileSizeByte pm).
#[export] Instance pattern_model_dec : EqDecision PatternModel.
Proof. solve_decision. Defined.
#[export] Instance pattern_model_countable : Countable PatternModel :=
  inj_countable' pattern_tuple
    (fun '(n, m, c, w, f) => {| NameCanonicalForm := n; pm_InMemory := m; pm_CloseAfterIdleSec := c; pm_WriteIntervalSec := w; pm_MaxFileSizeByte := f |})
    (fun pm => match pm with Build_PatternModel _ _ _ _ _ => eq_refl end).
#[export] Instance settings_model_dec : EqDecision SettingsModel.
Proof. solve_decision. Defined.
#[export] Instance settings_model_countable : Countable SettingsModel :=
  inj_countable' (fun m => (Engine m, Patterns m, StreamPath m, AutoMoverPath m))
    (fun '(e, p, s, a) => {| Engine := e; Patterns := p; StreamPath := s; AutoMoverPath := a |})
    (fun m => match m with Build_SettingsModel _ _ _ _ => eq_refl end).
Fixpoint digits_of (p : positive) : bytes :=
  match p with xH => [] | xO p => Byte.x30 :: digits_of p | xI p => Byte.x31 :: digits_of p end.
Fixpoint of_digits (s : bytes) : positive :=
  match s with [] => xH | c :: s => if decide (c = Byte.x30) then xO (of_digits s) else xI (of_digits s) end.
#[export] Instance example_json : SettingsJSON :=
  {| MarshalModel m := digits_of (encode m); UnmarshalModel s := Some (decode (of_digits s)) |}.
#[export] Instance example_json_ok : SettingsJSONOk.
Proof.
  intros m _. unfold UnmarshalModel, MarshalModel, example_json.
  assert (forall p, of_digits (digits_of p) = p) as ->; [|by rewrite decode_encode].
  intros p. induction p as [p IH|p IH|]; cbn [digits_of of_digits]; [rewrite decide_False by done|rewrite decide_True by done|done];
    by rewrite IH.
Qed.
#[export] Instance example_range : PatternRange := map_to_list.
#[export] Instance example_range_ok : PatternRangeOk.
Proof. intros m. reflexivity. Qed.

Definition example_defaults : Defaults := {| DefaultCloseAfterIdle := 10; DefaultWriteInterval := 1; DefaultFileSize := 65536 |}.
Definition registering (p : string) (memory : bool) : settings_event :=
  Registering {| SwampPattern := bs p; IsInMemorySwamp := memory; CloseAfterIdle := 7; WriteInterval := None; MaxFileSize := None |}.

(** A cache that becomes permanent, another pattern that is taken back. *)
Lemma settings_survive_restart_witness :
  exists s', patterns s' !! bs "a/b/*" =
      Some {| Pattern := name_at (bs "a/b/*") (bs "a") (bs "b") star; InMemory := false; CloseAfterIdleSec := 7 * Second;
              WriteIntervalSec := Second; MaxFileSizeByte := 65536; ChroniclerV2 := false |} /\
    patterns s' !! bs "a/c/*" = None.
Proof.
  destruct (settings_survive_restart example_defaults 2 256
    [registering "a/b/*" true; registering "a/c/*" false; registering "a/b/*" false; Choosing EngineV2; Deregistering (bs "a/c/*")])
    as (_ & s & s' & _ & _ & Hs & _ & Hp & _ & _ & _).
  - split; split || reflexivity; vm_compute; congruence.
  - assert (forall p n, forallb (fun c => Z_of_byte c <? 128) p = true -> Load p = Next n -> pattern_ok p) as Hok.
    { intros p n Hp Hn. split; [|by exists n]. apply Forall_forall. intros c Hc%list_elem_of_In.
      rewrite forallb_forall in Hp. specialize (Hp c Hc). cbn in Hp. lia. }
    assert (in_i64 7) as H7 by (split; [vm_compute; congruence|reflexivity]).
    repeat (apply Forall_cons_2; [try (split; [eapply Hok; reflexivity|split; [exact H7|split; exact I]]); try exact I; try (eapply Hok; reflexivity)|]).
    apply Forall_nil_2.
  - exists s'. rewrite Hp, Hs. split; vm_compute; reflexivity.
Defined.

(** Of two patterns that match a name either may win: the choice is the order of a map. *)
Definition two_patterns : gmap bytes SwampSetting :=
  foldl (spec_step example_defaults) ∅ [registering "a/b/c" false; registering "a/b/*" true].
Lemma pattern_choice_is_free :
  exists r1 r2 : PatternRange, @PatternRangeOk r1 /\ @PatternRangeOk r2 /\
    forall s, patterns s = two_patterns ->
      let n := name_at (bs "a/b/c") (bs "a") (bs "b") (bs "c") in
      InMemory (@GetBySwampName r1 n s) = false /\ InMemory (@GetBySwampName r2 n s) = true.
Proof.
  set (r1 := map_to_list : PatternRange). set (r2 := (fun m => rev (map_to_list m)) : PatternRange).
  exists r1, r2. split; [intros m; reflexivity|]. split; [intros m; unfold pattern_range, r2; symmetry; apply Permutation_rev|].
  intros s Hs n. unfold GetBySwampName. rewrite Hs. split; vm_compute; reflexivity.
Qed.

(** ** The registry *)
Section Registry.

(** C36: in every interleaving of callers that summon, close, destroy and subscribe, with contexts
    that are cancelled and waits that time out, no step panics; at most one caller is
    between the flag of a waiter and its release, and the flag is raised exactly while one is;
    whoever sleeps at a waiter waits for a caller inside, so no wake-up is lost; and as long
    as a caller has not returned, some caller can go on. *)
Theorem hydra_waiters_exclude (h : hydra) :
  hydra_reachable h ->
  (forall e, hydra_step e h <> Panic) /\
  (forall id1 id2 c1 c2 w, callers h !! id1 = Some c1 -> callers h !! id2 = Some c2 ->
     inside (c_pc c1) = Some w -> inside (c_pc c2) = Some w -> id1 = id2) /\
  (forall w waiter, waiters h !! w = Some waiter ->
     (ready waiter = true <-> exists id c, callers h !! id = Some c /\ inside (c_pc c) = Some w)) /\
  (forall id c w, callers h !! id = Some c -> c_pc c = Asleep w ->
     exists id' c', callers h !! id' = Some c' /\ inside (c_pc c') = Some w) /\
  (forall id c, callers h !! id = Some c -> (forall r, c_pc c <> Returned r) ->
     exists id' h', hydra_step (Step id') h = Next h' \/ hydra_step (TimeUp id') h = Next h').
Proof.
  intros Hok%hydra_reachable_ok. destruct (Hok) as [_ Hex]. split; [intros e; by apply step_no_panic|]. split; [|split; [|split]].
  - intros id1 id2 c1 c2 w H1 H2 I1 I2.
    exact (holder_unique _ _ id1 id2 _ _ w Hex (caller_pc _ _ _ H1) I1 (caller_pc _ _ _ H2) I2).
  - intros w waiter Hw. pose proof (ex_flag _ _ Hex w (ready waiter)) as Hf. unfold flags in Hf. rewrite list_lookup_fmap, Hw in Hf.
    specialize (Hf eq_refl). split.
    + intros Hr. rewrite Hr in Hf. destruct Hf as (id & Hi & _). unfold pcs in Hi. rewrite lookup_fmap in Hi.
      destruct (callers h !! id) as [c|] eqn:E; [|done]. exists id, c. split; [done|]. by injection Hi.
    + intros (id & c & Hc & Hi). destruct (ready waiter); [done|]. by destruct (Hf id _ (caller_pc _ _ _ Hc)).
  - intros. by eapply sleeper_waits.
  - intros. by eapply someone_moves.
Qed.

(** C37: while no swamp is closed and no context is cancelled, every name has at most one swamp,
    and every caller that has returned has it, open and registered under its name, or was told
    that the hydra is shutting down; and the callers come to an end: any schedule of their
    steps alone is bounded by the number of callers, where nobody can go on all have returned,
    and there is a schedule that gets there. *)
Theorem summon_once (es : list event) (h : hydra) :
  Forall quiet es -> hydra_run es NewHydra = Next h ->
  (forall i j s t, instances h !! i = Some s -> instances h !! j = Some t -> in_name s = in_name t -> i = j) /\
  (forall id c r, callers h !! id = Some c -> c_pc c = Returned r ->
     r = ErrorHydraIsShuttingDown \/
     exists i s, r = Got i /\ swamps h !! c_name c = Some i /\ instances h !! i = Some s /\ in_name s = c_name c /\ closing s = false) /\
  (forall ids h', hydra_run (map Step ids) h = Next h' ->
     (length ids <= size (callers h) * (12 * (size (callers h) + 1) + 1))%nat /\
     ((forall id, hydra_step (Step id) h' = Disabled) -> all_returned h')) /\
  (exists ids h', hydra_run (map Step ids) h = Next h' /\ all_returned h').
Proof.
  intros Hq Hr. destruct (quiet_calm es h Hq Hr) as [Hok Hca]. pose proof (ca_orderly _ Hca) as Ho.
  split; [|split; [|split]].
  - intros i j s t Hi Hj Hn. eapply (orderly_once _ _ _ _ Ho i j (in_name s)); [by apply places_inside|..];
      unfold names_of; rewrite list_lookup_fmap; [by rewrite Hi|by rewrite Hj, Hn].
  - intros id c r Hc Hp. pose proof (or_knows _ _ _ _ Ho id (c_name c) (c_pc c)) as Hk. unfold places in Hk.
    rewrite lookup_fmap, Hc in Hk. specialize (Hk eq_refl). rewrite Hp in Hk. destruct r as [i| | |]; try done; [|by left]. right.
    pose proof (or_reg _ _ _ _ Ho _ _ Hk) as Hi. unfold names_of in Hi. rewrite list_lookup_fmap in Hi.
    destruct (instances h !! i) as [s|] eqn:E; [|done]. cbn in Hi. injection Hi as Hi. exists i, s.
    repeat (split; [done|]). by apply (ca_open _ Hca i).
  - intros ids h' Hs. destruct (steps_run ids h h' Hok Hca Hs) as (Hl & Hok' & Hca'). pose proof (steps_left_bound h).
    split; [lia|]. intros Hst id c Hc. by eapply stuck_returned.
  - by apply all_return.
Qed.
End Registry.

(** *** Examples *)

Definition steps (id n : nat) : list event := replicate n (Step id).
Definition state_of (es : list event) : hydra := match hydra_run es NewHydra with Next h => h | _ => NewHydra end.
Definition name_a : bytes := bs "a/b/c".

(** Three callers of one name: the second and the third wait for the first. *)
Definition three_callers : list event :=
  [Call 1 name_a 1; Call 2 name_a 1; Call 3 name_a 1] ++ steps 1 3 ++ steps 2 3 ++ steps 3 3.
Lemma three_callers_run : hydra_run three_callers NewHydra = Next (state_of three_callers).
Proof. vm_compute. reflexivity. Qed.

Lemma hydra_waiters_exclude_witness :
  exists id' h', hydra_step (Step id') (state_of three_callers) = Next h' \/ hydra_step (TimeUp id') (state_of three_callers) = Next h'.
Proof.
  destruct (hydra_waiters_exclude (state_of three_callers)) as (_ & _ & _ & _ & Hgo).
  - apply (run_reachable _ NewHydra three_callers NewHydra); [constructor|exact three_callers_run].
  - apply (Hgo 2%nat {| c_name := name_a; c_island := 1; c_done := false; c_pc := Asleep 0 |}); [vm_compute; reflexivity|discriminate].
Defined.

Lemma summon_once_witness :
  exists ids h', hydra_run (map Step ids) (state_of three_callers) = Next h' /\ all_returned h'.
Proof.
  apply (summon_once three_callers (state_of three_callers)); [|exact three_callers_run]. repeat constructor.
Defined.

(** A caller whose context ends lets the next one in and drops the waiter; a third caller makes a
    waiter of its own, and the two create the swamp twice, each with its own. *)
Definition cancelled_summon : list event :=
  [Call 1 name_a 1; Call 2 name_a 1] ++ steps 1 3 ++ steps 2 3 ++ [Cancel 1] ++ steps 1 5
  ++ [Call 3 name_a 1] ++ steps 3 4 ++ steps 2 2 ++ steps 3 7 ++ steps 2 7.
Definition outcome_of (id : nat) (h : hydra) : option pc := c_pc <$> callers h !! id.

(** After a summon alone the waiter stays in the map, with a count of -1, for good. *)
Lemma solo_summon_leaks_its_waiter :
  let h := state_of (Call 1 name_a 1 :: steps 1 11) in
  outcome_of 1 h = Some (Returned (Got 0)) /\ summoningSwamps h !! name_a = Some 0%nat /\ waiters h = [{| ready := false; count := -1 |}].
Proof. vm_compute. repeat split; reflexivity. Qed.

(** A swamp is closed and summoned again; a destruction of the closed one, asked for before, takes
    the new one out of the registry, and the next caller opens a third. *)
Definition late_destroy : list event :=
  (Call 1 name_a 1 :: steps 1 11) ++ CallClose 1 0 :: replicate 3 (CloserStep 1)
  ++ (Call 2 name_a 1 :: steps 2 11) ++ CallDestroy 2 0 :: replicate 4 (CloserStep 2) ++ (Call 3 name_a 1 :: steps 3 11).
Lemma late_destroy_unregisters :
  let h := state_of late_destroy in
  outcome_of 2 h = Some (Returned (Got 1)) /\ outcome_of 3 h = Some (Returned (Got 2)) /\
  map closing (instances h) = [true; false; false] /\ swamps h !! name_a = Some 2%nat.
Proof. vm_compute. repeat split; reflexivity. Qed.

(** The last subscriber leaves and the swamp goes on sending. *)
Lemma sending_never_stops :
  let h := state_of ((Call 1 name_a 1 :: steps 1 11) ++ [Subscribing true (bs "client") name_a; Unsubscribing true (bs "client") name_a]) in
  eventCallbackFunction name_a h = ∅ /\ map sendingEvents (instances h) = [true].
Proof. vm_compute. split; reflexivity. Qed.

(** While the hydra is shutting down an open swamp is answered with not existing. *)
Lemma shutdown_hides_swamps `{XH : XXHash} s :
  let h := state_of ((Call 1 name_a 1 :: steps 1 11) ++ [ShuttingDown]) in
  let exists_now := fun n => exists_swamp (fun _ => true) (fun _ => true) (bs "/data") 1 s n h in
  is_Some (swamps h !! name_a) /\ gateway_IsSwampExist exists_now name_a = Next (false, false).
Proof. split; [by eexists|reflexivity]. Qed.

Lemma two_swamps_of_one_name :
  let h := state_of cancelled_summon in
  outcome_of 1 h = Some (Returned ErrContextDone) /\
  outcome_of 2 h = Some (Returned (Got 1)) /\ outcome_of 3 h = Some (Returned (Got 0)) /\
  map in_name (instances h) = [name_a; name_a] /\ map closing (instances h) = [false; false] /\
  swamps h !! name_a = Some 1%nat.
Proof. vm_compute. repeat split; reflexivity. Qed.
