(* ===== verification/ModelProps.v ===== *)
(** The models of the Go SDK and the server: a model that names one role for each of its fields is
    saved and read back as it was, and the tags that the checks of [Sdk.v] take for another one. *)
From Stdlib Require Import Floats.SpecFloat.
From S2P Require Import Prelude Steps Text Types Compressor Block FileSys Reader Contents Log Session.
From S2P Require Import Meta Chronicler Durability Guard Treasure Beacon Canon Bucket Swamp Gateway Filters SwampInv SwampSteps Saving SwampRun Vigil Sdk.
#[local] Set Warnings "-register-all,-clear-no-such-hyp".

(** ** Well-tagged models *)

Inductive role :=
| RoleKey | RoleValue (omit : bool)
| RoleExpireAt (omit : bool) | RoleCreatedAt (omit : bool) | RoleCreatedBy (omit : bool)
| RoleUpdatedAt (omit : bool) | RoleUpdatedBy (omit : bool)
| RoleBody (name : bytes) (omit : bool) | NoRole.
Record entry := { e_Name : bytes; e_Role : role; e_Value : gvalue }.

Definition tag_for (base : bytes) (omit : bool) : bytes := if omit then base ++ comma :: tagOmitempty else base.
Definition tag_of (r : role) : option bytes :=
  match r with
  | RoleKey => Some tagKey
  | RoleValue o => Some (tag_for tagValue o)
  | RoleExpireAt o => Some (tag_for tagExpireAt o)
  | RoleCreatedAt o => Some (tag_for tagCreatedAt o)
  | RoleCreatedBy o => Some (tag_for tagCreatedBy o)
  | RoleUpdatedAt o => Some (tag_for tagUpdatedAt o)
  | RoleUpdatedBy o => Some (tag_for tagUpdatedBy o)
  | RoleBody n o => Some (tag_for n o)
  | NoRole => None
  end.
Definition field_of (e : entry) : field := {| fd_Name := e_Name e; fd_Tag := tag_of (e_Role e); fd_Value := e_Value e |}.

(** The parts of a treasure that the roles are about. *)
Inductive slot := KeySlot | ValueSlot | ExpireAtSlot | CreatedAtSlot | CreatedBySlot | UpdatedAtSlot | UpdatedBySlot.
Definition slot_of (r : role) : option slot :=
  match r with
  | RoleKey => Some KeySlot | RoleValue _ => Some ValueSlot
  | RoleExpireAt _ => Some ExpireAtSlot | RoleCreatedAt _ => Some CreatedAtSlot | RoleCreatedBy _ => Some CreatedBySlot
  | RoleUpdatedAt _ => Some UpdatedAtSlot | RoleUpdatedBy _ => Some UpdatedBySlot
  | RoleBody _ _ | NoRole => None
  end.
Definition body_name (r : role) : option bytes := match r with RoleBody n _ => Some n | _ => None end.
Definition omits (r : role) : bool :=
  match r with
  | RoleValue o | RoleExpireAt o | RoleCreatedAt o | RoleCreatedBy o | RoleUpdatedAt o | RoleUpdatedBy o | RoleBody _ o => o
  | RoleKey | NoRole => false
  end.

(** A name that no check on the text of a tag takes for another one. *)
Definition plain_name (n : bytes) : Prop :=
  n <> [] /\ (comma ∉ n) /\ forall w, w ∈ reservedHydraideTagNames -> contains n w = false.

Lemma has_prefix_comma a b w : comma ∉ w -> has_prefix w (a ++ comma :: b) = has_prefix w a.
Proof.
  revert w. induction a as [|x a IH]; intros [|y w] Hw; try done; apply not_elem_of_cons in Hw as [Hy Hw]; cbn.
  - by rewrite bool_decide_false by congruence.
  - by rewrite IH.
Qed.
Lemma contains_comma a b w : comma ∉ w -> contains (a ++ comma :: b) w = contains a w || contains b w.
Proof.
  intros Hw. induction a as [|x a IH].
  - destruct w as [|y w]; [done|]. apply not_elem_of_cons in Hw as [Hy _]. cbn. by rewrite bool_decide_false by congruence.
  - cbn [app contains]. change (x :: a ++ comma :: b) with ((x :: a) ++ comma :: b). rewrite has_prefix_comma, IH by done.
    by rewrite orb_assoc.
Qed.

Lemma reserved_free w : w ∈ reservedHydraideTagNames -> (comma ∉ w) /\ contains tagOmitempty w = false.
Proof.
  unfold reservedHydraideTagNames. rewrite !elem_of_cons, elem_of_nil.
  intros [->|[->|[->|[->|[->|[->|[->|[]]]]]]]]; (split; [apply (bool_decide_unpack _); by vm_compute|by vm_compute]).
Qed.

Lemma plain_tag n o w : plain_name n -> w ∈ reservedHydraideTagNames -> contains (tag_for n o) w = false.
Proof.
  intros (_ & _ & Hn) Hw. destruct (reserved_free w Hw) as [Hc Ho]. unfold tag_for. destruct o; [|by apply Hn].
  rewrite contains_comma by done. by rewrite Hn, Ho.
Qed.

Lemma contains_self w : contains w w = true.
Proof.
  destruct w as [|x w]; [done|]. cbn [contains]. apply orb_true_iff. left.
  assert (forall l, has_prefix l l = true) as H; [|apply H].
  induction l as [|y l IH]; [done|]. cbn. by rewrite bool_decide_true, IH.
Qed.

(** Evaluates the checks on a known tag. *)
Ltac read_tags :=
  repeat match goal with
  | |- context [contains ?a ?b] =>
      let r := eval vm_compute in (contains a b) in
      match r with true => change (contains a b) with true | false => change (contains a b) with false end
  | |- context [decide (?a = tagKey)] =>
      let r := eval vm_compute in (bool_decide (a = tagKey)) in
      match r with
      | true => rewrite (decide_True (P := a = tagKey)) by (apply (bool_decide_unpack _); by vm_compute)
      | false => rewrite (decide_False (P := a = tagKey)) by (intros E; by vm_compute in E)
      end
  end; cbn [ebind snd fst negb andb].

(** ** From a model to a pair *)

Section Models.
Context `{GC : SdkCodec}.
Variable encoding : EncodingFormat.

Definition codec_keeps (v : gvalue) : Prop :=
  match encoding with
  | EncodingMsgPack => exists b, msgpack_Marshal v = Some b /\ msgpack_Unmarshal (zero_like v) b = Some v
  | EncodingGOB => exists b, gob_Encode v = Some b /\ isMsgpackEncoded b = false /\ gob_Decode (zero_like v) b = Some v
  end.

(** A number that fits its width; a value that its encoding keeps. *)
Definition int_fits (w : width) (z : Z) : Prop :=
  match w with W8 => i8 z = z | W16 => i16 z = z | W32 | W64 | Wint => True end.
Definition uint_fits (w : width) (z : Z) : Prop :=
  match w with W8 => u8 z = z | W16 => u16 z = z | W32 | W64 | Wint => True end.
Definition value_fits (v : gvalue) : Prop :=
  match v with
  | GInt w z => int_fits w z
  | GUint w z => uint_fits w z
  | GData t d => g_Kind t = PtrKind /\ d = None \/ codec_keeps v
  | GStruct | GOther => False
  | _ => True
  end.
(** A time whose nanoseconds are an [int64]; the zero time only where it is left out. *)
Definition time_fits (omit : bool) (v : gvalue) : Prop :=
  exists t, v = GTime t /\ (t = zero_time /\ omit = true \/ t <> zero_time /\ - 2 ^ 63 <= t < 2 ^ 63).

Definition role_fits (e : entry) : Prop :=
  match e_Role e with
  | RoleKey => exists s, e_Value e = GString s /\ s <> []
  | RoleValue _ => value_fits (e_Value e)
  | RoleExpireAt o | RoleCreatedAt o | RoleUpdatedAt o => time_fits o (e_Value e)
  | RoleCreatedBy _ | RoleUpdatedBy _ => exists s, e_Value e = GString s
  | RoleBody n _ => plain_name n
  | NoRole => True
  end.

(** What an entry adds to the pair. *)
Definition put_data (v : gvalue) (kv : KeyValuePair) : KeyValuePair :=
  match convertFieldToKvPair v kv encoding with inr kv => kv | inl _ => kv end.
Definition put_time (put : option Timestamp -> KeyValuePair -> KeyValuePair) (v : gvalue) (kv : KeyValuePair) : KeyValuePair :=
  match v with GTime t => if IsZero t then kv else put (Some (New_timestamp t)) kv | _ => kv end.
Definition put_by (put : bytes -> KeyValuePair -> KeyValuePair) (v : gvalue) (kv : KeyValuePair) : KeyValuePair :=
  match v with GString s => if decide (s = []) then kv else put s kv | _ => kv end.
Definition add_entry (e : entry) (kv : KeyValuePair) : KeyValuePair :=
  let v := e_Value e in
  match e_Role e with
  | RoleKey => match v with GString s => kv_Key s kv | _ => kv end
  | RoleValue o =>
      let kv := if isFieldEmpty v then kv_VoidVal (Some true) kv else kv in
      if o && isFieldEmpty v then kv else put_data v kv
  | RoleExpireAt _ => put_time kv_ExpiredAt v kv
  | RoleCreatedAt _ => put_time kv_CreatedAt v kv
  | RoleCreatedBy _ => put_by kv_CreatedBy v kv
  | RoleUpdatedAt _ => put_time kv_UpdatedAt v kv
  | RoleUpdatedBy _ => put_by kv_UpdatedBy v kv
  | RoleBody _ _ | NoRole => kv
  end.

Lemma converted v kv : value_fits v -> convertFieldToKvPair v kv encoding = inr (put_data v kv).
Proof.
  intros Hv. unfold put_data. destruct v as [s|b|w z|w z|f|f|s|t|t d| |]; try (done || by destruct w); cbn in *.
  destruct (decide _) as [|Hd]; [done|]. destruct Hv as [?|Hv]; [done|]. unfold codec_keeps, encode_data in *.
  destruct encoding; destruct Hv as (b & -> & _); done.
Qed.

Lemma convert_entry e kv : role_fits e -> convert_field encoding (field_of e) kv = inr (add_entry e kv).
Proof.
  intros Hf. destruct e as [nm r v]. unfold convert_field, field_of, role_fits, add_entry in *. cbn [fd_Tag fd_Value e_Name e_Role e_Value] in *.
  destruct r as [|o|o|o|o|o|o|n o|]; cbn [tag_of]; [| | | | | | | |done]; cbn [first_match];
    unfold convert_key, convert_value, convert_time, convert_by; cbn [fd_Value].
  1-7: try destruct o; cbn [tag_for]; read_tags.
  all: try by (destruct Hf as (s & ->); unfold put_by, isFieldEmpty; destruct (decide (s = [])) as [->|];
    [done|rewrite ?bool_decide_false by done]).
  all: try by (destruct Hf as (t & -> & Ht); unfold put_time, isFieldEmpty, IsZero; destruct (decide (t = zero_time)) as [->|];
    [rewrite ?bool_decide_true by done; naive_solver|rewrite ?bool_decide_false by done]).
  - destruct Hf as (s & -> & Hs). cbn. by rewrite decide_False.
  - destruct (isFieldEmpty v); cbn -[convertFieldToKvPair]; [done|]. by rewrite converted.
  - by destruct (isFieldEmpty v); cbn -[convertFieldToKvPair]; rewrite converted.
  - assert (tag_for n o <> tagKey) as Hk.
    { intros E. pose proof (plain_tag n o tagKey Hf) as Hp. rewrite E, contains_self in Hp. discriminate Hp. by left. }
    rewrite decide_False by done. cbn [ebind snd fst].
    rewrite !(plain_tag n o) by (done || (unfold reservedHydraideTagNames; rewrite !elem_of_cons; tauto)). done.
Qed.

Definition add_entries (es : list entry) (kv : KeyValuePair) : KeyValuePair := foldl (fun kv e => add_entry e kv) kv es.

Lemma convert_entries es kv :
  Forall role_fits es -> convert_fields encoding (map field_of es) kv = inr (add_entries es kv).
Proof.
  intros Hes. revert kv. induction Hes as [|e es He _ IH]; intros kv; [done|]. cbn [map convert_fields].
  rewrite convert_entry by done. cbn [ebind]. apply IH.
Qed.

(** *** One part of the pair *)

Definition content_part (kv : KeyValuePair) : KeyValuePair :=
  kv_Key [] (kv_CreatedAt None (kv_CreatedBy [] (kv_UpdatedAt None (kv_UpdatedBy [] (kv_ExpiredAt None kv))))).
Definition view (s : slot) (kv : KeyValuePair) : KeyValuePair :=
  match s with
  | KeySlot => kv_Key (p_Key kv) kv_empty
  | ValueSlot => content_part kv
  | ExpireAtSlot => kv_ExpiredAt (p_ExpiredAt kv) kv_empty
  | CreatedAtSlot => kv_CreatedAt (p_CreatedAt kv) kv_empty
  | CreatedBySlot => kv_CreatedBy (p_CreatedBy kv) kv_empty
  | UpdatedAtSlot => kv_UpdatedAt (p_UpdatedAt kv) kv_empty
  | UpdatedBySlot => kv_UpdatedBy (p_UpdatedBy kv) kv_empty
  end.

Lemma put_data_cases v kv :
  (forall s, s <> ValueSlot -> view s (put_data v kv) = view s kv) /\ content_part (put_data v kv) = put_data v (content_part kv).
Proof.
  unfold put_data. destruct v as [s|b|w z|w z|f|f|s|t|t d| |]; cbn [convertFieldToKvPair].
  3,4: destruct w.
  all: try (split; [by intros []|done]).
  - destruct (IsZero t); (split; [by intros []|done]).
  - destruct (decide _); [split; [by intros []|done]|]. unfold encode_data.
    destruct encoding; [destruct (gob_Encode _)|destruct (msgpack_Marshal _)]; (split; [by intros []|done]).
Qed.

Lemma view_other s e kv : slot_of (e_Role e) <> Some s -> view s (add_entry e kv) = view s kv.
Proof.
  destruct e as [nm r v]. unfold add_entry, put_time, put_by. cbn [e_Role e_Value]. intros Hs.
  destruct r; cbn [slot_of] in Hs; try done.
  2: { assert (s <> ValueSlot) as Hne by congruence.
    assert (view s (kv_VoidVal (Some true) kv) = view s kv) as Hv by (destruct s; done).
    destruct (omit && isFieldEmpty v), (isFieldEmpty v); rewrite ?(proj1 (put_data_cases v _)) by done; done. }
  all: destruct v as [b| | | | | | |t| | |]; try done; try destruct (decide (b = [])); try destruct (IsZero t); by destruct s.
Qed.

Lemma view_same s e kv : slot_of (e_Role e) = Some s -> view s (add_entry e kv) = view s (add_entry e (view s kv)).
Proof.
  destruct e as [nm r v]. unfold add_entry, put_time, put_by. cbn [e_Role e_Value]. intros Hs.
  destruct r; cbn [slot_of] in Hs; try done; injection Hs as <-.
  2: { cbn [view]. destruct (omit && isFieldEmpty v), (isFieldEmpty v); try done; rewrite !(proj2 (put_data_cases v _)); done. }
  all: destruct v as [b| | | | | | |t| | |]; try done; try destruct (decide (b = [])); try destruct (IsZero t); done.
Qed.

Definition slots (es : list entry) : list slot := omap (fun e => slot_of (e_Role e)) es.

Lemma view_none s es kv : (s ∉ slots es) -> view s (add_entries es kv) = view s kv.
Proof.
  revert kv. induction es as [|e es IH]; intros kv Hs; [done|]. cbn [add_entries foldl].
  change (foldl _ ?k es) with (add_entries es k). unfold slots in Hs, IH. cbn [omap list_omap] in Hs.
  destruct (slot_of (e_Role e)) as [s'|] eqn:E.
  - apply not_elem_of_cons in Hs as [Hne Hs]. rewrite IH by done. apply view_other. rewrite E. congruence.
  - rewrite IH by done. apply view_other. by rewrite E.
Qed.

Lemma view_entry s es e kv :
  NoDup (slots es) -> e ∈ es -> slot_of (e_Role e) = Some s ->
  view s (add_entries es kv) = view s (add_entry e (view s kv)).
Proof.
  intros Hnd He Hs. revert kv. induction He as [e es|e e' es He IH]; intros kv; cbn [add_entries foldl];
    change (foldl _ ?k es) with (add_entries es k); unfold slots in Hnd; cbn [omap list_omap] in Hnd.
  - rewrite Hs in Hnd. apply NoDup_cons in Hnd as [Hn _]. by rewrite view_none, view_same.
  - assert (s ∈ slots es) as Hin by (apply list_elem_of_omap; by exists e).
    destruct (slot_of (e_Role e')) as [s'|] eqn:E.
    + apply NoDup_cons in Hnd as [Hn Hnd]. rewrite IH by done. rewrite (view_other s e'); [done|]. rewrite E. intros [= ->]. done.
    + rewrite IH by done. rewrite (view_other s e'); [done|]. by rewrite E.
Qed.

(** *** The shape of a model and its body *)

Definition is_value (e : entry) : bool := match e_Role e with RoleValue _ => true | _ => false end.
Fixpoint bodies (i : nat) (es : list entry) : list mapBodyField :=
  match es with
  | [] => []
  | e :: es =>
      match e_Role e with
      | RoleBody n o => {| mb_Name := n; mb_Index := i; mb_OmitEmpty := o |} :: bodies (S i) es
      | _ => bodies (S i) es
      end
  end.

Lemma split_tag n o : comma ∉ n -> split comma (tag_for n o) = n :: if o then [tagOmitempty] else [].
Proof.
  intros Hn. unfold tag_for. destruct o; [|by rewrite split_last].
  by rewrite split_part.
Qed.

Lemma inspect_entries es i h b :
  Forall role_fits es ->
  inspect_fields i (map field_of es) h b = (h || existsb is_value es, b ++ bodies i es).
Proof.
  intros Hes. revert i h b. induction Hes as [|e es He _ IH]; intros i h b; cbn [map inspect_fields bodies existsb].
  { by rewrite orb_false_r, app_nil_r. }
  destruct e as [nm r v]. unfold is_value at 1. unfold field_of at 1. cbn [fd_Tag e_Role tag_of]. destruct r as [|o|o|o|o|o|o|n o|]; cbn [tag_of].
  9: by rewrite IH.
  8: { unfold role_fits in He. cbn in He. destruct He as (Hne & Hc & Hres). rewrite split_tag by done. cbn [hd tl].
    assert (n ∉ reservedHydraideTagNames) as Hnr.
    { intros Hin. pose proof (Hres n Hin) as Hf. by rewrite contains_self in Hf. }
    rewrite decide_False by done. rewrite decide_False. 2: { intros ->. apply Hnr. unfold reservedHydraideTagNames. rewrite !elem_of_cons. tauto. }
    rewrite decide_False by done. rewrite IH, <-app_assoc, orb_false_l. do 2 f_equal. destruct o; [|done]. cbn [existsb].
    by replace (bool_decide (TrimSpace tagOmitempty = tagOmitempty)) with true by (by vm_compute). }
  all: try (match goal with |- context [split comma (tag_for ?x ?o)] => rewrite (split_tag x o) by (apply (bool_decide_unpack _); by vm_compute) end).
  1: change (split comma tagKey) with [tagKey].
  all: cbn [hd].
  all: match goal with |- context [decide (?x = [])] => rewrite (decide_False (P := x = [])) by (intros E; by vm_compute in E) end.
  2: { rewrite decide_True by done. rewrite IH. by rewrite orb_true_r. }
  all: match goal with |- context [decide (?x = tagValue)] => rewrite (decide_False (P := x = tagValue)) by (intros E; by vm_compute in E) end.
  all: rewrite decide_True by (unfold reservedHydraideTagNames; rewrite !elem_of_cons; tauto).
  all: by rewrite IH.
Qed.

Definition add_body (body : gmap bytes gvalue) (e : entry) : gmap bytes gvalue :=
  match e_Role e with
  | RoleBody n o => if o && isFieldEmpty (e_Value e) then body else <[n := e_Value e]> body
  | _ => body
  end.
Definition stored_body (es : list entry) : gmap bytes gvalue := foldl add_body ∅ es.

Lemma body_of_entries es pre body :
  body_of (pre ++ map field_of es) (bodies (length pre) es) body = foldl add_body body es.
Proof.
  revert pre body. induction es as [|e es IH]; intros pre body; [done|]. cbn [bodies map foldl].
  assert (forall b, body_of (pre ++ field_of e :: map field_of es) (bodies (S (length pre)) es) b = foldl add_body b es) as Hn.
  { intros b. pose proof (IH (pre ++ [field_of e]) b) as H. rewrite length_app in H. cbn [length] in H.
    by rewrite Nat.add_1_r, <-app_assoc in H. }
  unfold add_body at 2. destruct e as [nm r v]. cbn [e_Role e_Value] in *. destruct r; try apply Hn.
  cbn [body_of mb_Index mb_OmitEmpty mb_Name]. rewrite list_lookup_middle by done. apply Hn.
Qed.

Lemma bodies_nil es i : bodies i es = [] -> forall body, foldl add_body body es = body.
Proof.
  revert i. induction es as [|e es IH]; intros i Hb body; [done|]. cbn [bodies] in Hb. cbn [foldl]. unfold add_body at 2.
  destruct (e_Role e); try (by eapply IH); done.
Qed.

(** The library keeps a map: what is not in it is not found. *)
Definition map_keeps (body : gmap bytes gvalue) : Prop :=
  exists b raws, msgpack_MarshalMap body = Some b /\ b <> [] /\ msgpack_UnmarshalMap b = Some raws /\
    forall k, match body !! k with
              | Some v => exists raw, raws !! k = Some raw /\ msgpack_Unmarshal (zero_like v) raw = Some v
              | None => raws !! k = None
              end.

(** One field for each role, and one for each name of the body; no body beside a value. *)
Record well_tagged (es : list entry) : Prop := {
  wt_roles : Forall role_fits es;
  wt_slots : NoDup (slots es);
  wt_key : KeySlot ∈ slots es;
  wt_names : NoDup (omap (fun e => body_name (e_Role e)) es);
  wt_shape : existsb is_value es = true -> bodies O es = [];
  wt_body : stored_body es <> ∅ -> map_keeps (stored_body es)
}.

Definition put_body (es : list entry) (kv : KeyValuePair) : KeyValuePair :=
  if decide (stored_body es = ∅) then kv else
  match msgpack_MarshalMap (stored_body es) with
  | Some b => kv_VoidVal None (kv_BytesVal (Some (wrapMsgpack b)) kv)
  | None => kv
  end.
Definition pair_of (es : list entry) : KeyValuePair := put_body es (add_entries es kv_empty).

Lemma view_put_body s es kv : s <> ValueSlot -> view s (put_body es kv) = view s kv.
Proof. intros Hs. unfold put_body. case_decide; [done|]. destruct (msgpack_MarshalMap _); [|done]. by destruct s. Qed.

Lemma key_entry es : well_tagged es -> exists e k, e ∈ es /\ e_Role e = RoleKey /\ e_Value e = GString k /\ k <> [] /\ p_Key (pair_of es) = k.
Proof.
  intros Hw. pose proof (wt_key _ Hw) as (e & He & Hs)%list_elem_of_omap.
  pose proof (proj1 (Forall_forall _ _) (wt_roles _ Hw) e He) as Hf.
  pose proof (view_entry KeySlot es e kv_empty (wt_slots _ Hw) He Hs) as Hv.
  unfold role_fits in Hf. destruct (e_Role e) eqn:Er; try discriminate Hs. destruct Hf as (k & Ev & Hk).
  exists e, k. split_and!; try done. pose proof (view_put_body KeySlot es (add_entries es kv_empty)) as Hb.
  rewrite Hv in Hb. apply (f_equal p_Key) in Hb; [|done]. cbn [view] in Hb. unfold pair_of. cbn in Hb. rewrite Hb.
  unfold add_entry. by rewrite Er, Ev.
Qed.

Lemma convert_model es :
  well_tagged es -> convertCatalogModelToKeyValuePair (Pointer_to (map field_of es)) encoding = inr (pair_of es).
Proof.
  intros Hw. unfold convertCatalogModelToKeyValuePair, inspectCatalogModel.
  rewrite (inspect_entries es O false []) by apply Hw. cbn [orb app].
  assert ((let? kv := (if decide (bodies O es <> []) then applyMapBodyToKvPair (add_entries es kv_empty) (map field_of es) (bodies O es)
      else inr (add_entries es kv_empty)) in if decide (p_Key kv = []) then inl KeyNotFound else inr kv) = inr (pair_of es)) as Hmain.
  { destruct (key_entry es Hw) as (e & k & _ & _ & _ & Hk & Hkey).
    assert ((if decide (bodies O es <> []) then applyMapBodyToKvPair (add_entries es kv_empty) (map field_of es) (bodies O es)
      else inr (add_entries es kv_empty)) = inr (pair_of es)) as ->; [|cbn [ebind]; by rewrite decide_False by congruence].
    unfold pair_of, put_body. destruct (decide (bodies O es <> [])) as [Hb|Hb].
    - unfold applyMapBodyToKvPair, encodeMapBody. rewrite decide_False by done.
      pose proof (body_of_entries es [] ∅) as Hbo. cbn [app length] in Hbo. rewrite Hbo. fold (stored_body es).
      case_decide as He; [done|]. destruct (wt_body _ Hw He) as (b & raws & -> & _). done.
    - assert (bodies O es = []) as Hnil by (by destruct (bodies O es); [|exfalso; apply Hb]).
      rewrite decide_True; [done|]. apply (bodies_nil es O Hnil). }
  destruct (existsb is_value es) eqn:Ev.
  - assert (bodies O es = []) as Hnil by (by apply Hw). rewrite Hnil in *. rewrite bool_decide_true by done. cbn [negb andb ebind].
    rewrite convert_entries by apply Hw. cbn [ebind]. rewrite decide_False by done. by rewrite decide_False in Hmain by (intros H; apply H; done).
  - cbn [andb]. destruct (decide (bodies O es <> [])) as [Hb|Hb]; cbn [ebind]; rewrite convert_entries by apply Hw; cbn [ebind].
    + by rewrite decide_True.
    + by rewrite decide_False.
Qed.
End Models.

(** ** What the server makes of a pair *)

Definition content_from (p : KeyValuePair) : Content :=
  match p_Int8Val p with Some v => only_Int8 (i8 v) | None =>
  match p_Int16Val p with Some v => only_Int16 (i16 v) | None =>
  match p_Int32Val p with Some v => only_Int32 v | None =>
  match p_Int64Val p with Some v => only_Int64 v | None =>
  match p_Uint8Val p with Some v => only_Uint8 (u8 v) | None =>
  match p_Uint16Val p with Some v => only_Uint16 (u16 v) | None =>
  match p_Uint32Val p with Some v => only_Uint32 v | None =>
  match p_Uint64Val p with Some v => only_Uint64 v | None =>
  match p_Float32Val p with Some v => only_Float32 v | None =>
  match p_Float64Val p with Some v => only_Float64 v | None =>
  match p_StringVal p with Some v => only_String v | None =>
  match p_BoolVal p with Some v => only_Boolean (match v with Boolean_TRUE => true | _ => false end) | None =>
  match p_BytesVal p with Some v => only_ByteArray (Some v) | None => void_content
  end end end end end end end end end end end end end.

Lemma content_from_cases (P : Content -> Prop) kv :
  (forall v, P (only_Int8 v)) -> (forall v, P (only_Int16 v)) -> (forall v, P (only_Int32 v)) -> (forall v, P (only_Int64 v)) ->
  (forall v, P (only_Uint8 v)) -> (forall v, P (only_Uint16 v)) -> (forall v, P (only_Uint32 v)) -> (forall v, P (only_Uint64 v)) ->
  (forall v, P (only_Float32 v)) -> (forall v, P (only_Float64 v)) -> (forall v, P (only_String v)) ->
  (forall v, P (only_Boolean v)) -> (forall v, P (only_ByteArray (Some v))) -> P void_content -> P (content_from kv).
Proof. intros. unfold content_from. repeat case_match; auto. Qed.

Lemma set_value_run kv T :
  held T -> m_Content (t_model T) = None -> p_Uint32Slice kv = None ->
  exists T', set_value_of kv 1 T = Some T' /\ t_guard T' = t_guard T /\
    t_model T' = with_content (Some (content_from kv)) (t_model T).
Proof.
  intros HT HC Hu. unfold set_value_of, content_from.
  repeat match goal with |- context [match ?o with Some _ => _ | None => _ end] =>
    match o with p_Uint32Slice _ => rewrite Hu | _ => destruct o end end.
  all: unfold SetContentInt8, SetContentInt16, SetContentInt32, SetContentInt64, SetContentUint8, SetContentUint16,
    SetContentUint32, SetContentUint64, SetContentFloat32, SetContentFloat64, SetContentString, SetContentBool,
    SetContentByteArray, SetContentVoid; rewrite held_guard by done; unfold set_content; rewrite HC; eexists; split; [reflexivity|done].
Qed.

(** A setter that is applied to what the message has, and one that is not. *)
Definition valid_or (ts : option Timestamp) (F : Z -> treasure -> treasure) (T : treasure) : treasure :=
  match ts with Some x => if isValidTimestamp ts then F (AsTime x) T else T | None => T end.
Definition nonempty_or (s : bytes) (F : bytes -> treasure -> treasure) (T : treasure) : treasure :=
  if decide (s = []) then T else F s T.

Lemma run_valid ts F T : held T -> when_valid ts (fun x => with_guard 1 (F x)) T = Some (valid_or ts F T).
Proof.
  intros HT. unfold when_valid, valid_or. destruct ts as [x|]; [|done]. destruct (isValidTimestamp _); [by rewrite held_guard|done].
Qed.
Lemma run_nonempty s F T : held T -> when_nonempty s (fun x => with_guard 1 (F x)) T = Some (nonempty_or s F T).
Proof. intros HT. unfold when_nonempty, nonempty_or. case_decide; [done|by rewrite held_guard]. Qed.
Lemma held_valid ts F T : (forall x T, t_guard (F x T) = t_guard T) -> held T -> held (valid_or ts F T).
Proof. intros HF HT. unfold held, valid_or. destruct ts as [x|]; [|done]. destruct (isValidTimestamp _); [by rewrite HF|done]. Qed.
Lemma held_nonempty s F T : (forall x T, t_guard (F x T) = t_guard T) -> held T -> held (nonempty_or s F T).
Proof. intros HF HT. unfold held, nonempty_or. case_decide; [done|by rewrite HF]. Qed.

(** The time a treasure gets from a message. *)
Definition time_in (ts : option Timestamp) : Z :=
  match ts with Some x => if isValidTimestamp ts then UnixNano (AsTime x) else 0 | None => 0 end.

Record made_from (kv : KeyValuePair) (m : Model) : Prop := {
  mf_key : m_Key m = p_Key kv;
  mf_content : m_Content m = Some (content_from kv);
  mf_created : m_CreatedAt m = time_in (p_CreatedAt kv);
  mf_creator : m_CreatedBy m = p_CreatedBy kv;
  mf_updated : m_ModifiedAt m = time_in (p_UpdatedAt kv);
  mf_updater : m_ModifiedBy m = p_UpdatedBy kv;
  mf_expires : match p_ExpiredAt kv with Some x => IsZero (AsTime x) = false | None => True end ->
    m_ExpirationTime m = time_in (p_ExpiredAt kv)
}.

Lemma new_model_made kv : p_Uint32Slice kv = None -> made_from kv (new_model kv ∅).
Proof.
  intros Hu. unfold new_model, model_edit. rewrite lookup_empty. cbn [default from_option].
  match goal with |- context [keyValuesToTreasure _ 1 ?x] => set (T0 := x) end.
  destruct (set_value_run kv T0) as (T1 & E1 & Hg1 & Hm1); [done|done|done|].
  assert (held T1) as H1 by (unfold held; by rewrite Hg1).
  unfold keyValuesToTreasure. rewrite E1. cbn [option_bind mbind].
  unfold SetCreatedAt, SetCreatedBy, SetModifiedAt, SetModifiedBy, SetExpirationTime.
  rewrite (run_valid _ _ T1) by done. cbn [option_bind mbind].
  rewrite run_nonempty by by apply held_valid. cbn [option_bind mbind].
  rewrite run_valid by by apply held_nonempty, held_valid. cbn [option_bind mbind].
  rewrite run_nonempty by by apply held_valid, held_nonempty, held_valid. cbn [option_bind mbind].
  rewrite run_valid by by apply held_nonempty, held_valid, held_nonempty, held_valid. cbn [from_option].
  split; unfold valid_or, nonempty_or, time_in, GetCreatedAt, GetCreatedBy, GetModifiedAt, GetModifiedBy; destruct (p_CreatedAt kv) as [t1|], (p_UpdatedAt kv) as [t2|], (p_ExpiredAt kv) as [t3|];
    repeat match goal with |- context [if isValidTimestamp ?x then _ else _] => destruct (isValidTimestamp x) end;
    destruct (decide (p_CreatedBy kv = [])) as [Ec|], (decide (p_UpdatedBy kv = [])) as [Eu|];
    cbn; rewrite ?Hm1; cbn; try done; try (by rewrite Ec); try (by rewrite Eu).
  all: intros Hz; rewrite ?Hz; done.
Qed.

(** The message of a treasure that has nothing but a content. *)
Definition content_pb (c : Content) : pb_Treasure :=
  default (empty_pb []) (treasureToKeyValuePair
    {| t_model := with_content (Some c) Treasure.empty_model; t_guard := Guard.New; t_flags := no_flags |}).

Section Shown.
Context `{GC : SdkCodec}.

Record shown (kv : KeyValuePair) (t : pb_Treasure) : Prop := {
  sh_key : o_Key t = p_Key kv;
  sh_exists : o_IsExist t = true;
  sh_created : o_CreatedAt t = pb_time (time_in (p_CreatedAt kv));
  sh_creator : o_CreatedBy t = pb_string (p_CreatedBy kv);
  sh_updated : o_UpdatedAt t = pb_time (time_in (p_UpdatedAt kv));
  sh_updater : o_UpdatedBy t = pb_string (p_UpdatedBy kv);
  sh_expires : match p_ExpiredAt kv with Some x => IsZero (AsTime x) = false | None => True end ->
    o_ExpiredAt t = pb_time (time_in (p_ExpiredAt kv));
  sh_value : forall v, setProtoTreasureToModel t v = setProtoTreasureToModel (content_pb (content_from kv)) v;
  sh_bytes : o_BytesVal t = c_ByteArray (content_from kv)
}.

Lemma made_shown kv m :
  made_from kv m -> exists t, treasureToKeyValuePair {| t_model := m; t_guard := Guard.New; t_flags := no_flags |} = Some t /\ shown kv t.
Proof.
  intros [Hk Hc H1 H2 H3 H4 H5].
  set (T := {| t_model := m; t_guard := Guard.New; t_flags := no_flags |}).
  pose (P c := m_Content m = Some c -> exists t, treasureToKeyValuePair T = Some t /\
    (forall v, setProtoTreasureToModel t v = setProtoTreasureToModel (content_pb c) v) /\ o_BytesVal t = c_ByteArray c).
  assert (P (content_from kv)) as HP.
  { apply content_from_cases; unfold P, T; intros; unfold treasureToKeyValuePair, GetContentType; cbn [t_model];
      match goal with H : m_Content _ = _ |- _ => rewrite H; eexists; (split; [reflexivity|]); revert H end; unfold GetContentInt8, GetContentInt16, GetContentInt32, GetContentInt64, GetContentUint8, GetContentUint16,
      GetContentUint32, GetContentUint64, GetContentFloat32, GetContentFloat64, GetContentString, GetContentBool,
      GetContentByteArray; cbn [t_model]; intros ->; done. }
  destruct (HP Hc) as (t & Ht & Hv & Hb).
  exists t. split; [done|].
  assert (o_Key t = m_Key m /\ o_IsExist t = true /\ o_CreatedAt t = pb_time (m_CreatedAt m) /\ o_CreatedBy t = pb_string (m_CreatedBy m) /\
    o_UpdatedAt t = pb_time (m_ModifiedAt m) /\ o_UpdatedBy t = pb_string (m_ModifiedBy m) /\ o_ExpiredAt t = pb_time (m_ExpirationTime m)) as Hm.
  { unfold treasureToKeyValuePair in Ht. apply bind_Some in Ht as (slice & _ & Ht). injection Ht as <-. done. }
  destruct Hm as (E1 & E2 & E3 & E4 & E5 & E6 & E7). split; try congruence.
  - intros He. rewrite E7. f_equal. by apply H5.
Qed.
End Shown.

(** ** And back into a model *)

Section Back.
Context `{GC : SdkCodec}.
Variable encoding : EncodingFormat.

(** The model to read into: the same type, every field zero. *)
Definition blank_entry (e : entry) : entry :=
  {| e_Name := e_Name e; e_Role := e_Role e; e_Value := zero_like (e_Value e) |}.

(** The server takes a time at or before 1970 for one that was not set. *)
Definition time_shown (v : gvalue) : gvalue :=
  match v with GTime t => if 0 <? t then v else GTime zero_time | _ => v end.

(** A field that is left out comes back zero, a time as a value is cut to seconds, and a time of the
    treasure is that of [time_shown]. *)
Definition returned (e : entry) : gvalue :=
  let v := e_Value e in
  match e_Role e with
  | NoRole => zero_like v
  | RoleValue o =>
      if o && isFieldEmpty v then zero_like v else
      match v with GTime t => GTime (if IsZero t then t else t / 10 ^ 9 * 10 ^ 9) | _ => v end
  | RoleBody _ o => if o && isFieldEmpty v then zero_like v else v
  | RoleExpireAt _ | RoleCreatedAt _ | RoleUpdatedAt _ => time_shown v
  | _ => v
  end.
Definition returned_entry (e : entry) : entry :=
  {| e_Name := e_Name e; e_Role := e_Role e; e_Value := returned e |}.
(** The fields of a body are read first. *)
Definition after_body (e : entry) : entry :=
  match e_Role e with RoleBody _ _ => returned_entry e | _ => blank_entry e end.

Lemma content_from_view kv : content_from kv = content_from (view ValueSlot kv).
Proof. done. Qed.

Lemma put_data_void v x kv : put_data encoding v (kv_VoidVal x kv) = kv_VoidVal x (put_data encoding v kv).
Proof.
  unfold put_data. destruct v as [s|b|w z|w z|f|f|s|t|t d| |]; try (done || by destruct w); cbn [convertFieldToKvPair].
  - by destruct (IsZero t).
  - destruct (decide _); [done|]. unfold encode_data. by destruct encoding; [destruct (gob_Encode _)|destruct (msgpack_Marshal _)].
Qed.

Lemma set_from_bytes b v :
  setProtoTreasureToModel (content_pb (only_ByteArray (Some b))) v = (let? (v, _) := set_bytes b v in inr v).
Proof. done. Qed.

Lemma value_reads e o :
  e_Role e = RoleValue o -> value_fits encoding (e_Value e) ->
  setProtoTreasureToModel (content_pb (content_from (add_entry encoding e kv_empty))) (zero_like (e_Value e)) = inr (returned e).
Proof.
  destruct e as [nm r v]. cbn [e_Role e_Value]. intros -> Hv. unfold add_entry, returned. cbn [e_Role e_Value].
  destruct (o && isFieldEmpty v) eqn:Eo; [by destruct (isFieldEmpty v); destruct v|].
  assert (content_from (put_data encoding v (if isFieldEmpty v then kv_VoidVal (Some true) kv_empty else kv_empty))
    = content_from (put_data encoding v kv_empty)) as ->; [destruct (isFieldEmpty v); [by rewrite put_data_void|done]|].
  unfold put_data. destruct v as [s|b|w z|w z|f|f|s|t|t d| |]; cbn [convertFieldToKvPair]; try done; cbn in Hv.
  - by destruct b.
  - destruct w; cbn -[i8 i16 u8 u16] in Hv |- *; rewrite ?Hv; first [done | rewrite <-Hv at 2; done].
  - destruct w; cbn -[i8 i16 u8 u16] in Hv |- *; rewrite ?Hv; first [done | rewrite <-Hv at 2; done].
  - by destruct s.
  - unfold IsZero. case_bool_decide as Hz; [by rewrite Hz|done].
  - destruct (decide (g_Kind t = PtrKind /\ d = None)) as [[Hk ->]|Hd]; [done|]. destruct Hv as [?|Hv]; [done|].
    unfold codec_keeps, encode_data in *. destruct encoding.
    + destruct Hv as (b & -> & Hm & Hg). change (content_from _) with (only_ByteArray (Some b)).
      rewrite set_from_bytes. cbn [zero_like set_bytes] in *. unfold decode_data. cbn [zero_like]. by rewrite Hm, Hg.
    + destruct Hv as (b & -> & Hg). change (content_from _) with (only_ByteArray (Some (wrapMsgpack b))).
      rewrite set_from_bytes. cbn [zero_like set_bytes] in *. unfold decode_data.
      assert (isMsgpackEncoded (wrapMsgpack b) = true) as -> by done. change (unwrapMsgpack (wrapMsgpack b)) with b. cbn [zero_like]. by rewrite Hg.
Qed.

Lemma time_kept t : t <> zero_time -> - 2 ^ 63 <= t < 2 ^ 63 ->
  pb_time (time_in (Some (New_timestamp t))) = (if 0 <? t then Some (New_timestamp t) else None) /\
  AsTime (New_timestamp t) = t.
Proof.
  intros Hz Ht. pose proof (Z.div_mod t (10 ^ 9) ltac:(lia)) as Hd. pose proof (Z.mod_pos_bound t (10 ^ 9) ltac:(lia)) as Hm.
  assert (AsTime (New_timestamp t) = t) as Ha by (unfold AsTime, New_timestamp; cbn [Seconds Nanos]; lia).
  split; [|done]. unfold time_in. rewrite Ha. unfold UnixNano. rewrite i64_id by (unfold in_i64; lia).
  assert (isValidTimestamp (Some (New_timestamp t)) = true \/ t <= 0) as [->|Hn].
  { unfold isValidTimestamp, New_timestamp. cbn [Seconds Nanos]. rewrite orb_true_iff, !Z.ltb_lt. nia. }
  - done.
  - unfold pb_time. replace (0 <? t) with false by (symmetry; apply Z.ltb_ge; lia).
    destruct (isValidTimestamp _); [|done]. by replace (0 <? t) with false by (symmetry; apply Z.ltb_ge; lia).
Qed.

(** *** The body *)

Lemma stored_lookup es n o e :
  NoDup (omap (fun e => body_name (e_Role e)) es) -> e ∈ es -> e_Role e = RoleBody n o ->
  stored_body es !! n = if o && isFieldEmpty (e_Value e) then None else Some (e_Value e).
Proof.
  intros Hnd He Hr. unfold stored_body. assert (forall es body, (n ∉ omap (fun e => body_name (e_Role e)) es) ->
    foldl add_body body es !! n = body !! n) as Hno.
  { clear. induction es as [|e es IH]; intros body Hn; [done|]. cbn [foldl omap list_omap] in *. rewrite IH.
    - unfold add_body. destruct (e_Role e) eqn:E; try done. cbn [body_name] in Hn. destruct (_ && _); [done|].
      apply not_elem_of_cons in Hn as [Hn _]. by rewrite lookup_insert_ne.
    - destruct (body_name (e_Role e)); [by apply not_elem_of_cons in Hn as [_ Hn]|done]. }
  assert (forall body, body !! n = None -> foldl add_body body es !! n = if o && isFieldEmpty (e_Value e) then None else Some (e_Value e)) as H;
    [|by apply H, lookup_empty].
  induction He as [e es|e e' es He IH]; intros body Hb; cbn [foldl omap list_omap] in *.
  - rewrite Hr in Hnd. cbn [body_name] in Hnd. apply NoDup_cons in Hnd as [Hn _]. rewrite Hno by done.
    unfold add_body. rewrite Hr. destruct (o && isFieldEmpty (e_Value e)); [done|by rewrite lookup_insert_eq].
  - assert (n ∈ omap (fun e => body_name (e_Role e)) es) as Hin by (apply list_elem_of_omap; exists e; by rewrite Hr).
    destruct (body_name (e_Role e')) as [n'|] eqn:E.
    + apply NoDup_cons in Hnd as [Hn Hnd]. apply IH; [done..|]. unfold add_body. destruct (e_Role e'); try done.
      injection E as E. subst name. destruct (omit && isFieldEmpty (e_Value e')); [exact Hb|].
      rewrite lookup_insert_ne; [exact Hb|]. intros ->. by apply Hn.
    + apply IH; [done..|]. unfold add_body. by destruct (e_Role e').
Qed.

Lemma bodies_blank es i : bodies i (map blank_entry es) = bodies i es.
Proof. revert i. induction es as [|e es IH]; intros i; [done|]. cbn [map bodies blank_entry e_Role]. rewrite IH. by destruct (e_Role e). Qed.

(** Tags alone say what the shape is. *)
Lemma inspect_blank es i h b :
  Forall (role_fits encoding) es -> inspect_fields i (map field_of (map blank_entry es)) h b = inspect_fields i (map field_of es) h b.
Proof.
  intros _. revert i h b. induction es as [|e es IH]; intros i h b; [done|]. cbn [map inspect_fields].
  change (fd_Tag (field_of (blank_entry e))) with (tag_of (e_Role e)). change (fd_Tag (field_of e)) with (tag_of (e_Role e)).
  destruct (tag_of (e_Role e)); [|done]. repeat case_match; apply IH.
Qed.

Lemma decode_body raws es pre :
  (forall e n o, e ∈ es -> e_Role e = RoleBody n o ->
     if o && isFieldEmpty (e_Value e) then raws !! n = None
     else exists raw, raws !! n = Some raw /\ msgpack_Unmarshal (zero_like (e_Value e)) raw = Some (e_Value e)) ->
  decode_fields raws (bodies (length pre) es) (pre ++ map field_of (map blank_entry es))
  = (pre ++ map field_of (map after_body es), None).
Proof.
  revert pre. induction es as [|e es IH]; intros pre Hes; [done|]. cbn [map bodies].
  assert (forall f, decode_fields raws (bodies (S (length pre)) es) (pre ++ f :: map field_of (map blank_entry es))
    = (pre ++ f :: map field_of (map after_body es), None)) as Hn.
  { intros f. specialize (IH (pre ++ [f])). rewrite length_app in IH. cbn [length] in IH. rewrite Nat.add_1_r, <-!app_assoc in IH.
    apply IH. intros e' n o He'. apply Hes. by right. }
  specialize (Hes e). unfold after_body at 1. destruct (e_Role e) as [| | | | | | |n o|] eqn:Hr; try apply Hn.
  specialize (Hes n o ltac:(by left) eq_refl). cbn [decode_fields mb_Name mb_Index]. rewrite list_lookup_middle by done.
  unfold returned_entry, returned. rewrite Hr. destruct (o && isFieldEmpty (e_Value e)).
  - rewrite Hes. rewrite Hn. unfold blank_entry. by rewrite Hr.
  - destruct Hes as (raw & -> & Hm). cbn [field_of blank_entry fd_Value e_Value]. rewrite Hm.
    rewrite insert_app_r_alt, Nat.sub_diag by done. cbn [insert list_insert]. rewrite Hn.
    unfold put_value, field_of. cbn. by rewrite Hr.
Qed.

Lemma no_bodies es i : bodies i es = [] -> map after_body es = map blank_entry es.
Proof.
  revert i. induction es as [|e es IH]; intros i; [done|]. cbn [bodies map]. intros Hb. unfold after_body at 1.
  destruct (e_Role e) eqn:Hr; try (f_equal; by eapply IH); done.
Qed.

Lemma pair_bytes es :
  well_tagged encoding es -> existsb is_value es = false ->
  c_ByteArray (content_from (pair_of encoding es)) =
    (if decide (stored_body es = ∅) then None else wrapMsgpack <$> msgpack_MarshalMap (stored_body es)).
Proof.
  intros Hw Hv. assert (view ValueSlot (add_entries encoding es kv_empty) = kv_empty) as Hview.
  { rewrite view_none; [done|]. intros (e & He & Hs)%list_elem_of_omap. assert (existsb is_value es = true) as H; [|congruence].
    apply existsb_exists. exists e. split; [by apply list_elem_of_In|]. unfold is_value. by destruct (e_Role e). }
  unfold pair_of, put_body. case_decide as Hs; [by rewrite content_from_view, Hview|].
  destruct (wt_body _ _ Hw Hs) as (b & _ & -> & _).
  change (content_from (kv_VoidVal None (kv_BytesVal (Some (wrapMsgpack b)) (add_entries encoding es kv_empty))))
    with (content_from (kv_VoidVal None (kv_BytesVal (Some (wrapMsgpack b)) (view ValueSlot (add_entries encoding es kv_empty))))).
  by rewrite Hview.
Qed.

Lemma read_body es t :
  well_tagged encoding es -> shown (pair_of encoding es) t ->
  (match inspectCatalogModel (map field_of (map blank_entry es)) with
   | inr (catalogShapeMapBody, mapBodyFields) => decodeMapBodyInto (default [] (o_BytesVal t)) (map field_of (map blank_entry es)) mapBodyFields
   | _ => (map field_of (map blank_entry es), None)
   end) = (map field_of (map after_body es), None).
Proof.
  intros Hw Hsh. unfold inspectCatalogModel. rewrite inspect_blank by apply Hw. rewrite (inspect_entries encoding) by apply Hw. cbn [orb app].
  destruct (existsb is_value es) eqn:Hv.
  { pose proof (wt_shape _ _ Hw Hv) as Hb. rewrite Hb. cbn. by rewrite (no_bodies es O). }
  cbn [andb]. destruct (decide (bodies O es <> [])) as [Hb|Hb].
  2: { assert (bodies O es = []) as Hnil by (by destruct (bodies O es); [|exfalso; apply Hb]). by rewrite (no_bodies es O). }
  rewrite (sh_bytes _ _ Hsh), pair_bytes by done.
  assert (forall e n o, e ∈ es -> e_Role e = RoleBody n o ->
    stored_body es !! n = if o && isFieldEmpty (e_Value e) then None else Some (e_Value e)) as Hl
    by (intros; eapply stored_lookup; [apply Hw|done..]).
  case_decide as Hs; cbn [default]; unfold decodeMapBodyInto.
  - rewrite decide_True by (by left). f_equal. f_equal. apply map_ext_in. intros e He%list_elem_of_In.
    unfold after_body, returned_entry, returned. destruct (e_Role e) as [| | | | | | |n o|] eqn:Hr; try done.
    specialize (Hl e n o He Hr). rewrite Hs, lookup_empty in Hl. destruct (o && isFieldEmpty (e_Value e)); [|done].
    unfold blank_entry. by rewrite Hr.
  - destruct (wt_body _ _ Hw Hs) as (b & raws & -> & Hbn & Hu & Hk). change (default [] (wrapMsgpack <$> Some b)) with (wrapMsgpack b).
    rewrite decide_False by (intros [?|?]; done). assert (isMsgpackEncoded (wrapMsgpack b) = true) as -> by done.
    change (unwrapMsgpack (wrapMsgpack b)) with b. rewrite decide_False by done. rewrite Hu.
    apply (decode_body raws es []). intros e n o He Hr. specialize (Hk n). rewrite (Hl e n o He Hr) in Hk.
    by destruct (o && isFieldEmpty (e_Value e)).
Qed.

(** *** The other fields *)

Lemma view_pair s e es :
  well_tagged encoding es -> s <> ValueSlot -> e ∈ es -> slot_of (e_Role e) = Some s ->
  view s (pair_of encoding es) = view s (add_entry encoding e kv_empty).
Proof.
  intros Hw Hs He Hr. unfold pair_of. rewrite view_put_body by done. rewrite (view_entry encoding s es e) by (done || apply Hw).
  by destruct s.
Qed.

Lemma value_of_pair e o es :
  well_tagged encoding es -> e ∈ es -> e_Role e = RoleValue o ->
  content_from (pair_of encoding es) = content_from (add_entry encoding e kv_empty).
Proof.
  intros Hw He Hr. assert (existsb is_value es = true) as Hv.
  { apply existsb_exists. exists e. split; [by apply list_elem_of_In|]. unfold is_value. by rewrite Hr. }
  assert (stored_body es = ∅) as Hs by (apply (bodies_nil es O), (wt_shape _ _ Hw Hv)).
  unfold pair_of, put_body. rewrite decide_True by done. rewrite content_from_view.
  rewrite (view_entry encoding ValueSlot es e) by (done || apply Hw || by rewrite Hr). by rewrite <-content_from_view.
Qed.

Lemma time_reads put (part : KeyValuePair -> option Timestamp) o v :
  (forall x kv, part (put x kv) = x) -> part kv_empty = None -> time_fits o v ->
  set_when (pb_time (time_in (part (put_time put v kv_empty)))) set_time (zero_like v) = Next (time_shown v, None) /\
  match part (put_time put v kv_empty) with Some x => IsZero (AsTime x) = false | None => True end.
Proof.
  intros Hp Hn (t & -> & [[-> _]|Ht]); cbn [put_time zero_like].
  - unfold IsZero. rewrite bool_decide_true by done. by rewrite Hn.
  - destruct Ht as [Hz Ht]. destruct (time_kept t Hz Ht) as (E1 & E2). unfold IsZero. rewrite bool_decide_false by done.
    rewrite Hp, E1, E2. split; [|by rewrite bool_decide_false]. cbn [time_shown].
    destruct (0 <? t); cbn [set_when]; [by unfold set_time; rewrite E2|done].
Qed.
Lemma by_reads put (part : KeyValuePair -> bytes) v :
  (forall x kv, part (put x kv) = x) -> part kv_empty = [] -> (exists s, v = GString s) ->
  set_when (pb_string (part (put_by put v kv_empty))) set_string (zero_like v) = Next (v, None).
Proof.
  intros Hp Hn (s & ->). cbn [put_by zero_like]. destruct (decide (s = [])) as [->|Hs]; [by rewrite Hn|].
  rewrite Hp. unfold pb_string. by destruct s.
Qed.

Definition assign_to (t : pb_Treasure) (e : entry) : outcome (gvalue * option model_error) :=
  match tag_of (e_Role e) with
  | Some tag => assign t tag (e_Value (after_body e))
  | None => Next (e_Value (after_body e), None)
  end.

(** The part of the pair that a slot is about. *)
Ltac part_case part slot Hv :=
  let Hp := fresh "Hp" in
  pose proof (f_equal part (Hv slot ltac:(done) eq_refl)) as Hp;
  match type of Hp with part (view _ ?y) = part (view _ ?x) => change (part y = part x) in Hp end.

Lemma assign_entry es t e :
  well_tagged encoding es -> shown (pair_of encoding es) t -> e ∈ es -> assign_to t e = Next (returned e, None).
Proof.
  intros Hw Hsh He. pose proof (proj1 (Forall_forall _ _) (wt_roles _ _ Hw) e He) as Hf.
  assert (forall s, s <> ValueSlot -> slot_of (e_Role e) = Some s ->
    view s (pair_of encoding es) = view s (add_entry encoding e kv_empty)) as Hv by (intros; by eapply view_pair).
  assert (forall o, e_Role e = RoleValue o -> setProtoTreasureToModel t (zero_like (e_Value e)) = inr (returned e)) as Hval.
  { intros o Hr. rewrite (sh_value _ _ Hsh), (value_of_pair e o es) by done. unfold role_fits in Hf. rewrite Hr in Hf. by eapply value_reads. }
  unfold assign_to, after_body, blank_entry, returned_entry. unfold role_fits in Hf. unfold add_entry in Hv.
  destruct (e_Role e) as [|o|o|o|o|o|o|n o|] eqn:Er; cbn [tag_of slot_of e_Value] in *; unfold assign.
  1-7: try destruct o; cbn [tag_for]; read_tags.
  all: try by rewrite (Hval _ eq_refl).
  1: destruct Hf as (k & Ev & Hk); pose proof (f_equal p_Key (Hv KeySlot ltac:(done) eq_refl)) as Hp.
  1: rewrite (sh_key _ _ Hsh); unfold returned; rewrite Ev, Er in *; cbn in Hp |- *; by rewrite Hp.
  all: match goal with
    | |- context [o_ExpiredAt] => part_case p_ExpiredAt ExpireAtSlot Hv; rewrite (sh_expires _ _ Hsh)
    | |- context [o_CreatedAt] => part_case p_CreatedAt CreatedAtSlot Hv; rewrite (sh_created _ _ Hsh)
    | |- context [o_CreatedBy] => part_case p_CreatedBy CreatedBySlot Hv; rewrite (sh_creator _ _ Hsh)
    | |- context [o_UpdatedAt] => part_case p_UpdatedAt UpdatedAtSlot Hv; rewrite (sh_updated _ _ Hsh)
    | |- context [o_UpdatedBy] => part_case p_UpdatedBy UpdatedBySlot Hv; rewrite (sh_updater _ _ Hsh)
    | _ => idtac
    end.
  all: unfold returned; rewrite ?Er.
  1-12: match goal with H : ?f (pair_of _ _) = _ |- _ => rewrite H end; first [by eapply by_reads | match goal with |- context [put_time ?put] =>
    edestruct (time_reads put) as [H1 H2]; [| |exact Hf|first [exact H1|exact H2]]; done end].
  - rewrite !(plain_tag n o) by (done || (unfold reservedHydraideTagNames; rewrite !elem_of_cons; tauto)).
    done.
  - done.
Qed.

Lemma assign_all es t rest :
  well_tagged encoding es -> shown (pair_of encoding es) t -> rest ⊆ es ->
  assign_fields t (map field_of (map after_body rest)) = Next (map field_of (map returned_entry rest), None).
Proof.
  intros Hw Hsh. induction rest as [|e rest IH]; intros Hr; [done|]. cbn [map assign_fields].
  assert (e_Role (after_body e) = e_Role e /\ e_Name (after_body e) = e_Name e) as [Er En]
    by (unfold after_body; by destruct (e_Role e) eqn:E; cbn; rewrite ?E).
  pose proof (assign_entry es t e Hw Hsh (Hr e ltac:(by left))) as Ha. unfold assign_to in Ha.
  change (fd_Tag (field_of (after_body e))) with (tag_of (e_Role (after_body e))). rewrite Er.
  change (fd_Value (field_of (after_body e))) with (e_Value (after_body e)). rewrite Ha. cbn [obind].
  rewrite IH by (intros x Hx; apply Hr; by right). unfold put_value, field_of. cbn. by rewrite Er, En.
Qed.

Lemma add_no_slice e kv : p_Uint32Slice kv = None -> p_Uint32Slice (add_entry encoding e kv) = None.
Proof.
  intros Hn. destruct e as [nm r v]. unfold add_entry, put_time, put_by, put_data. cbn [e_Role e_Value].
  assert (p_Uint32Slice (if isFieldEmpty v then kv_VoidVal (Some true) kv else kv) = None) as Hv by (by destruct (isFieldEmpty v)).
  destruct r; try done.
  2: { revert Hv. generalize (if isFieldEmpty v then kv_VoidVal (Some true) kv else kv). intros kv' Hv. destruct (omit && isFieldEmpty v); [done|].
    destruct v as [s|b|w z|w z|f|f|s|t|t d| |]; cbn [convertFieldToKvPair]; try (done || by destruct w).
    - by destruct (IsZero t).
    - destruct (decide _); [done|]. unfold encode_data. by destruct encoding; [destruct (gob_Encode _)|destruct (msgpack_Marshal _)]. }
  all: clear Hv; destruct v; try exact Hn; case_match; exact Hn.
Qed.
Lemma pair_no_slice es : p_Uint32Slice (pair_of encoding es) = None.
Proof.
  assert (forall kv, p_Uint32Slice kv = None -> p_Uint32Slice (add_entries encoding es kv) = None) as Ha.
  { induction es as [|e es' IH]; intros kv Hn; [done|]. cbn [add_entries foldl]. apply IH. by apply add_no_slice. }
  specialize (Ha kv_empty eq_refl). unfold pair_of, put_body. case_decide; [done|]. by destruct (msgpack_MarshalMap _).
Qed.

(** C40: a model whose tags name one role each, saved under a key that the swamp does not have, is
    read back into an empty model of its type with every field as it was, up to what [returned] says:
    fields that were left out come back zero, a time saved as a value loses its fraction of a second,
    and a creation, update or expiration time at or before 1970, which the server takes for one that was
    not set, comes back as the zero time.  Those times are taken in the range whose nanoseconds fit an
    [int64]. *)
Theorem model_reads_back es :
  well_tagged encoding es ->
  exists kv t, convertCatalogModelToKeyValuePair (Pointer_to (map field_of es)) encoding = inr kv /\
    treasureToKeyValuePair {| t_model := new_model kv ∅; t_guard := Guard.New; t_flags := no_flags |} = Some t /\
    convertProtoTreasureToCatalogModel t (Pointer_to (map field_of (map blank_entry es)))
      = Next (Pointer_to (map field_of (map returned_entry es)), None).
Proof.
  intros Hw. exists (pair_of encoding es). destruct (made_shown (pair_of encoding es) (new_model (pair_of encoding es) ∅)) as (t & Ht & Hsh).
  { apply new_model_made, pair_no_slice. }
  exists t. split_and!; [by apply convert_model|done|].
  unfold convertProtoTreasureToCatalogModel. rewrite read_body by done. by rewrite (assign_all es).
Qed.
End Back.

(** ** Concrete models *)

Module ModelSample.
(** Small numbers as bytes; the body of at most two entries, each a byte for its name and one for its number. *)
Definition number (v : gvalue) : option byte :=
  match v with GInt _ z => Byte.of_N (Z.to_N z) | GString [b] => Some b | _ => None end.
Definition from_number (v : gvalue) (b : bytes) : option gvalue :=
  match v, b with
  | GInt w _, [x] => Some (GInt w (Z.of_N (Byte.to_N x)))
  | GString _, [x] => Some (GString [x])
  | _, _ => None
  end.
Definition entry_bytes (p : bytes * gvalue) : option bytes :=
  v ← number p.2; n ← Byte.of_nat (length p.1); Some (n :: p.1 ++ [v]).
Fixpoint body_bytes (l : list (bytes * gvalue)) : option bytes :=
  match l with
  | [] => Some []
  | p :: l => a ← entry_bytes p; b ← body_bytes l; Some (a ++ b)
  end.
Fixpoint body_entries (fuel : nat) (b : bytes) : option (gmap bytes bytes) :=
  match fuel, b with
  | _, [] => Some ∅
  | O, _ => None
  | S fuel, n :: b =>
      let k := Byte.to_nat n in
      m ← body_entries fuel (drop (S k) b); Some (<[take k b := take 1 (drop k b)]> m)
  end.
#[export] Instance small_codec : SdkCodec := {
  gob_Encode _ := None; gob_Decode _ _ := None;
  msgpack_Marshal v := v ← number v; Some [v]; msgpack_Unmarshal := from_number;
  msgpack_MarshalMap m := body_bytes (map_to_list m);
  msgpack_UnmarshalMap b := body_entries (length b) b
}.

(** A model with a body, and one with a value. *)
Definition bodied : list entry :=
  [{| e_Name := bs "ID"; e_Role := RoleKey; e_Value := GString (bs "k") |};
   {| e_Name := bs "Name"; e_Role := RoleBody (bs "name") false; e_Value := GString (bs "n") |};
   {| e_Name := bs "Age"; e_Role := RoleBody (bs "age") true; e_Value := GInt W32 7 |};
   {| e_Name := bs "Note"; e_Role := RoleBody (bs "note") true; e_Value := GString [] |};
   {| e_Name := bs "At"; e_Role := RoleCreatedAt true; e_Value := GTime 1500000000 |};
   {| e_Name := bs "By"; e_Role := RoleUpdatedBy false; e_Value := GString (bs "me") |};
   {| e_Name := bs "Until"; e_Role := RoleExpireAt true; e_Value := GTime zero_time |}].

Lemma no_comma n : forallb (fun b => negb (Byte.eqb b comma)) n = true -> comma ∉ n.
Proof.
  rewrite forallb_forall. intros Hn Hc%list_elem_of_In. specialize (Hn _ Hc). vm_compute in Hn. discriminate.
Qed.
Lemma bodied_plain n : n ∈ [bs "name"; bs "age"; bs "note"] -> plain_name n.
Proof.
  intros Hn. rewrite !elem_of_cons, elem_of_nil in Hn. unfold plain_name. rewrite <-Forall_forall.
  destruct Hn as [->|[->|[->|[]]]]; (split_and!; [done|by apply no_comma; vm_compute|repeat (apply Forall_cons_2; [by vm_compute|]); apply Forall_nil_2]).
Qed.

Definition bodied_map : gmap bytes gvalue := <[bs "age" := GInt W32 7]> {[bs "name" := GString (bs "n")]}.
Definition bodied_bytes : bytes := default [] (msgpack_MarshalMap bodied_map).
Definition bodied_raws : gmap bytes bytes := default ∅ (msgpack_UnmarshalMap bodied_bytes).
Lemma bodied_kept : map_keeps bodied_map.
Proof.
  exists bodied_bytes, bodied_raws. split_and!; [vm_compute; reflexivity|intros E; vm_compute in E; discriminate E|vm_compute; reflexivity|].
  intros k. assert (bodied_raws = <[bs "age" := [x07]]> {[bs "name" := bs "n"]}) as -> by (vm_compute; reflexivity).
  unfold bodied_map. destruct (decide (k = bs "age")) as [->|H1]; [by eexists|].
  destruct (decide (k = bs "name")) as [->|H2]; [by eexists|].
  by rewrite !lookup_insert_ne, !lookup_singleton_ne by congruence.
Qed.

Lemma bodied_well_tagged : well_tagged EncodingMsgPack bodied.
Proof.
  split.
  - unfold bodied. repeat (apply Forall_cons_2; [unfold role_fits; cbn [e_Role e_Value]|]); [..|apply Forall_nil_2].
    + by exists (bs "k").
    + apply bodied_plain. by left.
    + apply bodied_plain. by right; left.
    + apply bodied_plain. by do 2 right; left.
    + exists 1500000000. split; [done|]. right. split; [unfold zero_time|]; lia.
    + by eexists.
    + exists zero_time. split; [done|]. by left.
  - change (slots bodied) with [KeySlot; CreatedAtSlot; UpdatedBySlot; ExpireAtSlot].
    repeat (apply NoDup_cons_2; [rewrite ?elem_of_cons, ?elem_of_nil; naive_solver|]). apply NoDup_nil_2.
  - by left.
  - change (NoDup [bs "name"; bs "age"; bs "note"]).
    repeat (apply NoDup_cons_2; [rewrite ?elem_of_cons, ?elem_of_nil; intuition discriminate|]). apply NoDup_nil_2.
  - done.
  - intros _. exact bodied_kept.
Qed.
End ModelSample.

#[local] Existing Instance ModelSample.small_codec.

Lemma model_reads_back_witness :
  well_tagged EncodingMsgPack ModelSample.bodied /\
  exists kv t, convertCatalogModelToKeyValuePair (Pointer_to (map field_of ModelSample.bodied)) EncodingMsgPack = inr kv /\
    treasureToKeyValuePair {| t_model := new_model kv ∅; t_guard := Guard.New; t_flags := no_flags |} = Some t /\
    convertProtoTreasureToCatalogModel t (Pointer_to (map field_of (map blank_entry ModelSample.bodied)))
      = Next (Pointer_to (map field_of (map returned_entry ModelSample.bodied)), None).
Proof. split; [exact ModelSample.bodied_well_tagged|exact (model_reads_back EncodingMsgPack _ ModelSample.bodied_well_tagged)]. Defined.

(** ** Tags that the checks misread *)

Module TagSample.
(** What a model is after it was saved under a new key and read into an empty model of its type. *)
Definition saved_and_read (fields : list field) : option (outcome (gmodel * option model_error)) :=
  match convertCatalogModelToKeyValuePair (Pointer_to fields) EncodingMsgPack with
  | inl _ => None
  | inr kv =>
      t ← treasureToKeyValuePair {| t_model := new_model kv ∅; t_guard := Guard.New; t_flags := no_flags |};
      Some (convertProtoTreasureToCatalogModel t (Pointer_to (map (fun f => put_value (zero_like (fd_Value f)) f) fields)))
  end.
Definition tagged (name tag : string) (v : gvalue) : field :=
  {| fd_Name := bs name; fd_Tag := Some (bs tag); fd_Value := v |}.
Definition id : field := tagged "ID" "key" (GString (bs "k")).

(** A number of the body whose name has [value] in it is saved as the value of the treasure, and takes
    the place of the whole body: the other fields come back empty, and no error says so. *)
Example value_in_a_name_loses_the_body :
  let name v := tagged "Name" "name" (GString v) in
  let price := tagged "Price" "valueEUR" (GInt W64 9) in
  saved_and_read [id; name (bs "n"); price] = Some (Next (Pointer_to [id; name []; price], None)).
Proof. vm_compute. reflexivity. Qed.

(** A string of the body whose name has [key] in it comes back as the key, and a number panics. *)
Example key_in_a_name_is_the_key :
  let word v := tagged "Word" "keyword" (GString v) in
  saved_and_read [id; word (bs "w")] = Some (Next (Pointer_to [id; word (bs "k")], None)) /\
  saved_and_read [id; tagged "Count" "keyCount" (GInt W32 3)] = Some Panic.
Proof. vm_compute. split; reflexivity. Qed.

(** The model that the guide shows for search results can not be saved: [searchMeta] counts as a body. *)
Example searchMeta_counts_as_a_body :
  convertCatalogModelToKeyValuePair (Pointer_to [id; tagged "Body" "value" (GInt W32 1);
    tagged "Meta" "searchMeta" (GData {| g_Kind := PtrKind; g_Uint32s := false; g_Id := 1 |} None)]) EncodingMsgPack
  = inl MixedShapes.
Proof. vm_compute. reflexivity. Qed.

(** A creation time of 1969 is saved without an error and comes back as the zero time. *)
Example old_time_is_lost :
  let at_ t := tagged "At" "createdAt" (GTime t) in
  saved_and_read [id; at_ (- 10 ^ 9)] = Some (Next (Pointer_to [id; at_ zero_time], None)).
Proof. vm_compute. reflexivity. Qed.
End TagSample.
